(* ===== verification/_CoqProject ===== *)
-Q . S2P
Prelude.v
Decimal.v
Protocol.v
CoreBook.v
CoreMatch.v
CoreSpec.v
CoreLimit.v
CoreFok.v
CoreHeight.v
CoreMarket.v
CoreEngine.v
CoreDepth.v
CoreProps.v
ProtocolProps.v
HpTypes.v
HpIndex.v
HpBook.v
HpEngine.v
HpTotals.v
HpProps.v
HpArt.v
HpArtProps.v
HpSim.v
HpScale.v
Spsc.v
SpscProps.v
RaftFsm.v
RaftProps.v
Mold.v
MoldProps.v
Journal.v
UdpOrder.v
UdpOrderProps.v
Utf8.v
Gateway.v
GatewayProps.v
Soup.v
SoupProps.v
Ouch.v
Wal.v
Adapter.v
Contract.v
ContractProps.v
Topics.v
MemoryMq.v
Redis.v
Spot.v
SpotProps.v
Rpc.v
ContractStart.v
SpotStart.v
RestartProps.v
Replay.v
ReplayProps.v
PriorityBook.v
PlainDecimal.v
CrossCore.v
CrossHp.v
CrossProps.v
Workload.v
WorkloadProps.v
GatewayClient.v
GatewayClientProps.v
Telemetry.v
Process.v
Frames.v
DpdkApps.v
DpdkProps.v
Shards.v
ShardRing.v
CrashTest.v
HpBench.v
NetBench.v
SoupBench.v
SoupBenchProps.v
SoupCmpProps.v
SoupMatrix.v
SpotBench.v
MoldBench.v
WalBench.v
