(* ===== verification/Prelude.v ===== *)
(** * match-rust: a verification of the matching engines and their processes

    The repository is a Rust workspace of two matching engines and the parts
    around them.  [match-core] is the equivalence track: decimal prices, one
    sorted set of orders per side.  [match-core-hp] is the performance track:
    integer ticks and lots, price levels with FIFO queues, a command ring and a
    worker.  Both take orders from [match-protocol].  [match-contract] and
    [match-spot] are the processes: they restore open orders at startup, route
    messages to one worker per symbol and push events and depth back.
    [match-soupbintcp] and [match-udp-order] are order entry protocols,
    [match-moldudp64] publishes market data, [match-dpdk-io] carries both over raw
    Ethernet frames, [match-raft-fsm] replicates the performance engine by log, a
    memory-mapped journal and [match-wal] record what happened, [match-replay]
    checks an engine against recorded traces and [match-bench] compares the two.

    ** The files and what they model (paths under [src/crates])

    - [Prelude]: machine integers with their wrap-around, byte strings, the
      development's tactics, hint and rewrite databases, generic lemmas.
    - [Decimal]: the crate [bigdecimal] as the classes [BigDecimal] and
      [BigDecimalSpec]; [SciDecimal] is a computable instance used by witnesses.
      [PlainDecimal] adds what is relied on of plain decimal texts, with an
      instance that has it.
    - [Protocol] ([match-protocol/src]): constants, [MqOrder], [BbOrder],
      validation and conversion.  Properties in [ProtocolProps].

    The decimal engine, [match-core/src]:
    - [CoreBook] ([order.rs], [book.rs], [depth.rs]): price-time comparison, the
      two sorted sides, depth.
    - [CoreMatch] ([event.rs], [price_utils.rs], [match_limit.rs]), [CoreFok]
      ([handlers/fok_buy.rs], [fok_sell.rs]), [CoreHeight]
      ([handlers/height_buy.rs], [height_sell.rs]), [CoreMarket]
      ([match_market.rs]), [CoreEngine] ([engine.rs]): the handlers, composed as
      [Engine::on_order] composes them.
    - [CoreSpec]: the abstract contract, a step relation [trade] between the two
      best orders; [CoreLimit], [CoreFok], [CoreHeight], [CoreMarket] and
      [CoreEngine] show that the handlers refine it; [CoreDepth] treats the
      depth aggregation.  Properties in [CoreProps].

    The performance engine, [match-core-hp/src]:
    - [HpTypes] ([types.rs], [level.rs], [order_store.rs]): orders, commands,
      events, the slot store with its free list.
    - [HpIndex] ([level_index.rs]): the trait [LevelIndex] as a class, its
      contract [LevelIndexSpec] against a finite map, the B-tree instances.
    - [HpBook] ([book.rs]), [HpEngine] ([engine.rs]): the level book with cached
      best ticks and level pool, the engine with its client index; proved
      against [LevelIndexSpec] only.  [HpTotals] follows open lots and level
      totals.  Properties in [HpProps].
    - [HpArt] ([art_index.rs]): the byte radix tree as a second instance of the
      contract; [HpArtProps] compares the two indexes, [HpSim] the two engines.
    - [HpScale] ([scale.rs]): decimal text to ticks and lots and back.
    - [Spsc] ([spsc.rs], [worker.rs]): the ring's operations alone and as
      interleaved atomic steps, the worker.  Properties in [SpscProps].
    - [Journal] ([journal.rs]): records, append, the commit protocol as steps
      against a disk that pages reach at any time and in any order, recovery
      after a crash.
    - [Adapter] ([adapter.rs] and the worker of [match-contract] with this
      engine): typed orders to commands.

    The two engines together:
    - [PriorityBook]: an abstract book, per side a list of entries from best to
      worst, with limit orders and revokes.  [CrossCore] shows that [match-core]
      implements it, [CrossHp] that [match-core-hp] does; [CrossProps] that the
      worker with either engine therefore reports the same.
    - [Workload] ([match-bench/src/workload.rs], [tier.rs], [metrics.rs],
      [bin/fair_compare.rs], [bin/tier_sweep.rs]): the workloads, fill counts,
      verdict and gates.  Properties in [WorkloadProps], proved on the abstract
      book.
    - [Shards] ([match-udp-order/src/bin/multi_shard_bench.rs],
      [rss_shard_bench.rs]): router, channels and matching threads as interleaved
      steps.  [ShardRing] ([client_shard_bench.rs]): a client, its ring and a
      matching thread with the flag that closes it.
    - [CrashTest] ([hp_journal_crash_test.rs]): journal and engine in a process
      that is killed between any two small steps, replay, checkpoints, comparison,
      and the two scenarios of the test.

    - [HpBench] ([match-udp-order/src/bin/hp_shard_bench.rs],
      [hp_client_shard_bench.rs], [hp_engine_bench.rs], [hp_journal_bench.rs] and
      the performance half of [engine_pure_bench.rs]): the command streams of the
      benchmarks, shards, journal runs and the pipeline of client, ring and worker
      as interleaved steps.
    - [NetBench] ([tcp_order_bench.rs], [tcp_rss_shard_bench.rs],
      [udp_rss_hp_bench.rs], the other half of [engine_pure_bench.rs] and
      [match-core-hp/src/affinity.rs]): orders as lines of text over a stream or as
      datagrams, their answers, thread pinning.
    - [SpotBench] ([match-spot/src/bin/spot_bench.rs]): the scenarios of the spot
      benchmark through the engine and through router, queue, worker and outbound.
      These files end with their properties.

    Replication, logs and protocols:
    - [RaftFsm] ([match-raft-fsm/src/lib.rs]): command and event encoding, the
      replicated state machine with its snapshots.  Properties in [RaftProps].
    - [Wal] ([match-wal/src/lib.rs]): record layout, bounded channel, flusher;
      callers and flusher are interleaved steps, writes and syncs can fail.
    - [Mold] ([match-moldudp64/src]): wire format, history ring, publisher,
      retransmit server, subscriber.  Properties in [MoldProps].
    - [UdpOrder] ([match-udp-order/src/packet.rs], [session.rs]): frames, the
      client and the server session.  Properties in [UdpOrderProps], against a
      network that delivers any datagram sent, any number of times or never.
    - [Utf8]: UTF-8 text and numbers as the Rust standard library reads them.
    - [Gateway] ([match-udp-order/src/bin/udp_order_gw.rs]): order and report texts,
      session, engine and reports together, the serving loop.  Properties in
      [GatewayProps].
    - [GatewayClient] (the client of the same program): the sending window, the
      request when reports stall, resending, the loop and its end, the client with
      one order in flight; [exchange] runs both loops against each other.  Properties
      in [GatewayClientProps].
    - [Soup] ([match-soupbintcp/src/packet.rs], [session.rs]): framing, stream
      parsing, login and session machines.  Properties in [SoupProps].
    - [Ouch] ([match-soupbintcp/src/ouch.rs]): the six messages.
    - [SoupBench] ([match-dpdk-io/src/bin/soup_tcp_bench.rs], [soup_cmp_bench.rs]) and
      [SoupMatrix] ([soup_perf_matrix.rs]): servers and clients over byte streams, with
      new logins, several reports per order and connections that break.  Properties of
      the first in [SoupBenchProps] and [SoupCmpProps].
    - [MoldBench] ([mold_udp_bench.rs], [mold_mcast_bench.rs],
      [mold_outbound_bench.rs], [mold_dpdk_bench.rs]): publishing over a socket that
      may block, receiving, packing, replay of a capture; [WalBench]
      ([match-wal/src/bin/wal_bench.rs]): appending to the log.
    - [Frames] ([match-dpdk-io/src/dpdk/mod.rs], [port.rs], [bin/dpdk_tap_order.rs]):
      Ethernet, IPv4 and UDP frames in receive buffers, replies with their
      checksum, sending and its errors, pcap files.
    - [DpdkApps] ([match-dpdk-io/src/bin]): the generator, the publisher, the
      verifying receivers and the order gateway on frames.  Properties in
      [DpdkProps].

    The processes:
    - [Contract] ([match-contract/src/inbound.rs], [symbol_worker.rs],
      [outbound.rs], [error_queue.rs]): startup filter, routing, the worker
      round, pushes, depth throttle, error queue.  Properties in
      [ContractProps].
    - [Spot] ([match-spot/src/inbound.rs], [symbol_worker.rs], [outbound.rs],
      [spot_depth.rs], [error_queue.rs], [mq/producer.rs]): the same parts of
      the spot process, with its own depth builder and the multicast feed.
      Properties in [SpotProps].
    - [MemoryMq] ([mq/memory.rs] of both): the sink and the source used in local
      runs, with publishers, start, stop and polling threads as interleaved steps.
    - [Topics] (topic names and subscriptions), [Redis] ([redis_store.rs]), [Rpc]
      (pages and responses), [ContractStart] and [SpotStart] ([bootstrap.rs],
      [config.rs], [rpc]): startup.  Properties in [RestartProps].
    - [Telemetry] ([telemetry.rs] of both): the counters, which step moves which,
      the text of [/metrics]; the classes [Router] and [Worker] say what the
      pipelines promise about their counters.
    - [Process] ([config.rs], [health.rs], [main.rs] of both): configuration with
      its defaults, transport, readiness and the phases of a run.
    - [Replay] ([match-replay/src/trace.rs], [diff.rs]): traces, replay through
      the engine, comparison.  Properties in [ReplayProps].

    ** What the theorems show

    C1-C11 ([CoreProps], [CrossProps]): any stream of orders is handled to the end
    and keeps every book sorted, uncrossed and consistent; every new order settles
    by the abstract contract; fill-or-kill is all or nothing; quantity is conserved
    on the makers' side for every order and on the taker's side for every order that
    is not fill-or-kill; makers are taken in price-time priority at their own price
    or better for the taker; an IOC order is filled, or gets the rest back when no
    maker within its limit is left; PostOnly and revoke behave as their names say; a
    market order is filled, or gets the rest back for a reason that holds, or rests
    untouched behind an order that is not a market order; depth is exact.  C6: on
    limit orders and revokes both engines report the same events, order by order,
    and end with the same book.

    C12-C17 ([HpProps], [HpSim], [SpscProps]): the same for the performance engine:
    stream invariant, limit matching, exact depth totals; an engine over the radix
    tree emits the same events; the ring is FIFO and race free under every
    interleaving, and polling ends.

    C18-C23: a journal restart after a crash at any point reads back a prefix of the
    records that has everything a commit covered; a journaling engine that is killed
    anywhere is rebuilt to a state it was in, at least that of its last checkpoint,
    and the crash test says so when commits stand at whole rounds of its orders, a
    checkpoint can be read and not everything was committed; snapshots of the
    replicated machine restore exactly and retries are harmless; ticks and lots
    survive text; the write-ahead log holds the records received, in order, and an
    answered flush covers what was sent before it.

    C24-C25: matching in shards by symbol is matching in one engine, for every
    schedule; through the ring of a client a shard matches a prefix of its orders.

    C26-C33, the protocols: lost market data is noticed when the next datagram carries
    data, and as many messages as one request names are recovered if the sockets take
    request and reply and the cache still holds them; through the
    UDP gateway orders reach the engine exactly once and its reports reach the
    client in order and unchanged, and over a network that delivers its client loop
    ends with a report for every order; the gateway on raw frames answers as the one
    on sockets; a SoupBinTCP client that logs in again receives what it missed; OUCH
    messages and frames survive the wire and parsing any buffer stays inside it.

    C34-C38, the processes, with Redis up: a restart terminates; it fails when an
    open order has a symbol without a queue, and when all have one with room it
    restores exactly the open orders of each queue; until the filter of the contract
    process is cleared no restored order is applied twice; each worker runs to the
    end and offers exactly the events of its engine to its topics, keeping what was
    refused; what the feed's socket takes of the spot feed and the network delivers
    are exactly bodies pushed, with their numbers.  C39: the trace comparison
    reports nothing exactly when the engine did what the trace says.  C40: both
    engines have the fills the fair comparison expects, at every size.

    Further theorems stand beside the numbered ones in the same files, among them
    [CoreProps.market_order_left_resting], [HpProps.hp_market_never_rests],
    [HpProps.hp_cancel_by_client], [Adapter.hp_worker_runs],
    [UdpOrderProps.udp_orders_exactly_once], [UdpOrderProps.udp_report_gap_recovered],
    [SoupProps.soup_stream_reassembled], [ContractProps.contract_depth_throttled],
    [SpotProps.spot_depth_like_core] and [WorkloadProps.tier_gates];
    [DpdkProps.dpdk_replay_passes] (the verifying receivers pass on what their
    generators write), [Redis.node_url_roundtrip] (addresses are read back as node and
    password), [Telemetry.telemetry_balance] (the counters balance with the orders)
    and [Process.ready_after_bootstrap] (a process is ready only when it serves);
    [HpBench.hp_pipe_in_order] (the matching thread handles the commands in
    sending order under every interleaving), [HpBench.journal_bench_run] (the
    journal run ends unless the journal is full, and what it syncs without a commit
    is not recovered), [NetBench.pure_engines_agree] (both engines have the same
    fills on the paired stream), [NetBench.tcp_bench_answers] and
    [NetBench.udp_bench_run] (every order sent is answered or counted);
    [SoupBenchProps.soup_tcp_bench_passes] (every order is reported once, and a new
    login replays the reports it asks for), [SoupCmpProps.soup_cmp_in_order] and
    [SoupCmpProps.soup_cmp_ends] (reports in order under every interleaving, and an end
    from every state), [SoupMatrix.matrix_connection] and
    [SoupMatrix.matrix_orders_written] (what a connection of the matrix brings);
    [SpotBench.spot_bench_fills] (the fills of every scenario at every size),
    [SpotBench.spot_shell_counts_messages]; [MoldBench.mold_udp_reports],
    [MoldBench.mold_udp_waits], [MoldBench.mold_batch_packs],
    [MoldBench.mold_dpdk_counts] and [MoldBench.mold_mcast_ends] (when the
    benchmarks of the feed end and what they count); [WalBench.wal_bench_writes_all]
    (the file of the log benchmark is exactly its records, under every interleaving).

    Lemmas beside these record where the code does something else than it means
    to: [Wal.wal_retry_appends_again], [UdpOrderProps.udp_retry_strands_order],
    [Adapter.hp_revoke_hits_foreign_order], [RestartProps.contract_restore_hangs],
    [MoldProps.mold_heartbeat_hides_loss], [GatewayProps.gateway_panics_on_bad_decimal],
    [ShardRing.shutdown_loses_orders], [HpBench.hp_shutdown_loses],
    [DpdkProps.tap_idle_never_stops], [SoupMatrix.matrix_hangs],
    [MoldBench.mold_mcast_one_round].
    [MemoryMq.memory_exactly_once] shows that the memory transport hands every
    message over exactly once.

    ** Modelling choices

    Mutation is state passing.  A method that returns [&mut T] takes the function
    applied through the reference.  [None] stands for a panic or for fuel that ran
    out; the theorems show that neither happens.  Fuel: the loops of [match-core]
    get one more round than there are resting orders (each round removes one), those
    of [match-core-hp] one more than there are live orders, the radix tree nine
    steps for eight bytes, [replay_all] one more than the log has bytes, [poll] two
    more than the idle limit, the stream parser one more than the buffer has bytes;
    the paging loops of startup take their fuel as an argument and the theorems say
    how much is enough, a connection of [SoupMatrix] three rounds more than twice
    its reads, the packing loop of [MoldBench] one more than there are messages.
    Integers keep their width where the code can overflow ([i64_wrap], [u64_wrap],
    [u32_wrap]).  The containers of the standard library are modelled by their
    contents: [BTreeSet] and [BTreeMap] as lists in iteration order, hash maps as
    finite maps, [Vec] as lists.  A load of a counter shared between threads may be
    stale in [Spsc].  Clocks, the answers of the broker, of the servers and of the
    disk are inputs of the operations.  A UDP socket of [Mold] and [Spot] takes or
    refuses each datagram, as an argument of the call says; a refused datagram has
    used up its sequence number.  After a panic of the engine that a worker catches,
    the engine is whatever an argument says.  Third-party code is a parameter:
    [bigdecimal] through [BigDecimalSpec] (and [CanonicalText] and [OneLine] for the
    text it prints), [bincode] through a round-trip hypothesis of C20, [base64] and
    the JSON texts as functions; the kernel's page write-back is a step of [Journal]
    that may happen at any time, with a page size of at least the eight bytes of the
    header.  The packet driver is an argument: the buffers received, with whatever
    bytes, and whether a frame can be sent.  A fill rate is an exact fraction where
    the program computes a float.

    ** Not modelled

    The brokers' clients, the HTTP transport and server, the reading of YAML, the
    Redis client library, sockets (a datagram is the value an operation returns, an
    error is an argument where the code reacts to it) and the clock (its readings
    are arguments), the bindings of [match-dpdk-io] to the driver and its setup; of
    the benchmarks, the rates computed from times, their printed tables and the
    shell of [spot_bench.rs] with ten symbols. *)
From stdpp Require Export base decidable list strings sets.
From Stdlib Require Export ZArith Lia.
From Stdlib Require Export Ascii.

#[global] Set Default Goal Selector "!".

(** ** Automation of the development *)

Create HintDb matchdb discriminated.
Create Rewrite HintDb bytesdb.
Create Rewrite HintDb bookdb.
#[export] Hint Constants Opaque : matchdb.

(** Case analysis on every [match] of the goal or of a hypothesis. *)
Ltac break :=
  match goal with
  | H : context [match ?x with _ => _ end] |- _ => destruct x eqn:?; simplify_eq/=
  | |- context [match ?x with _ => _ end] => destruct x eqn:?; simplify_eq/=
  end.

(** Turns the boolean integer tests of the code into propositions. *)
Ltac zb :=
  repeat match goal with
  | H : (_ <? _)%Z = true |- _ => apply Z.ltb_lt in H
  | H : (_ <? _)%Z = false |- _ => apply Z.ltb_ge in H
  | H : (_ <=? _)%Z = true |- _ => apply Z.leb_le in H
  | H : (_ <=? _)%Z = false |- _ => apply Z.leb_gt in H
  | H : (_ =? _)%Z = true |- _ => apply Z.eqb_eq in H
  | H : (_ =? _)%Z = false |- _ => apply Z.eqb_neq in H
  | H : (_ <? _)%nat = true |- _ => apply Nat.ltb_lt in H
  | H : (_ <? _)%nat = false |- _ => apply Nat.ltb_ge in H
  | H : (_ <=? _)%nat = true |- _ => apply Nat.leb_le in H
  | H : (_ <=? _)%nat = false |- _ => apply Nat.leb_gt in H
  | H : (_ =? _)%nat = true |- _ => apply Nat.eqb_eq in H
  | H : (_ =? _)%nat = false |- _ => apply Nat.eqb_neq in H
  | H : (_ && _)%bool = true |- _ => apply andb_prop in H as [? ?]
  | H : (_ || _)%bool = false |- _ => apply orb_false_elim in H as [? ?]
  end.

(** ** Machine integers

    A [w]-bit Rust integer is a [Z]; the wrap-around of the release build is
    written out with the functions below. *)

Declare Scope rust_scope.
Delimit Scope rust_scope with rust.

Definition u16_wrap (z : Z) : Z := z mod 2 ^ 16.
Definition u32_wrap (z : Z) : Z := z mod 2 ^ 32.
Definition u64_wrap (z : Z) : Z := z mod 2 ^ 64.
Definition i32_wrap (z : Z) : Z := (z + 2 ^ 31) mod 2 ^ 32 - 2 ^ 31.
Definition i64_wrap (z : Z) : Z := (z + 2 ^ 63) mod 2 ^ 64 - 2 ^ 63.

Definition i64_max : Z := 2 ^ 63 - 1.
Definition i64_min : Z := - 2 ^ 63.
Definition u64_max : Z := 2 ^ 64 - 1.

Definition in_u8 (z : Z) : Prop := (0 <= z < 2 ^ 8)%Z.
Definition in_u16 (z : Z) : Prop := (0 <= z < 2 ^ 16)%Z.
Definition in_u32 (z : Z) : Prop := (0 <= z < 2 ^ 32)%Z.
Definition in_u64 (z : Z) : Prop := (0 <= z < 2 ^ 64)%Z.
Definition in_i32 (z : Z) : Prop := (- 2 ^ 31 <= z < 2 ^ 31)%Z.
Definition in_i64 (z : Z) : Prop := (- 2 ^ 63 <= z < 2 ^ 63)%Z.

Notation "a +ᵢ b" := (i64_wrap (a + b)) (at level 50, left associativity) : rust_scope.
Notation "a -ᵢ b" := (i64_wrap (a - b)) (at level 50, left associativity) : rust_scope.
Notation "a +ᵤ b" := (u64_wrap (a + b)) (at level 50, left associativity) : rust_scope.
Notation "a -ᵤ b" := (u64_wrap (a - b)) (at level 50, left associativity) : rust_scope.

Lemma u32_wrap_id z : in_u32 z → u32_wrap z = z.
Proof. apply Z.mod_small. Qed.

Lemma u64_wrap_id z : in_u64 z → u64_wrap z = z.
Proof. apply Z.mod_small. Qed.

Lemma u16_wrap_id z : in_u16 z → u16_wrap z = z.
Proof. apply Z.mod_small. Qed.

Lemma i64_wrap_id z : in_i64 z → i64_wrap z = z.
Proof. unfold in_i64, i64_wrap. intros. rewrite Z.mod_small; lia. Qed.

Lemma i32_wrap_id z : in_i32 z → i32_wrap z = z.
Proof. unfold in_i32, i32_wrap. intros. rewrite Z.mod_small; lia. Qed.

Lemma i64_wrap_range z : in_i64 (i64_wrap z).
Proof. unfold in_i64, i64_wrap. pose proof (Z.mod_pos_bound (z + 2 ^ 63) (2 ^ 64)). lia. Qed.

Lemma u64_wrap_range z : in_u64 (u64_wrap z).
Proof. unfold in_u64, u64_wrap. apply Z.mod_pos_bound. lia. Qed.

(** A signed integer survives the trip through its unsigned bit pattern. *)
Lemma i64_wrap_u64_wrap z : in_i64 z → i64_wrap (u64_wrap z) = z.
Proof.
  unfold in_i64, i64_wrap, u64_wrap. intros H.
  rewrite Z.add_mod_idemp_l by lia. rewrite Z.mod_small; lia.
Qed.

Lemma i32_wrap_u32_wrap z : in_i32 z → i32_wrap (u32_wrap z) = z.
Proof.
  unfold in_i32, i32_wrap, u32_wrap. intros H.
  rewrite Z.add_mod_idemp_l by lia. rewrite Z.mod_small; lia.
Qed.

#[export] Hint Resolve u32_wrap_id u64_wrap_id u16_wrap_id i64_wrap_id i32_wrap_id
  i64_wrap_range u64_wrap_range : matchdb.

(** ** Byte strings: [to_le_bytes], [to_be_bytes] and their inverses *)

Fixpoint le_bytes (n : nat) (v : Z) : list Z :=
  match n with
  | O => []
  | S n => (v mod 256)%Z :: le_bytes n (v / 256)
  end.

Fixpoint le_val (bs : list Z) : Z :=
  match bs with
  | [] => 0
  | b :: bs => (b + 256 * le_val bs)%Z
  end.

Definition be_bytes (n : nat) (v : Z) : list Z := rev (le_bytes n v).
Definition be_val (bs : list Z) : Z := le_val (rev bs).

Lemma length_le_bytes n v : length (le_bytes n v) = n.
Proof. revert v; induction n as [|n IH]; intros v; [done|]. cbn. by rewrite IH. Qed.

Lemma length_be_bytes n v : length (be_bytes n v) = n.
Proof. unfold be_bytes. by rewrite length_rev, length_le_bytes. Qed.

Lemma le_val_bytes n v : le_val (le_bytes n v) = (v mod 256 ^ Z.of_nat n)%Z.
Proof.
  revert v; induction n as [|n IH]; intros v.
  - cbn. by rewrite Z.mod_1_r.
  - cbn [le_bytes le_val]. rewrite IH, Nat2Z.inj_succ, Z.pow_succ_r by lia.
    rewrite Z.rem_mul_r by lia. lia.
Qed.

Lemma be_val_bytes n v : be_val (be_bytes n v) = (v mod 256 ^ Z.of_nat n)%Z.
Proof. unfold be_val, be_bytes. by rewrite rev_involutive, le_val_bytes. Qed.

Lemma le_bytes_u8 n v : Forall in_u8 (le_bytes n v).
Proof.
  revert v; induction n as [|n IH]; intros v; constructor; [|done].
  unfold in_u8. change (2 ^ 8)%Z with 256%Z. apply Z.mod_pos_bound; lia.
Qed.

Lemma le_val_u64 v : in_u64 v → le_val (le_bytes 8 v) = v.
Proof. intros. rewrite le_val_bytes. by apply Z.mod_small. Qed.

Lemma le_val_u32 v : in_u32 v → le_val (le_bytes 4 v) = v.
Proof. intros. rewrite le_val_bytes. by apply Z.mod_small. Qed.

Lemma le_val_i64 v : in_i64 v → i64_wrap (le_val (le_bytes 8 v)) = v.
Proof. intros. rewrite le_val_bytes. by apply i64_wrap_u64_wrap. Qed.

#[export] Hint Rewrite length_le_bytes length_be_bytes : bytesdb.
#[export] Hint Resolve le_val_u64 le_val_u32 le_val_i64 : matchdb.

(** A slice [p[from..to]] of a byte string. *)
Definition slice {A} (from to : nat) (p : list A) : list A := take (to - from) (drop from p).

Lemma slice_app_skip {A} (a b : list A) i j :
  length a ≤ i → slice i j (a ++ b) = slice (i - length a) (j - length a) b.
Proof.
  intros H. unfold slice. rewrite drop_app_ge by lia. f_equal. lia.
Qed.

Lemma slice_app_here {A} (a b : list A) n : n = length a → slice 0 n (a ++ b) = a.
Proof. intros ->. unfold slice. rewrite drop_0, Nat.sub_0_r. apply take_app_length. Qed.

Lemma slice_all {A} (a : list A) n : n = length a → slice 0 n a = a.
Proof. intros ->. unfold slice. rewrite drop_0. apply take_ge. lia. Qed.

(** [buf[off..off + bs.len()].copy_from_slice(bs)] *)
Definition copy_at (off : nat) (bs buf : list Z) : list Z :=
  take off buf ++ bs ++ drop (off + length bs) buf.

Lemma copy_at_app a b c d off :
  length a = off → length c = length b → copy_at off b (a ++ c ++ d) = a ++ b ++ d.
Proof.
  intros <- Hc. unfold copy_at. rewrite take_app_length, <- Hc. do 2 f_equal.
  rewrite app_assoc. apply drop_app_length'. by rewrite length_app.
Qed.

(** ** Comparisons *)

(** Lexicographic combination, the [match a.cmp(b) { Equal => .., ord => ord }] idiom. *)
Definition cmp_then (c d : comparison) : comparison :=
  match c with Eq => d | c => c end.

Lemma cmp_then_Lt c d : cmp_then c d = Lt ↔ c = Lt ∨ (c = Eq ∧ d = Lt).
Proof. destruct c, d; cbn; intuition congruence. Qed.

Lemma ascii_compare_trans a b c :
  Ascii.compare a b = Lt → Ascii.compare b c = Lt → Ascii.compare a c = Lt.
Proof. unfold Ascii.compare. rewrite !N.compare_lt_iff. lia. Qed.

Lemma ascii_compare_refl a : Ascii.compare a a = Eq.
Proof. unfold Ascii.compare. apply N.compare_refl. Qed.

Lemma ascii_compare_eq a b : Ascii.compare a b = Eq → a = b.
Proof.
  unfold Ascii.compare. intros H%N.compare_eq_iff.
  rewrite <- (Ascii.ascii_N_embedding a), <- (Ascii.ascii_N_embedding b). congruence.
Qed.

Lemma string_compare_refl s : String.compare s s = Eq.
Proof. induction s as [|a s IH]; [done|]. cbn. by rewrite ascii_compare_refl. Qed.

Lemma string_compare_trans s1 s2 s3 :
  String.compare s1 s2 = Lt → String.compare s2 s3 = Lt → String.compare s1 s3 = Lt.
Proof.
  revert s2 s3; induction s1 as [|a s1 IH]; intros [|b s2] [|c s3]; cbn; try done.
  destruct (Ascii.compare a b) eqn:Hab; [| |done].
  - apply ascii_compare_eq in Hab as ->. destruct (Ascii.compare b c); [|done|done].
    apply IH.
  - intros _. destruct (Ascii.compare b c) eqn:Hbc; [| |done].
    + apply ascii_compare_eq in Hbc as ->. by rewrite Hab.
    + intros _. by rewrite (ascii_compare_trans _ _ _ Hab Hbc).
Qed.

Lemma string_compare_Gt s1 s2 : String.compare s1 s2 = Gt ↔ String.compare s2 s1 = Lt.
Proof. rewrite (String.compare_antisym s1 s2). by destruct (String.compare s2 s1). Qed.

(** ** Lists *)

Lemma NoDup_fmap_inj {A B} (f : A → B) (l : list A) x y :
  NoDup (f <$> l) → x ∈ l → y ∈ l → f x = f y → x = y.
Proof.
  intros Hnd Hx Hy Hf.
  apply list_elem_of_lookup in Hx as [i Hi], Hy as [j Hj].
  assert (i = j) as ->.
  { eapply NoDup_lookup; [exact Hnd| |]; rewrite list_lookup_fmap.
    - by rewrite Hi.
    - rewrite Hj. cbn. by rewrite Hf. }
  congruence.
Qed.

(** Consecutive numbers attached to the elements of a list: messages and reports
    are numbered this way by every sequenced transport. *)
Fixpoint number {A} (seq : Z) (l : list A) : list (Z * A) :=
  match l with [] => [] | x :: l => (seq, x) :: number (seq + 1) l end.

Lemma number_app {A} seq (l1 l2 : list A) :
  number seq (l1 ++ l2) = number seq l1 ++ number (seq + Z.of_nat (length l1)) l2.
Proof.
  revert seq; induction l1 as [|m l1 IH]; intros seq; cbn [app number length].
  - by rewrite Z.add_0_r.
  - rewrite IH. cbn. do 3 f_equal. lia.
Qed.

Lemma length_number {A} seq (l : list A) : length (number seq l) = length l.
Proof. revert seq; induction l as [|m l IH]; intros; cbn; [done|]. by rewrite IH. Qed.

Lemma lookup_number {A} seq (l : list A) i :
  number seq l !! i = (λ x, ((seq + Z.of_nat i)%Z, x)) <$> l !! i.
Proof.
  revert seq i; induction l as [|x l IH]; intros seq [|i]; try done.
  - cbn. by rewrite Z.add_0_r.
  - cbn [number]. change ((x :: l) !! S i) with (l !! i). cbn [lookup list_lookup]. rewrite IH.
    destruct (l !! i); [|done]. cbn. do 2 f_equal. lia.
Qed.

Lemma elem_of_number {A} seq (l : list A) k x :
  (k, x) ∈ number seq l ↔ (seq <= k)%Z ∧ l !! Z.to_nat (k - seq) = Some x.
Proof.
  rewrite list_elem_of_lookup. setoid_rewrite lookup_number. split.
  - intros [i Hi]. destruct (l !! i) as [y|] eqn:E; cbn in Hi; [|done]. simplify_eq.
    split; [lia|]. by replace (Z.to_nat (seq + Z.of_nat i - seq)) with i by lia.
  - intros [Hk Hl]. exists (Z.to_nat (k - seq)). rewrite Hl. cbn. do 2 f_equal. lia.
Qed.

Lemma drop_number {A} n seq (l : list A) : drop n (number seq l) = number (seq + Z.of_nat n) (drop n l).
Proof.
  revert seq l; induction n as [|n IH]; intros seq l.
  - by rewrite !drop_0, Z.add_0_r.
  - destruct l as [|x l]; [done|]. cbn [number]. rewrite !skipn_cons, IH. f_equal. lia.
Qed.

Lemma filter_number_from {A} (a b seq : Z) (l : list A) :
  (a <= seq)%Z →
  filter (λ e : Z * A, (a <= e.1)%Z ∧ (e.1 < b)%Z) (number seq l) = number seq (take (Z.to_nat (b - seq)) l).
Proof.
  revert seq; induction l as [|x l IH]; intros seq Ha; [by rewrite take_nil|]. cbn [number].
  destruct (decide (seq < b)%Z).
  - rewrite filter_cons_True by (cbn; lia). rewrite IH by lia.
    replace (Z.to_nat (b - seq)) with (S (Z.to_nat (b - (seq + 1)))) by lia. done.
  - rewrite filter_cons_False by (cbn; lia). rewrite IH by lia.
    by replace (Z.to_nat (b - seq)) with 0%nat by lia; replace (Z.to_nat (b - (seq + 1))) with 0%nat by lia.
Qed.

(** The numbers of a range, picked out of a numbered list. *)
Lemma filter_number {A} (a b seq : Z) (l : list A) :
  (seq <= a)%Z →
  filter (λ e : Z * A, (a <= e.1)%Z ∧ (e.1 < b)%Z) (number seq l)
  = number a (take (Z.to_nat (b - a)) (drop (Z.to_nat (a - seq)) l)).
Proof.
  revert seq; induction l as [|x l IH]; intros seq Ha; [by rewrite drop_nil, take_nil|].
  destruct (decide (seq = a)) as [->|].
  - rewrite filter_number_from by lia. by replace (Z.to_nat (a - a)) with 0%nat by lia.
  - cbn [number]. rewrite filter_cons_False by (cbn; lia). rewrite IH by lia.
    by replace (Z.to_nat (a - seq)) with (S (Z.to_nat (a - (seq + 1)))) by lia.
Qed.
