(* ===== verification/Decimal.v ===== *)
(** * The [bigdecimal] crate as an interface

    Prices and quantities of the equivalence track are values of the external
    crate [bigdecimal].  Its operations are the class [BigDecimal]; what the
    matching code relies on is the class [BigDecimalSpec]: an exact rational
    value for every decimal, with which [cmp], [+], [-], [from(i32)] and
    [zero()] agree, and the fact that the [Display] text of a decimal parses
    back to the same value.  The clients of the development are proved against
    these two classes.  [Module SciDecimal] gives a computable implementation,
    mantissa and scale as in the crate, that discharges the interface; the
    witnesses run on it. *)
From S2P Require Import Prelude.
From Stdlib Require Import QArith Lqa Decimal DecimalString DecimalZ DecimalNat.

#[local] Set Default Goal Selector "!".

Class BigDecimal := {
  bd : Type;
  (** [BigDecimal::zero()] *)
  bd_zero : bd;
  (** [BigDecimal::from(i32)] *)
  bd_from : Z → bd;
  bd_add : bd → bd → bd;
  bd_sub : bd → bd → bd;
  bd_mul : bd → bd → bd;
  bd_div : bd → bd → bd;
  (** [Ord::cmp] *)
  bd_cmp : bd → bd → comparison;
  (** [with_scale_round(n, RoundingMode::HalfDown)] *)
  bd_round_half_down : bd → Z → bd;
  bd_normalized : bd → bd;
  (** [Display] and [FromStr] *)
  bd_to_string : bd → string;
  bd_from_str : string → option bd
}.

Declare Scope bd_scope.
Delimit Scope bd_scope with bd.
Infix "+" := bd_add : bd_scope.
Infix "-" := bd_sub : bd_scope.
Infix "*" := bd_mul : bd_scope.
Infix "/" := bd_div : bd_scope.

(** The comparison operators Rust derives from [Ord::cmp]. *)
Definition bd_ltb `{BigDecimal} (a b : bd) : bool :=
  match bd_cmp a b with Lt => true | _ => false end.
Definition bd_gtb `{BigDecimal} (a b : bd) : bool :=
  match bd_cmp a b with Gt => true | _ => false end.
Definition bd_leb `{BigDecimal} (a b : bd) : bool :=
  match bd_cmp a b with Gt => false | _ => true end.
Definition bd_geb `{BigDecimal} (a b : bd) : bool :=
  match bd_cmp a b with Lt => false | _ => true end.
Definition bd_eqb `{BigDecimal} (a b : bd) : bool :=
  match bd_cmp a b with Eq => true | _ => false end.

Infix "<?" := bd_ltb : bd_scope.
Infix ">?" := bd_gtb : bd_scope.
Infix "<=?" := bd_leb : bd_scope.
Infix ">=?" := bd_geb : bd_scope.
Infix "=?" := bd_eqb : bd_scope.

Class BigDecimalSpec `{BigDecimal} := {
  (** The number a decimal denotes. *)
  bd_val : bd → Q;
  bd_val_zero : (bd_val bd_zero == 0)%Q;
  bd_val_from z : (bd_val (bd_from z) == inject_Z z)%Q;
  bd_val_add a b : (bd_val (bd_add a b) == bd_val a + bd_val b)%Q;
  bd_val_sub a b : (bd_val (bd_sub a b) == bd_val a - bd_val b)%Q;
  bd_cmp_val a b : bd_cmp a b = Qcompare (bd_val a) (bd_val b);
  (** [normalized()] prints a text that parses to the same number. *)
  bd_print_parse a : ∃ a', bd_from_str (bd_to_string (bd_normalized a)) = Some a'
                           ∧ (bd_val a' == bd_val a)%Q
}.

Notation "⟦ d ⟧" := (bd_val d) (at level 0, d at level 200).

(** Two decimals are equal for Rust ([==]) when they denote the same number. *)
Definition bd_eq `{BigDecimalSpec} (a b : bd) : Prop := (⟦a⟧ == ⟦b⟧)%Q.

Section Facts.
  Context `{BigDecimalSpec}.

#[export] Instance bd_eq_equivalence : Equivalence bd_eq.
Proof.
  split; unfold bd_eq; [by intros ?|by intros ???; symmetry|].
  intros ??? -> ->. done.
Qed.

#[export] Instance bd_add_proper : Proper (bd_eq ==> bd_eq ==> bd_eq) bd_add.
Proof. intros a a' Ha b b' Hb. unfold bd_eq in *. rewrite !bd_val_add. lra. Qed.

#[export] Instance bd_sub_proper : Proper (bd_eq ==> bd_eq ==> bd_eq) bd_sub.
Proof. intros a a' Ha b b' Hb. unfold bd_eq in *. rewrite !bd_val_sub. lra. Qed.

#[export] Instance bd_cmp_proper : Proper (bd_eq ==> bd_eq ==> eq) bd_cmp.
Proof. intros a a' Ha b b' Hb. unfold bd_eq in *. by rewrite !bd_cmp_val, Ha, Hb. Qed.

Lemma bd_cmp_spec a b :
  CompareSpec (⟦a⟧ == ⟦b⟧)%Q (⟦a⟧ < ⟦b⟧)%Q (⟦b⟧ < ⟦a⟧)%Q (bd_cmp a b).
Proof. rewrite bd_cmp_val. apply Qcompare_spec. Qed.

Lemma bd_cmp_antisym a b : bd_cmp a b = CompOpp (bd_cmp b a).
Proof. rewrite !bd_cmp_val. symmetry. apply Qcompare_antisym. Qed.

Lemma bd_ltb_lt a b : (a <? b)%bd = true ↔ (⟦a⟧ < ⟦b⟧)%Q.
Proof. unfold bd_ltb. destruct (bd_cmp_spec a b); split; (lra || done). Qed.
Lemma bd_ltb_ge a b : (a <? b)%bd = false ↔ (⟦b⟧ <= ⟦a⟧)%Q.
Proof. unfold bd_ltb. destruct (bd_cmp_spec a b); split; (lra || done). Qed.
Lemma bd_gtb_gt a b : (a >? b)%bd = true ↔ (⟦b⟧ < ⟦a⟧)%Q.
Proof. unfold bd_gtb. destruct (bd_cmp_spec a b); split; (lra || done). Qed.
Lemma bd_gtb_le a b : (a >? b)%bd = false ↔ (⟦a⟧ <= ⟦b⟧)%Q.
Proof. unfold bd_gtb. destruct (bd_cmp_spec a b); split; (lra || done). Qed.
Lemma bd_leb_le a b : (a <=? b)%bd = true ↔ (⟦a⟧ <= ⟦b⟧)%Q.
Proof. unfold bd_leb. destruct (bd_cmp_spec a b); split; (lra || done). Qed.
Lemma bd_leb_gt a b : (a <=? b)%bd = false ↔ (⟦b⟧ < ⟦a⟧)%Q.
Proof. unfold bd_leb. destruct (bd_cmp_spec a b); split; (lra || done). Qed.
Lemma bd_geb_ge a b : (a >=? b)%bd = true ↔ (⟦b⟧ <= ⟦a⟧)%Q.
Proof. unfold bd_geb. destruct (bd_cmp_spec a b); split; (lra || done). Qed.
Lemma bd_geb_lt a b : (a >=? b)%bd = false ↔ (⟦a⟧ < ⟦b⟧)%Q.
Proof. unfold bd_geb. destruct (bd_cmp_spec a b); split; (lra || done). Qed.
Lemma bd_eqb_eq a b : (a =? b)%bd = true ↔ bd_eq a b.
Proof. unfold bd_eqb, bd_eq. destruct (bd_cmp_spec a b); split; (lra || done). Qed.
Lemma bd_eqb_neq a b : (a =? b)%bd = false ↔ ¬ bd_eq a b.
Proof. unfold bd_eqb, bd_eq. destruct (bd_cmp_spec a b); split; (lra || done). Qed.
End Facts.

(** Turns the boolean decimal tests of the code into facts on their values. *)
Ltac bdb :=
  repeat match goal with
  | H : bd_ltb _ _ = true |- _ => apply bd_ltb_lt in H
  | H : bd_ltb _ _ = false |- _ => apply bd_ltb_ge in H
  | H : bd_gtb _ _ = true |- _ => apply bd_gtb_gt in H
  | H : bd_gtb _ _ = false |- _ => apply bd_gtb_le in H
  | H : bd_leb _ _ = true |- _ => apply bd_leb_le in H
  | H : bd_leb _ _ = false |- _ => apply bd_leb_gt in H
  | H : bd_geb _ _ = true |- _ => apply bd_geb_ge in H
  | H : bd_geb _ _ = false |- _ => apply bd_geb_lt in H
  | H : bd_eqb _ _ = true |- _ => apply bd_eqb_eq in H
  | H : bd_eqb _ _ = false |- _ => apply bd_eqb_neq in H
  end.

(** Normalises values of sums and differences, then linear arithmetic. *)
Ltac bdlra :=
  unfold bd_eq in *;
  repeat (setoid_rewrite bd_val_add || setoid_rewrite bd_val_sub || setoid_rewrite bd_val_zero);
  repeat match goal with
  | H : context [⟦ bd_add ?a ?b ⟧] |- _ => setoid_rewrite bd_val_add in H
  | H : context [⟦ bd_sub ?a ?b ⟧] |- _ => setoid_rewrite bd_val_sub in H
  | H : context [⟦ bd_zero ⟧] |- _ => setoid_rewrite bd_val_zero in H
  end; lra.

(** ** A computable implementation: [mantissa * 10 ^ -scale] *)
Module SciDecimal.

Record dec := Dec { mant : Z; scale : nat }.

#[local] Open Scope Z_scope.

Fixpoint pow10 (n : nat) : positive :=
  match n with O => 1 | S n => 10 * pow10 n end.

Lemma pow10_add m n : (pow10 (m + n) = pow10 m * pow10 n)%positive.
Proof. induction m as [|m IH]; [done|]. cbn [Nat.add pow10]. rewrite IH. lia. Qed.

Definition value (d : dec) : Q := mant d # pow10 (scale d).

(** The mantissa of [d] at a scale [s >= scale d]. *)
Definition rescale (s : nat) (d : dec) : Z := mant d * Zpos (pow10 (s - scale d)).

Definition add (a b : dec) : dec :=
  let s := Nat.max (scale a) (scale b) in Dec (rescale s a + rescale s b) s.
Definition sub (a b : dec) : dec :=
  let s := Nat.max (scale a) (scale b) in Dec (rescale s a - rescale s b) s.
Definition mul (a b : dec) : dec := Dec (mant a * mant b) (scale a + scale b).
Definition div (a b : dec) : dec :=
  Dec ((mant a * Zpos (pow10 (20 + scale b))) / (mant b * Zpos (pow10 (scale a)))) 20.
Definition cmp (a b : dec) : comparison :=
  let s := Nat.max (scale a) (scale b) in rescale s a ?= rescale s b.

(** Rounds to [n] fractional digits, ties towards zero. *)
Definition round_half_down (d : dec) (n : Z) : dec :=
  let n := Z.to_nat n in
  if (scale d <=? n)%nat then Dec (rescale n d) n
  else let f := Zpos (pow10 (scale d - n)) in
       Dec (Z.sgn (mant d) * ((2 * Z.abs (mant d) + f - 1) / (2 * f))) n.

Fixpoint strip (m : Z) (s : nat) : dec :=
  match s with
  | O => Dec m O
  | S s' => if m mod 10 =? 0 then strip (m / 10) s' else Dec m s
  end.
Definition normalized (d : dec) : dec := strip (mant d) (scale d).

(** [<mantissa>E-<scale>] *)
Definition print (d : dec) : string :=
  (NilEmpty.string_of_int (Z.to_int (mant d)) +:+ "E-" +:+
   NilEmpty.string_of_uint (Nat.to_uint (scale d)))%string.

Fixpoint split_exp (s : string) : option (string * string) :=
  match s with
  | EmptyString => None
  | String "E"%char (String "-"%char t) => Some (EmptyString, t)
  | String c t => match split_exp t with
                  | Some (u, v) => Some (String c u, v)
                  | None => None
                  end
  end.

Definition parse (s : string) : option dec :=
  match split_exp s with
  | Some (m, e) =>
      match NilEmpty.int_of_string m, NilEmpty.uint_of_string e with
      | Some m, Some e => Some (Dec (Z.of_int m) (Nat.of_uint e))
      | _, _ => None
      end
  | None =>
      match NilZero.int_of_string s with
      | Some m => Some (Dec (Z.of_int m) 0)
      | None => None
      end
  end.

#[export] Instance decimal : BigDecimal := {|
  bd := dec;
  bd_zero := Dec 0 0;
  bd_from z := Dec z 0;
  bd_add := add; bd_sub := sub; bd_mul := mul; bd_div := div;
  bd_cmp := cmp;
  bd_round_half_down := round_half_down;
  bd_normalized := normalized;
  bd_to_string := print;
  bd_from_str := parse
|}.

Lemma value_rescale s d : (scale d <= s)%nat → (value d == rescale s d # pow10 s)%Q.
Proof.
  intros Hs. unfold value, rescale, Qeq. cbn.
  replace s with (scale d + (s - scale d))%nat at 1 by lia.
  rewrite pow10_add, Pos2Z.inj_mul. lia.
Qed.

Lemma value_add a b : (value (add a b) == value a + value b)%Q.
Proof.
  set (s := Nat.max (scale a) (scale b)).
  rewrite (value_rescale s a), (value_rescale s b) by lia.
  unfold value, add, Qeq, Qplus. cbn. fold s. rewrite Pos2Z.inj_mul. lia.
Qed.

Lemma value_sub a b : (value (sub a b) == value a - value b)%Q.
Proof.
  set (s := Nat.max (scale a) (scale b)).
  rewrite (value_rescale s a), (value_rescale s b) by lia.
  unfold value, sub, Qeq, Qminus, Qplus. cbn. fold s. rewrite Pos2Z.inj_mul. lia.
Qed.

Lemma cmp_value a b : cmp a b = Qcompare (value a) (value b).
Proof.
  set (s := Nat.max (scale a) (scale b)).
  rewrite (value_rescale s a), (value_rescale s b) by lia.
  unfold cmp, Qcompare. cbn. fold s.
  by apply Zmult_compare_compat_r.
Qed.

Lemma value_strip m s : (value (strip m s) == value (Dec m s))%Q.
Proof.
  revert m; induction s as [|s IH]; intros m; [done|]. cbn [strip].
  destruct (Z.eqb_spec (m mod 10) 0) as [Hm|]; [|done].
  rewrite IH. unfold value, Qeq. cbn.
  pose proof (Z.div_mod m 10). lia.
Qed.

Lemma split_exp_uint d t :
  split_exp (NilEmpty.string_of_uint d +:+ "E-" +:+ t) = Some (NilEmpty.string_of_uint d, t).
Proof. induction d as [|d IH|d IH|d IH|d IH|d IH|d IH|d IH|d IH|d IH|d IH]; [done|..];
  simpl in *; by rewrite IH. Qed.

Lemma split_exp_int d t :
  split_exp (NilEmpty.string_of_int d +:+ "E-" +:+ t) = Some (NilEmpty.string_of_int d, t).
Proof.
  pose proof (split_exp_uint (match d with Pos d | Neg d => d end) t) as IH.
  destruct d as [d|d]; simpl in *; by rewrite IH.
Qed.

Lemma parse_print d : parse (print d) = Some d.
Proof.
  unfold parse, print. rewrite split_exp_int, NilEmpty.isi, NilEmpty.usu.
  rewrite DecimalZ.of_to, DecimalNat.Unsigned.of_to. by destruct d.
Qed.

#[export] Instance decimal_spec : BigDecimalSpec.
Proof.
  refine {| bd_val := value : bd → Q |}; cbn.
  - done.
  - intros z. unfold value, Qeq. cbn. lia.
  - apply value_add.
  - apply value_sub.
  - apply cmp_value.
  - intros a. exists (normalized a). split; [apply parse_print|apply value_strip].
Defined.

(** [d 100] is the decimal 100. *)
Definition d (z : Z) : bd := Dec z 0.

End SciDecimal.
