(* ===== verification/Protocol.v ===== *)
(** * match-protocol: wire orders, validation and conversion

    Models [crates/match-protocol/src]: the constants, the inbound [MqOrder],
    the engine order [BbOrder], the validators [check_mq_order] and
    [check_mq_order_spot] and the converters [type_convert] and
    [type_convert_spot].  Text fields are byte strings; blank tests follow
    Rust's [str::trim] on the UTF-8 encodings of Unicode white space;
    [to_lowercase] is modelled on ASCII letters, which is what symbol keys
    consist of. *)
From S2P Require Import Prelude Decimal.
From Stdlib Require Import QArith Lqa.

#[local] Open Scope Z_scope.

(** ** Constants ([constants.rs], [spot_constants.rs]) *)

Definition TYPES : list Z := [1; 2; 3; 4; 5; 6; 7; 8].
Definition ORDER_TYPE_BUY : Z := 1.
Definition ORDER_TYPE_SELL : Z := 2.
Definition ORDER_TYPES : list Z := [ORDER_TYPE_BUY; ORDER_TYPE_SELL].
Definition ORDER_STATUS_WAIT : Z := 0.
Definition ORDER_STATUS_SUCCESS : Z := 1.
Definition ORDER_STATUS_SUCCESS_PART : Z := 2.
Definition ORDER_STATUS_REVOKE : Z := 3.
Definition ORDER_STATUS : list Z :=
  [ORDER_STATUS_WAIT; ORDER_STATUS_SUCCESS_PART; ORDER_STATUS_REVOKE].
Definition ORDER_FORM_LIMIT : Z := 1.
Definition ORDER_FORM_MARKET_PRICE : Z := 2.
Definition ORDER_FORM_POST_ONLY : Z := 3.
Definition ORDER_FORM_IOC : Z := 4.
Definition ORDER_FORM_FOK : Z := 5.
Definition ORDER_FORMS : list Z :=
  [ORDER_FORM_LIMIT; ORDER_FORM_MARKET_PRICE; ORDER_FORM_POST_ONLY; ORDER_FORM_IOC;
   ORDER_FORM_FOK].
Definition SPOT_TYPES : list Z := [1; 2; 3].
Definition SPOT_ORDER_FORM_LIMIT : Z := 1.
Definition SPOT_ORDER_FORM_MARKET_PRICE : Z := 2.
Definition SPOT_ORDER_FORMS : list Z := [SPOT_ORDER_FORM_LIMIT; SPOT_ORDER_FORM_MARKET_PRICE].

(** ** Text helpers of the Rust standard library *)

(** Length of the white-space character a UTF-8 string starts with, if any. *)
Definition ws_len (s : list Z) : option nat :=
  match s with
  | 0xC2 :: 0x85 :: _ | 0xC2 :: 0xA0 :: _ => Some 2%nat
  | 0xE1 :: 0x9A :: 0x80 :: _ => Some 3%nat
  | 0xE2 :: 0x80 :: c :: _ =>
      if ((0x80 <=? c) && (c <=? 0x8A)) || (c =? 0xA8) || (c =? 0xA9) || (c =? 0xAF)
      then Some 3%nat else None
  | 0xE2 :: 0x81 :: 0x9F :: _ => Some 3%nat
  | 0xE3 :: 0x80 :: 0x80 :: _ => Some 3%nat
  | c :: _ => if ((9 <=? c) && (c <=? 13)) || (c =? 32) then Some 1%nat else None
  | [] => None
  end.

Definition bytes_of (s : string) : list Z :=
  (λ a, Z.of_N (N_of_ascii a)) <$> String.list_ascii_of_string s.

(** [s.trim().is_empty()]: every character is white space. *)
Fixpoint all_ws (fuel : nat) (s : list Z) : bool :=
  match s, fuel with
  | [], _ => true
  | _, O => false
  | _, S fuel => match ws_len s with
                 | Some n => all_ws fuel (drop n s)
                 | None => false
                 end
  end.

(** [is_blank] *)
Definition is_blank (value : option string) : bool :=
  match value with
  | None => true
  | Some s => let b := bytes_of s in all_ws (length b) b
  end.

(** [contains_value] *)
Definition contains_value (values : list Z) (value : Z) : bool :=
  existsb (Z.eqb value) values.

(** [s.replace('/', "")] *)
Fixpoint remove_slash (s : string) : string :=
  match s with
  | EmptyString => EmptyString
  | String c t => if Ascii.eqb c "/"%char then remove_slash t else String c (remove_slash t)
  end.

Definition lower_char (c : ascii) : ascii :=
  let n := N_of_ascii c in
  if (65 <=? n)%N && (n <=? 90)%N then ascii_of_N (n + 32) else c.

(** [s.to_lowercase()] *)
Fixpoint to_lowercase (s : string) : string :=
  match s with
  | EmptyString => EmptyString
  | String c t => String (lower_char c) (to_lowercase t)
  end.

Section Orders.
Context `{BD : BigDecimal}.

(** ** Data ([mq_order.rs], [order.rs]) *)

Record MqOrder := {
  mq_user_id : option Z;
  mq_uid : option Z;
  mq_c_type : Z;
  mq_deal_type : option Z;
  mq_type : option Z;
  mq_order_type : option Z;
  mq_market_id : option Z;
  mq_coin_id : option Z;
  mq_symbol_key : option string;
  mq_coin_market : option string;
  mq_trust_order_no : option string;
  mq_close_position : option Z;
  mq_start_deposit : option string;
  mq_position_type : option Z;
  mq_taker_rate : option string;
  mq_order_status : option Z;
  mq_order_form : option Z;
  mq_gear : option Z;
  mq_lever_times : option Z;
  mq_trust_number : option string;
  mq_trust_price : option string;
  mq_create_time : option Z;
  mq_face_value : option bd;
  mq_handicap_type : option Z
}.

Record BbOrder := mkBbOrder {
  user_id : Z;
  uid : Z;
  type : Z;
  order_type : Z;
  market_id : Z;
  coin_id : Z;
  symbol_key : string;
  coin_market : string;
  trust_order_no : string;
  order_form : Z;
  gear : option Z;
  close_position : Z;
  start_deposit : bd;
  target_rate : bd;
  position_type : Z;
  lever_times : Z;
  order_status : Z;
  consumer_all_number : bd;
  current_deal_number : bd;
  trust_number : bd;
  trust_price : bd;
  remaining_number : bd;
  create_time : Z;
  face_value : option bd;
  average_price : bd
}.

(** ** [check_mq_order] ([validate.rs]) *)
Definition check_mq_order (mq_order : MqOrder) : bool :=
  match mq_user_id mq_order with None => false | Some _ =>
  match mq_type mq_order with None => false | Some order_type_flag =>
  if negb (contains_value TYPES order_type_flag) then false else
  match mq_order_type mq_order with None => false | Some order_type =>
  if negb (contains_value ORDER_TYPES order_type) then false else
  match mq_market_id mq_order, mq_coin_id mq_order with
  | None, _ | _, None => false
  | Some _, Some _ =>
  match mq_order_form mq_order with None => false | Some order_form =>
  if negb (contains_value ORDER_FORMS order_form) then false else
  if (order_form =? ORDER_FORM_MARKET_PRICE) &&
     negb (match mq_gear mq_order with Some g => 1 <=? g | None => false end) then false else
  if is_blank (mq_symbol_key mq_order) || is_blank (mq_coin_market mq_order)
     || is_blank (mq_trust_order_no mq_order) then false else
  match mq_order_status mq_order with None => false | Some order_status =>
  if negb (contains_value ORDER_STATUS order_status) then false else
  if is_blank (mq_trust_number mq_order) || is_blank (mq_trust_price mq_order) then false else
  match mq_create_time mq_order with None => false | Some t =>
  if t <=? 0 then false else
  match mq_close_position mq_order with None => false | Some _ =>
  if is_blank (mq_start_deposit mq_order) || is_blank (mq_taker_rate mq_order) then false else
  match mq_position_type mq_order with None => false | Some _ => true
  end end end end end end end end end.

(** ** [check_mq_order_spot] ([spot_validate.rs]) *)
Definition check_mq_order_spot (mq_order : MqOrder) : bool :=
  match mq_user_id mq_order with None => false | Some _ =>
  match mq_type mq_order with None => false | Some order_type_flag =>
  if negb (contains_value SPOT_TYPES order_type_flag) then false else
  match mq_order_type mq_order with None => false | Some order_type =>
  if negb (contains_value ORDER_TYPES order_type) then false else
  match mq_market_id mq_order, mq_coin_id mq_order with
  | None, _ | _, None => false
  | Some _, Some _ =>
  match mq_order_form mq_order with None => false | Some order_form =>
  if negb (contains_value SPOT_ORDER_FORMS order_form) then false else
  if (order_form =? SPOT_ORDER_FORM_MARKET_PRICE) &&
     (match mq_gear mq_order with Some _ => false | None => true end) then false else
  if is_blank (mq_symbol_key mq_order) || is_blank (mq_coin_market mq_order)
     || is_blank (mq_trust_order_no mq_order) then false else
  match mq_order_status mq_order with None => false | Some order_status =>
  if negb (contains_value ORDER_STATUS order_status) then false else
  if is_blank (mq_trust_number mq_order) || is_blank (mq_trust_price mq_order) then false else
  match mq_create_time mq_order with None => false | Some t =>
  if t <=? 0 then false else true
  end end end end end end end.

(** [parse_decimal] *)
Definition parse_decimal (value : string) : option bd := bd_from_str value.

(** ** [type_convert] ([convert.rs]) *)
Definition type_convert (mq_order : MqOrder) : option BbOrder :=
  symbol ← mq_symbol_key mq_order;
  let symbol_key := to_lowercase (remove_slash symbol) in
  trust_number ← (mq_trust_number mq_order ≫= parse_decimal);
  trust_price ← (mq_trust_price mq_order ≫= parse_decimal);
  if ((trust_number <=? bd_zero)%bd || (trust_price <=? bd_zero)%bd)%bool then None else
  user_id ← mq_user_id mq_order;
  uid ← mq_uid mq_order;
  type ← mq_type mq_order;
  order_type ← mq_order_type mq_order;
  market_id ← mq_market_id mq_order;
  coin_id ← mq_coin_id mq_order;
  coin_market ← mq_coin_market mq_order;
  trust_order_no ← mq_trust_order_no mq_order;
  order_form ← mq_order_form mq_order;
  close_position ← mq_close_position mq_order;
  start_deposit ← (mq_start_deposit mq_order ≫= parse_decimal);
  target_rate ← (mq_taker_rate mq_order ≫= parse_decimal);
  position_type ← mq_position_type mq_order;
  lever_times ← mq_lever_times mq_order;
  order_status ← mq_order_status mq_order;
  create_time ← mq_create_time mq_order;
  Some (mkBbOrder user_id uid type order_type market_id coin_id symbol_key coin_market
          trust_order_no order_form (mq_gear mq_order) close_position start_deposit target_rate
          position_type lever_times order_status bd_zero bd_zero trust_number trust_price
          trust_number create_time (mq_face_value mq_order) bd_zero).

(** ** [type_convert_spot] ([spot_convert.rs]) *)
Definition type_convert_spot (mq_order : MqOrder) : option BbOrder :=
  symbol ← mq_symbol_key mq_order;
  let symbol_key := to_lowercase (remove_slash symbol) in
  trust_number ← (mq_trust_number mq_order ≫= parse_decimal);
  trust_price ← (mq_trust_price mq_order ≫= parse_decimal);
  if (trust_number <=? bd_zero)%bd then None else
  order_form ← mq_order_form mq_order;
  if ((trust_price <=? bd_zero)%bd && negb (order_form =? SPOT_ORDER_FORM_MARKET_PRICE))%bool
  then None else
  user_id ← mq_user_id mq_order;
  type ← mq_type mq_order;
  order_type ← mq_order_type mq_order;
  market_id ← mq_market_id mq_order;
  coin_id ← mq_coin_id mq_order;
  coin_market ← mq_coin_market mq_order;
  trust_order_no ← mq_trust_order_no mq_order;
  order_status ← mq_order_status mq_order;
  create_time ← mq_create_time mq_order;
  Some (mkBbOrder user_id (default 0 (mq_uid mq_order)) type order_type market_id coin_id
          symbol_key coin_market trust_order_no order_form
          (Some (default 0 (mq_gear mq_order)))
          (default 0 (mq_close_position mq_order))
          (default bd_zero (mq_start_deposit mq_order ≫= parse_decimal))
          (default bd_zero (mq_taker_rate mq_order ≫= parse_decimal))
          (default 0 (mq_position_type mq_order)) (default 0 (mq_lever_times mq_order))
          order_status bd_zero bd_zero trust_number trust_price trust_number create_time
          (mq_face_value mq_order) bd_zero).

End Orders.
