(* ===== verification/CoreBook.v ===== *)
(** * match-core: orders, price-time comparison, order book, depth

    Models [crates/match-core/src/order.rs], [book.rs] and [depth.rs].  A
    [BTreeSet] of entries is the list of its elements in iteration order;
    [insert], [take], [first] and [pop_first] are the set operations for the
    entry's [Ord].  That [Ord] treats two orders of one number at one price as
    equal whatever their time, so it is only a total order on orders with
    distinct numbers: the invariant [side_ok] (sorted, numbers distinct) is
    what makes the list and the search tree agree. *)
From S2P Require Import Prelude Decimal Protocol.
From Stdlib Require Import QArith Lqa Sorted.

#[local] Open Scope Z_scope.

Inductive Side := Buy | Sell.

#[export] Instance Side_eq_dec : EqDecision Side.
Proof. solve_decision. Defined.

(** [Side::order_type] *)
Definition side_order_type (s : Side) : Z := match s with Buy => 1 | Sell => 2 end.

(** [Side::from_order_type] *)
Definition from_order_type (order_type : Z) : option Side :=
  if order_type =? 1 then Some Buy else if order_type =? 2 then Some Sell else None.

Definition opposite (s : Side) : Side := match s with Buy => Sell | Sell => Buy end.

Section Book.
Context `{BD : BigDecimal}.

(** ** Field updates used by the handlers *)

Definition set_average_price (v : bd) (o : BbOrder) : BbOrder :=
  mkBbOrder (user_id o) (uid o) (type o) (order_type o) (market_id o) (coin_id o)
    (symbol_key o) (coin_market o) (trust_order_no o) (order_form o) (gear o)
    (close_position o) (start_deposit o) (target_rate o) (position_type o) (lever_times o)
    (order_status o) (consumer_all_number o) (current_deal_number o) (trust_number o)
    (trust_price o) (remaining_number o) (create_time o) (face_value o) v.

Definition set_consumer_all_number (v : bd) (o : BbOrder) : BbOrder :=
  mkBbOrder (user_id o) (uid o) (type o) (order_type o) (market_id o) (coin_id o)
    (symbol_key o) (coin_market o) (trust_order_no o) (order_form o) (gear o)
    (close_position o) (start_deposit o) (target_rate o) (position_type o) (lever_times o)
    (order_status o) v (current_deal_number o) (trust_number o)
    (trust_price o) (remaining_number o) (create_time o) (face_value o) (average_price o).

Definition set_current_deal_number (v : bd) (o : BbOrder) : BbOrder :=
  mkBbOrder (user_id o) (uid o) (type o) (order_type o) (market_id o) (coin_id o)
    (symbol_key o) (coin_market o) (trust_order_no o) (order_form o) (gear o)
    (close_position o) (start_deposit o) (target_rate o) (position_type o) (lever_times o)
    (order_status o) (consumer_all_number o) v (trust_number o)
    (trust_price o) (remaining_number o) (create_time o) (face_value o) (average_price o).

Definition set_remaining_number (v : bd) (o : BbOrder) : BbOrder :=
  mkBbOrder (user_id o) (uid o) (type o) (order_type o) (market_id o) (coin_id o)
    (symbol_key o) (coin_market o) (trust_order_no o) (order_form o) (gear o)
    (close_position o) (start_deposit o) (target_rate o) (position_type o) (lever_times o)
    (order_status o) (consumer_all_number o) (current_deal_number o) (trust_number o)
    (trust_price o) v (create_time o) (face_value o) (average_price o).

Definition set_order_status (v : Z) (o : BbOrder) : BbOrder :=
  mkBbOrder (user_id o) (uid o) (type o) (order_type o) (market_id o) (coin_id o)
    (symbol_key o) (coin_market o) (trust_order_no o) (order_form o) (gear o)
    (close_position o) (start_deposit o) (target_rate o) (position_type o) (lever_times o)
    v (consumer_all_number o) (current_deal_number o) (trust_number o)
    (trust_price o) (remaining_number o) (create_time o) (face_value o) (average_price o).

Definition set_trust_price (v : bd) (o : BbOrder) : BbOrder :=
  mkBbOrder (user_id o) (uid o) (type o) (order_type o) (market_id o) (coin_id o)
    (symbol_key o) (coin_market o) (trust_order_no o) (order_form o) (gear o)
    (close_position o) (start_deposit o) (target_rate o) (position_type o) (lever_times o)
    (order_status o) (consumer_all_number o) (current_deal_number o) (trust_number o)
    v (remaining_number o) (create_time o) (face_value o) (average_price o).

(** [BbOrder::test_limit], [test_market], [test_post_only], [test_ioc], [test_fok]. *)
Definition test_limit (side : Side) (price : bd) (no : string) (time : Z) (qty : bd) : BbOrder :=
  mkBbOrder 1 1 1 (side_order_type side) 1 1 "btcusdt" "BTC/USDT" no 1 None 1 bd_zero bd_zero
    0 1 0 bd_zero bd_zero qty price qty time None bd_zero.

Definition with_form (form : Z) (g : option Z) (o : BbOrder) : BbOrder :=
  mkBbOrder (user_id o) (uid o) (type o) (order_type o) (market_id o) (coin_id o)
    (symbol_key o) (coin_market o) (trust_order_no o) form g
    (close_position o) (start_deposit o) (target_rate o) (position_type o) (lever_times o)
    (order_status o) (consumer_all_number o) (current_deal_number o) (trust_number o)
    (trust_price o) (remaining_number o) (create_time o) (face_value o) (average_price o).

Definition test_market (side : Side) (no : string) (time : Z) (qty : bd) : BbOrder :=
  with_form 2 (Some 1) (test_limit side bd_zero no time qty).
Definition test_post_only side price no time qty := with_form 3 None (test_limit side price no time qty).
Definition test_ioc side price no time qty := with_form 4 None (test_limit side price no time qty).
Definition test_fok side price no time qty := with_form 5 None (test_limit side price no time qty).

(** [BbOrder::removal_key]: only the sort fields are kept. *)
Definition removal_key (o : BbOrder) : BbOrder :=
  mkBbOrder 0 0 0 0 0 0 "" "" (trust_order_no o) 0 None 0 bd_zero bd_zero 0 0 0
    bd_zero bd_zero bd_zero (trust_price o) bd_zero (create_time o) None bd_zero.

(** ** Comparison ([order.rs]) *)

Definition compare_same_price (a b : BbOrder) : comparison :=
  if String.eqb (trust_order_no a) (trust_order_no b) then Eq
  else match create_time a ?= create_time b with
       | Eq => String.compare (trust_order_no a) (trust_order_no b)
       | ord => ord
       end.

Definition compare_buy (a b : BbOrder) : comparison :=
  match bd_cmp (trust_price a) (trust_price b) with
  | Eq => compare_same_price a b
  | ord => CompOpp ord
  end.

Definition compare_sell (a b : BbOrder) : comparison :=
  match bd_cmp (trust_price a) (trust_price b) with
  | Eq => compare_same_price a b
  | ord => ord
  end.

(** The [Ord] of [BuyEntry] and of [SellEntry]. *)
Definition entry_cmp (s : Side) : BbOrder → BbOrder → comparison :=
  match s with Buy => compare_buy | Sell => compare_sell end.

(** ** Set operations of [std::collections::BTreeSet] *)

Fixpoint set_insert (cmp : BbOrder → BbOrder → comparison) (x : BbOrder) (l : list BbOrder) :
    bool * list BbOrder :=
  match l with
  | [] => (true, [x])
  | y :: l' => match cmp x y with
               | Lt => (true, x :: l)
               | Eq => (false, l)
               | Gt => let '(ok, r) := set_insert cmp x l' in (ok, y :: r)
               end
  end.

Fixpoint set_take (cmp : BbOrder → BbOrder → comparison) (x : BbOrder) (l : list BbOrder) :
    option BbOrder * list BbOrder :=
  match l with
  | [] => (None, [])
  | y :: l' => match cmp x y with
               | Lt => (None, l)
               | Eq => (Some y, l')
               | Gt => let '(r, l'') := set_take cmp x l' in (r, y :: l'')
               end
  end.

(** ** [OrderBook] ([book.rs]) *)

Record OrderBook := mkBook { buys : list BbOrder; sells : list BbOrder }.

Definition orders (s : Side) (b : OrderBook) : list BbOrder :=
  match s with Buy => buys b | Sell => sells b end.

Definition with_orders (s : Side) (l : list BbOrder) (b : OrderBook) : OrderBook :=
  match s with Buy => mkBook l (sells b) | Sell => mkBook (buys b) l end.

Definition book_new : OrderBook := mkBook [] [].

Definition insert (book : OrderBook) (order : BbOrder) : bool * OrderBook :=
  match from_order_type (order_type order) with
  | Some s => let '(ok, l) := set_insert (entry_cmp s) order (orders s book) in
              (ok, with_orders s l book)
  | None => (false, book)
  end.

Definition contains_order_no (book : OrderBook) (no : string) : bool :=
  existsb (λ e, String.eqb (trust_order_no e) no) (buys book)
  || existsb (λ e, String.eqb (trust_order_no e) no) (sells book).

Definition remove (book : OrderBook) (order : BbOrder) : bool * OrderBook :=
  let key := removal_key order in
  match from_order_type (order_type order) with
  | Some s => let '(r, l) := set_take (entry_cmp s) key (orders s book) in
              (match r with Some _ => true | None => false end, with_orders s l book)
  | None => (false, book)
  end.

(** [best] and [first] *)
Definition first (s : Side) (book : OrderBook) : option BbOrder := head (orders s book).

Definition pop_first (s : Side) (book : OrderBook) : option BbOrder * OrderBook :=
  match orders s book with
  | [] => (None, book)
  | o :: l => (Some o, with_orders s l book)
  end.

Definition remove_by_order_no (s : Side) (no : string) (book : OrderBook) :
    option BbOrder * OrderBook :=
  match List.find (λ e, String.eqb (trust_order_no e) no) (orders s book) with
  | Some found =>
      let '(r, l) := set_take (entry_cmp s) (removal_key found) (orders s book) in
      (r, with_orders s l book)
  | None => (None, book)
  end.

Definition is_empty (s : Side) (book : OrderBook) : bool :=
  match orders s book with [] => true | _ => false end.

(** ** Depth ([depth.rs]) *)

(** [push_depth_level]; the levels are kept newest last as in the code. *)
Definition push_depth_level (levels : list (bd * bd)) (limit : nat) (price qty : bd) :
    list (bd * bd) :=
  match last levels with
  | Some (last_price, last_qty) =>
      if (last_price =? price)%bd then
        take (length levels - 1) levels ++ [(last_price, (last_qty + qty)%bd)]
      else if (length levels <? limit)%nat then levels ++ [(price, qty)] else levels
  | None => if (length levels <? limit)%nat then levels ++ [(price, qty)] else levels
  end.

Definition depth_levels_from_orders (l : list BbOrder) (limit : nat) : list (bd * bd) :=
  if (limit =? 0)%nat then []
  else foldl (λ levels o,
         if (remaining_number o <=? bd_zero)%bd then levels
         else push_depth_level levels limit (trust_price o) (remaining_number o)) [] l.

(** [OrderBook::depth_levels] *)
Definition depth_levels (book : OrderBook) (s : Side) (limit : nat) : list (bd * bd) :=
  depth_levels_from_orders (orders s book) limit.

(** [OrderBook::resting_orders] *)
Definition resting_orders (book : OrderBook) (s : Side) : list BbOrder := orders s book.

End Book.

(** ** Price-time priority *)

Section Priority.
Context `{BDS : BigDecimalSpec}.
Implicit Types (o a b c x y : BbOrder) (l : list BbOrder) (s : Side).

(** [p] is strictly better than [q] on side [s]: higher for bids, lower for asks. *)
Definition better (s : Side) (p q : bd) : Prop :=
  match s with Buy => (⟦q⟧ < ⟦p⟧)%Q | Sell => (⟦p⟧ < ⟦q⟧)%Q end.

(** The specification order: better price, then earlier time, then smaller number. *)
Definition before (s : Side) (a b : BbOrder) : Prop :=
  better s (trust_price a) (trust_price b)
  ∨ (bd_eq (trust_price a) (trust_price b)
     ∧ (create_time a < create_time b
        ∨ (create_time a = create_time b
           ∧ String.compare (trust_order_no a) (trust_order_no b) = Lt))).

Lemma before_irrefl s a : ¬ before s a a.
Proof.
  unfold before, better. rewrite string_compare_refl.
  destruct s; intros [?|[_ [?|[_ ?]]]]; (lra || lia || done).
Qed.

Lemma before_trans s a b c : before s a b → before s b c → before s a c.
Proof.
  unfold before, better, bd_eq. intros Hab Hbc.
  destruct Hab as [Hab|[Hab Hab']]; destruct Hbc as [Hbc|[Hbc Hbc']];
    try (left; destruct s; lra).
  right. split; [lra|].
  destruct Hab' as [?|[-> ?]], Hbc' as [?|[? ?]]; try (left; lia).
  right. split; [done|]. by eapply string_compare_trans.
Qed.

#[export] Instance before_transitive s : Transitive (before s).
Proof. intros a b c. apply before_trans. Qed.

Lemma before_asymm s a b : before s a b → ¬ before s b a.
Proof. intros H1 H2. eapply before_irrefl, before_trans; eassumption. Qed.

Lemma entry_cmp_Eq s a b :
  (entry_cmp s a b = Eq) ↔
  bd_eq (trust_price a) (trust_price b) ∧ trust_order_no a = trust_order_no b.
Proof.
  assert (Hs : bd_cmp (trust_price a) (trust_price b) = Eq →
    (compare_same_price a b = Eq ↔ trust_order_no a = trust_order_no b)).
  { intros _. unfold compare_same_price.
    destruct (String.eqb_spec (trust_order_no a) (trust_order_no b)) as [->|Hne]; [done|].
    destruct (create_time a ?= create_time b); [|done|done].
    split; [|done]. apply String.compare_eq_iff. }
  unfold bd_eq. destruct s; cbn; unfold compare_buy, compare_sell;
    destruct (bd_cmp_spec (trust_price a) (trust_price b)); cbn;
    first [ rewrite Hs by done; tauto | split; [done|intros [? _]; lra] ].
Qed.

Lemma entry_cmp_Lt s a b :
  trust_order_no a ≠ trust_order_no b → entry_cmp s a b = Lt ↔ before s a b.
Proof.
  intros Hne.
  assert (Hs : compare_same_price a b = Lt ↔ create_time a < create_time b
        ∨ (create_time a = create_time b
           ∧ String.compare (trust_order_no a) (trust_order_no b) = Lt)).
  { unfold compare_same_price.
    destruct (String.eqb_spec (trust_order_no a) (trust_order_no b)) as [|_]; [done|].
    destruct (Z.compare_spec (create_time a) (create_time b)); intuition (lia || done). }
  unfold before, better, bd_eq. destruct s; cbn; unfold compare_buy, compare_sell;
    destruct (bd_cmp_spec (trust_price a) (trust_price b)); cbn; rewrite ?Hs;
    intuition (lra || done).
Qed.

Lemma compare_same_price_antisym a b : compare_same_price a b = CompOpp (compare_same_price b a).
Proof.
  unfold compare_same_price. rewrite (String.eqb_sym (trust_order_no b)).
  destruct (String.eqb _ _); [done|]. rewrite (Z.compare_antisym (create_time b)).
  rewrite (String.compare_antisym (trust_order_no a)).
  by destruct (create_time b ?= create_time a).
Qed.

Lemma entry_cmp_antisym s a b : entry_cmp s a b = CompOpp (entry_cmp s b a).
Proof.
  destruct s; cbn; unfold compare_buy, compare_sell;
    rewrite (bd_cmp_antisym (trust_price a)), (compare_same_price_antisym a);
    by destruct (bd_cmp (trust_price b) (trust_price a)).
Qed.

Lemma entry_cmp_Gt s a b :
  trust_order_no a ≠ trust_order_no b → entry_cmp s a b = Gt ↔ before s b a.
Proof.
  intros Hne. rewrite <- entry_cmp_Lt by done. rewrite entry_cmp_antisym.
  by destruct (entry_cmp s b a).
Qed.

Lemma before_total s a b :
  trust_order_no a ≠ trust_order_no b → before s a b ∨ before s b a.
Proof.
  intros Hne. rewrite <- entry_cmp_Lt, <- (entry_cmp_Gt s) by done.
  destruct (entry_cmp s a b) eqn:E; [|tauto|tauto].
  apply entry_cmp_Eq in E as [_ ?]. done.
Qed.

(** ** A well-formed side *)

Definition numbers (l : list BbOrder) : list string := trust_order_no <$> l.

Definition side_ok (s : Side) (l : list BbOrder) : Prop :=
  StronglySorted (before s) l
  ∧ NoDup (numbers l)
  ∧ Forall (λ o, order_type o = side_order_type s) l.

(** Two orders with the same position in the book and the same side. *)
Definition same_key (a b : BbOrder) : Prop :=
  trust_order_no a = trust_order_no b ∧ create_time a = create_time b
  ∧ bd_eq (trust_price a) (trust_price b) ∧ order_type a = order_type b.

#[export] Instance same_key_equivalence : Equivalence same_key.
Proof.
  split; unfold same_key.
  - intros a. repeat split; reflexivity.
  - intros a b (?&?&?&?). repeat split; by symmetry.
  - intros a b c (?&?&Hp&?) (?&?&Hq&?). repeat split; try congruence. by rewrite Hp.
Qed.

#[export] Instance before_proper s : Proper (same_key ==> same_key ==> iff) (before s).
Proof.
  intros a a' (Hn & Ht & Hp & _) b b' (Hn' & Ht' & Hp' & _).
  unfold before, better, bd_eq in *. rewrite Hn, Ht, Hn', Ht'. destruct s; intuition lra.
Qed.

Lemma same_key_removal o : entry_cmp Buy (removal_key o) o = Eq ∧ entry_cmp Sell (removal_key o) o = Eq.
Proof. split; apply entry_cmp_Eq; done. Qed.

Lemma side_ok_nil s : side_ok s [].
Proof. repeat constructor. Qed.

Lemma side_ok_cons s o l :
  side_ok s (o :: l) ↔
  Forall (before s o) l ∧ (trust_order_no o ∉ numbers l)
  ∧ order_type o = side_order_type s ∧ side_ok s l.
Proof.
  unfold side_ok. cbn [numbers fmap list_fmap]. rewrite NoDup_cons, Forall_cons.
  split.
  - intros (Hs & [??] & [??]). apply StronglySorted_inv in Hs as [??]. done.
  - intros (?&?&?&?&?&?). split_and!; try done. by constructor.
Qed.

Lemma side_ok_app s l1 l2 :
  side_ok s (l1 ++ l2) ↔
  side_ok s l1 ∧ side_ok s l2 ∧ (∀ a b, a ∈ l1 → b ∈ l2 → before s a b)
  ∧ (∀ n, n ∈ numbers l1 → n ∈ numbers l2 → False).
Proof.
  induction l1 as [|o l1 IH]; cbn [app].
  - split; [|intros (?&?&?&?); done]. intros. split_and!; try apply side_ok_nil; try done.
    + intros a b Ha. by apply elem_of_nil in Ha.
    + intros n Ha. by apply elem_of_nil in Ha.
  - rewrite !side_ok_cons, IH, Forall_app. unfold numbers. rewrite fmap_app, not_elem_of_app.
    cbn. split.
    + intros ([? Hb] & [? Hn] & ? & ? & ? & Hab & Hd). split_and!; try done.
      * intros a b [->|Ha]%elem_of_cons Hb'; [|by apply Hab].
        by eapply Forall_forall in Hb.
      * intros n [->|?]%elem_of_cons; [done|]. by apply Hd.
    + intros ((?&?&?&?) & ? & Hab & Hd). split_and!; try done.
      * apply Forall_forall. intros b Hb. apply Hab; [|done]. by left.
      * intros Hn. apply (Hd (trust_order_no o)); [by left|done].
      * intros a b Ha. apply Hab. by right.
      * intros n Ha. apply Hd. by right.
Qed.

(** Any part of a well-formed side is well-formed. *)
Lemma side_ok_sublist s l l' : sublist l' l → side_ok s l → side_ok s l'.
Proof.
  induction 1 as [|o l1 l2 Hsub IH|o l1 l2 Hsub IH]; [done| |];
    rewrite ?side_ok_cons; intros (Hb & Hn & Ht & Hok); [|by apply IH].
  split_and!; [| |done|by apply IH].
  - rewrite Forall_forall in *. intros x Hx. apply Hb. by eapply elem_of_sublist.
  - intros Hin. apply Hn. unfold numbers in *. apply list_elem_of_fmap in Hin as (y & -> & Hy).
    apply list_elem_of_fmap_2. by eapply elem_of_sublist.
Qed.

(** An order may be replaced by one with the same key. *)
Lemma side_ok_head s o o' l : same_key o o' → side_ok s (o :: l) → side_ok s (o' :: l).
Proof.
  intros Hk. rewrite !side_ok_cons. intros (Hb & Hn & Ht & ?).
  destruct (Hk) as (Hno & _ & _ & Hty).
  split_and!; try done; try congruence.
  eapply Forall_impl; [exact Hb|]. intros x Hx. cbn in Hx. by rewrite <- Hk.
Qed.

Lemma side_ok_tail s o l : side_ok s (o :: l) → side_ok s l.
Proof. rewrite side_ok_cons. tauto. Qed.

(** ** The set operations on a well-formed side *)

Lemma set_insert_spec s x l :
  side_ok s l → trust_order_no x ∉ numbers l → order_type x = side_order_type s →
  ∃ l1 l2, l = l1 ++ l2 ∧ set_insert (entry_cmp s) x l = (true, l1 ++ x :: l2)
           ∧ side_ok s (l1 ++ x :: l2).
Proof.
  intros Hok Hn Ht. induction l as [|y l IH].
  - exists [], []. split_and!; [done|done|]. split_and!; [|by apply NoDup_singleton|by repeat constructor].
    repeat constructor.
  - pose proof Hok as (Hb & Hny & Hty & Hl)%side_ok_cons.
    cbn in Hn. apply not_elem_of_cons in Hn as [Hne Hn].
    cbn [set_insert]. destruct (entry_cmp s x y) eqn:E.
    + apply entry_cmp_Eq in E as [_ ?]. done.
    + exists [], (y :: l). split_and!; cbn [app]; try done.
      apply entry_cmp_Lt in E; [|done].
      apply side_ok_cons. split_and!; try done.
      * constructor; [done|]. eapply Forall_impl; [exact Hb|].
        intros z Hz. cbn in Hz. by eapply before_trans.
      * cbn. by apply not_elem_of_cons.
    + apply entry_cmp_Gt in E; [|done].
      destruct IH as (l1 & l2 & -> & Hi & Hs); [done..|].
      exists (y :: l1), l2. rewrite Hi. split; [done|]. split; [done|].
      cbn [app]. apply side_ok_cons. split_and!; try done; try apply Hs.
      * apply Forall_app in Hb as [??]. apply Forall_app; split; [done|]. by constructor.
      * unfold numbers in *. rewrite fmap_app in *. cbn.
        rewrite not_elem_of_app in *. rewrite not_elem_of_cons. intuition congruence.
Qed.

(** Putting back the head of a side, with the same key, puts it back first. *)
Lemma set_insert_head s o o' l :
  side_ok s (o :: l) → same_key o o' → set_insert (entry_cmp s) o' l = (true, o' :: l).
Proof.
  intros Hok Hk. pose proof Hok as Hok'. eapply side_ok_head in Hok'; [|exact Hk].
  apply side_ok_cons in Hok' as (Hb & Hn & _ & _).
  destruct l as [|y l]; [done|]. cbn.
  apply Forall_cons in Hb as [Hy _]. cbn in Hn. apply not_elem_of_cons in Hn as [Hne _].
  by rewrite (proj2 (entry_cmp_Lt s o' y Hne) Hy).
Qed.

(** Putting back an order taken out of the middle. *)
Lemma set_insert_back s l1 x l2 :
  side_ok s (l1 ++ x :: l2) → set_insert (entry_cmp s) x (l1 ++ l2) = (true, l1 ++ x :: l2).
Proof.
  induction l1 as [|y l1 IH]; cbn [app]; intros Hok; [by eapply set_insert_head|].
  apply side_ok_cons in Hok as (Hb & Hn & _ & Hok). cbn [set_insert].
  assert (Hx : x ∈ l1 ++ x :: l2) by set_solver.
  assert (Hne : trust_order_no x ≠ trust_order_no y).
  { intros He. apply Hn. rewrite <- He. by apply list_elem_of_fmap_2. }
  rewrite (proj2 (entry_cmp_Gt s x y Hne)); [by rewrite IH|].
  by eapply Forall_forall in Hb.
Qed.

Lemma set_take_spec s x l1 l2 :
  side_ok s (l1 ++ x :: l2) →
  set_take (entry_cmp s) (removal_key x) (l1 ++ x :: l2) = (Some x, l1 ++ l2).
Proof.
  induction l1 as [|y l1 IH]; cbn [app set_take]; intros Hok.
  - destruct (same_key_removal x) as [Hb Hs]. destruct s; [by rewrite Hb|by rewrite Hs].
  - apply side_ok_cons in Hok as (Hb & Hn & _ & Hok).
    assert (Hyx : before s y x) by (by apply Forall_app in Hb as [_ [? _]%Forall_cons]).
    assert (Hne : trust_order_no (removal_key x) ≠ trust_order_no y).
    { cbn. intros He. apply Hn. rewrite <- He. unfold numbers. rewrite fmap_app.
      apply elem_of_app. right. by left. }
    rewrite (proj2 (entry_cmp_Gt s (removal_key x) y Hne)); [by rewrite IH|].
    unfold before in *. cbn. done.
Qed.

Lemma find_number_Some no l o :
  List.find (λ e, String.eqb (trust_order_no e) no) l = Some o →
  trust_order_no o = no ∧ o ∈ l.
Proof. intros [Hin Heq%String.eqb_eq]%find_some. split; [done|]. by apply list_elem_of_In. Qed.

Lemma find_number_None no l :
  List.find (λ e, String.eqb (trust_order_no e) no) l = None ↔ no ∉ numbers l.
Proof.
  induction l as [|y l IH]; cbn; [split; [intros _; apply not_elem_of_nil|done]|].
  rewrite not_elem_of_cons. destruct (String.eqb_spec (trust_order_no y) no); [naive_solver|].
  rewrite IH. naive_solver.
Qed.

Lemma existsb_number no l :
  existsb (λ e, String.eqb (trust_order_no e) no) l = true ↔ no ∈ numbers l.
Proof.
  induction l as [|y l IH]; cbn; [split; [done|by intros ?%not_elem_of_nil]|].
  rewrite elem_of_cons, orb_true_iff, IH, String.eqb_eq. naive_solver.
Qed.

Lemma contains_order_no_iff book no :
  contains_order_no book no = true ↔ no ∈ numbers (buys book) ++ numbers (sells book).
Proof. unfold contains_order_no. by rewrite orb_true_iff, !existsb_number, elem_of_app. Qed.

(** [remove_by_order_no] removes exactly the order with that number. *)
Lemma remove_by_order_no_spec s no book :
  side_ok s (orders s book) →
  (∃ l1 o l2, orders s book = l1 ++ o :: l2 ∧ trust_order_no o = no
     ∧ remove_by_order_no s no book = (Some o, with_orders s (l1 ++ l2) book))
  ∨ (no ∉ numbers (orders s book) ∧ remove_by_order_no s no book = (None, book)).
Proof.
  intros Hok. unfold remove_by_order_no.
  destruct (List.find _ _) as [o|] eqn:Ef.
  - left. apply find_number_Some in Ef as [Hno Hin].
    apply list_elem_of_split in Hin as (l1 & l2 & Hl). exists l1, o, l2.
    split; [done|]. split; [done|]. rewrite Hl in *. by rewrite set_take_spec.
  - right. by apply find_number_None in Ef.
Qed.

Lemma remove_by_order_no_head s o l book :
  side_ok s (o :: l) → orders s book = o :: l →
  remove_by_order_no s (trust_order_no o) book = (Some o, with_orders s l book).
Proof.
  intros Hok Hl. unfold remove_by_order_no. rewrite Hl. cbn. rewrite String.eqb_refl.
  destruct (same_key_removal o) as [Hb Hs]. destruct s; [by rewrite Hb|by rewrite Hs].
Qed.

Lemma numbers_with_orders s s' l book :
  orders s (with_orders s' l book) = if decide (s = s') then l else orders s book.
Proof. by destruct s, s'. Qed.

End Priority.
