(* ===== verification/CoreMatch.v ===== *)
(** * match-core: events and limit matching

    Models [crates/match-core/src/event.rs], [price_utils.rs] and
    [match_limit.rs].  A handler that mutates [&mut OrderBook] returns the new
    book.  The matching loops take a fuel argument and return [None] when it
    runs out (or where the code would panic on [unwrap]); the theorems show
    that the fuel the handlers pass, one more than the number of resting
    orders, is always enough. *)
From S2P Require Import Prelude Decimal Protocol CoreBook.
From Stdlib Require Import QArith Lqa.

#[local] Open Scope Z_scope.

(** ** [MatchEvent] ([event.rs]) *)
Inductive MatchEvent :=
| Fill (symbol : string) (taker_order_no maker_order_no : string)
       (taker_user_type maker_user_type : Z)
       (price qty taker_remaining maker_remaining : string)
       (taker_status maker_status : Z)
| Revoke (order_no symbol remaining reason : string).

#[export] Instance MatchEvent_eq_dec : EqDecision MatchEvent.
Proof. solve_decision. Defined.

Section Match.
Context `{BD : BigDecimal}.

(** [get_average_price] ([price_utils.rs]) *)
Definition get_average_price (amount price now_amount now_price : bd) : bd :=
  let total_amount := (price * amount + now_price * now_amount)%bd in
  let total_quantity := (amount + now_amount)%bd in
  if (total_quantity =? bd_zero)%bd then bd_zero
  else bd_normalized (bd_round_half_down (total_amount / total_quantity)%bd 16).

Definition remaining (order : BbOrder) : bd :=
  (trust_number order - consumer_all_number order)%bd.

Definition dec_str (d : bd) : string := bd_to_string (bd_normalized d).

Definition fill_event (symbol : string) (taker maker : BbOrder)
    (price qty taker_remaining maker_remaining : bd) (taker_status maker_status : Z) :
    MatchEvent :=
  Fill symbol (trust_order_no taker) (trust_order_no maker) (type taker) (type maker)
    (dec_str price) (dec_str qty) (dec_str taker_remaining) (dec_str maker_remaining)
    (taker_status mod 256) (maker_status mod 256).

Definition revoke_order_with_reason (book : OrderBook) (order : BbOrder) (reason : string) :
    option MatchEvent * OrderBook :=
  match from_order_type (order_type order) with
  | None => (None, book)
  | Some side =>
      match remove_by_order_no side (trust_order_no order) book with
      | (None, book) => (None, book)
      | (Some removed, book) =>
          (Some (Revoke (trust_order_no removed) (symbol_key removed)
                   (dec_str (remaining removed)) reason), book)
      end
  end.

Definition revoke_order (book : OrderBook) (order : BbOrder) : option MatchEvent * OrderBook :=
  revoke_order_with_reason book order "user".

(** ** Buy taker *)

Definition less_than_buy (book : OrderBook) (buy sell : BbOrder) (last_buy last_sell : bd) :
    option MatchEvent * OrderBook :=
  let symbol := symbol_key buy in
  let buy := set_average_price
    (get_average_price (consumer_all_number buy) (average_price buy) last_buy
       (trust_price sell)) buy in
  let sell := set_consumer_all_number (consumer_all_number sell + last_buy)%bd sell in
  let sell := set_remaining_number (trust_number sell - consumer_all_number sell)%bd sell in
  let book := (insert book sell).2 in
  let buy := set_order_status ORDER_STATUS_SUCCESS buy in
  let buy := set_current_deal_number last_buy buy in
  let buy := set_consumer_all_number (trust_number buy) buy in
  let deal_price := trust_price sell in
  let maker_rem := remaining_number sell in
  (Some (fill_event symbol buy sell deal_price last_buy bd_zero maker_rem
           ORDER_STATUS_SUCCESS ORDER_STATUS_SUCCESS_PART), book).

Definition equals_buy (buy sell : BbOrder) (last_buy last_sell : bd) : option MatchEvent :=
  let symbol := symbol_key buy in
  let buy := set_average_price
    (get_average_price (consumer_all_number buy) (average_price buy) last_sell
       (trust_price sell)) buy in
  let buy := set_order_status ORDER_STATUS_SUCCESS buy in
  let buy := set_current_deal_number last_buy buy in
  let buy := set_consumer_all_number (trust_number buy) buy in
  let buy := set_remaining_number bd_zero buy in
  let deal_price := trust_price sell in
  Some (fill_event symbol buy sell deal_price last_buy bd_zero bd_zero
          ORDER_STATUS_SUCCESS ORDER_STATUS_SUCCESS).

Definition rather_than_buy (book : OrderBook) : option MatchEvent * OrderBook :=
  match pop_first Buy book with
  | (None, book) => (None, book)
  | (Some buy, book) =>
  match pop_first Sell book with
  | (None, book) => (None, (insert book buy).2)
  | (Some sell, book) =>
      let last_buy := remaining buy in
      let last_sell := remaining sell in
      let symbol := symbol_key buy in
      if (last_buy >? last_sell)%bd then
        let buy := set_average_price
          (get_average_price (consumer_all_number buy) (average_price buy) last_sell
             (trust_price sell)) buy in
        let buy := set_consumer_all_number (consumer_all_number buy + last_sell)%bd buy in
        let buy := set_remaining_number (trust_number buy - consumer_all_number buy)%bd buy in
        let buy := set_order_status ORDER_STATUS_SUCCESS_PART buy in
        let buy := set_current_deal_number last_sell buy in
        let deal_price := trust_price sell in
        let taker_rem := remaining_number buy in
        let book := (insert book buy).2 in
        (Some (fill_event symbol buy sell deal_price last_sell taker_rem bd_zero
                 ORDER_STATUS_SUCCESS_PART ORDER_STATUS_SUCCESS), book)
      else if (last_buy <? last_sell)%bd then less_than_buy book buy sell last_buy last_sell
      else (equals_buy buy sell last_buy last_sell, book)
  end end.

(** ** Sell taker *)

Inductive RatherThanSellResult :=
| RFill (ev : MatchEvent)
| RRevoked (ev : MatchEvent)
| RNone.

Definition less_than_sell (book : OrderBook) (buy sell : BbOrder) (last_buy last_sell : bd) :
    MatchEvent * OrderBook :=
  let symbol := symbol_key sell in
  let sell := set_average_price
    (get_average_price (consumer_all_number sell) (average_price sell) last_sell
       (trust_price buy)) sell in
  let avg := get_average_price (consumer_all_number buy) (average_price buy) last_sell
               (trust_price buy) in
  let buy := set_consumer_all_number (consumer_all_number buy + last_sell)%bd buy in
  let buy := set_remaining_number (trust_number buy - consumer_all_number buy)%bd buy in
  let buy := set_average_price avg buy in
  let book := (insert book buy).2 in
  let sell := set_order_status ORDER_STATUS_SUCCESS sell in
  let sell := set_current_deal_number last_sell sell in
  let sell := set_consumer_all_number (trust_number sell) sell in
  let deal_price := trust_price buy in
  let maker_rem := remaining_number buy in
  (fill_event symbol sell buy deal_price last_sell bd_zero maker_rem
     ORDER_STATUS_SUCCESS ORDER_STATUS_SUCCESS_PART, book).

Definition equals_sell (buy sell : BbOrder) (last_buy last_sell : bd) : MatchEvent :=
  let symbol := symbol_key sell in
  let sell := set_average_price
    (get_average_price (consumer_all_number sell) (average_price sell) last_sell
       (trust_price buy)) sell in
  let sell := set_order_status ORDER_STATUS_SUCCESS sell in
  let sell := set_remaining_number bd_zero sell in
  let sell := set_current_deal_number last_sell sell in
  let sell := set_consumer_all_number (trust_number sell) sell in
  let deal_price := trust_price buy in
  fill_event symbol sell buy deal_price last_sell bd_zero bd_zero
    ORDER_STATUS_SUCCESS ORDER_STATUS_SUCCESS.

Definition rather_than_sell (book : OrderBook) : RatherThanSellResult * OrderBook :=
  match pop_first Sell book with
  | (None, book) => (RNone, book)
  | (Some sell, book) =>
  match pop_first Buy book with
  | (None, book) => (RNone, (insert book sell).2)
  | (Some buy, book) =>
      let last_sell := remaining sell in
      let last_buy := remaining buy in
      let symbol := symbol_key sell in
      if (last_sell >? last_buy)%bd then
        if order_form sell =? ORDER_FORM_FOK then
          let book := (insert book buy).2 in
          (RRevoked (Revoke (trust_order_no sell) symbol (dec_str (remaining_number sell)) "user"),
           book)
        else
          let sell := set_average_price
            (get_average_price (consumer_all_number sell) (average_price sell) last_buy
               (trust_price buy)) sell in
          let sell := set_consumer_all_number (consumer_all_number sell + last_buy)%bd sell in
          let sell := set_remaining_number (trust_number sell - consumer_all_number sell)%bd sell in
          let sell := set_order_status ORDER_STATUS_SUCCESS_PART sell in
          let sell := set_current_deal_number last_buy sell in
          let deal_price := trust_price buy in
          let taker_rem := remaining_number sell in
          let book := (insert book sell).2 in
          (RFill (fill_event symbol sell buy deal_price last_buy taker_rem bd_zero
                    ORDER_STATUS_SUCCESS_PART ORDER_STATUS_SUCCESS), book)
      else if (last_sell <? last_buy)%bd then
        let '(ev, book) := less_than_sell book buy sell last_buy last_sell in (RFill ev, book)
      else (RFill (equals_sell buy sell last_buy last_sell), book)
  end end.

(** ** Loops *)

(** [push_rather_than_buy] *)
Definition push_rather_than_buy (book : OrderBook) (events : list MatchEvent) :
    OrderBook * list MatchEvent :=
  match rather_than_buy book with
  | (Some ev, book) => (book, events ++ [ev])
  | (None, book) => (book, events)
  end.

(** [push_rather_than_sell_limit], [push_rather_than_sell_ioc] *)
Definition push_rather_than_sell (book : OrderBook) (events : list MatchEvent) :
    OrderBook * list MatchEvent :=
  match rather_than_sell book with
  | (RFill ev, book) => (book, events ++ [ev])
  | (RRevoked ev, book) => (book, events ++ [ev])
  | (RNone, book) => (book, events)
  end.

Fixpoint match_limit_buy_loop (fuel : nat) (book : OrderBook) (events : list MatchEvent) :
    option (list MatchEvent * OrderBook) :=
  match fuel with
  | O => None
  | S fuel =>
      if is_empty Buy book then Some (events, book)
      else if is_empty Sell book then Some (events, book)
      else
        buy ← first Buy book;
        sell ← first Sell book;
        if (trust_price buy <? trust_price sell)%bd then Some (events, book)
        else let '(book, events) := push_rather_than_buy book events in
             match_limit_buy_loop fuel book events
  end.

Fixpoint match_limit_sell_loop (fuel : nat) (book : OrderBook) (events : list MatchEvent) :
    option (list MatchEvent * OrderBook) :=
  match fuel with
  | O => None
  | S fuel =>
      if is_empty Buy book then Some (events, book)
      else if is_empty Sell book then Some (events, book)
      else
        buy ← first Buy book;
        sell ← first Sell book;
        if (trust_price sell >? trust_price buy)%bd then Some (events, book)
        else let '(book, events) := push_rather_than_sell book events in
             match_limit_sell_loop fuel book events
  end.

(** One more than the number of resting orders: each round of a loop removes one. *)
Definition loop_fuel (book : OrderBook) : nat := S (length (buys book) + length (sells book)).

(** [with_inserted]: insert the order, or reject a duplicate. *)
Definition with_inserted (book : OrderBook) (order : BbOrder)
    (then_ : OrderBook → option (list MatchEvent * OrderBook)) :
    option (list MatchEvent * OrderBook) :=
  match insert book order with
  | (false, book) => Some ([], book)
  | (true, book) => then_ book
  end.

Definition handle_limit_buy (book : OrderBook) (order : BbOrder) :
    option (list MatchEvent * OrderBook) :=
  with_inserted book order (λ book, match_limit_buy_loop (loop_fuel book) book []).

Definition handle_limit_sell (book : OrderBook) (order : BbOrder) :
    option (list MatchEvent * OrderBook) :=
  with_inserted book order (λ book, match_limit_sell_loop (loop_fuel book) book []).

Definition rest_only (book : OrderBook) (order : BbOrder) : OrderBook := (insert book order).2.

Definition is_revoke (order : BbOrder) : bool := order_status order =? ORDER_STATUS_REVOKE.

End Match.
