(* ===== verification/CoreSpec.v ===== *)
(** * match-core: the abstract matching contract

    What [match-core] promises, independently of how the handlers are written:
    a book invariant ([book_ok], [uncrossed], [quantities_ok]) and a step
    relation [trade] in which the best bid meets the best ask, both give up
    the same quantity, the smaller of their remainders, at the maker's price,
    and an exhausted order leaves the book.  [trades] is a sequence of such
    steps, each taken under a guard.  The handlers of [CoreLimit], [CoreFok]
    and [CoreEngine] are shown to refine this relation. *)
From S2P Require Import Prelude Decimal Protocol CoreBook CoreMatch.
From Stdlib Require Import QArith Lqa Qminmax Sorted.

#[local] Open Scope Z_scope.

Section Spec.
Context `{BDS : BigDecimalSpec}.
Implicit Types (o b s : BbOrder) (book : OrderBook) (ev : MatchEvent) (q : bd).

(** ** Invariants *)

(** Sides sorted by price-time priority, numbers unique over the whole book. *)
Definition book_ok (book : OrderBook) : Prop :=
  side_ok Buy (buys book) ∧ side_ok Sell (sells book)
  ∧ (∀ n, n ∈ numbers (buys book) → n ∈ numbers (sells book) → False).

(** No bid reaches the best ask. *)
Definition uncrossed (book : OrderBook) : Prop :=
  match buys book, sells book with
  | b :: _, s :: _ => (⟦trust_price b⟧ < ⟦trust_price s⟧)%Q
  | _, _ => True
  end.

(** An order has something left, and its cached remainder is the computed one. *)
Definition quantity_ok (o : BbOrder) : Prop :=
  (0 < ⟦remaining o⟧)%Q ∧ bd_eq (remaining_number o) (remaining o).

Definition quantities_ok (book : OrderBook) : Prop :=
  Forall quantity_ok (buys book) ∧ Forall quantity_ok (sells book).

(** Total open quantity of one side. *)
Definition total (l : list BbOrder) : Q := foldr (λ o acc, ⟦remaining o⟧ + acc)%Q 0%Q l.
Definition open_qty (s : Side) (book : OrderBook) : Q := total (orders s book).

(** ** The fields a match never changes *)

Definition same_order (o o' : BbOrder) : Prop :=
  trust_order_no o = trust_order_no o' ∧ create_time o = create_time o'
  ∧ trust_price o = trust_price o' ∧ order_type o = order_type o'
  ∧ symbol_key o = symbol_key o' ∧ order_form o = order_form o'
  ∧ trust_number o = trust_number o' ∧ type o = type o' ∧ gear o = gear o'.

(** [o'] is [o] after giving up [q]. *)
Definition reduced (q : bd) (o o' : BbOrder) : Prop :=
  same_order o o' ∧ (⟦remaining o'⟧ == ⟦remaining o⟧ - ⟦q⟧)%Q
  ∧ bd_eq (remaining_number o') (remaining o').

(** What is left of an order that gives up [q]: nothing, or a positive remainder. *)
Definition leftover (q : bd) (o : BbOrder) (rest : option BbOrder) : Prop :=
  match rest with
  | Some o' => reduced q o o' ∧ (⟦q⟧ < ⟦remaining o⟧)%Q
  | None => (⟦remaining o⟧ == ⟦q⟧)%Q
  end.

(** The fill event of a trade of quantity [q]. *)
Definition fill_of (taker maker : BbOrder) (q : bd) (ev : MatchEvent) : Prop :=
  ∃ taker_rem maker_rem taker_status maker_status,
    ev = Fill (symbol_key taker) (trust_order_no taker) (trust_order_no maker)
           (type taker) (type maker) (dec_str (trust_price maker)) (dec_str q)
           (dec_str taker_rem) (dec_str maker_rem) taker_status maker_status
    ∧ (⟦taker_rem⟧ == ⟦remaining taker⟧ - ⟦q⟧)%Q
    ∧ (⟦maker_rem⟧ == ⟦remaining maker⟧ - ⟦q⟧)%Q.

Definition option_list {A} (x : option A) : list A := match x with Some a => [a] | None => [] end.

(** One trade between the two best orders; [taker] is the side of the taker. *)
Inductive trade (taker : Side) : OrderBook → MatchEvent → OrderBook → Prop :=
| trade_best b s bs ss br sr q ev :
    (⟦q⟧ == Qmin ⟦remaining b⟧ ⟦remaining s⟧)%Q →
    leftover q b br → leftover q s sr →
    (br = None ∨ sr = None) →
    fill_of (match taker with Buy => b | Sell => s end)
            (match taker with Buy => s | Sell => b end) q ev →
    trade taker (mkBook (b :: bs) (s :: ss)) ev
      (mkBook (option_list br ++ bs) (option_list sr ++ ss)).

(** A run of trades, each allowed by the guard on the two best orders. *)
Inductive trades (taker : Side) (guard : BbOrder → BbOrder → Prop) :
    OrderBook → list MatchEvent → OrderBook → Prop :=
| trades_nil book : trades taker guard book [] book
| trades_cons b s bs ss ev evs book' book'' :
    guard b s →
    trade taker (mkBook (b :: bs) (s :: ss)) ev book' →
    trades taker guard book' evs book'' →
    trades taker guard (mkBook (b :: bs) (s :: ss)) (ev :: evs) book''.

(** The bid reaches the ask. *)
Definition crosses (b s : BbOrder) : Prop := (⟦trust_price s⟧ <= ⟦trust_price b⟧)%Q.

(** Quantity reported by an event, read back from its text. *)
Definition event_qty (ev : MatchEvent) : Q :=
  match ev with
  | Fill _ _ _ _ _ _ qty _ _ _ _ => match bd_from_str qty with Some d => ⟦d⟧ | None => 0 end
  | Revoke _ _ _ _ => 0
  end.
Definition traded (evs : list MatchEvent) : Q := foldr (λ e acc, event_qty e + acc)%Q 0%Q evs.

(** Price reported by an event. *)
Definition event_price (ev : MatchEvent) : option bd :=
  match ev with Fill _ _ _ _ _ price _ _ _ _ _ => bd_from_str price | _ => None end.

(** ** Facts *)

Lemma same_order_key o o' : same_order o o' → same_key o o'.
Proof.
  intros (?&?&Hp&?&_). unfold same_key. split_and!; try done. by rewrite Hp.
Qed.

Lemma same_order_refl o : same_order o o.
Proof. unfold same_order. split_and!; done. Qed.

Lemma total_app l1 l2 : (total (l1 ++ l2) == total l1 + total l2)%Q.
Proof. induction l1 as [|o l1 IH]; simpl; [ring|]. rewrite IH. ring. Qed.

Lemma total_cons o l : total (o :: l) = (⟦remaining o⟧ + total l)%Q.
Proof. done. Qed.

Lemma traded_app l1 l2 : (traded (l1 ++ l2) == traded l1 + traded l2)%Q.
Proof. induction l1 as [|o l1 IH]; simpl; [ring|]. rewrite IH. ring. Qed.

Lemma fill_of_qty taker maker q ev : fill_of taker maker q ev → (event_qty ev == ⟦q⟧)%Q.
Proof.
  intros (?&?&?&?&->&_&_). cbn. unfold dec_str.
  destruct (bd_print_parse q) as (d & -> & Hd). done.
Qed.

Lemma leftover_total q o rest : leftover q o rest → (total (option_list rest) == ⟦remaining o⟧ - ⟦q⟧)%Q.
Proof. destruct rest as [o'|]; simpl; [intros [(_&->&_) _]; ring|intros ->; ring]. Qed.

Lemma leftover_side_ok sd q o rest l :
  leftover q o rest → side_ok sd (o :: l) → side_ok sd (option_list rest ++ l).
Proof.
  destruct rest as [o'|]; cbn; [|intros _; apply side_ok_tail].
  intros [(Hs%same_order_key & _) _]. by apply side_ok_head.
Qed.

Lemma leftover_numbers q o rest l n :
  leftover q o rest → n ∈ numbers (option_list rest ++ l) → n ∈ numbers (o :: l).
Proof.
  destruct rest as [o'|]; cbn; [|by intros _ ?; right].
  intros [((Hn&_)&_) _]. by rewrite Hn.
Qed.

Lemma leftover_quantity q o rest l :
  leftover q o rest → Forall quantity_ok (o :: l) → Forall quantity_ok (option_list rest ++ l).
Proof.
  destruct rest as [o'|]; cbn; intros Hl [Ho ?]%Forall_cons; [|done].
  constructor; [|done]. destruct Hl as [(_&Hr&?) ?]. split; [lra|done].
Qed.

Lemma trade_ok taker book ev book' : trade taker book ev book' → book_ok book → book_ok book'.
Proof.
  intros [b s bs ss br sr q ev' _ Hb Hs _ _] (Hbuy & Hsell & Hd). unfold book_ok. cbn in *.
  split_and!.
  - eapply leftover_side_ok; eassumption.
  - eapply leftover_side_ok; eassumption.
  - intros n Hn1 Hn2. eapply Hd; eapply leftover_numbers; eassumption.
Qed.

Lemma trade_quantities taker book ev book' :
  trade taker book ev book' → quantities_ok book → quantities_ok book'.
Proof.
  intros [b s bs ss br sr q ev' _ Hb Hs _ _] [Hbuy Hsell]. unfold quantities_ok. cbn in *.
  split; eapply leftover_quantity; eassumption.
Qed.

(** Both sides give up the quantity the event reports. *)
Lemma trade_conserves taker book ev book' sd :
  trade taker book ev book' → (open_qty sd book' == open_qty sd book - event_qty ev)%Q.
Proof.
  intros [b s bs ss br sr q ev' _ Hb Hs _ Hf]. rewrite (fill_of_qty _ _ _ _ Hf).
  unfold open_qty. destruct sd; cbn [orders buys sells];
    rewrite total_app, (leftover_total q), total_cons by eassumption; ring.
Qed.

Lemma trade_shrinks taker book ev book' :
  trade taker book ev book' → (loop_fuel book' < loop_fuel book)%nat.
Proof.
  intros [b s bs ss br sr q ev' _ _ _ Hne _]. unfold loop_fuel. cbn.
  rewrite !length_app. destruct br, sr; cbn; (lia || naive_solver).
Qed.

Lemma trades_ok taker G book evs book' : trades taker G book evs book' → book_ok book → book_ok book'.
Proof. induction 1; eauto using trade_ok. Qed.

Lemma trades_quantities taker G book evs book' :
  trades taker G book evs book' → quantities_ok book → quantities_ok book'.
Proof. induction 1; eauto using trade_quantities. Qed.

Lemma trades_conserve taker G book evs book' sd :
  trades taker G book evs book' → (open_qty sd book' == open_qty sd book - traded evs)%Q.
Proof.
  induction 1 as [|b s bs ss ev evs book' book'' _ Ht _ IH]; simpl; [ring|].
  rewrite IH, (trade_conserves _ _ _ _ _ Ht). ring.
Qed.

Lemma trades_snoc taker (G : BbOrder → BbOrder → Prop) book evs b s bs ss ev book'' :
  trades taker G book evs (mkBook (b :: bs) (s :: ss)) → G b s →
  trade taker (mkBook (b :: bs) (s :: ss)) ev book'' → trades taker G book (evs ++ [ev]) book''.
Proof.
  remember (mkBook (b :: bs) (s :: ss)) as mid eqn:Hm. induction 1; intros HG Ht; cbn.
  - rewrite Hm. econstructor; [done|by rewrite <- Hm|constructor].
  - econstructor; eauto.
Qed.

(** Orders of the book keep their identity: whatever rests after a run of
    trades rested before it. *)
Definition descends (l l' : list BbOrder) : Prop :=
  ∀ o', o' ∈ l' → ∃ o, o ∈ l ∧ same_order o o'.

Lemma descends_refl l : descends l l.
Proof. intros o Ho. exists o. split; [done|apply same_order_refl]. Qed.

Lemma descends_trans l1 l2 l3 : descends l1 l2 → descends l2 l3 → descends l1 l3.
Proof.
  intros H12 H23 o3 (o2 & Hin2 & S2)%H23. destruct (H12 _ Hin2) as (o1 & Hin1 & S1).
  exists o1. split; [done|]. unfold same_order in *. naive_solver congruence.
Qed.

Lemma leftover_descends q o rest l : leftover q o rest → descends (o :: l) (option_list rest ++ l).
Proof.
  destruct rest as [o'|]; cbn.
  - intros [(Hs&_) _] x [->|Hx]%elem_of_cons; [exists o; split; [by left|done]|].
    exists x. split; [by right|apply same_order_refl].
  - intros _ x Hx. exists x. split; [by right|apply same_order_refl].
Qed.

Lemma trade_descends taker book ev book' sd :
  trade taker book ev book' → descends (orders sd book) (orders sd book').
Proof. intros [b s bs ss br sr q ev' _ Hb Hs _ _]. destruct sd; by eapply leftover_descends. Qed.

Lemma trades_descend taker G book evs book' sd :
  trades taker G book evs book' → descends (orders sd book) (orders sd book').
Proof.
  induction 1; [apply descends_refl|]. eapply descends_trans; [by eapply trade_descends|done].
Qed.

(** ** Inserting an order *)

Lemma insert_ok book o sd :
  book_ok book → from_order_type (order_type o) = Some sd →
  contains_order_no book (trust_order_no o) = false →
  ∃ l1 l2, orders sd book = l1 ++ l2
    ∧ insert book o = (true, with_orders sd (l1 ++ o :: l2) book)
    ∧ book_ok (with_orders sd (l1 ++ o :: l2) book).
Proof.
  intros (Hb & Hs & Hd) Hty Hc. unfold insert. rewrite Hty.
  assert (Hn : trust_order_no o ∉ numbers (buys book) ++ numbers (sells book)).
  { intros Hin%contains_order_no_iff. congruence. }
  rewrite not_elem_of_app in Hn. destruct Hn as [Hnb Hns].
  assert (Hot : order_type o = side_order_type sd).
  { unfold from_order_type in Hty. destruct (Z.eqb_spec (order_type o) 1); [|destruct
      (Z.eqb_spec (order_type o) 2)]; by simplify_eq. }
  destruct sd; cbn [orders with_orders entry_cmp] in *.
  - destruct (set_insert_spec Buy o (buys book)) as (l1 & l2 & Hl & Hi & Hok); [done..|].
    cbn in Hi. exists l1, l2. rewrite Hi. split_and!; [done|done|].
    split_and!; [done|done|]. cbn. unfold numbers. rewrite fmap_app. cbn.
    intros n Hn1 Hn2. apply elem_of_app in Hn1 as [?|[->|?]%elem_of_cons]; [| done |];
      (apply (Hd n); [|done]); rewrite Hl; unfold numbers; rewrite fmap_app; set_solver.
  - destruct (set_insert_spec Sell o (sells book)) as (l1 & l2 & Hl & Hi & Hok); [done..|].
    cbn in Hi. exists l1, l2. rewrite Hi. split_and!; [done|done|].
    split_and!; [done|done|]. cbn. unfold numbers. rewrite fmap_app. cbn.
    intros n Hn1 Hn2. apply elem_of_app in Hn2 as [?|[->|?]%elem_of_cons]; [| done |];
      (apply (Hd n); [done|]); rewrite Hl; unfold numbers; rewrite fmap_app; set_solver.
Qed.

(** Taking one order out. *)
Lemma remove_ok book sd l1 o l2 :
  book_ok book → orders sd book = l1 ++ o :: l2 → book_ok (with_orders sd (l1 ++ l2) book).
Proof.
  intros (Hb & Hs & Hd) Ho.
  assert (Hsub : ∀ n, n ∈ numbers (l1 ++ l2) → n ∈ numbers (l1 ++ o :: l2)).
  { intros n. unfold numbers. rewrite !fmap_app. set_solver. }
  assert (Hdrop : ∀ sd', side_ok sd' (l1 ++ o :: l2) → side_ok sd' (l1 ++ l2)).
  { intros sd'. rewrite !side_ok_app, side_ok_cons. intros (?&(?&?&?&?)&Hc&Hn).
    split_and!; try done; intros; [apply Hc|eapply Hn]; set_solver. }
  destruct sd; cbn in *; rewrite Ho in *; split_and!; cbn; eauto.
Qed.

(** Replacing the two fronts by orders with the same keys. *)
Lemma insert_head sd o o' l book :
  side_ok sd (o :: l) → same_order o o' → orders sd book = l →
  insert book o' = (true, with_orders sd (o' :: l) book).
Proof.
  intros Hok Hs Hl. unfold insert.
  assert (order_type o' = side_order_type sd) as ->.
  { apply side_ok_cons in Hok as (_&_&<-&_). symmetry. apply Hs. }
  assert (from_order_type (side_order_type sd) = Some sd) as -> by (by destruct sd).
  rewrite Hl, (set_insert_head sd o o') by eauto using same_order_key. done.
Qed.

(** ** The same facts seen from the taker's side *)

(** The taker's price reaches the maker's. *)
Definition reaches (t : Side) (taker maker : BbOrder) : Prop :=
  match t with Buy => crosses taker maker | Sell => crosses maker taker end.

Lemma trade_taker t book tk mk ts ms tr mr q ev :
  orders t book = tk :: ts → orders (opposite t) book = mk :: ms →
  (⟦q⟧ == Qmin ⟦remaining tk⟧ ⟦remaining mk⟧)%Q →
  leftover q tk tr → leftover q mk mr → tr = None ∨ mr = None → fill_of tk mk q ev →
  trade t book ev (with_orders t (option_list tr ++ ts)
                     (with_orders (opposite t) (option_list mr ++ ms) book)).
Proof.
  destruct book as [bl sl], t; cbn; intros -> -> Hq Ht Hm Hn Hf.
  - by eapply (trade_best Buy).
  - eapply (trade_best Sell); try done; [by rewrite Q.min_comm|tauto].
Qed.

Lemma trades_cons_taker t book tk mk ts ms ev evs book' book'' :
  orders t book = tk :: ts → orders (opposite t) book = mk :: ms → reaches t tk mk →
  trade t book ev book' → trades t crosses book' evs book'' →
  trades t crosses book (ev :: evs) book''.
Proof. destruct book as [bl sl], t; cbn; intros -> -> Hr Ht Hts; by econstructor. Qed.

Lemma book_ok_side sd book : book_ok book → side_ok sd (orders sd book).
Proof. by intros (?&?&_); destruct sd. Qed.

Lemma book_ok_cross sd book n :
  book_ok book → n ∈ numbers (orders sd book) → n ∈ numbers (orders (opposite sd) book) → False.
Proof. intros (_&_&Hd) H1 H2. destruct sd; cbn in *; by apply (Hd n). Qed.

Lemma orders_with_same sd l book : orders sd (with_orders sd l book) = l.
Proof. by destruct sd. Qed.

Lemma orders_with_other sd l book : orders sd (with_orders (opposite sd) l book) = orders sd book.
Proof. by destruct sd. Qed.

Lemma orders_with_other' sd l book :
  orders (opposite sd) (with_orders sd l book) = orders (opposite sd) book.
Proof. by destruct sd. Qed.

Lemma with_orders_same sd book : with_orders sd (orders sd book) book = book.
Proof. by destruct sd, book. Qed.

Lemma with_orders_twice sd l l' book : with_orders sd l (with_orders sd l' book) = with_orders sd l book.
Proof. by destruct sd. Qed.

Lemma with_orders_comm sd l l' book :
  with_orders sd l (with_orders (opposite sd) l' book)
  = with_orders (opposite sd) l' (with_orders sd l book).
Proof. by destruct sd. Qed.

(** Putting back an order that was taken out of a well-formed side. *)
Lemma insert_back sd l1 o l2 book :
  side_ok sd (l1 ++ o :: l2) → orders sd book = l1 ++ l2 →
  insert book o = (true, with_orders sd (l1 ++ o :: l2) book).
Proof.
  intros Hok Hl. unfold insert.
  assert (order_type o = side_order_type sd) as ->.
  { apply side_ok_app in Hok as (_&Hok&_). by apply side_ok_cons in Hok as (_&_&?&_). }
  assert (from_order_type (side_order_type sd) = Some sd) as -> by (by destruct sd).
  rewrite Hl, set_insert_back by done. done.
Qed.

End Spec.

#[export] Hint Rewrite @orders_with_same @orders_with_other @orders_with_other'
  @with_orders_same @with_orders_twice : bookdb.

(** Only fields outside [same_order] were set. *)
Ltac solve_same_order := unfold same_order; split_and!; reflexivity.

(** The order keeps a positive remainder. *)
Ltac solve_leftover :=
  split; [|done]; split; [solve_same_order|]; split; [|reflexivity]; unfold remaining in *; cbn; bdlra.

(** The event written is the report of the fill. *)
Ltac solve_fill :=
  eexists _, _, _, _; split; [reflexivity|]; unfold remaining in *; cbn; split; bdlra.
