(* ===== verification/CoreLimit.v ===== *)
(** * match-core: correctness of limit matching

    The handlers of [match_limit.rs] refine the contract of [CoreSpec]: one
    call of [rather_than_buy] / [rather_than_sell] on a well-formed book is
    one [trade]; [handle_limit_buy] / [handle_limit_sell] terminate, insert
    the order at its priority and trade exactly while the best bid reaches the
    best ask. *)
From S2P Require Import Prelude Decimal Protocol CoreBook CoreMatch CoreSpec.
From Stdlib Require Import QArith Lqa Qminmax.

#[local] Open Scope Z_scope.

Section Limit.
Context `{BDS : BigDecimalSpec}.
Implicit Types (o b s : BbOrder) (book : OrderBook) (ev : MatchEvent) (q : bd).

(** ** One trade *)

(** The order [set_*] chains of the handlers only touch the mutable fields. *)
Lemma rather_than_buy_trade b s bs ss :
  book_ok (mkBook (b :: bs) (s :: ss)) →
  ∃ ev book', rather_than_buy (mkBook (b :: bs) (s :: ss)) = (Some ev, book')
              ∧ trade Buy (mkBook (b :: bs) (s :: ss)) ev book'.
Proof.
  intros (Hb & Hs & _). cbn in Hb, Hs.
  unfold rather_than_buy. cbn [pop_first orders buys sells with_orders].
  destruct (remaining b >? remaining s)%bd eqn:Egt; [|destruct (remaining b <? remaining s)%bd eqn:Elt];
    bdb.
  - erewrite (insert_head Buy b _ bs); [|exact Hb|solve_same_order|reflexivity].
    eexists _, _. split; [reflexivity|]. cbn [with_orders snd sells].
    eapply (trade_best Buy b s bs ss (Some _) None (remaining s)).
    + symmetry. apply Q.min_r. lra.
    + solve_leftover.
    + cbn. reflexivity.
    + by right.
    + eexists _, _, _, _. split; [reflexivity|]. split; [|cbn; unfold remaining in *; bdlra].
      unfold remaining in *. cbn. bdlra.
  - unfold less_than_buy.
    erewrite (insert_head Sell s _ ss); [|exact Hs|solve_same_order|reflexivity].
    eexists _, _. split; [reflexivity|]. cbn [with_orders snd buys].
    eapply (trade_best Buy b s bs ss None (Some _) (remaining b)).
    + symmetry. apply Q.min_l. lra.
    + cbn. reflexivity.
    + solve_leftover.
    + by left.
    + solve_fill.
  - eexists _, _. split; [reflexivity|].
    eapply (trade_best Buy b s bs ss None None (remaining b)).
    + symmetry. apply Q.min_l. lra.
    + cbn. reflexivity.
    + cbn. lra.
    + by left.
    + solve_fill.
Qed.

(** An FOK sell larger than the best bid is withdrawn, the bid is put back. *)
Lemma rather_than_sell_trade b s bs ss :
  book_ok (mkBook (b :: bs) (s :: ss)) → order_form s ≠ ORDER_FORM_FOK →
  ∃ ev book', rather_than_sell (mkBook (b :: bs) (s :: ss)) = (RFill ev, book')
              ∧ trade Sell (mkBook (b :: bs) (s :: ss)) ev book'.
Proof.
  intros (Hb & Hs & _) Hform. cbn in Hb, Hs.
  unfold rather_than_sell. cbn [pop_first orders buys sells with_orders].
  rewrite (proj2 (Z.eqb_neq _ _) Hform).
  destruct (remaining s >? remaining b)%bd eqn:Egt; [|destruct (remaining s <? remaining b)%bd eqn:Elt];
    bdb.
  - erewrite (insert_head Sell s _ ss); [|exact Hs|solve_same_order|reflexivity].
    eexists _, _. split; [reflexivity|]. cbn [with_orders snd buys].
    eapply (trade_best Sell b s bs ss None (Some _) (remaining b)).
    + symmetry. apply Q.min_l. lra.
    + cbn. reflexivity.
    + solve_leftover.
    + by left.
    + solve_fill.
  - unfold less_than_sell.
    erewrite (insert_head Buy b _ bs); [|exact Hb|solve_same_order|reflexivity].
    eexists _, _. split; [reflexivity|]. cbn [with_orders snd sells].
    eapply (trade_best Sell b s bs ss (Some _) None (remaining s)).
    + symmetry. apply Q.min_r. lra.
    + solve_leftover.
    + cbn. reflexivity.
    + by right.
    + solve_fill.
  - eexists _, _. split; [reflexivity|].
    eapply (trade_best Sell b s bs ss None None (remaining s)).
    + symmetry. apply Q.min_r. lra.
    + cbn. lra.
    + cbn. reflexivity.
    + by left.
    + solve_fill.
Qed.

(** ** The loops *)

Definition no_fok (l : list BbOrder) : Prop := Forall (λ o, order_form o ≠ ORDER_FORM_FOK) l.

Lemma descends_no_fok l l' : descends l l' → no_fok l → no_fok l'.
Proof.
  intros Hd Hn. apply Forall_forall. intros o' (o & Ho & Hs)%Hd.
  eapply Forall_forall in Hn; [|exact Ho]. cbn in Hn.
  destruct Hs as (_&_&_&_&_&<-&_). done.
Qed.

Lemma match_limit_buy_loop_spec fuel book evs0 :
  book_ok book → (loop_fuel book ≤ fuel)%nat →
  ∃ evs book', match_limit_buy_loop fuel book evs0 = Some (evs0 ++ evs, book')
    ∧ trades Buy crosses book evs book' ∧ uncrossed book'.
Proof.
  revert book evs0; induction fuel as [|fuel IH]; intros book evs0 Hok Hf;
    [unfold loop_fuel in Hf; lia|].
  destruct book as [[|b bs] [|s ss]]; cbn -[rather_than_buy];
    try (eexists [], _; rewrite app_nil_r; split_and!; [reflexivity|apply trades_nil|exact I]).
  destruct (trust_price b <? trust_price s)%bd eqn:E; bdb.
  - eexists [], _. rewrite app_nil_r. split_and!; [reflexivity|constructor|exact E].
  - unfold push_rather_than_buy.
    destruct (rather_than_buy_trade b s bs ss Hok) as (ev & book' & -> & Ht).
    destruct (IH book' (evs0 ++ [ev])) as (evs & book'' & Hl & Hts & Hu).
    + by eapply trade_ok.
    + apply trade_shrinks in Ht. lia.
    + exists (ev :: evs), book''. rewrite Hl, <- app_assoc. split_and!; [done| |done].
      by econstructor.
Qed.

Lemma match_limit_sell_loop_spec fuel book evs0 :
  book_ok book → no_fok (sells book) → (loop_fuel book ≤ fuel)%nat →
  ∃ evs book', match_limit_sell_loop fuel book evs0 = Some (evs0 ++ evs, book')
    ∧ trades Sell crosses book evs book' ∧ uncrossed book'.
Proof.
  revert book evs0; induction fuel as [|fuel IH]; intros book evs0 Hok Hn Hf;
    [unfold loop_fuel in Hf; lia|].
  destruct book as [[|b bs] [|s ss]]; cbn -[rather_than_sell];
    try (eexists [], _; rewrite app_nil_r; split_and!; [reflexivity|apply trades_nil|exact I]).
  destruct (trust_price s >? trust_price b)%bd eqn:E; bdb.
  - eexists [], _. rewrite app_nil_r. split_and!; [reflexivity|constructor|exact E].
  - unfold push_rather_than_sell. pose proof Hn as [Hns _]%Forall_cons.
    destruct (rather_than_sell_trade b s bs ss Hok Hns) as (ev & book' & -> & Ht).
    destruct (IH book' (evs0 ++ [ev])) as (evs & book'' & Hl & Hts & Hu).
    + by eapply trade_ok.
    + eapply descends_no_fok; [|exact Hn]. exact (trade_descends _ _ _ _ Sell Ht).
    + apply trade_shrinks in Ht. lia.
    + exists (ev :: evs), book''. rewrite Hl, <- app_assoc. split_and!; [done| |done].
      by econstructor.
Qed.

End Limit.
