(* ===== verification/CoreFok.v ===== *)
(** * match-core: fill-or-kill handlers

    Models [crates/match-core/src/handlers/fok_buy.rs] and [fok_sell.rs].
    Both files hold the same walk with the sides exchanged; each is translated
    as written, and both walks are shown to be instances of one walk
    parametrised by the taker's side ([fok_walk]), on which the
    all-or-nothing theorem is proved once.  The recursion of the walk carries
    fuel, [None] meaning that it ran out; each round removes one maker, so one
    more than the number of makers is enough. *)
From S2P Require Import Prelude Decimal Protocol CoreBook CoreMatch CoreSpec CoreLimit.
From Stdlib Require Import QArith Lqa Qminmax.

#[local] Open Scope Z_scope.

Section Fok.
Context `{BD : BigDecimal}.

(** [FokWalk] *)
Inductive FokWalk :=
| Done (events : list MatchEvent)
| Fail (ev : MatchEvent).

(** [revoke_fok_or_fallback] (the same text in both files) *)
Definition revoke_fok_or_fallback (book : OrderBook) (first_bb : BbOrder) :
    MatchEvent * OrderBook :=
  match revoke_order_with_reason book first_bb "fok_fail" with
  | (Some ev, book) => (ev, book)
  | (None, book) =>
      (Revoke (trust_order_no first_bb) (symbol_key first_bb)
         (dec_str (remaining_number first_bb)) "fok_fail", book)
  end.

(** ** [fok_buy.rs] *)

Definition rollback_fok_buy (book : OrderBook) (first_bb : BbOrder)
    (sell_order_list : list BbOrder) : FokWalk * OrderBook :=
  let book := foldl (λ book sell,
      let book := (remove_by_order_no Sell (trust_order_no sell) book).2 in
      (insert book sell).2) book sell_order_list in
  let '(ev, book) := revoke_fok_or_fallback book first_bb in (Fail ev, book).

Definition fok_price_gap_after_fills_buy (book : OrderBook) (first_bb : BbOrder)
    (sell_order_list : list BbOrder) (events : list MatchEvent) (buy : BbOrder) :
    FokWalk * OrderBook :=
  if (remaining_number buy >? bd_zero)%bd then rollback_fok_buy book first_bb sell_order_list
  else (Done events, book).

Fixpoint fok_buy_walk (fuel : nat) (book : OrderBook) (buy first_bb : BbOrder)
    (events : list MatchEvent) (sell_order_list : list BbOrder) :
    option (FokWalk * OrderBook) :=
  match fuel with
  | O => None
  | S fuel =>
  match first Sell book with
  | None => Some (rollback_fok_buy book first_bb sell_order_list)
  | Some sell =>
      let last_buy := remaining buy in
      let last_sell := remaining sell in
      let deal_qty := if (last_buy >=? last_sell)%bd then last_sell else last_buy in
      if (trust_price buy <? trust_price sell)%bd then
        match sell_order_list with
        | [] => Some (Done events, book)
        | _ => Some (fok_price_gap_after_fills_buy book first_bb sell_order_list events buy)
        end
      else
        let sell_order_list := sell_order_list ++ [sell] in
        if (last_buy <? last_sell)%bd then
          let book := (remove_by_order_no Sell (trust_order_no sell) book).2 in
          let book := (remove_by_order_no Buy (trust_order_no buy) book).2 in
          let buy := set_average_price
            (get_average_price (consumer_all_number buy) (average_price buy) deal_qty
               (trust_price sell)) buy in
          let avg := get_average_price (consumer_all_number sell) (average_price sell) deal_qty
                       (trust_price sell) in
          let sell := set_average_price avg sell in
          let sell := set_consumer_all_number (consumer_all_number sell + deal_qty)%bd sell in
          let sell := set_remaining_number (trust_number sell - consumer_all_number sell)%bd sell in
          let book := (insert book sell).2 in
          let buy := set_order_status ORDER_STATUS_SUCCESS buy in
          let buy := set_current_deal_number deal_qty buy in
          let buy := set_remaining_number bd_zero buy in
          let buy := set_consumer_all_number (trust_number buy) buy in
          let deal_price := trust_price sell in
          let maker_rem := remaining_number sell in
          Some (Done (events ++ [fill_event (symbol_key buy) buy sell deal_price deal_qty
                                   bd_zero maker_rem ORDER_STATUS_SUCCESS
                                   ORDER_STATUS_SUCCESS_PART]), book)
        else
          let book := (remove_by_order_no Sell (trust_order_no sell) book).2 in
          let book := (remove_by_order_no Buy (trust_order_no buy) book).2 in
          let buy := set_average_price
            (get_average_price (consumer_all_number buy) (average_price buy) deal_qty
               (trust_price sell)) buy in
          let buy := set_consumer_all_number (consumer_all_number buy + deal_qty)%bd buy in
          let buy := set_remaining_number (trust_number buy - consumer_all_number buy)%bd buy in
          let buy := set_order_status ORDER_STATUS_SUCCESS_PART buy in
          let buy := set_current_deal_number deal_qty buy in
          let book := (insert book buy).2 in
          let deal_price := trust_price sell in
          let taker_rem := remaining_number buy in
          let events := events ++ [fill_event (symbol_key buy) buy sell deal_price deal_qty
                                     taker_rem bd_zero ORDER_STATUS_SUCCESS_PART
                                     ORDER_STATUS_SUCCESS] in
          if (last_buy >? deal_qty)%bd then
            if is_empty Sell book then Some (rollback_fok_buy book first_bb sell_order_list)
            else fok_buy_walk fuel book buy first_bb events sell_order_list
          else
            let book := (remove_by_order_no Buy (trust_order_no buy) book).2 in
            Some (Done events, book)
  end end.

Definition fok_buy_handle (book : OrderBook) : option (list MatchEvent * OrderBook) :=
  match first Buy book, first Sell book with
  | None, _ | _, None => Some ([], book)
  | Some buy, Some sell =>
      let last_buy := remaining buy in
      let last_sell := remaining sell in
      if (last_buy >? last_sell)%bd then
        let first_bb := buy in
        match fok_buy_walk (loop_fuel book) book buy first_bb [] [] with
        | None => None
        | Some (Done events, book) => Some (events, book)
        | Some (Fail revoke, book) => Some ([revoke], book)
        end
      else if (last_buy =? last_sell)%bd then
        let book := (remove_by_order_no Sell (trust_order_no sell) book).2 in
        let book := (remove_by_order_no Buy (trust_order_no buy) book).2 in
        let buy := set_average_price
          (get_average_price (consumer_all_number buy) (average_price buy) last_buy
             (trust_price sell)) buy in
        let buy := set_order_status ORDER_STATUS_SUCCESS buy in
        let buy := set_current_deal_number last_buy buy in
        let buy := set_remaining_number bd_zero buy in
        let buy := set_consumer_all_number (trust_number buy) buy in
        let deal_price := trust_price sell in
        Some ([fill_event (symbol_key buy) buy sell deal_price last_buy bd_zero bd_zero
                 ORDER_STATUS_SUCCESS ORDER_STATUS_SUCCESS], book)
      else
        let book := (remove_by_order_no Buy (trust_order_no buy) book).2 in
        let '(removed, book) := remove_by_order_no Sell (trust_order_no sell) book in
        let sell := default sell removed in
        let buy := set_average_price
          (get_average_price (consumer_all_number buy) (average_price buy) last_buy
             (trust_price sell)) buy in
        let avg := get_average_price (consumer_all_number sell) (average_price sell) last_buy
                     (trust_price sell) in
        let sell := set_consumer_all_number (consumer_all_number sell + last_buy)%bd sell in
        let sell := set_remaining_number (trust_number sell - consumer_all_number sell)%bd sell in
        let sell := set_average_price avg sell in
        let book := (insert book sell).2 in
        let buy := set_order_status ORDER_STATUS_SUCCESS buy in
        let buy := set_current_deal_number last_buy buy in
        let buy := set_remaining_number bd_zero buy in
        let buy := set_consumer_all_number (trust_number buy) buy in
        let deal_price := trust_price sell in
        let maker_rem := remaining_number sell in
        Some ([fill_event (symbol_key buy) buy sell deal_price last_buy bd_zero maker_rem
                 ORDER_STATUS_SUCCESS ORDER_STATUS_SUCCESS_PART], book)
  end.

(** ** [fok_sell.rs] *)

Definition rollback_fok_sell (book : OrderBook) (first_bb : BbOrder)
    (buy_order_list : list BbOrder) : FokWalk * OrderBook :=
  let book := foldl (λ book buy,
      let book := (remove_by_order_no Buy (trust_order_no buy) book).2 in
      (insert book buy).2) book buy_order_list in
  let '(ev, book) := revoke_fok_or_fallback book first_bb in (Fail ev, book).

Definition fok_price_gap_after_fills_sell (book : OrderBook) (first_bb : BbOrder)
    (buy_order_list : list BbOrder) (events : list MatchEvent) (sell : BbOrder) :
    FokWalk * OrderBook :=
  if (remaining_number sell >? bd_zero)%bd then rollback_fok_sell book first_bb buy_order_list
  else (Done events, book).

Fixpoint fok_sell_walk (fuel : nat) (book : OrderBook) (sell first_bb : BbOrder)
    (events : list MatchEvent) (buy_order_list : list BbOrder) :
    option (FokWalk * OrderBook) :=
  match fuel with
  | O => None
  | S fuel =>
  match first Buy book with
  | None => Some (rollback_fok_sell book first_bb buy_order_list)
  | Some buy =>
      let last_sell_rem := remaining sell in
      let last_buy_rem := remaining buy in
      let deal_qty := if (last_sell_rem >=? last_buy_rem)%bd then last_buy_rem
                      else last_sell_rem in
      if (trust_price sell >? trust_price buy)%bd then
        match buy_order_list with
        | [] => Some (Done events, book)
        | _ => Some (fok_price_gap_after_fills_sell book first_bb buy_order_list events sell)
        end
      else
        let buy_order_list := buy_order_list ++ [buy] in
        if (last_sell_rem <? last_buy_rem)%bd then
          let book := (remove_by_order_no Buy (trust_order_no buy) book).2 in
          let book := (remove_by_order_no Sell (trust_order_no sell) book).2 in
          let sell := set_average_price
            (get_average_price (consumer_all_number sell) (average_price sell) deal_qty
               (trust_price buy)) sell in
          let avg := get_average_price (consumer_all_number buy) (average_price buy) deal_qty
                       (trust_price buy) in
          let buy := set_consumer_all_number (consumer_all_number buy + deal_qty)%bd buy in
          let buy := set_remaining_number (trust_number buy - consumer_all_number buy)%bd buy in
          let buy := set_average_price avg buy in
          let book := (insert book buy).2 in
          let sell := set_order_status ORDER_STATUS_SUCCESS sell in
          let sell := set_current_deal_number deal_qty sell in
          let sell := set_remaining_number bd_zero sell in
          let sell := set_consumer_all_number (trust_number sell) sell in
          let deal_price := trust_price buy in
          let maker_rem := remaining_number buy in
          Some (Done (events ++ [fill_event (symbol_key sell) sell buy deal_price deal_qty
                                   bd_zero maker_rem ORDER_STATUS_SUCCESS
                                   ORDER_STATUS_SUCCESS_PART]), book)
        else
          let book := (remove_by_order_no Buy (trust_order_no buy) book).2 in
          let book := (remove_by_order_no Sell (trust_order_no sell) book).2 in
          let sell := set_average_price
            (get_average_price (consumer_all_number sell) (average_price sell) deal_qty
               (trust_price buy)) sell in
          let sell := set_consumer_all_number (consumer_all_number sell + deal_qty)%bd sell in
          let sell := set_remaining_number (trust_number sell - consumer_all_number sell)%bd sell in
          let sell := set_order_status ORDER_STATUS_SUCCESS_PART sell in
          let sell := set_current_deal_number deal_qty sell in
          let book := (insert book sell).2 in
          let deal_price := trust_price buy in
          let taker_rem := remaining_number sell in
          let events := events ++ [fill_event (symbol_key sell) sell buy deal_price deal_qty
                                     taker_rem bd_zero ORDER_STATUS_SUCCESS_PART
                                     ORDER_STATUS_SUCCESS] in
          if (last_sell_rem >? deal_qty)%bd then
            if is_empty Buy book then Some (rollback_fok_sell book first_bb buy_order_list)
            else fok_sell_walk fuel book sell first_bb events buy_order_list
          else
            let book := (remove_by_order_no Sell (trust_order_no sell) book).2 in
            Some (Done events, book)
  end end.

Definition fok_sell_handle (book : OrderBook) : option (list MatchEvent * OrderBook) :=
  match first Buy book, first Sell book with
  | None, _ | _, None => Some ([], book)
  | Some buy, Some sell =>
      let last_sell := remaining sell in
      let last_buy := remaining buy in
      let last_buy_for_cmp := last_buy in
      if (last_sell >? last_buy_for_cmp)%bd then
        let first_bb := sell in
        match fok_sell_walk (loop_fuel book) book sell first_bb [] [] with
        | None => None
        | Some (Done events, book) => Some (events, book)
        | Some (Fail revoke, book) => Some ([revoke], book)
        end
      else if (last_sell =? last_buy_for_cmp)%bd then
        let book := (remove_by_order_no Sell (trust_order_no sell) book).2 in
        let book := (remove_by_order_no Buy (trust_order_no buy) book).2 in
        let sell := set_average_price
          (get_average_price (consumer_all_number sell) (average_price sell) last_sell
             (trust_price buy)) sell in
        let sell := set_order_status ORDER_STATUS_SUCCESS sell in
        let sell := set_current_deal_number last_sell sell in
        let sell := set_remaining_number bd_zero sell in
        let sell := set_consumer_all_number (trust_number sell) sell in
        let deal_price := trust_price buy in
        Some ([fill_event (symbol_key sell) sell buy deal_price last_sell bd_zero bd_zero
                 ORDER_STATUS_SUCCESS ORDER_STATUS_SUCCESS], book)
      else
        let book := (remove_by_order_no Sell (trust_order_no sell) book).2 in
        let '(removed, book) := remove_by_order_no Buy (trust_order_no buy) book in
        let buy := default buy removed in
        let sell := set_average_price
          (get_average_price (consumer_all_number sell) (average_price sell) last_sell
             (trust_price buy)) sell in
        let avg := get_average_price (consumer_all_number buy) (average_price buy) last_sell
                     (trust_price buy) in
        let buy := set_consumer_all_number (consumer_all_number buy + last_sell)%bd buy in
        let buy := set_remaining_number (trust_number buy - consumer_all_number buy)%bd buy in
        let buy := set_average_price avg buy in
        let book := (insert book buy).2 in
        let sell := set_order_status ORDER_STATUS_SUCCESS sell in
        let sell := set_current_deal_number last_sell sell in
        let sell := set_remaining_number bd_zero sell in
        let sell := set_consumer_all_number (trust_number sell) sell in
        let deal_price := trust_price buy in
        let maker_rem := remaining_number buy in
        Some ([fill_event (symbol_key sell) sell buy deal_price last_sell bd_zero maker_rem
                 ORDER_STATUS_SUCCESS ORDER_STATUS_SUCCESS_PART], book)
  end.

(** ** Both walks as one *)

(** The taker's price does not reach the maker's. *)
Definition price_gap (t : Side) (taker maker : bd) : bool :=
  match t with Buy => (taker <? maker)%bd | Sell => (taker >? maker)%bd end.

Definition rollback_fok (t : Side) (book : OrderBook) (first_bb : BbOrder)
    (makers : list BbOrder) : FokWalk * OrderBook :=
  let book := foldl (λ book mk,
      (insert (remove_by_order_no (opposite t) (trust_order_no mk) book).2 mk).2) book makers in
  let '(ev, book) := revoke_fok_or_fallback book first_bb in (Fail ev, book).

(** The maker after giving up [q], and the taker after taking [q]. *)
Definition fok_maker (q : bd) (mk : BbOrder) : BbOrder :=
  let avg := get_average_price (consumer_all_number mk) (average_price mk) q (trust_price mk) in
  let mk := set_average_price avg mk in
  let mk := set_consumer_all_number (consumer_all_number mk + q)%bd mk in
  set_remaining_number (trust_number mk - consumer_all_number mk)%bd mk.

Definition fok_taker (q : bd) (tk mk : BbOrder) : BbOrder :=
  let tk := set_average_price
    (get_average_price (consumer_all_number tk) (average_price tk) q (trust_price mk)) tk in
  let tk := set_consumer_all_number (consumer_all_number tk + q)%bd tk in
  let tk := set_remaining_number (trust_number tk - consumer_all_number tk)%bd tk in
  let tk := set_order_status ORDER_STATUS_SUCCESS_PART tk in
  set_current_deal_number q tk.

Fixpoint fok_walk (t : Side) (fuel : nat) (book : OrderBook) (tk first_bb : BbOrder)
    (events : list MatchEvent) (makers : list BbOrder) : option (FokWalk * OrderBook) :=
  match fuel with
  | O => None
  | S fuel =>
  match first (opposite t) book with
  | None => Some (rollback_fok t book first_bb makers)
  | Some mk =>
      let q := if (remaining tk >=? remaining mk)%bd then remaining mk else remaining tk in
      if price_gap t (trust_price tk) (trust_price mk) then
        match makers with
        | [] => Some (Done events, book)
        | _ => Some (if (remaining_number tk >? bd_zero)%bd then rollback_fok t book first_bb makers
                     else (Done events, book))
        end
      else
        let makers := makers ++ [mk] in
        let book := (remove_by_order_no (opposite t) (trust_order_no mk) book).2 in
        let book := (remove_by_order_no t (trust_order_no tk) book).2 in
        if (remaining tk <? remaining mk)%bd then
          let mk' := fok_maker q mk in
          Some (Done (events ++ [fill_event (symbol_key tk) tk mk' (trust_price mk) q bd_zero
                                   (remaining_number mk') ORDER_STATUS_SUCCESS
                                   ORDER_STATUS_SUCCESS_PART]),
                (insert book mk').2)
        else
          let tk' := fok_taker q tk mk in
          let book := (insert book tk').2 in
          let events := events ++ [fill_event (symbol_key tk) tk' mk (trust_price mk) q
                                     (remaining_number tk') bd_zero ORDER_STATUS_SUCCESS_PART
                                     ORDER_STATUS_SUCCESS] in
          if (remaining tk >? q)%bd then
            if is_empty (opposite t) book then Some (rollback_fok t book first_bb makers)
            else fok_walk t fuel book tk' first_bb events makers
          else Some (Done events, (remove_by_order_no t (trust_order_no tk) book).2)
  end end.

Lemma fok_buy_walk_eq fuel book buy first_bb events l :
  fok_buy_walk fuel book buy first_bb events l = fok_walk Buy fuel book buy first_bb events l.
Proof.
  revert book buy events l; induction fuel as [|fuel IH]; intros book buy events l; [reflexivity|].
  cbn [fok_buy_walk fok_walk opposite]. destruct (first Sell book) as [sell|]; [|reflexivity].
  cbn [price_gap]. destruct (trust_price buy <? trust_price sell)%bd; [reflexivity|].
  destruct (remaining buy <? remaining sell)%bd; [reflexivity|]. by rewrite IH.
Qed.

Lemma fok_sell_walk_eq fuel book sell first_bb events l :
  fok_sell_walk fuel book sell first_bb events l = fok_walk Sell fuel book sell first_bb events l.
Proof.
  revert book sell events l; induction fuel as [|fuel IH]; intros book sell events l; [reflexivity|].
  cbn [fok_sell_walk fok_walk opposite]. destruct (first Buy book) as [buy|]; [|reflexivity].
  cbn [price_gap]. destruct (trust_price sell >? trust_price buy)%bd; [reflexivity|].
  destruct (remaining sell <? remaining buy)%bd; [reflexivity|]. by rewrite IH.
Qed.

End Fok.

(** ** All or nothing *)

Section Facts.
Context `{BDS : BigDecimalSpec}.
Implicit Types (tk mk o : BbOrder) (book : OrderBook) (q : bd) (t : Side) (l ms ts : list BbOrder).

(** Quantity a taker at price [p] can reach, best makers first. *)
Fixpoint available (t : Side) (p : bd) (l : list BbOrder) : Q :=
  match l with
  | [] => 0
  | mk :: l => if price_gap t p (trust_price mk) then 0 else ⟦remaining mk⟧ + available t p l
  end.

Lemma price_gap_false t tk mk :
  price_gap t (trust_price tk) (trust_price mk) = false ↔ reaches t tk mk.
Proof.
  destruct t; cbn; unfold crosses; split; intros Hg.
  - bdb. lra.
  - destruct (trust_price tk <? trust_price mk)%bd eqn:E; [bdb; lra|done].
  - bdb. lra.
  - destruct (trust_price tk >? trust_price mk)%bd eqn:E; [bdb; lra|done].
Qed.

Lemma rollback_makers t book makers l1 rest :
  side_ok (opposite t) (l1 ++ makers ++ rest) → orders (opposite t) book = l1 ++ rest →
  foldl (λ book mk, (insert (remove_by_order_no (opposite t) (trust_order_no mk) book).2 mk).2)
    book makers = with_orders (opposite t) (l1 ++ makers ++ rest) book.
Proof.
  revert book l1; induction makers as [|mk makers IH]; intros book l1 Hok Hl; cbn [foldl app].
  - cbn in *. rewrite <- Hl. by autorewrite with bookdb.
  - assert (Hok1 : side_ok (opposite t) (l1 ++ mk :: rest)).
    { eapply side_ok_sublist; [|exact Hok]. apply sublist_app; [done|].
      cbn. apply sublist_skip, sublist_inserts_l. done. }
    pose proof Hok1 as (Hok' & Hok''%side_ok_cons & _ & Hd)%side_ok_app.
    assert (Hnone : remove_by_order_no (opposite t) (trust_order_no mk) book = (None, book)).
    { unfold remove_by_order_no. rewrite Hl.
      rewrite (proj2 (find_number_None (trust_order_no mk) (l1 ++ rest))); [done|].
      unfold numbers. rewrite fmap_app, not_elem_of_app. split.
      - intros Hin. eapply (Hd (trust_order_no mk)); [exact Hin|by left].
      - apply Hok''. }
    rewrite Hnone. cbn [snd]. rewrite (insert_back (opposite t) l1 mk rest) by done. cbn [snd].
    rewrite (IH _ (l1 ++ [mk])); autorewrite with bookdb; rewrite <- ?app_assoc; done.
Qed.

Lemma rollback_fok_spec t book tk ts first_bb makers ms :
  side_ok t (tk :: ts) → side_ok (opposite t) (makers ++ ms) →
  orders t book = tk :: ts → orders (opposite t) book = ms →
  trust_order_no first_bb = trust_order_no tk → order_type first_bb = order_type tk →
  rollback_fok t book first_bb makers
  = (Fail (Revoke (trust_order_no tk) (symbol_key tk) (dec_str (remaining tk)) "fok_fail"),
     with_orders t ts (with_orders (opposite t) (makers ++ ms) book)).
Proof.
  intros Hokt Hokm Ht Hm Hno Hty. unfold rollback_fok.
  rewrite (rollback_makers t book makers [] ms) by done. cbn [app].
  unfold revoke_fok_or_fallback, revoke_order_with_reason. rewrite Hno, Hty.
  pose proof Hokt as (_&_&->&_)%side_ok_cons.
  assert (from_order_type (side_order_type t) = Some t) as -> by (by destruct t).
  rewrite (remove_by_order_no_head t tk ts); [done|done|]. by autorewrite with bookdb.
Qed.

(** The book after the taker has swallowed its best maker. *)
Lemma fok_walk_take t book tk ts mk ms q :
  book_ok book → orders t book = tk :: ts → orders (opposite t) book = mk :: ms →
  (insert (remove_by_order_no t (trust_order_no tk)
             (remove_by_order_no (opposite t) (trust_order_no mk) book).2).2 (fok_taker q tk mk)).2
  = with_orders t (fok_taker q tk mk :: ts) (with_orders (opposite t) ms book).
Proof.
  intros Hok Ht Hm.
  pose proof (book_ok_side t book Hok) as Hokt. pose proof (book_ok_side (opposite t) book Hok) as Hokm.
  rewrite Ht in Hokt. rewrite Hm in Hokm.
  rewrite (remove_by_order_no_head (opposite t) mk ms) by done. cbn [snd].
  rewrite (remove_by_order_no_head t tk ts) by (done || by autorewrite with bookdb). cbn [snd].
  rewrite (insert_head t tk _ ts); [|done|solve_same_order|by autorewrite with bookdb].
  cbn [snd]. by autorewrite with bookdb.
Qed.

(** The last maker, larger than what the taker still needs. *)
Lemma fok_walk_last t book tk ts mk ms q :
  book_ok book → orders t book = tk :: ts → orders (opposite t) book = mk :: ms →
  (insert (remove_by_order_no t (trust_order_no tk)
             (remove_by_order_no (opposite t) (trust_order_no mk) book).2).2 (fok_maker q mk)).2
  = with_orders t ts (with_orders (opposite t) (fok_maker q mk :: ms) book).
Proof.
  intros Hok Ht Hm.
  pose proof (book_ok_side t book Hok) as Hokt. pose proof (book_ok_side (opposite t) book Hok) as Hokm.
  rewrite Ht in Hokt. rewrite Hm in Hokm.
  rewrite (remove_by_order_no_head (opposite t) mk ms) by done. cbn [snd].
  rewrite (remove_by_order_no_head t tk ts) by (done || by autorewrite with bookdb). cbn [snd].
  rewrite (insert_head (opposite t) mk _ ms); [|done|solve_same_order
    |by autorewrite with bookdb].
  cbn [snd]. by destruct t.
Qed.

(** Outcome of a walk in which [makers] were already taken and [ms] are left. *)
Definition fok_outcome t book tk ts makers ms events (r : option (FokWalk * OrderBook)) : Prop :=
  (∃ evs book', r = Some (Done (events ++ evs), book') ∧ trades t crosses book evs book'
     ∧ orders t book' = ts ∧ (⟦remaining tk⟧ <= available t (trust_price tk) ms)%Q)
  ∨ (∃ rem, r = Some (Fail (Revoke (trust_order_no tk) (symbol_key tk) rem "fok_fail"),
                      with_orders t ts (with_orders (opposite t) (makers ++ ms) book))
     ∧ (available t (trust_price tk) ms < ⟦remaining tk⟧)%Q).

Lemma fok_walk_step_last t book tk ts mk ms :
  book_ok book → orders t book = tk :: ts → orders (opposite t) book = mk :: ms →
  (⟦remaining tk⟧ < ⟦remaining mk⟧)%Q →
  let mk' := fok_maker (remaining tk) mk in
  trade t book (fill_event (symbol_key tk) tk mk' (trust_price mk) (remaining tk) bd_zero
      (remaining_number mk') ORDER_STATUS_SUCCESS ORDER_STATUS_SUCCESS_PART)
    (with_orders t ts (with_orders (opposite t) (mk' :: ms) book)).
Proof.
  intros Hok Ht Hm Hlt mk'.
  apply (trade_taker t book tk mk ts ms None (Some mk') (remaining tk)); try done.
  - symmetry. apply Q.min_l. lra.
  - solve_leftover.
  - by left.
  - subst mk'. solve_fill.
Qed.

Lemma fok_walk_step_take t book tk ts mk ms :
  book_ok book → orders t book = tk :: ts → orders (opposite t) book = mk :: ms →
  (⟦remaining mk⟧ < ⟦remaining tk⟧)%Q →
  let tk' := fok_taker (remaining mk) tk mk in
  trade t book (fill_event (symbol_key tk) tk' mk (trust_price mk) (remaining mk)
      (remaining_number tk') bd_zero ORDER_STATUS_SUCCESS_PART ORDER_STATUS_SUCCESS)
    (with_orders t (tk' :: ts) (with_orders (opposite t) ms book)).
Proof.
  intros Hok Ht Hm Hlt tk'.
  apply (trade_taker t book tk mk ts ms (Some tk') None (remaining mk)); try done.
  - symmetry. apply Q.min_r. lra.
  - solve_leftover.
  - by right.
  - subst tk'. solve_fill.
Qed.

Lemma fok_walk_step_equal t book tk ts mk ms :
  book_ok book → orders t book = tk :: ts → orders (opposite t) book = mk :: ms →
  (⟦remaining mk⟧ == ⟦remaining tk⟧)%Q →
  let tk' := fok_taker (remaining mk) tk mk in
  trade t book (fill_event (symbol_key tk) tk' mk (trust_price mk) (remaining mk)
      (remaining_number tk') bd_zero ORDER_STATUS_SUCCESS_PART ORDER_STATUS_SUCCESS)
    (with_orders t ts (with_orders (opposite t) ms book)).
Proof.
  intros Hok Ht Hm Heq tk'.
  apply (trade_taker t book tk mk ts ms None None (remaining mk)); try done.
  - symmetry. apply Q.min_r. lra.
  - by right.
  - subst tk'. solve_fill.
Qed.

Lemma available_nonneg t p l : Forall quantity_ok l → (0 <= available t p l)%Q.
Proof.
  induction 1 as [|mk l [Hp _] _ IH]; cbn [available]; [lra|]. destruct (price_gap _ _ _); lra.
Qed.

Lemma bd_geb_ltb (x y : bd) : (x >=? y)%bd = negb (x <? y)%bd.
Proof.
  destruct (x >=? y)%bd eqn:E1, (x <? y)%bd eqn:E2; try done; bdb; lra.
Qed.

(** No maker is left: everything taken is put back. *)
Lemma fok_rollback_outcome t book tk ts first_bb events makers ms :
  side_ok t (tk :: ts) → side_ok (opposite t) (makers ++ ms) →
  orders t book = tk :: ts → orders (opposite t) book = ms →
  trust_order_no first_bb = trust_order_no tk → order_type first_bb = order_type tk →
  (available t (trust_price tk) ms < ⟦remaining tk⟧)%Q →
  fok_outcome t book tk ts makers ms events (Some (rollback_fok t book first_bb makers)).
Proof.
  intros Hokt Hokm Ht Hm Hno Hty Hav. right. eexists.
  erewrite rollback_fok_spec by done. split; [reflexivity|done].
Qed.

(** The taker swallows the best maker and the walk goes on from there. *)
Lemma fok_take_outcome t book tk ts mk ms events makers r :
  let tk' := fok_taker (remaining mk) tk mk in
  book_ok book → orders t book = tk :: ts → orders (opposite t) book = mk :: ms →
  (0 < ⟦remaining tk⟧)%Q → reaches t tk mk → (⟦remaining mk⟧ < ⟦remaining tk⟧)%Q →
  fok_outcome t (with_orders t (tk' :: ts) (with_orders (opposite t) ms book)) tk' ts (makers ++ [mk]) ms
    (events ++ [fill_event (symbol_key tk) tk' mk (trust_price mk) (remaining mk)
                  (remaining_number tk') bd_zero ORDER_STATUS_SUCCESS_PART ORDER_STATUS_SUCCESS]) r →
  fok_outcome t book tk ts makers (mk :: ms) events r.
Proof.
  intros tk' Hok Ht Hm Hpos Hr Hgt.
  pose proof (fok_walk_step_take t book tk ts mk ms Hok Ht Hm Hgt) as Htr. cbn zeta in Htr.
  assert (Hr' : (⟦remaining tk'⟧ == ⟦remaining tk⟧ - ⟦remaining mk⟧)%Q)
    by (subst tk'; unfold remaining; cbn; bdlra).
  change (fok_taker (remaining mk) tk mk) with tk' in Htr.
  unfold fok_outcome. cbn [available]. rewrite (proj2 (price_gap_false t tk mk) Hr).
  change (trust_price tk') with (trust_price tk). rewrite <- !app_assoc. cbn [app].
  intros [(evs & book'' & -> & Hts & Hgone & Hav)|(rem & -> & Hav)]; [left|right].
  - eexists (_ :: evs), book''. rewrite <- app_assoc. split; [reflexivity|].
    split_and!; [by eapply trades_cons_taker|done|lra].
  - exists rem. split; [|lra]. by destruct t.
Qed.

(** The best maker has exactly what the taker still needs. *)
Lemma fok_equal_outcome t book tk ts mk ms events makers :
  let tk' := fok_taker (remaining mk) tk mk in
  book_ok book → orders t book = tk :: ts → orders (opposite t) book = mk :: ms → Forall quantity_ok ms →
  (0 < ⟦remaining tk⟧)%Q → reaches t tk mk → (⟦remaining mk⟧ == ⟦remaining tk⟧)%Q →
  fok_outcome t book tk ts makers (mk :: ms) events
    (Some (Done (events ++ [fill_event (symbol_key tk) tk' mk (trust_price mk) (remaining mk)
                  (remaining_number tk') bd_zero ORDER_STATUS_SUCCESS_PART ORDER_STATUS_SUCCESS]),
           (remove_by_order_no t (trust_order_no tk)
              (with_orders t (tk' :: ts) (with_orders (opposite t) ms book))).2)).
Proof.
  intros tk' Hok Ht Hm Hq Hpos Hr Heq.
  pose proof (book_ok_side t book Hok) as Hokt. rewrite Ht in Hokt.
  left. eexists [_], _. split; [reflexivity|].
  rewrite (remove_by_order_no_head t tk' ts);
    [|eapply side_ok_head; [|exact Hokt]; apply same_order_key; solve_same_order
     |by autorewrite with bookdb]. cbn [snd]. rewrite with_orders_twice.
  split_and!.
  - eapply trades_cons_taker; [done..| |apply trades_nil]. by apply fok_walk_step_equal.
  - by autorewrite with bookdb.
  - cbn [available]. rewrite (proj2 (price_gap_false t tk mk) Hr).
    pose proof (available_nonneg t (trust_price tk) ms Hq). lra.
Qed.

(** The best maker has more than the taker still needs. *)
Lemma fok_last_outcome t book tk ts mk ms events makers :
  let mk' := fok_maker (remaining tk) mk in
  book_ok book → orders t book = tk :: ts → orders (opposite t) book = mk :: ms → Forall quantity_ok ms →
  (0 < ⟦remaining tk⟧)%Q → reaches t tk mk → (⟦remaining tk⟧ < ⟦remaining mk⟧)%Q →
  fok_outcome t book tk ts makers (mk :: ms) events
    (Some (Done (events ++ [fill_event (symbol_key tk) tk mk' (trust_price mk) (remaining tk) bd_zero
                  (remaining_number mk') ORDER_STATUS_SUCCESS ORDER_STATUS_SUCCESS_PART]),
           with_orders t ts (with_orders (opposite t) (mk' :: ms) book))).
Proof.
  intros mk' Hok Ht Hm Hq Hpos Hr Hlt. left. eexists [_], _. split; [reflexivity|]. split_and!.
  - eapply trades_cons_taker; [done..| |apply trades_nil]. by apply fok_walk_step_last.
  - by autorewrite with bookdb.
  - cbn [available]. rewrite (proj2 (price_gap_false t tk mk) Hr).
    pose proof (available_nonneg t (trust_price tk) ms Hq). lra.
Qed.

Lemma fok_walk_spec t fuel book tk first_bb events makers ts ms :
  book_ok book → orders t book = tk :: ts → orders (opposite t) book = ms →
  side_ok (opposite t) (makers ++ ms) → Forall quantity_ok ms →
  trust_order_no first_bb = trust_order_no tk → order_type first_bb = order_type tk →
  (0 < ⟦remaining tk⟧)%Q →
  (makers ≠ [] → bd_eq (remaining_number tk) (remaining tk)) →
  (makers = [] → match ms with mk :: _ => reaches t tk mk | [] => True end) →
  (length ms < fuel)%nat →
  fok_outcome t book tk ts makers ms events (fok_walk t fuel book tk first_bb events makers).
Proof.
  revert book tk events makers ms; induction fuel as [|fuel IH];
    intros book tk events makers ms Hok Ht Hm Hrb Hq Hno Hty Hpos Hrem Hfirst Hfuel; [lia|].
  pose proof (book_ok_side t book Hok) as Hokt. rewrite Ht in Hokt.
  cbn [fok_walk]. unfold first. rewrite Hm. destruct ms as [|mk ms]; cbn [head].
  { by apply fok_rollback_outcome. }
  destruct (price_gap t (trust_price tk) (trust_price mk)) eqn:Egap.
  { destruct makers as [|m0 makers].
    { specialize (Hfirst eq_refl). apply price_gap_false in Hfirst. congruence. }
    specialize (Hrem ltac:(done)). unfold bd_eq in Hrem.
    destruct (remaining_number tk >? bd_zero)%bd eqn:Hz; [|bdb; bdlra].
    apply fok_rollback_outcome; try done. cbn [available]. by rewrite Egap. }
  apply price_gap_false in Egap as Hreach. cbn zeta. rewrite bd_geb_ltb.
  apply Forall_cons in Hq as [_ Hq].
  destruct (remaining tk <? remaining mk)%bd eqn:Elt; cbn [negb]; bdb.
  { rewrite (fok_walk_last t book tk ts mk ms) by done. by apply fok_last_outcome. }
  rewrite (fok_walk_take t book tk ts mk ms) by done.
  destruct (remaining tk >? remaining mk)%bd eqn:Egt; bdb; [|apply fok_equal_outcome; try done; lra].
  eapply fok_take_outcome; [done..|].
  pose proof (trade_ok _ _ _ _ (fok_walk_step_take t book tk ts mk ms Hok Ht Hm Egt) Hok) as Hok'.
  set (tk' := fok_taker (remaining mk) tk mk) in *. set (book' := with_orders t (tk' :: ts) _) in *.
  assert (Hr' : (⟦remaining tk'⟧ == ⟦remaining tk⟧ - ⟦remaining mk⟧)%Q)
    by (subst tk'; unfold remaining; cbn; bdlra).
  assert (Hm' : orders (opposite t) book' = ms) by (subst book'; by autorewrite with bookdb).
  assert (Ht' : orders t book' = tk' :: ts) by (subst book'; by autorewrite with bookdb).
  assert (Hrb' : side_ok (opposite t) ((makers ++ [mk]) ++ ms)) by (by rewrite <- app_assoc).
  unfold is_empty. rewrite Hm'. destruct ms as [|mk2 ms].
  - apply fok_rollback_outcome; try done; [rewrite <- Ht'; by apply book_ok_side|cbn [available]; lra].
  - apply IH; try done; [lra|by destruct makers|cbn in *; lia].
Qed.

(** A taker no larger than the best maker is filled by it in one trade. *)
Lemma fill_whole_taker t book tk ts mk ms ev mr :
  orders t book = tk :: ts → orders (opposite t) book = mk :: ms →
  (⟦remaining tk⟧ <= ⟦remaining mk⟧)%Q → leftover (remaining tk) mk mr →
  fill_of tk mk (remaining tk) ev →
  trade t book ev (with_orders t ts (with_orders (opposite t) (option_list mr ++ ms) book)).
Proof.
  intros Ht Hm Hle Hmr Hev.
  apply (trade_taker t book tk mk ts ms None mr (remaining tk)); try done; [|by left].
  symmetry. by apply Q.min_l.
Qed.

Definition fok_handle (t : Side) : OrderBook → option (list MatchEvent * OrderBook) :=
  match t with Buy => fok_buy_handle | Sell => fok_sell_handle end.

(** Outcome of a fill-or-kill order [tk] that is best on its side. *)
Definition fok_result t book tk ts (r : option (list MatchEvent * OrderBook)) : Prop :=
  let ms := orders (opposite t) book in
  (∃ evs book', r = Some (evs, book') ∧ trades t crosses book evs book'
     ∧ orders t book' = ts ∧ (⟦remaining tk⟧ <= available t (trust_price tk) ms)%Q)
  ∨ (∃ rem, r = Some ([Revoke (trust_order_no tk) (symbol_key tk) rem "fok_fail"],
                      with_orders t ts book)
     ∧ (available t (trust_price tk) ms < ⟦remaining tk⟧)%Q).

Lemma fok_walk_result t book tk ts mk ms :
  book_ok book → orders t book = tk :: ts → orders (opposite t) book = mk :: ms →
  Forall quantity_ok (mk :: ms) → (0 < ⟦remaining tk⟧)%Q → reaches t tk mk →
  fok_result t book tk ts
    (match fok_walk t (loop_fuel book) book tk tk [] [] with
     | None => None
     | Some (Done events, book) => Some (events, book)
     | Some (Fail revoke, book) => Some ([revoke], book)
     end).
Proof.
  intros Hok Ht Hm Hq Hpos Hr. unfold fok_result. cbn zeta. rewrite Hm.
  destruct (fok_walk_spec t (loop_fuel book) book tk tk [] [] ts (mk :: ms))
    as [(evs & book' & Hw & Hts & Hgone & Hav)|(rem & Hw & Hav)]; try done.
  - rewrite <- Hm. by apply book_ok_side.
  - rewrite <- Hm. unfold loop_fuel. destruct t; cbn; lia.
  - left. exists evs, book'. rewrite Hw. done.
  - right. exists rem. rewrite Hw. split; [|done]. cbn [app]. rewrite <- Hm.
    by rewrite with_orders_same.
Qed.

(** A maker of exactly the taker's size fills it at once. *)
Lemma fok_handle_equal t book tk ts mk ms :
  book_ok book → orders t book = tk :: ts → orders (opposite t) book = mk :: ms →
  (0 < ⟦remaining tk⟧)%Q → reaches t tk mk → bd_eq (remaining tk) (remaining mk) →
  ∃ evs book', fok_handle t book = Some (evs, book') ∧ trades t crosses book evs book' ∧ orders t book' = ts.
Proof.
  intros Hok Ht Hm Hpos Hr Heq.
  pose proof (book_ok_side t book Hok) as Hokt. pose proof (book_ok_side (opposite t) book Hok) as Hokm.
  rewrite Ht in Hokt. rewrite Hm in Hokm.
  destruct (remaining tk >? remaining mk)%bd eqn:Egt; [bdb; unfold bd_eq in Heq; lra|].
  destruct book as [bl sl], t; cbn in Ht, Hm, Hokt, Hokm; subst bl sl; cbn [fok_handle];
    unfold fok_buy_handle, fok_sell_handle; cbn [first head orders buys sells];
    rewrite Egt, (proj2 (bd_eqb_eq _ _) Heq); unfold bd_eq in Heq; bdb; cbn zeta;
    eexists [_], _; (split; [|split]).
  - rewrite (remove_by_order_no_head Sell mk ms), (remove_by_order_no_head Buy tk ts) by done. reflexivity.
  - eapply trades_cons_taker; [done..| |apply trades_nil].
    eapply (fill_whole_taker Buy _ tk ts mk ms _ None); try done. solve_fill.
  - done.
  - rewrite (remove_by_order_no_head Sell tk ts), (remove_by_order_no_head Buy mk ms) by done. reflexivity.
  - eapply trades_cons_taker; [done..| |apply trades_nil].
    eapply (fill_whole_taker Sell _ tk ts mk ms _ None); try done. solve_fill.
  - done.
Qed.

(** A larger maker does too, and keeps what is left of it. *)
Lemma fok_handle_less t book tk ts mk ms :
  book_ok book → orders t book = tk :: ts → orders (opposite t) book = mk :: ms →
  (0 < ⟦remaining tk⟧)%Q → reaches t tk mk → (⟦remaining tk⟧ < ⟦remaining mk⟧)%Q →
  ∃ evs book', fok_handle t book = Some (evs, book') ∧ trades t crosses book evs book' ∧ orders t book' = ts.
Proof.
  intros Hok Ht Hm Hpos Hr Hlt.
  pose proof (book_ok_side t book Hok) as Hokt. pose proof (book_ok_side (opposite t) book Hok) as Hokm.
  rewrite Ht in Hokt. rewrite Hm in Hokm.
  destruct (remaining tk >? remaining mk)%bd eqn:Egt; [bdb; lra|].
  destruct (remaining tk =? remaining mk)%bd eqn:Eeq; [bdb; unfold bd_eq in *; lra|].
  destruct book as [bl sl], t; cbn in Ht, Hm, Hokt, Hokm; subst bl sl; cbn [fok_handle];
    unfold fok_buy_handle, fok_sell_handle; cbn [first head orders buys sells];
    rewrite Egt, Eeq; bdb; cbn zeta; eexists [_], _; (split; [|split]).
  - rewrite (remove_by_order_no_head Buy tk ts) by done. cbn [snd with_orders buys sells].
    rewrite (remove_by_order_no_head Sell mk ms) by done. cbn [default with_orders buys sells].
    erewrite (insert_head Sell mk _ ms); [reflexivity|done|solve_same_order|done].
  - eapply trades_cons_taker; [done..| |apply trades_nil].
    eapply (fill_whole_taker Buy _ tk ts mk ms _ (Some _)); try done; [solve_leftover|solve_fill].
  - done.
  - rewrite (remove_by_order_no_head Sell tk ts) by done. cbn [snd with_orders buys sells].
    rewrite (remove_by_order_no_head Buy mk ms) by done. cbn [default with_orders buys sells].
    erewrite (insert_head Buy mk _ ms); [reflexivity|done|solve_same_order|done].
  - eapply trades_cons_taker; [done..| |apply trades_nil].
    eapply (fill_whole_taker Sell _ tk ts mk ms _ (Some _)); try done; [solve_leftover|solve_fill].
  - done.
Qed.

Lemma fok_handle_spec t book tk ts mk ms :
  book_ok book → orders t book = tk :: ts → orders (opposite t) book = mk :: ms →
  Forall quantity_ok (mk :: ms) → (0 < ⟦remaining tk⟧)%Q → reaches t tk mk →
  fok_result t book tk ts (fok_handle t book).
Proof.
  intros Hok Ht Hm Hq Hpos Hr.
  destruct (Q_dec ⟦remaining tk⟧ ⟦remaining mk⟧) as [[Hc|Hc]|Hc].
  2:{ pose proof (fok_walk_result t book tk ts mk ms Hok Ht Hm Hq Hpos Hr) as Hwalk.
      destruct book as [bl sl], t; cbn in Ht, Hm; subst bl sl;
        cbn [fok_handle]; unfold fok_buy_handle, fok_sell_handle; cbn [first head orders buys sells];
        (destruct (remaining tk >? remaining mk)%bd eqn:Egt; [|bdb; lra]);
        by rewrite ?fok_buy_walk_eq, ?fok_sell_walk_eq. }
  all: left; rewrite Hm; cbn [available]; rewrite (proj2 (price_gap_false t tk mk) Hr);
    apply Forall_cons in Hq as [_ Hq]; pose proof (available_nonneg t (trust_price tk) ms Hq).
  - destruct (fok_handle_less t book tk ts mk ms) as (evs & book' & ? & ? & ?); [done..|].
    exists evs, book'. split_and!; [done..|lra].
  - destruct (fok_handle_equal t book tk ts mk ms) as (evs & book' & ? & ? & ?); [done..|].
    exists evs, book'. split_and!; [done..|lra].
Qed.

End Facts.
