(* ===== verification/CoreHeight.v ===== *)
(** * match-core: PostOnly, IOC and FOK orders

    Models [crates/match-core/src/handlers/height_buy.rs] and
    [height_sell.rs].  As in [CoreFok], the two loops are translated as
    written and shown to be one loop parametrised by the taker's side. *)
From S2P Require Import Prelude Decimal Protocol CoreBook CoreMatch CoreSpec CoreLimit CoreFok.
From Stdlib Require Import QArith Lqa.

#[local] Open Scope Z_scope.

Section Height.
Context `{BD : BigDecimal}.

Definition ioc_or_fok_reason (order_form : Z) : string :=
  if order_form =? ORDER_FORM_IOC then "ioc_remainder" else "fok_fail".

(** [revoke_by_no] (the same text in [height_buy.rs], [height_sell.rs] and
    [match_market.rs]) *)
Definition revoke_by_no (book : OrderBook) (order_no : string) (side : Side) (reason : string) :
    option MatchEvent * OrderBook :=
  let stub := test_limit side bd_zero order_no 0 bd_zero in
  revoke_order_with_reason book stub reason.

(** [push_revoke_if_present] *)
Definition push_revoke_if_present (events : list MatchEvent) (ev : option MatchEvent) :
    list MatchEvent :=
  match ev with Some ev => events ++ [ev] | None => events end.

(** Revoke, report and leave the loop. *)
Definition revoke_and_break (book : OrderBook) (events : list MatchEvent) (order_no : string)
    (side : Side) (reason : string) : option (list MatchEvent * OrderBook) :=
  let '(ev, book) := revoke_by_no book order_no side reason in
  Some (push_revoke_if_present events ev, book).

Fixpoint height_buy_loop (fuel : nat) (book : OrderBook) (order_form : Z) (order_no : string)
    (trust_price_ : bd) (events : list MatchEvent) : option (list MatchEvent * OrderBook) :=
  match fuel with
  | O => None
  | S fuel =>
      if order_form =? ORDER_FORM_POST_ONLY then
        let would_take := match first Sell book with
                          | Some sell => (trust_price_ >=? trust_price sell)%bd
                          | None => false
                          end in
        if would_take then revoke_and_break book events order_no Buy "post_only"
        else Some (events, book)
      else if is_empty Sell book then
        revoke_and_break book events order_no Buy (ioc_or_fok_reason order_form)
      else if is_empty Buy book then Some (events, book)
      else if (order_form =? ORDER_FORM_IOC) && negb (contains_order_no book order_no) then
        Some (events, book)
      else
        best_buy ← first Buy book;
        if (order_form =? ORDER_FORM_IOC) && negb (String.eqb (trust_order_no best_buy) order_no) then
          revoke_and_break book events order_no Buy "ioc_remainder"
        else
          sell ← first Sell book;
          if (trust_price best_buy <? trust_price sell)%bd then
            revoke_and_break book events order_no Buy (ioc_or_fok_reason order_form)
          else if order_form =? ORDER_FORM_FOK then
            '(evs, book) ← fok_buy_handle book;
            Some (events ++ evs, book)
          else
            let '(book, events) := push_rather_than_buy book events in
            height_buy_loop fuel book order_form order_no trust_price_ events
  end.

Definition handle_height_buy (book : OrderBook) (order : BbOrder) :
    option (list MatchEvent * OrderBook) :=
  let form := order_form order in
  let order_no := trust_order_no order in
  let price := trust_price order in
  with_inserted book order (λ book, height_buy_loop (loop_fuel book) book form order_no price []).

Fixpoint height_sell_loop (fuel : nat) (book : OrderBook) (order_form : Z) (order_no : string)
    (trust_price_ : bd) (events : list MatchEvent) : option (list MatchEvent * OrderBook) :=
  match fuel with
  | O => None
  | S fuel =>
      if order_form =? ORDER_FORM_POST_ONLY then
        let would_take := match first Buy book with
                          | Some buy => (trust_price_ <=? trust_price buy)%bd
                          | None => false
                          end in
        if would_take then revoke_and_break book events order_no Sell "post_only"
        else Some (events, book)
      else if is_empty Buy book then
        revoke_and_break book events order_no Sell (ioc_or_fok_reason order_form)
      else if is_empty Sell book then Some (events, book)
      else if (order_form =? ORDER_FORM_IOC) && negb (contains_order_no book order_no) then
        Some (events, book)
      else
        best_sell ← first Sell book;
        if (order_form =? ORDER_FORM_IOC) && negb (String.eqb (trust_order_no best_sell) order_no) then
          revoke_and_break book events order_no Sell "ioc_remainder"
        else
          buy ← first Buy book;
          if (trust_price best_sell >? trust_price buy)%bd then
            revoke_and_break book events order_no Sell (ioc_or_fok_reason order_form)
          else if order_form =? ORDER_FORM_FOK then
            '(evs, book) ← fok_sell_handle book;
            Some (events ++ evs, book)
          else
            let '(book, events) := push_rather_than_sell book events in
            height_sell_loop fuel book order_form order_no trust_price_ events
  end.

Definition handle_height_sell (book : OrderBook) (order : BbOrder) :
    option (list MatchEvent * OrderBook) :=
  let form := order_form order in
  let order_no := trust_order_no order in
  let price := trust_price order in
  with_inserted book order (λ book, height_sell_loop (loop_fuel book) book form order_no price []).

(** ** Both loops as one *)

Definition push_taker (t : Side) : OrderBook → list MatchEvent → OrderBook * list MatchEvent :=
  match t with Buy => push_rather_than_buy | Sell => push_rather_than_sell end.

Fixpoint height_loop (t : Side) (fuel : nat) (book : OrderBook) (form : Z) (no : string)
    (price : bd) (events : list MatchEvent) : option (list MatchEvent * OrderBook) :=
  match fuel with
  | O => None
  | S fuel =>
      if form =? ORDER_FORM_POST_ONLY then
        match orders (opposite t) book with
        | mk :: _ => if price_gap t price (trust_price mk) then Some (events, book)
                     else revoke_and_break book events no t "post_only"
        | [] => Some (events, book)
        end
      else
        match orders (opposite t) book, orders t book with
        | [], _ => revoke_and_break book events no t (ioc_or_fok_reason form)
        | _, [] => Some (events, book)
        | mk :: _, best :: _ =>
            if (form =? ORDER_FORM_IOC) && negb (contains_order_no book no) then
              Some (events, book)
            else if (form =? ORDER_FORM_IOC) && negb (String.eqb (trust_order_no best) no) then
              revoke_and_break book events no t "ioc_remainder"
            else if price_gap t (trust_price best) (trust_price mk) then
              revoke_and_break book events no t (ioc_or_fok_reason form)
            else if form =? ORDER_FORM_FOK then
              '(evs, book) ← fok_handle t book;
              Some (events ++ evs, book)
            else
              let '(book, events) := push_taker t book events in
              height_loop t fuel book form no price events
        end
  end.

End Height.

Section Facts.
Context `{BDS : BigDecimalSpec}.
Implicit Types (tk mk o : BbOrder) (book mid : OrderBook) (t : Side) (evs events : list MatchEvent).

Lemma bd_leb_gtb (x y : bd) : (x <=? y)%bd = negb (x >? y)%bd.
Proof. destruct (x <=? y)%bd eqn:E1, (x >? y)%bd eqn:E2; try done; bdb; lra. Qed.

Lemma height_buy_loop_eq fuel book form no price events :
  height_buy_loop fuel book form no price events = height_loop Buy fuel book form no price events.
Proof.
  revert book events; induction fuel as [|fuel IH]; intros book events; [reflexivity|].
  cbn [height_buy_loop height_loop opposite]. destruct (form =? ORDER_FORM_POST_ONLY).
  { unfold first. cbn [orders]. destruct (sells book) as [|s ss]; [reflexivity|]. cbn [head price_gap].
    rewrite bd_geb_ltb. by destruct (price <? trust_price s)%bd. }
  unfold is_empty, first. cbn [orders].
  destruct (sells book) as [|s ss]; [reflexivity|]. destruct (buys book) as [|b bs]; [reflexivity|].
  cbn [head mbind option_bind price_gap push_taker]. repeat (case_match; try done); simplify_eq; eauto.
Qed.

Lemma height_sell_loop_eq fuel book form no price events :
  height_sell_loop fuel book form no price events = height_loop Sell fuel book form no price events.
Proof.
  revert book events; induction fuel as [|fuel IH]; intros book events; [reflexivity|].
  cbn [height_sell_loop height_loop opposite]. destruct (form =? ORDER_FORM_POST_ONLY).
  { unfold first. cbn [orders]. destruct (buys book) as [|s ss]; [reflexivity|]. cbn [head price_gap].
    rewrite bd_leb_gtb. by destruct (price >? trust_price s)%bd. }
  unfold is_empty, first. cbn [orders].
  destruct (buys book) as [|s ss]; [reflexivity|]. destruct (sells book) as [|b bs]; [reflexivity|].
  cbn [head mbind option_bind price_gap push_taker]. repeat (case_match; try done); simplify_eq; eauto.
Qed.

(** ** Crossing orders *)

(** The only orders that may cross the other side are those of number [n] on side [t]. *)
Definition clear_except (t : Side) (n : string) (book : OrderBook) : Prop :=
  ∀ b s, b ∈ buys book → s ∈ sells book →
    trust_order_no (match t with Buy => b | Sell => s end) ≠ n →
    (⟦trust_price b⟧ < ⟦trust_price s⟧)%Q.

Definition clear (book : OrderBook) : Prop :=
  ∀ b s, b ∈ buys book → s ∈ sells book → (⟦trust_price b⟧ < ⟦trust_price s⟧)%Q.

Lemma clear_uncrossed book : clear book → uncrossed book.
Proof.
  intros Hc. unfold uncrossed. destruct (buys book) eqn:Eb, (sells book) eqn:Es; try done.
  apply Hc; rewrite ?Eb, ?Es; by left.
Qed.

Lemma side_ok_head_best sd o l x :
  side_ok sd (o :: l) → x ∈ o :: l →
  match sd with Buy => (⟦trust_price x⟧ <= ⟦trust_price o⟧)%Q
              | Sell => (⟦trust_price o⟧ <= ⟦trust_price x⟧)%Q end.
Proof.
  intros (Hb & _)%side_ok_cons [->|Hx]%elem_of_cons; [destruct sd; lra|].
  eapply Forall_forall in Hb; [|exact Hx]. cbn in Hb. unfold before, better, bd_eq in Hb.
  destruct sd, Hb as [?|[? _]]; lra.
Qed.

Lemma uncrossed_clear book : book_ok book → uncrossed book → clear book.
Proof.
  destruct book as [[|b0 bs] [|s0 ss]]; intros (Hb & Hs & _) Hu b s Hb' Hs'; cbn in *;
    try (by apply elem_of_nil in Hb'); try (by apply elem_of_nil in Hs').
  unfold uncrossed in Hu. cbn in Hu.
  pose proof (side_ok_head_best _ _ _ _ Hb Hb'). pose proof (side_ok_head_best _ _ _ _ Hs Hs').
  cbn in *. lra.
Qed.

Lemma clear_except_gone t n book :
  clear_except t n book → n ∉ numbers (orders t book) → clear book.
Proof.
  intros Hc Hn b s Hb Hs. apply Hc; [done..|]. intros <-. apply Hn.
  unfold numbers. destruct t; by apply list_elem_of_fmap_2.
Qed.

Lemma clear_except_descends t n book book' :
  (∀ sd, descends (orders sd book) (orders sd book')) →
  clear_except t n book → clear_except t n book'.
Proof.
  intros Hd Hc b' s' Hb Hs Hn.
  destruct (Hd Buy b' Hb) as (b & Hb0 & (Hbn & _ & Hbp & _)).
  destruct (Hd Sell s' Hs) as (s & Hs0 & (Hsn & _ & Hsp & _)).
  rewrite <- Hbp, <- Hsp. apply Hc; [done..|]. destruct t; congruence.
Qed.

Lemma trades_clear_except t n G book evs book' :
  trades t G book evs book' → clear_except t n book → clear_except t n book'.
Proof. intros Ht. apply clear_except_descends. intros sd. by eapply trades_descend. Qed.

Lemma clear_except_insert t o book l1 l2 :
  book_ok book → uncrossed book → orders t book = l1 ++ l2 →
  clear_except t (trust_order_no o) (with_orders t (l1 ++ o :: l2) book).
Proof.
  intros Hok Hu Ho b s Hb Hs Hn. eapply (uncrossed_clear book); [done..| |]; destruct t; cbn in *; try done.
  - rewrite Ho. set_solver.
  - rewrite Ho. set_solver.
Qed.

(** The taker of a fill. *)
Definition taken_by (n : string) (ev : MatchEvent) : Prop :=
  match ev with Fill _ taker _ _ _ _ _ _ _ _ _ => taker = n | Revoke _ _ _ _ => False end.

(** On a book that only [n] crosses, only [n] trades. *)
Lemma trades_taken_by t n book evs book' :
  trades t crosses book evs book' → clear_except t n book → Forall (taken_by n) evs.
Proof.
  induction 1 as [|b s bs ss ev evs book' book'' Hg Ht Hts IH]; intros Hc; constructor.
  - inversion Ht as [? ? ? ? ? ? ? ? ? ? ? ? Hf]; simplify_eq.
    destruct Hf as (?&?&?&?&->&_). cbn. destruct (String.eqb_spec
      (trust_order_no (match t with Buy => b | Sell => s end)) n) as [Heq|Hne]; [done|].
    exfalso. unfold crosses in Hg. pose proof (Hc b s ltac:(by left) ltac:(by left) Hne). lra.
  - apply IH. eapply clear_except_descends; [|exact Hc]. intros sd. by eapply trade_descends.
Qed.

(** ** Withdrawing an order *)

Definition withdrawn (t : Side) (n reason : string) (mid : OrderBook) (rev : list MatchEvent)
    (book' : OrderBook) : Prop :=
  (∃ l1 o l2, orders t mid = l1 ++ o :: l2 ∧ trust_order_no o = n
     ∧ book' = with_orders t (l1 ++ l2) mid
     ∧ rev = [Revoke n (symbol_key o) (dec_str (remaining o)) reason])
  ∨ ((n ∉ numbers (orders t mid)) ∧ book' = mid ∧ rev = []).

Lemma revoke_and_break_spec mid events n t reason :
  book_ok mid → ∃ rev book', revoke_and_break mid events n t reason = Some (events ++ rev, book')
                             ∧ withdrawn t n reason mid rev book'.
Proof.
  intros Hok. unfold revoke_and_break, revoke_by_no, revoke_order_with_reason.
  assert (from_order_type (order_type (test_limit t bd_zero n 0 bd_zero)) = Some t) as ->
    by (by destruct t).
  change (trust_order_no (test_limit t bd_zero n 0 bd_zero)) with n.
  destruct (remove_by_order_no_spec t n mid (book_ok_side t mid Hok))
    as [(l1 & o & l2 & Hl & Hn & ->)|(Hn & ->)].
  - eexists _, _. split; [reflexivity|]. left. exists l1, o, l2. by rewrite Hn.
  - exists [], mid. rewrite app_nil_r. split; [reflexivity|]. by right.
Qed.

Lemma withdrawn_ok t n reason mid rev book' :
  withdrawn t n reason mid rev book' → book_ok mid → book_ok book'.
Proof. intros [(l1 & o & l2 & Hl & _ & -> & _)|(_ & -> & _)] Hok; [by eapply remove_ok|done]. Qed.

Lemma withdrawn_gone t n reason mid rev book' :
  withdrawn t n reason mid rev book' → book_ok mid → n ∉ numbers (orders t book').
Proof.
  intros [(l1 & o & l2 & Hl & Hn & -> & _)|(Hn & -> & _)] Hok; [|done].
  apply (book_ok_side t) in Hok. rewrite Hl in Hok. autorewrite with bookdb.
  destruct Hok as (_ & Hnd & _). unfold numbers in *. rewrite fmap_app in *. cbn in Hnd.
  rewrite <- Hn. apply NoDup_app in Hnd as (_ & Hd & Hnd). apply NoDup_cons in Hnd as [Hnd _].
  rewrite not_elem_of_app. split; [|done]. intros Hin. apply (Hd _ Hin). by left.
Qed.

Lemma withdrawn_descends t n reason mid rev book' sd :
  withdrawn t n reason mid rev book' → sublist (orders sd book') (orders sd mid).
Proof.
  intros [(l1 & o & l2 & Hl & _ & -> & _)|(_ & -> & _)]; [|done].
  destruct t, sd; cbn in *; rewrite ?Hl; try done; apply sublist_app; try done;
    by apply sublist_cons.
Qed.

Lemma sublist_descends l l' : sublist l' l → descends l l'.
Proof.
  intros Hs o Ho. exists o. split; [by eapply elem_of_sublist|apply same_order_refl].
Qed.

Lemma push_taker_trade t book tk ts mk ms events :
  book_ok book → no_fok (sells book) →
  orders t book = tk :: ts → orders (opposite t) book = mk :: ms →
  ∃ ev book', push_taker t book events = (book', events ++ [ev]) ∧ trade t book ev book'.
Proof.
  destruct book as [bl sl], t; cbn; intros Hok Hf -> ->.
  - destruct (rather_than_buy_trade tk mk ts ms Hok) as (ev & book' & Hr & Ht).
    exists ev, book'. unfold push_rather_than_buy. by rewrite Hr.
  - apply Forall_cons in Hf as [Hf _].
    destruct (rather_than_sell_trade mk tk ms ts Hok Hf) as (ev & book' & Hr & Ht).
    exists ev, book'. unfold push_rather_than_sell. by rewrite Hr.
Qed.

(** ** Immediate-or-cancel *)

Lemma contains_order_no_false book no sd :
  contains_order_no book no = false → no ∉ numbers (orders sd book).
Proof.
  intros Hc Hin. assert (contains_order_no book no = true); [|congruence].
  apply contains_order_no_iff, elem_of_app. destruct sd; [by left|by right].
Qed.

(** Neither order of the two fronts reaches the other. *)
Lemma uncrossed_fronts t book tk ts mk ms :
  orders t book = tk :: ts → orders (opposite t) book = mk :: ms →
  uncrossed book ↔ ¬ reaches t tk mk.
Proof.
  unfold uncrossed, reaches, crosses. destruct book as [bl sl], t; cbn; intros -> ->; split; lra.
Qed.

Lemma clear_except_fronts t n book tk ts mk ms :
  clear_except t n book → orders t book = tk :: ts → orders (opposite t) book = mk :: ms →
  trust_order_no tk ≠ n → uncrossed book.
Proof.
  unfold uncrossed. destruct book as [bl sl], t; cbn; intros Hc -> -> Hn; apply Hc; (done || by left).
Qed.

Lemma uncrossed_empty t book : orders t book = [] → uncrossed book.
Proof. unfold uncrossed. destruct book as [bl sl], t; cbn; intros ->; [done|by destruct bl]. Qed.

(** What an IOC loop does to the book it finds. *)
Definition ioc_result t no reason book (events : list MatchEvent)
    (r : option (list MatchEvent * OrderBook)) : Prop :=
  ∃ fills mid rev book', r = Some (events ++ fills ++ rev, book')
    ∧ trades t crosses book fills mid ∧ uncrossed mid
    ∧ withdrawn t no reason mid rev book'.

Lemma ioc_result_stop t no reason book events :
  uncrossed book → no ∉ numbers (orders t book) →
  ioc_result t no reason book events (Some (events, book)).
Proof.
  intros Hu Hn. exists [], book, [], book. rewrite app_nil_r. split_and!; try done;
    [apply trades_nil|by right].
Qed.

Lemma ioc_result_revoke t no reason book events :
  book_ok book → uncrossed book →
  ioc_result t no reason book events (revoke_and_break book events no t reason).
Proof.
  intros Hok Hu. destruct (revoke_and_break_spec book events no t reason Hok) as (rev & book' & Hr & Hw).
  exists [], book, rev, book'. split_and!; try done. apply trades_nil.
Qed.

Lemma ioc_result_trade t no reason book events ev book1 tk ts mk ms r :
  orders t book = tk :: ts → orders (opposite t) book = mk :: ms → reaches t tk mk →
  trade t book ev book1 → ioc_result t no reason book1 (events ++ [ev]) r →
  ioc_result t no reason book events r.
Proof.
  intros Ht Hm Hr Htr (fills & mid & rev & book' & -> & Hts & Hu & Hw).
  exists (ev :: fills), mid, rev, book'. rewrite <- app_assoc. split_and!; try done.
  by eapply trades_cons_taker.
Qed.

Lemma ioc_loop_spec t fuel book no price events :
  book_ok book → no_fok (sells book) → clear_except t no book → (loop_fuel book ≤ fuel)%nat →
  ioc_result t no "ioc_remainder" book events
    (height_loop t fuel book ORDER_FORM_IOC no price events).
Proof.
  revert book events; induction fuel as [|fuel IH]; intros book events Hok Hf Hc Hfu;
    [unfold loop_fuel in Hfu; lia|].
  cbn [height_loop]. change (ORDER_FORM_IOC =? ORDER_FORM_POST_ONLY) with false.
  change (ORDER_FORM_IOC =? ORDER_FORM_IOC) with true.
  change (ORDER_FORM_IOC =? ORDER_FORM_FOK) with false. cbn iota. cbn [andb].
  destruct (orders (opposite t) book) as [|mk ms] eqn:Em.
  { apply ioc_result_revoke; [done|]. by eapply uncrossed_empty. }
  destruct (orders t book) as [|tk ts] eqn:Et.
  { apply ioc_result_stop; [by eapply uncrossed_empty|]. rewrite Et. apply not_elem_of_nil. }
  destruct (contains_order_no book no) eqn:Econ; cbn [negb].
  2: { apply (contains_order_no_false _ _ t) in Econ. apply ioc_result_stop; [|done].
       apply clear_uncrossed. by eapply clear_except_gone. }
  destruct (String.eqb_spec (trust_order_no tk) no) as [Heq|Hne]; cbn [negb].
  2: { apply ioc_result_revoke; [done|]. by eapply clear_except_fronts. }
  destruct (price_gap t (trust_price tk) (trust_price mk)) eqn:Egap.
  { apply ioc_result_revoke; [done|]. eapply uncrossed_fronts; [done..|].
    rewrite <- price_gap_false. congruence. }
  apply price_gap_false in Egap.
  destruct (push_taker_trade t book tk ts mk ms events Hok Hf Et Em) as (ev & book1 & -> & Htr).
  eapply ioc_result_trade; try done. apply IH.
  - by eapply trade_ok.
  - eapply descends_no_fok; [|exact Hf]. exact (trade_descends _ _ _ _ Sell Htr).
  - eapply clear_except_descends; [|exact Hc]. intros sd. by eapply trade_descends.
  - apply trade_shrinks in Htr. lia.
Qed.

(** A side whose best order does not reach a maker has no order that does. *)
Lemma price_gap_best t best ts o mk :
  side_ok t (best :: ts) → o ∈ best :: ts →
  price_gap t (trust_price best) (trust_price mk) = true →
  price_gap t (trust_price o) (trust_price mk) = true.
Proof.
  intros Hok Ho Hg. pose proof (side_ok_head_best _ _ _ _ Hok Ho) as Hb.
  apply not_false_iff_true. intros Hr%price_gap_false.
  assert (reaches t best mk) as Hr'%price_gap_false; [|congruence].
  unfold reaches, crosses in *. destruct t; lra.
Qed.

(** An order that does not reach the best maker may rest. *)
Lemma post_only_uncrossed t book l1 o l2 mk ms :
  book_ok book → uncrossed book → orders t book = l1 ++ l2 → orders (opposite t) book = mk :: ms →
  ¬ reaches t o mk → uncrossed (with_orders t (l1 ++ o :: l2) book).
Proof.
  intros Hok Hu Hl Hm Hr. destruct l1 as [|x l1]; cbn [app].
  - apply (uncrossed_fronts t _ o l2 mk ms); [by autorewrite with bookdb..|done].
  - apply (uncrossed_fronts t _ x (l1 ++ o :: l2) mk ms); [by autorewrite with bookdb..|].
    by eapply (uncrossed_fronts t book).
Qed.

(** ** Handlers *)

Definition handle_height (t : Side) : OrderBook → BbOrder → option (list MatchEvent * OrderBook) :=
  match t with Buy => handle_height_buy | Sell => handle_height_sell end.

Lemma handle_height_loop t book o book1 :
  insert book o = (true, book1) →
  handle_height t book o
  = height_loop t (loop_fuel book1) book1 (order_form o) (trust_order_no o) (trust_price o) [].
Proof.
  intros Hi. destruct t; cbn; unfold handle_height_buy, handle_height_sell, with_inserted; rewrite Hi;
    [apply height_buy_loop_eq|apply height_sell_loop_eq].
Qed.

Lemma no_fok_insert t book l1 o l2 :
  no_fok (sells book) → orders t book = l1 ++ l2 → order_form o ≠ ORDER_FORM_FOK →
  no_fok (sells (with_orders t (l1 ++ o :: l2) book)).
Proof.
  intros Hf Hl Ho. destruct t; cbn in *; [done|]. rewrite Hl in Hf.
  apply Forall_app in Hf as [??]. apply Forall_app. split; [done|by constructor].
Qed.

Lemma split_number_unique l1 l2 l1' l2' o o' :
  NoDup (numbers (l1 ++ o :: l2)) → l1 ++ o :: l2 = l1' ++ o' :: l2' →
  trust_order_no o = trust_order_no o' → l1 = l1' ∧ o = o' ∧ l2 = l2'.
Proof.
  revert l1'; induction l1 as [|x l1 IH]; intros [|x' l1'] Hnd Heq Hno; cbn in *; simplify_eq; try done.
  - apply NoDup_cons in Hnd as [Hnd _]. exfalso. apply Hnd. rewrite Hno.
    unfold numbers. apply list_elem_of_fmap_2. set_solver.
  - apply NoDup_cons in Hnd as [Hnd _]. exfalso. apply Hnd. rewrite <- Hno.
    unfold numbers. apply list_elem_of_fmap_2. set_solver.
  - apply NoDup_cons in Hnd as [_ Hnd]. destruct (IH l1') as (->&->&->); try done.
Qed.

(** Revoking the order just inserted gives back the book. *)
Lemma revoke_inserted t book l1 o l2 events reason :
  orders t book = l1 ++ l2 → book_ok (with_orders t (l1 ++ o :: l2) book) →
  revoke_and_break (with_orders t (l1 ++ o :: l2) book) events (trust_order_no o) t reason
  = Some (events ++ [Revoke (trust_order_no o) (symbol_key o) (dec_str (remaining o)) reason], book).
Proof.
  intros Hl Hok. destruct (revoke_and_break_spec _ events (trust_order_no o) t reason Hok)
    as (rev & book' & -> & [(l1' & o' & l2' & Ho & Hn & -> & ->)|(Hn & _ & _)]);
    autorewrite with bookdb in *.
  - apply (book_ok_side t) in Hok as (_ & Hnd & _). autorewrite with bookdb in Hnd.
    destruct (split_number_unique l1 l2 l1' l2' o o') as (<- & <- & <-); try done.
    rewrite <- Hl. by autorewrite with bookdb.
  - exfalso. apply Hn. unfold numbers. apply list_elem_of_fmap_2. set_solver.
Qed.

(** An IOC order trades with every maker it reaches, in priority order, and never rests. *)
Lemma handle_height_ioc t book o :
  book_ok book → uncrossed book → no_fok (sells book) →
  from_order_type (order_type o) = Some t → order_form o = ORDER_FORM_IOC →
  contains_order_no book (trust_order_no o) = false →
  ∃ l1 l2, orders t book = l1 ++ l2 ∧ book_ok (with_orders t (l1 ++ o :: l2) book)
    ∧ clear_except t (trust_order_no o) (with_orders t (l1 ++ o :: l2) book)
    ∧ ioc_result t (trust_order_no o) "ioc_remainder" (with_orders t (l1 ++ o :: l2) book) []
        (handle_height t book o).
Proof.
  intros Hok Hu Hf Hty Hform Hc.
  destruct (insert_ok book o t Hok Hty Hc) as (l1 & l2 & Hl & Hi & Hok1).
  pose proof (clear_except_insert t o book l1 l2 Hok Hu Hl) as Hce.
  exists l1, l2. split_and!; try done.
  rewrite (handle_height_loop _ _ _ _ Hi), Hform. apply ioc_loop_spec; try done.
  apply no_fok_insert; try done. by rewrite Hform.
Qed.

(** A PostOnly order rests without trading, or is withdrawn when it would take. *)
Lemma handle_height_post_only t book o :
  book_ok book → uncrossed book →
  from_order_type (order_type o) = Some t → order_form o = ORDER_FORM_POST_ONLY →
  contains_order_no book (trust_order_no o) = false →
  ∃ l1 l2, orders t book = l1 ++ l2 ∧ book_ok (with_orders t (l1 ++ o :: l2) book)
    ∧ ((handle_height t book o = Some ([], with_orders t (l1 ++ o :: l2) book)
        ∧ uncrossed (with_orders t (l1 ++ o :: l2) book))
      ∨ (handle_height t book o = Some ([Revoke (trust_order_no o) (symbol_key o)
                                          (dec_str (remaining o)) "post_only"], book)
        ∧ ∃ mk ms, orders (opposite t) book = mk :: ms ∧ reaches t o mk)).
Proof.
  intros Hok Hu Hty Hform Hc.
  destruct (insert_ok book o t Hok Hty Hc) as (l1 & l2 & Hl & Hi & Hok1).
  exists l1, l2. split; [done|]. split; [done|].
  rewrite (handle_height_loop _ _ _ _ Hi), Hform. cbn [loop_fuel height_loop].
  change (ORDER_FORM_POST_ONLY =? ORDER_FORM_POST_ONLY) with true. cbn iota.
  autorewrite with bookdb. destruct (orders (opposite t) book) as [|mk ms] eqn:Em.
  - left. split; [done|]. apply (uncrossed_empty (opposite t)). by autorewrite with bookdb.
  - destruct (price_gap t (trust_price o) (trust_price mk)) eqn:Egap.
    + left. split; [done|]. eapply post_only_uncrossed; try done.
      rewrite <- price_gap_false. congruence.
    + right. rewrite revoke_inserted by done. split; [done|]. exists mk, ms.
      by rewrite price_gap_false in Egap.
Qed.

(** The outcome of a fill-or-kill order. *)
Lemma handle_height_fok t book o :
  book_ok book → uncrossed book → quantities_ok book → (0 < ⟦remaining o⟧)%Q →
  from_order_type (order_type o) = Some t → order_form o = ORDER_FORM_FOK →
  contains_order_no book (trust_order_no o) = false →
  let avail := available t (trust_price o) (orders (opposite t) book) in
  (∃ ts evs book', orders t book = ts ∧ (⟦remaining o⟧ <= avail)%Q
      ∧ book_ok (with_orders t (o :: ts) book)
      ∧ handle_height t book o = Some (evs, book')
      ∧ trades t crosses (with_orders t (o :: ts) book) evs book'
      ∧ orders t book' = ts)
  ∨ (∃ rem, (avail < ⟦remaining o⟧)%Q
      ∧ handle_height t book o
        = Some ([Revoke (trust_order_no o) (symbol_key o) rem "fok_fail"], book)).
Proof.
  intros Hok Hu Hq Hpos Hty Hform Hc avail.
  destruct (insert_ok book o t Hok Hty Hc) as (l1 & l2 & Hl & Hi & Hok1).
  pose proof (clear_except_insert t o book l1 l2 Hok Hu Hl) as Hce.
  rewrite (handle_height_loop _ _ _ _ Hi), Hform. cbn [loop_fuel height_loop].
  change (ORDER_FORM_FOK =? ORDER_FORM_POST_ONLY) with false.
  change (ORDER_FORM_FOK =? ORDER_FORM_IOC) with false.
  change (ORDER_FORM_FOK =? ORDER_FORM_FOK) with true. cbn iota. cbn [andb].
  autorewrite with bookdb. subst avail.
  destruct (orders (opposite t) book) as [|mk ms] eqn:Em; cbn [available].
  { right. rewrite revoke_inserted by done. eexists. split; [|reflexivity]. done. }
  pose proof (book_ok_side t _ Hok1) as Hokt. autorewrite with bookdb in Hokt.
  destruct (l1 ++ o :: l2) as [|best ts] eqn:El; [by destruct l1|].
  assert (Hbest : price_gap t (trust_price best) (trust_price mk) = true →
                  price_gap t (trust_price o) (trust_price mk) = true).
  { intros Hg. eapply price_gap_best; [exact Hokt| |exact Hg]. rewrite <- El. set_solver. }
  destruct (price_gap t (trust_price best) (trust_price mk)) eqn:Egap.
  { right. rewrite <- El in *. rewrite revoke_inserted by done. rewrite Hbest by done.
    eexists. split; [|reflexivity]. done. }
  assert (Hno : trust_order_no best = trust_order_no o).
  { destruct (String.eqb_spec (trust_order_no best) (trust_order_no o)) as [|Hne]; [done|].
    exfalso. apply (uncrossed_fronts t (with_orders t (best :: ts) book) best ts mk ms);
      [by autorewrite with bookdb|by autorewrite with bookdb| |by apply price_gap_false].
    apply (clear_except_fronts t (trust_order_no o) _ best ts mk ms); try done;
      by autorewrite with bookdb. }
  assert (l1 = [] ∧ best = o) as [-> ->].
  { destruct Hokt as (_&Hnd&_). rewrite <- El in Hnd.
    destruct (split_number_unique l1 l2 [] ts o best) as (->&->&_); done. }
  cbn in El. simplify_eq. cbn in Hl.
  destruct (fok_handle_spec t (with_orders t (o :: ts) book) o ts mk ms)
    as [(evs & book' & -> & Hts & Hgone & Hav)|(rem & -> & Hav)]; try done.
  - by autorewrite with bookdb.
  - by autorewrite with bookdb.
  - rewrite <- Em. destruct Hq, t; done.
  - by apply price_gap_false.
  - autorewrite with bookdb in Hav. rewrite Em in Hav. left. exists ts, evs, book'. done.
  - autorewrite with bookdb in Hav. rewrite Em in Hav. right. exists rem. split; [done|].
    cbn. rewrite with_orders_twice, <- Hl. by autorewrite with bookdb.
Qed.

End Facts.
