(* ===== verification/CoreMarket.v ===== *)
(** * match-core: market orders

    Models [crates/match-core/src/match_market.rs].  The loops end when the
    order is filled, when the other side is empty, when the gear (the maximal
    number of fills) is reached, or when no progress is possible. *)
From S2P Require Import Prelude Decimal Protocol CoreBook CoreMatch CoreSpec CoreLimit CoreFok CoreHeight.
From Stdlib Require Import QArith Lqa.

#[local] Open Scope Z_scope.

Section Market.
Context `{BD : BigDecimal}.

(** [i32::MAX] *)
Definition MARKET_BUY_TRUST_PRICE : Z := 2 ^ 31 - 1.

Definition market_buy_handle (book : OrderBook) : option MatchEvent * OrderBook :=
  match first Sell book with
  | None => (None, book)
  | Some sell =>
      if order_form sell =? ORDER_FORM_MARKET_PRICE then (None, book) else rather_than_buy book
  end.

Definition gear_of (order : BbOrder) : Z :=
  match gear order with
  | Some g => if g >=? 1 then g else 1
  | None => 1
  end.

Definition market_sell_fill_delta (book : OrderBook) (events : list MatchEvent) :
    Z * list MatchEvent * OrderBook :=
  match rather_than_sell book with
  | (RFill ev, book) => (1, events ++ [ev], book)
  | (RRevoked ev, book) => (0, events ++ [ev], book)
  | (RNone, book) => (0, events, book)
  end.

Definition market_buy_not_our_order (best_buy : BbOrder) (order_no : string) : bool :=
  negb (String.eqb (trust_order_no best_buy) order_no).

Definition market_sell_not_our_order (best_sell : BbOrder) (order_no : string) : bool :=
  negb (String.eqb (trust_order_no best_sell) order_no).

Definition market_gear_stop (book : OrderBook) (events : list MatchEvent) (order_no : string)
    (side : Side) (fill_count gear : Z) : bool * list MatchEvent * OrderBook :=
  if (gear >? 0) && (fill_count >=? gear) then
    let '(ev, book) := revoke_by_no book order_no side "market_gear" in
    (true, push_revoke_if_present events ev, book)
  else (false, events, book).

Fixpoint market_buy_loop (fuel : nat) (book : OrderBook) (order_no : string) (gear fill_count : Z)
    (events : list MatchEvent) : option (list MatchEvent * OrderBook) :=
  match fuel with
  | O => None
  | S fuel =>
      if is_empty Buy book then Some (events, book)
      else if is_empty Sell book then revoke_and_break book events order_no Buy "market_empty"
      else
        best_buy ← first Buy book;
        if negb (order_form best_buy =? ORDER_FORM_MARKET_PRICE) then Some (events, book)
        else if market_buy_not_our_order best_buy order_no then
          revoke_and_break book events order_no Buy "market_blocked"
        else
          let '(made_progress, events, fill_count, book) :=
            match market_buy_handle book with
            | (Some ev, book) => (true, events ++ [ev], fill_count + 1, book)
            | (None, book) => (false, events, fill_count, book)
            end in
          let '(stop, events, book) := market_gear_stop book events order_no Buy fill_count gear in
          if stop then Some (events, book)
          else if negb made_progress then
            revoke_and_break book events order_no Buy "market_blocked"
          else market_buy_loop fuel book order_no gear fill_count events
  end.

Definition handle_market_buy (book : OrderBook) (order : BbOrder) :
    option (list MatchEvent * OrderBook) :=
  let order := set_trust_price (bd_from MARKET_BUY_TRUST_PRICE) order in
  let gear := gear_of order in
  let order_no := trust_order_no order in
  match insert book order with
  | (false, book) => Some ([], book)
  | (true, book) => market_buy_loop (loop_fuel book) book order_no gear 0 []
  end.

Fixpoint market_sell_loop (fuel : nat) (book : OrderBook) (order_no : string) (gear fill_count : Z)
    (events : list MatchEvent) : option (list MatchEvent * OrderBook) :=
  match fuel with
  | O => None
  | S fuel =>
      if is_empty Sell book then Some (events, book)
      else if is_empty Buy book then revoke_and_break book events order_no Sell "market_empty"
      else
        best_sell ← first Sell book;
        if negb (order_form best_sell =? ORDER_FORM_MARKET_PRICE) then Some (events, book)
        else if market_sell_not_our_order best_sell order_no then
          revoke_and_break book events order_no Sell "market_blocked"
        else
          let '(delta, events, book) := market_sell_fill_delta book events in
          let fill_count := fill_count + delta in
          let '(stop, events, book) := market_gear_stop book events order_no Sell fill_count gear in
          if stop then Some (events, book)
          else if delta =? 0 then revoke_and_break book events order_no Sell "market_blocked"
          else market_sell_loop fuel book order_no gear fill_count events
  end.

Definition handle_market_sell (book : OrderBook) (order : BbOrder) :
    option (list MatchEvent * OrderBook) :=
  let gear := gear_of order in
  let order_no := trust_order_no order in
  match insert book order with
  | (false, book) => Some ([], book)
  | (true, book) => market_sell_loop (loop_fuel book) book order_no gear 0 []
  end.

End Market.

Section Facts.
Context `{BDS : BigDecimalSpec}.
Implicit Types (tk mk o : BbOrder) (book mid : OrderBook) (t : Side) (evs events : list MatchEvent).

(** The taker of a market fill is the order numbered [n]. *)
Definition taker_is (t : Side) (n : string) (b s : BbOrder) : Prop :=
  trust_order_no (match t with Buy => b | Sell => s end) = n.

Lemma trades_cons_is t n book tk mk ts ms ev evs book' book'' :
  orders t book = tk :: ts → orders (opposite t) book = mk :: ms → trust_order_no tk = n →
  trade t book ev book' → trades t (taker_is t n) book' evs book'' →
  trades t (taker_is t n) book (ev :: evs) book''.
Proof. destruct book as [bl sl], t; cbn; intros -> -> Hr Ht Hts; by econstructor. Qed.

Lemma trades_is_taken_by t n book evs book' :
  trades t (taker_is t n) book evs book' → Forall (taken_by n) evs.
Proof.
  induction 1 as [|b s bs ss ev evs book' book'' Hg Ht Hts IH]; constructor; [|done].
  inversion Ht as [? ? ? ? ? ? ? ? ? ? ? ? Hf]; simplify_eq.
  destruct Hf as (?&?&?&?&->&_). cbn. done.
Qed.

(** One of the two loops, the other being its mirror image. *)
Definition market_loop (t : Side) := match t with Buy => market_buy_loop | Sell => market_sell_loop end.

(** Why the remainder is withdrawn: all [room] fills are made, nobody is left on the other
    side, or the best order of either side stands in the way. *)
Definition market_reason t n (reason : string) (room : Z) (fills : list MatchEvent) (mid : OrderBook) : Prop :=
  (reason = "market_gear" ∧ Z.of_nat (length fills) = room)
  ∨ (reason = "market_empty" ∧ orders (opposite t) mid = [])
  ∨ (reason = "market_blocked"
     ∧ ((∃ x l, orders t mid = x :: l ∧ order_form x = ORDER_FORM_MARKET_PRICE ∧ trust_order_no x ≠ n)
        ∨ (t = Buy ∧ ∃ mk l, orders Sell mid = mk :: l ∧ order_form mk = ORDER_FORM_MARKET_PRICE))).

(** Outcome of a market loop: fills by the order numbered [n], at most as many
    as the gear allows, then either the remainder is withdrawn or the loop
    stops because the best order of the side is not a market order. *)
Definition market_result t n (book : OrderBook) (room : Z) (events : list MatchEvent)
    (r : option (list MatchEvent * OrderBook)) : Prop :=
  ∃ fills mid rev book', r = Some (events ++ fills ++ rev, book')
    ∧ trades t (taker_is t n) book fills mid ∧ Z.of_nat (length fills) <= room
    ∧ ((∃ reason, withdrawn t n reason mid rev book' ∧ market_reason t n reason room fills mid)
       ∨ (rev = [] ∧ book' = mid
          ∧ ∀ x l, orders t mid = x :: l → order_form x ≠ ORDER_FORM_MARKET_PRICE)).

Lemma market_result_stop t n book room events :
  0 <= room → (∀ x l, orders t book = x :: l → order_form x ≠ ORDER_FORM_MARKET_PRICE) →
  market_result t n book room events (Some (events, book)).
Proof.
  intros ? Hh. exists [], book, [], book. rewrite app_nil_r. split_and!; try done;
    [apply trades_nil|by right].
Qed.

Lemma market_result_revoke t n book room events reason :
  0 <= room → book_ok book → market_reason t n reason room [] book →
  market_result t n book room events (revoke_and_break book events n t reason).
Proof.
  intros ? Hok Hwhy. destruct (revoke_and_break_spec book events n t reason Hok) as (rev & book' & Hr & Hw).
  exists [], book, rev, book'. split_and!; try done; [apply trades_nil|left; by exists reason].
Qed.

Lemma market_result_trade t n book room events ev book1 tk ts mk ms r :
  orders t book = tk :: ts → orders (opposite t) book = mk :: ms → trust_order_no tk = n →
  trade t book ev book1 → market_result t n book1 (room - 1) (events ++ [ev]) r →
  market_result t n book room events r.
Proof.
  intros Ht Hm Hr Htr (fills & mid & rev & book' & -> & Hts & Hlen & Hw).
  exists (ev :: fills), mid, rev, book'. rewrite <- app_assoc. split_and!; try done.
  - by eapply trades_cons_is.
  - cbn [length]. lia.
  - destruct Hw as [(reason & Hw & Hwhy)|Hstop]; [left|by right]. exists reason. split; [done|].
    destruct Hwhy as [[-> Hroom]|Hwhy]; [left|by right]. split; [done|]. cbn [length]. lia.
Qed.

(** The gear test, as a revoke-and-leave. *)
Lemma market_gear_stop_eq book events n t fill_count gear :
  0 < gear →
  market_gear_stop book events n t fill_count gear
  = if fill_count >=? gear then
      let '(ev, book') := revoke_by_no book n t "market_gear" in
      (true, push_revoke_if_present events ev, book')
    else (false, events, book).
Proof. intros Hg. unfold market_gear_stop. by rewrite (proj2 (Z.gtb_lt gear 0) Hg). Qed.

(** One turn of a loop that trades. *)
Lemma market_turn t fuel book n gear fc events tk ts mk ms :
  book_ok book → no_fok (sells book) → orders t book = tk :: ts →
  orders (opposite t) book = mk :: ms → order_form tk = ORDER_FORM_MARKET_PRICE →
  trust_order_no tk = n → 0 <= fc < gear →
  ((t = Buy ∧ order_form mk = ORDER_FORM_MARKET_PRICE
    ∧ market_loop t (S fuel) book n gear fc events
      = revoke_and_break book events n t "market_blocked")
  ∨ ∃ ev book1, trade t book ev book1
    ∧ market_loop t (S fuel) book n gear fc events
      = if fc + 1 >=? gear then revoke_and_break book1 (events ++ [ev]) n t "market_gear"
        else market_loop t fuel book1 n gear (fc + 1) (events ++ [ev])).
Proof.
  intros Hok Hf Ht Hm Hform Hn Hfc.
  destruct t; cbn [market_loop]; cbn [opposite orders] in *; destruct book as [bl sl]; cbn in Ht, Hm; subst bl sl.
  - destruct (order_form mk =? ORDER_FORM_MARKET_PRICE) eqn:Emk.
    + left. split; [done|]. split; [by apply Z.eqb_eq|].
      cbn [market_buy_loop is_empty orders buys sells first head mbind option_bind].
      rewrite (proj2 (Z.eqb_eq _ _) Hform). cbn [negb]. unfold market_buy_not_our_order.
      rewrite (proj2 (String.eqb_eq _ _) Hn). cbn [negb].
      unfold market_buy_handle. cbn [first head orders sells]. rewrite Emk.
      rewrite market_gear_stop_eq by lia. rewrite Z.geb_leb, (proj2 (Z.leb_gt gear fc)) by lia. done.
    + right. destruct (rather_than_buy_trade tk mk ts ms Hok) as (ev & book1 & Hr & Htr).
      exists ev, book1. split; [done|].
      cbn [market_buy_loop is_empty orders buys sells first head mbind option_bind].
      rewrite (proj2 (Z.eqb_eq _ _) Hform). cbn [negb]. unfold market_buy_not_our_order.
      rewrite (proj2 (String.eqb_eq _ _) Hn). cbn [negb].
      unfold market_buy_handle. cbn [first head orders sells]. rewrite Emk, Hr.
      rewrite market_gear_stop_eq by lia. unfold revoke_and_break. destruct (fc + 1 >=? gear); [|done].
      by destruct (revoke_by_no book1 n Buy "market_gear").
  - right. pose proof Hf as [Hfs _]%Forall_cons.
    destruct (rather_than_sell_trade mk tk ms ts Hok Hfs) as (ev & book1 & Hr & Htr).
    exists ev, book1. split; [done|].
    cbn [market_sell_loop is_empty orders buys sells first head mbind option_bind].
    rewrite (proj2 (Z.eqb_eq _ _) Hform). cbn [negb]. unfold market_sell_not_our_order.
    rewrite (proj2 (String.eqb_eq _ _) Hn). cbn [negb].
    unfold market_sell_fill_delta. rewrite Hr.
    rewrite market_gear_stop_eq by lia. unfold revoke_and_break. destruct (fc + 1 >=? gear); [|done].
    by destruct (revoke_by_no book1 n Sell "market_gear").
Qed.

(** A loop that finds nothing to do. *)
Lemma market_loop_idle t fuel book n gear fc events :
  (orders t book = [] → market_loop t (S fuel) book n gear fc events = Some (events, book))
  ∧ ∀ x l, orders t book = x :: l →
    (orders (opposite t) book = [] →
       market_loop t (S fuel) book n gear fc events = revoke_and_break book events n t "market_empty")
    ∧ ∀ mk ms, orders (opposite t) book = mk :: ms →
      (order_form x ≠ ORDER_FORM_MARKET_PRICE →
         market_loop t (S fuel) book n gear fc events = Some (events, book))
      ∧ (order_form x = ORDER_FORM_MARKET_PRICE → trust_order_no x ≠ n →
         market_loop t (S fuel) book n gear fc events
         = revoke_and_break book events n t "market_blocked").
Proof.
  destruct book as [bl sl].
  destruct t; cbn [market_loop market_buy_loop market_sell_loop is_empty orders opposite buys sells
                   first head mbind option_bind]; (split; [by intros ->|]); intros x l ->;
    (split; [by intros ->|]); intros mk ms ->; (split; intros Hform);
    cbn [is_empty first head orders buys sells mbind option_bind];
    unfold market_buy_not_our_order, market_sell_not_our_order;
    [by rewrite (proj2 (Z.eqb_neq _ _) Hform)| |by rewrite (proj2 (Z.eqb_neq _ _) Hform)|];
    rewrite (proj2 (Z.eqb_eq _ _) Hform); intros Hn; by rewrite (proj2 (String.eqb_neq _ _) Hn).
Qed.

Lemma market_loop_spec t fuel book n gear fc events :
  book_ok book → no_fok (sells book) → 0 <= fc < gear → (loop_fuel book ≤ fuel)%nat →
  market_result t n book (gear - fc) events (market_loop t fuel book n gear fc events).
Proof.
  revert book fc events; induction fuel as [|fuel IH]; intros book fc events Hok Hf Hfc Hfu;
    [unfold loop_fuel in Hfu; lia|].
  destruct (market_loop_idle t fuel book n gear fc events) as [Hown Hidle].
  destruct (orders t book) as [|tk ts] eqn:Et.
  { rewrite Hown by done. apply market_result_stop; [lia|]. by rewrite Et. }
  destruct (Hidle tk ts eq_refl) as [Hopp Hidle'].
  destruct (orders (opposite t) book) as [|mk ms] eqn:Em.
  { rewrite Hopp by done. apply market_result_revoke; [lia|done|]. right; left. by rewrite Em. }
  destruct (Hidle' mk ms eq_refl) as [Hnm Hnn].
  destruct (decide (order_form tk = ORDER_FORM_MARKET_PRICE)) as [Hform|Hform].
  2: { rewrite Hnm by done. apply market_result_stop; [lia|]. intros x l. rewrite Et. by intros [= <- <-]. }
  destruct (decide (trust_order_no tk = n)) as [Hn|Hn].
  2: { rewrite Hnn by done. apply market_result_revoke; [lia|done|]. right; right. split; [done|]. left. by exists tk, ts. }
  destruct (market_turn t fuel book n gear fc events tk ts mk ms) as [(-> & Hmk & ->)|(ev & book1 & Htr & ->)];
    try done; [apply market_result_revoke; [lia|done|]; right; right; split; [done|]; right; split; [done|]; by exists mk, ms|].
  eapply market_result_trade; try done.
  assert (Hok1 : book_ok book1) by (by eapply trade_ok).
  destruct (fc + 1 >=? gear) eqn:Eg; rewrite Z.geb_leb in Eg; zb; [apply market_result_revoke; [lia|done|]; left; split; [done|cbn; lia]|].
  replace (gear - fc - 1) with (gear - (fc + 1)) by lia.
  apply IH; try done; [|lia|apply trade_shrinks in Htr; lia].
  eapply descends_no_fok; [|exact Hf]. exact (trade_descends _ _ _ _ Sell Htr).
Qed.

End Facts.
