(* ===== verification/CoreEngine.v ===== *)
(** * match-core: the engine

    Models [crates/match-core/src/engine.rs].  The engine is a map from
    symbols to books; [on_order] looks the book up, creating an empty one for
    a new symbol, and dispatches on status, form and side.  [None] stands for
    a loop that runs out of fuel; [on_order_settles] shows that it never
    happens.

    [settled] is the contract every accepted order satisfies: it is inserted
    at its priority, trades a run of [CoreSpec.trades] steps in which it is
    always the taker, and is finally left in the book or withdrawn; the book
    is well-formed and uncrossed again. *)
From stdpp Require Import gmap.
From S2P Require Import Prelude Decimal Protocol CoreBook CoreMatch CoreSpec CoreLimit CoreFok CoreHeight CoreMarket.
From Stdlib Require Import QArith Lqa.

#[local] Open Scope Z_scope.

Section Engine.
Context `{BD : BigDecimal}.

(** [Engine { books }] *)
Definition Engine := gmap string OrderBook.

Definition engine_new : Engine := ∅.

Definition is_height_order_form (order_form : Z) : bool :=
  (order_form =? ORDER_FORM_POST_ONLY) || (order_form =? ORDER_FORM_IOC)
  || (order_form =? ORDER_FORM_FOK).

(** [rest_only] and no event, for an order of neither side. *)
Definition rest_silently (book : OrderBook) (order : BbOrder) :
    option (list MatchEvent * OrderBook) := Some ([], rest_only book order).

(** The body of [on_order], on the symbol's book. *)
Definition on_book (book : OrderBook) (order : BbOrder) : option (list MatchEvent * OrderBook) :=
  if is_revoke order then
    let '(ev, book) := revoke_order book order in
    Some (match ev with Some ev => [ev] | None => [] end, book)
  else if contains_order_no book (trust_order_no order) then Some ([], book)
  else if is_height_order_form (order_form order) then
    match from_order_type (order_type order) with
    | Some Buy => handle_height_buy book order
    | Some Sell => handle_height_sell book order
    | None => rest_silently book order
    end
  else if order_form order =? ORDER_FORM_MARKET_PRICE then
    match from_order_type (order_type order) with
    | Some Buy => handle_market_buy book order
    | Some Sell => handle_market_sell book order
    | None => rest_silently book order
    end
  else
    match from_order_type (order_type order) with
    | Some Buy => handle_limit_buy book order
    | Some Sell => handle_limit_sell book order
    | None => rest_silently book order
    end.

Definition book_of (e : Engine) (symbol : string) : OrderBook := default book_new (e !! symbol).

Definition on_order (e : Engine) (order : BbOrder) : option (list MatchEvent * Engine) :=
  let symbol := symbol_key order in
  '(evs, book) ← on_book (book_of e symbol) order;
  Some (evs, <[symbol := book]> e).

(** [Engine::depth_levels] *)
Definition engine_depth_levels (e : Engine) (symbol : string) (side : Side) (limit : nat) :
    list (bd * bd) :=
  match e !! symbol with Some book => depth_levels book side limit | None => [] end.

(** [Engine::resting_orders] *)
Definition engine_resting_orders (e : Engine) (symbol : string) (side : Side) : list BbOrder :=
  match e !! symbol with Some book => resting_orders book side | None => [] end.

(** A stream of orders, with the events of all of them. *)
Fixpoint run (e : Engine) (l : list BbOrder) : option (list MatchEvent * Engine) :=
  match l with
  | [] => Some ([], e)
  | o :: l => '(evs, e) ← on_order e o; '(evs', e) ← run e l; Some (evs ++ evs', e)
  end.

(** The same stream, with the events order by order. *)
Fixpoint run_each (e : Engine) (l : list BbOrder) : option (list (list MatchEvent) * Engine) :=
  match l with
  | [] => Some ([], e)
  | o :: l => '(evs, e) ← on_order e o; '(evss, e) ← run_each e l; Some (evs :: evss, e)
  end.

End Engine.

Section Facts.
Context `{BDS : BigDecimalSpec}.
Implicit Types (tk mk o : BbOrder) (book mid : OrderBook) (t : Side) (evs events : list MatchEvent).

(** The order as it enters the book: a market buy is priced at [i32::MAX]. *)
Definition entered (t : Side) (o : BbOrder) : BbOrder :=
  match t with
  | Buy => if order_form o =? ORDER_FORM_MARKET_PRICE
           then set_trust_price (bd_from MARKET_BUY_TRUST_PRICE) o else o
  | Sell => o
  end.

(** How an order leaves: untouched, or withdrawn with a [Revoke] event. *)
Definition leaves (t : Side) (o : BbOrder) (mid : OrderBook) (rev : list MatchEvent)
    (book' : OrderBook) : Prop :=
  (rev = [] ∧ book' = mid)
  ∨ ∃ m1 x m2 rem reason, orders t mid = m1 ++ x :: m2 ∧ trust_order_no x = trust_order_no o
      ∧ book' = with_orders t (m1 ++ m2) mid
      ∧ rev = [Revoke (trust_order_no o) (symbol_key x) rem reason]
      ∧ (order_form o ≠ ORDER_FORM_FOK → rem = dec_str (remaining x)).

(** The contract of an accepted order. *)
Definition settled (t : Side) (o : BbOrder) (book : OrderBook) (evs : list MatchEvent)
    (book' : OrderBook) : Prop :=
  ∃ l1 l2 G fills mid rev,
    orders t book = l1 ++ l2
    ∧ book_ok (with_orders t (l1 ++ entered t o :: l2) book)
    ∧ trades t G (with_orders t (l1 ++ entered t o :: l2) book) fills mid
    ∧ evs = fills ++ rev ∧ Forall (taken_by (trust_order_no o)) fills
    ∧ leaves t o mid rev book' ∧ uncrossed book'
    ∧ (order_form o = ORDER_FORM_IOC ∨ order_form o = ORDER_FORM_FOK →
       trust_order_no o ∉ numbers (orders t book'))
    ∧ (order_form o ≠ ORDER_FORM_MARKET_PRICE → G = crosses).

Lemma withdrawn_leaves t o reason mid rev book' :
  withdrawn t (trust_order_no o) reason mid rev book' → leaves t o mid rev book'.
Proof.
  intros [(l1 & x & l2 & Hl & Hn & -> & ->)|(_ & -> & ->)]; [|by left].
  right. eexists l1, x, l2, _, _. split_and!; done.
Qed.

Lemma entered_other t o : order_form o ≠ ORDER_FORM_MARKET_PRICE → entered t o = o.
Proof. intros Hf. unfold entered. by rewrite (proj2 (Z.eqb_neq _ _) Hf); destruct t. Qed.

Definition handle_limit (t : Side) : OrderBook → BbOrder → option (list MatchEvent * OrderBook) :=
  match t with Buy => handle_limit_buy | Sell => handle_limit_sell end.

(** A limit order is put into its place and the two fronts trade while they cross. *)
Lemma handle_limit_trades t book o :
  book_ok book → no_fok (sells book) → from_order_type (order_type o) = Some t →
  order_form o ≠ ORDER_FORM_FOK → contains_order_no book (trust_order_no o) = false →
  ∃ l1 l2 evs book',
    orders t book = l1 ++ l2 ∧ book_ok (with_orders t (l1 ++ o :: l2) book)
    ∧ handle_limit t book o = Some (evs, book')
    ∧ trades t crosses (with_orders t (l1 ++ o :: l2) book) evs book' ∧ uncrossed book'.
Proof.
  intros Hok Hf Hty H5 Hc. destruct (insert_ok book o t Hok Hty Hc) as (l1 & l2 & Hl & Hi & Hok1).
  assert (Hs : ∃ evs book', handle_limit t book o = Some (evs, book')
      ∧ trades t crosses (with_orders t (l1 ++ o :: l2) book) evs book' ∧ uncrossed book').
  { destruct t; cbn [handle_limit]; unfold handle_limit_buy, handle_limit_sell, with_inserted; rewrite Hi.
    - by apply (match_limit_buy_loop_spec _ _ []).
    - apply (match_limit_sell_loop_spec _ _ []); try done. by apply (no_fok_insert Sell). }
  destruct Hs as (evs & book' & Hh & Hts & Hu). by exists l1, l2, evs, book'.
Qed.

Lemma handle_limit_settles t book o :
  book_ok book → uncrossed book → no_fok (sells book) →
  from_order_type (order_type o) = Some t →
  order_form o ≠ ORDER_FORM_FOK → order_form o ≠ ORDER_FORM_IOC →
  order_form o ≠ ORDER_FORM_MARKET_PRICE →
  contains_order_no book (trust_order_no o) = false →
  ∃ evs book', handle_limit t book o = Some (evs, book') ∧ settled t o book evs book'.
Proof.
  intros Hok Hu Hf Hty H5 H4 H2 Hc.
  destruct (handle_limit_trades t book o Hok Hf Hty H5 Hc) as (l1 & l2 & evs & book' & Hl & Hok1 & Hh & Hts & Hu').
  pose proof (clear_except_insert t o book l1 l2 Hok Hu Hl) as Hce.
  pose proof (entered_other t o H2) as He. exists evs, book'. split; [done|].
  exists l1, l2, crosses, evs, book', []. rewrite He, app_nil_r. split_and!; try done.
  - by eapply trades_taken_by.
  - by left.
  - by intros [?|?].
Qed.

Lemma handle_ioc_settles t book o :
  book_ok book → uncrossed book → no_fok (sells book) →
  from_order_type (order_type o) = Some t → order_form o = ORDER_FORM_IOC →
  contains_order_no book (trust_order_no o) = false →
  ∃ evs book', handle_height t book o = Some (evs, book') ∧ settled t o book evs book'.
Proof.
  intros Hok Hu Hf Hty Hform Hc.
  destruct (handle_height_ioc t book o) as (l1 & l2 & Hl & Hok1 & Hce & Hr); try done.
  destruct Hr as (fills & mid & rev & book' & Hh & Hts & Hum & Hw). cbn [app] in Hh.
  assert (Hokm : book_ok mid) by (by eapply trades_ok).
  exists (fills ++ rev), book'. split; [done|]. exists l1, l2, crosses, fills, mid, rev.
  rewrite entered_other by (by rewrite Hform). split_and!; try done.
  - by eapply trades_taken_by.
  - by eapply withdrawn_leaves.
  - apply clear_uncrossed. eapply (clear_except_gone t (trust_order_no o)); [|by eapply withdrawn_gone].
    eapply clear_except_descends; [|eapply trades_clear_except; eassumption].
    intros sd. apply sublist_descends. by eapply withdrawn_descends.
  - intros _. by eapply withdrawn_gone.
Qed.

(** An order withdrawn as soon as it was inserted. *)
Lemma settled_withdrawn t o book l1 l2 rem reason :
  book_ok book → uncrossed book → order_form o ≠ ORDER_FORM_MARKET_PRICE →
  contains_order_no book (trust_order_no o) = false →
  orders t book = l1 ++ l2 → book_ok (with_orders t (l1 ++ o :: l2) book) →
  (order_form o ≠ ORDER_FORM_FOK → rem = dec_str (remaining o)) →
  settled t o book [Revoke (trust_order_no o) (symbol_key o) rem reason] book.
Proof.
  intros Hok Hu Hform Hc Hl Hok1 Hrem.
  exists l1, l2, crosses, [], (with_orders t (l1 ++ o :: l2) book), [Revoke (trust_order_no o) (symbol_key o) rem reason].
  rewrite entered_other by done. split_and!; try done.
  - apply trades_nil.
  - right. exists l1, o, l2, rem, reason. split_and!; try done; [by autorewrite with bookdb|].
    rewrite <- Hl. by autorewrite with bookdb.
  - intros _. by apply contains_order_no_false.
Qed.

Lemma handle_fok_settles t book o :
  book_ok book → uncrossed book → quantities_ok book → (0 < ⟦remaining o⟧)%Q →
  from_order_type (order_type o) = Some t → order_form o = ORDER_FORM_FOK →
  contains_order_no book (trust_order_no o) = false →
  ∃ evs book', handle_height t book o = Some (evs, book') ∧ settled t o book evs book'.
Proof.
  intros Hok Hu Hq Hpos Hty Hform Hc.
  assert (Hgone : trust_order_no o ∉ numbers (orders t book)) by (by apply contains_order_no_false).
  destruct (handle_height_fok t book o) as [(ts & evs & book' & Hl & _ & Hok1 & Hh & Hts & Hts')
    |(rem & _ & Hh)]; try done.
  - exists evs, book'. split; [done|]. exists [], ts, crosses, evs, book', [].
    pose proof (clear_except_insert t o book [] ts Hok Hu Hl) as Hce.
    assert (Hg : trust_order_no o ∉ numbers (orders t book')) by (by rewrite Hts', <- Hl).
    rewrite entered_other by (by rewrite Hform). rewrite app_nil_r. split_and!; try done.
    + by eapply trades_taken_by.
    + by left.
    + apply clear_uncrossed. eapply (clear_except_gone t (trust_order_no o)); [|done].
      by eapply trades_clear_except.
  - destruct (insert_ok book o t Hok Hty Hc) as (l1 & l2 & Hl & _ & Hok1).
    eexists _, book. split; [exact Hh|]. eapply settled_withdrawn; try done; by rewrite Hform.
Qed.

Lemma handle_post_only_settles t book o :
  book_ok book → uncrossed book →
  from_order_type (order_type o) = Some t → order_form o = ORDER_FORM_POST_ONLY →
  contains_order_no book (trust_order_no o) = false →
  ∃ evs book', handle_height t book o = Some (evs, book') ∧ settled t o book evs book'.
Proof.
  intros Hok Hu Hty Hform Hc.
  destruct (handle_height_post_only t book o) as (l1 & l2 & Hl & Hok1 & [[Hh Hu1]|[Hh _]]); try done.
  - eexists _, _. split; [exact Hh|].
    exists l1, l2, crosses, [], (with_orders t (l1 ++ o :: l2) book), [].
    rewrite entered_other by (by rewrite Hform). split_and!; try done.
    + apply trades_nil.
    + by left.
    + rewrite Hform. by intros [?|?].
  - eexists _, book. split; [exact Hh|]. eapply settled_withdrawn; try done; by rewrite Hform.
Qed.

Definition handle_market (t : Side) : OrderBook → BbOrder → option (list MatchEvent * OrderBook) :=
  match t with Buy => handle_market_buy | Sell => handle_market_sell end.

Lemma gear_of_pos o : 0 < gear_of o.
Proof. unfold gear_of. destruct (gear o) as [g|]; [|lia]. rewrite Z.geb_leb. destruct (1 <=? g) eqn:E; zb; lia. Qed.

(** A market handler inserts the order and enters its loop. *)
Lemma handle_market_inserts t book o :
  book_ok book → from_order_type (order_type o) = Some t →
  order_form o = ORDER_FORM_MARKET_PRICE → contains_order_no book (trust_order_no o) = false →
  ∃ l1 l2, orders t book = l1 ++ l2
    ∧ book_ok (with_orders t (l1 ++ entered t o :: l2) book)
    ∧ handle_market t book o
      = market_loop t (loop_fuel (with_orders t (l1 ++ entered t o :: l2) book))
          (with_orders t (l1 ++ entered t o :: l2) book) (trust_order_no o) (gear_of o) 0 [].
Proof.
  intros Hok Hty Hform Hc.
  assert (He : trust_order_no (entered t o) = trust_order_no o ∧ order_type (entered t o) = order_type o).
  { unfold entered. by destruct t; [case_match|]. }
  destruct He as (Hen & Het).
  destruct (insert_ok book (entered t o) t Hok) as (l1 & l2 & Hl & Hi & Hok1); [congruence..|].
  exists l1, l2. split_and!; try done.
  destruct t; cbn [handle_market market_loop]; unfold handle_market_buy, handle_market_sell.
  - unfold entered in *. rewrite Hform in *. cbn in *. by rewrite Hi.
  - unfold entered in *. by rewrite Hi.
Qed.

Lemma handle_market_result t book o :
  book_ok book → uncrossed book → no_fok (sells book) →
  from_order_type (order_type o) = Some t → order_form o = ORDER_FORM_MARKET_PRICE →
  contains_order_no book (trust_order_no o) = false →
  ∃ l1 l2, orders t book = l1 ++ l2
    ∧ book_ok (with_orders t (l1 ++ entered t o :: l2) book)
    ∧ clear_except t (trust_order_no o) (with_orders t (l1 ++ entered t o :: l2) book)
    ∧ market_result t (trust_order_no o) (with_orders t (l1 ++ entered t o :: l2) book) (gear_of o) []
        (handle_market t book o).
Proof.
  intros Hok Hu Hf Hty Hform Hc.
  destruct (handle_market_inserts t book o) as (l1 & l2 & Hl & Hok1 & Hloop); try done.
  assert (He : trust_order_no (entered t o) = trust_order_no o ∧ order_form (entered t o) = order_form o).
  { unfold entered. by destruct t; [case_match|]. }
  destruct He as (Hen & Hef).
  pose proof (clear_except_insert t (entered t o) book l1 l2 Hok Hu Hl) as Hce. rewrite Hen in Hce.
  exists l1, l2. split_and!; try done. rewrite Hloop. replace (gear_of o) with (gear_of o - 0) at 1 by lia.
  pose proof (gear_of_pos o). apply market_loop_spec; try done.
  apply no_fok_insert; try done. rewrite Hef, Hform. done.
Qed.

(** What is left of a market order is still a market order. *)
Lemma market_descendant t book o l1 l2 G fills mid x l :
  order_form o = ORDER_FORM_MARKET_PRICE →
  book_ok (with_orders t (l1 ++ entered t o :: l2) book) →
  trades t G (with_orders t (l1 ++ entered t o :: l2) book) fills mid →
  orders t mid = x :: l → trust_order_no x = trust_order_no o →
  order_form x = ORDER_FORM_MARKET_PRICE.
Proof.
  intros Hform Hok Hts Hx Hn.
  destruct (trades_descend _ _ _ _ _ t Hts x) as (y & Hy & Hs); [rewrite Hx; by left|].
  autorewrite with bookdb in Hy. destruct Hs as (Hsn & _ & _ & _ & _ & Hsf & _).
  apply (book_ok_side t) in Hok as (_ & Hnd & _). autorewrite with bookdb in Hnd.
  assert (y = entered t o) as ->.
  { eapply (NoDup_fmap_inj trust_order_no); [exact Hnd|done|set_solver|].
    rewrite Hsn, Hn. unfold entered. by destruct t; [case_match|]. }
  rewrite <- Hsf, <- Hform. unfold entered. by destruct t; [case_match|].
Qed.

Lemma handle_market_settles t book o :
  book_ok book → uncrossed book → no_fok (sells book) →
  from_order_type (order_type o) = Some t → order_form o = ORDER_FORM_MARKET_PRICE →
  contains_order_no book (trust_order_no o) = false →
  ∃ evs book', handle_market t book o = Some (evs, book') ∧ settled t o book evs book'.
Proof.
  intros Hok Hu Hf Hty Hform Hc.
  destruct (handle_market_result t book o) as (l1 & l2 & Hl & Hok1 & Hce & Hr); try done.
  destruct Hr as (fills & mid & rev & book' & Hh & Hts & _ & Hw). cbn [app] in Hh.
  assert (Hokm : book_ok mid) by (by eapply trades_ok).
  pose proof (trades_clear_except _ _ _ _ _ _ Hts Hce) as Hcm.
  exists (fills ++ rev), book'. split; [done|]. exists l1, l2, (taker_is t (trust_order_no o)), fills, mid, rev.
  split_and!; try done.
  - by eapply trades_is_taken_by.
  - destruct Hw as [(reason & Hw & _)|(-> & -> & _)]; [by eapply withdrawn_leaves|by left].
  - destruct Hw as [(reason & Hw & _)|(-> & -> & Hhead)].
    + apply clear_uncrossed. eapply (clear_except_gone t (trust_order_no o)); [|by eapply withdrawn_gone].
      eapply clear_except_descends; [|exact Hcm].
      intros sd. apply sublist_descends. by eapply withdrawn_descends.
    + destruct (orders t mid) as [|x l] eqn:Et; [by eapply uncrossed_empty|].
      destruct (orders (opposite t) mid) as [|mk ms] eqn:Em; [by eapply uncrossed_empty|].
      eapply (clear_except_fronts t (trust_order_no o)); try done. intros Hx.
      apply (Hhead x l eq_refl). by eapply market_descendant.
  - rewrite Hform. by intros [?|?].
Qed.

(** ** The engine invariant *)

(** What may rest in the book of [sym]. *)
Definition resting_ok (sym : string) (o : BbOrder) : Prop :=
  symbol_key o = sym ∧ order_form o ≠ ORDER_FORM_IOC ∧ order_form o ≠ ORDER_FORM_FOK ∧ quantity_ok o.

Definition book_inv (sym : string) (book : OrderBook) : Prop :=
  book_ok book ∧ uncrossed book ∧ ∀ sd, Forall (resting_ok sym) (orders sd book).

Definition engine_ok (e : Engine) : Prop := ∀ sym book, e !! sym = Some book → book_inv sym book.

(** An order with something left to trade; a revoke request needs nothing. *)
Definition order_valid (o : BbOrder) : Prop := is_revoke o = false → quantity_ok o.

Lemma book_inv_no_fok sym book : book_inv sym book → no_fok (sells book).
Proof. intros (_ & _ & Hr). eapply Forall_impl; [exact (Hr Sell)|]. by intros o (_&_&?&_). Qed.

Lemma book_inv_quantities sym book : book_inv sym book → quantities_ok book.
Proof.
  intros (_ & _ & Hr). split; [eapply Forall_impl; [exact (Hr Buy)|]|eapply Forall_impl; [exact (Hr Sell)|]];
    by intros o (_&_&_&?).
Qed.

Lemma book_inv_new sym : book_inv sym book_new.
Proof.
  split; [|split]; [|done|by intros []; constructor].
  split; [|split]; [apply side_ok_nil..|]. intros n Hn. by apply elem_of_nil in Hn.
Qed.

Lemma book_of_inv e sym : engine_ok e → book_inv sym (book_of e sym).
Proof. intros He. unfold book_of. destruct (e !! sym) eqn:E; cbn; [by apply He|apply book_inv_new]. Qed.

(** Taking an order out keeps the invariant. *)
Lemma book_inv_remove sym t book l1 o l2 :
  book_inv sym book → orders t book = l1 ++ o :: l2 → book_inv sym (with_orders t (l1 ++ l2) book).
Proof.
  intros (Hok & Hu & Hr) Hl.
  assert (Hsub : ∀ sd, sublist (orders sd (with_orders t (l1 ++ l2) book)) (orders sd book)).
  { intros sd. destruct t, sd; cbn in *; rewrite ?Hl; try done; apply sublist_app; try done;
      by apply sublist_cons. }
  split_and!.
  - by eapply remove_ok.
  - apply clear_uncrossed. intros b s Hb Hs. apply (uncrossed_clear book); try done.
    + by eapply elem_of_sublist, (Hsub Buy).
    + by eapply elem_of_sublist, (Hsub Sell).
  - intros sd. apply Forall_forall. intros x Hx. specialize (Hr sd). rewrite Forall_forall in Hr.
    apply Hr. by eapply elem_of_sublist.
Qed.

(** The dispatch reaches the handler that settles the order. *)
Lemma on_book_settles sym book o t :
  book_inv sym book → is_revoke o = false → quantity_ok o →
  contains_order_no book (trust_order_no o) = false →
  from_order_type (order_type o) = Some t →
  ∃ evs book', on_book book o = Some (evs, book') ∧ settled t o book evs book'.
Proof.
  intros Hinv Hrev Hq Hc Hty. pose proof (book_inv_no_fok _ _ Hinv) as Hf.
  pose proof (book_inv_quantities _ _ Hinv) as Hqs. destruct Hinv as (Hok & Hu & _).
  assert (Hon : on_book book o = if is_height_order_form (order_form o) then handle_height t book o
    else if order_form o =? ORDER_FORM_MARKET_PRICE then handle_market t book o
    else handle_limit t book o).
  { unfold on_book. rewrite Hrev, Hc, Hty. by destruct t. }
  rewrite Hon. unfold is_height_order_form.
  destruct (order_form o =? ORDER_FORM_POST_ONLY) eqn:E3; zb; [by apply handle_post_only_settles|].
  destruct (order_form o =? ORDER_FORM_IOC) eqn:E4; zb; [by apply handle_ioc_settles|].
  destruct (order_form o =? ORDER_FORM_FOK) eqn:E5; zb; [apply handle_fok_settles; try done; by apply Hq|].
  destruct (order_form o =? ORDER_FORM_MARKET_PRICE) eqn:E2; zb;
    [by apply handle_market_settles|by apply handle_limit_settles].
Qed.

Lemma entered_same t o :
  trust_order_no (entered t o) = trust_order_no o ∧ symbol_key (entered t o) = symbol_key o
  ∧ order_form (entered t o) = order_form o ∧ remaining (entered t o) = remaining o
  ∧ remaining_number (entered t o) = remaining_number o.
Proof. unfold entered. by destruct t; [case_match|]. Qed.

Lemma leaves_sublist t o mid rev book' sd : leaves t o mid rev book' → sublist (orders sd book') (orders sd mid).
Proof.
  intros [[_ ->]|(m1 & x & m2 & rem & reason & Hl & _ & -> & _)]; [done|].
  destruct t, sd; cbn in *; rewrite ?Hl; try done; apply sublist_app; try done; by apply sublist_cons.
Qed.

Lemma leaves_ok t o mid rev book' : leaves t o mid rev book' → book_ok mid → book_ok book'.
Proof.
  intros [[_ ->]|(m1 & x & m2 & rem & reason & Hl & _ & -> & _)] Hok; [done|by eapply remove_ok].
Qed.

Lemma orders_insert_elem sd t book l1 l2 o x :
  orders t book = l1 ++ l2 → x ∈ orders sd (with_orders t (l1 ++ o :: l2) book) →
  x ∈ orders sd book ∨ (x = o ∧ sd = t).
Proof. intros Hl. destruct sd, t; cbn in *; rewrite ?Hl; set_solver. Qed.

Lemma settled_inv t o sym book evs book' :
  book_inv sym book → symbol_key o = sym → quantity_ok o → settled t o book evs book' →
  book_inv sym book'.
Proof.
  intros Hinv Hsym Hq (l1 & l2 & G & fills & mid & rev & Hl & Hok1 & Hts & _ & _ & Hlv & Hu & Hgone & _).
  pose proof (book_inv_quantities _ _ Hinv) as [Hqb Hqs]. destruct Hinv as (_ & _ & Hr).
  destruct (entered_same t o) as (Hen & Hes & Hef & Her & Hern).
  assert (Hokm : book_ok mid) by (by eapply trades_ok).
  assert (Hqm : quantities_ok mid).
  { eapply trades_quantities; [exact Hts|].
    assert (Hqe : quantity_ok (entered t o)) by (unfold quantity_ok; by rewrite Her, Hern).
    split; apply Forall_forall; intros x Hx; rewrite Forall_forall in Hqb, Hqs.
    - apply (orders_insert_elem Buy t) in Hx as [?|[-> _]]; [by apply Hqb|done|done].
    - apply (orders_insert_elem Sell t) in Hx as [?|[-> _]]; [by apply Hqs|done|done]. }
  split_and!; [by eapply leaves_ok|done|].
  intros sd. apply Forall_forall. intros x Hx.
  assert (Hxm : x ∈ orders sd mid) by (eapply elem_of_sublist, leaves_sublist; done).
  destruct (trades_descend _ _ _ _ _ sd Hts x Hxm) as (y & Hy & (Hyn & _ & _ & _ & Hys & Hyf & _)).
  assert (Hqx : quantity_ok x).
  { destruct Hqm as [Hb Hs]. rewrite Forall_forall in Hb, Hs. destruct sd; [by apply Hb|by apply Hs]. }
  apply (orders_insert_elem sd t) in Hy as [Hy|[-> ->]]; [| |done].
  - specialize (Hr sd). rewrite Forall_forall in Hr. destruct (Hr y Hy) as (?&?&?&_).
    unfold resting_ok. rewrite <- Hys, <- Hyf. done.
  - assert (Hin : trust_order_no o ∈ numbers (orders t book')).
    { rewrite <- Hen, Hyn. by apply list_elem_of_fmap_2. }
    unfold resting_ok. rewrite <- Hys, <- Hyf, Hes, Hef. split_and!; try done;
      intros Hform; apply Hgone; tauto.
Qed.

Lemma on_book_inv sym book o :
  book_inv sym book → symbol_key o = sym → order_valid o →
  ∃ evs book', on_book book o = Some (evs, book') ∧ book_inv sym book'.
Proof.
  intros Hinv Hsym Hv. destruct (is_revoke o) eqn:Hrev.
  - unfold on_book. rewrite Hrev. unfold revoke_order, revoke_order_with_reason.
    destruct (from_order_type (order_type o)) as [t|]; [|by exists [], book].
    destruct Hinv as (Hok & Hu & Hr) eqn:Ei.
    destruct (remove_by_order_no_spec t (trust_order_no o) book (book_ok_side t book Hok))
      as [(l1 & x & l2 & Hl & Hn & ->)|(_ & ->)]; [|by exists [], book].
    eexists _, _. split; [reflexivity|]. by eapply book_inv_remove.
  - destruct (contains_order_no book (trust_order_no o)) eqn:Hc.
    { exists [], book. unfold on_book. by rewrite Hrev, Hc. }
    destruct (from_order_type (order_type o)) as [t|] eqn:Hty.
    + destruct (on_book_settles sym book o t) as (evs & book' & Hon & Hset); try done; [by apply Hv|].
      exists evs, book'. split; [done|]. eapply settled_inv; try done. by apply Hv.
    + exists [], book. split; [|done]. unfold on_book, rest_silently, rest_only, CoreBook.insert.
      rewrite Hrev, Hc, Hty. destruct (is_height_order_form _), (order_form o =? ORDER_FORM_MARKET_PRICE); done.
Qed.

Lemma on_order_inv e o :
  engine_ok e → order_valid o → ∃ evs e', on_order e o = Some (evs, e') ∧ engine_ok e'.
Proof.
  intros He Hv. unfold on_order.
  destruct (on_book_inv (symbol_key o) (book_of e (symbol_key o)) o) as (evs & book' & -> & Hinv);
    [by apply book_of_inv|done..|].
  cbn [mbind option_bind]. eexists _, _. split; [reflexivity|]. intros sym book.
  destruct (decide (symbol_key o = sym)) as [<-|Hne].
  - rewrite (lookup_insert_eq (M:=gmap string) e). by intros [= <-].
  - rewrite (lookup_insert_ne (M:=gmap string) e) by done. apply He.
Qed.

Lemma run_inv e l :
  engine_ok e → Forall order_valid l → ∃ evs e', run e l = Some (evs, e') ∧ engine_ok e'.
Proof.
  revert e; induction l as [|o l IH]; intros e He Hv; [by exists [], e|].
  apply Forall_cons in Hv as [Ho Hv]. destruct (on_order_inv e o He Ho) as (evs & e1 & H1 & He1).
  destruct (IH e1 He1 Hv) as (evs' & e2 & H2 & He2). exists (evs ++ evs'), e2.
  cbn [run]. rewrite H1. cbn [mbind option_bind]. by rewrite H2.
Qed.

Lemma engine_new_ok : engine_ok engine_new.
Proof. intros sym book Hl. assert (engine_new !! sym = None) by apply (lookup_empty (M:=gmap string)). congruence. Qed.

Lemma on_order_book e o evs e' :
  on_order e o = Some (evs, e') →
  ∃ book', on_book (book_of e (symbol_key o)) o = Some (evs, book')
    ∧ book_of e' (symbol_key o) = book'
    ∧ ∀ sym, sym ≠ symbol_key o → e' !! sym = e !! sym.
Proof.
  unfold on_order. destruct (on_book _ o) as [[evs1 book1]|]; [|done]. cbn [mbind option_bind].
  intros [= -> <-]. exists book1. split; [done|]. split.
  - unfold book_of. by rewrite (lookup_insert_eq (M:=gmap string) e).
  - intros sym Hs. by rewrite (lookup_insert_ne (M:=gmap string) e) by done.
Qed.

Lemma on_order_of_book e o evs book' :
  on_book (book_of e (symbol_key o)) o = Some (evs, book') →
  ∃ e', on_order e o = Some (evs, e') ∧ book_of e' (symbol_key o) = book'.
Proof.
  intros Hb. unfold on_order. rewrite Hb. cbn [mbind option_bind]. eexists. split; [reflexivity|].
  unfold book_of. by rewrite (lookup_insert_eq (M:=gmap string) e).
Qed.

(** ** Priority: makers are eaten from the front *)

(** [l'] is [l] without some of its best orders, the next one possibly reduced. *)
Definition eaten (l l' : list BbOrder) : Prop :=
  ∃ pre post, l = pre ++ post
    ∧ (l' = post ∨ ∃ x x' post', post = x :: post' ∧ l' = x' :: post' ∧ same_order x x').

Lemma same_order_trans o1 o2 o3 : same_order o1 o2 → same_order o2 o3 → same_order o1 o3.
Proof. unfold same_order. naive_solver congruence. Qed.

Lemma eaten_refl l : eaten l l.
Proof. exists [], l. split; [done|by left]. Qed.

Lemma leftover_eaten q o rest l l'' :
  leftover q o rest → eaten (option_list rest ++ l) l'' → eaten (o :: l) l''.
Proof.
  destruct rest as [o'|]; cbn.
  - intros [(Hs & _) _] (pre & post & Heq & Hl). destruct pre as [|p pre]; cbn in Heq; simplify_eq.
    + exists [], (o :: l). split; [done|]. right.
      destruct Hl as [->|(x & x' & post' & [= <- <-] & -> & Hx)].
      * by exists o, o', l.
      * exists o, x', l. split_and!; try done. by eapply same_order_trans.
    + exists (o :: pre), post. done.
  - intros _ (pre & post & -> & Hl). exists (o :: pre), post. done.
Qed.

Lemma trades_eaten t G book evs book' sd :
  trades t G book evs book' → eaten (orders sd book) (orders sd book').
Proof.
  induction 1 as [|b s bs ss ev evs book' book'' _ Ht _ IH]; [apply eaten_refl|].
  inversion Ht as [? ? ? ? br sr q ? Hq Hb Hs ? ? Heq]; simplify_eq.
  destruct sd; cbn [orders buys sells] in *; by eapply leftover_eaten.
Qed.

(** ** Quantities *)

(** Quantity an event hands back to the owner of a revoked order. *)
Definition event_revoked (ev : MatchEvent) : Q :=
  match ev with
  | Revoke _ _ rem _ => match bd_from_str rem with Some d => ⟦d⟧ | None => 0 end
  | _ => 0
  end.
Definition revoked (evs : list MatchEvent) : Q := foldr (λ e acc, event_revoked e + acc)%Q 0%Q evs.

Lemma revoked_app l1 l2 : (revoked (l1 ++ l2) == revoked l1 + revoked l2)%Q.
Proof. induction l1 as [|o l1 IH]; simpl; [ring|]. rewrite IH. ring. Qed.

Lemma revoked_fills n evs : Forall (taken_by n) evs → (revoked evs == 0)%Q.
Proof. induction 1 as [|[] ? ? _ IH]; simpl; try done. rewrite IH. ring. Qed.

Lemma leaves_conserves t o mid rev book' :
  leaves t o mid rev book' →
  (open_qty (opposite t) book' == open_qty (opposite t) mid)%Q ∧ (traded rev == 0)%Q
  ∧ (order_form o ≠ ORDER_FORM_FOK → (open_qty t book' + revoked rev == open_qty t mid)%Q).
Proof.
  unfold open_qty. intros [[-> ->]|(m1 & x & m2 & rem & reason & Hl & _ & -> & -> & Hrem)].
  - simpl. split_and!; [reflexivity..|]. intros _. ring.
  - autorewrite with bookdb. split_and!; [reflexivity|simpl; ring|]. intros Hf. rewrite (Hrem Hf), Hl.
    rewrite !total_app, total_cons. cbn [revoked foldr event_revoked]. unfold dec_str.
    destruct (bd_print_parse (remaining x)) as (d & -> & Hd). rewrite Hd. ring.
Qed.

Lemma settled_conserves t o book evs book' :
  settled t o book evs book' →
  (open_qty (opposite t) book' + traded evs == open_qty (opposite t) book)%Q
  ∧ (order_form o ≠ ORDER_FORM_FOK →
     (open_qty t book' + traded evs + revoked evs == open_qty t book + ⟦remaining o⟧)%Q).
Proof.
  intros (l1 & l2 & G & fills & mid & rev & Hl & _ & Hts & -> & Htk & Hlv & _ & _ & _).
  destruct (leaves_conserves _ _ _ _ _ Hlv) as (Hopp & Htr & Hown).
  pose proof (trades_conserve _ _ _ _ _ t Hts) as Hct.
  pose proof (trades_conserve _ _ _ _ _ (opposite t) Hts) as Hco.
  unfold open_qty in *. autorewrite with bookdb in Hct, Hco.
  rewrite total_app, total_cons in Hct.
  assert (Hb : (total (orders t book) == total l1 + total l2)%Q) by (rewrite Hl; apply total_app).
  destruct (entered_same t o) as (_ & _ & _ & Her & _). rewrite Her in Hct.
  split.
  - rewrite traded_app, Htr, Hopp, Hco. ring.
  - intros Hf. specialize (Hown Hf). rewrite traded_app, revoked_app, Htr, (revoked_fills _ _ Htk), Hb.
    transitivity (total (orders t book') + revoked rev + traded fills)%Q; [ring|].
    rewrite Hown, Hct. ring.
Qed.

(** ** Prices *)

(** A fill at the limit [p] or better, for a taker on side [t]. *)
Definition price_within (t : Side) (p : bd) (ev : MatchEvent) : Prop :=
  match ev with
  | Fill _ _ _ _ _ price _ _ _ _ _ =>
      ∃ q, bd_from_str price = Some q
           ∧ match t with Buy => (⟦q⟧ <= ⟦p⟧)%Q | Sell => (⟦p⟧ <= ⟦q⟧)%Q end
  | Revoke _ _ _ _ => True
  end.

Lemma trades_price_within t p n book evs book' :
  trades t crosses book evs book' → Forall (taken_by n) evs →
  (∀ x, x ∈ orders t book → trust_order_no x = n → trust_price x = p) →
  Forall (price_within t p) evs.
Proof.
  induction 1 as [|b s bs ss ev evs book' book'' Hg Ht Hts IH]; intros Htk Hp; [constructor|].
  apply Forall_cons in Htk as [Htk Hrest]. constructor.
  - clear IH. inversion Ht as [? ? ? ? ? ? ? ? ? ? ? ? Hf]; simplify_eq.
    destruct Hf as (?&?&?&?&->&_). cbn in Htk |- *. unfold crosses in Hg. unfold dec_str.
    destruct t; cbn in *.
    + destruct (bd_print_parse (trust_price s)) as (d & -> & Hd). exists d. split; [done|].
      rewrite Hd, <- (Hp b); [done|by left|done].
    + destruct (bd_print_parse (trust_price b)) as (d & -> & Hd). exists d. split; [done|].
      rewrite Hd, <- (Hp s); [done|by left|done].
  - apply IH; [done|]. intros x (y & Hy & (Hyn & _ & Hyp & _))%(trade_descends _ _ _ _ t Ht) Hn.
    rewrite <- Hyp. apply Hp; [done|congruence].
Qed.

Lemma settled_prices t o book evs book' :
  order_form o ≠ ORDER_FORM_MARKET_PRICE → settled t o book evs book' →
  Forall (price_within t (trust_price o)) evs.
Proof.
  intros Hform (l1 & l2 & G & fills & mid & rev & Hl & Hok & Hts & -> & Htk & Hlv & _ & _ & HG).
  rewrite (HG Hform) in Hts. rewrite (entered_other _ _ Hform) in *. apply Forall_app. split.
  - eapply trades_price_within; [exact Hts|exact Htk|]. intros x Hx Hn.
    apply (book_ok_side t) in Hok as (_ & Hnd & _). autorewrite with bookdb in *.
    assert (x = o) as ->; [|done]. eapply (NoDup_fmap_inj trust_order_no); [exact Hnd|done| |done].
    set_solver.
  - destruct Hlv as [[-> _]|(m1 & x & m2 & rem & reason & _ & _ & _ & -> & _)]; by repeat constructor.
Qed.

Lemma settled_eaten t o book evs book' :
  settled t o book evs book' → eaten (orders (opposite t) book) (orders (opposite t) book').
Proof.
  intros (l1 & l2 & G & fills & mid & rev & Hl & _ & Hts & _ & _ & Hlv & _).
  apply (trades_eaten _ _ _ _ _ (opposite t)) in Hts. autorewrite with bookdb in Hts.
  destruct Hlv as [[_ ->]|(m1 & x & m2 & rem & reason & _ & _ & -> & _)]; by autorewrite with bookdb.
Qed.

(** ** Market orders *)

(** A market order best on its side stays at the front until it is gone. *)
Lemma trades_front t n o ts book fills mid :
  trades t (taker_is t n) book fills mid → trust_order_no o = n → n ∉ numbers ts →
  (∃ x, orders t book = x :: ts ∧ same_order o x) ∨ orders t book = ts →
  (∃ x, orders t mid = x :: ts ∧ same_order o x) ∨ orders t mid = ts.
Proof.
  intros Hts Hn Hnot. induction Hts as [|b s bs ss ev evs book' book'' Hg Ht Hts IH]; [done|].
  intros Hfront. apply IH. clear IH. unfold taker_is in Hg.
  inversion Ht as [? ? ? ? br sr q ? Hq Hb Hs ? ? Heq]; simplify_eq.
  destruct t; cbn [orders buys sells] in *; (destruct Hfront as [(x & [= <- <-] & Hx)|<-];
    [|exfalso; apply Hnot; cbn; rewrite ?Hn; by left]).
  - destruct br as [b'|]; cbn; [left|by right]. destruct Hb as [(Hsb & _) _].
    exists b'. split; [done|]. by eapply same_order_trans.
  - destruct sr as [s'|]; cbn; [left|by right]. destruct Hs as [(Hsb & _) _].
    exists s'. split; [done|]. by eapply same_order_trans.
Qed.

(** ** The other orders of the taker's side *)

Definition others (n : string) (l : list BbOrder) : list BbOrder :=
  filter (λ x, trust_order_no x ≠ n) l.

Lemma others_absent n l : n ∉ numbers l → others n l = l.
Proof.
  intros Hn. unfold others. induction l as [|x l IH]; [done|]. cbn in Hn.
  apply not_elem_of_cons in Hn as [Hx Hn]. rewrite filter_cons_True by done. by rewrite IH.
Qed.

(** They are not touched by trades in which [n] is the taker. *)
Lemma trades_others t G n book evs book' :
  trades t G book evs book' → Forall (taken_by n) evs →
  others n (orders t book') = others n (orders t book).
Proof.
  induction 1 as [|b s bs ss ev evs book' book'' _ Ht _ IH]; intros Hev; [done|].
  apply Forall_cons in Hev as [Hev Hrest]. rewrite IH by done. clear IH.
  inversion Ht as [? ? ? ? br sr q ? ? Hb Hs ? Hf]; simplify_eq.
  destruct Hf as (?&?&?&?&->&_). cbn in Hev. subst n. unfold others.
  destruct t; cbn [orders buys sells].
  - rewrite filter_app, (filter_cons_False _ b) by (by intros []).
    destruct br as [b'|]; [|done]. cbn [option_list]. destruct Hb as [((Hn & _) & _) _].
    rewrite filter_cons_False by (rewrite Hn; by intros []). done.
  - rewrite filter_app, (filter_cons_False _ s) by (by intros []).
    destruct sr as [b'|]; [|done]. cbn [option_list]. destruct Hs as [((Hn & _) & _) _].
    rewrite filter_cons_False by (rewrite Hn; by intros []). done.
Qed.

Lemma others_insert n l1 o l2 :
  trust_order_no o = n → n ∉ numbers (l1 ++ l2) → others n (l1 ++ o :: l2) = l1 ++ l2.
Proof.
  intros Ho Hn. rewrite <- (others_absent n (l1 ++ l2)) by done. unfold others.
  rewrite !filter_app, filter_cons_False by (by rewrite Ho; intros []). done.
Qed.

(** Orders of number [n] on the taker's side come from the taker. *)
Lemma trades_taker_origin t G book o l1 l2 evs mid x :
  book_ok (with_orders t (l1 ++ o :: l2) book) →
  trades t G (with_orders t (l1 ++ o :: l2) book) evs mid →
  x ∈ orders t mid → trust_order_no x = trust_order_no o → same_order o x.
Proof.
  intros Hok Hts Hx Hn. destruct (trades_descend _ _ _ _ _ t Hts x Hx) as (y & Hy & Hs).
  apply (book_ok_side t) in Hok as (_ & Hnd & _). autorewrite with bookdb in *.
  assert (y = o) as ->; [|done]. eapply (NoDup_fmap_inj trust_order_no); [exact Hnd|done|set_solver|].
  rewrite <- Hn. apply Hs.
Qed.

(** A withdrawn order leaves exactly the others. *)
Lemma withdrawn_others t n reason mid rev book' :
  withdrawn t n reason mid rev book' → book_ok mid → orders t book' = others n (orders t mid).
Proof.
  intros Hw Hok. pose proof (withdrawn_gone _ _ _ _ _ _ Hw Hok) as Hg.
  destruct Hw as [(l1 & x & l2 & Hl & Hn & -> & _)|(Hn & -> & _)].
  - autorewrite with bookdb in *. rewrite Hl. by rewrite others_insert.
  - by rewrite others_absent.
Qed.

(** What of the taker is still there after trades of its own, and what of its side. *)
Lemma taker_share t G book o l1 l2 fills mid :
  trust_order_no o ∉ numbers (l1 ++ l2) → trades t G (with_orders t (l1 ++ o :: l2) book) fills mid → Forall (taken_by (trust_order_no o)) fills →
  (trust_order_no o ∉ numbers (orders t mid) → orders t mid = l1 ++ l2 ∧ (traded fills == ⟦remaining o⟧)%Q)
  ∧ ∀ m1 x m2, orders t mid = m1 ++ x :: m2 → trust_order_no x = trust_order_no o → trust_order_no o ∉ numbers (m1 ++ m2) →
      m1 ++ m2 = l1 ++ l2 ∧ (traded fills + ⟦remaining x⟧ == ⟦remaining o⟧)%Q.
Proof.
  intros Hno Hts Htk. pose proof (trades_others _ _ _ _ _ _ Hts Htk) as Hoth. pose proof (trades_conserve _ _ _ _ _ t Hts) as Hc.
  unfold open_qty in Hc. autorewrite with bookdb in Hoth, Hc. rewrite others_insert in Hoth by done. rewrite total_app, total_cons in Hc. pose proof (total_app l1 l2) as Ha. split.
  - intros Hgone. rewrite others_absent in Hoth by done. split; [done|]. rewrite Hoth in Hc. lra.
  - intros m1 x m2 Hm Hx Hrest. rewrite Hm in Hoth, Hc. rewrite others_insert in Hoth by done. split; [done|].
    pose proof (total_app m1 m2) as Hb. rewrite Hoth in Hb. rewrite total_app, total_cons in Hc. lra.
Qed.

(** On its side only the taker has its number. *)
Lemma inserted_unique o l1 l2 x : x ∈ l1 ++ o :: l2 → trust_order_no x = trust_order_no o → trust_order_no o ∉ numbers (l1 ++ l2) → x = o.
Proof.
  intros Hx Hn Hno. assert (x = o ∨ x ∈ l1 ++ l2) as [->|Hin] by set_solver; [done|]. exfalso. apply Hno. rewrite <- Hn. by apply list_elem_of_fmap_2.
Qed.

(** What trades leave of an order is positive. *)
Lemma left_positive t G book o l1 l2 fills mid x :
  quantities_ok book → quantity_ok o → orders t book = l1 ++ l2 → trades t G (with_orders t (l1 ++ o :: l2) book) fills mid → x ∈ orders t mid → (0 < ⟦remaining x⟧)%Q.
Proof.
  intros [Hqb Hqs] Hq Hl Hts Hx. assert (quantities_ok mid) as [Hb Hs].
  { eapply trades_quantities; [exact Hts|]. destruct book as [bl sl], t; cbn in Hl, Hqb, Hqs |- *; subst; split; try done;
      [apply Forall_app in Hqb as [? ?]|apply Forall_app in Hqs as [? ?]]; apply Forall_app; (split; [done|by constructor]). }
  destruct t; [rewrite Forall_forall in Hb; by apply Hb|rewrite Forall_forall in Hs; by apply Hs].
Qed.

Lemma contains_order_no_false_iff book no :
  contains_order_no book no = false ↔ no ∉ numbers (buys book) ∧ no ∉ numbers (sells book).
Proof.
  rewrite <- not_true_iff_false, contains_order_no_iff, elem_of_app. tauto.
Qed.

(** The number of a taker withdrawn from its side is nowhere in the book. *)
Lemma gone_everywhere t n book book' :
  contains_order_no book n = false →
  n ∉ numbers (orders t book') → descends (orders (opposite t) book) (orders (opposite t) book') →
  contains_order_no book' n = false.
Proof.
  intros [Hb Hs]%contains_order_no_false_iff Hg Hd. apply contains_order_no_false_iff.
  assert (Hopp : n ∉ numbers (orders (opposite t) book')).
  { intros (x & -> & (y & Hy & Hsame)%Hd)%list_elem_of_fmap.
    destruct Hsame as (Heq & _). rewrite <- Heq in *.
    destruct t; cbn in Hy; [apply Hs|apply Hb]; by apply list_elem_of_fmap_2. }
  by destruct t.
Qed.

(** What stood in the way of a market order still does once the order is withdrawn. *)
Lemma market_reason_withdrawn t n reason room fills mid m1 x m2 :
  orders t mid = m1 ++ x :: m2 → trust_order_no x = n →
  market_reason t n reason room fills mid → market_reason t n reason room fills (with_orders t (m1 ++ m2) mid).
Proof.
  intros Hm Hn [Hg|[[-> Hemp]|[-> Hb]]]; [by left|right; left|right; right]; (split; [done|]); autorewrite with bookdb; [done|].
  destruct Hb as [(y & l & Hy & Hform & Hne)|(-> & mk & l & Hmk & Hform)]; [left|right; split; [done|]; by exists mk, l].
  rewrite Hm in Hy. destruct m1 as [|z m1]; [by simplify_eq/=|]. injection Hy as -> _. exists y, (m1 ++ m2). by split_and!.
Qed.

(** A market order that is left in the book has not traded. *)
Lemma market_rests_untouched t book o l1 l2 fills mid :
  order_form o = ORDER_FORM_MARKET_PRICE → trust_order_no o ∉ numbers (l1 ++ l2) →
  trades t (taker_is t (trust_order_no o)) (with_orders t (l1 ++ o :: l2) book) fills mid →
  (∀ x l, orders t mid = x :: l → order_form x ≠ ORDER_FORM_MARKET_PRICE) →
  trust_order_no o ∈ numbers (orders t mid) → fills = [] ∧ ∃ x l, l1 = x :: l ∧ order_form x ≠ ORDER_FORM_MARKET_PRICE.
Proof.
  intros Hform Hno Hts Hhead Hin. assert (Hl1 : l1 ≠ []).
  { intros ->. destruct (trades_front t _ o l2 _ _ _ Hts eq_refl Hno) as [(x & Hx & Hs)|Hgone].
    - left. exists o. autorewrite with bookdb. split; [done|apply same_order_refl].
    - apply (Hhead x l2 Hx). destruct Hs as (_ & _ & _ & _ & _ & Hf & _). congruence.
    - apply Hno. cbn. by rewrite <- Hgone. }
  destruct l1 as [|x l1]; [done|]. inversion Hts as [|b s bs ss ev evs book' book'' Hg]; simplify_eq.
  - split; [done|]. exists x, l1. split; [done|]. apply (Hhead x (l1 ++ o :: l2)). by autorewrite with bookdb.
  - exfalso. apply Hno. destruct book as [bl sl], t; cbn in *; simplify_eq; unfold taker_is in Hg; rewrite <- Hg; by left.
Qed.

(** What becomes of a market order. *)
Lemma market_outcome t book o l1 l2 fills mid rev book' :
  quantities_ok book → quantity_ok o → order_form o = ORDER_FORM_MARKET_PRICE →
  contains_order_no book (trust_order_no o) = false → orders t book = l1 ++ l2 →
  book_ok (with_orders t (l1 ++ entered t o :: l2) book) →
  trades t (taker_is t (trust_order_no o)) (with_orders t (l1 ++ entered t o :: l2) book) fills mid →
  ((∃ reason, withdrawn t (trust_order_no o) reason mid rev book' ∧ market_reason t (trust_order_no o) reason (gear_of o) fills mid)
   ∨ (rev = [] ∧ book' = mid ∧ ∀ x l, orders t mid = x :: l → order_form x ≠ ORDER_FORM_MARKET_PRICE)) →
  orders (opposite t) book' = orders (opposite t) mid
  ∧ ((rev = [] ∧ (traded fills == ⟦remaining o⟧)%Q ∧ contains_order_no book' (trust_order_no o) = false ∧ orders t book' = orders t book)
     ∨ (∃ left reason, rev = [Revoke (trust_order_no o) (symbol_key o) (dec_str left) reason]
          ∧ (0 < ⟦left⟧)%Q ∧ (traded fills + ⟦left⟧ == ⟦remaining o⟧)%Q
          ∧ contains_order_no book' (trust_order_no o) = false ∧ orders t book' = orders t book
          ∧ market_reason t (trust_order_no o) reason (gear_of o) fills book')
     ∨ (rev = [] ∧ fills = [] ∧ contains_order_no book' (trust_order_no o) = true
        ∧ (∃ x l, orders t book = x :: l ∧ order_form x ≠ ORDER_FORM_MARKET_PRICE)
        ∧ ¬ Forall (before t (entered t o)) (orders t book))).
Proof.
  intros Hqs Hq Hform Hno Hl Hok Hts Hw. pose proof (trades_is_taken_by _ _ _ _ _ Hts) as Htk.
  assert (Hokm : book_ok mid) by (by eapply trades_ok).
  destruct (entered_same t o) as (Hen & Hes & Hef & Her & Hern). rewrite <- Hen in *.
  assert (Hnl : trust_order_no (entered t o) ∉ numbers (l1 ++ l2)) by (rewrite <- Hl; by apply contains_order_no_false).
  destruct (taker_share t _ book (entered t o) l1 l2 fills mid Hnl Hts Htk) as [Hfilled Hrest].
  assert (Hgone : ∀ b, orders (opposite t) b = orders (opposite t) mid → trust_order_no (entered t o) ∉ numbers (orders t b) →
            contains_order_no b (trust_order_no (entered t o)) = false).
  { intros b Hb Hn. eapply (gone_everywhere t _ book); [done..|]. rewrite Hb.
    pose proof (trades_descend _ _ _ _ _ (opposite t) Hts) as Hd. by autorewrite with bookdb in Hd. }
  assert (Hdone : trust_order_no (entered t o) ∉ numbers (orders t mid) → (traded fills == ⟦remaining o⟧)%Q
            ∧ contains_order_no mid (trust_order_no (entered t o)) = false ∧ orders t mid = orders t book).
  { intros Hn. destruct (Hfilled Hn) as [Ho Ht]. rewrite Her in Ht. rewrite Hl. split_and!; [done|by apply Hgone|done]. }
  destruct Hw as [(reason & Hw & Hwhy)|(-> & -> & Hhead)].
  - pose proof (withdrawn_gone _ _ _ _ _ _ Hw Hokm) as Hg.
    destruct Hw as [(m1 & x & m2 & Hm & Hn & -> & ->)|(Hnot & -> & ->)]; [|split; [done|left; split; [done|by apply Hdone]]].
    autorewrite with bookdb in Hg. destruct (Hrest m1 x m2 Hm Hn Hg) as [Hside Hsum].
    assert (Hx : x ∈ orders t mid) by (rewrite Hm; set_solver).
    destruct (trades_taker_origin _ _ _ _ _ _ _ _ _ Hok Hts Hx Hn) as (_ & _ & _ & _ & Hsy & _).
    split; [by autorewrite with bookdb|]. right; left. exists (remaining x), reason.
    rewrite <- Hes, Hsy. split_and!; [done| |by rewrite <- Her| | |by eapply market_reason_withdrawn].
    + eapply left_positive; [exact Hqs| |exact Hl|exact Hts|exact Hx]. unfold quantity_ok. by rewrite Her, Hern.
    + apply Hgone; by autorewrite with bookdb.
    + autorewrite with bookdb. congruence.
  - split; [done|]. destruct (decide (trust_order_no (entered t o) ∈ numbers (orders t mid))) as [Hin|Hn]; [right; right|left; split; [done|by apply Hdone]].
    assert (Hfe : order_form (entered t o) = ORDER_FORM_MARKET_PRICE) by congruence.
    destruct (market_rests_untouched _ _ _ _ _ _ _ Hfe Hnl Hts Hhead Hin) as (-> & x & l & -> & Hx). split_and!; [done|done| | |].
    + apply contains_order_no_iff, elem_of_app. destruct t; [by left|by right].
    + by exists x, (l ++ l2).
    + rewrite Hl. intros [Hb _]%Forall_cons. apply (book_ok_side t) in Hok. autorewrite with bookdb in Hok.
      apply side_ok_cons in Hok as (Hb' & _). rewrite Forall_app, Forall_cons in Hb'. destruct Hb' as (_ & Hb' & _). by apply (before_asymm _ _ _ Hb).
Qed.

End Facts.
