(* ===== verification/CoreDepth.v ===== *)
(** * match-core: correctness of the depth aggregation

    [depth_levels_from_orders] ([depth.rs]) folds the resting orders of a side,
    best first, into price levels.  On a sorted side the result is the [limit]
    best prices of the side, strictly ordered, each with the total remaining
    quantity of its orders. *)
From S2P Require Import Prelude Decimal Protocol CoreBook CoreMatch CoreSpec.
From Stdlib Require Import QArith Lqa Sorted.

From stdpp Require Import sorting.

#[local] Open Scope Z_scope.

Section Depth.
Context `{BDS : BigDecimalSpec}.
Implicit Types (o x : BbOrder) (s : Side) (l : list BbOrder) (levels : list (bd * bd)).

(** Quantity resting at price [p]. *)
Definition total_at (p : bd) (l : list BbOrder) : Q :=
  foldr (λ o acc, (if (trust_price o =? p)%bd then ⟦remaining_number o⟧ else 0) + acc)%Q 0%Q l.

(** The levels of the orders [l]. *)
Definition levels_of (s : Side) (limit : nat) (l : list BbOrder) (levels : list (bd * bd)) : Prop :=
  (length levels ≤ limit)%nat
  ∧ StronglySorted (better s) levels.*1
  ∧ Forall (λ pq, ⟦pq.2⟧ == total_at pq.1 l)%Q levels
  ∧ ∀ o, o ∈ l → (∃ pq, pq ∈ levels ∧ bd_eq pq.1 (trust_price o))
                 ∨ (length levels = limit ∧ Forall (λ pq, better s pq.1 (trust_price o)) levels).

Lemma total_at_snoc p l x :
  (total_at p (l ++ [x]) == total_at p l + (if (trust_price x =? p)%bd then ⟦remaining_number x⟧ else 0))%Q.
Proof.
  unfold total_at. induction l as [|o l IH]; simpl; [ring|]. rewrite IH. ring.
Qed.

Lemma total_at_better s p l x :
  (better s p (trust_price x) ∨ better s (trust_price x) p) →
  (total_at p (l ++ [x]) == total_at p l)%Q.
Proof.
  intros Hb. rewrite total_at_snoc. destruct (trust_price x =? p)%bd eqn:E; [|ring].
  bdb. unfold better, bd_eq in *. destruct s, Hb; lra.
Qed.

(** Prices of the orders seen so far are no worse than the next one. *)
Lemma side_ok_snoc_price s l x o :
  side_ok s (l ++ [x]) → o ∈ l → better s (trust_price o) (trust_price x) ∨ bd_eq (trust_price o) (trust_price x).
Proof.
  intros (_ & _ & Hb & _)%side_ok_app Ho. specialize (Hb o x Ho ltac:(set_solver)).
  unfold before in Hb. tauto.
Qed.

Lemma total_at_absent p l :
  (∀ o, o ∈ l → ¬ bd_eq (trust_price o) p) → (total_at p l == 0)%Q.
Proof.
  intros Hl. induction l as [|o l IH]; simpl; [reflexivity|].
  rewrite IH by (intros; apply Hl; by right). specialize (Hl o ltac:(by left)).
  destruct (trust_price o =? p)%bd eqn:E; [|ring]. bdb. done.
Qed.

(** The fold's invariant: the levels of what was read, at prices that were read. *)
Definition levels_inv s limit l levels : Prop :=
  levels_of s limit l levels ∧ ∀ pq, pq ∈ levels → ∃ o, o ∈ l ∧ pq.1 = trust_price o.

(** A level after the order [x] at the price of the last level. *)
Lemma levels_merge s limit l x lp lq levels :
  side_ok s (l ++ [x]) → bd_eq lp (trust_price x) →
  levels_inv s limit l (levels ++ [(lp, lq)]) →
  levels_inv s limit (l ++ [x]) (levels ++ [(lp, (lq + remaining_number x)%bd)]).
Proof.
  intros Hok Hp [(Hlen & Hsort & Htot & Hall) Hsrc].
  rewrite length_app in *. rewrite fmap_app in *.
  apply Forall_app in Htot as [Htot [Hlast _]%Forall_cons]. cbn in Hlast.
  assert (Hbet : ∀ pq, pq ∈ levels → better s pq.1 (trust_price x)).
  { intros pq Hpq. apply StronglySorted_app in Hsort as (Hb & _ & _).
    specialize (Hb pq.1 lp (list_elem_of_fmap_2 _ _ _ Hpq) ltac:(set_solver)).
    unfold better, bd_eq in *. destruct s; lra. }
  split; [split_and!|].
  - rewrite length_app. cbn in *. lia.
  - rewrite fmap_app. exact Hsort.
  - apply Forall_app. split; [|constructor; [|done]].
    + rewrite Forall_forall in *. intros pq Hpq.
      rewrite (total_at_better s) by (left; by apply Hbet). by apply Htot.
    + cbn. rewrite total_at_snoc, bd_val_add, Hlast.
      destruct (trust_price x =? lp)%bd eqn:E; [reflexivity|]. bdb. by symmetry in Hp.
  - intros o [Ho|Ho]%elem_of_app.
    + destruct (Hall o Ho) as [(pq & [Hpq|Hpq]%elem_of_app & Heq)|(Hl & Hf)].
      * left. exists pq. split; [apply elem_of_app; by left|done].
      * left. apply list_elem_of_singleton in Hpq as ->.
        exists (lp, (lq + remaining_number x)%bd). split; [apply elem_of_app; right; by left|done].
      * right. rewrite Forall_app in *. rewrite length_app. split; [done|]. split; [apply Hf|].
        destruct Hf as [_ [Hf _]%Forall_cons]. by constructor.
    + left. apply list_elem_of_singleton in Ho as ->.
      exists (lp, (lq + remaining_number x)%bd). split; [apply elem_of_app; right; by left|done].
  - intros pq Hpq.
    assert (∃ o, o ∈ l ∧ pq.1 = trust_price o) as (o & ? & ?).
    { apply elem_of_app in Hpq as [Hpq|Hpq].
      - apply Hsrc, elem_of_app. by left.
      - apply list_elem_of_singleton in Hpq as ->. apply (Hsrc (lp, lq)), elem_of_app. right. by left. }
    exists o. split; [apply elem_of_app; by left|done].
Qed.

(** An order worse than every level so far. *)
Lemma levels_push s limit l x levels :
  side_ok s (l ++ [x]) → (0 < limit)%nat →
  (∀ pq, pq ∈ levels → better s pq.1 (trust_price x)) →
  levels_inv s limit l levels →
  levels_inv s limit (l ++ [x])
    (if (length levels <? limit)%nat then levels ++ [(trust_price x, remaining_number x)] else levels).
Proof.
  intros Hok Hlim Hbet [(Hlen & Hsort & Htot & Hall) Hsrc].
  assert (Htot' : Forall (λ pq, ⟦pq.2⟧ == total_at pq.1 (l ++ [x]))%Q levels).
  { rewrite Forall_forall in *. intros pq Hpq.
    rewrite (total_at_better s) by (left; by apply Hbet). by apply Htot. }
  assert (Hsrc' : ∀ pq, pq ∈ levels → ∃ o, o ∈ l ++ [x] ∧ pq.1 = trust_price o).
  { intros pq (o & ? & ?)%Hsrc. exists o. split; [apply elem_of_app; by left|done]. }
  destruct (length levels <? limit)%nat eqn:E; zb.
  - split; [split_and!|].
    + rewrite length_app. cbn. lia.
    + rewrite fmap_app. apply StronglySorted_app. split_and!; [|done|repeat constructor].
      intros p q (pq & -> & Hpq)%list_elem_of_fmap Hq. apply list_elem_of_singleton in Hq as ->.
      by apply Hbet.
    + apply Forall_app. split; [done|]. constructor; [|done]. cbn [fst snd].
      rewrite total_at_snoc, total_at_absent.
      * destruct (trust_price x =? trust_price x)%bd eqn:E'; [ring|]. bdb. by destruct E'.
      * intros o Ho Heq. destruct (Hall o Ho) as [(pq & Hpq & Hp)|[? _]]; [|lia].
        specialize (Hbet pq Hpq). unfold better, bd_eq in *. destruct s; lra.
    + intros o [Ho|Ho]%elem_of_app.
      * destruct (Hall o Ho) as [(pq & Hpq & Hp)|[? _]]; [|lia].
        left. exists pq. split; [apply elem_of_app; by left|done].
      * apply list_elem_of_singleton in Ho as ->. left. eexists (_, _).
        split; [apply elem_of_app; right; by left|]. done.
    + intros pq [Hpq|Hpq]%elem_of_app; [by apply Hsrc'|].
      apply list_elem_of_singleton in Hpq as ->. exists x. split; [apply elem_of_app; right; by left|done].
  - split; [split_and!; try done|done]. intros o [Ho|Ho]%elem_of_app; [by apply Hall|].
    apply list_elem_of_singleton in Ho as ->. right. split; [lia|]. by apply Forall_forall.
Qed.

Lemma push_depth_level_inv s limit l x levels :
  side_ok s (l ++ [x]) → (0 < limit)%nat → levels_inv s limit l levels →
  levels_inv s limit (l ++ [x]) (push_depth_level levels limit (trust_price x) (remaining_number x)).
Proof.
  intros Hok Hlim Hinv. unfold push_depth_level.
  destruct (last levels) as [[lp lq]|] eqn:El.
  - apply last_Some in El as [ls ->]. destruct (lp =? trust_price x)%bd eqn:Ep; bdb.
    + rewrite length_app, Nat.add_sub, take_app_length. by apply levels_merge.
    + apply levels_push; try done. intros pq Hpq.
      destruct Hinv as [(_ & Hsort & _ & _) Hsrc].
      assert (Hlp : better s lp (trust_price x)).
      { destruct (Hsrc (lp, lq)) as (o & Ho & Heq); [apply elem_of_app; right; by left|]. cbn in Heq.
        destruct (side_ok_snoc_price s l x o Hok Ho) as [?|?]; congruence. }
      apply elem_of_app in Hpq as [Hpq|Hpq]; [|by apply list_elem_of_singleton in Hpq as ->].
      rewrite fmap_app in Hsort. apply StronglySorted_app in Hsort as (Hb & _ & _).
      specialize (Hb pq.1 lp (list_elem_of_fmap_2 _ _ _ Hpq) ltac:(by left)).
      unfold better in *. destruct s; lra.
  - apply last_None in El as ->. apply levels_push; try done. intros pq Hpq. by apply elem_of_nil in Hpq.
Qed.

Lemma depth_levels_inv s limit l :
  side_ok s l → (0 < limit)%nat → Forall (λ o, 0 < ⟦remaining_number o⟧)%Q l →
  levels_inv s limit l (depth_levels_from_orders l limit).
Proof.
  intros Hok Hlim Hpos. unfold depth_levels_from_orders.
  rewrite (proj2 (Nat.eqb_neq limit 0)) by lia.
  induction l as [|x l IH] using rev_ind; cbn [foldl].
  - split; [split_and!|]; [cbn; lia|constructor|constructor| |]; intros ? ?%elem_of_nil; done.
  - rewrite foldl_app. cbn [foldl]. apply Forall_app in Hpos as [Hpos [Hx _]%Forall_cons].
    destruct (remaining_number x <=? bd_zero)%bd eqn:E; [bdb; cbn in Hx; bdlra|].
    apply push_depth_level_inv; try done. apply IH; [|done].
    eapply side_ok_sublist; [|exact Hok]. by apply sublist_inserts_r.
Qed.

End Depth.
