(* ===== verification/CoreProps.v ===== *)
(** * match-core: the properties

    The theorems about [Engine::on_order], with the concrete decimals of
    [Decimal.SciDecimal] and small books as witnesses. *)
From stdpp Require Import gmap.
From S2P Require Import Prelude Decimal Protocol CoreBook CoreMatch CoreSpec CoreLimit CoreFok CoreHeight CoreMarket CoreEngine CoreDepth.
From Stdlib Require Import QArith Lqa Sorted.

#[local] Open Scope Z_scope.

(** ** Concrete books for the witnesses *)
Module Demo.
Import SciDecimal.

(** Two asks, 2@100 and 3@101, and a bid, 4@99. *)
Definition demo_orders : list BbOrder :=
  [test_limit Sell (d 100) "s1" 1 (d 2); test_limit Sell (d 101) "s2" 2 (d 3);
   test_limit Buy (d 99) "b1" 3 (d 4)].

Definition demo : Engine :=
  match run engine_new demo_orders with Some (_, e) => e | None => engine_new end.

Lemma test_limit_valid sd p n t q : (0 < q)%Z → order_valid (test_limit sd (d p) n t (d q)).
Proof.
  intros Hq _. unfold quantity_ok, remaining, bd_eq. cbn.
  unfold value, sub, rescale, Qlt, Qeq. cbn. lia.
Qed.

Lemma demo_orders_valid : Forall order_valid demo_orders.
Proof. repeat constructor; by apply test_limit_valid. Qed.

Lemma demo_ok : engine_ok demo.
Proof.
  unfold demo. destruct (run_inv engine_new demo_orders engine_new_ok demo_orders_valid)
    as (evs & e & -> & He). exact He.
Qed.

Lemma quantity_ok_test sd p n t q form g :
  (0 < q)%Z → quantity_ok (with_form form g (test_limit sd (d p) n t (d q))).
Proof. intros Hq. by apply (test_limit_valid sd p n t q Hq). Qed.

End Demo.

Section Props.
Context `{BDS : BigDecimalSpec}.
Implicit Types (o : BbOrder) (e : Engine) (t : Side).

(** C1.  From an empty engine, any stream of orders that have a quantity is
    accepted: no loop of any handler fails to end and, after the whole stream,
    in every book both sides are sorted by price-time priority, order numbers
    are unique, the best bid is below the best ask, every resting order has a
    positive remainder that agrees with its cached one, and no IOC or FOK
    order rests. *)
Theorem engine_stream_invariant (l : list BbOrder) (Hl : Forall order_valid l) :
  ∃ evs e, run engine_new l = Some (evs, e) ∧ engine_ok e.
Proof. apply run_inv; [apply engine_new_ok|done]. Qed.

(** C2.  [on_order] refines the abstract contract.  A new order with a known
    side is inserted at its priority; the events are a run of trades of
    [CoreSpec.trades] in which it is always the taker, each between the two
    best orders, at the maker's price, for the smaller remainder; then it
    rests or is withdrawn, the book is uncrossed, IOC and FOK orders are gone,
    and the books of other symbols are untouched. *)
Theorem on_order_refines_contract e o t
    (He : engine_ok e) (Hnew : is_revoke o = false) (Hq : quantity_ok o)
    (Hside : from_order_type (order_type o) = Some t)
    (Hno : contains_order_no (book_of e (symbol_key o)) (trust_order_no o) = false) :
  ∃ evs e', on_order e o = Some (evs, e')
    ∧ settled t o (book_of e (symbol_key o)) evs (book_of e' (symbol_key o))
    ∧ (∀ sym, sym ≠ symbol_key o → e' !! sym = e !! sym).
Proof.
  destruct (on_book_settles (symbol_key o) (book_of e (symbol_key o)) o t)
    as (evs & book' & Hon & Hs); try done; [by apply book_of_inv|].
  destruct (on_order_of_book e o evs book' Hon) as (e' & Ho & Hb). exists evs, e'. rewrite Hb.
  split_and!; try done. by destruct (on_order_book e o evs e' Ho) as (_ & _ & _ & ?).
Qed.

(** C3.  A fill-or-kill order is filled whole or not at all.  When the makers it
    reaches hold enough, it trades exactly its quantity and its own side is
    left as it was; when they do not, the whole book is exactly what it was
    before the order and the only event is its revocation. *)
Theorem fok_all_or_nothing e o t
    (He : engine_ok e) (Hnew : is_revoke o = false) (Hq : quantity_ok o)
    (Hform : order_form o = ORDER_FORM_FOK) (Hside : from_order_type (order_type o) = Some t)
    (Hno : contains_order_no (book_of e (symbol_key o)) (trust_order_no o) = false) :
  let book := book_of e (symbol_key o) in
  let avail := available t (trust_price o) (orders (opposite t) book) in
  ∃ evs e', on_order e o = Some (evs, e') ∧
  let book' := book_of e' (symbol_key o) in
  ((⟦remaining o⟧ <= avail)%Q ∧ (traded evs == ⟦remaining o⟧)%Q ∧ orders t book' = orders t book
   ∧ Forall (taken_by (trust_order_no o)) evs)
  ∨ ((avail < ⟦remaining o⟧)%Q ∧ book' = book
     ∧ ∃ rem, evs = [Revoke (trust_order_no o) (symbol_key o) rem "fok_fail"]).
Proof.
  intros book avail. subst avail. pose proof (book_of_inv e (symbol_key o) He) as Hinv. fold book in Hinv, Hno.
  pose proof (book_inv_quantities _ _ Hinv) as Hqs. destruct Hinv as (Hok & Hu & _).
  assert (Hon : on_book book o = handle_height t book o).
  { unfold on_book. rewrite Hnew, Hno, Hside, Hform. cbn. by destruct t. }
  destruct (handle_height_fok t book o) as [(ts & evs & book' & Hl & Hav & _ & Hh & Hts & Hts')
    |(rem & Hav & Hh)]; try done; [by apply Hq| |]; rewrite Hh in Hon;
    destruct (on_order_of_book e o _ _ Hon) as (e' & Ho & Hb); eexists _, e'; (split; [exact Ho|]);
    cbv zeta; rewrite Hb.
  - left. split_and!; try done; [|congruence|].
    + pose proof (trades_conserve _ _ _ _ _ t Hts) as Hc. unfold open_qty in Hc.
      autorewrite with bookdb in Hc. rewrite Hts', total_cons in Hc. lra.
    + eapply trades_taken_by; [exact Hts|].
      by apply (clear_except_insert t o book [] ts).
  - right. split_and!; try done. by exists rem.
Qed.

(** C4.  Quantity is neither created nor lost.  What the makers' side gives up is
    what the fill events report, for every order.  Unless the order is fill-or-kill,
    what the taker brings plus what rested on its side is what rests there
    afterwards plus what was traded plus what the revoke event hands back.  A
    fill-or-kill order leaves its side as it was and trades its whole quantity or
    none of it; what its revoke event reports is not covered. *)
Theorem on_order_conserves e o t
    (He : engine_ok e) (Hnew : is_revoke o = false) (Hq : quantity_ok o)
    (Hside : from_order_type (order_type o) = Some t)
    (Hno : contains_order_no (book_of e (symbol_key o)) (trust_order_no o) = false) :
  let book := book_of e (symbol_key o) in
  ∃ evs e', on_order e o = Some (evs, e') ∧
  let book' := book_of e' (symbol_key o) in
  (open_qty (opposite t) book' + traded evs == open_qty (opposite t) book)%Q
  ∧ (order_form o ≠ ORDER_FORM_FOK →
     (open_qty t book' + traded evs + revoked evs == open_qty t book + ⟦remaining o⟧)%Q)
  ∧ (order_form o = ORDER_FORM_FOK →
     orders t book' = orders t book ∧ ((traded evs == ⟦remaining o⟧)%Q ∨ (traded evs == 0)%Q)).
Proof.
  intros book. pose proof (book_of_inv e (symbol_key o) He) as Hinv. fold book in Hinv, Hno.
  destruct (on_book_settles (symbol_key o) book o t) as (evs & book' & Hon & Hs); try done.
  destruct (on_order_of_book e o evs book' Hon) as (e' & Ho & Hb). exists evs, e'. rewrite Hb.
  destruct (settled_conserves _ _ _ _ _ Hs) as [H1 H2]. split; [done|]. cbv zeta. split; [done|]. split; [done|]. intros Hform.
  pose proof (book_inv_quantities _ _ Hinv) as Hqs. destruct Hinv as (Hok & Hu & _).
  assert (on_book book o = handle_height t book o) as Hh by (unfold on_book; rewrite Hnew, Hno, Hside, Hform; cbn; by destruct t).
  destruct (handle_height_fok t book o) as [(ts & evs' & book'' & Hl & _ & _ & Hf & Hts & Hts')|(rem & _ & Hf)]; try done; [by apply Hq| |];
    rewrite Hh, Hf in Hon; injection Hon as <- <-.
  - split; [congruence|]. left. pose proof (trades_conserve _ _ _ _ _ t Hts) as Hc. unfold open_qty in Hc. autorewrite with bookdb in Hc. rewrite Hts', total_cons in Hc. lra.
  - split; [done|]. right. cbn. lra.
Qed.

(** C5.  Price-time priority and price improvement.  The makers' side is eaten
    from its best order on: what is left is a suffix of it whose first order
    may be reduced; and every fill of an order with a limit price is at that
    price or better. *)
Theorem makers_taken_in_priority e o t
    (He : engine_ok e) (Hnew : is_revoke o = false) (Hq : quantity_ok o)
    (Hform : order_form o ≠ ORDER_FORM_MARKET_PRICE)
    (Hside : from_order_type (order_type o) = Some t)
    (Hno : contains_order_no (book_of e (symbol_key o)) (trust_order_no o) = false) :
  ∃ evs e', on_order e o = Some (evs, e')
    ∧ eaten (orders (opposite t) (book_of e (symbol_key o)))
            (orders (opposite t) (book_of e' (symbol_key o)))
    ∧ Forall (price_within t (trust_price o)) evs.
Proof.
  destruct (on_book_settles (symbol_key o) (book_of e (symbol_key o)) o t)
    as (evs & book' & Hon & Hs); try done; [by apply book_of_inv|].
  destruct (on_order_of_book e o evs book' Hon) as (e' & Ho & Hb). exists evs, e'. rewrite Hb.
  split_and!; [done|by eapply settled_eaten|by eapply settled_prices].
Qed.

(** C7.  An immediate-or-cancel order trades with every maker it reaches and is then
    withdrawn.  It takes the makers from the best on, at its limit or better, and
    leaves its own side as it was.  Either it is filled: the fills make up its
    quantity and nothing is handed back; or its revoke event hands back exactly the
    rest, which is positive, and then no maker within its limit is left. *)
Theorem ioc_trades_then_cancels e o t
    (He : engine_ok e) (Hnew : is_revoke o = false) (Hq : quantity_ok o)
    (Hform : order_form o = ORDER_FORM_IOC) (Hside : from_order_type (order_type o) = Some t)
    (Hno : contains_order_no (book_of e (symbol_key o)) (trust_order_no o) = false) :
  let book := book_of e (symbol_key o) in
  ∃ fills rev e', on_order e o = Some (fills ++ rev, e') ∧
  let book' := book_of e' (symbol_key o) in
  Forall (taken_by (trust_order_no o)) fills ∧ Forall (price_within t (trust_price o)) fills
  ∧ contains_order_no book' (trust_order_no o) = false
  ∧ orders t book' = orders t book
  ∧ eaten (orders (opposite t) book) (orders (opposite t) book')
  ∧ (open_qty (opposite t) book' + traded fills == open_qty (opposite t) book)%Q
  ∧ ((rev = [] ∧ (traded fills == ⟦remaining o⟧)%Q)
     ∨ ∃ left, rev = [Revoke (trust_order_no o) (symbol_key o) (dec_str left) "ioc_remainder"]
         ∧ (0 < ⟦left⟧)%Q ∧ (traded fills + ⟦left⟧ == ⟦remaining o⟧)%Q
         ∧ ∀ mk, mk ∈ orders (opposite t) book' → ¬ reaches t o mk).
Proof.
  intros book. pose proof (book_of_inv e (symbol_key o) He) as Hinv. fold book in Hinv, Hno.
  pose proof (book_inv_no_fok _ _ Hinv) as Hf. pose proof (book_inv_quantities _ _ Hinv) as Hqs. destruct Hinv as (Hok & Hu & _).
  assert (Hon : on_book book o = handle_height t book o).
  { unfold on_book. rewrite Hnew, Hno, Hside, Hform. cbn. by destruct t. }
  destruct (handle_height_ioc t book o) as (l1 & l2 & Hl & Hok1 & Hce & Hr); try done.
  destruct Hr as (fills & mid & rev & book' & Hh & Hts & Hum & Hw). rewrite Hh in Hon.
  destruct (on_order_of_book e o _ _ Hon) as (e' & Ho & Hb). exists fills, rev, e'. split; [exact Ho|].
  cbv zeta. rewrite Hb. assert (Hokm : book_ok mid) by (by eapply trades_ok).
  assert (Htk : Forall (taken_by (trust_order_no o)) fills) by (by eapply trades_taken_by).
  pose proof (withdrawn_gone _ _ _ _ _ _ Hw Hokm) as Hgone.
  assert (Hnl : trust_order_no o ∉ numbers (l1 ++ l2)) by (rewrite <- Hl; by apply contains_order_no_false).
  destruct (taker_share t crosses book o l1 l2 fills mid Hnl Hts Htk) as [Hfilled Hrest].
  assert (Hopp : orders (opposite t) book' = orders (opposite t) mid).
  { destruct Hw as [(?&?&?&?&?&->&?)|(?&->&?)]; by autorewrite with bookdb. }
  split_and!; [done| | | | | |].
  - eapply trades_price_within; [exact Hts|exact Htk|]. intros x Hx Hn. autorewrite with bookdb in Hx.
    by rewrite (inserted_unique o l1 l2 x Hx Hn Hnl).
  - eapply (gone_everywhere t _ book); [done..|]. rewrite Hopp.
    pose proof (trades_descend _ _ _ _ _ (opposite t) Hts) as Hd. by autorewrite with bookdb in Hd.
  - rewrite (withdrawn_others _ _ _ _ _ _ Hw Hokm), (trades_others _ _ _ _ _ _ Hts Htk).
    autorewrite with bookdb. rewrite Hl. by apply others_insert.
  - rewrite Hopp. pose proof (trades_eaten _ _ _ _ _ (opposite t) Hts) as He'. by autorewrite with bookdb in He'.
  - pose proof (trades_conserve _ _ _ _ _ (opposite t) Hts) as Hc. unfold open_qty in *. autorewrite with bookdb in Hc. rewrite Hopp. lra.
  - destruct Hw as [(m1 & x & m2 & Hm & Hn & -> & ->)|(Hnot & -> & ->)]; [right|left; split; [done|by apply Hfilled]].
    autorewrite with bookdb in Hgone. destruct (Hrest m1 x m2 Hm Hn Hgone) as [_ Hsum].
    assert (Hx : x ∈ orders t mid) by (rewrite Hm; set_solver).
    assert (Hs : same_order o x) by (by eapply trades_taker_origin).
    destruct Hs as (_ & _ & Hp & _ & Hsy & _). rewrite Hsy. exists (remaining x). split; [done|]. split; [|split; [done|]].
    + exact (left_positive _ _ _ _ _ _ _ _ _ Hqs Hq Hl Hts Hx).
    + intros mk Hmk Hr. rewrite Hopp in Hmk. pose proof (uncrossed_clear mid Hokm Hum) as Hc.
      unfold reaches, crosses in Hr. rewrite Hp in Hr.
      destruct t; [specialize (Hc x mk Hx Hmk)|specialize (Hc mk x Hmk Hx)]; lra.
Qed.

(** C8.  A PostOnly order never trades.  It rests at its priority when it
    reaches no maker; otherwise it is revoked and the book is what it was. *)
Theorem post_only_never_takes e o t
    (He : engine_ok e) (Hnew : is_revoke o = false)
    (Hform : order_form o = ORDER_FORM_POST_ONLY) (Hside : from_order_type (order_type o) = Some t)
    (Hno : contains_order_no (book_of e (symbol_key o)) (trust_order_no o) = false) :
  let book := book_of e (symbol_key o) in
  ∃ evs e', on_order e o = Some (evs, e') ∧
  let book' := book_of e' (symbol_key o) in
  (evs = [] ∧ uncrossed book' ∧ ∃ l1 l2, orders t book = l1 ++ l2
     ∧ book' = with_orders t (l1 ++ o :: l2) book ∧ side_ok t (l1 ++ o :: l2))
  ∨ (evs = [Revoke (trust_order_no o) (symbol_key o) (dec_str (remaining o)) "post_only"]
     ∧ book' = book ∧ ∃ mk ms, orders (opposite t) book = mk :: ms ∧ reaches t o mk).
Proof.
  intros book. destruct (book_of_inv e (symbol_key o) He) as (Hok & Hu & _). fold book in Hok, Hu, Hno.
  assert (Hon : on_book book o = handle_height t book o).
  { unfold on_book. rewrite Hnew, Hno, Hside, Hform. cbn. by destruct t. }
  destruct (handle_height_post_only t book o) as (l1 & l2 & Hl & Hok1 & [[Hh Hu1]|[Hh Hm]]); try done;
    rewrite Hh in Hon; destruct (on_order_of_book e o _ _ Hon) as (e' & Ho & Hb);
    eexists _, e'; (split; [exact Ho|]); cbv zeta; rewrite Hb.
  - left. split_and!; try done. exists l1, l2. split_and!; try done.
    apply (book_ok_side t) in Hok1. by autorewrite with bookdb in Hok1.
  - by right.
Qed.

(** C9.  A market order makes at most [gear] fills, all as the taker, against the
    makers from the best on; its events are these fills and at most one revocation,
    of a reason that holds.  Either it is filled, or its revoke event hands back
    exactly the rest: because the fills are as many as the gear, because the other
    side is empty, or because another market order stands before it on its side or
    is the best ask of a market buy; in both cases its own side is left as it was.
    Or nothing happens but that it rests, behind an order that is not a market
    order; not so if it is best on its side when it enters. *)
Theorem market_order_bounded e o t
    (He : engine_ok e) (Hnew : is_revoke o = false) (Hq : quantity_ok o)
    (Hform : order_form o = ORDER_FORM_MARKET_PRICE) (Hside : from_order_type (order_type o) = Some t)
    (Hno : contains_order_no (book_of e (symbol_key o)) (trust_order_no o) = false) :
  let book := book_of e (symbol_key o) in
  ∃ fills rev e', on_order e o = Some (fills ++ rev, e') ∧
  let book' := book_of e' (symbol_key o) in
  Z.of_nat (length fills) <= gear_of o ∧ Forall (taken_by (trust_order_no o)) fills
  ∧ eaten (orders (opposite t) book) (orders (opposite t) book')
  ∧ (open_qty (opposite t) book' + traded fills == open_qty (opposite t) book)%Q
  ∧ ((rev = [] ∧ (traded fills == ⟦remaining o⟧)%Q ∧ contains_order_no book' (trust_order_no o) = false ∧ orders t book' = orders t book)
     ∨ (∃ left reason, rev = [Revoke (trust_order_no o) (symbol_key o) (dec_str left) reason]
          ∧ (0 < ⟦left⟧)%Q ∧ (traded fills + ⟦left⟧ == ⟦remaining o⟧)%Q
          ∧ contains_order_no book' (trust_order_no o) = false ∧ orders t book' = orders t book
          ∧ market_reason t (trust_order_no o) reason (gear_of o) fills book')
     ∨ (rev = [] ∧ fills = [] ∧ contains_order_no book' (trust_order_no o) = true
        ∧ (∃ x l, orders t book = x :: l ∧ order_form x ≠ ORDER_FORM_MARKET_PRICE)
        ∧ ¬ Forall (before t (entered t o)) (orders t book))).
Proof.
  intros book. pose proof (book_of_inv e (symbol_key o) He) as Hinv. fold book in Hinv, Hno.
  pose proof (book_inv_no_fok _ _ Hinv) as Hf. pose proof (book_inv_quantities _ _ Hinv) as Hqs. destruct Hinv as (Hok & Hu & _).
  assert (Hon : on_book book o = handle_market t book o).
  { unfold on_book. rewrite Hnew, Hno, Hside, Hform. cbn. by destruct t. }
  destruct (handle_market_result t book o) as (l1 & l2 & Hl & Hok1 & Hce & Hr); try done.
  destruct Hr as (fills & mid & rev & book' & Hh & Hts & Hlen & Hw). rewrite Hh in Hon.
  destruct (on_order_of_book e o _ _ Hon) as (e' & Ho & Hb). exists fills, rev, e'. split; [exact Ho|].
  cbv zeta. rewrite Hb. pose proof (trades_is_taken_by _ _ _ _ _ Hts) as Htk.
  destruct (market_outcome t book o l1 l2 fills mid rev book') as (Hopp & Hout); try done. split_and!; [done|done| | |exact Hout].
  - rewrite Hopp. pose proof (trades_eaten _ _ _ _ _ (opposite t) Hts) as He'. by autorewrite with bookdb in He'.
  - pose proof (trades_conserve _ _ _ _ _ (opposite t) Hts) as Hc. unfold open_qty in *. autorewrite with bookdb in Hc. rewrite Hopp. lra.
Qed.

(** A market order that enters its side behind a resting order which is not
    a market order is left in the book: no fill, no event, although the other
    side is not empty. *)
Theorem market_order_left_resting e o t x l
    (He : engine_ok e) (Hnew : is_revoke o = false)
    (Hform : order_form o = ORDER_FORM_MARKET_PRICE) (Hside : from_order_type (order_type o) = Some t)
    (Hno : contains_order_no (book_of e (symbol_key o)) (trust_order_no o) = false)
    (Hbest : orders t (book_of e (symbol_key o)) = x :: l)
    (Hx : order_form x ≠ ORDER_FORM_MARKET_PRICE) (Hbefore : before t x (entered t o))
    (Hopp : orders (opposite t) (book_of e (symbol_key o)) ≠ []) :
  ∃ e', on_order e o = Some ([], e')
    ∧ contains_order_no (book_of e' (symbol_key o)) (trust_order_no o) = true.
Proof.
  set (book := book_of e (symbol_key o)) in *. destruct (book_of_inv e (symbol_key o) He) as (Hok & Hu & _).
  destruct (handle_market_inserts t book o) as (l1 & l2 & Hl & Hok1 & Hh); try done.
  assert (Hl1 : ∃ l1', l1 = x :: l1').
  { destruct l1 as [|y l1]; cbn in Hl; [|exists l1; congruence]. exfalso.
    apply (book_ok_side t) in Hok1. autorewrite with bookdb in Hok1.
    apply side_ok_cons in Hok1 as (Hb & _). rewrite <- Hl, Hbest in Hb.
    apply Forall_cons in Hb as [Hb _]. by apply (before_asymm _ _ _ Hb). }
  destruct Hl1 as [l1' ->]. destruct (orders (opposite t) book) as [|mk ms] eqn:Em; [done|].
  destruct (market_loop_idle t (length (buys (with_orders t ((x :: l1') ++ entered t o :: l2) book))
     + length (sells (with_orders t ((x :: l1') ++ entered t o :: l2) book)))
     (with_orders t ((x :: l1') ++ entered t o :: l2) book) (trust_order_no o) (gear_of o) 0 [])
    as [_ Hidle].
  destruct (Hidle x (l1' ++ entered t o :: l2)) as [_ Hidle']; [by autorewrite with bookdb|].
  destruct (Hidle' mk ms) as [Hstop _]; [by autorewrite with bookdb|].
  assert (Hon : on_book book o = handle_market t book o).
  { unfold on_book. rewrite Hnew, Hno, Hside, Hform. cbn. by destruct t. }
  rewrite Hh in Hon. unfold loop_fuel in Hon. rewrite Hstop in Hon by done.
  destruct (on_order_of_book e o _ _ Hon) as (e' & Ho & Hb). exists e'. split; [exact Ho|].
  rewrite Hb. apply contains_order_no_iff, elem_of_app.
  destruct (entered_same t o) as (Hen & _). rewrite <- Hen.
  destruct t; [left|right]; apply list_elem_of_fmap_2; cbn; set_solver.
Qed.

(** C10.  A revoke request removes the order with that number from the side it
    names, and only that; the event reports its remainder.  If there is none,
    nothing changes and there is no event. *)
Theorem revoke_removes_exactly e o t
    (He : engine_ok e) (Hrev : is_revoke o = true) (Hside : from_order_type (order_type o) = Some t) :
  let book := book_of e (symbol_key o) in
  ∃ evs e', on_order e o = Some (evs, e') ∧
  let book' := book_of e' (symbol_key o) in
  (∃ l1 x l2, orders t book = l1 ++ x :: l2 ∧ trust_order_no x = trust_order_no o
     ∧ book' = with_orders t (l1 ++ l2) book
     ∧ evs = [Revoke (trust_order_no o) (symbol_key o) (dec_str (remaining x)) "user"])
  ∨ ((trust_order_no o ∉ numbers (orders t book)) ∧ book' = book ∧ evs = []).
Proof.
  intros book. destruct (book_of_inv e (symbol_key o) He) as (Hok & _ & Hr). fold book in Hok, Hr.
  assert (Hon : on_book book o = let '(ev, b) := revoke_order book o in
                  Some (match ev with Some ev => [ev] | None => [] end, b)).
  { unfold on_book. by rewrite Hrev. }
  unfold revoke_order, revoke_order_with_reason in Hon. rewrite Hside in Hon.
  destruct (remove_by_order_no_spec t (trust_order_no o) book (book_ok_side t book Hok))
    as [(l1 & x & l2 & Hl & Hn & Hrm)|(Hn & Hrm)]; rewrite Hrm in Hon;
    destruct (on_order_of_book e o _ _ Hon) as (e' & Ho & Hb); eexists _, e'; (split; [exact Ho|]);
    cbv zeta; rewrite Hb.
  - left. exists l1, x, l2. split_and!; try done. specialize (Hr t). rewrite Hl in Hr.
    apply Forall_app in Hr as [_ [(Hs & _) _]%Forall_cons]. by rewrite Hn, Hs.
  - by right.
Qed.

(** C11.  The depth of a side is its best [limit] prices, strictly ordered best
    first; each level carries the total remaining quantity of the orders at
    its price, and an order is missing only when [limit] better levels are
    shown. *)
Theorem depth_levels_correct e sym t (limit : nat) (He : engine_ok e) (Hlim : (0 < limit)%nat) :
  levels_of t limit (engine_resting_orders e sym t) (engine_depth_levels e sym t limit).
Proof.
  unfold engine_resting_orders, engine_depth_levels. destruct (e !! sym) as [book|] eqn:Eb.
  - pose proof (He sym book Eb) as (Hok & _ & Hr).
    apply (depth_levels_inv t limit (orders t book)); [by apply book_ok_side|done|].
    eapply Forall_impl; [exact (Hr t)|]. intros o (_ & _ & _ & Hpos & Heq). cbn.
    unfold bd_eq in Heq. lra.
  - split_and!; [cbn; lia|constructor|constructor|]. intros o Ho. by apply elem_of_nil in Ho.
Qed.

End Props.

(** ** Witnesses *)
Module Witness.
Import SciDecimal Demo.

(** A bid for 4 at 101 against the asks of [demo]. *)
Definition taker (form : Z) (g : option Z) : BbOrder :=
  with_form form g (test_limit Buy (d 101) "b9" 9 (d 4)).

Lemma taker_quantity form g : quantity_ok (taker form g).
Proof. by apply quantity_ok_test. Qed.

Lemma engine_stream_invariant_witness :
  ∃ evs e, run engine_new demo_orders = Some (evs, e) ∧ engine_ok e.
Proof. apply engine_stream_invariant. exact demo_orders_valid. Defined.

Lemma on_order_refines_contract_witness :
  ∃ evs e', on_order demo (taker 1 None) = Some (evs, e')
    ∧ settled Buy (taker 1 None) (book_of demo "btcusdt") evs (book_of e' "btcusdt")
    ∧ (∀ sym, sym ≠ "btcusdt"%string → e' !! sym = demo !! sym).
Proof.
  apply (on_order_refines_contract demo (taker 1 None) Buy);
    [exact demo_ok|reflexivity|apply taker_quantity|reflexivity|vm_compute; reflexivity].
Defined.

Lemma fok_all_or_nothing_witness :
  ∃ evs e', on_order demo (taker ORDER_FORM_FOK None) = Some (evs, e') ∧
  (((⟦remaining (taker ORDER_FORM_FOK None)⟧
       <= available Buy (d 101) (orders Sell (book_of demo "btcusdt")))%Q
    ∧ (traded evs == ⟦remaining (taker ORDER_FORM_FOK None)⟧)%Q
    ∧ orders Buy (book_of e' "btcusdt") = orders Buy (book_of demo "btcusdt")
    ∧ Forall (taken_by "b9") evs)
   ∨ ((available Buy (d 101) (orders Sell (book_of demo "btcusdt"))
         < ⟦remaining (taker ORDER_FORM_FOK None)⟧)%Q
      ∧ book_of e' "btcusdt" = book_of demo "btcusdt"
      ∧ ∃ rem, evs = [Revoke "b9" "btcusdt" rem "fok_fail"])).
Proof.
  apply (fok_all_or_nothing demo (taker ORDER_FORM_FOK None) Buy);
    [exact demo_ok|reflexivity|apply taker_quantity|reflexivity|reflexivity|vm_compute; reflexivity].
Defined.

Lemma on_order_conserves_witness :
  ∃ evs e', on_order demo (taker 1 None) = Some (evs, e') ∧
  (open_qty Sell (book_of e' "btcusdt") + traded evs == open_qty Sell (book_of demo "btcusdt"))%Q
  ∧ (open_qty Buy (book_of e' "btcusdt") + traded evs + revoked evs
     == open_qty Buy (book_of demo "btcusdt") + ⟦remaining (taker 1 None)⟧)%Q.
Proof.
  destruct (on_order_conserves demo (taker 1 None) Buy) as (evs & e' & Ho & H1 & H2 & _);
    [exact demo_ok|reflexivity|apply taker_quantity|reflexivity|vm_compute; reflexivity|].
  exists evs, e'. split_and!; [exact Ho|exact H1|apply H2; discriminate].
Defined.

Lemma makers_taken_in_priority_witness :
  ∃ evs e', on_order demo (taker 1 None) = Some (evs, e')
    ∧ eaten (orders Sell (book_of demo "btcusdt")) (orders Sell (book_of e' "btcusdt"))
    ∧ Forall (price_within Buy (d 101)) evs.
Proof.
  apply (makers_taken_in_priority demo (taker 1 None) Buy);
    [exact demo_ok|reflexivity|apply taker_quantity|discriminate|reflexivity|vm_compute; reflexivity].
Defined.

Lemma ioc_trades_then_cancels_witness :
  ∃ fills rev e', on_order demo (taker ORDER_FORM_IOC None) = Some (fills ++ rev, e') ∧
  Forall (taken_by "b9") fills ∧ Forall (price_within Buy (d 101)) fills
  ∧ contains_order_no (book_of e' "btcusdt") "b9" = false
  ∧ orders Buy (book_of e' "btcusdt") = orders Buy (book_of demo "btcusdt")
  ∧ eaten (orders Sell (book_of demo "btcusdt")) (orders Sell (book_of e' "btcusdt"))
  ∧ (open_qty Sell (book_of e' "btcusdt") + traded fills == open_qty Sell (book_of demo "btcusdt"))%Q
  ∧ ((rev = [] ∧ (traded fills == ⟦remaining (taker ORDER_FORM_IOC None)⟧)%Q)
     ∨ ∃ left, rev = [Revoke "b9" "btcusdt" (dec_str left) "ioc_remainder"]
         ∧ (0 < ⟦left⟧)%Q ∧ (traded fills + ⟦left⟧ == ⟦remaining (taker ORDER_FORM_IOC None)⟧)%Q
         ∧ ∀ mk, mk ∈ orders Sell (book_of e' "btcusdt") → ¬ reaches Buy (taker ORDER_FORM_IOC None) mk).
Proof.
  apply (ioc_trades_then_cancels demo (taker ORDER_FORM_IOC None) Buy);
    [exact demo_ok|reflexivity|apply taker_quantity|reflexivity|reflexivity|vm_compute; reflexivity].
Defined.

Lemma post_only_never_takes_witness :
  ∃ evs e', on_order demo (taker ORDER_FORM_POST_ONLY None) = Some (evs, e') ∧
  ((evs = [] ∧ uncrossed (book_of e' "btcusdt")
      ∧ ∃ l1 l2, orders Buy (book_of demo "btcusdt") = l1 ++ l2
        ∧ book_of e' "btcusdt"
          = with_orders Buy (l1 ++ taker ORDER_FORM_POST_ONLY None :: l2) (book_of demo "btcusdt")
        ∧ side_ok Buy (l1 ++ taker ORDER_FORM_POST_ONLY None :: l2))
   ∨ (evs = [Revoke "b9" "btcusdt" (dec_str (remaining (taker ORDER_FORM_POST_ONLY None))) "post_only"]
      ∧ book_of e' "btcusdt" = book_of demo "btcusdt"
      ∧ ∃ mk ms, orders Sell (book_of demo "btcusdt") = mk :: ms
          ∧ reaches Buy (taker ORDER_FORM_POST_ONLY None) mk)).
Proof.
  apply (post_only_never_takes demo (taker ORDER_FORM_POST_ONLY None) Buy);
    [exact demo_ok|reflexivity|reflexivity|reflexivity|vm_compute; reflexivity].
Defined.

Lemma market_order_bounded_witness :
  ∃ fills rev e', on_order demo (taker ORDER_FORM_MARKET_PRICE (Some 1)) = Some (fills ++ rev, e') ∧
  Z.of_nat (length fills) <= 1 ∧ Forall (taken_by "b9") fills
  ∧ eaten (orders Sell (book_of demo "btcusdt")) (orders Sell (book_of e' "btcusdt")).
Proof.
  destruct (market_order_bounded demo (taker ORDER_FORM_MARKET_PRICE (Some 1)) Buy) as (fills & rev & e' & Ho & Hlen & Htk & He & _);
    [exact demo_ok|reflexivity|apply taker_quantity|reflexivity|reflexivity|vm_compute; reflexivity|].
  exists fills, rev, e'. by split_and!.
Defined.

(** With a gear of 1 the bid for 4 takes the 2 of the best ask, and its other 2 are handed back. *)
Example market_gear_hands_back :
  (λ '(evs, e), (length evs, last evs, numbers (orders Buy (book_of e "btcusdt")))) <$> on_order demo (taker ORDER_FORM_MARKET_PRICE (Some 1))
  = Some (2%nat, Some (Revoke "b9" "btcusdt" (dec_str (d 2)) "market_gear"), ["b1"%string]).
Proof. vm_compute. reflexivity. Qed.

(** An immediate-or-cancel bid for 9 takes both asks and gets the other 4 back. *)
Example ioc_takes_all_asks :
  (λ '(evs, e), (length evs, last evs, numbers (orders Sell (book_of e "btcusdt"))))
    <$> on_order demo (with_form ORDER_FORM_IOC None (test_limit Buy (d 101) "b9" 9 (d 9)))
  = Some (3%nat, Some (Revoke "b9" "btcusdt" (dec_str (d 4)) "ioc_remainder"), []).
Proof. vm_compute. reflexivity. Qed.

(** A market sell whose price field is 200, behind the ask at 100. *)
Definition market_sell : BbOrder :=
  with_form ORDER_FORM_MARKET_PRICE (Some 1) (test_limit Sell (d 200) "s9" 9 (d 4)).

Lemma market_order_left_resting_witness :
  ∃ e', on_order demo market_sell = Some ([], e')
    ∧ contains_order_no (book_of e' "btcusdt") "s9" = true.
Proof.
  apply (market_order_left_resting demo market_sell Sell
           (test_limit Sell (d 100) "s1" 1 (d 2)) [test_limit Sell (d 101) "s2" 2 (d 3)]).
  - exact demo_ok.
  - reflexivity.
  - reflexivity.
  - reflexivity.
  - vm_compute. reflexivity.
  - reflexivity.
  - discriminate.
  - left. vm_compute. reflexivity.
  - discriminate.
Defined.

(** A request to revoke the ask [s1]. *)
Definition revoke_s1 : BbOrder :=
  set_order_status ORDER_STATUS_REVOKE (test_limit Sell (d 0) "s1" 0 (d 0)).

Lemma revoke_removes_exactly_witness :
  ∃ evs e', on_order demo revoke_s1 = Some (evs, e') ∧
  ((∃ l1 x l2, orders Sell (book_of demo "btcusdt") = l1 ++ x :: l2 ∧ trust_order_no x = "s1"%string
      ∧ book_of e' "btcusdt" = with_orders Sell (l1 ++ l2) (book_of demo "btcusdt")
      ∧ evs = [Revoke "s1" "btcusdt" (dec_str (remaining x)) "user"])
   ∨ (("s1"%string ∉ numbers (orders Sell (book_of demo "btcusdt")))
      ∧ book_of e' "btcusdt" = book_of demo "btcusdt" ∧ evs = [])).
Proof.
  apply (revoke_removes_exactly demo revoke_s1 Sell); [exact demo_ok|reflexivity|reflexivity].
Defined.

Lemma depth_levels_correct_witness :
  levels_of Sell 1 (engine_resting_orders demo "btcusdt" Sell)
    (engine_depth_levels demo "btcusdt" Sell 1).
Proof. apply depth_levels_correct; [exact demo_ok|lia]. Defined.

(** The revoke event of a fill-or-kill order that fails after a partial walk
    reports what was left after the fills that were rolled back: 4 out of 9
    here, although nothing was traded. *)
Example fok_fail_reports_reduced_remainder :
  fst <$> on_order demo (with_form ORDER_FORM_FOK None (test_limit Buy (d 101) "b9" 9 (d 9)))
  = Some [Revoke "b9" "btcusdt" (dec_str (d 4)) "fok_fail"].
Proof. vm_compute. reflexivity. Qed.

(** A fill-or-kill order that its last maker fills exactly is reported with
    status [SUCCESS_PART] although nothing of it is left. *)
Example fok_exact_walk_reports_partial :
  (λ r, last r.1) <$> on_order demo (with_form ORDER_FORM_FOK None (test_limit Buy (d 101) "b9" 9 (d 5)))
  = Some (Some (Fill "btcusdt" "b9" "s2" 1 1 (dec_str (d 101)) (dec_str (d 3)) (dec_str (d 0))
                  (dec_str (d 0)) ORDER_STATUS_SUCCESS_PART ORDER_STATUS_SUCCESS)).
Proof. vm_compute. reflexivity. Qed.

End Witness.
