(* ===== verification/ProtocolProps.v ===== *)
(** * match-protocol: validation and conversion

    What the engine may rely on once a wire message passed
    [check_mq_order] ([validate.rs]) and [type_convert] ([convert.rs]), and
    which validated messages convert. *)
From stdpp Require Import gmap.
From S2P Require Import Prelude Decimal Protocol CoreBook CoreMatch CoreSpec CoreMarket CoreEngine.
From Stdlib Require Import QArith Lqa.

#[local] Open Scope Z_scope.

Section Props.
Context `{BDS : BigDecimalSpec}.
Implicit Types (m : MqOrder) (o : BbOrder).

(** Case analysis on every test of a validation or conversion hypothesis. *)
Ltac split_checks H :=
  repeat match type of H with
  | context [match ?x with _ => _ end] => let E := fresh "E" in destruct x eqn:E; try discriminate H
  end.

Lemma contains_value_In l v : contains_value l v = true ↔ v ∈ l.
Proof.
  unfold contains_value. rewrite existsb_exists. split.
  - intros (x & Hx & ->%Z.eqb_eq). by apply list_elem_of_In.
  - intros Hx. exists v. split; [by apply list_elem_of_In|apply Z.eqb_refl].
Qed.

(** The facts [check_mq_order] establishes. *)
Lemma check_mq_order_facts m :
  check_mq_order m = true →
  (∃ s, mq_order_type m = Some s ∧ s ∈ ORDER_TYPES)
  ∧ (∃ f, mq_order_form m = Some f ∧ f ∈ ORDER_FORMS
       ∧ (f = ORDER_FORM_MARKET_PRICE → ∃ g, mq_gear m = Some g ∧ 1 <= g))
  ∧ (∃ st, mq_order_status m = Some st ∧ st ∈ ORDER_STATUS)
  ∧ (∃ ct, mq_create_time m = Some ct ∧ 0 < ct).
Proof.
  unfold check_mq_order. intros Hc. split_checks Hc.
  all: repeat match goal with H : negb _ = false |- _ => apply negb_false_iff in H end;
    repeat match goal with H : contains_value _ _ = true |- _ => apply contains_value_In in H end; zb.
  all: split_and!; eexists; split_and!; try reflexivity; try done.
  all: intros ->; match goal with Hg : (_ && _)%bool = false |- _ =>
    apply andb_false_iff in Hg as [Hg|Hg]; [done|]; destruct (mq_gear m) as [g|]; [|done];
    exists g; apply negb_false_iff in Hg; zb; done end.
Qed.

(** What a converted order carries over. *)
Lemma type_convert_facts m o :
  type_convert m = Some o →
  mq_order_type m = Some (order_type o) ∧ mq_order_form m = Some (order_form o)
  ∧ mq_gear m = gear o ∧ mq_order_status m = Some (order_status o)
  ∧ mq_create_time m = Some (create_time o)
  ∧ (0 < ⟦trust_number o⟧)%Q ∧ (0 < ⟦trust_price o⟧)%Q
  ∧ consumer_all_number o = bd_zero ∧ remaining_number o = trust_number o.
Proof.
  unfold type_convert. intros Hc.
  repeat match type of Hc with
  | (mbind _ ?x) = _ =>
      let E := fresh "E" in destruct x eqn:E; cbn [mbind option_bind] in Hc; try discriminate Hc
  | (if ?b then _ else _) = _ => let E := fresh "E" in destruct b eqn:E; try discriminate Hc
  end.
  injection Hc as <-. cbn. zb. bdb. rewrite bd_val_zero in *. split_and!; done.
Qed.

(** What the spot conversion gives has something left to trade. *)
Lemma type_convert_spot_valid m o : type_convert_spot m = Some o → order_valid o.
Proof.
  unfold type_convert_spot. intros Hc.
  repeat match type of Hc with
  | (mbind _ ?x) = _ => destruct x; cbn [mbind option_bind] in Hc; try discriminate Hc
  | (if ?b then _ else _) = _ => let E := fresh "E" in destruct b eqn:E; try discriminate Hc
  end.
  injection Hc as <-. intros _. unfold quantity_ok, remaining, bd_eq. cbn. bdb. split; bdlra.
Qed.

(** An order that passed validation and conversion is one the engine
    handles: it has a side and one of the five forms, a positive quantity
    whose cached remainder is right and a positive price, and a market order
    has a gear of at least one, the bound the engine uses. *)
Theorem validated_order_accepted m o
    (Hcheck : check_mq_order m = true) (Hconv : type_convert m = Some o) :
  order_valid o ∧ (∃ t, from_order_type (order_type o) = Some t)
  ∧ order_form o ∈ ORDER_FORMS ∧ order_status o ∈ ORDER_STATUS ∧ 0 < create_time o
  ∧ (0 < ⟦trust_price o⟧)%Q
  ∧ (order_form o = ORDER_FORM_MARKET_PRICE → gear o = Some (gear_of o) ∧ 1 <= gear_of o).
Proof.
  destruct (check_mq_order_facts m Hcheck) as ((s & Hs & Hside) & (f & Hf & Hform & Hgear)
    & (st & Hst & Hstat) & (ct & Hct & Hpos)).
  destruct (type_convert_facts m o Hconv) as (Ht & Hfo & Hg & Hso & Hco & Hn & Hp & Hz & Hr).
  rewrite Ht in Hs. rewrite Hfo in Hf. rewrite Hso in Hst. rewrite Hco in Hct. simplify_eq.
  split_and!; try done.
  - intros _. unfold quantity_ok, remaining, bd_eq. rewrite Hr, Hz. split; bdlra.
  - unfold ORDER_TYPES in Hside. unfold from_order_type.
    repeat (apply elem_of_cons in Hside as [->|Hside]; [eexists; reflexivity|]).
    by apply elem_of_nil in Hside.
  - intros Hm. destruct (Hgear Hm) as (g & Hgm & Hge). rewrite Hg in Hgm. unfold gear_of. rewrite Hgm.
    rewrite Z.geb_leb, (proj2 (Z.leb_le 1 g) Hge). done.
Qed.

(** A validated message that names a uid and a lever, and whose decimal
    fields parse with a positive quantity and price, converts; so validation
    misses exactly those. *)
Theorem validated_message_converts m number price deposit rate
    (Hcheck : check_mq_order m = true)
    (Huid : is_Some (mq_uid m)) (Hlever : is_Some (mq_lever_times m))
    (Hnumber : mq_trust_number m ≫= parse_decimal = Some number) (Hnpos : (0 < ⟦number⟧)%Q)
    (Hprice : mq_trust_price m ≫= parse_decimal = Some price) (Hppos : (0 < ⟦price⟧)%Q)
    (Hdep : mq_start_deposit m ≫= parse_decimal = Some deposit)
    (Hrate : mq_taker_rate m ≫= parse_decimal = Some rate) :
  ∃ o, type_convert m = Some o ∧ trust_number o = number ∧ trust_price o = price.
Proof.
  unfold check_mq_order in Hcheck. split_checks Hcheck.
  destruct Huid as [uid Huid], Hlever as [lever Hlever].
  assert (is_Some (mq_symbol_key m) ∧ is_Some (mq_coin_market m) ∧ is_Some (mq_trust_order_no m))
    as ([sym Hsym] & [cm Hcm] & [no Hno]).
  { repeat match goal with H : (_ || _)%bool = false |- _ => apply orb_false_iff in H as [? ?] end.
    split_and!; match goal with |- is_Some ?x => destruct x eqn:?; [eauto|done] end. }
  assert ((number <=? bd_zero)%bd = false) as Hn1.
  { destruct (number <=? bd_zero)%bd eqn:?; [bdb; bdlra|done]. }
  assert ((price <=? bd_zero)%bd = false) as Hp1.
  { destruct (price <=? bd_zero)%bd eqn:?; [bdb; bdlra|done]. }
  unfold type_convert. rewrite Hnumber, Hprice, Hdep, Hrate, Huid, Hlever, Hsym, Hcm, Hno.
  cbn [mbind option_bind]. rewrite Hn1, Hp1. cbn [orb].
  repeat match goal with H : ?f m = Some _ |- _ => rewrite H; clear H end.
  cbn [mbind option_bind]. eexists. split; [reflexivity|done].
Qed.

End Props.

(** ** Witnesses *)
Module Witness.
Import SciDecimal.

(** A market bid as it arrives on the wire. *)
Definition wire_order : MqOrder := {|
  mq_user_id := Some 7; mq_uid := Some 8; mq_c_type := 1; mq_deal_type := None;
  mq_type := Some 1; mq_order_type := Some 1; mq_market_id := Some 2; mq_coin_id := Some 3;
  mq_symbol_key := Some "BTC/USDT"%string; mq_coin_market := Some "BTC/USDT"%string;
  mq_trust_order_no := Some "n1"%string; mq_close_position := Some 1;
  mq_start_deposit := Some "10"%string; mq_position_type := Some 1;
  mq_taker_rate := Some "1"%string; mq_order_status := Some 0; mq_order_form := Some 2;
  mq_gear := Some 5; mq_lever_times := Some 10; mq_trust_number := Some "4"%string;
  mq_trust_price := Some "100"%string; mq_create_time := Some 1; mq_face_value := None;
  mq_handicap_type := None |}.

Definition wire_bb : BbOrder :=
  mkBbOrder 7 8 1 1 2 3 "btcusdt" "BTC/USDT" "n1" 2 (Some 5) 1 (d 10) (d 1) 1 10 0
    (d 0) (d 0) (d 4) (d 100) (d 4) 1 None (d 0).

Lemma validated_order_accepted_witness :
  order_valid wire_bb ∧ (∃ t, from_order_type (order_type wire_bb) = Some t)
  ∧ order_form wire_bb ∈ ORDER_FORMS ∧ order_status wire_bb ∈ ORDER_STATUS ∧ 0 < create_time wire_bb
  ∧ (0 < ⟦trust_price wire_bb⟧)%Q
  ∧ (order_form wire_bb = ORDER_FORM_MARKET_PRICE →
     gear wire_bb = Some (gear_of wire_bb) ∧ 1 <= gear_of wire_bb).
Proof. apply (validated_order_accepted wire_order wire_bb); [reflexivity|reflexivity]. Defined.

Lemma validated_message_converts_witness :
  ∃ o, type_convert wire_order = Some o ∧ trust_number o = d 4 ∧ trust_price o = d 100.
Proof.
  apply (validated_message_converts wire_order (d 4) (d 100) (d 10) (d 1)); try reflexivity; by eexists.
Defined.

End Witness.
