(* ===== verification/HpTypes.v ===== *)
(** * match-core-hp: orders, commands, events, levels and the order store

    Models [crates/match-core-hp/src/types.rs], [level.rs] and
    [order_store.rs].  Ticks and lots are [i64], ids and clients [u64]; the
    operations keep the machine's wrap-around. *)
From stdpp Require Import gmap.
From S2P Require Import Prelude.

#[local] Open Scope Z_scope.

(** ** [types.rs] *)

Inductive Side := Buy | Sell.

#[export] Instance Side_eq_dec : EqDecision Side.
Proof. solve_decision. Defined.

Record HpOrder := mkHpOrder {
  id : Z; side : Side; price_tick : Z; qty_lot : Z; open_lot : Z; ts : Z; client_id : Z }.

(** [HpOrder::limit] *)
Definition hp_limit (s : Side) (price_tick qty_lot client_id : Z) : HpOrder :=
  mkHpOrder 0 s price_tick qty_lot qty_lot 0 client_id.

Inductive HpEvent :=
| Fill (maker_id taker_id maker_client_id taker_client_id price_tick qty_lot
        maker_open_lot taker_open_lot : Z)
| Rest (id client_id : Z) (side : Side) (price_tick qty_lot : Z)
| Revoke (id client_id reason : Z).

Inductive HpCommand :=
| Limit (side : Side) (price_tick qty_lot ts client_id : Z)
| Cancel (id : Z)
| Market (side : Side) (qty_lot ts : Z) (max_fills : option Z) (client_id : Z).

#[export] Instance HpEvent_eq_dec : EqDecision HpEvent.
Proof. solve_decision. Defined.

#[export] Instance HpCommand_eq_dec : EqDecision HpCommand.
Proof. solve_decision. Defined.

Definition set_id (v : Z) (o : HpOrder) : HpOrder :=
  mkHpOrder v (side o) (price_tick o) (qty_lot o) (open_lot o) (ts o) (client_id o).
Definition set_open_lot (v : Z) (o : HpOrder) : HpOrder :=
  mkHpOrder (id o) (side o) (price_tick o) (qty_lot o) v (ts o) (client_id o).

(** ** [level.rs] *)

(** [Level]; [ids] front first. *)
Record Level := mkLevel { total_lot : Z; ids : list Z }.

Definition level_default : Level := mkLevel 0 [].

(** [Level::push] *)
Definition level_push (i lot : Z) (l : Level) : Level :=
  mkLevel (total_lot l +ᵢ lot)%rust (ids l ++ [i]).

(** [Level::clear] *)
Definition level_clear (l : Level) : Level := mkLevel 0 [].

(** ** [order_store.rs] *)

(** The free list is a stack, its top first. *)
Record OrderStore := mkStore { slots : list (option HpOrder); free : list Z; live : Z }.

Definition store_new : OrderStore := mkStore [] [] 0.

Definition live_len (st : OrderStore) : Z := live st.

(** [OrderStore::insert]: the id is the 1-based index of the slot. *)
Definition store_insert (st : OrderStore) (order : HpOrder) : Z * OrderStore :=
  let '(i, slots, free) :=
    match free st with
    | i :: free => (i, slots st, free)
    | [] => (Z.of_nat (length (slots st)) + 1, slots st ++ [None], [])
    end in
  let order := set_id i order in
  (i, mkStore (<[Z.to_nat (i - 1) := Some order]> slots) free (live st + 1)).

(** [id.checked_sub(1)? as usize] *)
Definition slot_index (i : Z) : option nat := if i <? 1 then None else Some (Z.to_nat (i - 1)).

(** [OrderStore::get] *)
Definition store_get (st : OrderStore) (i : Z) : option HpOrder :=
  idx ← slot_index i; slot ← slots st !! idx; slot.

(** [OrderStore::get_mut], with what is done through the reference. *)
Definition store_update (st : OrderStore) (i : Z) (f : HpOrder → HpOrder) : OrderStore :=
  match slot_index i, store_get st i with
  | Some idx, Some o => mkStore (<[idx := Some (f o)]> (slots st)) (free st) (live st)
  | _, _ => st
  end.

(** [OrderStore::remove] *)
Definition store_remove (st : OrderStore) (i : Z) : option HpOrder * OrderStore :=
  match slot_index i, store_get st i with
  | Some idx, Some o =>
      (Some o, mkStore (<[idx := None]> (slots st)) (i :: free st) (live st - 1))
  | _, _ => (None, st)
  end.

(** [OrderStore::contains] *)
Definition store_contains (st : OrderStore) (i : Z) : bool :=
  match store_get st i with Some _ => true | None => false end.

(** ** The store as a map *)

(** Free ids are distinct and name exactly the empty slots; an order knows its id. *)
Definition store_ok (st : OrderStore) : Prop :=
  NoDup (free st)
  ∧ (∀ i, i ∈ free st ↔ 1 <= i ∧ slots st !! Z.to_nat (i - 1) = Some None)
  ∧ (∀ i o, store_get st i = Some o → id o = i)
  ∧ live st = Z.of_nat (length (omap (λ x, x) (slots st))).

Lemma store_get_Some st i o :
  store_get st i = Some o ↔ 1 <= i ∧ slots st !! Z.to_nat (i - 1) = Some (Some o).
Proof.
  unfold store_get, slot_index. destruct (Z.ltb_spec i 1); cbn; [split; [done|lia]|].
  destruct (slots st !! _) as [[o'|]|]; cbn; split; try done; try (intros [_ ?]; congruence).
  intros [= ->]. by split.
Qed.

Lemma store_get_lookup st i : 1 <= i → store_get st i = slots st !! Z.to_nat (i - 1) ≫= λ x, x.
Proof. intros Hi. unfold store_get, slot_index. rewrite (proj2 (Z.ltb_ge i 1)) by done. done. Qed.

Lemma store_get_low st i : i < 1 → store_get st i = None.
Proof. intros Hi. unfold store_get, slot_index. by rewrite (proj2 (Z.ltb_lt i 1)). Qed.

Lemma store_update_get st i f j :
  store_get (store_update st i f) j = if decide (i = j) then f <$> store_get st j else store_get st j.
Proof.
  unfold store_update. destruct (store_get st i) as [o|] eqn:E.
  2: { destruct (slot_index i); case_decide; subst; by rewrite ?E. }
  apply store_get_Some in E as [Hi Hl]. unfold slot_index. rewrite (proj2 (Z.ltb_ge i 1)) by done.
  destruct (Z.ltb_spec j 1) as [Hj|Hj].
  { rewrite !store_get_low by done. by case_decide. }
  rewrite !store_get_lookup by done. cbn [slots]. case_decide as Hij; subst.
  - rewrite list_lookup_insert_eq by (by eapply lookup_lt_Some). by rewrite Hl.
  - by rewrite list_lookup_insert_ne by lia.
Qed.

Definition occupied (l : list (option HpOrder)) : nat := length (omap (λ x, x) l).

Lemma occupied_fill l k o : l !! k = Some None → occupied (<[k := Some o]> l) = S (occupied l).
Proof.
  revert k; induction l as [|x l IH]; intros [|k] Hk; cbn in *; simplify_eq; try done.
  unfold occupied in *. destruct x; cbn; rewrite IH; done.
Qed.

Lemma occupied_clear l k o : l !! k = Some (Some o) → S (occupied (<[k := None]> l)) = occupied l.
Proof.
  revert k; induction l as [|x l IH]; intros [|k] Hk; cbn in *; simplify_eq; try done.
  unfold occupied in *. destruct x; cbn; rewrite <- (IH k); done.
Qed.

Lemma occupied_set l k o o' : l !! k = Some (Some o) → occupied (<[k := Some o']> l) = occupied l.
Proof.
  revert k; induction l as [|x l IH]; intros [|k] Hk; cbn in *; simplify_eq; try done.
  unfold occupied in *. destruct x; cbn; rewrite IH; done.
Qed.

Lemma store_new_ok : store_ok store_new.
Proof.
  split_and!; [constructor| |intros i o [_ Hl]%store_get_Some; done|done].
  intros i. split; [by intros ?%elem_of_nil|intros [_ Hl]; done].
Qed.

(** Filling an empty slot. *)
Lemma store_fill_ok sl fr lv i o :
  1 <= i → sl !! Z.to_nat (i - 1) = Some None → i ∉ fr → NoDup fr →
  (∀ j, j ∈ fr ∨ j = i ↔ 1 <= j ∧ sl !! Z.to_nat (j - 1) = Some None) →
  (∀ j o, 1 <= j → sl !! Z.to_nat (j - 1) = Some (Some o) → id o = j) →
  lv = Z.of_nat (occupied sl) →
  store_ok (mkStore (<[Z.to_nat (i - 1) := Some (set_id i o)]> sl) fr (lv + 1)).
Proof.
  intros Hi Hl Hn Hnd Hf Hid Hlv. split_and!; cbn [slots free live].
  - done.
  - intros j. split.
    + intros Hj. destruct (proj1 (Hf j) (or_introl Hj)) as [Hj1 Hjl]. split; [done|].
      rewrite list_lookup_insert_ne; [done|]. intros He. assert (i = j) as -> by lia. done.
    + intros [Hj1 Hjl]. destruct (decide (i = j)) as [<-|Hne].
      * rewrite list_lookup_insert_eq in Hjl by (by eapply lookup_lt_Some). done.
      * rewrite list_lookup_insert_ne in Hjl by lia. destruct (proj2 (Hf j)) as [?|?]; done.
  - intros j x [Hj1 Hjl]%store_get_Some. cbn in Hjl. destruct (decide (i = j)) as [<-|Hne].
    + rewrite list_lookup_insert_eq in Hjl by (by eapply lookup_lt_Some). by simplify_eq.
    + rewrite list_lookup_insert_ne in Hjl by lia. by eapply Hid.
  - change (length (omap (λ x, x) ?l)) with (occupied l). rewrite (occupied_fill _ _ _ Hl). lia.
Qed.

Lemma store_insert_ok st o :
  store_ok st →
  ∃ i st', store_insert st o = (i, st') ∧ store_ok st' ∧ 1 <= i ∧ store_get st i = None
    ∧ ∀ j, store_get st' j = if decide (i = j) then Some (set_id i o) else store_get st j.
Proof.
  intros (Hnd & Hf & Hid & Hlv). unfold store_insert. destruct (free st) as [|i fr] eqn:Ef.
  - set (n := Z.of_nat (length (slots st)) + 1).
    assert (Hn : Z.to_nat (n - 1) = length (slots st)) by lia.
    assert (Hlast : (slots st ++ [None]) !! Z.to_nat (n - 1) = Some None).
    { rewrite Hn, lookup_app_r, Nat.sub_diag by lia. done. }
    eexists _, _. split; [reflexivity|]. split_and!.
    + apply store_fill_ok; try done; [lia|apply not_elem_of_nil| | |].
      * intros j. split.
        -- intros [Hj| ->]; [by apply elem_of_nil in Hj|]. split; [lia|done].
        -- intros [Hj Hl]. destruct (decide (Z.to_nat (j - 1) < length (slots st))%nat) as [Hlt|Hge].
           ++ rewrite lookup_app_l in Hl by done. left. by apply Hf.
           ++ right. apply lookup_lt_Some in Hl. rewrite length_app in Hl. cbn in Hl. lia.
      * intros j x Hj Hl. apply lookup_app_Some in Hl as [Hl|[_ Hl]]; [by apply Hid, store_get_Some|].
        by apply list_lookup_singleton_Some in Hl as [_ ?].
      * rewrite Hlv. unfold occupied. rewrite omap_app, length_app. cbn. lia.
    + lia.
    + rewrite store_get_lookup by lia. rewrite Hn, lookup_ge_None_2 by lia. done.
    + intros j. destruct (Z.ltb_spec j 1) as [Hj|Hj].
      { rewrite !store_get_low by done. rewrite decide_False by lia. done. }
      rewrite !store_get_lookup by done. cbn [slots]. case_decide as Hij.
      * subst j. rewrite list_lookup_insert_eq by (rewrite length_app; cbn; lia). done.
      * rewrite list_lookup_insert_ne by lia.
        destruct (decide (Z.to_nat (j - 1) < length (slots st))%nat) as [Hlt|Hge].
        -- by rewrite lookup_app_l.
        -- rewrite !lookup_ge_None_2; [done|lia|rewrite length_app; cbn; lia].
  - assert (Hi : i ∈ i :: fr) by (by left). apply Hf in Hi as [Hi Hl].
    apply NoDup_cons in Hnd as [Hni Hnd].
    eexists _, _. split; [reflexivity|]. split_and!.
    + apply store_fill_ok; try done.
      * intros j. rewrite <- Hf, elem_of_cons. tauto.
      * intros j x Hj Hlx. by apply Hid, store_get_Some.
    + done.
    + rewrite store_get_lookup by done. by rewrite Hl.
    + intros j. destruct (Z.ltb_spec j 1) as [Hj|Hj].
      { rewrite !store_get_low by done. rewrite decide_False by lia. done. }
      rewrite !store_get_lookup by done. cbn [slots]. case_decide as Hij.
      * subst j. rewrite list_lookup_insert_eq by (by eapply lookup_lt_Some). done.
      * by rewrite list_lookup_insert_ne by lia.
Qed.

Lemma store_remove_None st i : store_get st i = None → store_remove st i = (None, st).
Proof. intros H. unfold store_remove. rewrite H. by destruct (slot_index i). Qed.

Lemma store_remove_ok st i o :
  store_ok st → store_get st i = Some o →
  ∃ st', store_remove st i = (Some o, st') ∧ store_ok st'
    ∧ ∀ j, store_get st' j = if decide (i = j) then None else store_get st j.
Proof.
  intros (Hnd & Hf & Hid & Hlv) Hg. unfold store_remove. rewrite Hg.
  apply store_get_Some in Hg as [Hi Hl]. unfold slot_index. rewrite (proj2 (Z.ltb_ge i 1)) by done.
  eexists. split; [reflexivity|].
  assert (Hget : ∀ j, store_get (mkStore (<[Z.to_nat (i - 1) := None]> (slots st)) (i :: free st) (live st - 1)) j
            = if decide (i = j) then None else store_get st j).
  { intros j. destruct (Z.ltb_spec j 1) as [Hj|Hj].
    { rewrite !store_get_low by done. by case_decide. }
    rewrite !store_get_lookup by done. cbn [slots]. case_decide as Hij.
    - subst j. by rewrite list_lookup_insert_eq by (by eapply lookup_lt_Some).
    - by rewrite list_lookup_insert_ne by lia. }
  split; [|exact Hget]. split_and!; cbn [slots free live].
  - constructor; [|done]. intros [_ Hfl]%Hf. congruence.
  - intros j. rewrite elem_of_cons. split.
    + intros [->|[Hj Hjl]%Hf].
      * split; [done|]. by apply list_lookup_insert_eq, (lookup_lt_Some _ _ _ Hl).
      * split; [done|]. rewrite list_lookup_insert_ne; [done|]. intros He.
        assert (i = j) as -> by lia. congruence.
    + intros [Hj Hjl]. destruct (decide (j = i)) as [->|Hne]; [by left|]. right.
      rewrite list_lookup_insert_ne in Hjl by lia. by apply Hf.
  - intros j x Hx. rewrite Hget in Hx. case_decide; [done|]. by apply Hid.
  - change (length (omap (λ x, x) ?l)) with (occupied l).
    change (length (omap (λ x, x) ?l)) with (occupied l) in Hlv.
    pose proof (occupied_clear _ _ _ Hl). lia.
Qed.

Lemma store_update_ok st i f :
  store_ok st → (∀ o, store_get st i = Some o → id (f o) = id o) → store_ok (store_update st i f).
Proof.
  intros (Hnd & Hf & Hid & Hlv) Hfid. pose proof (store_update_get st i f) as Hget.
  unfold store_update in *. destruct (store_get st i) as [o|] eqn:Hg.
  2: { by destruct (slot_index i). }
  pose proof Hg as [Hi Hl]%store_get_Some. unfold slot_index in *.
  rewrite (proj2 (Z.ltb_ge i 1)) in * by done. split_and!; cbn [slots free live] in *.
  - done.
  - intros j. rewrite Hf. split; intros [Hj Hjl]; (split; [done|]).
    + rewrite list_lookup_insert_ne; [done|]. intros He. assert (i = j) as -> by lia. congruence.
    + destruct (decide (j = i)) as [->|Hne].
      * rewrite list_lookup_insert_eq in Hjl by (by eapply lookup_lt_Some). done.
      * by rewrite list_lookup_insert_ne in Hjl by lia.
  - intros j x Hx. rewrite Hget in Hx. case_decide as Hij; [subst j|by apply Hid].
    rewrite Hg in Hx. cbn in Hx. simplify_eq. rewrite Hfid by done. by apply Hid.
  - rewrite Hlv. change (length (omap (λ x, x) ?l)) with (occupied l).
    by rewrite (occupied_set _ _ _ _ Hl).
Qed.

(** The orders by id. *)
Fixpoint slots_map (k : Z) (l : list (option HpOrder)) : gmap Z HpOrder :=
  match l with
  | [] => ∅
  | Some o :: l => <[k := o]> (slots_map (k + 1) l)
  | None :: l => slots_map (k + 1) l
  end.

Definition store_map (st : OrderStore) : gmap Z HpOrder := slots_map 1 (slots st).

Lemma slots_map_lookup k l j :
  slots_map k l !! j = if j <? k then None else l !! Z.to_nat (j - k) ≫= λ x, x.
Proof.
  revert k; induction l as [|x l IH]; intros k; cbn [slots_map].
  - rewrite lookup_empty. by destruct (j <? k).
  - assert (Hrest : j ≠ k → slots_map (k + 1) l !! j
              = if j <? k then None else (x :: l) !! Z.to_nat (j - k) ≫= λ x, x).
    { intros Hj. rewrite IH. destruct (Z.ltb_spec j k) as [Hlt|Hge], (Z.ltb_spec j (k + 1)); try lia; [done|].
      by replace (Z.to_nat (j - k)) with (S (Z.to_nat (j - (k + 1)))) by lia. }
    destruct (decide (j = k)) as [->|Hne].
    + rewrite (proj2 (Z.ltb_ge k k)), Z.sub_diag by lia. cbn. destruct x as [o|].
      * by rewrite lookup_insert_eq.
      * rewrite IH, (proj2 (Z.ltb_lt k (k + 1))) by lia. done.
    + destruct x as [o|]; [rewrite lookup_insert_ne by done|]; by apply Hrest.
Qed.

Lemma store_map_lookup st j : store_map st !! j = store_get st j.
Proof.
  unfold store_map. rewrite slots_map_lookup. destruct (Z.ltb_spec j 1) as [Hj|Hj].
  - by rewrite store_get_low.
  - by rewrite store_get_lookup.
Qed.

Lemma size_slots_map k l : size (slots_map k l) = occupied l.
Proof.
  revert k; induction l as [|[o|] l IH]; intros k; cbn [slots_map]; [done| |apply IH].
  rewrite map_size_insert_None, IH; [done|]. rewrite slots_map_lookup.
  by rewrite (proj2 (Z.ltb_lt k (k + 1))) by lia.
Qed.

Lemma store_live st : store_ok st → live st = Z.of_nat (size (store_map st)).
Proof. intros (_ & _ & _ & ->). unfold store_map. by rewrite size_slots_map. Qed.
