(* ===== verification/HpIndex.v ===== *)
(** * match-core-hp: price-level indexes

    Models [crates/match-core-hp/src/level_index.rs]: the trait [LevelIndex] as
    a class of operations, what the book relies on as a class of laws
    ([LevelIndexSpec], stated against a finite map from ticks to levels), and
    the two B-tree indexes as its instances.  A [BTreeMap] is the list of its
    entries in key order; the bid index keys it by [Reverse(tick)].  [get_mut]
    takes what is done through the reference it returns. *)
From stdpp Require Import gmap sorting.
From S2P Require Import Prelude HpTypes.
From Stdlib Require Import Sorted.

#[local] Open Scope Z_scope.

(** ** The trait *)
Class LevelIndex (I : Type) := {
  li_default : I;
  li_get : I → Z → option Level;
  li_get_mut : I → Z → (Level → Level) → option I;
  li_contains : I → Z → bool;
  li_insert : I → Z → Level → I;
  li_remove : I → Z → option Level * I;
  li_best_tick : I → option Z;
  li_depth : I → nat → list (Z * Z);
  li_get_or_insert_with : I → Z → Level → (Level → Level) → I
}.

(** [a] is better than [b]: higher for bids, lower for asks. *)
Definition tick_before (s : Side) (a b : Z) : Prop :=
  match s with Buy => b < a | Sell => a < b end.

(** [b] is the best key of [m], [None] when there is none. *)
Definition best_of {A} (s : Side) (m : gmap Z A) (b : option Z) : Prop :=
  match b with
  | None => m = ∅
  | Some t => is_Some (m !! t) ∧ ∀ t', is_Some (m !! t') → t' = t ∨ tick_before s t t'
  end.

(** [d] lists the [n] best keys of [m], best first, with the level totals. *)
Definition depth_of (s : Side) (m : gmap Z Level) (n : nat) (d : list (Z * Z)) : Prop :=
  ∃ l : list (Z * Level), StronglySorted (tick_before s) l.*1 ∧ list_to_map l = m
    ∧ d = take n ((λ tl, (tl.1, total_lot tl.2)) <$> l).

(** ** The contract *)
Class LevelIndexSpec (I : Type) `{LI : LevelIndex I} (s : Side) := {
  li_ok : I → Prop;
  li_map : I → gmap Z Level;
  li_default_spec : li_ok li_default ∧ li_map li_default = ∅;
  li_keys i t : li_ok i → is_Some (li_map i !! t) → in_i64 t;
  li_get_spec i t : li_ok i → in_i64 t → li_get i t = li_map i !! t;
  li_contains_spec i t : li_ok i → in_i64 t → li_contains i t = bool_decide (is_Some (li_map i !! t));
  li_get_mut_None i t f : li_ok i → in_i64 t → li_map i !! t = None → li_get_mut i t f = None;
  li_get_mut_Some i t f l :
    li_ok i → in_i64 t → li_map i !! t = Some l →
    ∃ i', li_get_mut i t f = Some i' ∧ li_ok i' ∧ li_map i' = <[t := f l]> (li_map i);
  li_insert_spec i t l :
    li_ok i → in_i64 t → li_ok (li_insert i t l) ∧ li_map (li_insert i t l) = <[t := l]> (li_map i);
  li_remove_spec i t :
    li_ok i → in_i64 t →
    ∃ i', li_remove i t = (li_map i !! t, i') ∧ li_ok i' ∧ li_map i' = delete t (li_map i);
  li_best_spec i : li_ok i → best_of s (li_map i) (li_best_tick i);
  li_depth_spec i n : li_ok i → depth_of s (li_map i) n (li_depth i n);
  li_get_or_insert_spec i t l f :
    li_ok i → in_i64 t → li_map i !! t = None →
    li_ok (li_get_or_insert_with i t l f)
    ∧ li_map (li_get_or_insert_with i t l f) = <[t := f l]> (li_map i)
}.

Lemma best_of_fun {A} s (m : gmap Z A) b b' : best_of s m b → best_of s m b' → b = b'.
Proof.
  destruct b as [t|], b' as [t'|]; cbn; try done.
  - intros [Ht H1] [Ht' H2]. destruct (H1 _ Ht') as [->|Hb]; [done|].
    destruct (H2 _ Ht) as [->|Hb']; [done|]. destruct s; cbn in *; lia.
  - intros [[l Hl] _] ->. done.
  - intros -> [[l Hl] _]. done.
Qed.

(** ** [BTreeMap] *)
Section BTree.
Context {V : Type}.
Variable cmp : Z → Z → comparison.
Implicit Types (l : list (Z * V)) (t : Z).

Fixpoint bt_get (l : list (Z * V)) (t : Z) : option V :=
  match l with
  | [] => None
  | (k, v) :: l => match cmp t k with Eq => Some v | Lt => None | Gt => bt_get l t end
  end.

Fixpoint bt_get_mut (l : list (Z * V)) (t : Z) (f : V → V) :
    option (list (Z * V)) :=
  match l with
  | [] => None
  | (k, v) :: l => match cmp t k with
                   | Eq => Some ((k, f v) :: l)
                   | Lt => None
                   | Gt => cons (k, v) <$> bt_get_mut l t f
                   end
  end.

Fixpoint bt_insert (l : list (Z * V)) (t : Z) (v : V) : list (Z * V) :=
  match l with
  | [] => [(t, v)]
  | (k, w) :: l' => match cmp t k with
                    | Eq => (k, v) :: l'
                    | Lt => (t, v) :: l
                    | Gt => (k, w) :: bt_insert l' t v
                    end
  end.

Fixpoint bt_remove (l : list (Z * V)) (t : Z) : option V * list (Z * V) :=
  match l with
  | [] => (None, [])
  | (k, v) :: l' => match cmp t k with
                    | Eq => (Some v, l')
                    | Lt => (None, l)
                    | Gt => let '(r, l'') := bt_remove l' t in (r, (k, v) :: l'')
                    end
  end.

(** [entry(tick).or_insert_with(|| lvl)], then the mutation. *)
Definition bt_get_or_insert_with (l : list (Z * V)) (t : Z) (lvl : V) (f : V → V) :
    list (Z * V) :=
  match bt_get_mut l t f with Some l => l | None => bt_insert l t (f lvl) end.

Definition bt_first (l : list (Z * V)) : option Z := fst <$> head l.

Definition bt_depth (l : list (Z * Level)) (n : nat) : list (Z * Z) :=
  (λ tl, (tl.1, total_lot tl.2)) <$> take n l.

End BTree.

(** Ask side: ascending ticks. *)
Record BTreeAskIndex := mkAsk { ask_map : list (Z * Level) }.
Definition ask_cmp : Z → Z → comparison := Z.compare.

#[export] Instance ask_index : LevelIndex BTreeAskIndex := {
  li_default := mkAsk [];
  li_get i := bt_get ask_cmp (ask_map i);
  li_get_mut i t f := mkAsk <$> bt_get_mut ask_cmp (ask_map i) t f;
  li_contains i t := match bt_get ask_cmp (ask_map i) t with Some _ => true | None => false end;
  li_insert i t v := mkAsk (bt_insert ask_cmp (ask_map i) t v);
  li_remove i t := let '(r, l) := bt_remove ask_cmp (ask_map i) t in (r, mkAsk l);
  li_best_tick i := bt_first (ask_map i);
  li_depth i := bt_depth (ask_map i);
  li_get_or_insert_with i t v f := mkAsk (bt_get_or_insert_with ask_cmp (ask_map i) t v f)
}.

(** Bid side: the [Ord] of [Reverse<i64>], descending ticks. *)
Record BTreeBidIndex := mkBid { bid_map : list (Z * Level) }.
Definition bid_cmp (a b : Z) : comparison := Z.compare b a.

#[export] Instance bid_index : LevelIndex BTreeBidIndex := {
  li_default := mkBid [];
  li_get i := bt_get bid_cmp (bid_map i);
  li_get_mut i t f := mkBid <$> bt_get_mut bid_cmp (bid_map i) t f;
  li_contains i t := match bt_get bid_cmp (bid_map i) t with Some _ => true | None => false end;
  li_insert i t v := mkBid (bt_insert bid_cmp (bid_map i) t v);
  li_remove i t := let '(r, l) := bt_remove bid_cmp (bid_map i) t in (r, mkBid l);
  li_best_tick i := bt_first (bid_map i);
  li_depth i := bt_depth (bid_map i);
  li_get_or_insert_with i t v f := mkBid (bt_get_or_insert_with bid_cmp (bid_map i) t v f)
}.

(** ** The B-tree meets the contract *)
Section BTreeFacts.
Context {V : Type}.
Variables (s : Side) (cmp : Z → Z → comparison).
Hypothesis cmp_spec : ∀ a b, CompareSpec (a = b) (tick_before s a b) (tick_before s b a) (cmp a b).
Implicit Types (l : list (Z * V)) (t : Z).

Definition bt_ok (l : list (Z * V)) : Prop :=
  StronglySorted (tick_before s) l.*1 ∧ Forall in_i64 l.*1.

Definition bt_map (l : list (Z * V)) : gmap Z V := list_to_map l.

Lemma tick_before_trans a b c : tick_before s a b → tick_before s b c → tick_before s a c.
Proof. destruct s; cbn; lia. Qed.

Lemma tick_before_irrefl a : ¬ tick_before s a a.
Proof. destruct s; cbn; lia. Qed.

(** A key no later than the first is absent from the rest. *)
Lemma bt_absent l t k :
  StronglySorted (tick_before s) (k :: l.*1) → t = k ∨ tick_before s t k → bt_map l !! t = None.
Proof.
  intros [_ Hk]%StronglySorted_inv Ht. apply not_elem_of_list_to_map_1. intros Hin.
  eapply Forall_forall in Hk; [|exact Hin]. destruct Ht as [->|Ht]; [by eapply tick_before_irrefl|].
  eapply tick_before_irrefl, tick_before_trans; eassumption.
Qed.

Lemma bt_ok_cons k v l : bt_ok ((k, v) :: l) → bt_ok l ∧ in_i64 k ∧ Forall (tick_before s k) l.*1.
Proof.
  intros [Hs Hf]. cbn in *. apply StronglySorted_inv in Hs as [??]. apply Forall_cons in Hf as [??]. done.
Qed.

Lemma bt_get_spec l t : bt_ok l → bt_get cmp l t = bt_map l !! t.
Proof.
  induction l as [|[k v] l IH]; intros Hok; [done|]. pose proof Hok as [Hs _].
  apply bt_ok_cons in Hok as (Hok & _ & _). cbn. destruct (cmp_spec t k) as [->|Hlt|Hgt].
  - by rewrite lookup_insert_eq.
  - rewrite lookup_insert_ne by (intros ->; by eapply tick_before_irrefl).
    symmetry. eapply bt_absent; [exact Hs|by right].
  - rewrite lookup_insert_ne by (intros ->; by eapply tick_before_irrefl). by apply IH.
Qed.

Lemma bt_keys l t : bt_ok l → is_Some (bt_map l !! t) → t ∈ l.*1.
Proof.
  intros _ Hin. destruct (decide (t ∈ l.*1)) as [|Hn]; [done|].
  apply not_elem_of_list_to_map_1 in Hn. unfold bt_map in Hin. rewrite Hn in Hin. by destruct Hin.
Qed.

Lemma bt_get_mut_spec l t f :
  bt_ok l → bt_get_mut cmp l t f = match bt_map l !! t with
                                    | Some v => bt_get_mut cmp l t f | None => None end
  ∧ ∀ v, bt_map l !! t = Some v → ∃ l', bt_get_mut cmp l t f = Some l' ∧ bt_ok l' ∧ l'.*1 = l.*1
         ∧ bt_map l' = <[t := f v]> (bt_map l).
Proof.
  induction l as [|[k w] l IH]; intros Hok; [done|]. pose proof Hok as [Hs Hfa].
  apply bt_ok_cons in Hok as (Hok & Hk & Hall). cbn. destruct (cmp_spec t k) as [->|Hlt|Hgt].
  - rewrite lookup_insert_eq. split; [done|]. intros v [= ->]. eexists. split; [reflexivity|].
    split; [by split|]. split; [done|]. cbn. by rewrite insert_insert_eq.
  - rewrite lookup_insert_ne by (intros ->; by eapply tick_before_irrefl).
    assert (Hn : bt_map l !! t = None) by (eapply bt_absent; [exact Hs|by right]).
    unfold bt_map in Hn. rewrite Hn. done.
  - rewrite lookup_insert_ne by (intros ->; by eapply tick_before_irrefl).
    destruct (IH Hok) as [Hnone Hsome]. unfold bt_map in *. split.
    + rewrite Hnone. destruct (list_to_map l !! t); done.
    + intros v Hv. destruct (Hsome v Hv) as (l' & -> & [Hs' Hf'] & Hkeys & Hm). eexists.
      split; [reflexivity|]. split; [split; cbn; rewrite Hkeys; done|]. split; [cbn; by rewrite Hkeys|].
      cbn. rewrite Hm. rewrite insert_insert_ne; [done|]. intros ->. by eapply tick_before_irrefl.
Qed.

Lemma bt_insert_spec l t v :
  bt_ok l → in_i64 t →
  bt_ok (bt_insert cmp l t v) ∧ bt_map (bt_insert cmp l t v) = <[t := v]> (bt_map l)
  ∧ ∀ x, x ∈ (bt_insert cmp l t v).*1 → x = t ∨ x ∈ l.*1.
Proof.
  induction l as [|[k w] l IH]; intros Hok Ht.
  { cbn. split_and!; [split; cbn; repeat constructor; apply Ht|done|]. set_solver. }
  pose proof Hok as [Hs Hfa]. apply bt_ok_cons in Hok as (Hok & Hk & Hall). cbn.
  destruct (cmp_spec t k) as [->|Hlt|Hgt].
  - split_and!; [by split|cbn; by rewrite insert_insert_eq|cbn; set_solver].
  - split_and!; [|done|cbn; set_solver]. split; [|by constructor]. cbn. constructor; [done|].
    constructor; [done|]. eapply Forall_impl; [exact Hall|]. intros x Hx. by eapply tick_before_trans.
  - destruct (IH Hok Ht) as ([Hs' Hf'] & Hm & Hin). split_and!.
    + split; cbn; [|by constructor]. constructor; [done|]. apply Forall_forall. intros x Hx.
      destruct (Hin x Hx) as [->|Hx']; [done|]. by eapply Forall_forall in Hall.
    + cbn. unfold bt_map in *. rewrite Hm. rewrite insert_insert_ne; [done|].
      intros ->. by eapply tick_before_irrefl.
    + cbn. intros x [->|Hx]%elem_of_cons; [set_solver|]. destruct (Hin x Hx); set_solver.
Qed.

Lemma bt_remove_spec l t :
  bt_ok l → ∃ l', bt_remove cmp l t = (bt_map l !! t, l') ∧ bt_ok l' ∧ bt_map l' = delete t (bt_map l)
    ∧ ∀ x, x ∈ l'.*1 → x ∈ l.*1.
Proof.
  induction l as [|[k w] l IH]; intros Hok.
  { exists []. split_and!; done. }
  pose proof Hok as [Hs Hfa]. apply bt_ok_cons in Hok as (Hok & Hk & Hall). cbn.
  destruct (cmp_spec t k) as [->|Hlt|Hgt].
  - exists l. rewrite lookup_insert_eq. split_and!; [done|done| |cbn; set_solver].
    rewrite delete_insert_eq. symmetry. apply delete_id. eapply bt_absent; [exact Hs|by left].
  - rewrite lookup_insert_ne by (intros ->; by eapply tick_before_irrefl).
    assert (Hn : bt_map l !! t = None) by (eapply bt_absent; [exact Hs|by right]).
    exists ((k, w) :: l). unfold bt_map in *. rewrite Hn. split_and!; try done. cbn.
    rewrite delete_insert_ne by (intros ->; by eapply tick_before_irrefl).
    by rewrite delete_id.
  - rewrite lookup_insert_ne by (intros ->; by eapply tick_before_irrefl).
    destruct (IH Hok) as (l' & -> & [Hs' Hf'] & Hm & Hin). exists ((k, w) :: l'). split_and!; [done| | |].
    + split; cbn; [|by constructor]. constructor; [done|]. apply Forall_forall. intros x Hx.
      eapply Forall_forall in Hall; [exact Hall|by apply Hin].
    + cbn. unfold bt_map in *. rewrite Hm.
      rewrite delete_insert_ne by (intros ->; by eapply tick_before_irrefl). done.
    + cbn. set_solver.
Qed.

Lemma bt_first_spec l : bt_ok l → best_of s (bt_map l) (bt_first l).
Proof.
  destruct l as [|[k w] l]; intros Hok; [done|]. cbn. split; [by rewrite lookup_insert_eq|].
  intros t' Ht'. pose proof (bt_keys _ _ Hok Ht') as Hin. apply bt_ok_cons in Hok as (_ & _ & Hall).
  cbn in Hin. apply elem_of_cons in Hin as [->|Hin]; [by left|right].
  by eapply Forall_forall in Hall.
Qed.

Lemma bt_get_or_insert_spec l t v f :
  bt_ok l → in_i64 t → bt_map l !! t = None →
  bt_ok (bt_get_or_insert_with cmp l t v f)
  ∧ bt_map (bt_get_or_insert_with cmp l t v f) = <[t := f v]> (bt_map l).
Proof.
  intros Hok Ht Hn. unfold bt_get_or_insert_with.
  destruct (bt_get_mut_spec l t f Hok) as [Hnone _]. rewrite Hn in Hnone. rewrite Hnone.
  destruct (bt_insert_spec l t (f v) Hok Ht) as (?&?&_). done.
Qed.

End BTreeFacts.

Lemma bt_depth_spec s (l : list (Z * Level)) n : bt_ok s l → depth_of s (bt_map l) n (bt_depth l n).
Proof.
  intros [Hs _]. exists l. split_and!; [done|done|]. unfold bt_depth. by rewrite fmap_take.
Qed.

Lemma ask_cmp_spec a b : CompareSpec (a = b) (tick_before Sell a b) (tick_before Sell b a) (ask_cmp a b).
Proof. unfold ask_cmp. destruct (Z.compare_spec a b); by constructor. Qed.

Lemma bid_cmp_spec a b : CompareSpec (a = b) (tick_before Buy a b) (tick_before Buy b a) (bid_cmp a b).
Proof. unfold bid_cmp. destruct (Z.compare_spec b a); by constructor. Qed.

#[export] Instance ask_index_spec : LevelIndexSpec BTreeAskIndex Sell.
Proof.
  refine {| li_ok := λ i, bt_ok Sell (ask_map i); li_map := λ i, bt_map (ask_map i) |}; cbn.
  - split; [split; constructor|done].
  - intros i t Hok Hs. pose proof Hok as [_ Hf]. rewrite Forall_forall in Hf. apply Hf.
    by eapply (bt_keys Sell).
  - intros i t Hok _. by apply (bt_get_spec Sell); [apply ask_cmp_spec|].
  - intros i t Hok _. rewrite (bt_get_spec Sell) by (apply ask_cmp_spec || done).
    destruct (bt_map _ !! t); [by rewrite bool_decide_true by eauto|].
    rewrite bool_decide_false; [done|by intros []].
  - intros i t f Hok _ Hn. destruct (bt_get_mut_spec Sell ask_cmp ask_cmp_spec (ask_map i) t f Hok) as [Hg _].
    rewrite Hn in Hg. by rewrite Hg.
  - intros i t f l Hok _ Hl. destruct (bt_get_mut_spec Sell ask_cmp ask_cmp_spec (ask_map i) t f Hok) as [_ Hg].
    destruct (Hg l Hl) as (l' & -> & Hok' & _ & Hm). by exists (mkAsk l').
  - intros i t l Hok Ht. destruct (bt_insert_spec Sell ask_cmp ask_cmp_spec (ask_map i) t l Hok Ht) as (?&?&_). done.
  - intros i t Hok _. destruct (bt_remove_spec Sell ask_cmp ask_cmp_spec (ask_map i) t Hok) as (l' & -> & Hok' & Hm & _).
    by exists (mkAsk l').
  - intros i Hok. by eapply bt_first_spec, Hok; apply ask_cmp_spec.
  - intros i n Hok. by apply (bt_depth_spec Sell).
  - intros i t l f Hok Ht Hn. by apply (bt_get_or_insert_spec Sell ask_cmp ask_cmp_spec).
Defined.

#[export] Instance bid_index_spec : LevelIndexSpec BTreeBidIndex Buy.
Proof.
  refine {| li_ok := λ i, bt_ok Buy (bid_map i); li_map := λ i, bt_map (bid_map i) |}; cbn.
  - split; [split; constructor|done].
  - intros i t Hok Hs. pose proof Hok as [_ Hf]. rewrite Forall_forall in Hf. apply Hf.
    by eapply (bt_keys Buy).
  - intros i t Hok _. by apply (bt_get_spec Buy); [apply bid_cmp_spec|].
  - intros i t Hok _. rewrite (bt_get_spec Buy) by (apply bid_cmp_spec || done).
    destruct (bt_map _ !! t); [by rewrite bool_decide_true by eauto|].
    rewrite bool_decide_false; [done|by intros []].
  - intros i t f Hok _ Hn. destruct (bt_get_mut_spec Buy bid_cmp bid_cmp_spec (bid_map i) t f Hok) as [Hg _].
    rewrite Hn in Hg. by rewrite Hg.
  - intros i t f l Hok _ Hl. destruct (bt_get_mut_spec Buy bid_cmp bid_cmp_spec (bid_map i) t f Hok) as [_ Hg].
    destruct (Hg l Hl) as (l' & -> & Hok' & _ & Hm). by exists (mkBid l').
  - intros i t l Hok Ht. destruct (bt_insert_spec Buy bid_cmp bid_cmp_spec (bid_map i) t l Hok Ht) as (?&?&_). done.
  - intros i t Hok _. destruct (bt_remove_spec Buy bid_cmp bid_cmp_spec (bid_map i) t Hok) as (l' & -> & Hok' & Hm & _).
    by exists (mkBid l').
  - intros i Hok. by eapply bt_first_spec, Hok; apply bid_cmp_spec.
  - intros i n Hok. by apply (bt_depth_spec Buy).
  - intros i t l f Hok Ht Hn. by apply (bt_get_or_insert_spec Buy bid_cmp bid_cmp_spec).
Defined.
