(* ===== verification/HpBook.v ===== *)
(** * match-core-hp: the price-level book

    Models [crates/match-core-hp/src/book.rs] over any two level indexes.  A
    method that mutates [&mut self] returns the new book; where the code calls
    [expect] on a lookup that [book_ok] shows to succeed, the model leaves the
    book as it is. *)
From stdpp Require Import gmap sorting.
From S2P Require Import Prelude HpTypes HpIndex.

#[local] Open Scope Z_scope.

Section Book.
Context {BI AI : Type} `{LB : LevelIndex BI} `{LA : LevelIndex AI}.

Definition LEVEL_POOL_CAP : nat := 256.

Record Book := mkHpBook {
  bids : BI; asks : AI; store : OrderStore;
  best_bid_tick : option Z; best_ask_tick : option Z; level_pool : list Level }.

Definition hp_book_new : Book := mkHpBook li_default li_default store_new None None [].

(** [Book::with_capacity]: the pool is filled beforehand. *)
Definition hp_book_with_capacity : Book :=
  let prefill := Nat.max (LEVEL_POOL_CAP / 4) 16 in
  mkHpBook li_default li_default store_new None None (repeat level_default prefill).

Definition set_bids v (b : Book) := mkHpBook v (asks b) (store b) (best_bid_tick b) (best_ask_tick b) (level_pool b).
Definition set_asks v (b : Book) := mkHpBook (bids b) v (store b) (best_bid_tick b) (best_ask_tick b) (level_pool b).
Definition set_store v (b : Book) := mkHpBook (bids b) (asks b) v (best_bid_tick b) (best_ask_tick b) (level_pool b).
Definition set_best_bid v (b : Book) := mkHpBook (bids b) (asks b) (store b) v (best_ask_tick b) (level_pool b).
Definition set_best_ask v (b : Book) := mkHpBook (bids b) (asks b) (store b) (best_bid_tick b) v (level_pool b).
Definition set_pool v (b : Book) := mkHpBook (bids b) (asks b) (store b) (best_bid_tick b) (best_ask_tick b) v.

Definition best_ask (b : Book) : option Z := best_ask_tick b.
Definition best_bid (b : Book) : option Z := best_bid_tick b.

Definition level (b : Book) (s : Side) (tick : Z) : option Level :=
  match s with Buy => li_get (bids b) tick | Sell => li_get (asks b) tick end.

Definition front_id (b : Book) (s : Side) (tick : Z) : option Z :=
  l ← level b s tick; head (ids l).

(** [Book::depth] *)
Definition hp_depth (b : Book) (s : Side) (n : nat) : list (Z * Z) :=
  match s with Buy => li_depth (bids b) n | Sell => li_depth (asks b) n end.

Definition take_level (b : Book) : Level * Book :=
  match level_pool b with
  | [] => (level_default, b)
  | l :: pool => (l, set_pool pool b)
  end.

Definition recycle_level (l : Level) (b : Book) : Book :=
  let l := level_clear l in
  if (length (level_pool b) <? LEVEL_POOL_CAP)%nat then set_pool (l :: level_pool b) b else b.

(** [level_mut], with what is done to the level. *)
Definition level_mut (b : Book) (s : Side) (tick : Z) (f : Level → Level) : Book :=
  match s with
  | Buy =>
      if li_contains (bids b) tick then
        match li_get_mut (bids b) tick f with Some i => set_bids i b | None => b end
      else
        let '(lvl, b) := take_level b in
        set_bids (li_get_or_insert_with (bids b) tick lvl f) b
  | Sell =>
      if li_contains (asks b) tick then
        match li_get_mut (asks b) tick f with Some i => set_asks i b | None => b end
      else
        let '(lvl, b) := take_level b in
        set_asks (li_get_or_insert_with (asks b) tick lvl f) b
  end.

Definition note_insert (b : Book) (s : Side) (tick : Z) : Book :=
  match s with
  | Buy => if match best_bid_tick b with Some x => tick >? x | None => true end
           then set_best_bid (Some tick) b else b
  | Sell => if match best_ask_tick b with Some x => tick <? x | None => true end
            then set_best_ask (Some tick) b else b
  end.

Definition note_remove_level (b : Book) (s : Side) (tick : Z) : Book :=
  match s with
  | Buy => if decide (best_bid_tick b = Some tick)
           then set_best_bid (li_best_tick (bids b)) b else b
  | Sell => if decide (best_ask_tick b = Some tick)
            then set_best_ask (li_best_tick (asks b)) b else b
  end.

(** [level_mut_for_remove], with what is done to the level. *)
Definition level_mut_for_remove (b : Book) (s : Side) (tick : Z) (f : Level → Level) : option Book :=
  match s with
  | Buy => (λ i, set_bids i b) <$> li_get_mut (bids b) tick f
  | Sell => (λ i, set_asks i b) <$> li_get_mut (asks b) tick f
  end.

Definition recycle_removed (removed : option Level) (b : Book) : Book :=
  match removed with Some l => recycle_level l b | None => b end.

Definition remove_empty_level (b : Book) (s : Side) (tick : Z) : Book :=
  let '(removed, b) :=
    match s with
    | Buy => let '(r, i) := li_remove (bids b) tick in (r, set_bids i b)
    | Sell => let '(r, i) := li_remove (asks b) tick in (r, set_asks i b)
    end in
  let b := recycle_removed removed b in
  note_remove_level b s tick.

(** The total of a level, reduced and kept non-negative. *)
Definition debit (lot : Z) (total : Z) : Z :=
  let total := (total -ᵢ lot)%rust in if total <? 0 then 0 else total.

(** [ids.retain(|&x| x != id)] *)
Definition retain_not (i : Z) (l : list Z) : list Z := filter (λ x, x ≠ i) l.

(** Is the level at [tick] there and without ids? *)
Definition level_empty (b : Book) (s : Side) (tick : Z) : bool :=
  match level b s tick with Some l => match ids l with [] => true | _ => false end | None => false end.

Definition remove_from_level (b : Book) (s : Side) (tick i open_lot : Z) : Book :=
  match level_mut_for_remove b s tick
          (λ l, mkLevel (debit open_lot (total_lot l)) (retain_not i (ids l))) with
  | Some b => if level_empty b s tick then remove_empty_level b s tick else b
  | None => b
  end.

Definition insert_limit (b : Book) (order : HpOrder) : Z * Book :=
  let s := side order in
  let tick := price_tick order in
  let lot := open_lot order in
  let '(i, st) := store_insert (store b) order in
  let b := set_store st b in
  let b := level_mut b s tick (level_push i lot) in
  (i, note_insert b s tick).

(** [rest]; the code panics when the order is not stored. *)
Definition rest (b : Book) (i : Z) : option Book :=
  order ← store_get (store b) i;
  let '(s, tick, lot) := (side order, price_tick order, open_lot order) in
  let b := level_mut b s tick (level_push i lot) in
  Some (note_insert b s tick).

Definition cancel (b : Book) (i : Z) : bool * Book :=
  match store_remove (store b) i with
  | (None, _) => (false, b)
  | (Some order, st) =>
      (true, remove_from_level (set_store st b) (side order) (price_tick order) i (open_lot order))
  end.

(** What a fill does to the level of the order: [retain] unless it is in front. *)
Definition fill_level (i qty remaining : Z) (l : Level) : Level :=
  mkLevel (debit qty (total_lot l))
    (if remaining <=? 0 then
       if decide (head (ids l) = Some i) then tail (ids l) else retain_not i (ids l)
     else ids l).

Definition fill_order (b : Book) (i qty : Z) : option HpOrder * Book :=
  match store_get (store b) i with
  | None => (None, b)
  | Some order =>
      let s := side order in
      let tick := price_tick order in
      let remaining := (open_lot order -ᵢ qty)%rust in
      let b := set_store (store_update (store b) i
                 (set_open_lot (if remaining <? 0 then 0 else remaining))) b in
      match level_mut_for_remove b s tick (fill_level i qty remaining) with
      | None =>
          let b := if remaining <=? 0 then set_store (store_remove (store b) i).2 b else b in
          (store_get (store b) i, b)
      | Some b =>
          if remaining <=? 0 then
            let b := if level_empty b s tick then remove_empty_level b s tick else b in
            (None, set_store (store_remove (store b) i).2 b)
          else (store_get (store b) i, b)
      end
  end.

End Book.
#[global] Arguments Book : clear implicits.

(** ** The book as maps *)
Section Facts.
Context {BI AI : Type} `{LB : LevelIndex BI} `{LA : LevelIndex AI}
  `{SB : !LevelIndexSpec BI Buy} `{SA : !LevelIndexSpec AI Sell}.
Implicit Types (b : Book BI AI) (s : Side) (t i : Z) (l : Level).

(** Closes goals that hold side by side. *)
Ltac sides := try done; try (by intros []); try (by intros [] ?).

Definition levels b s : gmap Z Level :=
  match s with Buy => li_map (bids b) | Sell => li_map (asks b) end.

Definition best b s : option Z := match s with Buy => best_bid_tick b | Sell => best_ask_tick b end.

Definition idx_ok b : Prop := li_ok (bids b) ∧ li_ok (asks b).
Definition pool_ok b : Prop := Forall (eq level_default) (level_pool b).

(** Everything but the levels of side [s] is as it was. *)
Definition same_but_levels s b b' : Prop :=
  store b' = store b ∧ (∀ s', best b' s' = best b s') ∧ (∀ s', s' ≠ s → levels b' s' = levels b s').

Lemma level_spec b s t : idx_ok b → in_i64 t → level b s t = levels b s !! t.
Proof. intros [Hb Ha] Ht. destruct s; by apply li_get_spec. Qed.

Lemma levels_keys b s t : idx_ok b → is_Some (levels b s !! t) → in_i64 t.
Proof. intros [Hb Ha] Ht. destruct s; [by apply (li_keys (bids b))|by apply (li_keys (asks b))]. Qed.

Lemma level_mut_spec b s t f :
  idx_ok b → pool_ok b → in_i64 t →
  let b' := level_mut b s t f in
  idx_ok b' ∧ pool_ok b' ∧ same_but_levels s b b'
  ∧ levels b' s = <[t := f (default level_default (levels b s !! t))]> (levels b s).
Proof.
  intros [Hb Ha] Hp Ht b'. subst b'. unfold level_mut, same_but_levels. destruct s.
  - rewrite li_contains_spec by done. cbn [levels].
    destruct (li_map (bids b) !! t) as [l|] eqn:El.
    + rewrite bool_decide_true by eauto.
      destruct (li_get_mut_Some (bids b) t f l Hb Ht El) as (i' & -> & Hok & Hm).
      split_and!; sides.
    + rewrite bool_decide_false by (by intros []). unfold take_level.
      destruct (level_pool b) as [|l0 pool] eqn:Epool.
      * destruct (li_get_or_insert_spec (bids b) t level_default f Hb Ht El) as [Hok Hm].
        split_and!; sides.
      * unfold pool_ok in *. rewrite Epool in Hp. apply Forall_cons in Hp as [<- Hp].
        destruct (li_get_or_insert_spec (bids b) t level_default f Hb Ht El) as [Hok Hm].
        split_and!; sides.
  - rewrite li_contains_spec by done. cbn [levels].
    destruct (li_map (asks b) !! t) as [l|] eqn:El.
    + rewrite bool_decide_true by eauto.
      destruct (li_get_mut_Some (asks b) t f l Ha Ht El) as (i' & -> & Hok & Hm).
      split_and!; sides.
    + rewrite bool_decide_false by (by intros []). unfold take_level.
      destruct (level_pool b) as [|l0 pool] eqn:Epool.
      * destruct (li_get_or_insert_spec (asks b) t level_default f Ha Ht El) as [Hok Hm].
        split_and!; sides.
      * unfold pool_ok in *. rewrite Epool in Hp. apply Forall_cons in Hp as [<- Hp].
        destruct (li_get_or_insert_spec (asks b) t level_default f Ha Ht El) as [Hok Hm].
        split_and!; sides.
Qed.

Lemma level_mut_for_remove_spec b s t f l :
  idx_ok b → in_i64 t → levels b s !! t = Some l →
  ∃ b', level_mut_for_remove b s t f = Some b' ∧ idx_ok b' ∧ level_pool b' = level_pool b
    ∧ same_but_levels s b b' ∧ levels b' s = <[t := f l]> (levels b s).
Proof.
  intros [Hb Ha] Ht Hl. unfold level_mut_for_remove, same_but_levels. destruct s; cbn [levels] in *.
  - destruct (li_get_mut_Some (bids b) t f l Hb Ht Hl) as (i' & -> & Hok & Hm).
    eexists. split; [reflexivity|]. split_and!; sides.
  - destruct (li_get_mut_Some (asks b) t f l Ha Ht Hl) as (i' & -> & Hok & Hm).
    eexists. split; [reflexivity|]. split_and!; sides.
Qed.

(** ** The cached best ticks *)

Lemma best_of_insert s (m : gmap Z Level) x t l :
  best_of s m x →
  best_of s (<[t := l]> m)
    (if match x with Some y => match s with Buy => t >? y | Sell => t <? y end | None => true end
     then Some t else x).
Proof.
  intros Hx. destruct x as [y|]; cbn in Hx.
  - destruct Hx as [Hy Hbest].
    assert (Hsome : ∀ t', is_Some (<[t := l]> m !! t') → t' = t ∨ t' = y ∨ tick_before s y t').
    { intros t' Ht'. destruct (decide (t = t')) as [<-|Hne]; [by left|right].
      rewrite lookup_insert_ne in Ht' by done. by apply Hbest. }
    destruct (match s with Buy => t >? y | Sell => t <? y end) eqn:E.
    + split; [by rewrite lookup_insert_eq|]. intros t' [->|[->|Ht']]%Hsome; [by left|right|right];
        destruct s; cbn in *; try apply Z.gtb_lt in E; zb; lia.
    + assert (t = y ∨ tick_before s y t) as Hty.
      { destruct s; cbn in *; [rewrite Z.gtb_ltb in E|]; zb; lia. }
      split.
      * destruct (decide (t = y)) as [->|Hne]; [by rewrite lookup_insert_eq|by rewrite lookup_insert_ne].
      * intros t' [->|[->|Ht']]%Hsome; [done|by left|by right].
  - subst m. split; [by rewrite lookup_insert_eq|]. intros t' Ht'.
    destruct (decide (t = t')) as [<-|Hne]; [by left|].
    rewrite lookup_insert_ne, lookup_empty in Ht' by done. by destruct Ht'.
Qed.

Lemma note_insert_spec b s t m l :
  idx_ok b → levels b s = <[t := l]> m → best_of s m (best b s) →
  let b' := note_insert b s t in
  idx_ok b' ∧ store b' = store b ∧ level_pool b' = level_pool b
  ∧ (∀ s', levels b' s' = levels b s') ∧ best_of s (levels b s) (best b' s)
  ∧ (∀ s', s' ≠ s → best b' s' = best b s').
Proof.
  intros Hok Hm Hbest b'. subst b'. pose proof (best_of_insert s m (best b s) t l Hbest) as Hnew.
  rewrite <- Hm in Hnew. unfold note_insert. destruct s; cbn [best] in *.
  - destruct (match best_bid_tick b with Some x => t >? x | None => true end); split_and!; sides.
  - destruct (match best_ask_tick b with Some x => t <? x | None => true end); split_and!; sides.
Qed.

Lemma best_of_update s (m : gmap Z Level) x t l l0 :
  best_of s m x → m !! t = Some l0 → best_of s (<[t := l]> m) x.
Proof.
  destruct x as [y|]; cbn; [|intros ->; by rewrite lookup_empty].
  intros [Hy Hb] Ht. split.
  - destruct (decide (t = y)) as [->|]; [by rewrite lookup_insert_eq|by rewrite lookup_insert_ne].
  - intros t' Ht'. apply Hb. destruct (decide (t = t')) as [<-|]; [eauto|by rewrite lookup_insert_ne in Ht'].
Qed.

Lemma best_of_delete s (m : gmap Z Level) x t :
  best_of s m x → x ≠ Some t → best_of s (delete t m) x.
Proof.
  destruct x as [y|]; cbn.
  - intros [Hy Hb] Hne. assert (t ≠ y) by congruence. split; [by rewrite lookup_delete_ne|].
    intros t' Ht'. destruct (decide (t = t')) as [->|Hn].
    + rewrite lookup_delete_eq in Ht'. by destruct Ht'.
    + rewrite lookup_delete_ne in Ht' by done. by apply Hb.
  - intros -> _. apply delete_empty.
Qed.

Lemma recycle_removed_spec r b :
  pool_ok b →
  let b' := recycle_removed r b in
  bids b' = bids b ∧ asks b' = asks b ∧ store b' = store b ∧ best_bid_tick b' = best_bid_tick b
  ∧ best_ask_tick b' = best_ask_tick b ∧ pool_ok b'.
Proof.
  intros Hp b'. subst b'. unfold recycle_removed, recycle_level. destruct r as [l|]; [|done].
  destruct (_ <? _)%nat; split_and!; try done. by constructor.
Qed.

Lemma remove_empty_level_spec b s t :
  idx_ok b → pool_ok b → in_i64 t → best_of s (levels b s) (best b s) →
  let b' := remove_empty_level b s t in
  idx_ok b' ∧ pool_ok b' ∧ store b' = store b ∧ levels b' s = delete t (levels b s)
  ∧ best_of s (levels b' s) (best b' s)
  ∧ (∀ s', s' ≠ s → levels b' s' = levels b s' ∧ best b' s' = best b s').
Proof.
  intros [Hb Ha] Hp Ht Hbest b'. subst b'. unfold remove_empty_level. destruct s; cbn [levels best] in *.
  - destruct (li_remove_spec (bids b) t Hb Ht) as (i' & -> & Hok & Hm).
    set (b1 := recycle_removed (li_map (bids b) !! t) (set_bids i' b)).
    assert (Hb1 : bids b1 = i' ∧ asks b1 = asks b ∧ store b1 = store b ∧ best_bid_tick b1 = best_bid_tick b
      ∧ best_ask_tick b1 = best_ask_tick b ∧ pool_ok b1) by (by apply recycle_removed_spec).
    destruct Hb1 as (Hi & Ha1 & Hs1 & Hbb & Hba & Hp1). unfold note_remove_level.
    destruct (decide (best_bid_tick b1 = Some t)) as [He|He].
    + split_and!; cbn; rewrite ?Hi, ?Ha1, ?Hs1; sides; [split; cbn; by rewrite ?Hi, ?Ha1|by apply li_best_spec|].
      intros []; cbn; by rewrite ?Ha1, ?Hba.
    + split_and!; cbn; rewrite ?Hi, ?Ha1, ?Hs1, ?Hbb; sides; [split; cbn; by rewrite ?Hi, ?Ha1| |].
      * rewrite Hm. apply best_of_delete; [done|congruence].
      * intros []; cbn; by rewrite ?Ha1, ?Hba.
  - destruct (li_remove_spec (asks b) t Ha Ht) as (i' & -> & Hok & Hm).
    set (b1 := recycle_removed (li_map (asks b) !! t) (set_asks i' b)).
    assert (Hb1 : asks b1 = i' ∧ bids b1 = bids b ∧ store b1 = store b ∧ best_bid_tick b1 = best_bid_tick b
      ∧ best_ask_tick b1 = best_ask_tick b ∧ pool_ok b1).
    { destruct (recycle_removed_spec (li_map (asks b) !! t) (set_asks i' b) Hp) as (?&?&?&?&?&?). done. }
    destruct Hb1 as (Hi & Ha1 & Hs1 & Hbb & Hba & Hp1). unfold note_remove_level.
    destruct (decide (best_ask_tick b1 = Some t)) as [He|He].
    + split_and!; cbn; rewrite ?Hi, ?Ha1, ?Hs1; sides; [split; cbn; by rewrite ?Hi, ?Ha1|by apply li_best_spec|].
      intros []; cbn; by rewrite ?Ha1, ?Hbb.
    + split_and!; cbn; rewrite ?Hi, ?Ha1, ?Hs1, ?Hba; sides; [split; cbn; by rewrite ?Hi, ?Ha1| |].
      * rewrite Hm. apply best_of_delete; [done|congruence].
      * intros []; cbn; by rewrite ?Ha1, ?Hbb.
Qed.

(** ** The invariant *)

Definition resting_in b i s t : Prop :=
  ∃ o, store_get (store b) i = Some o ∧ side o = s ∧ price_tick o = t ∧ 0 < open_lot o <= i64_max.

(** Levels and store agree: the ids of a level are distinct stored orders of that
    side and tick with something open, every stored order but the taker in
    flight is in its level, no level is empty, the cached best ticks are the
    best ticks, and pooled levels are blank. *)
Definition book_ok (taker : option Z) b : Prop :=
  idx_ok b ∧ pool_ok b ∧ store_ok (store b) ∧ (∀ s, best_of s (levels b s) (best b s))
  ∧ (∀ s t l, levels b s !! t = Some l →
       ids l ≠ [] ∧ NoDup (ids l) ∧ ∀ i, i ∈ ids l → taker ≠ Some i ∧ resting_in b i s t)
  ∧ (∀ i o, store_get (store b) i = Some o → taker ≠ Some i →
       ∃ l, levels b (side o) !! price_tick o = Some l ∧ i ∈ ids l).

Lemma book_ok_new : book_ok None (hp_book_new : Book BI AI).
Proof.
  destruct (li_default_spec (I:=BI)) as [Hb Hbm], (li_default_spec (I:=AI)) as [Ha Ham].
  assert (Hlv : ∀ s, levels (hp_book_new : Book BI AI) s = ∅) by (by intros []).
  split_and!; [done|constructor|apply store_new_ok| | |].
  - intros s. rewrite Hlv. by destruct s.
  - intros s t l. by rewrite Hlv, lookup_empty.
  - intros i o [_ Hl]%store_get_Some. done.
Qed.

(** Dropping something from a level, and the level itself once it is empty. *)
Lemma level_drop_spec b s t f l :
  idx_ok b → pool_ok b → (∀ s, best_of s (levels b s) (best b s)) → levels b s !! t = Some l →
  ∃ b1, level_mut_for_remove b s t f = Some b1 ∧
  let b' := if level_empty b1 s t then remove_empty_level b1 s t else b1 in
  idx_ok b' ∧ pool_ok b' ∧ store b' = store b ∧ (∀ s, best_of s (levels b' s) (best b' s))
  ∧ levels b' s = (if decide (ids (f l) = []) then delete t (levels b s)
                   else <[t := f l]> (levels b s))
  ∧ (∀ s', s' ≠ s → levels b' s' = levels b s').
Proof.
  intros Hok Hp Hbest Hl. assert (Ht : in_i64 t) by (eapply levels_keys; eauto).
  destruct (level_mut_for_remove_spec b s t f l Hok Ht Hl) as (b1 & -> & Hok1 & Hp1 & (Hst & Hb1 & Hoth) & Hm).
  exists b1. split; [done|].
  assert (Hbest1 : ∀ s', best_of s' (levels b1 s') (best b1 s')).
  { intros s'. destruct (decide (s' = s)) as [->|Hne].
    - rewrite Hm, Hb1. by eapply best_of_update.
    - rewrite Hoth, Hb1 by done. apply Hbest. }
  assert (Hp1' : pool_ok b1) by (unfold pool_ok; by rewrite Hp1).
  unfold level_empty. rewrite level_spec, Hm, lookup_insert_eq by done.
  destruct (ids (f l)) as [|i0 il] eqn:Eids; cbn zeta iota.
  - rewrite decide_True by done.
    destruct (remove_empty_level_spec b1 s t Hok1 Hp1' Ht (Hbest1 s)) as (?&?&Hs2&Hm2&Hb2&Ho2).
    split_and!; try done; [congruence| | |].
    + intros s'. destruct (decide (s' = s)) as [->|Hne]; [done|].
      destruct (Ho2 s' Hne) as [-> ->]. apply Hbest1.
    + rewrite Hm2, Hm. by rewrite delete_insert_eq.
    + intros s' Hne. destruct (Ho2 s' Hne) as [-> _]. by apply Hoth.
  - rewrite decide_False by done. split_and!; try done.
Qed.

(** An order and its level are gone from a well-formed book. *)
Lemma drop_ok tk b b' i o l l' :
  book_ok tk b → store_get (store b) i = Some o → tk ≠ Some i →
  levels b (side o) !! price_tick o = Some l → ids l' = retain_not i (ids l) →
  idx_ok b' → pool_ok b' → store_ok (store b') → (∀ s, best_of s (levels b' s) (best b' s)) →
  (∀ j, store_get (store b') j = if decide (i = j) then None else store_get (store b) j) →
  levels b' (side o) = (if decide (ids l' = []) then delete (price_tick o) (levels b (side o))
                        else <[price_tick o := l']> (levels b (side o))) →
  (∀ s', s' ≠ side o → levels b' s' = levels b s') → book_ok tk b'.
Proof.
  intros (_ & _ & _ & _ & Hlv & Hcov) Hg Htk Hl Hids Hidx Hp Hst Hbest Hget Hm Hoth.
  assert (Hlook : ∀ s t, (s, t) ≠ (side o, price_tick o) → levels b' s !! t = levels b s !! t).
  { intros s t Hne. destruct (decide (s = side o)) as [->|Hs]; [|by rewrite Hoth].
    rewrite Hm. assert (price_tick o ≠ t) by congruence. case_decide;
      [by rewrite lookup_delete_ne|by rewrite lookup_insert_ne]. }
  assert (Hres : ∀ j s t, j ≠ i → resting_in b j s t → resting_in b' j s t).
  { intros j s t Hj (x & Hx & ?). exists x. rewrite Hget, decide_False by done. done. }
  split_and!; try done.
  - intros s t lv Hlvl. destruct (decide ((s, t) = (side o, price_tick o))) as [[= -> ->]|Hne].
    + rewrite Hm in Hlvl. destruct (Hlv _ _ _ Hl) as (_ & Hnd & Hin).
      case_decide as Hempty; [by rewrite lookup_delete_eq in Hlvl|].
      rewrite lookup_insert_eq in Hlvl. simplify_eq. split_and!; [done| |].
      * rewrite Hids. by apply NoDup_filter.
      * rewrite Hids. intros j [Hj Hjin]%list_elem_of_filter. destruct (Hin j Hjin). eauto.
    + rewrite Hlook in Hlvl by done. destruct (Hlv _ _ _ Hlvl) as (? & ? & Hin). split_and!; try done.
      intros j Hj. destruct (Hin j Hj) as [? Hr]. split; [done|]. apply Hres; [|done].
      intros ->. destruct Hr as (x & Hx & Hxs & Hxt & _). rewrite Hg in Hx. simplify_eq.
  - intros j x Hx Hj. rewrite Hget in Hx. case_decide as Hij; [done|].
    destruct (Hcov j x Hx Hj) as (lv & Hlvl & Hjin).
    destruct (decide ((side x, price_tick x) = (side o, price_tick o))) as [[= Hs Ht]|Hne].
    + rewrite Hs, Ht in *. rewrite Hl in Hlvl. simplify_eq.
      assert (Hkeep : j ∈ ids l') by (rewrite Hids; apply list_elem_of_filter; by split).
      rewrite Hm. rewrite decide_False by (intros He; rewrite He in Hkeep; by apply elem_of_nil in Hkeep).
      exists l'. by rewrite lookup_insert_eq.
    + rewrite Hlook by done. by exists lv.
Qed.

Lemma remove_empty_level_set_store b s t st :
  remove_empty_level (set_store st b) s t = set_store st (remove_empty_level b s t).
Proof.
  unfold remove_empty_level. destruct s; cbn [bids asks set_store].
  - destruct (li_remove (bids b) t) as [[l|] i]; unfold recycle_removed, recycle_level, note_remove_level;
      cbn; repeat case_match; simplify_eq; done.
  - destruct (li_remove (asks b) t) as [[l|] i]; unfold recycle_removed, recycle_level, note_remove_level;
      cbn; repeat case_match; simplify_eq; done.
Qed.

(** [cancel] removes exactly the order. *)
Lemma cancel_spec tk b i o :
  book_ok tk b → store_get (store b) i = Some o → tk ≠ Some i →
  ∃ b', cancel b i = (true, b') ∧ book_ok tk b'
    ∧ (∀ j, store_get (store b') j = if decide (i = j) then None else store_get (store b) j)
    ∧ ∃ l, levels b (side o) !! price_tick o = Some l ∧ i ∈ ids l
      ∧ levels b' (side o) = (let l' := mkLevel (debit (open_lot o) (total_lot l)) (retain_not i (ids l)) in
          if decide (ids l' = []) then delete (price_tick o) (levels b (side o))
          else <[price_tick o := l']> (levels b (side o)))
      ∧ (∀ s', s' ≠ side o → levels b' s' = levels b s').
Proof.
  intros Hok Hg Htk. pose proof Hok as (Hidx & Hp & Hst & Hbest & Hlv & Hcov).
  destruct (Hcov i o Hg Htk) as (l & Hl & Hin).
  destruct (store_remove_ok (store b) i o Hst Hg) as (st' & Hrm & Hst' & Hget).
  unfold cancel. rewrite Hrm. unfold remove_from_level.
  set (f := λ l, mkLevel (debit (open_lot o) (total_lot l)) (retain_not i (ids l))).
  destruct (level_drop_spec (set_store st' b) (side o) (price_tick o) f l) as (b1 & -> & H1);
    try done. cbn zeta in H1. destruct H1 as (Hi1 & Hp1 & Hs1 & Hb1 & Hm1 & Ho1).
  eexists. split; [reflexivity|].
  assert (Hm1' := Hm1). change (levels (set_store st' b) (side o)) with (levels b (side o)) in Hm1'.
  split_and!.
  - eapply (drop_ok tk b _ i o l (f l)); try done; rewrite Hs1; done.
  - rewrite Hs1. exact Hget.
  - exists l. split_and!; done.
Qed.

Lemma tail_retain_not i il : NoDup (i :: il) → retain_not i (i :: il) = il.
Proof.
  intros [Hn _]%NoDup_cons. unfold retain_not. rewrite filter_cons_False by (by intros []).
  induction il as [|x il IH]; [done|]. apply not_elem_of_cons in Hn as [Hx Hn].
  rewrite filter_cons_True by done. by rewrite IH.
Qed.

(** A fill of the whole open quantity of the order in front of its level. *)
Lemma fill_order_all tk b s t i o l il :
  book_ok tk b → levels b s !! t = Some l → ids l = i :: il →
  store_get (store b) i = Some o →
  ∃ b', fill_order b i (open_lot o) = (None, b') ∧ book_ok tk b'
    ∧ (∀ j, store_get (store b') j = if decide (i = j) then None else store_get (store b) j)
    ∧ levels b' s = (let l' := mkLevel (debit (open_lot o) (total_lot l)) il in
          if decide (il = []) then delete t (levels b s) else <[t := l']> (levels b s))
    ∧ (∀ s', s' ≠ s → levels b' s' = levels b s').
Proof.
  intros Hok Hl Hil Hg. pose proof Hok as (Hidx & Hp & Hst & Hbest & Hlv & Hcov).
  destruct (Hlv s t l Hl) as (_ & Hnd & Hin). destruct (Hin i) as (Htk & x & Hx & Hs & Ht & Hpos);
    [rewrite Hil; by left|]. rewrite Hg in Hx. simplify_eq. rewrite Hil in Hnd.
  unfold fill_order. rewrite Hg. rewrite Z.sub_diag, i64_wrap_id by (unfold in_i64; lia).
  set (b0 := set_store _ b).
  destruct (level_drop_spec b0 (side x) (price_tick x) (fill_level i (open_lot x) 0) l)
    as (b1 & -> & H1); try done. cbn zeta in H1. destruct H1 as (Hi1 & Hp1 & Hs1 & Hb1 & Hm1 & Ho1).
  change (0 <=? 0) with true. cbn iota.
  set (b2 := if level_empty b1 _ _ then _ else _) in *.
  assert (Hf : fill_level i (open_lot x) 0 l = mkLevel (debit (open_lot x) (total_lot l)) il).
  { unfold fill_level. rewrite Hil. cbn. by rewrite decide_True. }
  assert (Hidf : ids (fill_level i (open_lot x) 0 l) = il) by (by rewrite Hf).
  assert (Hst0 : store_ok (store b0)) by (apply store_update_ok; done).
  assert (Hg0 : store_get (store b2) i = Some (set_open_lot 0 x)).
  { rewrite Hs1. cbn. rewrite store_update_get, decide_True, Hg by done. done. }
  destruct (store_remove_ok (store b2) i _ ltac:(by rewrite Hs1) Hg0) as (st' & Hrm & Hst' & Hget').
  rewrite Hrm. cbn [snd]. eexists. split; [reflexivity|].
  assert (Hget : ∀ j, store_get st' j = if decide (i = j) then None else store_get (store b) j).
  { intros j. rewrite Hget'. destruct (decide (i = j)) as [Hij|Hij]; [done|]. rewrite Hs1. cbn.
    by rewrite store_update_get, decide_False by done. }
  rewrite Hidf in Hm1. split_and!; try done.
  - eapply (drop_ok tk b _ i x l (fill_level i (open_lot x) 0 l)); try done.
    + rewrite Hidf, Hil. symmetry. by apply tail_retain_not.
    + rewrite Hidf. exact Hm1.
  - rewrite Hf in Hm1. exact Hm1.
Qed.

(** One level of a well-formed book is written; it keeps the ids it had, and the
    orders keep their places. *)
Lemma upsert_ok tk tk' b b' s t l' :
  book_ok tk b → idx_ok b' → pool_ok b' → store_ok (store b') → (∀ s, best_of s (levels b' s) (best b' s)) →
  levels b' s = <[t := l']> (levels b s) → (∀ s', s' ≠ s → levels b' s' = levels b s') →
  (∀ i, tk ≠ Some i → tk' ≠ Some i) → (∀ i s t, resting_in b i s t → resting_in b' i s t) →
  (ids l' ≠ [] ∧ NoDup (ids l') ∧ ∀ i, i ∈ ids l' → tk' ≠ Some i ∧ resting_in b' i s t) →
  (∀ l i, levels b s !! t = Some l → i ∈ ids l → i ∈ ids l') →
  (∀ i o, store_get (store b') i = Some o → tk' ≠ Some i →
     (side o = s ∧ price_tick o = t ∧ i ∈ ids l')
     ∨ tk ≠ Some i ∧ ∃ x, store_get (store b) i = Some x ∧ side x = side o ∧ price_tick x = price_tick o) →
  book_ok tk' b'.
Proof.
  intros (_ & _ & _ & _ & Hlv & Hcov) Hidx Hp Hst Hbest Hm Hoth Htk Hres Hnew Hkeep Hold.
  assert (Hlook : ∀ s' t', (s', t') ≠ (s, t) → levels b' s' !! t' = levels b s' !! t').
  { intros s' t' Hne. destruct (decide (s' = s)) as [->|Hs]; [|by rewrite Hoth].
    rewrite Hm. assert (t ≠ t') by congruence. by rewrite lookup_insert_ne. }
  split_and!; try done.
  - intros s' t' lv Hlvl. destruct (decide ((s', t') = (s, t))) as [[= -> ->]|Hne].
    + rewrite Hm, lookup_insert_eq in Hlvl. by simplify_eq.
    + rewrite Hlook in Hlvl by done. destruct (Hlv _ _ _ Hlvl) as (? & ? & Hin).
      split_and!; try done. intros j Hj. destruct (Hin j Hj). auto.
  - intros j y Hy Hj. destruct (Hold j y Hy Hj) as [(<- & <- & ?)|(Hj' & x & Hx & Hxs & Hxt)].
    { exists l'. by rewrite Hm, lookup_insert_eq. }
    destruct (Hcov j x Hx Hj') as (lv & Hlvl & Hjin). rewrite Hxs, Hxt in Hlvl.
    destruct (decide ((side y, price_tick y) = (s, t))) as [[= <- <-]|Hne].
    + exists l'. rewrite Hm, lookup_insert_eq. eauto.
    + exists lv. by rewrite Hlook.
Qed.

(** A partial fill of a resting order. *)
Lemma fill_order_part tk b s t i o l q :
  book_ok tk b → levels b s !! t = Some l → i ∈ ids l →
  store_get (store b) i = Some o → 0 < q < open_lot o →
  ∃ b', fill_order b i q = (Some (set_open_lot (open_lot o - q) o), b') ∧ book_ok tk b'
    ∧ (∀ j, store_get (store b') j = if decide (i = j) then Some (set_open_lot (open_lot o - q) o)
                                     else store_get (store b) j)
    ∧ levels b' s = <[t := mkLevel (debit q (total_lot l)) (ids l)]> (levels b s)
    ∧ (∀ s', s' ≠ s → levels b' s' = levels b s').
Proof.
  intros Hok Hl Hil Hg Hq. pose proof Hok as (Hidx & Hp & Hst & Hbest & Hlv & Hcov).
  destruct (Hlv s t l Hl) as (Hne & Hnd & Hin). destruct (Hin i Hil) as (Htk & x & Hx & Hs & Ht & Hpos).
  rewrite Hg in Hx. simplify_eq.
  unfold fill_order. rewrite Hg. rewrite i64_wrap_id by (unfold in_i64, i64_max in *; lia).
  rewrite (proj2 (Z.ltb_ge _ 0)) by lia. rewrite (proj2 (Z.leb_gt _ 0)) by lia.
  set (b0 := set_store _ b).
  assert (Hkey : in_i64 (price_tick x)) by (eapply levels_keys; eauto).
  destruct (level_mut_for_remove_spec b0 (side x) (price_tick x) (fill_level i q (open_lot x - q)) l)
    as (b1 & -> & Hi1 & Hp1 & (Hs1 & Hb1 & Ho1) & Hm1); try done.
  assert (Hf : fill_level i q (open_lot x - q) l = mkLevel (debit q (total_lot l)) (ids l)).
  { unfold fill_level. by rewrite (proj2 (Z.leb_gt _ 0)) by lia. }
  rewrite Hf in Hm1.
  assert (Hget : ∀ j, store_get (store b1) j = if decide (i = j) then Some (set_open_lot (open_lot x - q) x)
                                     else store_get (store b) j).
  { intros j. rewrite Hs1. cbn. rewrite store_update_get. case_decide; [subst|done]. by rewrite Hg. }
  rewrite Hget, decide_True by done. eexists. split; [reflexivity|].
  assert (Hres : ∀ j s t, resting_in b j s t → resting_in b1 j s t).
  { intros j s t (y & Hy & Hys & Hyt & Hyo). unfold resting_in. rewrite Hget.
    case_decide as Hij; [subst j|by exists y]. rewrite Hg in Hy. simplify_eq.
    eexists. split; [reflexivity|]. cbn. split_and!; [done..|lia|lia]. }
  split_and!; try done.
  eapply (upsert_ok tk tk b b1 (side x) (price_tick x)); try done.
  - unfold pool_ok. by rewrite Hp1.
  - rewrite Hs1. by apply store_update_ok.
  - intros s'. destruct (decide (s' = side x)) as [->|Hs'].
    + rewrite Hm1, Hb1. eapply best_of_update; [apply Hbest|exact Hl].
    + rewrite Ho1, Hb1 by done. apply Hbest.
  - split_and!; try done. intros j Hj. destruct (Hin j Hj). auto.
  - intros l0 j Hl0 Hj. by simplify_eq.
  - intros j y Hy Hj. right. split; [done|]. rewrite Hget in Hy.
    case_decide as Hij; [subst j; simplify_eq; by exists x|by exists y].
Qed.

(** The ids of a level once the taker [i] is appended to it. *)
Lemma push_ids tk b s t i lot :
  book_ok tk b → tk = Some i →
  let l := level_push i lot (default level_default (levels b s !! t)) in
  ids l ≠ [] ∧ NoDup (ids l) ∧ ∀ j, j ∈ ids l → resting_in b j s t ∨ j = i.
Proof.
  intros (_ & _ & _ & _ & Hlv & _) -> l. subst l. cbn [level_push ids].
  destruct (levels b s !! t) as [l|] eqn:El; cbn.
  - destruct (Hlv _ _ _ El) as (_ & Hnd & Hin). split_and!.
    + by destruct (ids l).
    + apply NoDup_app. split_and!; [done| |by apply NoDup_singleton].
      intros j Hj ->%list_elem_of_singleton. by destruct (Hin i Hj).
    + intros j [Hj| ->%list_elem_of_singleton]%elem_of_app; [left; by apply Hin|by right].
  - split_and!; [done|by apply NoDup_singleton|]. intros j ->%list_elem_of_singleton. by right.
Qed.

(** The taker's remainder is appended to its level. *)
Lemma rest_spec b i o :
  book_ok (Some i) b → store_get (store b) i = Some o → in_i64 (price_tick o) →
  0 < open_lot o <= i64_max →
  ∃ b', rest b i = Some b' ∧ book_ok None b' ∧ store b' = store b
    ∧ levels b' (side o)
      = <[price_tick o := level_push i (open_lot o)
            (default level_default (levels b (side o) !! price_tick o))]> (levels b (side o))
    ∧ (∀ s', s' ≠ side o → levels b' s' = levels b s').
Proof.
  intros (Hidx & Hp & Hst & Hbest & Hlv & Hcov) Hg Ht Hpos. unfold rest. rewrite Hg. cbn [mbind option_bind].
  destruct (level_mut_spec b (side o) (price_tick o) (level_push i (open_lot o)) Hidx Hp Ht)
    as (Hi1 & Hp1 & (Hs1 & Hb1 & Ho1) & Hm1).
  set (b1 := level_mut b _ _ _) in *.
  destruct (note_insert_spec b1 (side o) (price_tick o) _ _ Hi1 Hm1) as (Hi2 & Hs2 & Hp2 & Hl2 & Hb2 & Ho2).
  { rewrite Hb1. apply Hbest. }
  set (b2 := note_insert b1 _ _) in *. exists b2.
  assert (Hm2 : levels b2 (side o) = levels b1 (side o)) by apply Hl2.
  assert (Hoth : ∀ s', s' ≠ side o → levels b2 s' = levels b s') by (intros; rewrite Hl2; by apply Ho1).
  assert (Hres : ∀ j s t, resting_in b j s t → resting_in b2 j s t).
  { intros j s t (y & ?). exists y. by rewrite Hs2, Hs1. }
  split_and!; try done; [|congruence|congruence].
  eapply (upsert_ok (Some i) None b b2 (side o) (price_tick o)); try done; [| | |by rewrite Hm2| | |].
  - unfold pool_ok. by rewrite Hp2.
  - by rewrite Hs2, Hs1.
  - intros s'. destruct (decide (s' = side o)) as [->|Hs']; [by rewrite Hl2|].
    rewrite Hoth, Ho2, Hb1 by done. apply Hbest.
  - destruct (push_ids (Some i) b (side o) (price_tick o) i (open_lot o)) as (? & ? & Hin); [done..|].
    split_and!; try done. intros j [Hj| ->]%Hin; (split; [done|]); [by apply Hres|].
    exists o. by rewrite Hs2, Hs1.
  - intros l j -> Hj. cbn. apply elem_of_app. by left.
  - intros j y Hy _. rewrite Hs2, Hs1 in Hy. destruct (decide (i = j)) as [<-|Hij]; [left|right].
    + rewrite Hg in Hy. simplify_eq. split_and!; try done. apply elem_of_app. right. by left.
    + split; [congruence|]. by exists y.
Qed.

End Facts.
