(* ===== verification/HpEngine.v ===== *)
(** * match-core-hp: the engine

    Models [crates/match-core-hp/src/engine.rs].  The matching loops carry fuel,
    [None] meaning that it ran out (or that [rest] would panic); the theorems
    show that one more than the number of live orders is enough. *)
From stdpp Require Import gmap sorting.
From S2P Require Import Prelude HpTypes HpIndex HpBook.

#[local] Open Scope Z_scope.

Section Engine.
Context {BI AI : Type} `{LB : LevelIndex BI} `{LA : LevelIndex AI}.

(** [HpEngine]; the event buffer is the list every call returns. *)
Record HpEngine := mkHpEngine { book : Book BI AI; client_to_id : gmap Z (list Z) }.

Definition hp_engine_new : HpEngine := mkHpEngine hp_book_new ∅.

Definition hp_engine_with_capacity : HpEngine := mkHpEngine hp_book_with_capacity ∅.

Definition client_map_len (e : HpEngine) : nat := size (client_to_id e).

(** [defensive::remaining_open] *)
Definition remaining_open (st : OrderStore) (i : Z) : Z :=
  match store_get st i with Some o => open_lot o | None => 0 end.

(** [defensive::maker_open_and_client] *)
Definition maker_open_and_client (st : OrderStore) (i : Z) : option (Z * Z) :=
  o ← store_get st i;
  if open_lot o <=? 0 then None else Some (open_lot o, client_id o).

(** [defensive::set_taker_open] *)
Definition set_taker_open (st : OrderStore) (i open : Z) : OrderStore :=
  store_update st i (set_open_lot open).

(** [list.retain(|&x| x != id)], dropping the client's entry once it is empty. *)
Definition forget (client i : Z) (m : gmap Z (list Z)) : gmap Z (list Z) :=
  match m !! client with
  | Some l => let l := retain_not i l in
              match l with [] => delete client m | _ => <[client := l]> m end
  | None => m
  end.

(** The state a matching loop threads. *)
Record Matching := mkMatching {
  m_book : Book BI AI; m_clients : gmap Z (list Z); m_events : list HpEvent; m_open : Z }.

(** One fill of the loop, after the maker was found. *)
Definition take_maker (st : Matching) (taker_id taker_client tick maker_id maker_open maker_client : Z) :
    Matching :=
  let fill_qty := Z.min maker_open (m_open st) in
  let taker_open := (m_open st -ᵢ fill_qty)%rust in
  let '(r, b) := fill_order (m_book st) maker_id fill_qty in
  let maker_gone := match r with None => true | Some _ => false end in
  let maker_open_after := if maker_gone then 0 else (maker_open -ᵢ fill_qty)%rust in
  let ev := Fill maker_id taker_id maker_client taker_client tick fill_qty maker_open_after taker_open in
  let clients := if maker_gone && negb (maker_client =? 0)
                 then forget maker_client maker_id (m_clients st) else m_clients st in
  mkMatching b clients (m_events st ++ [ev]) taker_open.

Fixpoint match_buy_loop (fuel : nat) (st : Matching) (taker_id taker_client : Z)
    (limit_tick max_fills : option Z) (fill_count : Z) : option Matching :=
  match fuel with
  | O => None
  | S fuel =>
      if match max_fills with Some max => fill_count >=? max | None => false end then Some st
      else if m_open st <=? 0 then Some st
      else
        match best_ask (m_book st) with
        | None => Some st
        | Some ask_tick =>
        if match limit_tick with Some lim => ask_tick >? lim | None => false end then Some st
        else
        match front_id (m_book st) Sell ask_tick with
        | None => Some st
        | Some maker_id =>
        match maker_open_and_client (store (m_book st)) maker_id with
        | None => Some st
        | Some (maker_open, maker_client) =>
            let st := take_maker st taker_id taker_client ask_tick maker_id maker_open maker_client in
            match_buy_loop fuel st taker_id taker_client limit_tick max_fills
              (u32_wrap (fill_count + 1))
        end end end
  end.

Fixpoint match_sell_loop (fuel : nat) (st : Matching) (taker_id taker_client : Z)
    (limit_tick max_fills : option Z) (fill_count : Z) : option Matching :=
  match fuel with
  | O => None
  | S fuel =>
      if match max_fills with Some max => fill_count >=? max | None => false end then Some st
      else if m_open st <=? 0 then Some st
      else
        match best_bid (m_book st) with
        | None => Some st
        | Some bid_tick =>
        if match limit_tick with Some lim => bid_tick <? lim | None => false end then Some st
        else
        match front_id (m_book st) Buy bid_tick with
        | None => Some st
        | Some maker_id =>
        match maker_open_and_client (store (m_book st)) maker_id with
        | None => Some st
        | Some (maker_open, maker_client) =>
            let st := take_maker st taker_id taker_client bid_tick maker_id maker_open maker_client in
            match_sell_loop fuel st taker_id taker_client limit_tick max_fills
              (u32_wrap (fill_count + 1))
        end end end
  end.

(** Each round ends the taker or removes a live order. *)
Definition match_fuel (b : Book BI AI) : nat := S (Z.to_nat (live_len (store b))).

(** [match_buy] and [match_sell]: the loop, then the taker's open lot is written back. *)
Definition match_side
    (loop : nat → Matching → Z → Z → option Z → option Z → Z → option Matching)
    (e : HpEngine) (taker_id taker_client : Z) (limit_tick max_fills : option Z) :
    option (list HpEvent * HpEngine) :=
  let taker_open := remaining_open (store (book e)) taker_id in
  st ← loop (match_fuel (book e)) (mkMatching (book e) (client_to_id e) [] taker_open)
         taker_id taker_client limit_tick max_fills 0;
  let b := m_book st in
  Some (m_events st,
        mkHpEngine (set_store (set_taker_open (store b) taker_id (m_open st)) b) (m_clients st)).

Definition match_buy := match_side match_buy_loop.
Definition match_sell := match_side match_sell_loop.

Definition set_book (b : Book BI AI) (e : HpEngine) : HpEngine := mkHpEngine b (client_to_id e).

Definition push_client (client i : Z) (m : gmap Z (list Z)) : gmap Z (list Z) :=
  <[client := default [] (m !! client) ++ [i]]> m.

Definition on_limit (e : HpEngine) (s : Side) (price_tick qty_lot ts client_id : Z) :
    option (list HpEvent * HpEngine) :=
  if qty_lot <=? 0 then Some ([], e)
  else
    let order := mkHpOrder 0 s price_tick qty_lot qty_lot ts client_id in
    let '(taker_id, st) := store_insert (store (book e)) order in
    let e := set_book (set_store st (book e)) e in
    '(events, e) ← (match s with
                   | Buy => match_buy e taker_id client_id (Some price_tick) None
                   | Sell => match_sell e taker_id client_id (Some price_tick) None
                   end);
    let remaining := remaining_open (store (book e)) taker_id in
    if remaining >? 0 then
      let clients := push_client client_id taker_id (client_to_id e) in
      b ← rest (book e) taker_id;
      Some (events ++ [Rest taker_id client_id s price_tick remaining], mkHpEngine b clients)
    else
      Some (events, set_book (set_store (store_remove (store (book e)) taker_id).2 (book e)) e).

Definition on_market (e : HpEngine) (s : Side) (qty_lot ts : Z) (max_fills : option Z)
    (client_id : Z) : option (list HpEvent * HpEngine) :=
  if qty_lot <=? 0 then Some ([], e)
  else
    let order := mkHpOrder 0 s 0 qty_lot qty_lot ts client_id in
    let '(taker_id, st) := store_insert (store (book e)) order in
    let e := set_book (set_store st (book e)) e in
    '(events, e) ← (match s with
                   | Buy => match_buy e taker_id client_id None max_fills
                   | Sell => match_sell e taker_id client_id None max_fills
                   end);
    let remaining := remaining_open (store (book e)) taker_id in
    let events := if remaining >? 0 then events ++ [Revoke taker_id client_id 1] else events in
    Some (events, set_book (set_store (store_remove (store (book e)) taker_id).2 (book e)) e).

(** Cancels the listed orders that are still there. *)
Fixpoint cancel_all (client : Z) (l : list Z) (b : Book BI AI) : list HpEvent * Book BI AI :=
  match l with
  | [] => ([], b)
  | slot :: l =>
      match cancel b slot with
      | (true, b) => let '(evs, b) := cancel_all client l b in (Revoke slot client 0 :: evs, b)
      | (false, b) => cancel_all client l b
      end
  end.

Definition on_cancel (e : HpEngine) (i : Z) : list HpEvent * HpEngine :=
  match store_get (store (book e)) i with
  | Some o =>
      let client_id := client_id o in
      match cancel (book e) i with
      | (true, b) => ([Revoke i client_id 0], mkHpEngine b (forget client_id i (client_to_id e)))
      | (false, b) => ([], set_book b e)
      end
  | None =>
      match client_to_id e !! i with
      | Some l => let '(evs, b) := cancel_all i l (book e) in
                  (evs, mkHpEngine b (delete i (client_to_id e)))
      | None => ([], e)
      end
  end.

(** [HpEngine::on_order] *)
Definition hp_on_order (e : HpEngine) (cmd : HpCommand) : option (list HpEvent * HpEngine) :=
  match cmd with
  | Limit s price_tick qty_lot ts client_id => on_limit e s price_tick qty_lot ts client_id
  | Cancel i => Some (on_cancel e i)
  | Market s qty_lot ts max_fills client_id => on_market e s qty_lot ts max_fills client_id
  end.

Fixpoint hp_run (e : HpEngine) (l : list HpCommand) : option (list HpEvent * HpEngine) :=
  match l with
  | [] => Some ([], e)
  | c :: l => '(evs, e) ← hp_on_order e c; '(evs', e) ← hp_run e l; Some (evs ++ evs', e)
  end.

End Engine.
#[global] Arguments HpEngine : clear implicits.
#[global] Arguments Matching : clear implicits.

(** ** The abstract matching step *)
Section Facts.
Context {BI AI : Type} `{LB : LevelIndex BI} `{LA : LevelIndex AI}
  `{SB : !LevelIndexSpec BI Buy} `{SA : !LevelIndexSpec AI Sell}.
Implicit Types (b : Book BI AI) (s : Side) (t i op : Z) (l : Level) (cl : gmap Z (list Z))
  (ev : HpEvent) (st : Matching BI AI) (e : HpEngine BI AI).

Definition opposite s : Side := match s with Buy => Sell | Sell => Buy end.

(** What the order [o] leaves of itself after a fill of [q]. *)
Definition after_fill (q : Z) (o : HpOrder) : option HpOrder :=
  if open_lot o =? q then None else Some (set_open_lot (open_lot o - q) o).

(** What a level [i :: il] becomes when its front order gives up [q]. *)
Definition level_after (q i : Z) (il : list Z) (o : HpOrder) (l : Level) : option Level :=
  if open_lot o =? q then match il with [] => None | _ => Some (mkLevel (debit q (total_lot l)) il) end
  else Some (mkLevel (debit q (total_lot l)) (i :: il)).

(** One fill: the order in front of the best level of side [m] gives up the
    smaller of its open lot and the taker's. *)
Inductive hp_trade (m : Side) (tk tc : Z) b cl op : HpEvent → Book BI AI → gmap Z (list Z) → Z → Prop :=
| hp_trade_best t l i il o q b' cl' :
    best_of m (levels b m) (Some t) → levels b m !! t = Some l → ids l = i :: il →
    store_get (store b) i = Some o → 0 < open_lot o → q = Z.min (open_lot o) op →
    (∀ j, store_get (store b') j = if decide (i = j) then after_fill q o else store_get (store b) j) →
    levels b' m = (partial_alter (λ _, level_after q i il o l) t (levels b m)) →
    levels b' (opposite m) = levels b (opposite m) →
    cl' = (if (open_lot o =? q) && negb (client_id o =? 0) then forget (client_id o) i cl else cl) →
    hp_trade m tk tc b cl op
      (Fill i tk (client_id o) tc t q (open_lot o - q) (op - q)) b' cl' (op - q).

(** A run of fills, each at a tick the guard allows, by a taker with something open. *)
Inductive hp_trades (m : Side) (tk tc : Z) (ok : Z → Prop) :
    Book BI AI → gmap Z (list Z) → Z → list HpEvent → Book BI AI → gmap Z (list Z) → Z → Prop :=
| hp_trades_nil b cl op : hp_trades m tk tc ok b cl op [] b cl op
| hp_trades_cons b cl op ev b1 cl1 op1 evs b2 cl2 op2 :
    book_ok (Some tk) b → 0 < op → (∀ t, best_of m (levels b m) (Some t) → ok t) →
    hp_trade m tk tc b cl op ev b1 cl1 op1 →
    hp_trades m tk tc ok b1 cl1 op1 evs b2 cl2 op2 →
    hp_trades m tk tc ok b cl op (ev :: evs) b2 cl2 op2.

(** ** The loops refine it *)

Definition match_loop s := match s with Buy => match_buy_loop (BI:=BI) (AI:=AI) | Sell => match_sell_loop end.

(** The taker's limit does not allow the tick. *)
Definition beyond s (limit : option Z) t : bool :=
  match limit with
  | Some lim => match s with Buy => t >? lim | Sell => t <? lim end
  | None => false
  end.

Definition gear_reached (max_fills : option Z) (fill_count : Z) : bool :=
  match max_fills with Some max => fill_count >=? max | None => false end.

Lemma match_loop_eq s fuel st tk tc limit mx fc :
  match_loop s (S fuel) st tk tc limit mx fc
  = if gear_reached mx fc then Some st else if m_open st <=? 0 then Some st else
    match best (m_book st) (opposite s) with
    | None => Some st
    | Some t =>
      if beyond s limit t then Some st else
      match front_id (m_book st) (opposite s) t with
      | None => Some st
      | Some i =>
      match maker_open_and_client (store (m_book st)) i with
      | None => Some st
      | Some (mo, mc) => match_loop s fuel (take_maker st tk tc t i mo mc) tk tc limit mx (u32_wrap (fc + 1))
      end end end.
Proof. by destruct s. Qed.

Lemma match_loop_done s fuel st tk tc limit mx fc :
  m_open st <= 0 → match_loop s (S fuel) st tk tc limit mx fc = Some st.
Proof.
  intros Ho. rewrite match_loop_eq. destruct (gear_reached mx fc); [done|].
  by rewrite (proj2 (Z.leb_le _ _) Ho).
Qed.

(** The maker the loop finds. *)
Lemma front_maker tk b m t :
  book_ok tk b → best b m = Some t →
  ∃ l i il o, levels b m !! t = Some l ∧ ids l = i :: il ∧ store_get (store b) i = Some o
    ∧ 0 < open_lot o <= i64_max ∧ tk ≠ Some i ∧ side o = m ∧ price_tick o = t
    ∧ front_id b m t = Some i ∧ maker_open_and_client (store b) i = Some (open_lot o, client_id o).
Proof.
  intros (Hidx & _ & _ & Hbest & Hlv & _) Hb. specialize (Hbest m). rewrite Hb in Hbest.
  destruct Hbest as [[l Hl] _]. destruct (Hlv m t l Hl) as (Hne & _ & Hin).
  destruct (ids l) as [|i il] eqn:Ei; [done|].
  destruct (Hin i ltac:(by left)) as (Htk & o & Hg & Hs & Ht & Hpos).
  exists l, i, il, o. split_and!; try done; try lia.
  - unfold front_id. rewrite level_spec by (done || by eapply levels_keys; eauto). rewrite Hl. cbn. by rewrite Ei.
  - unfold maker_open_and_client. rewrite Hg. cbn. by rewrite (proj2 (Z.leb_gt _ _)) by lia.
Qed.

(** One round of the loop is one abstract fill. *)
Lemma take_maker_spec m tk st tc t l i il o :
  book_ok (Some tk) (m_book st) → best (m_book st) m = Some t →
  levels (m_book st) m !! t = Some l → ids l = i :: il →
  store_get (store (m_book st)) i = Some o → 0 < open_lot o <= i64_max →
  0 < m_open st <= i64_max →
  let st' := take_maker st tk tc t i (open_lot o) (client_id o) in
  ∃ ev, m_events st' = m_events st ++ [ev]
    ∧ hp_trade m tk tc (m_book st) (m_clients st) (m_open st) ev (m_book st') (m_clients st') (m_open st')
    ∧ book_ok (Some tk) (m_book st').
Proof.
  intros Hok Hb Hl Hi Hg Hpos Hop st'. subst st'. unfold take_maker.
  set (q := Z.min (open_lot o) (m_open st)).
  assert (Hbest : best_of m (levels (m_book st) m) (Some t)) by (rewrite <- Hb; apply Hok).
  assert (Hw1 : i64_wrap (m_open st - q) = m_open st - q) by (apply i64_wrap_id; unfold in_i64, i64_max in *; lia).
  assert (Hw2 : i64_wrap (open_lot o - q) = open_lot o - q) by (apply i64_wrap_id; unfold in_i64, i64_max in *; lia).
  rewrite Hw1, Hw2. destruct (decide (q = open_lot o)) as [Hq|Hq].
  - destruct (fill_order_all (Some tk) (m_book st) m t i o l il) as (b' & Hf & Hok' & Hget & Hm & Hoth); try done.
    rewrite <- Hq in Hf. rewrite Hf. cbn. eexists. split; [reflexivity|]. split; [|done].
    eassert (Htr : hp_trade m tk tc (m_book st) (m_clients st) (m_open st)
      (Fill i tk (client_id o) tc t q (open_lot o - q) (m_open st - q)) b' _ (m_open st - q));
      [|replace (open_lot o - q) with 0 in Htr by lia; exact Htr].
    econstructor; try done; try lia.
    + intros j. rewrite Hget. unfold after_fill. by rewrite (proj2 (Z.eqb_eq (open_lot o) q)) by lia.
    + rewrite Hm. unfold level_after. rewrite (proj2 (Z.eqb_eq (open_lot o) q)) by lia. rewrite Hq.
      destruct il; cbn; [by rewrite decide_True|by rewrite decide_False].
    + apply Hoth. by destruct m.
    + by rewrite (proj2 (Z.eqb_eq (open_lot o) q)) by lia.
  - assert (Hq' : 0 < q < open_lot o) by lia.
    destruct (fill_order_part (Some tk) (m_book st) m t i o l q) as (b' & Hf & Hok' & Hget & Hm & Hoth); try done;
      [rewrite Hi; by left|].
    rewrite Hf. cbn. eexists. split; [reflexivity|]. split; [|done].
    econstructor; try done; try lia.
    + intros j. rewrite Hget. unfold after_fill. by rewrite (proj2 (Z.eqb_neq (open_lot o) q)) by lia.
    + rewrite Hm. unfold level_after. rewrite (proj2 (Z.eqb_neq (open_lot o) q)) by lia. by rewrite Hi.
    + apply Hoth. by destruct m.
    + by rewrite (proj2 (Z.eqb_neq (open_lot o) q)) by lia.
Qed.

(** A fill that leaves the taker open removes its maker. *)
Lemma hp_trade_shrinks m tk tc b cl op ev b' cl' op' :
  hp_trade m tk tc b cl op ev b' cl' op' → 0 < op' →
  (size (store_map (store b')) < size (store_map (store b)))%nat.
Proof.
  intros [t l i il o q b1 cl1 _ _ _ Hg _ -> Hget _ _ _] Hop.
  assert (Hd : store_map (store b1) = delete i (store_map (store b))).
  { apply map_eq. intros j. rewrite store_map_lookup, Hget. unfold after_fill.
    rewrite (proj2 (Z.eqb_eq _ _)) by lia.
    destruct (decide (i = j)) as [->|Hne]; [by rewrite lookup_delete_eq|].
    by rewrite lookup_delete_ne, store_map_lookup. }
  rewrite Hd, map_size_delete_Some by (rewrite store_map_lookup; eauto).
  assert (size (store_map (store b)) ≠ 0)%nat; [|lia].
  intros Hz%map_size_empty_inv. rewrite <- store_map_lookup, Hz, lookup_empty in Hg. done.
Qed.

Lemma hp_trade_open m tk tc b cl op ev b' cl' op' :
  hp_trade m tk tc b cl op ev b' cl' op' → 0 < op → 0 <= op' < op.
Proof. intros [t l i il o q b1 cl1 _ _ _ _ Hpos -> _ _ _ _] Hop. lia. Qed.

(** Why the loop stopped. *)
Definition stopped s limit mx fc (n : nat) st : Prop :=
  m_open st = 0 ∨ (∃ max, mx = Some max ∧ max <= fc + Z.of_nat n)
  ∨ match best (m_book st) (opposite s) with None => True | Some t => beyond s limit t = true end.

(** What a loop run from [st] with [fc] fills counted so far achieves. *)
Definition loop_result s tk tc limit mx fc st (r : option (Matching BI AI)) : Prop :=
  ∃ evs st', r = Some st' ∧ m_events st' = m_events st ++ evs
    ∧ hp_trades (opposite s) tk tc (λ t, beyond s limit t = false)
        (m_book st) (m_clients st) (m_open st) evs (m_book st') (m_clients st') (m_open st')
    ∧ book_ok (Some tk) (m_book st') ∧ 0 <= m_open st'
    ∧ stopped s limit mx fc (length evs) st'
    ∧ (∀ max, mx = Some max → fc + Z.of_nat (length evs) <= max).

(** The fill counter is within the machine's range and the gear. *)
Definition count_ok (mx : option Z) (fc : Z) : Prop := ∀ max, mx = Some max → in_u32 max ∧ 0 <= fc <= max.

Lemma loop_result_stop s tk tc limit mx fc st :
  book_ok (Some tk) (m_book st) → 0 <= m_open st → count_ok mx fc → stopped s limit mx fc 0 st →
  loop_result s tk tc limit mx fc st (Some st).
Proof.
  intros Hok Ho Hmx Hst. exists [], st. rewrite app_nil_r. split_and!; try done; [apply hp_trades_nil|].
  intros max Hm. destruct (Hmx max Hm). cbn. lia.
Qed.

Lemma loop_result_cons s tk tc limit mx fc st ev st1 r :
  book_ok (Some tk) (m_book st) → 0 < m_open st →
  (∀ t, best_of (opposite s) (levels (m_book st) (opposite s)) (Some t) → beyond s limit t = false) →
  m_events st1 = m_events st ++ [ev] →
  hp_trade (opposite s) tk tc (m_book st) (m_clients st) (m_open st) ev
    (m_book st1) (m_clients st1) (m_open st1) →
  (∀ max, mx = Some max → u32_wrap (fc + 1) = fc + 1) →
  loop_result s tk tc limit mx (u32_wrap (fc + 1)) st1 r → loop_result s tk tc limit mx fc st r.
Proof.
  intros Hok Ho Hg Hev Htr Hfc (evs & st' & -> & Hevs & Hts & Hok' & Ho' & Hstp & Hmax).
  exists (ev :: evs), st'. split; [done|]. split; [by rewrite Hevs, Hev, <- app_assoc|]. split_and!; try done.
  - by eapply hp_trades_cons.
  - destruct Hstp as [Hz|[(max & Hm & Hle)|Hb]]; [by left|right; left|by right; right].
    exists max. split; [done|]. rewrite (Hfc max Hm) in Hle. cbn [length]. lia.
  - intros max Hm. specialize (Hmax max Hm). rewrite (Hfc max Hm) in Hmax. cbn [length]. lia.
Qed.

Lemma match_loop_spec s fuel st tk tc limit mx fc :
  book_ok (Some tk) (m_book st) → 0 <= m_open st <= i64_max → count_ok mx fc →
  (size (store_map (store (m_book st))) < fuel)%nat →
  loop_result s tk tc limit mx fc st (match_loop s fuel st tk tc limit mx fc).
Proof.
  revert st fc; induction fuel as [|fuel IH]; intros st fc Hok Hop Hmx Hfuel; [lia|].
  rewrite match_loop_eq. destruct (gear_reached mx fc) eqn:Egear.
  { apply loop_result_stop; try done; [lia|]. right; left. unfold gear_reached in Egear.
    destruct mx as [max|]; [|done]. exists max. split; [done|]. rewrite Z.geb_leb in Egear. zb. cbn. lia. }
  destruct (m_open st <=? 0) eqn:Eopen; zb; [apply loop_result_stop; try done; [lia|left; lia]|].
  destruct (best (m_book st) (opposite s)) as [t|] eqn:Eb.
  2: { apply loop_result_stop; try done; [lia|]. right; right. by rewrite Eb. }
  destruct (beyond s limit t) eqn:Ebey.
  { apply loop_result_stop; try done; [lia|]. right; right. by rewrite Eb. }
  destruct (front_maker (Some tk) (m_book st) (opposite s) t Hok Eb)
    as (l & i & il & o & Hl & Hi & Hg & Hpos & _ & _ & _ & -> & ->).
  destruct (take_maker_spec (opposite s) tk st tc t l i il o) as (ev & Hev & Htr & Hok1); try done; [lia|].
  set (st1 := take_maker _ _ _ _ _ _ _) in *.
  pose proof (hp_trade_open _ _ _ _ _ _ _ _ _ _ Htr Eopen) as Hop1.
  assert (Hfc : ∀ max, mx = Some max → in_u32 max ∧ fc + 1 <= max ∧ u32_wrap (fc + 1) = fc + 1).
  { intros max Hm. destruct (Hmx max Hm) as [Hu ?]. unfold gear_reached in Egear. rewrite Hm, Z.geb_leb in Egear.
    zb. rewrite u32_wrap_id by (unfold in_u32 in *; lia). split_and!; (done || lia). }
  assert (Hcount : count_ok mx (u32_wrap (fc + 1))).
  { intros max Hm. destruct (Hfc max Hm) as (?&?&Heq). destruct (Hmx max Hm). rewrite Heq. split; [done|lia]. }
  eapply (loop_result_cons _ _ _ _ _ _ _ ev st1); try done.
  - intros t' Ht'. assert (Some t' = Some t) as [= ->]; [|done].
    rewrite <- Eb. eapply best_of_fun; [exact Ht'|apply Hok].
  - intros max Hm. apply (Hfc max Hm).
  - destruct (decide (m_open st1 = 0)) as [Hz|Hz].
    + destruct fuel as [|fuel].
      { assert (Hs : store_map (store (m_book st)) = ∅) by (apply map_size_empty_inv; lia).
        rewrite <- store_map_lookup, Hs, lookup_empty in Hg. done. }
      rewrite match_loop_done by lia. apply loop_result_stop; try done; [lia|by left].
    + apply IH; try done; [lia|]. pose proof (hp_trade_shrinks _ _ _ _ _ _ _ _ _ _ Htr). lia.
Qed.

(** ** What a run of fills does *)

Lemma hp_trades_weaken m tk tc (ok ok' : Z → Prop) b cl op evs b' cl' op' :
  (∀ t, ok t → ok' t) → hp_trades m tk tc ok b cl op evs b' cl' op' →
  hp_trades m tk tc ok' b cl op evs b' cl' op'.
Proof. intros Hi. induction 1; [apply hp_trades_nil|eapply hp_trades_cons; eauto]. Qed.

Definition fill_lots (evs : list HpEvent) : Z :=
  foldr (λ ev acc, (match ev with Fill _ _ _ _ _ q _ _ => q | _ => 0 end) + acc) 0 evs.

Lemma fill_lots_app (l1 l2 : list HpEvent) : fill_lots (l1 ++ l2) = fill_lots l1 + fill_lots l2.
Proof. induction l1 as [|x l1 IH]; cbn; [done|]. unfold fill_lots in *. lia. Qed.

Lemma hp_trades_lots m tk tc ok b cl op evs b' cl' op' :
  hp_trades m tk tc ok b cl op evs b' cl' op' → fill_lots evs = op - op'.
Proof.
  induction 1 as [|b cl op ev b1 cl1 op1 evs b2 cl2 op2 _ _ _ Ht _ IH]; cbn; [lia|].
  unfold fill_lots in IH. rewrite IH. inversion Ht; subst. lia.
Qed.

(** Sums over the stored orders. *)
Definition sum_map (f : HpOrder → Z) (M : gmap Z HpOrder) : Z := map_fold (λ _ o acc, f o + acc) 0 M.

Lemma sum_map_insert f (M : gmap Z HpOrder) i o :
  M !! i = None → sum_map f (<[i := o]> M) = f o + sum_map f M.
Proof. intros Hi. unfold sum_map. rewrite map_fold_insert_L; [done|lia|done]. Qed.

Lemma sum_map_delete f (M : gmap Z HpOrder) i o :
  M !! i = Some o → sum_map f (delete i M) = sum_map f M - f o.
Proof. intros Hi. unfold sum_map. rewrite (map_fold_delete_L _ _ i o M); [lia|lia|done]. Qed.

Lemma sum_map_update f (M : gmap Z HpOrder) i o o' :
  M !! i = Some o → sum_map f (<[i := o']> M) = sum_map f M - f o + f o'.
Proof.
  intros Hi. rewrite <- insert_delete_eq, sum_map_insert by (by rewrite lookup_delete_eq).
  rewrite (sum_map_delete f M i o Hi). lia.
Qed.

(** Open lots of one side. *)
Definition lots_of s (o : HpOrder) : Z := if decide (side o = s) then open_lot o else 0.
Definition side_open s b : Z := sum_map (lots_of s) (store_map (store b)).

Lemma store_map_ext b b' (M : gmap Z HpOrder) :
  (∀ j, store_get (store b') j = M !! j) → store_map (store b') = M.
Proof. intros Hj. apply map_eq. intros j. by rewrite store_map_lookup. Qed.

Lemma hp_trade_side_open m tk tc b cl op ev b' cl' op' s :
  book_ok (Some tk) b → hp_trade m tk tc b cl op ev b' cl' op' →
  side_open s b' = side_open s b - (if decide (s = m) then fill_lots [ev] else 0).
Proof.
  intros Hok [t l i il o q b1 cl1 _ Hl Hi Hg _ _ Hget _ _ _]. cbn.
  destruct Hok as (_ & _ & _ & _ & Hlv & _). destruct (Hlv _ _ _ Hl) as (_ & _ & Hin).
  destruct (Hin i) as (_ & x & Hx & Hs & _); [rewrite Hi; by left|]. rewrite Hg in Hx. simplify_eq.
  unfold side_open. unfold after_fill in Hget. rewrite <- store_map_lookup in Hg.
  destruct (Z.eqb_spec (open_lot x) q) as [Hq|Hq].
  - rewrite (store_map_ext b b1 (delete i (store_map (store b)))).
    + rewrite (sum_map_delete _ _ i x Hg). unfold lots_of. repeat case_decide; subst; try done; lia.
    + intros j. rewrite Hget. case_decide; [subst; by rewrite lookup_delete_eq|].
      by rewrite lookup_delete_ne, store_map_lookup.
  - rewrite (store_map_ext b b1 (<[i := set_open_lot (open_lot x - q) x]> (store_map (store b)))).
    + rewrite (sum_map_update _ _ i x _ Hg). unfold lots_of. cbn. repeat case_decide; subst; try done; lia.
    + intros j. rewrite Hget. case_decide; [subst; by rewrite lookup_insert_eq|].
      by rewrite lookup_insert_ne, store_map_lookup.
Qed.

Lemma hp_trades_side_open m tk tc ok b cl op evs b' cl' op' s :
  hp_trades m tk tc ok b cl op evs b' cl' op' →
  side_open s b' = side_open s b - (if decide (s = m) then fill_lots evs else 0).
Proof.
  induction 1 as [|b cl op ev b1 cl1 op1 evs b2 cl2 op2 Hok _ _ Ht _ IH]; [case_decide; cbn; lia|].
  rewrite IH, (hp_trade_side_open _ _ _ _ _ _ _ _ _ _ s Hok Ht).
  change (ev :: evs) with ([ev] ++ evs). rewrite fill_lots_app. case_decide; lia.
Qed.

(** The taker's own slot is not touched. *)
Lemma hp_trades_taker m tk tc ok b cl op evs b' cl' op' :
  hp_trades m tk tc ok b cl op evs b' cl' op' → store_get (store b') tk = store_get (store b) tk.
Proof.
  induction 1 as [|b cl op ev b1 cl1 op1 evs b2 cl2 op2 Hok _ _ Ht _ IH]; [done|]. rewrite IH.
  destruct Ht as [t l i il o q b1 cl1 _ Hl Hi Hg _ _ Hget _ _ _].
  destruct Hok as (_ & _ & _ & _ & Hlv & _). destruct (Hlv _ _ _ Hl) as (_ & _ & Hin).
  destruct (Hin i) as (Htk & _); [rewrite Hi; by left|]. rewrite Hget, decide_False by congruence. done.
Qed.

(** The ids queued at a tick. *)
Definition queue b s t : list Z := match levels b s !! t with Some l => ids l | None => [] end.

Lemma queue_trade m tk tc b cl op ev b' cl' op' t :
  hp_trade m tk tc b cl op ev b' cl' op' → queue b' m t `suffix_of` queue b m t.
Proof.
  intros [t0 l i il o q b1 cl1 _ Hl Hi _ _ _ _ Hm _ _]. unfold queue. rewrite Hm.
  destruct (decide (t0 = t)) as [->|Hne].
  - rewrite lookup_partial_alter_eq, Hl, Hi. unfold level_after.
    destruct (open_lot o =? q); [destruct il; cbn|cbn; done].
    + by apply suffix_nil.
    + by apply suffix_cons_r.
  - by rewrite lookup_partial_alter_ne.
Qed.

Lemma hp_trades_queue m tk tc ok b cl op evs b' cl' op' t :
  hp_trades m tk tc ok b cl op evs b' cl' op' → queue b' m t `suffix_of` queue b m t.
Proof.
  induction 1 as [|b cl op ev b1 cl1 op1 evs b2 cl2 op2 _ _ _ Ht _ IH]; [done|].
  etransitivity; [exact IH|]. by eapply queue_trade.
Qed.

Lemma hp_trade_dom m tk tc b cl op ev b' cl' op' t :
  hp_trade m tk tc b cl op ev b' cl' op' → is_Some (levels b' m !! t) → is_Some (levels b m !! t).
Proof.
  intros [t0 l i il o q b1 cl1 _ Hl _ _ _ _ _ Hm _ _]. rewrite Hm.
  destruct (decide (t0 = t)) as [->|Hne]; [by rewrite Hl|]. by rewrite lookup_partial_alter_ne.
Qed.

Lemma hp_trades_dom m tk tc ok b cl op evs b' cl' op' t :
  hp_trades m tk tc ok b cl op evs b' cl' op' → is_Some (levels b' m !! t) → is_Some (levels b m !! t).
Proof.
  induction 1 as [|b cl op ev b1 cl1 op1 evs b2 cl2 op2 _ _ _ Ht _ IH]; [done|].
  intros Hs. eapply hp_trade_dom; [exact Ht|]. auto.
Qed.

Lemma hp_trades_other m tk tc ok b cl op evs b' cl' op' :
  hp_trades m tk tc ok b cl op evs b' cl' op' → levels b' (opposite m) = levels b (opposite m).
Proof.
  induction 1 as [|b cl op ev b1 cl1 op1 evs b2 cl2 op2 _ _ _ Ht _ IH]; [done|].
  rewrite IH. by inversion Ht.
Qed.

(** A fill is at a tick the taker accepts, and no level left is better than it. *)
Definition fill_at (m : Side) (ok : Z → Prop) b' ev : Prop :=
  match ev with
  | Fill _ _ _ _ t q mo to =>
      ok t ∧ 0 < q ∧ 0 <= mo ∧ 0 <= to
      ∧ ∀ t', is_Some (levels b' m !! t') → t' = t ∨ tick_before m t t'
  | _ => False
  end.

Lemma hp_trades_fills m tk tc ok b cl op evs b' cl' op' :
  hp_trades m tk tc ok b cl op evs b' cl' op' → Forall (fill_at m ok b') evs.
Proof.
  induction 1 as [|b cl op ev b1 cl1 op1 evs b2 cl2 op2 _ Hop Hg Ht Hts IH]; constructor; [|done].
  inversion Ht as [t l i il o q b1' cl1' Hbest Hl Hi Hgt Hpos Hq]; subst.
  cbn. split_and!; [by apply Hg|lia|lia|lia|].
  intros t' Ht'. apply Hbest. eapply hp_trade_dom; [exact Ht|]. by eapply hp_trades_dom.
Qed.

Lemma fill_lots_nonneg m ok b' evs : Forall (fill_at m ok b') evs → 0 <= fill_lots evs.
Proof.
  induction 1 as [|ev evs Hx _ IH]; [done|]. unfold fill_lots in *. cbn.
  destruct ev; try done. destruct Hx as (_ & ? & _). lia.
Qed.

(** ** The client index *)

(** Every resting order is listed under its client; under a client other than
    0, every listed id is a resting order of that client, and no list is empty. *)
Definition clients_ok (tk : option Z) b cl : Prop :=
  (∀ i o, store_get (store b) i = Some o → tk ≠ Some i → i ∈ default [] (cl !! client_id o))
  ∧ (∀ c i, c ≠ 0 → i ∈ default [] (cl !! c) →
       tk ≠ Some i ∧ ∃ o, store_get (store b) i = Some o ∧ client_id o = c)
  ∧ (∀ c, c ≠ 0 → cl !! c ≠ Some []).

Lemma forget_lookup c i cl c' :
  default [] (forget c i cl !! c') = if decide (c = c') then retain_not i (default [] (cl !! c'))
                                     else default [] (cl !! c').
Proof.
  unfold forget. destruct (cl !! c) as [l|] eqn:El.
  - destruct (retain_not i l) as [|x l'] eqn:Er.
    + case_decide; [subst; by rewrite lookup_delete_eq, El|by rewrite lookup_delete_ne].
    + case_decide; [subst; by rewrite lookup_insert_eq, El|by rewrite lookup_insert_ne].
  - case_decide; [subst; by rewrite El|done].
Qed.

Lemma forget_nonempty c i cl c' : cl !! c' ≠ Some [] → forget c i cl !! c' ≠ Some [].
Proof.
  intros Hn. unfold forget. destruct (cl !! c) as [l|] eqn:El; [|done].
  destruct (retain_not i l) as [|x l'] eqn:Er; destruct (decide (c = c')) as [->|Hne].
  - by rewrite lookup_delete_eq.
  - by rewrite lookup_delete_ne.
  - rewrite lookup_insert_eq. by intros [=].
  - by rewrite lookup_insert_ne.
Qed.

(** An order leaves the book, and its client's list unless the client is 0. *)
Lemma clients_ok_drop tk b b' cl cl' i o :
  clients_ok tk b cl → store_get (store b) i = Some o → tk ≠ Some i →
  (∀ j, store_get (store b') j = if decide (i = j) then None else store_get (store b) j) →
  (cl' = forget (client_id o) i cl ∨ (client_id o = 0 ∧ cl' = cl)) → clients_ok tk b' cl'.
Proof.
  intros (Hc & Hs & Hn) Hg Htk Hget Hcl. split_and!.
  - intros j x Hx Hj. rewrite Hget in Hx. case_decide as Hij; [done|].
    destruct Hcl as [->|[_ ->]]; [|by apply Hc]. rewrite forget_lookup. case_decide; [|by apply Hc].
    apply list_elem_of_filter. split; [done|]. by apply Hc.
  - intros c j Hc0 Hj. rewrite Hget.
    assert (Hj' : j ∈ default [] (cl !! c) ∧ i ≠ j).
    { destruct Hcl as [->|[Hz ->]].
      - rewrite forget_lookup in Hj. case_decide as Hcc.
        + apply list_elem_of_filter in Hj as [??]. by split.
        + split; [done|]. intros <-. destruct (Hs c i Hc0 Hj) as (_ & x & Hx & Hxc). congruence.
      - split; [done|]. intros <-. destruct (Hs c i Hc0 Hj) as (_ & x & Hx & Hxc). congruence. }
    destruct Hj' as [Hj' Hij]. rewrite decide_False by done. by apply Hs.
  - intros c Hc0. destruct Hcl as [->|[_ ->]]; [|by apply Hn]. by apply forget_nonempty, Hn.
Qed.

(** An order that stays changes nothing. *)
Lemma clients_ok_keep tk b b' cl i o o' :
  clients_ok tk b cl → store_get (store b) i = Some o → client_id o' = client_id o →
  (∀ j, store_get (store b') j = if decide (i = j) then Some o' else store_get (store b) j) →
  clients_ok tk b' cl.
Proof.
  intros (Hc & Hs & Hn) Hg Hcl Hget. split_and!; [| |done].
  - intros j x Hx Hj. rewrite Hget in Hx. case_decide as Hij; [simplify_eq|by apply Hc].
    rewrite Hcl. by apply (Hc j o).
  - intros c j Hc0 Hj. destruct (Hs c j Hc0 Hj) as (Htk & x & Hx & Hxc). split; [done|]. rewrite Hget.
    case_decide as Hij; [subst|by exists x]. rewrite Hg in Hx. simplify_eq. by exists o'.
Qed.

Lemma hp_trade_clients m tk tc b cl op ev b' cl' op' :
  book_ok (Some tk) b → hp_trade m tk tc b cl op ev b' cl' op' →
  clients_ok (Some tk) b cl → clients_ok (Some tk) b' cl'.
Proof.
  intros Hok [t l i il o q b1 cl1 _ Hl Hi Hg _ _ Hget _ _ ->] Hcl.
  destruct Hok as (_ & _ & _ & _ & Hlv & _). destruct (Hlv _ _ _ Hl) as (_ & _ & Hin).
  destruct (Hin i) as (Htk & _); [rewrite Hi; by left|]. unfold after_fill in Hget.
  destruct (Z.eqb_spec (open_lot o) q) as [Hq|Hq]; cbn [andb].
  - eapply clients_ok_drop; try done.
    destruct (Z.eqb_spec (client_id o) 0); cbn [negb]; [by right|by left].
  - by eapply (clients_ok_keep _ _ _ _ i o (set_open_lot (open_lot o - q) o)).
Qed.

Lemma hp_trades_clients m tk tc ok b cl op evs b' cl' op' :
  hp_trades m tk tc ok b cl op evs b' cl' op' →
  clients_ok (Some tk) b cl → clients_ok (Some tk) b' cl'.
Proof.
  induction 1 as [|b cl op ev b1 cl1 op1 evs b2 cl2 op2 Hok _ _ Ht _ IH]; [done|].
  intros Hc. apply IH. by eapply hp_trade_clients.
Qed.

(** ** Level totals *)

Definition lots b (il : list Z) : Z := foldr (λ i acc, remaining_open (store b) i + acc) 0 il.

(** Each level's total is the sum of its orders' open lots, which fits. *)
Definition totals_ok b : Prop :=
  ∀ s t l, levels b s !! t = Some l → total_lot l = lots b (ids l) ∧ lots b (ids l) <= i64_max.

Lemma debit_exact q total : 0 <= q <= total → total <= i64_max → debit q total = total - q.
Proof.
  intros Hq Ht. unfold debit. rewrite i64_wrap_id by (unfold in_i64, i64_max in *; lia).
  destruct (total - q <? 0) eqn:E; zb; lia.
Qed.

Lemma lots_ext b b' il :
  (∀ i, i ∈ il → store_get (store b') i = store_get (store b) i) → lots b' il = lots b il.
Proof.
  induction il as [|i il IH]; cbn; intros He; [done|]. unfold lots in *. unfold remaining_open at 1 3.
  rewrite (He i) by (by left). rewrite IH; [done|]. intros j Hj. apply He. by right.
Qed.

Lemma lots_nonneg b il : (∀ i, i ∈ il → ∃ s t, resting_in b i s t) → 0 <= lots b il.
Proof.
  induction il as [|i il IH]; cbn; intros Hr; [lia|].
  destruct (Hr i ltac:(by left)) as (s & t & o & Hg & _ & _ & Hpos). unfold remaining_open at 1. rewrite Hg.
  assert (0 <= lots b il) by (apply IH; intros j Hj; apply Hr; by right). unfold lots in *. lia.
Qed.

Lemma lots_retain b i il o :
  NoDup il → i ∈ il → store_get (store b) i = Some o →
  lots b il = open_lot o + lots b (retain_not i il).
Proof.
  intros Hnd Hin Hg. induction il as [|j il IH]; [by apply elem_of_nil in Hin|].
  pose proof Hnd as [Hj Hnd']%NoDup_cons. destruct (decide (i = j)) as [<-|Hne].
  - rewrite tail_retain_not by done. cbn. unfold remaining_open at 1. by rewrite Hg.
  - apply elem_of_cons in Hin as [?|Hin]; [done|]. unfold retain_not.
    rewrite filter_cons_True by done. cbn. specialize (IH Hnd' Hin). unfold lots, retain_not in *. lia.
Qed.

(** An order is in no level but its own. *)
Lemma level_unique tk b i o s t l :
  book_ok tk b → store_get (store b) i = Some o → levels b s !! t = Some l → i ∈ ids l →
  s = side o ∧ t = price_tick o.
Proof.
  intros (_ & _ & _ & _ & Hlv & _) Hg Hl Hi. destruct (Hlv _ _ _ Hl) as (_ & _ & Hin).
  destruct (Hin i Hi) as (_ & x & Hx & <- & <- & _). rewrite Hg in Hx. by simplify_eq.
Qed.

(** Levels that do not hold [i] keep their totals when only [i] changes. *)
Lemma totals_frame tk b b' i o :
  book_ok tk b → totals_ok b → store_get (store b) i = Some o →
  (∀ j, i ≠ j → store_get (store b') j = store_get (store b) j) →
  ∀ s t l, (s, t) ≠ (side o, price_tick o) → levels b s !! t = Some l →
    total_lot l = lots b' (ids l) ∧ lots b' (ids l) <= i64_max.
Proof.
  intros Hok Htot Hg Hget s t l Hne Hl. rewrite (lots_ext b b'); [by apply (Htot s t)|].
  intros j Hj. apply Hget. intros <-. apply Hne. destruct (level_unique _ _ _ _ _ _ _ Hok Hg Hl Hj). congruence.
Qed.

Lemma hp_trade_totals m tk tc b cl op ev b' cl' op' :
  book_ok (Some tk) b → 0 < op → hp_trade m tk tc b cl op ev b' cl' op' → totals_ok b → totals_ok b'.
Proof.
  intros Hok Hop [t l i il o q b1 cl1 _ Hl Hi Hg Hpos Hq Hget Hm Hoth _] Htot.
  pose proof Hok as (_ & _ & _ & _ & Hlv & _). destruct (Hlv _ _ _ Hl) as (_ & Hnd & Hin).
  destruct (level_unique _ _ i o m t l Hok Hg Hl) as [-> ->]; [rewrite Hi; by left|].
  assert (Hget' : ∀ j, i ≠ j → store_get (store b1) j = store_get (store b) j).
  { intros j Hj. by rewrite Hget, decide_False. }
  pose proof (totals_frame _ _ _ _ _ Hok Htot Hg Hget') as Hframe.
  destruct (Htot _ _ _ Hl) as [Hsum Hmax]. rewrite Hi in Hsum, Hmax, Hnd.
  apply NoDup_cons in Hnd as [Hni Hnd]. cbn in Hsum, Hmax. unfold remaining_open in Hsum at 1, Hmax at 1.
  rewrite Hg in Hsum, Hmax.
  assert (Hil : lots b1 il = lots b il).
  { apply lots_ext. intros j Hj. apply Hget'. by intros <-. }
  assert (Hil0 : 0 <= lots b il).
  { apply lots_nonneg. intros j Hj. destruct (Hin j) as [_ ?]; [rewrite Hi; by right|]. eauto. }
  unfold lots in Hil, Hil0. intros s t' l' Hl'.
  destruct (decide ((s, t') = (side o, price_tick o))) as [[= -> ->]|Hne].
  - rewrite Hm, lookup_partial_alter_eq in Hl'. unfold level_after in Hl'. unfold after_fill in Hget.
    assert (Hdeb : debit q (total_lot l) = total_lot l - q) by (apply debit_exact; lia).
    destruct (Z.eqb_spec (open_lot o) q) as [Hoq|Hoq].
    + destruct il as [|i2 il]; [done|]. injection Hl' as <-. cbn [total_lot ids].
      unfold lots. rewrite Hil, Hdeb. lia.
    + simplify_eq. cbn [total_lot ids lots foldr]. unfold remaining_open at 1 3.
      rewrite Hget, decide_True by done. cbn. rewrite Hil, Hdeb. lia.
  - apply (Hframe s t'); [done|]. destruct (decide (s = side o)) as [->|Hs].
    + rewrite Hm, lookup_partial_alter_ne in Hl' by congruence. done.
    + assert (s = opposite (side o)) as -> by (by destruct s, (side o)). by rewrite Hoth in Hl'.
Qed.

Lemma hp_trades_totals m tk tc ok b cl op evs b' cl' op' :
  hp_trades m tk tc ok b cl op evs b' cl' op' → totals_ok b → totals_ok b'.
Proof.
  induction 1 as [|b cl op ev b1 cl1 op1 evs b2 cl2 op2 Hok Hop _ Ht _ IH]; [done|].
  intros Hc. apply IH. by eapply hp_trade_totals.
Qed.

(** ** The taker in the store *)

(** Levels and caches do not depend on the store. *)
Lemma set_store_views b sto s : levels (set_store sto b) s = levels b s ∧ best (set_store sto b) s = best b s.
Proof. by destruct s. Qed.

Lemma book_ok_taker_in b o tk sto :
  book_ok None b → store_insert (store b) o = (tk, sto) →
  book_ok (Some tk) (set_store sto b) ∧ store_get (store b) tk = None
  ∧ ∀ j, store_get sto j = if decide (tk = j) then Some (set_id tk o) else store_get (store b) j.
Proof.
  intros (Hidx & Hp & Hst & Hbest & Hlv & Hcov) Hi.
  destruct (store_insert_ok (store b) o Hst) as (i & st' & Hi' & Hst' & _ & Hnone & Hget).
  rewrite Hi in Hi'. simplify_eq. split; [|done]. split_and!; try done.
  - intros s t l Hl. destruct (set_store_views b st' s) as [Hlv' _]. rewrite Hlv' in Hl.
    destruct (Hlv s t l Hl) as (?&?&Hin). split_and!; try done. intros j Hj.
    destruct (Hin j Hj) as (_ & x & Hx & ?). assert (i ≠ j) by congruence. split; [congruence|].
    exists x. cbn. by rewrite Hget, decide_False.
  - intros j x Hx Hj. cbn in Hx. rewrite Hget, decide_False in Hx by congruence.
    destruct (Hcov j x Hx) as (l & Hl & Hjl); [done|]. exists l.
    by destruct (set_store_views b st' (side x)) as [-> _].
Qed.

Lemma book_ok_taker_set b tk v :
  book_ok (Some tk) b → book_ok (Some tk) (set_store (set_taker_open (store b) tk v) b).
Proof.
  intros (Hidx & Hp & Hst & Hbest & Hlv & Hcov). unfold set_taker_open. split_and!; try done.
  - by apply store_update_ok.
  - intros s t l Hl. destruct (Hlv s t l) as (?&?&Hin); [by destruct s|]. split_and!; try done.
    intros j Hj. destruct (Hin j Hj) as (Hjt & x & Hx & ?). split; [done|]. exists x. cbn.
    rewrite store_update_get, decide_False by congruence. done.
  - intros j x Hx Hj. cbn in Hx. rewrite store_update_get, decide_False in Hx by congruence.
    destruct (Hcov j x Hx Hj) as (l & Hl & ?). exists l. split; [by destruct (side x)|done].
Qed.

Lemma book_ok_taker_out b tk o :
  book_ok (Some tk) b → store_get (store b) tk = Some o →
  let b' := set_store (store_remove (store b) tk).2 b in
  book_ok None b' ∧ ∀ j, store_get (store b') j = if decide (tk = j) then None else store_get (store b) j.
Proof.
  intros (Hidx & Hp & Hst & Hbest & Hlv & Hcov) Hg.
  destruct (store_remove_ok (store b) tk o Hst Hg) as (st' & -> & Hst' & Hget). cbn [snd].
  split; [|done]. split_and!; try done.
  - intros s t l Hl. destruct (Hlv s t l) as (?&?&Hin); [by destruct s|]. split_and!; try done.
    intros j Hj. destruct (Hin j Hj) as (Hjt & x & Hx & ?). split; [done|]. exists x. cbn.
    rewrite Hget, decide_False by congruence. done.
  - intros j x Hx _. cbn in Hx. rewrite Hget in Hx. case_decide as Hij; [done|].
    destruct (Hcov j x Hx) as (l & Hl & ?); [congruence|]. exists l. split; [by destruct (side x)|done].
Qed.

(** ** The engine invariant *)

Definition hp_uncrossed b : Prop :=
  ∀ x y, is_Some (levels b Buy !! x) → is_Some (levels b Sell !! y) → x < y.

Definition engine_ok e : Prop :=
  book_ok None (book e) ∧ clients_ok None (book e) (client_to_id e) ∧ hp_uncrossed (book e).

(** The fields of a command are within their machine types, and a cancel does
    not name client 0, whose list is not kept up to date. *)
Definition wf_command (c : HpCommand) : Prop :=
  match c with
  | Limit _ p q _ _ => in_i64 p ∧ in_i64 q
  | Market _ q _ mx _ => in_i64 q ∧ ∀ max, mx = Some max → in_u32 max
  | Cancel i => i ≠ 0
  end.

Lemma hp_engine_new_ok : engine_ok hp_engine_new.
Proof.
  split; [apply book_ok_new|]. destruct (li_default_spec (I:=BI)) as [_ Hbm].
  split; [|intros x y Hx; cbn in Hx; rewrite Hbm, lookup_empty in Hx; by destruct Hx].
  split_and!.
  - intros i o [_ Hl]%store_get_Some. done.
  - intros c i _. unfold hp_engine_new. cbn [client_to_id]. rewrite lookup_empty. cbn.
    by intros ?%elem_of_nil.
  - intros c _. unfold hp_engine_new. cbn [client_to_id]. by rewrite lookup_empty.
Qed.

(** The matching phase shared by limit and market orders. *)
Lemma match_phase e s o tk sto limit mx :
  engine_ok e → store_insert (store (book e)) o = (tk, sto) → side o = s → 0 < open_lot o <= i64_max →
  (∀ max, mx = Some max → in_u32 max) →
  let b0 := set_store sto (book e) in
  ∃ fills b1 cl1 op,
    (match s with
     | Buy => match_buy (set_book b0 e) tk (client_id o) limit mx
     | Sell => match_sell (set_book b0 e) tk (client_id o) limit mx
     end) = Some (fills, mkHpEngine (set_store (set_taker_open (store b1) tk op) b1) cl1)
    ∧ hp_trades (opposite s) tk (client_id o) (λ t, beyond s limit t = false)
        b0 (client_to_id e) (open_lot o) fills b1 cl1 op
    ∧ book_ok (Some tk) b1 ∧ 0 <= op
    ∧ stopped s limit mx 0 (length fills) (mkMatching b1 cl1 fills op)
    ∧ (∀ max, mx = Some max → Z.of_nat (length fills) <= max)
    ∧ store_get (store b1) tk = Some (set_id tk o).
Proof.
  intros (Hok & _ & _) Hi Hs Hpos Hmx b0.
  destruct (book_ok_taker_in (book e) o tk sto Hok Hi) as (Hok0 & _ & Hget).
  assert (Hopen : remaining_open (store b0) tk = open_lot o).
  { unfold remaining_open. cbn. by rewrite Hget, decide_True. }
  assert (Hmatch : (match s with
     | Buy => match_buy (set_book b0 e) tk (client_id o) limit mx
     | Sell => match_sell (set_book b0 e) tk (client_id o) limit mx
     end) = match_side (match_loop s) (set_book b0 e) tk (client_id o) limit mx) by (by destruct s).
  rewrite Hmatch. unfold match_side. cbn [book set_book client_to_id]. fold b0. rewrite Hopen.
  destruct (match_loop_spec s (match_fuel b0) (mkMatching b0 (client_to_id e) [] (open_lot o)) tk (client_id o)
    limit mx 0) as (evs & st' & -> & Hevs & Hts & Hok1 & Ho1 & Hstp & Hmax); cbn [m_book m_open m_clients] in *;
    try done; [lia| | |].
  - intros max Hm. split; [by apply Hmx|]. specialize (Hmx max Hm). unfold in_u32 in Hmx. lia.
  - unfold match_fuel, live_len. rewrite store_live by apply Hok0. lia.
  - exists evs, (m_book st'), (m_clients st'), (m_open st'). cbn in Hevs. subst evs.
    cbn [mbind option_bind]. split_and!; try done.
    rewrite (hp_trades_taker _ _ _ _ _ _ _ _ _ _ _ Hts). cbn. by rewrite Hget, decide_True.
Qed.

(** The client index while the taker comes and goes. *)
Lemma clients_taker_in b b' cl tk o :
  clients_ok None b cl → store_get (store b) tk = None →
  (∀ j, store_get (store b') j = if decide (tk = j) then Some o else store_get (store b) j) →
  clients_ok (Some tk) b' cl.
Proof.
  intros (Hc & Hs & Hn) Hnone Hget. split_and!; [| |done].
  - intros i x Hx Hi. rewrite Hget, decide_False in Hx by congruence. by apply Hc.
  - intros c i Hc0 Hi. destruct (Hs c i Hc0 Hi) as (_ & x & Hx & Hxc). assert (tk ≠ i) by congruence.
    split; [congruence|]. exists x. by rewrite Hget, decide_False.
Qed.

Lemma clients_taker_out b b' cl tk :
  clients_ok (Some tk) b cl →
  (∀ j, store_get (store b') j = if decide (tk = j) then None else store_get (store b) j) →
  clients_ok None b' cl.
Proof.
  intros (Hc & Hs & Hn) Hget. split_and!; [| |done].
  - intros i x Hx _. rewrite Hget in Hx. case_decide; [done|]. apply Hc; [done|congruence].
  - intros c i Hc0 Hi. destruct (Hs c i Hc0 Hi) as (Htk & x & Hx & Hxc). split; [done|].
    exists x. by rewrite Hget, decide_False by congruence.
Qed.

Lemma push_client_lookup c i cl c' :
  default [] (push_client c i cl !! c') = default [] (cl !! c') ++ (if decide (c = c') then [i] else []).
Proof.
  unfold push_client. case_decide; [subst; by rewrite lookup_insert_eq|].
  by rewrite lookup_insert_ne, app_nil_r by done.
Qed.

Lemma clients_taker_rest b b' cl tk o :
  clients_ok (Some tk) b cl →
  (∀ j, store_get (store b') j = if decide (tk = j) then Some o else store_get (store b) j) →
  clients_ok None b' (push_client (client_id o) tk cl).
Proof.
  intros (Hc & Hs & Hn) Hget. split_and!.
  - intros i x Hx _. rewrite push_client_lookup. apply elem_of_app. rewrite Hget in Hx.
    case_decide as Hij; [simplify_eq|].
    + right. rewrite decide_True by done. by left.
    + left. apply Hc; [done|congruence].
  - intros c i Hc0 Hi. split; [done|]. rewrite push_client_lookup in Hi. apply elem_of_app in Hi as [Hi|Hi].
    + destruct (Hs c i Hc0 Hi) as (Htk & x & Hx & Hxc). exists x. by rewrite Hget, decide_False by congruence.
    + case_decide as Hcc; [|by apply elem_of_nil in Hi]. apply list_elem_of_singleton in Hi as ->.
      exists o. by rewrite Hget, decide_True.
  - intros c Hc0. unfold push_client. destruct (decide (client_id o = c)) as [<-|Hne].
    + rewrite lookup_insert_eq. intros [= Hnil]. by destruct (default [] _).
    + rewrite lookup_insert_ne by done. by apply Hn.
Qed.

(** Fewer levels cannot cross. *)
Lemma uncrossed_shrink b b' :
  hp_uncrossed b → (∀ s t, is_Some (levels b' s !! t) → is_Some (levels b s !! t)) → hp_uncrossed b'.
Proof. intros Hu Hd x y Hx Hy. apply Hu; by apply Hd. Qed.

Lemma hp_trades_shrink m tk tc ok b cl op evs b' cl' op' s t :
  hp_trades m tk tc ok b cl op evs b' cl' op' → is_Some (levels b' s !! t) → is_Some (levels b s !! t).
Proof.
  intros Hts Hs. destruct (decide (s = m)) as [->|Hne]; [by eapply hp_trades_dom|].
  assert (s = opposite m) as -> by (by destruct s, m). by rewrite (hp_trades_other _ _ _ _ _ _ _ _ _ _ _ Hts) in Hs.
Qed.

(** Nothing on the other side is within the taker's limit. *)
Definition exhausted s limit b : Prop :=
  ∀ t, is_Some (levels b (opposite s) !! t) → beyond s limit t = true.

Lemma stopped_exhausted s limit fc tk n st :
  book_ok (Some tk) (m_book st) → stopped s limit None fc n st → 0 < m_open st → exhausted s limit (m_book st).
Proof.
  intros (_ & _ & _ & Hbest & _) Hst Hop t Ht. destruct Hst as [Hz|[(max & ? & _)|Hb]]; [lia|done|].
  specialize (Hbest (opposite s)). destruct (best (m_book st) (opposite s)) as [x|]; cbn in Hbest.
  - destruct Hbest as [_ Hx]. destruct (Hx t Ht) as [->|Hbx]; [done|]. unfold beyond in *.
    destruct limit as [lim|]; [|done]. destruct s; cbn in *; [rewrite Z.gtb_ltb in *|]; zb.
    + apply Z.ltb_lt. lia.
    + apply Z.ltb_lt. lia.
  - rewrite Hbest, lookup_empty in Ht. by destruct Ht.
Qed.

(** ** Limit orders *)

(** The order a limit command stores. *)
Definition limit_order tk s p q ts c : HpOrder := mkHpOrder tk s p q q ts c.

(** Outcome of a limit command: a run of fills, then the remainder, if any, is
    queued last at its tick. *)
Definition limit_outcome e s p q ts c (evs : list HpEvent) e' : Prop :=
  ∃ tk sto fills b1 cl1 op,
    store_get (store (book e)) tk = None
    ∧ (∀ j, store_get sto j = if decide (tk = j) then Some (limit_order tk s p q ts c)
                              else store_get (store (book e)) j)
    ∧ hp_trades (opposite s) tk c (λ t, beyond s (Some p) t = false)
        (set_store sto (book e)) (client_to_id e) q fills b1 cl1 op
    ∧ book_ok (Some tk) b1 ∧ store_get (store b1) tk = Some (limit_order tk s p q ts c) ∧ 0 <= op
    ∧ evs = fills ++ (if op =? 0 then [] else [Rest tk c s p op])
    ∧ levels (book e') (opposite s) = levels b1 (opposite s)
    ∧ (∀ j, store_get (store (book e')) j
            = if decide (tk = j) then if op =? 0 then None else Some (set_open_lot op (limit_order tk s p q ts c))
              else store_get (store b1) j)
    ∧ (if op =? 0 then levels (book e') s = levels b1 s
       else levels (book e') s = <[p := level_push tk op (default level_default (levels b1 s !! p))]> (levels b1 s)
            ∧ exhausted s (Some p) b1).

(** The state after the matching phase, once the taker's open lot is written back. *)
Lemma match_phase_state e o tk sto m tc ok fills b1 cl1 op :
  engine_ok e → store_insert (store (book e)) o = (tk, sto) → 0 < open_lot o <= i64_max →
  hp_trades m tk tc ok (set_store sto (book e)) (client_to_id e) (open_lot o) fills b1 cl1 op →
  book_ok (Some tk) b1 → store_get (store b1) tk = Some (set_id tk o) →
  let b2 := set_store (set_taker_open (store b1) tk op) b1 in
  book_ok (Some tk) b2
  ∧ (∀ j, store_get (store b2) j = if decide (tk = j) then Some (set_open_lot op (set_id tk o))
                                   else store_get (store b1) j)
  ∧ remaining_open (store b2) tk = op ∧ op <= i64_max
  ∧ clients_ok (Some tk) b1 cl1 ∧ hp_uncrossed b1.
Proof.
  intros (Hok & Hcl & Hu) Hi Hpos Hts Hok1 Htk b2.
  destruct (book_ok_taker_in _ _ _ _ Hok Hi) as (_ & Hnone & Hget0).
  assert (Hget2 : ∀ j, store_get (store b2) j = if decide (tk = j) then Some (set_open_lot op (set_id tk o))
                                   else store_get (store b1) j).
  { intros j. cbn. unfold set_taker_open. rewrite store_update_get. case_decide; [subst; by rewrite Htk|done]. }
  split_and!; [by apply book_ok_taker_set|done| | | |].
  - unfold remaining_open. by rewrite Hget2, decide_True.
  - pose proof (hp_trades_lots _ _ _ _ _ _ _ _ _ _ _ Hts).
    pose proof (fill_lots_nonneg _ _ _ _ (hp_trades_fills _ _ _ _ _ _ _ _ _ _ _ Hts)). lia.
  - eapply hp_trades_clients; [exact Hts|]. by eapply (clients_taker_in (book e)).
  - eapply uncrossed_shrink; [exact Hu|]. intros s' t Ht. eapply hp_trades_shrink in Ht; [|exact Hts].
    by destruct s'.
Qed.

(** The taker leaves the store. *)
Lemma taker_leaves b1 b2 tk o cl :
  book_ok (Some tk) b2 → (∀ j, store_get (store b2) j = if decide (tk = j) then Some o else store_get (store b1) j) →
  clients_ok (Some tk) b1 cl →
  let b' := set_store (store_remove (store b2) tk).2 b2 in
  book_ok None b' ∧ clients_ok None b' cl
  ∧ ∀ j, store_get (store b') j = if decide (tk = j) then None else store_get (store b1) j.
Proof.
  intros Hok2 Hget2 Hcl b'. destruct (book_ok_taker_out b2 tk o Hok2) as [Hok3 Hget3]; [by rewrite Hget2, decide_True|].
  assert (Hget : ∀ j, store_get (store b') j = if decide (tk = j) then None else store_get (store b1) j).
  { intros j. subst b'. rewrite Hget3. destruct (decide (tk = j)); [done|]. by rewrite Hget2, decide_False. }
  split_and!; try done. by eapply clients_taker_out.
Qed.

(** The remainder of a limit order does not cross. *)
Lemma uncrossed_rest s p b1 b3 l :
  hp_uncrossed b1 → exhausted s (Some p) b1 → levels b3 s = <[p := l]> (levels b1 s) →
  levels b3 (opposite s) = levels b1 (opposite s) → hp_uncrossed b3.
Proof.
  intros Hu Hex Hl Hopp x y Hx Hy.
  assert (Hnew : ∀ t, is_Some (levels b3 s !! t) → t = p ∨ is_Some (levels b1 s !! t)).
  { intros t. rewrite Hl. destruct (decide (p = t)) as [->|Hne]; [by left|].
    rewrite lookup_insert_ne by done. by right. }
  unfold exhausted, beyond in Hex. destruct s; cbn [opposite] in *.
  - rewrite Hopp in Hy. destruct (Hnew x Hx) as [->|Hx']; [|by apply Hu].
    specialize (Hex y Hy). rewrite Z.gtb_ltb in Hex. zb. lia.
  - rewrite Hopp in Hx. destruct (Hnew y Hy) as [->|Hy']; [|by apply Hu].
    specialize (Hex x Hx). zb. lia.
Qed.

Lemma on_limit_outcome e s p q ts c :
  engine_ok e → in_i64 p → 0 < q <= i64_max →
  ∃ evs e', on_limit e s p q ts c = Some (evs, e') ∧ limit_outcome e s p q ts c evs e' ∧ engine_ok e'.
Proof.
  intros He Hp Hq. pose proof He as (Hok & _ & _). unfold on_limit. rewrite (proj2 (Z.leb_gt q 0)) by lia.
  destruct (store_insert (store (book e)) (mkHpOrder 0 s p q q ts c)) as [tk sto] eqn:Hi.
  destruct (book_ok_taker_in _ _ _ _ Hok Hi) as (_ & Hnone & Hget0).
  destruct (match_phase e s _ tk sto (Some p) None He Hi) as (fills & b1 & cl1 & op & Hm & Hts & Hok1 & Hop &
    Hstp & _ & Htk); try done. cbn [client_id] in Hm, Hts. rewrite Hm. cbn [mbind option_bind].
  destruct (match_phase_state _ _ _ _ _ _ _ _ _ _ _ He Hi Hq Hts Hok1 Htk)
    as (Hok2 & Hget2 & Hrem & Hop' & Hcl1 & Hu1). cbn [open_lot] in Hts.
  change (set_id tk _) with (limit_order tk s p q ts c) in *.
  set (b2 := set_store (set_taker_open (store b1) tk op) b1) in *.
  assert (Hlev2 : ∀ s', levels b2 s' = levels b1 s') by (by intros []).
  cbn [book client_to_id]. rewrite Hrem, Z.gtb_ltb. destruct (Z.ltb_spec 0 op) as [Hlt|Hge].
  - assert (Hz : op =? 0 = false) by (apply Z.eqb_neq; lia).
    destruct (rest_spec b2 tk (set_open_lot op (limit_order tk s p q ts c)) Hok2) as
      (b3 & -> & Hok3 & Hst3 & Hl3 & Ho3); [by rewrite Hget2, decide_True|done|cbn; lia|].
    cbn [mbind option_bind side price_tick open_lot set_open_lot limit_order] in *. rewrite Hlev2 in Hl3.
    assert (Hopp : levels b3 (opposite s) = levels b1 (opposite s)) by (rewrite Ho3 by (by destruct s); apply Hlev2).
    assert (Hex : exhausted s (Some p) b1).
    { by eapply (stopped_exhausted s (Some p) 0 tk (length fills) (mkMatching b1 cl1 fills op)). }
    eexists _, _. split; [reflexivity|]. split; [|split_and!; cbn [book client_to_id]].
    + exists tk, sto, fills, b1, cl1, op. rewrite Hz. cbn [book]. split_and!; try done.
      intros j. rewrite Hst3. apply Hget2.
    + done.
    + eapply (clients_taker_rest b1 b3 cl1 tk (set_open_lot op (limit_order tk s p q ts c)) Hcl1).
      intros j. rewrite Hst3. apply Hget2.
    + by eapply uncrossed_rest.
  - assert (op = 0) as -> by lia.
    destruct (taker_leaves b1 b2 tk _ cl1 Hok2 Hget2 Hcl1) as (Hok3 & Hcl3 & Hget3).
    eexists _, _. split; [reflexivity|]. split; [|by split_and!].
    exists tk, sto, fills, b1, cl1, 0. cbn [Z.eqb]. rewrite app_nil_r. split_and!; try done; by destruct s.
Qed.

(** ** Market orders *)

(** Outcome of a market command: a run of fills, then the taker is gone. *)
Definition market_outcome e s q ts mx c (evs : list HpEvent) e' : Prop :=
  ∃ tk sto fills b1 cl1 op,
    store_get (store (book e)) tk = None
    ∧ (∀ j, store_get sto j = if decide (tk = j) then Some (mkHpOrder tk s 0 q q ts c)
                              else store_get (store (book e)) j)
    ∧ hp_trades (opposite s) tk c (λ t, True) (set_store sto (book e)) (client_to_id e) q fills b1 cl1 op
    ∧ book_ok (Some tk) b1 ∧ 0 <= op
    ∧ evs = fills ++ (if op =? 0 then [] else [Revoke tk c 1])
    ∧ (∀ s', levels (book e') s' = levels b1 s')
    ∧ (∀ j, store_get (store (book e')) j = if decide (tk = j) then None else store_get (store b1) j)
    ∧ (∀ max, mx = Some max → Z.of_nat (length fills) <= max)
    ∧ (op = 0 ∨ levels b1 (opposite s) = ∅ ∨ ∃ max, mx = Some max ∧ max <= Z.of_nat (length fills)).

Lemma on_market_outcome e s q ts mx c :
  engine_ok e → 0 < q <= i64_max → (∀ max, mx = Some max → in_u32 max) →
  ∃ evs e', on_market e s q ts mx c = Some (evs, e') ∧ market_outcome e s q ts mx c evs e' ∧ engine_ok e'.
Proof.
  intros He Hq Hmx. pose proof He as (Hok & _ & _). unfold on_market. rewrite (proj2 (Z.leb_gt q 0)) by lia.
  destruct (store_insert (store (book e)) (mkHpOrder 0 s 0 q q ts c)) as [tk sto] eqn:Hi.
  destruct (book_ok_taker_in _ _ _ _ Hok Hi) as (_ & Hnone & Hget0).
  destruct (match_phase e s _ tk sto None mx He Hi) as (fills & b1 & cl1 & op & Hm & Hts & Hok1 & Hop &
    Hstp & Hmax & Htk); try done. cbn [client_id] in Hm, Hts. rewrite Hm. cbn [mbind option_bind].
  destruct (match_phase_state _ _ _ _ _ _ _ _ _ _ _ He Hi Hq Hts Hok1 Htk)
    as (Hok2 & Hget2 & Hrem & Hop' & Hcl1 & Hu1). cbn [open_lot] in Hts.
  set (b2 := set_store (set_taker_open (store b1) tk op) b1) in *.
  cbn [book client_to_id]. rewrite Hrem, Z.gtb_ltb.
  destruct (taker_leaves b1 b2 tk _ cl1 Hok2 Hget2 Hcl1) as (Hok3 & Hcl3 & Hget3).
  eexists _, _. split; [reflexivity|]. split; [|by split_and!].
  exists tk, sto, fills, b1, cl1, op. split_and!; try done.
  - eapply hp_trades_weaken; [|exact Hts]. done.
  - destruct (Z.ltb_spec 0 op), (Z.eqb_spec op 0); try lia; [done|by rewrite app_nil_r].
  - destruct Hstp as [Hz|[(max & Hm' & Hle)|Hb]]; [by left|right; right|right; left].
    + exists max. split; [done|lia].
    + destruct Hok1 as (_ & _ & _ & Hbest & _). specialize (Hbest (opposite s)).
      cbn in Hb. by destruct (best b1 (opposite s)).
Qed.

(** ** Cancellation *)

(** [b'] is [b] without the order [i], as levels and store see it. *)
Definition without i o b b' : Prop :=
  (∀ j, store_get (store b') j = if decide (i = j) then None else store_get (store b) j)
  ∧ (∀ s t, queue b' s t = if decide ((s, t) = (side o, price_tick o)) then retain_not i (queue b s t)
                           else queue b s t)
  ∧ (∀ s t, is_Some (levels b' s !! t) → is_Some (levels b s !! t)).

Lemma cancel_without b i o :
  book_ok None b → store_get (store b) i = Some o →
  ∃ b', cancel b i = (true, b') ∧ book_ok None b' ∧ without i o b b' ∧ (totals_ok b → totals_ok b').
Proof.
  intros Hok Hg. destruct (cancel_spec None b i o Hok Hg) as (b' & Hc & Hok' & Hget & l & Hl & Hin & Hm & Hoth); [done|].
  cbn [ids] in Hm.
  assert (Hlook : ∀ s t, (s, t) ≠ (side o, price_tick o) → levels b' s !! t = levels b s !! t).
  { intros s t Hne. destruct (decide (s = side o)) as [->|Hs]; [|by rewrite Hoth].
    rewrite Hm. assert (price_tick o ≠ t) by congruence. case_decide;
      [by rewrite lookup_delete_ne|by rewrite lookup_insert_ne]. }
  exists b'. split_and!; [done|done| |].
  - split_and!; [done| |].
    + intros s t. unfold queue. destruct (decide ((s, t) = (side o, price_tick o))) as [[= -> ->]|Hst].
      * rewrite Hm, Hl. case_decide as He; [by rewrite lookup_delete_eq, He|by rewrite lookup_insert_eq].
      * by rewrite Hlook.
    + intros s t Hs. destruct (decide ((s, t) = (side o, price_tick o))) as [[= -> ->]|Hne];
        [by rewrite Hl|by rewrite Hlook in Hs].
  - intros Htot s t l' Hl'. pose proof Hok as (_ & _ & _ & _ & Hlv & _).
    assert (Hget' : ∀ j, i ≠ j → store_get (store b') j = store_get (store b) j).
    { intros j Hj. by rewrite Hget, decide_False. }
    destruct (decide ((s, t) = (side o, price_tick o))) as [[= -> ->]|Hne].
    2: { rewrite Hlook in Hl' by done. by eapply (totals_frame None b b' i o). }
    destruct (Hlv _ _ _ Hl) as (_ & Hnd & Hres). destruct (Htot _ _ _ Hl) as [Hsum Hmax].
    pose proof (lots_retain b i (ids l) o Hnd Hin Hg) as Hsplit.
    assert (Hr0 : 0 <= lots b (retain_not i (ids l))).
    { apply lots_nonneg. intros j [_ Hj]%list_elem_of_filter. destruct (Hres j Hj). eauto. }
    assert (Hpos : 0 < open_lot o) by (destruct (Hres i Hin) as (_ & x & Hx & _ & _ & ?); rewrite Hg in Hx; simplify_eq; lia).
    rewrite Hm in Hl'. case_decide as He; [by rewrite lookup_delete_eq in Hl'|].
    rewrite lookup_insert_eq in Hl'. simplify_eq. cbn [total_lot ids].
    rewrite (lots_ext b b') by (intros j [Hj _]%list_elem_of_filter; apply Hget'; congruence).
    rewrite debit_exact by lia. lia.
Qed.

Lemma without_clients b b' cl i o :
  clients_ok None b cl → store_get (store b) i = Some o → without i o b b' →
  clients_ok None b' (forget (client_id o) i cl).
Proof. intros Hcl Hg (Hget & _ & _). eapply clients_ok_drop; try done. by left. Qed.

Lemma cancel_all_spec c il b :
  book_ok None b →
  ∃ evs b', cancel_all c il b = (evs, b') ∧ book_ok None b'
    ∧ (∀ j, store_get (store b') j = if decide (j ∈ il) then None else store_get (store b) j)
    ∧ (∀ s t, is_Some (levels b' s !! t) → is_Some (levels b s !! t))
    ∧ (totals_ok b → totals_ok b')
    ∧ (∀ ev, ev ∈ evs ↔ ∃ j, j ∈ il ∧ is_Some (store_get (store b) j) ∧ ev = Revoke j c 0)
    ∧ NoDup evs.
Proof.
  revert b; induction il as [|i il IH]; intros b Hok.
  { exists [], b. split_and!; try done; [|constructor]. intros ev.
    split; [by intros ?%elem_of_nil|intros (j & Hj & _); by apply elem_of_nil in Hj]. }
  cbn [cancel_all]. destruct (store_get (store b) i) as [o|] eqn:Hg.
  - destruct (cancel_without b i o Hok Hg) as (b1 & -> & Hok1 & (Hget1 & _ & Hlv1) & Htot1).
    destruct (IH b1 Hok1) as (evs & b2 & -> & Hok2 & Hget2 & Hlv2 & Htot2 & Hev2 & Hnd2).
    eexists _, _. split; [reflexivity|]. split_and!; eauto.
    + intros j. rewrite Hget2, Hget1. destruct (decide (j ∈ il)), (decide (i = j)), (decide (j ∈ i :: il));
        try done; set_solver.
    + intros ev. rewrite elem_of_cons, Hev2. split.
      * intros [->|(j & Hj & Hs & ->)]; [exists i; split_and!; [by left|by rewrite Hg|done]|].
        exists j. split_and!; [by right| |done]. rewrite Hget1 in Hs. case_decide; [by destruct Hs|done].
      * intros (j & Hj & Hs & ->). destruct (decide (i = j)) as [->|Hne]; [by left|right].
        exists j. apply elem_of_cons in Hj as [?|Hj]; [congruence|]. by rewrite Hget1, decide_False.
    + constructor; [|done]. intros (j & _ & Hs & [= <-])%Hev2. rewrite Hget1, decide_True in Hs by done.
      by destruct Hs.
  - unfold cancel. rewrite store_remove_None by done.
    destruct (IH b Hok) as (evs & b2 & -> & Hok2 & Hget2 & Hlv2 & Htot2 & Hev2 & Hnd2).
    eexists _, _. split; [reflexivity|]. split_and!; eauto.
    + intros j. rewrite Hget2. destruct (decide (j ∈ il)), (decide (j ∈ i :: il)) as [Hj|]; try done; [set_solver|].
      apply elem_of_cons in Hj as [->|?]; done.
    + intros ev. rewrite Hev2. split.
      * intros (j & Hj & Hs & ->). exists j. split_and!; [by right|done|done].
      * intros (j & [->|Hj]%elem_of_cons & Hs & ->); [rewrite Hg in Hs; by destruct Hs|]. by exists j.
Qed.

(** Cancelling all orders of a client empties its entry and touches no other. *)
Lemma clients_cancel_all b b' cl c il :
  clients_ok None b cl → c ≠ 0 → cl !! c = Some il →
  (∀ j, store_get (store b') j = if decide (j ∈ il) then None else store_get (store b) j) →
  clients_ok None b' (delete c cl).
Proof.
  intros (Hc & Hs & Hn) Hc0 Hil Hget. split_and!.
  - intros i o Ho _. rewrite Hget in Ho. case_decide as Hi; [done|].
    specialize (Hc i o Ho ltac:(done)). destruct (decide (c = client_id o)) as [->|Hne].
    + rewrite Hil in Hc. done.
    + by rewrite lookup_delete_ne.
  - intros c' i Hc' Hi. destruct (decide (c = c')) as [->|Hne].
    + rewrite lookup_delete_eq in Hi. by apply elem_of_nil in Hi.
    + rewrite lookup_delete_ne in Hi by done. destruct (Hs c' i Hc' Hi) as (_ & o & Ho & Hoc). split; [done|].
      exists o. rewrite Hget, decide_False; [done|]. intros Hin.
      destruct (Hs c i Hc0) as (_ & o' & Ho' & Hoc'); [by rewrite Hil|]. congruence.
  - intros c' Hc'. destruct (decide (c = c')) as [->|Hne]; [by rewrite lookup_delete_eq|].
    rewrite lookup_delete_ne by done. by apply Hn.
Qed.

Lemma on_cancel_ok e i : engine_ok e → i ≠ 0 → engine_ok (on_cancel e i).2.
Proof.
  intros (Hok & Hcl & Hu) Hi. unfold on_cancel. destruct (store_get (store (book e)) i) as [o|] eqn:Hg.
  - destruct (cancel_without _ i o Hok Hg) as (b' & -> & Hok' & Hw & _). split_and!; cbn; [done| |].
    + by eapply without_clients.
    + eapply uncrossed_shrink; [exact Hu|]. apply Hw.
  - destruct (client_to_id e !! i) as [il|] eqn:Hil; [|done].
    destruct (cancel_all_spec i il (book e) Hok) as (evs & b' & -> & Hok' & Hget & Hlv & _ & _).
    split_and!; cbn; [done|by eapply clients_cancel_all|by eapply uncrossed_shrink].
Qed.

Lemma hp_on_order_ok e cmd :
  engine_ok e → wf_command cmd → ∃ evs e', hp_on_order e cmd = Some (evs, e') ∧ engine_ok e'.
Proof.
  intros He Hwf. destruct cmd as [s p q ts c|i|s q ts mx c]; cbn [hp_on_order wf_command] in *.
  - destruct Hwf as [Hp Hq]. destruct (Z.leb_spec q 0) as [Hle|Hlt].
    + unfold on_limit. rewrite (proj2 (Z.leb_le q 0)) by done. by exists [], e.
    + destruct (on_limit_outcome e s p q ts c He Hp) as (evs & e' & H1 & _ & H2);
        [unfold in_i64, i64_max in *; lia|]. by exists evs, e'.
  - pose proof (on_cancel_ok e i He Hwf). destruct (on_cancel e i) as [evs e']. by exists evs, e'.
  - destruct Hwf as [Hq Hmx]. destruct (Z.leb_spec q 0) as [Hle|Hlt].
    + unfold on_market. rewrite (proj2 (Z.leb_le q 0)) by done. by exists [], e.
    + destruct (on_market_outcome e s q ts mx c He) as (evs & e' & H1 & _ & H2); [|done|].
      { unfold in_i64, i64_max in *; lia. } by exists evs, e'.
Qed.

Lemma hp_run_ok e (l : list HpCommand) :
  engine_ok e → Forall wf_command l → ∃ evs e', hp_run e l = Some (evs, e') ∧ engine_ok e'.
Proof.
  revert e; induction l as [|c l IH]; intros e He Hl; [by exists [], e|].
  apply Forall_cons in Hl as [Hc Hl]. destruct (hp_on_order_ok e c He Hc) as (evs & e1 & H1 & He1).
  destruct (IH e1 He1 Hl) as (evs' & e2 & H2 & He2). exists (evs ++ evs'), e2.
  cbn [hp_run]. rewrite H1. cbn [mbind option_bind]. by rewrite H2.
Qed.

End Facts.
