(* ===== verification/HpTotals.v ===== *)
(** * match-core-hp: open lots and level totals

    How much is open on each side of the book before and after a command, and
    that the running total each level keeps is the sum of the open lots of its
    orders as long as the lots submitted fit in an [i64]. *)
From stdpp Require Import gmap sorting.
From S2P Require Import Prelude HpTypes HpIndex HpBook HpEngine.

#[local] Open Scope Z_scope.

(** ** Sums over finite maps *)

Lemma sum_map_sub f (M' M : gmap Z HpOrder) :
  (∀ i o, M !! i = Some o → 0 <= f o) → M' ⊆ M → sum_map f M' <= sum_map f M.
Proof.
  revert M. induction M' as [|i x M' Hi IH] using map_ind; intros M Hf Hsub.
  - clear Hsub. induction M as [|i x M Hi IH] using map_ind; [done|].
    rewrite sum_map_insert by done. pose proof (Hf i x (lookup_insert_eq _ _ _)).
    assert (sum_map f ∅ <= sum_map f M); [|lia]. apply IH. intros j o Hj. apply (Hf j).
    rewrite lookup_insert_ne; [done|congruence].
  - rewrite sum_map_insert by done.
    assert (HM : M !! i = Some x) by (eapply lookup_weaken; [apply lookup_insert_eq|exact Hsub]).
    pose proof (sum_map_delete f M i x HM).
    assert (sum_map f M' <= sum_map f (delete i M)); [|lia]. apply IH.
    + intros j o [_ Hj]%lookup_delete_Some. eauto.
    + apply map_subseteq_spec. intros j o Hj. destruct (decide (i = j)) as [->|Hne]; [congruence|].
      rewrite lookup_delete_ne by done. eapply lookup_weaken; [|exact Hsub]. by rewrite lookup_insert_ne.
Qed.

(** Distinct keys never sum to more than the whole map. *)
Lemma foldr_sum_le f (M : gmap Z HpOrder) (il : list Z) :
  NoDup il → (∀ i o, M !! i = Some o → 0 <= f o) →
  foldr (λ i acc, (match M !! i with Some o => f o | None => 0 end) + acc) 0 il <= sum_map f M.
Proof.
  intros Hnd; revert M; induction Hnd as [|i il Hi Hnd IH]; intros M Hf; cbn [foldr].
  - change 0 with (sum_map f ∅). apply sum_map_sub; [done|apply map_empty_subseteq].
  - assert (Hext : foldr (λ j acc, (match M !! j with Some o => f o | None => 0 end) + acc) 0 il
      = foldr (λ j acc, (match delete i M !! j with Some o => f o | None => 0 end) + acc) 0 il).
    { clear IH Hnd. induction il as [|j il IHl]; cbn [foldr]; [done|]. apply not_elem_of_cons in Hi as [Hij Hi].
      rewrite (lookup_delete_ne M i j) by done. by rewrite IHl. }
    rewrite Hext. specialize (IH (delete i M)). destruct (M !! i) as [o|] eqn:HM.
    + pose proof (sum_map_delete f M i o HM).
      assert (Hf' : ∀ j x, delete i M !! j = Some x → 0 <= f x)
        by (intros j x [_ Hj]%lookup_delete_Some; eauto).
      specialize (IH Hf'). lia.
    + rewrite delete_id in * by done. by apply IH.
Qed.

Section Totals.
Context {BI AI : Type} `{LB : LevelIndex BI} `{LA : LevelIndex AI}
  `{SB : !LevelIndexSpec BI Buy} `{SA : !LevelIndexSpec AI Sell}.
Implicit Types (b : Book BI AI) (s : Side) (t i op : Z) (l : Level) (e : HpEngine BI AI).

(** ** Open lots of a side under a change of one order *)

Lemma side_open_add b b' s i o :
  store_get (store b) i = None →
  (∀ j, store_get (store b') j = if decide (i = j) then Some o else store_get (store b) j) →
  side_open s b' = side_open s b + lots_of s o.
Proof.
  intros Hn Hg. unfold side_open. rewrite (store_map_ext b b' (<[i := o]> (store_map (store b)))).
  - rewrite sum_map_insert by (by rewrite store_map_lookup). lia.
  - intros j. rewrite Hg. case_decide as Hj; [by rewrite Hj, lookup_insert_eq|].
    by rewrite lookup_insert_ne, store_map_lookup by done.
Qed.

Lemma side_open_drop b b' s i o :
  store_get (store b) i = Some o →
  (∀ j, store_get (store b') j = if decide (i = j) then None else store_get (store b) j) →
  side_open s b' = side_open s b - lots_of s o.
Proof.
  intros Hn Hg. unfold side_open. rewrite (store_map_ext b b' (delete i (store_map (store b)))).
  - apply sum_map_delete. by rewrite store_map_lookup.
  - intros j. rewrite Hg. case_decide as Hj; [by rewrite Hj, lookup_delete_eq|].
    by rewrite lookup_delete_ne, store_map_lookup by done.
Qed.

Lemma side_open_change b b' s i o o' :
  store_get (store b) i = Some o →
  (∀ j, store_get (store b') j = if decide (i = j) then Some o' else store_get (store b) j) →
  side_open s b' = side_open s b - lots_of s o + lots_of s o'.
Proof.
  intros Hn Hg. unfold side_open. rewrite (store_map_ext b b' (<[i := o']> (store_map (store b)))).
  - apply sum_map_update. by rewrite store_map_lookup.
  - intros j. rewrite Hg. case_decide as Hj; [by rewrite Hj, lookup_insert_eq|].
    by rewrite lookup_insert_ne, store_map_lookup by done.
Qed.

Lemma stored_open b i o : book_ok None b → store_get (store b) i = Some o → 0 < open_lot o <= i64_max.
Proof.
  intros (_ & _ & _ & _ & Hlv & Hcov) Hg. destruct (Hcov i o Hg) as (l & Hl & Hi); [done|].
  destruct (Hlv _ _ _ Hl) as (_ & _ & Hin). destruct (Hin i Hi) as (_ & x & Hx & _ & _ & Hp).
  rewrite Hg in Hx. by simplify_eq.
Qed.

Lemma lots_of_nonneg b s i o : book_ok None b → store_map (store b) !! i = Some o → 0 <= lots_of s o.
Proof.
  intros Hok. rewrite store_map_lookup. intros Hg. pose proof (stored_open b i o Hok Hg).
  unfold lots_of. case_decide; lia.
Qed.

(** A level never holds more than its side. *)
Lemma level_lots_le b s t l :
  book_ok None b → levels b s !! t = Some l → lots b (ids l) <= side_open s b.
Proof.
  intros Hok Hl. pose proof Hok as (_ & _ & _ & _ & Hlv & _). destruct (Hlv s t l Hl) as (_ & Hnd & Hin).
  etransitivity; [|apply (foldr_sum_le (lots_of s) _ (ids l) Hnd); intros i o; by apply lots_of_nonneg].
  apply Z.eq_le_incl. clear Hl Hnd. induction (ids l) as [|i il IH]; cbn [lots foldr]; [done|].
  f_equal; [|apply IH; intros j Hj; apply Hin; by right].
  destruct (Hin i ltac:(by left)) as (_ & o & Hg & Hs & _).
  rewrite store_map_lookup. unfold remaining_open. rewrite Hg. unfold lots_of. by rewrite decide_True.
Qed.

(** ** Commands *)

Lemma opposite_ne s : opposite s ≠ s.
Proof. by destruct s. Qed.

(** A limit command adds its remainder to its own side and takes what it traded
    from the other. *)
Lemma limit_side_open e s p q ts c evs e' :
  limit_outcome e s p q ts c evs e' →
  ∃ op, 0 <= op ∧ q = fill_lots evs + op
    ∧ side_open s (book e') = side_open s (book e) + op
    ∧ side_open (opposite s) (book e') = side_open (opposite s) (book e) - fill_lots evs.
Proof.
  intros (tk & sto & fills & b1 & cl1 & op & Hn & Hg0 & Hts & Hok1 & Htk & Hop & -> & _ & Hg' & _).
  assert (Hfl : fill_lots (fills ++ (if op =? 0 then [] else [Rest tk c s p op])) = fill_lots fills).
  { rewrite fill_lots_app. by destruct (op =? 0); cbn; lia. }
  pose proof (hp_trades_lots _ _ _ _ _ _ _ _ _ _ _ Hts) as Hlots.
  set (o := limit_order tk s p q ts c) in *.
  assert (Hin : ∀ s', side_open s' (set_store sto (book e)) = side_open s' (book e) + lots_of s' o)
    by (intros s'; by eapply side_open_add).
  assert (Hout : ∀ s', side_open s' (book e')
      = side_open s' b1 - lots_of s' o + (if decide (s' = s) then op else 0)).
  { intros s'. destruct (Z.eqb_spec op 0) as [Hz|Hz].
    - erewrite side_open_drop; [|exact Htk|exact Hg']. destruct (decide (s' = s)); lia.
    - erewrite side_open_change; [|exact Htk|exact Hg']. unfold lots_of, o. cbn.
      repeat case_decide; congruence || lia. }
  exists op. rewrite Hfl. split_and!; [done|lia| |]; rewrite Hout, (hp_trades_side_open _ _ _ _ _ _ _ _ _ _ _ _ Hts), Hin.
  - rewrite (decide_True (P := s = s)) by done. rewrite decide_False; [lia|]. intros Hs. by apply (opposite_ne s).
  - rewrite decide_True by done. rewrite decide_False by apply opposite_ne. lia.
Qed.

(** A market command takes what it traded from the other side and leaves its own alone. *)
Lemma market_side_open e s q ts mx c evs e' :
  market_outcome e s q ts mx c evs e' →
  0 <= q - fill_lots evs
  ∧ side_open s (book e') = side_open s (book e)
  ∧ side_open (opposite s) (book e') = side_open (opposite s) (book e) - fill_lots evs.
Proof.
  intros (tk & sto & fills & b1 & cl1 & op & Hn & Hg0 & Hts & Hok1 & Hop & -> & _ & Hg' & _).
  assert (Hfl : fill_lots (fills ++ (if op =? 0 then [] else [Revoke tk c 1])) = fill_lots fills).
  { rewrite fill_lots_app. by destruct (op =? 0); cbn; lia. }
  pose proof (hp_trades_lots _ _ _ _ _ _ _ _ _ _ _ Hts) as Hlots.
  pose proof (hp_trades_taker _ _ _ _ _ _ _ _ _ _ _ Hts) as Htk. cbn in Htk. rewrite Hg0, decide_True in Htk by done.
  set (o := mkHpOrder tk s 0 q q ts c) in *.
  assert (Hall : ∀ s', side_open s' (book e')
      = side_open s' (book e) - (if decide (s' = opposite s) then fill_lots fills else 0)).
  { intros s'. erewrite side_open_drop; [|exact Htk|exact Hg'].
    rewrite (hp_trades_side_open _ _ _ _ _ _ _ _ _ _ _ _ Hts), (side_open_add (book e) (set_store sto (book e)) s' tk o Hn Hg0). lia. }
  rewrite Hfl, !Hall. split_and!; [lia| |by rewrite decide_True].
  rewrite decide_False; [lia|]. intros Hs. by apply (opposite_ne s).
Qed.

Lemma limit_fills_nonneg e s p q ts c evs e' : limit_outcome e s p q ts c evs e' → 0 <= fill_lots evs.
Proof.
  intros (tk & sto & fills & b1 & cl1 & op & _ & _ & Hts & _ & _ & _ & -> & _).
  rewrite fill_lots_app. pose proof (fill_lots_nonneg _ _ _ _ (hp_trades_fills _ _ _ _ _ _ _ _ _ _ _ Hts)).
  destruct (op =? 0); cbn; lia.
Qed.

Lemma market_fills_nonneg e s q ts mx c evs e' : market_outcome e s q ts mx c evs e' → 0 <= fill_lots evs.
Proof.
  intros (tk & sto & fills & b1 & cl1 & op & _ & _ & Hts & _ & _ & -> & _).
  rewrite fill_lots_app. pose proof (fill_lots_nonneg _ _ _ _ (hp_trades_fills _ _ _ _ _ _ _ _ _ _ _ Hts)).
  destruct (op =? 0); cbn; lia.
Qed.

Lemma shrink_side_open b b' s :
  book_ok None b → (∀ j o, store_get (store b') j = Some o → store_get (store b) j = Some o) →
  side_open s b' <= side_open s b.
Proof.
  intros Hok Hsub. apply sum_map_sub; [intros i o; by apply lots_of_nonneg|].
  apply map_subseteq_spec. intros j o. rewrite !store_map_lookup. apply Hsub.
Qed.

(** ** Level totals *)

(** An order no level lists does not bear on the totals. *)
Lemma totals_ext b b' i :
  totals_ok b → (∀ s, levels b' s = levels b s) → (∀ s t l, levels b s !! t = Some l → i ∉ ids l) →
  (∀ j, i ≠ j → store_get (store b') j = store_get (store b) j) → totals_ok b'.
Proof.
  intros Htot Hlv Hni Hg s t l Hl. rewrite Hlv in Hl. rewrite (lots_ext b b'); [by apply (Htot s t)|].
  intros j Hj. apply Hg. intros ->. by eapply Hni.
Qed.

Lemma taker_unlisted tk b s t l : book_ok (Some tk) b → levels b s !! t = Some l → tk ∉ ids l.
Proof.
  intros (_ & _ & _ & _ & Hlv & _) Hl Hi. destruct (Hlv s t l Hl) as (_ & _ & Hin). by destruct (Hin tk Hi).
Qed.

Lemma fresh_unlisted tk b s t l :
  book_ok None b → store_get (store b) tk = None → levels b s !! t = Some l → tk ∉ ids l.
Proof.
  intros (_ & _ & _ & _ & Hlv & _) Hn Hl Hi. destruct (Hlv s t l Hl) as (_ & _ & Hin).
  destruct (Hin tk Hi) as (_ & o & Hg & _). congruence.
Qed.

Lemma trades_totals e tk sto m tc ok q fills b1 cl1 op :
  book_ok None (book e) → totals_ok (book e) → store_get (store (book e)) tk = None →
  (∀ j, tk ≠ j → store_get sto j = store_get (store (book e)) j) →
  hp_trades m tk tc ok (set_store sto (book e)) (client_to_id e) q fills b1 cl1 op → totals_ok b1.
Proof.
  intros Hok Htot Hn Hg Hts. eapply hp_trades_totals; [exact Hts|].
  eapply (totals_ext (book e) _ tk); [done|by intros []| |done].
  intros s t l. by apply fresh_unlisted.
Qed.

Lemma market_totals e s q ts mx c evs e' :
  engine_ok e → market_outcome e s q ts mx c evs e' → totals_ok (book e) → totals_ok (book e').
Proof.
  intros (Hok & _) (tk & sto & fills & b1 & cl1 & op & Hn & Hg0 & Hts & Hok1 & _ & _ & Hlv & Hg' & _) Htot.
  assert (Htot1 : totals_ok b1).
  { eapply (trades_totals e tk sto); [done|done|done| |exact Hts]. intros j Hj. by rewrite Hg0, decide_False. }
  eapply (totals_ext b1 _ tk); [done|done| |].
  - intros s' t l. by apply taker_unlisted.
  - intros j Hj. by rewrite Hg', decide_False.
Qed.

Lemma limit_totals e s p q ts c evs e' :
  engine_ok e → engine_ok e' → limit_outcome e s p q ts c evs e' →
  side_open s (book e') <= i64_max → totals_ok (book e) → totals_ok (book e').
Proof.
  intros (Hok & _) (Hok' & _) (tk & sto & fills & b1 & cl1 & op & Hn & Hg0 & Hts & Hok1 & Htk & Hop & _ & Hopp & Hg' & Hown)
    Hmax Htot.
  assert (Htot1 : totals_ok b1).
  { eapply (trades_totals e tk sto); [done|done|done| |exact Hts]. intros j Hj. by rewrite Hg0, decide_False. }
  assert (Hg1 : ∀ j, tk ≠ j → store_get (store (book e')) j = store_get (store b1) j)
    by (intros j Hj; by rewrite Hg', decide_False).
  destruct (Z.eqb_spec op 0) as [Hz|Hz].
  { eapply (totals_ext b1 _ tk); [done| |intros s' t l; by apply taker_unlisted|done].
    intros s'. destruct (decide (s' = s)) as [->|Hs]; [done|]. by replace s' with (opposite s) by by destruct s, s'. }
  destruct Hown as [Hown _]. intros s' t l Hl.
  destruct (decide ((s', t) = (s, p))) as [[= -> ->]|Hne].
  - pose proof (level_lots_le _ _ _ _ Hok' Hl) as Hle. rewrite Hown, lookup_insert_eq in Hl. injection Hl as <-.
    set (l0 := default level_default (levels b1 s !! p)) in *. cbn [level_push ids total_lot] in *.
    assert (H0 : total_lot l0 = lots b1 (ids l0) ∧ tk ∉ ids l0 ∧ 0 <= lots b1 (ids l0)).
    { unfold l0. destruct (levels b1 s !! p) as [l1|] eqn:El; cbn; [|split_and!; [done|apply not_elem_of_nil|done]].
      destruct (Htot1 _ _ _ El) as [<- _]. split_and!; [done|by eapply taker_unlisted|].
      destruct (Htot1 _ _ _ El) as [-> _]. apply lots_nonneg. intros i Hi.
      destruct Hok1 as (_ & _ & _ & _ & Hlv & _). destruct (Hlv _ _ _ El) as (_ & _ & Hin). destruct (Hin i Hi). eauto. }
    destruct H0 as (Htl & Hni & Hnn).
    assert (Hsum : lots (book e') (ids l0 ++ [tk]) = lots b1 (ids l0) + op).
    { assert (Happ : ∀ b (x y : list Z), lots b (x ++ y) = lots b x + lots b y)
        by (intros b x y; unfold lots; induction x; cbn; lia).
      rewrite Happ, (lots_ext b1 (book e')) by (intros j Hj; apply Hg1; congruence). f_equal.
      cbn. unfold remaining_open. rewrite Hg', decide_True by done. cbn. lia. }
    rewrite Hsum in *. split; [|lia]. rewrite Htl. apply i64_wrap_id. unfold in_i64, i64_max in *. lia.
  - assert (Hl1 : levels b1 s' !! t = Some l).
    { destruct (decide (s' = s)) as [->|Hs].
      - rewrite Hown, lookup_insert_ne in Hl by congruence. done.
      - replace s' with (opposite s) in * by (by destruct s, s'). by rewrite Hopp in Hl. }
    rewrite (lots_ext b1 (book e')); [by apply (Htot1 s' t)|]. intros j Hj. apply Hg1. intros ->.
    by eapply (taker_unlisted j b1).
Qed.

(** ** A stream of commands *)

(** The lots a command may add to the book. *)
Definition submitted (l : list HpCommand) : Z :=
  foldr (λ c acc, (match c with Limit _ _ q _ _ => Z.max 0 q | _ => 0 end) + acc) 0 l.

(** Totals are exact and each side holds at most [n] lots. *)
Definition bounded (n : Z) e : Prop := totals_ok (book e) ∧ ∀ s, side_open s (book e) <= n.

Lemma on_cancel_bounded n e i : engine_ok e → bounded n e → bounded n (on_cancel e i).2.
Proof.
  intros (Hok & _ & _) [Htot Hb]. unfold on_cancel. destruct (store_get (store (book e)) i) as [o|] eqn:Hg.
  - destruct (cancel_without _ i o Hok Hg) as (b' & -> & _ & (Hget & _) & Ht). split; cbn; [by apply Ht|].
    intros s. etransitivity; [|apply Hb]. apply shrink_side_open; [done|].
    intros j x. rewrite Hget. by case_decide.
  - destruct (client_to_id e !! i) as [il|] eqn:Hil; [|done].
    destruct (cancel_all_spec i il (book e) Hok) as (evs & b' & -> & _ & Hget & _ & Ht & _ & _).
    split; cbn; [by apply Ht|]. intros s. etransitivity; [|apply Hb]. apply shrink_side_open; [done|].
    intros j x. rewrite Hget. by case_decide.
Qed.

Lemma hp_on_order_bounded n e cmd evs e' :
  engine_ok e → wf_command cmd → n + submitted [cmd] <= i64_max →
  bounded n e → hp_on_order e cmd = Some (evs, e') → bounded (n + submitted [cmd]) e'.
Proof.
  intros He Hwf Hmax Hb Hrun. destruct cmd as [s p q ts c|i|s q ts mx c]; cbn [hp_on_order wf_command submitted foldr] in *.
  - destruct Hwf as [Hp Hq]. destruct (Z.leb_spec q 0) as [Hle|Hlt].
    { unfold on_limit in Hrun. rewrite (proj2 (Z.leb_le q 0)) in Hrun by done. simplify_eq.
      by rewrite Z.max_l, !Z.add_0_r by done. }
    destruct (on_limit_outcome e s p q ts c He Hp) as (evs' & e1 & H1 & Ho & He1);
      [unfold in_i64, i64_max in *; lia|]. rewrite H1 in Hrun. simplify_eq.
    destruct (limit_side_open _ _ _ _ _ _ _ _ Ho) as (op & Hop & Hq' & Hs & Hs'). destruct Hb as [Htot Hb].
    assert (Hfl : 0 <= fill_lots evs) by (by eapply limit_fills_nonneg).
    pose proof (Hb s). pose proof (Hb (opposite s)).
    split; [eapply (limit_totals e s p q ts c evs e'); [done|done|done|lia|done]|]. intros s'.
    destruct (decide (s' = s)) as [->|Hne]; [lia|]. replace s' with (opposite s) by (by destruct s, s'). lia.
  - simplify_eq. pose proof (on_cancel_bounded n e i He Hb) as Hc. destruct (on_cancel e i) as [ev e1].
    simplify_eq. by rewrite !Z.add_0_r.
  - destruct Hwf as [Hq Hmx]. rewrite !Z.add_0_r. destruct (Z.leb_spec q 0) as [Hle|Hlt].
    { unfold on_market in Hrun. rewrite (proj2 (Z.leb_le q 0)) in Hrun by done. by simplify_eq. }
    destruct (on_market_outcome e s q ts mx c He) as (evs' & e1 & H1 & Ho & He1); [|done|].
    { unfold in_i64, i64_max in *; lia. } rewrite H1 in Hrun. simplify_eq.
    destruct (market_side_open _ _ _ _ _ _ _ _ Ho) as (Hq' & Hs & Hs'). destruct Hb as [Htot Hb].
    assert (Hfl : 0 <= fill_lots evs) by (by eapply market_fills_nonneg).
    pose proof (Hb s). pose proof (Hb (opposite s)).
    split; [by eapply (market_totals e s q ts mx c evs e')|]. intros s'.
    destruct (decide (s' = s)) as [->|Hne]; [lia|]. replace s' with (opposite s) by (by destruct s, s'). lia.
Qed.

Lemma hp_run_bounded n e (l : list HpCommand) evs e' :
  engine_ok e → Forall wf_command l → 0 <= n → n + submitted l <= i64_max →
  bounded n e → hp_run e l = Some (evs, e') → bounded (n + submitted l) e'.
Proof.
  revert n e evs; induction l as [|c l IH]; intros n e evs He Hwf Hn Hmax Hb Hrun.
  { cbn in Hrun. simplify_eq. cbn. by rewrite Z.add_0_r. }
  apply Forall_cons in Hwf as [Hc Hwf]. destruct (hp_on_order_ok e c He Hc) as (ev1 & e1 & H1 & He1).
  cbn [hp_run] in Hrun. rewrite H1 in Hrun. cbn [mbind option_bind] in Hrun.
  destruct (hp_run e1 l) as [[ev2 e2]|] eqn:H2; [|done]. cbn in Hrun. simplify_eq.
  assert (Hsub : submitted (c :: l) = submitted [c] + submitted l) by (unfold submitted; cbn; lia).
  assert (Hnn : 0 <= submitted [c] ∧ 0 <= submitted l).
  { split; [unfold submitted; cbn; destruct c; lia|]. clear. induction l as [|x l IHl]; cbn; [done|].
    unfold submitted in IHl. destruct x; lia. }
  rewrite Hsub, Z.add_assoc in *. apply (IH _ e1 ev2); [done|done|lia|done| |done].
  apply (hp_on_order_bounded n e c ev1 e1); try done. lia.
Qed.

Lemma bounded_new : bounded 0 (hp_engine_new : HpEngine BI AI).
Proof.
  destruct (li_default_spec (I:=BI)) as [_ Hbm], (li_default_spec (I:=AI)) as [_ Ham]. split.
  - intros [] t l; cbn; [rewrite Hbm|rewrite Ham]; by rewrite lookup_empty.
  - done.
Qed.

End Totals.
