(* ===== verification/HpProps.v ===== *)
(** * match-core-hp: the properties of the engine

    Stated for any pair of level indexes that meet [LevelIndexSpec]; the
    witnesses run the engine over the two B-tree indexes. *)
From stdpp Require Import gmap sorting.
From S2P Require Import Prelude HpTypes HpIndex HpBook HpEngine HpTotals.

#[local] Open Scope Z_scope.

Section Props.
Context {BI AI : Type} `{LB : LevelIndex BI} `{LA : LevelIndex AI}
  `{SB : !LevelIndexSpec BI Buy} `{SA : !LevelIndexSpec AI Sell}.
Implicit Types (s : Side) (e : HpEngine BI AI).

(** The two constructors of the engine. *)
Definition fresh e : Prop := e = hp_engine_new ∨ e = hp_engine_with_capacity.

Lemma fresh_ok e : fresh e → engine_ok e ∧ bounded 0 e.
Proof.
  intros [-> | ->]; [split; [apply hp_engine_new_ok|apply bounded_new]|].
  pose proof (hp_engine_new_ok (BI:=BI) (AI:=AI)) as ((Hi & _ & Hr) & Hcl & Hu).
  split; [|exact (bounded_new (BI:=BI) (AI:=AI))]. split_and!; [|exact Hcl|exact Hu].
  split_and!; try apply Hr; [exact Hi|]. unfold pool_ok. cbn [level_pool hp_engine_with_capacity book hp_book_with_capacity].
  apply Forall_forall. by intros x ->%list_elem_of_In%repeat_spec.
Qed.

(** C12.  The high-performance engine handles any stream of well-formed
    commands: every matching loop ends by itself (one more round than there are
    live orders is enough) and no step panics; afterwards the levels, the order
    store, the cached best ticks and the client index agree with each other
    ([engine_ok]) and the best bid is below the best ask. *)
Theorem hp_stream_invariant e l :
  fresh e → Forall wf_command l →
  ∃ evs e', hp_run e l = Some (evs, e') ∧ engine_ok e'
    ∧ ∀ x y, best_bid (book e') = Some x → best_ask (book e') = Some y → x < y.
Proof.
  intros [He _]%fresh_ok Hl. destruct (hp_run_ok e l He Hl) as (evs & e' & Hr & He'). exists evs, e'.
  split_and!; [done|done|]. intros x y Hx Hy. destruct He' as ((_ & _ & _ & Hb & _) & _ & Hu).
  pose proof (Hb Buy) as HB. pose proof (Hb Sell) as HS. cbn [best] in HB, HS.
  unfold best_bid, best_ask in *. rewrite Hx in HB. rewrite Hy in HS. apply Hu; [apply HB|apply HS].
Qed.

(** C13.  A limit command of quantity [q] on a sound engine trades within its
    limit at the best opposite ticks (what is left on that side afterwards is
    never better than a price that traded), takes each level's queue from the
    front, and loses nothing: [q] is what it traded plus the remainder [op].  A
    remainder is announced by [Rest] and queued last at its own tick, and then
    no opposite level within the limit is left; without one, the taker leaves
    no trace on its side. *)
Theorem hp_limit_matches e s p q ts c :
  engine_ok e → in_i64 p → 0 < q <= i64_max →
  ∃ tk fills op e',
    hp_on_order e (Limit s p q ts c)
      = Some (fills ++ (if op =? 0 then [] else [Rest tk c s p op]), e')
    ∧ engine_ok e' ∧ store_get (store (book e)) tk = None
    ∧ 0 <= op ∧ q = fill_lots fills + op
    ∧ Forall (fill_at (opposite s) (λ t, beyond s (Some p) t = false) (book e')) fills
    ∧ (∀ t, queue (book e') (opposite s) t `suffix_of` queue (book e) (opposite s) t)
    ∧ (∀ t, queue (book e') s t
            = queue (book e) s t ++ (if decide (t = p ∧ op ≠ 0) then [tk] else []))
    ∧ side_open (opposite s) (book e') = side_open (opposite s) (book e) - fill_lots fills
    ∧ side_open s (book e') = side_open s (book e) + op
    ∧ (op ≠ 0 → exhausted s (Some p) (book e')).
Proof.
  intros He Hp Hq. destruct (on_limit_outcome e s p q ts c He Hp Hq) as (evs & e' & Hrun & Ho & He').
  destruct (limit_side_open _ _ _ _ _ _ _ _ Ho) as (op' & Hop' & Hq' & Hs & Hs').
  destruct Ho as (tk & sto & fills & b1 & cl1 & op & Hn & Hg0 & Hts & Hok1 & Htk & Hop & -> & Hopp & Hg' & Hown).
  pose proof (hp_trades_lots _ _ _ _ _ _ _ _ _ _ _ Hts) as Hlots.
  assert (Hfl : fill_lots (fills ++ (if op =? 0 then [] else [Rest tk c s p op])) = fill_lots fills).
  { rewrite fill_lots_app. by destruct (op =? 0); cbn; lia. }
  rewrite Hfl in *. replace op' with op in * by lia. clear Hfl.
  pose proof (hp_trades_other _ _ _ _ _ _ _ _ _ _ _ Hts) as Hoth.
  replace (opposite (opposite s)) with s in Hoth by by destruct s.
  assert (Hq0 : ∀ t s', queue (set_store sto (book e)) s' t = queue (book e) s' t) by (by intros ? []).
  exists tk, fills, op, e'. split_and!; try done.
  - eapply Forall_impl; [exact (hp_trades_fills _ _ _ _ _ _ _ _ _ _ _ Hts)|].
    intros [] Hf; try done. unfold fill_at in *. by rewrite Hopp.
  - intros t. rewrite <- Hq0. pose proof (hp_trades_queue _ _ _ _ _ _ _ _ _ _ _ t Hts) as Hsuf.
    unfold queue at 1. rewrite Hopp. exact Hsuf.
  - intros t. rewrite <- (Hq0 t s). unfold queue. destruct (Z.eqb_spec op 0) as [Hz|Hz].
    + rewrite (decide_False (P := t = p ∧ op ≠ 0)) by naive_solver. by rewrite app_nil_r, Hown, Hoth.
    + destruct Hown as [-> _]. rewrite Hoth. destruct (decide (t = p)) as [->|Hne].
      * rewrite lookup_insert_eq, decide_True by done. cbn. by destruct (levels _ s !! p).
      * rewrite lookup_insert_ne, decide_False by naive_solver. by rewrite app_nil_r.
  - intros Hz t. rewrite Hopp. destruct (Z.eqb_spec op 0) as [|_]; [done|]. by apply Hown.
Qed.

(** A market command never rests: its own side of the book stays as it
    was, what it traded comes off the other side in queue order, it makes at
    most [max_fills] trades, and the unfilled rest is revoked with reason 1,
    which happens only when the other side ran dry or the trade limit was
    reached. *)
Theorem hp_market_never_rests e s q ts mx c :
  engine_ok e → 0 < q <= i64_max → (∀ max, mx = Some max → in_u32 max) →
  ∃ tk fills op e',
    hp_on_order e (Market s q ts mx c)
      = Some (fills ++ (if op =? 0 then [] else [Revoke tk c 1]), e')
    ∧ engine_ok e' ∧ 0 <= op ∧ q = fill_lots fills + op
    ∧ (∀ max, mx = Some max → Z.of_nat (length fills) <= max)
    ∧ Forall (fill_at (opposite s) (λ _, True) (book e')) fills
    ∧ levels (book e') s = levels (book e) s
    ∧ (∀ t, queue (book e') (opposite s) t `suffix_of` queue (book e) (opposite s) t)
    ∧ side_open (opposite s) (book e') = side_open (opposite s) (book e) - fill_lots fills
    ∧ side_open s (book e') = side_open s (book e)
    ∧ store_get (store (book e')) tk = None
    ∧ (op ≠ 0 → levels (book e') (opposite s) = ∅ ∨ ∃ max, mx = Some max ∧ max <= Z.of_nat (length fills)).
Proof.
  intros He Hq Hmx. destruct (on_market_outcome e s q ts mx c He Hq Hmx) as (evs & e' & Hrun & Ho & He').
  destruct (market_side_open _ _ _ _ _ _ _ _ Ho) as (Hq' & Hs & Hs').
  destruct Ho as (tk & sto & fills & b1 & cl1 & op & Hn & Hg0 & Hts & Hok1 & Hop & -> & Hlv & Hg' & Hmax & Hstop).
  pose proof (hp_trades_lots _ _ _ _ _ _ _ _ _ _ _ Hts) as Hlots.
  assert (Hfl : fill_lots (fills ++ (if op =? 0 then [] else [Revoke tk c 1])) = fill_lots fills).
  { rewrite fill_lots_app. by destruct (op =? 0); cbn; lia. }
  rewrite Hfl in *. clear Hfl.
  pose proof (hp_trades_other _ _ _ _ _ _ _ _ _ _ _ Hts) as Hoth.
  replace (opposite (opposite s)) with s in Hoth by by destruct s.
  exists tk, fills, op, e'. split_and!; try done; [lia| | | | |].
  - eapply Forall_impl; [exact (hp_trades_fills _ _ _ _ _ _ _ _ _ _ _ Hts)|].
    intros [] Hf; try done. unfold fill_at in *. by rewrite Hlv.
  - rewrite Hlv, Hoth. by destruct s.
  - intros t. pose proof (hp_trades_queue _ _ _ _ _ _ _ _ _ _ _ t Hts) as Hsuf.
    unfold queue at 1. rewrite Hlv. etransitivity; [exact Hsuf|]. by destruct s.
  - by rewrite Hg', decide_True.
  - intros Hz. rewrite Hlv. by destruct Hstop as [?|Hstop].
Qed.

(** C14.  The depth view after any stream whose limit orders together fit in an
    [i64]: it lists the best [n] ticks that have resting orders, best first,
    each with the sum of the open lots queued there, so the running totals the
    levels keep are exact. *)
Theorem hp_depth_exact e l evs e' s n :
  fresh e → Forall wf_command l → submitted l <= i64_max → hp_run e l = Some (evs, e') →
  ∃ ts : list Z, StronglySorted (tick_before s) ts
    ∧ (∀ t, t ∈ ts ↔ ∃ i o, store_get (store (book e')) i = Some o ∧ side o = s ∧ price_tick o = t)
    ∧ hp_depth (book e') s n = (λ t, (t, lots (book e') (queue (book e') s t))) <$> take n ts.
Proof.
  intros [He Hb]%fresh_ok Hl Hmax Hrun. destruct (hp_run_ok e l He Hl) as (evs0 & e0 & Hr & He').
  rewrite Hrun in Hr. injection Hr as <- <-.
  destruct (hp_run_bounded 0 e l evs e' He Hl) as [Htot _]; try done.
  destruct He' as ((Hi & _ & _ & _ & Hlv & Hcov) & _ & _).
  assert (Hd : depth_of s (levels (book e') s) n (hp_depth (book e') s n))
    by (destruct s; cbn; apply li_depth_spec; apply Hi).
  destruct Hd as (ls & Hs & Hm & ->). exists ls.*1.
  assert (Hnd : NoDup ls.*1).
  { clear -Hs. induction Hs as [|x xs _ IH Hx]; constructor; [|done]. intros Hin.
    eapply Forall_forall in Hx; [|exact Hin]. destruct s; cbn in Hx; lia. }
  split_and!; [done| |].
  - intros t. assert (Hk : t ∈ ls.*1 ↔ is_Some (levels (book e') s !! t)).
    { rewrite <- Hm. split; [intros Hin|intros [l0 Hl0]].
      - apply list_elem_of_fmap in Hin as ([t' l0] & -> & Hin). exists l0. by apply elem_of_list_to_map.
      - apply elem_of_list_to_map in Hl0; [|done]. apply list_elem_of_fmap. by exists (t, l0). }
    rewrite Hk. split.
    + intros [l0 Hl0]. destruct (Hlv s t l0 Hl0) as (Hne & _ & Hin). destruct (ids l0) as [|i il]; [done|].
      destruct (Hin i ltac:(by left)) as (_ & o & Hg & Hso & Hpo & _). by exists i, o.
    + intros (i & o & Hg & <- & <-). destruct (Hcov i o Hg) as (l0 & Hl0 & _); [done|]. by exists l0.
  - rewrite <- !fmap_take, <- list_fmap_compose. apply list_fmap_ext. intros k [t l0] Hk. cbn. f_equal.
    assert (Hl0 : levels (book e') s !! t = Some l0).
    { rewrite <- Hm. apply elem_of_list_to_map; [done|]. apply list_elem_of_lookup. exists k.
      by apply lookup_take_Some in Hk as [? _]. }
    unfold queue. rewrite Hl0. by apply (Htot s t).
Qed.

(** Cancelling by order id: the order leaves the store, its level's queue
    (the order of the others kept) and the client index; nothing else moves, and
    one [Revoke] with reason 0 names the order and its client. *)
Theorem hp_cancel_by_id e i o :
  engine_ok e → store_get (store (book e)) i = Some o →
  ∃ e', hp_on_order e (Cancel i) = Some ([Revoke i (client_id o) 0], e') ∧ engine_ok e'
    ∧ (∀ j, store_get (store (book e')) j = if decide (i = j) then None else store_get (store (book e)) j)
    ∧ (∀ s t, queue (book e') s t = if decide ((s, t) = (side o, price_tick o))
                                    then retain_not i (queue (book e) s t) else queue (book e) s t)
    ∧ (∀ c, default [] (client_to_id e' !! c) = if decide (client_id o = c)
              then retain_not i (default [] (client_to_id e !! c)) else default [] (client_to_id e !! c)).
Proof.
  intros He Hg. destruct He as (Hok & Hcl & Hu).
  destruct (cancel_without _ i o Hok Hg) as (b' & Hc & Hok' & Hw & _). eexists. split.
  { cbn [hp_on_order]. unfold on_cancel. rewrite Hg, Hc. reflexivity. }
  split; [split_and!; cbn; [done|by eapply without_clients|eapply uncrossed_shrink; [exact Hu|apply Hw]]|].
  destruct Hw as (Hget & Hqu & _). split_and!; [done|done|]. intros c. apply forget_lookup.
Qed.

(** Cancelling by client id (a non-zero id that is no live order's): exactly
    the client's resting orders are removed, each announced once by a [Revoke]
    with reason 0; every other order stays, and the client has no entry left. *)
Theorem hp_cancel_by_client e c :
  engine_ok e → c ≠ 0 → store_get (store (book e)) c = None →
  ∃ evs e', hp_on_order e (Cancel c) = Some (evs, e') ∧ engine_ok e' ∧ NoDup evs
    ∧ (∀ ev, ev ∈ evs ↔ ∃ i o, store_get (store (book e)) i = Some o ∧ client_id o = c ∧ ev = Revoke i c 0)
    ∧ (∀ i o, store_get (store (book e')) i = Some o
              ↔ store_get (store (book e)) i = Some o ∧ client_id o ≠ c)
    ∧ client_to_id e' !! c = None.
Proof.
  intros He Hc Hn. pose proof (on_cancel_ok e c He Hc) as He'. destruct He as (Hok & (Hcov & Hsnd & _) & _).
  cbn [hp_on_order]. unfold on_cancel in *. rewrite Hn in *.
  assert (Hmem : ∀ i, i ∈ default [] (client_to_id e !! c) ↔ ∃ o, store_get (store (book e)) i = Some o ∧ client_id o = c).
  { intros i. split; [intros Hi; by apply (Hsnd c i Hc Hi)|intros (o & Hg & <-); by eapply Hcov]. }
  destruct (client_to_id e !! c) as [il|] eqn:Hil; cbn [default] in Hmem.
  - destruct (cancel_all_spec c il (book e) Hok) as (evs & b' & Hca & Hok' & Hget & _ & _ & Hev & Hnd).
    rewrite Hca in *. eexists _, _. split; [reflexivity|]. split_and!; [exact He'|done| | |cbn; apply lookup_delete_eq].
    + intros ev. rewrite Hev. split.
      * intros (i & Hi & [x Hx] & ->). apply Hmem in Hi as (o & Hg & Ho). by exists i, o.
      * intros (i & o & Hg & Ho & ->). exists i. rewrite Hmem. split_and!; eauto.
    + intros i o. cbn [book]. rewrite Hget. case_decide as Hi.
      * split; [done|]. intros [Hg Ho]. apply Hmem in Hi as (x & Hx & Hxc). congruence.
      * split; [|by intros []]. intros Hg. split; [done|]. intros Ho. apply Hi, Hmem. eauto.
  - exists [], e. split_and!; [done|exact He'|constructor| | |done].
    + intros ev. split; [by intros ?%elem_of_nil|]. intros (i & o & Hg & Ho & _).
      assert (Hi : i ∈ []) by (apply Hmem; eauto). by apply elem_of_nil in Hi.
    + intros i o. split; [|by intros []]. intros Hg. split; [done|]. intros Ho.
      assert (Hi : i ∈ []) by (apply Hmem; eauto). by apply elem_of_nil in Hi.
Qed.

End Props.

(** ** Witnesses *)
Module Witness.

Abbreviation eng := (HpEngine BTreeBidIndex BTreeAskIndex).

(** Two asks at 100, one at 102, a bid at 99; clients 7 and 8. *)
Definition opening : list HpCommand :=
  [Limit Sell 100 5 1 7; Limit Sell 100 4 2 8; Limit Sell 102 6 3 7; Limit Buy 99 3 4 8].

Definition sample : eng :=
  match hp_run hp_engine_new opening with Some (_, e) => e | None => hp_engine_new end.

Lemma opening_wf : Forall wf_command opening.
Proof. repeat constructor; unfold in_i64; lia. Qed.

Lemma sample_ok : engine_ok sample.
Proof.
  destruct (hp_run_ok (hp_engine_new : eng) opening hp_engine_new_ok opening_wf) as (evs & e & Hr & He).
  unfold sample. by rewrite Hr.
Qed.

Lemma hp_stream_invariant_witness :
  ∃ evs e', hp_run (hp_engine_with_capacity : eng) (opening ++ [Cancel 7; Market Buy 9 5 (Some 1) 3]) = Some (evs, e')
    ∧ engine_ok e'.
Proof.
  destruct (hp_stream_invariant (hp_engine_with_capacity : eng)
    (opening ++ [Cancel 7; Market Buy 9 5 (Some 1) 3])) as (evs & e' & Hr & He & _).
  - by right.
  - apply Forall_app. split; [apply opening_wf|]. repeat constructor; cbn; unfold in_i64; try lia.
    all: simplify_eq; unfold in_u32; lia.
  - exists evs, e'. split; [exact Hr|exact He].
Defined.

(** Buying 12 at 101 takes all 9 lots at 100, rests 3, and leaves 102 alone. *)
Lemma hp_limit_matches_witness :
  ∃ fills e', hp_on_order sample (Limit Buy 101 12 9 3) = Some (fills ++ [Rest 5 3 Buy 101 3], e')
    ∧ fill_lots fills = 9 ∧ engine_ok e'.
Proof.
  destruct (hp_limit_matches sample Buy 101 12 9 3 sample_ok) as (tk & fills & op & e' & Hr & He & _ & _ & Hq & _);
    [unfold in_i64; lia|unfold i64_max; lia|].
  exists fills, e'.
  assert (Hv : ∃ x, hp_on_order sample (Limit Buy 101 12 9 3) =
    Some ([Fill 1 5 7 3 100 5 0 7; Fill 2 5 8 3 100 4 0 3; Rest 5 3 Buy 101 3], x)) by (eexists; vm_compute; reflexivity).
  destruct Hv as [x Hv]. rewrite Hv in Hr. destruct (op =? 0) eqn:E.
  - rewrite app_nil_r in Hr. injection Hr as Hf Hx. subst fills. zb. subst op. cbn in Hq. lia.
  - injection Hr as Hf Hx. apply (app_inj_tail [_; _] fills (Rest 5 3 Buy 101 3)) in Hf as [<- Hf].
    rewrite <- Hx. split_and!; [exact Hv|done|by rewrite Hx].
Defined.

Lemma hp_market_never_rests_witness :
  ∃ tk fills op e', hp_on_order sample (Market Buy 12 9 (Some 2) 3)
      = Some (fills ++ (if op =? 0 then [] else [Revoke tk 3 1]), e')
    ∧ Z.of_nat (length fills) <= 2 ∧ levels (book e') Buy = levels (book sample) Buy.
Proof.
  destruct (hp_market_never_rests sample Buy 12 9 (Some 2) 3 sample_ok)
    as (tk & fills & op & e' & Hr & _ & _ & _ & Hm & _ & Hl & _);
    [unfold i64_max; lia|intros max [= <-]; unfold in_u32; lia|].
  exists tk, fills, op, e'. split_and!; [exact Hr|by apply Hm|exact Hl].
Defined.

Lemma hp_depth_exact_witness :
  ∃ ts : list Z, StronglySorted (tick_before Sell) ts
    ∧ hp_depth (book sample) Sell 5 = (λ t, (t, lots (book sample) (queue (book sample) Sell t))) <$> take 5 ts
    ∧ hp_depth (book sample) Sell 5 = [(100, 9); (102, 6)].
Proof.
  destruct (hp_run_ok (hp_engine_new : eng) opening hp_engine_new_ok opening_wf) as (evs & e' & Hr & _).
  assert (He : sample = e') by (unfold sample; by rewrite Hr). rewrite He.
  destruct (hp_depth_exact hp_engine_new opening evs e' Sell 5) as (ts & Hs & _ & Hd);
    [by left|apply opening_wf|by vm_compute|exact Hr|].
  exists ts. split_and!; [exact Hs|exact Hd|]. rewrite <- He. by vm_compute.
Defined.

Lemma hp_cancel_by_id_witness :
  ∃ e', hp_on_order sample (Cancel 1) = Some ([Revoke 1 7 0], e') ∧ queue (book e') Sell 100 = [2].
Proof.
  destruct (hp_cancel_by_id sample 1 (mkHpOrder 1 Sell 100 5 5 1 7) sample_ok) as (e' & Hr & _ & _ & Hq & _);
    [by vm_compute|].
  exists e'. split; [exact Hr|]. rewrite Hq. by vm_compute.
Defined.

Lemma hp_cancel_by_client_witness :
  ∃ evs e', hp_on_order sample (Cancel 7) = Some (evs, e')
    ∧ Revoke 1 7 0 ∈ evs ∧ Revoke 3 7 0 ∈ evs ∧ is_Some (store_get (store (book e')) 2).
Proof.
  destruct (hp_cancel_by_client sample 7 sample_ok) as (evs & e' & Hr & _ & _ & Hev & Hst & _); [done|by vm_compute|].
  exists evs, e'. split_and!; [exact Hr| | |].
  - apply Hev. exists 1, (mkHpOrder 1 Sell 100 5 5 1 7). split; [vm_compute; reflexivity|split; reflexivity].
  - apply Hev. exists 3, (mkHpOrder 3 Sell 102 6 6 3 7). split; [vm_compute; reflexivity|split; reflexivity].
  - exists (mkHpOrder 2 Sell 100 4 4 2 8). apply Hst. split; [vm_compute; reflexivity|discriminate].
Defined.

(** The list kept for client 0 is not pruned when its orders fill, and slots are
    reused: client 0's filled order had slot 1, which then goes to client 9, and
    a cancel for client 0 revokes client 9's order. *)
Example client_zero_cancels_another :
  ∃ e : eng, hp_run hp_engine_new
      [Limit Sell 100 5 1 0; Limit Sell 200 5 2 5; Limit Buy 100 5 3 6; Limit Sell 300 1 4 9; Limit Sell 301 1 5 9; Cancel 0]
    = Some ([Rest 1 0 Sell 100 5; Rest 2 5 Sell 200 5; Fill 1 3 0 6 100 5 0 0; Rest 3 9 Sell 300 1;
             Rest 1 9 Sell 301 1; Revoke 1 0 0], e)
    ∧ store_get (store (book e)) 1 = None ∧ client_to_id e !! 9 = Some [3; 1].
Proof. eexists. split; [vm_compute; reflexivity|by vm_compute]. Qed.

End Witness.
