(* ===== verification/HpArt.v ===== *)
(** * match-core-hp: the radix-tree price-level index

    Models [crates/match-core-hp/src/art_index.rs] (feature [art]): a byte-wise
    radix tree over the order-preserving big-endian form of a tick, as a second
    implementation of [LevelIndex], and shows that it meets [LevelIndexSpec].  A
    node's [BTreeMap] of children is the list of its entries in byte order.  The
    functions that walk the eight bytes carry fuel, nine steps at most; running
    out leaves the tree alone, which the specification below excludes. *)
From stdpp Require Import gmap sorting.
From S2P Require Import Prelude HpTypes HpIndex.
From Stdlib Require Import Sorted.

#[local] Open Scope Z_scope.

(** ** The tree *)

(** [key_bytes]: [((tick as u64) ^ (1 << 63)).to_be_bytes()] *)
Definition key_bytes (tick : Z) : list Z := be_bytes 8 (Z.lxor (u64_wrap tick) (2 ^ 63)).

Definition byte_at (bytes : list Z) (depth : nat) : Z := nth depth bytes 0.

Inductive Node :=
| Inner (children : list (Z * Node))
| Leaf (key : Z) (value : Level).

(** [ArtMap] *)
Record ArtMap := mkArt { root : option Node }.

Definition terminal_get (cur : Node) (tick : Z) : option Level :=
  match cur with
  | Leaf key value => if key =? tick then Some value else None
  | Inner _ => None
  end.

Definition leaf_get (key : Z) (value : Level) (tick : Z) : option Level :=
  if key =? tick then Some value else None.

(** The loop of [ArtMap::get]. *)
Fixpoint get_loop (fuel : nat) (cur : Node) (bytes : list Z) (depth : nat) (tick : Z) : option Level :=
  match fuel with
  | O => None
  | S fuel =>
      match cur with
      | Leaf key value => leaf_get key value tick
      | Inner children =>
          cur ← bt_get Z.compare children (byte_at bytes depth);
          if (depth =? 7)%nat then terminal_get cur tick
          else get_loop fuel cur bytes (S depth) tick
      end
  end.

Definition art_get (m : ArtMap) (tick : Z) : option Level :=
  cur ← root m; get_loop 8 cur (key_bytes tick) 0 tick.

(** [terminal_get_mut] and [leaf_get_mut], with what is done through the reference. *)
Definition leaf_update (cur : Node) (tick : Z) (f : Level → Level) : option Node :=
  match cur with
  | Leaf key value => if key =? tick then Some (Leaf key (f value)) else None
  | Inner _ => None
  end.

(** The loop of [ArtMap::get_mut]. *)
Fixpoint get_mut_loop (fuel : nat) (cur : Node) (bytes : list Z) (depth : nat) (tick : Z)
    (f : Level → Level) : option Node :=
  match fuel with
  | O => None
  | S fuel =>
      match cur with
      | Leaf _ _ => leaf_update cur tick f
      | Inner children =>
          child ← bt_get Z.compare children (byte_at bytes depth);
          child ← (if (depth =? 7)%nat then leaf_update child tick f
                   else get_mut_loop fuel child bytes (S depth) tick f);
          Inner <$> bt_get_mut Z.compare children (byte_at bytes depth) (λ _, child)
      end
  end.

Definition art_get_mut (m : ArtMap) (tick : Z) (f : Level → Level) : option ArtMap :=
  cur ← root m; cur ← get_mut_loop 8 cur (key_bytes tick) 0 tick f; Some (mkArt (Some cur)).

Definition art_contains (m : ArtMap) (tick : Z) : bool :=
  match art_get m tick with Some _ => true | None => false end.

(** The helpers take [insert_at] as an argument, as in the code. *)
Section Helpers.
Variable insert_at : Node → list Z → nat → Z → Level → Node.

Definition insert_at_leaf (node : Node) (bytes : list Z) (depth : nat) (tick : Z) (level : Level) : Node :=
  match node with
  | Leaf existing_key value =>
      if existing_key =? tick then Leaf existing_key level
      else let node := insert_at (Inner []) (key_bytes existing_key) depth existing_key value in
           insert_at node bytes depth tick level
  | Inner _ => node
  end.

Definition insert_at_inner_child (child : Node) (bytes : list Z) (depth : nat) (tick : Z) (level : Level) : Node :=
  match child with
  | Leaf ek ev =>
      if negb (ek =? tick)
      then let child := insert_at (Inner []) (key_bytes ek) (S depth) ek ev in
           insert_at child bytes (S depth) tick level
      else Leaf ek level
  | Inner _ => insert_at child bytes (S depth) tick level
  end.

Definition insert_at_inner (node : Node) (bytes : list Z) (depth : nat) (tick : Z) (level : Level) : Node :=
  match node with
  | Leaf _ _ => node
  | Inner children =>
      let b := byte_at bytes depth in
      if (depth =? 7)%nat then Inner (bt_insert Z.compare children b (Leaf tick level))
      else Inner (bt_get_or_insert_with Z.compare children b (Inner [])
                    (λ child, insert_at_inner_child child bytes depth tick level))
  end.
End Helpers.

Fixpoint insert_at (fuel : nat) (node : Node) (bytes : list Z) (depth : nat) (tick : Z) (level : Level) : Node :=
  match fuel with
  | O => node
  | S fuel =>
      match node with
      | Leaf _ _ => insert_at_leaf (insert_at fuel) node bytes depth tick level
      | Inner _ => insert_at_inner (insert_at fuel) node bytes depth tick level
      end
  end.

Definition art_insert (m : ArtMap) (tick : Z) (level : Level) : ArtMap :=
  match root m with
  | None => mkArt (Some (Leaf tick level))
  | Some node => mkArt (Some (insert_at 9 node (key_bytes tick) 0 tick level))
  end.

(** [take_leaf_if_key]: the value is moved out of the leaf. *)
Definition take_leaf_if_key (key : Z) (value : Level) (tick : Z) : option (Level * bool * Node) :=
  if negb (key =? tick) then None else Some (value, true, Leaf key level_default).

(** [remove_at]: the value taken, whether the node is now empty, and the node. *)
Fixpoint remove_at (fuel : nat) (node : Node) (bytes : list Z) (depth : nat) (tick : Z) :
    option (Level * bool * Node) :=
  match fuel with
  | O => None
  | S fuel =>
      match node with
      | Leaf key value => take_leaf_if_key key value tick
      | Inner children =>
          let b := byte_at bytes depth in
          child ← bt_get Z.compare children b;
          '(val, child_empty, child) ← remove_at fuel child bytes (S depth) tick;
          let children := default children (bt_get_mut Z.compare children b (λ _, child)) in
          let children := if child_empty : bool then (bt_remove Z.compare children b).2 else children in
          Some (val, match children with [] => true | _ => false end, Inner children)
      end
  end.

Definition art_remove (m : ArtMap) (tick : Z) : option Level * ArtMap :=
  match root m with
  | None => (None, m)
  | Some node =>
      match remove_at 9 node (key_bytes tick) 0 tick with
      | None => (None, m)
      | Some (val, empty, node) => (Some val, mkArt (if empty : bool then None else Some node))
      end
  end.

(** [extreme]: the leaf under the first child throughout, or the last. *)
Fixpoint extreme (node : Node) (min : bool) : option Z :=
  match node with
  | Leaf key _ => Some key
  | Inner children =>
      if min
      then match children with [] => None | (_, child) :: _ => extreme child min end
      else (fix last (l : list (Z * Node)) : option Z :=
              match l with
              | [] => None
              | [(_, child)] => extreme child min
              | _ :: l => last l
              end) children
  end.

(** [walk]: appends the levels in order until [n] are collected. *)
Fixpoint walk (node : Node) (ascending : bool) (n : nat) (out : list (Z * Z)) : list (Z * Z) :=
  if (n <=? length out)%nat then out else
  match node with
  | Leaf key value => out ++ [(key, total_lot value)]
  | Inner children =>
      if ascending
      then (fix go (l : list (Z * Node)) (out : list (Z * Z)) : list (Z * Z) :=
              match l with
              | [] => out
              | (_, child) :: l =>
                  let out := walk child ascending n out in
                  if (n <=? length out)%nat then out else go l out
              end) children out
      else (fix go (l : list (Z * Node)) (out : list (Z * Z)) : list (Z * Z) :=
              match l with
              | [] => out
              | (_, child) :: l =>
                  let out := go l out in
                  if (n <=? length out)%nat then out else walk child ascending n out
              end) children out
  end.

Definition best_tick_ask (m : ArtMap) : option Z := node ← root m; extreme node true.
Definition best_tick_bid (m : ArtMap) : option Z := node ← root m; extreme node false.

Definition depth_ask (m : ArtMap) (n : nat) : list (Z * Z) :=
  match root m with Some node => walk node true n [] | None => [] end.
Definition depth_bid (m : ArtMap) (n : nat) : list (Z * Z) :=
  match root m with Some node => walk node false n [] | None => [] end.

(** [get_or_insert_with]: only called on a miss, it inserts and then looks the
    level up again. *)
Definition art_get_or_insert_with (m : ArtMap) (tick : Z) (level : Level) (f : Level → Level) : ArtMap :=
  let m := art_insert m tick level in default m (art_get_mut m tick f).

Record ArtAskIndex := mkArtAsk { art_ask_map : ArtMap }.
Record ArtBidIndex := mkArtBid { art_bid_map : ArtMap }.

#[export] Instance art_ask_index : LevelIndex ArtAskIndex := {
  li_default := mkArtAsk (mkArt None);
  li_get i t := art_get (art_ask_map i) t;
  li_get_mut i t f := mkArtAsk <$> art_get_mut (art_ask_map i) t f;
  li_contains i t := art_contains (art_ask_map i) t;
  li_insert i t l := mkArtAsk (art_insert (art_ask_map i) t l);
  li_remove i t := let '(r, m) := art_remove (art_ask_map i) t in (r, mkArtAsk m);
  li_best_tick i := best_tick_ask (art_ask_map i);
  li_depth i n := depth_ask (art_ask_map i) n;
  li_get_or_insert_with i t l f := mkArtAsk (art_get_or_insert_with (art_ask_map i) t l f)
}.

#[export] Instance art_bid_index : LevelIndex ArtBidIndex := {
  li_default := mkArtBid (mkArt None);
  li_get i t := art_get (art_bid_map i) t;
  li_get_mut i t f := mkArtBid <$> art_get_mut (art_bid_map i) t f;
  li_contains i t := art_contains (art_bid_map i) t;
  li_insert i t l := mkArtBid (art_insert (art_bid_map i) t l);
  li_remove i t := let '(r, m) := art_remove (art_bid_map i) t in (r, mkArtBid m);
  li_best_tick i := best_tick_bid (art_bid_map i);
  li_depth i n := depth_bid (art_bid_map i) n;
  li_get_or_insert_with i t l f := mkArtBid (art_get_or_insert_with (art_bid_map i) t l f)
}.

(** ** Keys *)

(** The order-preserving code of a tick: an unsigned 64-bit number. *)
Definition enc (t : Z) : Z := t + 2 ^ 63.

Lemma enc_range t : in_i64 t → 0 <= enc t < 256 ^ 8.
Proof. unfold in_i64, enc. change (256 ^ 8) with (2 ^ 64). lia. Qed.

Lemma lxor_top a : 0 <= a < 2 ^ 63 → Z.lxor a (2 ^ 63) = a + 2 ^ 63.
Proof.
  intros Ha. symmetry. apply Z.add_nocarry_lxor. apply Z.bits_inj'. intros n Hn.
  rewrite Z.land_spec, Z.bits_0, Z.pow2_bits_eqb by lia. destruct (Z.eqb_spec 63 n) as [<-|]; [|by rewrite andb_false_r].
  rewrite andb_true_r. destruct (decide (a = 0)) as [->|Hz]; [apply Z.bits_0|].
  apply Z.bits_above_log2; [lia|]. apply Z.log2_lt_pow2; lia.
Qed.

Lemma key_bytes_enc t : in_i64 t → key_bytes t = be_bytes 8 (enc t).
Proof.
  intros Ht. unfold key_bytes, enc. f_equal. unfold in_i64, u64_wrap in *.
  destruct (decide (0 <= t)) as [Hp|Hn].
  - rewrite Z.mod_small by lia. apply lxor_top. lia.
  - replace (t mod 2 ^ 64) with ((t + 2 ^ 63) + 2 ^ 63).
    + rewrite <- (lxor_top (t + 2 ^ 63)) by lia. by rewrite Z.lxor_assoc, Z.lxor_nilpotent, Z.lxor_0_r.
    + rewrite <- (Z.mod_add t 1) by lia. rewrite Z.mod_small; lia.
Qed.

Lemma nth_le_bytes n v i : (i < n)%nat → nth i (le_bytes n v) 0 = v / 256 ^ Z.of_nat i mod 256.
Proof.
  revert v i; induction n as [|n IH]; intros v i Hi; [lia|]. destruct i as [|i]; cbn [le_bytes nth].
  - by rewrite Z.pow_0_r, Z.div_1_r.
  - rewrite IH by lia. rewrite Nat2Z.inj_succ, Z.pow_succ_r, Z.div_div by lia. done.
Qed.

(** The byte at depth [7 - k]: the [k]-th from the end. *)
Lemma key_byte t k : in_i64 t → (k <= 7)%nat → byte_at (key_bytes t) (7 - k) = enc t / 256 ^ Z.of_nat k mod 256.
Proof.
  intros Ht Hk. rewrite key_bytes_enc by done. unfold byte_at, be_bytes.
  rewrite rev_nth by (rewrite length_le_bytes; lia). rewrite length_le_bytes, nth_le_bytes by lia. do 3 f_equal. lia.
Qed.

(** The prefix of a key above its last [k] bytes. *)
Definition pre (k : nat) (t : Z) : Z := enc t / 256 ^ Z.of_nat k.

Lemma pre_split k t : pre k t = pre (S k) t * 256 + pre k t mod 256.
Proof.
  unfold pre. rewrite Nat2Z.inj_succ, Z.pow_succ_r by lia. rewrite (Z.mul_comm 256), <- Z.div_div by lia.
  rewrite Z.mul_comm. apply Z.div_mod. lia.
Qed.

Lemma pre_0 t : pre 0 t = enc t.
Proof. unfold pre. by rewrite Z.pow_0_r, Z.div_1_r. Qed.

Lemma pre_8 t : in_i64 t → pre 8 t = 0.
Proof. intros Ht. apply Z.div_small, enc_range, Ht. Qed.

Lemma pre_lt k t t' : pre k t < pre k t' → t < t'.
Proof.
  unfold pre. intros Hp. destruct (Z.lt_ge_cases t t') as [|Hge]; [done|].
  assert (enc t' / 256 ^ Z.of_nat k <= enc t / 256 ^ Z.of_nat k); [|lia].
  apply Z.div_le_mono; [lia|]. unfold enc. lia.
Qed.

(** ** Well-formed trees *)

(** A node with [k] bytes below it, all of whose keys have prefix [P]: a leaf
    when [k] is 0, else a non-empty inner node. *)
Fixpoint node_ok (k : nat) (P : Z) (n : Node) : Prop :=
  match k, n with
  | O, Leaf key _ => in_i64 key ∧ enc key = P
  | S k, Inner cs =>
      cs ≠ [] ∧ bt_ok Sell cs
      ∧ ∀ b c, bt_map cs !! b = Some c → 0 <= b < 256 ∧ node_ok k (P * 256 + b) c
  | _, _ => False
  end.

Definition kids_ok (k : nat) (P : Z) (cs : list (Z * Node)) : Prop :=
  bt_ok Sell cs ∧ ∀ b c, bt_map cs !! b = Some c → 0 <= b < 256 ∧ node_ok k (P * 256 + b) c.

(** What [get] finds from a node with [k] bytes to go. *)
Definition nget (k : nat) (n : Node) (t : Z) : option Level :=
  match k with O => terminal_get n t | S _ => get_loop k n (key_bytes t) (8 - k) t end.

(** The byte that selects the child. *)
Definition sel (k : nat) (t : Z) : Z := pre k t mod 256.

Lemma sel_range k t : 0 <= sel k t < 256.
Proof. apply Z.mod_pos_bound. lia. Qed.

Lemma sel_i64 k t : in_i64 (sel k t).
Proof. pose proof (sel_range k t). unfold in_i64. lia. Qed.

Lemma pre_child k t P : pre (S k) t = P → pre k t = P * 256 + sel k t.
Proof. intros <-. apply pre_split. Qed.

Lemma Zcmp_spec a b : CompareSpec (a = b) (tick_before Sell a b) (tick_before Sell b a) (Z.compare a b).
Proof. apply ask_cmp_spec. Qed.

Lemma nget_inner k cs t :
  (k <= 7)%nat → bt_ok Sell cs → in_i64 t →
  nget (S k) (Inner cs) t = c ← bt_map cs !! sel k t; nget k c t.
Proof.
  intros Hk Hcs Ht. unfold nget at 1. cbn [get_loop].
  replace (8 - S k)%nat with (7 - k)%nat by lia. rewrite key_byte by done.
  rewrite (bt_get_spec Sell Z.compare Zcmp_spec) by done. fold (pre k t). fold (sel k t).
  destruct (bt_map cs !! sel k t) as [c|]; [|done]. cbn [mbind option_bind].
  destruct (Nat.eqb_spec (7 - k) 7) as [He|Hne].
  - by replace k with 0%nat by lia.
  - destruct k as [|k]; [lia|]. unfold nget. by replace (S (7 - S k))%nat with (8 - S k)%nat by lia.
Qed.

(** [entry(b).or_insert_with(..)] on the children. *)
Lemma bt_entry_spec (cs : list (Z * Node)) b f :
  bt_ok Sell cs → in_i64 b →
  let cs' := bt_get_or_insert_with Z.compare cs b (Inner []) f in
  bt_ok Sell cs' ∧ bt_map cs' = <[b := f (default (Inner []) (bt_map cs !! b))]> (bt_map cs).
Proof.
  intros Hok Hb. destruct (bt_map cs !! b) as [c|] eqn:Hc; cbn [default].
  - unfold bt_get_or_insert_with. destruct (bt_get_mut_spec Sell Z.compare Zcmp_spec cs b f Hok) as [_ Hs].
    destruct (Hs c Hc) as (l' & -> & Hok' & _ & Hm). done.
  - by apply (bt_get_or_insert_spec Sell Z.compare Zcmp_spec).
Qed.

(** A child that changes keeps the node's shape, and lookups under other
    children as they were. *)
Lemma child_update k P cs cs' t c' :
  (k <= 7)%nat → kids_ok k P cs → bt_ok Sell cs' → bt_map cs' = <[sel k t := c']> (bt_map cs) →
  node_ok k (P * 256 + sel k t) c' →
  node_ok (S k) P (Inner cs')
  ∧ ∀ t', in_i64 t' → nget (S k) (Inner cs') t'
          = if decide (sel k t = sel k t') then nget k c' t' else nget (S k) (Inner cs) t'.
Proof.
  intros Hk [Hcs Hkids] Hcs' Hm Hc'. split.
  - split_and!; [|done|].
    + intros ->. cbn in Hm. apply (f_equal (lookup (sel k t))) in Hm.
      by rewrite lookup_insert_eq, lookup_empty in Hm.
    + intros b c. rewrite Hm, lookup_insert_Some. intros [[<- <-]|[_ Hc]]; [|by apply Hkids].
      split; [apply sel_range|done].
  - intros t' Ht'. rewrite !nget_inner, Hm by done. case_decide as Hs.
    + by rewrite Hs, lookup_insert_eq.
    + by rewrite lookup_insert_ne.
Qed.

Lemma same_prefix_sel k t t' P :
  pre (S k) t = P → pre (S k) t' = P → sel k t = sel k t' → pre k t = pre k t'.
Proof. intros Ht Ht' Hs. rewrite (pre_child k t P), (pre_child k t' P) by done. by rewrite Hs. Qed.

(** ** Insertion *)

Lemma insert_at_spec k : ∀ fuel P cs t l,
  (k <= 7)%nat → (k < fuel)%nat → kids_ok k P cs → in_i64 t → pre (S k) t = P →
  ∃ cs', insert_at fuel (Inner cs) (key_bytes t) (7 - k) t l = Inner cs' ∧ node_ok (S k) P (Inner cs')
    ∧ ∀ t', in_i64 t' → pre (S k) t' = P →
        nget (S k) (Inner cs') t' = if decide (t = t') then Some l else nget (S k) (Inner cs) t'.
Proof.
  induction k as [|k IH]; intros [|fuel] P cs t l Hk Hf Hcs Ht HP; try lia.
  - cbn [insert_at insert_at_inner]. rewrite key_byte by (done || lia). fold (pre 0 t). fold (sel 0 t).
    change (7 - 0 =? 7)%nat with true. cbn iota.
    destruct Hcs as [Hbt Hkids].
    destruct (bt_insert_spec Sell Z.compare Zcmp_spec cs (sel 0 t) (Leaf t l) Hbt (sel_i64 0 t)) as (Hbt' & Hm & _).
    eexists. split; [reflexivity|].
    destruct (child_update 0 P cs _ t (Leaf t l) Hk (conj Hbt Hkids) Hbt' Hm) as [Hok Hg].
    { split; [done|]. rewrite <- pre_0. by apply pre_child. }
    split; [exact Hok|]. intros t' Ht' HP'. rewrite Hg by done. destruct (decide (t = t')) as [<-|Hne].
    + rewrite decide_True by done. cbn. by rewrite Z.eqb_refl.
    + rewrite decide_False; [done|]. intros Hs. apply Hne. pose proof (same_prefix_sel 0 t t' P HP HP' Hs) as He.
      rewrite !pre_0 in He. unfold enc in He. lia.
  - cbn [insert_at insert_at_inner]. destruct (Nat.eqb_spec (7 - S k) 7) as [|_]; [lia|].
    rewrite key_byte by (done || lia). fold (pre (S k) t). fold (sel (S k) t).
    pose proof Hcs as [Hbt Hkids]. set (F := λ child, insert_at_inner_child _ child _ _ _ _).
    destruct (bt_entry_spec cs (sel (S k) t) F Hbt (sel_i64 _ _)) as [Hbt' Hm].
    set (cs1 := match default (Inner []) (bt_map cs !! sel (S k) t) with Inner c => c | Leaf _ _ => [] end).
    assert (Hc1 : default (Inner []) (bt_map cs !! sel (S k) t) = Inner cs1
                  ∧ kids_ok k (P * 256 + sel (S k) t) cs1).
    { unfold cs1. destruct (bt_map cs !! sel (S k) t) as [c|] eqn:Hc; cbn [default].
      - destruct (Hkids _ _ Hc) as [_ Hn]. destruct c as [cs0|]; [|done]. split; [done|]. apply Hn.
      - split; [done|]. split; [split; constructor|]. done. }
    destruct Hc1 as [Hd Hk1]. rewrite Hd in Hm.
    destruct (IH fuel (P * 256 + sel (S k) t) cs1 t l) as (cs2 & Hi & Hn2 & Hg2); try done; try lia.
    { rewrite <- HP. by apply pre_split. }
    assert (HF : F (Inner cs1) = Inner cs2).
    { unfold F. cbn [insert_at_inner_child]. by replace (S (7 - S k)) with (7 - k)%nat by lia. }
    rewrite HF in Hm. eexists. split; [reflexivity|].
    destruct (child_update (S k) P cs _ t (Inner cs2) Hk Hcs Hbt' Hm Hn2) as [Hok Hg].
    split; [exact Hok|]. intros t' Ht' HP'. rewrite Hg by done. case_decide as Hs.
    + rewrite Hg2; [|done|by rewrite Hs; apply pre_child]. case_decide as He; [done|].
      rewrite (nget_inner (S k)), <- Hs by (done || lia).
      destruct (bt_map cs !! sel (S k) t) as [c|] eqn:Hc; cbn [mbind option_bind] in *;
        [by change (c = Inner cs1) in Hd; rewrite Hd|].
      change (nget (S k) (Inner []) t' = None). by rewrite nget_inner by (done || lia || split; constructor).
    + case_decide as He; [|done]. by subst t'.
Qed.

(** ** Updating in place *)

Lemma get_mut_loop_inner fuel cs bytes depth t f :
  get_mut_loop (S fuel) (Inner cs) bytes depth t f
  = child ← bt_get Z.compare cs (byte_at bytes depth);
    child ← (if (depth =? 7)%nat then leaf_update child t f else get_mut_loop fuel child bytes (S depth) t f);
    Inner <$> bt_get_mut Z.compare cs (byte_at bytes depth) (λ _, child).
Proof. done. Qed.

Lemma get_mut_loop_spec k : ∀ P n t f,
  (k <= 7)%nat → node_ok (S k) P n → in_i64 t → pre (S k) t = P →
  match nget (S k) n t with
  | None => get_mut_loop (S k) n (key_bytes t) (7 - k) t f = None
  | Some l => ∃ n', get_mut_loop (S k) n (key_bytes t) (7 - k) t f = Some n' ∧ node_ok (S k) P n'
      ∧ ∀ t', in_i64 t' → pre (S k) t' = P →
          nget (S k) n' t' = if decide (t = t') then Some (f l) else nget (S k) n t'
  end.
Proof.
  induction k as [|k IH]; intros P [cs|] t f Hk Hn Ht HP; try done;
    pose proof Hn as (Hne & Hbt & Hkids); rewrite nget_inner by done; rewrite get_mut_loop_inner, key_byte by (done || lia); rewrite ?(bt_get_spec Sell Z.compare Zcmp_spec) by done.
  - fold (pre 0 t) (sel 0 t). destruct (bt_map cs !! sel 0 t) as [c|] eqn:Hc; [|done].
    cbn [mbind option_bind]. change (7 - 0 =? 7)%nat with true. cbn iota.
    destruct (Hkids _ _ Hc) as [_ Hcn]. destruct c as [|key v]; [done|]. destruct Hcn as [Hik Hke].
    change (nget 0 (Leaf key v) t) with (if key =? t then Some v else None).
    cbn [leaf_update]. destruct (Z.eqb_spec key t) as [->|Hkt]; [|done]. cbn [mbind option_bind].
    destruct (bt_get_mut_spec Sell Z.compare Zcmp_spec cs (sel 0 t) (λ _, Leaf t (f v)) Hbt) as [_ Hs].
    destruct (Hs _ Hc) as (cs' & -> & Hbt' & _ & Hm). eexists. split; [reflexivity|].
    destruct (child_update 0 P cs cs' t (Leaf t (f v)) Hk (conj Hbt Hkids) Hbt' Hm) as [Hok Hg]; [done|].
    split; [exact Hok|]. intros t' Ht' HP'. rewrite Hg by done. destruct (decide (t = t')) as [<-|Hne'].
    + rewrite decide_True by done. cbn. by rewrite Z.eqb_refl.
    + rewrite decide_False; [done|]. intros He. apply Hne'. pose proof (same_prefix_sel 0 t t' P HP HP' He) as Hp.
      rewrite !pre_0 in Hp. unfold enc in Hp. lia.
  - fold (pre (S k) t) (sel (S k) t). destruct (bt_map cs !! sel (S k) t) as [c|] eqn:Hc; [|done].
    cbn [mbind option_bind]. destruct (Nat.eqb_spec (7 - S k) 7) as [|_]; [lia|].
    destruct (Hkids _ _ Hc) as [_ Hcn]. replace (S (7 - S k)) with (7 - k)%nat by lia.
    specialize (IH (P * 256 + sel (S k) t) c t f ltac:(lia) Hcn Ht ltac:(by apply pre_child)).
    destruct (nget (S k) c t) as [l|] eqn:Hgc; [|by rewrite IH].
    destruct IH as (c' & -> & Hc' & Hg'). cbn [mbind option_bind].
    destruct (bt_get_mut_spec Sell Z.compare Zcmp_spec cs (sel (S k) t) (λ _, c') Hbt) as [_ Hs].
    destruct (Hs _ Hc) as (cs' & -> & Hbt' & _ & Hm). eexists. split; [reflexivity|].
    destruct (child_update (S k) P cs cs' t c' Hk (conj Hbt Hkids) Hbt' Hm Hc') as [Hok Hg].
    split; [exact Hok|]. intros t' Ht' HP'. rewrite Hg by done. case_decide as He.
    + rewrite Hg'; [|done|by rewrite He; apply pre_child]. case_decide; [done|].
      by rewrite (nget_inner (S k)), <- He, Hc by (done || lia).
    + case_decide; [|done]. by subst t'.
Qed.

(** ** Removal *)

(** Lookups after the child of [t] was replaced, or dropped when it was emptied. *)
Definition removed (k : nat) (P t : Z) (n n' : Node) (e : bool) : Prop :=
  if e then ∀ t', in_i64 t' → pre k t' = P → t ≠ t' → nget k n t' = None
  else node_ok k P n' ∧ ∀ t', in_i64 t' → pre k t' = P →
         nget k n' t' = if decide (t = t') then None else nget k n t'.

Lemma nget_leaf_other t l t' : t ≠ t' → nget 0 (Leaf t l) t' = None.
Proof. intros Hne. cbn. by destruct (Z.eqb_spec t t'). Qed.

Lemma remove_child_emptied k P cs cs' t c :
  (k <= 7)%nat → kids_ok k P cs → bt_map cs !! sel k t = Some c → in_i64 t → pre (S k) t = P →
  removed k (P * 256 + sel k t) t c c true →
  bt_ok Sell cs' → bt_map cs' = delete (sel k t) (bt_map cs) →
  removed (S k) P t (Inner cs) (Inner cs') (match cs' with [] => true | _ => false end).
Proof.
  intros Hk [Hbt Hkids] Hc Ht HP Hrm Hbt' Hm.
  assert (Hall : ∀ t', in_i64 t' → pre (S k) t' = P → t ≠ t' →
    nget (S k) (Inner cs') t' = nget (S k) (Inner cs) t').
  { intros t' Ht' HP' Hne. rewrite !nget_inner, Hm by done. destruct (decide (sel k t = sel k t')) as [He|He].
    - rewrite <- He, lookup_delete_eq, Hc. cbn. symmetry. apply Hrm; [done|by rewrite He; apply pre_child|done].
    - by rewrite lookup_delete_ne. }
  destruct cs' as [|x cs''].
  - intros t' Ht' HP' Hne. rewrite <- Hall by done. by rewrite nget_inner.
  - split.
    + split_and!; [done|done|]. intros b c'. rewrite Hm. intros [_ Hb]%lookup_delete_Some. by apply Hkids.
    + intros t' Ht' HP'. case_decide as He; [|by apply Hall]. subst t'.
      by rewrite nget_inner, Hm, lookup_delete_eq by done.
Qed.

Lemma remove_child_kept k P cs cs' t c c' :
  (k <= 7)%nat → kids_ok k P cs → bt_map cs !! sel k t = Some c → in_i64 t → pre (S k) t = P →
  removed k (P * 256 + sel k t) t c c' false →
  bt_ok Sell cs' → bt_map cs' = <[sel k t := c']> (bt_map cs) →
  removed (S k) P t (Inner cs) (Inner cs') (match cs' with [] => true | _ => false end).
Proof.
  intros Hk Hkids Hc Ht HP [Hc' Hg'] Hbt' Hm.
  destruct (child_update k P cs cs' t c' Hk Hkids Hbt' Hm Hc') as [Hok Hg].
  destruct cs' as [|x cs'']; [by destruct Hok|]. split; [done|].
  intros t' Ht' HP'. rewrite Hg by done. case_decide as He.
  - rewrite Hg'; [|done|by rewrite He; apply pre_child]. case_decide; [done|].
    destruct Hkids as [Hbt _]. by rewrite (nget_inner k cs), <- He, Hc by done.
  - case_decide; [|done]. by subst t'.
Qed.

Lemma remove_at_inner fuel cs bytes depth t :
  remove_at (S fuel) (Inner cs) bytes depth t
  = child ← bt_get Z.compare cs (byte_at bytes depth);
    '(val, child_empty, child) ← remove_at fuel child bytes (S depth) t;
    let cs := default cs (bt_get_mut Z.compare cs (byte_at bytes depth) (λ _, child)) in
    let cs := if child_empty : bool then (bt_remove Z.compare cs (byte_at bytes depth)).2 else cs in
    Some (val, match cs with [] => true | _ => false end, Inner cs).
Proof. done. Qed.

Lemma remove_at_spec k : ∀ fuel P n t,
  (k <= 8)%nat → (k < fuel)%nat → node_ok k P n → in_i64 t → pre k t = P →
  match nget k n t with
  | None => remove_at fuel n (key_bytes t) (8 - k) t = None
  | Some l => ∃ e n', remove_at fuel n (key_bytes t) (8 - k) t = Some (l, e, n') ∧ removed k P t n n' e
  end.
Proof.
  induction k as [|k IH]; intros [|fuel] P n t Hk Hf Hn Ht HP; try lia.
  - destruct n as [|key v]; [done|]. cbn [remove_at]. unfold take_leaf_if_key. destruct Hn as [Hik Hke]. cbn [nget terminal_get].
    destruct (Z.eqb_spec key t) as [->|]; cbn [negb]; [|done]. exists true, (Leaf t level_default).
    split; [done|]. intros t' _ _ Hne. by apply nget_leaf_other.
  - destruct n as [cs|]; [|done]. pose proof Hn as (Hne & Hbt & Hkids). rewrite nget_inner by (done || lia).
    replace (8 - S k)%nat with (7 - k)%nat by lia. rewrite remove_at_inner, key_byte by (done || lia).
    rewrite (bt_get_spec Sell Z.compare Zcmp_spec) by done. fold (pre k t). fold (sel k t).
    destruct (bt_map cs !! sel k t) as [c|] eqn:Hc; [|done]. cbn [mbind option_bind].
    destruct (Hkids _ _ Hc) as [_ Hcn]. replace (S (7 - k)) with (8 - k)%nat by lia.
    specialize (IH fuel (P * 256 + sel k t) c t ltac:(lia) ltac:(lia) Hcn Ht ltac:(by apply pre_child)).
    destruct (nget k c t) as [l|]; [|by rewrite IH].
    destruct IH as (e & c' & -> & Hrm). cbn [mbind option_bind].
    destruct (bt_get_mut_spec Sell Z.compare Zcmp_spec cs (sel k t) (λ _, c') Hbt) as [_ Hs].
    destruct (Hs _ Hc) as (cs1 & -> & Hbt1 & _ & Hm1). cbn [default].
    eexists _, _. split; [reflexivity|]. destruct e.
    + destruct (bt_remove_spec Sell Z.compare Zcmp_spec cs1 (sel k t) Hbt1) as (cs2 & Hrem & Hbt2 & Hm2 & _).
      cbn. rewrite Hrem. cbn [snd]. apply (remove_child_emptied k P cs cs2 t c); try done; [lia|].
      by rewrite Hm2, Hm1, delete_insert_eq.
    + apply (remove_child_kept k P cs cs1 t c c'); try done; lia.
Qed.

(** ** In-order traversal *)

Fixpoint entries (n : Node) : list (Z * Level) :=
  match n with
  | Leaf key v => [(key, v)]
  | Inner cs => (fix go (l : list (Z * Node)) : list (Z * Level) :=
                   match l with [] => [] | (_, c) :: l => entries c ++ go l end) cs
  end.

Definition kid_entries (cs : list (Z * Node)) : list (Z * Level) := entries (Inner cs).

Lemma kid_entries_cons b c cs : kid_entries ((b, c) :: cs) = entries c ++ kid_entries cs.
Proof. done. Qed.

(** What the traversal of a node lists: its keys in increasing order, all with
    the node's prefix, each with the level [get] finds. *)
Definition listed (k : nat) (P : Z) (n : Node) : Prop :=
  StronglySorted Z.lt (entries n).*1
  ∧ (∀ t v, (t, v) ∈ entries n ↔ in_i64 t ∧ pre k t = P ∧ nget k n t = Some v)
  ∧ entries n ≠ [].

Lemma kid_list (cs : list (Z * Node)) b c : bt_ok Sell cs → (b, c) ∈ cs ↔ bt_map cs !! b = Some c.
Proof.
  intros [Hs _]. apply elem_of_list_to_map. clear c. induction Hs as [|x xs _ IH Hx]; constructor; [|done].
  intros Hin. eapply Forall_forall in Hx; [|exact Hin]. cbn in Hx. lia.
Qed.

Lemma sorted_app (l1 l2 : list Z) :
  StronglySorted Z.lt l1 → StronglySorted Z.lt l2 → (∀ x y, x ∈ l1 → y ∈ l2 → x < y) →
  StronglySorted Z.lt (l1 ++ l2).
Proof.
  intros H1 H2 Hlt. induction H1 as [|x l1 _ IH Hx]; [done|]. cbn. constructor.
  - apply IH. intros a b Ha Hb. apply Hlt; [by right|done].
  - apply Forall_app. split; [done|]. apply Forall_forall. intros y Hy. apply Hlt; [by left|done].
Qed.

Lemma fst_elem {A} (l : list (Z * A)) t : t ∈ l.*1 ↔ ∃ v, (t, v) ∈ l.
Proof.
  rewrite list_elem_of_fmap. split; [intros ([t' v] & -> & Hin); eauto|intros [v Hin]; by exists (t, v)].
Qed.

(** The children in order, each with its own listing. *)
Lemma kids_sorted k P cs :
  bt_ok Sell cs → (∀ b c, (b, c) ∈ cs → 0 <= b < 256 ∧ listed k (P * 256 + b) c) →
  StronglySorted Z.lt (kid_entries cs).*1.
Proof.
  induction cs as [|[b c] cs IH]; intros Hok Hl; [constructor|].
  apply bt_ok_cons in Hok as (Hok & _ & Hb). rewrite kid_entries_cons, fmap_app.
  assert (Hl' : ∀ b c, (b, c) ∈ cs → 0 <= b < 256 ∧ listed k (P * 256 + b) c) by (intros ? ? Hin; apply Hl; by right).
  destruct (Hl b c ltac:(by left)) as [_ (Hs & Hin & _)].
  apply sorted_app; [done|by apply IH|]. intros x y [v Hx]%fst_elem [w Hy]%fst_elem.
  apply Hin in Hx as (_ & Hpx & _). apply (pre_lt k). rewrite Hpx. clear -Hy Hb Hl'.
  induction cs as [|[b' c'] cs IHc]; [by apply elem_of_nil in Hy|].
  cbn in Hb. apply Forall_cons in Hb as [Hbb Hb]. rewrite kid_entries_cons in Hy. apply elem_of_app in Hy as [Hy|Hy].
  - destruct (Hl' b' c' ltac:(by left)) as [_ (_ & Hin' & _)]. apply Hin' in Hy as (_ & -> & _). cbn in Hbb. lia.
  - apply IHc; [done|intros ? ? Hin0; apply Hl'; by right|done].
Qed.

Lemma kid_entries_elem (cs : list (Z * Node)) x : x ∈ kid_entries cs ↔ ∃ b c, (b, c) ∈ cs ∧ x ∈ entries c.
Proof.
  induction cs as [|[b c] cs IH].
  - split; [by intros ?%elem_of_nil|intros (b & c & Hin & _); by apply elem_of_nil in Hin].
  - rewrite kid_entries_cons, elem_of_app, IH. split.
    + intros [Hx|(b' & c' & Hin & Hx)]; [exists b, c|exists b', c']; (split; [|done]); [by left|by right].
    + intros (b' & c' & [[= -> ->]|Hin]%elem_of_cons & Hx); [by left|right; eauto].
Qed.

Lemma node_listed k : ∀ P n, (k <= 8)%nat → node_ok k P n → listed k P n.
Proof.
  induction k as [|k IH]; intros P [cs|key v] Hk Hn; try done.
  - destruct Hn as [Hik Hke]. split_and!; [repeat constructor| |done]. intros t w.
    cbn [entries nget terminal_get]. rewrite list_elem_of_singleton, pre_0. destruct (Z.eqb_spec key t) as [->|Hne].
    + split; [by intros [= ->]|by intros (_ & _ & [= ->])].
    + split; [intros [= -> _]; done|by intros (_ & _ & ?)].
  - destruct Hn as (Hne & Hbt & Hkids).
    assert (Hl : ∀ b c, (b, c) ∈ cs → 0 <= b < 256 ∧ listed k (P * 256 + b) c).
    { intros b c Hin%kid_list; [|done]. destruct (Hkids b c Hin). split; [done|]. apply IH; [lia|done]. }
    split_and!; [by eapply kids_sorted| |].
    + intros t w. change (entries (Inner cs)) with (kid_entries cs). rewrite kid_entries_elem. split.
      * intros (b & c & Hin & Hx). destruct (Hl b c Hin) as [Hb (_ & Hi & _)].
        apply Hi in Hx as (Ht & Hp & Hg). apply kid_list in Hin; [|done]. split; [done|].
        assert (Hsel : sel k t = b ∧ pre (S k) t = P).
        { pose proof (pre_split k t) as Hsp. pose proof (sel_range k t). unfold sel in *. lia. }
        destruct Hsel as [Hsel ->]. split; [done|]. by rewrite nget_inner, Hsel, Hin by (done || lia).
      * intros (Ht & Hp & Hg). rewrite nget_inner in Hg by (done || lia).
        destruct (bt_map cs !! sel k t) as [c|] eqn:Hc; [|done]. exists (sel k t), c.
        pose proof Hc as Hin. apply kid_list in Hin; [|done]. split; [done|].
        destruct (Hl _ _ Hin) as [_ (_ & Hi & _)]. apply Hi. split_and!; [done|by apply pre_child|done].
    + destruct cs as [|[b c] cs]; [done|]. change (entries c ++ kid_entries cs ≠ []).
      destruct (Hl b c ltac:(by left)) as [_ (_ & _ & Hx)]. by destruct (entries c).
Qed.

(** ** Extremes and depth walks follow the traversal *)

Lemma extreme_min k : ∀ P n, (k <= 8)%nat → node_ok k P n → extreme n true = fst <$> head (entries n).
Proof.
  induction k as [|k IH]; intros P [cs|key v] Hk Hn; try done. destruct Hn as (Hne & Hbt & Hkids).
  destruct cs as [|[b c] cs]; [done|]. change (extreme c true = fst <$> head (entries c ++ kid_entries cs)).
  destruct (Hkids b c) as [_ Hc]; [apply kid_list; [done|by left]|].
  rewrite (IH _ c ltac:(lia) Hc). destruct (node_listed k _ c ltac:(lia) Hc) as (_ & _ & Hx).
  by destruct (entries c).
Qed.

Lemma extreme_max k : ∀ P n, (k <= 8)%nat → node_ok k P n → extreme n false = fst <$> last (entries n).
Proof.
  induction k as [|k IH]; intros P [cs|key v] Hk Hn; try done. destruct Hn as (_ & Hbt & Hkids).
  assert (Hc : ∀ b c, (b, c) ∈ cs → node_ok k (P * 256 + b) c)
    by (intros b c Hin; apply Hkids, kid_list; done).
  clear Hbt Hkids. cbn [extreme]. change (entries (Inner cs)) with (kid_entries cs).
  induction cs as [|[b c] cs IHcs]; [done|]. rewrite kid_entries_cons.
  pose proof (Hc b c ltac:(by left)) as Hcb. destruct cs as [|x cs].
  - change (kid_entries []) with (@nil (Z * Level)). rewrite app_nil_r. by apply (IH (P * 256 + b) c); [lia|].
  - rewrite IHcs by (intros ? ? Hin; apply Hc; by right).
    rewrite last_app. destruct (last (kid_entries (x :: cs))) as [y|] eqn:El; [done|].
    apply last_None in El. destruct x as [b' c']. rewrite kid_entries_cons in El. apply app_eq_nil in El as [El _].
    destruct (node_listed k (P * 256 + b') c' ltac:(lia)) as (_ & _ & Hx); [apply Hc; by right; left|done].
Qed.

(** [walk] appends as many levels as there is room for. *)
Definition fill_up (n : nat) (out l : list (Z * Z)) : list (Z * Z) := out ++ take (n - length out) l.

Lemma fill_up_full n out l : (n <=? length out)%nat = true → fill_up n out l = out.
Proof. intros Hn%Nat.leb_le. unfold fill_up. replace (n - length out)%nat with 0%nat by lia. apply app_nil_r. Qed.

Lemma fill_up_app n out l1 l2 : fill_up n (fill_up n out l1) l2 = fill_up n out (l1 ++ l2).
Proof.
  unfold fill_up. rewrite <- app_assoc, length_app, length_take. f_equal. rewrite take_app. do 2 f_equal. lia.
Qed.

Definition level_view (tl : Z * Level) : Z * Z := (tl.1, total_lot tl.2).

Lemma fill_up_one n out x : (n <=? length out)%nat = false → fill_up n out [x] = out ++ [x].
Proof. intros Hn%Nat.leb_gt. unfold fill_up. replace (n - length out)%nat with (S (n - length out - 1)) by lia. cbn. by rewrite take_nil. Qed.

Lemma walk_asc k : ∀ P n N out, (k <= 8)%nat → node_ok k P n →
  walk n true N out = fill_up N out (level_view <$> entries n).
Proof.
  induction k as [|k IH]; intros P [cs|key v] N out Hk Hn; try done; cbn [walk];
    destruct (N <=? length out)%nat eqn:Ef; rewrite ?fill_up_full by done; try done.
  - by rewrite <- (fill_up_one N).
  - destruct Hn as (_ & Hbt & Hkids).
    assert (Hc : ∀ b c, (b, c) ∈ cs → node_ok k (P * 256 + b) c) by (intros b c Hin; apply Hkids, kid_list; done).
    clear Hbt Hkids Ef. change (entries (Inner cs)) with (kid_entries cs). revert out.
    induction cs as [|[b c] cs IHcs]; intros out; [unfold fill_up; cbn; by rewrite take_nil, app_nil_r|].
    rewrite kid_entries_cons, fmap_app, <- fill_up_app.
    rewrite (IH (P * 256 + b) c N out ltac:(lia) (Hc b c ltac:(by left))).
    destruct (N <=? length (fill_up N out _))%nat eqn:Ef; [by rewrite (fill_up_full N (fill_up N out _))|].
    apply IHcs. intros ? ? Hin. apply Hc. by right.
Qed.

Lemma walk_desc k : ∀ P n N out, (k <= 8)%nat → node_ok k P n →
  walk n false N out = fill_up N out (rev (level_view <$> entries n)).
Proof.
  induction k as [|k IH]; intros P [cs|key v] N out Hk Hn; try done; cbn [walk];
    destruct (N <=? length out)%nat eqn:Ef; rewrite ?fill_up_full by done; try done.
  - by rewrite <- (fill_up_one N).
  - destruct Hn as (_ & Hbt & Hkids).
    assert (Hc : ∀ b c, (b, c) ∈ cs → node_ok k (P * 256 + b) c) by (intros b c Hin; apply Hkids, kid_list; done).
    clear Hbt Hkids Ef. change (entries (Inner cs)) with (kid_entries cs).
    induction cs as [|[b c] cs IHcs]; [unfold fill_up; cbn; by rewrite take_nil, app_nil_r|].
    rewrite kid_entries_cons, fmap_app, rev_app_distr, <- fill_up_app.
    rewrite IHcs by (intros ? ? Hin; apply Hc; by right).
    destruct (N <=? length (fill_up N out _))%nat eqn:Ef; [by rewrite (fill_up_full N (fill_up N out _))|].
    apply (IH (P * 256 + b) c); [lia|apply Hc; by left].
Qed.

(** ** The map *)

Definition art_ok (m : ArtMap) : Prop :=
  match root m with
  | None => True
  | Some (Leaf key _) => in_i64 key
  | Some n => node_ok 8 0 n
  end.

Definition art_entries (m : ArtMap) : list (Z * Level) := match root m with Some n => entries n | None => [] end.
Definition art_map (m : ArtMap) : gmap Z Level := list_to_map (art_entries m).

Lemma art_listed m :
  art_ok m → StronglySorted Z.lt (art_entries m).*1
  ∧ ∀ t v, (t, v) ∈ art_entries m ↔ in_i64 t ∧ art_get m t = Some v.
Proof.
  destruct m as [[[cs|key v]|]]; cbn [art_ok root]; unfold art_entries, art_get; cbn [root mbind option_bind].
  - intros Hn. destruct (node_listed 8 0 (Inner cs) ltac:(lia) Hn) as (Hs & Hin & _). split; [done|].
    intros t w. rewrite Hin. split; [by intros (? & _ & ?)|]. intros [Ht Hg]. split_and!; [done|by apply pre_8|done].
  - intros Hk. split; [repeat constructor|]. intros t w. cbn. rewrite list_elem_of_singleton. unfold leaf_get.
    destruct (Z.eqb_spec key t) as [->|Hne].
    + split; [by intros [= ->]|by intros [_ [= ->]]].
    + split; [by intros [= -> _]|by intros [_ ?]].
  - intros _. split; [constructor|]. intros t w. split; [by intros ?%elem_of_nil|by intros [_ ?]].
Qed.

Lemma sorted_nodup (l : list Z) : StronglySorted Z.lt l → NoDup l.
Proof.
  induction 1 as [|x xs _ IH Hx]; constructor; [|done]. intros Hin. eapply Forall_forall in Hx; [|exact Hin]. lia.
Qed.

Lemma art_map_Some m t v : art_ok m → art_map m !! t = Some v ↔ in_i64 t ∧ art_get m t = Some v.
Proof.
  intros Hok. destruct (art_listed m Hok) as [Hs Hin]. rewrite <- Hin. symmetry.
  apply elem_of_list_to_map. by apply sorted_nodup.
Qed.

Lemma art_get_spec m t : art_ok m → in_i64 t → art_get m t = art_map m !! t.
Proof. intros Hok Ht. apply option_eq. intros v. rewrite art_map_Some by done. naive_solver. Qed.

(** Equal lookups, equal maps. *)
Lemma art_map_ext m' (M : gmap Z Level) :
  art_ok m' → (∀ t, is_Some (M !! t) → in_i64 t) → (∀ t, in_i64 t → art_get m' t = M !! t) → art_map m' = M.
Proof.
  intros Hok HM Hg. apply map_eq. intros t. apply option_eq. intros v. rewrite art_map_Some by done. split.
  - intros [Ht <-]. by rewrite Hg.
  - intros Hv. assert (Ht : in_i64 t) by (apply HM; eauto). split; [done|]. by rewrite Hg.
Qed.

Lemma art_map_keys m t : art_ok m → is_Some (art_map m !! t) → in_i64 t.
Proof. intros Hok [v Hv]. by apply art_map_Some in Hv as [? _]. Qed.

Lemma art_get_root n t : art_get (mkArt (Some (Inner n))) t = nget 8 (Inner n) t.
Proof. done. Qed.

Lemma art_insert_spec m t l :
  art_ok m → in_i64 t → art_ok (art_insert m t l) ∧ art_map (art_insert m t l) = <[t := l]> (art_map m).
Proof.
  intros Hok Ht.
  assert (Hres : art_ok (art_insert m t l)
    ∧ ∀ t', in_i64 t' → art_get (art_insert m t l) t' = if decide (t = t') then Some l else art_get m t').
  { destruct m as [[[cs|key v]|]]; unfold art_insert; cbn [root] in *.
    - destruct (insert_at_spec 7 9 0 cs t l) as (cs' & Hi & Hn & Hg); try done; try lia; [apply Hok|by apply pre_8|].
      change (7 - 7)%nat with 0%nat in Hi. rewrite Hi. split; [exact Hn|]. intros t' Ht'. rewrite !art_get_root.
      apply Hg; [done|by apply pre_8].
    - change (insert_at 9 (Leaf key v) (key_bytes t) 0 t l)
        with (insert_at_leaf (insert_at 8) (Leaf key v) (key_bytes t) 0 t l). cbn [insert_at_leaf].
      unfold art_ok in Hok. cbn [root] in Hok.
      assert (Hold : ∀ t', art_get (mkArt (Some (Leaf key v))) t' = if decide (key = t') then Some v else None).
      { intros t'. unfold art_get. cbn. unfold leaf_get. destruct (Z.eqb_spec key t'); by case_decide. }
      destruct (Z.eqb_spec key t) as [->|Hne].
      + split; [done|]. intros t' Ht'. rewrite Hold. unfold art_get. cbn. unfold leaf_get.
        destruct (Z.eqb_spec t t'); by case_decide.
      + destruct (insert_at_spec 7 8 0 [] key v) as (c1 & Hi1 & Hn1 & Hg1); try done; try lia;
          [split; [split; constructor|done]|by apply pre_8|].
        destruct (insert_at_spec 7 8 0 c1 t l) as (c2 & Hi2 & Hn2 & Hg2); try done; try lia; [apply Hn1|by apply pre_8|].
        change (7 - 7)%nat with 0%nat in *. rewrite Hi1, Hi2. split; [exact Hn2|]. intros t' Ht'.
        rewrite art_get_root, Hg2, Hg1, Hold by (done || by apply pre_8).
        case_decide; [done|]. case_decide; [done|]. by rewrite nget_inner by (done || lia || split; constructor).
    - split; [done|]. intros t' _. unfold art_get. cbn. unfold leaf_get. destruct (Z.eqb_spec t t'); by case_decide. }
  destruct Hres as [Hok' Hg]. split; [done|]. apply art_map_ext; [done| |].
  - intros t' [v [[<- _]|[_ Hv]]%lookup_insert_Some]; [done|].
    apply (art_map_keys m); [done|]. by exists v.
  - intros t' Ht'. rewrite Hg by done. case_decide as He; [by rewrite He, lookup_insert_eq|].
    rewrite lookup_insert_ne by done. by apply art_get_spec.
Qed.

Lemma art_get_mut_spec m t f :
  art_ok m → in_i64 t →
  match art_map m !! t with
  | None => art_get_mut m t f = None
  | Some l => ∃ m', art_get_mut m t f = Some m' ∧ art_ok m' ∧ art_map m' = <[t := f l]> (art_map m)
  end.
Proof.
  intros Hok Ht. rewrite <- art_get_spec by done.
  assert (Hext : ∀ m' l, art_ok m' →
    (∀ t', in_i64 t' → art_get m' t' = if decide (t = t') then Some l else art_get m t') →
    art_map m' = <[t := l]> (art_map m)).
  { intros m' l Hok' Hg. apply art_map_ext; [done| |].
    - intros t' [v [[<- _]|[_ Hv]]%lookup_insert_Some]; [done|]. apply (art_map_keys m); [done|]. by exists v.
    - intros t' Ht'. rewrite Hg by done. case_decide as He; [by rewrite He, lookup_insert_eq|].
      rewrite lookup_insert_ne by done. by apply art_get_spec. }
  destruct m as [[[cs|key v]|]]; [| |done]; unfold art_ok in Hok; cbn [root] in Hok.
  - pose proof (get_mut_loop_spec 7 0 (Inner cs) t f ltac:(lia) Hok Ht (pre_8 t Ht)) as Hs.
    change (7 - 7)%nat with 0%nat in Hs. rewrite art_get_root. unfold art_get_mut. cbn [root mbind option_bind].
    destruct (nget 8 (Inner cs) t) as [l|]; [|by rewrite Hs].
    destruct Hs as (n' & -> & Hn' & Hg). cbn [mbind option_bind]. eexists. split; [reflexivity|].
    destruct n' as [cs'|]; [|done]. split; [done|]. apply Hext; [done|]. intros t' Ht'. rewrite !art_get_root.
    apply Hg; [done|by apply pre_8].
  - unfold art_get, art_get_mut. cbn. unfold leaf_get. destruct (Z.eqb_spec key t) as [->|]; [|done].
    eexists. split; [reflexivity|]. split; [done|]. apply Hext; [done|]. intros t' _. unfold art_get. cbn.
    unfold leaf_get. destruct (Z.eqb_spec t t'); by case_decide.
Qed.

Lemma art_remove_spec m t :
  art_ok m → in_i64 t →
  ∃ m', art_remove m t = (art_map m !! t, m') ∧ art_ok m' ∧ art_map m' = delete t (art_map m).
Proof.
  intros Hok Ht. rewrite <- art_get_spec by done.
  assert (Hext : ∀ m', art_ok m' →
    (∀ t', in_i64 t' → art_get m' t' = if decide (t = t') then None else art_get m t') →
    art_map m' = delete t (art_map m)).
  { intros m' Hok' Hg. apply art_map_ext; [done| |].
    - intros t' [v [_ Hv]%lookup_delete_Some]. apply (art_map_keys m); [done|]. by exists v.
    - intros t' Ht'. rewrite Hg by done. case_decide as He; [by rewrite He, lookup_delete_eq|].
      rewrite lookup_delete_ne by done. by apply art_get_spec. }
  assert (Hsame : art_get m t = None → art_map m = delete t (art_map m)).
  { intros Hn. symmetry. apply delete_id. by rewrite <- art_get_spec. }
  destruct m as [[[cs|key v]|]]; unfold art_remove, art_ok in *; cbn [root] in *.
  - pose proof (remove_at_spec 8 9 0 (Inner cs) t ltac:(lia) ltac:(lia) Hok Ht (pre_8 t Ht)) as Hs.
    rewrite art_get_root in *. change (8 - 8)%nat with 0%nat in Hs.
    destruct (nget 8 (Inner cs) t) as [l|]; [|by rewrite Hs; eexists; split_and!; [reflexivity|done|apply Hsame]].
    destruct Hs as (e & n' & -> & Hrm). eexists. split; [reflexivity|]. destruct e; cbn [removed] in Hrm.
    + split; [done|]. apply Hext; [done|]. intros t' Ht'. case_decide as He; [done|].
      rewrite art_get_root, Hrm by (done || by apply pre_8). done.
    + destruct Hrm as [Hn' Hg]. destruct n' as [cs'|]; [|done]. split; [done|]. apply Hext; [done|].
      intros t' Ht'. rewrite !art_get_root. apply Hg; [done|by apply pre_8].
  - change (remove_at 9 (Leaf key v) (key_bytes t) 0 t)
      with (if negb (key =? t) then None else Some (v, true, Leaf key level_default)).
    assert (Hgl : ∀ t', art_get (mkArt (Some (Leaf key v))) t' = if key =? t' then Some v else None) by done.
    rewrite Hgl in *. destruct (Z.eqb_spec key t) as [->|Hne]; cbn [negb].
    + eexists. split; [reflexivity|]. split; [done|]. apply Hext; [done|]. intros t' _. rewrite Hgl.
      destruct (Z.eqb_spec t t'); by case_decide.
    + eexists. split; [reflexivity|]. split; [done|]. by apply Hsame.
  - eexists. split; [reflexivity|]. split; [done|]. by apply Hsame.
Qed.

Lemma art_get_or_insert_spec m t l f :
  art_ok m → in_i64 t →
  art_ok (art_get_or_insert_with m t l f) ∧ art_map (art_get_or_insert_with m t l f) = <[t := f l]> (art_map m).
Proof.
  intros Hok Ht. destruct (art_insert_spec m t l Hok Ht) as [Hok1 Hm1]. unfold art_get_or_insert_with.
  pose proof (art_get_mut_spec (art_insert m t l) t f Hok1 Ht) as Hs. rewrite Hm1, lookup_insert_eq in Hs.
  destruct Hs as (m' & -> & Hok' & Hm'). split; [done|]. cbn. by rewrite Hm', insert_insert_eq.
Qed.

Lemma art_contains_spec m t :
  art_ok m → in_i64 t → art_contains m t = bool_decide (is_Some (art_map m !! t)).
Proof.
  intros Hok Ht. unfold art_contains. rewrite art_get_spec by done.
  destruct (art_map m !! t); [by rewrite bool_decide_true by eauto|]. rewrite bool_decide_false; [done|by intros []].
Qed.

Lemma art_best_ask_spec m : art_ok m → best_tick_ask m = fst <$> head (art_entries m).
Proof.
  destruct m as [[[cs|key v]|]]; unfold best_tick_ask, art_entries, art_ok; cbn [root mbind option_bind]; try done.
  intros Hn. by apply (extreme_min 8 0); [lia|].
Qed.

Lemma art_best_bid_spec m : art_ok m → best_tick_bid m = fst <$> last (art_entries m).
Proof.
  destruct m as [[[cs|key v]|]]; unfold best_tick_bid, art_entries, art_ok; cbn [root mbind option_bind]; try done.
  intros Hn. by apply (extreme_max 8 0); [lia|].
Qed.

Lemma art_depth_ask_spec m n : art_ok m → depth_ask m n = take n (level_view <$> art_entries m).
Proof.
  intros Hok. destruct m as [[[cs|key v]|]]; unfold depth_ask, art_entries, art_ok in *; cbn [root] in *.
  - rewrite (walk_asc 8 0) by (done || lia). unfold fill_up. cbn [length app]. by rewrite Nat.sub_0_r.
  - by destruct n as [|[|n]].
  - by destruct n.
Qed.

Lemma art_depth_bid_spec m n : art_ok m → depth_bid m n = take n (rev (level_view <$> art_entries m)).
Proof.
  intros Hok. destruct m as [[[cs|key v]|]]; unfold depth_bid, art_entries, art_ok in *; cbn [root] in *.
  - rewrite (walk_desc 8 0) by (done || lia). unfold fill_up. cbn [length app]. by rewrite Nat.sub_0_r.
  - by destruct n as [|[|n]].
  - by destruct n.
Qed.

(** ** The contract *)

Lemma sorted_rev (l : list Z) : StronglySorted Z.lt l → StronglySorted (tick_before Buy) (rev l).
Proof.
  induction 1 as [|x xs Hs IH Hx]; [constructor|]. cbn [rev]. rewrite Forall_forall in Hx.
  assert (Hr : ∀ z, z ∈ rev xs → x < z).
  { intros z Hz. apply Hx, list_elem_of_In, in_rev. by apply list_elem_of_In. }
  clear -IH Hr. revert Hr. induction IH as [|y l _ IH Hy]; intros Hr; [repeat constructor|]. cbn. constructor.
  - apply IH. intros z Hz. apply Hr. by right.
  - apply Forall_app. split; [done|]. repeat constructor. cbn. apply Hr. by left.
Qed.

Lemma fmap_rev {A B} (f : A → B) (l : list A) : f <$> rev l = rev (f <$> l).
Proof. apply map_rev. Qed.

Lemma head_rev {A} (l : list A) : head (rev l) = last l.
Proof. rewrite rev_alt. apply head_reverse. Qed.

Lemma art_rev_map m : art_ok m → list_to_map (rev (art_entries m)) = art_map m.
Proof.
  intros Hok. destruct (art_listed m Hok) as [Hs _]. unfold art_map. apply list_to_map_proper.
  - rewrite fmap_rev. apply sorted_nodup in Hs. rewrite <- Permutation_rev. done.
  - symmetry. apply Permutation_rev.
Qed.

(** The head of a sorted listing is the best key. *)
Lemma listing_best s m (l : list (Z * Level)) :
  art_ok m → StronglySorted (tick_before s) l.*1 → list_to_map l = art_map m →
  best_of s (art_map m) (fst <$> head l).
Proof.
  intros Hok Hs <-. destruct l as [|[k w] l]; [done|]. cbn. split; [by rewrite lookup_insert_eq|].
  intros t' Ht'. apply StronglySorted_inv in Hs as [_ Hx]. destruct (decide (t' ∈ ((k, w) :: l).*1)) as [Hin|Hn].
  - cbn in Hin. apply elem_of_cons in Hin as [->|Hin]; [by left|right]. by eapply Forall_forall in Hx.
  - apply not_elem_of_list_to_map_1 in Hn. cbn in Hn. rewrite Hn in Ht'. by destruct Ht'.
Qed.

#[export] Instance art_ask_index_spec : LevelIndexSpec ArtAskIndex Sell.
Proof.
  refine {| li_ok := λ i, art_ok (art_ask_map i); li_map := λ i, art_map (art_ask_map i) |}; cbn.
  - done.
  - intros i t. apply art_map_keys.
  - intros i t. apply art_get_spec.
  - intros i t. apply art_contains_spec.
  - intros i t f Hok Ht Hn. pose proof (art_get_mut_spec (art_ask_map i) t f Hok Ht) as Hs. rewrite Hn in Hs. by rewrite Hs.
  - intros i t f l Hok Ht Hl. pose proof (art_get_mut_spec (art_ask_map i) t f Hok Ht) as Hs. rewrite Hl in Hs.
    destruct Hs as (m' & -> & ? & ?). by exists (mkArtAsk m').
  - intros i t l. apply art_insert_spec.
  - intros i t Hok Ht. destruct (art_remove_spec (art_ask_map i) t Hok Ht) as (m' & -> & ? & ?). by exists (mkArtAsk m').
  - intros i Hok. rewrite art_best_ask_spec by done. apply listing_best; [done|by apply art_listed|done].
  - intros i n Hok. exists (art_entries (art_ask_map i)). split_and!; [by apply art_listed|done|by apply art_depth_ask_spec].
  - intros i t l f Hok Ht _. by apply art_get_or_insert_spec.
Defined.

#[export] Instance art_bid_index_spec : LevelIndexSpec ArtBidIndex Buy.
Proof.
  refine {| li_ok := λ i, art_ok (art_bid_map i); li_map := λ i, art_map (art_bid_map i) |}; cbn.
  - done.
  - intros i t. apply art_map_keys.
  - intros i t. apply art_get_spec.
  - intros i t. apply art_contains_spec.
  - intros i t f Hok Ht Hn. pose proof (art_get_mut_spec (art_bid_map i) t f Hok Ht) as Hs. rewrite Hn in Hs. by rewrite Hs.
  - intros i t f l Hok Ht Hl. pose proof (art_get_mut_spec (art_bid_map i) t f Hok Ht) as Hs. rewrite Hl in Hs.
    destruct Hs as (m' & -> & ? & ?). by exists (mkArtBid m').
  - intros i t l. apply art_insert_spec.
  - intros i t Hok Ht. destruct (art_remove_spec (art_bid_map i) t Hok Ht) as (m' & -> & ? & ?). by exists (mkArtBid m').
  - intros i Hok. rewrite art_best_bid_spec, <- head_rev by done. apply listing_best; [done| |by apply art_rev_map].
    rewrite fmap_rev. apply sorted_rev. by apply art_listed.
  - intros i n Hok. exists (rev (art_entries (art_bid_map i))). rewrite fmap_rev. split_and!.
    + apply sorted_rev. by apply art_listed.
    + by apply art_rev_map.
    + rewrite fmap_rev. by apply art_depth_bid_spec.
  - intros i t l f Hok Ht _. by apply art_get_or_insert_spec.
Defined.
