(* ===== verification/HpArtProps.v ===== *)
(** * match-core-hp: the two price-level indexes are interchangeable

    The feature [art] swaps the B-tree indexes for the radix tree.  Any two
    indexes that meet [LevelIndexSpec] for the same side give a client the same
    answers, so the engine's theorems hold for either. *)
From stdpp Require Import gmap sorting.
From S2P Require Import Prelude HpTypes HpIndex HpBook HpEngine HpArt.
From Stdlib Require Import Sorted.

#[local] Open Scope Z_scope.

(** What the book does with an index.  [OpEntry] is [Book::level_mut]: mutate
    the level at the tick, creating it first when it is missing. *)
Inductive IndexOp :=
| OpInsert (t : Z) (l : Level)
| OpRemove (t : Z)
| OpMutate (t : Z) (f : Level → Level)
| OpEntry (t : Z) (l : Level) (f : Level → Level).

Definition op_tick (op : IndexOp) : Z :=
  match op with OpInsert t _ | OpRemove t | OpMutate t _ | OpEntry t _ _ => t end.

Section Ops.
Context {I : Type} `{LI : LevelIndex I}.

(** The index after an operation, and what the operation returned. *)
Definition index_step (i : I) (op : IndexOp) : option Level * I :=
  match op with
  | OpInsert t l => (None, li_insert i t l)
  | OpRemove t => li_remove i t
  | OpMutate t f => (None, default i (li_get_mut i t f))
  | OpEntry t l f =>
      if li_contains i t then (None, default i (li_get_mut i t f))
      else (None, li_get_or_insert_with i t l f)
  end.

Fixpoint index_run (i : I) (ops : list IndexOp) : list (option Level) * I :=
  match ops with
  | [] => ([], i)
  | op :: ops => let '(r, i) := index_step i op in let '(rs, i) := index_run i ops in (r :: rs, i)
  end.

(** Everything a client can read: the level at a tick, whether there is one, the
    best tick, and the depth. *)
Definition index_view (i : I) (t : Z) (n : nat) : option Level * bool * option Z * list (Z * Z) :=
  (li_get i t, li_contains i t, li_best_tick i, li_depth i n).
End Ops.

Lemma depth_of_fun s (m : gmap Z Level) n d d' : depth_of s m n d → depth_of s m n d' → d = d'.
Proof.
  intros (l & Hs & Hm & ->) (l' & Hs' & Hm' & ->). do 2 f_equal.
  assert (Hnd : ∀ k : list (Z * Level), StronglySorted (tick_before s) k.*1 → NoDup k.*1).
  { intros k Hk. induction Hk as [|x xs _ IH Hx]; constructor; [|done]. intros Hin.
    eapply Forall_forall in Hx; [|exact Hin]. destruct s; cbn in Hx; lia. }
  assert (Hp : l ≡ₚ l') by (apply list_to_map_inj; [by apply Hnd|by apply Hnd|by rewrite Hm]).
  pose (R := λ x y : Z * Level, tick_before s x.1 y.1).
  assert (HR : ∀ k : list (Z * Level), StronglySorted (tick_before s) k.*1 → StronglySorted R k).
  { induction k as [|x k IH]; intros Hk; constructor; cbn in Hk; apply StronglySorted_inv in Hk as [Hk Hx]; [by apply IH|].
    rewrite Forall_fmap in Hx. exact Hx. }
  apply (StronglySorted_unique_strong R); [|by apply HR|by apply HR|done].
  intros x y _ _ Hxy Hyx. unfold R in *. destruct s; cbn in *; lia.
Qed.

Section Equivalence.
Context {I J : Type} `{LI : LevelIndex I} `{LJ : LevelIndex J} {s : Side}
  `{SI : !LevelIndexSpec I s} `{SJ : !LevelIndexSpec J s}.

(** Both indexes are sound and hold the same levels. *)
Definition same_levels (i : I) (j : J) : Prop := li_ok i ∧ li_ok j ∧ li_map i = li_map j.

Lemma same_view i j t n : same_levels i j → in_i64 t → index_view i t n = index_view j t n.
Proof.
  intros (Hi & Hj & Hm) Ht. unfold index_view. rewrite !li_get_spec, !li_contains_spec, Hm by done.
  repeat f_equal.
  - eapply best_of_fun; [by apply li_best_spec|]. rewrite Hm. by apply li_best_spec.
  - eapply depth_of_fun; [by apply li_depth_spec|]. rewrite Hm. by apply li_depth_spec.
Qed.

Lemma same_mutate i j t f :
  same_levels i j → in_i64 t → same_levels (default i (li_get_mut i t f)) (default j (li_get_mut j t f)).
Proof.
  intros (Hi & Hj & Hm) Ht. destruct (li_map i !! t) as [l|] eqn:Hl.
  - destruct (li_get_mut_Some i t f l Hi Ht Hl) as (i' & -> & Hi' & Hmi).
    rewrite Hm in Hl. destruct (li_get_mut_Some j t f l Hj Ht Hl) as (j' & -> & Hj' & Hmj).
    split_and!; [done|done|]. cbn. by rewrite Hmi, Hmj, Hm.
  - rewrite (li_get_mut_None i t f Hi Ht Hl). rewrite Hm in Hl. by rewrite (li_get_mut_None j t f Hj Ht Hl).
Qed.

Lemma same_step i j op :
  same_levels i j → in_i64 (op_tick op) →
  (index_step i op).1 = (index_step j op).1 ∧ same_levels (index_step i op).2 (index_step j op).2.
Proof.
  intros Hsl Ht. pose proof Hsl as (Hi & Hj & Hm). destruct op as [t l|t|t f|t l f]; cbn [index_step op_tick] in *.
  - destruct (li_insert_spec i t l Hi Ht) as [? Hmi], (li_insert_spec j t l Hj Ht) as [? Hmj].
    split; [done|]. split_and!; [done|done|]. cbn. by rewrite Hmi, Hmj, Hm.
  - destruct (li_remove_spec i t Hi Ht) as (i' & -> & ? & Hmi), (li_remove_spec j t Hj Ht) as (j' & -> & ? & Hmj).
    cbn. rewrite Hm. split; [done|]. split_and!; [done|done|]. by rewrite Hmi, Hmj, Hm.
  - split; [done|]. by apply same_mutate.
  - rewrite !li_contains_spec, Hm by done. case_bool_decide as Hc; [split; [done|by apply same_mutate]|].
    apply eq_None_not_Some in Hc. split; [done|].
    destruct (li_get_or_insert_spec j t l f Hj Ht Hc) as [? Hmj]. rewrite <- Hm in Hc.
    destruct (li_get_or_insert_spec i t l f Hi Ht Hc) as [? Hmi].
    split_and!; [done|done|]. cbn. by rewrite Hmi, Hmj, Hm.
Qed.

Lemma same_run ops : ∀ i j, same_levels i j → Forall (λ op, in_i64 (op_tick op)) ops →
  (index_run i ops).1 = (index_run j ops).1 ∧ same_levels (index_run i ops).2 (index_run j ops).2.
Proof.
  induction ops as [|op ops IH]; intros i j Hsl Hops; [done|]. apply Forall_cons in Hops as [Hop Hops].
  destruct (same_step i j op Hsl Hop) as [Hr Hsl']. cbn [index_run].
  destruct (index_step i op) as [r i'], (index_step j op) as [r' j']. cbn [fst snd] in *. subst r'.
  destruct (IH i' j' Hsl' Hops) as [Hrs Hsl'']. destruct (index_run i' ops), (index_run j' ops). cbn [fst snd] in *.
  by subst.
Qed.

Lemma same_default : same_levels (li_default : I) (li_default : J).
Proof.
  destruct (li_default_spec (I:=I) (s:=s)) as [Hi Hmi], (li_default_spec (I:=J) (s:=s)) as [Hj Hmj].
  split_and!; [done|done|by rewrite Hmi, Hmj].
Qed.

End Equivalence.

(** The radix tree answers like the B-tree: after any sequence of index
    operations on in-range ticks, started empty, every operation returned the
    same level and every read (the level at a tick, membership, the best tick,
    the first [n] levels of the depth) gives the same result, on the ask side
    and on the bid side. *)
Theorem art_answers_like_btree ops t n :
  Forall (λ op, in_i64 (op_tick op)) ops → in_i64 t →
  let ra := index_run (li_default : ArtAskIndex) ops in
  let ta := index_run (li_default : BTreeAskIndex) ops in
  let rb := index_run (li_default : ArtBidIndex) ops in
  let tb := index_run (li_default : BTreeBidIndex) ops in
  ra.1 = ta.1 ∧ index_view ra.2 t n = index_view ta.2 t n
  ∧ rb.1 = tb.1 ∧ index_view rb.2 t n = index_view tb.2 t n.
Proof.
  intros Hops Ht. cbn zeta.
  destruct (same_run (s := Sell) ops (li_default : ArtAskIndex) (li_default : BTreeAskIndex) same_default Hops) as [Ha Hsa].
  destruct (same_run (s := Buy) ops (li_default : ArtBidIndex) (li_default : BTreeBidIndex) same_default Hops) as [Hb Hsb].
  split_and!; [done|by apply (same_view (s := Sell))|done|by apply (same_view (s := Buy))].
Qed.

Module Witness.

Definition lvl (n i : Z) : Level := mkLevel n [i].

Definition script : list IndexOp :=
  [OpInsert 100 (lvl 5 1); OpEntry (-3) (lvl 7 2) (level_push 4 1); OpInsert 100 (lvl 6 3); OpRemove (-3);
   OpEntry 101 level_default (level_push 9 2); OpMutate 101 level_clear].

Lemma art_answers_like_btree_witness :
  index_view (index_run (li_default : ArtAskIndex) script).2 100 5
    = index_view (index_run (li_default : BTreeAskIndex) script).2 100 5
  ∧ (index_view (index_run (li_default : ArtAskIndex) script).2 100 5).2 = [(100, 6); (101, 0)].
Proof.
  split; [|vm_compute; reflexivity].
  destruct (art_answers_like_btree script 100 5) as (_ & Hv & _).
  - repeat constructor; cbn; unfold in_i64; lia.
  - unfold in_i64; lia.
  - exact Hv.
Defined.

End Witness.
