(* ===== verification/HpSim.v ===== *)
(** * match-core-hp: the engine does not depend on the index

    A simulation between two engines over different level indexes: in lockstep
    they return the same results, whatever the commands.  Used to show that the
    feature [art] changes nothing an observer can see. *)
From stdpp Require Import gmap sorting.
From S2P Require Import Prelude HpTypes HpIndex HpBook HpEngine HpArt HpArtProps.

#[local] Open Scope Z_scope.

(** Every stored order has its tick in range. *)
Definition ticks_ok (st : OrderStore) : Prop :=
  Forall (from_option (λ o, in_i64 (price_tick o)) True) (slots st).

Lemma ticks_get st i o : ticks_ok st → store_get st i = Some o → in_i64 (price_tick o).
Proof. intros Hf [_ Hl]%store_get_Some. by eapply (Forall_lookup_1 _ _ _ _ Hf Hl). Qed.

Lemma ticks_insert st o i st' : ticks_ok st → in_i64 (price_tick o) → store_insert st o = (i, st') → ticks_ok st'.
Proof.
  intros Hf Ht. unfold store_insert. destruct (free st) as [|j fr]; intros [= <- <-]; apply Forall_insert; try done.
  apply Forall_app. split; [done|]. by repeat constructor.
Qed.

Lemma ticks_update st i f : ticks_ok st → (∀ o, price_tick (f o) = price_tick o) → ticks_ok (store_update st i f).
Proof.
  intros Hf Ht. unfold store_update. destruct (slot_index i); [|done]. destruct (store_get st i) as [o|] eqn:Hg; [|done].
  apply Forall_insert; [done|]. cbn. rewrite Ht. by eapply ticks_get.
Qed.

Lemma ticks_remove st i : ticks_ok st → ticks_ok (store_remove st i).2.
Proof.
  intros Hf. unfold store_remove. destruct (slot_index i); [|done]. destruct (store_get st i); [|done].
  by apply Forall_insert.
Qed.

Section Sim.
Context {BI AI BJ AJ : Type} `{LB : LevelIndex BI} `{LA : LevelIndex AI} `{LB' : LevelIndex BJ} `{LA' : LevelIndex AJ}
  `{SB : !LevelIndexSpec BI Buy} `{SA : !LevelIndexSpec AI Sell}
  `{SB' : !LevelIndexSpec BJ Buy} `{SA' : !LevelIndexSpec AJ Sell}.
Implicit Types (b : Book BI AI) (c : Book BJ AJ) (t : Z).

Definition tick_in (x : option Z) : Prop := from_option in_i64 True x.

(** The two books agree on all but the representation of their levels. *)
Record sim b c : Prop := {
  sim_bids : same_levels (s:=Buy) (bids b) (bids c);
  sim_asks : same_levels (s:=Sell) (asks b) (asks c);
  sim_store : store b = store c;
  sim_bid : best_bid_tick b = best_bid_tick c;
  sim_ask : best_ask_tick b = best_ask_tick c;
  sim_pool : level_pool b = level_pool c;
  sim_ticks : ticks_ok (store b);
  sim_bid_in : tick_in (best_bid_tick b);
  sim_ask_in : tick_in (best_ask_tick b) }.

(** ** Reads *)

Lemma same_get {I J} `{LevelIndex I} `{LevelIndex J} {s} `{!LevelIndexSpec I s} `{!LevelIndexSpec J s} (i : I) (j : J) t :
  same_levels i j → in_i64 t → li_get i t = li_get j t ∧ li_contains i t = li_contains j t.
Proof. intros Hs Ht. pose proof (same_view i j t 0 Hs Ht) as Hv. unfold index_view in Hv. by simplify_eq. Qed.

Lemma same_best {I J} `{LevelIndex I} `{LevelIndex J} {s} `{!LevelIndexSpec I s} `{!LevelIndexSpec J s} (i : I) (j : J) :
  same_levels i j → li_best_tick i = li_best_tick j ∧ tick_in (li_best_tick i).
Proof.
  intros Hs. assert (Hz : in_i64 0) by (unfold in_i64; lia).
  pose proof (same_view i j 0 0 Hs Hz) as Hv. unfold index_view in Hv. simplify_eq. split; [done|].
  destruct Hs as (Hi & _ & _). pose proof (li_best_spec i Hi) as Hb.
  destruct (li_best_tick i) as [t|]; [|done]. cbn. apply (li_keys i t Hi). apply Hb.
Qed.

Lemma same_get_mut {I J} `{LevelIndex I} `{LevelIndex J} {s} `{!LevelIndexSpec I s} `{!LevelIndexSpec J s} (i : I) (j : J) t f :
  same_levels i j → in_i64 t → option_Forall2 same_levels (li_get_mut i t f) (li_get_mut j t f).
Proof.
  intros (Hi & Hj & Hm) Ht. destruct (li_map i !! t) as [l|] eqn:Hl.
  - destruct (li_get_mut_Some i t f l Hi Ht Hl) as (i' & -> & Hi' & Hmi).
    rewrite Hm in Hl. destruct (li_get_mut_Some j t f l Hj Ht Hl) as (j' & -> & Hj' & Hmj).
    constructor. split_and!; [done|done|]. by rewrite Hmi, Hmj, Hm.
  - rewrite (li_get_mut_None i t f Hi Ht Hl). rewrite Hm in Hl. rewrite (li_get_mut_None j t f Hj Ht Hl). constructor.
Qed.

Lemma sim_level b c s t : sim b c → in_i64 t → level b s t = level c s t.
Proof. intros H Ht. destruct s; cbn; [eapply (same_get (s:=Buy))|eapply (same_get (s:=Sell))]; eauto; apply H. Qed.

Lemma sim_best b c s : sim b c → best b s = best c s ∧ tick_in (best b s).
Proof. intros H. destruct s; cbn; split; apply H. Qed.

Lemma sim_level_empty b c s t : sim b c → in_i64 t → level_empty b s t = level_empty c s t.
Proof. intros H Ht. unfold level_empty. by rewrite (sim_level b c). Qed.

(** ** Updates *)

Lemma sim_set_store b c st : sim b c → ticks_ok st → sim (set_store st b) (set_store st c).
Proof. intros [] Ht. by constructor. Qed.

Lemma sim_set_bids b c i j : sim b c → same_levels (s:=Buy) i j → sim (set_bids i b) (set_bids j c).
Proof. intros [] Ht. by constructor. Qed.

Lemma sim_set_asks b c i j : sim b c → same_levels (s:=Sell) i j → sim (set_asks i b) (set_asks j c).
Proof. intros [] Ht. by constructor. Qed.

Lemma sim_set_pool b c p : sim b c → sim (set_pool p b) (set_pool p c).
Proof. intros []. by constructor. Qed.

Lemma sim_set_best b c s x :
  sim b c → tick_in x →
  match s with Buy => sim (set_best_bid x b) (set_best_bid x c) | Sell => sim (set_best_ask x b) (set_best_ask x c) end.
Proof. intros [] Hx. destruct s; by constructor. Qed.

Lemma sim_take_level b c : sim b c → (take_level b).1 = (take_level c).1 ∧ sim (take_level b).2 (take_level c).2.
Proof.
  intros H. unfold take_level. rewrite (sim_pool _ _ H). destruct (level_pool c); [done|]. split; [done|].
  by apply sim_set_pool.
Qed.

Lemma sim_level_mut b c s t f : sim b c → in_i64 t → sim (level_mut b s t f) (level_mut c s t f).
Proof.
  intros H Ht. destruct (sim_take_level b c H) as [Hl Htl]. unfold level_mut. destruct s.
  - destruct (same_get (s:=Buy) (bids b) (bids c) t (sim_bids _ _ H) Ht) as [Hg Hc]. rewrite <- Hc.
    destruct (li_contains (bids b) t) eqn:Ec.
    + destruct (same_get_mut (s:=Buy) (bids b) (bids c) t f (sim_bids _ _ H) Ht); [by apply sim_set_bids|done].
    + destruct (same_step (s:=Buy) (bids b) (bids c) (OpEntry t (take_level b).1 f) (sim_bids _ _ H) Ht) as [_ Hs].
      cbn [index_step] in Hs. rewrite <- Hc, Ec in Hs. cbn [snd] in Hs. rewrite Hl in Hs at 2.
      unfold take_level in *. rewrite <- (sim_pool _ _ H) in *. destruct (level_pool b); cbn in *; by apply sim_set_bids.
  - destruct (same_get (s:=Sell) (asks b) (asks c) t (sim_asks _ _ H) Ht) as [Hg Hc]. rewrite <- Hc.
    destruct (li_contains (asks b) t) eqn:Ec.
    + destruct (same_get_mut (s:=Sell) (asks b) (asks c) t f (sim_asks _ _ H) Ht); [by apply sim_set_asks|done].
    + destruct (same_step (s:=Sell) (asks b) (asks c) (OpEntry t (take_level b).1 f) (sim_asks _ _ H) Ht) as [_ Hs].
      cbn [index_step] in Hs. rewrite <- Hc, Ec in Hs. cbn [snd] in Hs. rewrite Hl in Hs at 2.
      unfold take_level in *. rewrite <- (sim_pool _ _ H) in *. destruct (level_pool b); cbn in *; by apply sim_set_asks.
Qed.

Lemma sim_note_insert b c s t : sim b c → in_i64 t → sim (note_insert b s t) (note_insert c s t).
Proof.
  intros H Ht. unfold note_insert. destruct s.
  - rewrite (sim_bid _ _ H). destruct (match best_bid_tick c with Some x => _ | None => _ end); [|done].
    by apply (sim_set_best b c Buy (Some t)).
  - rewrite (sim_ask _ _ H). destruct (match best_ask_tick c with Some x => _ | None => _ end); [|done].
    by apply (sim_set_best b c Sell (Some t)).
Qed.

Lemma sim_note_remove b c s t : sim b c → sim (note_remove_level b s t) (note_remove_level c s t).
Proof.
  intros H. unfold note_remove_level. destruct s.
  - rewrite (sim_bid _ _ H). case_decide; [|done].
    destruct (same_best (s:=Buy) _ _ (sim_bids _ _ H)) as [He Hi]. rewrite <- He. by apply (sim_set_best b c Buy).
  - rewrite (sim_ask _ _ H). case_decide; [|done].
    destruct (same_best (s:=Sell) _ _ (sim_asks _ _ H)) as [He Hi]. rewrite <- He. by apply (sim_set_best b c Sell).
Qed.

Lemma sim_recycle_removed b c r : sim b c → sim (recycle_removed r b) (recycle_removed r c).
Proof.
  intros H. destruct r as [l|]; [|done]. cbn. unfold recycle_level. rewrite (sim_pool _ _ H).
  destruct (_ <? _)%nat; [|done]. by apply sim_set_pool.
Qed.

Lemma sim_remove_empty b c s t : sim b c → in_i64 t → sim (remove_empty_level b s t) (remove_empty_level c s t).
Proof.
  intros H Ht. unfold remove_empty_level. destruct s.
  - destruct (same_step (s:=Buy) _ _ (OpRemove t) (sim_bids _ _ H) Ht) as [Hr Hs]. cbn [index_step] in *.
    destruct (li_remove (bids b) t) as [r i], (li_remove (bids c) t) as [r' j]. cbn [fst snd] in *. subst r'.
    by apply sim_note_remove, sim_recycle_removed, sim_set_bids.
  - destruct (same_step (s:=Sell) _ _ (OpRemove t) (sim_asks _ _ H) Ht) as [Hr Hs]. cbn [index_step] in *.
    destruct (li_remove (asks b) t) as [r i], (li_remove (asks c) t) as [r' j]. cbn [fst snd] in *. subst r'.
    by apply sim_note_remove, sim_recycle_removed, sim_set_asks.
Qed.

Lemma sim_level_mut_for_remove b c s t f :
  sim b c → in_i64 t → option_Forall2 sim (level_mut_for_remove b s t f) (level_mut_for_remove c s t f).
Proof.
  intros H Ht. unfold level_mut_for_remove. destruct s.
  - destruct (same_get_mut (s:=Buy) _ _ t f (sim_bids _ _ H) Ht); constructor. by apply sim_set_bids.
  - destruct (same_get_mut (s:=Sell) _ _ t f (sim_asks _ _ H) Ht); constructor. by apply sim_set_asks.
Qed.

(** An emptied level is removed, in both. *)
Lemma sim_drop_if_empty b c s t :
  sim b c → in_i64 t →
  sim (if level_empty b s t then remove_empty_level b s t else b)
      (if level_empty c s t then remove_empty_level c s t else c).
Proof. intros H Ht. rewrite (sim_level_empty b c) by done. destruct (level_empty c s t); [by apply sim_remove_empty|done]. Qed.

Lemma sim_cancel b c i :
  sim b c → (cancel b i).1 = (cancel c i).1 ∧ sim (cancel b i).2 (cancel c i).2.
Proof.
  intros H. unfold cancel. rewrite (sim_store _ _ H). pose proof (ticks_remove (store c) i) as Htr.
  destruct (store_remove (store c) i) as [[o|] st] eqn:Er; [|done].
  assert (Hto : ticks_ok (store c)) by (rewrite <- (sim_store _ _ H); apply H).
  assert (Ho : in_i64 (price_tick o)).
  { unfold store_remove in Er. destruct (slot_index i); [|done]. destruct (store_get (store c) i) eqn:Hg; [|done].
    simplify_eq. by eapply ticks_get. }
  split; [done|]. cbn [snd]. unfold remove_from_level.
  assert (Hs : sim (set_store st b) (set_store st c)) by (apply sim_set_store; [done|by apply Htr]).
  destruct (sim_level_mut_for_remove _ _ (side o) (price_tick o)
    (λ l, mkLevel (debit (open_lot o) (total_lot l)) (retain_not i (ids l))) Hs Ho); [|done].
  by apply sim_drop_if_empty.
Qed.

Lemma sim_rest b c i : sim b c → option_Forall2 sim (rest b i) (rest c i).
Proof.
  intros H. unfold rest. rewrite (sim_store _ _ H). destruct (store_get (store c) i) as [o|] eqn:Hg; cbn; constructor.
  assert (Ho : in_i64 (price_tick o)) by (eapply ticks_get; [|exact Hg]; rewrite <- (sim_store _ _ H); apply H).
  by apply sim_note_insert; [apply sim_level_mut|].
Qed.

Lemma sim_fill b c i q :
  sim b c → (fill_order b i q).1 = (fill_order c i q).1 ∧ sim (fill_order b i q).2 (fill_order c i q).2.
Proof.
  intros H. unfold fill_order. rewrite (sim_store _ _ H). destruct (store_get (store c) i) as [o|] eqn:Hg; [|done].
  assert (Hto : ticks_ok (store c)) by (rewrite <- (sim_store _ _ H); apply H).
  assert (Ho : in_i64 (price_tick o)) by (by eapply ticks_get).
  set (st := store_update _ _ _).
  assert (Hs : sim (set_store st b) (set_store st c)) by (apply sim_set_store; [done|by apply ticks_update]).
  destruct (sim_level_mut_for_remove _ _ (side o) (price_tick o)
    (fill_level i q (open_lot o -ᵢ q)%rust) Hs Ho) as [b1 c1 H1|].
  - destruct (_ <=? 0); [|cbn [fst snd]; by rewrite (sim_store _ _ H1)].
    pose proof (sim_drop_if_empty b1 c1 (side o) (price_tick o) H1 Ho) as H2. cbn zeta. cbn [fst snd].
    split; [done|]. rewrite (sim_store _ _ H2). apply sim_set_store; [done|]. apply ticks_remove.
    rewrite <- (sim_store _ _ H2). apply H2.
  - destruct (_ <=? 0); cbn [fst snd set_store store]; [|done]. split; [done|].
    apply (sim_set_store (set_store st b) (set_store st c)); [done|]. by apply ticks_remove, ticks_update.
Qed.

(** ** The engine *)

Record sim_engine (e : HpEngine BI AI) (d : HpEngine BJ AJ) : Prop := {
  sim_book : sim (book e) (book d); sim_clients : client_to_id e = client_to_id d }.

Record sim_matching (x : Matching BI AI) (y : Matching BJ AJ) : Prop := {
  sim_m_book : sim (m_book x) (m_book y); sim_m_clients : m_clients x = m_clients y;
  sim_m_events : m_events x = m_events y; sim_m_open : m_open x = m_open y }.

(** Same events, and the engines still agree. *)
Definition sim_result (r : option (list HpEvent * HpEngine BI AI)) (r' : option (list HpEvent * HpEngine BJ AJ)) : Prop :=
  option_Forall2 (λ x y, x.1 = y.1 ∧ sim_engine x.2 y.2) r r'.

Lemma sim_take_maker x y tk tc t i mo mc :
  sim_matching x y → sim_matching (take_maker x tk tc t i mo mc) (take_maker y tk tc t i mo mc).
Proof.
  intros [Hb Hc He Ho]. unfold take_maker. rewrite Ho.
  destruct (sim_fill _ _ i (Z.min mo (m_open y)) Hb) as [Hr Hs].
  destruct (fill_order (m_book x) i _) as [r b], (fill_order (m_book y) i _) as [r' c]. cbn [fst snd] in *. subst r'.
  constructor; cbn; [done|by rewrite Hc|by rewrite He|done].
Qed.

Lemma sim_loop s fuel : ∀ x y tk tc limit mx fc,
  sim_matching x y →
  option_Forall2 sim_matching (match_loop s fuel x tk tc limit mx fc) (match_loop s fuel y tk tc limit mx fc).
Proof.
  induction fuel as [|fuel IH]; intros x y tk tc limit mx fc H; [destruct s; constructor|].
  rewrite !match_loop_eq. pose proof H as [Hb Hc He Ho]. rewrite <- Ho.
  destruct (gear_reached mx fc); [by constructor|]. destruct (m_open x <=? 0); [by constructor|].
  destruct (sim_best _ _ (opposite s) Hb) as [Hbest Hin]. rewrite <- Hbest.
  destruct (best (m_book x) (opposite s)) as [t|]; [|by constructor]. cbn in Hin.
  destruct (beyond s limit t); [by constructor|].
  unfold front_id. rewrite (sim_level _ _ (opposite s) t Hb Hin).
  destruct (level (m_book y) (opposite s) t ≫= _) as [i|]; [|by constructor].
  rewrite (sim_store _ _ Hb). destruct (maker_open_and_client (store (m_book y)) i) as [[mo mc]|]; [|by constructor].
  apply IH. by apply sim_take_maker.
Qed.

Lemma sim_match s e d tk tc limit mx :
  sim_engine e d →
  sim_result (match s with Buy => match_buy e tk tc limit mx | Sell => match_sell e tk tc limit mx end)
             (match s with Buy => match_buy d tk tc limit mx | Sell => match_sell d tk tc limit mx end).
Proof.
  intros [Hb Hc].
  assert (Hside : sim_result (match_side (match_loop s) e tk tc limit mx) (match_side (match_loop s) d tk tc limit mx)).
  { unfold match_side, match_fuel. rewrite (sim_store _ _ Hb), Hc.
    destruct (sim_loop s (S (Z.to_nat (live_len (store (book d))))) (mkMatching (book e) (client_to_id d) [] (remaining_open (store (book d)) tk))
      (mkMatching (book d) (client_to_id d) [] (remaining_open (store (book d)) tk)) tk tc limit mx 0) as [x y [Hb' Hc' He' Ho']|];
      [by constructor| |constructor].
    cbn [mbind option_bind]. constructor. cbn [fst snd]. split; [done|]. constructor; cbn; [|done].
    rewrite <- (sim_store _ _ Hb'), Ho'. apply sim_set_store; [done|]. apply ticks_update; [apply Hb'|done]. }
  by destruct s.
Qed.

Lemma sim_taker_in e d o i st :
  sim_engine e d → in_i64 (price_tick o) → store_insert (store (book d)) o = (i, st) →
  sim_engine (set_book (set_store st (book e)) e) (set_book (set_store st (book d)) d).
Proof.
  intros [Hb Hc] Ht Hi. constructor; cbn; [|done]. apply sim_set_store; [done|].
  eapply ticks_insert; [|exact Ht|exact Hi]. rewrite <- (sim_store _ _ Hb). apply Hb.
Qed.

Lemma sim_taker_out e d i :
  sim_engine e d →
  sim_engine (set_book (set_store (store_remove (store (book e)) i).2 (book e)) e)
             (set_book (set_store (store_remove (store (book d)) i).2 (book d)) d).
Proof.
  intros [Hb Hc]. constructor; cbn; [|done]. rewrite <- (sim_store _ _ Hb). apply sim_set_store; [done|].
  apply ticks_remove, Hb.
Qed.

Lemma sim_on_limit e d s p q ts (c : Z) :
  sim_engine e d → in_i64 p → sim_result (on_limit e s p q ts c) (on_limit d s p q ts c).
Proof.
  intros H Hp. unfold on_limit. destruct (q <=? 0); [by constructor|]. pose proof H as [Hb Hc].
  rewrite (sim_store _ _ Hb). destruct (store_insert (store (book d)) _) as [i st] eqn:Hi.
  pose proof (sim_taker_in e d (mkHpOrder 0 s p q q ts c) i st H Hp Hi) as H1.
  destruct (sim_match s _ _ i c (Some p) None H1) as [[ev e1] [ev' d1] [Hev H2]|]; [|constructor].
  cbn [fst snd mbind option_bind] in *. subst ev'. rewrite (sim_store _ _ (sim_book _ _ H2)).
  destruct (_ >? 0).
  - destruct (sim_rest _ _ i (sim_book _ _ H2)) as [b1 c1 Hr|]; [|constructor]. cbn [mbind option_bind]. constructor. split; [done|].
    constructor; cbn; [done|]. by rewrite (sim_clients _ _ H2).
  - constructor. split; [done|]. pose proof (sim_taker_out e1 d1 i H2) as Hout.
    by rewrite (sim_store _ _ (sim_book _ _ H2)) in Hout.
Qed.

Lemma sim_on_market e d s q ts mx (c : Z) :
  sim_engine e d → sim_result (on_market e s q ts mx c) (on_market d s q ts mx c).
Proof.
  intros H. unfold on_market. destruct (q <=? 0); [by constructor|]. pose proof H as [Hb Hc].
  rewrite (sim_store _ _ Hb). destruct (store_insert (store (book d)) _) as [i st] eqn:Hi.
  assert (H0 : in_i64 0) by (unfold in_i64; lia).
  pose proof (sim_taker_in e d (mkHpOrder 0 s 0 q q ts c) i st H H0 Hi) as H1.
  destruct (sim_match s _ _ i c None mx H1) as [[ev e1] [ev' d1] [Hev H2]|]; [|constructor].
  cbn [fst snd mbind option_bind] in *. subst ev'. constructor. pose proof (sim_taker_out e1 d1 i H2) as Hout.
  rewrite (sim_store _ _ (sim_book _ _ H2)) in *. by split.
Qed.

Lemma sim_cancel_all cid il : ∀ b c, sim b c →
  (cancel_all cid il b).1 = (cancel_all cid il c).1 ∧ sim (cancel_all cid il b).2 (cancel_all cid il c).2.
Proof.
  induction il as [|i il IH]; intros b c H; [done|]. cbn [cancel_all].
  destruct (sim_cancel b c i H) as [Hr Hs]. destruct (cancel b i) as [r b1], (cancel c i) as [r' c1].
  cbn [fst snd] in *. subst r'. destruct (IH b1 c1 Hs) as [Hev Hs']. destruct r; [|done].
  destruct (cancel_all cid il b1), (cancel_all cid il c1). cbn [fst snd] in *. by subst.
Qed.

Lemma sim_on_cancel e d i :
  sim_engine e d → (on_cancel e i).1 = (on_cancel d i).1 ∧ sim_engine (on_cancel e i).2 (on_cancel d i).2.
Proof.
  intros H. pose proof H as [Hb Hc]. unfold on_cancel. rewrite (sim_store _ _ Hb), Hc.
  destruct (store_get (store (book d)) i) as [o|].
  - destruct (sim_cancel _ _ i Hb) as [Hr Hs]. destruct (cancel (book e) i) as [r b1], (cancel (book d) i) as [r' c1].
    cbn [fst snd] in *. subst r'. destruct r; (split; [done|]); by constructor.
  - destruct (client_to_id d !! i) as [il|]; [|done]. destruct (sim_cancel_all i il _ _ Hb) as [Hev Hs].
    destruct (cancel_all i il (book e)), (cancel_all i il (book d)). cbn [fst snd] in *. subst. split; [done|by constructor].
Qed.

Lemma sim_run (l : list HpCommand) : ∀ e d,
  sim_engine e d → Forall wf_command l → sim_result (hp_run e l) (hp_run d l).
Proof.
  induction l as [|cmd l IH]; intros e d H Hwf; [by constructor|]. apply Forall_cons in Hwf as [Hc Hwf]. cbn [hp_run].
  assert (Hstep : sim_result (hp_on_order e cmd) (hp_on_order d cmd)).
  { destruct cmd as [s p q ts c|i|s q ts mx c]; cbn [hp_on_order].
    - apply sim_on_limit; [done|]. apply Hc.
    - constructor. by apply sim_on_cancel.
    - by apply sim_on_market. }
  destruct Hstep as [[ev e1] [ev' d1] [Hev H1]|]; [|constructor]. cbn [fst snd mbind option_bind] in *. subst ev'.
  destruct (IH e1 d1 H1 Hwf) as [[ev2 e2] [ev2' d2] [Hev H2]|]; [|constructor]. cbn [fst snd mbind option_bind] in *.
  subst ev2'. by constructor.
Qed.

Lemma sim_new : sim_engine hp_engine_new hp_engine_new.
Proof. constructor; [|done]. constructor; try done; cbn; [apply (same_default (s:=Buy))|apply (same_default (s:=Sell))|constructor]. Qed.

Lemma sim_depth e d s n : sim_engine e d → hp_depth (book e) s n = hp_depth (book d) s n.
Proof.
  intros [Hb _]. assert (H0 : in_i64 0) by (unfold in_i64; lia). destruct s; cbn.
  - pose proof (same_view (s:=Buy) _ _ 0 n (sim_bids _ _ Hb) H0) as Hv. unfold index_view in Hv. by simplify_eq.
  - pose proof (same_view (s:=Sell) _ _ 0 n (sim_asks _ _ Hb) H0) as Hv. unfold index_view in Hv. by simplify_eq.
Qed.
End Sim.

(** C15.  The feature [art] is invisible: on every stream of well-formed commands
    the engine over the radix tree and the engine over the B-trees both finish,
    emit exactly the same events, and end with the same order store, client
    index and depth on both sides; the radix-tree engine keeps its invariant. *)
Theorem hp_art_same_behaviour l :
  Forall wf_command l →
  ∃ evs (e : HpEngine ArtBidIndex ArtAskIndex) (d : HpEngine BTreeBidIndex BTreeAskIndex),
    hp_run hp_engine_new l = Some (evs, e) ∧ hp_run hp_engine_new l = Some (evs, d) ∧ engine_ok e
    ∧ store (book e) = store (book d) ∧ client_to_id e = client_to_id d
    ∧ ∀ s n, hp_depth (book e) s n = hp_depth (book d) s n.
Proof.
  intros Hwf. destruct (hp_run_ok (hp_engine_new : HpEngine ArtBidIndex ArtAskIndex) l hp_engine_new_ok Hwf)
    as (evs & e & Hr & He).
  pose proof (sim_run (BJ:=BTreeBidIndex) (AJ:=BTreeAskIndex) l _ _ sim_new Hwf) as Hs.
  rewrite Hr in Hs. inversion Hs as [x [evs' d] [Hev Hsim] Hx Hd|]; subst. cbn [fst snd] in *. subst evs'.
  exists evs, e, d. split_and!; [done|by symmetry|done|apply Hsim|apply Hsim|].
  intros s n. by apply sim_depth.
Qed.

Module Witness.
Lemma hp_art_same_behaviour_witness :
  ∃ evs (e : HpEngine ArtBidIndex ArtAskIndex) (d : HpEngine BTreeBidIndex BTreeAskIndex),
    hp_run hp_engine_new [Limit Sell 100 5 1 7; Limit Sell (-2) 4 2 7; Limit Buy 101 8 3 8; Market Sell 2 4 None 9]
      = Some (evs, e)
    ∧ hp_depth (book e) Sell 3 = hp_depth (book d) Sell 3.
Proof.
  destruct (hp_art_same_behaviour
    [Limit Sell 100 5 1 7; Limit Sell (-2) 4 2 7; Limit Buy 101 8 3 8; Market Sell 2 4 None 9])
    as (evs & e & d & Hr & _ & _ & _ & _ & Hd).
  - repeat constructor; unfold in_i64; try lia; discriminate.
  - exists evs, e, d. split; [exact Hr|apply Hd].
Defined.
End Witness.
