(* ===== verification/HpScale.v ===== *)
(** * match-core-hp: decimal strings and scaled integers

    Models [crates/match-core-hp/src/scale.rs].  A [&str] is the list of its
    characters, for ASCII text ([trim] also strips other Unicode white space). *)
From stdpp Require Import list strings.
From Stdlib Require Import Ascii.
From S2P Require Import Prelude.

#[local] Open Scope Z_scope.

Inductive ScaleError := Empty | Invalid | ExcessFractionalDigits | Overflow.

Record SymbolScale := mkScale { price_scale : Z; qty_scale : Z }.

(** ** Characters *)

Definition code (c : ascii) : Z := Z.of_N (N_of_ascii c).
Definition chr (n : Z) : ascii := ascii_of_N (Z.to_N n).

Definition is_ascii_digit (c : ascii) : bool := (48 <=? code c) && (code c <=? 57).
Definition is_whitespace (c : ascii) : bool := ((9 <=? code c) && (code c <=? 13)) || (code c =? 32).

Definition digit_char (d : Z) : ascii := chr (48 + d).
Definition digit_value (c : ascii) : Z := code c - 48.

Definition ZERO : ascii := "0"%char.
Definition DOT : ascii := "."%char.
Definition MINUS : ascii := "-"%char.
Definition PLUS : ascii := "+"%char.

Fixpoint trim_start (p : ascii → bool) (s : list ascii) : list ascii :=
  match s with c :: s' => if p c then trim_start p s' else s | [] => [] end.

Definition trim (s : list ascii) : list ascii := rev (trim_start is_whitespace (rev (trim_start is_whitespace s))).

(** [split_once('.')] *)
Fixpoint split_once (c : ascii) (s : list ascii) : option (list ascii * list ascii) :=
  match s with
  | [] => None
  | x :: s => if Ascii.eqb x c then Some ([], s)
              else match split_once c s with Some (a, b) => Some (x :: a, b) | None => None end
  end.

(** [str::parse::<i64>] on digits: each step is checked. *)
Fixpoint parse_i64 (acc : Z) (s : list ascii) : option Z :=
  match s with
  | [] => Some acc
  | c :: s => let v := acc * 10 + digit_value c in if v <=? i64_max then parse_i64 v s else None
  end.

Definition ascii_digits_or_nonempty_int (int_part : list ascii) : bool :=
  negb (match int_part with [] => true | _ => false end) && forallb is_ascii_digit int_part.

(** ** [parse_fixed] *)
Definition parse_fixed (s : list ascii) (scale : Z) : ScaleError + Z :=
  let s := trim s in
  match s with
  | [] => inl Empty
  | c :: rest =>
      let '(neg, body) := if Ascii.eqb c MINUS then (true, rest)
                          else if Ascii.eqb c PLUS then (false, rest) else (false, s) in
      match body with
      | [] => inl Invalid
      | _ =>
          let '(int_part, frac_part) := match split_once DOT body with Some p => p | None => (body, []) end in
          if negb (ascii_digits_or_nonempty_int int_part) then inl Invalid
          else if negb (forallb is_ascii_digit frac_part) then inl Invalid
          else if Z.of_nat (length frac_part) >? scale then inl ExcessFractionalDigits
          else
            let digits := int_part ++ frac_part ++ replicate (Z.to_nat scale - length frac_part) ZERO in
            let trimmed := trim_start (λ c, Ascii.eqb c ZERO) digits in
            let digits := match trimmed with [] => [ZERO] | _ => trimmed end in
            match parse_i64 0 digits with
            | None => inl Overflow
            | Some value =>
                if neg : bool then if value =? - 2 ^ 63 then inl Overflow else inr (- value) else inr value
            end
      end
  end.

Definition to_tick (scale : SymbolScale) (s : list ascii) : ScaleError + Z := parse_fixed s (price_scale scale).
Definition to_lot (scale : SymbolScale) (s : list ascii) : ScaleError + Z := parse_fixed s (qty_scale scale).

(** ** [format_fixed] *)

(** [u64::to_string]: at most 20 digits. *)
Fixpoint u64_digits (fuel : nat) (n : Z) (acc : list ascii) : list ascii :=
  match fuel with
  | O => acc
  | S fuel => let acc := digit_char (n mod 10) :: acc in if n <? 10 then acc else u64_digits fuel (n / 10) acc
  end.

Definition u64_to_string (n : Z) : list ascii := u64_digits 20 n [].

Definition i64_to_string (v : Z) : list ascii :=
  if v <? 0 then MINUS :: u64_to_string (Z.abs v) else u64_to_string v.

(** [format!("{:0width$}")] *)
Definition zero_padded (width : Z) (n : Z) : list ascii :=
  let s := u64_to_string n in replicate (Z.to_nat width - length s) ZERO ++ s.

Definition format_fixed (value scale : Z) : list ascii :=
  if scale =? 0 then i64_to_string value
  else
    let scale := Z.min scale 19 in
    let neg := value <? 0 in
    let abs := Z.abs value in
    let factor := 10 ^ scale in
    let int_part := abs / factor in
    let frac_part := abs mod factor in
    let frac := zero_padded scale frac_part in
    if neg then [MINUS] ++ u64_to_string int_part ++ [DOT] ++ frac
    else u64_to_string int_part ++ [DOT] ++ frac.

Definition from_tick (scale : SymbolScale) (tick : Z) : list ascii := format_fixed tick (price_scale scale).
Definition from_lot (scale : SymbolScale) (lot : Z) : list ascii := format_fixed lot (qty_scale scale).

(** ** Digit strings *)

(** The number a string of digits denotes. *)
Definition num (s : list ascii) : Z := fold_left (λ acc c, acc * 10 + digit_value c) s 0.

Definition all_digits (s : list ascii) : Prop := Forall (λ c, is_ascii_digit c = true) s.

Lemma digit_facts c : is_ascii_digit c = true → 0 <= digit_value c < 10.
Proof. unfold is_ascii_digit, digit_value. rewrite andb_true_iff, !Z.leb_le. lia. Qed.

Lemma code_chr n : 0 <= n < 256 → code (chr n) = n.
Proof. intros Hn. unfold code, chr. rewrite N_ascii_embedding by lia. lia. Qed.

Lemma digit_char_ok d : 0 <= d < 10 → is_ascii_digit (digit_char d) = true ∧ digit_value (digit_char d) = d.
Proof.
  intros Hd. unfold is_ascii_digit, digit_value, digit_char. rewrite code_chr by lia.
  rewrite andb_true_iff, !Z.leb_le. lia.
Qed.

Lemma num_acc s : ∀ acc, fold_left (λ acc c, acc * 10 + digit_value c) s acc = acc * 10 ^ Z.of_nat (length s) + num s.
Proof.
  unfold num. induction s as [|c s IH]; intros acc; [cbn; lia|]. cbn [fold_left length].
  rewrite IH, (IH (0 * 10 + _)), Nat2Z.inj_succ, Z.pow_succ_r by lia. lia.
Qed.

Lemma num_app a b : num (a ++ b) = num a * 10 ^ Z.of_nat (length b) + num b.
Proof. unfold num at 1. rewrite fold_left_app. apply num_acc. Qed.

Lemma num_cons c s : num (c :: s) = digit_value c * 10 ^ Z.of_nat (length s) + num s.
Proof. unfold num at 1. cbn [fold_left]. by rewrite num_acc. Qed.

Lemma num_zeros k : num (replicate k ZERO) = 0.
Proof. induction k as [|k IH]; [done|]. cbn [replicate]. rewrite num_cons, IH. unfold digit_value, code, ZERO. cbn. lia. Qed.

Lemma num_nonneg s : all_digits s → 0 <= num s.
Proof.
  induction 1 as [|c s Hc _ IH]; [done|]. rewrite num_cons. pose proof (digit_facts c Hc).
  assert (0 <= 10 ^ Z.of_nat (length s)) by (apply Z.pow_nonneg; lia). nia.
Qed.

Lemma num_bound s : all_digits s → num s < 10 ^ Z.of_nat (length s).
Proof.
  induction 1 as [|c s Hc _ IH]; [done|]. rewrite num_cons. pose proof (digit_facts c Hc). cbn [length].
  rewrite Nat2Z.inj_succ, Z.pow_succ_r by lia. assert (0 < 10 ^ Z.of_nat (length s)) by (apply Z.pow_pos_nonneg; lia). nia.
Qed.

Lemma num_trim s : num (trim_start (λ c, Ascii.eqb c ZERO) s) = num s.
Proof.
  induction s as [|c s IH]; [done|]. cbn [trim_start]. destruct (Ascii.eqb_spec c ZERO) as [->|]; [|done].
  rewrite IH, num_cons. unfold digit_value, code, ZERO. cbn. lia.
Qed.

Lemma trim_digits p s : all_digits s → all_digits (trim_start p s).
Proof. induction 1 as [|c s Hc Hs IH]; [constructor|]. cbn. destruct (p c); [done|by constructor]. Qed.

(** The checked parser computes the number, or fails exactly when it does not fit. *)
Lemma parse_i64_spec s : ∀ acc,
  0 <= acc <= i64_max → all_digits s →
  parse_i64 acc s = let v := acc * 10 ^ Z.of_nat (length s) + num s in if v <=? i64_max then Some v else None.
Proof.
  induction s as [|c s IH]; intros acc Ha Hs; cbn [parse_i64].
  { cbn. rewrite Z.mul_1_r, Z.add_0_r. by rewrite (proj2 (Z.leb_le _ _)) by lia. }
  apply Forall_cons in Hs as [Hc Hs]. pose proof (digit_facts c Hc) as Hd.
  assert (Hv : acc * 10 ^ Z.of_nat (length (c :: s)) + num (c :: s)
    = (acc * 10 + digit_value c) * 10 ^ Z.of_nat (length s) + num s).
  { rewrite num_cons. cbn [length]. rewrite Nat2Z.inj_succ, Z.pow_succ_r by lia. lia. }
  cbv zeta. rewrite Hv. destruct (Z.leb_spec (acc * 10 + digit_value c) i64_max) as [Hle|Hgt].
  - by rewrite IH by (done || lia).
  - rewrite (proj2 (Z.leb_gt _ _)); [done|]. pose proof (num_nonneg s Hs).
    assert (1 <= 10 ^ Z.of_nat (length s)) by (pose proof (Z.pow_pos_nonneg 10 (Z.of_nat (length s))); lia). nia.
Qed.

(** ** Well-formed decimal strings *)

Inductive Sign := NoSign | PlusSign | MinusSign.

Definition sign_chars (g : Sign) : list ascii :=
  match g with NoSign => [] | PlusSign => [PLUS] | MinusSign => [MINUS] end.
Definition signed (g : Sign) (v : Z) : Z := match g with MinusSign => - v | _ => v end.

(** The point and what follows it; [None] when there is no point. *)
Definition point_chars (f : option (list ascii)) : list ascii := match f with Some f => DOT :: f | None => [] end.
Definition frac (f : option (list ascii)) : list ascii := default [] f.

Definition spaces (s : list ascii) : Prop := Forall (λ c, is_whitespace c = true) s.

Lemma trim_start_app p w s : Forall (λ c, p c = true) w → trim_start p (w ++ s) = trim_start p s.
Proof. induction 1 as [|c w Hc _ IH]; [done|]. cbn. by rewrite Hc. Qed.

Lemma trim_start_id p (c : ascii) s : p c = false → trim_start p (c :: s) = c :: s.
Proof. intros Hc. cbn. by rewrite Hc. Qed.

Lemma trim_core w1 core w2 :
  spaces w1 → spaces w2 → Forall (λ c, is_whitespace c = false) core → core ≠ [] → trim (w1 ++ core ++ w2) = core.
Proof.
  intros H1 H2 Hc Hne. unfold trim. rewrite trim_start_app by done.
  destruct core as [|c core]; [done|]. pose proof Hc as [Hcc _]%Forall_cons.
  cbn [app]. rewrite trim_start_id by done. change (c :: core ++ w2) with ((c :: core) ++ w2).
  rewrite rev_app_distr, trim_start_app.
  2: { apply Forall_forall. intros x Hx. apply list_elem_of_In, in_rev, list_elem_of_In in Hx.
       by eapply Forall_forall in H2. }
  assert (Hr : Forall (λ c, is_whitespace c = false) (rev (c :: core))).
  { apply Forall_forall. intros x Hx. apply list_elem_of_In, in_rev, list_elem_of_In in Hx.
    by eapply Forall_forall in Hc. }
  destruct (rev (c :: core)) as [|y l] eqn:E; [apply (f_equal (@rev ascii)) in E; rewrite rev_involutive in E; done|].
  apply Forall_cons in Hr as [Hy _]. rewrite trim_start_id by done. by rewrite <- E, rev_involutive.
Qed.

Lemma digit_not_char c x : is_ascii_digit c = true → is_ascii_digit x = false → Ascii.eqb c x = false.
Proof. intros Hc Hx. destruct (Ascii.eqb_spec c x) as [->|]; congruence. Qed.

Lemma digit_not_space c : is_ascii_digit c = true → is_whitespace c = false.
Proof.
  unfold is_ascii_digit, is_whitespace. rewrite andb_true_iff, !Z.leb_le. intros Hc.
  rewrite orb_false_iff, andb_false_iff, !Z.leb_gt, Z.eqb_neq. lia.
Qed.

Lemma split_once_digits I : all_digits I → split_once DOT I = None.
Proof. induction 1 as [|c I Hc _ IH]; [done|]. cbn. by rewrite (digit_not_char c DOT), IH. Qed.

Lemma split_once_point I F : all_digits I → split_once DOT (I ++ DOT :: F) = Some (I, F).
Proof. induction 1 as [|c I Hc _ IH]; [done|]. cbn. by rewrite (digit_not_char c DOT), IH. Qed.

Lemma all_digits_forallb s : all_digits s → forallb is_ascii_digit s = true.
Proof. intros Hs. apply forallb_forall. intros x Hx%list_elem_of_In. by eapply Forall_forall in Hs. Qed.

Lemma all_digits_zeros k : all_digits (replicate k ZERO).
Proof. by apply Forall_replicate. Qed.

(** The last step of [parse_fixed]: leading zeros do not matter. *)
Lemma parse_digits D :
  all_digits D →
  parse_i64 0 (match trim_start (λ c, Ascii.eqb c ZERO) D with
               | [] => [ZERO] | _ => trim_start (λ c, Ascii.eqb c ZERO) D end)
  = if num D <=? i64_max then Some (num D) else None.
Proof.
  intros HD. rewrite <- num_trim. pose proof (trim_digits (λ c, Ascii.eqb c ZERO) D HD) as Ht.
  destruct (trim_start _ D) as [|c t]; [done|]. rewrite parse_i64_spec by (done || (unfold i64_max; lia)).
  cbv zeta. by rewrite Z.mul_0_l, Z.add_0_l.
Qed.

Lemma split_point I f :
  all_digits I →
  match split_once DOT (I ++ point_chars f) with Some p => p | None => (I ++ point_chars f, []) end = (I, frac f).
Proof.
  intros HI. destruct f as [F|]; cbn [point_chars frac default].
  - by rewrite split_once_point.
  - rewrite app_nil_r. by rewrite split_once_digits.
Qed.

(** After the sign: the number, or an overflow. *)
Definition parsed (g : Sign) (v : Z) : ScaleError + Z := if v <=? i64_max then inr (signed g v) else inl Overflow.

Lemma parse_fixed_spec w1 g I f w2 scale :
  spaces w1 → spaces w2 → all_digits I → I ≠ [] → all_digits (frac f) → 0 <= scale →
  parse_fixed (w1 ++ (sign_chars g ++ I ++ point_chars f) ++ w2) scale
  = if Z.of_nat (length (frac f)) >? scale then inl ExcessFractionalDigits
    else parsed g (num (I ++ frac f) * 10 ^ (scale - Z.of_nat (length (frac f)))).
Proof.
  intros H1 H2 HI Hne HF Hs. unfold parse_fixed. rewrite trim_core; [|done|done| |by destruct g, I].
  2: { apply Forall_app. split; [by destruct g; repeat constructor|]. apply Forall_app. split.
       - eapply Forall_impl; [exact HI|]. intros c. apply digit_not_space.
       - destruct f as [F|]; [|constructor]. constructor; [done|]. eapply Forall_impl; [exact HF|]. intros c. apply digit_not_space. }
  assert (Hsg : ∃ c rest, sign_chars g ++ I ++ point_chars f = c :: rest
    ∧ (if Ascii.eqb c MINUS then (true, rest) else if Ascii.eqb c PLUS then (false, rest) else (false, c :: rest))
      = (match g with MinusSign => true | _ => false end, I ++ point_chars f)).
  { destruct g; cbn [sign_chars app]; [|by eexists _, _|by eexists _, _].
    destruct I as [|c I]; [done|]. apply Forall_cons in HI as [Hc _]. eexists c, _. split; [reflexivity|].
    by rewrite (digit_not_char c MINUS), (digit_not_char c PLUS). }
  destruct Hsg as (c & rest & -> & ->).
  assert (Hb : ∃ x l, I ++ point_chars f = x :: l) by (destruct I as [|x I]; [done|]; by eexists _, _).
  destruct Hb as (x & l & Hb). rewrite Hb. cbv iota. rewrite <- Hb, split_point by done. cbv iota zeta.
  assert (Hint : ascii_digits_or_nonempty_int I = true).
  { unfold ascii_digits_or_nonempty_int. rewrite all_digits_forallb by done. by destruct I. }
  rewrite Hint, (all_digits_forallb (frac f)) by done. cbn [negb].
  destruct (Z.of_nat (length (frac f)) >? scale) eqn:Hex; [done|]. rewrite Z.gtb_ltb, Z.ltb_ge in Hex.
  rewrite parse_digits.
  2: { apply Forall_app. split; [done|]. apply Forall_app. split; [done|apply all_digits_zeros]. }
  rewrite app_assoc, (num_app (I ++ frac f)), num_zeros, Z.add_0_r, length_replicate.
  replace (Z.of_nat (Z.to_nat scale - length (frac f))) with (scale - Z.of_nat (length (frac f))) by lia.
  set (v := num (I ++ frac f) * 10 ^ (scale - Z.of_nat (length (frac f)))). unfold parsed.
  assert (Hv : 0 <= v).
  { apply Z.mul_nonneg_nonneg; [apply num_nonneg, Forall_app; done|apply Z.pow_nonneg; lia]. }
  destruct (v <=? i64_max); [|done]. destruct g; cbn [signed]; try done.
  destruct (Z.eqb_spec v (- 2 ^ 63)); [lia|done].
Qed.

(** ** Formatting *)

Lemma u64_digits_spec fuel : ∀ n acc,
  0 <= n < 10 ^ Z.of_nat fuel → all_digits acc →
  ∃ s, u64_digits fuel n acc = s ++ acc ∧ all_digits s ∧ num s = n
    ∧ (0 < fuel → s ≠ [])%nat ∧ (∀ k, n < 10 ^ k → 1 <= k → Z.of_nat (length s) <= k).
Proof.
  induction fuel as [|fuel IH]; intros n acc Hn Ha.
  { exists []. split_and!; [done|constructor|cbn in *; lia|lia|cbn; lia]. }
  cbn [u64_digits]. pose proof (Z.mod_pos_bound n 10 ltac:(lia)) as Hm.
  destruct (digit_char_ok (n mod 10) Hm) as [Hd Hv]. destruct (Z.ltb_spec n 10) as [Hlt|Hge].
  - exists [digit_char (n mod 10)]. split_and!; [done|by repeat constructor| |done|cbn; lia].
    rewrite num_cons, Hv. cbn. rewrite Z.mod_small by lia. lia.
  - rewrite Nat2Z.inj_succ, Z.pow_succ_r in Hn by lia.
    destruct (IH (n / 10) (digit_char (n mod 10) :: acc)) as (s & Hs & Hds & Hns & _ & Hlen).
    { split; [apply Z.div_pos; lia|]. apply Z.div_lt_upper_bound; lia. }
    { by constructor. }
    exists (s ++ [digit_char (n mod 10)]). split_and!.
    + rewrite Hs. by rewrite <- app_assoc.
    + apply Forall_app. split; [done|]. by repeat constructor.
    + rewrite num_app, Hns, num_cons, Hv. cbn. pose proof (Z.div_mod n 10 ltac:(lia)). lia.
    + intros _. by destruct s.
    + intros k Hk Hk1. rewrite length_app. cbn. destruct (decide (k = 1)) as [->|Hne]; [lia|].
      assert (Hlen' : Z.of_nat (length s) <= k - 1); [|lia]. apply Hlen; [|lia].
      apply Z.div_lt_upper_bound; [lia|]. rewrite <- Z.pow_succ_r by lia. by replace (Z.succ (k - 1)) with k by lia.
Qed.

Lemma u64_to_string_spec n :
  0 <= n < 2 ^ 64 →
  all_digits (u64_to_string n) ∧ num (u64_to_string n) = n ∧ u64_to_string n ≠ []
  ∧ ∀ k, n < 10 ^ k → 1 <= k → Z.of_nat (length (u64_to_string n)) <= k.
Proof.
  intros Hn. destruct (u64_digits_spec 20 n []) as (s & Hs & Hd & Hv & Hne & Hl); [cbn; lia|constructor|].
  unfold u64_to_string. rewrite Hs, app_nil_r. split_and!; try done. apply Hne. lia.
Qed.

Lemma zero_padded_spec w n :
  1 <= w → 0 <= n < 10 ^ w → n < 2 ^ 64 →
  all_digits (zero_padded w n) ∧ num (zero_padded w n) = n ∧ Z.of_nat (length (zero_padded w n)) = w.
Proof.
  intros Hw Hn Hn2. destruct (u64_to_string_spec n ltac:(lia)) as (Hd & Hv & _ & Hl). specialize (Hl w ltac:(lia) Hw).
  unfold zero_padded. split_and!.
  - apply Forall_app. split; [apply all_digits_zeros|done].
  - rewrite num_app, num_zeros, Hv. lia.
  - rewrite length_app, length_replicate. lia.
Qed.

(** [format_fixed] writes a well-formed decimal with exactly [min scale 19]
    fractional digits that denotes the value. *)
Lemma format_fixed_spec v scale :
  in_i64 v → 0 < scale →
  ∃ I F, format_fixed v scale = sign_chars (if v <? 0 then MinusSign else NoSign) ++ I ++ DOT :: F
    ∧ all_digits I ∧ I ≠ [] ∧ all_digits F ∧ Z.of_nat (length F) = Z.min scale 19
    ∧ num (I ++ F) = Z.abs v.
Proof.
  intros Hv Hs. unfold format_fixed. rewrite (proj2 (Z.eqb_neq _ _)) by lia.
  set (w := Z.min scale 19). assert (Hw : 1 <= w <= 19) by lia.
  assert (Hf : 0 < 10 ^ w) by (apply Z.pow_pos_nonneg; lia).
  assert (Hf19 : 10 ^ w <= 10 ^ 19) by (apply Z.pow_le_mono_r; lia).
  pose proof (Z.mod_pos_bound (Z.abs v) (10 ^ w) Hf) as Hm.
  assert (Ha : 0 <= Z.abs v < 2 ^ 64) by (unfold in_i64 in Hv; lia).
  assert (Hd : 0 <= Z.abs v / 10 ^ w <= Z.abs v).
  { split; [apply Z.div_pos; lia|]. apply Z.div_le_upper_bound; nia. }
  destruct (u64_to_string_spec (Z.abs v / 10 ^ w)) as (HdI & HvI & HneI & _); [lia|].
  destruct (zero_padded_spec w (Z.abs v mod 10 ^ w)) as (HdF & HvF & HlF); [lia|lia|cbn in Hf19; lia|].
  exists (u64_to_string (Z.abs v / 10 ^ w)), (zero_padded w (Z.abs v mod 10 ^ w)). split_and!; try done.
  - by destruct (v <? 0).
  - rewrite num_app, HvI, HvF, HlF. pose proof (Z.div_mod (Z.abs v) (10 ^ w) ltac:(lia)). lia.
Qed.

(** C22.  Ticks and lots survive the trip through text: for every scale up to 19
    and every value but [i64::MIN], parsing what [from_tick] (or [from_lot])
    printed gives the value back. *)
Theorem scale_roundtrip sc v :
  0 <= price_scale sc <= 19 → 0 <= qty_scale sc <= 19 → in_i64 v → v ≠ - 2 ^ 63 →
  to_tick sc (from_tick sc v) = inr v ∧ to_lot sc (from_lot sc v) = inr v.
Proof.
  assert (Hgen : ∀ scale, 0 <= scale <= 19 → in_i64 v → v ≠ - 2 ^ 63 →
    parse_fixed (format_fixed v scale) scale = inr v).
  { intros scale Hs Hv Hmin. assert (Hmax : Z.abs v <= i64_max) by (unfold in_i64, i64_max in *; lia).
    destruct (decide (scale = 0)) as [->|Hne].
    - unfold format_fixed. cbn [Z.eqb]. unfold i64_to_string.
      destruct (u64_to_string_spec (Z.abs v)) as (Hd & Hn & Hnil & _); [unfold in_i64 in Hv; lia|].
      assert (Hf : (if v <? 0 then MINUS :: u64_to_string (Z.abs v) else u64_to_string v)
        = [] ++ (sign_chars (if v <? 0 then MinusSign else NoSign) ++ u64_to_string (Z.abs v) ++ point_chars None) ++ []).
      { rewrite !app_nil_r. destruct (Z.ltb_spec v 0); cbn; [done|]. by rewrite Z.abs_eq. }
      rewrite Hf, parse_fixed_spec by (done || constructor). cbn [frac default length]. unfold frac. cbn [default length].
      rewrite app_nil_r, Hn. cbn. rewrite Z.mul_1_r. unfold parsed. rewrite (proj2 (Z.leb_le _ _)) by done.
      f_equal. destruct (Z.ltb_spec v 0); cbn; lia.
    - destruct (format_fixed_spec v scale Hv ltac:(lia)) as (I & F & Hf & HdI & HneI & HdF & Hl & Hn).
      rewrite Z.min_l in Hl by lia.
      assert (Hf' : format_fixed v scale = [] ++ (sign_chars (if v <? 0 then MinusSign else NoSign) ++ I ++ point_chars (Some F)) ++ [])
        by (by rewrite app_nil_r).
      rewrite Hf', parse_fixed_spec by (done || constructor || lia). change (frac (Some F)) with F.
      rewrite Hl, Z.gtb_ltb, Z.ltb_irrefl, Z.sub_diag, Z.pow_0_r, Z.mul_1_r, Hn. unfold parsed.
      rewrite (proj2 (Z.leb_le _ _)) by done. f_equal. destruct (Z.ltb_spec v 0); cbn; lia. }
  intros H1 H2 Hv Hmin. by split; apply Hgen.
Qed.

(** What [to_tick] accepts and returns: a decimal with an optional sign,
    surrounded by blanks, is refused when it has more fractional digits than the
    scale, refused as an overflow when the scaled magnitude exceeds [i64::MAX],
    and otherwise read exactly, with no rounding. *)
Theorem to_tick_exact sc w1 g I f w2 :
  spaces w1 → spaces w2 → all_digits I → I ≠ [] → all_digits (frac f) → 0 <= price_scale sc →
  to_tick sc (w1 ++ (sign_chars g ++ I ++ point_chars f) ++ w2)
  = if Z.of_nat (length (frac f)) >? price_scale sc then inl ExcessFractionalDigits
    else parsed g (num (I ++ frac f) * 10 ^ (price_scale sc - Z.of_nat (length (frac f)))).
Proof. intros. by apply parse_fixed_spec. Qed.

Module Witness.
#[local] Open Scope string_scope.

Definition str (s : string) : list ascii := String.list_ascii_of_string s.

Definition sc2 : SymbolScale := mkScale 2 6.

Lemma scale_roundtrip_witness :
  to_tick sc2 (from_tick sc2 (-125)) = inr (-125) ∧ to_lot sc2 (from_lot sc2 (-125)) = inr (-125).
Proof. apply scale_roundtrip; cbn; unfold in_i64; lia. Defined.

Lemma to_tick_exact_witness :
  to_tick sc2 (str " " ++ (sign_chars MinusSign ++ str "12" ++ point_chars (Some (str "5"))) ++ [])%list = inr (-1250)%Z.
Proof.
  rewrite to_tick_exact; [reflexivity| | | | | |].
  all: first [by repeat constructor|discriminate].
Defined.

(** [i64::MIN] is printed but cannot be read back: the magnitude overflows before
    the sign is applied. *)
Example min_not_read_back : to_tick sc2 (from_tick sc2 (- 2 ^ 63)) = inl Overflow.
Proof. reflexivity. Qed.

(** With a scale above 19 fewer fractional digits are printed than read. *)
Example scale20_not_read_back : to_tick (mkScale 20 0) (from_tick (mkScale 20 0) 1) = inr 10%Z.
Proof. reflexivity. Qed.

End Witness.
