(* ===== verification/Spsc.v ===== *)
(** * match-core-hp: the command ring and the worker

    Models [crates/match-core-hp/src/spsc.rs] and [worker.rs].  The ring's
    operations are first given as they run alone.  Then producer and consumer
    interleave: each atomic load, store and slot access of [try_push] and
    [pop_n] is a step of [ring_step].  A load of the other side's counter may
    return any value between the last one seen and the current one, which is
    what an [Acquire] load of a monotone counter can return. *)
From stdpp Require Import gmap sorting.
From S2P Require Import Prelude HpTypes HpIndex HpBook HpEngine.

#[local] Open Scope Z_scope.

(** ** The ring *)

(** [usize] is 64 bits wide; [buf] is the boxed slice of slots. *)
Record SpscRing := mkRing { buf : list HpCommand; mask : Z; tail : Z; head : Z }.

(** [next_power_of_two] *)
Definition next_power_of_two (n : Z) : Z := if n <=? 1 then 1 else 2 ^ Z.log2_up n.

Definition ring_with_capacity (cap : Z) : SpscRing :=
  let cap := next_power_of_two (Z.max cap 2) in
  mkRing (replicate (Z.to_nat cap) (Cancel 0)) (cap - 1) 0 0.

Definition ring_capacity (r : SpscRing) : Z := mask r + 1.

Definition wrapping_sub (a b : Z) : Z := u64_wrap (a - b).
Definition wrapping_add (a b : Z) : Z := u64_wrap (a + b).

Definition len_approx (r : SpscRing) : Z := wrapping_sub (tail r) (head r).

(** The slot a counter names. *)
Definition slot (r : SpscRing) (i : Z) : nat := Z.to_nat (Z.land i (mask r)).

Definition write_slot (r : SpscRing) (i : Z) (cmd : HpCommand) : SpscRing :=
  mkRing (<[slot r i := cmd]> (buf r)) (mask r) (tail r) (head r).
Definition read_slot (r : SpscRing) (i : Z) : HpCommand := default (Cancel 0) (buf r !! slot r i).
Definition store_tail (r : SpscRing) (t : Z) : SpscRing := mkRing (buf r) (mask r) t (head r).
Definition store_head (r : SpscRing) (h : Z) : SpscRing := mkRing (buf r) (mask r) (tail r) h.

(** [try_push]; [None] is [Busy]. *)
Definition try_push (r : SpscRing) (cmd : HpCommand) : option SpscRing :=
  let t := tail r in
  let h := head r in
  if wrapping_sub t h >? mask r then None
  else Some (store_tail (write_slot r t cmd) (wrapping_add t 1)).

Definition try_pop (r : SpscRing) : option HpCommand * SpscRing :=
  let h := head r in
  let t := tail r in
  if h =? t then (None, r)
  else (Some (read_slot r h), store_head r (wrapping_add h 1)).

(** The commands [head .. head + n]. *)
Fixpoint read_batch (r : SpscRing) (h : Z) (i n : nat) : list HpCommand :=
  match n with
  | O => []
  | S n => read_slot r (wrapping_add h (Z.of_nat i)) :: read_batch r h (S i) n
  end.

(** [pop_n]: what is appended to [out], the count, and the ring. *)
Definition pop_n (r : SpscRing) (max : Z) : list HpCommand * Z * SpscRing :=
  if max =? 0 then ([], 0, r)
  else
    let h := head r in
    let t := tail r in
    let available := wrapping_sub t h in
    let n := Z.min available max in
    if n =? 0 then ([], 0, r)
    else (read_batch r h 0 (Z.to_nat n), n, store_head r (wrapping_add h n)).

(** ** Interleavings *)

(** Where the producer is inside [try_push]. *)
Inductive Producer :=
| PIdle
| PTail (cmd : HpCommand) (t : Z)
| PHead (cmd : HpCommand) (t h : Z)
| PWritten (cmd : HpCommand) (t : Z).

(** Where the consumer is inside [pop_n] ([try_pop] is the case [max = 1]). *)
Inductive Consumer :=
| CIdle
| CHead (max h : Z)
| CTail (h n : Z) (out : list HpCommand).

(** The ring, the two program counters, the counter values each side last saw
    of the other, and what was pushed and popped so far. *)
Record Shared := mkShared {
  ring : SpscRing; prod : Producer; cons : Consumer;
  seen_head : nat; seen_tail : nat; pushed : list HpCommand; popped : list HpCommand }.

Definition counter (n : nat) : Z := u64_wrap (Z.of_nat n).

Inductive ring_step : Shared → Shared → Prop :=
| push_load_tail r c sh st pu po cmd :
    ring_step (mkShared r PIdle c sh st pu po) (mkShared r (PTail cmd (tail r)) c sh st pu po)
| push_load_head r c sh st pu po cmd t k :
    (sh <= k <= length po)%nat →
    ring_step (mkShared r (PTail cmd t) c sh st pu po) (mkShared r (PHead cmd t (counter k)) c k st pu po)
| push_busy r c sh st pu po cmd t h :
    wrapping_sub t h > mask r →
    ring_step (mkShared r (PHead cmd t h) c sh st pu po) (mkShared r PIdle c sh st pu po)
| push_write r c sh st pu po cmd t h :
    wrapping_sub t h <= mask r →
    ring_step (mkShared r (PHead cmd t h) c sh st pu po)
              (mkShared (write_slot r t cmd) (PWritten cmd t) c sh st pu po)
| push_store_tail r c sh st pu po cmd t :
    ring_step (mkShared r (PWritten cmd t) c sh st pu po)
              (mkShared (store_tail r (wrapping_add t 1)) PIdle c sh st (pu ++ [cmd]) po)
| pop_load_head r p sh st pu po max :
    0 < max →
    ring_step (mkShared r p CIdle sh st pu po) (mkShared r p (CHead max (head r)) sh st pu po)
| pop_load_tail r p sh st pu po max h k :
    (st <= k <= length pu)%nat →
    ring_step (mkShared r p (CHead max h) sh st pu po)
              (mkShared r p (CTail h (Z.min (wrapping_sub (counter k) h) max) []) sh k pu po)
| pop_read r p sh st pu po h n out :
    Z.of_nat (length out) < n →
    ring_step (mkShared r p (CTail h n out) sh st pu po)
              (mkShared r p (CTail h n (out ++ [read_slot r (wrapping_add h (Z.of_nat (length out)))])) sh st pu po)
| pop_store_head r p sh st pu po h n out :
    Z.of_nat (length out) = n →
    ring_step (mkShared r p (CTail h n out) sh st pu po)
              (mkShared (if n =? 0 then r else store_head r (wrapping_add h n)) p CIdle sh st pu (po ++ out)).

Definition shared_new (cap : Z) : Shared := mkShared (ring_with_capacity cap) PIdle CIdle 0 0 [] [].

Inductive ring_reachable (cap : Z) : Shared → Prop :=
| ring_init : ring_reachable cap (shared_new cap)
| ring_next s s' : ring_reachable cap s → ring_step s s' → ring_reachable cap s'.

(** ** The worker *)
Section Worker.
Context {BI AI : Type} `{LB : LevelIndex BI} `{LA : LevelIndex AI}.

(** [HpWorker]; the batch is emptied by every call. *)
Record HpWorker := mkWorker { w_ring : SpscRing; w_engine : HpEngine BI AI }.

Definition worker_new (ring_cap : Z) : HpWorker := mkWorker (ring_with_capacity ring_cap) hp_engine_with_capacity.

Definition ring_len_approx (w : HpWorker) : Z := len_approx (w_ring w).

Definition try_submit (w : HpWorker) (cmd : HpCommand) : option HpWorker :=
  r ← try_push (w_ring w) cmd; Some (mkWorker r (w_engine w)).

Definition is_fill_event (ev : HpEvent) : bool := match ev with Fill _ _ _ _ _ _ _ _ => true | _ => false end.
Definition fill_count (evs : list HpEvent) : Z :=
  Z.of_nat (length (filter (λ ev, is_fill_event ev = true) evs)).

(** [drain_batch]: the fills, and the engine. *)
Fixpoint drain_batch (e : HpEngine BI AI) (batch : list HpCommand) (fills : Z) : option (Z * HpEngine BI AI) :=
  match batch with
  | [] => Some (fills, e)
  | cmd :: batch => '(evs, e) ← hp_on_order e cmd; drain_batch e batch (fills + fill_count evs)
  end.

Definition run_once (w : HpWorker) : option (Z * HpWorker) :=
  let '(batch, _, r) := pop_n (w_ring w) (ring_capacity (w_ring w)) in
  '(fills, e) ← drain_batch (w_engine w) batch 0;
  Some (fills, mkWorker r e).

Definition idle_limit_reached (idle : Z) (max_idle_spins : option Z) : bool :=
  match max_idle_spins with Some max => idle >=? max | None => false end.

(** [poll], with nothing submitted meanwhile; the fuel bounds the rounds. *)
Fixpoint poll_loop (fuel : nat) (w : HpWorker) (max_idle_spins : option Z) (total_fills idle : Z) :
    option (Z * HpWorker) :=
  match fuel with
  | O => None
  | S fuel =>
      let '(batch, n, r) := pop_n (w_ring w) (ring_capacity (w_ring w)) in
      if n =? 0 then
        let idle := Z.min (idle + 1) (2 ^ 64 - 1) in
        if idle_limit_reached idle max_idle_spins then Some (total_fills, mkWorker r (w_engine w))
        else poll_loop fuel (mkWorker r (w_engine w)) max_idle_spins total_fills idle
      else
        '(fills, e) ← drain_batch (w_engine w) batch 0;
        poll_loop fuel (mkWorker r e) max_idle_spins (total_fills + fills) 0
  end.

End Worker.
#[global] Arguments HpWorker : clear implicits.

(** ** Counters and slots *)

(** A requested capacity whose rounding fits. *)
Definition cap_ok (cap : Z) : Prop := 0 <= cap <= 2 ^ 62.

Definition ring_size (cap : Z) : nat := Z.to_nat (next_power_of_two (Z.max cap 2)).

Lemma ring_size_pow cap : cap_ok cap → ∃ k, 1 <= k <= 62 ∧ Z.of_nat (ring_size cap) = 2 ^ k.
Proof.
  intros Hc. unfold cap_ok in Hc. unfold ring_size, next_power_of_two. rewrite (proj2 (Z.leb_gt _ _)) by lia.
  exists (Z.log2_up (Z.max cap 2)). split.
  - split; [change 1 with (Z.log2_up 2); apply Z.log2_up_le_mono; lia|].
    change 62 with (Z.log2_up (2 ^ 62)). apply Z.log2_up_le_mono. lia.
  - rewrite Z2Nat.id; [done|]. apply Z.pow_nonneg. lia.
Qed.

Lemma counter_slot cap (r : SpscRing) j :
  cap_ok cap → mask r = Z.of_nat (ring_size cap) - 1 → slot r (counter j) = (j mod ring_size cap)%nat.
Proof.
  intros Hc Hm. destruct (ring_size_pow cap Hc) as (k & Hk & Hs). unfold slot, counter, u64_wrap. rewrite Hm, Hs.
  replace (2 ^ k - 1) with (Z.ones k) by (rewrite Z.ones_equiv; lia). rewrite Z.land_ones by lia.
  replace (2 ^ 64) with (2 ^ k * 2 ^ (64 - k)) by (rewrite <- Z.pow_add_r by lia; f_equal; lia).
  rewrite Z.rem_mul_r by lia. rewrite Z.mul_comm, Z.mod_add, Z.mod_mod by lia.
  rewrite <- Hs. rewrite <- Nat2Z.inj_mod. by rewrite Nat2Z.id.
Qed.

Lemma counter_sub a b : (b <= a)%nat → Z.of_nat (a - b) < 2 ^ 64 → wrapping_sub (counter a) (counter b) = Z.of_nat (a - b).
Proof.
  intros Hab Hlt. unfold wrapping_sub, counter, u64_wrap. rewrite <- Zminus_mod.
  rewrite <- Nat2Z.inj_sub by done. apply Z.mod_small. lia.
Qed.

Lemma counter_add a n : wrapping_add (counter a) (Z.of_nat n) = counter (a + n).
Proof. unfold wrapping_add, counter, u64_wrap. rewrite Z.add_mod_idemp_l by lia. f_equal. lia. Qed.

Lemma mod_neq (a b c : nat) : (a < b)%nat → (b < a + c)%nat → (a mod c)%nat ≠ (b mod c)%nat.
Proof.
  intros Hab Hc He. pose proof (Nat.div_mod a c ltac:(lia)). pose proof (Nat.div_mod b c ltac:(lia)).
  assert (a / c < b / c)%nat by nia. nia.
Qed.

(** ** The invariant of the interleavings *)

Definition producer_ok (C : nat) (r : SpscRing) (p : Producer) (sh T : nat) : Prop :=
  match p with
  | PIdle => True
  | PTail _ t => t = counter T
  | PHead _ t h => t = counter T ∧ h = counter sh
  | PWritten cmd t => t = counter T ∧ (T - sh < C)%nat ∧ buf r !! (T mod C)%nat = Some cmd
  end.

Definition consumer_ok (c : Consumer) (st H : nat) (pu : list HpCommand) : Prop :=
  match c with
  | CIdle => True
  | CHead max h => h = counter H ∧ 0 < max
  | CTail h n out =>
      h = counter H ∧ 0 <= n ∧ Z.of_nat H + n <= Z.of_nat st ∧ Z.of_nat (length out) <= n
      ∧ out = take (length out) (drop H pu)
  end.

Record ring_inv (cap : Z) (s : Shared) : Prop := {
  inv_mask : mask (ring s) = Z.of_nat (ring_size cap) - 1;
  inv_buf : length (buf (ring s)) = ring_size cap;
  inv_tail : tail (ring s) = counter (length (pushed s));
  inv_head : head (ring s) = counter (length (popped s));
  inv_seen_head : (seen_head s <= length (popped s))%nat;
  inv_seen_tail : (length (popped s) <= seen_tail s <= length (pushed s))%nat;
  inv_room : (length (pushed s) - seen_head s <= ring_size cap)%nat;
  inv_fifo : popped s `prefix_of` pushed s;
  inv_slots : ∀ j, (length (popped s) <= j < length (pushed s))%nat →
                buf (ring s) !! (j mod ring_size cap)%nat = pushed s !! j;
  inv_prod : producer_ok (ring_size cap) (ring s) (prod s) (seen_head s) (length (pushed s));
  inv_cons : consumer_ok (cons s) (seen_tail s) (length (popped s)) (pushed s) }.

Lemma ring_inv_new cap : cap_ok cap → ring_inv cap (shared_new cap).
Proof.
  intros Hc. destruct (ring_size_pow cap Hc) as (k & Hk & Hs).
  assert (Hpos : 0 < 2 ^ k) by (apply Z.pow_pos_nonneg; lia).
  constructor; cbn; try done; try lia.
  - unfold ring_size in *. lia.
  - by rewrite length_replicate.
Qed.

Lemma ring_size_bounds cap : cap_ok cap → (2 <= ring_size cap)%nat ∧ Z.of_nat (ring_size cap) < 2 ^ 64.
Proof.
  intros Hc. destruct (ring_size_pow cap Hc) as (k & Hk & Hs). split.
  - assert (2 ^ 1 <= 2 ^ k) by (apply Z.pow_le_mono_r; lia). lia.
  - rewrite Hs. apply Z.pow_lt_mono_r; lia.
Qed.

(** A write at the tail touches no slot that is still to be read. *)
Lemma write_slots cap r cmd sh (pu po : list HpCommand) j :
  cap_ok cap → mask r = Z.of_nat (ring_size cap) - 1 → (sh <= length po)%nat → (length pu - sh < ring_size cap)%nat →
  (length po <= j < length pu)%nat →
  buf (write_slot r (counter (length pu)) cmd) !! (j mod ring_size cap)%nat = buf r !! (j mod ring_size cap)%nat.
Proof.
  intros Hc Hm Hsh Hroom Hj. cbn. rewrite (counter_slot cap) by done. apply list_lookup_insert_ne.
  apply not_eq_sym, mod_neq; lia.
Qed.

Ltac shared_simpl :=
  cbn [ring prod cons seen_head seen_tail pushed popped producer_ok consumer_ok] in *.

Lemma push_write_inv cap r c sh st pu po cmd t h :
  cap_ok cap → wrapping_sub t h <= mask r → ring_inv cap (mkShared r (PHead cmd t h) c sh st pu po) →
  ring_inv cap (mkShared (write_slot r t cmd) (PWritten cmd t) c sh st pu po).
Proof.
  intros Hc Hle [Hm Hb Ht Hh Hsh Hst Hroom Hfifo Hsl [Hpt Hph] Hcons]. shared_simpl. subst t h.
  destruct (ring_size_bounds cap Hc) as [H2 H64]. rewrite counter_sub in Hle by lia.
  constructor; shared_simpl; try done.
  - cbn [write_slot buf]. by rewrite length_insert.
  - intros j Hj. rewrite <- Hsl by done. apply (write_slots cap r cmd sh pu po j); try done; lia.
  - split_and!; [done|lia|]. cbn [write_slot buf]. rewrite (counter_slot cap) by done. apply list_lookup_insert_eq. rewrite Hb.
    apply Nat.mod_upper_bound. lia.
Qed.

Lemma push_store_inv cap r c sh st pu po cmd t :
  ring_inv cap (mkShared r (PWritten cmd t) c sh st pu po) →
  ring_inv cap (mkShared (store_tail r (wrapping_add t 1)) PIdle c sh st (pu ++ [cmd]) po).
Proof.
  intros [Hm Hb Ht Hh Hsh Hst Hroom Hfifo Hsl (Hpt & Hlt & Hw) Hcons]. shared_simpl. subst t.
  constructor; shared_simpl; rewrite ?length_app; cbn [length buf mask tail head store_tail]; try done; try lia.
  - by rewrite <- (counter_add (length pu) 1).
  - by apply prefix_app_r.
  - intros j Hj. destruct (decide (j = length pu)) as [->|Hne].
    + rewrite Hw. by rewrite list_lookup_middle.
    + rewrite Hsl by lia. by rewrite lookup_app_l by lia.
  - destruct c as [|max h|h n out]; [done|done|]. destruct Hcons as (-> & Hn & Hle & Hlo & Hout).
    split_and!; [done|done|done|done|]. rewrite drop_app_le by lia. rewrite take_app_le; [done|].
    rewrite length_drop. lia.
Qed.

Lemma pop_load_tail_inv cap r p sh st pu po max h k :
  cap_ok cap → (st <= k <= length pu)%nat → ring_inv cap (mkShared r p (CHead max h) sh st pu po) →
  ring_inv cap (mkShared r p (CTail h (Z.min (wrapping_sub (counter k) h) max) []) sh k pu po).
Proof.
  intros Hc Hk [Hm Hb Ht Hh Hsh Hst Hroom Hfifo Hsl Hp [Hch Hmax]]. shared_simpl. subst h.
  destruct (ring_size_bounds cap Hc) as [H2 H64]. rewrite counter_sub by lia.
  constructor; shared_simpl; try done; try lia. cbn [length]. split_and!; [done|lia|lia|lia|done].
Qed.

Lemma pop_read_inv cap r p sh st pu po h n out :
  cap_ok cap → Z.of_nat (length out) < n → ring_inv cap (mkShared r p (CTail h n out) sh st pu po) →
  ring_inv cap (mkShared r p (CTail h n (out ++ [read_slot r (wrapping_add h (Z.of_nat (length out)))])) sh st pu po).
Proof.
  intros Hc Hlt [Hm Hb Ht Hh Hsh Hst Hroom Hfifo Hsl Hp (Hch & Hn & Hle & Hlo & Hout)]. shared_simpl. subst h.
  constructor; shared_simpl; try done. rewrite length_app. cbn. split_and!; [done|done|done|lia|].
  rewrite counter_add. unfold read_slot. rewrite (counter_slot cap) by done.
  rewrite Hsl by lia. destruct (lookup_lt_is_Some_2 pu (length po + length out)) as [x Hx]; [lia|].
  rewrite Hx. replace (length out + 1)%nat with (S (length out)) by lia.
  rewrite (take_S_r _ _ x) by (by rewrite lookup_drop). cbn. f_equal. exact Hout.
Qed.

Lemma pop_store_inv cap r p sh st pu po h n out :
  Z.of_nat (length out) = n → ring_inv cap (mkShared r p (CTail h n out) sh st pu po) →
  ring_inv cap (mkShared (if n =? 0 then r else store_head r (wrapping_add h n)) p CIdle sh st pu (po ++ out)).
Proof.
  intros <- [Hm Hb Ht Hh Hsh Hst Hroom Hfifo Hsl Hp (Hch & Hn & Hle & Hlo & Hout)]. shared_simpl. subst h.
  set (r' := if _ =? 0 then r else _).
  assert (Hr : mask r' = mask r ∧ buf r' = buf r ∧ tail r' = tail r ∧ head r' = counter (length (po ++ out))).
  { unfold r'. destruct (Z.eqb_spec (Z.of_nat (length out)) 0) as [Hz|Hz]; cbn; split_and!; try done.
    - rewrite length_app, Hh. f_equal. lia.
    - by rewrite counter_add, length_app. }
  destruct Hr as (Hrm & Hrb & Hrt & Hrh).
  constructor; shared_simpl; rewrite ?Hrm, ?Hrb, ?Hrt, ?length_app; try done; try lia.
  - by rewrite Hrh, length_app.
  - rewrite Hout. destruct Hfifo as [rest ->]. rewrite drop_app_length. apply prefix_app.
    exists (drop (length out) rest). by rewrite take_drop.
  - intros j Hj. apply Hsl. lia.
  - destruct p; cbn in *; rewrite ?Hrb; done.
Qed.

Lemma ring_step_inv cap s s' : cap_ok cap → ring_inv cap s → ring_step s s' → ring_inv cap s'.
Proof.
  intros Hc Hinv Hstep. revert Hinv. destruct Hstep as [r c sh st pu po cmd|r c sh st pu po cmd t k Hk|r c sh st pu po cmd t h Hb|r c sh st pu po cmd t h Hb
    |r c sh st pu po cmd t|r p sh st pu po max Hm|r p sh st pu po max h k Hk|r p sh st pu po h n out Ho
    |r p sh st pu po h n out Ho]; intros Hinv.
  - destruct Hinv. shared_simpl. constructor; shared_simpl; done || lia.
  - destruct Hinv as [? ? ? ? ? ? ? ? ? Hp ?]. shared_simpl. constructor; shared_simpl; done || lia.
  - destruct Hinv. shared_simpl. constructor; shared_simpl; done || lia.
  - by eapply push_write_inv.
  - by apply push_store_inv.
  - destruct Hinv. shared_simpl. constructor; shared_simpl; done || lia.
  - by eapply pop_load_tail_inv.
  - by apply pop_read_inv.
  - by apply pop_store_inv.
Qed.

Lemma ring_reachable_inv cap s : cap_ok cap → ring_reachable cap s → ring_inv cap s.
Proof. intros Hc. induction 1; [by apply ring_inv_new|by eapply ring_step_inv]. Qed.
