(* ===== verification/SpscProps.v ===== *)
(** * match-core-hp: the properties of the ring and the worker *)
From stdpp Require Import gmap sorting.
From S2P Require Import Prelude HpTypes HpIndex HpBook HpEngine HpTotals HpProps Spsc.

#[local] Open Scope Z_scope.

(** ** The ring as a queue *)

(** The ring stands for the queue [q]. *)
Definition holds (cap : Z) (r : SpscRing) (q : list HpCommand) : Prop :=
  mask r = Z.of_nat (ring_size cap) - 1 ∧ length (buf r) = ring_size cap ∧ (length q <= ring_size cap)%nat
  ∧ ∃ H, head r = counter H ∧ tail r = counter (H + length q)
      ∧ ∀ i, (i < length q)%nat → buf r !! ((H + i) mod ring_size cap)%nat = q !! i.

Lemma holds_new cap : cap_ok cap → holds cap (ring_with_capacity cap) [].
Proof.
  intros Hc. destruct (ring_size_bounds cap Hc) as [H2 _]. split_and!.
  - unfold ring_with_capacity, ring_size in *. cbn. lia.
  - cbn. by rewrite length_replicate.
  - cbn. lia.
  - exists 0%nat. split_and!; [done|done|]. cbn. lia.
Qed.

Lemma holds_len cap r q : cap_ok cap → holds cap r q → wrapping_sub (tail r) (head r) = Z.of_nat (length q).
Proof.
  intros Hc (Hm & Hb & Hq & H & Hh & Ht & _). destruct (ring_size_bounds cap Hc) as [H2 H64].
  rewrite Hh, Ht, counter_sub by lia. f_equal. lia.
Qed.

Lemma push_holds cap r q cmd :
  cap_ok cap → holds cap r q →
  match try_push r cmd with
  | None => length q = ring_size cap
  | Some r' => (length q < ring_size cap)%nat ∧ holds cap r' (q ++ [cmd])
  end.
Proof.
  intros Hc Hr. unfold try_push. rewrite (holds_len cap r q) by done.
  destruct Hr as (Hm & Hb & Hq & H & Hh & Ht & Hs). rewrite Hm, Z.gtb_ltb.
  destruct (Z.ltb_spec (Z.of_nat (ring_size cap) - 1) (Z.of_nat (length q))) as [Hlt|Hge]; [lia|].
  assert (Hlt : (length q < ring_size cap)%nat) by lia. split; [done|].
  split_and!; cbn [store_tail write_slot mask buf head tail]; [done|by rewrite length_insert|rewrite length_app; cbn; lia|].
  exists H. split_and!; [done| |].
  - rewrite Ht. change 1 with (Z.of_nat 1). rewrite counter_add, length_app. cbn. f_equal. lia.
  - intros i Hi. rewrite length_app in Hi. cbn in Hi. rewrite Ht, (counter_slot cap) by done.
    destruct (decide (i = length q)) as [->|Hne].
    + rewrite list_lookup_middle by done. apply list_lookup_insert_eq. rewrite Hb. apply Nat.mod_upper_bound. lia.
    + rewrite list_lookup_insert_ne by (apply not_eq_sym, mod_neq; lia). rewrite Hs by lia.
      by rewrite lookup_app_l by lia.
Qed.

Lemma read_batch_holds cap r q H : ∀ n i,
  cap_ok cap → mask r = Z.of_nat (ring_size cap) - 1 →
  (∀ i, (i < length q)%nat → buf r !! ((H + i) mod ring_size cap)%nat = q !! i) → (i + n <= length q)%nat →
  read_batch r (counter H) i n = take n (drop i q).
Proof.
  induction n as [|n IH]; intros i Hc Hm Hs Hi; [by rewrite take_0|]. cbn [read_batch].
  destruct (lookup_lt_is_Some_2 q i) as [x Hx]; [lia|]. rewrite (drop_S _ x) by done. cbn [take].
  rewrite IH by (done || lia). f_equal. unfold read_slot. rewrite counter_add, (counter_slot cap) by done.
  by rewrite Hs, Hx by lia.
Qed.

Lemma pop_n_holds cap r q max :
  cap_ok cap → holds cap r q → 0 <= max →
  let n := Nat.min (length q) (Z.to_nat max) in
  ∃ r', pop_n r max = (take n q, Z.of_nat n, r') ∧ holds cap r' (drop n q).
Proof.
  intros Hc Hr Hmax n. unfold pop_n. destruct (Z.eqb_spec max 0) as [->|Hne].
  { subst n. rewrite Nat.min_0_r. exists r. by rewrite take_0, drop_0. }
  rewrite (holds_len cap r q) by done. replace (Z.min (Z.of_nat (length q)) max) with (Z.of_nat n) by lia.
  destruct (Z.eqb_spec (Z.of_nat n) 0) as [Hz|Hz].
  { assert (Hn0 : n = 0%nat) by lia. rewrite Hn0. exists r. by rewrite take_0, drop_0. }
  pose proof Hr as (Hm & Hb & Hq & H & Hh & Ht & Hs). eexists. split.
  - rewrite Hh, Nat2Z.id, (read_batch_holds cap r q H) by (done || lia). by rewrite drop_0.
  - split_and!; cbn [store_head mask buf head tail]; [done|done|rewrite length_drop; lia|].
    exists (H + n)%nat. split_and!; [by rewrite counter_add|rewrite Ht, length_drop; f_equal; lia|].
    intros i Hi. rewrite length_drop in Hi. rewrite lookup_drop, <- Hs by lia. do 2 f_equal. lia.
Qed.

Lemma pop_holds cap r q :
  cap_ok cap → holds cap r q →
  (try_pop r).1 = List.hd_error q ∧ holds cap (try_pop r).2 (List.tl q).
Proof.
  intros Hc Hr. pose proof (holds_len cap r q Hc Hr) as Hlen. unfold try_pop.
  pose proof Hr as (Hm & Hb & Hq & H & Hh & Ht & Hs). destruct q as [|x q].
  - cbn in Ht. rewrite Nat.add_0_r in Ht. by rewrite Ht, Hh, Z.eqb_refl.
  - destruct (Z.eqb_spec (head r) (tail r)) as [He|He].
    { rewrite He in Hlen. unfold wrapping_sub in Hlen. rewrite Z.sub_diag in Hlen.
      change (u64_wrap 0) with 0 in Hlen. cbn [length] in Hlen. lia. }
    cbn [fst snd hd_error List.tl]. split.
    + unfold read_slot. rewrite Hh, (counter_slot cap) by done. specialize (Hs 0%nat ltac:(cbn; lia)).
      rewrite Nat.add_0_r in Hs. by rewrite Hs.
    + split_and!; cbn [store_head mask buf head tail]; [done|done|cbn in Hq; lia|].
      exists (H + 1)%nat. split_and!; [rewrite Hh; by rewrite <- (counter_add H 1)|rewrite Ht; f_equal; cbn; lia|].
      intros i Hi. replace (H + 1 + i)%nat with (H + S i)%nat by lia. by rewrite Hs by (cbn; lia).
Qed.

(** ** The worker as a queue in front of the engine *)
Section Worker.
Context {BI AI : Type} `{LB : LevelIndex BI} `{LA : LevelIndex AI}
  `{SB : !LevelIndexSpec BI Buy} `{SA : !LevelIndexSpec AI Sell}.

(** What callers do to a worker. *)
Inductive WorkerOp := Submit (cmd : HpCommand) | RunOnce.

Fixpoint worker_run (w : HpWorker BI AI) (accepted : list HpCommand) (ops : list WorkerOp) :
    option (HpWorker BI AI * list HpCommand) :=
  match ops with
  | [] => Some (w, accepted)
  | Submit cmd :: ops =>
      match try_submit w cmd with
      | Some w => worker_run w (accepted ++ [cmd]) ops
      | None => worker_run w accepted ops
      end
  | RunOnce :: ops => '(_, w) ← run_once w; worker_run w accepted ops
  end.

Definition op_wf (op : WorkerOp) : Prop := match op with Submit cmd => wf_command cmd | RunOnce => True end.

Lemma drain_batch_run batch : ∀ (e : HpEngine BI AI) n,
  drain_batch e batch n = '(evs, e') ← hp_run e batch; Some (n + fill_count evs, e').
Proof.
  induction batch as [|cmd batch IH]; intros e n; cbn [drain_batch hp_run].
  { cbn. do 2 f_equal. unfold fill_count. cbn. lia. }
  destruct (hp_on_order e cmd) as [[evs e1]|]; [|done]. cbn [mbind option_bind]. rewrite IH.
  destruct (hp_run e1 batch) as [[evs' e2]|]; [|done]. cbn [mbind option_bind]. do 2 f_equal.
  unfold fill_count. rewrite filter_app, length_app. lia.
Qed.

Lemma hp_run_app (l1 : list HpCommand) : ∀ l2 (e : HpEngine BI AI),
  hp_run e (l1 ++ l2) = '(ev1, e1) ← hp_run e l1; '(ev2, e2) ← hp_run e1 l2; Some (ev1 ++ ev2, e2).
Proof.
  induction l1 as [|c l1 IH]; intros l2 e; cbn [app hp_run].
  { cbn. by destruct (hp_run e l2) as [[? ?]|]. }
  destruct (hp_on_order e c) as [[ev e1]|]; [|done]. cbn [mbind option_bind]. rewrite IH.
  destruct (hp_run e1 l1) as [[ev1 e2]|]; [|done]. cbn [mbind option_bind].
  destruct (hp_run e2 l2) as [[ev2 e3]|]; [|done]. cbn [mbind option_bind]. by rewrite app_assoc.
Qed.

(** The worker after accepting [accepted]: its engine has run a prefix of them,
    the ring holds the rest. *)
Definition worker_ok (cap : Z) (w : HpWorker BI AI) (accepted : list HpCommand) : Prop :=
  engine_ok (w_engine w)
  ∧ ∃ ran q, accepted = ran ++ q ∧ holds cap (w_ring w) q ∧ Forall wf_command q
      ∧ ∃ evs, hp_run hp_engine_with_capacity ran = Some (evs, w_engine w).

Lemma run_once_ok cap w accepted :
  cap_ok cap → worker_ok cap w accepted →
  ∃ evs w', run_once w = Some (fill_count evs, w')
    ∧ holds cap (w_ring w') [] ∧ engine_ok (w_engine w')
    ∧ ∃ ran q, accepted = ran ++ q ∧ holds cap (w_ring w) q ∧ hp_run (w_engine w) q = Some (evs, w_engine w')
        ∧ ∃ evs0, hp_run hp_engine_with_capacity accepted = Some (evs0 ++ evs, w_engine w').
Proof.
  intros Hc (He & ran & q & Hacc & Hr & Hwf & evs0 & Hran).
  assert (Hcapn : ring_capacity (w_ring w) = Z.of_nat (ring_size cap)).
  { destruct Hr as (Hm & _). unfold ring_capacity. lia. }
  destruct (pop_n_holds cap (w_ring w) q (ring_capacity (w_ring w)) Hc Hr) as (r' & Hp & Hr'); [lia|].
  assert (Hall : Nat.min (length q) (Z.to_nat (ring_capacity (w_ring w))) = length q).
  { destruct Hr as (_ & _ & Hq & _). lia. }
  rewrite Hall in *. rewrite take_ge in Hp by lia. rewrite drop_ge in Hr' by lia.
  destruct (hp_run_ok (w_engine w) q He Hwf) as (evs & e' & Hrun & He').
  exists evs, (mkWorker r' e'). unfold run_once. rewrite Hp, drain_batch_run, Hrun. cbn [mbind option_bind].
  split_and!; [done|done|done|]. exists ran, q. split_and!; [done|done|done|].
  exists evs0. rewrite Hacc, hp_run_app, Hran. cbn [mbind option_bind]. rewrite Hrun. done.
Qed.

Lemma submit_ok cap w accepted cmd :
  cap_ok cap → wf_command cmd → worker_ok cap w accepted →
  match try_submit w cmd with
  | Some w' => worker_ok cap w' (accepted ++ [cmd])
  | None => ring_len_approx w = Z.of_nat (ring_size cap)
  end.
Proof.
  intros Hc Hcmd (He & ran & q & Hacc & Hr & Hwf & evs0 & Hran). unfold try_submit.
  pose proof (push_holds cap (w_ring w) q cmd Hc Hr) as Hp. pose proof (holds_len cap _ q Hc Hr) as Hlen.
  destruct (try_push (w_ring w) cmd) as [r'|]; cbn [mbind option_bind].
  - split; [done|]. exists ran, (q ++ [cmd]). split_and!; [by rewrite Hacc, app_assoc|apply Hp| |by exists evs0].
    apply Forall_app. split; [done|by constructor].
  - unfold ring_len_approx, len_approx. by rewrite Hlen, Hp.
Qed.

Lemma worker_run_ok cap ops : ∀ w accepted,
  cap_ok cap → Forall op_wf ops → worker_ok cap w accepted →
  ∃ w' acc', worker_run w accepted ops = Some (w', acc') ∧ worker_ok cap w' acc'.
Proof.
  induction ops as [|op ops IH]; intros w accepted Hc Hwf Hw; [by exists w, accepted|].
  apply Forall_cons in Hwf as [Hop Hwf]. destruct op as [cmd|]; cbn [worker_run].
  - pose proof (submit_ok cap w accepted cmd Hc Hop Hw) as Hs.
    destruct (try_submit w cmd) as [w'|]; by apply IH.
  - destruct (run_once_ok cap w accepted Hc Hw) as (evs & w' & Hr & Hq & He & ran & q & Hacc & _ & _ & evs0 & Hrun).
    rewrite Hr. cbn [mbind option_bind]. apply IH; [done|done|]. split; [done|].
    exists accepted, []. split_and!; [by rewrite app_nil_r|done|constructor|]. by eexists.
Qed.

Lemma worker_new_ok cap : cap_ok cap → worker_ok cap (worker_new cap) [].
Proof.
  intros Hc. split; [apply fresh_ok; by right|]. exists [], []. split_and!; [done|by apply holds_new|constructor|].
  by exists [].
Qed.

Lemma pop_empty cap r : cap_ok cap → holds cap r [] → pop_n r (ring_capacity r) = ([], 0, r).
Proof.
  intros Hc Hr. unfold pop_n. rewrite (holds_len cap r [] Hc Hr). destruct (ring_capacity r =? 0) eqn:E; [done|].
  destruct (ring_size_bounds cap Hc) as [H2 _]. destruct Hr as (Hm & _). unfold ring_capacity in *.
  cbn [length]. change (Z.of_nat 0) with 0. by rewrite Z.min_l by lia.
Qed.

(** On an empty ring, polling stops after [m] idle rounds, at least one. *)
Lemma poll_idle cap (w : HpWorker BI AI) m total fuel : ∀ idle,
  cap_ok cap → holds cap (w_ring w) [] → 0 <= idle → m < 2 ^ 64 → (Z.to_nat (m - idle) <= fuel)%nat → (0 < fuel)%nat →
  poll_loop fuel w (Some m) total idle = Some (total, w).
Proof.
  induction fuel as [|fuel IH]; intros idle Hc Hr Hi Hm Hf Hpos; [lia|]. cbn [poll_loop].
  rewrite (pop_empty cap) by done. rewrite Z.eqb_refl. cbn [idle_limit_reached].
  replace (mkWorker (w_ring w) (w_engine w)) with w by (by destruct w).
  destruct (Z.geb_spec (Z.min (idle + 1) (2 ^ 64 - 1)) m) as [Hge|Hlt]; [done|].
  apply IH; try done; lia.
Qed.
End Worker.

(** C16.  Under every interleaving of a producer in [try_push] and a consumer in
    [pop_n], counters wrapping included: what was popped is a prefix of what was
    pushed (first in first out, nothing lost, duplicated or torn), the ring never
    holds more than its capacity, and when the producer writes a slot the
    consumer has no read of that slot outstanding. *)
Theorem ring_fifo_race_free cap s :
  cap_ok cap → ring_reachable cap s →
  popped s `prefix_of` pushed s
  ∧ (length (pushed s) - length (popped s) <= ring_size cap)%nat
  ∧ ∀ cmd t h h' n out i,
      prod s = PHead cmd t h → wrapping_sub t h <= mask (ring s) →
      cons s = CTail h' n out → 0 <= i < n → slot (ring s) (wrapping_add h' i) ≠ slot (ring s) t.
Proof.
  intros Hc Hr. destruct (ring_reachable_inv cap s Hc Hr) as [Hm Hb Ht Hh Hsh Hst Hroom Hfifo Hsl Hp Hcons].
  destruct (ring_size_bounds cap Hc) as [H2 H64]. split_and!; [done|lia|].
  intros cmd t h h' n out i Hprod Hle Hco Hi. rewrite Hprod in Hp. rewrite Hco in Hcons.
  destruct Hp as [-> ->], Hcons as (-> & _ & Hn & _ & _). rewrite counter_sub in Hle by lia.
  rewrite <- (Z2Nat.id i) by lia. rewrite counter_add, !(counter_slot cap) by done. apply mod_neq; lia.
Qed.

(** Run alone, the ring's operations are those of a bounded queue: a push is
    refused exactly when the queue is full and else appends, a pop takes the
    front or reports an empty queue, and a batch pop takes the first
    [min max len] commands in order. *)
Theorem ring_is_bounded_queue cap r q cmd max :
  cap_ok cap → holds cap r q → 0 <= max →
  (match try_push r cmd with
   | None => length q = ring_size cap
   | Some r' => (length q < ring_size cap)%nat ∧ holds cap r' (q ++ [cmd])
   end)
  ∧ (try_pop r).1 = List.hd_error q ∧ holds cap (try_pop r).2 (List.tl q)
  ∧ (∃ r', pop_n r max = (take (Z.to_nat max) q, Z.min (Z.of_nat (length q)) max, r')
           ∧ holds cap r' (drop (Z.to_nat max) q))
  ∧ len_approx r = Z.of_nat (length q).
Proof.
  intros Hc Hr Hmax. destruct (pop_holds cap r q Hc Hr) as [Hp1 Hp2].
  destruct (pop_n_holds cap r q max Hc Hr Hmax) as (r' & Hn & Hr').
  split_and!; [by apply push_holds|done|done| |by apply (holds_len cap)].
  exists r'. rewrite Hn. destruct (Nat.le_ge_cases (length q) (Z.to_nat max)) as [Hle|Hge].
  - rewrite Nat.min_l in * by done. rewrite !take_ge, !drop_ge in * by lia. split; [|done]. do 2 f_equal. lia.
  - rewrite Nat.min_r in * by done. split; [|done]. do 2 f_equal. lia.
Qed.

(** A worker runs what it accepted, in order, exactly once: after any
    sequence of submissions and drains, its engine is the fresh engine run on a
    prefix of the accepted commands and the ring holds the others; one more
    drain empties the ring, brings the engine to the state after all accepted
    commands, and returns the number of fills of that drain. *)
Theorem worker_runs_accepted {BI AI : Type} `{LB : LevelIndex BI} `{LA : LevelIndex AI}
    `{SB : !LevelIndexSpec BI Buy} `{SA : !LevelIndexSpec AI Sell} cap (ops : list WorkerOp) :
  cap_ok cap → Forall op_wf ops →
  ∃ (w : HpWorker BI AI) accepted, worker_run (worker_new cap) [] ops = Some (w, accepted)
    ∧ (∃ ran q evs, accepted = ran ++ q ∧ holds cap (w_ring w) q
         ∧ hp_run hp_engine_with_capacity ran = Some (evs, w_engine w))
    ∧ ∃ evs evs0 w', run_once w = Some (fill_count evs, w') ∧ holds cap (w_ring w') [] ∧ engine_ok (w_engine w')
        ∧ hp_run hp_engine_with_capacity accepted = Some (evs0 ++ evs, w_engine w').
Proof.
  intros Hc Hwf. destruct (worker_run_ok (BI:=BI) (AI:=AI) cap ops (worker_new cap) [] Hc Hwf) as (w & acc & Hr & Hw);
    [by apply worker_new_ok|].
  exists w, acc. split; [done|]. split.
  - destruct Hw as (_ & ran & q & ? & ? & _ & evs & ?). by exists ran, q, evs.
  - destruct (run_once_ok cap w acc Hc Hw) as (evs & w' & H1 & Hq & He & ran & q & _ & _ & _ & evs0 & Hrun).
    by exists evs, evs0, w'.
Qed.

(** C17.  [poll] with an idle limit ends: with nothing submitted meanwhile it
    drains the ring, brings the engine to the state after all accepted commands,
    returns the fills of that drain, and stops after [max 1 m] empty rounds. *)
Theorem poll_drains_and_stops {BI AI : Type} `{LB : LevelIndex BI} `{LA : LevelIndex AI}
    `{SB : !LevelIndexSpec BI Buy} `{SA : !LevelIndexSpec AI Sell} cap (w : HpWorker BI AI) accepted m :
  cap_ok cap → worker_ok cap w accepted → 0 <= m < 2 ^ 64 →
  ∃ evs evs0 w', poll_loop (S (S (Z.to_nat m))) w (Some m) 0 0 = Some (fill_count evs, w')
    ∧ holds cap (w_ring w') [] ∧ engine_ok (w_engine w')
    ∧ hp_run hp_engine_with_capacity accepted = Some (evs0 ++ evs, w_engine w').
Proof.
  intros Hc Hw Hm. destruct (run_once_ok cap w accepted Hc Hw)
    as (evs & w' & H1 & Hq & He & ran & q & Hacc & Hr & Hrun & evs0 & Hall).
  destruct q as [|cmd q].
  - cbn in Hrun. injection Hrun as <- Heng. exists [], evs0, w. rewrite Heng in *. split_and!; try done.
    apply (poll_idle cap); try done; lia.
  - exists evs, evs0, w'. split_and!; try done. unfold run_once in H1.
    set (fuel := S (Z.to_nat m)). assert (Hf : (Z.to_nat (m - 0) <= fuel ∧ 0 < fuel)%nat) by lia. clearbody fuel. cbn [poll_loop].
    destruct (pop_n_holds cap (w_ring w) (cmd :: q) (ring_capacity (w_ring w)) Hc Hr) as (r' & Hp & _);
      [destruct Hr as (Hmk & _); unfold ring_capacity; lia|].
    rewrite Hp in *. cbv zeta iota in *. destruct (ring_size_bounds cap Hc) as [H2 _].
    destruct (Z.eqb_spec (Z.of_nat (Nat.min (length (cmd :: q)) (Z.to_nat (ring_capacity (w_ring w))))) 0) as [Hz|_].
    { destruct Hr as (Hmk & _). unfold ring_capacity in Hz. cbn [length] in Hz. lia. }
    destruct (drain_batch (w_engine w) _ 0) as [[fills e]|]; [|done]. cbn [mbind option_bind] in *.
    injection H1 as -> <-. rewrite Z.add_0_l. apply (poll_idle cap); try done; lia.
Qed.

Module Witness.

Lemma cap3 : cap_ok 3.
Proof. unfold cap_ok. lia. Qed.

(** The producer is about to write while the consumer has a batch open. *)
Lemma ring_fifo_race_free_witness : ∃ s, ring_reachable 3 s
  ∧ pushed s = [Cancel 5] ∧ cons s = CTail 0 1 [] ∧ popped s `prefix_of` pushed s.
Proof.
  set (r0 := ring_with_capacity 3). set (r1 := write_slot r0 0 (Cancel 5)). set (r2 := store_tail r1 1).
  set (s := mkShared r2 PIdle (CTail 0 1 []) 0 1 [Cancel 5] []).
  assert (Hr : ring_reachable 3 s).
  { eapply ring_next; [|exact (pop_load_tail r2 PIdle 0 0 [Cancel 5] [] 1 0 1 ltac:(cbn; lia))].
    eapply ring_next; [|exact (pop_load_head r2 PIdle 0 0 [Cancel 5] [] 1 ltac:(lia))].
    eapply ring_next; [|exact (push_store_tail r1 CIdle 0 0 [] [] (Cancel 5) 0)].
    eapply ring_next; [|exact (push_write r0 CIdle 0 0 [] [] (Cancel 5) 0 0 ltac:(vm_compute; congruence))].
    eapply ring_next; [|exact (push_load_head r0 CIdle 0 0 [] [] (Cancel 5) 0 0 ltac:(cbn; lia))].
    eapply ring_next; [|exact (push_load_tail r0 CIdle 0 0 [] [] (Cancel 5))].
    apply ring_init. }
  exists s. split_and!; [exact Hr|reflexivity|reflexivity|].
  apply (ring_fifo_race_free 3 s cap3 Hr).
Defined.

Lemma ring_is_bounded_queue_witness :
  (try_pop (ring_with_capacity 3)).1 = None
  ∧ ∃ r', pop_n (ring_with_capacity 3) 2 = ([], 0, r') ∧ holds 3 r' [].
Proof.
  destruct (ring_is_bounded_queue 3 (ring_with_capacity 3) [] (Cancel 5) 2 cap3 (holds_new 3 cap3)) as (_ & H1 & _ & H2 & _);
    [lia|].
  split; [exact H1|exact H2].
Defined.

Lemma worker_runs_accepted_witness :
  ∃ (w : HpWorker BTreeBidIndex BTreeAskIndex) accepted,
    worker_run (worker_new 2) [] [Submit (Limit Sell 100 5 1 7); Submit (Limit Buy 100 2 2 8); Submit (Cancel 9); RunOnce]
      = Some (w, accepted)
    ∧ ∃ evs w', run_once w = Some (fill_count evs, w').
Proof.
  destruct (worker_runs_accepted (BI:=BTreeBidIndex) (AI:=BTreeAskIndex) 2
    [Submit (Limit Sell 100 5 1 7); Submit (Limit Buy 100 2 2 8); Submit (Cancel 9); RunOnce])
    as (w & acc & Hr & _ & evs & evs0 & w' & H1 & _).
  - unfold cap_ok. lia.
  - repeat constructor; cbn; unfold in_i64; lia.
  - exists w, acc. split; [exact Hr|]. exists evs, w'. exact H1.
Defined.

Lemma poll_drains_and_stops_witness :
  ∃ evs evs0 (w' : HpWorker BTreeBidIndex BTreeAskIndex),
    poll_loop (S (S (Z.to_nat 3))) (worker_new 4) (Some 3) 0 0 = Some (fill_count evs, w')
    ∧ holds 4 (w_ring w') [] ∧ engine_ok (w_engine w')
    ∧ hp_run hp_engine_with_capacity [] = Some (evs0 ++ evs, w_engine w').
Proof.
  apply (poll_drains_and_stops 4 (worker_new 4) [] 3); [unfold cap_ok; lia| |lia].
  apply worker_new_ok. unfold cap_ok. lia.
Defined.

End Witness.
