(* ===== verification/RaftFsm.v ===== *)
(** * match-raft-fsm: the replicated matching state machine

    Models [crates/match-raft-fsm/src/lib.rs]: the byte encoding of commands and
    events, and [MatchFsm], which applies log entries to one engine per group,
    skips entries whose idempotency key it has seen, and snapshots a group as
    the log that rebuilds it.  An indexing or slicing panic is [None]. *)
From stdpp Require Import gmap sorting.
From S2P Require Import Prelude HpTypes HpIndex HpBook HpEngine.

#[local] Open Scope Z_scope.

(** ** The wire format *)

Definition side_byte (s : Side) : Z := match s with Buy => 0 | Sell => 1 end.

Definition encode_command (cmd : HpCommand) (idem : Z) : list Z :=
  match cmd with
  | Limit s price_tick qty_lot ts client_id =>
      [0] ++ [side_byte s] ++ le_bytes 8 price_tick ++ le_bytes 8 qty_lot ++ le_bytes 8 ts
      ++ le_bytes 8 client_id ++ le_bytes 8 idem
  | Cancel i => [1] ++ le_bytes 8 i ++ le_bytes 8 idem
  | Market s qty_lot ts max_fills client_id =>
      [2] ++ [side_byte s] ++ le_bytes 8 qty_lot ++ le_bytes 8 ts ++ le_bytes 4 (default 0 max_fills)
      ++ le_bytes 8 client_id ++ le_bytes 8 idem
  end.

(** [p[from..to]], which panics past the end. *)
Definition rd (from to : nat) (p : list Z) : option (list Z) :=
  if (to <=? length p)%nat then Some (slice from to p) else None.

Definition rd_u64 (from : nat) (p : list Z) : option Z := le_val <$> rd from (from + 8) p.
Definition rd_i64 (from : nat) (p : list Z) : option Z := (λ b, i64_wrap (le_val b)) <$> rd from (from + 8) p.
Definition rd_u32 (from : nat) (p : list Z) : option Z := le_val <$> rd from (from + 4) p.
Definition rd_side (p : list Z) : option Side := (λ b, if b =? 0 then Buy else Sell) <$> p !! 1%nat.

Definition decode_command (p : list Z) : option (Z * HpCommand) :=
  tag ← p !! 0%nat;
  if tag =? 0 then
    side ← rd_side p; price ← rd_i64 2 p; qty ← rd_i64 10 p; ts ← rd_u64 18 p;
    client ← rd_u64 26 p; idem ← rd_u64 34 p;
    Some (idem, Limit side price qty ts client)
  else if tag =? 1 then
    i ← rd_u64 1 p; idem ← rd_u64 9 p;
    Some (idem, Cancel i)
  else
    side ← rd_side p; qty ← rd_i64 2 p; ts ← rd_u64 10 p; max_fills ← rd_u32 18 p;
    client ← rd_u64 22 p; idem ← rd_u64 30 p;
    Some (idem, Market side qty ts (if max_fills =? 0 then None else Some max_fills) client).

Definition encode_event (ev : HpEvent) : list Z :=
  match ev with
  | Fill maker_id taker_id maker_client taker_client price_tick qty_lot maker_open taker_open =>
      [0] ++ le_bytes 8 maker_id ++ le_bytes 8 taker_id ++ le_bytes 8 maker_client ++ le_bytes 8 taker_client
      ++ le_bytes 8 price_tick ++ le_bytes 8 qty_lot ++ le_bytes 8 maker_open ++ le_bytes 8 taker_open
  | Rest i client_id s price_tick qty_lot =>
      [1] ++ le_bytes 8 i ++ le_bytes 8 client_id ++ [side_byte s] ++ le_bytes 8 price_tick ++ le_bytes 8 qty_lot
  | Revoke i client_id reason => [2] ++ le_bytes 8 i ++ le_bytes 8 client_id ++ le_bytes 1 reason
  end.

Fixpoint encode_events (evs : list HpEvent) : list Z :=
  match evs with [] => [] | ev :: evs => encode_event ev ++ encode_events evs end.

(** ** The state machine *)
Section Fsm.
Context {BI AI : Type} `{LB : LevelIndex BI} `{LA : LevelIndex AI}.

Record MatchState := mkMatchState {
  fsm_engine : HpEngine BI AI; fsm_cmds : list Z; fsm_idem : gset Z; fsm_fills : Z; fsm_revokes : Z }.

(** [MatchState::default] *)
Definition match_state_default : MatchState := mkMatchState hp_engine_new [] ∅ 0 0.

Definition is_fill (ev : HpEvent) : bool := match ev with Fill _ _ _ _ _ _ _ _ => true | _ => false end.
Definition is_revoke_event (ev : HpEvent) : bool := match ev with Revoke _ _ _ => true | _ => false end.

Definition count (f : HpEvent → bool) (evs : list HpEvent) : Z := Z.of_nat (length (filter (λ ev, f ev = true) evs)).

(** What [apply] and [replay_all] both do with a decoded command. *)
Definition exec (st : MatchState) (cmd : HpCommand) : option (list HpEvent * MatchState) :=
  '(evs, e) ← hp_on_order (fsm_engine st) cmd;
  Some (evs, mkMatchState e (fsm_cmds st) (fsm_idem st)
               (u64_wrap (fsm_fills st + count is_fill evs)) (u64_wrap (fsm_revokes st + count is_revoke_event evs))).

Definition add_idem (k : Z) (st : MatchState) : MatchState :=
  mkMatchState (fsm_engine st) (fsm_cmds st) ({[k]} ∪ fsm_idem st) (fsm_fills st) (fsm_revokes st).
Definition set_cmds (c : list Z) (st : MatchState) : MatchState :=
  mkMatchState (fsm_engine st) c (fsm_idem st) (fsm_fills st) (fsm_revokes st).

(** The loop of [replay_all]. *)
Fixpoint replay_loop (fuel : nat) (off : nat) (cmds : list Z) (st : MatchState) : option MatchState :=
  match fuel with
  | O => None
  | S fuel =>
      if (off + 4 <=? length cmds)%nat then
        let len := Z.to_nat (le_val (slice off (off + 4) cmds)) in
        if (length cmds <? off + 4 + len)%nat then Some st
        else
          '(idem, cmd) ← decode_command (slice (off + 4) (off + 4 + len) cmds);
          '(_, st) ← exec (add_idem idem st) cmd;
          replay_loop fuel (off + 4 + len) cmds st
      else Some st
  end.

Definition replay_all (st : MatchState) : option MatchState :=
  let cmds := fsm_cmds st in
  st ← replay_loop (S (length cmds)) 0 cmds (set_cmds [] st);
  Some (set_cmds cmds st).

(** [MatchFsm]: one state per group. *)
Abbreviation MatchFsm := (gmap Z MatchState).

Definition frame (data : list Z) : list Z := le_bytes 4 (u32_wrap (Z.of_nat (length data))) ++ data.

(** [apply] on the state of its group: the effects and the new state. *)
Definition apply_state (st : MatchState) (data : list Z) : option (list Z * MatchState) :=
  '(idem, cmd) ← decode_command data;
  if decide (idem ∈ fsm_idem st) then Some ([], st)
  else
    let st := add_idem idem st in
    let st := set_cmds (fsm_cmds st ++ frame data) st in
    '(evs, st) ← exec st cmd;
    Some (encode_events evs, st).

Definition fsm_apply (fsm : MatchFsm) (group : Z) (data : list Z) : option (list Z * MatchFsm) :=
  let st := default match_state_default (fsm !! group) in
  '(effects, st) ← apply_state st data;
  Some (effects, <[group := st]> fsm).

(** [summary] *)
Record MatchSummary := mkSummary {
  applied_orders : Z; sum_fills : Z; sum_revokes : Z; sum_best_bid : option Z; sum_best_ask : option Z; live_orders : Z }.

Definition fsm_summary (fsm : MatchFsm) (group : Z) : option MatchSummary :=
  st ← fsm !! group;
  Some (mkSummary (Z.of_nat (size (fsm_idem st))) (fsm_fills st) (fsm_revokes st)
          (best_bid (book (fsm_engine st))) (best_ask (book (fsm_engine st))) (live_len (store (book (fsm_engine st))))).

(** ** Snapshots *)

Inductive MatchFsmError := DecodeError | BincodeError.

Section Snapshot.
(** [bincode::serialize] and [bincode::deserialize] at the snapshot's type. *)
Variables (serialize : list Z * gset Z → option (list Z)) (deserialize : list Z → option (list Z * gset Z)).

Definition fsm_snapshot (fsm : MatchFsm) (group : Z) : MatchFsmError + list Z :=
  match fsm !! group with
  | None => inl DecodeError
  | Some st => match serialize (fsm_cmds st, fsm_idem st) with Some b => inr b | None => inl BincodeError end
  end.

(** [restore]; [None] when replaying panics. *)
Definition fsm_restore (fsm : MatchFsm) (group : Z) (snapshot : list Z) : option (MatchFsmError + MatchFsm) :=
  match deserialize snapshot with
  | None => Some (inl BincodeError)
  | Some (cmds, idem) =>
      st ← replay_all (mkMatchState hp_engine_new cmds idem 0 0);
      Some (inr (<[group := st]> fsm))
  end.
End Snapshot.

(** A log: entries applied in order, each to its group. *)
Fixpoint fsm_run (fsm : MatchFsm) (l : list (Z * list Z)) : option MatchFsm :=
  match l with
  | [] => Some fsm
  | (g, data) :: l => '(_, fsm) ← fsm_apply fsm g data; fsm_run fsm l
  end.
End Fsm.
#[global] Arguments MatchState : clear implicits.

(** ** Reading back what was written *)

Lemma rd_skip pre p from to :
  (length pre <= from)%nat → (from <= to)%nat → rd from to (pre ++ p) = rd (from - length pre) (to - length pre) p.
Proof.
  intros Hf Ht. unfold rd. rewrite length_app, slice_app_skip by done.
  destruct (Nat.leb_spec to (length pre + length p)), (Nat.leb_spec (to - length pre) (length p)); done || lia.
Qed.

Lemma rd_here a p n : n = length a → rd 0 n (a ++ p) = Some a.
Proof.
  intros Hn. unfold rd. rewrite length_app, (proj2 (Nat.leb_le _ _)) by lia. by rewrite slice_app_here.
Qed.

Lemma rd_last a n : n = length a → rd 0 n a = Some a.
Proof. intros Hn. unfold rd. rewrite (proj2 (Nat.leb_le _ _)) by lia. by rewrite slice_all. Qed.

(** Steps over the fields in front of the one that is read. *)
Ltac read_field :=
  repeat (rewrite rd_skip by (rewrite ?length_le_bytes; cbn; lia); rewrite ?length_le_bytes; cbn [length Nat.sub]);
  (rewrite rd_here by (rewrite ?length_le_bytes; done)) || (rewrite rd_last by (rewrite ?length_le_bytes; done)).

(** The fields of a command are within their machine types; [Some 0] is written as [None]. *)
Definition command_fields_ok (cmd : HpCommand) : Prop :=
  match cmd with
  | Limit _ p q ts c => in_i64 p ∧ in_i64 q ∧ in_u64 ts ∧ in_u64 c
  | Cancel i => in_u64 i
  | Market _ q ts mx c => in_i64 q ∧ in_u64 ts ∧ in_u64 c ∧ (∀ n, mx = Some n → in_u32 n ∧ n ≠ 0)
  end.

Lemma decode_encode cmd idem :
  command_fields_ok cmd → in_u64 idem → decode_command (encode_command cmd idem) = Some (idem, cmd).
Proof.
  intros Hc Hi. destruct cmd as [s p q ts c|i|s q ts mx c]; cbn [command_fields_ok] in Hc.
  - destruct Hc as (Hp & Hq & Hts & Hcl).
    assert (Hs : rd_side (encode_command (Limit s p q ts c) idem) = Some s) by (by destruct s).
    unfold decode_command. rewrite Hs. change (encode_command (Limit s p q ts c) idem !! 0%nat) with (Some 0).
    unfold rd_i64, rd_u64. cbn [encode_command Nat.add mbind option_bind Z.eqb Pos.eqb].
    do 5 (read_field; cbn [fmap option_fmap option_map mbind option_bind]).
    by rewrite !le_val_i64, !le_val_u64 by done.
  - unfold decode_command. change (encode_command (Cancel i) idem !! 0%nat) with (Some 1).
    unfold rd_u64. cbn [encode_command Nat.add mbind option_bind Z.eqb Pos.eqb].
    do 2 (read_field; cbn [fmap option_fmap option_map mbind option_bind]).
    by rewrite !le_val_u64 by done.
  - destruct Hc as (Hq & Hts & Hcl & Hmx).
    assert (Hs : rd_side (encode_command (Market s q ts mx c) idem) = Some s) by (by destruct s).
    unfold decode_command. rewrite Hs. change (encode_command (Market s q ts mx c) idem !! 0%nat) with (Some 2).
    unfold rd_i64, rd_u64, rd_u32. cbn [encode_command Nat.add mbind option_bind Z.eqb Pos.eqb].
    do 5 (read_field; cbn [fmap option_fmap option_map mbind option_bind]).
    rewrite le_val_i64, !le_val_u64 by done. destruct mx as [n|]; [|done].
    destruct (Hmx n eq_refl) as [Hn Hn0]. change (default 0 (Some n)) with n. rewrite le_val_u32 by done.
    by destruct (Z.eqb_spec n 0).
Qed.

(** ** The effects determine the events *)

Definition event_fields_ok (ev : HpEvent) : Prop :=
  match ev with
  | Fill a b c d p q x y => in_u64 a ∧ in_u64 b ∧ in_u64 c ∧ in_u64 d ∧ in_i64 p ∧ in_i64 q ∧ in_i64 x ∧ in_i64 y
  | Rest i c _ p q => in_u64 i ∧ in_u64 c ∧ in_i64 p ∧ in_i64 q
  | Revoke i c r => in_u64 i ∧ in_u64 c ∧ in_u8 r
  end.

Lemma le_bytes_inj_u64 x y p q :
  in_u64 x → in_u64 y → le_bytes 8 x ++ p = le_bytes 8 y ++ q → x = y ∧ p = q.
Proof.
  intros Hx Hy [He Hpq]%app_inj_1; [|by rewrite !length_le_bytes]. split; [|done].
  by rewrite <- (le_val_u64 x), <- (le_val_u64 y), He.
Qed.

Lemma le_bytes_inj_i64 x y p q :
  in_i64 x → in_i64 y → le_bytes 8 x ++ p = le_bytes 8 y ++ q → x = y ∧ p = q.
Proof.
  intros Hx Hy [He Hpq]%app_inj_1; [|by rewrite !length_le_bytes]. split; [|done].
  by rewrite <- (le_val_i64 x), <- (le_val_i64 y), He.
Qed.

Lemma le_bytes_inj_u8 x y p q :
  in_u8 x → in_u8 y → le_bytes 1 x ++ p = le_bytes 1 y ++ q → x = y ∧ p = q.
Proof.
  unfold in_u8. intros Hx Hy [= He Hpq]. by rewrite !Z.mod_small in He by lia.
Qed.

(** Peels equal fields off two encodings. *)
Ltac peel H :=
  repeat first
    [ apply le_bytes_inj_u64 in H as [? H]; [|done|done]
    | apply le_bytes_inj_i64 in H as [? H]; [|done|done]
    | apply le_bytes_inj_u8 in H as [? H]; [|done|done] ].

Lemma encode_event_inj e1 e2 p q :
  event_fields_ok e1 → event_fields_ok e2 → encode_event e1 ++ p = encode_event e2 ++ q → e1 = e2 ∧ p = q.
Proof.
  intros H1 H2 He.
  destruct e1 as [a b c d x y z w|i c s x y|i c r], e2 as [a' b' c' d' x' y' z' w'|i' c' s' x' y'|i' c' r'];
    cbn [encode_event event_fields_ok] in *; try discriminate; rewrite <- ?app_assoc in He;
    apply app_inj_1 in He as [_ He]; try done; destruct_and?.
  - peel He. by subst.
  - peel He. apply app_inj_1 in He as [Hs He]; [|done]. peel He. assert (s = s') by (by destruct s, s'). by subst.
  - peel He. by subst.
Qed.

Lemma encode_events_inj l1 : ∀ l2,
  Forall event_fields_ok l1 → Forall event_fields_ok l2 → encode_events l1 = encode_events l2 → l1 = l2.
Proof.
  induction l1 as [|e1 l1 IH]; intros [|e2 l2] H1 H2 He; [done| | |].
  - by destruct e2.
  - by destruct e1.
  - apply Forall_cons in H1 as [H1 Hl1], H2 as [H2 Hl2]. cbn [encode_events] in He.
    apply encode_event_inj in He as [-> He]; [|done|done]. f_equal. by apply IH.
Qed.
