(* ===== verification/RaftProps.v ===== *)
(** * match-raft-fsm: the properties of the replicated state machine *)
From stdpp Require Import gmap sorting.
From S2P Require Import Prelude HpTypes HpIndex HpBook HpEngine RaftFsm.

#[local] Open Scope Z_scope.

Lemma length_frame data : length (frame data) = (4 + length data)%nat.
Proof. unfold frame. by rewrite length_app, length_le_bytes. Qed.

Section Log.
Context {BI AI : Type} `{LB : LevelIndex BI} `{LA : LevelIndex AI}.
Implicit Types (st : MatchState BI AI) (fsm : gmap Z (MatchState BI AI)) (l : list (Z * HpCommand)).

(** Commands played on a state, their keys noted: what a log of entries amounts to. *)
Fixpoint play (st : MatchState BI AI) (l : list (Z * HpCommand)) : option (MatchState BI AI) :=
  match l with
  | [] => Some st
  | (k, c) :: l => '(_, st) ← exec (add_idem k st) c; play st l
  end.

Lemma play_app l1 l2 st : play st (l1 ++ l2) = play st l1 ≫= λ st, play st l2.
Proof.
  revert st; induction l1 as [|[k c] l1 IH]; intros st; [done|]. cbn [app play].
  destruct (exec (add_idem k st) c) as [[evs st']|]; cbn [mbind option_bind]; [apply IH|done].
Qed.

(** Playing only adds to the keys and leaves the stored log alone. *)
Lemma play_frame l : ∀ e c X f r,
  play (mkMatchState e c X f r) l
  = (λ st, mkMatchState (fsm_engine st) c (list_to_set l.*1 ∪ X) (fsm_fills st) (fsm_revokes st))
    <$> play (mkMatchState e [] ∅ f r) l.
Proof.
  induction l as [|[k cmd] l IH]; intros e c X f r.
  { cbn. do 2 f_equal. set_solver. }
  cbn [play fmap list_fmap fst list_to_set]. unfold exec, add_idem. cbn [fsm_engine fsm_cmds fsm_idem fsm_fills fsm_revokes].
  destruct (hp_on_order e cmd) as [[evs e']|]; [|done]. cbn [mbind option_bind].
  rewrite (IH _ c ({[k]} ∪ X)), (IH _ [] ({[k]} ∪ ∅)).
  destruct (play (mkMatchState e' [] ∅ _ _) l) as [st|]; [|done]. cbn. do 2 f_equal. set_solver.
Qed.

(** An entry of the log and the command it holds. *)
Definition entry_of (data : list Z) (kc : Z * HpCommand) : Prop :=
  decode_command data = Some kc ∧ in_u32 (Z.of_nat (length data)).

Lemma replay_loop_frames datas : ∀ l fuel pre st,
  Forall2 entry_of datas l → (length datas < fuel)%nat →
  replay_loop fuel (length pre) (pre ++ concat (frame <$> datas)) st = play st l.
Proof.
  induction datas as [|d datas IH]; intros l fuel pre st Hl Hf; inversion Hl as [|? [k c] ? ? [Hd Hlen]]; subst;
    (destruct fuel as [|fuel]; [cbn in Hf; lia|]); cbn [replay_loop].
  - cbn [fmap list_fmap concat]. rewrite app_nil_r. by rewrite (proj2 (Nat.leb_gt _ _)) by lia.
  - cbn [fmap list_fmap concat]. set (rest := concat (frame <$> datas)). set (h := le_bytes 4 (Z.of_nat (length d))).
    assert (Hfr : frame d = h ++ d) by (unfold frame; by rewrite u32_wrap_id). rewrite Hfr.
    assert (Hh : length h = 4%nat) by apply length_le_bytes. rewrite <- !app_assoc.
    rewrite !length_app, Hh, (proj2 (Nat.leb_le _ _)) by lia.
    rewrite slice_app_skip by lia. rewrite Nat.sub_diag.
    replace (length pre + 4 - length pre)%nat with 4%nat by lia. rewrite slice_app_here by (by rewrite Hh).
    assert (Hv : le_val h = Z.of_nat (length d)) by (by apply le_val_u32). rewrite Hv, Nat2Z.id.
    rewrite (proj2 (Nat.ltb_ge _ _)) by lia.
    assert (Hs : slice (length pre + 4) (length pre + 4 + length d) (pre ++ h ++ d ++ rest) = d).
    { rewrite slice_app_skip by lia. rewrite slice_app_skip by lia. rewrite Hh.
      replace (length pre + 4 - length pre - 4)%nat with 0%nat by lia.
      by replace (length pre + 4 + length d - length pre - 4)%nat with (length d) by lia; rewrite slice_app_here. }
    rewrite Hs, Hd. cbn [mbind option_bind play]. destruct (exec (add_idem k st) c) as [[evs st']|]; [|done].
    cbn [mbind option_bind]. rewrite <- (IH _ fuel (pre ++ h ++ d) st') by (done || (cbn in Hf; lia)).
    rewrite <- !app_assoc, !length_app, Hh. by replace (length pre + 4 + length d)%nat with (length pre + (4 + length d))%nat by lia.
Qed.

(** The state is what its own log rebuilds, and every logged key is noted. *)
Definition logged st : Prop :=
  ∃ datas l, Forall2 entry_of datas l ∧ fsm_cmds st = concat (frame <$> datas)
    ∧ fsm_idem st = list_to_set l.*1 ∧ play match_state_default l = Some (set_cmds [] st).

Lemma logged_default : logged match_state_default.
Proof. by exists [], []. Qed.

Lemma apply_logged st data out st' :
  logged st → in_u32 (Z.of_nat (length data)) → apply_state st data = Some (out, st') → logged st'.
Proof.
  intros (datas & l & Hl & Hc & Hi & Hp) Hlen Ha. unfold apply_state in Ha.
  destruct (decode_command data) as [[k c]|] eqn:Hd; [|done]. cbn [mbind option_bind] in Ha.
  case_decide as Hk; [by simplify_eq; exists datas, l|].
  unfold exec in Ha. cbn [fsm_engine set_cmds add_idem] in Ha.
  destruct (hp_on_order (fsm_engine st) c) as [[evs e]|] eqn:Ho; [|done]. cbn in Ha. simplify_eq.
  exists (datas ++ [data]), (l ++ [(k, c)]). cbn [fsm_cmds fsm_idem]. split_and!.
  - apply Forall2_app; [done|]. by constructor.
  - rewrite Hc, fmap_app, concat_app. cbn. by rewrite app_nil_r.
  - rewrite Hi, fmap_app, list_to_set_app_L. cbn. set_solver.
  - rewrite play_app, Hp. cbn [mbind option_bind play]. unfold exec. cbn [fsm_engine add_idem set_cmds].
    rewrite Ho. done.
Qed.

(** Replaying the log of such a state, its keys already known, gives it back. *)
Lemma replay_logged st :
  logged st → replay_all (mkMatchState hp_engine_new (fsm_cmds st) (fsm_idem st) 0 0) = Some st.
Proof.
  intros (datas & l & Hl & Hc & Hi & Hp). unfold replay_all, set_cmds.
  cbn [fsm_cmds fsm_engine fsm_idem fsm_fills fsm_revokes].
  assert (Hlen : (length datas <= length (fsm_cmds st))%nat).
  { rewrite Hc. clear. induction datas as [|d datas IH]; [cbn; lia|].
    rewrite fmap_cons. cbn [concat length]. rewrite length_app, length_frame. lia. }
  pose proof (replay_loop_frames datas l (S (length (fsm_cmds st))) []
    (mkMatchState hp_engine_new [] (fsm_idem st) 0 0) Hl ltac:(lia)) as Hr.
  cbn [app length] in Hr. rewrite <- Hc in Hr. rewrite Hr, play_frame.
  change (mkMatchState hp_engine_new [] ∅ 0 0) with (match_state_default (BI:=BI) (AI:=AI)). rewrite Hp.
  destruct st as [e c X f r]. cbn in *. do 2 f_equal. set_solver.
Qed.

Lemma fsm_apply_inv fsm g data out fsm' :
  fsm_apply fsm g data = Some (out, fsm') →
  ∃ st', apply_state (default match_state_default (fsm !! g)) data = Some (out, st') ∧ fsm' = <[g := st']> fsm.
Proof.
  unfold fsm_apply. destruct (apply_state _ data) as [[o st']|]; [|done]. cbn. intros [= <- <-]. by exists st'.
Qed.

Lemma fsm_run_logged log : ∀ fsm fsm',
  (∀ g st, fsm !! g = Some st → logged st) → Forall (λ gd, in_u32 (Z.of_nat (length gd.2))) log →
  fsm_run fsm log = Some fsm' → ∀ g st, fsm' !! g = Some st → logged st.
Proof.
  induction log as [|[g data] log IH]; intros fsm fsm' Hinv Hlen Hr; [cbn in Hr; by simplify_eq|].
  apply Forall_cons in Hlen as [Hl Hlen]. cbn [fsm_run] in Hr.
  destruct (fsm_apply fsm g data) as [[out fsm1]|] eqn:Ha; [|done]. cbn [mbind option_bind] in Hr.
  eapply IH; [|exact Hlen|exact Hr]. apply fsm_apply_inv in Ha as (st' & Ha & ->).
  intros g' st. rewrite lookup_insert_Some. intros [[<- <-]|[_ Hg]]; [|by eapply Hinv].
  eapply apply_logged; [|exact Hl|exact Ha]. destruct (fsm !! g) as [st0|] eqn:Hg; [by eapply Hinv|apply logged_default].
Qed.

(** ** Keys once seen stay *)

Definition seen fsm g (k : Z) : Prop := ∃ st, fsm !! g = Some st ∧ k ∈ fsm_idem st.

Lemma apply_state_keys st data out st' k c :
  decode_command data = Some (k, c) → apply_state st data = Some (out, st') →
  fsm_idem st' = {[k]} ∪ fsm_idem st ∧ (k ∈ fsm_idem st → st' = st ∧ out = []).
Proof.
  intros Hd. unfold apply_state. rewrite Hd. cbn [mbind option_bind]. case_decide as Hk.
  - intros [= <- <-]. split; [set_solver|done].
  - unfold exec. cbn [fsm_engine set_cmds add_idem]. destruct (hp_on_order _ c) as [[evs e]|]; [|done].
    cbn. intros [= <- <-]. by split.
Qed.

Lemma fsm_apply_seen fsm g data out fsm' g' k :
  fsm_apply fsm g data = Some (out, fsm') →
  (seen fsm g' k ∨ g' = g ∧ ∃ c, decode_command data = Some (k, c)) → seen fsm' g' k.
Proof.
  intros (st' & Ha & ->)%fsm_apply_inv Hs.
  destruct (decode_command data) as [[k0 c]|] eqn:Hd; [|by unfold apply_state in Ha; rewrite Hd in Ha].
  destruct (apply_state_keys _ _ _ _ k0 c Hd Ha) as [Hk _].
  destruct Hs as [(st & Hg & Hin)|[-> [c' [= -> ->]]]].
  - destruct (decide (g = g')) as [->|Hne].
    + exists st'. rewrite lookup_insert_eq, Hk, Hg. cbn. split; [done|set_solver].
    + exists st. by rewrite lookup_insert_ne.
  - exists st'. rewrite lookup_insert_eq, Hk. split; [done|set_solver].
Qed.

Lemma fsm_run_seen log : ∀ fsm fsm' g k, fsm_run fsm log = Some fsm' → seen fsm g k → seen fsm' g k.
Proof.
  induction log as [|[g0 data] log IH]; intros fsm fsm' g k Hr Hs; [cbn in Hr; by simplify_eq|].
  cbn [fsm_run] in Hr. destruct (fsm_apply fsm g0 data) as [[out fsm1]|] eqn:Ha; [|done].
  eapply IH; [exact Hr|]. eapply fsm_apply_seen; [exact Ha|]. by left.
Qed.

Lemma fsm_apply_retry fsm g data k c :
  decode_command data = Some (k, c) → seen fsm g k → fsm_apply fsm g data = Some ([], fsm).
Proof.
  intros Hd (st & Hg & Hk). unfold fsm_apply, apply_state. rewrite Hg, Hd. cbn [default mbind option_bind].
  change (default match_state_default (Some st)) with st. rewrite decide_True by done. cbn. by rewrite insert_id.
Qed.

Lemma fsm_run_app (l1 : list (Z * list Z)) : ∀ (l2 : list (Z * list Z)) fsm, fsm_run fsm (l1 ++ l2) = fsm_run fsm l1 ≫= λ fsm, fsm_run fsm l2.
Proof.
  induction l1 as [|[g d] l1 IH]; intros l2 fsm; [done|]. cbn [app fsm_run].
  destruct (fsm_apply fsm g d) as [[out fsm1]|]; cbn [mbind option_bind]; [apply IH|done].
Qed.
End Log.

Section Props.
Context {BI AI : Type} `{LB : LevelIndex BI} `{LA : LevelIndex AI}
  `{SB : !LevelIndexSpec BI Buy} `{SA : !LevelIndexSpec AI Sell}.
Implicit Types (fsm : gmap Z (MatchState BI AI)).

(** A command survives the log: what [encode_command] writes,
    [decode_command] reads back with its idempotency key, for every command
    whose fields are within their types and whose trade limit is not [Some 0]. *)
Theorem command_roundtrip cmd idem :
  command_fields_ok cmd → in_u64 idem → decode_command (encode_command cmd idem) = Some (idem, cmd).
Proof. apply decode_encode. Qed.

(** C21.  Retries are harmless: once an entry with some key has been applied to a
    group, an entry with that key for that group, whatever else was applied in
    between, has no effect, so a log with the retry and the log without it give
    the same machine. *)
Theorem retry_is_harmless fsm (l1 l2 l3 : list (Z * list Z)) g d d' k c c' :
  decode_command d = Some (k, c) → decode_command d' = Some (k, c') →
  fsm_run fsm (l1 ++ (g, d) :: l2 ++ (g, d') :: l3) = fsm_run fsm (l1 ++ (g, d) :: l2 ++ l3)
  ∧ ∀ fsm', fsm_run fsm (l1 ++ (g, d) :: l2) = Some fsm' → fsm_apply fsm' g d' = Some ([], fsm').
Proof.
  intros Hd Hd'.
  assert (Hret : ∀ fsm', fsm_run fsm (l1 ++ (g, d) :: l2) = Some fsm' → fsm_apply fsm' g d' = Some ([], fsm')).
  { intros fsm'. rewrite fsm_run_app. destruct (fsm_run fsm l1) as [fsm1|]; [|done]. cbn [mbind option_bind fsm_run].
    destruct (fsm_apply fsm1 g d) as [[out fsm2]|] eqn:Ha; [|done]. cbn [mbind option_bind]. intros Hr.
    apply (fsm_apply_retry fsm' g d' k c' Hd'). eapply fsm_run_seen; [exact Hr|].
    eapply fsm_apply_seen; [exact Ha|]. right. split; [done|]. by exists c. }
  split; [|exact Hret].
  change (l1 ++ (g, d) :: l2 ++ (g, d') :: l3) with (l1 ++ ((g, d) :: l2) ++ (g, d') :: l3).
  change (l1 ++ (g, d) :: l2 ++ l3) with (l1 ++ ((g, d) :: l2) ++ l3).
  rewrite !app_assoc, !(fsm_run_app (l1 ++ (g, d) :: l2)).
  destruct (fsm_run fsm (l1 ++ (g, d) :: l2)) as [fsm'|]; [|done]. cbn [mbind option_bind fsm_run].
  by rewrite Hret.
Qed.

(** C20.  A snapshot restores the state exactly.  Whatever log was applied (its
    entries shorter than 4 GiB), snapshotting a group and restoring it, on this
    or on another node, replays to the same engine, key set, log and counters;
    given that [bincode] reads back what it wrote. *)
Theorem snapshot_restore_exact
    (serialize : list Z * gset Z → option (list Z)) (deserialize : list Z → option (list Z * gset Z))
    (Hbincode : ∀ x, ∃ b, serialize x = Some b ∧ deserialize b = Some x)
    (log : list (Z * list Z)) fsm other g st :
  Forall (λ gd, in_u32 (Z.of_nat (length gd.2))) log →
  fsm_run ∅ log = Some fsm → fsm !! g = Some st →
  ∃ b, fsm_snapshot serialize fsm g = inr b
    ∧ fsm_restore deserialize other g b = Some (inr (<[g := st]> other)).
Proof.
  intros Hlen Hr Hg.
  assert (Hl : logged st).
  { eapply fsm_run_logged; [|exact Hlen|exact Hr|exact Hg]. intros ? ?. by rewrite lookup_empty. }
  destruct (Hbincode (fsm_cmds st, fsm_idem st)) as (b & Hs & Hd). exists b.
  unfold fsm_snapshot, fsm_restore. rewrite Hg, Hs, Hd. split; [done|]. by rewrite (replay_logged st Hl).
Qed.

(** The machine never gets stuck: a log whose entries hold well-formed
    commands is applied to the end, and every group's engine is then sound. *)
Theorem fsm_log_applies (log : list (Z * list Z)) :
  Forall (λ gd, ∃ k c, decode_command gd.2 = Some (k, c) ∧ wf_command c) log →
  ∃ fsm, fsm_run ∅ log = Some fsm ∧ ∀ g st, fsm !! g = Some st → engine_ok (fsm_engine st).
Proof.
  assert (Hgen : ∀ fsm, (∀ g st, fsm !! g = Some st → engine_ok (fsm_engine st)) →
    Forall (λ gd, ∃ k c, decode_command gd.2 = Some (k, c) ∧ wf_command c) log →
    ∃ fsm', fsm_run fsm log = Some fsm' ∧ ∀ g st, fsm' !! g = Some st → engine_ok (fsm_engine st)).
  { induction log as [|[g data] log IH]; intros fsm Hok Hlog; [by exists fsm|].
    apply Forall_cons in Hlog as [(k & c & Hd & Hwf) Hlog]. cbn [snd] in Hd.
    assert (Hst : engine_ok (fsm_engine (default match_state_default (fsm !! g)))).
    { destruct (fsm !! g) as [st|] eqn:Hg; [by eapply Hok|apply hp_engine_new_ok]. }
    destruct (hp_on_order_ok _ c Hst Hwf) as (evs & e & Ho & He).
    assert (Ha : ∃ out st', apply_state (default match_state_default (fsm !! g)) data = Some (out, st')
                            ∧ engine_ok (fsm_engine st')).
    { unfold apply_state. rewrite Hd. cbn [mbind option_bind]. case_decide; [by eexists _, _|].
      unfold exec. cbn [fsm_engine set_cmds add_idem]. rewrite Ho. by eexists _, _. }
    destruct Ha as (out & st' & Ha & Hst'). cbn [fsm_run]. unfold fsm_apply. rewrite Ha. cbn [mbind option_bind].
    apply IH; [|done]. intros g' st. rewrite lookup_insert_Some. intros [[<- <-]|[_ Hg]]; [done|by eapply Hok]. }
  intros Hlog. apply Hgen; [|done]. intros g st. by rewrite lookup_empty.
Qed.

End Props.

(** The effects a proposer gets back determine the trade reports: two event
    lists with the same encoding are equal. *)
Theorem effects_determine_events l1 l2 :
  Forall event_fields_ok l1 → Forall event_fields_ok l2 → encode_events l1 = encode_events l2 → l1 = l2.
Proof. apply encode_events_inj. Qed.

Module Witness.

Abbreviation fsm_t := (gmap Z (MatchState BTreeBidIndex BTreeAskIndex)).

Definition c1 : HpCommand := Limit Sell 100 5 1 7.
Definition c2 : HpCommand := Market Buy 3 2 (Some 4) 8.
Definition d1 : list Z := encode_command c1 41.
Definition d2 : list Z := encode_command c2 42.

Lemma command_roundtrip_witness : decode_command d2 = Some (42, c2).
Proof.
  apply command_roundtrip.
  - cbn. unfold in_i64, in_u64. split_and!; try lia. intros n [= <-]. unfold in_u32. lia.
  - unfold in_u64. lia.
Defined.

Lemma retry_is_harmless_witness :
  fsm_run (∅ : fsm_t) ([] ++ (1, d1) :: [(1, d2)] ++ (1, d1) :: [(2, d1)])
  = fsm_run (∅ : fsm_t) ([] ++ (1, d1) :: [(1, d2)] ++ [(2, d1)]).
Proof. apply (retry_is_harmless ∅ [] [(1, d2)] [(2, d1)] 1 d1 d1 41 c1 c1); vm_compute; reflexivity. Defined.

(** A stand-in for [bincode]: the length of the log, the log, the keys. *)
Definition ser (x : list Z * gset Z) : option (list Z) := Some (Z.of_nat (length x.1) :: x.1 ++ elements x.2).
Definition deser (b : list Z) : option (list Z * gset Z) :=
  match b with
  | [] => None
  | n :: b => Some (take (Z.to_nat n) b, list_to_set (drop (Z.to_nat n) b))
  end.

Lemma log_short : Forall (λ gd : Z * list Z, in_u32 (Z.of_nat (length gd.2))) [(1, d1); (1, d2)].
Proof. apply Forall_cons_2; [by vm_compute|]. by apply Forall_cons_2; [by vm_compute|]. Qed.

Lemma snapshot_restore_exact_witness :
  ∃ (fsm : fsm_t) st b, fsm_run ∅ [(1, d1); (1, d2)] = Some fsm ∧ fsm !! 1 = Some st
    ∧ fsm_snapshot ser fsm 1 = inr b ∧ fsm_restore deser (∅ : fsm_t) 1 b = Some (inr {[1 := st]}).
Proof.
  destruct (fsm_run (∅ : fsm_t) [(1, d1); (1, d2)]) as [fsm|] eqn:Hr; [|by vm_compute in Hr].
  destruct (fsm !! 1) as [st|] eqn:Hg.
  2: { exfalso. revert Hr Hg. unfold fsm_run, fsm_apply.
       repeat (destruct (apply_state _ _) as [[??]|]; [cbn [mbind option_bind]|done]).
       intros [= <-]. by rewrite lookup_insert_eq. }
  assert (Hrt : ∀ x, ∃ b, ser x = Some b ∧ deser b = Some x).
  { intros [c X]. eexists. split; [reflexivity|]. unfold deser. cbn [fst snd]. rewrite Nat2Z.id.
    rewrite take_app_length, drop_app_length. by rewrite list_to_set_elements_L. }
  destruct (snapshot_restore_exact (BI:=BTreeBidIndex) (AI:=BTreeAskIndex) ser deser Hrt
    [(1, d1); (1, d2)] fsm ∅ 1 st) as (b & Hs & Hd).
  - exact log_short.
  - exact Hr.
  - exact Hg.
  - exists fsm, st, b. split_and!; [reflexivity|exact Hg|exact Hs|exact Hd].
Defined.

Lemma fsm_log_applies_witness : ∃ fsm : fsm_t, fsm_run ∅ [(1, d1); (1, d2); (1, d1)] = Some fsm.
Proof.
  destruct (fsm_log_applies (BI:=BTreeBidIndex) (AI:=BTreeAskIndex) [(1, d1); (1, d2); (1, d1)]) as (fsm & Hr & _).
  - repeat constructor; eexists _, _; (split; [vm_compute; reflexivity|]); cbn; unfold in_i64; split; try lia.
    intros m [= <-]. unfold in_u32. lia.
  - by exists fsm.
Defined.

Lemma effects_determine_events_witness :
  encode_events [Revoke 1 7 0; Rest 2 8 Buy 99 3] = encode_events ([Revoke 1 7 0] ++ [Rest 2 8 Buy 99 3])
  ∧ [Revoke 1 7 0; Rest 2 8 Buy 99 3] = [Revoke 1 7 0] ++ [Rest 2 8 Buy 99 3].
Proof.
  split; [reflexivity|].
  apply effects_determine_events; [| |reflexivity];
    repeat constructor; cbn; unfold in_u64, in_i64, in_u8; lia.
Defined.

(** A trade limit of 0 means no trade at all to the engine, but is logged as no
    limit. *)
Example zero_limit_lost :
  decode_command (encode_command (Market Buy 3 2 (Some 0) 8) 42) = Some (42, Market Buy 3 2 None 8).
Proof. vm_compute. reflexivity. Qed.

End Witness.
