(* ===== verification/Mold.v ===== *)
(** * match-moldudp64: sequenced market data with retransmission

    Models [crates/match-moldudp64/src]: the big-endian wire format ([types.rs]),
    the bounded history of published messages ([ring_buf.rs]), the publisher
    ([publisher.rs]), the retransmit server ([retransmit.rs]) and the subscriber
    ([subscriber.rs]).  A socket is a function of the datagram, an argument of every
    call that sends: it takes the datagram or refuses it with an error, which the
    call returns; what it takes is part of the call's result.  An indexing panic or a failed [expect] is
    [None]; additions wrap as in the release build. *)
From S2P Require Import Prelude.

#[local] Open Scope Z_scope.

(** ** Wire format ([types.rs]) *)

Definition MOLD_SESSION_LEN : nat := 10.
Definition MOLD_DOWNSTREAM_HEADER_LEN : nat := 20.
Definition MOLD_REQUEST_HEADER_LEN : nat := 20.
Definition MOLD_BLOCK_HEADER_LEN : nat := 2.
Definition MOLD_MAX_DATAGRAM : Z := 1472.

Definition u8_wrap (z : Z) : Z := z mod 2 ^ 8.

Definition put_u16_be (buf : list Z) (off : nat) (v : Z) : list Z :=
  copy_at off [u8_wrap (Z.shiftr v 8); u8_wrap v] buf.

Definition get_u16_be (buf : list Z) (off : nat) : option Z :=
  hi ← buf !! off;
  lo ← buf !! (off + 1)%nat;
  Some (Z.lor (Z.shiftl hi 8) lo).

Definition put_u64_be (buf : list Z) (off : nat) (v : Z) : list Z := copy_at off (be_bytes 8 v) buf.

Definition get_u64_be (buf : list Z) (off : nat) : option Z :=
  if (off + 8 <=? length buf)%nat then Some (be_val (slice off (off + 8) buf)) else None.

(** The argument is the bytes of the string. *)
Definition pack_session (session : list Z) : list Z :=
  let out := replicate MOLD_SESSION_LEN 0 in
  let n := Nat.min (length session) MOLD_SESSION_LEN in
  copy_at 0 (take n session) out.

Record DownstreamHeader := mkDownstream { ds_session_id : list Z; ds_seq : Z; ds_msg_count : Z }.

(** [encode] into a zeroed header. *)
Definition encode_downstream (h : DownstreamHeader) : list Z :=
  let out := replicate MOLD_DOWNSTREAM_HEADER_LEN 0 in
  let out := copy_at 0 (ds_session_id h) out in
  let out := put_u64_be out MOLD_SESSION_LEN (ds_seq h) in
  put_u16_be out (MOLD_SESSION_LEN + 8) (ds_msg_count h).

Definition decode_downstream (buf : list Z) : option DownstreamHeader :=
  if (length buf <? MOLD_DOWNSTREAM_HEADER_LEN)%nat then None
  else
    seq ← get_u64_be buf MOLD_SESSION_LEN;
    msg_count ← get_u16_be buf (MOLD_SESSION_LEN + 8);
    Some (mkDownstream (slice 0 MOLD_SESSION_LEN buf) seq msg_count).

Record RequestHeader := mkRequest { rq_session_id : list Z; rq_start_seq : Z; rq_msg_count : Z }.

Definition encode_request (h : RequestHeader) : list Z :=
  let out := replicate MOLD_REQUEST_HEADER_LEN 0 in
  let out := copy_at 0 (rq_session_id h) out in
  let out := put_u64_be out MOLD_SESSION_LEN (rq_start_seq h) in
  put_u16_be out (MOLD_SESSION_LEN + 8) (rq_msg_count h).

Definition decode_request (buf : list Z) : option RequestHeader :=
  if (length buf <? MOLD_REQUEST_HEADER_LEN)%nat then None
  else
    seq ← get_u64_be buf MOLD_SESSION_LEN;
    msg_count ← get_u16_be buf (MOLD_SESSION_LEN + 8);
    Some (mkRequest (slice 0 MOLD_SESSION_LEN buf) seq msg_count).

(** The header and the blocks, as [send_packet], [publish_batch] and
    [reply_range] write them. *)
Definition block (payload : list Z) : list Z :=
  be_bytes 2 (u16_wrap (Z.of_nat (length payload))) ++ payload.

Definition downstream_packet (session_id : list Z) (first_seq : Z) (msgs : list (list Z)) : list Z :=
  encode_downstream (mkDownstream session_id first_seq (u16_wrap (Z.of_nat (length msgs))))
  ++ concat (block <$> msgs).

(** ** The history ([ring_buf.rs]) *)

Record CachedMessage := mkCached { cm_seq : Z; cm_payload : list Z }.

Record MessageRingBuf := mkMsgRing {
  mr_slots : list (option CachedMessage); mr_capacity : nat; mr_write_pos : nat;
  mr_base_seq : option Z; mr_first_seq : option Z }.

(** [new], which panics on a zero capacity. *)
Definition msgring_new (capacity : nat) : option MessageRingBuf :=
  if (capacity =? 0)%nat then None
  else Some (mkMsgRing (replicate capacity None) capacity 0 None None).

(** [index_of] *)
Definition index_of (r : MessageRingBuf) (seq : Z) : option nat :=
  base ← mr_base_seq r;
  Some (Z.to_nat (u64_wrap (seq - base) mod Z.of_nat (mr_capacity r))).

Definition or_some (x : option Z) (v : Z) : option Z := match x with Some _ => x | None => Some v end.

Definition msgring_push (r : MessageRingBuf) (seq : Z) (payload : list Z) : MessageRingBuf :=
  let first_seq :=
    match mr_slots r !! mr_write_pos r with
    | Some (Some m) =>
        let evicted_seq := cm_seq m in
        Some (match mr_first_seq r with
              | Some f => Z.max f (u64_wrap (evicted_seq + 1))
              | None => u64_wrap (evicted_seq + 1)
              end)
    | _ => mr_first_seq r
    end in
  mkMsgRing (<[mr_write_pos r := Some (mkCached seq payload)]> (mr_slots r)) (mr_capacity r)
    ((mr_write_pos r + 1) mod mr_capacity r) (or_some (mr_base_seq r) seq) (or_some first_seq seq).

(** [get]; the outer [None] is the panic on an empty ring. *)
Definition msgring_get (r : MessageRingBuf) (seq : Z) : option (option CachedMessage) :=
  i ← index_of r seq;
  slot ← mr_slots r !! i;
  Some (match slot with Some m => if cm_seq m =? seq then Some m else None | None => None end).

Fixpoint get_range_loop (r : MessageRingBuf) (seq : Z) (n : nat) : option (list CachedMessage) :=
  match n with
  | O => Some []
  | S n =>
      hit ← msgring_get r seq;
      match hit with
      | Some m => out ← get_range_loop r (seq + 1) n; Some (m :: out)
      | None => Some []
      end
  end.

(** [for seq in start..start.saturating_add(count)] *)
Definition get_range (r : MessageRingBuf) (start count : Z) : option (list CachedMessage) :=
  match mr_base_seq r with
  | None => Some []
  | Some _ => get_range_loop r start (Z.to_nat (Z.min (start + count) u64_max - start))
  end.

Definition msgring_contains (r : MessageRingBuf) (seq : Z) : option bool :=
  (λ hit, match hit with Some _ => true | None => false end) <$> msgring_get r seq.

Definition msgring_len (r : MessageRingBuf) : nat :=
  length (filter (λ s, is_Some s) (mr_slots r)).

Definition eviction_floor (r : MessageRingBuf) : option Z := mr_first_seq r.

(** ** Sockets *)

(** The error kinds the crate tells apart. *)
Inductive IoError := WouldBlock | SendError | NotConnected.

(** [send_to] at one moment: the error, if it refuses the datagram (the send buffer of a
    non-blocking socket is full, the datagram is too long, ...). *)
Definition Socket : Type := list Z → option IoError.

Definition send_to (sock : Socket) (d : list Z) : IoError + list Z :=
  match sock d with None => inr d | Some e => inl e end.

(** ** The publisher ([publisher.rs]) *)

Record MoldPublisher := mkPublisher { pub_session_id : list Z; pub_next_seq : Z; pub_cache : MessageRingBuf }.

Definition publisher_new (session : list Z) (cache_capacity : nat) : option MoldPublisher :=
  cache ← msgring_new cache_capacity;
  Some (mkPublisher (pack_session session) 1 cache).

Definition alloc_seq (p : MoldPublisher) : Z * MoldPublisher :=
  (pub_next_seq p, mkPublisher (pub_session_id p) (u64_wrap (pub_next_seq p + 1)) (pub_cache p)).

Definition cache_message (p : MoldPublisher) (seq : Z) (payload : list Z) : MoldPublisher :=
  mkPublisher (pub_session_id p) (pub_next_seq p) (msgring_push (pub_cache p) seq payload).

(** Number and cache entry of [publish], and the datagram of [send_packet]. *)
Definition publish_packet (p : MoldPublisher) (payload : list Z) : list Z * MoldPublisher :=
  let '(seq, p) := alloc_seq p in
  let p := cache_message p seq payload in
  (downstream_packet (pub_session_id p) seq [payload], p).

(** The number is taken and the message cached whatever the socket does. *)
Definition publish (sock : Socket) (p : MoldPublisher) (payload : list Z) : (IoError + list Z) * MoldPublisher :=
  let '(d, p) := publish_packet p payload in (send_to sock d, p).

Definition tagged_packet (p : MoldPublisher) (tag : Z) (payload : list Z) : list Z * MoldPublisher :=
  publish_packet p ([tag] ++ payload).

Definition publish_tagged (sock : Socket) (p : MoldPublisher) (tag : Z) (payload : list Z) : (IoError + list Z) * MoldPublisher :=
  publish sock p ([tag] ++ payload).

(** The packing loop of [publish_batch]: how many messages fit; [any] says whether
    [blocks] is non-empty. *)
Fixpoint pack (max total_len : Z) (any : bool) (msgs : list (list Z)) : nat :=
  match msgs with
  | [] => 0
  | payload :: msgs =>
      let block_total := Z.of_nat MOLD_BLOCK_HEADER_LEN + Z.of_nat (length payload) in
      if any && (total_len + block_total >? max) then 0
      else if negb any && (block_total + Z.of_nat MOLD_DOWNSTREAM_HEADER_LEN >? max) then 0
      else S (pack max (total_len + block_total) true msgs)
  end.

(** The sequence numbers of the batch, and the publisher after they are taken. *)
Fixpoint take_seqs (n : nat) (p : MoldPublisher) : list Z * MoldPublisher :=
  match n with
  | O => ([], p)
  | S n => let '(seq, p) := alloc_seq p in let '(seqs, p) := take_seqs n p in (seq :: seqs, p)
  end.

(** [publish_batch] up to its [send_to]: the datagram, if there is one, and the number of messages in it. *)
Definition batch_packet (p : MoldPublisher) (msgs : list (list Z)) (max_datagram_bytes : Z) :
    option (list Z) * nat * MoldPublisher :=
  match msgs with
  | [] => (None, O, p)
  | _ =>
      let max := if max_datagram_bytes =? 0 then MOLD_MAX_DATAGRAM else max_datagram_bytes in
      let first_seq := pub_next_seq p in
      let n := pack max (Z.of_nat MOLD_DOWNSTREAM_HEADER_LEN) false msgs in
      if (n =? 0)%nat then (None, O, p)
      else
        let '(seqs, p) := take_seqs n p in
        let p := foldl (λ p '(seq, payload), cache_message p seq payload) p (zip seqs msgs) in
        (Some (downstream_packet (pub_session_id p) first_seq (take n msgs)), n, p)
  end.

Definition publish_batch (sock : Socket) (p : MoldPublisher) (msgs : list (list Z)) (max_datagram_bytes : Z) :
    (IoError + option (list Z) * nat) * MoldPublisher :=
  let '(d, n, p) := batch_packet p msgs max_datagram_bytes in
  match d with
  | None => (inr (None, n), p)
  | Some d => (match send_to sock d with inl e => inl e | inr d => inr (Some d, n) end, p)
  end.

Definition heartbeat_packet (p : MoldPublisher) : list Z :=
  encode_downstream (mkDownstream (pub_session_id p) (pub_next_seq p) 0).

Definition send_heartbeat (sock : Socket) (p : MoldPublisher) : IoError + list Z := send_to sock (heartbeat_packet p).

(** ** The retransmit server ([retransmit.rs]) *)

Record MoldRetransmitServer := mkServer { srv_session_id : list Z; srv_cache : MessageRingBuf }.

Definition server_new (session : list Z) (cache : MessageRingBuf) : MoldRetransmitServer :=
  mkServer (pack_session session) cache.

(** [reply_range] up to its [send_to]: the datagram, if there is one, and the count. *)
Definition reply_packet (srv : MoldRetransmitServer) (start_seq count : Z) : option (option (list Z) * nat) :=
  msgs ← get_range (srv_cache srv) start_seq count;
  match msgs with
  | [] => Some (None, O)
  | _ => Some (Some (downstream_packet (srv_session_id srv) start_seq (cm_payload <$> msgs)), length msgs)
  end.

Definition reply_range (sock : Socket) (srv : MoldRetransmitServer) (start_seq count : Z) :
    option (IoError + option (list Z) * nat) :=
  '(d, n) ← reply_packet srv start_seq count;
  match d with
  | None => Some (inr (None, n))
  | Some d => Some (match send_to sock d with inl e => inl e | inr d => inr (Some d, n) end)
  end.

(** [serve_once] on what [recv_from] returns: [inr None] when nothing is there, otherwise the reply that is sent, if any. *)
Definition serve_once (sock : Socket) (srv : MoldRetransmitServer) (recv : IoError + list Z) :
    option (IoError + option (option (list Z))) :=
  match recv with
  | inl WouldBlock => Some (inr None)
  | inl e => Some (inl e)
  | inr buf =>
      match decode_request buf with
      | None => Some (inr (Some None))
      | Some req =>
          if decide (rq_session_id req = srv_session_id srv)
          then
            r ← reply_range sock srv (rq_start_seq req) (rq_msg_count req);
            Some (match r with inl e => inl e | inr (d, _) => inr (Some d) end)
          else Some (inr (Some None))
      end
  end.

(** A turn of [serve_loop]: whether [stop] or the deadline ends it, what is received, and the socket of the reply. *)
Record Turn := mkTurn { tn_stop : bool; tn_recv : IoError + list Z; tn_sock : Socket }.

(** [serve_loop]: the replies sent and how it returns, [None] while it goes on. *)
Fixpoint serve_loop (srv : MoldRetransmitServer) (turns : list Turn) : option (list (list Z) * option (IoError + unit)) :=
  match turns with
  | [] => Some ([], None)
  | t :: turns =>
      if tn_stop t then Some ([], Some (inr ()))
      else
        r ← serve_once (tn_sock t) srv (tn_recv t);
        match r with
        | inr (Some (Some d)) => '(ds, e) ← serve_loop srv turns; Some (d :: ds, e)
        | inr _ | inl WouldBlock => serve_loop srv turns
        | inl e => Some ([], Some (inl e))
        end
  end.

(** ** The subscriber ([subscriber.rs]) *)

Record GapInfo := mkGap { gap_expected : Z; gap_first_seq : Z; gap_lost : Z }.

Record ParseOutcome := mkOutcome {
  po_first_seq : Z; po_msg_count : Z; po_is_heartbeat : bool; po_gap : option GapInfo;
  po_messages : list (Z * list Z) }.

Definition outcome_heartbeat (seq : Z) : ParseOutcome := mkOutcome seq 0 true None [].

(** [sub_nak] says whether [retransmit_addr] is set. *)
Record MoldSubscriber := mkSubscriber { sub_session_id : list Z; sub_last_seq : option Z; sub_nak : bool }.

Definition subscriber_new (session : list Z) (retransmit : bool) : MoldSubscriber :=
  mkSubscriber (pack_session session) None retransmit.

Definition set_last_seq (v : option Z) (s : MoldSubscriber) : MoldSubscriber :=
  mkSubscriber (sub_session_id s) v (sub_nak s).

(** The block loop: the messages, and whether the datagram was cut short. *)
Fixpoint parse_blocks (n : nat) (ptr : list Z) (seq : Z) (messages : list (Z * list Z)) :
    option (list (Z * list Z) * bool) :=
  match n with
  | O => Some (messages, false)
  | S n =>
      if (length ptr <? MOLD_BLOCK_HEADER_LEN)%nat then Some (messages, true)
      else
        len ← get_u16_be ptr 0;
        let ptr := drop MOLD_BLOCK_HEADER_LEN ptr in
        if (length ptr <? Z.to_nat len)%nat then Some (messages, true)
        else parse_blocks n (drop (Z.to_nat len) ptr) (u64_wrap (seq + 1))
               (messages ++ [(seq, take (Z.to_nat len) ptr)])
  end.

(** [parse_packet]; the session is only compared in debug builds. *)
Definition parse_packet (s : MoldSubscriber) (buf : list Z) : option (ParseOutcome * MoldSubscriber) :=
  header ← decode_downstream buf;
  let first_seq := ds_seq header in
  let msg_count := ds_msg_count header in
  if msg_count =? 0 then
    let s := match sub_last_seq s with
             | Some last => set_last_seq (Some (Z.max last (Z.max 0 (first_seq - 1)))) s
             | None => if first_seq >? 1 then set_last_seq (Some (first_seq - 1)) s else s
             end in
    Some (outcome_heartbeat first_seq, s)
  else
    let expected := match sub_last_seq s with Some l => u64_wrap (l + 1) | None => first_seq end in
    let gap := if first_seq >? expected then Some (mkGap expected first_seq (first_seq - expected)) else None in
    '(messages, truncated) ← parse_blocks (Z.to_nat msg_count) (drop MOLD_DOWNSTREAM_HEADER_LEN buf) first_seq [];
    let s := if negb truncated && negb (match messages with [] => true | _ => false end) then
               let end_ := u64_wrap (first_seq + Z.of_nat (length messages) - 1) in
               set_last_seq (Some (match sub_last_seq s with Some last => Z.max last end_ | None => end_ end)) s
             else s in
    Some (mkOutcome first_seq msg_count false gap messages, s).

(** [recv] on a received datagram. *)
Definition sub_recv (s : MoldSubscriber) (data : list Z) : option (option ParseOutcome * MoldSubscriber) :=
  if (length data <? MOLD_DOWNSTREAM_HEADER_LEN)%nat then Some (None, s)
  else '(out, s) ← parse_packet s data; Some (Some out, s).

(** [send_nak]: the request datagram. *)
Definition send_nak (sock : Socket) (s : MoldSubscriber) (start_seq count : Z) : IoError + list Z :=
  if sub_nak s then send_to sock (encode_request (mkRequest (sub_session_id s) start_seq count)) else inl NotConnected.

(** [auto_nak]: the gap and the request datagram. *)
Definition auto_nak (sock : Socket) (s : MoldSubscriber) (outcome : ParseOutcome) (max_request : Z) :
    IoError + option (GapInfo * list Z) :=
  match po_gap outcome with
  | None => inr None
  | Some gap =>
      match send_nak sock s (gap_expected gap) (u16_wrap (Z.min (gap_lost gap) max_request)) with
      | inl e => inl e
      | inr req => inr (Some (gap, req))
      end
  end.
