(* ===== verification/MoldProps.v ===== *)
(** * match-moldudp64: what the transport delivers

    The wire format is read back exactly; the cache is a window on the log of
    published messages; a subscriber that gets every datagram gets the log; one
    that misses datagrams is told exactly what it missed and gets it back from
    the server while the window holds it. *)
From S2P Require Import Prelude Mold.

#[local] Open Scope Z_scope.

(** ** The wire format *)

Lemma u16_bytes v : in_u16 v → Z.lor (Z.shiftl (v / 256) 8) (v mod 256) = v.
Proof.
  intros Hv. apply Z.bits_inj'. intros n Hn. rewrite Z.lor_spec, Z.shiftl_spec by lia.
  change 256 with (2 ^ 8). rewrite Z.testbit_mod_pow2 by lia. destruct (Z.ltb_spec n 8).
  - by rewrite Z.testbit_neg_r by lia.
  - rewrite <- Z.shiftr_div_pow2, Z.shiftr_spec by lia. replace (n - 8 + 8) with n by lia.
    apply orb_false_r.
Qed.

Lemma u16_high v : in_u16 v → v / 256 mod 256 = v / 256.
Proof.
  unfold in_u16. intros Hv. apply Z.mod_small.
  split; [apply Z.div_pos|apply Z.div_lt_upper_bound]; lia.
Qed.

Lemma be_bytes_2 v : be_bytes 2 v = [v / 256 mod 256; v mod 256].
Proof. done. Qed.

Lemma get_u16_be_app v l rest off :
  in_u16 v → length l = off → get_u16_be (l ++ be_bytes 2 v ++ rest) off = Some v.
Proof.
  intros Hv <-. unfold get_u16_be. rewrite be_bytes_2. cbn [app].
  rewrite (list_lookup_middle _ _ _ (length l)) by done. cbn [mbind option_bind].
  rewrite (cons_middle (v / 256 mod 256) l), app_assoc, list_lookup_middle
    by (rewrite length_app; cbn; lia).
  cbn [mbind option_bind]. by rewrite u16_high, u16_bytes.
Qed.

Lemma get_u64_be_app v l rest off :
  in_u64 v → length l = off → get_u64_be (l ++ be_bytes 8 v ++ rest) off = Some v.
Proof.
  intros Hv <-. unfold get_u64_be.
  rewrite (proj2 (Nat.leb_le _ _)) by (rewrite !length_app, length_be_bytes; lia).
  rewrite slice_app_skip by done. rewrite Nat.sub_diag, slice_app_here by (rewrite length_be_bytes; lia).
  rewrite be_val_bytes. by rewrite Z.mod_small.
Qed.

(** A header is the session, the number and the count, one after the other. *)
Definition header_bytes (sid : list Z) (seq count : Z) : list Z := sid ++ be_bytes 8 seq ++ be_bytes 2 count.

Lemma header_layout sid seq count :
  length sid = MOLD_SESSION_LEN → in_u16 count →
  put_u16_be (put_u64_be (copy_at 0 sid (replicate 20 0)) MOLD_SESSION_LEN seq) (MOLD_SESSION_LEN + 8) count
  = header_bytes sid seq count.
Proof.
  intros Hs Hc. unfold put_u16_be, put_u64_be, header_bytes.
  change (replicate 20 0) with ([] ++ replicate 10 0 ++ replicate 8 0 ++ [0; 0]).
  rewrite (copy_at_app [] sid) by done. cbn [app].
  rewrite (copy_at_app sid (be_bytes 8 seq)) by done.
  rewrite app_assoc, <- (app_nil_r [0; 0]).
  rewrite copy_at_app; [|by rewrite length_app, length_be_bytes, Hs|done].
  rewrite app_nil_r, <- app_assoc, be_bytes_2. do 3 f_equal. unfold u8_wrap.
  by rewrite Z.shiftr_div_pow2 by lia.
Qed.

Lemma length_header_bytes sid seq count :
  length sid = MOLD_SESSION_LEN → length (header_bytes sid seq count) = 20%nat.
Proof. intros Hs. unfold header_bytes. by rewrite !length_app, !length_be_bytes, Hs. Qed.

Lemma header_fields sid seq count rest :
  length sid = MOLD_SESSION_LEN → in_u64 seq → in_u16 count →
  let buf := header_bytes sid seq count ++ rest in
  (length buf <? 20)%nat = false ∧ get_u64_be buf MOLD_SESSION_LEN = Some seq
  ∧ get_u16_be buf (MOLD_SESSION_LEN + 8) = Some count ∧ slice 0 MOLD_SESSION_LEN buf = sid.
Proof.
  intros Hs Hq Hc buf. subst buf. split_and!.
  - apply Nat.ltb_ge. rewrite length_app, length_header_bytes by done. lia.
  - unfold header_bytes. rewrite <- !app_assoc. by apply get_u64_be_app.
  - unfold header_bytes. rewrite <- (app_assoc sid), <- (app_assoc (be_bytes 8 seq)).
    rewrite (app_assoc sid). apply get_u16_be_app; [done|]. by rewrite length_app, length_be_bytes, Hs.
  - unfold header_bytes. rewrite <- app_assoc. by apply slice_app_here.
Qed.

Lemma decode_downstream_encode h rest :
  length (ds_session_id h) = MOLD_SESSION_LEN → in_u64 (ds_seq h) → in_u16 (ds_msg_count h) →
  decode_downstream (encode_downstream h ++ rest) = Some h.
Proof.
  intros Hs Hq Hc. unfold encode_downstream, decode_downstream, MOLD_DOWNSTREAM_HEADER_LEN.
  rewrite header_layout by done.
  destruct (header_fields (ds_session_id h) (ds_seq h) (ds_msg_count h) rest) as (-> & -> & -> & ->); [done..|].
  cbn. by destruct h.
Qed.

Lemma decode_request_encode h :
  length (rq_session_id h) = MOLD_SESSION_LEN → in_u64 (rq_start_seq h) → in_u16 (rq_msg_count h) →
  decode_request (encode_request h) = Some h.
Proof.
  intros Hs Hq Hc. unfold encode_request, decode_request, MOLD_REQUEST_HEADER_LEN.
  rewrite header_layout by done.
  destruct (header_fields (rq_session_id h) (rq_start_seq h) (rq_msg_count h) []) as (H1 & H2 & H3 & H4); [done..|].
  rewrite app_nil_r in *. rewrite H1, H2, H3, H4. cbn. by destruct h.
Qed.

Lemma length_pack_session s : length (pack_session s) = MOLD_SESSION_LEN.
Proof.
  unfold pack_session, copy_at. rewrite take_0, app_nil_l, length_app, length_drop, length_take, length_replicate.
  unfold MOLD_SESSION_LEN. lia.
Qed.

Lemma length_encode_downstream h :
  length (ds_session_id h) = MOLD_SESSION_LEN → in_u16 (ds_msg_count h) →
  length (encode_downstream h) = MOLD_DOWNSTREAM_HEADER_LEN.
Proof.
  intros Hs Hc. unfold encode_downstream, MOLD_DOWNSTREAM_HEADER_LEN. rewrite header_layout by done.
  by apply length_header_bytes.
Qed.

(** ** Messages with their numbers *)

Definition payload_ok (m : list Z) : Prop := (Z.of_nat (length m) < 2 ^ 16)%Z.

Lemma parse_blocks_spec msgs rest seq acc :
  Forall payload_ok msgs → 0 <= seq → seq + Z.of_nat (length msgs) <= 2 ^ 64 →
  parse_blocks (length msgs) (concat (block <$> msgs) ++ rest) seq acc = Some (acc ++ number seq msgs, false).
Proof.
  revert seq acc; induction msgs as [|m msgs IH]; intros seq acc Hok H0 Hseq; cbn [length] in *.
  { by rewrite app_nil_r. }
  apply Forall_cons in Hok as [Hm Hok]. unfold payload_ok in Hm.
  assert (concat (block <$> m :: msgs) ++ rest
          = [] ++ be_bytes 2 (Z.of_nat (length m)) ++ m ++ concat (block <$> msgs) ++ rest) as ->.
  { cbn. unfold block at 1. rewrite u16_wrap_id by (unfold in_u16; lia). by rewrite <- !app_assoc. }
  cbn [parse_blocks]. rewrite get_u16_be_app by (done || unfold in_u16; lia). cbn [app].
  rewrite (proj2 (Nat.ltb_ge _ _)) by (rewrite length_app, length_be_bytes; unfold MOLD_BLOCK_HEADER_LEN; lia).
  cbn [mbind option_bind]. rewrite Nat2Z.id.
  rewrite drop_app_length' by (by rewrite length_be_bytes).
  rewrite (proj2 (Nat.ltb_ge _ _)) by (rewrite length_app; lia).
  rewrite take_app_length, drop_app_length.
  cbn [number]. destruct (decide (msgs = [])) as [->|Hne]; [done|].
  assert (0 < length msgs)%nat by (destruct msgs; [done|cbn; lia]).
  rewrite u64_wrap_id by (unfold in_u64; lia). rewrite IH by (done || lia). by rewrite <- app_assoc.
Qed.

(** A data packet is read back message by message; [lost] is what the watermark
    says is missing before it. *)
Definition gap_before (last : option Z) (first_seq : Z) : option GapInfo :=
  match last with
  | Some l => if decide (l + 1 < first_seq) then Some (mkGap (l + 1) first_seq (first_seq - (l + 1))) else None
  | None => None
  end.

Definition watermark (last : option Z) (end_ : Z) : option Z :=
  Some (match last with Some l => Z.max l end_ | None => end_ end).

Definition last_ok (last : option Z) : Prop := ∀ l, last = Some l → 0 <= l < 2 ^ 64 - 1.

Lemma parse_downstream s sid first_seq msgs :
  length sid = MOLD_SESSION_LEN → last_ok (sub_last_seq s) → msgs ≠ [] → Forall payload_ok msgs →
  Z.of_nat (length msgs) < 2 ^ 16 → 1 <= first_seq → first_seq + Z.of_nat (length msgs) <= 2 ^ 64 →
  parse_packet s (downstream_packet sid first_seq msgs)
  = Some (mkOutcome first_seq (Z.of_nat (length msgs)) false (gap_before (sub_last_seq s) first_seq)
            (number first_seq msgs),
          set_last_seq (watermark (sub_last_seq s) (first_seq + Z.of_nat (length msgs) - 1)) s).
Proof.
  intros Hsid Hlast Hne Hok Hn H1 Hseq.
  assert (Hlen : 0 < Z.of_nat (length msgs)) by (destruct msgs; [done|cbn; lia]).
  unfold parse_packet, downstream_packet. rewrite u16_wrap_id by (unfold in_u16; lia).
  rewrite decode_downstream_encode by (done || (cbn; unfold in_u64, in_u16; lia)).
  cbn [mbind option_bind ds_seq ds_msg_count]. rewrite (proj2 (Z.eqb_neq _ _)) by lia.
  rewrite drop_app_length' by (symmetry; apply length_encode_downstream; [done|cbn; unfold in_u16; lia]).
  rewrite Nat2Z.id, <- (app_nil_r (concat _)), parse_blocks_spec by (done || lia).
  cbn [app mbind option_bind negb andb]. rewrite length_number, u64_wrap_id by (unfold in_u64; lia).
  assert (number first_seq msgs ≠ []) by (by destruct msgs).
  destruct (number first_seq msgs) as [|x xs] eqn:Enum; [done|]. cbn [negb].
  do 3 f_equal. unfold gap_before. destruct (sub_last_seq s) as [l|]; cbn.
  - specialize (Hlast l eq_refl). rewrite u64_wrap_id by (unfold in_u64; lia). rewrite Z.gtb_ltb.
    case_decide; [by rewrite (proj2 (Z.ltb_lt _ _)) by lia|by rewrite (proj2 (Z.ltb_ge _ _)) by lia].
  - by rewrite Z.gtb_ltb, Z.ltb_irrefl.
Qed.

(** ** The cache is a window on the log *)

(** The [k]-th message of the log (from 0) is among the last [cap]. *)
Definition in_window (cap : nat) (log : list (list Z)) (k : nat) : Prop :=
  (k < length log ∧ length log <= k + cap)%nat.

Record ring_rep (cap : nat) (log : list (list Z)) (r : MessageRingBuf) : Prop := {
  rr_cap : (0 < cap)%nat;
  rr_capacity : mr_capacity r = cap;
  rr_slots : length (mr_slots r) = cap;
  rr_write : mr_write_pos r = (length log mod cap)%nat;
  rr_base : mr_base_seq r = match log with [] => None | _ => Some 1 end;
  rr_first : mr_first_seq r = match log with [] => None | _ => Some (Z.max 1 (Z.of_nat (length log) - Z.of_nat cap + 1)) end;
  rr_content i m : mr_slots r !! i = Some (Some m) ↔
    ∃ k pl, i = (k mod cap)%nat ∧ in_window cap log k ∧ log !! k = Some pl ∧ m = mkCached (Z.of_nat k + 1) pl }.

Lemma ring_rep_new cap r : msgring_new cap = Some r → ring_rep cap [] r.
Proof.
  unfold msgring_new. destruct (Nat.eqb_spec cap 0); [done|]. intros [= <-]. constructor; try done; cbn; try lia.
  - apply length_replicate.
  - by rewrite Nat.Div0.mod_0_l.
  - intros i m. rewrite lookup_replicate. split; [by intros []|]. intros (k & pl & _ & [? _] & _). cbn in *. lia.
Qed.

Lemma mod_same_window cap k k' :
  (0 < cap → k mod cap = k' mod cap → k <= k' → k' < k + cap → k = k')%nat.
Proof.
  intros Hc Hm Hle Hlt. pose proof (Nat.div_mod_eq k cap). pose proof (Nat.div_mod_eq k' cap).
  assert (k / cap = k' / cap)%nat by nia. congruence.
Qed.

Lemma window_snoc cap log m k i :
  (0 < cap)%nat →
  (i = (k mod cap)%nat ∧ in_window cap (log ++ [m]) k)
  ↔ (i = (length log mod cap)%nat ∧ k = length log
     ∨ i ≠ (length log mod cap)%nat ∧ i = (k mod cap)%nat ∧ in_window cap log k).
Proof.
  intros Hc. unfold in_window. rewrite length_app. cbn. split.
  - intros (-> & Hk & Hw). destruct (decide (k = length log)) as [->|Hne]; [by left|right].
    split_and!; [|done|lia..]. intros Hm. apply Hne. apply (mod_same_window cap); [done..|lia|lia].
  - intros [(-> & ->)|(Hne & -> & Hk & Hw)]; [split; [done|lia]|]. split_and!; [done|lia|].
    destruct (decide (k + cap = length log)%nat) as [He|]; [|lia].
    exfalso. apply Hne. rewrite <- He, <- Nat.Div0.add_mod_idemp_r, Nat.Div0.mod_same, Nat.add_0_r. done.
Qed.

(** The slot about to be written holds the oldest message once the ring is full. *)
Lemma write_slot cap log r :
  ring_rep cap log r →
  if decide (cap <= length log)%nat
  then ∃ pl, mr_slots r !! (length log mod cap)%nat = Some (Some (mkCached (Z.of_nat (length log - cap) + 1) pl))
  else ∀ m, mr_slots r !! (length log mod cap)%nat ≠ Some (Some m).
Proof.
  intros [Hcap _ _ _ _ _ Hcont]. case_decide as Hlen.
  - destruct (log !! (length log - cap)%nat) as [pl|] eqn:Hpl; [|apply lookup_ge_None in Hpl; lia].
    exists pl. apply Hcont. exists (length log - cap)%nat, pl. split_and!; [|split; lia|done..].
    replace (length log) with (length log - cap + 1 * cap)%nat at 1 by lia. by rewrite Nat.Div0.mod_add.
  - intros m (k & pl & Hk & [Hk1 Hk2] & _)%Hcont.
    assert (k = length log) by (apply (mod_same_window cap); [done|done|lia|lia]). lia.
Qed.

Lemma push_floor cap log r m :
  ring_rep cap log r → Z.of_nat (length log) + 1 < 2 ^ 64 →
  mr_first_seq (msgring_push r (Z.of_nat (length log) + 1) m)
  = Some (Z.max 1 (Z.of_nat (length log) + 1 - Z.of_nat cap + 1)).
Proof.
  intros Hr Hlen. pose proof (write_slot cap log r Hr) as Hslot. destruct Hr as [Hcap _ _ Hw _ Hf _].
  unfold msgring_push. cbn [mr_first_seq]. rewrite Hw, Hf. case_decide as Hfull.
  - destruct Hslot as [pl ->]. cbn [cm_seq]. rewrite u64_wrap_id by (unfold in_u64; lia).
    destruct log; cbn [or_some]; cbn [length] in *; [|]; f_equal; lia.
  - destruct (mr_slots r !! _) as [[e|]|] eqn:E; [by destruct (Hslot e)|..];
      destruct log; cbn [or_some]; cbn [length] in *; f_equal; lia.
Qed.

Lemma ring_rep_push cap log r m :
  ring_rep cap log r → Z.of_nat (length log) + 1 < 2 ^ 64 →
  ring_rep cap (log ++ [m]) (msgring_push r (Z.of_nat (length log) + 1) m).
Proof.
  intros Hr Hlen. pose proof Hr as [Hcap Hc Hs Hw Hb Hf Hcont].
  assert (Hpos : (length log mod cap < cap)%nat) by (apply Nat.mod_upper_bound; lia).
  assert (Hn : ∃ x xs, log ++ [m] = x :: xs) by (destruct log; cbn; eauto). destruct Hn as (x & xs & Hn).
  assert (Hl : length (log ++ [m]) = S (length log)) by (rewrite length_app; cbn; lia).
  pose proof (push_floor cap log r m Hr Hlen) as Hfl. cbn in Hfl. rewrite Hw in Hfl.
  constructor; cbn; rewrite ?Hc, ?length_insert, ?Hw; try done.
  - rewrite Hl, Nat.Div0.add_mod_idemp_l. f_equal. lia.
  - rewrite Hb, Hn. destruct log; [done|]. done.
  - rewrite Hn at 1. by rewrite Hl, Nat2Z.inj_succ, Hfl.
  - intros i e. destruct (decide ((length log mod cap)%nat = i)) as [<-|Hi].
    + rewrite list_lookup_insert_eq by lia. split.
      * intros [= <-]. exists (length log), m. rewrite lookup_app_r, Nat.sub_diag by lia. split_and!; try done.
        unfold in_window. lia.
      * intros (k & pl & Hk & Hin & Hlk & ->).
        destruct (proj1 (window_snoc cap log m k (length log mod cap) Hcap)) as [(_ & ->)|(? & _)]; [done| |done].
        rewrite lookup_app_r, Nat.sub_diag in Hlk by lia. by simplify_eq/=.
    + rewrite list_lookup_insert_ne by done. rewrite Hcont.
      split; intros (k & pl & Hk & Hin & Hlk & ->); exists k, pl.
      * assert (k < length log)%nat by (unfold in_window in Hin; lia).
        rewrite lookup_app_l by done.
        destruct (proj2 (window_snoc cap log m k i Hcap)) as [? ?]; [right; by split_and!|done].
      * destruct (proj1 (window_snoc cap log m k i Hcap)) as [(? & _)|(_ & ? & Hin')]; [done|congruence|].
        unfold in_window in Hin'. rewrite lookup_app_l in Hlk by lia. done.
Qed.

(** What the cache answers for a sequence number. *)
Definition window_get (cap : nat) (log : list (list Z)) (seq : Z) : option CachedMessage :=
  if decide (1 <= seq ∧ Z.of_nat (length log) < seq + Z.of_nat cap)
  then mkCached seq <$> log !! Z.to_nat (seq - 1) else None.

Lemma msgring_get_spec cap log r seq :
  ring_rep cap log r → log ≠ [] → in_u64 seq → Z.of_nat (length log) < 2 ^ 64 →
  msgring_get r seq = Some (window_get cap log seq).
Proof.
  intros [Hcap Hc Hs _ Hb _ Hcont] Hne Hseq Hlen. unfold msgring_get, index_of.
  assert (mr_base_seq r = Some 1) as -> by (rewrite Hb; by destruct log). cbn [mbind option_bind]. rewrite Hc.
  set (i := Z.to_nat _).
  assert (Hi : (i < cap)%nat).
  { pose proof (Z.mod_pos_bound (u64_wrap (seq - 1)) (Z.of_nat cap)). subst i. lia. }
  destruct (mr_slots r !! i) as [slot|] eqn:Eslot; [|apply lookup_ge_None in Eslot; lia]. cbn [mbind option_bind].
  f_equal. unfold window_get. case_decide as Hw.
  - destruct (log !! Z.to_nat (seq - 1)) as [pl|] eqn:Epl; cbn.
    + assert (He : mr_slots r !! i = Some (Some (mkCached seq pl))).
      { apply Hcont. exists (Z.to_nat (seq - 1)), pl. apply lookup_lt_Some in Epl as Hk. split_and!; [|split; lia|done|f_equal; lia].
        subst i. rewrite u64_wrap_id by (unfold in_u64 in *; lia).
        rewrite Z2Nat.inj_mod by lia. by rewrite Nat2Z.id. }
      rewrite Eslot in He. injection He as ->. cbn. by rewrite Z.eqb_refl.
    + destruct slot as [m|]; [|done]. apply Hcont in Eslot as (k & pl & _ & [Hk _] & Hlk & ->). cbn.
      destruct (Z.eqb_spec (Z.of_nat k + 1) seq) as [<-|]; [|done].
      replace (Z.to_nat (Z.of_nat k + 1 - 1)) with k in Epl by lia. congruence.
  - destruct slot as [m|]; [|done]. apply Hcont in Eslot as (k & pl & _ & [Hk Hk'] & Hlk & ->). cbn.
    destruct (Z.eqb_spec (Z.of_nat k + 1) seq) as [<-|]; [lia|done].
Qed.

Definition cached (seq : Z) (msgs : list (list Z)) : list CachedMessage :=
  (λ p, mkCached p.1 p.2) <$> number seq msgs.

Lemma get_range_loop_spec cap log r k n :
  ring_rep cap log r → log ≠ [] → Z.of_nat (length log) < 2 ^ 64 →
  (length log <= k + cap)%nat → Z.of_nat k + 1 + Z.of_nat n <= 2 ^ 64 →
  get_range_loop r (Z.of_nat k + 1) n = Some (cached (Z.of_nat k + 1) (take n (drop k log))).
Proof.
  intros Hr Hne Hlen. revert k; induction n as [|n IH]; intros k Hk Hn; [done|]. cbn [get_range_loop].
  rewrite (msgring_get_spec cap log) by (done || unfold in_u64; lia). cbn [mbind option_bind].
  unfold window_get. rewrite decide_True by lia. replace (Z.to_nat (Z.of_nat k + 1 - 1)) with k by lia.
  destruct (log !! k) as [pl|] eqn:Epl; cbn.
  - replace (Z.of_nat k + 1 + 1) with (Z.of_nat (S k) + 1) by lia. rewrite IH by lia. cbn [mbind option_bind].
    rewrite (drop_S _ _ _ Epl). cbn [take]. unfold cached. cbn [number fmap list_fmap fst snd].
    by replace (Z.of_nat (S k) + 1) with (Z.of_nat k + 1 + 1) by lia.
  - rewrite drop_ge by (by apply lookup_ge_None). by rewrite take_nil.
Qed.

Lemma get_range_spec cap log r k count :
  ring_rep cap log r → Z.of_nat (length log) < 2 ^ 64 - 1 → (length log <= k + cap)%nat →
  0 <= count → Z.of_nat k + 1 < 2 ^ 64 →
  get_range r (Z.of_nat k + 1) count = Some (cached (Z.of_nat k + 1) (take (Z.to_nat count) (drop k log))).
Proof.
  intros Hr Hlen Hk Hc Hk1. unfold get_range. pose proof (rr_base _ _ _ Hr) as Hb.
  destruct (decide (log = [])) as [->|Hne]; [rewrite Hb, drop_nil, take_nil; done|].
  assert (mr_base_seq r = Some 1) as -> by (rewrite Hb; by destruct log).
  rewrite (get_range_loop_spec cap log) by (done || unfold u64_max; lia). do 2 f_equal.
  destruct (decide (Z.of_nat k + 1 + count <= u64_max)).
  - by rewrite Z.min_l, Z.add_simpl_l by done.
  - rewrite !take_ge; [done|..]; rewrite length_drop; unfold u64_max in *; lia.
Qed.

(** ** The publisher keeps a log *)

(** The calls of a publisher, and what each hands to its socket. *)
Inductive pub_op :=
| OpPublish (payload : list Z)
| OpTagged (tag : Z) (payload : list Z)
| OpBatch (msgs : list (list Z)) (max_datagram_bytes : Z)
| OpHeartbeat.

Definition pub_step (p : MoldPublisher) (op : pub_op) : option (list Z) * MoldPublisher :=
  match op with
  | OpPublish payload => let '(d, p) := publish_packet p payload in (Some d, p)
  | OpTagged tag payload => let '(d, p) := tagged_packet p tag payload in (Some d, p)
  | OpBatch msgs max => let '(d, _, p) := batch_packet p msgs max in (d, p)
  | OpHeartbeat => (Some (heartbeat_packet p), p)
  end.

Fixpoint pub_run (p : MoldPublisher) (ops : list pub_op) : list (list Z) * MoldPublisher :=
  match ops with
  | [] => ([], p)
  | op :: ops =>
      let '(d, p) := pub_step p op in
      let '(ds, p) := pub_run p ops in
      (match d with Some d => d :: ds | None => ds end, p)
  end.

(** The calls as they are made, each with the socket as it finds it: the result, and the datagrams that go out. *)
Definition sent (r : IoError + list Z) : IoError + option (list Z) := match r with inl e => inl e | inr d => inr (Some d) end.

Definition pub_call (p : MoldPublisher) (call : Socket * pub_op) : (IoError + option (list Z)) * MoldPublisher :=
  let '(sock, op) := call in
  match op with
  | OpPublish payload => let '(r, p) := publish sock p payload in (sent r, p)
  | OpTagged tag payload => let '(r, p) := publish_tagged sock p tag payload in (sent r, p)
  | OpBatch msgs max => let '(r, p) := publish_batch sock p msgs max in (match r with inl e => inl e | inr (d, _) => inr d end, p)
  | OpHeartbeat => (sent (send_heartbeat sock p), p)
  end.

Fixpoint pub_calls (p : MoldPublisher) (calls : list (Socket * pub_op)) : list (list Z) * MoldPublisher :=
  match calls with
  | [] => ([], p)
  | call :: calls =>
      let '(r, p) := pub_call p call in
      let '(ds, p) := pub_calls p calls in
      (match r with inr (Some d) => d :: ds | _ => ds end, p)
  end.

(** A refused datagram changes the result and nothing else. *)
Lemma pub_call_step p sock op :
  pub_call p (sock, op)
  = (match (pub_step p op).1 with Some d => sent (send_to sock d) | None => inr None end, (pub_step p op).2).
Proof.
  destruct op as [m|tag m|msgs max|]; cbn [pub_call pub_step].
  - unfold publish. by destruct (publish_packet p m).
  - unfold publish_tagged, publish, tagged_packet. by destruct (publish_packet p ([tag] ++ m)).
  - unfold publish_batch. destruct (batch_packet p msgs max) as [[[d|] n] p']; [|done]. cbn. by destruct (send_to sock d).
  - done.
Qed.

Lemma pub_calls_state p calls : (pub_calls p calls).2 = (pub_run p calls.*2).2.
Proof.
  revert p; induction calls as [|[sock op] calls IH]; intros p; [done|]. cbn [pub_calls fmap list_fmap snd pub_run].
  rewrite pub_call_step. destruct (pub_step p op) as [d p1]. cbn [fst snd]. specialize (IH p1).
  destruct (pub_calls p1 calls), (pub_run p1 calls.*2). done.
Qed.

Definition batch_size (max_datagram_bytes : Z) (msgs : list (list Z)) : nat :=
  pack (if max_datagram_bytes =? 0 then MOLD_MAX_DATAGRAM else max_datagram_bytes) 20 false msgs.

(** The messages a call adds to the log. *)
Definition op_messages (op : pub_op) : list (list Z) :=
  match op with
  | OpPublish payload => [payload]
  | OpTagged tag payload => [tag :: payload]
  | OpBatch msgs max => take (batch_size max msgs) msgs
  | OpHeartbeat => []
  end.

Definition log_of (ops : list pub_op) : list (list Z) := concat (op_messages <$> ops).

(** Payloads and datagrams fit their 16-bit length fields. *)
Definition op_ok (op : pub_op) : Prop :=
  match op with
  | OpPublish payload => payload_ok payload
  | OpTagged tag payload => payload_ok (tag :: payload)
  | OpBatch _ max => 0 <= max < 2 ^ 16
  | OpHeartbeat => True
  end.

Record pub_ok (cap : nat) (log : list (list Z)) (p : MoldPublisher) : Prop := {
  po_session : length (pub_session_id p) = MOLD_SESSION_LEN;
  po_next : pub_next_seq p = Z.of_nat (length log) + 1;
  po_bound : Z.of_nat (length log) + 1 < 2 ^ 64;
  po_ring : ring_rep cap log (pub_cache p) }.

Lemma pub_ok_new session cap p : publisher_new session cap = Some p → pub_ok cap [] p.
Proof.
  unfold publisher_new. destruct (msgring_new cap) as [r|] eqn:Er; [|done]. cbn. intros [= <-].
  constructor; try done; [apply length_pack_session|by apply ring_rep_new].
Qed.

Lemma publish_spec cap log p m :
  pub_ok cap log p → Z.of_nat (length log) + 2 < 2 ^ 64 →
  (publish_packet p m).1 = downstream_packet (pub_session_id p) (Z.of_nat (length log) + 1) [m]
  ∧ pub_ok cap (log ++ [m]) (publish_packet p m).2 ∧ pub_session_id (publish_packet p m).2 = pub_session_id p.
Proof.
  intros [Hs Hn Hb Hr] Hlen. unfold publish_packet, alloc_seq, cache_message. cbn. rewrite Hn. split_and!; [done| |done].
  constructor; cbn; [done|rewrite length_app, u64_wrap_id by (unfold in_u64; lia); cbn; lia|rewrite length_app; cbn; lia|].
  apply ring_rep_push; [done|lia].
Qed.

Lemma pack_spec max total any msgs :
  20 <= total → max < 2 ^ 16 → (any = false → total = 20) →
  let n := pack max total any msgs in
  (n = 0%nat ∨ total + 2 * Z.of_nat n <= max) ∧ Forall payload_ok (take n msgs) ∧ (n <= length msgs)%nat.
Proof.
  intros Ht Hm. revert total any Ht; induction msgs as [|m msgs IH]; intros total any Ht Hany; cbn [pack length].
  { split_and!; [by left|constructor|lia]. }
  set (b := _ + Z.of_nat (length m)).
  destruct (any && (total + b >? max)) eqn:E1; [split_and!; [by left|constructor|lia]|].
  destruct (negb any && (b + _ >? max)) eqn:E2; [split_and!; [by left|constructor|lia]|].
  assert (Hfit : total + b <= max).
  { change (Z.of_nat MOLD_DOWNSTREAM_HEADER_LEN) with 20 in E2.
    destruct any; cbn in E1, E2; [|rewrite Hany by done]; rewrite Z.gtb_ltb in *; zb; lia. }
  destruct (IH (total + b) true) as (Hn & Hok & Hle); [subst b; lia|done|]. cbn [take].
  assert (Hb : b = 2 + Z.of_nat (length m)) by done. split_and!.
  - right. destruct Hn as [->|?]; lia.
  - constructor; [unfold payload_ok; lia|done].
  - lia.
Qed.

Lemma batch_spec msgs max :
  0 <= max < 2 ^ 16 →
  (batch_size max msgs <= length msgs)%nat ∧ Z.of_nat (batch_size max msgs) < 2 ^ 16
  ∧ Forall payload_ok (take (batch_size max msgs) msgs).
Proof.
  intros Hm. unfold batch_size. set (mx := if max =? 0 then _ else max).
  assert (mx < 2 ^ 16) by (subst mx; unfold MOLD_MAX_DATAGRAM; destruct (max =? 0); lia).
  destruct (pack_spec mx 20 false msgs) as (Hn & Hok & Hle); [done..|].
  split_and!; [done| |done]. destruct Hn as [->|?]; lia.
Qed.

Lemma take_seqs_spec n p :
  0 <= pub_next_seq p → pub_next_seq p + Z.of_nat n < 2 ^ 64 →
  (take_seqs n p).2 = mkPublisher (pub_session_id p) (pub_next_seq p + Z.of_nat n) (pub_cache p)
  ∧ ∀ msgs : list (list Z), zip (take_seqs n p).1 msgs = number (pub_next_seq p) (take n msgs).
Proof.
  revert p; induction n as [|n IH]; intros p H0 Hn; cbn [take_seqs alloc_seq].
  { split; [by destruct p; cbn; rewrite Z.add_0_r|]. by intros. }
  rewrite u64_wrap_id by (unfold in_u64; lia).
  destruct (IH (mkPublisher (pub_session_id p) (pub_next_seq p + 1) (pub_cache p))) as [Hp Hz]; cbn in *; [lia..|].
  destruct (take_seqs n _) as [seqs p'] eqn:E. cbn in *. split.
  - rewrite Hp. f_equal. lia.
  - intros [|m msgs]; [done|]. cbn. by rewrite Hz.
Qed.

Lemma cache_all_spec cap log r sid next msgs :
  ring_rep cap log r → Z.of_nat (length log) + Z.of_nat (length msgs) + 1 < 2 ^ 64 →
  ∃ r', foldl (λ p '(seq, payload), cache_message p seq payload) (mkPublisher sid next r)
          (number (Z.of_nat (length log) + 1) msgs) = mkPublisher sid next r'
        ∧ ring_rep cap (log ++ msgs) r'.
Proof.
  revert log r; induction msgs as [|m msgs IH]; intros log r Hr Hlen; cbn [number foldl length] in *.
  { exists r. by rewrite app_nil_r. }
  unfold cache_message at 2. cbn [pub_session_id pub_next_seq pub_cache].
  destruct (IH (log ++ [m]) (msgring_push r (Z.of_nat (length log) + 1) m)) as (r' & Hf & Hr').
  - apply ring_rep_push; [done|lia].
  - rewrite length_app. cbn. lia.
  - exists r'. rewrite <- app_assoc in Hr'. split; [|done]. rewrite <- Hf. do 2 f_equal.
    rewrite length_app. cbn. lia.
Qed.

(** What the datagram of a call is. *)
Definition op_datagram (sid : list Z) (next : Z) (op : pub_op) : option (list Z) :=
  match op, op_messages op with
  | OpHeartbeat, _ => Some (encode_downstream (mkDownstream sid next 0))
  | _, [] => None
  | _, ms => Some (downstream_packet sid next ms)
  end.

Lemma publish_batch_spec cap log p msgs max :
  pub_ok cap log p → 0 <= max < 2 ^ 16 →
  Z.of_nat (length log) + Z.of_nat (length (op_messages (OpBatch msgs max))) + 1 < 2 ^ 64 →
  let '(d, n, p') := batch_packet p msgs max in
  pub_ok cap (log ++ op_messages (OpBatch msgs max)) p' ∧ pub_session_id p' = pub_session_id p
  ∧ d = op_datagram (pub_session_id p) (pub_next_seq p) (OpBatch msgs max)
  ∧ n = length (op_messages (OpBatch msgs max)).
Proof.
  intros Hp0 Hmax Hlen. pose proof Hp0 as [Hs Hn Hb Hr]. destruct (batch_spec msgs max Hmax) as (Hle & _ & _).
  unfold batch_packet, op_datagram. cbn [op_messages] in *. rewrite length_take_le in * by done.
  destruct msgs as [|m0 msgs'].
  { rewrite take_nil, app_nil_r. done. }
  set (msgs := m0 :: msgs') in *. change (pack _ _ _ msgs) with (batch_size max msgs). set (n := batch_size max msgs) in *.
  destruct (Nat.eqb_spec n 0) as [->|Hn0]; [rewrite take_0, app_nil_r; done|].
  destruct (take_seqs_spec n p) as [Hp Hz]; [lia..|].
  destruct (take_seqs n p) as [seqs p1]. cbn [fst snd] in *. subst p1. rewrite Hz, Hn.
  destruct (cache_all_spec cap log (pub_cache p) (pub_session_id p) (Z.of_nat (length log) + 1 + Z.of_nat n)
    (take n msgs) Hr) as (r' & -> & Hr'); [rewrite length_take_le by done; lia|].
  cbn [pub_session_id]. split_and!; [|done| |done].
  - constructor; cbn [pub_session_id pub_next_seq pub_cache];
      rewrite ?length_app, ?length_take_le by done; [done|lia..|done].
  - subst msgs. destruct n; [done|]. done.
Qed.

Lemma pub_step_spec cap log p op :
  pub_ok cap log p → op_ok op → Z.of_nat (length log) + Z.of_nat (length (op_messages op)) + 1 < 2 ^ 64 →
  pub_ok cap (log ++ op_messages op) (pub_step p op).2 ∧ pub_session_id (pub_step p op).2 = pub_session_id p
  ∧ (pub_step p op).1 = op_datagram (pub_session_id p) (pub_next_seq p) op.
Proof.
  intros Hp Hop Hlen. pose proof (po_next _ _ _ Hp) as Hnext. destruct op as [m|tag m|msgs max|]; cbn [pub_step].
  - destruct (publish_spec cap log p m Hp) as (Hd & Hp' & Hs); [cbn in Hlen; lia|].
    destruct (publish_packet p m) as [d p']. cbn in *. by rewrite Hd, Hnext.
  - destruct (publish_spec cap log p (tag :: m) Hp) as (Hd & Hp' & Hs); [cbn in Hlen; lia|].
    unfold tagged_packet. cbn [app]. destruct (publish_packet p (tag :: m)) as [d p']. cbn in *. by rewrite Hd, Hnext.
  - pose proof (publish_batch_spec cap log p msgs max Hp Hop Hlen) as Hb.
    destruct (batch_packet p msgs max) as [[d n] p']. by destruct Hb as (? & ? & ? & _).
  - cbn. by rewrite app_nil_r.
Qed.

Lemma pub_run_spec cap log p ops :
  pub_ok cap log p → Forall op_ok ops → Z.of_nat (length (log ++ log_of ops)) + 1 < 2 ^ 64 →
  pub_ok cap (log ++ log_of ops) (pub_run p ops).2 ∧ pub_session_id (pub_run p ops).2 = pub_session_id p.
Proof.
  revert log p; induction ops as [|op ops IH]; intros log p Hp Hok Hlen; cbn [pub_run].
  { unfold log_of. cbn. by rewrite app_nil_r. }
  apply Forall_cons in Hok as [Hop Hok].
  change (log_of (op :: ops)) with (op_messages op ++ log_of ops) in *. rewrite app_assoc in *.
  destruct (pub_step_spec cap log p op Hp Hop) as (Hp1 & Hs1 & _); [rewrite !length_app in Hlen; lia|].
  destruct (pub_step p op) as [d p1]. cbn in Hp1, Hs1.
  destruct (IH _ p1 Hp1 Hok Hlen) as [Hp2 Hs2]. destruct (pub_run p1 ops) as [ds p2]. cbn in *. by rewrite Hs2.
Qed.

Lemma op_messages_ok op :
  op_ok op → Forall payload_ok (op_messages op) ∧ Z.of_nat (length (op_messages op)) < 2 ^ 16.
Proof.
  destruct op as [m|tag m|msgs max|]; cbn [op_ok op_messages]; intros Hop.
  1,2: split; [by constructor|cbn; lia].
  - destruct (batch_spec msgs max Hop) as (? & ? & ?). split; [done|]. by rewrite length_take_le.
  - split; [constructor|cbn; lia].
Qed.

(** ** The subscriber *)

Fixpoint sub_run (s : MoldSubscriber) (ds : list (list Z)) : option (list ParseOutcome * MoldSubscriber) :=
  match ds with
  | [] => Some ([], s)
  | d :: ds =>
      '(out, s) ← parse_packet s d;
      '(outs, s) ← sub_run s ds;
      Some (out :: outs, s)
  end.

(** The watermark of a subscriber that has seen the log. *)
Definition caught_up (log : list (list Z)) : option Z :=
  match log with [] => None | _ => Some (Z.of_nat (length log)) end.

Lemma parse_heartbeat s sid seq :
  length sid = MOLD_SESSION_LEN → 1 <= seq < 2 ^ 64 →
  parse_packet s (encode_downstream (mkDownstream sid seq 0))
  = Some (outcome_heartbeat seq,
          match sub_last_seq s with
          | Some l => set_last_seq (Some (Z.max l (seq - 1))) s
          | None => if decide (1 < seq) then set_last_seq (Some (seq - 1)) s else s
          end).
Proof.
  intros Hs Hq. unfold parse_packet. rewrite <- (app_nil_r (encode_downstream _)).
  rewrite decode_downstream_encode by (done || (cbn; unfold in_u64, in_u16; lia)). cbn. do 2 f_equal.
  destruct (sub_last_seq s) as [l|].
  - do 3 f_equal. lia.
  - rewrite Z.gtb_ltb. case_decide; [by rewrite (proj2 (Z.ltb_lt _ _))|by rewrite (proj2 (Z.ltb_ge _ _)) by lia].
Qed.

Lemma set_last_seq_id s : set_last_seq (sub_last_seq s) s = s.
Proof. by destruct s. Qed.

(** One call, seen by a subscriber that has everything so far. *)
Lemma parse_in_sync log s sid op d :
  length sid = MOLD_SESSION_LEN → sub_last_seq s = caught_up log → op_ok op →
  Z.of_nat (length log) + Z.of_nat (length (op_messages op)) + 1 < 2 ^ 64 →
  op_datagram sid (Z.of_nat (length log) + 1) op = Some d →
  ∃ out, parse_packet s d = Some (out, set_last_seq (caught_up (log ++ op_messages op)) s)
    ∧ po_gap out = None ∧ po_messages out = number (Z.of_nat (length log) + 1) (op_messages op).
Proof.
  intros Hs Hl Hop Hlen Hd. destruct (op_messages_ok op Hop) as [Hok Hn].
  assert (Hlast : last_ok (sub_last_seq s)).
  { rewrite Hl. intros l. destruct log; cbn [caught_up]; [done|intros <-%(inj Some); lia]. }
  assert (Hdata : op_messages op ≠ [] → d = downstream_packet sid (Z.of_nat (length log) + 1) (op_messages op) →
    ∃ out, parse_packet s d = Some (out, set_last_seq (caught_up (log ++ op_messages op)) s)
    ∧ po_gap out = None ∧ po_messages out = number (Z.of_nat (length log) + 1) (op_messages op)).
  { intros Hne ->. rewrite parse_downstream by (done || lia).
    assert (watermark (sub_last_seq s) (Z.of_nat (length log) + 1 + Z.of_nat (length (op_messages op)) - 1)
            = caught_up (log ++ op_messages op)) as ->.
    { rewrite Hl. destruct log as [|m0 log']; cbn [caught_up watermark app].
      - destruct (op_messages op); [done|]. unfold watermark. cbn [caught_up length]. f_equal. lia.
      - unfold watermark. f_equal. rewrite app_comm_cons, length_app. lia. }
    eexists. split; [reflexivity|]. cbn [po_gap po_messages]. split; [|done].
    rewrite Hl. destruct log; cbn [caught_up gap_before]; [done|]. by rewrite decide_False by lia. }
  unfold op_datagram in Hd. destruct op as [m|tag m|msgs max|]; try (injection Hd as <-; by apply Hdata).
  - destruct (op_messages (OpBatch msgs max)) as [|m0 ms]; [done|]. injection Hd as <-. by apply Hdata.
  - injection Hd as <-. rewrite parse_heartbeat by (done || lia). exists (outcome_heartbeat (Z.of_nat (length log) + 1)).
    split; [|done]. cbn [op_messages]. rewrite app_nil_r. rewrite Hl. do 2 f_equal. destruct log as [|m0 log']; cbn [caught_up].
    + rewrite decide_False by (cbn; lia). cbn [caught_up] in Hl. by rewrite <- Hl, set_last_seq_id.
    + do 2 f_equal. lia.
Qed.

Lemma sub_run_in_sync cap log p s ops :
  pub_ok cap log p → sub_last_seq s = caught_up log → Forall op_ok ops →
  Z.of_nat (length (log ++ log_of ops)) + 1 < 2 ^ 64 →
  ∃ outs, sub_run s (pub_run p ops).1 = Some (outs, set_last_seq (caught_up (log ++ log_of ops)) s)
    ∧ Forall (λ out, po_gap out = None) outs
    ∧ concat (po_messages <$> outs) = number (Z.of_nat (length log) + 1) (log_of ops).
Proof.
  revert log p s; induction ops as [|op ops IH]; intros log p s Hp Hl Hok Hlen; cbn [pub_run].
  { exists []. unfold log_of. cbn. rewrite app_nil_r, <- Hl. by rewrite set_last_seq_id. }
  apply Forall_cons in Hok as [Hop Hok].
  change (log_of (op :: ops)) with (op_messages op ++ log_of ops) in *. rewrite app_assoc in *.
  assert (Hl1 : Z.of_nat (length log) + Z.of_nat (length (op_messages op)) + 1 < 2 ^ 64)
    by (rewrite !length_app in Hlen; lia).
  destruct (pub_step_spec cap log p op Hp Hop Hl1) as (Hp1 & Hs1 & Hd). pose proof (po_session _ _ _ Hp) as Hs.
  rewrite (po_next _ _ _ Hp) in Hd. destruct (pub_step p op) as [d p1]. cbn in Hp1, Hs1, Hd.
  rewrite number_app. replace (Z.of_nat (length log) + 1 + Z.of_nat (length (op_messages op)))
    with (Z.of_nat (length (log ++ op_messages op)) + 1) by (rewrite length_app; lia).
  destruct d as [d|].
  - destruct (parse_in_sync log s (pub_session_id p) op d) as (out & Hout & Hg & Hm); [done..|].
    destruct (IH _ p1 (set_last_seq (caught_up (log ++ op_messages op)) s) Hp1) as (outs & Ho & Hgs & Hms); [done..|].
    destruct (pub_run p1 ops) as [ds p2]. cbn [fst sub_run] in *. rewrite Hout. cbn. rewrite Ho. cbn.
    exists (out :: outs). split_and!; [done|by constructor|]. cbn. by rewrite Hm, Hms.
  - assert (op_messages op = []) as Hnil.
    { unfold op_datagram in Hd. destruct op; try done. by destruct (op_messages (OpBatch msgs max_datagram_bytes)). }
    destruct (IH _ p1 s Hp1) as (outs & Ho & Hgs & Hms); [by rewrite Hnil, app_nil_r|done..|].
    destruct (pub_run p1 ops) as [ds p2]. cbn [fst] in *. exists outs. by rewrite Hnil in *.
Qed.

(** ** Loss *)

Lemma parse_after_loss s sid k msgs (h : list (list Z)) :
  length sid = MOLD_SESSION_LEN → sub_last_seq s = Some (Z.of_nat k) → Forall payload_ok msgs → msgs ≠ [] →
  Z.of_nat (length msgs) < 2 ^ 16 → (k <= length h)%nat →
  Z.of_nat (length h) + Z.of_nat (length msgs) + 1 < 2 ^ 64 →
  parse_packet s (downstream_packet sid (Z.of_nat (length h) + 1) msgs)
  = Some (mkOutcome (Z.of_nat (length h) + 1) (Z.of_nat (length msgs)) false
            (if decide (k < length h)%nat
             then Some (mkGap (Z.of_nat k + 1) (Z.of_nat (length h) + 1) (Z.of_nat (length h - k))) else None)
            (number (Z.of_nat (length h) + 1) msgs),
          set_last_seq (Some (Z.of_nat (length h + length msgs))) s).
Proof.
  intros Hs Hl Hok Hne Hn Hk Hlen. rewrite parse_downstream; try done; try lia.
  2:{ rewrite Hl. intros l <-%(inj Some). lia. }
  rewrite Hl. unfold gap_before, watermark. do 4 f_equal.
  - case_decide; [rewrite decide_True by lia|by rewrite decide_False by lia]. do 2 f_equal. lia.
  - f_equal. lia.
Qed.

Lemma reply_spec cap log r sid k count :
  ring_rep cap log r → Z.of_nat (length log) < 2 ^ 64 - 1 → (length log <= k + cap)%nat →
  (k < length log)%nat → 0 < count →
  reply_packet (mkServer sid r) (Z.of_nat k + 1) count
  = Some (Some (downstream_packet sid (Z.of_nat k + 1) (take (Z.to_nat count) (drop k log))),
          length (take (Z.to_nat count) (drop k log))).
Proof.
  intros Hr Hlen Hw Hk Hc. unfold reply_packet. cbn [srv_cache srv_session_id].
  rewrite (get_range_spec cap log) by (done || lia). cbn [mbind option_bind].
  assert (Hm : cm_payload <$> cached (Z.of_nat k + 1) (take (Z.to_nat count) (drop k log)) = take (Z.to_nat count) (drop k log)).
  { unfold cached. rewrite <- list_fmap_compose. generalize (Z.of_nat k + 1) (take (Z.to_nat count) (drop k log)).
    intros z l. revert z; induction l as [|m l IH]; intros z; cbn; [done|]. by rewrite IH. }
  assert (Hl : length (cached (Z.of_nat k + 1) (take (Z.to_nat count) (drop k log))) = length (take (Z.to_nat count) (drop k log)))
    by (unfold cached; by rewrite length_fmap, length_number).
  destruct (cached _ _) as [|c cs] eqn:Ec; [|by rewrite Hm, Hl].
  exfalso. rewrite length_take, length_drop in Hl. cbn in Hl. lia.
Qed.

Lemma log_of_app l1 l2 : log_of (l1 ++ l2) = log_of l1 ++ log_of l2.
Proof. unfold log_of. by rewrite fmap_app, concat_app. Qed.

Lemma log_of_cons op l : log_of (op :: l) = op_messages op ++ log_of l.
Proof. done. Qed.

Lemma log_payloads ops : Forall op_ok ops → Forall payload_ok (log_of ops).
Proof.
  induction 1 as [|op ops Hop _ IH]; [constructor|]. rewrite log_of_cons.
  apply Forall_app. split; [by apply op_messages_ok|done].
Qed.

Lemma data_datagram sid next op : op_messages op ≠ [] → op_datagram sid next op = Some (downstream_packet sid next (op_messages op)).
Proof.
  intros Hne. unfold op_datagram. destruct op as [m|tag m|msgs max|]; try done.
  by destruct (op_messages (OpBatch msgs max)).
Qed.

(** A request for messages the window holds is answered with them. *)
Lemma serve_request cap log r sid k count sock :
  ring_rep cap log r → length sid = MOLD_SESSION_LEN → Z.of_nat (length log) + 1 < 2 ^ 64 →
  (length log <= k + cap)%nat → (k < length log)%nat → 0 < count < 2 ^ 16 →
  serve_once sock (mkServer sid r) (inr (encode_request (mkRequest sid (Z.of_nat k + 1) count)))
  = Some (match send_to sock (downstream_packet sid (Z.of_nat k + 1) (take (Z.to_nat count) (drop k log))) with
          | inl e => inl e | inr d => inr (Some (Some d)) end).
Proof.
  intros Hr Hs Hlen Hw Hk Hc. unfold serve_once.
  rewrite decode_request_encode by (done || (cbn; unfold in_u64, in_u16; lia)). cbn [rq_session_id rq_start_seq rq_msg_count].
  rewrite decide_True by done. unfold reply_range. rewrite (reply_spec cap log) by (done || lia). cbn [mbind option_bind].
  by destruct (send_to sock _).
Qed.

(** The subscriber already past message [n] reads a replay of earlier ones. *)
Lemma parse_replay s sid k msgs n :
  length sid = MOLD_SESSION_LEN → sub_last_seq s = Some (Z.of_nat n) → Forall payload_ok msgs → msgs ≠ [] →
  Z.of_nat (length msgs) < 2 ^ 16 → (k + length msgs <= n)%nat → Z.of_nat n + 1 < 2 ^ 64 →
  ∃ out, parse_packet s (downstream_packet sid (Z.of_nat k + 1) msgs) = Some (out, s)
    ∧ po_gap out = None ∧ po_messages out = number (Z.of_nat k + 1) msgs.
Proof.
  intros Hs Hl Hok Hne Hn Hk Hlen. rewrite parse_downstream; try done; try lia.
  2:{ rewrite Hl. intros l <-%(inj Some). lia. }
  assert (watermark (sub_last_seq s) (Z.of_nat k + 1 + Z.of_nat (length msgs) - 1) = sub_last_seq s) as ->.
  { rewrite Hl. unfold watermark. f_equal. lia. }
  rewrite set_last_seq_id. eexists. split; [reflexivity|]. cbn. split; [|done].
  rewrite Hl. cbn. by rewrite decide_False by lia.
Qed.

Lemma take_lost (h1 rest : list (list Z)) max_request :
  0 <= max_request →
  take (Z.to_nat (Z.min (Z.of_nat (length h1)) max_request)) (h1 ++ rest) = take (Z.to_nat max_request) h1.
Proof.
  intros Hm. rewrite take_app_le by lia. destruct (decide (Z.of_nat (length h1) <= max_request)).
  - rewrite Z.min_l, Nat2Z.id, !take_ge by lia. done.
  - by rewrite Z.min_r by lia.
Qed.

Lemma length_downstream_packet sid seq msgs :
  length sid = MOLD_SESSION_LEN → length (downstream_packet sid seq msgs) = (20 + sum_list ((λ m, (2 + length m)%nat) <$> msgs))%nat.
Proof.
  intros Hs. unfold downstream_packet. rewrite length_app, length_encode_downstream by (done || (unfold in_u16, u16_wrap; apply Z.mod_pos_bound; lia)). f_equal.
  induction msgs as [|m msgs IH]; [done|]. cbn [fmap list_fmap concat sum_list]. rewrite length_app, IH. unfold block. by rewrite length_app, length_be_bytes.
Qed.

(** A subscriber up to [h] reads the datagram of [ms], published after [h1]. *)
Lemma recover cap sid r h h1 ms rest max_request s nsock rsock :
  ring_rep cap (h ++ h1 ++ ms ++ rest) r → length sid = MOLD_SESSION_LEN →
  Z.of_nat (length (h ++ h1 ++ ms ++ rest)) + 1 < 2 ^ 64 →
  (length (h ++ h1 ++ ms ++ rest) <= length h + cap)%nat →
  h1 ≠ [] → ms ≠ [] → Forall payload_ok h1 → Forall payload_ok ms → Z.of_nat (length ms) < 2 ^ 16 →
  0 < max_request < 2 ^ 16 → s = mkSubscriber sid (Some (Z.of_nat (length h))) true →
  ∃ out s' gap req reply out',
    parse_packet s (downstream_packet sid (Z.of_nat (length (h ++ h1)) + 1) ms) = Some (out, s')
    ∧ po_gap out = Some gap ∧ gap_expected gap = Z.of_nat (length h) + 1 ∧ gap_lost gap = Z.of_nat (length h1)
    ∧ auto_nak nsock s' out max_request = match nsock req with None => inr (Some (gap, req)) | Some e => inl e end
    ∧ serve_once rsock (mkServer sid r) (inr req) = Some (match rsock reply with None => inr (Some (Some reply)) | Some e => inl e end)
    ∧ length reply = (20 + sum_list ((λ m, (2 + length m)%nat) <$> take (Z.to_nat max_request) h1))%nat
    ∧ parse_packet s' reply = Some (out', s')
    ∧ po_messages out' = number (Z.of_nat (length h) + 1) (take (Z.to_nat max_request) h1).
Proof.
  intros Hr Hs Hlen Hwin Hh1 Hms Hok1 Hokm Hn Hmax ->. rewrite !length_app in Hlen, Hwin.
  assert (0 < length h1)%nat by (destruct h1; [done|cbn; lia]).
  set (s := mkSubscriber _ _ _).
  pose proof (parse_after_loss s sid (length h) ms (h ++ h1) Hs eq_refl Hokm Hms Hn) as Hparse.
  rewrite length_app, decide_True in Hparse by lia. replace (length h + length h1 - length h)%nat with (length h1) in Hparse by lia.
  set (count := Z.min (Z.of_nat (length h1)) max_request).
  pose proof (serve_request cap _ r sid (length h) count rsock Hr Hs) as Hserve.
  rewrite !length_app, drop_app_length in Hserve. unfold count in Hserve. rewrite take_lost in Hserve by lia. fold count in Hserve.
  set (s' := set_last_seq (Some (Z.of_nat (length h + length h1 + length ms))) s) in *.
  assert (Hlen1 : (length (take (Z.to_nat max_request) h1) <= length h1)%nat) by (rewrite length_take; lia).
  assert (Hlen2 : (length (take (Z.to_nat max_request) h1) <= Z.to_nat max_request)%nat) by (rewrite length_take; lia).
  destruct (parse_replay s' sid (length h) (take (Z.to_nat max_request) h1) (length h + length h1 + length ms))
    as (out' & Ho & _ & Hm); [done|done|by apply Forall_take| |lia..|].
  { intros He. apply (f_equal length) in He. rewrite length_take in He. cbn in He. lia. }
  rewrite length_app. eexists _, s', _, (encode_request (mkRequest sid (Z.of_nat (length h) + 1) count)), _, out'.
  split; [apply Hparse; lia|]. cbn [po_gap gap_expected gap_lost]. split_and!; [reflexivity|done|done| | |by apply length_downstream_packet|exact Ho|done].
  - unfold auto_nak, send_nak, send_to. cbn [po_gap gap_expected gap_lost]. rewrite u16_wrap_id by (unfold in_u16; lia). change (sub_nak s') with true. change (sub_session_id s') with sid. fold count. by destruct (nsock _).
  - rewrite Hserve by lia. unfold send_to. by destruct (rsock _).
Qed.

(** ** Properties *)

(** Whatever mix of single, tagged and batched publishes and heartbeats a
    publisher makes, a subscriber that gets every datagram reports no gap and
    receives exactly the published messages, numbered 1, 2, ... in order. *)
Theorem mold_stream_delivered session cap nak p ops :
  publisher_new session cap = Some p → Forall op_ok ops → Z.of_nat (length (log_of ops)) + 1 < 2 ^ 64 →
  ∃ outs s, sub_run (subscriber_new session nak) (pub_run p ops).1 = Some (outs, s)
    ∧ Forall (λ out, po_gap out = None) outs
    ∧ concat (po_messages <$> outs) = number 1 (log_of ops) ∧ sub_last_seq s = caught_up (log_of ops).
Proof.
  intros Hp%pub_ok_new Hok Hlen.
  destruct (sub_run_in_sync cap [] p (subscriber_new session nak) ops Hp) as (outs & Ho & Hg & Hm); [done..|].
  eexists outs, _. split; [exact Ho|]. split_and!; done.
Qed.

(** The cache the publisher shares is exactly the window of the last [cap]
    messages of the log: it answers every number in the window with its message
    and every other number with nothing, a range starting in the window is
    answered without holes, and the floor is the lowest number still there. *)
Theorem mold_cache_is_window session cap p0 ops :
  publisher_new session cap = Some p0 → Forall op_ok ops → Z.of_nat (length (log_of ops)) + 1 < 2 ^ 64 →
  log_of ops ≠ [] →
  let r := pub_cache (pub_run p0 ops).2 in
  (∀ seq, in_u64 seq → msgring_get r seq = Some (window_get cap (log_of ops) seq))
  ∧ (∀ k count, (length (log_of ops) <= k + cap)%nat → (k < length (log_of ops))%nat → 0 <= count →
       get_range r (Z.of_nat k + 1) count
       = Some (cached (Z.of_nat k + 1) (take (Z.to_nat count) (drop k (log_of ops)))))
  ∧ eviction_floor r = Some (Z.max 1 (Z.of_nat (length (log_of ops)) - Z.of_nat cap + 1)).
Proof.
  intros Hp%pub_ok_new Hok Hlen Hne r.
  destruct (pub_run_spec cap [] p0 ops Hp Hok Hlen) as [[_ _ _ Hr] _]. cbn [app] in Hr. fold r in Hr. split_and!.
  - intros seq Hs. apply msgring_get_spec; (done || lia).
  - intros k count Hw Hk Hc. apply (get_range_spec cap); (done || lia).
  - unfold eviction_floor. rewrite (rr_first _ _ _ Hr). by destruct (log_of ops).
Qed.

(** C26.  Loss is noticed at the next data datagram and repaired as far as the
    protocol goes.  A subscriber has everything up to message [length (log_of
    seen)], misses the datagrams of the calls [lost], among them those a socket
    refused, and the next one it gets is the data datagram of [op] (not a heartbeat,
    which would hide the loss).  The gap it reports is exactly the messages of
    [lost].  Its automatic request goes out unless its socket refuses it; answered
    by the server after any further calls [later], it yields a datagram of the
    stated length with the first [max_request] of the lost messages, with their
    numbers, as long as the cache still holds the first one.  If the server's socket
    takes that datagram the subscriber reads these messages from it and its
    watermark does not move; otherwise the error is what [serve_once] returns. *)
Theorem mold_gap_recovered session cap p0 seen lost sock op later s max_request nsock rsock :
  let log calls := log_of (calls.*2) in
  publisher_new session cap = Some p0 → Forall op_ok ((seen ++ lost ++ (sock, op) :: later).*2) →
  Z.of_nat (length (log (seen ++ lost ++ (sock, op) :: later))) + 1 < 2 ^ 64 →
  log lost ≠ [] → op_messages op ≠ [] → 0 < max_request < 2 ^ 16 →
  (length (log (seen ++ lost ++ (sock, op) :: later)) <= length (log seen) + cap)%nat →
  s = mkSubscriber (pack_session session) (Some (Z.of_nat (length (log seen)))) true →
  let before := pub_calls p0 (seen ++ lost) in
  let after := pub_calls p0 (seen ++ lost ++ (sock, op) :: later) in
  ∃ d out s' gap req reply out',
    (pub_call before.2 (sock, op)).1 = match sock d with None => inr (Some d) | Some e => inl e end
    ∧ parse_packet s d = Some (out, s')
    ∧ po_gap out = Some gap ∧ gap_expected gap = Z.of_nat (length (log seen)) + 1
    ∧ gap_lost gap = Z.of_nat (length (log lost))
    ∧ auto_nak nsock s' out max_request = match nsock req with None => inr (Some (gap, req)) | Some e => inl e end
    ∧ serve_once rsock (server_new session (pub_cache after.2)) (inr req)
      = Some (match rsock reply with None => inr (Some (Some reply)) | Some e => inl e end)
    ∧ length reply = (20 + sum_list ((λ m, (2 + length m)%nat) <$> take (Z.to_nat max_request) (log lost)))%nat
    ∧ parse_packet s' reply = Some (out', s')
    ∧ po_messages out' = number (Z.of_nat (length (log seen)) + 1)
                           (take (Z.to_nat max_request) (log lost)).
Proof.
  intros log Hnew Hok Hlen Hlost Hop Hmax Hwin -> before after. subst before after log. cbn beta in *. rewrite !pub_calls_state, pub_call_step.
  rewrite !fmap_app, fmap_cons in *. cbn [snd] in *. set (hs := seen.*2) in *. set (hl := lost.*2) in *. set (ha := later.*2) in *.
  assert (Hsid : pub_session_id p0 = pack_session session).
  { unfold publisher_new in Hnew. destruct (msgring_new cap); [|done]. by injection Hnew as <-. }
  apply pub_ok_new in Hnew as Hp0.
  pose proof Hok as [Hok1 [Hok2 [Hokop _]%Forall_cons]%Forall_app]%Forall_app.
  destruct (op_messages_ok op Hokop) as [Hmsok Hmsn].
  destruct (pub_run_spec cap [] p0 (hs ++ hl ++ op :: ha) Hp0 Hok Hlen) as [Hp2 _].
  rewrite !log_of_app, log_of_cons in Hlen, Hwin. cbn [app] in Hp2. rewrite !log_of_app, log_of_cons in Hp2.
  pose proof Hlen as Hlen'. rewrite !length_app in Hlen'.
  destruct (pub_run_spec cap [] p0 (hs ++ hl) Hp0) as [Hp1 Hs1].
  { by apply Forall_app. } { cbn [app]. rewrite log_of_app, length_app. lia. }
  cbn [app] in Hp1. rewrite log_of_app in Hp1.
  destruct (pub_step_spec cap _ _ op Hp1 Hokop) as (_ & _ & Hd); [rewrite length_app; lia|].
  rewrite Hs1, Hsid, (po_next _ _ _ Hp1), data_datagram in Hd by done.
  edestruct (recover cap (pack_session session)) as (out & s' & gap & req & reply & out' & H1 & H2 & H3 & H4 & H5 & H6 & H7 & H8 & H9);
    [exact (po_ring _ _ _ Hp2)|apply length_pack_session|done|done|done|exact Hop|by apply log_payloads|done..|].
  exists (downstream_packet (pack_session session) (Z.of_nat (length (log_of hs ++ log_of hl)) + 1) (op_messages op)),
    out, s', gap, req, reply, out'. split; [|by split_and!]. rewrite Hd. cbn [fst]. unfold send_to, sent. by destruct (sock _).
Qed.

(** A heartbeat hides loss.  The subscriber has everything up to
    [length (log_of seen)] and misses the calls [lost]; if the next datagram it
    gets is a heartbeat, no gap is reported, the watermark jumps over the lost
    messages, and the data datagram that follows reports no gap either. *)
Theorem mold_heartbeat_hides_loss session cap p0 seen lost op s :
  publisher_new session cap = Some p0 → Forall op_ok (seen ++ lost ++ [op]) →
  Z.of_nat (length (log_of (seen ++ lost ++ [op]))) + 1 < 2 ^ 64 →
  log_of lost ≠ [] → op_messages op ≠ [] →
  sub_last_seq s = Some (Z.of_nat (length (log_of seen))) →
  let p := (pub_run p0 (seen ++ lost)).2 in
  ∃ hb s' d out s'',
    parse_packet s (heartbeat_packet p) = Some (hb, s') ∧ po_gap hb = None ∧ po_messages hb = []
    ∧ sub_last_seq s' = Some (Z.of_nat (length (log_of (seen ++ lost))))
    ∧ (pub_step p op).1 = Some d ∧ parse_packet s' d = Some (out, s'') ∧ po_gap out = None
    ∧ po_messages out = number (Z.of_nat (length (log_of (seen ++ lost))) + 1) (op_messages op).
Proof.
  intros Hp%pub_ok_new Hok Hlen Hlost Hop Hl p.
  rewrite app_assoc, (log_of_app (seen ++ lost)), length_app in Hlen. cbn in Hlen. rewrite app_nil_r in Hlen.
  pose proof Hok as [Hok1 [Hok2 [Hokop _]%Forall_cons]%Forall_app]%Forall_app.
  destruct (pub_run_spec cap [] p0 (seen ++ lost) Hp) as [Hp1 _]; [by apply Forall_app|cbn [app]; lia|].
  cbn [app] in Hp1. fold p in Hp1. destruct (op_messages_ok op Hokop) as [Hmsok Hmsn].
  destruct (pub_step_spec cap _ p op Hp1 Hokop) as (_ & _ & Hd); [lia|]. rewrite data_datagram in Hd by done.
  destruct Hp1 as [Hs Hn Hb _]. rewrite Hn in Hd.
  assert (Hle : (length (log_of seen) <= length (log_of (seen ++ lost)))%nat) by (rewrite log_of_app, length_app; lia).
  unfold heartbeat_packet. rewrite parse_heartbeat, Hl by (done || lia).
  set (s' := set_last_seq _ s).
  assert (Hl' : sub_last_seq s' = Some (Z.of_nat (length (log_of (seen ++ lost))))) by (cbn; f_equal; lia).
  eexists _, s', _, _, _. split; [reflexivity|]. split_and!; [done|done|done|exact Hd| | |].
  - apply (parse_after_loss s' _ (length (log_of (seen ++ lost)))); (done || lia).
  - cbn. by rewrite decide_False by lia.
  - done.
Qed.

Module Witness.

Definition session : list Z := [77; 65; 84; 67; 72].
Definition calls : list pub_op :=
  [OpHeartbeat; OpPublish [1; 2; 3]; OpBatch [[4]; []; [5; 6]] 0; OpTagged 1 [7]; OpBatch [[8]] 10; OpHeartbeat].

Definition publisher : MoldPublisher := default (mkPublisher [] 0 (mkMsgRing [] 0 0 None None)) (publisher_new session 4).

Lemma publisher_made : publisher_new session 4 = Some publisher.
Proof. reflexivity. Qed.

Lemma mold_stream_delivered_witness :
  log_of calls = [[1; 2; 3]; [4]; []; [5; 6]; [1; 7]]
  ∧ ∃ outs s, sub_run (subscriber_new session true) (pub_run publisher calls).1 = Some (outs, s)
    ∧ Forall (λ out, po_gap out = None) outs
    ∧ concat (po_messages <$> outs) = number 1 (log_of calls) ∧ sub_last_seq s = caught_up (log_of calls).
Proof.
  split; [vm_compute; reflexivity|].
  apply (mold_stream_delivered session 4 true publisher calls publisher_made); [|vm_compute; reflexivity].
  repeat constructor; vm_compute; congruence.
Defined.

Lemma mold_cache_is_window_witness :
  msgring_get (pub_cache (pub_run publisher calls).2) 2 = Some (Some (mkCached 2 [4]))
  ∧ msgring_get (pub_cache (pub_run publisher calls).2) 1 = Some None
  ∧ eviction_floor (pub_cache (pub_run publisher calls).2) = Some 2.
Proof.
  destruct (mold_cache_is_window session 4 publisher calls publisher_made) as (Hget & _ & Hf).
  - repeat constructor; vm_compute; congruence.
  - vm_compute. reflexivity.
  - vm_compute. congruence.
  - split_and!; [rewrite Hget by (unfold in_u64; lia)|rewrite Hget by (unfold in_u64; lia)|rewrite Hf];
      vm_compute; reflexivity.
Defined.

(** A socket that takes everything, one whose buffer is full, and one that takes what fits a UDP datagram. *)
Definition open_socket : Socket := λ _, None.
Definition full_socket : Socket := λ _, Some WouldBlock.
Definition udp_socket : Socket := λ d, if 65507 <? Z.of_nat (length d) then Some SendError else None.

(** The first lost datagram is lost on the way, the second is refused. *)
Lemma mold_gap_recovered_witness :
  ∃ d out s' gap req reply out',
    (pub_call (pub_calls publisher ([(open_socket, OpPublish [1])] ++ [(open_socket, OpPublish [2]); (full_socket, OpPublish [3])])).2
       (open_socket, OpPublish [4])).1 = inr (Some d)
    ∧ parse_packet (mkSubscriber (pack_session session) (Some 1) true) d = Some (out, s')
    ∧ po_gap out = Some gap ∧ gap_expected gap = 2 ∧ gap_lost gap = 2
    ∧ auto_nak open_socket s' out 100 = inr (Some (gap, req))
    ∧ serve_once open_socket (server_new session (pub_cache (pub_calls publisher
        ([(open_socket, OpPublish [1])] ++ [(open_socket, OpPublish [2]); (full_socket, OpPublish [3])]
         ++ (open_socket, OpPublish [4]) :: [(full_socket, OpPublish [5])])).2)) (inr req)
      = Some (inr (Some (Some reply)))
    ∧ length reply = 26%nat
    ∧ parse_packet s' reply = Some (out', s') ∧ po_messages out' = [(2, [2]); (3, [3])].
Proof.
  apply (mold_gap_recovered session 4 publisher [(open_socket, OpPublish [1])] [(open_socket, OpPublish [2]); (full_socket, OpPublish [3])]
           open_socket (OpPublish [4]) [(full_socket, OpPublish [5])] (mkSubscriber (pack_session session) (Some 1) true) 100 open_socket open_socket publisher_made).
  - repeat constructor; vm_compute; congruence.
  - vm_compute. reflexivity.
  - vm_compute. congruence.
  - vm_compute. congruence.
  - lia.
  - cbn. lia.
  - reflexivity.
Defined.

(** Two cached messages of 40000 bytes: the request for both makes a datagram that cannot be sent, and
    with that the server has ended, whatever else would have been asked. *)
Example long_reply_ends_server :
  let big := replicate (Z.to_nat 40000) 0 in
  let srv := server_new session (pub_cache (pub_run publisher [OpPublish big; OpPublish big]).2) in
  let ask start count := mkTurn false (inr (encode_request (mkRequest (pack_session session) start count))) udp_socket in
  let lengths (r : option (list (list Z) * option (IoError + unit))) :=
    match r with Some (ds, e) => Some (map (λ d, Z.of_nat (length d)) ds, e) | None => None end in
  lengths (serve_loop srv [ask 1 1; ask 1 2; ask 2 1]) = Some ([40022], Some (inl SendError))
  ∧ lengths (serve_loop srv [ask 1 1; ask 2 1]) = Some ([40022; 40022], None).
Proof. split; vm_compute; reflexivity. Qed.

Lemma mold_heartbeat_hides_loss_witness :
  ∃ hb s' d out s'',
    parse_packet (mkSubscriber (pack_session session) (Some 1) true)
      (heartbeat_packet (pub_run publisher ([OpPublish [1]] ++ [OpPublish [2]])).2) = Some (hb, s')
    ∧ po_gap hb = None ∧ po_messages hb = [] ∧ sub_last_seq s' = Some 2
    ∧ (pub_step (pub_run publisher ([OpPublish [1]] ++ [OpPublish [2]])).2 (OpPublish [3])).1 = Some d
    ∧ parse_packet s' d = Some (out, s'') ∧ po_gap out = None ∧ po_messages out = [(3, [3])].
Proof.
  apply (mold_heartbeat_hides_loss session 4 publisher [OpPublish [1]] [OpPublish [2]] (OpPublish [3])
           (mkSubscriber (pack_session session) (Some 1) true) publisher_made).
  - repeat constructor; vm_compute; congruence.
  - vm_compute. reflexivity.
  - vm_compute. congruence.
  - vm_compute. congruence.
  - reflexivity.
Defined.

(** [publish] takes the number and stores the message under two separate locks.
    When a second publisher stores its message in between, the first message is
    stored where it is never looked up. *)
Example racing_publishers_lose_a_message :
  let '(seq1, p) := alloc_seq publisher in
  let '(seq2, p) := alloc_seq p in
  let p := cache_message (cache_message p seq2 [2]) seq1 [1] in
  seq1 = 1 ∧ msgring_get (pub_cache p) seq1 = Some None ∧ msgring_get (pub_cache p) seq2 = Some (Some (mkCached 2 [2])).
Proof. vm_compute. split_and!; reflexivity. Qed.

(** A data packet of another session is taken like any other. *)
Example foreign_session_is_read :
  ∃ out s, parse_packet (subscriber_new session true) (downstream_packet (pack_session [66]) 5 [[1]]) = Some (out, s)
    ∧ po_messages out = [(5, [1])] ∧ sub_last_seq s = Some 5.
Proof. vm_compute. eexists _, _. split_and!; reflexivity. Qed.

End Witness.
