(* ===== verification/Journal.v ===== *)
(** * match-core-hp: the memory-mapped journal

    Models [crates/match-core-hp/src/journal.rs].  [j_map] is the mapped region,
    the bytes the process sees; the file on disk is a second byte string that
    [msync] and the kernel's own write-back bring up to date, page by page.  The
    kernel is a parameter of the model: pages may reach the disk at any time and
    in any order, a page reaches it whole, [msync] with [MS_SYNC] that succeeds
    has written the pages it covers. *)
From S2P Require Import Prelude.

#[local] Open Scope Z_scope.

Definition HEADER_LEN : nat := 8.

Record MmapJournal := mkJournal { j_map : list Z; j_cap : nat; j_cursor : nat }.

(** [create]: a truncated file of [capacity] zero bytes, mapped. *)
Definition journal_create (capacity : nat) : MmapJournal := mkJournal (replicate capacity 0) capacity HEADER_LEN.

(** [open_existing] on a file with the given bytes. *)
Definition journal_open (file : list Z) (capacity : nat) : MmapJournal := mkJournal file capacity capacity.

(** The two copies of [append] at the cursor. *)
Definition write_record (map : list Z) (cursor : nat) (payload : list Z) : list Z :=
  let map := copy_at cursor (le_bytes 4 (u32_wrap (Z.of_nat (length payload)))) map in
  copy_at (cursor + 4) payload map.

Definition journal_append (j : MmapJournal) (payload : list Z) : option nat * MmapJournal :=
  let total := (length payload + 4)%nat in
  if (j_cap j <? j_cursor j + total)%nat then (None, j)
  else
    let off := j_cursor j in
    (Some off, mkJournal (write_record (j_map j) (j_cursor j) payload) (j_cap j) (j_cursor j + total)).

Fixpoint append_batch_loop (j : MmapJournal) (records : list (list Z)) (written : nat) : nat * MmapJournal :=
  match records with
  | [] => (written, j)
  | payload :: records =>
      let total := (length payload + 4)%nat in
      if (j_cap j <? j_cursor j + total)%nat then (written, j)
      else append_batch_loop (mkJournal (write_record (j_map j) (j_cursor j) payload) (j_cap j) (j_cursor j + total))
             records (written + total)
  end.

Definition journal_append_batch (j : MmapJournal) (records : list (list Z)) : nat * MmapJournal :=
  append_batch_loop j records 0.

(** [committed_cursor] *)
Definition committed_cursor (j : MmapJournal) : nat := Nat.max (Z.to_nat (le_val (take 8 (j_map j)))) HEADER_LEN.

(** [iter_records] *)
Fixpoint iter_loop (fuel : nat) (map : list Z) (end_ off : nat) : list (nat * list Z) :=
  match fuel with
  | O => []
  | S fuel =>
      if (end_ <? off + 4)%nat then []
      else
        let len := Z.to_nat (le_val (slice off (off + 4) map)) in
        if (end_ <? off + 4 + len)%nat then []
        else (off, slice (off + 4) (off + 4 + len) map) :: iter_loop fuel map end_ (off + (4 + len))
  end.

(** Every record takes at least four bytes, so [end_] rounds are enough. *)
Definition iter_records (j : MmapJournal) (end_ : nat) : list (nat * list Z) :=
  iter_loop (S end_) (j_map j) end_ HEADER_LEN.

(** ** The disk *)

Section Disk.
(** The page size, [sysconf(_SC_PAGESIZE)]. *)
Variable page : nat.

(** The first [len] bytes, rounded up to whole pages. *)
Definition pages (len : nat) : nat := (len + (page - 1)) / page * page.

(** [msync(map, len, MS_SYNC)] that succeeds. *)
Definition msync (len : nat) (map disk : list Z) : list Z := take (pages len) map ++ drop (pages len) disk.

(** The kernel writes page [i] back. *)
Definition writeback (i : nat) (map disk : list Z) : list Z :=
  take (i * page) disk ++ take page (drop (i * page) map) ++ drop (i * page + page) disk.

(** [commit] in its three stages, so that a crash can come between them. *)
Definition commit_data (j : MmapJournal) (disk : list Z) : list Z :=
  if (HEADER_LEN <? j_cursor j)%nat then msync (j_cursor j) (j_map j) disk else disk.

Definition commit_header (j : MmapJournal) : MmapJournal :=
  mkJournal (copy_at 0 (le_bytes 8 (u64_wrap (Z.of_nat (j_cursor j)))) (j_map j)) (j_cap j) (j_cursor j).

Definition commit_flush (j : MmapJournal) (disk : list Z) : list Z := msync page (j_map j) disk.

(** [commit] when the kernel answers [ok_data] and [ok_header] to the two calls. *)
Definition journal_commit (ok_data ok_header : bool) (j : MmapJournal) (disk : list Z) :
    option nat * MmapJournal * list Z :=
  if (HEADER_LEN <? j_cursor j)%nat && negb ok_data then (None, j, disk)
  else
    let disk := commit_data j disk in
    let j := commit_header j in
    if ok_header then (Some (j_cursor j), j, commit_flush j disk) else (None, j, disk).

(** Where the writer is inside [commit]. *)
Inductive CommitPc := Idle | DataSynced | HeaderWritten.

(** The running journal; [recs] is every record appended so far and [durable] how
    many of them the last successful [commit] covered. *)
Record Machine := mkMachine { m_journal : MmapJournal; m_disk : list Z; m_pc : CommitPc;
                              m_recs : list (list Z); m_durable : nat }.

Inductive journal_step : Machine → Machine → Prop :=
| step_append j disk recs du payload off j' :
    journal_append j payload = (Some off, j') → Z.of_nat (length payload) < 2 ^ 32 →
    journal_step (mkMachine j disk Idle recs du) (mkMachine j' disk Idle (recs ++ [payload]) du)
| step_writeback j disk pc recs du i :
    journal_step (mkMachine j disk pc recs du) (mkMachine j (writeback i (j_map j) disk) pc recs du)
| step_commit_data j disk recs du :
    journal_step (mkMachine j disk Idle recs du) (mkMachine j (commit_data j disk) DataSynced recs du)
| step_commit_header j disk recs du :
    journal_step (mkMachine j disk DataSynced recs du) (mkMachine (commit_header j) disk HeaderWritten recs du)
| step_commit_ok j disk recs du :
    journal_step (mkMachine j disk HeaderWritten recs du)
                 (mkMachine j (commit_flush j disk) Idle recs (length recs))
| step_commit_failed j disk recs du :
    journal_step (mkMachine j disk HeaderWritten recs du) (mkMachine j disk Idle recs du).

Inductive journal_reachable (cap : nat) : Machine → Prop :=
| reach_create : journal_reachable cap (mkMachine (journal_create cap) (replicate cap 0) Idle [] 0)
| reach_step m m' : journal_reachable cap m → journal_step m m' → journal_reachable cap m'.

(** What a restart reads from the file: the committed records. *)
Definition recovered (cap : nat) (disk : list Z) : list (nat * list Z) :=
  let j := journal_open disk cap in iter_records j (committed_cursor j).

End Disk.

(** ** Records and their offsets *)

Definition record_bytes (payload : list Z) : list Z :=
  le_bytes 4 (u32_wrap (Z.of_nat (length payload))) ++ payload.

Definition log_bytes (recs : list (list Z)) : list Z := concat (record_bytes <$> recs).

Fixpoint with_offsets (off : nat) (recs : list (list Z)) : list (nat * list Z) :=
  match recs with [] => [] | r :: recs => (off, r) :: with_offsets (off + (4 + length r)) recs end.

Definition record_ok (payload : list Z) : Prop := Z.of_nat (length payload) < 2 ^ 32.

Lemma length_record_bytes r : length (record_bytes r) = (4 + length r)%nat.
Proof. unfold record_bytes. by rewrite length_app, length_le_bytes. Qed.

Lemma log_bytes_app l1 l2 : log_bytes (l1 ++ l2) = log_bytes l1 ++ log_bytes l2.
Proof. unfold log_bytes. by rewrite fmap_app, concat_app. Qed.

Lemma log_bytes_one r : log_bytes [r] = record_bytes r.
Proof. apply app_nil_r. Qed.

Lemma log_bytes_cons r l : log_bytes (r :: l) = record_bytes r ++ log_bytes l.
Proof. done. Qed.

(** The iterator reads back a run of records that ends where it is told to stop. *)
Lemma iter_loop_spec fuel map recs pre post :
  map = pre ++ log_bytes recs ++ post → Forall record_ok recs → (length (log_bytes recs) < fuel)%nat →
  iter_loop fuel map (length pre + length (log_bytes recs)) (length pre) = with_offsets (length pre) recs.
Proof.
  revert pre fuel; induction recs as [|r recs IH]; intros pre fuel Hm Hok Hf; (destruct fuel as [|fuel]; [lia|]).
  { cbn [iter_loop]. by rewrite (proj2 (Nat.ltb_lt _ _)) by (cbn; lia). }
  apply Forall_cons in Hok as [Hr Hok]. unfold record_ok in Hr.
  rewrite log_bytes_cons in Hf. rewrite length_app, length_record_bytes in Hf.
  assert (Hm' : map = pre ++ le_bytes 4 (Z.of_nat (length r)) ++ r ++ log_bytes recs ++ post).
  { rewrite Hm, log_bytes_cons. unfold record_bytes. rewrite u32_wrap_id by (unfold in_u32; lia). by rewrite <- !app_assoc. }
  assert (Hlen : le_val (slice (length pre) (length pre + 4) map) = Z.of_nat (length r)).
  { rewrite Hm', slice_app_skip by done. rewrite Nat.sub_diag, slice_app_here by (rewrite length_le_bytes; lia).
    apply le_val_u32. unfold in_u32. lia. }
  assert (Hpay : slice (length pre + 4) (length pre + 4 + length r) map = r).
  { rewrite Hm', slice_app_skip by lia. rewrite slice_app_skip by (rewrite length_le_bytes; lia). rewrite length_le_bytes.
    replace (length pre + 4 - length pre - 4)%nat with 0%nat by lia. apply slice_app_here. lia. }
  assert (Hnext : map = (pre ++ record_bytes r) ++ log_bytes recs ++ post) by (by rewrite Hm, log_bytes_cons, <- !app_assoc).
  specialize (IH (pre ++ record_bytes r) fuel Hnext Hok ltac:(lia)). rewrite length_app, length_record_bytes in IH.
  cbn [iter_loop]. rewrite log_bytes_cons, length_app, length_record_bytes.
  rewrite (proj2 (Nat.ltb_ge _ _)) by lia. rewrite Hlen, Nat2Z.id, (proj2 (Nat.ltb_ge _ _)) by lia.
  rewrite Hpay. cbn [with_offsets]. f_equal. rewrite <- IH. f_equal. lia.
Qed.

Lemma with_offsets_length_bytes recs : (length recs <= length (log_bytes recs))%nat.
Proof.
  induction recs as [|r recs IH]; [done|]. rewrite log_bytes_cons, length_app, length_record_bytes. cbn. lia.
Qed.

(** ** The mapped region *)

(** The cursor is at the end of the records written from the header on. *)
Record journal_rep (recs : list (list Z)) (j : MmapJournal) : Prop := {
  jr_len : length (j_map j) = j_cap j;
  jr_cursor : j_cursor j = (HEADER_LEN + length (log_bytes recs))%nat;
  jr_fits : (j_cursor j <= j_cap j)%nat;
  jr_ok : Forall record_ok recs;
  jr_data : take (length (log_bytes recs)) (drop HEADER_LEN (j_map j)) = log_bytes recs }.

Lemma write_record_eq map cursor payload :
  (cursor + (length payload + 4) <= length map)%nat →
  write_record map cursor payload = copy_at cursor (record_bytes payload) map.
Proof.
  intros Hf. unfold write_record, record_bytes. set (b := le_bytes 4 _).
  assert (Hb : length b = 4%nat) by apply length_le_bytes.
  rewrite <- (take_drop cursor map). set (a := take cursor map).
  assert (Ha : length a = cursor) by (unfold a; rewrite length_take; lia).
  assert (Hr : length (drop cursor map) = (length map - cursor)%nat) by apply length_drop.
  rewrite <- (take_drop 4 (drop cursor map)). set (c1 := take 4 _).
  assert (Hc1 : length c1 = 4%nat) by (unfold c1; rewrite length_take; lia).
  rewrite <- (take_drop (length payload) (drop 4 (drop cursor map))). set (c2 := take (length payload) _).
  assert (Hc2 : length c2 = length payload) by (unfold c2; rewrite length_take, length_drop; lia).
  set (d := drop (length payload) _).
  rewrite (copy_at_app a b c1) by (done || by rewrite Hb).
  rewrite (app_assoc a b), (copy_at_app (a ++ b) payload c2) by (done || (rewrite length_app; lia)).
  rewrite (app_assoc c1 c2), (copy_at_app a (b ++ payload) (c1 ++ c2)) by (done || (rewrite !length_app; lia)).
  by rewrite <- !app_assoc.
Qed.

Lemma length_copy_at off bs (buf : list Z) : (off + length bs <= length buf)%nat → length (copy_at off bs buf) = length buf.
Proof. intros Hf. unfold copy_at. rewrite !length_app, length_take, length_drop. lia. Qed.

Lemma copy_at_below off bs (buf : list Z) i : (off <= length buf)%nat → (i < off)%nat → copy_at off bs buf !! i = buf !! i.
Proof.
  intros Hf Hi. unfold copy_at. rewrite lookup_app_l by (rewrite length_take; lia). by apply lookup_take_lt.
Qed.

Lemma copy_at_above off bs (buf : list Z) i :
  (off + length bs <= length buf)%nat → (off + length bs <= i)%nat → copy_at off bs buf !! i = buf !! i.
Proof.
  intros Hf Hi. unfold copy_at. rewrite !lookup_app_r by (rewrite ?length_take; lia).
  rewrite lookup_drop, length_take. f_equal. lia.
Qed.

Lemma rep_split recs j :
  journal_rep recs j →
  ∃ hd post, j_map j = hd ++ log_bytes recs ++ post ∧ length hd = HEADER_LEN
    ∧ (HEADER_LEN + length (log_bytes recs) + length post = j_cap j)%nat.
Proof.
  intros [Hlen Hcur Hfit _ Hdata]. exists (take HEADER_LEN (j_map j)), (drop (length (log_bytes recs)) (drop HEADER_LEN (j_map j))).
  rewrite <- Hdata at 1. rewrite !take_drop, length_take, !length_drop. split_and!; [done|lia..].
Qed.

Lemma rep_of_split recs j hd post :
  j_map j = hd ++ log_bytes recs ++ post → length hd = HEADER_LEN → length (j_map j) = j_cap j →
  j_cursor j = (HEADER_LEN + length (log_bytes recs))%nat → Forall record_ok recs → journal_rep recs j.
Proof.
  intros Hm Hhd Hlen Hcur Hok. constructor; try done.
  - rewrite <- Hlen, Hcur, Hm, !length_app. lia.
  - rewrite Hm, <- Hhd, drop_app_length. apply take_app_length.
Qed.

Lemma journal_rep_create cap : (HEADER_LEN <= cap)%nat → journal_rep [] (journal_create cap).
Proof.
  intros Hc. constructor; try done. apply length_replicate.
Qed.

(** One more record at the cursor; nothing below the cursor changes. *)
Lemma write_record_rep recs j payload :
  journal_rep recs j → record_ok payload → (j_cursor j + (length payload + 4) <= j_cap j)%nat →
  let j' := mkJournal (write_record (j_map j) (j_cursor j) payload) (j_cap j) (j_cursor j + (length payload + 4)) in
  journal_rep (recs ++ [payload]) j' ∧ ∀ i, (i < j_cursor j)%nat → j_map j' !! i = j_map j !! i.
Proof.
  intros Hr Hp Hfit j'. destruct (rep_split recs j Hr) as (hd & post & Hm & Hhd & Hcap).
  pose proof Hr as [Hlen Hcur _ Hok _].
  assert (Hw : j_map j' = copy_at (j_cursor j) (record_bytes payload) (j_map j))
    by (apply write_record_eq; rewrite Hlen; done).
  split; [|intros i Hi; rewrite Hw; apply copy_at_below; [rewrite Hlen|]; lia].
  apply (rep_of_split _ _ hd (drop (length payload + 4) post)).
  - rewrite Hw, Hm, Hcur, <- (take_drop (length payload + 4) post), (app_assoc hd) at 1.
    rewrite copy_at_app; [|by rewrite length_app, Hhd|rewrite length_take, length_record_bytes; lia].
    by rewrite log_bytes_app, log_bytes_one, <- !app_assoc.
  - done.
  - rewrite Hw. rewrite length_copy_at; [done|]. rewrite length_record_bytes. lia.
  - cbn [j_cursor j']. rewrite log_bytes_app, log_bytes_one, length_app, Hcur, length_record_bytes. lia.
  - apply Forall_app. split; [done|by constructor].
Qed.

Lemma iter_records_spec recs j rs :
  journal_rep recs j → rs `prefix_of` recs →
  iter_records j (HEADER_LEN + length (log_bytes rs)) = with_offsets HEADER_LEN rs.
Proof.
  intros Hr [tl ->]. destruct (rep_split _ j Hr) as (hd & post & Hm & Hhd & _).
  rewrite log_bytes_app, <- app_assoc in Hm. unfold iter_records. rewrite <- Hhd.
  apply (iter_loop_spec _ _ rs hd (log_bytes tl ++ post)); [done| |lia].
  pose proof (jr_ok _ _ Hr) as [? _]%Forall_app. done.
Qed.

(** [append_batch] appends the records up to the first that does not fit. *)
Fixpoint fitting (room : nat) (records : list (list Z)) : list (list Z) :=
  match records with
  | [] => []
  | r :: records => if (room <? 4 + length r)%nat then [] else r :: fitting (room - (4 + length r)) records
  end.

Lemma append_batch_loop_spec recs j records written :
  journal_rep recs j → Forall record_ok records →
  let ok := fitting (j_cap j - j_cursor j) records in
  let '(w, j') := append_batch_loop j records written in
  w = (written + length (log_bytes ok))%nat ∧ journal_rep (recs ++ ok) j' ∧ j_cap j' = j_cap j.
Proof.
  revert recs j written; induction records as [|r records IH]; intros recs j written Hr Hok; cbn [append_batch_loop fitting].
  { rewrite app_nil_r. cbn. split_and!; [lia|done|done]. }
  apply Forall_cons in Hok as [Hro Hok]. pose proof (jr_fits _ _ Hr) as Hfit.
  destruct (Nat.ltb_spec (j_cap j) (j_cursor j + (length r + 4))) as [Hlt|Hge].
  { rewrite (proj2 (Nat.ltb_lt _ _)) by lia. rewrite app_nil_r. cbn. split_and!; [lia|done|done]. }
  rewrite (proj2 (Nat.ltb_ge _ _)) by lia.
  destruct (write_record_rep recs j r Hr Hro Hge) as [Hr' _]. set (j1 := mkJournal _ _ _) in *.
  specialize (IH (recs ++ [r]) j1 (written + (length r + 4))%nat Hr' Hok). cbn [j_cap j_cursor j1] in IH.
  replace (j_cap j - (j_cursor j + (length r + 4)))%nat with (j_cap j - j_cursor j - (4 + length r))%nat in IH by lia.
  destruct (append_batch_loop j1 records _) as [w j']. destruct IH as (-> & Hr2 & Hc).
  rewrite <- app_assoc in Hr2. split_and!; [|done|done]. rewrite log_bytes_cons, length_app, length_record_bytes. lia.
Qed.

(** ** Crashes *)

Section Crash.
Context (page : nat) (Hpage : (HEADER_LEN <= page)%nat).

(** The committed cursor a header stands for. *)
Definition header (l : list Z) : nat := Nat.max (Z.to_nat (le_val (take 8 l))) HEADER_LEN.

(** The bytes after the header, up to [c], are on the disk. *)
Definition agree (c : nat) (map disk : list Z) : Prop := ∀ i, (HEADER_LEN <= i < c)%nat → disk !! i = map !! i.

(** [l] has the header of the first [k] records. *)
Definition covers (recs : list (list Z)) (k : nat) (l : list Z) : Prop :=
  (k <= length recs)%nat ∧ header l = (HEADER_LEN + length (log_bytes (take k recs)))%nat.

Definition prefix_end (recs : list (list Z)) (k : nat) : nat := HEADER_LEN + length (log_bytes (take k recs)).

Record machine_inv (cap : nat) (m : Machine) : Prop := {
  mi_rep : journal_rep (m_recs m) (m_journal m);
  mi_cap : j_cap (m_journal m) = cap ∧ (HEADER_LEN <= cap)%nat ∧ Z.of_nat cap < 2 ^ 64;
  mi_disk : length (m_disk m) = cap;
  mi_headers : ∃ km kd, covers (m_recs m) km (j_map (m_journal m)) ∧ covers (m_recs m) kd (m_disk m)
    ∧ (m_durable m <= km)%nat ∧ (m_durable m <= kd)%nat
    ∧ agree (prefix_end (m_recs m) km) (j_map (m_journal m)) (m_disk m)
    ∧ agree (prefix_end (m_recs m) kd) (j_map (m_journal m)) (m_disk m)
    ∧ (m_pc m = HeaderWritten → km = length (m_recs m));
  mi_synced : m_pc m = DataSynced → agree (j_cursor (m_journal m)) (j_map (m_journal m)) (m_disk m) }.

Lemma header_eq l l' : (∀ i, (i < HEADER_LEN)%nat → l !! i = l' !! i) → header l = header l'.
Proof.
  intros Heq. unfold header. do 3 f_equal. apply list_eq. intros i.
  destruct (decide (i < 8)%nat); [rewrite !lookup_take_lt by done; by apply Heq|by rewrite !lookup_take_ge by lia].
Qed.

Lemma prefix_end_le recs k : (prefix_end recs k <= HEADER_LEN + length (log_bytes recs))%nat.
Proof.
  unfold prefix_end. rewrite <- (take_drop k recs) at 2. rewrite log_bytes_app, length_app. lia.
Qed.

(** The disk catches up in places: each byte stays or becomes the mapped one, and
    the header does so as a whole. *)
Lemma inv_sync cap j disk disk' pc recs du :
  machine_inv cap (mkMachine j disk pc recs du) → length disk' = cap →
  (∀ i, disk' !! i = j_map j !! i ∨ disk' !! i = disk !! i) →
  header disk' = header (j_map j) ∨ header disk' = header disk →
  machine_inv cap (mkMachine j disk' pc recs du).
Proof.
  intros [Hrep Hcap Hlen (km & kd & Hkm & Hkd & Hdm & Hdd & Ham & Had & Hpc) Hsync] Hlen' Hpt Hhd. cbn in *.
  assert (Hag : ∀ c, agree c (j_map j) disk → agree c (j_map j) disk').
  { intros c Hc i Hi. destruct (Hpt i) as [->| ->]; [done|by apply Hc]. }
  constructor; cbn; try done; [|intros Hp; apply Hag; by apply Hsync].
  destruct Hhd as [Hh|Hh].
  - exists km, km. unfold covers in *. rewrite Hh. split_and!; try done; try apply Hkm; by apply Hag.
  - exists km, kd. unfold covers in *. rewrite Hh. split_and!; try done; try apply Hkm; try apply Hkd; by apply Hag.
Qed.

Lemma msync_lookup len map disk i :
  length map = length disk →
  msync page len map disk !! i = if decide (i < pages page len)%nat then map !! i else disk !! i.
Proof.
  intros Hl. unfold msync. case_decide as Hi.
  - destruct (decide (i < length map)%nat).
    + rewrite lookup_app_l by (rewrite length_take; lia). by apply lookup_take_lt.
    + rewrite (lookup_ge_None_2 map) by lia. apply lookup_ge_None. rewrite length_app, length_take, length_drop. lia.
  - destruct (decide (i < length map)%nat).
    + rewrite lookup_app_r by (rewrite length_take; lia). rewrite lookup_drop, length_take. f_equal. lia.
    + rewrite (lookup_ge_None_2 disk) by lia. apply lookup_ge_None. rewrite length_app, length_take, length_drop. lia.
Qed.

Lemma length_msync len map disk : length map = length disk → length (msync page len map disk) = length disk.
Proof. intros Hl. unfold msync. rewrite length_app, length_take, length_drop. lia. Qed.

Lemma pages_ge len : (len <= pages page len)%nat.
Proof.
  unfold pages. unfold HEADER_LEN in Hpage.
  pose proof (Nat.div_mod_eq (len + (page - 1)) page). pose proof (Nat.mod_upper_bound (len + (page - 1)) page). lia.
Qed.

Lemma writeback_lookup i map disk k :
  length map = length disk →
  writeback page i map disk !! k = if decide (i * page <= k < i * page + page)%nat then map !! k else disk !! k.
Proof.
  intros Hl. unfold writeback. set (a := (i * page)%nat). destruct (decide (k < length disk)%nat) as [Hk|Hk].
  2:{ rewrite !(lookup_ge_None_2 _ k) by (rewrite ?length_app, ?length_take, ?length_drop, ?length_take, ?length_drop; lia).
      by case_decide. }
  case_decide as Hin.
  - rewrite lookup_app_r, lookup_app_l by (rewrite ?length_take, ?length_drop; lia).
    rewrite length_take, lookup_take_lt, lookup_drop by lia. f_equal. lia.
  - destruct (decide (k < a)%nat).
    + rewrite lookup_app_l by (rewrite length_take; lia). by apply lookup_take_lt.
    + rewrite !lookup_app_r by (rewrite ?length_take, ?length_drop; lia).
      rewrite lookup_drop, !length_take, length_drop. f_equal. lia.
Qed.

Lemma length_writeback i map disk : length map = length disk → length (writeback page i map disk) = length disk.
Proof.
  intros Hl. unfold writeback. rewrite !length_app, !length_take, !length_drop. lia.
Qed.

Lemma inv_writeback cap j disk pc recs du i :
  machine_inv cap (mkMachine j disk pc recs du) →
  machine_inv cap (mkMachine j (writeback page i (j_map j) disk) pc recs du).
Proof.
  intros Hinv. pose proof (mi_disk _ _ Hinv) as Hd. pose proof (mi_cap _ _ Hinv) as (Hc & _).
  pose proof (jr_len _ _ (mi_rep _ _ Hinv)) as Hl. cbn in *. assert (Heq : length (j_map j) = length disk) by congruence.
  apply (inv_sync cap j disk); [done| | |].
  - by rewrite length_writeback.
  - intros k. rewrite writeback_lookup by done. case_decide; auto.
  - destruct (decide (i = 0)%nat) as [->|Hi]; [left|right]; apply header_eq; intros k Hk; rewrite writeback_lookup by done.
    + rewrite decide_True by lia. done.
    + rewrite decide_False; [done|]. nia.
Qed.

Lemma inv_msync cap j disk pc recs du len :
  machine_inv cap (mkMachine j disk pc recs du) → (HEADER_LEN <= len)%nat →
  machine_inv cap (mkMachine j (msync page len (j_map j) disk) pc recs du)
  ∧ header (msync page len (j_map j) disk) = header (j_map j).
Proof.
  intros Hinv Hlen. pose proof (mi_disk _ _ Hinv) as Hd. pose proof (mi_cap _ _ Hinv) as (Hc & _).
  pose proof (jr_len _ _ (mi_rep _ _ Hinv)) as Hl. cbn in *. assert (Heq : length (j_map j) = length disk) by congruence.
  pose proof (pages_ge len) as Hp.
  assert (Hh : header (msync page len (j_map j) disk) = header (j_map j)).
  { apply header_eq. intros k Hk. rewrite msync_lookup, decide_True by (done || lia). done. }
  split; [|done]. apply (inv_sync cap j disk); [done|by rewrite length_msync| |by left].
  intros k. rewrite msync_lookup by done. case_decide; auto.
Qed.

Lemma inv_append cap j disk recs du payload off j' :
  machine_inv cap (mkMachine j disk Idle recs du) → journal_append j payload = (Some off, j') → record_ok payload →
  machine_inv cap (mkMachine j' disk Idle (recs ++ [payload]) du).
Proof.
  intros [Hrep Hcap Hlen (km & kd & [Hkm Hhm] & [Hkd Hhd] & Hdm & Hdd & Ham & Had & _) _] Happ Hok. cbn in *.
  unfold journal_append in Happ. destruct (Nat.ltb_spec (j_cap j) (j_cursor j + (length payload + 4))) as [|Hfit]; [done|].
  injection Happ as _ <-. destruct (write_record_rep recs j payload Hrep Hok Hfit) as [Hrep' Hbelow]. set (j' := mkJournal _ _ _) in *.
  pose proof (jr_cursor _ _ Hrep) as Hcur.
  assert (Hend : ∀ k, (k <= length recs)%nat → prefix_end (recs ++ [payload]) k = prefix_end recs k)
    by (intros k Hk; unfold prefix_end; by rewrite take_app_le).
  assert (Hag : ∀ k, agree (prefix_end recs k) (j_map j) disk → agree (prefix_end recs k) (j_map j') disk).
  { intros k Ha i Hi. rewrite Hbelow; [by apply Ha|]. pose proof (prefix_end_le recs k). lia. }
  constructor; cbn -[prefix_end]; try done.
  exists km, kd. unfold covers. rewrite !take_app_le, !length_app, !Hend by done.
  rewrite (header_eq (write_record (j_map j) (j_cursor j) payload) (j_map j)) by (intros i Hi; apply Hbelow; lia).
  split_and!; try done; try lia; by apply Hag.
Qed.

Lemma inv_commit_data cap j disk recs du :
  machine_inv cap (mkMachine j disk Idle recs du) →
  machine_inv cap (mkMachine j (commit_data page j disk) DataSynced recs du).
Proof.
  intros Hinv. pose proof (mi_disk _ _ Hinv) as Hd. pose proof (mi_cap _ _ Hinv) as (Hc & _).
  pose proof (jr_len _ _ (mi_rep _ _ Hinv)) as Hl. pose proof (jr_cursor _ _ (mi_rep _ _ Hinv)) as Hcur. cbn in *.
  assert (Hinv' : machine_inv cap (mkMachine j (commit_data page j disk) Idle recs du)
                  ∧ agree (j_cursor j) (j_map j) (commit_data page j disk)).
  { unfold commit_data. destruct (Nat.ltb_spec HEADER_LEN (j_cursor j)) as [Hlt|Hge].
    - split; [by apply inv_msync; [|lia]|]. intros i Hi. pose proof (pages_ge (j_cursor j)).
      rewrite msync_lookup, decide_True by (congruence || lia). done.
    - split; [done|]. intros i Hi. lia. }
  destruct Hinv' as [[Hrep Hcap Hlen Hhdr _] Hag]. constructor; cbn in *; try done.
  destruct Hhdr as (km & kd & ? & ? & ? & ? & ? & ? & _). exists km, kd. by split_and!.
Qed.

Lemma inv_commit_header cap j disk recs du :
  machine_inv cap (mkMachine j disk DataSynced recs du) →
  machine_inv cap (mkMachine (commit_header j) disk HeaderWritten recs du).
Proof.
  intros [Hrep (Hcap & Hc8 & Hc64) Hlen (km & kd & _ & [Hkd Hhd] & Hdm & Hdd & _ & Had & _) Hsync]. cbn in *.
  specialize (Hsync eq_refl). pose proof Hrep as [Hl Hcur Hfit Hok Hdata].
  assert (Hb : length (le_bytes 8 (u64_wrap (Z.of_nat (j_cursor j)))) = HEADER_LEN) by apply length_le_bytes.
  assert (Habove : ∀ i, (HEADER_LEN <= i)%nat → j_map (commit_header j) !! i = j_map j !! i)
    by (intros i Hi; unfold commit_header; cbn [j_map]; apply copy_at_above; rewrite Hb; lia).
  assert (Hhead : header (j_map (commit_header j)) = j_cursor j).
  { unfold header, commit_header. cbn [j_map]. unfold copy_at. rewrite take_0, app_nil_l, take_app_length' by done.
    rewrite u64_wrap_id by (unfold in_u64; lia). rewrite le_val_u64 by (unfold in_u64; lia). lia. }
  destruct (rep_split recs j Hrep) as (hd & post & Hm & Hhd8 & _).
  constructor; cbn [m_recs m_journal m_disk m_pc m_durable]; try done.
  - apply (rep_of_split _ _ (le_bytes 8 (u64_wrap (Z.of_nat (j_cursor j)))) post); try done; unfold commit_header; cbn [j_map j_cap j_cursor].
    + rewrite Hm. apply (copy_at_app [] _ hd); [done|]. by rewrite Hhd8, Hb.
    + rewrite length_copy_at; [done|]. rewrite Hb. lia.
  - exists (length recs), kd. unfold covers, prefix_end. rewrite firstn_all, Hhead. split_and!; try done; try lia.
    + intros i Hi. rewrite Habove by lia. apply Hsync. lia.
    + intros i Hi. rewrite Habove by lia. apply Had. exact Hi.
Qed.

Lemma inv_commit_ok cap j disk recs du :
  machine_inv cap (mkMachine j disk HeaderWritten recs du) →
  machine_inv cap (mkMachine j (commit_flush page j disk) Idle recs (length recs)).
Proof.
  intros Hinv. destruct (inv_msync cap j disk HeaderWritten recs du page Hinv Hpage) as [[Hrep Hcap Hlen Hhdr _] Hh]. cbn in *.
  constructor; cbn; try done. destruct Hhdr as (km & kd & Hkm & Hkd & _ & _ & Ham & Had & Hpc).
  rewrite (Hpc eq_refl) in *. exists (length recs), (length recs). unfold covers in *. unfold commit_flush. rewrite Hh.
  split_and!; try done; try apply Hkm; lia.
Qed.
Lemma le_val_zeros n : le_val (replicate n 0) = 0.
Proof. induction n as [|n IH]; [done|]. cbn [replicate le_val]. lia. Qed.

Lemma inv_create cap :
  (HEADER_LEN <= cap)%nat → Z.of_nat cap < 2 ^ 64 →
  machine_inv cap (mkMachine (journal_create cap) (replicate cap 0) Idle [] 0).
Proof.
  intros Hc H64.
  assert (Hh : header (replicate cap 0) = HEADER_LEN)
    by (unfold header; by rewrite take_replicate, le_val_zeros).
  constructor; cbn [m_recs m_journal m_disk m_pc m_durable]; try done.
  - by apply journal_rep_create.
  - apply length_replicate.
  - exists 0%nat, 0%nat. by split_and!.
Qed.

Lemma reachable_inv cap m :
  (HEADER_LEN <= cap)%nat → Z.of_nat cap < 2 ^ 64 → journal_reachable page cap m → machine_inv cap m.
Proof.
  intros Hc H64. induction 1 as [|m m' _ IH Hstep]; [by apply inv_create|].
  destruct Hstep; [by eapply inv_append|by apply inv_writeback|by apply inv_commit_data|by apply inv_commit_header
                  |by eapply inv_commit_ok|].
  destruct IH as [Hrep Hcap Hlen (km & kd & ? & ? & ? & ? & ? & ? & _) _]. constructor; try done.
  exists km, kd. by split_and!.
Qed.

Lemma agree_data c map disk :
  agree c map disk → take (c - HEADER_LEN) (drop HEADER_LEN disk) = take (c - HEADER_LEN) (drop HEADER_LEN map).
Proof.
  intros Ha. apply list_eq. intros i. destruct (decide (i < c - HEADER_LEN)%nat).
  - rewrite !lookup_take_lt, !lookup_drop by done. apply Ha. lia.
  - by rewrite !lookup_take_ge by lia.
Qed.

(** A file whose header covers [k] records, and that has their bytes, gives them back. *)
Lemma recovered_spec cap j disk recs k :
  journal_rep recs j → j_cap j = cap → length disk = cap → covers recs k disk →
  agree (prefix_end recs k) (j_map j) disk →
  recovered cap disk = with_offsets HEADER_LEN (take k recs).
Proof.
  intros Hrep Hcap Hlen [Hk Hh] Ha. pose proof Hrep as [Hl Hcur Hfit Hok Hdata].
  unfold recovered. change (committed_cursor (journal_open disk cap)) with (header disk). rewrite Hh.
  apply agree_data in Ha. unfold prefix_end in Ha.
  replace (HEADER_LEN + length (log_bytes (take k recs)) - HEADER_LEN)%nat with (length (log_bytes (take k recs))) in Ha by lia.
  assert (Hpre : log_bytes recs = log_bytes (take k recs) ++ log_bytes (drop k recs)) by (by rewrite <- log_bytes_app, take_drop).
  apply (iter_records_spec (take k recs) (mkJournal disk cap (HEADER_LEN + length (log_bytes (take k recs))))); [|done].
  constructor; cbn [j_map j_cap j_cursor]; try done.
  - rewrite Hpre, length_app in Hcur. lia.
  - by apply Forall_take.
  - rewrite Ha. rewrite <- (take_app_length (log_bytes (take k recs)) (log_bytes (drop k recs))) at 2.
    rewrite <- Hpre, <- Hdata, take_take. f_equal. rewrite Hpre, length_app. lia.
Qed.

Lemma crash_recovers cap m :
  (HEADER_LEN <= cap)%nat → Z.of_nat cap < 2 ^ 64 → journal_reachable page cap m →
  ∃ k, (m_durable m <= k <= length (m_recs m))%nat
    ∧ recovered cap (m_disk m) = with_offsets HEADER_LEN (take k (m_recs m)).
Proof.
  intros Hc H64 Hreach. destruct (reachable_inv cap m Hc H64 Hreach) as [Hrep [Hcap _] Hlen Hhdr _].
  destruct Hhdr as (km & kd & _ & Hkd & _ & Hd & _ & Had & _). exists kd. split; [destruct Hkd; lia|].
  by eapply recovered_spec.
Qed.

Lemma fitting_prefix room records : fitting room records `prefix_of` records.
Proof.
  revert room; induction records as [|r records IH]; intros room; cbn [fitting]; [done|].
  destruct (room <? 4 + length r)%nat; [apply prefix_nil|by apply prefix_cons].
Qed.

(** ** Properties *)

(** C18.  The journal is crash safe.  Whatever records are appended, however pages
    reach the disk, and wherever in a commit the process or the machine stops,
    opening the file and reading up to its committed cursor gives back, with
    their offsets, exactly the first [k] records appended, and no record covered
    by a commit that returned success is missing. *)
Theorem journal_crash_safe cap m :
  (HEADER_LEN <= cap)%nat → Z.of_nat cap < 2 ^ 64 → journal_reachable page cap m →
  ∃ k, (m_durable m <= k <= length (m_recs m))%nat
    ∧ recovered cap (m_disk m) = with_offsets HEADER_LEN (take k (m_recs m)).
Proof. apply crash_recovers. Qed.

(** [commit] between two calls: when both [msync] calls succeed it returns the
    cursor and a restart finds every record; when the first fails nothing has
    changed; when the second fails the records are written but success is not
    reported, and a restart finds all of them or what it would have found before. *)
Theorem journal_commit_durable cap j disk recs du ok_data ok_header :
  (HEADER_LEN <= cap)%nat → Z.of_nat cap < 2 ^ 64 →
  journal_reachable page cap (mkMachine j disk Idle recs du) →
  let '(r, j', disk') := journal_commit page ok_data ok_header j disk in
  (ok_data = true → ok_header = true →
     r = Some (j_cursor j) ∧ recovered cap disk' = with_offsets HEADER_LEN recs
     ∧ journal_reachable page cap (mkMachine j' disk' Idle recs (length recs)))
  ∧ (ok_data = false → recs ≠ [] → r = None ∧ j' = j ∧ disk' = disk)
  ∧ (ok_data = true → ok_header = false →
     r = None ∧ journal_reachable page cap (mkMachine j' disk' Idle recs du)).
Proof.
  intros Hc H64 Hreach. destruct (reachable_inv cap _ Hc H64 Hreach) as [Hrep _ _ _ _]. cbn in Hrep.
  assert (Hdata := reach_step page cap _ _ Hreach (step_commit_data page j disk recs du)).
  assert (Hhead := reach_step page cap _ _ Hdata (step_commit_header page j _ recs du)).
  assert (Hok := reach_step page cap _ _ Hhead (step_commit_ok page _ _ recs du)).
  assert (Hfail := reach_step page cap _ _ Hhead (step_commit_failed page _ _ recs du)).
  unfold journal_commit. destruct ok_data; cbn [negb].
  - rewrite andb_false_r. destruct ok_header; split_and!; try done. intros _ _. split_and!; [done| |done].
    destruct (crash_recovers cap _ Hc H64 Hok) as (k & Hk & Hr). cbn [m_recs m_durable m_disk] in Hk, Hr.
    by rewrite take_ge in Hr by lia.
  - destruct (decide (recs = [])) as [->|Hne]; [by destruct (_ <? _)%nat, ok_header|].
    assert (HEADER_LEN <? j_cursor j = true)%nat as ->; [|by split_and!].
    apply Nat.ltb_lt. rewrite (jr_cursor _ _ Hrep). pose proof (with_offsets_length_bytes recs).
    assert (length recs ≠ 0)%nat by (by destruct recs). lia.
Qed.

(** A batch appends its records up to the first that does not fit, reports the
    bytes it wrote, and reading the journal gives back every record appended so
    far with the offset it was written at. *)
Theorem journal_batch_roundtrip cap m records :
  (HEADER_LEN <= cap)%nat → Z.of_nat cap < 2 ^ 64 → journal_reachable page cap m → Forall record_ok records →
  let j := m_journal m in
  let ok := fitting (cap - j_cursor j) records in
  let '(w, j') := journal_append_batch j records in
  w = length (log_bytes ok) ∧ ok `prefix_of` records
  ∧ iter_records j' (j_cursor j') = with_offsets HEADER_LEN (m_recs m ++ ok).
Proof.
  intros Hc H64 Hreach Hok j ok. destruct (reachable_inv cap m Hc H64 Hreach) as [Hrep [Hcap _] _ _ _].
  fold j in Hrep, Hcap. unfold journal_append_batch.
  pose proof (append_batch_loop_spec (m_recs m) j records 0 Hrep Hok) as Hb. rewrite Hcap in Hb. fold ok in Hb.
  destruct (append_batch_loop j records 0) as [w j']. destruct Hb as (-> & Hrep' & _).
  split_and!; [done|apply fitting_prefix|]. rewrite (jr_cursor _ _ Hrep'). by apply (iter_records_spec (m_recs m ++ ok)).
Qed.

End Crash.

Module Witness.

(** Three records, two of them committed, the third on the disk before its commit. *)
Definition j0 : MmapJournal := journal_create 64.
Definition j2 : MmapJournal := (journal_append (journal_append j0 [1; 2; 3]).2 []).2.
Definition disk2 : list Z := (journal_commit 16 true true j2 (replicate 64 0)).2.
Definition jc : MmapJournal := commit_header j2.
Definition j3 : MmapJournal := (journal_append jc [9]).2.
Definition disk3 : list Z := writeback 16 1 (j_map j3) disk2.

Definition running : Machine := mkMachine j2 (replicate 64 0) Idle [[1; 2; 3]; []] 0.
Definition crashed : Machine := mkMachine j3 disk3 Idle [[1; 2; 3]; []; [9]] 2.

Lemma running_reachable : journal_reachable 16 64 running.
Proof.
  eapply reach_step; [eapply reach_step; [apply reach_create|]|].
  - eapply (step_append 16 j0 (replicate 64 0) [] 0 [1; 2; 3]); [vm_compute; reflexivity|cbn; lia].
  - eapply (step_append 16 _ _ [[1; 2; 3]] 0 []); [vm_compute; reflexivity|cbn; lia].
Qed.

Lemma crashed_reachable : journal_reachable 16 64 crashed.
Proof.
  eapply reach_step; [eapply reach_step; [eapply reach_step; [eapply reach_step; [eapply reach_step; [apply running_reachable|]|]|]|]|].
  - apply step_commit_data.
  - apply step_commit_header.
  - apply step_commit_ok.
  - eapply (step_append 16 jc disk2 [[1; 2; 3]; []] 2 [9]); [vm_compute; reflexivity|cbn; lia].
  - apply (step_writeback 16 j3 disk2 Idle [[1; 2; 3]; []; [9]] 2 1).
Qed.

Lemma journal_crash_safe_witness :
  (∃ k, (2 <= k <= 3)%nat ∧ recovered 64 disk3 = with_offsets 8 (take k [[1; 2; 3]; []; [9]]))
  ∧ recovered 64 disk3 = [(8%nat, [1; 2; 3]); (15%nat, [])].
Proof.
  split; [|vm_compute; reflexivity].
  apply (journal_crash_safe 16 ltac:(unfold HEADER_LEN; lia) 64 crashed); [unfold HEADER_LEN; lia|lia|apply crashed_reachable].
Defined.

Lemma journal_commit_durable_witness :
  recovered 64 (journal_commit 16 true true j2 (replicate 64 0)).2 = [(8%nat, [1; 2; 3]); (15%nat, [])].
Proof.
  pose proof (journal_commit_durable 16 ltac:(unfold HEADER_LEN; lia) 64 j2 (replicate 64 0) [[1; 2; 3]; []] 0 true true
    ltac:(unfold HEADER_LEN; lia) ltac:(lia) running_reachable) as Hd.
  destruct (journal_commit 16 true true j2 (replicate 64 0)) as [[r j'] disk'].
  cbn [snd]. destruct Hd as (Hd & _). by destruct (Hd eq_refl eq_refl) as (_ & -> & _).
Defined.

Lemma journal_batch_roundtrip_witness :
  iter_records (journal_append_batch j2 [[7]; replicate 60 0; [8]]).2 24 = [(8%nat, [1; 2; 3]); (15%nat, []); (19%nat, [7])].
Proof.
  pose proof (journal_batch_roundtrip 16 ltac:(unfold HEADER_LEN; lia) 64 running [[7]; replicate 60 0; [8]]
    ltac:(unfold HEADER_LEN; lia) ltac:(lia) running_reachable) as Hb.
  assert (Hok : Forall record_ok [[7]; replicate 60 0; [8]]) by (repeat constructor).
  specialize (Hb Hok). cbn zeta in Hb. change (m_journal running) with j2 in Hb.
  assert (Hc : j_cursor (journal_append_batch j2 [[7]; replicate 60 0; [8]]).2 = 24%nat) by (vm_compute; reflexivity).
  destruct (journal_append_batch j2 [[7]; replicate 60 0; [8]]) as [w j']. cbn [snd] in *. destruct Hb as (_ & _ & Hi).
  rewrite Hc in Hi. rewrite Hi. vm_compute. reflexivity.
Defined.

End Witness.
