(* ===== verification/UdpOrder.v ===== *)
(** * match-udp-order: order entry over UDP

    Models [crates/match-udp-order/src]: the frame ([packet.rs]) and the two
    session state machines ([session.rs]).  A datagram is the list of its bytes;
    a method returns the new state, the events it reports and the datagrams it
    sends.  A borrowed payload is the bytes it borrows.  An [Instant] is a number
    of nanoseconds and the clock is an argument.  A [BTreeMap] is the list of its
    entries in key order, a [VecDeque] the list of its elements. *)
From S2P Require Import Prelude HpIndex.

#[local] Open Scope Z_scope.

(** ** Frames ([packet.rs]) *)

Definition SESSION_MAGIC : Z := 0x4D4F4F52.
Definition FRAME_HEADER_LEN : nat := 9.

Record Header := mkHeader { h_session : Z; h_seq : Z; h_mtype : Z }.

Definition HELLO : Z := 0x30.
Definition ORDER : Z := 0x01.
Definition CANCEL : Z := 0x02.
Definition REPLACE : Z := 0x03.
Definition NAK_REQUEST : Z := 0x20.
Definition HEARTBEAT : Z := 0x40.
Definition HELLO_ACK : Z := 0x31.
Definition ORDER_ACK : Z := 0x12.
Definition REPORT : Z := 0x10.
Definition NAK_RESPONSE : Z := 0x21.

Definition HELLO_ACK_GAP_TOO_OLD : Z := 1.
Definition ACK_OK : Z := 0.
Definition ACK_REJECT : Z := 1.
Definition ACK_RETRY : Z := 2.

Definition encode (session seq mtype : Z) (payload : list Z) : list Z :=
  be_bytes 4 session ++ be_bytes 4 seq ++ [mtype] ++ payload.

Definition decode (dg : list Z) : option (Header * list Z) :=
  if (length dg <? FRAME_HEADER_LEN)%nat then None
  else
    let session := be_val (slice 0 4 dg) in
    if negb (session =? SESSION_MAGIC) then None
    else
      let seq := be_val (slice 4 8 dg) in
      mtype ← dg !! 8%nat;
      Some (mkHeader session seq mtype, drop FRAME_HEADER_LEN dg).

(** [u32_be] of the first four bytes at an offset the caller has checked. *)
Definition u32_be (b : list Z) : Z := be_val (slice 0 4 b).

(** ** Server ([ServerSession]) *)

Inductive ServerEvent :=
| SvOrder (client_seq : Z) (msg : list Z)
| SvCancel (client_seq : Z) (msg : list Z)
| SvReplace (client_seq : Z) (msg : list Z)
| SvNakRequest (start_seq count : Z)
| SvHello (client_id last_report_seq : Z)
| SvHeartbeat.

Record ServerSession := mkServer {
  next_report_seq : Z;
  expected_client_seq : Z;
  store : list (Z * list Z);
  store_start : Z;
  store_cap : nat;
  last_nak_start : option Z }.

Definition udp_server_new (cap : nat) : ServerSession := mkServer 1 1 [] 1 (Nat.max cap 1) None.

Definition report_high_water (s : ServerSession) : Z := Z.max 0 (next_report_seq s - 1).

Definition ack_payload (seq result : Z) : list Z := be_bytes 4 seq ++ [result].

(** [[seq u32][len u16][payload]] *)
Definition nak_entry (e : Z * list Z) : list Z :=
  be_bytes 4 e.1 ++ be_bytes 2 (u16_wrap (Z.of_nat (length e.2))) ++ e.2.

Definition nak_response (s : ServerSession) (start count : Z) : list Z :=
  let from := Z.max start (store_start s) in
  let to := Z.min (Z.min (from + count) (2 ^ 32 - 1)) (report_high_water s + 1) in
  let hit := filter (λ e : Z * list Z, from <= e.1 ∧ e.1 < to) (store s) in
  encode SESSION_MAGIC 0 NAK_RESPONSE
    (be_bytes 4 from ++ be_bytes 4 (Z.max 0 (to - from)) ++ concat (nak_entry <$> hit)).

Definition order_event (mtype seq : Z) (payload : list Z) : ServerEvent :=
  if mtype =? ORDER then SvOrder seq payload
  else if mtype =? CANCEL then SvCancel seq payload
  else SvReplace seq payload.

Definition pair_payload (a b : Z) : list Z := be_bytes 4 a ++ be_bytes 4 b.

(** The order branch: what it does to the state, reports, sends ahead of the
    acknowledgement, and the acknowledgement's code. *)
Definition on_order (s : ServerSession) (h : Header) (payload : list Z) :
    ServerSession * list ServerEvent * list (list Z) :=
  let ev := order_event (h_mtype h) (h_seq h) payload in
  let '(s, events, out, ack) :=
    if h_seq h =? expected_client_seq s then
      (mkServer (next_report_seq s) (u32_wrap (expected_client_seq s + 1)) (store s) (store_start s)
         (store_cap s) (last_nak_start s), [ev], [], ACK_OK)
    else if h_seq h <? expected_client_seq s then (s, [], [], ACK_OK)
    else if bool_decide (last_nak_start s = Some (expected_client_seq s)) then (s, [], [], ACK_RETRY)
    else
      let count := h_seq h - expected_client_seq s in
      (mkServer (next_report_seq s) (expected_client_seq s) (store s) (store_start s) (store_cap s)
         (Some (expected_client_seq s)), [],
       [encode SESSION_MAGIC 0 NAK_REQUEST (pair_payload (expected_client_seq s) count)], ACK_RETRY) in
  (s, events, out ++ [encode SESSION_MAGIC (h_seq h) ORDER_ACK (ack_payload (h_seq h) ack)]).

Definition hello_ack (s : ServerSession) (last : Z) : list Z :=
  let flags := if u32_wrap (last + 1) <? store_start s then HELLO_ACK_GAP_TOO_OLD else 0 in
  encode SESSION_MAGIC 0 HELLO_ACK
    (be_bytes 4 (report_high_water s) ++ be_bytes 4 (store_start s) ++ [flags] ++ replicate 4 0).

Definition server_on_datagram (s : ServerSession) (dg : list Z) :
    ServerSession * list ServerEvent * list (list Z) :=
  match decode dg with
  | None => (s, [], [])
  | Some (h, payload) =>
      let t := h_mtype h in
      if (t =? ORDER) || (t =? CANCEL) || (t =? REPLACE) then on_order s h payload
      else if t =? NAK_REQUEST then
        if (8 <=? length payload)%nat then
          let start := u32_be payload in
          let count := u32_be (drop 4 payload) in
          (s, [SvNakRequest start count], [nak_response s start count])
        else (s, [], [])
      else if t =? HELLO then
        if (8 <=? length payload)%nat then
          let client_id := u32_be payload in
          let last := u32_be (drop 4 payload) in
          (s, [SvHello client_id last], [hello_ack s last])
        else (s, [], [])
      else if t =? HEARTBEAT then (s, [SvHeartbeat], [encode SESSION_MAGIC 0 HEARTBEAT []])
      else (s, [], [])
  end.

Definition ack_and_report (s : ServerSession) (client_seq : Z) (report_payload : list Z) :
    ServerSession * list (list Z) :=
  let seq := next_report_seq s in
  let store' := store s ++ [(seq, report_payload)] in
  let '(st, start) :=
    if (store_cap s <? length store')%nat then
      match store' with
      | (popped, _) :: rest => (rest, u32_wrap (popped + 1))
      | [] => (store', store_start s)
      end
    else (store', store_start s) in
  (mkServer (u32_wrap (seq + 1)) (expected_client_seq s) st start (store_cap s) (last_nak_start s),
   [encode SESSION_MAGIC client_seq ORDER_ACK (ack_payload client_seq ACK_OK);
    encode SESSION_MAGIC seq REPORT report_payload]).

Definition reject_order (s : ServerSession) (client_seq : Z) : list (list Z) :=
  [encode SESSION_MAGIC client_seq ORDER_ACK (ack_payload client_seq ACK_REJECT)].

(** ** Client ([ClientSession]) *)

Inductive ClientEvent :=
| ClReport (report_seq : Z) (payload : list Z)
| ClOrderAck (client_seq result : Z)
| ClHelloAck (server_last store_start flags : Z)
| ClHeartbeat.

Record ClientSession := mkClient {
  next_order_seq : Z;
  expected_report_seq : Z;
  pending : list (Z * list Z);
  pending_ts : list (Z * Z) }.

Definition udp_client_new : ClientSession := mkClient 1 1 [] [].

Definition send_order (c : ClientSession) (now : Z) (payload : list Z) : ClientSession * list Z :=
  let seq := next_order_seq c in
  (mkClient (u32_wrap (seq + 1)) (expected_report_seq c) (bt_insert Z.compare (pending c) seq payload)
     (bt_insert Z.compare (pending_ts c) seq now),
   encode SESSION_MAGIC seq ORDER payload).

Fixpoint retransmit_loop (c : ClientSession) (now : Z) (due : list Z) : ClientSession * list (list Z) :=
  match due with
  | [] => (c, [])
  | seq :: due =>
      match bt_get Z.compare (pending c) seq with
      | Some p =>
          let c' := mkClient (next_order_seq c) (expected_report_seq c) (pending c)
                      (bt_insert Z.compare (pending_ts c) seq now) in
          let '(c', out) := retransmit_loop c' now due in
          (c', encode SESSION_MAGIC seq ORDER p :: out)
      | None => retransmit_loop c now due
      end
  end.

(** [duration_since] is zero for a later instant. *)
Definition retransmit_due (c : ClientSession) (now timeout : Z) : ClientSession * list (list Z) :=
  let due := (filter (λ e : Z * Z, timeout <= Z.max 0 (now - e.2)) (pending_ts c)).*1 in
  retransmit_loop c now due.

Definition nak_request (start count : Z) : list Z :=
  encode SESSION_MAGIC 0 NAK_REQUEST (pair_payload start count).

Definition send_hello (client_id last_report_seq : Z) : list Z :=
  encode SESSION_MAGIC 0 HELLO (pair_payload client_id last_report_seq).

Definition set_expected (c : ClientSession) (e : Z) : ClientSession :=
  mkClient (next_order_seq c) e (pending c) (pending_ts c).

(** The loop over the entries of a NAK_RESPONSE; [rest] is [payload[off..]]. *)
Fixpoint nak_loop (n : nat) (c : ClientSession) (rest : list Z) : ClientSession * list ClientEvent :=
  match n with
  | O => (c, [])
  | S n =>
      if (length rest <? 6)%nat then (c, [])
      else
        let seq := u32_be rest in
        let len := Z.to_nat (be_val (slice 4 6 rest)) in
        let rest := drop 6 rest in
        if (length rest <? len)%nat then (c, [])
        else
          let body := take len rest in
          let rest := drop len rest in
          let e := expected_report_seq c in
          let '(c, ev) :=
            if seq =? e then (set_expected c (u32_wrap (e + 1)), [ClReport seq body])
            else if e <? seq then (set_expected c (u32_wrap (seq + 1)), [ClReport seq body])
            else (c, []) in
          let '(c, evs) := nak_loop n c rest in
          (c, ev ++ evs)
  end.

(** [for _ in 0..count]: an iteration consumes at least six bytes, so no more
    than one per byte of the payload does anything. *)
Definition nak_rounds (count : Z) (rest : list Z) : nat :=
  Z.to_nat (Z.min count (Z.of_nat (length rest))).

Definition client_on_datagram (c : ClientSession) (dg : list Z) :
    ClientSession * list ClientEvent * list (list Z) :=
  match decode dg with
  | None => (c, [], [])
  | Some (h, payload) =>
      let t := h_mtype h in
      if t =? REPORT then
        let e := expected_report_seq c in
        if h_seq h =? e then (set_expected c (u32_wrap (e + 1)), [ClReport (h_seq h) payload], [])
        else if e <? h_seq h then
          (c, [], [encode SESSION_MAGIC 0 NAK_REQUEST (pair_payload e (h_seq h - e))])
        else (c, [], [])
      else if t =? NAK_RESPONSE then
        if (length payload <? 8)%nat then (c, [], [])
        else
          let count := u32_be (drop 4 payload) in
          let rest := drop 8 payload in
          let '(c, evs) := nak_loop (nak_rounds count rest) c rest in
          (c, evs, [])
      else if t =? ORDER_ACK then
        match payload !! 4%nat with
        | Some result =>
            let client_seq := u32_be payload in
            (mkClient (next_order_seq c) (expected_report_seq c)
               (bt_remove Z.compare (pending c) client_seq).2
               (bt_remove Z.compare (pending_ts c) client_seq).2,
             [ClOrderAck client_seq result], [])
        | None => (c, [], [])
        end
      else if t =? HELLO_ACK then
        match payload !! 8%nat with
        | Some flags => (c, [ClHelloAck (u32_be payload) (u32_be (drop 4 payload)) flags], [])
        | None => (c, [], [])
        end
      else if t =? HEARTBEAT then (c, [ClHeartbeat], [])
      else (c, [], [])
  end.
