(* ===== verification/UdpOrderProps.v ===== *)
(** * match-udp-order: what the two sessions guarantee together

    A client and a server joined by a network that loses, repeats and reorders
    datagrams: every datagram ever sent stays in a list and any of them may be
    delivered at any time, any number of times.  Orders reach the server exactly
    once and in order, reports reach the client in order and with the right
    content, a gap in the reports is closed by the exchange the client starts;
    an order that was answered with a retry code is never sent again. *)
From stdpp Require Import sorting.
From S2P Require Import Prelude HpIndex UdpOrder.
From Stdlib Require Import Sorted.

#[local] Open Scope Z_scope.
#[local] Arguments encode : simpl never.
#[local] Arguments be_bytes : simpl never.

(** ** Frames *)

Lemma be_val_4 v : be_val (be_bytes 4 v) = u32_wrap v.
Proof. by rewrite be_val_bytes. Qed.

Lemma be_val_2 v : in_u16 v → be_val (be_bytes 2 v) = v.
Proof. intros. rewrite be_val_bytes. by apply Z.mod_small. Qed.

Lemma u32_be_app v rest : u32_be (be_bytes 4 v ++ rest) = u32_wrap v.
Proof. unfold u32_be. by rewrite slice_app_here, be_val_4 by (by rewrite length_be_bytes). Qed.

Lemma drop_be_app n v (rest : list Z) : drop n (be_bytes n v ++ rest) = rest.
Proof. apply drop_app_length'. by rewrite length_be_bytes. Qed.

Lemma frame_decode_encode seq t p :
  decode (encode SESSION_MAGIC seq t p) = Some (mkHeader SESSION_MAGIC (u32_wrap seq) t, p).
Proof.
  unfold decode, encode.
  rewrite (proj2 (Nat.ltb_ge _ _)) by (rewrite !length_app, !length_be_bytes; cbn; unfold FRAME_HEADER_LEN; lia).
  rewrite slice_app_here by (by rewrite length_be_bytes).
  rewrite be_val_4, (u32_wrap_id SESSION_MAGIC) by done. cbn [negb Z.eqb]. rewrite Z.eqb_refl. cbn [negb].
  rewrite slice_app_skip, length_be_bytes, slice_app_here, be_val_4 by (by rewrite length_be_bytes).
  rewrite !app_assoc, lookup_app_l by (rewrite !length_app, !length_be_bytes; cbn; lia).
  rewrite lookup_app_r, length_app, !length_be_bytes by (rewrite length_app, !length_be_bytes; cbn; lia).
  cbn [Nat.add Nat.sub lookup list_lookup mbind option_bind]. done.
Qed.

Lemma length_pair_payload a b : length (pair_payload a b) = 8%nat.
Proof. unfold pair_payload. by rewrite length_app, !length_be_bytes. Qed.

Lemma pair_payload_fst a b : u32_be (pair_payload a b) = u32_wrap a.
Proof. apply u32_be_app. Qed.

Lemma pair_payload_snd a b : u32_be (drop 4 (pair_payload a b)) = u32_wrap b.
Proof. unfold pair_payload. by rewrite drop_be_app, <- (app_nil_r (be_bytes 4 b)), u32_be_app. Qed.

(** ** The entries of a NAK_RESPONSE *)

Definition small (p : list Z) : Prop := Z.of_nat (length p) < 2 ^ 16.

Definition reports_of (evs : list ClientEvent) : list (Z * list Z) :=
  omap (λ ev, match ev with ClReport k p => Some (k, p) | _ => None end) evs.

Lemma nak_loop_step n c k p rest :
  in_u32 k → small p →
  nak_loop (S n) c (nak_entry (k, p) ++ rest)
  = let e := expected_report_seq c in
    let '(c1, ev) :=
      if k <? e then (c, []) else (set_expected c (u32_wrap (k + 1)), [ClReport k p]) in
    let '(c2, evs) := nak_loop n c1 rest in (c2, ev ++ evs).
Proof.
  intros Hk Hp. cbn [nak_loop]. unfold nak_entry at 1. cbn [fst snd].
  rewrite u16_wrap_id by (unfold in_u16, small in *; lia).
  rewrite (proj2 (Nat.ltb_ge _ _)) by (rewrite !length_app, !length_be_bytes; lia).
  assert (drop 6 (nak_entry (k, p) ++ rest) = p ++ rest) as Hd.
  { unfold nak_entry. cbn [fst snd]. rewrite <- !app_assoc, (app_assoc (be_bytes 4 k)).
    apply drop_app_length'. by rewrite length_app, !length_be_bytes. }
  rewrite Hd.
  assert (be_val (slice 4 6 (nak_entry (k, p) ++ rest)) = Z.of_nat (length p)) as Hl.
  { unfold nak_entry. cbn [fst snd]. rewrite <- !app_assoc, slice_app_skip, length_be_bytes by (by rewrite length_be_bytes).
    unfold small in Hp. rewrite u16_wrap_id, slice_app_here, be_val_2
      by (unfold in_u16; rewrite ?length_be_bytes; lia). done. }
  rewrite Hl, Nat2Z.id.
  rewrite (proj2 (Nat.ltb_ge _ _)) by (rewrite length_app; lia).
  rewrite take_app_length, drop_app_length.
  assert (u32_be (nak_entry (k, p) ++ rest) = k) as ->.
  { unfold nak_entry. rewrite <- !app_assoc, u32_be_app. by apply u32_wrap_id. }
  cbv zeta. destruct (Z.ltb_spec k (expected_report_seq c)).
  - rewrite (proj2 (Z.eqb_neq _ _)), (proj2 (Z.ltb_ge _ _)) by lia. done.
  - destruct (Z.eqb_spec k (expected_report_seq c)) as [->|]; [done|].
    by rewrite (proj2 (Z.ltb_lt _ _)) by lia.
Qed.

(** Reading consecutive entries: those below the expected number are dropped,
    the others are reported and move it. *)
Lemma nak_loop_number n c from ps :
  0 <= expected_report_seq c → 0 <= from → from + Z.of_nat (length ps) < 2 ^ 32 → Forall small ps →
  (length ps ≤ n)%nat →
  let e := expected_report_seq c in
  let news := drop (Z.to_nat (e - from)) (number from ps) in
  nak_loop n c (concat (nak_entry <$> number from ps))
  = (if decide (news = []) then c else set_expected c (from + Z.of_nat (length ps)),
     uncurry ClReport <$> news).
Proof.
  revert n c from; induction ps as [|p ps IH]; intros n c from He Hf Hb Hs Hn e news.
  { subst news. cbn [number fmap list_fmap concat]. rewrite drop_nil. destruct n; done. }
  destruct n as [|n]; [cbn in Hn; lia|]. apply Forall_cons in Hs as [Hp Hs]. cbn [length] in *.
  cbn [number fmap list_fmap concat]. rewrite nak_loop_step by (done || unfold in_u32; lia).
  cbv zeta. fold e. destruct (Z.ltb_spec from e) as [Hlt|Hge].
  - rewrite (IH n c (from + 1)) by (done || lia). fold e.
    assert (drop (Z.to_nat (e - (from + 1))) (number (from + 1) ps) = news) as ->.
    { subst news. cbn [number]. by replace (Z.to_nat (e - from)) with (S (Z.to_nat (e - (from + 1)))) by lia. }
    cbn [app]. do 2 f_equal. destruct (decide (news = [])); [done|]. f_equal; lia.
  - rewrite u32_wrap_id by (unfold in_u32; lia).
    rewrite (IH n _ (from + 1)) by (done || cbn; lia). cbn [expected_report_seq set_expected].
    subst news. replace (Z.to_nat (e - from)) with 0%nat by lia.
    replace (Z.to_nat (from + 1 - (from + 1))) with 0%nat by lia. rewrite !drop_0.
    cbn [number fmap list_fmap uncurry app]. f_equal.
    destruct (decide (number (from + 1) ps = [])) as [E|E].
    + assert (ps = []) as -> by (by destruct ps). cbn. f_equal; lia.
    + cbn. f_equal; lia.
Qed.

(** ** A client, a server and the network between them *)

Record world := mkWorld {
  w_client : ClientSession; w_server : ServerSession;
  w_c2s : list (list Z); w_s2c : list (list Z);
  w_orders : list (list Z); w_reports : list (list Z);
  w_sevents : list ServerEvent; w_cevents : list ClientEvent }.

Definition world_init (cap : nat) : world := mkWorld udp_client_new (udp_server_new cap) [] [] [] [] [] [].

(** What the two applications may do, and the delivery of the [i]-th datagram
    ever sent in a direction. *)
Inductive action :=
| ASend (now : Z) (payload : list Z)
| ARetransmit (now timeout : Z)
| ANak (start count : Z)
| AHello (client_id last : Z)
| AReport (client_seq : Z) (payload : list Z)
| AReject (client_seq : Z)
| AToServer (i : nat)
| AToClient (i : nat).

Definition client_sends (w : world) (c : ClientSession) (out : list (list Z)) : world :=
  mkWorld c (w_server w) (w_c2s w ++ out) (w_s2c w) (w_orders w) (w_reports w) (w_sevents w) (w_cevents w).

Definition server_sends (w : world) (s : ServerSession) (out : list (list Z)) : world :=
  mkWorld (w_client w) s (w_c2s w) (w_s2c w ++ out) (w_orders w) (w_reports w) (w_sevents w) (w_cevents w).

(** A client asks again only for reports from a number it has not passed. *)
Definition wstep (w : world) (a : action) : world :=
  match a with
  | ASend now p =>
      let '(c, d) := send_order (w_client w) now p in
      mkWorld c (w_server w) (w_c2s w ++ [d]) (w_s2c w) (w_orders w ++ [p]) (w_reports w)
        (w_sevents w) (w_cevents w)
  | ARetransmit now timeout =>
      let '(c, out) := retransmit_due (w_client w) now timeout in client_sends w c out
  | ANak start count =>
      if decide (0 <= start <= expected_report_seq (w_client w) ∧ in_u32 count)
      then client_sends w (w_client w) [nak_request start count] else w
  | AHello client_id last => client_sends w (w_client w) [send_hello client_id last]
  | AReport client_seq p =>
      let '(s, out) := ack_and_report (w_server w) client_seq p in
      mkWorld (w_client w) s (w_c2s w) (w_s2c w ++ out) (w_orders w) (w_reports w ++ [p])
        (w_sevents w) (w_cevents w)
  | AReject client_seq => server_sends w (w_server w) (reject_order (w_server w) client_seq)
  | AToServer i =>
      match w_c2s w !! i with
      | None => w
      | Some d =>
          let '(s, evs, out) := server_on_datagram (w_server w) d in
          mkWorld (w_client w) s (w_c2s w) (w_s2c w ++ out) (w_orders w) (w_reports w)
            (w_sevents w ++ evs) (w_cevents w)
      end
  | AToClient i =>
      match w_s2c w !! i with
      | None => w
      | Some d =>
          let '(c, evs, out) := client_on_datagram (w_client w) d in
          mkWorld c (w_server w) (w_c2s w ++ out) (w_s2c w) (w_orders w) (w_reports w)
            (w_sevents w) (w_cevents w ++ evs)
      end
  end.

Definition wrun (w : world) (acts : list action) : world := foldl wstep w acts.

(** Fewer orders and reports than there are 32-bit numbers; reports that fit the
    16-bit length of a NAK_RESPONSE entry. *)
Definition bounded (w : world) : Prop :=
  Z.of_nat (length (w_orders w)) < 2 ^ 32 - 1 ∧ Z.of_nat (length (w_reports w)) < 2 ^ 32 - 2
  ∧ Forall small (w_reports w).

(** The events that hand an order, a cancel or a replace to the application. *)
Definition is_order_event (ev : ServerEvent) : bool :=
  match ev with SvOrder _ _ | SvCancel _ _ | SvReplace _ _ => true | _ => false end.

Definition orders_of (evs : list ServerEvent) : list ServerEvent := filter (λ ev, is_order_event ev = true) evs.

#[local] Arguments orders_of : simpl never.
#[local] Arguments reports_of : simpl never.

(** ** The invariant *)

(** The [k]-th element of [l], counted from 1. *)
Definition nth_is {A} (l : list A) (k : Z) (x : A) : Prop := 1 <= k ∧ l !! Z.to_nat (k - 1) = Some x.

(** What the client has sent. *)
Inductive c2s_ok (orders : list (list Z)) (e : Z) : list Z → Prop :=
| C_order k p : nth_is orders k p → c2s_ok orders e (encode SESSION_MAGIC k ORDER p)
| C_nak start count : 0 <= start <= e → in_u32 count → c2s_ok orders e (nak_request start count)
| C_hello client_id last : c2s_ok orders e (send_hello client_id last).

(** What the server has sent: a retransmission is a run of consecutive reports
    that starts where the client still waits, or where the window started. *)
Inductive s2c_ok (reports : list (list Z)) (e start : Z) : list Z → Prop :=
| S_report k p : nth_is reports k p → s2c_ok reports e start (encode SESSION_MAGIC k REPORT p)
| S_nak_response from ps :
    1 <= from → ps `prefix_of` drop (Z.to_nat (from - 1)) reports → from <= e ∨ from <= start →
    s2c_ok reports e start (encode SESSION_MAGIC 0 NAK_RESPONSE
      (be_bytes 4 from ++ be_bytes 4 (Z.of_nat (length ps)) ++ concat (nak_entry <$> number from ps)))
| S_other seq t p : t ≠ REPORT → t ≠ NAK_RESPONSE → s2c_ok reports e start (encode SESSION_MAGIC seq t p).

Record orders_inv (w : world) : Prop := {
  oi_next : next_order_seq (w_client w) = Z.of_nat (length (w_orders w)) + 1;
  oi_pending : ∀ k p, (k, p) ∈ pending (w_client w) → nth_is (w_orders w) k p;
  oi_expected : 1 <= expected_client_seq (w_server w) <= Z.of_nat (length (w_orders w)) + 1;
  oi_events : orders_of (w_sevents w)
    = uncurry SvOrder <$> number 1 (take (Z.to_nat (expected_client_seq (w_server w) - 1)) (w_orders w)) }.

(** The window of reports the server keeps. *)
Record store_inv (s : ServerSession) (reports : list (list Z)) : Prop := {
  si_next : next_report_seq s = Z.of_nat (length reports) + 1;
  si_start : 1 <= store_start s <= next_report_seq s;
  si_store : store s = number (store_start s) (drop (Z.to_nat (store_start s - 1)) reports);
  si_cap : (1 ≤ store_cap s)%nat }.

(** What the client has been told. *)
Record reports_inv (got : list (Z * list Z)) (reports : list (list Z)) (e start : Z) : Prop := {
  ri_expected : 1 <= e <= Z.of_nat (length reports) + 1;
  ri_sorted : StronglySorted Z.lt got.*1;
  ri_content : ∀ k p, (k, p) ∈ got → nth_is reports k p ∧ k < e;
  ri_skipped : ∀ k, 1 <= k < e → k ∉ got.*1 → k < start }.

Record winv (w : world) : Prop := {
  wi_orders : orders_inv w;
  wi_store : store_inv (w_server w) (w_reports w);
  wi_reports : reports_inv (reports_of (w_cevents w)) (w_reports w) (expected_report_seq (w_client w))
                 (store_start (w_server w));
  wi_c2s : Forall (c2s_ok (w_orders w) (expected_report_seq (w_client w))) (w_c2s w);
  wi_s2c : Forall (s2c_ok (w_reports w) (expected_report_seq (w_client w)) (store_start (w_server w))) (w_s2c w) }.

(** ** Monotonicity *)

Lemma nth_is_app {A} (l l' : list A) k x : nth_is l k x → nth_is (l ++ l') k x.
Proof. intros [Hk Hl]. split; [done|]. by apply lookup_app_l_Some. Qed.

Lemma nth_is_range {A} (l : list A) k x : nth_is l k x → 1 <= k <= Z.of_nat (length l).
Proof. intros [Hk Hl%lookup_lt_Some]. lia. Qed.

Lemma nth_is_last {A} (l : list A) k x : k = Z.of_nat (length l) + 1 → nth_is (l ++ [x]) k x.
Proof. intros ->. split; [lia|]. apply list_lookup_middle. lia. Qed.

Lemma c2s_ok_mono orders more e e' d : e <= e' → c2s_ok orders e d → c2s_ok (orders ++ more) e' d.
Proof. intros He [k p Hk|start count Hs Hc|i l]; constructor; [by apply nth_is_app|lia|done]. Qed.

Lemma s2c_ok_mono reports more e e' start start' d :
  e <= e' → start <= start' → s2c_ok reports e start d → s2c_ok (reports ++ more) e' start' d.
Proof.
  intros He Hs [k p Hk|from ps Hf Hp Hw|seq t p H1 H2]; constructor; try done; [by apply nth_is_app| |lia].
  etrans; [exact Hp|]. rewrite drop_app. by apply prefix_app_r.
Qed.

Lemma c2s_all_mono orders more e e' l :
  e <= e' → Forall (c2s_ok orders e) l → Forall (c2s_ok (orders ++ more) e') l.
Proof. intros He H. eapply Forall_impl; [exact H|]. intros d. by apply c2s_ok_mono. Qed.

Lemma s2c_all_mono reports more e e' start start' l :
  e <= e' → start <= start' → Forall (s2c_ok reports e start) l → Forall (s2c_ok (reports ++ more) e' start') l.
Proof. intros He Hs H. eapply Forall_impl; [exact H|]. intros d. by apply s2c_ok_mono. Qed.

Lemma reports_inv_mono got reports more e start start' :
  start <= start' → reports_inv got reports e start → reports_inv got (reports ++ more) e start'.
Proof.
  intros Hs [H1 H2 H3 H4]. split; [rewrite length_app; lia|done| |].
  - intros k p [Hk ?]%H3. split; [by apply nth_is_app|done].
  - intros k Hk Hn. specialize (H4 _ Hk Hn). lia.
Qed.

(** ** Client operations *)

Lemma bt_insert_elem {V} (l : list (Z * V)) k v k' v' :
  (k', v') ∈ bt_insert Z.compare l k v → (k', v') = (k, v) ∨ (k', v') ∈ l.
Proof.
  induction l as [|[j w] l IH]; cbn [bt_insert].
  - rewrite list_elem_of_singleton. by left.
  - destruct (Z.compare_spec k j) as [->|Hlt|Hgt]; rewrite !elem_of_cons; tauto.
Qed.

Lemma bt_remove_elem {V} (l : list (Z * V)) k k' v' :
  (k', v') ∈ (bt_remove Z.compare l k).2 → (k', v') ∈ l.
Proof.
  induction l as [|[j w] l IH]; cbn [bt_remove]; [done|].
  destruct (Z.compare k j) eqn:E; cbn [snd].
  - rewrite !elem_of_cons. tauto.
  - done.
  - destruct (bt_remove Z.compare l k) as [r l'] eqn:E'. cbn [snd] in *. rewrite !elem_of_cons. tauto.
Qed.

Lemma bt_get_elem {V} (l : list (Z * V)) k v : bt_get Z.compare l k = Some v → (k, v) ∈ l.
Proof.
  induction l as [|[j w] l IH]; cbn [bt_get]; [done|].
  destruct (Z.compare_spec k j) as [->|Hlt|Hgt]; intros H; simplify_eq; rewrite elem_of_cons; auto.
Qed.

(** Resending: the same payloads under the same numbers, and only the times of
    the last transmission change. *)
Lemma retransmit_loop_spec c now due c' out :
  retransmit_loop c now due = (c', out) →
  next_order_seq c' = next_order_seq c ∧ expected_report_seq c' = expected_report_seq c
  ∧ pending c' = pending c
  ∧ Forall (λ d, ∃ k p, (k, p) ∈ pending c ∧ d = encode SESSION_MAGIC k ORDER p) out.
Proof.
  revert c c' out; induction due as [|seq due IH]; intros c c' out; cbn [retransmit_loop].
  { intros [= <- <-]. by repeat split. }
  destruct (bt_get Z.compare (pending c) seq) as [p|] eqn:E; [|apply IH].
  destruct (retransmit_loop _ now due) as [c1 o1] eqn:E1. intros [= <- <-].
  apply IH in E1 as (H1 & H2 & H3 & H4). cbn in *. split_and!; try done.
  constructor; [|done]. exists seq, p. split; [by apply bt_get_elem|done].
Qed.

(** ** Server operations *)

Lemma order_type_test : (ORDER =? ORDER) || (ORDER =? CANCEL) || (ORDER =? REPLACE) = true.
Proof. done. Qed.

(** An order frame at the server: taken if it is the next, and only then. *)
Lemma server_on_order s k p s' evs out :
  in_u32 k → server_on_datagram s (encode SESSION_MAGIC k ORDER p) = (s', evs, out) →
  next_report_seq s' = next_report_seq s ∧ store s' = store s ∧ store_start s' = store_start s
  ∧ store_cap s' = store_cap s
  ∧ Forall (λ d, ∃ seq t q, d = encode SESSION_MAGIC seq t q ∧ t ≠ REPORT ∧ t ≠ NAK_RESPONSE) out
  ∧ (k = expected_client_seq s ∧ expected_client_seq s' = u32_wrap (k + 1) ∧ evs = [SvOrder k p]
     ∨ k ≠ expected_client_seq s ∧ expected_client_seq s' = expected_client_seq s ∧ evs = []).
Proof.
  intros Hk. unfold server_on_datagram. rewrite frame_decode_encode, u32_wrap_id by done. cbn [h_mtype].
  rewrite order_type_test. unfold on_order. cbn [h_seq h_mtype]. unfold order_event. rewrite Z.eqb_refl.
  assert (∀ a q, ∃ seq t q', encode SESSION_MAGIC a ORDER_ACK q = encode SESSION_MAGIC seq t q'
                 ∧ t ≠ REPORT ∧ t ≠ NAK_RESPONSE) as Hack by (intros a q; by exists a, ORDER_ACK, q).
  assert (∀ a q, ∃ seq t q', encode SESSION_MAGIC a NAK_REQUEST q = encode SESSION_MAGIC seq t q'
                 ∧ t ≠ REPORT ∧ t ≠ NAK_RESPONSE) as Hnak by (intros a q; by exists a, NAK_REQUEST, q).
  destruct (Z.eqb_spec k (expected_client_seq s)) as [->|Hne].
  { intros [= <- <- <-]. cbn. split_and!; rewrite ?Forall_cons; auto 10. }
  destruct (Z.ltb_spec k (expected_client_seq s)); [|case_bool_decide];
    intros [= <- <- <-]; cbn; split_and!; rewrite ?Forall_cons; auto 10.
Qed.

(** A request at the server. *)
Lemma server_on_nak s start count :
  in_u32 start → in_u32 count →
  server_on_datagram s (nak_request start count) = (s, [SvNakRequest start count], [nak_response s start count]).
Proof.
  intros H1 H2. unfold server_on_datagram, nak_request. rewrite frame_decode_encode. cbn [h_mtype].
  change (_ || _) with false. cbn [Z.eqb]. rewrite length_pair_payload, pair_payload_fst, pair_payload_snd.
  by rewrite !u32_wrap_id.
Qed.

Lemma server_on_hello s i l :
  server_on_datagram s (send_hello i l) = (s, [SvHello (u32_wrap i) (u32_wrap l)], [hello_ack s (u32_wrap l)]).
Proof.
  unfold server_on_datagram, send_hello. rewrite frame_decode_encode. cbn [h_mtype].
  change (_ || _) with false. by rewrite length_pair_payload, pair_payload_fst, pair_payload_snd.
Qed.

(** A retransmission is a run of consecutive reports, from the number asked for
    or from the start of the window. *)
Lemma nak_response_spec s reports start count :
  store_inv s reports → Z.of_nat (length reports) < 2 ^ 32 - 2 → 0 <= count →
  let from := Z.max start (store_start s) in
  let n := Z.to_nat (Z.min count (next_report_seq s - from)) in
  let ps := take n (drop (Z.to_nat (from - 1)) reports) in
  nak_response s start count
  = encode SESSION_MAGIC 0 NAK_RESPONSE
      (be_bytes 4 from ++ be_bytes 4 (Z.of_nat (length ps)) ++ concat (nak_entry <$> number from ps)).
Proof.
  intros [Hn Hst Hs _] Hb Hc from n ps. unfold nak_response. cbv zeta. fold from.
  set (to := Z.min (Z.min (from + count) (2 ^ 32 - 1)) (report_high_water s + 1)).
  assert (to = Z.min (from + count) (next_report_seq s)) as Hto.
  { subst to. unfold report_high_water. lia. }
  assert (n = Z.to_nat (to - from)) as Hn' by (subst n; rewrite Hto; lia).
  assert (filter (λ e : Z * list Z, from <= e.1 ∧ e.1 < to) (store s) = number from ps) as ->.
  { rewrite Hs, filter_number by lia. subst ps. rewrite drop_drop, Hn'. do 3 f_equal; lia. }
  do 3 f_equal. f_equal. subst ps. rewrite length_take, length_drop, Hn'. lia.
Qed.

Lemma ack_and_report_spec s reports k p s' out :
  store_inv s reports → Z.of_nat (length reports) < 2 ^ 32 - 2 → ack_and_report s k p = (s', out) →
  store_inv s' (reports ++ [p]) ∧ store_start s <= store_start s'
  ∧ expected_client_seq s' = expected_client_seq s
  ∧ out = [encode SESSION_MAGIC k ORDER_ACK (ack_payload k ACK_OK);
           encode SESSION_MAGIC (next_report_seq s) REPORT p].
Proof.
  intros [Hn Hst Hs Hc] Hb. unfold ack_and_report.
  assert (store s ++ [(next_report_seq s, p)]
          = number (store_start s) (drop (Z.to_nat (store_start s - 1)) (reports ++ [p]))) as Hnew.
  { rewrite drop_app_le by lia. rewrite number_app, <- Hs. cbn [number]. do 3 f_equal.
    rewrite length_drop. lia. }
  rewrite Hnew. set (start := store_start s) in *.
  assert (length (drop (Z.to_nat (start - 1)) (reports ++ [p])) = S (length reports - Z.to_nat (start - 1))) as Hl.
  { rewrite length_drop, length_app. cbn. lia. }
  assert (u32_wrap (next_report_seq s + 1) = Z.of_nat (length (reports ++ [p])) + 1) as Hnext.
  { rewrite u32_wrap_id, length_app by (unfold in_u32; lia). cbn. lia. }
  rewrite length_number. destruct (Nat.ltb_spec (store_cap s) (length (drop (Z.to_nat (start - 1)) (reports ++ [p])))).
  - destruct (drop (Z.to_nat (start - 1)) (reports ++ [p])) as [|r rs] eqn:E; [cbn in *; lia|].
    cbn [number]. intros [= <- <-]. rewrite (u32_wrap_id (start + 1)) by (unfold in_u32; lia). cbn.
    split_and!; [|lia|done|done]. split; cbn; [done|rewrite Hnext, length_app; cbn; lia| |done].
    f_equal. replace (Z.to_nat (start + 1 - 1)) with (Z.to_nat (start - 1) + 1)%nat by lia.
    by rewrite <- drop_drop, E.
  - intros [= <- <-]. cbn. split_and!; [|lia|done|done].
    split; cbn; [done|rewrite Hnext, length_app; cbn; lia|done|done].
Qed.

(** ** Reports at the client *)

Lemma StronglySorted_seqZ_lt a n : StronglySorted Z.lt (seqZ a n).
Proof.
  destruct (decide (n <= 0)); [rewrite seqZ_nil by done; constructor|]. revert a. pattern n. apply natlike_ind; [| |lia].
  - intros a. constructor.
  - intros m Hm IH a. rewrite seqZ_cons, Z.pred_succ by lia. constructor; [done|].
    apply Forall_forall. intros b [? _]%elem_of_seqZ. lia.
Qed.

(** A run of consecutive reports is appended to what the client has. *)
Lemma reports_inv_run got reports e start from ps :
  reports_inv got reports e start → 1 <= from → ps `prefix_of` drop (Z.to_nat (from - 1)) reports →
  from <= e ∨ from <= start →
  let news := drop (Z.to_nat (e - from)) (number from ps) in
  reports_inv (got ++ news) reports (if decide (news = []) then e else from + Z.of_nat (length ps)) start.
Proof.
  intros [H1 H2 H3 H4] Hf Hp Hw news.
  destruct (decide (news = [])) as [->|Hne]; [rewrite app_nil_r; by split|].
  assert (Hlt : (Z.to_nat (e - from) < length ps)%nat).
  { apply Nat.nle_gt. intros Hle. apply Hne. subst news. apply drop_ge. by rewrite length_number. }
  assert (Hlen : from + Z.of_nat (length ps) <= Z.of_nat (length reports) + 1).
  { apply prefix_length in Hp. rewrite length_drop in Hp. lia. }
  assert (Hnews : ∀ k p, (k, p) ∈ news ↔ Z.max e from <= k ∧ ps !! Z.to_nat (k - from) = Some p).
  { intros k p. subst news. rewrite drop_number, elem_of_number, lookup_drop.
    split; intros [Ha Hb]; (split; [lia|]); rewrite <- Hb; f_equal; lia. }
  assert (Hkeys : news.*1 = seqZ (Z.max e from) (from + Z.of_nat (length ps) - Z.max e from)).
  { subst news. rewrite drop_number. apply list_eq. intros i. rewrite list_lookup_fmap, lookup_number, lookup_drop.
    destruct (ps !! (Z.to_nat (e - from) + i)%nat) eqn:E.
    - pose proof (lookup_lt_Some _ _ _ E). cbn. symmetry. apply lookup_seqZ. lia.
    - apply lookup_ge_None in E. cbn. symmetry. apply lookup_seqZ_ge. lia. }
  split; [lia| | |].
  - rewrite fmap_app. apply StronglySorted_app_2; [|done|].
    + intros a b Ha Hb. apply list_elem_of_fmap in Ha as [[k p] [-> [_ Hk]%H3]].
      rewrite Hkeys, elem_of_seqZ in Hb. cbn. lia.
    + rewrite Hkeys. apply StronglySorted_seqZ_lt.
  - intros k p [[Hk ?]%H3|[Hk Hl]%Hnews]%elem_of_app; [split; [done|lia]|].
    pose proof (lookup_lt_Some _ _ _ Hl). split; [|lia]. split; [lia|].
    pose proof (prefix_lookup_Some _ _ _ _ Hl Hp) as Hd. rewrite lookup_drop in Hd.
    rewrite <- Hd. f_equal. lia.
  - intros k Hk. rewrite fmap_app, not_elem_of_app, Hkeys, elem_of_seqZ. intros [Hk1 Hk2].
    destruct (decide (k < e)); [apply H4; [lia|done]|]. lia.
Qed.

Lemma length_entries l : (length l ≤ length (concat (nak_entry <$> l)))%nat.
Proof.
  induction l as [|e l IH]; [done|]. cbn [fmap list_fmap concat length]. rewrite length_app.
  unfold nak_entry at 1. rewrite !length_app, !length_be_bytes. lia.
Qed.

(** A retransmission at the client: exactly the reports from the expected one. *)
Lemma client_on_nak_response c from ps :
  0 <= expected_report_seq c → 0 <= from → ps = [] ∨ from + Z.of_nat (length ps) < 2 ^ 32 → Forall small ps →
  let news := drop (Z.to_nat (expected_report_seq c - from)) (number from ps) in
  client_on_datagram c (encode SESSION_MAGIC 0 NAK_RESPONSE
    (be_bytes 4 from ++ be_bytes 4 (Z.of_nat (length ps)) ++ concat (nak_entry <$> number from ps)))
  = (if decide (news = []) then c else set_expected c (from + Z.of_nat (length ps)),
     uncurry ClReport <$> news, []).
Proof.
  intros He Hf Hb Hs news. unfold client_on_datagram. rewrite frame_decode_encode. cbn [h_mtype].
  change (NAK_RESPONSE =? REPORT) with false. rewrite Z.eqb_refl.
  rewrite (proj2 (Nat.ltb_ge _ _)) by (rewrite !length_app, !length_be_bytes; lia).
  rewrite drop_be_app, u32_be_app, app_assoc, drop_app_length' by (by rewrite length_app, !length_be_bytes).
  destruct (decide (ps = [])) as [->|Hne]; [subst news; cbn; by rewrite drop_nil|].
  destruct Hb as [|Hb]; [done|]. rewrite u32_wrap_id by (unfold in_u32; lia).
  pose proof (length_entries (number from ps)) as Hl. rewrite length_number in Hl.
  rewrite nak_loop_number by (done || unfold nak_rounds; lia). done.
Qed.

Lemma reports_of_fmap l : reports_of (uncurry ClReport <$> l) = l.
Proof.
  unfold reports_of. induction l as [|[k p] l IH]; [done|].
  cbn [fmap list_fmap omap list_omap uncurry]. by f_equal.
Qed.

(** What a datagram of the server does at the client. *)
Lemma client_on_s2c c reports e start got d c' evs out :
  e = expected_report_seq c → reports_inv got reports e start → s2c_ok reports e start d →
  Z.of_nat (length reports) < 2 ^ 32 - 2 → Forall small reports →
  client_on_datagram c d = (c', evs, out) →
  next_order_seq c' = next_order_seq c ∧ (∀ k p, (k, p) ∈ pending c' → (k, p) ∈ pending c)
  ∧ e <= expected_report_seq c'
  ∧ reports_inv (got ++ reports_of evs) reports (expected_report_seq c') start
  ∧ (out = [] ∨ ∃ count, in_u32 count ∧ out = [nak_request e count]).
Proof.
  intros He Hri Hd Hb Hsm. pose proof (ri_expected _ _ _ _ Hri) as Her.
  destruct Hd as [k p Hk|from ps Hf Hp Hw|seq t p Ht1 Ht2]; unfold client_on_datagram; rewrite frame_decode_encode;
    cbn [h_mtype h_seq].
  - rewrite Z.eqb_refl. pose proof (nth_is_range _ _ _ Hk). rewrite u32_wrap_id by (unfold in_u32; lia).
    rewrite <- He. destruct (Z.eqb_spec k e) as [->|Hne]; [|destruct (Z.ltb_spec e k)]; intros [= <- <- <-].
    + rewrite u32_wrap_id by (unfold in_u32; lia). cbn. split_and!; auto; [lia|].
      pose proof (reports_inv_run _ _ _ _ e [p] Hri ltac:(lia)) as Hr. cbn in Hr.
      replace (Z.to_nat (e - e)) with 0%nat in Hr by lia. apply Hr; [|lia].
      destruct Hk as [_ Hk]. rewrite (drop_S _ _ _ Hk). by apply prefix_cons, prefix_nil.
    + cbn. rewrite app_nil_r. split_and!; auto; [lia|by rewrite <- He|]. right. exists (k - e). split; [unfold in_u32; lia|done].
    + cbn. rewrite app_nil_r. split_and!; auto; [lia|by rewrite <- He].
  - pose proof (prefix_length _ _ Hp) as Hlen. rewrite length_drop in Hlen.
    pose proof (client_on_nak_response c from ps ltac:(lia) ltac:(lia)) as Hc.
    unfold client_on_datagram in Hc. rewrite frame_decode_encode in Hc. cbn [h_mtype h_seq] in Hc. rewrite Hc.
    + intros [= <- <- <-]. rewrite reports_of_fmap.
      pose proof (reports_inv_run _ _ _ _ _ _ Hri Hf Hp Hw) as Hr. rewrite <- He. cbv zeta in Hr.
      split_and!; [by case_decide|by case_decide| | |by left].
      * case_decide as Hne; [by rewrite He|]. cbn. apply Z.nlt_ge. intros Hlt. apply Hne.
        apply drop_ge. rewrite length_number. lia.
      * by case_decide; [rewrite <- He|].
    + destruct ps; [by left|]. right. cbn [length] in *. lia.
    + destruct Hp as [more Hp]. apply (Forall_drop _ (Z.to_nat (from - 1))) in Hsm. rewrite Hp in Hsm.
      by apply Forall_app in Hsm as [? _].
  - rewrite (proj2 (Z.eqb_neq _ _)), (proj2 (Z.eqb_neq _ _)) by done.
    assert (Hid : reports_inv (got ++ []) reports (expected_report_seq c) start) by (by rewrite app_nil_r, <- He).
    destruct (t =? ORDER_ACK); [destruct (p !! 4%nat)|destruct (t =? HELLO_ACK); [destruct (p !! 8%nat)|
      destruct (t =? HEARTBEAT)]]; intros [= <- <- <-]; cbn; split_and!; auto; try lia.
    intros k q. apply bt_remove_elem.
Qed.

(** ** Every action keeps the invariant *)

Lemma winv_init cap : winv (world_init cap).
Proof.
  split; cbn; try constructor; cbn; try done; try lia.
  - intros k p H. by apply not_elem_of_nil in H.
  - constructor.
  - intros k p H. by apply not_elem_of_nil in H.
Qed.

Lemma bounded_step w a : bounded (wstep w a) → bounded w.
Proof.
  unfold bounded. destruct a; cbn [wstep]; repeat case_match; cbn;
    rewrite ?length_app, ?Forall_app; cbn; try tauto; intros (? & ? & ?); split_and!; try done; try lia.
  tauto.
Qed.

Lemma winv_client_sends w c out :
  winv w → next_order_seq c = next_order_seq (w_client w) → pending c = pending (w_client w) →
  expected_report_seq c = expected_report_seq (w_client w) →
  Forall (c2s_ok (w_orders w) (expected_report_seq c)) out → winv (client_sends w c out).
Proof.
  intros [[O1 O2 O3 O4] Hs Hr Hc Hss] H1 H2 H3 Hout. split; cbn; rewrite ?H3; try done.
  - split; cbn; rewrite ?H1, ?H2; done.
  - rewrite H3 in Hout. by apply Forall_app.
Qed.

Lemma winv_send w now p : bounded (wstep w (ASend now p)) → winv w → winv (wstep w (ASend now p)).
Proof.
  intros (Hb & _ & _) [[O1 O2 O3 O4] Hs Hr Hc Hss]. cbn in Hb. rewrite length_app in Hb. cbn in Hb.
  split; cbn; try done.
  - split; cbn; rewrite ?length_app; cbn.
    + rewrite u32_wrap_id by (unfold in_u32; lia). lia.
    + intros k q [[= -> ->]|Hin]%bt_insert_elem; [by apply nth_is_last|]. by apply nth_is_app, O2.
    + lia.
    + rewrite O4, take_app_le by lia. done.
  - apply Forall_app. split; [by eapply c2s_all_mono|]. constructor; [|done]. constructor. by apply nth_is_last.
Qed.

Lemma winv_retransmit w now timeout : winv w → winv (wstep w (ARetransmit now timeout)).
Proof.
  intros Hw. cbn [wstep]. unfold retransmit_due. destruct (retransmit_loop _ _ _) as [c out] eqn:E.
  apply retransmit_loop_spec in E as (H1 & H2 & H3 & H4). apply winv_client_sends; try done.
  eapply Forall_impl; [exact H4|]. intros d (k & q & Hin & ->). constructor. by apply (oi_pending _ (wi_orders _ Hw)).
Qed.

Lemma winv_report w k p : bounded (wstep w (AReport k p)) → winv w → winv (wstep w (AReport k p)).
Proof.
  intros (_ & Hb & _) [Ho Hs Hr Hc Hss]. cbn [wstep] in *.
  destruct (ack_and_report (w_server w) k p) as [s out] eqn:E. cbn in Hb. rewrite length_app in Hb. cbn in Hb.
  eapply ack_and_report_spec in E as (H1 & H2 & H3 & ->); [|done|lia]. split; cbn.
  - destruct Ho as [O1 O2 O3 O4]. split; cbn; rewrite ?H3; done.
  - done.
  - by eapply reports_inv_mono.
  - done.
  - apply Forall_app. split; [by eapply s2c_all_mono|]. repeat constructor; try done.
    + rewrite (si_next _ _ Hs). lia.
    + rewrite (si_next _ _ Hs). apply list_lookup_middle. lia.
Qed.

Lemma winv_to_server w i : bounded w → winv w → winv (wstep w (AToServer i)).
Proof.
  intros (Hb1 & Hb2 & _) Hw. cbn [wstep]. destruct (w_c2s w !! i) as [d|] eqn:Ed; [|done].
  destruct Hw as [Ho Hs Hr Hc Hss]. pose proof (ri_expected _ _ _ _ Hr) as Her.
  pose proof (Forall_lookup_1 _ _ _ _ Hc Ed) as [k p Hk|start count Hst Hcnt|j l].
  - destruct (server_on_datagram (w_server w) _) as [[s evs] out] eqn:E. pose proof (nth_is_range _ _ _ Hk).
    apply server_on_order in E as (H1 & H2 & H3 & H4 & H5 & H6); [|unfold in_u32; lia].
    destruct Ho as [O1 O2 O3 O4], Hs as [S1 S2 S3 S4]. split; cbn; rewrite ?H3; try done.
    + destruct H6 as [(He & H6 & ->)|(He & H6 & ->)]; split; cbn; rewrite ?H6, ?app_nil_r; try done.
      * rewrite u32_wrap_id by (unfold in_u32; lia). lia.
      * rewrite u32_wrap_id by (unfold in_u32; lia). unfold orders_of. rewrite filter_app.
        cbn [is_order_event]. fold (orders_of (w_sevents w)). rewrite O4, He.
        replace (Z.to_nat (expected_client_seq (w_server w) + 1 - 1))
          with (S (Z.to_nat (expected_client_seq (w_server w) - 1))) by lia.
        destruct Hk as [_ Hk]. rewrite He in Hk. rewrite (take_S_r _ _ _ Hk), number_app, fmap_app. f_equal.
        rewrite filter_cons_True by done. cbn. do 2 f_equal. rewrite length_take. lia.
    + split; rewrite ?H1, ?H2, ?H3, ?H4; done.
    + apply Forall_app. split; [done|]. eapply Forall_impl; [exact H5|].
      intros d' (seq & t & q & -> & ? & ?). by constructor.
  - rewrite server_on_nak by (done || unfold in_u32; lia). split; cbn; try done.
    + destruct Ho as [O1 O2 O3 O4]. split; cbn; try done. unfold orders_of. rewrite filter_app. cbn.
      by rewrite app_nil_r.
    + apply Forall_app. split; [done|]. constructor; [|done]. destruct Hcnt.
      erewrite nak_response_spec by (done || lia). pose proof (si_start _ _ Hs). constructor; [lia|apply prefix_take|lia].
  - rewrite server_on_hello. split; cbn; try done.
    + destruct Ho as [O1 O2 O3 O4]. split; cbn; try done. unfold orders_of. rewrite filter_app. cbn.
      by rewrite app_nil_r.
    + apply Forall_app. split; [done|]. constructor; [|done]. by constructor.
Qed.

Lemma winv_to_client w i : bounded w → winv w → winv (wstep w (AToClient i)).
Proof.
  intros (Hb1 & Hb2 & Hb3) Hw. cbn [wstep]. destruct (w_s2c w !! i) as [d|] eqn:Ed; [|done].
  destruct Hw as [Ho Hs Hr Hc Hss]. pose proof (Forall_lookup_1 _ _ _ _ Hss Ed) as Hd.
  pose proof (ri_expected _ _ _ _ Hr) as Her.
  destruct (client_on_datagram (w_client w) d) as [[c evs] out] eqn:E.
  destruct (client_on_s2c _ _ _ _ _ _ _ _ _ eq_refl Hr Hd Hb2 Hb3 E) as (H1 & H2 & H3 & H4 & H5).
  split; cbn.
  - destruct Ho as [O1 O2 O3 O4]. split; cbn; rewrite ?H1; try done. intros k p ?%H2. by apply O2.
  - done.
  - unfold reports_of in *. by rewrite omap_app.
  - rewrite <- (app_nil_r (w_orders w)). apply Forall_app. split; [by eapply c2s_all_mono|].
    destruct H5 as [->|(count & ? & ->)]; constructor; [|done]. constructor; [lia|done].
  - rewrite <- (app_nil_r (w_reports w)). by eapply s2c_all_mono.
Qed.

Lemma winv_step w a : bounded (wstep w a) → winv w → winv (wstep w a).
Proof.
  intros Hb Hw. pose proof (bounded_step _ _ Hb) as Hb0. destruct a as [now p|now t|start count|j l|k p|k|i|i].
  - by apply winv_send.
  - by apply winv_retransmit.
  - cbn [wstep]. case_decide; [|done]. apply winv_client_sends; try done. constructor; [|done]. by constructor; tauto.
  - apply winv_client_sends; try done. constructor; [|done]. constructor.
  - by apply winv_report.
  - destruct Hw as [Ho Hs Hr Hc Hss]. split; cbn; try done.
    + by destruct Ho as [O1 O2 O3 O4]; split.
    + apply Forall_app. split; [done|]. constructor; [|done]. by constructor.
  - by apply winv_to_server.
  - by apply winv_to_client.
Qed.

Lemma bounded_run acts w : bounded (wrun w acts) → bounded w.
Proof.
  revert w; induction acts as [|a acts IH]; intros w; [done|]. cbn. intros H%IH. by apply bounded_step in H.
Qed.

Lemma winv_run acts w : bounded (wrun w acts) → winv w → winv (wrun w acts).
Proof.
  revert w; induction acts as [|a acts IH] using rev_ind; intros w; [done|].
  unfold wrun. rewrite foldl_app. cbn. intros Hb Hw. apply winv_step; [done|].
  apply IH; [|done]. by apply bounded_step in Hb.
Qed.

(** ** A stranded order *)

Lemma encode_inj k t p k' t' p' :
  in_u32 k → in_u32 k' → encode SESSION_MAGIC k t p = encode SESSION_MAGIC k' t' p' → k = k' ∧ t = t' ∧ p = p'.
Proof.
  intros Hk Hk' H. apply (f_equal decode) in H. rewrite !frame_decode_encode, !u32_wrap_id in H by done.
  by injection H as -> -> ->.
Qed.

(** The delivery of a copy of order [k] that was sent before. *)
Definition old_copy (w : world) (k : Z) (a : action) : Prop :=
  match a with AToServer i => ∃ p, w_c2s w !! i = Some (encode SESSION_MAGIC k ORDER p) | _ => False end.

(** [w] comes from [w0], still waits for order [k], and the client has sent no
    further copy of it. *)
Record stuck (w0 : world) (k : Z) (w : world) : Prop := {
  st_expected : expected_client_seq (w_server w) = k;
  st_sent : k < next_order_seq (w_client w);
  st_pending : ∀ p, (k, p) ∉ pending (w_client w);
  st_old : ∃ new, w_c2s w = w_c2s w0 ++ new ∧ ∀ p, encode SESSION_MAGIC k ORDER p ∉ new;
  st_orders : orders_of (w_sevents w) = orders_of (w_sevents w0) }.

Lemma stuck_client_step w0 k w w' more :
  stuck w0 k w → w_server w' = w_server w → w_sevents w' = w_sevents w →
  next_order_seq (w_client w) <= next_order_seq (w_client w') →
  (∀ p, (k, p) ∉ pending (w_client w')) →
  w_c2s w' = w_c2s w ++ more → (∀ p, encode SESSION_MAGIC k ORDER p ∉ more) → stuck w0 k w'.
Proof.
  intros [H1 H2 H3 (new & H4 & H4') H5] Hs He Hn Hp Hc Hm. split; rewrite ?Hs, ?He; try done; [lia|].
  exists (new ++ more). rewrite Hc, H4, app_assoc. split; [done|]. intros p. rewrite not_elem_of_app. auto.
Qed.

Lemma stuck_to_server w0 k w i :
  bounded w → winv w → ¬ old_copy w0 k (AToServer i) → stuck w0 k w → stuck w0 k (wstep w (AToServer i)).
Proof.
  intros (Hb1 & _ & _) Hw Ha Hst. cbn [wstep]. destruct (w_c2s w !! i) as [d|] eqn:Ed; [|done].
  pose proof (Forall_lookup_1 _ _ _ _ (wi_c2s _ Hw) Ed) as Hd. revert Ed.
  destruct Hd as [k' p Hk|start count Hst' Hcnt|j l]; intros Ed.
  - destruct (server_on_datagram (w_server w) _) as [[s evs] out] eqn:E. pose proof (nth_is_range _ _ _ Hk).
    apply server_on_order in E as (_ & _ & _ & _ & _ & H6); [|unfold in_u32; lia].
    destruct Hst as [H1 H2 H3 (new & H4 & H4') H5]. destruct H6 as [(He & _)|(He & H6 & ->)].
    + exfalso. rewrite H1 in He. subst k'. rewrite H4 in Ed. apply lookup_app_Some in Ed as [Ed|[_ Ed]].
      * apply Ha. by exists p.
      * by apply (H4' p), (list_elem_of_lookup_2 _ _ _ Ed).
    + split; cbn; rewrite ?H6, ?app_nil_r; eauto.
  - destruct Hst as [H1 H2 H3 H4 H5]. pose proof (ri_expected _ _ _ _ (wi_reports _ Hw)).
    destruct (server_on_datagram (w_server w) _) as [[s evs] out] eqn:E.
    unfold server_on_datagram, nak_request in E. rewrite frame_decode_encode in E. cbn [h_mtype] in E.
    change (_ || _) with false in E. cbn [Z.eqb] in E. rewrite length_pair_payload in E. cbn in E.
    injection E as <- <- <-. split; cbn; try done. unfold orders_of. rewrite filter_app. cbn. by rewrite app_nil_r.
  - destruct Hst as [H1 H2 H3 H4 H5]. rewrite server_on_hello. split; cbn; try done.
    unfold orders_of. rewrite filter_app. cbn. by rewrite app_nil_r.
Qed.

Lemma order_frame_not_in k out :
  Forall (λ d, ∃ k' t p, d = encode SESSION_MAGIC k' t p ∧ in_u32 k' ∧ (k' ≠ k ∨ t ≠ ORDER)) out →
  in_u32 k → ∀ p, encode SESSION_MAGIC k ORDER p ∉ out.
Proof.
  intros H Hk p Hin. rewrite Forall_forall in H.
  destruct (H _ Hin) as (k' & t & q & Heq & Hk' & Hne). apply encode_inj in Heq as (-> & <- & _); tauto.
Qed.

Lemma stuck_step w0 k w a :
  bounded (wstep w a) → winv w → ¬ old_copy w0 k a → stuck w0 k w → stuck w0 k (wstep w a).
Proof.
  intros Hb' Hw Ha Hst. pose proof (bounded_step _ _ Hb') as Hb.
  pose proof (wi_orders _ Hw) as Ho. destruct (Hb) as (Hb1 & Hb2 & Hb3).
  assert (in_u32 k) as Hk.
  { pose proof (oi_expected _ Ho). rewrite (st_expected _ _ _ Hst) in H. unfold in_u32. lia. }
  assert (in_u32 0) as H0 by done.
  pose proof (st_sent _ _ _ Hst) as Hks. pose proof (oi_next _ Ho) as Hn.
  destruct a as [now p|now t|start count|j l|k' p|k'|i|i]; cbn [wstep] in *.
  - eapply stuck_client_step; [exact Hst|done..| | |done|]; cbn.
    + destruct Hb' as (Hb' & _). cbn in Hb'. rewrite length_app in Hb'. cbn in Hb'.
      rewrite u32_wrap_id by (unfold in_u32; lia). lia.
    + intros q [[= ->]|Hin]%bt_insert_elem; [lia|]. by eapply (st_pending _ _ _ Hst).
    + apply order_frame_not_in; [|done]. constructor; [|done]. eexists _, _, _. split; [done|].
      split; [unfold in_u32; lia|lia].
  - unfold retransmit_due. destruct (retransmit_loop _ _ _) as [c out] eqn:E.
    apply retransmit_loop_spec in E as (H1 & _ & H3 & H4).
    eapply stuck_client_step; [exact Hst|done..| | |done|]; cbn; rewrite ?H1, ?H3; [lia|apply Hst|].
    apply order_frame_not_in; [|done]. eapply Forall_impl; [exact H4|]. intros d (k' & q & Hin & ->).
    exists k', ORDER, q. split; [done|]. pose proof (oi_pending _ Ho _ _ Hin) as ?%nth_is_range.
    split; [unfold in_u32; lia|]. left. intros ->. by eapply (st_pending _ _ _ Hst).
  - case_decide; [|done]. eapply stuck_client_step; [exact Hst|done..|apply Hst|done|].
    apply order_frame_not_in; [|done]. constructor; [|done]. eexists _, _, _. split; [done|]. split; [done|by right].
  - eapply stuck_client_step; [exact Hst|done..|apply Hst|done|].
    apply order_frame_not_in; [|done]. constructor; [|done]. eexists _, _, _. split; [done|]. split; [done|by right].
  - destruct (ack_and_report _ _ _) as [s out] eqn:E. destruct Hst as [? ? ? ? ?].
    cbn in Hb'. eapply ack_and_report_spec in E as (_ & _ & H & _); [|apply Hw|lia]. by split; cbn; rewrite ?H.
  - by destruct Hst as [? ? ? ? ?].
  - by apply stuck_to_server.
  - destruct (w_s2c w !! i) as [d|] eqn:Ed; [|done].
    pose proof (Forall_lookup_1 _ _ _ _ (wi_s2c _ Hw) Ed) as Hd.
    destruct (client_on_datagram (w_client w) d) as [[c evs] out] eqn:E.
    destruct (client_on_s2c _ _ _ _ _ _ _ _ _ eq_refl (wi_reports _ Hw) Hd Hb2 Hb3 E) as (H1 & H2 & _ & _ & H5).
    eapply stuck_client_step; [exact Hst|done..| | |done|]; cbn; [lia| |].
    + intros q ?%H2. by eapply (st_pending _ _ _ Hst).
    + destruct H5 as [->|(count & ? & ->)]; [by intros ? ?%not_elem_of_nil|].
      apply order_frame_not_in; [|done]. constructor; [|done]. eexists _, _, _. split; [done|]. split; [done|by right].
Qed.

Lemma stuck_run w0 k w acts :
  bounded (wrun w acts) → winv w → stuck w0 k w → Forall (λ a, ¬ old_copy w0 k a) acts → stuck w0 k (wrun w acts).
Proof.
  revert w; induction acts as [|a acts IH] using rev_ind; intros w; [done|].
  unfold wrun. rewrite foldl_app, Forall_app. cbn. intros Hb Hw Hst [Ha [Ha' _]%Forall_cons].
  pose proof (bounded_step _ _ Hb) as Hb0. apply stuck_step; [done| |done|].
  - by apply winv_run.
  - by apply IH.
Qed.

(** ** Properties *)

(** Orders are taken exactly once and in order.  However the network loses,
    repeats and reorders datagrams, and whatever is resent, the orders the server
    has handed to its application are the first ones the client sent, in the
    order sent, none twice and none left out in between. *)
Theorem udp_orders_exactly_once cap acts :
  bounded (wrun (world_init cap) acts) →
  let w := wrun (world_init cap) acts in
  ∃ n, (n ≤ length (w_orders w))%nat
    ∧ expected_client_seq (w_server w) = Z.of_nat n + 1
    ∧ orders_of (w_sevents w) = uncurry SvOrder <$> number 1 (take n (w_orders w)).
Proof.
  intros Hb w. pose proof (wi_orders _ (winv_run acts _ Hb (winv_init cap))) as [_ _ He Hev]. fold w in He, Hev.
  exists (Z.to_nat (expected_client_seq (w_server w) - 1)). split_and!; [lia|lia|done].
Qed.

(** Reports arrive in order and unchanged.  Under every network the reports
    the client hands out have strictly increasing numbers, each with the payload
    the server gave that number; a number the client has passed without handing
    it out had already left the server's window. *)
Theorem udp_reports_in_order cap acts :
  bounded (wrun (world_init cap) acts) →
  let w := wrun (world_init cap) acts in
  let got := reports_of (w_cevents w) in
  StronglySorted Z.lt got.*1
  ∧ (∀ k p, (k, p) ∈ got → nth_is (w_reports w) k p)
  ∧ (∀ k, 1 <= k < expected_report_seq (w_client w) → k ∈ got.*1 ∨ k < store_start (w_server w))
  ∧ expected_report_seq (w_client w) <= next_report_seq (w_server w).
Proof.
  intros Hb w got. pose proof (winv_run acts _ Hb (winv_init cap)) as Hw. fold w in Hw.
  destruct (wi_reports _ Hw) as [H1 H2 H3 H4]. split_and!.
  - done.
  - intros k p Hin. by apply H3.
  - intros k Hk. destruct (decide (k ∈ got.*1)); [by left|]. right. by apply H4.
  - rewrite (si_next _ _ (wi_store _ Hw)). lia.
Qed.

(** A gap in the reports is closed by one exchange.  The client waits for
    report [e], which the server still keeps; report [k] arrives.  The client asks
    for the reports in between, the server's answer hands out exactly those, and
    the client then waits for [k], whose own copy it did not keep. *)
Theorem udp_report_gap_recovered cap acts k p :
  let w := wrun (world_init cap) acts in
  bounded w →
  let e := expected_report_seq (w_client w) in
  store_start (w_server w) <= e → e < k → nth_is (w_reports w) k p →
  ∃ nak resp c,
    client_on_datagram (w_client w) (encode SESSION_MAGIC k REPORT p) = (w_client w, [], [nak])
    ∧ server_on_datagram (w_server w) nak = (w_server w, [SvNakRequest e (k - e)], [resp])
    ∧ client_on_datagram (w_client w) resp
      = (c, uncurry ClReport <$> number e (slice (Z.to_nat (e - 1)) (Z.to_nat (k - 1)) (w_reports w)), [])
    ∧ expected_report_seq c = k.
Proof.
  intros w Hb e He Hk Hp. pose proof (winv_run acts _ Hb (winv_init cap)) as Hw. fold w in Hw.
  destruct Hb as (_ & Hb & Hsm). pose proof (nth_is_range _ _ _ Hp) as Hkr.
  pose proof (ri_expected _ _ _ _ (wi_reports _ Hw)) as Her. fold e in Her. pose proof (wi_store _ Hw) as Hs.
  exists (nak_request e (k - e)), (nak_response (w_server w) e (k - e)), (set_expected (w_client w) k).
  split_and!; [| |  |done].
  - unfold client_on_datagram. rewrite frame_decode_encode, u32_wrap_id by (unfold in_u32; lia). cbn [h_mtype h_seq].
    rewrite Z.eqb_refl. fold e. by rewrite (proj2 (Z.eqb_neq _ _)), (proj2 (Z.ltb_lt _ _)) by lia.
  - apply server_on_nak; unfold in_u32; lia.
  - erewrite nak_response_spec by (done || lia). replace (Z.max e (store_start (w_server w))) with e by lia.
    rewrite (si_next _ _ Hs), Z.min_l by lia.
    set (ps := take (Z.to_nat (k - e)) (drop (Z.to_nat (e - 1)) (w_reports w))).
    assert (length ps = Z.to_nat (k - e)) as Hl by (subst ps; rewrite length_take, length_drop; lia).
    rewrite client_on_nak_response; fold e.
    + replace (Z.to_nat (e - e)) with 0%nat by lia. rewrite drop_0.
      rewrite decide_False by (intros H; apply (f_equal length) in H; rewrite length_number in H; cbn in H; lia).
      rewrite Hl. do 2 f_equal; [f_equal; lia|]. subst ps. unfold slice. do 3 f_equal; lia.
    + lia.
    + lia.
    + right. lia.
    + by apply Forall_take, Forall_drop.
Qed.

(** A retry answer strands the order.  When the client no longer keeps order
    [k] and the server still waits for it (an acknowledgement that asks for a resend
    leads there, as in the witness), then unless the network itself repeats an
    old copy the server waits for [k] for ever: it takes no order again, whatever
    the client sends, resends or asks for. *)
Theorem udp_retry_strands_order cap acts more :
  let w := wrun (world_init cap) acts in
  let k := expected_client_seq (w_server w) in
  bounded (wrun w more) →
  k < next_order_seq (w_client w) → (∀ p, (k, p) ∉ pending (w_client w)) →
  Forall (λ a, ¬ old_copy w k a) more →
  expected_client_seq (w_server (wrun w more)) = k
  ∧ orders_of (w_sevents (wrun w more)) = orders_of (w_sevents w).
Proof.
  intros w k Hb Hk Hp Hm.
  pose proof (bounded_run _ _ Hb) as Hb0.
  destruct (stuck_run w k w more) as [H1 H2 H3 H4 H5]; try done.
  - by apply (winv_run acts), winv_init.
  - split; try done. exists []. rewrite app_nil_r. split; [done|]. intros p. apply not_elem_of_nil.
Qed.

Module Witness.

(** Two orders cross on the way; reports 1 and 2 are lost. *)
Definition a1 : list action :=
  [ASend 0 [11]; ASend 0 [22]; AToServer 1; AToClient 0; AToClient 1; ARetransmit 10 5; AToServer 2].

Definition a2 : list action :=
  [ASend 0 [11]; ASend 0 [22]; AToServer 0; AReport 1 [1; 7]; AToServer 1; AToServer 0; AReport 2 [1; 8];
   AReport 2 [2; 9]].

Definition bounded_b (w : world) : bool :=
  (Z.of_nat (length (w_orders w)) <? 2 ^ 32 - 1) && (Z.of_nat (length (w_reports w)) <? 2 ^ 32 - 2)
  && forallb (λ p, Z.of_nat (length p) <? 2 ^ 16) (w_reports w).

Lemma bounded_b_true w : bounded_b w = true → bounded w.
Proof.
  unfold bounded_b, bounded. rewrite !andb_true_iff, !Z.ltb_lt. intros [[? ?] Hs%Is_true_true%forallb_True].
  split_and!; try done. eapply Forall_impl; [exact Hs|]. intros p Hp%Is_true_true. unfold small. zb. lia.
Qed.

Lemma udp_orders_exactly_once_witness : ∃ n, orders_of (w_sevents (wrun (world_init 4) a2))
    = uncurry SvOrder <$> number 1 (take n [[11]; [22]]) ∧ 3 = Z.of_nat n + 1.
Proof.
  destruct (udp_orders_exactly_once 4 a2) as (n & _ & He & Hn).
  - apply bounded_b_true. vm_compute. reflexivity.
  - exists n. split; [exact Hn|exact He].
Defined.

Lemma udp_reports_in_order_witness :
  StronglySorted Z.lt (reports_of (w_cevents (wrun (world_init 4) (a2 ++ [AToClient 7; AToClient 2])))).*1.
Proof.
  apply (udp_reports_in_order 4 (a2 ++ [AToClient 7; AToClient 2])).
  apply bounded_b_true. vm_compute. reflexivity.
Defined.

Lemma udp_report_gap_recovered_witness :
  ∃ nak resp c,
    client_on_datagram (w_client (wrun (world_init 4) a2)) (encode SESSION_MAGIC 3 REPORT [2; 9])
      = (w_client (wrun (world_init 4) a2), [], [nak])
    ∧ client_on_datagram (w_client (wrun (world_init 4) a2)) resp = (c, [ClReport 1 [1; 7]; ClReport 2 [1; 8]], [])
    ∧ expected_report_seq c = 3.
Proof.
  destruct (udp_report_gap_recovered 4 a2 3 [2; 9]) as (nak & resp & c & H1 & _ & H3 & H4).
  - apply bounded_b_true. vm_compute. reflexivity.
  - vm_compute. discriminate.
  - vm_compute. reflexivity.
  - split; [lia|reflexivity].
  - exists nak, resp, c. split_and!; [exact H1|exact H3|exact H4].
Defined.

(** Order 2 overtakes order 1 and is answered with a retry code: the client drops
    it.  Order 1 is resent and taken; order 2 never is, nor is order 3. *)
Lemma udp_retry_strands_order_witness :
  expected_client_seq (w_server (wrun (wrun (world_init 4) a1) [ARetransmit 100 5; ASend 100 [33]; AToServer 3])) = 2.
Proof.
  apply (udp_retry_strands_order 4 a1 [ARetransmit 100 5; ASend 100 [33]; AToServer 3]).
  - apply bounded_b_true. vm_compute. reflexivity.
  - vm_compute. reflexivity.
  - assert (pending (w_client (wrun (world_init 4) a1)) = [(1, [11])]) as -> by reflexivity.
    intros p Hp. apply list_elem_of_singleton, (f_equal fst) in Hp. vm_compute in Hp. discriminate.
  - constructor; [intros []|]. constructor; [intros []|]. constructor; [|constructor].
    intros [p Hp]. vm_compute in Hp. discriminate.
Defined.

End Witness.
