(* ===== verification/Utf8.v ===== *)
(** * Text as the Rust standard library treats it

    A [str] is the list of its UTF-8 bytes.  The functions the session layers use:
    [String::from_utf8_lossy] (the chunk decoder of [core::str::lossy]),
    [str::from_utf8], [trim],
    [trim_end_matches], [u64::to_string] and [str::parse::<u64>]; and that on
    ASCII text they do what one expects. *)
From S2P Require Import Prelude Protocol HpScale.

#[local] Open Scope Z_scope.

Definition SPACE : Z := 32.

(** ** [from_utf8_lossy] *)

Definition between (a b : Z) (c : Z) : bool := (a <=? c) && (c <=? b).

(** [safe_get(i)] on the bytes from [i] on. *)
Definition safe_get (s : list Z) : Z := default 0 (head s).

Definition is_cont (c : Z) : bool := Z.land c 192 =? 128.

(** One round of the decoder at the byte [b] with [s] behind it: how many bytes
    it has looked at, and whether they are one character. *)
Definition utf8_step (b : Z) (s : list Z) : nat * bool :=
  let c1 := safe_get s in
  let c2 := safe_get (drop 1 s) in
  let c3 := safe_get (drop 2 s) in
  if b <? 128 then (1, true)%nat
  else if between 0xC2 0xDF b then if is_cont c1 then (2, true)%nat else (1, false)%nat
  else if between 0xE0 0xEF b then
    if ((b =? 0xE0) && between 0xA0 0xBF c1) || (between 0xE1 0xEC b && between 0x80 0xBF c1)
       || ((b =? 0xED) && between 0x80 0x9F c1) || (between 0xEE 0xEF b && between 0x80 0xBF c1)
    then if is_cont c2 then (3, true)%nat else (2, false)%nat
    else (1, false)%nat
  else if between 0xF0 0xF4 b then
    if ((b =? 0xF0) && between 0x90 0xBF c1) || (between 0xF1 0xF3 b && between 0x80 0xBF c1)
       || ((b =? 0xF4) && between 0x80 0x8F c1)
    then if is_cont c2 then if is_cont c3 then (4, true)%nat else (3, false)%nat else (2, false)%nat
    else (1, false)%nat
  else (1, false)%nat.

(** U+FFFD *)
Definition REPLACEMENT : list Z := [0xEF; 0xBF; 0xBD].

Fixpoint lossy (fuel : nat) (s : list Z) : list Z :=
  match fuel, s with
  | S fuel, b :: s' =>
      let '(n, valid) := utf8_step b s' in
      (if valid : bool then take n s else REPLACEMENT) ++ lossy fuel (drop n s)
  | _, _ => []
  end.

Definition from_utf8_lossy (s : list Z) : list Z := lossy (length s) s.

(** [core::str::from_utf8]: every character is valid. *)
Fixpoint utf8_valid (fuel : nat) (s : list Z) : bool :=
  match s, fuel with
  | [], _ => true
  | _, O => false
  | b :: s', S fuel => let '(n, valid) := utf8_step b s' in valid && utf8_valid fuel (drop n s)
  end.

(** Text as the engines keep it. *)
Definition string_of_bytes (l : list Z) : string :=
  String.string_of_list_ascii ((λ b, ascii_of_N (Z.to_N b)) <$> l).

Definition from_utf8 (s : list Z) : option string :=
  if utf8_valid (length s) s then Some (string_of_bytes s) else None.

(** ** [trim] and [trim_end_matches(' ')] *)

Fixpoint trim_start_loop (fuel : nat) (s : list Z) : list Z :=
  match fuel with
  | O => s
  | S fuel => match ws_len s with Some n => trim_start_loop fuel (drop n s) | None => s end
  end.

(** The length of the white-space character a string ends with, if any. *)
Definition ws_len_end (s : list Z) : option nat :=
  let ends n := bool_decide (n ≤ length s)%nat && bool_decide (ws_len (drop (length s - n) s) = Some n) in
  if ends 1%nat then Some 1%nat
  else if ends 2%nat then Some 2%nat
  else if ends 3%nat then Some 3%nat
  else None.

Fixpoint trim_end_loop (fuel : nat) (s : list Z) : list Z :=
  match fuel with
  | O => s
  | S fuel => match ws_len_end s with Some n => trim_end_loop fuel (take (length s - n) s) | None => s end
  end.

(** Each round removes at least one byte. *)
Definition str_trim (s : list Z) : list Z :=
  let s := trim_start_loop (length s) s in trim_end_loop (length s) s.

Fixpoint drop_spaces (s : list Z) : list Z :=
  match s with c :: s' => if c =? SPACE then drop_spaces s' else s | [] => [] end.

Definition trim_end_spaces (s : list Z) : list Z := rev (drop_spaces (rev s)).

(** ** Numbers *)

Definition u64_text (n : Z) : list Z := code <$> u64_to_string n.

Fixpoint parse_u64_digits (acc : Z) (s : list Z) : option Z :=
  match s with
  | [] => Some acc
  | c :: s =>
      if between 48 57 c then
        let v := acc * 10 + (c - 48) in if v <=? u64_max then parse_u64_digits v s else None
      else None
  end.

(** [str::parse::<u64>]: a plus sign is skipped, a sign alone is an error. *)
Definition parse_u64 (s : list Z) : option Z :=
  match s with
  | [] | [43] | [45] => None
  | 43 :: rest => parse_u64_digits 0 rest
  | _ => parse_u64_digits 0 s
  end.

Fixpoint parse_i64_from (neg : bool) (acc : Z) (s : list Z) : option Z :=
  match s with
  | [] => Some acc
  | c :: s =>
      if between 48 57 c then
        let v := if neg then acc * 10 - (c - 48) else acc * 10 + (c - 48) in
        if between i64_min i64_max v then parse_i64_from neg v s else None
      else None
  end.

(** [str::parse::<i64>]: either sign is skipped, a sign alone is an error. *)
Definition parse_i64_text (s : list Z) : option Z :=
  match s with
  | [] | [43] | [45] => None
  | 43 :: rest => parse_i64_from false 0 rest
  | 45 :: rest => parse_i64_from true 0 rest
  | _ => parse_i64_from false 0 s
  end.

(** ** On ASCII text *)

Definition is_ascii (c : Z) : Prop := 0 <= c < 128.
Definition is_ws (c : Z) : bool := between 9 13 c || (c =? 32).

Lemma lossy_ascii s fuel : Forall is_ascii s → (length s ≤ fuel)%nat → lossy fuel s = s.
Proof.
  revert fuel; induction s as [|b s IH]; intros [|fuel] Hs Hf; try done; cbn in Hf; [lia|].
  apply Forall_cons in Hs as [Hb Hs]. cbn [lossy]. unfold utf8_step, is_ascii in *.
  rewrite (proj2 (Z.ltb_lt _ _)) by lia. cbn. f_equal. apply IH; [done|lia].
Qed.

Lemma from_utf8_lossy_ascii s : Forall is_ascii s → from_utf8_lossy s = s.
Proof. intros. by apply lossy_ascii. Qed.

Lemma ws_len_ascii c s : is_ascii c → ws_len (c :: s) = if is_ws c then Some 1%nat else None.
Proof.
  unfold is_ascii. intros Hc.
  assert (∃ n, (n < 128)%nat ∧ c = Z.of_nat n) as (n & Hn & ->) by (exists (Z.to_nat c); lia). clear Hc.
  do 128 (destruct n as [|n]; [by destruct s|]). lia.
Qed.

(** No white space at either end. *)
Definition tidy (s : list Z) : Prop :=
  Forall is_ascii s ∧ (∀ c, head s = Some c → is_ws c = false) ∧ (∀ c, last s = Some c → is_ws c = false).

Lemma trim_start_spaces n s fuel :
  (n ≤ fuel)%nat → trim_start_loop fuel (replicate n SPACE ++ s) = trim_start_loop (fuel - n) s.
Proof.
  revert fuel; induction n as [|n IH]; intros fuel Hf; [cbn; by rewrite Nat.sub_0_r|].
  destruct fuel as [|fuel]; [lia|]. cbn [replicate app trim_start_loop Nat.sub]. rewrite ws_len_ascii by done.
  cbn. apply IH. lia.
Qed.

Lemma trim_start_tidy s fuel : tidy s → trim_start_loop fuel s = s.
Proof.
  intros (Ha & Hh & _). destruct fuel as [|fuel]; [done|]. cbn. destruct s as [|c s]; [done|].
  apply Forall_cons in Ha as [Hc _]. by rewrite ws_len_ascii, (Hh c).
Qed.

Lemma ws_len_end_ascii s c :
  Forall is_ascii s → is_ascii c → ws_len_end (s ++ [c]) = if is_ws c then Some 1%nat else None.
Proof.
  intros Hs Hc. unfold ws_len_end. rewrite length_app. cbn [length].
  assert (∀ n, (1 < n)%nat → bool_decide (n ≤ length s + 1)%nat
    && bool_decide (ws_len (drop (length s + 1 - n) (s ++ [c])) = Some n) = false) as Hbig.
  { intros n Hn. destruct (bool_decide_reflect (n ≤ length s + 1)%nat); [|done]. apply bool_decide_eq_false.
    rewrite drop_app_le by lia.
    pose proof (length_drop s (length s + 1 - n)) as Hl.
    destruct (drop (length s + 1 - n) s) as [|b t] eqn:E; [cbn in Hl; lia|].
    assert (is_ascii b).
    { eapply Forall_forall; [exact (Forall_drop _ (length s + 1 - n) _ Hs)|]. rewrite E. constructor. }
    rewrite <- app_comm_cons, ws_len_ascii by done. destruct (is_ws b); [|done]. intros [= <-]. lia. }
  cbv zeta. rewrite (Hbig 2%nat), (Hbig 3%nat) by lia. rewrite bool_decide_eq_true_2 by lia. cbn [andb].
  replace (length s + 1 - 1)%nat with (length s) by lia. rewrite drop_app_length, ws_len_ascii by done.
  by destruct (is_ws c).
Qed.

Lemma trim_end_tidy s fuel : tidy s → trim_end_loop fuel s = s.
Proof.
  intros (Ha & _ & Hl). destruct fuel as [|fuel]; [done|]. cbn. destruct s as [|c s _] using rev_ind; [done|].
  apply Forall_app in Ha as [Ha [Hc _]%Forall_cons]. rewrite ws_len_end_ascii by done.
  by rewrite (Hl c) by (by rewrite last_snoc).
Qed.

Lemma trim_end_spaces_loop n s fuel :
  Forall is_ascii s → (n ≤ fuel)%nat →
  trim_end_loop fuel (s ++ replicate n SPACE) = trim_end_loop (fuel - n) s.
Proof.
  intros Ha. revert fuel; induction n as [|n IH]; intros fuel Hf; [cbn; by rewrite app_nil_r, Nat.sub_0_r|].
  destruct fuel as [|fuel]; [lia|]. cbn [trim_end_loop Nat.sub].
  rewrite replicate_S_end, app_assoc, ws_len_end_ascii.
  - cbn. rewrite length_app. cbn. replace (length (s ++ replicate n SPACE) + 1 - 1)%nat
      with (length (s ++ replicate n SPACE)) by lia. rewrite take_app_length. apply IH. lia.
  - apply Forall_app. split; [done|]. by apply Forall_replicate.
  - done.
Qed.

(** Spaces around a tidy text are what [trim] removes. *)
Lemma str_trim_padded n s m : tidy s → str_trim (replicate n SPACE ++ s ++ replicate m SPACE) = s.
Proof.
  intros Hs. unfold str_trim. rewrite trim_start_spaces by (rewrite length_app, length_replicate; lia).
  destruct (decide (s = [])) as [->|Hne].
  - cbn [app]. rewrite length_app, !length_replicate.
    rewrite <- (app_nil_r (replicate m SPACE)), trim_start_spaces by lia.
    replace (n + m - n - m)%nat with 0%nat by lia. done.
  - destruct Hs as (Ha & Hh & Hl). assert (∀ fuel t, trim_start_loop fuel (s ++ t) = s ++ t) as Hst.
    { intros [|fuel] t; [done|]. cbn. destruct s as [|c s]; [done|]. apply Forall_cons in Ha as [Hc _]. cbn [app].
      by rewrite ws_len_ascii, (Hh c). }
    rewrite Hst, trim_end_spaces_loop by (done || rewrite length_app, length_replicate; lia).
    by apply trim_end_tidy.
Qed.

Lemma str_trim_tidy s : tidy s → str_trim s = s.
Proof. intros Hs. rewrite <- (str_trim_padded 0 s 0 Hs) at 2. cbn. by rewrite app_nil_r. Qed.

(** [trim_end_matches(' ')] needs no more than a last character that is no space. *)
Lemma trim_end_spaces_padded s m : last s ≠ Some SPACE → trim_end_spaces (s ++ replicate m SPACE) = s.
Proof.
  intros Hl. unfold trim_end_spaces. rewrite rev_app_distr.
  assert (∀ t, drop_spaces (rev (replicate m SPACE) ++ t) = drop_spaces t) as ->.
  { intros t. replace (rev (replicate m SPACE)) with (replicate m SPACE)
      by (rewrite rev_alt; symmetry; apply reverse_replicate).
    induction m as [|m IH]; [done|]. cbn. done. }
  destruct s as [|c s _] using rev_ind; [done|]. rewrite rev_app_distr. cbn.
  rewrite last_snoc in Hl. destruct (Z.eqb_spec c SPACE) as [->|]; [done|]. cbn. by rewrite rev_involutive.
Qed.

(** ** Numbers survive the trip through text *)

Lemma digit_code c : is_ascii_digit c = true → 48 <= code c <= 57.
Proof. unfold is_ascii_digit. intros. zb. lia. Qed.

Lemma parse_u64_digits_num s acc :
  all_digits s → 0 <= acc → acc * 10 ^ Z.of_nat (length s) + num s <= u64_max →
  parse_u64_digits acc (code <$> s) = Some (acc * 10 ^ Z.of_nat (length s) + num s).
Proof.
  revert acc; induction s as [|c s IH]; intros acc Hd Ha Hb; [cbn; f_equal; lia|].
  apply Forall_cons in Hd as [Hc Hd]. pose proof (digit_code c Hc) as Hcr. pose proof (num_nonneg s Hd) as Hn.
  rewrite num_cons in *. cbn [length] in *. rewrite Nat2Z.inj_succ, Z.pow_succ_r in * by lia.
  cbn [fmap list_fmap parse_u64_digits]. unfold between. rewrite !(proj2 (Z.leb_le _ _)) by lia. cbn [andb].
  unfold digit_value in *. set (p := 10 ^ Z.of_nat (length s)) in *. assert (1 <= p) by (subst p; nia).
  rewrite (proj2 (Z.leb_le _ _)) by nia. rewrite IH; [f_equal; subst p; nia|done|nia|subst p; nia].
Qed.

Lemma u64_text_tidy n : in_u64 n → tidy (u64_text n).
Proof.
  intros Hn. destruct (u64_to_string_spec n Hn) as (Hd & _ & _ & _). unfold u64_text.
  assert (∀ c, c ∈ (code <$> u64_to_string n) → 48 <= c <= 57) as Hc.
  { intros c (a & -> & Ha)%list_elem_of_fmap. apply digit_code. eapply Forall_forall in Hd; done. }
  assert (∀ c, 48 <= c <= 57 → is_ws c = false) as Hws.
  { intros c Hr. unfold is_ws, between. apply orb_false_intro; [apply andb_false_intro2|]; lia. }
  split_and!.
  - apply Forall_forall. intros c Hin%Hc. unfold is_ascii. lia.
  - intros c Hh. apply Hws, Hc. destruct (code <$> u64_to_string n); [done|]. simplify_eq/=. constructor.
  - intros c Hl%last_Some_elem_of. by apply Hws, Hc.
Qed.

Lemma u64_text_nonempty n : in_u64 n → u64_text n ≠ [].
Proof.
  intros Hn. destruct (u64_to_string_spec n Hn) as (_ & _ & Hne & _). unfold u64_text. by destruct (u64_to_string n).
Qed.

Lemma length_u64_text n : in_u64 n → (length (u64_text n) ≤ 20)%nat.
Proof.
  intros Hn. destruct (u64_to_string_spec n Hn) as (_ & _ & _ & Hl). unfold u64_text. rewrite length_fmap.
  specialize (Hl 20 ltac:(unfold in_u64 in Hn; lia) ltac:(lia)). lia.
Qed.

Lemma parse_u64_text n : in_u64 n → parse_u64 (u64_text n) = Some n.
Proof.
  intros Hn. destruct (u64_to_string_spec n Hn) as (Hd & Hv & Hne & _). unfold u64_text.
  pose proof (parse_u64_digits_num (u64_to_string n) 0 Hd ltac:(lia)) as Hp. rewrite Hv in Hp.
  destruct (u64_to_string n) as [|c s]; [done|]. apply Forall_cons in Hd as [Hc _].
  apply digit_code in Hc. cbn [fmap list_fmap parse_u64] in *. unfold in_u64, u64_max in *.
  assert (parse_u64_digits 0 (code c :: (code <$> s)) = Some n) as Hgoal by (rewrite Hp; [f_equal|]; lia).
  clear Hp. assert (∃ k, (k < 10)%nat ∧ code c = 48 + Z.of_nat k) as (k & Hk & Hck)
    by (exists (Z.to_nat (code c - 48)); lia).
  rewrite Hck in *. do 10 (destruct k as [|k]; [by destruct (code <$> s)|]). lia.
Qed.

(** ** Prefixes *)

(** [str::strip_prefix] *)
Fixpoint strip_prefix (p s : string) : option string :=
  match p, s with
  | EmptyString, _ => Some s
  | String a p, String b s => if Ascii.eqb a b then strip_prefix p s else None
  | _, EmptyString => None
  end.

Lemma list_ascii_app a b : String.list_ascii_of_string (a +:+ b) = String.list_ascii_of_string a ++ String.list_ascii_of_string b.
Proof.
  induction a as [|x a IH]; [done|].
  change (String.list_ascii_of_string (String x a +:+ b)) with (x :: String.list_ascii_of_string (a +:+ b)). by rewrite IH.
Qed.

Lemma strip_prefix_app p s : strip_prefix p (p +:+ s) = Some s.
Proof.
  induction p as [|a p IH]; [done|]. change (String a p +:+ s) with (String a (p +:+ s)). cbn [strip_prefix]. by rewrite Ascii.eqb_refl.
Qed.
