(* ===== verification/Gateway.v ===== *)
(** * match-udp-order: the gateway from UDP orders to the engine and back

    Models [match-udp-order/src/bin/udp_order_gw.rs]: the text of an order and of a
    report, what the server does with a datagram (session, conversion, engine,
    reports) and its serving loop with the closing window.  The sockets are left
    out: a datagram is an argument, the datagrams sent are the result.  A panic is
    [None].  Counters are mathematical integers; instants are nanoseconds. *)
From S2P Require Import Prelude Decimal Protocol CoreBook CoreMatch CoreEngine HpScale UdpOrder Utf8.

#[local] Open Scope Z_scope.

Definition REPORT_ACCEPTED : Z := 0x01.
Definition REPORT_EXECUTED : Z := 0x02.

(** [s.split(c)] *)
Fixpoint split_on (c : ascii) (s : string) : list string :=
  match s with
  | EmptyString => [EmptyString]
  | String a s =>
      if Ascii.eqb a c then EmptyString :: split_on c s
      else match split_on c s with
           | part :: rest => String a part :: rest
           | [] => [String a EmptyString]
           end
  end.

Definition bar : ascii := "|"%char.

Section Gateway.
Context `{BD : BigDecimal}.

Definition mq_limit (side : Z) (symbol no price qty : string) : MqOrder :=
  {| mq_user_id := Some 1; mq_uid := Some 1; mq_c_type := 1; mq_deal_type := None; mq_type := Some 1;
     mq_order_type := Some side; mq_market_id := Some 1; mq_coin_id := Some 2;
     mq_symbol_key := Some symbol; mq_coin_market := Some "BTC/USDT"%string; mq_trust_order_no := Some no;
     mq_close_position := None; mq_start_deposit := None; mq_position_type := None; mq_taker_rate := None;
     mq_order_status := Some 0; mq_order_form := Some ORDER_FORM_LIMIT; mq_gear := None; mq_lever_times := None;
     mq_trust_number := Some qty; mq_trust_price := Some price; mq_create_time := Some 1700000000;
     mq_face_value := None; mq_handicap_type := None |}.

Definition parse_order (payload : list Z) : option (MqOrder * string) :=
  s ← from_utf8 payload;
  match split_on bar s with
  | side :: symbol :: price :: qty :: no :: _ =>
      if String.eqb side "B" then Some (mq_limit ORDER_TYPE_BUY symbol no price qty, no)
      else if String.eqb side "S" then Some (mq_limit ORDER_TYPE_SELL symbol no price qty, no)
      else None
  | _ => None
  end.

Definition report_text (ev : MatchEvent) : list Z :=
  match ev with
  | Fill _ taker_order_no maker_order_no _ _ price qty _ _ _ _ =>
      REPORT_EXECUTED
      :: bytes_of ("E|" +:+ taker_order_no +:+ "|" +:+ maker_order_no +:+ "|" +:+ price +:+ "|" +:+ qty)
  | Revoke order_no symbol _ _ => REPORT_ACCEPTED :: bytes_of ("A|" +:+ order_no +:+ "|" +:+ symbol)
  end.

(** The report of an order without events: the buffer is new, so no type byte is
    in front, and the symbol is fixed. *)
Definition accepted_text (no : string) : list Z := bytes_of ("A|" +:+ no +:+ "|btcusdt").

Record Gateway := mkGateway {
  gw_srv : ServerSession; gw_engine : Engine; gw_processed : Z; gw_fills : Z; gw_total_evs : Z }.

Definition is_fill (ev : MatchEvent) : bool := match ev with Fill _ _ _ _ _ _ _ _ _ _ _ => true | _ => false end.

(** [for e in &evs2 { .. }] *)
Fixpoint report_events (srv : ServerSession) (cli_seq : Z) (evs : list MatchEvent) : ServerSession * list (list Z) :=
  match evs with
  | [] => (srv, [])
  | ev :: evs =>
      let '(srv, out) := ack_and_report srv cli_seq (report_text ev) in
      let '(srv, out') := report_events srv cli_seq evs in
      (srv, out ++ out')
  end.

Definition gw_on_order (g : Gateway) (cli_seq : Z) (payload : list Z) : option (Gateway * list (list Z)) :=
  match parse_order payload with
  | Some (mq, no) =>
      bb ← type_convert_spot mq;
      '(evs2, engine) ← CoreEngine.on_order (gw_engine g) bb;
      let '(srv, out) := report_events (gw_srv g) cli_seq evs2 in
      let '(srv, out') :=
        match evs2 with [] => ack_and_report srv cli_seq (accepted_text no) | _ => (srv, []) end in
      Some (mkGateway srv engine (gw_processed g + 1)
              (gw_fills g + Z.of_nat (length (filter (λ ev, is_fill ev = true) evs2))) (gw_total_evs g),
            out ++ out')
  | None => Some (g, reject_order (gw_srv g) cli_seq)
  end.

(** [for ev in evs { match ev { .. } }]: only orders are acted on. *)
Fixpoint gw_on_events (g : Gateway) (evs : list ServerEvent) : option (Gateway * list (list Z)) :=
  match evs with
  | [] => Some (g, [])
  | SvOrder cli_seq payload :: evs =>
      '(g, out) ← gw_on_order g cli_seq payload;
      '(g, out') ← gw_on_events g evs;
      Some (g, out ++ out')
  | _ :: evs => gw_on_events g evs
  end.

(** What one received datagram does; the datagrams go back to the peer. *)
Definition gw_on_datagram (g : Gateway) (dg : list Z) : option (Gateway * list (list Z)) :=
  let '(srv, evs, out) := server_on_datagram (gw_srv g) dg in
  let g := mkGateway srv (gw_engine g) (gw_processed g) (gw_fills g) (gw_total_evs g + Z.of_nat (length evs)) in
  '(g, out') ← gw_on_events g evs;
  Some (g, out ++ out').

Definition gateway_new (orders_target : nat) : Gateway :=
  mkGateway (udp_server_new (if (0 <? orders_target)%nat then orders_target + Z.to_nat 8192 else Z.to_nat 8192)) engine_new 0 0 0.

(** ** The serving loop *)

Definition CLOSING : Z := 15 * 10 ^ 9.

(** One turn of the outer loop: the clock at its test, the datagrams read until the
    socket would block, the clock after them. *)
Record turn := mkTurn { t_test : Z; t_batch : list (list Z); t_after : Z }.

Fixpoint gw_batch (g : Gateway) (batch : list (list Z)) : option (Gateway * list (list Z)) :=
  match batch with
  | [] => Some (g, [])
  | dg :: batch => '(g, out) ← gw_on_datagram g dg; '(g, out') ← gw_batch g batch; Some (g, out ++ out')
  end.

Inductive served := Running (g : Gateway) (closing_at : option Z) | Closed (fills : Z).

Definition open_at (closing_at : option Z) (now : Z) : bool :=
  match closing_at with Some t => now <? t | None => true end.

Fixpoint server_main (orders_target : nat) (g : Gateway) (closing_at : option Z) (turns : list turn) :
    option (served * list (list Z)) :=
  match turns with
  | [] => Some (Running g closing_at, [])
  | t :: turns =>
      if open_at closing_at (t_test t) then
        '(g, out) ← gw_batch g (t_batch t);
        let closing_at :=
          if (0 <? orders_target)%nat && (Z.of_nat orders_target <=? gw_processed g)
             && bool_decide (closing_at = None)
          then Some (t_after t + CLOSING) else closing_at in
        '(r, out') ← server_main orders_target g closing_at turns;
        Some (r, out ++ out')
      else Some (Closed (gw_fills g), [])
  end.

(** ** The orders of the demonstration client *)

(** [format!("o{i:06}")] *)
Definition client_no (i : nat) : string :=
  "o" +:+ String.string_of_list_ascii (zero_padded 6 (Z.of_nat i)).

(** The client alternates buys at 100.00 and sells at 99.99. *)
Definition client_payload (i : nat) : list Z :=
  bytes_of ((if Nat.even i then "B" else "S") +:+ "|btcusdt|" +:+ (if Nat.even i then "100.00" else "99.99")
            +:+ "|1|" +:+ client_no i).

End Gateway.
