(* ===== verification/GatewayProps.v ===== *)
(** * The gateway from end to end

    A client session, the gateway and a network between them that loses, repeats
    and reorders datagrams.  The gateway never panics on orders whose decimals can
    be converted, its engine has run a prefix of the orders sent, each once and in
    order, and the reports the client hands out are those of that run.  An order
    whose price or quantity is no positive decimal stops the gateway. *)
From stdpp Require Import sorting.
From S2P Require Import Prelude Decimal Protocol CoreBook CoreMatch CoreEngine ProtocolProps HpIndex HpScale UdpOrder UdpOrderProps Utf8 Gateway.
From Stdlib Require Import Sorted.

#[local] Open Scope Z_scope.
#[local] Arguments encode : simpl never.
#[local] Arguments be_bytes : simpl never.

Section GatewayProps.
Context `{BDS : BigDecimalSpec}.
Implicit Types (e : Engine) (p : list Z) (ps rs : list (list Z)) (g : Gateway) (w : world) (evs : list ServerEvent).

(** ** What the gateway answers *)

(** The reports of an order and the engine behind it: none for a text that is no
    order, one per event, or one acceptance when there is no event. *)
Definition answer e p : option (list (list Z) * Engine) :=
  match parse_order p with
  | None => Some ([], e)
  | Some (mq, no) =>
      o ← type_convert_spot mq;
      '(evs, e) ← CoreEngine.on_order e o;
      Some (match evs with [] => [accepted_text no] | _ => report_text <$> evs end, e)
  end.

Fixpoint answers e ps : option (list (list Z) * Engine) :=
  match ps with
  | [] => Some ([], e)
  | p :: ps => '(rs, e) ← answer e p; '(rs', e) ← answers e ps; Some (rs ++ rs', e)
  end.

(** A text that is no order, or one whose decimals convert. *)
Definition answerable p : Prop :=
  match parse_order p with Some (mq, _) => is_Some (type_convert_spot mq) | None => True end.

Lemma answer_total e p : engine_ok e → answerable p → ∃ rs e', answer e p = Some (rs, e') ∧ engine_ok e'.
Proof.
  unfold answer, answerable. intros He. destruct (parse_order p) as [[mq no]|]; [|by eexists _, _].
  intros [o Ho]. rewrite Ho. cbn [mbind option_bind].
  destruct (on_order_inv e o He (type_convert_spot_valid mq o Ho)) as (evs & e' & -> & He').
  cbn [mbind option_bind]. by eexists _, _.
Qed.

Lemma answers_total e ps : engine_ok e → Forall answerable ps → ∃ rs e', answers e ps = Some (rs, e') ∧ engine_ok e'.
Proof.
  intros He Hp; revert e He; induction Hp as [|p ps Hp _ IH]; intros e He; [by eexists _, _|].
  destruct (answer_total e p He Hp) as (rs & e1 & H1 & He1). destruct (IH e1 He1) as (rs' & e2 & H2 & He2).
  cbn [answers]. rewrite H1. cbn [mbind option_bind]. rewrite H2. by eexists _, _.
Qed.

Lemma answers_app e ps ps' :
  answers e (ps ++ ps') = '(rs, e) ← answers e ps; '(rs', e) ← answers e ps'; Some (rs ++ rs', e).
Proof.
  revert e; induction ps as [|p ps IH]; intros e; cbn [answers app mbind option_bind].
  - by destruct (answers e ps') as [[rs e']|].
  - destruct (answer e p) as [[rs e1]|]; [|done]. cbn [mbind option_bind]. rewrite IH.
    destruct (answers e1 ps) as [[rs1 e2]|]; [|done]. cbn [mbind option_bind].
    destruct (answers e2 ps') as [[rs2 e3]|]; [|done]. cbn [mbind option_bind]. by rewrite app_assoc.
Qed.

(** ** One datagram *)

Definition payloads evs : list (list Z) := omap (λ ev, match ev with SvOrder _ p => Some p | _ => None end) evs.

(** [w] with another server session, more reports and more datagrams sent. *)
Definition with_reports w (s : ServerSession) (out rs : list (list Z)) : world :=
  mkWorld (w_client w) s (w_c2s w) (w_s2c w ++ out) (w_orders w) (w_reports w ++ rs) (w_sevents w) (w_cevents w).

Lemma wrun_app w l1 l2 : wrun w (l1 ++ l2) = wrun (wrun w l1) l2.
Proof. apply foldl_app. Qed.

Lemma report_events_run w seq evl :
  let r := report_events (w_server w) seq evl in
  wrun w (AReport seq <$> (report_text <$> evl)) = with_reports w r.1 r.2 (report_text <$> evl).
Proof.
  revert w; induction evl as [|ev evl IH]; intros w; cbn [report_events fmap list_fmap].
  - cbn. unfold with_reports. rewrite !app_nil_r. by destruct w.
  - unfold wrun in *. cbn [foldl wstep]. destruct (ack_and_report (w_server w) seq (report_text ev)) as [s out].
    cbn zeta in IH. rewrite IH. cbn [w_server]. destruct (report_events s seq evl) as [s' out'].
    unfold with_reports. cbn. by rewrite <- !app_assoc.
Qed.

Lemma gw_on_order_run g w seq p rs e :
  w_server w = gw_srv g → answer (gw_engine g) p = Some (rs, e) →
  ∃ g' out acts, gw_on_order g seq p = Some (g', out) ∧ gw_engine g' = e
    ∧ wrun w acts = with_reports w (gw_srv g') out rs.
Proof.
  unfold answer, gw_on_order. intros Hs. destruct (parse_order p) as [[mq no]|].
  - destruct (type_convert_spot mq) as [o|]; [|done]. cbn [mbind option_bind].
    destruct (CoreEngine.on_order (gw_engine g) o) as [[evl e']|]; [|done]. cbn [mbind option_bind]. intros [= <- <-].
    rewrite <- Hs. destruct evl as [|ev evl].
    + cbn [report_events]. destruct (ack_and_report (w_server w) seq (accepted_text no)) as [s out] eqn:E.
      eexists _, _, [AReport seq (accepted_text no)]. split_and!; [reflexivity|done|].
      unfold wrun. cbn [foldl wstep]. by rewrite E.
    + pose proof (report_events_run w seq (ev :: evl)) as Hr. cbn zeta in Hr.
      destruct (report_events (w_server w) seq (ev :: evl)) as [s out].
      eexists _, _, _. split_and!; [reflexivity|done|]. rewrite app_nil_r. exact Hr.
  - intros [= <- <-]. eexists g, _, [AReject seq]. split_and!; [reflexivity|done|].
    unfold wrun, with_reports. cbn. unfold server_sends. by rewrite Hs, app_nil_r.
Qed.

Lemma gw_on_events_run evs : ∀ g w rs e,
  w_server w = gw_srv g → answers (gw_engine g) (payloads evs) = Some (rs, e) →
  ∃ g' out acts, gw_on_events g evs = Some (g', out) ∧ gw_engine g' = e
    ∧ wrun w acts = with_reports w (gw_srv g') out rs.
Proof.
  assert (∀ w, wrun w [] = with_reports w (w_server w) [] []) as Hnil.
  { intros w. unfold wrun, with_reports. cbn. rewrite !app_nil_r. by destruct w. }
  induction evs as [|ev evs IH]; intros g w rs e Hs Ha.
  - injection Ha as <- <-. exists g, [], []. split_and!; [done|done|]. rewrite <- Hs. apply Hnil.
  - destruct ev as [seq p| | | | |]; try exact (IH g w rs e Hs Ha).
    unfold payloads in Ha. cbn [omap list_omap answers] in Ha. fold (payloads evs) in Ha.
    destruct (answer (gw_engine g) p) as [[rs1 e1]|] eqn:E1; [|done]. cbn [mbind option_bind] in Ha.
    destruct (gw_on_order_run g w seq p rs1 e1 Hs E1) as (g1 & out1 & acts1 & Hg1 & He1 & Hw1).
    destruct (answers e1 (payloads evs)) as [[rs2 e2]|] eqn:E2; [|done]. injection Ha as <- <-. rewrite <- He1 in E2.
    destruct (IH g1 (wrun w acts1) rs2 e2) as (g2 & out2 & acts2 & Hg2 & He2 & Hw2); [by rewrite Hw1|done|].
    exists g2, (out1 ++ out2), (acts1 ++ acts2). cbn [gw_on_events]. rewrite Hg1. cbn [mbind option_bind]. rewrite Hg2.
    split_and!; [done|done|]. rewrite wrun_app, Hw2, Hw1. unfold with_reports. cbn. by rewrite <- !app_assoc.
Qed.

(** ** Client, gateway and network *)

Record gworld := mkG {
  g_client : ClientSession; g_gw : Gateway; g_c2s : list (list Z); g_s2c : list (list Z); g_cevents : list ClientEvent }.

Definition gworld_init (orders_target : nat) : gworld := mkG udp_client_new (gateway_new orders_target) [] [] [].

(** The client sends an order, resends, asks for the reports from the one it waits
    for, says hello; a datagram ever sent reaches the other side. *)
Inductive gaction :=
| GSend (now : Z) (payload : list Z)
| GRetransmit (now timeout : Z)
| GNak
| GHello (client_id last : Z)
| GToServer (i : nat)
| GToClient (i : nat).

Definition g_sends (x : gworld) (c : ClientSession) (out : list (list Z)) : gworld :=
  mkG c (g_gw x) (g_c2s x ++ out) (g_s2c x) (g_cevents x).

Definition gstep (x : gworld) (a : gaction) : option gworld :=
  match a with
  | GSend now p => let '(c, d) := send_order (g_client x) now p in Some (g_sends x c [d])
  | GRetransmit now timeout => let '(c, out) := retransmit_due (g_client x) now timeout in Some (g_sends x c out)
  | GNak => Some (g_sends x (g_client x) [nak_request (expected_report_seq (g_client x)) 512])
  | GHello client_id last => Some (g_sends x (g_client x) [send_hello client_id last])
  | GToServer i =>
      match g_c2s x !! i with
      | None => Some x
      | Some d => '(g, out) ← gw_on_datagram (g_gw x) d;
                  Some (mkG (g_client x) g (g_c2s x) (g_s2c x ++ out) (g_cevents x))
      end
  | GToClient i =>
      match g_s2c x !! i with
      | None => Some x
      | Some d => let '(c, evs, out) := client_on_datagram (g_client x) d in
                  Some (mkG c (g_gw x) (g_c2s x ++ out) (g_s2c x) (g_cevents x ++ evs))
      end
  end.

Fixpoint grun (x : gworld) (acts : list gaction) : option gworld :=
  match acts with [] => Some x | a :: acts => x ← gstep x a; grun x acts end.

Definition sent_by (a : gaction) : option (list Z) := match a with GSend _ p => Some p | _ => None end.
Definition sent (acts : list gaction) : list (list Z) := omap sent_by acts.

(** Fewer orders and reports than there are 32-bit numbers; reports that fit the
    16-bit length of a retransmitted entry. *)
Definition fits ps : Prop :=
  Z.of_nat (length ps) < 2 ^ 32 - 1
  ∧ ∀ rs e, answers engine_new ps = Some (rs, e) → Z.of_nat (length rs) < 2 ^ 32 - 2 ∧ Forall small rs.

(** The worlds of [UdpOrderProps] whose application is the gateway. *)
Record gsim (ps : list (list Z)) (x : gworld) (w : world) : Prop := {
  gs_world : w = mkWorld (g_client x) (gw_srv (g_gw x)) (g_c2s x) (g_s2c x) ps (w_reports w) (w_sevents w) (g_cevents x);
  gs_bounded : bounded w;
  gs_inv : winv w;
  gs_answers : answers engine_new (payloads (w_sevents w)) = Some (w_reports w, gw_engine (g_gw x)) }.

Lemma payloads_orders evs : payloads evs = payloads (orders_of evs).
Proof.
  unfold payloads, orders_of. induction evs as [|ev evs IH]; [done|]. rewrite filter_cons. destruct ev; cbn; by rewrite IH.
Qed.

Lemma payloads_number k ps : payloads (uncurry SvOrder <$> number k ps) = ps.
Proof. unfold payloads. revert k; induction ps as [|p ps IH]; intros k; [done|]. cbn. f_equal. apply IH. Qed.

Lemma orders_inv_payloads w : orders_inv w → ∃ n, (n ≤ length (w_orders w))%nat ∧ payloads (w_sevents w) = take n (w_orders w).
Proof.
  intros [_ _ He Hev]. eexists. rewrite payloads_orders, Hev, payloads_number. split; [|reflexivity]. lia.
Qed.

(** The reports of a prefix of the orders are a prefix of the reports. *)
Lemma fits_prefix ps ps' : Forall answerable (ps ++ ps') → fits (ps ++ ps') → fits ps.
Proof.
  intros Hp [Hl Hr]. rewrite length_app in Hl. split; [lia|]. intros rs e Ha.
  destruct (answers_total engine_new (ps ++ ps')) as (all & e' & Hall & _); [apply engine_new_ok|done|].
  specialize (Hr all e' Hall) as [Hlen Hsm]. rewrite answers_app, Ha in Hall. cbn [mbind option_bind] in Hall.
  destruct (answers e ps') as [[rs' e1]|]; [|done]. injection Hall as <- <-.
  rewrite length_app in Hlen. apply Forall_app in Hsm as [? _]. split; [lia|done].
Qed.

Lemma fits_bounded w n e :
  Forall answerable (w_orders w) → fits (w_orders w) →
  answers engine_new (take n (w_orders w)) = Some (w_reports w, e) → bounded w.
Proof.
  intros Hp Hf Ha. pose proof Hf as [Hl _]. split; [done|].
  rewrite <- (take_drop n (w_orders w)) in Hp, Hf. by destruct (fits_prefix _ _ Hp Hf) as [_ Hr]; specialize (Hr _ _ Ha).
Qed.

(** A step of the client is the same step of the world. *)
Lemma gsim_client ps ps' x w x' a :
  fits ps' → gsim ps x w →
  (∀ w', w' = wstep w a → bounded w → w' = mkWorld (g_client x') (gw_srv (g_gw x')) (g_c2s x') (g_s2c x') ps' (w_reports w)
    (w_sevents w) (g_cevents x')) →
  g_gw x' = g_gw x → ∃ w', gsim ps' x' w'.
Proof.
  intros [Hl _] [Hw Hb Hi Ha] Hstep Hg. specialize (Hstep _ eq_refl Hb) as Hs.
  assert (bounded (wstep w a)) as Hb'. { rewrite Hs. destruct Hb as (_ & ? & ?). split_and!; done. }
  exists (wstep w a). split; [rewrite Hs; done|done|by apply winv_step|]. rewrite Hs. cbn. by rewrite Hg.
Qed.

Lemma gsim_to_server ps x w d i :
  Forall answerable ps → fits ps → gsim ps x w → g_c2s x !! i = Some d →
  ∃ g out w', gw_on_datagram (g_gw x) d = Some (g, out)
    ∧ gsim ps (mkG (g_client x) g (g_c2s x) (g_s2c x ++ out) (g_cevents x)) w'.
Proof.
  intros Hp Hf [Hw Hb Hi Ha] Hd. unfold gw_on_datagram.
  assert (w_c2s w !! i = Some d) as Hd' by (by rewrite Hw).
  assert (w_server w = gw_srv (g_gw x)) as Hsv by (by rewrite Hw).
  assert (w_orders w = ps) as Hor by (by rewrite Hw).
  destruct (server_on_datagram (gw_srv (g_gw x)) d) as [[s evs] out] eqn:Es.
  set (w1 := wstep w (AToServer i)).
  assert (w1 = mkWorld (w_client w) s (w_c2s w) (w_s2c w ++ out) (w_orders w) (w_reports w) (w_sevents w ++ evs)
    (w_cevents w)) as Hst. { subst w1. cbn [wstep]. by rewrite Hd', Hsv, Es. }
  assert (bounded w1) as Hb1. { rewrite Hst. exact Hb. }
  pose proof (winv_step w (AToServer i) Hb1 Hi) as Hi1. fold w1 in Hi1.
  destruct (orders_inv_payloads w1 (wi_orders _ Hi1)) as (n & Hn & Hpl).
  rewrite Hst in Hpl, Hn. cbn [w_sevents w_orders] in Hpl. rewrite Hor in Hpl.
  assert (payloads (w_sevents w ++ evs) = payloads (w_sevents w) ++ payloads evs) as Happ by apply omap_app.
  destruct (answers_total engine_new (take n ps)) as (rs & e & Hall & _); [apply engine_new_ok|by apply Forall_take|].
  rewrite <- Hpl, Happ, answers_app, Ha in Hall. cbn [mbind option_bind] in Hall.
  destruct (answers (gw_engine (g_gw x)) (payloads evs)) as [[rs' e']|] eqn:Ev; [|done]. injection Hall as <- <-.
  set (g1 := mkGateway s _ _ _ _).
  destruct (gw_on_events_run evs g1 w1 rs' e') as (g' & out' & acts & Hg & He & Hr); [by rewrite Hst|done|].
  rewrite Hg. cbn [mbind option_bind]. eexists _, _, (wrun w1 acts). split; [done|].
  assert (answers engine_new (take n ps) = Some (w_reports w ++ rs', e')) as Hfin.
  { rewrite <- Hpl, Happ, answers_app, Ha. cbn [mbind option_bind]. by rewrite Ev. }
  assert (bounded (wrun w1 acts)) as Hb2.
  { apply (fits_bounded _ n e'); rewrite Hr, Hst; cbn; rewrite Hor; done. }
  split; [|done|by apply winv_run|].
  - rewrite Hr, Hst. unfold with_reports. cbn. rewrite Hw. cbn. by rewrite <- !app_assoc.
  - rewrite Hr, Hst. unfold with_reports. cbn [w_sevents w_reports g_gw]. by rewrite Hpl, He.
Qed.

Lemma gsim_step ps x w a :
  let ps' := ps ++ option_list (sent_by a) in
  Forall answerable ps' → fits ps' → gsim ps x w → ∃ x' w', gstep x a = Some x' ∧ gsim ps' x' w'.
Proof.
  cbn zeta. intros Hp Hf Hsim. pose proof (gs_world _ _ _ Hsim) as Hw.
  assert (∀ x', gstep x a = Some x' → (∃ w', gsim (ps ++ option_list (sent_by a)) x' w') →
    ∃ x' w', gstep x a = Some x' ∧ gsim (ps ++ option_list (sent_by a)) x' w') as Hok.
  { intros x' Hx [w' Hw']. by exists x', w'. }
  destruct a as [now p|now t| |k l|i|i]; cbn [sent_by option_list gstep] in *; rewrite ?app_nil_r in *.
  - destruct (send_order (g_client x) now p) as [c d] eqn:E. eapply Hok; [done|].
    apply (gsim_client ps (ps ++ [p]) x w _ (ASend now p)); [done..| |done]. intros w' -> _. cbn [wstep].
    rewrite Hw. cbn [w_client w_server w_c2s w_s2c w_orders w_reports w_sevents w_cevents]. by rewrite E.
  - destruct (retransmit_due (g_client x) now t) as [c out] eqn:E. eapply Hok; [done|].
    apply (gsim_client ps ps x w _ (ARetransmit now t)); [done..| |done]. intros w' -> _. cbn [wstep].
    rewrite Hw. cbn [w_client w_server w_c2s w_s2c w_orders w_reports w_sevents w_cevents]. by rewrite E.
  - eapply Hok; [done|]. apply (gsim_client ps ps x w _ (ANak (expected_report_seq (g_client x)) 512)); [done..| |done].
    intros w' -> _. cbn [wstep]. destruct (ri_expected _ _ _ _ (wi_reports _ (gs_inv _ _ _ Hsim))) as [He _].
    rewrite Hw in He |- *. cbn in He |- *. rewrite decide_True by (split; [lia|done]). done.
  - eapply Hok; [done|]. apply (gsim_client ps ps x w _ (AHello k l)); [done..| |done]. intros w' -> _. cbn [wstep].
    by rewrite Hw.
  - destruct (g_c2s x !! i) as [d|] eqn:E; [|by exists x, w].
    destruct (gsim_to_server ps x w d i) as (g & out & w' & -> & Hs); [done..|]. by eexists _, _.
  - destruct (g_s2c x !! i) as [d|] eqn:E; [|by exists x, w].
    destruct (client_on_datagram (g_client x) d) as [[c evs] out] eqn:Ec. eapply Hok; [done|].
    apply (gsim_client ps ps x w _ (AToClient i)); [done..| |done]. intros w' -> _. cbn [wstep].
    rewrite Hw. cbn [w_client w_server w_c2s w_s2c w_orders w_reports w_sevents w_cevents]. by rewrite E, Ec.
Qed.

Lemma gsim_run acts : ∀ ps x w,
  Forall answerable (ps ++ sent acts) → fits (ps ++ sent acts) → gsim ps x w →
  ∃ x' w', grun x acts = Some x' ∧ gsim (ps ++ sent acts) x' w'.
Proof.
  induction acts as [|a acts IH]; intros ps x w Hp Hf Hs.
  - unfold sent. cbn. rewrite app_nil_r. by exists x, w.
  - assert (ps ++ sent (a :: acts) = (ps ++ option_list (sent_by a)) ++ sent acts) as Heq.
    { rewrite <- app_assoc. f_equal. unfold sent. cbn. by destruct (sent_by a). }
    rewrite Heq in *. destruct (gsim_step ps x w a) as (x1 & w1 & H1 & Hs1).
    + by apply Forall_app in Hp as [? _].
    + by eapply fits_prefix.
    + done.
    + destruct (IH _ x1 w1 Hp Hf Hs1) as (x' & w' & H2 & Hs2). exists x', w'. split; [|done].
      cbn [grun]. rewrite H1. exact H2.
Qed.

Lemma gsim_init target : ∃ w, gsim [] (gworld_init target) w.
Proof.
  eexists (world_init _). split; [reflexivity| |apply winv_init|reflexivity].
  unfold bounded. cbn. split_and!; [done|done|constructor].
Qed.

(** C27.  From a UDP order to the engine and back.  The client sends any texts, as
    long as the decimals of those that are orders convert.  However the network
    loses, repeats and reorders datagrams, the gateway does not panic; its engine
    is sound and has run a prefix of the orders sent, in order and each once; the
    reports the client hands out have increasing numbers, and report [k] is the
    [k]-th report of that run; a number passed without a report had left the
    gateway's window. *)
Theorem gateway_end_to_end target acts :
  Forall answerable (sent acts) → fits (sent acts) →
  ∃ x n reports,
    grun (gworld_init target) acts = Some x
    ∧ (n ≤ length (sent acts))%nat
    ∧ answers engine_new (take n (sent acts)) = Some (reports, gw_engine (g_gw x))
    ∧ engine_ok (gw_engine (g_gw x))
    ∧ StronglySorted Z.lt (reports_of (g_cevents x)).*1
    ∧ (∀ k p, (k, p) ∈ reports_of (g_cevents x) → nth_is reports k p)
    ∧ (∀ k, 1 <= k < expected_report_seq (g_client x) →
       k ∈ (reports_of (g_cevents x)).*1 ∨ k < store_start (gw_srv (g_gw x))).
Proof.
  intros Hp Hf. destruct (gsim_init target) as [w0 H0].
  destruct (gsim_run acts [] (gworld_init target) w0 Hp Hf H0) as (x & w & Hx & [Hw _ Hi Ha]).
  destruct (orders_inv_payloads w (wi_orders _ Hi)) as (n & Hn & Hpl). destruct (wi_reports _ Hi) as [R1 R2 R3 R4].
  rewrite Hpl in Ha. rewrite Hw in Hn, Ha, R2, R3, R4. cbn in Hn, Ha, R2, R3, R4.
  exists x, n, (w_reports w). split_and!; [done|done|done| |done| |].
  - destruct (answers_total engine_new (take n (sent acts))) as (rs & e & Hr & He);
      [apply engine_new_ok|by apply Forall_take|]. rewrite Hr in Ha. by injection Ha as -> ->.
  - intros k p Hk. by apply R3.
  - intros k Hk. destruct (decide (k ∈ (reports_of (g_cevents x)).*1)); [by left|right]. by apply R4.
Qed.

(** ** Order texts *)

Lemma split_on_app c s t :
  Forall (λ a, a ≠ c) (String.list_ascii_of_string s) → split_on c (s +:+ String c t) = s :: split_on c t.
Proof.
  induction s as [|a s IH]; cbn [String.list_ascii_of_string]; intros Hs.
  - cbv [String.append]. cbn [split_on]. by rewrite Ascii.eqb_refl.
  - apply Forall_cons in Hs as [Ha Hs]. change (String a s +:+ String c t) with (String a (s +:+ String c t)).
    cbn [split_on]. rewrite (proj2 (Ascii.eqb_neq a c) Ha), (IH Hs). done.
Qed.

Lemma split_on_plain c s : Forall (λ a, a ≠ c) (String.list_ascii_of_string s) → split_on c s = [s].
Proof.
  induction s as [|a s IH]; cbn; [done|]. intros [Ha Hs]%Forall_cons.
  by rewrite (proj2 (Ascii.eqb_neq a c) Ha), (IH Hs).
Qed.

Lemma utf8_valid_ascii l : Forall (λ c, 0 <= c < 128) l → ∀ fuel, (length l ≤ fuel)%nat → utf8_valid fuel l = true.
Proof.
  induction 1 as [|b l Hb _ IH]; intros fuel Hl; [by destruct fuel|]. destruct fuel as [|fuel]; [cbn in Hl; lia|].
  cbn [utf8_valid]. unfold utf8_step. rewrite (proj2 (Z.ltb_lt b 128)) by lia. cbn. apply IH. cbn in Hl. lia.
Qed.

Lemma string_of_bytes_of s : string_of_bytes (bytes_of s) = s.
Proof.
  unfold string_of_bytes, bytes_of. rewrite <- list_fmap_compose. induction s as [|a s IH]; [done|].
  cbn [String.list_ascii_of_string fmap list_fmap String.string_of_list_ascii compose]. rewrite N2Z.id, ascii_N_embedding.
  f_equal. exact IH.
Qed.

Definition ascii_text (s : string) : Prop := Forall (λ a, Z.of_N (N_of_ascii a) < 128) (String.list_ascii_of_string s).
Definition field (s : string) : Prop := Forall (λ a, a ≠ bar) (String.list_ascii_of_string s).

Lemma from_utf8_ascii s : ascii_text s → from_utf8 (bytes_of s) = Some s.
Proof.
  intros Hs. unfold from_utf8. rewrite utf8_valid_ascii; [by rewrite string_of_bytes_of| |done].
  unfold bytes_of. apply Forall_fmap. eapply Forall_impl; [exact Hs|]. cbn. lia.
Qed.

(** An order text is read field by field. *)
Lemma parse_order_text side symbol price qty no :
  let s := (side +:+ "|" +:+ symbol +:+ "|" +:+ price +:+ "|" +:+ qty +:+ "|" +:+ no)%string in
  ascii_text s → field side → field symbol → field price → field qty → field no →
  parse_order (bytes_of s)
  = (if String.eqb side "B" then Some (mq_limit ORDER_TYPE_BUY symbol no price qty, no)
     else if String.eqb side "S" then Some (mq_limit ORDER_TYPE_SELL symbol no price qty, no) else None).
Proof.
  cbn zeta. intros Ha H1 H2 H3 H4 H5. unfold parse_order. rewrite from_utf8_ascii by done. cbn [mbind option_bind].
  assert (∀ t, "|" +:+ t = String bar t) as Hbar by done. rewrite !Hbar.
  do 4 (rewrite split_on_app by done). by rewrite split_on_plain.
Qed.

Lemma client_no_text i : Z.of_nat i < 2 ^ 64 → ascii_text (client_no i) ∧ field (client_no i).
Proof.
  intros Hi. destruct (u64_to_string_spec (Z.of_nat i) ltac:(lia)) as (Hd & _).
  assert (all_digits (zero_padded 6 (Z.of_nat i))) as Hz.
  { unfold zero_padded. apply Forall_app. split; [apply all_digits_zeros|exact Hd]. }
  unfold ascii_text, field, client_no. change ("o" +:+ ?t) with (String "o" t). cbn [String.list_ascii_of_string].
  rewrite String.list_ascii_of_string_of_list_ascii. split; (constructor; [done|]); eapply Forall_impl; [exact Hz| |exact Hz|];
    intros a; unfold is_ascii_digit, code; intros Ha.
  - lia.
  - intros ->. vm_compute in Ha. done.
Qed.

(** The demonstration client sends orders the gateway reads. *)
Lemma client_payload_parses i :
  Z.of_nat i < 2 ^ 64 →
  parse_order (client_payload i)
  = Some (mq_limit (if Nat.even i then ORDER_TYPE_BUY else ORDER_TYPE_SELL) "btcusdt" (client_no i)
            (if Nat.even i then "100.00" else "99.99") "1", client_no i).
Proof.
  intros Hi. destruct (client_no_text i Hi) as [Ha Hf].
  unfold client_payload. set (no := client_no i) in *. clearbody no. destruct (Nat.even i).
  - apply (parse_order_text "B" "btcusdt" "100.00" "1" no); [|repeat constructor; done..|done]. repeat (constructor; [done|]). exact Ha.
  - apply (parse_order_text "S" "btcusdt" "99.99" "1" no); [|repeat constructor; done..|done]. repeat (constructor; [done|]). exact Ha.
Qed.

(** An order whose decimals do not convert stops the gateway: the session has
    taken the order, and the conversion's result is unwrapped. *)
Lemma gateway_panics_on_bad_decimal g p mq no :
  1 <= expected_client_seq (gw_srv g) < 2 ^ 32 → parse_order p = Some (mq, no) → type_convert_spot mq = None →
  gw_on_datagram g (encode SESSION_MAGIC (expected_client_seq (gw_srv g)) ORDER p) = None.
Proof.
  intros He Hp Hc. unfold gw_on_datagram, server_on_datagram. rewrite frame_decode_encode.
  cbn [h_mtype]. unfold UdpOrder.on_order. cbn [h_seq h_mtype].
  rewrite u32_wrap_id by (unfold in_u32; lia). rewrite (Z.eqb_refl (expected_client_seq _)). cbn.
  unfold gw_on_order. by rewrite Hp, Hc.
Qed.

(** ** The serving loop *)

Lemma gw_batch_app g b1 b2 :
  gw_batch g (b1 ++ b2) = '(g, o1) ← gw_batch g b1; '(g, o2) ← gw_batch g b2; Some (g, o1 ++ o2).
Proof.
  revert g; induction b1 as [|d b1 IH]; intros g; cbn [gw_batch app mbind option_bind].
  - by destruct (gw_batch g b2) as [[? ?]|].
  - destruct (gw_on_datagram g d) as [[g1 o1]|]; [|done]. cbn [mbind option_bind]. rewrite IH.
    destruct (gw_batch g1 b1) as [[g2 o2]|]; [|done]. cbn [mbind option_bind].
    destruct (gw_batch g2 b2) as [[g3 o3]|]; [|done]. cbn [mbind option_bind]. by rewrite app_assoc.
Qed.

(** Once the closing time is set the server answers until the first test behind it. *)
Lemma server_main_closing target turns : ∀ g t r out,
  server_main target g (Some t) turns = Some (r, out) →
  ∃ served g', gw_batch g (concat (t_batch <$> served)) = Some (g', out)
    ∧ ((r = Running g' (Some t) ∧ served = turns)
       ∨ r = Closed (gw_fills g') ∧ ∃ u post, turns = served ++ u :: post ∧ t <= t_test u).
Proof.
  induction turns as [|u turns IH]; intros g t r out; cbn [server_main].
  - intros [= <- <-]. exists [], g. split; [done|]. by left.
  - unfold open_at. destruct (Z.ltb_spec (t_test u) t).
    + destruct (gw_batch g (t_batch u)) as [[g1 o1]|] eqn:E1; [|done]. cbn [mbind option_bind].
      rewrite (bool_decide_eq_false_2 (Some t = None)), andb_false_r by done.
      destruct (server_main target g1 (Some t) turns) as [[r' o2]|] eqn:E2; [|done]. intros [= <- <-].
      destruct (IH _ _ _ _ E2) as (sv & g' & Hb & Hc). exists (u :: sv), g'. split.
      * cbn [fmap list_fmap concat]. rewrite gw_batch_app, E1. cbn [mbind option_bind]. by rewrite Hb.
      * destruct Hc as [[-> ->]|[-> (u' & post & -> & ?)]]; [by left|]. right. split; [done|]. by exists u', post.
    + intros [= <- <-]. exists [], g. split; [done|]. right. split; [done|]. by exists u, turns.
Qed.

(** The server closes only after it has processed its target and fifteen seconds
    more have passed, and it returns the fills of everything it was sent before. *)
Lemma server_serves_target target turns : ∀ g fills out,
  server_main target g None turns = Some (Closed fills, out) →
  (0 < target)%nat ∧ ∃ before last after u post g1 o1 g2,
    turns = before ++ last :: after ++ u :: post
    ∧ gw_batch g (concat (t_batch <$> before ++ [last])) = Some (g1, o1) ∧ Z.of_nat target <= gw_processed g1
    ∧ t_after last + CLOSING <= t_test u
    ∧ gw_batch g (concat (t_batch <$> before ++ last :: after)) = Some (g2, out) ∧ fills = gw_fills g2.
Proof.
  induction turns as [|u turns IH]; intros g fills out; cbn [server_main]; [done|]. cbn [open_at].
  destruct (gw_batch g (t_batch u)) as [[g1 o1]|] eqn:E1; [|done]. cbn [mbind option_bind].
  rewrite (bool_decide_eq_true_2 (None = None)), andb_true_r by done.
  destruct (_ && _) eqn:Et.
  - apply andb_true_iff in Et as [Ht%Nat.ltb_lt Hpr%Z.leb_le].
    destruct (server_main target g1 (Some _) turns) as [[r' o2]|] eqn:E2; [|done]. intros [= -> <-].
    destruct (server_main_closing _ _ _ _ _ _ E2) as (sv & g2 & Hb & [[? _]|[Hf (v & post & -> & Hv)]]); [done|].
    split; [done|]. exists [], u, sv, v, post, g1, o1, g2. injection Hf as ->.
    split_and!; try done; cbn [app fmap list_fmap concat]; [by rewrite app_nil_r|].
    rewrite gw_batch_app, E1. cbn [mbind option_bind]. by rewrite Hb.
  - destruct (server_main target g1 None turns) as [[r' o2]|] eqn:E2; [|done]. intros [= -> <-].
    destruct (IH _ _ _ E2) as (Ht & bf & last & af & v & post & g2 & o3 & g3 & -> & Hb & Hp & Hc & Hb2 & ->).
    split; [done|]. exists (u :: bf), last, af, v, post, g2, (o1 ++ o3), g3.
    split_and!; try done; cbn [app fmap list_fmap concat]; rewrite gw_batch_app, E1; cbn [mbind option_bind];
      [by rewrite Hb|by rewrite Hb2].
Qed.

End GatewayProps.

Module Witness.
Import SciDecimal.

Definition text1 : list Z := bytes_of "B|btcusdt|100|1|o1".
Definition text2 : list Z := bytes_of "S|btcusdt|99|1|o2".

(** Two orders and a text that is none; the second order overtakes the first on
    the wire and comes again; the reports arrive in the wrong order. *)
Definition acts : list gaction :=
  [GSend 0 text1; GSend 0 text2; GSend 0 [88]; GToServer 1; GToServer 0; GToServer 0; GToServer 1; GToServer 2;
   GToClient 8; GToServer 3; GToClient 4; GToClient 8].

Definition fits_b (ps : list (list Z)) : bool :=
  (Z.of_nat (length ps) <? 2 ^ 32 - 1)
  && match answers engine_new ps with
     | Some (rs, _) => (Z.of_nat (length rs) <? 2 ^ 32 - 2) && forallb (λ p, Z.of_nat (length p) <? 2 ^ 16) rs
     | None => true
     end.

Lemma fits_b_true ps : fits_b ps = true → fits ps.
Proof.
  unfold fits_b. intros [Hl%Z.ltb_lt Hm]%andb_true_iff. split; [done|]. intros rs e Ha. rewrite Ha in Hm.
  apply andb_true_iff in Hm as [Hr%Z.ltb_lt Hf]. split; [done|]. apply Forall_forall. intros p Hp.
  rewrite forallb_forall in Hf. apply Z.ltb_lt, Hf, list_elem_of_In, Hp.
Qed.

Definition answerable_b (p : list Z) : bool :=
  match parse_order p with
  | Some (mq, _) => match type_convert_spot mq with Some _ => true | None => false end
  | None => true
  end.

Lemma answerable_b_true ps : forallb answerable_b ps = true → Forall answerable ps.
Proof.
  intros Hf. apply Forall_forall. intros p Hp. rewrite forallb_forall in Hf.
  specialize (Hf p (proj1 (list_elem_of_In _ _) Hp)). revert Hf. unfold answerable_b, answerable.
  destruct (parse_order p) as [[mq ?]|]; [|done]. by destruct (type_convert_spot mq).
Qed.

Lemma gateway_end_to_end_witness :
  ∃ x n reports, grun (gworld_init 3) acts = Some x ∧ (n ≤ 3)%nat
    ∧ answers engine_new (take n [text1; text2; [88]]) = Some (reports, gw_engine (g_gw x))
    ∧ ∀ k p, (k, p) ∈ reports_of (g_cevents x) → nth_is reports k p.
Proof.
  destruct (gateway_end_to_end 3 acts) as (x & n & reports & H1 & H2 & H3 & _ & _ & H6 & _).
  - apply answerable_b_true. vm_compute. reflexivity.
  - apply fits_b_true. vm_compute. reflexivity.
  - exists x, n, reports. split; [exact H1|]. split; [exact H2|]. split; [exact H3|exact H6].
Defined.

(** Both reports arrive; that of the resting order has no type byte in front.  The
    decimals are printed as the instance prints them. *)
Example reports_delivered :
  (λ x, reports_of (g_cevents x)) <$> grun (gworld_init 3) acts
  = Some [(1, bytes_of "A|o1|btcusdt"); (2, REPORT_EXECUTED :: bytes_of "E|o2|o1|100E-0|1E-0")].
Proof. vm_compute. reflexivity. Qed.

(** A price that is no decimal stops the gateway. *)
Example bad_price_panics :
  match grun (gworld_init 1) [GSend 0 (bytes_of "B|btcusdt|x|1|o1"); GToServer 0] with None => true | Some _ => false end
  = true.
Proof. vm_compute. reflexivity. Qed.

End Witness.
