(* ===== verification/Soup.v ===== *)
(** * match-soupbintcp: the session layer over TCP

    Models [crates/match-soupbintcp/src/packet.rs] (framing, login packets, the
    padded ASCII fields) and [session.rs] (the server with its bounded message
    store, the client).  A string is its UTF-8 bytes, a [BTreeMap] the list of its
    entries in key order; a fallible method returns [SessionError + Actions]. *)
From S2P Require Import Prelude HpIndex Utf8.

#[local] Open Scope Z_scope.

(** ** Packets ([packet.rs]) *)

Definition LOGIN_REQUEST : Z := 76.
Definition LOGIN_ACCEPTED : Z := 65.
Definition LOGIN_REJECTED : Z := 74.
Definition SEQUENCED_DATA : Z := 83.
Definition SERVER_HEARTBEAT : Z := 72.
Definition END_OF_SESSION : Z := 90.
Definition UNSEQUENCED_DATA : Z := 85.
Definition CLIENT_HEARTBEAT : Z := 82.
Definition LOGOUT_REQUEST : Z := 79.
Definition DEBUG : Z := 43.

Definition REJECT_NOT_AUTHORIZED : Z := 65.
Definition REJECT_SESSION_UNAVAILABLE : Z := 83.

Definition USERNAME_LEN : nat := 6.
Definition PASSWORD_LEN : nat := 10.
Definition SESSION_LEN : nat := 10.
Definition SEQUENCE_LEN : nat := 20.

Record Packet := mkPacket { packet_type : Z; payload : list Z }.

(** [1u16.saturating_add(self.payload.len() as u16)] in front. *)
Definition to_bytes (p : Packet) : list Z :=
  let len := Z.min (1 + u16_wrap (Z.of_nat (length (payload p)))) (2 ^ 16 - 1) in
  be_bytes 2 len ++ [packet_type p] ++ payload p.

Definition is_login_request (p : Packet) : bool := packet_type p =? LOGIN_REQUEST.
Definition is_heartbeat (p : Packet) : bool :=
  (packet_type p =? CLIENT_HEARTBEAT) || (packet_type p =? SERVER_HEARTBEAT).

Record LoginRequest := mkLoginRequest {
  username : list Z; password : list Z; requested_session : list Z; requested_sequence : Z }.

Record LoginAccepted := mkLoginAccepted { la_session : list Z; la_sequence : Z }.

Definition ascii_field (p : list Z) (off len : nat) : list Z :=
  if (length p <? off + len)%nat then []
  else str_trim (from_utf8_lossy (slice off (off + len) p)).

Definition sequence_field (p : list Z) (off : nat) : Z :=
  default 0 (parse_u64 (str_trim (ascii_field p off SEQUENCE_LEN))).

Definition parse_login_request (pkt : Packet) : LoginRequest :=
  let p := payload pkt in
  mkLoginRequest (ascii_field p 0 USERNAME_LEN) (ascii_field p USERNAME_LEN PASSWORD_LEN)
    (ascii_field p (USERNAME_LEN + PASSWORD_LEN) SESSION_LEN)
    (sequence_field p (USERNAME_LEN + PASSWORD_LEN + SESSION_LEN)).

Definition parse_login_accepted (pkt : Packet) : LoginAccepted :=
  let p := payload pkt in mkLoginAccepted (ascii_field p 0 SESSION_LEN) (sequence_field p SESSION_LEN).

Definition parse_login_rejected (pkt : Packet) : Z := default 0 (head (payload pkt)).

Definition pad_left (s : list Z) (len : nat) : list Z :=
  let n := Nat.min (length s) len in take n s ++ replicate (len - n) SPACE.

Definition pad_right (s : list Z) (len : nat) : list Z :=
  let n := Nat.min (length s) len in replicate (len - n) SPACE ++ take n s.

Definition pad_number_right (n : Z) (len : nat) : list Z := pad_right (u64_text n) len.

Definition login_request (user pass session : list Z) (seq : Z) : Packet :=
  mkPacket LOGIN_REQUEST
    (pad_left user USERNAME_LEN ++ pad_left pass PASSWORD_LEN ++ pad_right session SESSION_LEN
     ++ pad_number_right seq SEQUENCE_LEN).

Definition login_accepted (session : list Z) (seq : Z) : Packet :=
  mkPacket LOGIN_ACCEPTED (pad_right session SESSION_LEN ++ pad_number_right seq SEQUENCE_LEN).

Definition login_rejected (reason : Z) : Packet := mkPacket LOGIN_REJECTED [reason].
Definition heartbeat (kind : Z) : Packet := mkPacket kind [].
Definition end_of_session : Packet := mkPacket END_OF_SESSION [].
Definition logout_request : Packet := mkPacket LOGOUT_REQUEST [].

(** The loop of [parse_stream] on [buf[off..]]: the packets and the bytes
    consumed.  A round consumes at least three bytes. *)
Fixpoint parse_loop (fuel : nat) (rest : list Z) : list Packet * nat :=
  match fuel with
  | O => ([], O)
  | S fuel =>
      if (length rest <? 3)%nat then ([], O)
      else
        let len := Z.to_nat (be_val (slice 0 2 rest)) in
        if (len <? 1)%nat then ([], O)
        else
          let total := (2 + len)%nat in
          if (length rest <? total)%nat then ([], O)
          else
            match rest !! 2%nat with
            | None => ([], O)
            | Some t =>
                let pkt := mkPacket t (slice 3 total rest) in
                let '(out, off) := parse_loop fuel (drop total rest) in
                (pkt :: out, total + off)%nat
            end
  end.

Definition parse_stream (buf : list Z) : list Packet * nat * bool :=
  let '(out, off) := parse_loop (length buf) buf in (out, off, (off <? length buf)%nat).

(** ** Sessions ([session.rs]) *)

Inductive SessionError :=
| NotLoggedIn
| AlreadyLoggedIn
| LoginRejected (reason : Z)
| SequenceGap (expected got : Z)
| UnexpectedPacket (type : Z)
| SessionTooLong.

Record Actions := mkActions { outbound : list Packet; close : bool; heartbeat_deadline : option Z }.

Definition no_actions : Actions := mkActions [] false None.

Record SoupServer := mkSoupServer {
  sv_session_id : list Z; sv_next_seq : Z; sv_store : list (Z * list Z); sv_store_capacity : nat;
  sv_logged_in : bool }.

Definition soup_server_new (session_id : list Z) (capacity : nat) : SessionError + SoupServer :=
  if (SESSION_LEN <? length session_id)%nat then inl SessionTooLong
  else inr (mkSoupServer session_id 1 [] capacity false).

Definition enqueue (s : SoupServer) (msg : list Z) : SoupServer * Z :=
  let seq := sv_next_seq s in
  let store :=
    if (sv_store_capacity s <=? length (sv_store s))%nat then
      match sv_store s with
      | (oldest, _) :: _ => (bt_remove Z.compare (sv_store s) oldest).2
      | [] => sv_store s
      end
    else sv_store s in
  (mkSoupServer (sv_session_id s) (u64_wrap (seq + 1)) (bt_insert Z.compare store seq msg)
     (sv_store_capacity s) (sv_logged_in s), seq).

Definition set_logged_in (s : SoupServer) : SoupServer :=
  mkSoupServer (sv_session_id s) (sv_next_seq s) (sv_store s) (sv_store_capacity s) true.

Definition sequenced_packet (msg : list Z) : Packet := mkPacket SEQUENCED_DATA msg.

Definition store_first (s : SoupServer) : Z :=
  match sv_store s with (k, _) :: _ => k | [] => sv_next_seq s end.

Definition handle_login (s : SoupServer) (req : LoginRequest) : SoupServer * (SessionError + Actions) :=
  if negb (bool_decide (requested_session req = [])) && negb (bool_decide (requested_session req = sv_session_id s))
  then (s, inr (mkActions [login_rejected REJECT_SESSION_UNAVAILABLE] true None))
  else
    let start :=
      if (requested_sequence req =? 0) || (sv_next_seq s <? requested_sequence req)
      then sv_next_seq s else requested_sequence req in
    let start := Z.max start (store_first s) in
    let replay :=
      if start <? sv_next_seq s
      then (λ e : Z * list Z, sequenced_packet e.2) <$> filter (λ e : Z * list Z, start <= e.1) (sv_store s)
      else [] in
    (set_logged_in s, inr (mkActions (login_accepted (sv_session_id s) start :: replay) false None)).

Definition server_handle_packet (s : SoupServer) (pkt : Packet) : SoupServer * (SessionError + Actions) :=
  let t := packet_type pkt in
  if t =? LOGIN_REQUEST then handle_login s (parse_login_request pkt)
  else if t =? UNSEQUENCED_DATA then (s, inr no_actions)
  else if t =? CLIENT_HEARTBEAT then (s, inr no_actions)
  else if t =? LOGOUT_REQUEST then (s, inr (mkActions [] true None))
  else if t =? DEBUG then (s, inr no_actions)
  else (s, inl (UnexpectedPacket t)).

Record SoupClient := mkSoupClient {
  cl_session_id : list Z; cl_expected_seq : Z; cl_start_seq : Z; cl_logged_in : bool; cl_last_rx_ns : Z }.

Definition soup_client_new (session_id : list Z) : SoupClient := mkSoupClient session_id 1 0 false 0.

Definition client_login_request (c : SoupClient) (user pass : list Z) : Packet :=
  login_request user pass (cl_session_id c) (cl_expected_seq c).

Definition client_handle_packet (c : SoupClient) (pkt : Packet) (now_ns : Z) :
    SoupClient * (SessionError + Actions) :=
  let c := mkSoupClient (cl_session_id c) (cl_expected_seq c) (cl_start_seq c) (cl_logged_in c) now_ns in
  let t := packet_type pkt in
  if t =? LOGIN_ACCEPTED then
    let acc := parse_login_accepted pkt in
    (mkSoupClient (cl_session_id c) (la_sequence acc) (la_sequence acc) true now_ns, inr no_actions)
  else if t =? LOGIN_REJECTED then (c, inl (LoginRejected (parse_login_rejected pkt)))
  else if t =? SEQUENCED_DATA then
    if negb (cl_logged_in c) then (c, inl NotLoggedIn)
    else match payload pkt with
         | [] => (mkSoupClient (cl_session_id c) (cl_expected_seq c) (cl_start_seq c) false now_ns, inr no_actions)
         | _ => (mkSoupClient (cl_session_id c) (u64_wrap (cl_expected_seq c + 1)) (cl_start_seq c)
                   (cl_logged_in c) now_ns, inr no_actions)
         end
  else if t =? SERVER_HEARTBEAT then (c, inr no_actions)
  else if t =? END_OF_SESSION then
    (mkSoupClient (cl_session_id c) (cl_expected_seq c) (cl_start_seq c) false now_ns, inr (mkActions [] true None))
  else if t =? DEBUG then (c, inr no_actions)
  else (c, inl (UnexpectedPacket t)).
