(* ===== verification/SoupProps.v ===== *)
(** * match-soupbintcp: framing and recovery

    However TCP cuts the byte stream, the receiver reads back the packets that
    were written; logging in again brings a client exactly the messages it lacks,
    as far as the server still keeps them. *)
From stdpp Require Import gmap sorting.
From S2P Require Import Prelude HpIndex Utf8 Soup.
From Stdlib Require Import Sorted.

#[local] Open Scope Z_scope.
#[local] Arguments be_bytes : simpl never.

(** ** Framing *)

(** What fits the 16-bit length field. *)
Definition fits (p : Packet) : Prop := Z.of_nat (length (payload p)) <= 2 ^ 16 - 2.

Lemma length_to_bytes p : length (to_bytes p) = (3 + length (payload p))%nat.
Proof. unfold to_bytes. rewrite !length_app, length_be_bytes. cbn. lia. Qed.

(** The head of a buffer: a whole packet and its size, if there is one. *)
Definition first_packet (buf : list Z) : option (Packet * nat) :=
  let len := Z.to_nat (be_val (slice 0 2 buf)) in
  if ((length buf <? 3) || (len <? 1) || (length buf <? 2 + len))%nat then None
  else t ← buf !! 2%nat; Some (mkPacket t (slice 3 (2 + len) buf), (2 + len)%nat).

Lemma parse_loop_step fuel buf :
  parse_loop (S fuel) buf
  = match first_packet buf with
    | None => ([], O)
    | Some (p, n) => let '(out, off) := parse_loop fuel (drop n buf) in (p :: out, (n + off)%nat)
    end.
Proof.
  cbn [parse_loop]. unfold first_packet. destruct (length buf <? 3)%nat; [done|].
  destruct (_ <? 1)%nat; [done|]. destruct (length buf <? _)%nat; [done|]. cbn [orb].
  destruct (buf !! 2%nat); [|done]. cbn. done.
Qed.

Lemma first_packet_bound buf p n : first_packet buf = Some (p, n) → (3 ≤ n ≤ length buf)%nat.
Proof.
  unfold first_packet. set (len := Z.to_nat _). destruct (Nat.ltb_spec (length buf) 3); [done|].
  destruct (Nat.ltb_spec len 1); [done|]. destruct (Nat.ltb_spec (length buf) (2 + len)); [done|]. cbn [orb].
  destruct (buf !! 2%nat); [|done]. cbn. intros [= _ <-]. lia.
Qed.

(** More bytes do not change a packet that is complete. *)
Lemma first_packet_app buf more p n : first_packet buf = Some (p, n) → first_packet (buf ++ more) = Some (p, n).
Proof.
  intros H. pose proof (first_packet_bound _ _ _ H) as Hn. revert H. unfold first_packet.
  assert (slice 0 2 (buf ++ more) = slice 0 2 buf) as ->.
  { unfold slice. rewrite !drop_0. apply take_app_le. lia. }
  set (len := Z.to_nat _). rewrite length_app.
  destruct (Nat.ltb_spec (length buf) 3); [done|]. destruct (Nat.ltb_spec len 1); [done|].
  destruct (Nat.ltb_spec (length buf) (2 + len)); [done|]. cbn [orb].
  rewrite !(proj2 (Nat.ltb_ge _ _)) by lia. cbn [orb]. rewrite lookup_app_l by lia.
  destruct (buf !! 2%nat); [|done]. cbn [mbind option_bind]. intros [= <- <-]. do 3 f_equal.
  unfold slice. rewrite drop_app_le by lia. apply take_app_le. rewrite length_drop. lia.
Qed.

Lemma parse_loop_fuel fuel buf : (length buf ≤ fuel)%nat → parse_loop fuel buf = parse_loop (length buf) buf.
Proof.
  revert buf. induction (lt_wf fuel) as [fuel _ IH]. intros buf Hf.
  destruct fuel as [|fuel]; [by destruct buf; cbn in Hf; [|lia]|].
  rewrite parse_loop_step. destruct (first_packet buf) as [[p n]|] eqn:E.
  - pose proof (first_packet_bound _ _ _ E). destruct (length buf) as [|m] eqn:Em; [lia|].
    rewrite parse_loop_step, E. pose proof (length_drop buf n).
    rewrite (IH fuel), (IH m) by lia. done.
  - destruct (length buf) as [|m]; [done|]. by rewrite parse_loop_step, E.
Qed.

(** [parse_stream] as its packets and the bytes it consumed. *)
Definition parse (buf : list Z) : list Packet * nat := parse_loop (length buf) buf.

#[local] Arguments parse : simpl never.

Lemma parse_stream_parse buf :
  parse_stream buf = ((parse buf).1, (parse buf).2, ((parse buf).2 <? length buf)%nat).
Proof. unfold parse_stream, parse. by destruct (parse_loop _ _). Qed.

Lemma parse_unfold buf :
  parse buf = match first_packet buf with
              | None => ([], O)
              | Some (p, n) => (p :: (parse (drop n buf)).1, (n + (parse (drop n buf)).2)%nat)
              end.
Proof.
  unfold parse. destruct (first_packet buf) as [[p n]|] eqn:E.
  - pose proof (first_packet_bound _ _ _ E). pose proof (length_drop buf n).
    destruct (length buf) as [|m] eqn:Em; [lia|]. rewrite parse_loop_step, E, parse_loop_fuel by lia.
    by destruct (parse_loop _ (drop n buf)).
  - destruct (length buf) as [|m] eqn:Em; [done|]. by rewrite parse_loop_step, E.
Qed.

Lemma list_length_ind {A} (P : list A → Prop) :
  (∀ l, (∀ l', (length l' < length l)%nat → P l') → P l) → ∀ l, P l.
Proof.
  intros H l. remember (length l) as n eqn:Hn. revert l Hn. induction (lt_wf n) as [n _ IH]. intros l ->.
  apply H. intros l' Hl. by eapply IH.
Qed.

Lemma parse_consumed buf : ((parse buf).2 ≤ length buf)%nat.
Proof.
  induction buf as [buf IH] using list_length_ind. rewrite parse_unfold.
  destruct (first_packet buf) as [[p k]|] eqn:E; [|cbn; lia].
  pose proof (first_packet_bound _ _ _ E). pose proof (length_drop buf k). cbn [snd].
  specialize (IH (drop k buf) ltac:(lia)). lia.
Qed.

(** Parsing what has arrived and then the rest is parsing everything at once. *)
Lemma parse_split a b :
  parse (a ++ b) = ((parse a).1 ++ (parse (drop (parse a).2 a ++ b)).1,
                    ((parse a).2 + (parse (drop (parse a).2 a ++ b)).2)%nat).
Proof.
  induction a as [a IH] using list_length_ind. rewrite (parse_unfold a). destruct (first_packet a) as [[p k]|] eqn:E.
  - pose proof (first_packet_bound _ _ _ E). rewrite (parse_unfold (a ++ b)), (first_packet_app _ _ _ _ E).
    rewrite drop_app_le by lia. cbn [fst snd]. pose proof (length_drop a k).
    rewrite IH by lia. cbn [fst snd]. rewrite <- drop_drop. by rewrite Nat.add_assoc.
  - cbn [fst snd]. rewrite drop_0. cbn. by destruct (parse (a ++ b)).
Qed.

Lemma first_packet_to_bytes p rest :
  fits p → first_packet (to_bytes p ++ rest) = Some (p, length (to_bytes p)).
Proof.
  intros Hf. unfold fits in Hf. unfold first_packet. rewrite length_app, length_to_bytes.
  assert (slice 0 2 (to_bytes p ++ rest) = be_bytes 2 (1 + Z.of_nat (length (payload p)))) as ->.
  { unfold to_bytes. rewrite u16_wrap_id, Z.min_l by (unfold in_u16; lia). rewrite <- !app_assoc.
    apply slice_app_here. by rewrite length_be_bytes. }
  rewrite be_val_bytes, Z.mod_small by lia.
  replace (Z.to_nat (1 + Z.of_nat (length (payload p)))) with (S (length (payload p))) by lia.
  rewrite !(proj2 (Nat.ltb_ge _ _)) by lia. cbn [orb].
  assert (Hb : to_bytes p ++ rest
    = be_bytes 2 (Z.min (1 + u16_wrap (Z.of_nat (length (payload p)))) (2 ^ 16 - 1))
      ++ packet_type p :: payload p ++ rest) by (unfold to_bytes; by rewrite <- !app_assoc).
  rewrite Hb, list_lookup_middle by (by rewrite length_be_bytes). cbn [mbind option_bind].
  f_equal. f_equal. destruct p as [t pl]. cbn [packet_type payload] in *. f_equal.
  rewrite slice_app_skip, length_be_bytes by (rewrite length_be_bytes; lia).
  unfold slice. cbn [Nat.sub Nat.add]. rewrite Nat.sub_0_r. cbn [drop]. rewrite drop_0. apply take_app_length.
Qed.

Lemma parse_packets pkts rest :
  Forall fits pkts →
  parse (concat (to_bytes <$> pkts) ++ rest)
  = (pkts ++ (parse rest).1, (length (concat (to_bytes <$> pkts)) + (parse rest).2)%nat).
Proof.
  induction pkts as [|p pkts IH]; intros Hf; [cbn; by destruct (parse rest)|].
  apply Forall_cons in Hf as [Hp Hf]. cbn [fmap list_fmap concat]. rewrite <- app_assoc, parse_unfold.
  rewrite first_packet_to_bytes by done. rewrite drop_app_length, IH by done. cbn [fst snd app].
  by rewrite length_app, Nat.add_assoc.
Qed.

Lemma parse_all pkts :
  Forall fits pkts → parse (concat (to_bytes <$> pkts)) = (pkts, length (concat (to_bytes <$> pkts))).
Proof.
  intros Hf. rewrite <- (app_nil_r (concat _)) at 1. rewrite parse_packets by done.
  change (parse []) with (@nil Packet, 0%nat). cbn [fst snd]. by rewrite app_nil_r, Nat.add_0_r.
Qed.

(** ** A receiver that reads in pieces

    [acc.extend_from_slice(chunk)], [parse_stream(&acc)], [acc.drain(..consumed)]. *)
Definition feed (st : list Packet * list Z) (chunk : list Z) : list Packet * list Z :=
  let acc := st.2 ++ chunk in
  let '(pkts, consumed, _) := parse_stream acc in (st.1 ++ pkts, drop consumed acc).

Lemma feed_all chunks got acc :
  parse acc = ([], O) →
  foldl feed (got, acc) chunks
  = (got ++ (parse (acc ++ concat chunks)).1, drop (parse (acc ++ concat chunks)).2 (acc ++ concat chunks)).
Proof.
  revert got acc; induction chunks as [|ch chunks IH]; intros got acc Ha; cbn [foldl concat].
  { by rewrite app_nil_r, Ha, app_nil_r, drop_0. }
  unfold feed at 2. cbn [fst snd]. rewrite parse_stream_parse.
  set (buf := acc ++ ch). assert (parse (drop (parse buf).2 buf) = ([], O)) as Hrest.
  { pose proof (parse_split buf []) as H. rewrite !app_nil_r in H.
    destruct (parse (drop (parse buf).2 buf)) as [ps k]. destruct (parse buf) as [qs j]. cbn in *.
    injection H as H1 H2. f_equal; [|lia]. apply (f_equal length) in H1. rewrite length_app in H1.
    destruct ps; [done|cbn in H1; lia]. }
  rewrite IH by done. rewrite app_assoc. fold buf. rewrite (parse_split buf (concat chunks)). cbn [fst snd].
  rewrite app_assoc. f_equal. rewrite <- drop_drop. f_equal. symmetry. apply drop_app_le.
  apply parse_consumed.
Qed.

(** ** Login packets *)

Lemma length_pad_left s len : length (pad_left s len) = len.
Proof. unfold pad_left. rewrite length_app, length_take, length_replicate. lia. Qed.

Lemma length_pad_right s len : length (pad_right s len) = len.
Proof. unfold pad_right. rewrite length_app, length_take, length_replicate. lia. Qed.

Lemma pad_right_short s len : (length s ≤ len)%nat → pad_right s len = replicate (len - length s) SPACE ++ s.
Proof. intros. unfold pad_right. by rewrite Nat.min_l, take_ge by lia. Qed.

(** A right-justified field is read back without its padding. *)
Lemma ascii_field_pad_right a s len b off :
  tidy s → (length s ≤ len)%nat → length a = off → ascii_field (a ++ pad_right s len ++ b) off len = s.
Proof.
  intros Hs Hl <-. unfold ascii_field.
  rewrite (proj2 (Nat.ltb_ge _ _)) by (rewrite !length_app, length_pad_right; lia).
  rewrite slice_app_skip by lia. replace (length a + len - length a)%nat with len by lia.
  rewrite Nat.sub_diag, slice_app_here by (by rewrite length_pad_right). rewrite pad_right_short by done.
  rewrite from_utf8_lossy_ascii.
  - rewrite <- (app_nil_r (_ ++ s)), <- app_assoc. by apply (str_trim_padded _ _ 0).
  - apply Forall_app. split; [by apply Forall_replicate|apply Hs].
Qed.

Lemma sequence_field_pad a n b off :
  in_u64 n → length a = off → sequence_field (a ++ pad_number_right n SEQUENCE_LEN ++ b) off = n.
Proof.
  intros Hn Ha. unfold sequence_field, pad_number_right.
  rewrite ascii_field_pad_right by (done || by (apply u64_text_tidy || apply length_u64_text)).
  by rewrite str_trim_tidy, parse_u64_text by (done || by apply u64_text_tidy).
Qed.

Lemma parse_login_request_built user pass session seq :
  tidy session → (length session ≤ SESSION_LEN)%nat → in_u64 seq →
  let req := parse_login_request (login_request user pass session seq) in
  requested_session req = session ∧ requested_sequence req = seq.
Proof.
  intros Hs Hl Hn. unfold parse_login_request, login_request. cbn [payload requested_session requested_sequence].
  rewrite !(app_assoc (pad_left user _)). split.
  - apply ascii_field_pad_right; [done|done|by rewrite length_app, !length_pad_left].
  - rewrite (app_assoc (_ ++ _) (pad_right _ _)), <- (app_nil_r (pad_number_right _ _)).
    apply sequence_field_pad; [done|]. by rewrite !length_app, !length_pad_left, length_pad_right.
Qed.

Lemma parse_login_accepted_built session seq :
  tidy session → (length session ≤ SESSION_LEN)%nat → in_u64 seq →
  parse_login_accepted (login_accepted session seq) = mkLoginAccepted session seq.
Proof.
  intros Hs Hl Hn. unfold parse_login_accepted, login_accepted. cbn [payload]. f_equal.
  - by apply (ascii_field_pad_right []).
  - rewrite <- (app_nil_r (pad_number_right _ _)). apply sequence_field_pad; [done|]. by rewrite length_pad_right.
Qed.

(** ** The message store is a window *)

Lemma bt_insert_last {V} (a k : Z) (l : list V) v :
  a + Z.of_nat (length l) <= k → bt_insert Z.compare (number a l) k v = number a l ++ [(k, v)].
Proof.
  revert a; induction l as [|x l IH]; intros a Hk; [done|]. cbn [length] in Hk. cbn [number bt_insert].
  destruct (Z.compare_spec k a); [lia|lia|]. rewrite IH by lia. done.
Qed.

Lemma bt_remove_first {V} a (x : V) l : (bt_remove Z.compare ((a, x) :: l) a).2 = l.
Proof. cbn. by rewrite Z.compare_refl. Qed.

Definition enqueue_all (s : SoupServer) (msgs : list (list Z)) : SoupServer :=
  foldl (λ s m, (enqueue s m).1) s msgs.

(** The oldest of [n] messages a store of capacity [cap] still has: at least the
    last one is always kept. *)
Definition oldest_kept (cap n : nat) : Z := Z.max 1 (Z.of_nat n + 1 - Z.of_nat (Nat.max cap 1)).

Record store_window (id : list Z) (cap : nat) (msgs : list (list Z)) (s : SoupServer) : Prop := {
  sw_id : sv_session_id s = id;
  sw_cap : sv_store_capacity s = cap;
  sw_next : sv_next_seq s = Z.of_nat (length msgs) + 1;
  sw_store : sv_store s
    = number (oldest_kept cap (length msgs)) (drop (Z.to_nat (oldest_kept cap (length msgs) - 1)) msgs) }.

Lemma enqueue_window id cap msgs s m :
  Z.of_nat (length msgs) < 2 ^ 64 - 2 → store_window id cap msgs s →
  store_window id cap (msgs ++ [m]) (enqueue s m).1.
Proof.
  intros Hb [Hid Hcap Hn Hs]. unfold enqueue. set (o := oldest_kept cap (length msgs)) in *.
  assert (1 <= o <= Z.of_nat (length msgs) + 1) as Ho by (subst o; unfold oldest_kept; lia).
  split; cbn [fst sv_session_id sv_store_capacity sv_next_seq sv_store]; [done|done| |].
  { rewrite Hn, u64_wrap_id, length_app by (unfold in_u64; lia). cbn. lia. }
  assert (∀ k, 1 <= k <= Z.of_nat (length msgs) + 1 →
    bt_insert Z.compare (number k (drop (Z.to_nat (k - 1)) msgs)) (sv_next_seq s) m
    = number k (drop (Z.to_nat (k - 1)) (msgs ++ [m]))) as Hins.
  { intros k Hk. rewrite bt_insert_last by (rewrite length_drop; lia). rewrite drop_app_le, number_app by lia.
    cbn [number]. do 3 f_equal. rewrite length_drop. lia. }
  assert (length (sv_store s) = Z.to_nat (Z.of_nat (length msgs) + 1 - o)) as Hlen.
  { rewrite Hs, length_number, length_drop. lia. }
  rewrite length_app. cbn [length]. rewrite Hcap. destruct (Nat.leb_spec cap (length (sv_store s))).
  - destruct (sv_store s) as [|[k x] rest] eqn:E.
    + assert (oldest_kept cap (length msgs + 1) = o) as -> by (subst o; unfold oldest_kept in *; cbn in *; lia).
      rewrite <- Hins by lia. by rewrite <- Hs.
    + assert (oldest_kept cap (length msgs + 1) = o + 1) as ->.
      { subst o. unfold oldest_kept in *. cbn [length] in *. lia. }
      rewrite bt_remove_first. assert (rest = number (o + 1) (drop (Z.to_nat (o + 1 - 1)) msgs)) as ->.
      { apply (f_equal (drop 1)) in Hs. rewrite drop_number, drop_drop in Hs. cbn [drop] in Hs. rewrite drop_0 in Hs.
        rewrite Hs. do 2 f_equal; lia. }
      apply Hins. cbn in Hlen. lia.
  - assert (oldest_kept cap (length msgs + 1) = o) as -> by (subst o; unfold oldest_kept in *; lia).
    rewrite Hs. apply Hins. lia.
Qed.

Lemma enqueue_all_window id cap s0 msgs :
  soup_server_new id cap = inr s0 → Z.of_nat (length msgs) < 2 ^ 64 - 1 →
  store_window id cap msgs (enqueue_all s0 msgs) ∧ (length id ≤ SESSION_LEN)%nat.
Proof.
  unfold soup_server_new. destruct (Nat.ltb_spec SESSION_LEN (length id)); [done|]. intros [= <-] Hb.
  split; [|done]. unfold enqueue_all. induction msgs as [|m msgs IH] using rev_ind.
  - split; cbn; try done. by rewrite drop_nil.
  - rewrite foldl_app. cbn [foldl]. rewrite length_app in Hb. cbn in Hb.
    apply enqueue_window; [lia|]. apply IH. lia.
Qed.

(** ** Logging in again *)

(** A client reading packets: the messages it hands on; an error ends the run. *)
Fixpoint client_run (c : SoupClient) (pkts : list Packet) (now : Z) : option (SoupClient * list (list Z)) :=
  match pkts with
  | [] => Some (c, [])
  | p :: pkts =>
      match client_handle_packet c p now with
      | (_, inl _) => None
      | (c', inr _) =>
          '(c'', got) ← client_run c' pkts now;
          Some (c'', if packet_type p =? SEQUENCED_DATA then payload p :: got else got)
      end
  end.

Definition is_message (m : list Z) : Prop := m ≠ [] ∧ Z.of_nat (length m) <= 2 ^ 16 - 2.

Lemma client_run_messages c now msgs :
  cl_logged_in c = true → Forall is_message msgs → 0 <= cl_expected_seq c →
  cl_expected_seq c + Z.of_nat (length msgs) < 2 ^ 64 →
  ∃ c', client_run c (sequenced_packet <$> msgs) now = Some (c', msgs)
    ∧ cl_expected_seq c' = cl_expected_seq c + Z.of_nat (length msgs) ∧ cl_logged_in c' = true.
Proof.
  revert c; induction msgs as [|m msgs IH]; intros c Hl Hm He Hb.
  { exists c. split_and!; [done|cbn; lia|done]. }
  apply Forall_cons in Hm as [[Hne _] Hm]. cbn [length] in Hb. cbn [fmap list_fmap client_run].
  unfold client_handle_packet. cbn [sequenced_packet packet_type payload cl_logged_in].
  rewrite Hl. cbn [Z.eqb negb]. change (SEQUENCED_DATA =? LOGIN_ACCEPTED) with false.
  change (SEQUENCED_DATA =? LOGIN_REJECTED) with false. rewrite Z.eqb_refl. destruct m as [|b m]; [done|].
  cbn [cl_session_id cl_expected_seq cl_start_seq cl_logged_in]. rewrite u64_wrap_id by (unfold in_u64; lia).
  destruct (IH (mkSoupClient (cl_session_id c) (cl_expected_seq c + 1) (cl_start_seq c) true now)) as (c' & Hr & He' & Hl');
    [done|done|cbn; lia|cbn; lia|].
  exists c'. cbn in He'. rewrite Hr. cbn. split_and!; [done|lia|done].
Qed.

Lemma filter_all_number {A} (k a : Z) (l : list A) :
  k <= a → filter (λ e : Z * A, k <= e.1) (number a l) = number a l.
Proof.
  revert a; induction l as [|x l IH]; intros a Ha; [done|]. cbn [number].
  rewrite filter_cons_True by done. by rewrite IH by lia.
Qed.

Lemma filter_suffix_number {A} (k a : Z) (l : list A) :
  a <= k → filter (λ e : Z * A, k <= e.1) (number a l) = number k (drop (Z.to_nat (k - a)) l).
Proof.
  revert a; induction l as [|x l IH]; intros a Ha; [by rewrite drop_nil|].
  destruct (decide (a = k)) as [->|].
  - rewrite filter_all_number by lia. by replace (Z.to_nat (k - k)) with 0%nat by lia.
  - cbn [number]. rewrite filter_cons_False by (cbn; lia). rewrite IH by lia.
    by replace (Z.to_nat (k - a)) with (S (Z.to_nat (k - (a + 1)))) by lia.
Qed.

Lemma snd_number {A} (k : Z) (l : list A) : (number k l).*2 = l.
Proof. revert k; induction l as [|x l IH]; intros k; [done|]. cbn. by rewrite IH. Qed.

(** The server's answer: where it starts, and everything kept from there on. *)
Lemma handle_login_window id cap msgs s req :
  store_window id cap msgs s → requested_session req = id ∨ requested_session req = [] →
  1 <= requested_sequence req <= sv_next_seq s →
  let from := Z.max (requested_sequence req) (oldest_kept cap (length msgs)) in
  handle_login s req
  = (set_logged_in s, inr (mkActions (login_accepted id from
       :: (sequenced_packet <$> drop (Z.to_nat (from - 1)) msgs)) false None)).
Proof.
  intros [Hid Hcap Hn Hs] Hsess Hr from. unfold handle_login.
  assert (negb (bool_decide (requested_session req = [])) && negb (bool_decide (requested_session req = sv_session_id s))
          = false) as ->.
  { rewrite Hid. destruct Hsess as [-> | ->]; rewrite ?(bool_decide_eq_true_2 (id = id)) by done;
      rewrite ?(bool_decide_eq_true_2 ([] = [])) by done; [apply andb_false_r|done]. }
  rewrite (proj2 (Z.eqb_neq _ _)), (proj2 (Z.ltb_ge _ _)) by lia. cbn [orb].
  assert (1 <= oldest_kept cap (length msgs) <= sv_next_seq s) as Ho by (rewrite Hn; unfold oldest_kept; lia).
  assert (Z.max (requested_sequence req) (store_first s) = from) as ->.
  { subst from. unfold store_first. rewrite Hs.
    destruct (drop _ msgs) as [|m l] eqn:E; cbn [number]; [|done].
    apply (f_equal length) in E. rewrite length_drop in E. cbn in E. unfold oldest_kept in *. lia. }
  rewrite Hid. do 4 f_equal. destruct (Z.ltb_spec from (sv_next_seq s)) as [Hlt|Hge].
  - rewrite Hs, filter_suffix_number, drop_drop by lia.
    replace (Z.to_nat (oldest_kept cap (length msgs) - 1) + Z.to_nat (from - oldest_kept cap (length msgs)))%nat
      with (Z.to_nat (from - 1)) by lia.
    rewrite <- (snd_number from (drop (Z.to_nat (from - 1)) msgs)) at 2. by rewrite <- list_fmap_compose.
  - rewrite drop_ge by lia. done.
Qed.

Lemma fits_login_request user pass session seq : fits (login_request user pass session seq).
Proof.
  unfold fits, login_request, pad_number_right. cbn [payload].
  rewrite !length_app, !length_pad_left, !length_pad_right. done.
Qed.

Lemma fits_login_accepted session seq : fits (login_accepted session seq).
Proof.
  unfold fits, login_accepted, pad_number_right. cbn [payload]. rewrite length_app, !length_pad_right. done.
Qed.

Lemma parse_stream_packets pkts :
  Forall fits pkts →
  parse_stream (concat (to_bytes <$> pkts)) = (pkts, length (concat (to_bytes <$> pkts)), false).
Proof.
  intros Hf. rewrite parse_stream_parse, parse_all by done. cbn [fst snd]. by rewrite Nat.ltb_irrefl.
Qed.

(** ** Properties *)

(** Framing survives TCP.  Packets whose payload fits the length field are
    written one after the other and the stream is cut anywhere, into any number of
    pieces: a receiver that appends each piece to its buffer, parses and drops
    what was consumed gets exactly those packets, in order, with nothing left. *)
Theorem soup_stream_reassembled pkts chunks :
  Forall fits pkts → concat chunks = concat (to_bytes <$> pkts) →
  foldl feed ([], []) chunks = (pkts, []).
Proof.
  intros Hf Hc. rewrite feed_all by done. cbn [app]. rewrite Hc, parse_all by done. cbn [fst snd].
  by rewrite drop_all.
Qed.

(** C30.  Logging in again brings a client up to date.  After any messages, a
    client of the session that expects message [e] sends its login request over
    the wire; the server's answer, over the wire, makes the client hand on exactly
    the messages from [e] on, or from the oldest the bounded store still has, each
    once and in order, and leaves it expecting the server's next message. *)
Theorem soup_relogin_recovers id cap s0 msgs c user pass now :
  soup_server_new id cap = inr s0 → tidy id → Forall is_message msgs →
  Z.of_nat (length msgs) < 2 ^ 64 - 1 → cl_session_id c = id →
  1 <= cl_expected_seq c <= Z.of_nat (length msgs) + 1 →
  let req := client_login_request c user pass in
  let from := Z.max (cl_expected_seq c) (oldest_kept cap (length msgs)) in
  ∃ s a c',
    parse_stream (to_bytes req) = ([req], length (to_bytes req), false)
    ∧ server_handle_packet (enqueue_all s0 msgs) req = (s, inr a)
    ∧ parse_stream (concat (to_bytes <$> outbound a)) = (outbound a, length (concat (to_bytes <$> outbound a)), false)
    ∧ client_run c (outbound a) now = Some (c', drop (Z.to_nat (from - 1)) msgs)
    ∧ cl_expected_seq c' = sv_next_seq s ∧ cl_logged_in c' = true ∧ sv_logged_in s = true.
Proof.
  intros H0 Hid Hm Hb Hcid He req from. pose proof (enqueue_all_window _ _ _ _ H0 Hb) as [Hw Hlen].
  set (s := enqueue_all s0 msgs) in *. pose proof (sw_next _ _ _ _ Hw) as Hnext.
  destruct (parse_login_request_built user pass id (cl_expected_seq c)) as [Hrs Hrq]; [done|done|unfold in_u64; lia|].
  assert (1 <= from <= sv_next_seq s) as Hfrom by (subst from; unfold oldest_kept; lia).
  pose proof (handle_login_window _ _ _ _ (parse_login_request req) Hw) as Hh.
  subst req. unfold client_login_request in *. rewrite Hcid in *. rewrite Hrq in Hh.
  specialize (Hh ltac:(by left) ltac:(lia)). cbv zeta in Hh. fold from in Hh.
  set (later := drop (Z.to_nat (from - 1)) msgs) in *.
  assert (Forall is_message later) as Hlater by (by apply Forall_drop).
  set (c0 := mkSoupClient (cl_session_id c) from from true now).
  destruct (client_run_messages c0 now later) as (c' & Hrun & He' & Hl'); [done|done|cbn; lia| |].
  { subst later. rewrite length_drop. cbn. lia. }
  exists (set_logged_in s), (mkActions (login_accepted id from :: (sequenced_packet <$> later)) false None), c'.
  split_and!; [..|done|done].
  - pose proof (parse_stream_packets [login_request user pass id (cl_expected_seq c)]) as Hp.
    cbn [fmap list_fmap concat] in Hp. rewrite app_nil_r in Hp. apply Hp. constructor; [apply fits_login_request|done].
  - unfold server_handle_packet. exact Hh.
  - apply parse_stream_packets. constructor; [apply fits_login_accepted|].
    apply Forall_fmap. eapply Forall_impl; [exact Hlater|]. intros m [_ Hl]. exact Hl.
  - cbn [outbound client_run]. unfold client_handle_packet. cbn [login_accepted packet_type]. rewrite Z.eqb_refl.
    rewrite parse_login_accepted_built by (done || unfold in_u64; lia). cbn [la_sequence cl_session_id].
    fold c0. rewrite Hrun. done.
  - rewrite He'. subst c0 later. cbn [cl_expected_seq set_logged_in sv_next_seq]. rewrite length_drop. lia.
Qed.

Module Witness.

Lemma soup_stream_reassembled_witness :
  foldl feed ([], []) [[0]; [3; 83; 1]; [2; 0; 1; 72]] = ([mkPacket 83 [1; 2]; mkPacket 72 []], []).
Proof.
  apply (soup_stream_reassembled [mkPacket 83 [1; 2]; mkPacket 72 []]).
  - repeat constructor; unfold fits; cbn; lia.
  - reflexivity.
Defined.

(** Three messages, room for two: a client that expects message 1 gets 2 and 3. *)
Definition server0 : SoupServer := mkSoupServer [83; 49] 1 [] 2 false.
Definition msgs3 : list (list Z) := [[10]; [20; 21]; [30]].

Lemma soup_relogin_recovers_witness :
  ∃ s a c', server_handle_packet (enqueue_all server0 msgs3)
              (client_login_request (soup_client_new [83; 49]) [117] [112]) = (s, inr a)
    ∧ client_run (soup_client_new [83; 49]) (outbound a) 7 = Some (c', [[20; 21]; [30]])
    ∧ cl_expected_seq c' = sv_next_seq s.
Proof.
  destruct (soup_relogin_recovers [83; 49] 2 server0 msgs3 (soup_client_new [83; 49]) [117] [112] 7)
    as (s & a & c' & _ & H1 & _ & H2 & H3 & _).
  - reflexivity.
  - split_and!; [|intros c Hc; vm_compute in Hc; injection Hc as <-; reflexivity..].
    repeat constructor; unfold is_ascii; lia.
  - repeat constructor; try discriminate; cbn; lia.
  - vm_compute. reflexivity.
  - reflexivity.
  - vm_compute. split; discriminate.
  - exists s, a, c'. split_and!; [exact H1|exact H2|exact H3].
Defined.

(** A payload of 65536 bytes is announced with length 1: the cast to [u16] wraps
    before the addition saturates. *)
Example oversized_payload_wraps :
  take 2 (to_bytes (mkPacket SEQUENCED_DATA (replicate (Z.to_nat 65536) 120))) = [0; 1].
Proof. vm_compute. reflexivity. Qed.

End Witness.
