(* ===== verification/Ouch.v ===== *)
(** * match-soupbintcp: OUCH messages

    Models [crates/match-soupbintcp/src/ouch.rs]: the six fixed-length messages,
    their encoders and the parser.  A string is its UTF-8 bytes; an index the
    source takes after its length test is read with a default that never shows. *)
From S2P Require Import Prelude Utf8.

#[local] Open Scope Z_scope.

Create Rewrite HintDb ouchdb.

Record EnterOrder := mkEnter {
  en_token : list Z; en_side : Z; en_shares : Z; en_stock : list Z; en_price : Z; en_time_in_force : Z;
  en_firm : list Z; en_display : Z; en_capacity : Z; en_intermarket_sweep : Z; en_min_qty : Z;
  en_cross_type : Z; en_customer_type : Z }.

Record CancelOrder := mkCancel { ca_token : list Z; ca_shares : Z }.

Record ReplaceOrder := mkReplace {
  re_existing_token : list Z; re_replacement_token : list Z; re_shares : Z; re_price : Z;
  re_time_in_force : Z; re_display : Z; re_intermarket_sweep : Z; re_min_qty : Z; re_cross_type : Z;
  re_customer_type : Z }.

Record Accepted := mkAccepted {
  ac_timestamp : Z; ac_token : list Z; ac_side : Z; ac_shares : Z; ac_stock : list Z; ac_price : Z;
  ac_time_in_force : Z; ac_firm : list Z; ac_display : Z; ac_ref_number : Z; ac_order_state : Z }.

Record Executed := mkExecuted {
  ex_timestamp : Z; ex_token : list Z; ex_shares : Z; ex_match_number : Z; ex_price : Z }.

Record Canceled := mkCanceled { cd_timestamp : Z; cd_token : list Z; cd_decrement : Z; cd_reason : Z }.

Inductive OuchMessage :=
| OEnterOrder (m : EnterOrder)
| OCancelOrder (m : CancelOrder)
| OReplaceOrder (m : ReplaceOrder)
| OAccepted (m : Accepted)
| OExecuted (m : Executed)
| OCanceled (m : Canceled).

Definition ENTER_LEN : nat := 49.
Definition CANCEL_LEN : nat := 19.
Definition REPLACE_LEN : nat := 49.
Definition ACCEPTED_LEN : nat := 66.
Definition EXECUTED_LEN : nat := 35.
Definition CANCELED_LEN : nat := 28.

(** ** Encoding *)

Definition pad_alpha (s : list Z) (len : nat) : list Z :=
  let n := Nat.min (length s) len in take n s ++ replicate (len - n) SPACE.

Definition push_u32 (v : Z) : list Z := be_bytes 4 v.
Definition push_i32 (v : Z) : list Z := be_bytes 4 v.
Definition push_u64 (v : Z) : list Z := be_bytes 8 v.

(** The type bytes: O, X, U, A, E, C. *)
Definition encode_enter (m : EnterOrder) : list Z :=
  [79] ++ pad_alpha (en_token m) 14 ++ [en_side m] ++ push_u32 (en_shares m) ++ pad_alpha (en_stock m) 8
  ++ push_i32 (en_price m) ++ push_u32 (en_time_in_force m) ++ pad_alpha (en_firm m) 4 ++ [en_display m]
  ++ [en_capacity m] ++ [en_intermarket_sweep m] ++ push_u32 (en_min_qty m) ++ [en_cross_type m]
  ++ [en_customer_type m].

Definition encode_cancel (m : CancelOrder) : list Z :=
  [88] ++ pad_alpha (ca_token m) 14 ++ push_u32 (ca_shares m).

Definition encode_replace (m : ReplaceOrder) : list Z :=
  [85] ++ pad_alpha (re_existing_token m) 14 ++ pad_alpha (re_replacement_token m) 14 ++ push_u32 (re_shares m)
  ++ push_i32 (re_price m) ++ push_u32 (re_time_in_force m) ++ [re_display m] ++ [re_intermarket_sweep m]
  ++ push_u32 (re_min_qty m) ++ [re_cross_type m] ++ [re_customer_type m].

Definition capacity_placeholder : Z := 79.
Definition ise_placeholder : Z := 78.
Definition cross_placeholder : Z := 78.

Definition encode_accepted (m : Accepted) : list Z :=
  [65] ++ push_u64 (ac_timestamp m) ++ pad_alpha (ac_token m) 14 ++ [ac_side m] ++ push_u32 (ac_shares m)
  ++ pad_alpha (ac_stock m) 8 ++ push_i32 (ac_price m) ++ push_u32 (ac_time_in_force m)
  ++ pad_alpha (ac_firm m) 4 ++ [ac_display m] ++ push_u64 (ac_ref_number m) ++ [capacity_placeholder]
  ++ [ise_placeholder] ++ push_u32 0 ++ [cross_placeholder] ++ [ac_order_state m] ++ [0].

Definition encode_executed (m : Executed) : list Z :=
  [69] ++ push_u64 (ex_timestamp m) ++ pad_alpha (ex_token m) 14 ++ push_u32 (ex_shares m)
  ++ push_u32 (ex_match_number m) ++ push_i32 (ex_price m).

Definition encode_canceled (m : Canceled) : list Z :=
  [67] ++ push_u64 (cd_timestamp m) ++ pad_alpha (cd_token m) 14 ++ push_u32 (cd_decrement m) ++ [cd_reason m].

(** ** Decoding *)

Definition get_str (b : list Z) (off len : nat) : list Z :=
  if (length b <? off + len)%nat then []
  else trim_end_spaces (from_utf8_lossy (slice off (off + len) b)).

Definition get_u32 (b : list Z) (off : nat) : Z :=
  if (length b <? off + 4)%nat then 0 else be_val (slice off (off + 4) b).

Definition get_i32 (b : list Z) (off : nat) : Z :=
  if (length b <? off + 4)%nat then 0 else i32_wrap (be_val (slice off (off + 4) b)).

Definition get_u64 (b : list Z) (off : nat) : Z :=
  if (length b <? off + 8)%nat then 0 else be_val (slice off (off + 8) b).

Definition byte_at (b : list Z) (i : nat) : Z := default 0 (b !! i).

Definition ouch_parse (buf : list Z) : option OuchMessage :=
  t ← head buf;
  let long n := (n <=? length buf)%nat in
  if (t =? 79) && long ENTER_LEN then
    Some (OEnterOrder (mkEnter (get_str buf 1 14) (byte_at buf 15) (get_u32 buf 16) (get_str buf 20 8)
      (get_i32 buf 28) (get_u32 buf 32) (get_str buf 36 4) (byte_at buf 40) (byte_at buf 41) (byte_at buf 42)
      (get_u32 buf 43) (byte_at buf 47) (byte_at buf 48)))
  else if (t =? 88) && long CANCEL_LEN then
    Some (OCancelOrder (mkCancel (get_str buf 1 14) (get_u32 buf 15)))
  else if (t =? 85) && long REPLACE_LEN then
    Some (OReplaceOrder (mkReplace (get_str buf 1 14) (get_str buf 15 14) (get_u32 buf 29) (get_i32 buf 33)
      (get_u32 buf 37) (byte_at buf 41) (byte_at buf 42) (get_u32 buf 43) (byte_at buf 47) (byte_at buf 48)))
  else if (t =? 65) && long ACCEPTED_LEN then
    Some (OAccepted (mkAccepted (get_u64 buf 1) (get_str buf 9 14) (byte_at buf 23) (get_u32 buf 24)
      (get_str buf 28 8) (get_i32 buf 36) (get_u32 buf 40) (get_str buf 44 4) (byte_at buf 48)
      (get_u64 buf 49) (byte_at buf 64)))
  else if (t =? 69) && long EXECUTED_LEN then
    Some (OExecuted (mkExecuted (get_u64 buf 1) (get_str buf 9 14) (get_u32 buf 23) (get_u32 buf 27)
      (get_i32 buf 31)))
  else if (t =? 67) && long CANCELED_LEN then
    Some (OCanceled (mkCanceled (get_u64 buf 1) (get_str buf 9 14) (get_u32 buf 23) (byte_at buf 27)))
  else None.

(** ** Fields *)

(** A text that fits its field: ASCII, not longer, no space at the end. *)
Definition text_ok (s : list Z) (len : nat) : Prop :=
  Forall is_ascii s ∧ (length s ≤ len)%nat ∧ last s ≠ Some SPACE.

#[local] Arguments be_bytes : simpl never.

Lemma length_pad_alpha s len : length (pad_alpha s len) = len.
Proof. unfold pad_alpha. rewrite length_app, length_take, length_replicate. lia. Qed.

Lemma length_push_u32 v : length (push_u32 v) = 4%nat.
Proof. apply length_be_bytes. Qed.

Lemma length_push_i32 v : length (push_i32 v) = 4%nat.
Proof. apply length_be_bytes. Qed.

Lemma length_push_u64 v : length (push_u64 v) = 8%nat.
Proof. apply length_be_bytes. Qed.

#[export] Hint Rewrite @length_app length_pad_alpha length_push_u32 length_push_i32 length_push_u64 : ouchdb.

(** A field at an offset, read in front of the rest of a buffer or past its
    beginning; [f] turns the bytes into a value. *)
Section Field.
Context {B : Type} (d : B) (f : list Z → B).

Definition field (b : list Z) (off len : nat) : B :=
  if (length b <? off + len)%nat then d else f (slice off (off + len) b).

Lemma field_skip x r off len : (length x ≤ off)%nat → field (x ++ r) off len = field r (off - length x) len.
Proof.
  intros Hn. unfold field. rewrite length_app, slice_app_skip by lia.
  replace (off - length x + len)%nat with (off + len - length x)%nat by lia.
  destruct (Nat.ltb_spec (length x + length r) (off + len)), (Nat.ltb_spec (length r) (off + len - length x));
    (done || lia).
Qed.

Lemma field_here y r len : length y = len → field (y ++ r) 0 len = f y.
Proof.
  intros <-. unfold field. rewrite length_app, (proj2 (Nat.ltb_ge _ _)) by lia. f_equal. by apply slice_app_here.
Qed.

End Field.

Lemma byte_at_skip x r off : (length x ≤ off)%nat → byte_at (x ++ r) off = byte_at r (off - length x).
Proof. intros Hn. unfold byte_at. by rewrite lookup_app_r. Qed.

Definition str_field := field [] (λ b, trim_end_spaces (from_utf8_lossy b)).
Definition u_field := field 0 be_val.
Definition i32_field := field 0 (λ b, i32_wrap (be_val b)).

Lemma str_field_here s len r : text_ok s len → str_field (pad_alpha s len ++ r) 0 len = s.
Proof.
  intros (Ha & Hl & Hs). unfold str_field. rewrite field_here by apply length_pad_alpha.
  unfold pad_alpha. rewrite Nat.min_l, take_ge by lia. rewrite from_utf8_lossy_ascii.
  - by apply trim_end_spaces_padded.
  - apply Forall_app. split; [done|]. by apply Forall_replicate.
Qed.

Lemma u32_field_here v r : in_u32 v → u_field (push_u32 v ++ r) 0 4 = v.
Proof.
  intros Hv. unfold u_field. rewrite field_here by apply length_push_u32. unfold push_u32.
  rewrite be_val_bytes. by apply Z.mod_small.
Qed.

Lemma u64_field_here v r : in_u64 v → u_field (push_u64 v ++ r) 0 8 = v.
Proof.
  intros Hv. unfold u_field. rewrite field_here by apply length_push_u64. unfold push_u64.
  rewrite be_val_bytes. by apply Z.mod_small.
Qed.

Lemma i32_field_here v r : in_i32 v → i32_field (push_i32 v ++ r) 0 4 = v.
Proof.
  intros Hv. unfold i32_field. rewrite field_here by apply length_push_i32. unfold push_i32.
  rewrite be_val_bytes. by apply i32_wrap_u32_wrap.
Qed.

Lemma str_field_skip x r off len :
  (length x ≤ off)%nat → str_field (x ++ r) off len = str_field r (off - length x) len.
Proof. apply field_skip. Qed.

Lemma u_field_skip x r off len :
  (length x ≤ off)%nat → u_field (x ++ r) off len = u_field r (off - length x) len.
Proof. apply field_skip. Qed.

Lemma i32_field_skip x r off len :
  (length x ≤ off)%nat → i32_field (x ++ r) off len = i32_field r (off - length x) len.
Proof. apply field_skip. Qed.

(** Steps over one field of the buffer. *)
Ltac skip_field :=
  let side := (autorewrite with ouchdb; cbn [length]; lia) in
  first [ rewrite str_field_skip by side | rewrite i32_field_skip by side
        | rewrite u_field_skip by side | rewrite byte_at_skip by side ];
  autorewrite with ouchdb; cbn [length Nat.sub].

(** Walks to the field and reads it. *)
Ltac read_field :=
  first [ reflexivity
        | rewrite str_field_here by assumption; reflexivity
        | rewrite u32_field_here by assumption; reflexivity
        | rewrite u64_field_here by assumption; reflexivity
        | rewrite i32_field_here by assumption; reflexivity
        | skip_field; read_field ].

(** ** Round trips *)

Definition encode_message (m : OuchMessage) : list Z :=
  match m with
  | OEnterOrder m => encode_enter m
  | OCancelOrder m => encode_cancel m
  | OReplaceOrder m => encode_replace m
  | OAccepted m => encode_accepted m
  | OExecuted m => encode_executed m
  | OCanceled m => encode_canceled m
  end.

Definition message_len (m : OuchMessage) : nat :=
  match m with
  | OEnterOrder _ => ENTER_LEN
  | OCancelOrder _ => CANCEL_LEN
  | OReplaceOrder _ => REPLACE_LEN
  | OAccepted _ => ACCEPTED_LEN
  | OExecuted _ => EXECUTED_LEN
  | OCanceled _ => CANCELED_LEN
  end.

(** Texts that fit their fields, integers within their types. *)
Definition message_ok (m : OuchMessage) : Prop :=
  match m with
  | OEnterOrder m =>
      text_ok (en_token m) 14 ∧ in_u32 (en_shares m) ∧ text_ok (en_stock m) 8 ∧ in_i32 (en_price m)
      ∧ in_u32 (en_time_in_force m) ∧ text_ok (en_firm m) 4 ∧ in_u32 (en_min_qty m)
  | OCancelOrder m => text_ok (ca_token m) 14 ∧ in_u32 (ca_shares m)
  | OReplaceOrder m =>
      text_ok (re_existing_token m) 14 ∧ text_ok (re_replacement_token m) 14 ∧ in_u32 (re_shares m)
      ∧ in_i32 (re_price m) ∧ in_u32 (re_time_in_force m) ∧ in_u32 (re_min_qty m)
  | OAccepted m =>
      in_u64 (ac_timestamp m) ∧ text_ok (ac_token m) 14 ∧ in_u32 (ac_shares m) ∧ text_ok (ac_stock m) 8
      ∧ in_i32 (ac_price m) ∧ in_u32 (ac_time_in_force m) ∧ text_ok (ac_firm m) 4 ∧ in_u64 (ac_ref_number m)
  | OExecuted m =>
      in_u64 (ex_timestamp m) ∧ text_ok (ex_token m) 14 ∧ in_u32 (ex_shares m) ∧ in_u32 (ex_match_number m)
      ∧ in_i32 (ex_price m)
  | OCanceled m => in_u64 (cd_timestamp m) ∧ text_ok (cd_token m) 14 ∧ in_u32 (cd_decrement m)
  end.

Lemma length_encode_message m : length (encode_message m) = message_len m.
Proof.
  destruct m as [m|m|m|m|m|m]; cbn [encode_message message_len];
    unfold encode_enter, encode_cancel, encode_replace, encode_accepted, encode_executed, encode_canceled;
    autorewrite with ouchdb; reflexivity.
Qed.

Lemma get_str_field b off len : get_str b off len = str_field b off len.
Proof. reflexivity. Qed.

Lemma get_u32_field b off : get_u32 b off = u_field b off 4.
Proof. reflexivity. Qed.

Lemma get_i32_field b off : get_i32 b off = i32_field b off 4.
Proof. reflexivity. Qed.

Lemma get_u64_field b off : get_u64 b off = u_field b off 8.
Proof. reflexivity. Qed.

Ltac message_fields :=
  cbn [en_token en_side en_shares en_stock en_price en_time_in_force en_firm en_display en_capacity
       en_intermarket_sweep en_min_qty en_cross_type en_customer_type ca_token ca_shares re_existing_token
       re_replacement_token re_shares re_price re_time_in_force re_display re_intermarket_sweep re_min_qty
       re_cross_type re_customer_type ac_timestamp ac_token ac_side ac_shares ac_stock ac_price
       ac_time_in_force ac_firm ac_display ac_ref_number ac_order_state ex_timestamp ex_token ex_shares
       ex_match_number ex_price cd_timestamp cd_token cd_decrement cd_reason] in *.

(** One branch of the parser: its type byte is [t], its length test [Hl]; every
    field is read where the encoder put it. *)
Ltac parse_case t Hl :=
  repeat match goal with H : _ ∧ _ |- _ => destruct H end;
  unfold ouch_parse; change (head _) with (Some t); cbn [mbind option_bind];
  rewrite (proj2 (Nat.leb_le _ _) Hl); cbn [andb Z.eqb Pos.eqb]; clear Hl;
  rewrite ?get_str_field, ?get_u32_field, ?get_i32_field, ?get_u64_field;
  unfold encode_enter, encode_cancel, encode_replace, encode_accepted, encode_executed, encode_canceled;
  rewrite <- !app_assoc; do 2 f_equal;
  match goal with |- _ = ?m => destruct m end; f_equal; message_fields; read_field.

(** Encoding and parsing, with whatever follows in the buffer. *)
Lemma parse_encode_message m r : message_ok m → ouch_parse (encode_message m ++ r) = Some m.
Proof.
  intros Hok. assert (message_len m ≤ length (encode_message m ++ r))%nat as Hl.
  { rewrite length_app, length_encode_message. lia. }
  destruct m as [m|m|m|m|m|m]; cbn [encode_message message_len message_ok] in *.
  - parse_case 79 Hl.
  - parse_case 88 Hl.
  - parse_case 85 Hl.
  - parse_case 65 Hl.
  - parse_case 69 Hl.
  - parse_case 67 Hl.
Qed.

(** The length a type byte requires. *)
Definition type_len (t : Z) : option nat :=
  if t =? 79 then Some ENTER_LEN else if t =? 88 then Some CANCEL_LEN else if t =? 85 then Some REPLACE_LEN
  else if t =? 65 then Some ACCEPTED_LEN else if t =? 69 then Some EXECUTED_LEN
  else if t =? 67 then Some CANCELED_LEN else None.

(** One type of message in the lemma below. *)
Ltac refuse t k len buf :=
  destruct (Z.eqb_spec t k) as [->|];
  [ cbn [andb Z.eqb Pos.eqb]; destruct (Nat.leb_spec len (length buf)) as [Hlen|Hlen];
    [ split; [done|]; intros H; specialize (H k len eq_refl eq_refl); lia
    | split; [|done]; intros _ ? ? [= <-]; change (type_len k) with (Some len); by intros [= <-] ]
  | cbn [andb] ].

(** What the parser refuses: an empty buffer, an unknown type, a short message. *)
Lemma ouch_parse_refuses buf :
  ouch_parse buf = None ↔ ∀ t n, head buf = Some t → type_len t = Some n → (length buf < n)%nat.
Proof.
  unfold ouch_parse. destruct (head buf) as [t|]; cbn [mbind option_bind]; [|naive_solver].
  refuse t 79 ENTER_LEN buf. refuse t 88 CANCEL_LEN buf. refuse t 85 REPLACE_LEN buf.
  refuse t 65 ACCEPTED_LEN buf. refuse t 69 EXECUTED_LEN buf. refuse t 67 CANCELED_LEN buf.
  split; [|done]. intros _ ? n' [= <-]. unfold type_len. by rewrite !(proj2 (Z.eqb_neq _ _)) by done.
Qed.

(** C31.  OUCH messages survive the wire.  Every message whose texts fit their
    fields and whose integers are of their types is encoded to exactly the length
    of its type, and parsing gives it back field by field, whatever bytes follow
    in the buffer. *)
Theorem ouch_roundtrip m r :
  message_ok m →
  length (encode_message m) = message_len m ∧ ouch_parse (encode_message m ++ r) = Some m.
Proof. intros Hok. split; [apply length_encode_message|by apply parse_encode_message]. Qed.

Module Witness.

Definition enter0 : EnterOrder :=
  mkEnter [79; 82; 68] 66 100 [65; 65; 80; 76] (-5) 99998 [] 89 65 78 0 78 32.

Lemma ouch_roundtrip_witness :
  ouch_parse (encode_message (OEnterOrder enter0) ++ [1; 2]) = Some (OEnterOrder enter0).
Proof.
  apply (ouch_roundtrip (OEnterOrder enter0) [1; 2]).
  unfold message_ok, text_ok. cbn. split_and!; try lia; try done; repeat constructor; unfold is_ascii; lia.
Defined.

(** A text that ends in a space does not survive: the padding is removed with it. *)
Example trailing_space_lost :
  ouch_parse (encode_cancel (mkCancel [65; 32] 1)) = Some (OCancelOrder (mkCancel [65] 1)).
Proof. vm_compute. reflexivity. Qed.

End Witness.
