(* ===== verification/Wal.v ===== *)
(** * match-wal: the batched write-ahead log

    Models [crates/match-wal/src/lib.rs]: the record, the bounded channel between
    the callers and the flusher thread, the flusher's loop and [write_buf].  The
    outcome of a write is an argument: it succeeds, or it fails after some bytes,
    or the sync after it fails.  The flusher's timeout may fire whenever something
    is buffered.  [sent] is every message ever put into the channel, [received]
    how many of them the flusher has taken: the channel holds the rest. *)
From S2P Require Import Prelude.

#[local] Open Scope Z_scope.

Inductive WalMode := Async | Sync.
Inductive RecordKind := OrderAccepted | Fill | Cancel.

Definition kind_byte (k : RecordKind) : Z := match k with OrderAccepted => 1 | Fill => 2 | Cancel => 3 end.

Record WalRecord := mkWalRecord {
  wr_kind : RecordKind; wr_id_a : Z; wr_id_b : Z; wr_price_tick : Z; wr_qty_lot : Z }.

Definition encode_record (r : WalRecord) : list Z :=
  let buf := replicate 33 0 in
  let buf := copy_at 0 [kind_byte (wr_kind r)] buf in
  let buf := copy_at 1 (le_bytes 8 (wr_id_a r)) buf in
  let buf := copy_at 9 (le_bytes 8 (wr_id_b r)) buf in
  let buf := copy_at 17 (le_bytes 8 (wr_price_tick r)) buf in
  copy_at 25 (le_bytes 8 (wr_qty_lot r)) buf.

Inductive WalError := Busy | Closed | Io.

(** A [Flush] carries a channel for the answer: the answer is filed under the
    message's place in [sent]. *)
Inductive Msg := Rec (r : WalRecord) | Flush | Shutdown.

(** ** The flusher *)

(** What the operating system does with one attempt. *)
Inductive io_outcome := IoOk | WriteFails (written : nat) | SyncFails.

(** [synced] bytes of the file are known to be on disk. *)
Record Flusher := mkFlusher { file : list Z; synced : nat; buf : list Z }.

Definition write_buf (f : Flusher) (io : io_outcome) : Flusher * bool :=
  match buf f with
  | [] => (f, true)
  | _ =>
      match io with
      | IoOk => (mkFlusher (file f ++ buf f) (length (file f ++ buf f)) [], true)
      | WriteFails n => (mkFlusher (file f ++ take n (buf f)) (synced f) (buf f), false)
      | SyncFails => (mkFlusher (file f ++ buf f) (synced f) (buf f), false)
      end
  end.

Definition BATCH_BYTES : Z := 32 * 1024.

(** One message: the flusher, the answer if one is sent, and whether the loop
    goes on. *)
Definition on_msg (f : Flusher) (m : Msg) (io : io_outcome) : Flusher * option bool * bool :=
  match m with
  | Rec r =>
      let f := mkFlusher (file f) (synced f) (buf f ++ encode_record r) in
      if BATCH_BYTES <=? Z.of_nat (length (buf f)) then ((write_buf f io).1, None, true) else (f, None, true)
  | Flush => let '(f, res) := write_buf f io in (f, Some res, true)
  | Shutdown => ((write_buf f io).1, None, false)
  end.

(** ** The log: callers, channel, flusher *)

Record Wal := mkWal {
  cap : nat; sent : list Msg; received : nat; flusher : Flusher; running : bool;
  sender_open : bool; answers : list (nat * bool) }.

(** [open]: the thread starts by opening the file for appending; [content] is
    what it already holds, taken to be on the disk from the runs before, [None] when it
    cannot be opened. *)
Definition wal_open (content : option (list Z)) (queue_cap : nat) : Wal :=
  match content with
  | Some c => mkWal (Nat.max queue_cap 1) [] 0 (mkFlusher c (length c) []) true true []
  | None => mkWal (Nat.max queue_cap 1) [] 0 (mkFlusher [] 0 []) false true []
  end.

Definition queued (w : Wal) : nat := (length (sent w) - received w)%nat.

Definition push (w : Wal) (m : Msg) : Wal :=
  mkWal (cap w) (sent w ++ [m]) (received w) (flusher w) (running w) (sender_open w) (answers w).

(** [SyncSender::try_send] *)
Definition try_send (w : Wal) (m : Msg) : Wal * (WalError + unit) :=
  if negb (running w) then (w, inl Closed)
  else if (cap w <=? queued w)%nat then (w, inl Busy)
  else (push w m, inr tt).

(** [SyncSender::send]; [None] while it blocks. *)
Definition send (w : Wal) (m : Msg) : option (Wal * (WalError + unit)) :=
  if negb (running w) then Some (w, inl Closed)
  else if (cap w <=? queued w)%nat then None
  else Some (push w m, inr tt).

(** [append] in [Async] mode. *)
Definition append_async (w : Wal) (r : WalRecord) : Wal * (WalError + unit) := try_send w (Rec r).

(** [ack_rx.recv()] for the flush request at place [i]: [None] while it blocks. *)
Definition recv_answer (w : Wal) (i : nat) : option (WalError + unit) :=
  match list_find (λ a : nat * bool, a.1 = i) (answers w) with
  | Some (_, (_, true)) => Some (inr tt)
  | Some (_, (_, false)) => Some (inl Io)
  | None => if running w then None else Some (inl Closed)
  end.

(** The steps of the callers and of the flusher. *)
Inductive wal_event :=
| EvAppend (r : WalRecord)
| EvSend (m : Msg)
| EvClose
| EvRecv (io : io_outcome)
| EvTimeout (io : io_outcome)
| EvDisconnected (io : io_outcome).

Definition set_flusher (w : Wal) (f : Flusher) (run : bool) : Wal :=
  mkWal (cap w) (sent w) (received w) f run (sender_open w) (answers w).

(** A step that is not possible leaves the log as it is. *)
Definition wal_step (w : Wal) (ev : wal_event) : Wal :=
  match ev with
  | EvAppend r => if sender_open w then (append_async w r).1 else w
  | EvSend m =>
      if sender_open w then match send w m with Some (w', _) => w' | None => w end else w
  | EvClose => mkWal (cap w) (sent w) (received w) (flusher w) (running w) false (answers w)
  | EvRecv io =>
      if running w then
        match sent w !! received w with
        | None => w
        | Some m =>
            let '(f, ack, go) := on_msg (flusher w) m io in
            mkWal (cap w) (sent w) (S (received w)) f go (sender_open w)
              (match ack with Some res => answers w ++ [(received w, res)] | None => answers w end)
        end
      else w
  | EvTimeout io =>
      if running w && negb (bool_decide (buf (flusher w) = [])) then
        set_flusher w (write_buf (flusher w) io).1 true
      else w
  | EvDisconnected io =>
      if running w && negb (sender_open w) && (length (sent w) <=? received w)%nat then
        set_flusher w (write_buf (flusher w) io).1 false
      else w
  end.

Definition wal_run (w : Wal) (evs : list wal_event) : Wal := foldl wal_step w evs.

(** ** What is in the log *)

Lemma length_encode_record r : length (encode_record r) = 33%nat.
Proof.
  unfold encode_record, copy_at.
  repeat (rewrite !length_app || rewrite !length_take || rewrite !length_drop || rewrite !length_le_bytes
          || rewrite !length_replicate). cbn. lia.
Qed.

Definition records (ms : list Msg) : list WalRecord :=
  omap (λ m, match m with Rec r => Some r | _ => None end) ms.

Definition encode_all (rs : list WalRecord) : list Z := concat (encode_record <$> rs).

Lemma encode_all_app a b : encode_all (a ++ b) = encode_all a ++ encode_all b.
Proof. unfold encode_all. by rewrite fmap_app, concat_app. Qed.

Lemma records_snoc ms m : records (ms ++ [m]) = records ms ++ records [m].
Proof. apply omap_app. Qed.

#[local] Arguments encode_record : simpl never.
#[local] Arguments records : simpl never.

Definition io_ok (ev : wal_event) : Prop :=
  match ev with EvRecv io | EvTimeout io | EvDisconnected io => io = IoOk | _ => True end.

Definition logged (w : Wal) : list Z := encode_all (records (take (received w) (sent w))).

(** [c] is what the file held at the start. *)
Record wal_inv (c : list Z) (w : Wal) : Prop := {
  vi_received : (received w ≤ length (sent w))%nat;
  vi_queued : (1 ≤ cap w ∧ queued w ≤ cap w)%nat;
  vi_bytes : file (flusher w) ++ buf (flusher w) = c ++ logged w;
  vi_synced : synced (flusher w) = length (file (flusher w));
  vi_ended : running w = false → buf (flusher w) = [];
  vi_answers : ∀ i b, (i, b) ∈ answers w →
    b = true ∧ (i < received w)%nat
    ∧ (c ++ encode_all (records (take i (sent w)))) `prefix_of` file (flusher w) }.

Lemma write_buf_ok f :
  synced f = length (file f) →
  (write_buf f IoOk).2 = true
  ∧ file (write_buf f IoOk).1 = file f ++ buf f ∧ buf (write_buf f IoOk).1 = []
  ∧ synced (write_buf f IoOk).1 = length (file f ++ buf f).
Proof.
  intros Hs. unfold write_buf. destruct (buf f) eqn:E; cbn.
  - by rewrite app_nil_r.
  - done.
Qed.

Lemma wal_inv_push c w m : wal_inv c w → running w = true → (queued w < cap w)%nat → wal_inv c (push w m).
Proof.
  intros [H1 H2 H3 H4 H5 H6] Hr Hq. unfold queued in *.
  assert (∀ i, (i ≤ received w)%nat → take i (sent w ++ [m]) = take i (sent w)) as Ht.
  { intros i Hi. apply take_app_le. lia. }
  split; cbn; unfold queued, logged in *; cbn; rewrite ?length_app; cbn; try lia; try done.
  - by rewrite Ht.
  - intros i b Hin. destruct (H6 i b Hin) as (? & ? & Hp). rewrite Ht by lia. done.
Qed.

(** A flusher step that writes: the new file, an answer perhaps. *)
Lemma wal_inv_flush c w f go :
  wal_inv c w → file f = file (flusher w) ++ buf (flusher w) → buf f = [] → synced f = length (file f) →
  wal_inv c (set_flusher w f go).
Proof.
  intros [H1 H2 H3 H4 H5 H6] Hf Hb Hs. split; cbn; try done.
  - by rewrite Hb, app_nil_r, Hf.
  - intros i b Hin. destruct (H6 i b Hin) as (? & ? & Hp). split_and!; try done. rewrite Hf. by apply prefix_app_r.
Qed.

Lemma logged_step w m f go ans :
  sent w !! received w = Some m →
  logged (mkWal (cap w) (sent w) (S (received w)) f go (sender_open w) ans)
  = logged w ++ encode_all (records [m]).
Proof.
  intros Hm. unfold logged. cbn. by rewrite (take_S_r _ _ _ Hm), records_snoc, encode_all_app.
Qed.

Lemma wal_inv_recv c w m :
  wal_inv c w → sent w !! received w = Some m →
  wal_inv c (let '(f, ack, go) := on_msg (flusher w) m IoOk in
             mkWal (cap w) (sent w) (S (received w)) f go (sender_open w)
               (match ack with Some res => answers w ++ [(received w, res)] | None => answers w end)).
Proof.
  intros Hw Hm. pose proof (lookup_lt_Some _ _ _ Hm) as Hlt. destruct Hw as [H1 H2 H3 H4 H5 H6].
  assert (∀ F f, file f = file (flusher w) ++ F → ∀ i b, (i, b) ∈ answers w →
    b = true ∧ (i < S (received w))%nat ∧ (c ++ encode_all (records (take i (sent w)))) `prefix_of` file f) as Ha.
  { intros F f HF i b Hin. destruct (H6 i b Hin) as (? & ? & Hp). split_and!; [done|lia|]. rewrite HF. by apply prefix_app_r. }
  unfold queued in *. destruct m as [r| |]; cbn [on_msg].
  - set (f0 := mkFlusher (file (flusher w)) (synced (flusher w)) (buf (flusher w) ++ encode_record r)).
    assert (encode_all (records [Rec r]) = encode_record r) as He by (cbn; apply app_nil_r).
    destruct (write_buf_ok f0 H4) as (_ & Hf & Hb & Hs).
    destruct (BATCH_BYTES <=? _); split; unfold queued; cbn [cap sent received flusher running answers]; try lia; try done.
    + rewrite (logged_step w (Rec r)), He, Hf, Hb, app_nil_r by done. cbn. by rewrite !app_assoc, H3.
    + by rewrite Hs, Hf.
    + by apply (Ha _ _ Hf).
    + rewrite (logged_step w (Rec r)), He by done. cbn. by rewrite !app_assoc, H3.
    + apply (Ha []). cbn. by rewrite app_nil_r.
  - destruct (write_buf_ok (flusher w) H4) as (Hok & Hf & Hb & Hs).
    destruct (write_buf (flusher w) IoOk) as [f res]. cbn [fst snd] in *. subst res.
    split; unfold queued; cbn [cap sent received flusher running answers]; try lia; try done.
    + rewrite (logged_step w Flush) by done. rewrite Hf, Hb, !app_nil_r. done.
    + by rewrite Hs, Hf.
    + intros i b [Hin|[= -> ->]%list_elem_of_singleton]%elem_of_app; [by apply (Ha _ _ Hf)|].
      split_and!; [done|lia|]. rewrite Hf, H3. done.
  - destruct (write_buf_ok (flusher w) H4) as (Hok & Hf & Hb & Hs).
    split; unfold queued; cbn [cap sent received flusher running answers]; try lia; try done.
    + rewrite (logged_step w Shutdown) by done. rewrite Hf, Hb, !app_nil_r. done.
    + by rewrite Hs, Hf.
    + by apply (Ha _ _ Hf).
Qed.

Lemma wal_inv_step c w ev : io_ok ev → wal_inv c w → wal_inv c (wal_step w ev).
Proof.
  intros Hio Hw. destruct ev as [r|m| |io|io|io]; cbn in Hio; subst; cbn [wal_step].
  - destruct (sender_open w); [|done]. unfold append_async, try_send. destruct (running w) eqn:Hr; [|done].
    cbn. destruct (Nat.leb_spec (cap w) (queued w)); [done|]. by apply wal_inv_push.
  - destruct (sender_open w); [|done]. unfold send. destruct (running w) eqn:Hr; [|done].
    cbn. destruct (Nat.leb_spec (cap w) (queued w)); [done|]. by apply wal_inv_push.
  - by destruct Hw.
  - destruct (running w); [|done]. destruct (sent w !! received w) as [m|] eqn:Hm; [|done]. by apply wal_inv_recv.
  - destruct (running w && _); [|done]. destruct (write_buf_ok (flusher w) (vi_synced _ _ Hw)) as (_ & Hf & Hb & Hs).
    apply wal_inv_flush; try done. by rewrite Hs, Hf.
  - destruct (_ && _); [|done]. destruct (write_buf_ok (flusher w) (vi_synced _ _ Hw)) as (_ & Hf & Hb & Hs).
    apply wal_inv_flush; try done. by rewrite Hs, Hf.
Qed.

Lemma wal_inv_run c w evs : Forall io_ok evs → wal_inv c w → wal_inv c (wal_run w evs).
Proof.
  revert w; induction evs as [|ev evs IH]; intros w Hio Hw; [done|].
  apply Forall_cons in Hio as [Hev Hio]. apply IH; [done|]. by apply wal_inv_step.
Qed.

Lemma wal_inv_open c queue_cap : wal_inv c (wal_open (Some c) queue_cap).
Proof.
  split; unfold queued; cbn; try done; try lia. intros i b H. by apply not_elem_of_nil in H.
Qed.

Lemma recv_answer_ok c w i :
  wal_inv c w → recv_answer w i = Some (inr tt) →
  (c ++ encode_all (records (take i (sent w)))) `prefix_of` file (flusher w).
Proof.
  intros Hw. unfold recv_answer.
  destruct (list_find _ (answers w)) as [[j [i' b]]|] eqn:E; [|by destruct (running w)].
  apply list_find_Some in E as (Hj & Hi & _). cbn in Hi. subst i'.
  apply list_elem_of_lookup_2 in Hj. destruct (vi_answers _ _ Hw _ _ Hj) as (-> & _ & Hp). done.
Qed.

(** ** Properties *)

(** C23.  Nothing is lost, repeated or reordered.  From a file that holds [c],
    whatever callers and flusher do and however their steps interleave, as long as
    the writes succeed: file and buffer together are [c] and the records received
    so far, in the order sent, at 33 bytes each; the whole file is synced; the
    channel never holds more than its capacity; a flush that was answered with
    success has every record sent before it in the file. *)
Theorem wal_log_exact c queue_cap evs :
  Forall io_ok evs →
  let w := wal_run (wal_open (Some c) queue_cap) evs in
  let f := flusher w in
  file f ++ buf f = c ++ encode_all (records (take (received w) (sent w)))
  ∧ synced f = length (file f)
  ∧ (queued w ≤ Nat.max queue_cap 1)%nat
  ∧ ∀ i, recv_answer w i = Some (inr tt) →
      (c ++ encode_all (records (take i (sent w)))) `prefix_of` file f.
Proof.
  intros Hio w f. pose proof (wal_inv_run c _ evs Hio (wal_inv_open c queue_cap)) as Hw. fold w in Hw.
  split_and!; [apply Hw|apply Hw| |].
  - assert (∀ w0, cap (wal_run w0 evs) = cap w0) as Hcap.
    { clear. induction evs as [|ev evs IH]; intros w0; [done|]. cbn. rewrite IH.
      unfold wal_step, append_async, try_send, send. repeat case_match; simplify_eq; done. }
    pose proof (vi_queued _ _ Hw) as [_ Hq]. unfold w in Hq at 2. by rewrite Hcap in Hq.
  - intros i Hi. by eapply recv_answer_ok.
Qed.

(** The flusher taking [n] messages, none of them a shutdown, with no write
    failing. *)
Lemma wal_drain c w n :
  wal_inv c w → running w = true → (n ≤ queued w)%nat → Shutdown ∉ take n (drop (received w) (sent w)) →
  let w1 := wal_run w (replicate n (EvRecv IoOk)) in
  wal_inv c w1 ∧ running w1 = true ∧ received w1 = (received w + n)%nat ∧ sent w1 = sent w.
Proof.
  revert w; induction n as [|n IH]; intros w Hw Hr Hq Hns; cbn [replicate wal_run foldl].
  { split_and!; (done || lia). }
  pose proof (wal_inv_step c w (EvRecv IoOk) eq_refl Hw) as Hw'. revert Hw'. cbn [wal_step]. rewrite Hr.
  destruct (lookup_lt_is_Some_2 (sent w) (received w)) as [m Hm]; [unfold queued in Hq; lia|]. rewrite Hm.
  rewrite (drop_S _ _ _ Hm) in Hns. cbn [take] in Hns. apply not_elem_of_cons in Hns as [Hne Hns].
  destruct (on_msg (flusher w) m IoOk) as [[f ack] go] eqn:E.
  assert (go = true) as ->.
  { destruct m; [..|done]; cbn in E; [destruct (_ <=? _)|destruct (write_buf _ _)]; by injection E. }
  intros Hw'. destruct (IH _ Hw') as (H1 & H2 & H3 & H4); [done|unfold queued in *; cbn; lia|done|].
  split_and!; [done|done|etrans; [exact H3|cbn; lia]|done].
Qed.

(** Closing the log writes everything.  Take any run in which the writes
    succeeded and the log was not shut down.  When the handle is dropped and its
    shutdown message has entered the channel, the flusher ends after it has taken
    the messages in front of it, and the file is then exactly the old content and
    every record ever accepted, in order, all of it synced. *)
Theorem wal_close_writes_all c queue_cap evs :
  Forall io_ok evs →
  let w := wal_run (wal_open (Some c) queue_cap) evs in
  running w = true → sender_open w = true → (queued w < cap w)%nat → Shutdown ∉ sent w →
  let w' := wal_run w (EvSend Shutdown :: EvClose :: replicate (S (queued w)) (EvRecv IoOk)) in
  running w' = false
  ∧ file (flusher w') = c ++ encode_all (records (sent w))
  ∧ synced (flusher w') = length (file (flusher w')).
Proof.
  intros Hio w Hr Ho Hq Hns w'. pose proof (wal_inv_run c _ evs Hio (wal_inv_open c queue_cap)) as Hw. fold w in Hw.
  set (w1 := wal_run w [EvSend Shutdown; EvClose]).
  assert (w1 = mkWal (cap w) (sent w ++ [Shutdown]) (received w) (flusher w) true false (answers w)) as Hw1.
  { subst w1. cbn [wal_run foldl wal_step]. rewrite Ho. unfold send. rewrite Hr. cbn.
    rewrite (proj2 (Nat.leb_gt _ _)) by lia. cbn. by rewrite Hr. }
  assert (wal_inv c w1) as Hi1 by (apply wal_inv_run; [by repeat constructor|done]).
  pose proof (vi_received _ _ Hw) as Hrec.
  destruct (wal_drain c w1 (queued w)) as (Hi2 & Hr2 & Hn2 & Hs2); [done|by rewrite Hw1| | |].
  { rewrite Hw1. unfold queued. cbn. rewrite length_app. cbn. lia. }
  { rewrite Hw1. cbn. rewrite drop_app_le, take_app_le by (rewrite ?length_drop; unfold queued; lia).
    by intros Hin%subseteq_take%subseteq_drop. }
  set (w2 := wal_run w1 (replicate (queued w) (EvRecv IoOk))) in *.
  assert (w' = wal_step w2 (EvRecv IoOk)) as ->.
  { subst w' w2 w1. unfold wal_run. rewrite replicate_S_end. by rewrite !app_comm_cons, foldl_app. }
  assert (received w2 = length (sent w)) as Hlen.
  { rewrite Hn2, Hw1. unfold queued. cbn. lia. }
  assert (sent w2 = sent w ++ [Shutdown]) as Hs by (by rewrite Hs2, Hw1).
  pose proof (vi_bytes _ _ Hi2) as Hbytes. unfold logged in Hbytes. rewrite Hs, Hlen, take_app_length in Hbytes.
  destruct (write_buf_ok (flusher w2) (vi_synced _ _ Hi2)) as (_ & Hf & _ & Hsy).
  cbn [wal_step]. rewrite Hr2, Hs, Hlen, list_lookup_middle by done. cbn [on_msg running flusher].
  split_and!; [done|by rewrite Hf|by rewrite Hsy, Hf].
Qed.

Lemma timeout_step w io :
  running w = true → buf (flusher w) ≠ [] →
  wal_step w (EvTimeout io) = set_flusher w (write_buf (flusher w) io).1 true.
Proof. intros Hr Hb. cbn. by rewrite Hr, bool_decide_eq_false_2. Qed.

Lemma write_buf_fails f n io :
  buf f ≠ [] → io = WriteFails n ∨ io = SyncFails ∧ n = length (buf f) →
  (write_buf f io).1 = mkFlusher (file f ++ take n (buf f)) (synced f) (buf f).
Proof.
  intros Hb [->|[-> ->]]; unfold write_buf; destruct (buf f) eqn:E; try done. by rewrite take_ge.
Qed.

(** A failed write is repeated behind what it left.  When an attempt fails
    after [n] bytes, or its sync fails after all of them, the buffer is kept and
    the next attempt appends it whole: the file holds the bytes of the first
    attempt and then all of the batch again. *)
Theorem wal_retry_appends_again w n io :
  running w = true → buf (flusher w) ≠ [] →
  io = WriteFails n ∨ io = SyncFails ∧ n = length (buf (flusher w)) →
  let w' := wal_run w [EvTimeout io; EvTimeout IoOk] in
  file (flusher w') = file (flusher w) ++ take n (buf (flusher w)) ++ buf (flusher w)
  ∧ buf (flusher w') = [] ∧ received w' = received w.
Proof.
  intros Hr Hb Hio w'. subst w'. cbn [wal_run foldl]. rewrite (timeout_step w io) by done.
  rewrite (write_buf_fails _ n io) by done.
  rewrite timeout_step by done. cbn [set_flusher flusher received file buf].
  unfold write_buf. cbn [buf file]. destruct (buf (flusher w)); [done|]. cbn. by rewrite <- !app_assoc.
Qed.

Module Witness.

Definition r1 : WalRecord := mkWalRecord OrderAccepted 1 2 3 4.
Definition r2 : WalRecord := mkWalRecord Fill 5 6 (-7) 8.
Definition evs1 : list wal_event :=
  [EvAppend r1; EvRecv IoOk; EvTimeout IoOk; EvAppend r2; EvSend Flush; EvRecv IoOk; EvRecv IoOk].

Lemma wal_log_exact_witness :
  Nat.le (queued (wal_run (wal_open (Some [9]) 2) evs1)) 2
  ∧ ([9] ++ encode_all [r1; r2]) `prefix_of` file (flusher (wal_run (wal_open (Some [9]) 2) evs1)).
Proof.
  destruct (wal_log_exact [9] 2 evs1) as (_ & _ & Hq & Ha); [by repeat constructor|].
  split; [exact Hq|]. apply (Ha 2%nat). vm_compute. reflexivity.
Defined.

Lemma wal_close_writes_all_witness :
  file (flusher (wal_run (wal_run (wal_open (Some []) 3) [EvAppend r1; EvAppend r2])
    [EvSend Shutdown; EvClose; EvRecv IoOk; EvRecv IoOk; EvRecv IoOk])) = encode_all [r1; r2].
Proof.
  apply (wal_close_writes_all [] 3 [EvAppend r1; EvAppend r2]).
  - by repeat constructor.
  - reflexivity.
  - reflexivity.
  - vm_compute. lia.
  - intros H. vm_compute in H. by apply elem_of_cons in H as [?|[?|?%not_elem_of_nil]%elem_of_cons].
Defined.

Lemma wal_retry_appends_again_witness :
  file (flusher (wal_run (wal_run (wal_open (Some []) 3) [EvAppend r1; EvRecv IoOk])
    [EvTimeout SyncFails; EvTimeout IoOk])) = encode_all [r1; r1].
Proof.
  apply (wal_retry_appends_again (wal_run (wal_open (Some []) 3) [EvAppend r1; EvRecv IoOk]) 33 SyncFails).
  - reflexivity.
  - discriminate.
  - right. split; reflexivity.
Defined.

End Witness.
