(* ===== verification/Adapter.v ===== *)
(** * match-core-hp: from protocol orders to engine commands

    Models [crates/match-core-hp/src/adapter.rs] and the [hp-engine] variant of
    the worker loop of [crates/match-contract/src/symbol_worker.rs]: a protocol
    order is converted to ticks and lots and run by the engine; an order that does
    not convert is skipped.  The worker runs every order without getting stuck;
    but a revoke names the order by the client's number, which the engine reads
    as one of its own ids first. *)
From stdpp Require Import gmap.
From S2P Require Import Prelude Decimal Protocol HpTypes HpIndex HpBook HpEngine HpProps HpScale Utf8.

#[local] Open Scope Z_scope.

Inductive AdapterError :=
| Scale (e : ScaleError)
| UnsupportedSide
| UnsupportedForm
| InvalidOrderId
| InvalidTimestamp
| InvalidGear.

Section Adapter.
Context `{BD : BigDecimal}.

(** [parse_id]: [str::parse::<u64>] *)
Definition parse_id (s : string) : AdapterError + Z :=
  match parse_u64 (bytes_of s) with Some n => inr n | None => inl InvalidOrderId end.

Definition decimal_text (d : bd) : list ascii := String.list_ascii_of_string (bd_to_string (bd_normalized d)).

Definition decimal_to_tick (scale : SymbolScale) (d : bd) : AdapterError + Z :=
  match to_tick scale (decimal_text d) with inr v => inr v | inl e => inl (Scale e) end.

Definition decimal_to_lot (scale : SymbolScale) (d : bd) : AdapterError + Z :=
  match to_lot scale (decimal_text d) with inr v => inr v | inl e => inl (Scale e) end.

Definition from_bb_order (o : BbOrder) (scale : SymbolScale) : AdapterError + HpCommand :=
  if order_status o =? ORDER_STATUS_REVOKE then
    match parse_id (trust_order_no o) with inl e => inl e | inr id => inr (Cancel id) end
  else
    match (if order_type o =? ORDER_TYPE_BUY then Some Buy
           else if order_type o =? ORDER_TYPE_SELL then Some Sell else None) with
    | None => inl UnsupportedSide
    | Some side =>
        if create_time o <? 0 then inl InvalidTimestamp
        else
          let ts := create_time o in
          match parse_id (trust_order_no o) with
          | inl e => inl e
          | inr client_id =>
              match decimal_to_lot scale (remaining_number o) with
              | inl e => inl e
              | inr qty_lot =>
                  if order_form o =? ORDER_FORM_LIMIT then
                    match decimal_to_tick scale (trust_price o) with
                    | inl e => inl e
                    | inr price_tick => inr (Limit side price_tick qty_lot ts client_id)
                    end
                  else if order_form o =? ORDER_FORM_MARKET_PRICE then
                    match gear o with
                    | Some g =>
                        if 1 <=? g then inr (Market side qty_lot ts (Some (u32_wrap g)) client_id)
                        else inl InvalidGear
                    | None => inl InvalidGear
                    end
                  else inl UnsupportedForm
              end
          end
    end.

(** ** The worker loop with this engine *)
Context {BI AI : Type} `{LB : LevelIndex BI} `{LA : LevelIndex AI}.
Implicit Types e : HpEngine BI AI.

(** One round of [while let Some(order) = rx.recv()]: the events for [outbound]. *)
Definition hp_worker_step e (scale : SymbolScale) (o : BbOrder) : option (list HpEvent * HpEngine BI AI) :=
  match from_bb_order o scale with
  | inl _ => Some ([], e)
  | inr cmd => hp_on_order e cmd
  end.

Fixpoint hp_worker_run e (scale : SymbolScale) (l : list BbOrder) : option (list HpEvent * HpEngine BI AI) :=
  match l with
  | [] => Some ([], e)
  | o :: l =>
      '(evs, e) ← hp_worker_step e scale o;
      '(evs', e) ← hp_worker_run e scale l;
      Some (evs ++ evs', e)
  end.

End Adapter.

(** ** What comes out of a conversion *)

Lemma parse_i64_range s acc v :
  forallb is_ascii_digit s = true → 0 <= acc <= i64_max → parse_i64 acc s = Some v → 0 <= v <= i64_max.
Proof.
  revert acc; induction s as [|c s IH]; intros acc Hd Ha; cbn [parse_i64 forallb] in *; [by intros [= <-]|].
  apply andb_prop in Hd as [Hc Hd]. apply digit_facts in Hc. destruct (Z.leb_spec (acc * 10 + digit_value c) i64_max); [|done].
  apply IH; [done|lia].
Qed.

Lemma forallb_trim_start p q s : forallb q s = true → forallb q (trim_start p s) = true.
Proof.
  induction s as [|c s IH]; cbn; [done|]. intros [Hc Hs]%andb_prop. destruct (p c); [auto|].
  cbn. by rewrite Hc.
Qed.

Lemma parse_fixed_range s scale v : parse_fixed s scale = inr v → in_i64 v.
Proof.
  unfold parse_fixed. destruct (trim s) as [|c rest]; [done|].
  destruct (if Ascii.eqb c MINUS then _ else _) as [neg body]. destruct body as [|b body]; [done|].
  destruct (match split_once DOT (b :: body) with Some p => p | None => _ end) as [ip fp].
  destruct (negb (ascii_digits_or_nonempty_int ip)) eqn:Hi; [done|].
  destruct (negb (forallb is_ascii_digit fp)) eqn:Hf; [done|].
  destruct (_ >? scale); [done|]. apply negb_false_iff in Hi, Hf.
  apply andb_prop in Hi as [_ Hi]. set (z := replicate _ ZERO).
  assert (forallb is_ascii_digit (ip ++ fp ++ z) = true) as Hd.
  { rewrite !forallb_app, Hi, Hf. cbn. subst z. by induction (_ - _)%nat. }
  set (ds := match trim_start _ _ with [] => [ZERO] | _ => _ end).
  assert (forallb is_ascii_digit ds = true) as Hds.
  { subst ds. pose proof (forallb_trim_start (λ c, Ascii.eqb c ZERO) _ _ Hd) as H.
    by destruct (trim_start _ _). }
  destruct (parse_i64 0 ds) as [w|] eqn:Hp; [|done].
  apply parse_i64_range in Hp; [|done|unfold i64_max; lia]. unfold i64_max, in_i64 in *.
  destruct neg; [destruct (w =? - 2 ^ 63); [done|]|]; intros [= <-]; lia.
Qed.

Section Facts.
Context `{BD : BigDecimal}.

(** [gear] is an [i32]. *)
Definition order_typed (o : BbOrder) : Prop := ∀ g, gear o = Some g → in_i32 g.

(** A revoke of order number 0 is not used: see [HpProps] on client 0. *)
Definition not_revoke_zero (o : BbOrder) : Prop :=
  order_status o = ORDER_STATUS_REVOKE → parse_id (trust_order_no o) ≠ inr 0.

Lemma from_bb_order_wf o scale c :
  order_typed o → not_revoke_zero o → from_bb_order o scale = inr c → wf_command c.
Proof.
  intros Ht Hz. unfold from_bb_order, decimal_to_lot, decimal_to_tick, to_lot, to_tick.
  destruct (Z.eqb_spec (order_status o) ORDER_STATUS_REVOKE) as [Hr|_].
  { destruct (parse_id _) as [|i] eqn:E; [done|]. intros [= <-] ->. by apply Hz in Hr. }
  destruct (if order_type o =? ORDER_TYPE_BUY then _ else _) as [side|]; [|done].
  destruct (create_time o <? 0); [done|]. destruct (parse_id _) as [|i]; [done|].
  destruct (parse_fixed (decimal_text (remaining_number o)) _) as [|q] eqn:Hq; [done|].
  apply parse_fixed_range in Hq. destruct (order_form o =? ORDER_FORM_LIMIT).
  - destruct (parse_fixed (decimal_text (trust_price o)) _) as [|p] eqn:Hp; [done|].
    apply parse_fixed_range in Hp. by intros [= <-].
  - destruct (order_form o =? ORDER_FORM_MARKET_PRICE); [|done]. destruct (gear o) as [g|] eqn:Hg; [|done].
    destruct (Z.leb_spec 1 g); [|done]. intros [= <-]. split; [done|]. intros mx [= <-].
    specialize (Ht g Hg). unfold in_i32 in Ht. rewrite u32_wrap_id; unfold in_u32; lia.
Qed.

End Facts.

Section Exact.
Context `{BD : BigDecimal}.

(** The text of a decimal in plain notation: sign, digits, perhaps a point and
    digits.  [plain_value] is the number it writes, scaled. *)
Definition plain (d : bd) (g : Sign) (I : list ascii) (f : option (list ascii)) : Prop :=
  decimal_text d = sign_chars g ++ I ++ point_chars f ∧ all_digits I ∧ I ≠ [] ∧ all_digits (frac f).

Definition plain_value (scale : Z) (g : Sign) (I : list ascii) (f : option (list ascii)) : Z :=
  signed g (num (I ++ frac f) * 10 ^ (scale - Z.of_nat (length (frac f)))).

Lemma parse_fixed_plain d g I f scale :
  plain d g I f → Z.of_nat (length (frac f)) <= scale → Z.abs (plain_value scale g I f) <= i64_max →
  parse_fixed (decimal_text d) scale = inr (plain_value scale g I f).
Proof.
  intros (Ht & HI & Hne & Hf) Hs Hb.
  assert (decimal_text d = [] ++ (sign_chars g ++ I ++ point_chars f) ++ []) as -> by (by rewrite app_nil_r).
  rewrite parse_fixed_spec by (done || constructor || lia).
  rewrite Z.gtb_ltb, (proj2 (Z.ltb_ge _ _)) by lia. unfold parsed.
  assert (0 <= num (I ++ frac f) * 10 ^ (scale - Z.of_nat (length (frac f)))) as Hp.
  { apply Z.mul_nonneg_nonneg; [apply num_nonneg, Forall_app; done|apply Z.pow_nonneg; lia]. }
  rewrite (proj2 (Z.leb_le _ _)); [done|]. unfold plain_value, signed in Hb. destruct g; lia.
Qed.

(** A limit order whose decimals print in plain notation, with no more fractional
    digits than the scale and within 64 bits, becomes the limit command with
    exactly those ticks and lots. *)
Lemma adapter_limit_exact o sc side id g I f g' I' f' :
  order_status o ≠ ORDER_STATUS_REVOKE → order_form o = ORDER_FORM_LIMIT →
  order_type o = (match side with Buy => ORDER_TYPE_BUY | Sell => ORDER_TYPE_SELL end) →
  0 <= create_time o → parse_id (trust_order_no o) = inr id →
  plain (trust_price o) g I f → Z.of_nat (length (frac f)) <= price_scale sc →
  Z.abs (plain_value (price_scale sc) g I f) <= i64_max →
  plain (remaining_number o) g' I' f' → Z.of_nat (length (frac f')) <= qty_scale sc →
  Z.abs (plain_value (qty_scale sc) g' I' f') <= i64_max →
  from_bb_order o sc
  = inr (Limit side (plain_value (price_scale sc) g I f) (plain_value (qty_scale sc) g' I' f') (create_time o) id).
Proof.
  intros Hst Hfo Hty Hct Hid Hp Hp1 Hp2 Hq Hq1 Hq2. unfold from_bb_order.
  rewrite (proj2 (Z.eqb_neq _ _) Hst), (proj2 (Z.ltb_ge _ _) Hct), Hid, Hfo, Z.eqb_refl.
  unfold decimal_to_lot, decimal_to_tick, to_lot, to_tick.
  rewrite (parse_fixed_plain _ _ _ _ _ Hq Hq1 Hq2), (parse_fixed_plain _ _ _ _ _ Hp Hp1 Hp2).
  rewrite Hty. by destruct side.
Qed.

End Exact.

Section Props.
Context `{BD : BigDecimal}.
Context {BI AI : Type} `{LB : LevelIndex BI} `{LA : LevelIndex AI}
  `{SB : !LevelIndexSpec BI Buy} `{SA : !LevelIndexSpec AI Sell}.
Implicit Types e : HpEngine BI AI.

(** The worker with the performance engine handles every order.  Whatever
    orders it receives (their gears 32-bit integers, none a revoke of number 0),
    each either fails to convert and changes nothing, or becomes a command of the
    widths the engine expects; the whole stream is processed to the end and the
    engine stays sound. *)
Theorem hp_worker_runs e sc l :
  engine_ok e → Forall order_typed l → Forall not_revoke_zero l →
  Forall (λ o, ∀ c, from_bb_order o sc = inr c → wf_command c) l
  ∧ ∃ evs e', hp_worker_run e sc l = Some (evs, e') ∧ engine_ok e'.
Proof.
  intros He Ht Hz. split.
  { apply Forall_forall. intros o Ho c. rewrite Forall_forall in Ht, Hz. apply from_bb_order_wf; auto. }
  revert e He; induction l as [|o l IH]; intros e He; cbn [hp_worker_run].
  { by exists [], e. }
  apply Forall_cons_1 in Ht as [Ho Ht]. apply Forall_cons_1 in Hz as [Hz0 Hz]. unfold hp_worker_step.
  destruct (from_bb_order o sc) as [|c] eqn:Hc.
  - cbn. destruct (IH Ht Hz e He) as (evs & e' & -> & He'). by eexists _, e'.
  - destruct (hp_on_order_ok e c He (from_bb_order_wf _ _ _ Ho Hz0 Hc)) as (evs & e1 & -> & He1). cbn.
    destruct (IH Ht Hz e1 He1) as (evs' & e' & -> & He'). by eexists _, e'.
Qed.

(** A revoke can hit another client's order.  The revoke names the client's
    order number; when the engine happens to have a live order under that number
    as its own id, that order is the one revoked and reported, whoever owns it,
    and every other order, the client's own included, stays. *)
Theorem hp_revoke_hits_foreign_order e sc o i victim :
  engine_ok e → order_status o = ORDER_STATUS_REVOKE → parse_id (trust_order_no o) = inr i →
  store_get (store (book e)) i = Some victim → client_id victim ≠ i →
  ∃ e', hp_worker_step e sc o = Some ([Revoke i (client_id victim) 0], e')
    ∧ store_get (store (book e')) i = None
    ∧ ∀ j own, store_get (store (book e)) j = Some own → client_id own = i →
        store_get (store (book e')) j = Some own.
Proof.
  intros He Hst Hid Hg Hv. unfold hp_worker_step, from_bb_order. rewrite Hst, Z.eqb_refl, Hid.
  destruct (hp_cancel_by_id e i victim He Hg) as (e' & Hr & _ & Hget & _).
  exists e'. split_and!; [exact Hr| |].
  - by rewrite Hget, decide_True.
  - intros j own Hj Ho. rewrite Hget. case_decide as Hij; [|done]. subst j. congruence.
Qed.

End Props.

Module Witness.
Import HpProps.Witness.

(** A decimal that is the text it prints. *)
Definition text_decimal : BigDecimal := {|
  bd := string; bd_zero := "0"%string; bd_from _ := "0"%string; bd_add a _ := a; bd_sub a _ := a;
  bd_mul a _ := a; bd_div a _ := a; bd_cmp _ _ := Eq; bd_round_half_down a _ := a; bd_normalized a := a;
  bd_to_string a := a; bd_from_str s := Some s |}.

Definition order (ty status form : Z) (no : string) (g : option Z) (number price : string) : BbOrder (BD := text_decimal) :=
  mkBbOrder (BD := text_decimal) 1 1 1 ty 1 1 "s"%string "m"%string no form g 0 "0"%string "0"%string 1 1 status
    "0"%string "0"%string number price number 5 None "0"%string.

Definition sc2 : SymbolScale := mkScale 2 1.

(** A limit order, a market order with gear 1, an order whose price does not fit
    the scale, a revoke by client number. *)
Definition orders4 : list (BbOrder (BD := text_decimal)) :=
  [order 1 1 1 "77"%string None "3"%string "1.05"%string; order 2 1 2 "78"%string (Some 1) "1.5"%string "0"%string;
   order 1 1 1 "79"%string None "3"%string "1.055"%string; order 1 3 1 "77"%string None "3"%string "1"%string].

Lemma hp_worker_runs_witness :
  ∃ evs e', hp_worker_run (BD := text_decimal) sample sc2 orders4 = Some (evs, e') ∧ engine_ok e'.
Proof.
  apply (hp_worker_runs (BD := text_decimal) sample sc2 orders4 sample_ok).
  - repeat (apply Forall_cons_2; [intros g Hg; cbn in Hg; try discriminate; injection Hg as <-; unfold in_i32; lia|]).
    apply Forall_nil_2.
  - repeat (apply Forall_cons_2; [intros _; vm_compute; discriminate|]). apply Forall_nil_2.
Defined.

Example worker_events :
  fst <$> hp_worker_run (BD := text_decimal) (hp_engine_new : eng) sc2 orders4
  = Some [Rest 1 77 Buy 105 30; Fill 1 2 77 78 105 15 15 0; Revoke 1 77 0].
Proof. vm_compute. reflexivity. Qed.

(** Client number 1 asks to revoke its order; order id 1 belongs to client 7. *)
Lemma hp_revoke_hits_foreign_order_witness :
  ∃ e', hp_worker_step (BD := text_decimal) sample sc2 (order 1 3 1 "1"%string None "3"%string "1"%string)
        = Some ([Revoke 1 7 0], e') ∧ store_get (store (book e')) 1 = None.
Proof.
  destruct (store_get (store (book sample)) 1) as [victim|] eqn:Hg; [|exfalso; vm_compute in Hg; discriminate].
  assert (client_id victim = 7) as Hc by (vm_compute in Hg; injection Hg as <-; reflexivity).
  destruct (hp_revoke_hits_foreign_order (BD := text_decimal) sample sc2
    (order 1 3 1 "1"%string None "3"%string "1"%string) 1 victim sample_ok) as (e' & Hr & Hs & _).
  - reflexivity.
  - reflexivity.
  - exact Hg.
  - rewrite Hc. discriminate.
  - exists e'. rewrite Hc in Hr. split; [exact Hr|exact Hs].
Defined.

End Witness.
