(* ===== verification/Contract.v ===== *)
(** * match-contract: from queue message to engine to push messages

    Models the decision-making parts of [crates/match-contract/src]: the startup
    duplicate filter and the router ([inbound.rs]), the restore loop of
    [bootstrap.rs], the worker's round ([symbol_worker.rs]), the outbound mapping,
    depth throttle and error queue ([outbound.rs], [error_queue.rs]).

    A channel is its capacity and its contents.  What the environment decides is
    an argument: the clock, whether a send or a Redis push succeeds, and what
    [serde_json] reads out of a message.  A body is the value handed to
    [serde_json], which always serializes these plain records.  [ob_log] records
    every attempt to send, with its time and outcome.  Counters and logging are
    left out. *)
From stdpp Require Import gmap.
From S2P Require Import Prelude Decimal Protocol HpTypes HpBook HpEngine HpScale Utf8 CoreBook CoreMatch CoreEngine.

#[local] Open Scope Z_scope.

Section Contract.
Context `{BD : BigDecimal}.

(** ** The startup filter ([StartQueueState]) *)

Record StartQueueState := mkStartQueue {
  restored : gmap string (gset string); big_no : Z; active : bool }.

Definition start_queue_new : StartQueueState := mkStartQueue ∅ 0 true.

Definition parse_no (no : string) : option Z := parse_i64_text (bytes_of no).

(** The compare-and-exchange loop leaves the larger of the two numbers. *)
Definition record_restored (q : StartQueueState) (symbol no : string) : StartQueueState :=
  let set := default ∅ (restored q !! symbol) in
  let map := <[symbol := {[no]} ∪ set]> (restored q) in
  match parse_no no with
  | Some n => mkStartQueue map (if big_no q <? n then n else big_no q) (active q)
  | None => mkStartQueue map (big_no q) (active q)
  end.

Definition start_queue_clear (q : StartQueueState) : StartQueueState := mkStartQueue ∅ 0 false.

Definition should_dedupe (q : StartQueueState) (o : BbOrder) : bool :=
  if negb (active q) then false
  else if order_status o =? ORDER_STATUS_REVOKE then false
  else if bool_decide (restored q = ∅) then false
  else if (match restored q !! symbol_key o with
           | Some set => bool_decide (trust_order_no o ∈ set) | None => false end) then true
  else if 0 <? big_no q then
    match parse_no (trust_order_no o) with Some n => n <=? big_no q | None => false end
  else false.

(** ** The router ([InboundRouter]) *)

Inductive InboundError := Json | MissingQueue (symbol : string) | ChannelFull | ChannelClosed.

Record Chan := mkChan { ch_cap : nat; ch_items : list BbOrder; ch_open : bool }.

Record InboundRouter := mkRouter { queues : gmap string Chan; start_queue : StartQueueState }.

Definition router_new (q : StartQueueState) : InboundRouter := mkRouter ∅ q.

Definition register_queue (r : InboundRouter) (symbol : string) (ch : Chan) : InboundRouter :=
  mkRouter (<[symbol := ch]> (queues r)) (start_queue r).

Definition enqueue (r : InboundRouter) (o : BbOrder) : InboundRouter * (InboundError + unit) :=
  match queues r !! symbol_key o with
  | None => (r, inl (MissingQueue (symbol_key o)))
  | Some ch =>
      if negb (ch_open ch) then (r, inl ChannelClosed)
      else if (ch_cap ch <=? length (ch_items ch))%nat then (r, inl ChannelFull)
      else (mkRouter (<[symbol_key o := mkChan (ch_cap ch) (ch_items ch ++ [o]) true]> (queues r))
              (start_queue r), inr tt)
  end.

Definition handle_mq_order (r : InboundRouter) (m : MqOrder) : InboundRouter * (InboundError + unit) :=
  if negb (check_mq_order m) then (r, inr tt)
  else match type_convert m with
       | None => (r, inr tt)
       | Some o => if should_dedupe (start_queue r) o then (r, inr tt) else enqueue r o
       end.

Definition handle_restore_order (r : InboundRouter) (m : MqOrder) : InboundRouter * (InboundError + unit) :=
  if negb (check_mq_order m) then (r, inr tt)
  else match type_convert m with
       | None => (r, inr tt)
       | Some o =>
           let symbol := symbol_key o in
           let no := trust_order_no o in
           match enqueue r o with
           | (r, inl e) => (r, inl e)
           | (r, inr _) => (mkRouter (queues r) (record_restored (start_queue r) symbol no), inr tt)
           end
       end.

(** [handle_body]: [parse] stands for [serde_json::from_slice]. *)
Definition handle_body (parse : list Z → option (list MqOrder)) (r : InboundRouter) (body : list Z) :
    InboundRouter * (InboundError + unit) :=
  match parse body with
  | None => (r, inl Json)
  | Some ms => (foldl (λ r m, (handle_mq_order r m).1) r ms, inr tt)
  end.

(** The restore loop of [bootstrap::run]: the first error ends the start. *)
Fixpoint restore_loop (r : InboundRouter) (ms : list MqOrder) : InboundError + InboundRouter :=
  match ms with
  | [] => inr r
  | m :: ms => match handle_restore_order r m with
               | (_, inl e) => inl e
               | (r, inr _) => restore_loop r ms
               end
  end.

(** [rx.recv()] of a symbol's worker. *)
Definition recv_order (r : InboundRouter) (symbol : string) : option (BbOrder * InboundRouter) :=
  ch ← queues r !! symbol;
  match ch_items ch with
  | [] => None
  | o :: rest => Some (o, register_queue r symbol (mkChan (ch_cap ch) rest (ch_open ch)))
  end.

(** ** Outbound ([outbound.rs]) *)

Record PushOrder := mkPush {
  po_symbol_key : string; po_trust_order_no : string; po_target_trust_order_no : option string;
  po_trust_price : string; po_deal_price : option string; po_remaining_number : string;
  po_target_remaining_number : option string; po_order_status : Z; po_target_order_status : option Z;
  po_current_deal_number : option string; po_reason : option string }.

Record DepthLevel := mkDepthLevel { dl_trust_price : string; dl_quantity : string }.
Record DepthSnapshot := mkSnapshot { ds_symbol_key : string; ds_bids : list DepthLevel; ds_asks : list DepthLevel }.

Inductive Body := BOrders (l : list PushOrder) | BDepth (s : DepthSnapshot).
Inductive Topic := TPushOrder | TPushMarket | TNoDeal | TDeeps.

Definition DEPTH_LEVELS : nat := 20.
Definition ORDER_STATUS_REVOKE_SUCCESS : Z := 4.

Record attempt := mkAttempt { at_time : Z; at_topic : Topic; at_symbol : string; at_body : Body; at_ok : bool }.

(** [ob_errors] is the Redis list of the error queue, left end first; [None]
    without Redis. *)
Record Outbound := mkOutbound {
  ob_interval : Z; ob_last_depth : gmap string Z; ob_errors : option (list Body); ob_log : list attempt }.

(** One environment per call: the clock, the sink, Redis. *)
Record env := mkEnv { now : Z; sink_ok : Topic → bool; redis_ok : bool }.

(** [LPUSH] and [RPOP] ([error_queue.rs]). *)
Definition push_raw (q : list Body) (b : Body) : list Body := b :: q.
Definition pop_raw (q : list Body) : option Body * list Body :=
  match reverse q with [] => (None, q) | b :: rest => (Some b, reverse rest) end.

Definition on_send_fail (ob : Outbound) (v : env) (b : Body) : Outbound :=
  match ob_errors ob with
  | None => ob
  | Some q =>
      if redis_ok v then mkOutbound (ob_interval ob) (ob_last_depth ob) (Some (push_raw q b)) (ob_log ob) else ob
  end.

Definition send_topic (ob : Outbound) (v : env) (t : Topic) (symbol : string) (b : Body) : Outbound :=
  let ob := mkOutbound (ob_interval ob) (ob_last_depth ob) (ob_errors ob)
              (ob_log ob ++ [mkAttempt (now v) t symbol b (sink_ok v t)]) in
  if sink_ok v t then ob else on_send_fail ob v b.

Definition send_push_orders (ob : Outbound) (v : env) (symbol : string) (l : list PushOrder) : Outbound :=
  let ob := send_topic ob v TPushOrder symbol (BOrders l) in
  send_topic ob v TPushMarket symbol (BOrders l).

Definition push_of_event (ev : MatchEvent) : PushOrder :=
  match ev with
  | Fill symbol taker_no maker_no _ _ price qty taker_rem maker_rem taker_st maker_st =>
      mkPush symbol taker_no (Some maker_no) price (Some price) taker_rem (Some maker_rem) taker_st
        (Some maker_st) (Some qty) None
  | Revoke order_no symbol rem reason =>
      mkPush symbol order_no None "0"%string None rem None ORDER_STATUS_REVOKE_SUCCESS None None (Some reason)
  end.

(** The throttle: [None] when the push is skipped, else the table to keep. *)
Definition depth_due (ob : Outbound) (v : env) (symbol : string) : option (gmap string Z) :=
  if 0 <? ob_interval ob then
    match ob_last_depth ob !! symbol with
    | Some prev =>
        if Z.max 0 (now v - prev) <? ob_interval ob then None else Some (<[symbol := now v]> (ob_last_depth ob))
    | None => Some (<[symbol := now v]> (ob_last_depth ob))
    end
  else Some (ob_last_depth ob).

Definition push_snapshot (ob : Outbound) (v : env) (symbol : string) (s : DepthSnapshot) : Outbound :=
  let ob := send_topic ob v TNoDeal symbol (BDepth s) in send_topic ob v TDeeps symbol (BDepth s).

Definition levels_to_dto (l : list (bd * bd)) : list DepthLevel :=
  (λ pq : bd * bd, mkDepthLevel (bd_to_string pq.1) (bd_to_string pq.2)) <$> l.

Definition maybe_push_depth (ob : Outbound) (v : env) (symbol : string) (e : Engine) : Outbound :=
  match depth_due ob v symbol with
  | None => ob
  | Some last =>
      let ob := mkOutbound (ob_interval ob) last (ob_errors ob) (ob_log ob) in
      push_snapshot ob v symbol
        (mkSnapshot symbol (levels_to_dto (engine_depth_levels e symbol CoreBook.Buy DEPTH_LEVELS))
           (levels_to_dto (engine_depth_levels e symbol CoreBook.Sell DEPTH_LEVELS)))
  end.

Definition handle_events (ob : Outbound) (v : env) (symbol : string) (evs : list MatchEvent) (e : Engine) : Outbound :=
  let batch := push_of_event <$> evs in
  let ob := match batch with [] => ob | _ => send_push_orders ob v symbol batch end in
  maybe_push_depth ob v symbol e.

(** ** The worker ([symbol_worker.rs], default engine) *)

(** One round; a panic of the engine is caught and the order skipped.  The worker goes on with
    whatever the interrupted call made of the engine, [wreck]. *)
Definition worker_step (wreck : Engine → BbOrder → Engine) (e : Engine) (ob : Outbound) (v : env) (symbol : string) (o : BbOrder) :
    Engine * Outbound :=
  match on_order e o with
  | Some (evs, e) => (e, handle_events ob v symbol evs e)
  | None => (wreck e o, ob)
  end.

Fixpoint worker_run (wreck : Engine → BbOrder → Engine) (e : Engine) (ob : Outbound) (symbol : string) (l : list (BbOrder * env)) :
    Engine * Outbound :=
  match l with
  | [] => (e, ob)
  | (o, v) :: l => let '(e, ob) := worker_step wreck e ob v symbol o in worker_run wreck e ob symbol l
  end.

End Contract.

(** ** Outbound of the performance engine *)
Section HpOutbound.
Context {BI AI : Type} `{LB : HpIndex.LevelIndex BI} `{LA : HpIndex.LevelIndex AI}.

Definition text (s : list ascii) : string := String.string_of_list_ascii s.
Definition fill_status (open_lot : Z) : Z := if open_lot =? 0 then ORDER_STATUS_SUCCESS else ORDER_STATUS_SUCCESS_PART.

Definition push_of_hp_event (symbol : string) (sc : SymbolScale) (ev : HpEvent) : option PushOrder :=
  match ev with
  | HpTypes.Fill _ _ maker_client taker_client tick qty maker_open taker_open =>
      let price := text (from_tick sc tick) in
      Some (mkPush symbol (text (u64_to_string taker_client)) (Some (text (u64_to_string maker_client))) price
              (Some price) (text (from_lot sc taker_open)) (Some (text (from_lot sc maker_open)))
              (fill_status taker_open) (Some (fill_status maker_open)) (Some (text (from_lot sc qty))) None)
  | HpTypes.Revoke _ client reason =>
      Some (mkPush symbol (text (u64_to_string client)) None "0"%string None "0"%string None
              ORDER_STATUS_REVOKE_SUCCESS None None
              (Some (if reason =? 1 then "market_remainder"%string else "cancel"%string)))
  | HpTypes.Rest _ _ _ _ _ => None
  end.

Definition hp_levels (sc : SymbolScale) (l : list (Z * Z)) : list DepthLevel :=
  (λ tl : Z * Z, mkDepthLevel (text (from_tick sc tl.1)) (text (from_lot sc tl.2))) <$> l.

Definition maybe_push_hp_depth (ob : Outbound) (v : env) (symbol : string) (e : HpEngine BI AI) (sc : SymbolScale) : Outbound :=
  match depth_due ob v symbol with
  | None => ob
  | Some last =>
      let ob := mkOutbound (ob_interval ob) last (ob_errors ob) (ob_log ob) in
      push_snapshot ob v symbol
        (mkSnapshot symbol (hp_levels sc (hp_depth (book e) HpTypes.Buy DEPTH_LEVELS))
           (hp_levels sc (hp_depth (book e) HpTypes.Sell DEPTH_LEVELS)))
  end.

Definition handle_hp_events (ob : Outbound) (v : env) (symbol : string) (evs : list HpEvent) (e : HpEngine BI AI)
    (sc : SymbolScale) : Outbound :=
  let batch := omap (push_of_hp_event symbol sc) evs in
  let ob := match batch with [] => ob | _ => send_push_orders ob v symbol batch end in
  maybe_push_hp_depth ob v symbol e sc.

End HpOutbound.
