(* ===== verification/ContractProps.v ===== *)
(** * match-contract: what the process guarantees around the engine

    No order is applied twice at a restart; every event of the engine is pushed,
    in order, and what the broker refuses is kept; depth is not pushed more often
    than configured. *)
From stdpp Require Import gmap.
From S2P Require Import Prelude Decimal Protocol ProtocolProps CoreBook CoreMatch CoreEngine CoreProps Utf8 Contract.

#[local] Open Scope Z_scope.

Section Inbound.
Context `{BDS : BigDecimalSpec}.
Implicit Types (m : MqOrder) (o : BbOrder) (r : InboundRouter) (q : StartQueueState).

(** The order a message stands for, if it passes validation and conversion. *)
Definition accepted m : option BbOrder := if check_mq_order m then type_convert m else None.

Definition items r (symbol : string) : list BbOrder :=
  match queues r !! symbol with Some ch => ch_items ch | None => [] end.

Definition of_symbol (symbol : string) (l : list BbOrder) : list BbOrder := filter (λ o, symbol_key o = symbol) l.

Lemma enqueue_items r o r' u :
  enqueue r o = (r', inr u) →
  start_queue r' = start_queue r ∧ ∀ s, items r' s = items r s ++ of_symbol s [o].
Proof.
  unfold enqueue, items. destruct (queues r !! symbol_key o) as [ch|] eqn:E; [|done].
  destruct (negb (ch_open ch)); [done|]. destruct (_ <=? _)%nat; [done|]. intros [= <- _]. split; [done|]. intros s.
  cbn [queues]. unfold of_symbol. destruct (decide (symbol_key o = s)) as [<-|Hne].
  - rewrite lookup_insert_eq, E. cbn [ch_items]. by rewrite filter_cons_True, filter_nil.
  - rewrite lookup_insert_ne by done. rewrite filter_cons_False, filter_nil by done. by rewrite app_nil_r.
Qed.

Lemma enqueue_fails r o r' e : enqueue r o = (r', inl e) → r' = r.
Proof. unfold enqueue. repeat case_match; congruence. Qed.

(** What the filter knows: the numbers restored per symbol and the largest. *)
Record knows q (l : list BbOrder) : Prop := {
  kn_active : active q = true;
  kn_numbers : ∀ o, o ∈ l → ∃ set, restored q !! symbol_key o = Some set ∧ trust_order_no o ∈ set;
  kn_big : ∀ o n, o ∈ l → parse_no (trust_order_no o) = Some n → n <= big_no q }.

Lemma knows_record q l o :
  knows q l → knows (record_restored q (symbol_key o) (trust_order_no o)) (l ++ [o]).
Proof.
  intros [Ha Hn Hb].
  assert (restored (record_restored q (symbol_key o) (trust_order_no o))
    = <[symbol_key o := {[trust_order_no o]} ∪ default ∅ (restored q !! symbol_key o)]> (restored q)) as Hm.
  { unfold record_restored. by destruct (parse_no _). }
  assert (big_no q <= big_no (record_restored q (symbol_key o) (trust_order_no o))) as Hge.
  { unfold record_restored. destruct (parse_no _) as [n|]; cbn; [|lia]. destruct (Z.ltb_spec (big_no q) n); lia. }
  split.
  - unfold record_restored. by destruct (parse_no _).
  - intros o' [Ho|Ho%list_elem_of_singleton]%elem_of_app; rewrite Hm.
    + destruct (Hn o' Ho) as (set & Hs & Hin). destruct (decide (symbol_key o = symbol_key o')) as [Heq|Hne].
      * rewrite Heq, lookup_insert_eq, Hs. eexists. split; [done|]. cbn. set_solver.
      * rewrite lookup_insert_ne by done. eauto.
    + subst o'. rewrite lookup_insert_eq. eexists. split; [done|]. set_solver.
  - intros o' n [Ho|Ho%list_elem_of_singleton]%elem_of_app Hp.
    + specialize (Hb _ _ Ho Hp). lia.
    + subst o'. unfold record_restored. rewrite Hp. cbn. destruct (Z.ltb_spec (big_no q) n); lia.
Qed.

Lemma restore_order_spec r m r' l :
  handle_restore_order r m = (r', inr tt) → knows (start_queue r) l →
  knows (start_queue r') (l ++ option_list (accepted m))
  ∧ ∀ s, items r' s = items r s ++ of_symbol s (option_list (accepted m)).
Proof.
  unfold handle_restore_order, accepted. intros Hh Hk. destruct (check_mq_order m); cbn [negb] in Hh.
  - destruct (type_convert m) as [o|]; cbn [option_list].
    + destruct (enqueue r o) as [r1 [|u]] eqn:E; [done|]. injection Hh as <-.
      apply enqueue_items in E as [Hq Hi]. cbn [start_queue]. rewrite Hq. split; [by apply knows_record|done].
    + injection Hh as <-. rewrite app_nil_r. split; [done|]. intros s. by rewrite app_nil_r.
  - injection Hh as <-. cbn. rewrite app_nil_r. split; [done|]. intros s. by rewrite app_nil_r.
Qed.

Lemma restore_loop_spec ms r r' l :
  restore_loop r ms = inr r' → knows (start_queue r) l →
  knows (start_queue r') (l ++ omap accepted ms)
  ∧ ∀ s, items r' s = items r s ++ of_symbol s (omap accepted ms).
Proof.
  revert r l; induction ms as [|m ms IH]; intros r l Hr Hk; cbn [restore_loop] in Hr.
  { injection Hr as <-. cbn. rewrite app_nil_r. split; [done|]. intros s. by rewrite app_nil_r. }
  destruct (handle_restore_order r m) as [r1 [|[]]] eqn:E; [done|].
  destruct (restore_order_spec _ _ _ _ E Hk) as [Hk1 Hi1]. destruct (IH _ _ Hr Hk1) as [Hk2 Hi2].
  assert (omap accepted (m :: ms) = option_list (accepted m) ++ omap accepted ms) as ->.
  { cbn. by destruct (accepted m). }
  rewrite app_assoc. split; [done|]. intros s. rewrite Hi2, Hi1. unfold of_symbol. by rewrite filter_app, app_assoc.
Qed.

(** A live order the filter lets through. *)
Definition fresh (l : list BbOrder) o : Prop :=
  order_status o = ORDER_STATUS_REVOKE
  ∨ (∀ o', o' ∈ l → symbol_key o' = symbol_key o → trust_order_no o' ≠ trust_order_no o)
    ∧ (∀ o' n n', o' ∈ l → parse_no (trust_order_no o') = Some n → 0 < n →
         parse_no (trust_order_no o) = Some n' → n < n').

Lemma not_deduped_fresh q l o : knows q l → should_dedupe q o = false → fresh l o.
Proof.
  intros [Ha Hn Hb]. unfold should_dedupe, fresh. rewrite Ha. cbn [negb].
  destruct (Z.eqb_spec (order_status o) ORDER_STATUS_REVOKE) as [|Hne]; [by left|]. intros Hd. right.
  assert (∀ o', o' ∈ l → restored q ≠ ∅) as Hnon.
  { intros o' Ho' He. destruct (Hn _ Ho') as (set & Hs & _). by rewrite He, lookup_empty in Hs. }
  split.
  - intros o' Ho' Hsym Hno. rewrite bool_decide_eq_false_2 in Hd by eauto.
    destruct (Hn _ Ho') as (set & Hs & Hin). rewrite <- Hsym, Hs, <- Hno, bool_decide_eq_true_2 in Hd by done. done.
  - intros o' n n' Ho' Hp Hpos Hp'. rewrite bool_decide_eq_false_2 in Hd by eauto.
    specialize (Hb _ _ Ho' Hp). destruct (match restored q !! symbol_key o with Some _ => _ | None => _ end); [done|].
    rewrite (proj2 (Z.ltb_lt _ _)), Hp' in Hd by lia. zb. lia.
Qed.

Lemma handle_mq_order_spec r m l :
  knows (start_queue r) l →
  start_queue (handle_mq_order r m).1 = start_queue r
  ∧ ∀ s, ∃ new, items (handle_mq_order r m).1 s = items r s ++ new ∧ Forall (fresh l) new.
Proof.
  intros Hk. unfold handle_mq_order.
  assert (∀ s, ∃ new, items r s = items r s ++ new ∧ Forall (fresh l) new) as Hsame.
  { intros s. exists []. by rewrite app_nil_r. }
  destruct (negb _); [done|]. destruct (type_convert m) as [o|]; [|done].
  destruct (should_dedupe (start_queue r) o) eqn:Hd; [done|].
  destruct (enqueue r o) as [r' [e|u]] eqn:E; cbn [fst]; [apply enqueue_fails in E as ->; done|].
  apply enqueue_items in E as [Hq Hi]. split; [done|]. intros s. exists (of_symbol s [o]). split; [done|].
  apply Forall_forall. intros x [_ Hx%list_elem_of_singleton]%list_elem_of_filter. subst x.
  by eapply not_deduped_fresh.
Qed.

Lemma live_messages_spec ls r l :
  knows (start_queue r) l →
  ∀ s, ∃ new, items (foldl (λ r m, (handle_mq_order r m).1) r ls) s = items r s ++ new ∧ Forall (fresh l) new.
Proof.
  revert r; induction ls as [|m ls IH]; intros r Hk s; cbn [foldl].
  { exists []. by rewrite app_nil_r. }
  destruct (handle_mq_order_spec r m l Hk) as [Hq Hi]. destruct (Hi s) as (n1 & H1 & F1).
  destruct (IH (handle_mq_order r m).1) with (s := s) as (n2 & H2 & F2); [by rewrite Hq|].
  exists (n1 ++ n2). rewrite H2, H1, app_assoc. split; [done|]. by apply Forall_app.
Qed.

(** No order is applied twice at a restart.  The orders restored at startup
    are queued for their symbols, all and in order.  Until the filter is cleared,
    every later message adds at most its own order to a queue: a revoke always
    may pass; any other order passes only with a number that was not restored for
    its symbol and that is larger than every positive number restored at all. *)
Theorem contract_no_startup_duplicates qs ms r ls s :
  restore_loop (mkRouter qs start_queue_new) ms = inr r →
  let restored_orders := omap accepted ms in
  items r s = items (mkRouter qs start_queue_new) s ++ of_symbol s restored_orders
  ∧ ∃ new, items (foldl (λ r m, (handle_mq_order r m).1) r ls) s = items r s ++ new
    ∧ Forall (fresh restored_orders) new.
Proof.
  intros Hr l. assert (knows start_queue_new []) as Hk0.
  { split; [done|intros o Ho|intros o n Ho]; by apply not_elem_of_nil in Ho. }
  destruct (restore_loop_spec ms _ _ [] Hr Hk0) as [Hk Hi]. split; [apply Hi|]. by apply live_messages_spec.
Qed.

End Inbound.

Section Outbound.
Context `{BDS : BigDecimalSpec}.
Implicit Types (o : BbOrder) (e : Engine) (ob : Outbound) (v : env) (evs : list MatchEvent).

(** ** What one round sends *)

Definition is_push (a : attempt) : bool :=
  match at_topic a with TPushOrder | TPushMarket => true | _ => false end.

Definition pushes (log : list attempt) : list attempt := filter (λ a, is_push a = true) log.

(** The bodies a sink refused. *)
Definition refused (log : list attempt) : list Body := at_body <$> filter (λ a, at_ok a = false) log.

(** Both topics get the events of one order as one batch, if there are any. *)
Definition push_attempts (symbol : string) evs v : list attempt :=
  match evs with
  | [] => []
  | _ => let b := BOrders (push_of_event <$> evs) in
         [mkAttempt (now v) TPushOrder symbol b (sink_ok v TPushOrder);
          mkAttempt (now v) TPushMarket symbol b (sink_ok v TPushMarket)]
  end.

(** [ob'] is [ob] after the attempts [new]; with Redis up, the error queue has
    what was refused, the oldest at its right end. *)
Record extends ob (up : bool) (new : list attempt) ob' : Prop := {
  ex_log : ob_log ob' = ob_log ob ++ new;
  ex_interval : ob_interval ob' = ob_interval ob;
  ex_errors : up = true → ob_errors ob' = (λ q, reverse (refused new) ++ q) <$> ob_errors ob }.

Lemma extends_refl ob up : extends ob up [] ob.
Proof. split; [by rewrite app_nil_r|done|]. intros _. by destruct (ob_errors ob). Qed.

Lemma extends_trans ob1 ob2 ob3 up l1 l2 :
  extends ob1 up l1 ob2 → extends ob2 up l2 ob3 → extends ob1 up (l1 ++ l2) ob3.
Proof.
  intros [A1 A2 A3] [B1 B2 B3]. split; [by rewrite B1, A1, app_assoc|congruence|]. intros Hr.
  rewrite B3, A3 by done. destruct (ob_errors ob1); [|done]. cbn. f_equal. unfold refused.
  by rewrite filter_app, fmap_app, reverse_app, app_assoc.
Qed.

Lemma send_topic_extends ob v t s b :
  extends ob (redis_ok v) [mkAttempt (now v) t s b (sink_ok v t)] (send_topic ob v t s b)
  ∧ ob_last_depth (send_topic ob v t s b) = ob_last_depth ob.
Proof.
  unfold send_topic, on_send_fail. cbn. destruct (sink_ok v t) eqn:Hs.
  - split; [|done]. split; cbn; [done|done|]. intros _. by destruct (ob_errors ob).
  - destruct (ob_errors ob) as [q|] eqn:Eq; cbn.
    + destruct (redis_ok v) eqn:Hr; (split; [|done]); split; cbn; [done|done| |done|done|]; intros Hr'; [|congruence].
      by rewrite Eq.
    + split; [|done]. split; cbn; [done|done|]. intros _. by rewrite Eq.
Qed.

(** Depth goes out after the events, when it is due. *)
Lemma maybe_push_depth_extends ob v s e :
  ∃ new, extends ob (redis_ok v) new (maybe_push_depth ob v s e) ∧ pushes new = [].
Proof.
  unfold maybe_push_depth. destruct (depth_due ob v s) as [last|]; [|exists []; split; [apply extends_refl|done]].
  set (ob1 := mkOutbound _ last _ _). unfold push_snapshot. set (b := BDepth _).
  destruct (send_topic_extends ob1 v TNoDeal s b) as [H1 _].
  destruct (send_topic_extends (send_topic ob1 v TNoDeal s b) v TDeeps s b) as [H2 _].
  eexists. split; [|shelve]. pose proof (extends_trans _ _ _ _ _ _ H1 H2) as [L I E]. split; [exact L|exact I|exact E].
  Unshelve. done.
Qed.

Lemma handle_events_extends ob v s evs e :
  ∃ new, extends ob (redis_ok v) new (handle_events ob v s evs e) ∧ pushes new = push_attempts s evs v.
Proof.
  unfold handle_events. set (batch := push_of_event <$> evs).
  set (ob1 := match batch with [] => ob | _ => send_push_orders ob v s batch end).
  assert (extends ob (redis_ok v) (push_attempts s evs v) ob1) as H1.
  { subst ob1 batch. destruct evs as [|ev evs]; cbn [fmap list_fmap]; [apply extends_refl|].
    unfold send_push_orders, push_attempts. cbn [fmap list_fmap]. set (b := BOrders _).
    destruct (send_topic_extends ob v TPushOrder s b) as [A _].
    destruct (send_topic_extends (send_topic ob v TPushOrder s b) v TPushMarket s b) as [B _].
    exact (extends_trans _ _ _ _ _ _ A B). }
  destruct (maybe_push_depth_extends ob1 v s e) as (new & H2 & Hp).
  exists (push_attempts s evs v ++ new). split; [by eapply extends_trans|].
  unfold pushes in *. rewrite filter_app, Hp, app_nil_r. by destruct evs.
Qed.

(** ** Streams *)

Lemma accepted_valid m o : accepted m = Some o → order_valid o.
Proof.
  unfold accepted. destruct (check_mq_order m) eqn:Hc; [|done]. intros Ht. by apply (validated_order_accepted m o Hc Ht).
Qed.

(** C35.  From message to push.  A worker that starts with a sound engine and
    receives orders that came out of validation and conversion runs each of them
    to the end.  For every order with events, one batch with exactly its events in
    order is offered to the order topic and to the market topic, nothing else is;
    with Redis up, the bodies refused (depth included) are in the error queue in
    the order they were refused. *)
Theorem contract_worker_pipeline wreck e ob symbol l :
  engine_ok e → Forall (λ p : BbOrder * env, ∃ m, accepted m = Some p.1) l →
  Forall (λ p : BbOrder * env, redis_ok p.2 = true) l →
  ∃ evss e' ob' new,
    worker_run wreck e ob symbol l = (e', ob') ∧ run_each e l.*1 = Some (evss, e') ∧ engine_ok e'
    ∧ ob_log ob' = ob_log ob ++ new
    ∧ pushes new = concat (zip_with (push_attempts symbol) evss l.*2)
    ∧ ob_errors ob' = (λ q, reverse (refused new) ++ q) <$> ob_errors ob.
Proof.
  intros He Hl Hup. revert e ob He. induction l as [|[o v] l IH]; intros e ob He.
  { destruct (extends_refl ob true) as [L _ E]. eexists [], e, ob, []. split_and!; try done. by apply E. }
  apply Forall_cons_1 in Hl as [(m & Hm) Hl]. apply Forall_cons_1 in Hup as [Hv Hup]. cbn in Hm, Hv.
  destruct (on_order_inv e o He (accepted_valid m o Hm)) as (evs & e1 & Ho & He1).
  cbn [worker_run]. unfold worker_step. rewrite Ho.
  destruct (handle_events_extends ob v symbol evs e1) as (n1 & X1 & P1). rewrite Hv in X1.
  destruct (IH Hl Hup e1 (handle_events ob v symbol evs e1) He1) as (evss & e' & ob' & n2 & Hw & Hr & He' & L2 & P2 & E2).
  exists (evs :: evss), e', ob', (n1 ++ n2). destruct X1 as [L1 _ E1]. split_and!; [done| |done| | |].
  - cbn. rewrite Ho. cbn. by rewrite Hr.
  - by rewrite L2, L1, app_assoc.
  - unfold pushes in *. rewrite filter_app, P1, P2. done.
  - rewrite E2, E1 by done. destruct (ob_errors ob); [|done]. cbn. f_equal. unfold refused.
    by rewrite filter_app, fmap_app, reverse_app, app_assoc.
Qed.

(** ** The depth throttle *)

(** Calls of [handle_events], for any symbols. *)
Definition outbound_run ob (calls : list (string * list MatchEvent * Engine * env)) : Outbound :=
  foldl (λ ob c, let '(s, evs, e, v) := c in handle_events ob v s evs e) ob calls.

Definition depth_sent (a : attempt) (symbol : string) : Prop := at_topic a = TNoDeal ∧ at_symbol a = symbol.

(** Every depth push so far is noted, and spaced. *)
Record spaced ob : Prop := {
  sp_noted : ∀ a s, a ∈ ob_log ob → depth_sent a s → ∃ prev, ob_last_depth ob !! s = Some prev ∧ at_time a <= prev;
  sp_gap : ∀ i j a b s, (i < j)%nat → ob_log ob !! i = Some a → ob_log ob !! j = Some b →
    depth_sent a s → depth_sent b s → at_time a + ob_interval ob <= at_time b }.

Lemma spaced_quiet ob ob' new :
  spaced ob → ob_log ob' = ob_log ob ++ new → ob_interval ob' = ob_interval ob →
  ob_last_depth ob' = ob_last_depth ob → Forall (λ a, at_topic a ≠ TNoDeal) new → spaced ob'.
Proof.
  intros [H1 H2] Hl Hi Hd Hn. rewrite Forall_forall in Hn. split.
  - intros a s Ha Hs. rewrite Hl in Ha. rewrite Hd. apply elem_of_app in Ha as [Ha|Ha]; [by apply (H1 a)|].
    exfalso. apply (Hn _ Ha), Hs.
  - intros i j a b s Hij Ha Hb Hsa Hsb. rewrite Hl in Ha, Hb. rewrite Hi.
    apply lookup_app_Some in Hb as [Hb|[_ Hb]]; [|exfalso; apply (Hn b (list_elem_of_lookup_2 _ _ _ Hb)), Hsb].
    pose proof (lookup_lt_Some _ _ _ Hb). rewrite lookup_app_l in Ha by lia.
    exact (H2 i j a b s Hij Ha Hb Hsa Hsb).
Qed.

Lemma spaced_depth ob v s b prev_ok :
  spaced ob → depth_due ob v s = Some prev_ok → 0 < ob_interval ob →
  spaced (send_topic (mkOutbound (ob_interval ob) prev_ok (ob_errors ob) (ob_log ob)) v TNoDeal s b).
Proof.
  intros [H1 H2] Hd Hpos. set (ob1 := mkOutbound _ prev_ok _ _).
  destruct (send_topic_extends ob1 v TNoDeal s b) as [[L I _] D]. cbn in L, I, D.
  assert (prev_ok = <[s := now v]> (ob_last_depth ob)
    ∧ ∀ prev, ob_last_depth ob !! s = Some prev → prev + ob_interval ob <= now v) as [-> Hgap].
  { unfold depth_due in Hd. rewrite (proj2 (Z.ltb_lt _ _) Hpos) in Hd.
    destruct (ob_last_depth ob !! s) as [p|].
    - destruct (Z.ltb_spec (Z.max 0 (now v - p)) (ob_interval ob)); [done|]. injection Hd as <-.
      split; [done|]. intros prev [= <-]. lia.
    - injection Hd as <-. split; [done|]. done. }
  assert (∀ a, a ∈ ob_log ob → depth_sent a s → at_time a + ob_interval ob <= now v) as Hold.
  { intros a Ha Hs. destruct (H1 a s Ha Hs) as (prev & Hp & Hle). specialize (Hgap _ Hp). lia. }
  split; rewrite L.
  - intros a s' Ha Hs'. rewrite D. apply elem_of_app in Ha as [Ha|Ha%list_elem_of_singleton].
    + destruct (decide (s = s')) as [<-|Hne]; [|rewrite lookup_insert_ne by done; by apply (H1 a)].
      rewrite lookup_insert_eq. eexists. split; [done|]. specialize (Hold a Ha Hs'). lia.
    + subst a. destruct Hs' as [_ <-]. cbn. rewrite lookup_insert_eq. eexists. split; [done|]. cbn. lia.
  - intros i j a b' s' Hij Ha Hb Hsa Hsb. rewrite I.
    apply lookup_app_Some in Hb as [Hb|[_ Hb]].
    + pose proof (lookup_lt_Some _ _ _ Hb). rewrite lookup_app_l in Ha by lia.
      exact (H2 i j a b' s' Hij Ha Hb Hsa Hsb).
    + apply list_lookup_singleton_Some in Hb as [Hj <-]. destruct Hsb as [_ Hs']. cbn in Hs'. subst s'. cbn.
      apply lookup_app_Some in Ha as [Ha|[Hge Ha]]; [|lia]. apply Hold; [|done]. by eapply list_elem_of_lookup_2.
Qed.

Lemma spaced_call ob v s evs e : spaced ob → 0 < ob_interval ob → spaced (handle_events ob v s evs e).
Proof.
  intros Hsp Hpos. unfold handle_events. set (batch := push_of_event <$> evs).
  set (ob1 := match batch with [] => ob | _ => send_push_orders ob v s batch end).
  assert (spaced ob1 ∧ ob_interval ob1 = ob_interval ob) as [Hsp1 Hi1].
  { subst ob1. destruct batch as [|p l]; [done|]. unfold send_push_orders. set (b := BOrders _).
    destruct (send_topic_extends ob v TPushOrder s b) as [[L1 I1 _] D1].
    destruct (send_topic_extends (send_topic ob v TPushOrder s b) v TPushMarket s b) as [[L2 I2 _] D2].
    split; [|by rewrite I2]. eapply spaced_quiet; [eapply spaced_quiet; [exact Hsp|exact L1|done|done|]|exact L2|done|done|];
      by repeat constructor. }
  unfold maybe_push_depth. destruct (depth_due ob1 v s) as [last|] eqn:Hd; [|done].
  unfold push_snapshot. set (b := BDepth _).
  pose proof (spaced_depth ob1 v s b last Hsp1 Hd ltac:(lia)) as Hsp2.
  destruct (send_topic_extends (send_topic (mkOutbound (ob_interval ob1) last (ob_errors ob1) (ob_log ob1)) v TNoDeal s b)
    v TDeeps s b) as [[L2 I2 _] D2].
  eapply spaced_quiet; [exact Hsp2|exact L2|done|done|]. by repeat constructor.
Qed.

Lemma outbound_run_interval ob calls : ob_interval (outbound_run ob calls) = ob_interval ob.
Proof.
  revert ob; induction calls as [|[[[s evs] e] v] calls IH]; intros ob; [done|]. cbn. rewrite IH.
  destruct (handle_events_extends ob v s evs e) as (new & [_ I _] & _). exact I.
Qed.

(** Depth is throttled.  With an interval of [t] milliseconds, whatever
    orders are handled, for whatever symbols and whatever the clock does, two
    depth pushes of the same symbol are at least [t] milliseconds apart. *)
Theorem contract_depth_throttled t errs calls i j a b s :
  0 < t → (i < j)%nat →
  let log := ob_log (outbound_run (mkOutbound t ∅ errs []) calls) in
  log !! i = Some a → log !! j = Some b → depth_sent a s → depth_sent b s →
  at_time a + t <= at_time b.
Proof.
  intros Ht Hij log Ha Hb Hsa Hsb.
  assert (∀ ob, spaced ob → 0 < ob_interval ob → spaced (outbound_run ob calls)) as Hrun.
  { clear. induction calls as [|[[[s evs] e] v] calls IH]; intros ob Hsp Hpos; [done|]. cbn. apply IH.
    - by apply spaced_call.
    - destruct (handle_events_extends ob v s evs e) as (new & [_ I _] & _). by rewrite I. }
  assert (spaced (mkOutbound t ∅ errs [])) as Hsp0.
  { split; [intros x y Hx; by apply not_elem_of_nil in Hx|done]. }
  pose proof (sp_gap _ (Hrun _ Hsp0 Ht) i j a b s Hij Ha Hb Hsa Hsb) as Hres.
  by rewrite outbound_run_interval in Hres.
Qed.

End Outbound.

Module Witness.
Import SciDecimal.

Definition wire (side status : Z) (no number price : string) : MqOrder := {|
  mq_user_id := Some 7; mq_uid := Some 8; mq_c_type := 1; mq_deal_type := None;
  mq_type := Some 1; mq_order_type := Some side; mq_market_id := Some 2; mq_coin_id := Some 3;
  mq_symbol_key := Some "BTC/USDT"%string; mq_coin_market := Some "BTC/USDT"%string;
  mq_trust_order_no := Some no; mq_close_position := Some 1;
  mq_start_deposit := Some "10"%string; mq_position_type := Some 1;
  mq_taker_rate := Some "1"%string; mq_order_status := Some status; mq_order_form := Some 1;
  mq_gear := None; mq_lever_times := Some 10; mq_trust_number := Some number;
  mq_trust_price := Some price; mq_create_time := Some 1; mq_face_value := None;
  mq_handicap_type := None |}.

Definition sym : string := "btcusdt"%string.
Definition qs0 : gmap string Chan := {[sym := mkChan 8 [] true]}.
Definition restored2 : list MqOrder := [wire 1 0 "10"%string "4"%string "100"%string; wire 2 0 "12"%string "4"%string "101"%string].

(** The restored order 10 again, an older number, a revoke, a new order. *)
Definition live4 : list MqOrder :=
  [wire 1 0 "10"%string "4"%string "100"%string; wire 1 0 "11"%string "4"%string "100"%string;
   wire 1 3 "10"%string "4"%string "100"%string; wire 1 0 "13"%string "1"%string "99"%string].

Definition after_restore : InboundRouter :=
  match restore_loop (mkRouter qs0 start_queue_new) restored2 with inr r => r | inl _ => router_new start_queue_new end.

Lemma contract_no_startup_duplicates_witness :
  items after_restore sym = items (mkRouter qs0 start_queue_new) sym ++ of_symbol sym (omap accepted restored2)
  ∧ ∃ new, items (foldl (λ r m, (handle_mq_order r m).1) after_restore live4) sym = items after_restore sym ++ new
    ∧ Forall (fresh (omap accepted restored2)) new.
Proof.
  apply (contract_no_startup_duplicates qs0 restored2 after_restore live4 sym).
  assert (match restore_loop (mkRouter qs0 start_queue_new) restored2 with inl _ => false | inr _ => true end = true)
    as Hok by (vm_compute; reflexivity).
  unfold after_restore. destruct (restore_loop _ restored2); [discriminate|reflexivity].
Defined.

Example live_orders_passed :
  trust_order_no <$> items (foldl (λ r m, (handle_mq_order r m).1) after_restore live4) sym
  = ["10"; "12"; "10"; "13"]%string.
Proof. vm_compute. reflexivity. Qed.

Definition env_at (t : Z) (ok : bool) : env := mkEnv t (λ tp, match tp with TPushMarket => ok | _ => true end) true.
Definition ob0 : Outbound := mkOutbound 100 ∅ (Some []) [].

Definition order_of (m : MqOrder) : BbOrder := default ProtocolProps.Witness.wire_bb (accepted m).
Definition bid10 : MqOrder := wire 1 0 "10"%string "4"%string "100"%string.
Definition ask11 : MqOrder := wire 2 0 "11"%string "3"%string "100"%string.

Lemma order_of_accepted m : bool_decide (is_Some (accepted m)) = true → accepted m = Some (order_of m).
Proof. intros [o Ho]%bool_decide_eq_true. unfold order_of. by rewrite Ho. Qed.

Definition worker_input : list (BbOrder * env) := [(order_of bid10, env_at 1000 true); (order_of ask11, env_at 1050 false)].

Lemma contract_worker_pipeline_witness :
  ∃ evss e' ob' new, worker_run (λ e _, e) engine_new ob0 sym worker_input = (e', ob')
    ∧ run_each engine_new worker_input.*1 = Some (evss, e')
    ∧ ob_log ob' = [] ++ new
    ∧ pushes new = concat (zip_with (push_attempts sym) evss worker_input.*2).
Proof.
  destruct (contract_worker_pipeline (λ e _, e) engine_new ob0 sym worker_input engine_new_ok)
    as (evss & e' & ob' & new & H1 & H2 & _ & H4 & H5 & _).
  - apply Forall_cons_2; [exists bid10; apply order_of_accepted; vm_compute; reflexivity|].
    apply Forall_cons_2; [exists ask11; apply order_of_accepted; vm_compute; reflexivity|constructor].
  - repeat constructor.
  - exists evss, e', ob', new. split_and!; [exact H1|exact H2|exact H4|exact H5].
Defined.

(** The second order trades: its batch is refused by the market topic and kept. *)
Example refused_batch_kept :
  (λ q, length q) <$> ob_errors (worker_run (λ e _, e) engine_new ob0 sym worker_input).2 = Some 1%nat.
Proof. vm_compute. reflexivity. Qed.

Definition calls3 : list (string * list MatchEvent * Engine * env) :=
  [(sym, [], engine_new, env_at 1000 true); (sym, [], engine_new, env_at 1050 true); (sym, [], engine_new, env_at 1100 true)].

Definition depth_at (t : Z) : attempt := mkAttempt t TNoDeal sym (BDepth (mkSnapshot sym [] [])) true.

Lemma contract_depth_throttled_witness : at_time (depth_at 1000) + 100 <= at_time (depth_at 1100).
Proof.
  apply (contract_depth_throttled 100 None calls3 0 2 (depth_at 1000) (depth_at 1100) sym).
  - lia.
  - lia.
  - vm_compute. reflexivity.
  - vm_compute. reflexivity.
  - split; reflexivity.
  - split; reflexivity.
Defined.

End Witness.
