(* ===== verification/Topics.v ===== *)
(** * Topic names of the message queue

    [encode_symbol_key] ([match-protocol/src/encode.rs]) and the topic and group
    names of both processes ([match-contract/src/mq/topics.rs],
    [match-spot/src/mq/topics.rs], [match-protocol/src/spot_topics.rs]).  The
    base64 crate is the parameter [b64], from bytes to text.  A string is its
    UTF-8 bytes, as in Rust: [chars().all] over ASCII classes is the same test on
    bytes. *)
From S2P Require Import Prelude.
From Stdlib Require Import String Ascii.

#[local] Open Scope Z_scope.

(** [ch.is_ascii_alphanumeric()] *)
Definition is_alnum (c : ascii) : bool :=
  let n := N_of_ascii c in
  (((48 <=? n) && (n <=? 57)) || ((65 <=? n) && (n <=? 90)) || ((97 <=? n) && (n <=? 122)))%N%bool.

Definition is_token_char (c : ascii) : bool := is_alnum c || Ascii.eqb c "_"%char || Ascii.eqb c "-"%char.

Fixpoint all_chars (f : ascii → bool) (s : string) : bool :=
  match s with EmptyString => true | String c s => f c && all_chars f s end.

Definition is_ascii_token (value : string) : bool :=
  negb (String.eqb value EmptyString) && all_chars is_token_char value.

(** [s.splitn(2, '/')]; [None] without a slash. *)
Fixpoint split_slash (s : string) : option (string * string) :=
  match s with
  | EmptyString => None
  | String c t =>
      if Ascii.eqb c "/"%char then Some (EmptyString, t)
      else match split_slash t with Some (base, quote) => Some (String c base, quote) | None => None end
  end.

Section Encode.
Context (b64 : string → string).

Definition encode_part (value : string) : string := if is_ascii_token value then value else b64 value.

Definition encode_symbol_key (symbol_key : string) : string :=
  if String.eqb symbol_key EmptyString then EmptyString
  else match split_slash symbol_key with
       | Some (base, quote) =>
           let base_needs_encode := negb (is_ascii_token base) in
           let quote_needs_encode := negb (is_ascii_token quote) in
           if base_needs_encode || quote_needs_encode
           then (encode_part base ++ "/" ++ encode_part quote)%string
           else symbol_key
       | None => if is_ascii_token symbol_key then symbol_key else b64 symbol_key
       end.

End Encode.

(** ** match-contract *)
Section Names.
Context (b64 : string → string).

Definition PULL_ORDER_PREFIX : string := "usdt_contract_match_order_".
Definition PUSH_ORDER_PREFIX : string := "usdt_contract_match_order_push_order_".
Definition PUSH_MARKET_PREFIX : string := "usdt_contract_match_market_push_order_".
Definition PUSH_NO_DEAL_PREFIX : string := "usdt_contract_match_market_push_no_deal_".
Definition PUSH_DEEPS_PREFIX : string := "usdt_contract_match_market_push_deeps_".
Definition PULL_GROUP : string := "usdt_contract_match_channel_one_group".

Definition contract_pull_order_topic (symbol_key : string) : string := (PULL_ORDER_PREFIX ++ encode_symbol_key b64 symbol_key)%string.
Definition contract_push_order_topic (symbol_key : string) : string := (PUSH_ORDER_PREFIX ++ encode_symbol_key b64 symbol_key)%string.
Definition contract_push_market_topic (symbol_key : string) : string := (PUSH_MARKET_PREFIX ++ encode_symbol_key b64 symbol_key)%string.
Definition contract_push_no_deal_topic (symbol_key : string) : string := (PUSH_NO_DEAL_PREFIX ++ encode_symbol_key b64 symbol_key)%string.
Definition contract_push_deeps_topic (symbol_key : string) : string := (PUSH_DEEPS_PREFIX ++ encode_symbol_key b64 symbol_key)%string.

(** [subscriptions_for_symbols] ([mq/consumer.rs]): topic and consumer group. *)
Definition subscriptions_for_symbols (symbols : list string) (consumer_group : string) : list (string * string) :=
  (λ symbol, (contract_pull_order_topic symbol, (consumer_group ++ encode_symbol_key b64 symbol)%string)) <$> symbols.

End Names.

(** ** match-spot *)
Section Names.
Context (b64 : string → string).

Definition SPOT_PULL_ORDER : string := "contract_match_order".
Definition SPOT_PULL_ORDER_MM_SUFFIX : string := "_mm".
Definition SPOT_PULL_GROUP_MM_SUFFIX : string := "_mm".
Definition SPOT_PUSH_ORDER_PREFIX : string := "contract_match_order_push_order_".
Definition SPOT_PUSH_MARKET_PREFIX : string := "contract_match_market_push_order_".
Definition SPOT_PUSH_NO_DEAL : string := "contract_match_market_push_no_deal".
Definition SPOT_PUSH_DEEPS : string := "contract_match_market_push_deeps".

Definition suffixed (topic : string) (mm_suffix : bool) : string :=
  if mm_suffix then (topic ++ SPOT_PULL_ORDER_MM_SUFFIX)%string else topic.

Definition spot_push_order_topic (symbol_key : string) (mm_suffix : bool) : string :=
  suffixed (SPOT_PUSH_ORDER_PREFIX ++ encode_symbol_key b64 symbol_key)%string mm_suffix.
Definition spot_push_market_topic (symbol_key : string) (mm_suffix : bool) : string :=
  suffixed (SPOT_PUSH_MARKET_PREFIX ++ encode_symbol_key b64 symbol_key)%string mm_suffix.

(** [shard_subscriptions] ([mq/consumer.rs]) *)
Definition shard_subscriptions (consumer_group : string) (enable_mm : bool) : list (string * string) :=
  (SPOT_PULL_ORDER, consumer_group)
  :: (if enable_mm then [((SPOT_PULL_ORDER ++ SPOT_PULL_ORDER_MM_SUFFIX)%string,
                          (consumer_group ++ SPOT_PULL_GROUP_MM_SUFFIX)%string)] else []).

End Names.

(** ** Names do not collide

    A symbol key as the converters produce it has no slash; for keys of letters
    and digits the names of different queues are different. *)
Section Distinct.
Context (b64 : string → string).

Definition plain (symbol : string) : Prop := symbol ≠ EmptyString ∧ all_chars is_alnum symbol = true.

Lemma all_chars_impl (f g : ascii → bool) s : (∀ c, f c = true → g c = true) → all_chars f s = true → all_chars g s = true.
Proof.
  intros Hfg. induction s as [|c s IH]; [done|]. cbn. intros [Hc Hs]%andb_true_iff. by rewrite Hfg, IH.
Qed.

Lemma all_chars_app f a b : all_chars f (a ++ b)%string = all_chars f a && all_chars f b.
Proof.
  induction a as [|c a IH]; [done|]. change (f c && all_chars f (a ++ b)%string = f c && all_chars f a && all_chars f b).
  by rewrite IH, andb_assoc.
Qed.

Lemma plain_no_slash s : all_chars is_alnum s = true → split_slash s = None.
Proof.
  induction s as [|c s IH]; [done|]. cbn. intros [Hc Hs]%andb_true_iff. rewrite IH by done.
  destruct (Ascii.eqb_spec c "/"%char) as [->|]; [discriminate Hc|done].
Qed.

Lemma encode_plain s : plain s → encode_symbol_key b64 s = s.
Proof.
  intros [Hne Hs]. unfold encode_symbol_key. destruct (String.eqb_spec s EmptyString) as [|_]; [done|].
  rewrite plain_no_slash by done. unfold is_ascii_token.
  rewrite (all_chars_impl is_alnum) by (done || (intros c Hc; unfold is_token_char; by rewrite Hc)).
  by destruct (String.eqb_spec s EmptyString).
Qed.

Lemma string_length_app a b : String.length (a ++ b)%string = (String.length a + String.length b)%nat.
Proof. induction a as [|c a IH]; [done|]. change (S (String.length (a ++ b)) = S (String.length a + String.length b))%nat. by rewrite IH. Qed.

Lemma append_inj_r a a' b : (a ++ b)%string = (a' ++ b)%string → a = a'.
Proof.
  intros Heq. assert (String.length a = String.length a') as Hl.
  { apply (f_equal String.length) in Heq. rewrite !string_length_app in Heq. lia. }
  revert a' Heq Hl; induction a as [|c a IH]; intros [|c' a'] Heq Hl; try done.
  injection Heq as -> Heq. injection Hl as Hl. by rewrite (IH a').
Qed.

Inductive contract_queue := CPull | CPushOrder | CPushMarket | CPushNoDeal | CPushDeeps.

Definition contract_topic (k : contract_queue) : string → string :=
  match k with
  | CPull => contract_pull_order_topic b64 | CPushOrder => contract_push_order_topic b64
  | CPushMarket => contract_push_market_topic b64 | CPushNoDeal => contract_push_no_deal_topic b64
  | CPushDeeps => contract_push_deeps_topic b64
  end.

Lemma contract_topics_distinct k k' s s' :
  plain s → plain s' → contract_topic k s = contract_topic k' s' → k = k' ∧ s = s'.
Proof.
  intros Hs Hs'. unfold contract_topic, contract_pull_order_topic, contract_push_order_topic,
    contract_push_market_topic, contract_push_no_deal_topic, contract_push_deeps_topic.
  destruct k, k'; rewrite !encode_plain by done; destruct Hs as [_ Hs], Hs' as [_ Hs'];
    cbn; intros Heq; repeat (injection Heq as Heq || discriminate Heq); cbv [String.append] in Heq; subst; (done || discriminate Hs || discriminate Hs').
Qed.

(** The outbound and inbound queues of the spot process. *)
Inductive spot_queue := SPull | SPullMm | SPushOrder (s : string) (mm : bool) | SPushMarket (s : string) (mm : bool)
  | SNoDeal | SDeeps.

Definition spot_topic (k : spot_queue) : string :=
  match k with
  | SPull => SPOT_PULL_ORDER
  | SPullMm => (SPOT_PULL_ORDER ++ SPOT_PULL_ORDER_MM_SUFFIX)%string
  | SPushOrder s mm => spot_push_order_topic b64 s mm
  | SPushMarket s mm => spot_push_market_topic b64 s mm
  | SNoDeal => SPOT_PUSH_NO_DEAL
  | SDeeps => SPOT_PUSH_DEEPS
  end.

Definition plain_queue (k : spot_queue) : Prop :=
  match k with SPushOrder s _ | SPushMarket s _ => plain s | _ => True end.

Lemma suffixed_inj p s s' mm mm' :
  plain s → plain s' → suffixed (p ++ encode_symbol_key b64 s)%string mm
    = suffixed (p ++ encode_symbol_key b64 s')%string mm' → s = s' ∧ mm = mm'.
Proof.
  intros Hs Hs'. rewrite !encode_plain by done. destruct Hs as [_ Hs], Hs' as [_ Hs']. unfold suffixed.
  assert (∀ a b, (p ++ a)%string = (p ++ b)%string → a = b) as Hp.
  { clear. induction p as [|c p IH]; [done|]. intros a b Heq. injection Heq as Heq. by apply IH. }
  assert (∀ a b c : string, ((a ++ b) ++ c)%string = (a ++ (b ++ c))%string) as Hassoc.
  { clear. induction a as [|x a IH]; intros b c; [done|]. change (String x ((a ++ b) ++ c) = String x (a ++ (b ++ c)))%string.
    by rewrite IH. }
  destruct mm, mm'; rewrite ?Hassoc; intros Heq%Hp.
  - by apply append_inj_r in Heq.
  - subst s'. by rewrite all_chars_app, andb_false_r in Hs'.
  - subst s. by rewrite all_chars_app, andb_false_r in Hs.
  - done.
Qed.

Lemma spot_topics_distinct k k' : plain_queue k → plain_queue k' → spot_topic k = spot_topic k' → k = k'.
Proof.
  intros Hk Hk' Heq. destruct k as [| |s mm|s mm| |], k' as [| |s' mm'|s' mm'| |]; cbn in Hk, Hk'; try done.
  all: try (destruct (suffixed_inj _ _ _ _ _ Hk Hk' Heq) as [-> ->]; done).
  all: exfalso; revert Heq; unfold spot_topic, spot_push_order_topic, spot_push_market_topic, suffixed;
    try destruct mm; try destruct mm'; cbn; intros Heq; repeat (injection Heq as Heq || discriminate Heq).
Qed.
End Distinct.
