(* ===== verification/MemoryMq.v ===== *)
(** * The in-memory message transport

    Models [match-contract/src/mq/memory.rs] and [match-spot/src/mq/memory.rs], which
    are the same up to two test helpers: the sink that records what is sent and can
    write it to files, and the source that hands published messages to a handler.

    A message is its topic and its body.  The file system's answer to a send is an
    argument.  The source is shared by publishers, [start], [stop] and the polling
    threads: every lock-protected access and every load or store of the flag is one
    atomic step, a thread is the point it has reached, and any thread may move
    next.  [handled] lists the calls of a handler in the order they were made; a
    handler is a number, since a later [start] replaces it. *)
From stdpp Require Import gmap.
From S2P Require Import Prelude HpScale Topics.

#[local] Open Scope Z_scope.

Definition Message : Type := string * list Z.

(** ** The sink *)

Inductive fs_outcome := FsOk | FsDirFails | FsCreateFails | FsWriteFails (n : nat).

Record MemoryOrderSink := mkSink {
  sent : list Message; out_dir : bool; files : gmap (string * string) (list Z); fail_topics : list string }.

Definition sink_new : MemoryOrderSink := mkSink [] false ∅ [].
Definition with_out_dir : MemoryOrderSink := mkSink [] true ∅ [].

Definition fail_topic_containing (s : MemoryOrderSink) (needle : string) : MemoryOrderSink :=
  mkSink (sent s) (out_dir s) (files s) (fail_topics s ++ [needle]).

Definition clear_fail_topics (s : MemoryOrderSink) : MemoryOrderSink :=
  mkSink (sent s) (out_dir s) (files s) [].

(** [topic.contains(needle)] *)
Fixpoint str_contains (topic needle : string) : bool :=
  String.prefix needle topic || match topic with EmptyString => false | String _ t => str_contains t needle end.

(** [topic.replace('/', "_")] *)
Fixpoint sanitize_topic (topic : string) : string :=
  match topic with
  | EmptyString => EmptyString
  | String a t => String (if Ascii.eqb a "/"%char then "_"%char else a) (sanitize_topic t)
  end.

(** [format!("{seq:06}.json")] *)
Definition file_name (seq : Z) : string :=
  (String.string_of_list_ascii (zero_padded 6 seq) +:+ ".json")%string.

Definition set_files (s : MemoryOrderSink) (fs : gmap (string * string) (list Z)) : MemoryOrderSink :=
  mkSink (sent s) (out_dir s) fs (fail_topics s).

(** The message is recorded under the lock; the number of its file is read in a
    second locked section. *)
Definition sink_record (s : MemoryOrderSink) (m : Message) : MemoryOrderSink :=
  mkSink (sent s ++ [m]) (out_dir s) (files s) (fail_topics s).

Definition sink_write (s : MemoryOrderSink) (m : Message) (fs : fs_outcome) : MemoryOrderSink * bool :=
  if out_dir s then
    let seq := Z.of_nat (length (sent s)) in
    let path := (sanitize_topic m.1, file_name seq) in
    match fs with
    | FsDirFails | FsCreateFails => (s, false)
    | FsWriteFails n => (set_files s (<[path := take n m.2]> (files s)), false)
    | FsOk => (set_files s (<[path := m.2]> (files s)), true)
    end
  else (s, true).

Definition sink_send (s : MemoryOrderSink) (topic : string) (body : list Z) (fs : fs_outcome) : MemoryOrderSink * bool :=
  if existsb (str_contains topic) (fail_topics s) then (s, false)
  else sink_write (sink_record s (topic, body)) (topic, body) fs.

(** ** The source *)

(** Where a thread is: a publisher that found no running handler; [start] before
    each of its steps; the poller before each of its steps. *)
Inductive thread :=
| Pushing (m : Message)
| StartRunning (h : nat) (spawn_ok : bool)
| StartDrain (h : nat) (spawn_ok : bool)
| StartDeliver (h : nat) (pending : list Message) (spawn_ok : bool)
| PollTest
| PollDrain
| PollLock (batch : list Message)
| PollDeliver (h : nat) (batch : list Message)
| Finished.

#[export] Instance thread_eq_dec : EqDecision thread.
Proof. solve_decision. Defined.

Record MemoryMessageSource := mkSource {
  inbox : list Message; running : bool; handler : option nat; handled : list (nat * Message); threads : list thread }.

Definition source_new : MemoryMessageSource := mkSource [] false None [] [].

Definition call (h : nat) (m : Message) (s : MemoryMessageSource) : MemoryMessageSource :=
  mkSource (inbox s) (running s) (handler s) (handled s ++ [(h, m)]) (threads s).

Definition push_inbox (m : Message) (s : MemoryMessageSource) : MemoryMessageSource :=
  mkSource (inbox s ++ [m]) (running s) (handler s) (handled s) (threads s).

Definition drain (s : MemoryMessageSource) : list Message * MemoryMessageSource :=
  (inbox s, mkSource [] (running s) (handler s) (handled s) (threads s)).

Definition set_running (b : bool) (s : MemoryMessageSource) : MemoryMessageSource :=
  mkSource (inbox s) b (handler s) (handled s) (threads s).

Definition set_handler (h : nat) (s : MemoryMessageSource) : MemoryMessageSource :=
  mkSource (inbox s) (running s) (Some h) (handled s) (threads s).

Definition spawn (t : thread) (s : MemoryMessageSource) : MemoryMessageSource :=
  mkSource (inbox s) (running s) (handler s) (handled s) (threads s ++ [t]).

Definition set_thread (i : nat) (t : thread) (s : MemoryMessageSource) : MemoryMessageSource :=
  mkSource (inbox s) (running s) (handler s) (handled s) (<[i := t]> (threads s)).

(** The first half of [publish], under the handler's lock. *)
Definition publish (m : Message) (s : MemoryMessageSource) : MemoryMessageSource :=
  match handler s with
  | Some h => if running s then call h m s else spawn (Pushing m) s
  | None => spawn (Pushing m) s
  end.

Definition enqueue_inbox (m : Message) (s : MemoryMessageSource) : MemoryMessageSource := push_inbox m s.

Definition start (h : nat) (spawn_ok : bool) (s : MemoryMessageSource) : MemoryMessageSource :=
  spawn (StartRunning h spawn_ok) (set_handler h s).

Definition stop (s : MemoryMessageSource) : MemoryMessageSource := set_running false s.

(** The next step of thread [i]. *)
Definition thread_step (i : nat) (s : MemoryMessageSource) : MemoryMessageSource :=
  match threads s !! i with
  | Some (Pushing m) => set_thread i Finished (push_inbox m s)
  | Some (StartRunning h ok) => set_thread i (StartDrain h ok) (set_running true s)
  | Some (StartDrain h ok) => let '(pending, s) := drain s in set_thread i (StartDeliver h pending ok) s
  | Some (StartDeliver h (m :: pending) ok) => set_thread i (StartDeliver h pending ok) (call h m s)
  | Some (StartDeliver h [] ok) =>
      let s := set_thread i Finished s in if ok : bool then spawn PollTest s else s
  | Some PollTest => set_thread i (if running s then PollDrain else Finished) s
  | Some PollDrain => let '(batch, s) := drain s in set_thread i (PollLock batch) s
  | Some (PollLock batch) =>
      match handler s with Some h => set_thread i (PollDeliver h batch) s | None => set_thread i PollTest s end
  | Some (PollDeliver h (m :: batch)) => set_thread i (PollDeliver h batch) (call h m s)
  | Some (PollDeliver h []) => set_thread i PollTest s
  | Some Finished | None => s
  end.

Inductive mq_action := MPublish (m : Message) | MEnqueue (m : Message) | MStart (h : nat) (spawn_ok : bool) | MStop | MThread (i : nat).

Definition mq_step (s : MemoryMessageSource) (a : mq_action) : MemoryMessageSource :=
  match a with
  | MPublish m => publish m s
  | MEnqueue m => enqueue_inbox m s
  | MStart h ok => start h ok s
  | MStop => stop s
  | MThread i => thread_step i s
  end.

Definition mq_run (s : MemoryMessageSource) (acts : list mq_action) : MemoryMessageSource := foldl mq_step s acts.

(** ** Loading files *)

(** A call of [publish] that is not interrupted. *)
Definition publish_alone (m : Message) (s : MemoryMessageSource) : MemoryMessageSource :=
  match handler s with
  | Some h => if running s then call h m s else push_inbox m s
  | None => push_inbox m s
  end.

(** An entry of the directory: its extension and its stem, when they are text, and
    what reading it gives. *)
Record dir_entry := mkEntry { de_ext : option string; de_stem : option string; de_body : option (list Z) }.

(** The entries a listing yields; [None] is an error of the listing. *)
Fixpoint load_entries (l : list (option dir_entry)) (count : nat) (s : MemoryMessageSource) : MemoryMessageSource * option nat :=
  match l with
  | [] => (s, Some count)
  | None :: _ => (s, None)
  | Some en :: l =>
      if bool_decide (de_ext en = Some "json"%string) then
        match de_body en with
        | None => (s, None)
        | Some body => load_entries l (S count) (publish_alone (default "unknown"%string (de_stem en), body) s)
        end
      else load_entries l count s
  end.

(** [None] for the listing: the directory cannot be read. *)
Definition load_dir (exists_ : bool) (listing : option (list (option dir_entry))) (s : MemoryMessageSource) :
    MemoryMessageSource * option nat :=
  if negb exists_ then (s, Some O)
  else match listing with None => (s, None) | Some l => load_entries l 0 s end.

(** ** Nothing is lost or handed over twice *)

Definition in_flight (t : thread) : list Message :=
  match t with
  | Pushing m => [m]
  | StartDeliver _ l _ | PollLock l | PollDeliver _ l => l
  | _ => []
  end.

Definition flying (ts : list thread) : list Message := concat (in_flight <$> ts).

Definition published_by (a : mq_action) : option Message :=
  match a with MPublish m | MEnqueue m => Some m | _ => None end.

Definition published (acts : list mq_action) : list Message := omap published_by acts.

Lemma flying_app ts ts' : flying (ts ++ ts') = flying ts ++ flying ts'.
Proof. unfold flying. by rewrite fmap_app, concat_app. Qed.

(** The messages of the other threads. *)
Lemma flying_insert ts i t0 :
  ts !! i = Some t0 →
  ∃ rest, flying ts ≡ₚ in_flight t0 ++ rest ∧ ∀ t, flying (<[i := t]> ts) ≡ₚ in_flight t ++ rest.
Proof.
  intros Hi. pose proof (lookup_lt_Some _ _ _ Hi). exists (flying (take i ts) ++ flying (drop (S i) ts)). split.
  - rewrite <- (take_drop_middle ts i t0 Hi) at 1. rewrite flying_app. change (flying (t0 :: ?l)) with (in_flight t0 ++ flying l).
    solve_Permutation.
  - intros t. rewrite insert_take_drop by done. rewrite flying_app. change (flying (t :: ?l)) with (in_flight t ++ flying l).
    solve_Permutation.
Qed.

Definition idle (t : thread) : Prop := match t with Pushing _ | Finished => True | _ => False end.

Record source_inv (ms : list Message) (s : MemoryMessageSource) : Prop := {
  so_once : ms ≡ₚ (handled s).*2 ++ inbox s ++ flying (threads s);
  so_handler : handler s = None → Forall idle (threads s) }.

Lemma source_inv_spawn ms s t :
  source_inv ms s → (handler s = None → idle t) → source_inv (ms ++ in_flight t) (spawn t s).
Proof.
  intros [Ho Hh] Ht. split; cbn [spawn inbox handled handler threads].
  - rewrite flying_app. unfold flying at 2. cbn [fmap list_fmap concat]. rewrite app_nil_r, Ho. solve_Permutation.
  - intros Hn. apply Forall_app. split; [auto|]. constructor; [auto|constructor].
Qed.

Lemma idle_insert i t ts : Forall idle ts → idle t → Forall idle (<[i := t]> ts).
Proof. intros. by apply Forall_insert. Qed.

Lemma source_inv_thread ms s i : source_inv ms s → source_inv ms (thread_step i s).
Proof.
  intros Hs. pose proof Hs as [Ho Hh]. unfold thread_step. destruct (threads s !! i) as [t|] eqn:Hi; [|done].
  destruct (decide (t = Finished)) as [->|Hnf]; [done|].
  destruct (flying_insert _ _ _ Hi) as (rest & Hf & Hins). rewrite Hf in Ho.
  assert (handler s = None → idle t) as Hidle.
  { intros Hn. specialize (Hh Hn). rewrite Forall_forall in Hh. apply Hh. by eapply list_elem_of_lookup_2. }
  assert (∀ t', (handler s = None → idle t') → handler s = None → Forall idle (<[i := t']> (threads s))) as Hset.
  { intros t' Ht' Hn. apply idle_insert; auto. }
  destruct t as [m|h ok|h ok|h [|m l] ok| | |b|h [|m l]|]; cbn [idle] in Hidle; try destruct (running s) eqn:Er;
    try destruct (handler s) as [h'|] eqn:Eh; try (exfalso; by apply Hidle); try done; try destruct ok;
    (split; cbn [spawn set_thread drain push_inbox call set_running inbox handled handler threads]; [rewrite ?flying_app, ?fmap_app, ?Hins; rewrite Ho; cbn; rewrite ?app_nil_r; try solve_Permutation
                 |intros Hn; try congruence; try (apply Hset; [done|congruence])]).
Qed.

Lemma source_inv_step ms s a :
  source_inv ms s → source_inv (ms ++ option_list (published_by a)) (mq_step s a).
Proof.
  intros Hs. pose proof Hs as [Ho Hh]. destruct a as [m|m|h ok| |i]; cbn [published_by option_list mq_step]; rewrite ?app_nil_r.
  - unfold publish. destruct (handler s) as [h|] eqn:Eh; [destruct (running s)|].
    + split; cbn [call inbox handled handler threads]; [|congruence]. rewrite fmap_app, Ho. cbn. solve_Permutation.
    + by apply (source_inv_spawn ms s (Pushing m)).
    + by apply (source_inv_spawn ms s (Pushing m)).
  - split; [|done]. cbn [enqueue_inbox push_inbox inbox handled handler threads]. rewrite Ho. solve_Permutation.
  - rewrite <- (app_nil_r ms). apply (source_inv_spawn ms (set_handler h s) (StartRunning h ok)); [|done]. by split.
  - by split.
  - by apply source_inv_thread.
Qed.

Lemma source_inv_run acts : source_inv (published acts) (mq_run source_new acts).
Proof.
  induction acts as [|a acts IH] using rev_ind; [by split; [|constructor]|].
  unfold mq_run, published in *. rewrite foldl_app, omap_app. cbn.
  replace (match published_by a with Some y => [y] | None => [] end) with (option_list (published_by a)) by done.
  by apply source_inv_step.
Qed.

(** A poller that is left alone delivers its batch. *)
Lemma poll_deliver s i h batch :
  threads s !! i = Some (PollDeliver h batch) →
  mq_run s (replicate (S (length batch)) (MThread i))
  = mkSource (inbox s) (running s) (handler s) (handled s ++ ((λ m, (h, m)) <$> batch)) (<[i := PollTest]> (threads s)).
Proof.
  revert s; induction batch as [|m batch IH]; intros s Hi; pose proof (lookup_lt_Some _ _ _ Hi).
  - unfold mq_run. cbn. unfold thread_step. rewrite Hi. cbn. by rewrite app_nil_r.
  - cbn [length]. rewrite replicate_S. unfold mq_run in *. cbn [foldl mq_step].
    replace (thread_step i s) with (set_thread i (PollDeliver h batch) (call h m s)) by (unfold thread_step; by rewrite Hi).
    rewrite IH by (cbn; by apply list_lookup_insert_eq). cbn. rewrite <- app_assoc. f_equal. by rewrite list_insert_insert_eq.
Qed.

(** Messages are handed over exactly once.  Whatever publishers, starts, stops
    and polling threads do in between each other, every published message is in
    exactly one of three places: handed to a handler, waiting in the inbox, or held
    by one thread.  And while the source runs, one round of a polling thread hands
    over everything that waits, in order: no message that raced with [start] is
    left behind. *)
Theorem memory_exactly_once acts i :
  let s := mq_run source_new acts in
  published acts ≡ₚ (handled s).*2 ++ inbox s ++ flying (threads s)
  ∧ (running s = true → threads s !! i = Some PollTest → ∃ h, handler s = Some h
     ∧ mq_run s (replicate (4 + length (inbox s)) (MThread i))
       = mkSource [] true (Some h) (handled s ++ ((λ m, (h, m)) <$> inbox s)) (threads s)).
Proof.
  intros s. pose proof (source_inv_run acts) as [Ho Hh]. fold s in Ho, Hh. split; [done|]. clearbody s. intros Hr Hi.
  destruct (handler s) as [h|] eqn:Eh.
  2: { specialize (Hh eq_refl). rewrite Forall_forall in Hh. destruct (Hh PollTest). by eapply list_elem_of_lookup_2. }
  exists h. split; [done|]. pose proof (lookup_lt_Some _ _ _ Hi).
  replace (4 + length (inbox s))%nat with (3 + S (length (inbox s)))%nat by lia. rewrite replicate_add. unfold mq_run. rewrite foldl_app.
  set (s3 := foldl mq_step s (replicate 3 (MThread i))).
  assert (s3 = mkSource [] true (Some h) (handled s) (<[i := PollDeliver h (inbox s)]> (threads s))) as E3.
  { subst s3. cbn [replicate foldl mq_step].
    assert (thread_step i s = set_thread i PollDrain s) as -> by (unfold thread_step; by rewrite Hi, Hr).
    assert (∀ x t, threads (set_thread i t x) = <[i := t]> (threads x)) as Ht by done.
    unfold thread_step at 2. rewrite Ht, list_lookup_insert_eq by done. cbn [drain].
    unfold thread_step. rewrite Ht. cbn [threads set_thread]. rewrite list_lookup_insert_eq by (by rewrite length_insert).
    cbn [handler set_thread]. rewrite Eh. cbn [set_thread inbox running handler handled threads]. rewrite Hr.
    unfold set_thread. cbn [inbox running handler handled threads]. by rewrite !list_insert_insert_eq. }
  fold (mq_run s3 (replicate (S (length (inbox s))) (MThread i))).
  rewrite (poll_deliver s3 i h (inbox s)) by (rewrite E3; cbn; by apply list_lookup_insert_eq).
  rewrite E3. cbn. f_equal. rewrite list_insert_insert_eq. by apply list_insert_id.
Qed.

(** A publish that nothing interrupts. *)
Lemma publish_uninterrupted m s :
  let s' := publish m s in
  handled (publish_alone m s) = handled (thread_step (length (threads s)) s')
  ∧ inbox (publish_alone m s) = inbox (thread_step (length (threads s)) s').
Proof.
  cbn zeta. unfold publish, publish_alone, thread_step.
  destruct (handler s) as [h|]; [destruct (running s)|]; cbn [call spawn threads].
  - by rewrite lookup_ge_None_2.
  - by rewrite list_lookup_middle.
  - by rewrite list_lookup_middle.
Qed.

(** ** Files *)

Lemma file_name_inj a b : 0 <= a < 2 ^ 64 → 0 <= b < 2 ^ 64 → file_name a = file_name b → a = b.
Proof.
  intros Ha Hb Heq. unfold file_name in Heq. apply append_inj_r in Heq.
  apply (f_equal String.list_ascii_of_string) in Heq. rewrite !String.list_ascii_of_string_of_list_ascii in Heq.
  assert (∀ n, 0 <= n < 2 ^ 64 → num (zero_padded 6 n) = n) as Hnum.
  { intros n Hn. destruct (u64_to_string_spec n Hn) as (_ & Hv & _). unfold zero_padded. rewrite num_app, num_zeros, Hv. lia. }
  by rewrite <- (Hnum a), <- (Hnum b), Heq by done.
Qed.

(** Sends one after the other, none of them refused. *)
Definition send_all (s : MemoryOrderSink) (ms : list Message) : MemoryOrderSink :=
  foldl (λ s m, (sink_send s m.1 m.2 FsOk).1) s ms.

Record sink_inv (ms : list Message) (s : MemoryOrderSink) : Prop := {
  si_sent : sent s = ms;
  si_dir : out_dir s = true;
  si_fails : fail_topics s = [];
  si_files : ∀ k m, ms !! k = Some m → files s !! (sanitize_topic m.1, file_name (Z.of_nat k + 1)) = Some m.2 }.

Lemma sink_inv_send ms s m :
  Z.of_nat (length ms) + 1 < 2 ^ 64 → sink_inv ms s → sink_inv (ms ++ [m]) (sink_send s m.1 m.2 FsOk).1.
Proof.
  unfold Message in *. intros Hl [I1 I2 I3 I4]. unfold sink_send. rewrite I3. cbn [existsb]. unfold sink_write, sink_record.
  cbn [out_dir sent]. rewrite I1, I2, length_app. destruct m as [topic body].
  split; cbn [fst snd set_files sent out_dir fail_topics files length]; try done.
  intros j m' Hj. unfold Message. rewrite Nat2Z.inj_add. change (Z.of_nat 1) with 1.
  pose proof (lookup_lt_Some _ _ _ Hj) as Hlt. rewrite length_app in Hlt. cbn in Hlt.
  destruct (decide (j = length ms)) as [->|Hne].
  - rewrite list_lookup_middle in Hj by done. injection Hj as <-. cbn [fst snd]. by rewrite (lookup_insert_eq (M := gmap (string * string))).
  - rewrite lookup_app_l in Hj by lia. rewrite (lookup_insert_ne (M := gmap (string * string))); [by apply I4|].
    intros [= _ Hf]. apply file_name_inj in Hf; lia.
Qed.

(** With an output directory, the file numbered [k] of a topic has the body of the
    [k]-th message, as long as no topic is made to fail. *)
Lemma sink_files_exact ms :
  Z.of_nat (length ms) < 2 ^ 64 → sink_inv ms (send_all with_out_dir ms).
Proof.
  induction ms as [|m ms IH] using rev_ind; intros Hl; [by split|]. rewrite length_app in Hl. cbn in Hl.
  unfold send_all in *. rewrite foldl_app. apply sink_inv_send; [lia|]. apply IH. lia.
Qed.

Module Witness.

Definition m1 : Message := ("a"%string, [1]).
Definition m2 : Message := ("a"%string, [2]).
Definition m3 : Message := ("b"%string, [3]).

(** [m1] is published before the start; [m2] races with it: its publisher finds no
    running handler and puts it into the inbox after [start] has drained it. *)
Definition racing : list mq_action :=
  [MPublish m1; MThread 0; MPublish m2; MStart 7 true; MThread 2; MThread 2; MThread 1; MThread 2; MThread 2].

Lemma memory_exactly_once_witness :
  let s := mq_run source_new racing in
  inbox s = [m2] ∧ mq_run s (replicate 5 (MThread 3)) = mkSource [] true (Some 7%nat) [(7%nat, m1); (7%nat, m2)] (threads s).
Proof.
  split; [reflexivity|]. destruct (memory_exactly_once racing 3) as [_ H].
  destruct (H ltac:(vm_compute; reflexivity) ltac:(vm_compute; reflexivity)) as (h & Hh & Hr).
  assert (h = 7%nat) as -> by (revert Hh; vm_compute; congruence). exact Hr.
Defined.

(** Two senders to one topic record their messages before either reads the number
    of its file: both take number 2 and one file is lost. *)
Example racing_senders_share_a_file :
  let s := sink_record (sink_record with_out_dir m1) m2 in
  let s := (sink_write (sink_write s m1 FsOk).1 m2 FsOk).1 in
  length (sent s) = 2%nat ∧ map_to_list (files s) = [(("a"%string, "000002.json"%string), [2])].
Proof. vm_compute. by split. Qed.

(** A failed file write is reported as a failed send, but the message is recorded. *)
Example failed_write_is_recorded :
  let r := sink_send with_out_dir "a" [1] FsCreateFails in r.2 = false ∧ sent r.1 = [m1].
Proof. by split. Qed.

End Witness.
