(* ===== verification/Redis.v ===== *)
(** * The Redis side of both processes

    Key names and store operations of [match-spot/src/redis_store.rs] and
    [match-contract/src/redis_store.rs].  The store is the one of the source's
    [MockStore]: strings and lists by key, [LPUSH] at the front, [RPOP] at the end;
    the real backends run the same Redis commands.  A command is refused when the
    connection is down, which [up] decides per key. *)
From stdpp Require Import gmap strings.
From S2P Require Import Prelude Protocol Topics HpScale Utf8 Gateway GatewayProps.

#[local] Open Scope Z_scope.

Record MockStore := mkStore { st_strings : gmap string string; st_lists : gmap string (list (list Z)) }.

Definition store_empty : MockStore := mkStore ∅ ∅.

(** [strings.remove(key).is_some() || lists.remove(key).is_some()]: the list is
    left when there was a string. *)
Definition store_del (s : MockStore) (key : string) : bool * MockStore :=
  match st_strings s !! key with
  | Some _ => (true, mkStore (delete key (st_strings s)) (st_lists s))
  | None => (bool_decide (is_Some (st_lists s !! key)), mkStore (st_strings s) (delete key (st_lists s)))
  end.

Definition store_exists (s : MockStore) (key : string) : bool :=
  bool_decide (is_Some (st_strings s !! key)) || bool_decide (is_Some (st_lists s !! key)).

Definition store_set (s : MockStore) (key value : string) : MockStore := mkStore (<[key := value]> (st_strings s)) (st_lists s).

Definition store_lpush (s : MockStore) (key : string) (value : list Z) : Z * MockStore :=
  let l := value :: default [] (st_lists s !! key) in
  (Z.of_nat (length l), mkStore (st_strings s) (<[key := l]> (st_lists s))).

Definition store_rpop (s : MockStore) (key : string) : option (list Z) * MockStore :=
  match st_lists s !! key with
  | Some l => (last l, mkStore (st_strings s) (<[key := take (length l - 1) l]> (st_lists s)))
  | None => (None, s)
  end.

(** ** Keys *)

Inductive DepthSuffix := Detail | Trade | Paint.
Definition ALL_SUFFIXES : list DepthSuffix := [Detail; Trade; Paint].

Definition MATCH_KEY_PREFIX : string := "match:".
Definition MARKET_KEY_PREFIX : string := "market:".
Definition REDIS_LINK_LIST_KEY : string := "redis_poc_link_list_key".
Definition REDIS_SEND_MQ_ERROR_DATA_QUEUE : string := "poc_redis_send_mq_error_data_queue".

Definition link_list_key (symbol_key : string) : string := (MATCH_KEY_PREFIX +:+ REDIS_LINK_LIST_KEY +:+ symbol_key)%string.
Definition mq_error_queue_key : string := (MATCH_KEY_PREFIX +:+ REDIS_SEND_MQ_ERROR_DATA_QUEUE)%string.

Definition normalize_symbol_key (coin_market : string) : string := to_lowercase (remove_slash coin_market).

Definition spot_suffix (d : DepthSuffix) : string :=
  match d with Detail => "_detail" | Trade => "_trade" | Paint => "_paint" end.
Definition spot_depth_key (symbol_key : string) (d : DepthSuffix) : string :=
  (MARKET_KEY_PREFIX +:+ "exchange_depth:" +:+ symbol_key +:+ spot_suffix d)%string.

Definition contract_suffix (d : DepthSuffix) : string :=
  match d with Detail => "detail" | Trade => "trade" | Paint => "paint" end.
Definition contract_depth_key (origin_coin_market : string) (d : DepthSuffix) : string :=
  (MARKET_KEY_PREFIX +:+ "contract_exchange_depth:" +:+ normalize_symbol_key origin_coin_market +:+ contract_suffix d)%string.

(** ** Commands that can fail *)
Section Commands.
Context (up : string → bool).

Definition redis_del (s : MockStore) (key : string) : option MockStore :=
  if up key then Some (store_del s key).2 else None.
Definition redis_set (s : MockStore) (key value : string) : option MockStore :=
  if up key then Some (store_set s key value) else None.
Definition redis_exists (s : MockStore) (key : string) : option bool :=
  if up key then Some (store_exists s key) else None.

Fixpoint del_all (s : MockStore) (keys : list string) : option MockStore :=
  match keys with [] => Some s | k :: keys => s ← redis_del s k; del_all s keys end.

Definition spot_wipe_depth_keys (s : MockStore) (symbol_key : string) : option MockStore :=
  del_all s (spot_depth_key symbol_key <$> ALL_SUFFIXES).
Definition contract_wipe_depth_keys (s : MockStore) (origin : string) : option MockStore :=
  del_all s (contract_depth_key origin <$> ALL_SUFFIXES).

Definition spot_reset_link_key (s : MockStore) (symbol_key label : string) : option MockStore :=
  s ← redis_del s (link_list_key symbol_key);
  redis_set s (link_list_key symbol_key) label.

Definition contract_reset_link_key (s : MockStore) (symbol_key coin_market : string) : option MockStore :=
  s ← redis_del s (link_list_key symbol_key);
  there ← redis_exists s (link_list_key symbol_key);
  if negb there then redis_set s (link_list_key symbol_key) coin_market else Some s.

(** [lpush_bytes]; [fail_lpush] is the test switch of the in-memory store. *)
Definition lpush_bytes (fail_lpush : bool) (s : MockStore) (key : string) (value : list Z) : option (Z * MockStore) :=
  if fail_lpush || negb (up key) then None else Some (store_lpush s key value).

Definition rpop_bytes (s : MockStore) (key : string) : option (option (list Z) * MockStore) :=
  if up key then Some (store_rpop s key) else None.

End Commands.

(** ** Connecting *)

Record RedisConfig := mkRedisConfig { rc_cluster_nodes : list string; rc_password : string }.

Inductive RedisStoreError := NoNodes | RedisError.

(** The connection made: a cluster client over all addresses, or one client. *)
Inductive RedisBackend := Cluster (urls : list string) | Single (url : string).

Definition hex_digit (n : Z) : ascii :=
  ascii_of_N (Z.to_N (if n <? 10 then 48 + n else 55 + n)).

(** [A-Z a-z 0-9 - _ . ~] *)
Definition unreserved (b : Z) : bool :=
  between 65 90 b || between 97 122 b || between 48 57 b || (b =? 45) || (b =? 95) || (b =? 46) || (b =? 126).

Fixpoint urlencoding_encode (s : string) : string :=
  match s with
  | EmptyString => EmptyString
  | String a s =>
      let b := code a in
      if unreserved b then String a (urlencoding_encode s)
      else String "%" (String (hex_digit (Z.shiftr b 4)) (String (hex_digit (Z.land b 15)) (urlencoding_encode s)))
  end.

Definition node_url (password node : string) : string :=
  if String.eqb password EmptyString then ("redis://" +:+ node +:+ "/")%string
  else ("redis://:" +:+ urlencoding_encode password +:+ "@" +:+ node +:+ "/")%string.

Definition node_urls (c : RedisConfig) : list string := node_url (rc_password c) <$> rc_cluster_nodes c.

(** [RedisStore::connect]; [dial] says whether the client library connects. *)
Definition redis_connect (dial : RedisBackend → bool) (c : RedisConfig) : RedisStoreError + RedisBackend :=
  match rc_cluster_nodes c, node_urls c with
  | [], _ => inl NoNodes
  | _, url :: urls =>
      let backend := match urls with [] => Single url | _ => Cluster (url :: urls) end in
      if dial backend then inr backend else inl RedisError
  | _, [] => inl NoNodes
  end.

(** ** The error queue is first in, first out *)

Lemma lpush_rpop s key v l :
  st_lists s !! key = Some l →
  let s' := (store_lpush s key v).2 in
  st_lists s' !! key = Some (v :: l)
  ∧ (store_rpop s' key).1 = Some (default v (last l))
  ∧ st_lists (store_rpop s' key).2 !! key = Some (take (length l) (v :: l)).
Proof.
  intros Hl. unfold store_lpush, store_rpop. cbn. rewrite Hl. cbn. rewrite !lookup_insert_eq. split_and!; [done| |].
  - cbn [fst]. by rewrite last_cons; destruct (last l).
  - cbn [snd st_lists]. rewrite lookup_insert_eq. cbn [length]. by replace (S (length l) - 1)%nat with (length l) by lia.
Qed.

(** After a reset the link key holds the label, whatever was there. *)
Lemma spot_reset_link_set s k label s' :
  spot_reset_link_key (λ _, true) s k label = Some s' → st_strings s' !! link_list_key k = Some label.
Proof.
  unfold spot_reset_link_key, redis_del, redis_set, store_set. cbn. intros [= <-]. cbn. by rewrite lookup_insert_eq.
Qed.

(** ** An address is read back as node and password *)

(** How a client reads an address: scheme, authority up to the first slash, user
    information up to the at-sign, password behind the colon with its escapes undone. *)
Definition hex_value (a : ascii) : option Z :=
  let b := code a in
  if between 48 57 b then Some (b - 48) else if between 65 70 b then Some (b - 55) else None.

Fixpoint percent_decode (s : string) : option string :=
  match s with
  | EmptyString => Some EmptyString
  | String a s =>
      if Ascii.eqb a "%" then
        match s with
        | String h (String l s) =>
            x ← hex_value h; y ← hex_value l; rest ← percent_decode s;
            Some (String (ascii_of_N (Z.to_N (16 * x + y))) rest)
        | _ => None
        end
      else rest ← percent_decode s; Some (String a rest)
  end.

Definition read_url (url : string) : option (string * string) :=
  rest ← strip_prefix "redis://" url;
  match split_on "/" rest with
  | authority :: _ =>
      match split_on "@" authority with
      | [node] => Some (EmptyString, node)
      | userinfo :: node :: _ =>
          match split_on ":" userinfo with
          | [EmptyString; pw] => pw ← percent_decode pw; Some (pw, node)
          | _ => None
          end
      | [] => None
      end
  | [] => None
  end.

Definition without (c : ascii) (s : string) : Prop := Forall (λ a, a ≠ c) (String.list_ascii_of_string s).

(** A byte is one of 256. *)
Lemma all_ascii (P : ascii → bool) : forallb (λ n, P (ascii_of_nat n)) (seq 0 256) = true → ∀ a, P a = true.
Proof.
  intros H a. rewrite forallb_forall in H. rewrite <- (ascii_nat_embedding a). apply H. apply in_seq.
  pose proof (nat_ascii_bounded a). lia.
Qed.

(** What the encoder writes for a byte: itself, or an escape that gives it back; never
    one of the characters that divide an address. *)
Definition escape_ok (a : ascii) : bool :=
  let b := code a in
  if unreserved b then forallb (λ c, negb (Ascii.eqb a c)) ["%"; "/"; "@"; ":"]%char
  else
    let h := hex_digit (Z.shiftr b 4) in let l := hex_digit (Z.land b 15) in
    forallb (λ c, negb (Ascii.eqb h c) && negb (Ascii.eqb l c)) ["%"; "/"; "@"; ":"]%char &&
    match hex_value h, hex_value l with
    | Some x, Some y => Ascii.eqb (ascii_of_N (Z.to_N (16 * x + y))) a
    | _, _ => false
    end.

Lemma escapes_ok a : escape_ok a = true.
Proof. revert a. apply all_ascii. vm_compute. reflexivity. Qed.

Lemma percent_decode_encode s : percent_decode (urlencoding_encode s) = Some s.
Proof.
  induction s as [|a s IH]; [done|]. cbn [urlencoding_encode]. pose proof (escapes_ok a) as Ha. unfold escape_ok in Ha.
  destruct (unreserved (code a)); cbn [percent_decode].
  - cbn [forallb] in Ha. destruct (Ascii.eqb a "%"); [done|]. by rewrite IH.
  - rewrite (Ascii.eqb_refl "%"). apply andb_prop in Ha as [_ Ha]. destruct (hex_value _) as [x|]; [|done]. destruct (hex_value _) as [y|]; [|done].
    apply Ascii.eqb_eq in Ha. cbn [mbind option_bind]. rewrite IH. cbn [mbind option_bind]. by rewrite Ha.
Qed.

Lemma encode_without c s : c ∈ ["/"; "@"; ":"]%char → without c (urlencoding_encode s).
Proof.
  intros Hc. unfold without. induction s as [|a s IH]; [constructor|]. cbn [urlencoding_encode]. pose proof (escapes_ok a) as Ha. unfold escape_ok in Ha.
  assert (∀ x, forallb (λ c, negb (Ascii.eqb x c)) ["%"; "/"; "@"; ":"]%char = true → x ≠ c) as Hx.
  { intros x Hf ->. rewrite forallb_forall in Hf. specialize (Hf c (in_cons _ _ _ (proj1 (list_elem_of_In _ _) Hc))). by rewrite Ascii.eqb_refl in Hf. }
  destruct (unreserved (code a)); cbn [String.list_ascii_of_string].
  - constructor; [by apply Hx|done].
  - apply andb_prop in Ha as [Ha _]. set (h := hex_digit _) in *. set (l := hex_digit (Z.land _ _)) in *.
    assert (h ≠ c ∧ l ≠ c) as [Hh Hl].
    { rewrite forallb_forall in Ha. split; apply Hx, forallb_forall; intros y Hy; apply Ha in Hy; by apply andb_prop in Hy as [? ?]. }
    constructor; [intros <-; set_solver|]. by repeat (constructor; [done|]).
Qed.

(** A password is read back whatever bytes it has, and the node with it, if the node
    is a host and port. *)
Lemma node_url_roundtrip password node :
  without "/" node → without "@" node → read_url (node_url password node) = Some (password, node).
Proof.
  intros H1 H2. unfold node_url, read_url.
  assert (∀ a b c, ((a +:+ b) +:+ c)%string = (a +:+ (b +:+ c))%string) as Hassoc.
  { intros a b c. induction a as [|x a IH]; [done|]. change (String x ((a +:+ b) +:+ c) = String x (a +:+ (b +:+ c))). by rewrite IH. }
  destruct (String.eqb_spec password EmptyString) as [->|Hp].
  - rewrite strip_prefix_app. cbn [mbind option_bind]. rewrite split_on_app by done. rewrite split_on_plain by done. done.
  - change "redis://:"%string with ("redis://" +:+ ":")%string. rewrite Hassoc, strip_prefix_app. cbn [mbind option_bind].
    pose proof (encode_without "/" password ltac:(set_solver)) as E1. pose proof (encode_without "@" password ltac:(set_solver)) as E2.
    pose proof (encode_without ":" password ltac:(set_solver)) as E3. set (pw := urlencoding_encode password) in *.
    assert (without "/" (":" +:+ pw +:+ "@" +:+ node)) as H3.
    { unfold without in *. rewrite !list_ascii_app. repeat (apply Forall_app; split); try done; repeat constructor; done. }
    replace (":" +:+ pw +:+ "@" +:+ node +:+ "/")%string with ((":" +:+ pw +:+ "@" +:+ node) +:+ "/")%string by (by rewrite !Hassoc).
    rewrite split_on_app by exact H3.
    assert (without "@" (":" +:+ pw)) as H4. { unfold without in *. rewrite list_ascii_app. apply Forall_app. split; [|done]. repeat constructor; done. }
    replace (":" +:+ pw +:+ "@" +:+ node)%string with ((":" +:+ pw) +:+ String "@" node)%string by (by rewrite Hassoc).
    rewrite split_on_app by exact H4. rewrite split_on_plain by exact H2.
    change (":" +:+ pw)%string with ("" +:+ String ":" pw)%string. rewrite split_on_app by done. rewrite split_on_plain by exact E3.
    subst pw. by rewrite percent_decode_encode.
Qed.
