(* ===== verification/Spot.v ===== *)
(** * match-spot: from queue message to engine to push messages

    Models [crates/match-spot/src]: the router ([inbound.rs]), the depth builder
    ([spot_depth.rs]), the topic split ([config.rs]), the producer and the outbound
    mapping ([mq/producer.rs], [outbound.rs], [error_queue.rs]) and the worker's
    round ([symbol_worker.rs]).

    As in [Contract], a channel is its capacity and contents, a body is the value
    handed to [serde_json], and the environment of a call says the time, which
    sends succeed, whether Redis answers and which datagrams the socket of the feed takes.  [ob_log] records every attempt to
    send.  The MoldUDP64 publisher is the one of [Mold]; [ser] stands for
    [serde_json::to_vec], and [ob_grams] records what its calls returned: the datagram sent, or the error. *)
From stdpp Require Import gmap.
From S2P Require Import Prelude Decimal Protocol CoreBook CoreMatch CoreEngine Mold Topics.

#[local] Open Scope Z_scope.

Definition SPOT_ORDER_USER : Z := 1.
Definition ORDER_ROBOT : Z := 2.
Definition SPOT_NO_DEAL_NUMBER : Z := 25.
Definition ORDER_STATUS_REVOKE_SUCCESS : Z := 4.
Definition MSG_TAG_FILL_ORDER : Z := 1.
Definition MSG_TAG_DEPTH : Z := 2.

(** ** Topic split ([config.rs]) *)

Record TopicSplitConfig := mkSplit { topic_enable : bool; topic_coin_markets : list string }.

Definition uses_mm_suffix (c : TopicSplitConfig) (coin_market : string) (taker_type : Z) (maker_type : option Z) : bool :=
  if taker_type =? SPOT_ORDER_USER then false
  else if bool_decide (maker_type = Some SPOT_ORDER_USER) then false
  else if topic_enable c then true
  else existsb (λ m, String.eqb m coin_market) (topic_coin_markets c).

(** ** The wire records ([outbound.rs]) *)

Record PushOrder := mkPush {
  po_symbol_key : string; po_trust_order_no : string; po_target_trust_order_no : option string;
  po_trust_price : string; po_deal_price : option string; po_remaining_number : string;
  po_target_remaining_number : option string; po_order_status : Z; po_target_order_status : option Z;
  po_current_deal_number : option string; po_reason : option string }.

Record DepthLevel := mkLevel {
  dl_trust_price : string; dl_transaction_volume : string; dl_commission_quantity : string }.

Record HandicapDepthData := mkHandicap {
  hd_symbol_key : string; hd_bids : list DepthLevel; hd_asks : list DepthLevel;
  hd_buy_sum : string; hd_sell_sum : string }.

Section Spot.
Context `{BD : BigDecimal}.

(** ** The router ([inbound.rs]) *)

Inductive InboundError := Json | MissingQueue (symbol : string) | ChannelFull | ChannelClosed.

Record Chan := mkChan { ch_cap : nat; ch_items : list BbOrder; ch_open : bool }.

Record InboundRouter := mkRouter { queues : gmap string Chan }.

Definition router_new : InboundRouter := mkRouter ∅.

Definition register_queue (r : InboundRouter) (symbol : string) (ch : Chan) : InboundRouter :=
  mkRouter (<[symbol := ch]> (queues r)).

Definition shutdown_queues (r : InboundRouter) : InboundRouter := mkRouter ∅.

Definition enqueue (r : InboundRouter) (o : BbOrder) : InboundRouter * (InboundError + unit) :=
  match queues r !! symbol_key o with
  | None => (r, inl (MissingQueue (symbol_key o)))
  | Some ch =>
      if negb (ch_open ch) then (r, inl ChannelClosed)
      else if (ch_cap ch <=? length (ch_items ch))%nat then (r, inl ChannelFull)
      else (mkRouter (<[symbol_key o := mkChan (ch_cap ch) (ch_items ch ++ [o]) true]> (queues r)), inr tt)
  end.

Definition handle_mq_order (r : InboundRouter) (m : MqOrder) : InboundRouter * (InboundError + unit) :=
  if negb (check_mq_order_spot m) then (r, inr tt)
  else match type_convert_spot m with
       | None => (r, inr tt)
       | Some o => enqueue r o
       end.

(** [parse] stands for [serde_json::from_slice]. *)
Definition handle_body (parse : list Z → option (list MqOrder)) (r : InboundRouter) (body : list Z) :
    InboundRouter * (InboundError + unit) :=
  match parse body with
  | None => (r, inl Json)
  | Some ms => (foldl (λ r m, (handle_mq_order r m).1) r ms, inr tt)
  end.

(** ** The depth builder ([spot_depth.rs]) *)

Definition dec_str (d : bd) : string := bd_to_string (bd_normalized d).

(** The sum of two texts that both parse; else the first. *)
Definition add_text (a b : string) : string :=
  match bd_from_str a, bd_from_str b with
  | Some x, Some y => dec_str (x + y)%bd
  | _, _ => a
  end.

Definition merge_same_price_level (prev level : DepthLevel) : DepthLevel :=
  mkLevel (dl_trust_price prev) (add_text (dl_transaction_volume prev) (dl_transaction_volume level))
    (add_text (dl_commission_quantity prev) (dl_commission_quantity level)).

Definition level_of (o : BbOrder) : DepthLevel :=
  mkLevel (dec_str (trust_price o)) (dec_str (consumer_all_number o)) (dec_str (remaining_number o)).

(** The loop; [send_list.last_mut()] is the end of the list. *)
Fixpoint depth_loop (limit : nat) (send_list : list DepthLevel) (sum_trust : bd) (orders : list BbOrder) :
    list DepthLevel * bd :=
  match orders with
  | [] => (send_list, sum_trust)
  | order :: orders =>
      if (length send_list <? limit)%nat then
        if (remaining_number order <=? bd_zero)%bd then depth_loop limit send_list sum_trust orders
        else
          let sum_trust := (sum_trust + trust_number order)%bd in
          let level := level_of order in
          match last send_list with
          | Some prev =>
              if String.eqb (dl_trust_price prev) (dl_trust_price level)
              then depth_loop limit (take (length send_list - 1) send_list ++ [merge_same_price_level prev level])
                     sum_trust orders
              else depth_loop limit (send_list ++ [level]) sum_trust orders
          | None => depth_loop limit (send_list ++ [level]) sum_trust orders
          end
      else (send_list, sum_trust)
  end.

Definition build_depth_levels (orders : list BbOrder) (limit : nat) : list DepthLevel * bd :=
  depth_loop limit [] bd_zero orders.

(** ** The producer ([mq/producer.rs]) and the outbound state *)

Inductive Dest := PushOrderTo (symbol : string) (mm : bool) | PushMarketTo (symbol : string) (mm : bool) | NoDeal | Deeps.

Inductive Body := BEntrust (o : BbOrder) | BPush (p : PushOrder) | BDepth (s : HandicapDepthData).

Record attempt := mkAttempt { at_time : Z; at_dest : Dest; at_body : Body; at_ok : bool }.

Record Outbound := mkOutbound {
  ob_interval : Z; ob_last_depth : gmap string Z; ob_split : TopicSplitConfig;
  ob_mold : option MoldPublisher; ob_grams : list (IoError + list Z);
  ob_errors : option (list Body); ob_log : list attempt }.

Record env := mkEnv { now : Z; sink_ok : string → bool; redis_ok : bool; feed_sock : Socket }.

Definition outbound_new (redis : bool) (interval : Z) (split : TopicSplitConfig) : Outbound :=
  mkOutbound interval ∅ split None [] (if redis then Some [] else None) [].

Definition attach_mold (ob : Outbound) (p : MoldPublisher) : Outbound :=
  mkOutbound (ob_interval ob) (ob_last_depth ob) (ob_split ob) (Some p) (ob_grams ob) (ob_errors ob) (ob_log ob).

Section Sending.
Context (b64 : string → string) (ser : Body → list Z).

Definition topic_of (d : Dest) : string :=
  match d with
  | PushOrderTo s mm => spot_push_order_topic b64 s mm
  | PushMarketTo s mm => spot_push_market_topic b64 s mm
  | NoDeal => SPOT_PUSH_NO_DEAL
  | Deeps => SPOT_PUSH_DEEPS
  end.

(** An error is logged; the sequence number stays taken. *)
Definition publish_mold (ob : Outbound) (v : env) (tag : Z) (b : Body) : Outbound :=
  match ob_mold ob with
  | None => ob
  | Some p =>
      let '(gram, p) := publish_tagged (feed_sock v) p tag (ser b) in
      mkOutbound (ob_interval ob) (ob_last_depth ob) (ob_split ob) (Some p) (ob_grams ob ++ [gram])
        (ob_errors ob) (ob_log ob)
  end.

(** [LPUSH] ([error_queue.rs]); a failing Redis is logged only. *)
Definition on_send_fail (ob : Outbound) (v : env) (b : Body) : Outbound :=
  match ob_errors ob with
  | None => ob
  | Some q =>
      if redis_ok v then mkOutbound (ob_interval ob) (ob_last_depth ob) (ob_split ob) (ob_mold ob) (ob_grams ob)
                           (Some (b :: q)) (ob_log ob)
      else ob
  end.

(** A send and its failure branch. *)
Definition send_dest (ob : Outbound) (v : env) (d : Dest) (b : Body) : Outbound :=
  let ok := sink_ok v (topic_of d) in
  let ob := mkOutbound (ob_interval ob) (ob_last_depth ob) (ob_split ob) (ob_mold ob) (ob_grams ob) (ob_errors ob)
              (ob_log ob ++ [mkAttempt (now v) d b ok]) in
  if ok then ob else on_send_fail ob v b.

Definition send_market_entrust (ob : Outbound) (v : env) (o : BbOrder) : Outbound :=
  send_dest ob v (PushMarketTo (symbol_key o) false) (BEntrust o).

Definition push_of_event (ev : MatchEvent) : PushOrder :=
  match ev with
  | Fill symbol taker_no maker_no _ _ price qty taker_rem maker_rem taker_st maker_st =>
      mkPush symbol taker_no (Some maker_no) price (Some price) taker_rem (Some maker_rem) taker_st
        (Some maker_st) (Some qty) None
  | Revoke order_no symbol rem reason =>
      mkPush symbol order_no None "0"%string None rem None ORDER_STATUS_REVOKE_SUCCESS None None (Some reason)
  end.

Definition maker_type_of (ev : MatchEvent) : option Z :=
  match ev with Fill _ _ _ _ maker_user_type _ _ _ _ _ _ => Some maker_user_type | Revoke _ _ _ _ => None end.

Definition should_send_order_push (taker : BbOrder) (ev : MatchEvent) : bool :=
  match ev with
  | Fill _ _ _ taker_user_type maker_user_type _ _ _ _ _ _ =>
      negb ((taker_user_type =? ORDER_ROBOT) && (maker_user_type =? ORDER_ROBOT))
  | Revoke _ _ _ _ => negb (type taker =? ORDER_ROBOT)
  end.

Definition send_one_event (ob : Outbound) (v : env) (symbol : string) (taker : BbOrder) (ev : MatchEvent) : Outbound :=
  let mm := uses_mm_suffix (ob_split ob) (coin_market taker) (type taker) (maker_type_of ev) in
  let b := BPush (push_of_event ev) in
  let ob := send_dest ob v (PushMarketTo symbol mm) b in
  let ob := publish_mold ob v MSG_TAG_FILL_ORDER b in
  if should_send_order_push taker ev then send_dest ob v (PushOrderTo symbol mm) b else ob.

Definition depth_due (ob : Outbound) (v : env) (symbol : string) : option (gmap string Z) :=
  if 0 <? ob_interval ob then
    match ob_last_depth ob !! symbol with
    | Some prev =>
        if Z.max 0 (now v - prev) <? ob_interval ob then None else Some (<[symbol := now v]> (ob_last_depth ob))
    | None => Some (<[symbol := now v]> (ob_last_depth ob))
    end
  else Some (ob_last_depth ob).

Definition depth_snapshot (symbol : string) (e : Engine) : HandicapDepthData :=
  let limit := Z.to_nat SPOT_NO_DEAL_NUMBER in
  let '(bids, buy_sum) := build_depth_levels (engine_resting_orders e symbol Buy) limit in
  let '(asks, sell_sum) := build_depth_levels (engine_resting_orders e symbol Sell) limit in
  mkHandicap symbol bids asks (bd_to_string buy_sum) (bd_to_string sell_sum).

Definition maybe_push_depth (ob : Outbound) (v : env) (symbol : string) (e : Engine) : Outbound :=
  match depth_due ob v symbol with
  | None => ob
  | Some last =>
      let ob := mkOutbound (ob_interval ob) last (ob_split ob) (ob_mold ob) (ob_grams ob) (ob_errors ob) (ob_log ob) in
      let b := BDepth (depth_snapshot symbol e) in
      let ob := send_dest ob v NoDeal b in
      let ob := send_dest ob v Deeps b in
      publish_mold ob v MSG_TAG_DEPTH b
  end.

Definition handle_order_result (ob : Outbound) (v : env) (symbol : string) (o : BbOrder) (evs : list MatchEvent)
    (e : Engine) : Outbound :=
  let ob := if negb (order_status o =? ORDER_STATUS_REVOKE) && negb (order_form o =? ORDER_FORM_MARKET_PRICE)
            then send_market_entrust ob v o else ob in
  let ob := foldl (λ ob ev, send_one_event ob v symbol o ev) ob evs in
  maybe_push_depth ob v symbol e.

(** ** The worker ([symbol_worker.rs]) *)

(** One round; a panic of the engine is caught and the order skipped.  The worker goes on with
    whatever the interrupted call made of the engine, [wreck]. *)
Definition worker_step (wreck : Engine → BbOrder → Engine) (e : Engine) (ob : Outbound) (v : env) (symbol : string) (o : BbOrder) :
    Engine * Outbound :=
  match on_order e o with
  | Some (evs, e) => (e, handle_order_result ob v symbol o evs e)
  | None => (wreck e o, ob)
  end.

Fixpoint worker_run (wreck : Engine → BbOrder → Engine) (e : Engine) (ob : Outbound) (symbol : string) (l : list (BbOrder * env)) :
    Engine * Outbound :=
  match l with
  | [] => (e, ob)
  | (o, v) :: l => let '(e, ob) := worker_step wreck e ob v symbol o in worker_run wreck e ob symbol l
  end.

End Sending.
End Spot.
