(* ===== verification/SpotProps.v ===== *)
(** * match-spot: what the process guarantees around the engine

    The depth it pushes against the depth of the book; every event of the engine
    on the market topic and, unless robots are among themselves, on the order
    topic; the same events on the multicast feed. *)
From stdpp Require Import gmap.
From S2P Require Import Prelude Decimal Protocol ProtocolProps CoreBook CoreMatch CoreSpec CoreEngine Mold MoldProps Topics Spot.
From Stdlib Require Import QArith Lqa.

#[local] Open Scope Z_scope.

(** [normalized] gives equal numbers the same representation, hence the same
    text. *)
Class CanonicalText `{BigDecimalSpec} : Prop :=
  canonical_text : ∀ a b, bd_eq a b → dec_str a = dec_str b.

Section Depth.
Context `{BDS : BigDecimalSpec} {CT : CanonicalText}.
Implicit Types (o : BbOrder) (l : list BbOrder) (lvl : DepthLevel) (send : list DepthLevel) (dl : list (bd * bd)).

Definition live o : bool := negb (remaining_number o <=? bd_zero)%bd.

Definition denotes (t : string) (d : bd) : Prop := ∃ a, bd_from_str t = Some a ∧ bd_eq a d.

Lemma denotes_dec_str d : denotes (dec_str d) d.
Proof. destruct (bd_print_parse d) as (a & ? & ?). by exists a. Qed.

Lemma denotes_add s t a b : denotes s a → denotes t b → denotes (add_text s t) (a + b)%bd.
Proof.
  intros (x & Hx & Ex) (y & Hy & Ey). unfold add_text. rewrite Hx, Hy.
  destruct (denotes_dec_str (x + y)%bd) as (z & Hz & Ez). exists z. split; [done|]. by rewrite Ez, Ex, Ey.
Qed.

Lemma same_text a b : String.eqb (dec_str a) (dec_str b) = (a =? b)%bd.
Proof.
  destruct (a =? b)%bd eqn:E; bdb.
  - apply String.eqb_eq. by apply canonical_text.
  - apply String.eqb_neq. intros Heq. apply E. destruct (denotes_dec_str a) as (x & Hx & Ex).
    destruct (denotes_dec_str b) as (y & Hy & Ey). rewrite Heq, Hy in Hx. injection Hx as ->. by rewrite <- Ex.
Qed.

(** One live order: the list the loop goes on with. *)
Definition step_levels send o : list DepthLevel :=
  match last send with
  | Some prev => if String.eqb (dl_trust_price prev) (dl_trust_price (level_of o))
                 then take (length send - 1) send ++ [merge_same_price_level prev (level_of o)]
                 else send ++ [level_of o]
  | None => send ++ [level_of o]
  end.

Lemma depth_loop_cons limit send sum o l :
  depth_loop limit send sum (o :: l) =
  if (length send <? limit)%nat
  then if live o then depth_loop limit (step_levels send o) (sum + trust_number o)%bd l
       else depth_loop limit send sum l
  else (send, sum).
Proof.
  cbn [depth_loop]. unfold live, step_levels. destruct (_ <? _)%nat; [|done]. destruct (_ <=? _)%bd; [done|]. cbn [negb].
  destruct (last send) as [prev|]; [|done]. by destruct (String.eqb _ _).
Qed.

(** *** A column of the depth: quantities or volumes *)

(** The aggregation of match-core over the column [val]. *)
Definition column (val : BbOrder → bd) (limit : nat) dl l : list (bd * bd) :=
  foldl (λ levels o, if (remaining_number o <=? bd_zero)%bd then levels
                     else push_depth_level levels limit (trust_price o) (val o)) dl l.

Lemma depth_is_column l limit : (0 < limit)%nat → depth_levels_from_orders l limit = column remaining_number limit [] l.
Proof. intros Hl. unfold depth_levels_from_orders. by rewrite (proj2 (Nat.eqb_neq limit 0)) by lia. Qed.

Definition shows (text : DepthLevel → string) lvl (pq : bd * bd) : Prop :=
  dl_trust_price lvl = dec_str pq.1 ∧ denotes (text lvl) pq.2.

Record column_text (text : DepthLevel → string) (val : BbOrder → bd) : Prop := {
  ct_level : ∀ o, text (level_of o) = dec_str (val o);
  ct_merge : ∀ a b, text (merge_same_price_level a b) = add_text (text a) (text b) }.

Lemma step_shows text val limit send dl o :
  column_text text val → Forall2 (shows text) send dl → (length send < limit)%nat →
  Forall2 (shows text) (step_levels send o) (push_depth_level dl limit (trust_price o) (val o)).
Proof.
  intros [Hlv Hmg] Hf Hlen. pose proof (Forall2_length _ _ _ Hf) as Hl.
  assert (shows text (level_of o) (trust_price o, val o)) as Ho.
  { split; [done|]. rewrite Hlv. apply denotes_dec_str. }
  unfold step_levels, push_depth_level. rewrite (proj2 (Nat.ltb_lt (length dl) limit)) by lia.
  destruct (last send) as [prev|] eqn:El.
  - apply last_Some in El as [send' ->]. apply Forall2_app_inv_l in Hf as (dl' & tl & Hf & Hlast & ->).
    apply Forall2_cons_inv_l in Hlast as ([lp lq] & ? & [Hp Hq] & Hnil & ->). apply Forall2_nil_inv_l in Hnil as ->.
    rewrite !last_snoc, !length_app, !Nat.add_sub. cbn in Hp, Hq. rewrite Hp. cbn [dl_trust_price level_of]. rewrite same_text.
    destruct (lp =? trust_price o)%bd.
    + rewrite !take_app_length. apply Forall2_app; [done|]. constructor; [|constructor]. split; [done|].
      rewrite Hmg, Hlv. apply denotes_add; [done|apply denotes_dec_str].
    + apply Forall2_app; [by apply Forall2_app; [|constructor]|by constructor].
  - apply last_None in El as ->. apply Forall2_nil_inv_l in Hf as ->. by constructor.
Qed.

Definition total_trust l : Q := foldr (λ o acc, ((if live o then ⟦trust_number o⟧ else 0) + acc)%Q) 0%Q l.

(** The loop reads [k] orders: all of them, or the list is full and the last
    order read is its last level. *)
Lemma depth_loop_spec limit l send sum dq dv levels sum' :
  depth_loop limit send sum l = (levels, sum') → (length send < limit)%nat →
  Forall2 (shows dl_commission_quantity) send dq → Forall2 (shows dl_transaction_volume) send dv →
  ∃ k, (k <= length l)%nat
    ∧ (k = length l ∧ (length levels < limit)%nat
       ∨ length levels = limit ∧ (0 < k)%nat ∧ ∃ o, l !! (k - 1)%nat = Some o ∧ last levels = Some (level_of o))
    ∧ (⟦sum'⟧ == ⟦sum⟧ + total_trust (take k l))%Q
    ∧ Forall2 (shows dl_commission_quantity) levels (column remaining_number limit dq (take k l))
    ∧ Forall2 (shows dl_transaction_volume) levels (column consumer_all_number limit dv (take k l)).
Proof.
  revert send sum dq dv; induction l as [|o l IH]; intros send sum dq dv Hrun Hlen Hq Hv.
  { cbn in Hrun. injection Hrun as <- <-. exists 0%nat. cbn. split_and!; [lia|by left|lra|done|done]. }
  rewrite depth_loop_cons, (proj2 (Nat.ltb_lt _ _) Hlen) in Hrun.
  destruct (live o) eqn:Hlive.
  2:{ destruct (IH _ _ _ _ Hrun Hlen Hq Hv) as (k & Hk & Hend & Hsum & Hq' & Hv'). exists (S k).
      unfold live in Hlive. apply negb_false_iff in Hlive. cbn [take length total_trust foldr column foldl].
      rewrite Hlive. fold (total_trust (take k l)). split_and!; [lia| | |done|done].
      - destruct Hend as [[-> ?]|(? & Hk0 & o' & Ho' & ?)]; [by left|right]. split_and!; [done|lia|]. exists o'.
        split; [|done]. by replace (S k - 1)%nat with (S (k - 1)) by lia.
      - unfold live at 1. rewrite Hlive. cbn [negb]. rewrite Hsum. lra. }
  pose proof Hlive as Hneg. unfold live in Hneg. apply negb_true_iff in Hneg.
  set (send1 := step_levels send o) in *.
  pose proof (step_shows _ _ limit send dq o (Build_column_text dl_commission_quantity remaining_number ltac:(done) ltac:(done)) Hq Hlen) as Hq1.
  pose proof (step_shows _ _ limit send dv o (Build_column_text dl_transaction_volume consumer_all_number ltac:(done) ltac:(done)) Hv Hlen) as Hv1.
  fold send1 in Hq1, Hv1.
  destruct (decide (length send1 < limit)%nat) as [Hlt|Hge].
  - destruct (IH _ _ _ _ Hrun Hlt Hq1 Hv1) as (k & Hk & Hend & Hsum & Hq' & Hv'). exists (S k).
    cbn [take length total_trust foldr column foldl]. rewrite Hneg, Hlive. fold (total_trust (take k l)).
    split_and!; [lia| | |done|done].
    + destruct Hend as [[-> ?]|(? & Hk0 & o' & Ho' & ?)]; [by left|right]. split_and!; [done|lia|]. exists o'.
      split; [|done]. by replace (S k - 1)%nat with (S (k - 1)) by lia.
    + rewrite Hsum, bd_val_add. lra.
  - assert (length send1 = limit ∧ last send1 = Some (level_of o)) as [Hfull Hlast].
    { subst send1. unfold step_levels in *. destruct (last send) as [prev|] eqn:El.
      - destruct (String.eqb _ _).
        + apply last_Some in El as [send' ->]. exfalso. rewrite length_app, length_take, !length_app in *. cbn in *. lia.
        + rewrite last_snoc, length_app in *. cbn in *. split; [lia|done].
      - rewrite last_snoc, length_app in *. cbn in *. split; [lia|done]. }
    assert ((levels, sum') = (send1, (sum + trust_number o)%bd)) as [= -> ->].
    { rewrite <- Hrun. destruct l as [|o' l]; [done|]. rewrite depth_loop_cons.
      by rewrite (proj2 (Nat.ltb_ge _ _)) by lia. }
    exists 1%nat. cbn [take length total_trust foldr column foldl]. rewrite Hneg, Hlive. rewrite take_0.
    split_and!; [lia| | |done|done].
    + right. split_and!; [done|lia|]. by exists o.
    + cbn [total_trust foldr]. rewrite bd_val_add. lra.
Qed.

(** Once [limit] levels are there, later orders only add to the last. *)
Lemma column_full val limit l dl p q :
  length (dl ++ [(p, q)]) = limit → ∃ q', column val limit (dl ++ [(p, q)]) l = dl ++ [(p, q')].
Proof.
  revert q; induction l as [|o l IH]; intros q Hl; [by eexists|]. cbn [column foldl].
  fold (column val limit). destruct (_ <=? _)%bd; [by apply IH|].
  unfold push_depth_level. rewrite last_snoc, (proj2 (Nat.ltb_ge _ _)) by lia.
  destruct (p =? trust_price o)%bd; [|by apply IH].
  rewrite length_app, Nat.add_sub, take_app_length. apply IH. rewrite length_app in *. cbn in *. lia.
Qed.

(** The column of all orders against the column of those read. *)
Lemma column_prefix val limit l k :
  (k <= length l)%nat → length (column val limit [] (take k l)) = limit → (0 < limit)%nat →
  ∃ dl p q q', column val limit [] (take k l) = dl ++ [(p, q)] ∧ column val limit [] l = dl ++ [(p, q')].
Proof.
  intros Hk Hl Hpos. destruct (last (column val limit [] (take k l))) as [[p q]|] eqn:El.
  2:{ apply last_None in El. rewrite El in Hl. cbn in Hl. lia. }
  apply last_Some in El as [dl El]. destruct (column_full val limit (drop k l) dl p q) as [q' Hq']; [by rewrite <- El|].
  exists dl, p, q, q'. split; [done|]. rewrite <- (take_drop k l) at 1. unfold column in *. by rewrite foldl_app, El.
Qed.

(** A level against the level of the whole book at the same place. *)
Definition agrees text (limit i : nat) lvl (pq : bd * bd) : Prop :=
  dl_trust_price lvl = dec_str pq.1 ∧ ((S i < limit)%nat → denotes (text lvl) pq.2).

Lemma shows_agrees text val limit l k levels :
  (k <= length l)%nat → (0 < limit)%nat → Forall2 (shows text) levels (column val limit [] (take k l)) →
  (k = length l ∨ length levels = limit) →
  length levels = length (column val limit [] l)
  ∧ ∀ i lvl pq, levels !! i = Some lvl → column val limit [] l !! i = Some pq → agrees text limit i lvl pq.
Proof.
  intros Hk Hpos Hf Hend. pose proof (Forall2_length _ _ _ Hf) as Hlen. destruct Hend as [->|Hfull].
  { rewrite take_ge in * by done. split; [done|]. intros i lvl pq Hi Hc.
    destruct (Forall2_lookup_lr _ _ _ _ _ _ Hf Hi Hc) as [Hp Hq]. by split. }
  destruct (column_prefix val limit l k Hk) as (dl & p & q & q' & Hc & Hc'); [lia|done|]. rewrite Hc in Hf, Hlen. rewrite Hc'.
  rewrite length_app in *. cbn in *. split; [done|]. intros i lvl pq Hi Hpq.
  destruct (decide (i < length dl)%nat) as [Hlt|Hge].
  - rewrite lookup_app_l in Hpq by done.
    destruct (Forall2_lookup_lr _ _ _ i lvl pq Hf Hi) as [Hp Hq]; [by rewrite lookup_app_l|]. by split.
  - pose proof (lookup_lt_Some _ _ _ Hi). assert (i = length dl) as -> by lia.
    rewrite list_lookup_middle in Hpq by done. injection Hpq as <-.
    destruct (Forall2_lookup_lr _ _ _ (length dl) lvl (p, q) Hf Hi) as [Hp _]; [by rewrite list_lookup_middle|].
    split; [done|]. lia.
Qed.

(** The depth the spot process pushes, against the depth of match-core.  For
    any resting orders both have the same number of levels at the same prices,
    printed in normal form; above the [limit]-th level the quantities and the
    traded volumes agree.  The builder reads all orders, or stops as soon as it
    has [limit] levels: then the last level is its first order alone, and the sum
    of the ordered numbers covers only the orders read. *)
Theorem spot_depth_like_core l limit levels sum :
  (0 < limit)%nat → build_depth_levels l limit = (levels, sum) →
  ∃ k, (k <= length l)%nat
    ∧ (k = length l ∧ (length levels < limit)%nat
       ∨ length levels = limit ∧ ∃ o, l !! (k - 1)%nat = Some o ∧ last levels = Some (level_of o))
    ∧ (⟦sum⟧ == total_trust (take k l))%Q
    ∧ length levels = length (depth_levels_from_orders l limit)
    ∧ (∀ i lvl pq, levels !! i = Some lvl → depth_levels_from_orders l limit !! i = Some pq →
         agrees dl_commission_quantity limit i lvl pq)
    ∧ (∀ i lvl pq, levels !! i = Some lvl → column consumer_all_number limit [] l !! i = Some pq →
         agrees dl_transaction_volume limit i lvl pq).
Proof.
  intros Hpos Hrun. rewrite depth_is_column by done.
  destruct (depth_loop_spec limit l [] bd_zero [] [] levels sum) as (k & Hk & Hend & Hsum & Hq & Hv); [done|done|constructor..|].
  assert (k = length l ∨ length levels = limit) as Hend' by (destruct Hend as [[? _]|[? _]]; tauto).
  destruct (shows_agrees _ _ _ _ _ _ Hk Hpos Hq Hend') as [Hlen Hagq].
  destruct (shows_agrees _ _ _ _ _ _ Hk Hpos Hv Hend') as [_ Hagv].
  exists k. split_and!; try done.
  - destruct Hend as [?|(? & _ & ?)]; [by left|by right].
  - rewrite Hsum, bd_val_zero. lra.
Qed.
End Depth.

Section Outbound.
Context `{BDS : BigDecimalSpec} (b64 : string → string) (ser : Body → list Z).
Implicit Types (m : MqOrder) (o : BbOrder) (e : Engine) (ob : Outbound) (v : env) (ev : MatchEvent) (evs : list MatchEvent).

(** The order a spot message stands for. *)
Definition accepted_spot m : option BbOrder := if check_mq_order_spot m then type_convert_spot m else None.

Lemma accepted_spot_valid m o : accepted_spot m = Some o → order_valid o.
Proof. unfold accepted_spot. destruct (check_mq_order_spot m); [|done]. apply type_convert_spot_valid. Qed.

(** ** What one round sends *)

Definition is_depth (a : attempt) : bool := match at_body a with BDepth _ => true | _ => false end.

Definition pushes (log : list attempt) : list attempt := filter (λ a, is_depth a = false) log.

Definition refused (log : list attempt) : list Body := at_body <$> filter (λ a, at_ok a = false) log.

(** What goes to the multicast feed, with its tag. *)
Definition feed_of (log : list attempt) : list (Z * Body) :=
  omap (λ a, match at_dest a, at_body a with
             | PushMarketTo _ _, BPush p => Some (MSG_TAG_FILL_ORDER, BPush p)
             | NoDeal, BDepth s => Some (MSG_TAG_DEPTH, BDepth s)
             | _, _ => None end) log.

Definition tried v (d : Dest) (b : Body) : attempt := mkAttempt (now v) d b (sink_ok v (topic_of b64 d)).

(** Only robots take part in the event. *)
Definition only_robots o ev : Prop :=
  match ev with
  | Fill _ _ _ taker_user_type maker_user_type _ _ _ _ _ _ => taker_user_type = ORDER_ROBOT ∧ maker_user_type = ORDER_ROBOT
  | Revoke _ _ _ _ => type o = ORDER_ROBOT
  end.

#[local] Instance only_robots_dec o ev : Decision (only_robots o ev).
Proof. destruct ev; unfold only_robots; apply _. Defined.

Lemma should_send_order_push_spec o ev : should_send_order_push o ev = negb (bool_decide (only_robots o ev)).
Proof.
  destruct ev as [? ? ? t m ? ? ? ? ? ?|? ? ? ?]; unfold should_send_order_push; f_equal; apply eq_true_iff_eq;
    rewrite bool_decide_eq_true; unfold only_robots; lia.
Qed.

(** A trader takes part: the taker, or the maker of a trade. *)
Definition user_trades o ev : Prop := type o = SPOT_ORDER_USER ∨ maker_type_of ev = Some SPOT_ORDER_USER.

(** The pushes of market makers go to topics of their own, for the coin markets
    that are configured or for all of them. *)
Definition market_maker_topic (split : TopicSplitConfig) o ev : bool :=
  bool_decide (¬ user_trades o ev ∧ (topic_enable split = true ∨ coin_market o ∈ topic_coin_markets split)).

Lemma uses_mm_suffix_spec split o ev :
  uses_mm_suffix split (coin_market o) (type o) (maker_type_of ev) = market_maker_topic split o ev.
Proof.
  apply eq_true_iff_eq. unfold market_maker_topic, uses_mm_suffix, user_trades. rewrite bool_decide_eq_true.
  destruct (Z.eqb_spec (type o) SPOT_ORDER_USER) as [|Ht]; [split; [done|tauto]|].
  case_bool_decide as Hm; [split; [done|tauto]|].
  destruct (topic_enable split); [tauto|]. rewrite existsb_exists. split.
  - intros (m & Hin & ->%String.eqb_eq). rewrite list_elem_of_In. tauto.
  - intros [_ [|Hin%list_elem_of_In]]; [done|]. exists (coin_market o). by rewrite String.eqb_refl.
Qed.

(** Every event goes to the market topic, and to the order topic unless only
    robots are concerned. *)
Definition event_attempts (split : TopicSplitConfig) (symbol : string) o v ev : list attempt :=
  let mm := market_maker_topic split o ev in
  let b := BPush (push_of_event ev) in
  tried v (PushMarketTo symbol mm) b
  :: (if decide (only_robots o ev) then [] else [tried v (PushOrderTo symbol mm) b]).

(** A new limit order is announced. *)
Definition announced o : bool :=
  negb (order_status o =? ORDER_STATUS_REVOKE) && negb (order_form o =? ORDER_FORM_MARKET_PRICE).

Definition round_attempts (split : TopicSplitConfig) (symbol : string) (ov : BbOrder * env) evs : list attempt :=
  (if announced ov.1 then [tried ov.2 (PushMarketTo (symbol_key ov.1) false) (BEntrust ov.1)] else [])
  ++ concat (event_attempts split symbol ov.1 ov.2 <$> evs).

(** [ob'] is [ob] after the attempts [new] and the feed messages [feed]. *)
Definition feed_ops (feed : list (Z * Body)) : list pub_op := (λ tb : Z * Body, OpTagged tb.1 (ser tb.2)) <$> feed.

(** The datagram is sent, or an error is returned. *)
Definition handed (r : IoError + list Z) (d : list Z) : Prop := r = inr d ∨ ∃ err, r = inl err.

Record extends ob (up : bool) (new : list attempt) (feed : list (Z * Body)) ob' : Prop := {
  ex_log : ob_log ob' = ob_log ob ++ new;
  ex_interval : ob_interval ob' = ob_interval ob;
  ex_split : ob_split ob' = ob_split ob;
  ex_errors : up = true → ob_errors ob' = (λ q, reverse (refused new) ++ q) <$> ob_errors ob;
  ex_mold : ob_mold ob' = (λ p, (pub_run p (feed_ops feed)).2) <$> ob_mold ob;
  ex_grams : ∃ rs, ob_grams ob' = ob_grams ob ++ rs
    ∧ match ob_mold ob with Some p => Forall2 handed rs (pub_run p (feed_ops feed)).1 | None => rs = [] end }.

Lemma pub_run_app p ops1 ops2 :
  pub_run p (ops1 ++ ops2)
  = ((pub_run p ops1).1 ++ (pub_run (pub_run p ops1).2 ops2).1, (pub_run (pub_run p ops1).2 ops2).2).
Proof.
  revert p; induction ops1 as [|op ops1 IH]; intros p; cbn [pub_run app fst snd]; [by destruct (pub_run p ops2)|].
  destruct (pub_step p op) as [g p1]. rewrite IH. destruct (pub_run p1 ops1) as [gs p2]. cbn [fst snd].
  destruct (pub_run p2 ops2). by destruct g.
Qed.

Lemma spot_extends_refl ob up : extends ob up [] [] ob.
Proof.
  split; [by rewrite app_nil_r|done|done|intros _; by destruct (ob_errors ob)|by destruct (ob_mold ob)|].
  exists []. rewrite app_nil_r. destruct (ob_mold ob); by split.
Qed.

Lemma spot_extends_trans ob1 ob2 ob3 up l1 l2 f1 f2 :
  extends ob1 up l1 f1 ob2 → extends ob2 up l2 f2 ob3 → extends ob1 up (l1 ++ l2) (f1 ++ f2) ob3.
Proof.
  intros [A1 A2 A3 A4 A5 A6] [B1 B2 B3 B4 B5 B6]. split; [by rewrite B1, A1, app_assoc|congruence|congruence| | |].
  - intros Hr. rewrite B4, A4 by done. destruct (ob_errors ob1); [|done]. cbn. f_equal. unfold refused.
    by rewrite filter_app, fmap_app, reverse_app, app_assoc.
  - rewrite B5, A5. unfold feed_ops. rewrite fmap_app. destruct (ob_mold ob1) as [p|]; [|done]. cbn [fmap option_fmap option_map].
    by rewrite pub_run_app.
  - destruct A6 as (r1 & A6 & A7), B6 as (r2 & B6 & B7). exists (r1 ++ r2). rewrite B6, A6, app_assoc. split; [done|]. rewrite A5 in B7.
    unfold feed_ops in *. rewrite fmap_app. destruct (ob_mold ob1) as [p|]; cbn [fmap option_fmap option_map] in B7; [|by subst].
    rewrite pub_run_app. cbn [fst]. by apply Forall2_app.
Qed.

Lemma send_dest_extends ob v d b : extends ob (redis_ok v) [tried v d b] [] (send_dest b64 ob v d b).
Proof.
  unfold send_dest, on_send_fail, tried. cbn. set (ok := sink_ok v (topic_of b64 d)).
  assert (∃ rs, ob_grams ob = ob_grams ob ++ rs ∧ match ob_mold ob with Some p => Forall2 handed rs (pub_run p (feed_ops [])).1 | None => rs = [] end) as Hg.
  { exists []. rewrite app_nil_r. split; [done|]. destruct (ob_mold ob); [constructor|done]. }
  assert (ob_mold ob = (λ p, p) <$> ob_mold ob) as Hm by by destruct (ob_mold ob).
  destruct ok eqn:Hs.
  - split; cbn; try done. intros _. by destruct (ob_errors ob).
  - destruct (ob_errors ob) as [q|] eqn:Eq; cbn; [destruct (redis_ok v)|]; split; cbn; try done; rewrite ?Eq; done.
Qed.

Lemma publish_mold_extends ob up v tag b : extends ob up [] [(tag, b)] (publish_mold ser ob v tag b).
Proof.
  unfold publish_mold. destruct (ob_mold ob) as [p|] eqn:Em.
  - pose proof (pub_call_step p (feed_sock v) (OpTagged tag (ser b))) as Hc. cbn [pub_call] in Hc.
    destruct (publish_tagged (feed_sock v) p tag (ser b)) as [g p'] eqn:Ep. destruct (pub_step p (OpTagged tag (ser b))) as [d p1] eqn:Es.
    cbn [fst snd] in Hc. injection Hc as Hg ->. assert (∃ d', d = Some d') as [d' ->].
    { cbn [pub_step] in Es. destruct (tagged_packet p tag (ser b)). injection Es as <- _. by eexists. }
    assert (pub_run p (feed_ops [(tag, b)]) = ([d'], p1)) as Hrun by (unfold feed_ops; cbn [fmap list_fmap pub_run fst snd]; by rewrite Es).
    split; cbn [ob_log ob_interval ob_split ob_errors ob_mold ob_grams]; rewrite ?Em; cbn [fmap option_fmap option_map]; rewrite ?Hrun; try done.
    + by rewrite app_nil_r.
    + intros _. by destruct (ob_errors ob).
    + exists [g]. split; [done|]. constructor; [|constructor]. unfold handed. unfold send_to in Hg. destruct g, (feed_sock v d'); cbn in Hg; try done; [by right; eexists|left; congruence].
  - split; cbn; rewrite ?Em, ?app_nil_r; try done; [intros _; by destruct (ob_errors ob)|]. exists []. by rewrite app_nil_r.
Qed.

Lemma feed_of_app l1 l2 : feed_of (l1 ++ l2) = feed_of l1 ++ feed_of l2.
Proof. unfold feed_of. apply omap_app. Qed.

Lemma send_one_event_extends ob v s o ev :
  let new := event_attempts (ob_split ob) s o v ev in
  extends ob (redis_ok v) new (feed_of new) (send_one_event b64 ser ob v s o ev).
Proof.
  cbn zeta. unfold send_one_event, event_attempts. rewrite should_send_order_push_spec, uses_mm_suffix_spec.
  set (mm := market_maker_topic _ _ _). set (b := BPush _).
  pose proof (send_dest_extends ob v (PushMarketTo s mm) b) as H1.
  set (ob1 := send_dest b64 ob v (PushMarketTo s mm) b) in *.
  pose proof (publish_mold_extends ob1 (redis_ok v) v MSG_TAG_FILL_ORDER b) as H2.
  pose proof (spot_extends_trans _ _ _ _ _ _ _ _ H1 H2) as H12. set (ob2 := publish_mold _ ob1 _ _ _) in *.
  unfold bool_decide, decide. destruct (only_robots_dec o ev); cbn [negb]; [exact H12|].
  exact (spot_extends_trans _ _ _ _ _ _ _ _ H12 (send_dest_extends ob2 v (PushOrderTo s mm) b)).
Qed.

Lemma send_events_extends ob v s o evs :
  let new := concat (event_attempts (ob_split ob) s o v <$> evs) in
  extends ob (redis_ok v) new (feed_of new) (foldl (λ ob ev, send_one_event b64 ser ob v s o ev) ob evs).
Proof.
  revert ob; induction evs as [|ev evs IH]; intros ob; cbn [foldl fmap list_fmap concat]; [apply spot_extends_refl|].
  pose proof (send_one_event_extends ob v s o ev) as H1. cbn zeta in *. rewrite feed_of_app.
  pose proof (ex_split _ _ _ _ _ H1) as Hsp. specialize (IH (send_one_event b64 ser ob v s o ev)). rewrite Hsp in IH.
  by eapply spot_extends_trans.
Qed.

Lemma spot_maybe_push_depth_extends ob v s e :
  ∃ new, extends ob (redis_ok v) new (feed_of new) (maybe_push_depth b64 ser ob v s e) ∧ pushes new = [].
Proof.
  unfold maybe_push_depth. destruct (depth_due ob v s) as [last|]; [|exists []; split; [apply spot_extends_refl|done]].
  set (ob1 := mkOutbound _ last _ _ _ _ _). set (b := BDepth _).
  pose proof (send_dest_extends ob1 v NoDeal b) as H1.
  pose proof (send_dest_extends (send_dest b64 ob1 v NoDeal b) v Deeps b) as H2.
  pose proof (spot_extends_trans _ _ _ _ _ _ _ _ (spot_extends_trans _ _ _ _ _ _ _ _ H1 H2)
    (publish_mold_extends (send_dest b64 (send_dest b64 ob1 v NoDeal b) v Deeps b) (redis_ok v) v MSG_TAG_DEPTH b)) as [A1 A2 A3 A4 A5 A6].
  exists [tried v NoDeal b; tried v Deeps b]. split; [|done]. split; [exact A1|exact A2|exact A3|exact A4|exact A5|exact A6].
Qed.

Lemma handle_order_result_extends ob v s o evs e :
  ∃ new, extends ob (redis_ok v) new (feed_of new) (handle_order_result b64 ser ob v s o evs e)
    ∧ pushes new = round_attempts (ob_split ob) s (o, v) evs.
Proof.
  unfold handle_order_result, round_attempts. cbn [fst snd]. fold (announced o).
  set (first := if announced o then [tried v (PushMarketTo (symbol_key o) false) (BEntrust o)] else []).
  set (ob1 := if announced o then _ else ob).
  assert (extends ob (redis_ok v) first (feed_of first) ob1) as H1.
  { subst first ob1. destruct (announced o); [|apply spot_extends_refl].
    exact (send_dest_extends ob v (PushMarketTo (symbol_key o) false) (BEntrust o)). }
  pose proof (send_events_extends ob1 v s o evs) as H2. cbn zeta in H2. rewrite (ex_split _ _ _ _ _ H1) in H2.
  set (evl := concat _) in *. set (ob2 := foldl _ ob1 evs) in *.
  destruct (spot_maybe_push_depth_extends ob2 v s e) as (new & H3 & Hp).
  exists ((first ++ evl) ++ new). split.
  - rewrite !feed_of_app. by eapply spot_extends_trans; [eapply spot_extends_trans|].
  - unfold pushes in *. rewrite !filter_app, Hp, app_nil_r. f_equal.
    + subst first. by destruct (announced o).
    + subst evl. clear. induction evs as [|ev evs IH]; [done|]. cbn [fmap list_fmap concat]. rewrite filter_app, IH. f_equal.
      unfold event_attempts. by destruct (decide (only_robots o ev)).
Qed.

(** ** Streams *)

Lemma worker_run_extends wreck e ob symbol l :
  engine_ok e → Forall (λ p : BbOrder * env, ∃ m, accepted_spot m = Some p.1) l →
  Forall (λ p : BbOrder * env, redis_ok p.2 = true) l →
  ∃ evss e' ob' new,
    worker_run b64 ser wreck e ob symbol l = (e', ob') ∧ run_each e l.*1 = Some (evss, e') ∧ engine_ok e'
    ∧ extends ob true new (feed_of new) ob'
    ∧ pushes new = concat (zip_with (round_attempts (ob_split ob) symbol) l evss).
Proof.
  intros He Hl Hup. revert e ob He. induction l as [|[o v] l IH]; intros e ob He.
  { exists [], e, ob, []. split_and!; try done. apply spot_extends_refl. }
  apply Forall_cons_1 in Hl as [(m & Hm) Hl]. apply Forall_cons_1 in Hup as [Hv Hup]. cbn in Hm, Hv.
  destruct (on_order_inv e o He (accepted_spot_valid m o Hm)) as (evs & e1 & Ho & He1).
  cbn [worker_run]. unfold worker_step. rewrite Ho.
  destruct (handle_order_result_extends ob v symbol o evs e1) as (n1 & X1 & P1). rewrite Hv in X1.
  destruct (IH Hl Hup e1 (handle_order_result b64 ser ob v symbol o evs e1) He1) as (evss & e' & ob' & n2 & Hw & Hr & He' & X2 & P2).
  exists (evs :: evss), e', ob', (n1 ++ n2). split_and!; [done| |done| |].
  - cbn. rewrite Ho. cbn. by rewrite Hr.
  - rewrite feed_of_app. by eapply spot_extends_trans.
  - unfold pushes in *. rewrite filter_app, P1, P2, (ex_split _ _ _ _ _ X1). done.
Qed.

(** C36.  From message to push.  A spot worker that starts with a sound engine and
    receives orders that came out of validation and conversion runs each of them
    to the end.  For every order, in turn: a new limit order is announced on the
    market topic; each of its events is offered, alone and in order, to the market
    topic and, unless it is a trade between two robots or the revocation of a
    robot's order, to the order topic, both of them the market makers' own when no
    user takes part and the coin market is split; nothing else but depth is offered.  With
    Redis up the refused bodies are in the error queue, in order. *)
Theorem spot_worker_pipeline wreck e ob symbol l :
  engine_ok e → Forall (λ p : BbOrder * env, ∃ m, accepted_spot m = Some p.1) l →
  Forall (λ p : BbOrder * env, redis_ok p.2 = true) l →
  ∃ evss e' ob' new,
    worker_run b64 ser wreck e ob symbol l = (e', ob') ∧ run_each e l.*1 = Some (evss, e') ∧ engine_ok e'
    ∧ ob_log ob' = ob_log ob ++ new
    ∧ pushes new = concat (zip_with (round_attempts (ob_split ob) symbol) l evss)
    ∧ ob_errors ob' = (λ q, reverse (refused new) ++ q) <$> ob_errors ob.
Proof.
  intros He Hl Hup. destruct (worker_run_extends wreck e ob symbol l He Hl Hup) as (evss & e' & ob' & new & Hw & Hr & He' & X & P).
  exists evss, e', ob', new. split_and!; [done..|apply X|done|by apply X].
Qed.

(** The messages of the feed fit their length field. *)
Definition feed_fits (feed : list (Z * Body)) : Prop :=
  Forall (λ tb : Z * Body, payload_ok (tb.1 :: ser tb.2)) feed ∧ Z.of_nat (length feed) + 1 < 2 ^ 64.

Lemma log_of_feed feed : log_of (feed_ops feed) = (λ tb : Z * Body, tb.1 :: ser tb.2) <$> feed.
Proof. unfold log_of, feed_ops. induction feed as [|tb feed IH]; [done|]. cbn. by rewrite <- IH. Qed.

Definition feed_msgs (feed : list (Z * Body)) : list (list Z) := (λ tb : Z * Body, tb.1 :: ser tb.2) <$> feed.

(** Every message has a datagram of its own. *)
Definition datagram_of (sid : list Z) (nm : Z * list Z) : list Z := downstream_packet sid nm.1 [nm.2].

Lemma feed_datagrams cap log p feed :
  pub_ok cap log p → Forall (λ tb : Z * Body, payload_ok (tb.1 :: ser tb.2)) feed → Z.of_nat (length log + length feed) + 1 < 2 ^ 64 →
  (pub_run p (feed_ops feed)).1 = datagram_of (pub_session_id p) <$> number (Z.of_nat (length log) + 1) (feed_msgs feed).
Proof.
  intros Hp Hfit. revert log p Hp. induction Hfit as [|[tag b] feed Hb _ IH]; intros log p Hp Hlen; [done|].
  unfold feed_ops, feed_msgs. cbn [fmap list_fmap pub_run number fst snd length] in *. change (list_fmap _ _ ?f feed) with (f <$> feed).
  destruct (pub_step_spec cap log p (OpTagged tag (ser b)) Hp Hb) as (Hp1 & Hs & Hd); [cbn; lia|].
  destruct (pub_step p (OpTagged tag (ser b))) as [d p1]. cbn [fst snd] in *. rewrite (po_next _ _ _ Hp) in Hd. cbn [op_datagram op_messages] in *. subst d.
  assert (Z.of_nat (length (log ++ [tag :: ser b]) + length feed) + 1 < 2 ^ 64) as Hlen1 by (rewrite length_app; cbn; lia).
  specialize (IH _ p1 Hp1 Hlen1). rewrite Hs in IH. unfold feed_ops, feed_msgs in IH. destruct (pub_run p1 _) as [ds p2]. cbn [fst] in *. rewrite IH, length_app.
  unfold datagram_of at 2. cbn [fst snd length]. do 3 f_equal. lia.
Qed.

(** The gaps a subscriber notices in what it gets: every jump after the first message. *)
Fixpoint jumps (last : option Z) (ns : list Z) : list (option GapInfo) :=
  match ns with [] => [] | n :: ns => gap_before last n :: jumps (Some n) ns end.

Lemma sub_run_some sid got k msgs s :
  length sid = MOLD_SESSION_LEN → got `sublist_of` number k msgs → Forall payload_ok msgs → 1 <= k → k + Z.of_nat (length msgs) < 2 ^ 64 →
  (∀ l, sub_last_seq s = Some l → 0 <= l < k) →
  ∃ outs s', sub_run s (datagram_of sid <$> got) = Some (outs, s')
    ∧ concat (po_messages <$> outs) = got ∧ po_gap <$> outs = jumps (sub_last_seq s) got.*1.
Proof.
  intros Hs Hsub Hok. revert got k s Hsub. induction Hok as [|m msgs Hm _ IH]; intros got k s Hsub Hk Hlen Hl; cbn [number length] in *.
  { apply sublist_nil_r in Hsub as ->. by exists [], s. }
  apply sublist_cons_r in Hsub as [Hsub|(rest & -> & Hsub)].
  { apply (IH got (k + 1) s Hsub); [lia|lia|]. intros l Hl'. specialize (Hl l Hl'). lia. }
  pose proof (parse_downstream s sid k [m] Hs) as Hp. cbn [length number] in Hp.
  assert (watermark (sub_last_seq s) (k + Z.of_nat 1 - 1) = Some k) as Hw.
  { unfold watermark. f_equal. destruct (sub_last_seq s) as [l|]; [specialize (Hl l eq_refl)|]; lia. }
  rewrite Hw in Hp. destruct (IH rest (k + 1) (set_last_seq (Some k) s) Hsub) as (outs & s' & Ho & Hmsg & Hg); [lia|lia|intros l [= <-]; lia|].
  eexists (_ :: outs), s'. split; [cbn [fmap list_fmap sub_run]; change (datagram_of sid (k, m)) with (downstream_packet sid k [m]); rewrite Hp|].
  - cbn [mbind option_bind]. by rewrite Ho.
  - intros l Hl'. specialize (Hl l Hl'). lia.
  - done.
  - by constructor.
  - lia.
  - lia.
  - lia.
  - cbn [fmap list_fmap po_messages po_gap concat app fst jumps]. split; [by rewrite Hmsg|]. by rewrite Hg.
Qed.

(** With a socket that takes everything, only datagrams are recorded. *)
Definition all_sent ob : Prop := Forall (λ r : IoError + list Z, ∃ d, r = inr d) (ob_grams ob).

Lemma send_dest_sent ob v d b : all_sent ob → all_sent (send_dest b64 ob v d b).
Proof.
  unfold all_sent, send_dest, on_send_fail. destruct (sink_ok v (topic_of b64 d)); [done|]. cbn. destruct (ob_errors ob); [|done]. by destruct (redis_ok v).
Qed.

Lemma publish_mold_sent ob v tag b : (∀ d, feed_sock v d = None) → all_sent ob → all_sent (publish_mold ser ob v tag b).
Proof.
  intros Hv Ha. unfold publish_mold. destruct (ob_mold ob) as [p|]; [|done]. unfold publish_tagged, publish, send_to. destruct (publish_packet _ _) as [d p']. rewrite Hv.
  unfold all_sent. cbn. apply Forall_app. split; [done|]. constructor; [by exists d|constructor].
Qed.

Lemma handle_order_result_sent ob v s o evs e :
  (∀ d, feed_sock v d = None) → all_sent ob → all_sent (handle_order_result b64 ser ob v s o evs e).
Proof.
  intros Hv Ha. unfold handle_order_result, maybe_push_depth, send_market_entrust.
  fold (announced o). set (ob1 := if announced o then send_dest b64 ob v (PushMarketTo (symbol_key o) false) (BEntrust o) else ob). assert (all_sent ob1) as H1 by (subst ob1; destruct (announced o); [by apply send_dest_sent|done]).
  assert (all_sent (foldl (λ ob ev, send_one_event b64 ser ob v s o ev) ob1 evs)) as H2.
  { clearbody ob1. revert ob1 H1. induction evs as [|ev evs IH]; intros ob1 H1; [done|]. apply IH. unfold send_one_event.
    destruct (should_send_order_push o ev); [apply send_dest_sent|]; (apply publish_mold_sent; [done|]); by apply send_dest_sent. }
  destruct (depth_due _ v s); [|done]. apply publish_mold_sent; [done|]. by do 2 apply send_dest_sent.
Qed.

Lemma worker_run_sent wreck e ob symbol l :
  Forall (λ q : BbOrder * env, ∀ d, feed_sock q.2 d = None) l → all_sent ob → all_sent (worker_run b64 ser wreck e ob symbol l).2.
Proof.
  intros Hl. revert e ob. induction Hl as [|[o v] l Hv _ IH]; intros e ob Ha; [done|]. cbn [worker_run]. unfold worker_step.
  destruct (on_order e o) as [[evs e1]|]; apply IH; [by apply handle_order_result_sent|done].
Qed.

Lemma handed_sent rs ds : Forall2 handed rs ds → Forall (λ r : IoError + list Z, ∃ d, r = inr d) rs → rs = inr <$> ds.
Proof.
  induction 1 as [|r d rs ds Hr _ IH]; [done|]. intros [[d' ->] Hrs]%Forall_cons. destruct Hr as [[= ->]|[? ?]]; [|done]. cbn. by rewrite IH.
Qed.

(** Datagrams received are among those sent: what they carry. *)
Lemma received_datagrams sid rs nms got ds :
  Forall2 handed rs (datagram_of sid <$> nms) → got `sublist_of` zip rs nms → got.*1 = inr <$> ds → ds = datagram_of sid <$> got.*2 ∧ got.*2 `sublist_of` nms.
Proof.
  revert rs got ds. induction nms as [|nm nms IH]; intros rs got ds Hh Hsub Hds; (inversion Hh as [|r d rs' ? Hr Hh']; subst).
  { apply sublist_nil_r in Hsub as ->. by destruct ds. }
  cbn [zip zip_with] in Hsub. apply sublist_cons_r in Hsub as [Hsub|(rest & -> & Hsub)].
  { destruct (IH rs' got ds Hh' Hsub Hds) as [H1 H2]. split; [done|]. by apply sublist_cons. }
  destruct ds as [|d ds]; [done|]. cbn [fmap list_fmap fst snd] in *. injection Hds as -> Hds.
  destruct (IH rs' rest ds Hh' Hsub Hds) as [H1 H2]. destruct Hr as [[= ->]|[? ?]]; [|done].
  split; [f_equal; exact H1|by apply sublist_skip].
Qed.

Lemma jumps_none k (l : list (list Z)) last : match last with Some n => n + 1 = k | None => True end → Forall (λ g, g = None) (jumps last (number k l).*1).
Proof.
  revert k last; induction l as [|m l IH]; intros k last Hl; [constructor|]. cbn [number fmap list_fmap fst jumps]. constructor; [|by apply IH].
  destruct last; cbn; [|done]. by rewrite decide_False by lia.
Qed.

(** C37.  The multicast feed carries the events.  A fresh publisher is attached to a
    fresh outbound side and Redis is up.  For each market push of an event (tag 1)
    and each depth push (tag 2), in the order they were made, one datagram is handed
    to the socket, numbered from 1; the socket takes it or the error is dropped, the
    number being used up either way.  Whatever part of the datagrams that were sent
    reaches a subscriber, in order, it receives exactly their messages with their
    numbers and reports a gap at every jump.  If the socket takes every datagram and
    all of them arrive, it reports no gap and has exactly the bodies of these
    pushes. *)
Theorem spot_feed_delivered wreck e redis interval split symbol l session cap nak p :
  engine_ok e → Forall (λ q : BbOrder * env, ∃ m, accepted_spot m = Some q.1) l →
  Forall (λ q : BbOrder * env, redis_ok q.2 = true) l →
  publisher_new session cap = Some p →
  let ob := (worker_run b64 ser wreck e (attach_mold (outbound_new redis interval split) p) symbol l).2 in
  let msgs := number 1 (feed_msgs (feed_of (ob_log ob))) in
  feed_fits (feed_of (ob_log ob)) →
  Forall2 handed (ob_grams ob) (datagram_of (pack_session session) <$> msgs)
  ∧ (∀ got ds, got `sublist_of` zip (ob_grams ob) msgs → got.*1 = inr <$> ds →
       ∃ outs s, sub_run (subscriber_new session nak) ds = Some (outs, s)
         ∧ concat (po_messages <$> outs) = got.*2 ∧ po_gap <$> outs = jumps None (got.*2).*1)
  ∧ (Forall (λ q : BbOrder * env, ∀ d, feed_sock q.2 d = None) l →
       ∃ ds outs s, ob_grams ob = inr <$> ds ∧ sub_run (subscriber_new session nak) ds = Some (outs, s)
         ∧ Forall (λ out, po_gap out = None) outs ∧ concat (po_messages <$> outs) = msgs).
Proof.
  intros He Hl Hup Hp ob.
  destruct (worker_run_extends wreck e (attach_mold (outbound_new redis interval split) p) symbol l He Hl Hup)
    as (evss & e' & ob1 & new & Hw & _ & _ & X & _).
  pose proof (worker_run_sent wreck e (attach_mold (outbound_new redis interval split) p) symbol l) as Hsent.
  subst ob. rewrite Hw in *. cbn [snd] in *. destruct (ex_grams _ _ _ _ _ X) as (rs & Hg & Hh). rewrite (ex_log _ _ _ _ _ X), Hg.
  cbn [attach_mold outbound_new ob_log ob_grams ob_mold app] in *. intros [Hfit Hlen]. set (msgs := number 1 (feed_msgs (feed_of new))). unfold all_sent in Hsent. rewrite Hg in Hsent.
  assert (pub_session_id p = pack_session session) as Hsid.
  { unfold publisher_new in Hp. destruct (msgring_new cap); [|done]. by injection Hp as <-. }
  rewrite (feed_datagrams cap [] p _ (pub_ok_new _ _ _ Hp) Hfit) in Hh by (cbn; lia). rewrite Hsid in Hh. cbn [length] in Hh. change (Z.of_nat 0 + 1) with 1 in Hh. fold msgs in Hh.
  assert (Forall payload_ok (feed_msgs (feed_of new))) as Hpay by (apply Forall_fmap; exact Hfit).
  assert (∀ got, got `sublist_of` msgs → ∃ outs s, sub_run (subscriber_new session nak) (datagram_of (pack_session session) <$> got) = Some (outs, s)
    ∧ concat (po_messages <$> outs) = got ∧ po_gap <$> outs = jumps None got.*1) as Hrun.
  { intros got Hs. apply (sub_run_some _ got 1 (feed_msgs (feed_of new)) (subscriber_new session nak)); [apply length_pack_session|done|done|lia|unfold feed_msgs; rewrite length_fmap; lia|done]. }
  split_and!; [done| |].
  - intros got ds Hs Hds. destruct (received_datagrams _ _ _ _ _ Hh Hs Hds) as [-> Hs2]. by apply Hrun.
  - intros Hall. rewrite (handed_sent rs _ Hh) by (by apply Hsent; [|constructor]). destruct (Hrun msgs) as (outs & s & Ho & Hm & Hj); [done|].
    eexists _, outs, s. split_and!; [reflexivity|exact Ho| |done]. pose proof (jumps_none 1 (feed_msgs (feed_of new)) None I) as Hn. fold msgs in Hn. rewrite <- Hj in Hn. by apply Forall_fmap in Hn.
Qed.
End Outbound.

Module Witness.
Import SciDecimal.

Lemma strip_shape m s : scale (strip m s) = O ∨ mant (strip m s) mod 10 ≠ 0.
Proof.
  revert m; induction s as [|s IH]; intros m; [by left|]. cbn. destruct (Z.eqb_spec (m mod 10) 0); [apply IH|by right].
Qed.

(** Numbers in lowest terms are equal when their values are. *)
Lemma lowest_unique a b :
  (scale a = O ∨ mant a mod 10 ≠ 0) → (scale b = O ∨ mant b mod 10 ≠ 0) → (scale a <= scale b)%nat →
  (value a == value b)%Q → a = b.
Proof.
  destruct a as [m s], b as [n t]. cbn [mant scale]. intros Ha Hb Hle Heq.
  unfold value, Qeq in Heq. cbn in Heq. replace t with (s + (t - s))%nat in Heq by lia.
  rewrite pow10_add, Pos2Z.inj_mul in Heq.
  assert (m * Zpos (pow10 (t - s)) = n) as Hn by nia.
  destruct (t - s)%nat as [|k] eqn:Ek.
  - cbn in Hn. f_equal; lia.
  - exfalso. destruct Hb as [->|Hb]; [lia|]. apply Hb. rewrite <- Hn. cbn [pow10]. rewrite Pos2Z.inj_mul.
    replace (m * (10 * Zpos (pow10 k))) with (m * Zpos (pow10 k) * 10) by ring. apply Z_mod_mult.
Qed.

#[export] Instance sci_canonical : CanonicalText.
Proof.
  intros a b Heq. unfold dec_str. f_equal. cbn.
  assert (value (normalized a) == value (normalized b))%Q as Hv.
  { unfold normalized. rewrite !value_strip. destruct a, b. exact Heq. }
  destruct (Nat.le_ge_cases (scale (normalized a)) (scale (normalized b))) as [Hle|Hge].
  - by apply lowest_unique; [apply strip_shape..| |].
  - symmetry. by apply lowest_unique; [apply strip_shape..| |symmetry].
Qed.

(** Three orders, two of them at the second price. *)
Definition three : list BbOrder :=
  [test_limit Buy (d 12) "1"%string 1 (d 5); test_limit Buy (d 10) "2"%string 2 (d 4); test_limit Buy (d 10) "3"%string 3 (d 4)].

Lemma spot_depth_like_core_witness :
  ∃ k, (k <= 3)%nat ∧ (⟦(build_depth_levels three 2).2⟧ == total_trust (take k three))%Q
    ∧ length (build_depth_levels three 2).1 = length (depth_levels_from_orders three 2).
Proof.
  destruct (spot_depth_like_core three 2 (build_depth_levels three 2).1 (build_depth_levels three 2).2)
    as (k & Hk & _ & Hs & Hl & _); [lia|by destruct (build_depth_levels three 2)|].
  exists k. split_and!; [exact Hk|exact Hs|exact Hl].
Defined.

(** The second level holds 8, the builder shows 4 when it may show two levels. *)
Example last_level_understated :
  dl_commission_quantity <$> (build_depth_levels three 2).1 = [dec_str (d 5); dec_str (d 4)]
  ∧ dl_commission_quantity <$> (build_depth_levels three 3).1 = [dec_str (d 5); dec_str (d 8)]
  ∧ bd_val (build_depth_levels three 2).2 = bd_val (d 9).
Proof. vm_compute. split_and!; reflexivity. Qed.

Definition wire (side kind : Z) (no number price : string) : MqOrder := {|
  mq_user_id := Some 7; mq_uid := Some 8; mq_c_type := 1; mq_deal_type := None;
  mq_type := Some kind; mq_order_type := Some side; mq_market_id := Some 2; mq_coin_id := Some 3;
  mq_symbol_key := Some "BTC/USDT"%string; mq_coin_market := Some "BTC/USDT"%string;
  mq_trust_order_no := Some no; mq_close_position := None;
  mq_start_deposit := None; mq_position_type := None;
  mq_taker_rate := None; mq_order_status := Some 0; mq_order_form := Some 1;
  mq_gear := None; mq_lever_times := None; mq_trust_number := Some number;
  mq_trust_price := Some price; mq_create_time := Some 1; mq_face_value := None;
  mq_handicap_type := None |}.

Definition sym : string := "btcusdt"%string.
Definition b64_id (s : string) : string := s.
Definition ser0 (b : Body) : list Z := match b with BEntrust _ => [0] | BPush _ => [1] | BDepth _ => [2] end.

(** Two robots trade, then a user takes the rest. *)
Definition msgs : list MqOrder :=
  [wire 1 2 "10"%string "4"%string "100"%string; wire 2 2 "11"%string "3"%string "100"%string;
   wire 2 1 "12"%string "1"%string "100"%string].

Definition order_of (m : MqOrder) : BbOrder := default ProtocolProps.Witness.wire_bb (accepted_spot m).

Lemma spot_order_of_accepted m : bool_decide (is_Some (accepted_spot m)) = true → accepted_spot m = Some (order_of m).
Proof. intros [o Ho]%bool_decide_eq_true. unfold order_of. by rewrite Ho. Qed.

Definition env_at (t : Z) : env := mkEnv t (λ _, true) true (λ _, None).
Definition split0 : TopicSplitConfig := mkSplit true [].
Definition input : list (BbOrder * env) := (λ m, (order_of m, env_at 1000)) <$> msgs.

Lemma input_accepted : Forall (λ p : BbOrder * env, ∃ m, accepted_spot m = Some p.1) input.
Proof.
  repeat (apply Forall_cons_2; [eexists; apply spot_order_of_accepted; vm_compute; reflexivity|]). constructor.
Qed.

Lemma input_redis : Forall (λ p : BbOrder * env, redis_ok p.2 = true) input.
Proof. repeat constructor. Qed.

Lemma spot_worker_pipeline_witness :
  ∃ evss e' ob' new, worker_run b64_id ser0 (λ e _, e) engine_new (outbound_new true 100 split0) sym input = (e', ob')
    ∧ run_each engine_new input.*1 = Some (evss, e')
    ∧ ob_log ob' = [] ++ new
    ∧ pushes new = concat (zip_with (round_attempts b64_id split0 sym) input evss).
Proof.
  destruct (spot_worker_pipeline b64_id ser0 (λ e _, e) engine_new (outbound_new true 100 split0) sym input engine_new_ok
    input_accepted input_redis) as (evss & e' & ob' & new & H1 & H2 & _ & H4 & H5 & _).
  exists evss, e', ob', new. split_and!; [exact H1|exact H2|exact H4|exact H5].
Defined.

(** The trade between robots reaches the market topic only. *)
Example robot_trade_not_pushed :
  at_dest <$> filter (λ a, match at_body a with BPush _ => true | _ => false end = true)
    (ob_log (worker_run b64_id ser0 (λ e _, e) engine_new (outbound_new true 100 split0) sym input).2)
  = [PushMarketTo sym true; PushMarketTo sym false; PushOrderTo sym false].
Proof. vm_compute. reflexivity. Qed.

Definition publisher : MoldPublisher := MoldProps.Witness.publisher.
Definition run0 : Outbound :=
  (worker_run b64_id ser0 (λ e _, e) engine_new (attach_mold (outbound_new true 100 split0) publisher) sym input).2.

(** Without the second datagram the subscriber has the other two and reports the gap. *)
Lemma spot_feed_delivered_witness :
  ∃ ds outs s got, ob_grams run0 = inr <$> ds ∧ sub_run (subscriber_new MoldProps.Witness.session false) ds = Some (outs, s)
    ∧ concat (po_messages <$> outs) = number 1 (feed_msgs ser0 (feed_of (ob_log run0)))
    ∧ option_map (λ r, (concat (po_messages <$> r.1), po_gap <$> r.1)) (sub_run (subscriber_new MoldProps.Witness.session false) got)
      = Some ([(1, [2; 2]); (3, [1; 1])], [None; Some (mkGap 2 3 1)]).
Proof.
  destruct (spot_feed_delivered b64_id ser0 (λ e _, e) engine_new true 100 split0 sym input MoldProps.Witness.session 4 false publisher
    engine_new_ok input_accepted input_redis MoldProps.Witness.publisher_made) as (_ & H2 & H3).
  - split; [|assert (length (feed_of (ob_log run0)) = 3%nat) as Hlen by (vm_compute; reflexivity);
      unfold run0 in Hlen; rewrite Hlen; reflexivity].
    apply Forall_forall. intros [tag b] _. unfold payload_ok. by destruct b.
  - destruct H3 as (ds & outs & s & H4 & H5 & _ & H6); [repeat constructor|].
    exists ds, outs, s, (match ds with a :: _ :: c :: _ => [a; c] | _ => [] end).
    split; [exact H4|]. split; [exact H5|]. split; [exact H6|]. assert (ds = omap (λ r, match r with inr d => Some d | inl _ => None end) (ob_grams run0)) as ->.
    { unfold run0. rewrite H4. clear. induction ds as [|d ds IH]; [done|]. cbn. by rewrite <- IH. }
    vm_compute. reflexivity.
Defined.

End Witness.
