(* ===== verification/Rpc.v ===== *)
(** * Startup: what both processes share

    The response check of [rpc/mod.rs] and [rpc/response.rs], the market filter of
    [config.rs] and the queue capacity, the same code in match-contract and
    match-spot.  A server is a parameter: its decoded response, or an HTTP
    error. *)
From S2P Require Import Prelude.

#[local] Open Scope Z_scope.

Inductive RpcError := Http | Api (code : Z) (message : string) | MissingData.

Record ResponseData (A : Type) := mkResponse { rd_code : Z; rd_message : option string; rd_data : option A }.
Arguments mkResponse {A}. Arguments rd_code {A}. Arguments rd_message {A}. Arguments rd_data {A}.

Definition check_response {A} (r : ResponseData A) : RpcError + A :=
  if negb (rd_code r =? 1) then inl (Api (rd_code r) (default EmptyString (rd_message r)))
  else match rd_data r with Some d => inr d | None => inl MissingData end.

(** A call: [?] on the transport, then [check_response]. *)
Definition checked {A} (answer : RpcError + ResponseData A) : RpcError + A :=
  match answer with inl e => inl e | inr r => check_response r end.

(** A page of rows: [EntrustPagination], whose [rows] may be absent. *)
Definition page_rows {A} (answer : RpcError + ResponseData (option (list A))) : RpcError + list A :=
  match checked answer with inl e => inl e | inr rows => inr (default [] rows) end.

Inductive BootstrapError := RpcFailed (e : RpcError) | RedisFailed | SourceFailed | NoMarkets | RestoreFailed.

(** [v as i8] *)
Definition i8_wrap (z : Z) : Z := (z + 2 ^ 7) mod 2 ^ 8 - 2 ^ 7.

(** The shard and whitelist filter, the same in both [config.rs]. *)
Definition market_selected (shard : Z) (whitelist : list string) (main_stream : option Z) (coin_market : option string) : bool :=
  bool_decide (main_stream = Some shard)
  && match whitelist with
     | [] => true
     | _ => match coin_market with Some s => existsb (λ w, String.eqb w s) whitelist | None => false end
     end.

Record Config := mkConfig { cf_shard : Z; cf_whitelist : list string; cf_queue_capacity : Z }.

(** [queue_capacity.max(1)] *)
Definition capacity (c : Config) : nat := Z.to_nat (Z.max (cf_queue_capacity c) 1).
