(* ===== verification/ContractStart.v ===== *)
(** * match-contract: startup

    [bootstrap.rs] with the paginated restore of open orders ([rpc/order.rs]), the
    row conversion, the market filter and the scales ([config.rs]).  The order
    server is a function from the request to the decoded response.  Paging takes
    fuel; [None] is a loop that is still running.  The workers are not run here:
    what they would already have taken is still in the queues. *)
From stdpp Require Import gmap.
From S2P Require Import Prelude Decimal Protocol CoreBook CoreMatch CoreEngine Redis Contract Rpc.

#[local] Open Scope Z_scope.

Section Start.
Context `{BD : BigDecimal}.

Record EntrustListRow := mkRow {
  r_user_id : option Z; r_uid : option Z; r_c_type : Z; r_type : option Z; r_order_type : option Z;
  r_market_id : option Z; r_coin_id : option Z; r_symbol_key : option string; r_coin_market : option string;
  r_trust_order_no : option string; r_close_position : option Z; r_start_deposit : option string;
  r_position_type : option Z; r_taker_rate : option string; r_order_status : option Z; r_order_form : option Z;
  r_gear : option Z; r_lever_times : option Z; r_trust_number : option string; r_trust_price : option string;
  r_create_time : option Z; r_face_value : option bd }.

Definition build_mq_order (row : EntrustListRow) : MqOrder := {|
  mq_user_id := r_user_id row; mq_uid := r_uid row; mq_c_type := r_c_type row; mq_deal_type := None;
  mq_type := r_type row; mq_order_type := r_order_type row; mq_market_id := r_market_id row;
  mq_coin_id := r_coin_id row; mq_symbol_key := r_symbol_key row; mq_coin_market := r_coin_market row;
  mq_trust_order_no := r_trust_order_no row; mq_close_position := r_close_position row;
  mq_start_deposit := r_start_deposit row; mq_position_type := r_position_type row;
  mq_taker_rate := r_taker_rate row; mq_order_status := r_order_status row; mq_order_form := r_order_form row;
  mq_gear := r_gear row; mq_lever_times := r_lever_times row; mq_trust_number := r_trust_number row;
  mq_trust_price := r_trust_price row; mq_create_time := r_create_time row; mq_face_value := r_face_value row;
  mq_handicap_type := None |}.

Definition order_server := string → Z → RpcError + ResponseData (option (list EntrustListRow)).

Definition fetch_entrust_page (srv : order_server) (trust_order_no : string) (main_stream : Z) :
    RpcError + list EntrustListRow := page_rows (srv trust_order_no main_stream).

Fixpoint fetch_loop (fuel : nat) (srv : order_server) (main_stream : Z) (cursor : string) (all : list EntrustListRow) :
    option (RpcError + list EntrustListRow) :=
  match fuel with
  | O => None
  | S fuel =>
      match fetch_entrust_page srv cursor main_stream with
      | inl e => Some (inl e)
      | inr [] => Some (inr all)
      | inr rows =>
          let cursor := match last rows ≫= r_trust_order_no with Some no => no | None => cursor end in
          fetch_loop fuel srv main_stream cursor (all ++ rows)
      end
  end.

Definition fetch_all_entrusts (fuel : nat) (srv : order_server) (initial : string) (main_stream : Z) :=
  fetch_loop fuel srv main_stream initial [].

Record ContractCoinMarket := mkMarket {
  cm_coin_market : option string; cm_origin : option string; cm_main_stream : option Z }.

Definition filter_markets (c : Config) (markets : list ContractCoinMarket) : list ContractCoinMarket :=
  filter (λ m, market_selected (cf_shard c) (cf_whitelist c) (cm_main_stream m) (cm_coin_market m) = true) markets.

(** One market of the first loop of [run]: its keys are reset, its queue made. *)
Fixpoint register_markets (up : string → bool) (cap : nat) (store : MockStore) (r : Contract.InboundRouter)
    (symbols : list string) (markets : list ContractCoinMarket) :
    option (MockStore * Contract.InboundRouter * list string) :=
  match markets with
  | [] => Some (store, r, symbols)
  | m :: markets =>
      let coin_market := default EmptyString (cm_coin_market m) in
      let symbol_key := normalize_symbol_key coin_market in
      if String.eqb symbol_key EmptyString then register_markets up cap store r symbols markets
      else
        let origin := default coin_market (cm_origin m) in
        store ← contract_wipe_depth_keys up store origin;
        store ← contract_reset_link_key up store symbol_key coin_market;
        register_markets up cap store (Contract.register_queue r symbol_key (Contract.mkChan cap [] true)) (symbols ++ [symbol_key]) markets
  end.

Record Running := mkRunning { rn_symbols : list string; rn_router : Contract.InboundRouter; rn_store : MockStore }.

(** [run], up to the start of the consumers. *)
Definition run (fuel : nat) (c : Config) (up : string → bool) (store : MockStore)
    (markets : RpcError + ResponseData (list ContractCoinMarket)) (srv : order_server) :
    option (BootstrapError + Running) :=
  match checked markets with
  | inl e => Some (inl (RpcFailed e))
  | inr markets =>
      match filter_markets c markets with
      | [] => Some (inl NoMarkets)
      | filtered =>
          match register_markets up (capacity c) store (Contract.router_new Contract.start_queue_new) [] filtered with
          | None => Some (inl RedisFailed)
          | Some (_, _, []) => Some (inl NoMarkets)
          | Some (store, r, symbols) =>
              restored ← fetch_all_entrusts fuel srv "0" (cf_shard c);
              Some match restored with
                   | inl e => inl (RpcFailed e)
                   | inr rows => match Contract.restore_loop r (build_mq_order <$> rows) with
                                 | inl _ => inl RestoreFailed
                                 | inr r => inr (mkRunning symbols r store)
                                 end
                   end
          end
      end
  end.

(** [scale_for] of [config.rs]: the scales of a symbol's performance engine. *)
Definition scale_for (symbol_scales : gmap string (Z * Z)) (default_price_scale default_qty_scale : Z) (symbol_key : string) :
    Z * Z :=
  match symbol_scales !! symbol_key with Some s => s | None => (default_price_scale, default_qty_scale) end.

End Start.
