(* ===== verification/SpotStart.v ===== *)
(** * match-spot: startup

    [bootstrap.rs] with the paginated restore of open orders ([rpc/order.rs]), the
    row conversion and the symbol of a market.  The order server is a function from
    the request to the decoded response.  Paging takes fuel; [None] is a loop that
    is still running.  The workers are not run here: what they would already have
    taken is still in the queues. *)
From stdpp Require Import gmap.
From S2P Require Import Prelude Decimal Protocol CoreBook CoreMatch CoreEngine Redis Spot Rpc.

#[local] Open Scope Z_scope.

Section Start.
Context `{BD : BigDecimal}.

Record EntrustListRow := mkRow {
  r_user_id : option Z; r_uid : option Z; r_user_type : option Z; r_type : option Z; r_market_id : option Z;
  r_coin_id : option Z; r_symbol_key : option string; r_coin_market : option string; r_entrust_no : option string;
  r_price_type : option Z; r_gear : option Z; r_status : option Z; r_remain_amount : option string;
  r_price : option string; r_create_time : option Z }.

Definition build_mq_order_spot (row : EntrustListRow) : MqOrder := {|
  mq_user_id := r_user_id row; mq_uid := r_uid row; mq_c_type := 1; mq_deal_type := None;
  mq_type := i8_wrap <$> r_user_type row; mq_order_type := i8_wrap <$> r_type row; mq_market_id := r_market_id row;
  mq_coin_id := r_coin_id row; mq_symbol_key := r_symbol_key row; mq_coin_market := r_coin_market row;
  mq_trust_order_no := r_entrust_no row; mq_close_position := None;
  mq_start_deposit := None; mq_position_type := None;
  mq_taker_rate := None; mq_order_status := i8_wrap <$> r_status row; mq_order_form := i8_wrap <$> r_price_type row;
  mq_gear := r_gear row; mq_lever_times := None; mq_trust_number := r_remain_amount row;
  mq_trust_price := r_price row; mq_create_time := r_create_time row; mq_face_value := None;
  mq_handicap_type := None |}.

(** The request: side, main stream, page, page size. *)
Definition order_server := Z → Z → Z → Z → RpcError + ResponseData (option (list EntrustListRow)).

Definition fetch_entrust_page (srv : order_server) (side main_stream page page_size : Z) : RpcError + list EntrustListRow :=
  page_rows (srv side main_stream page page_size).

Fixpoint fetch_side (fuel : nat) (srv : order_server) (side main_stream page : Z) (all : list EntrustListRow) :
    option (RpcError + list EntrustListRow) :=
  match fuel with
  | O => None
  | S fuel =>
      match fetch_entrust_page srv side main_stream page 100 with
      | inl e => Some (inl e)
      | inr [] => Some (inr all)
      | inr rows => fetch_side fuel srv side main_stream (i32_wrap (page + 1)) (all ++ rows)
      end
  end.

Definition fetch_all_entrusts (fuel : nat) (srv : order_server) (main_stream : Z) : option (RpcError + list EntrustListRow) :=
  buys ← fetch_side fuel srv 1 main_stream 1 [];
  match buys with
  | inl e => Some (inl e)
  | inr all => fetch_side fuel srv 2 main_stream 1 all
  end.

Record SpotCoinMarket := mkMarket {
  sm_coin_market : option string; sm_symbol_key : option string; sm_main_stream : option Z }.

Definition filter_markets (c : Config) (markets : list SpotCoinMarket) : list SpotCoinMarket :=
  filter (λ m, market_selected (cf_shard c) (cf_whitelist c) (sm_main_stream m) (sm_coin_market m) = true) markets.

Definition nonempty (s : string) : option string := if String.eqb s EmptyString then None else Some s.

(** The symbol a market is traded under: its own key as it is, else its name
    normalized. *)
Definition market_symbol (m : SpotCoinMarket) : option string :=
  match sm_symbol_key m ≫= nonempty with
  | Some s => Some s
  | None => (sm_coin_market m ≫= nonempty) ≫= λ cm, nonempty (to_lowercase (remove_slash cm))
  end.

Definition market_label (m : SpotCoinMarket) (derived : string) : string := default derived (sm_symbol_key m).

Fixpoint register_markets (up : string → bool) (cap : nat) (store : MockStore) (r : Spot.InboundRouter)
    (symbols : list string) (markets : list SpotCoinMarket) :
    option (MockStore * Spot.InboundRouter * list string) :=
  match markets with
  | [] => Some (store, r, symbols)
  | m :: markets =>
      match market_symbol m with
      | None => register_markets up cap store r symbols markets
      | Some symbol_key =>
          let label := market_label m symbol_key in
          store ← spot_wipe_depth_keys up store symbol_key;
          store ← spot_reset_link_key up store symbol_key label;
          register_markets up cap store (Spot.register_queue r symbol_key (Spot.mkChan cap [] true))
            (symbols ++ [symbol_key]) markets
      end
  end.

Fixpoint restore_entrusts (r : Spot.InboundRouter) (rows : list EntrustListRow) : Spot.InboundError + Spot.InboundRouter :=
  match rows with
  | [] => inr r
  | row :: rows => match Spot.handle_mq_order r (build_mq_order_spot row) with
                   | (_, inl e) => inl e
                   | (r, inr _) => restore_entrusts r rows
                   end
  end.

Record Running := mkRunning { rn_symbols : list string; rn_router : Spot.InboundRouter; rn_store : MockStore }.

(** [run_with_redis], up to the start of the consumers. *)
Definition run_with_redis (fuel : nat) (c : Config) (up : string → bool) (store : MockStore)
    (markets : RpcError + ResponseData (list SpotCoinMarket)) (srv : order_server) :
    option (BootstrapError + Running) :=
  match checked markets with
  | inl e => Some (inl (RpcFailed e))
  | inr markets =>
      match filter_markets c markets with
      | [] => Some (inl NoMarkets)
      | filtered =>
          match register_markets up (capacity c) store Spot.router_new [] filtered with
          | None => Some (inl RedisFailed)
          | Some (_, _, []) => Some (inl NoMarkets)
          | Some (store, r, symbols) =>
              restored ← fetch_all_entrusts fuel srv (cf_shard c);
              Some match restored with
                   | inl e => inl (RpcFailed e)
                   | inr rows => match restore_entrusts r rows with
                                 | inl _ => inl RestoreFailed
                                 | inr r => inr (mkRunning symbols r store)
                                 end
                   end
          end
      end
  end.

(** [run_local]: the queues of the given symbols, nothing restored. *)
Definition run_local (c : Config) (symbols : list string) : Spot.InboundRouter :=
  foldl (λ r s, Spot.register_queue r s (Spot.mkChan (capacity c) [] true)) Spot.router_new symbols.

End Start.
