(* ===== verification/RestartProps.v ===== *)
(** * A restart brings every open order back, once

    Startup against the servers: paging reads all rows and ends, the queues of the
    selected markets then hold exactly the orders of the rows, and what the message
    queue delivers later adds no second copy (match-contract). *)
From stdpp Require Import gmap.
From S2P Require Import Prelude Decimal Protocol ProtocolProps CoreBook CoreMatch CoreEngine CoreProps Topics Redis Contract ContractProps Spot SpotProps Rpc ContractStart SpotStart.

#[local] Open Scope Z_scope.

(** The Redis commands do not fail while the connection is up. *)
Lemma del_all_up s keys : ∃ s', del_all (λ _, true) s keys = Some s'.
Proof. revert s; induction keys as [|k keys IH]; intros s; [by eexists|]. cbn. apply IH. Qed.

Lemma contract_reset_up s k v : ∃ s', contract_reset_link_key (λ _, true) s k v = Some s'.
Proof.
  unfold contract_reset_link_key, redis_del, redis_exists. cbn.
  destruct (negb _); eexists; reflexivity.
Qed.

(** ** match-contract *)
Section ContractRestart.
Context `{BDS : BigDecimalSpec}.
Import ContractStart.
Implicit Types (o : BbOrder) (row : ContractStart.EntrustListRow) (db : list ContractStart.EntrustListRow) (r : Contract.InboundRouter).

(** The cursor after the rows [seen]. *)
Definition cursor_after (seen : list ContractStart.EntrustListRow) : string :=
  match last seen with None => "0"%string | Some row => default "0"%string (r_trust_order_no row) end.

(** A server that keeps the rows [db] and answers a cursor with the next rows
    after it, at most [n]. *)
Record serves (srv : ContractStart.order_server) (main_stream : Z) db (n : nat) : Prop := {
  sv_size : (0 < n)%nat;
  sv_numbered : Forall (λ row, is_Some (r_trust_order_no row)) db;
  sv_pages : ∀ seen rest, db = seen ++ rest → page_rows (srv (cursor_after seen) main_stream) = inr (take n rest) }.

Lemma fetch_loop_spec srv ms db n fuel seen rest all :
  serves srv ms db n → db = seen ++ rest → (length rest < fuel)%nat →
  fetch_loop fuel srv ms (cursor_after seen) all = Some (inr (all ++ rest)).
Proof.
  intros Hs. revert seen rest all; induction fuel as [|fuel IH]; intros seen rest all Hdb Hf; [lia|].
  cbn [fetch_loop]. unfold fetch_entrust_page. rewrite (sv_pages _ _ _ _ Hs seen rest Hdb).
  pose proof (sv_size _ _ _ _ Hs) as Hn. destruct rest as [|row rest].
  { rewrite take_nil, app_nil_r. done. }
  destruct n as [|n]; [lia|]. cbn [take]. set (rows := row :: take n rest).
  assert (is_Some (last rows)) as [lrow Hlast] by (apply last_is_Some; subst rows; done).
  assert (lrow ∈ db) as Hin.
  { rewrite Hdb. apply elem_of_app. right. apply last_Some in Hlast as [pre Hpre].
    rewrite <- (take_drop (S n) (row :: rest)). apply elem_of_app. left. cbn [take]. fold rows. rewrite Hpre.
    apply elem_of_app. right. by left. }
  pose proof (sv_numbered _ _ _ _ Hs) as Hnum. rewrite Forall_forall in Hnum. destruct (Hnum _ Hin) as [no Hno].
  rewrite Hlast. cbn [mbind option_bind]. rewrite Hno.
  assert (no = cursor_after (seen ++ rows)) as ->.
  { unfold cursor_after. rewrite last_app, Hlast. by rewrite Hno. }
  rewrite (IH (seen ++ rows) (drop n rest) (all ++ rows)).
  - subst rows. do 2 f_equal. rewrite <- app_assoc. f_equal. cbn. by rewrite take_drop.
  - rewrite Hdb, <- app_assoc. f_equal. subst rows. cbn. by rewrite take_drop.
  - rewrite length_drop. cbn in Hf. lia.
Qed.

(** The symbols of the selected markets. *)
Definition contract_symbols (markets : list ContractStart.ContractCoinMarket) : list string :=
  filter (λ s, s ≠ EmptyString) ((λ m, normalize_symbol_key (default EmptyString (cm_coin_market m))) <$> markets).

Lemma register_markets_spec cap store r symbols markets :
  (∀ s, s ∈ symbols → Contract.queues r !! s = Some (Contract.mkChan cap [] true)) →
  (∀ s, s ∉ symbols → Contract.queues r !! s = None) →
  ∃ store' r', ContractStart.register_markets (λ _, true) cap store r symbols markets
      = Some (store', r', symbols ++ contract_symbols markets)
    ∧ Contract.start_queue r' = Contract.start_queue r
    ∧ (∀ s, s ∈ symbols ++ contract_symbols markets → Contract.queues r' !! s = Some (Contract.mkChan cap [] true))
    ∧ (∀ s, s ∉ symbols ++ contract_symbols markets → Contract.queues r' !! s = None).
Proof.
  revert store r symbols; induction markets as [|m markets IH]; intros store r symbols Hin Hout; cbn [ContractStart.register_markets].
  { exists store, r. unfold contract_symbols. cbn. by rewrite app_nil_r. }
  set (coin := default EmptyString (cm_coin_market m)). set (sym := normalize_symbol_key coin).
  assert (contract_symbols (m :: markets) = (if decide (sym = EmptyString) then [] else [sym]) ++ contract_symbols markets) as ->.
  { unfold contract_symbols. cbn [fmap list_fmap]. fold coin. fold sym. rewrite filter_cons. by repeat case_decide; try done. }
  destruct (String.eqb_spec sym EmptyString) as [He|Hne].
  { rewrite decide_True by done. cbn [app]. by apply IH. }
  rewrite decide_False by done. destruct (del_all_up store (contract_depth_key (default coin (cm_origin m)) <$> ALL_SUFFIXES)) as [s1 Hs1].
  unfold contract_wipe_depth_keys. rewrite Hs1. cbn [mbind option_bind].
  destruct (contract_reset_up s1 sym coin) as [s2 Hs2]. rewrite Hs2. cbn [mbind option_bind].
  destruct (IH s2 (Contract.register_queue r sym (Contract.mkChan cap [] true)) (symbols ++ [sym])) as (st & r' & Hr & Hq & Hi & Ho).
  - intros s [Hs|Hs%list_elem_of_singleton]%elem_of_app; cbn.
    + destruct (decide (sym = s)) as [<-|]; [by rewrite lookup_insert_eq|rewrite lookup_insert_ne by done; by apply Hin].
    + subst s. by rewrite lookup_insert_eq.
  - intros s Hs. cbn. rewrite lookup_insert_ne by (intros <-; apply Hs, elem_of_app; right; by left).
    apply Hout. intros Hs'. apply Hs, elem_of_app. by left.
  - exists st, r'. rewrite app_assoc. by split_and!.
Qed.

Lemma handle_restore_order_accepted r m :
  Contract.handle_restore_order r m
  = match accepted m with
    | None => (r, inr tt)
    | Some o => match Contract.enqueue r o with
                | (r, inl e) => (r, inl e)
                | (r, inr _) => (Contract.mkRouter (Contract.queues r)
                    (Contract.record_restored (Contract.start_queue r) (symbol_key o) (trust_order_no o)), inr tt)
                end
    end.
Proof. unfold Contract.handle_restore_order, accepted. destruct (check_mq_order m); [|done]. by destruct (type_convert m). Qed.

(** Enough room for every symbol's orders: the restore does not fail. *)
Lemma restore_loop_ok ms r :
  (∀ o, o ∈ omap accepted ms → ∃ ch, Contract.queues r !! symbol_key o = Some ch ∧ Contract.ch_open ch = true
     ∧ (length (Contract.ch_items ch) + length (of_symbol (symbol_key o) (omap accepted ms)) <= Contract.ch_cap ch)%nat) →
  ∃ r', Contract.restore_loop r ms = inr r'.
Proof.
  revert r; induction ms as [|m ms IH]; intros r Hroom; [by eexists|]. cbn [Contract.restore_loop].
  assert (omap accepted (m :: ms) = option_list (accepted m) ++ omap accepted ms) as Happ by (cbn; by destruct (accepted m)).
  rewrite Happ in Hroom. rewrite handle_restore_order_accepted.
  destruct (accepted m) as [o|]; [|apply IH; intros o Ho; by apply Hroom].
  destruct (Hroom o) as (ch & Hch & Hopen & Hlen); [apply elem_of_app; left; by left|].
  unfold Contract.enqueue. rewrite Hch, Hopen. cbn [negb]. change (option_list (Some o)) with [o] in Hroom, Hlen. cbn [app] in Hroom, Hlen.
  unfold of_symbol in Hlen. rewrite filter_cons_True in Hlen by done. cbn [length] in Hlen.
  rewrite (proj2 (Nat.leb_gt _ _)) by lia. apply IH. intros o' Ho'.
  destruct (Hroom o') as (ch' & Hch' & Hopen' & Hlen'); [by right|]. cbn [Contract.queues].
  destruct (decide (symbol_key o = symbol_key o')) as [Heq|Hne].
  - rewrite Heq, lookup_insert_eq. eexists. split; [done|]. cbn. split; [done|]. rewrite length_app. cbn.
    rewrite <- Heq. unfold of_symbol. lia.
  - rewrite lookup_insert_ne by done. exists ch'. split_and!; [done|done|]. unfold of_symbol in *.
    rewrite filter_cons_False in Hlen' by done. done.
Qed.

(** An order whose symbol has no queue ends the restore. *)
Lemma restore_loop_missing ms r o :
  o ∈ omap accepted ms → Contract.queues r !! symbol_key o = None → ∃ err, Contract.restore_loop r ms = inl err.
Proof.
  revert r; induction ms as [|m ms IH]; intros r Ho Hq; [by apply not_elem_of_nil in Ho|]. cbn [Contract.restore_loop]. rewrite handle_restore_order_accepted.
  assert (omap accepted (m :: ms) = option_list (accepted m) ++ omap accepted ms) as Happ by (cbn; by destruct (accepted m)). rewrite Happ in Ho.
  destruct (accepted m) as [o1|]; [|by apply IH]. unfold Contract.enqueue.
  destruct (Contract.queues r !! symbol_key o1) as [ch|] eqn:E1; [|by eexists]. destruct (negb (Contract.ch_open ch)); [by eexists|].
  destruct (_ <=? _)%nat; [by eexists|]. apply IH.
  - change (option_list (Some o1)) with [o1] in Ho. apply elem_of_app in Ho as [Ho%list_elem_of_singleton|Ho]; [|done]. subst. congruence.
  - cbn. rewrite lookup_insert_ne; [done|]. intros Heq. rewrite Heq in E1. congruence.
Qed.

(** Once the filter is cleared it drops nothing. *)
Lemma cleared_passes r q m o ch :
  Contract.start_queue r = Contract.start_queue_clear q → accepted m = Some o → Contract.queues r !! symbol_key o = Some ch →
  Contract.ch_open ch = true → (length (Contract.ch_items ch) < Contract.ch_cap ch)%nat →
  items (Contract.handle_mq_order r m).1 (symbol_key o) = items r (symbol_key o) ++ [o].
Proof.
  intros Hq Ha Hch Hopen Hroom. unfold accepted in Ha. unfold Contract.handle_mq_order. destruct (check_mq_order m); [|done]. rewrite Ha, Hq. cbn [negb].
  change (Contract.should_dedupe _ o) with false. cbn beta iota. unfold Contract.enqueue. rewrite Hch, Hopen. cbn [negb]. rewrite (proj2 (Nat.leb_gt _ _)) by lia.
  unfold items. cbn [fst Contract.queues]. by rewrite lookup_insert_eq, Hch.
Qed.

(** The orders a restart finds, and that all of them can be queued: their symbols are selected and have room. *)
Definition restorable (symbols : list string) (cap : nat) (orders : list BbOrder) : Prop :=
  ∀ o, o ∈ orders → symbol_key o ∈ symbols ∧ (length (of_symbol (symbol_key o) orders) <= cap)%nat.

(** C34.  A restart of the contract process.  Against a server that pages its rows
    by cursor, with Redis up and a market selected, startup returns.  If an open
    order has a symbol that is not selected, it returns an error.  If every open
    order has a selected symbol, with room for all orders of that symbol in its
    queue, it succeeds and the queue of each symbol holds exactly its orders among
    the rows, in the order of the rows.  Whatever messages come in then, until the
    filter is cleared, they add behind them only revokes and orders whose number was
    not restored for their symbol and, if it is an integer, is above every restored
    one that is a positive integer.  Once the filter is cleared it drops nothing:
    every valid order for a queue with room is added. *)
Theorem contract_restart c store markets mks srv db n :
  checked markets = inr mks → contract_symbols (filter_markets c mks) ≠ [] → serves srv (cf_shard c) db n →
  let symbols := contract_symbols (filter_markets c mks) in
  let orders := omap accepted (build_mq_order <$> db) in
  ∃ res, ContractStart.run (S (length db)) c (λ _, true) store markets srv = Some res
    ∧ (∀ o, o ∈ orders → symbol_key o ∉ symbols → res = inl RestoreFailed)
    ∧ (restorable symbols (capacity c) orders →
       ∃ st, res = inr st ∧ rn_symbols st = symbols ∧ (∀ s, items (rn_router st) s = of_symbol s orders)
         ∧ ∀ live, let r := foldl (λ r m, (Contract.handle_mq_order r m).1) (rn_router st) live in
             (∀ s, ∃ new, items r s = of_symbol s orders ++ new ∧ Forall (fresh orders) new)
             ∧ ∀ m o ch, let r' := Contract.mkRouter (Contract.queues r) (Contract.start_queue_clear (Contract.start_queue r)) in
                 accepted m = Some o → Contract.queues r' !! symbol_key o = Some ch → Contract.ch_open ch = true →
                 (length (Contract.ch_items ch) < Contract.ch_cap ch)%nat →
                 items (Contract.handle_mq_order r' m).1 (symbol_key o) = items r' (symbol_key o) ++ [o]).
Proof.
  intros Hm Hne Hsrv symbols orders. unfold ContractStart.run. rewrite Hm. subst symbols.
  destruct (filter_markets c mks) as [|m0 ms0] eqn:Ef; [by destruct Hne|]. rewrite <- Ef in *. clear Ef m0 ms0.
  destruct (register_markets_spec (capacity c) store (Contract.router_new Contract.start_queue_new) [] (filter_markets c mks))
    as (store' & r & Hreg & Hq & Hin & Hout); [intros s Hs; by apply not_elem_of_nil in Hs|done|].
  rewrite Hreg. cbn [app] in *. destruct (contract_symbols (filter_markets c mks)) as [|s0 ss] eqn:Es; [done|].
  unfold fetch_all_entrusts. change "0"%string with (cursor_after []).
  rewrite (fetch_loop_spec srv (cf_shard c) db n (S (length db)) [] db [] Hsrv eq_refl) by lia.
  cbn [app mbind option_bind]. eexists. split; [reflexivity|]. split.
  - intros o Ho Hs. destruct (restore_loop_missing (build_mq_order <$> db) r o Ho (Hout _ Hs)) as [err ->]. done.
  - intros Hroom. destruct (restore_loop_ok (build_mq_order <$> db) r) as [r' Hr'].
    { intros o Ho. destruct (Hroom o Ho) as [Hsym Hlen]. exists (Contract.mkChan (capacity c) [] true). split_and!; [by apply Hin|done|exact Hlen]. }
    rewrite Hr'. exists (mkRunning (s0 :: ss) r' store'). destruct (restore_loop_spec _ _ _ [] Hr') as [Hk Hi].
    { rewrite Hq. split; [done|intros ? Ho|intros ?? Ho]; by apply not_elem_of_nil in Ho. }
    assert (∀ s, items r' s = of_symbol s orders) as Hitems.
    { intros s. rewrite Hi. unfold items. destruct (decide (s ∈ s0 :: ss)) as [Hs|Hs]; [by rewrite (Hin s Hs)|by rewrite (Hout s Hs)]. }
    split_and!; [done|done|done|]. intros live. cbn [rn_router]. split; [|intros m o ch Ha Hc Ho Hl; by apply (cleared_passes _ (Contract.start_queue (foldl (λ r m, (Contract.handle_mq_order r m).1) r' live)) m o ch)].
    intros s. destruct (live_messages_spec live r' orders Hk s) as (new & Hnew & Hfresh). exists new. by rewrite Hnew, Hitems.
Qed.

(** The restore can hang.  When the server answers a cursor with a non-empty
    page whose last row has no order number, the cursor does not move: no number
    of requests ends the loop, so the process never starts its consumers. *)
Theorem contract_restore_hangs srv ms cursor rows :
  page_rows (srv cursor ms) = inr rows → rows ≠ [] → last rows ≫= r_trust_order_no = None →
  ∀ fuel all, fetch_loop fuel srv ms cursor all = None.
Proof.
  intros Hp Hne Hlast fuel. induction fuel as [|fuel IH]; intros all; [done|]. cbn [fetch_loop].
  unfold fetch_entrust_page. rewrite Hp. destruct rows as [|row rows]; [done|]. rewrite Hlast. apply IH.
Qed.
End ContractRestart.

(** ** match-spot *)
Section SpotRestart.
Context `{BDS : BigDecimalSpec}.
Import SpotStart.
Implicit Types (o : BbOrder) (row : SpotStart.EntrustListRow) (r : Spot.InboundRouter).

(** A server that keeps the rows of each side and answers a page number with the
    rows of that page. *)
Record serves_pages (srv : SpotStart.order_server) (main_stream : Z) (buys sells : list SpotStart.EntrustListRow) : Prop := {
  sp_bound : Z.of_nat (length buys) + Z.of_nat (length sells) < 2 ^ 31 - 2;
  sp_buys : ∀ k, (k <= length buys)%nat →
    page_rows (srv 1 main_stream (Z.of_nat k + 1) 100) = inr (take 100 (drop (100 * k) buys));
  sp_sells : ∀ k, (k <= length sells)%nat →
    page_rows (srv 2 main_stream (Z.of_nat k + 1) 100) = inr (take 100 (drop (100 * k) sells)) }.

Lemma fetch_side_spec srv side ms rows fuel k all :
  (∀ k, (k <= length rows)%nat → page_rows (srv side ms (Z.of_nat k + 1) 100) = inr (take 100 (drop (100 * k) rows))) →
  Z.of_nat (length rows) < 2 ^ 31 - 2 → (k <= length rows)%nat → (length rows < fuel + k)%nat →
  fetch_side fuel srv side ms (Z.of_nat k + 1) all = Some (inr (all ++ drop (100 * k) rows)).
Proof.
  intros Hp Hb. revert k all; induction fuel as [|fuel IH]; intros k all Hk Hf; [lia|]. cbn [fetch_side].
  unfold fetch_entrust_page. rewrite (Hp k Hk).
  destruct (take 100 (drop (100 * k) rows)) as [|row page] eqn:Et.
  { assert (drop (100 * k) rows = []) as ->; [|by rewrite app_nil_r].
    destruct (drop (100 * k) rows); [done|discriminate Et]. }
  assert ((100 * k < length rows)%nat) as Hlt.
  { destruct (decide (100 * k < length rows)%nat) as [|Hge]; [done|]. rewrite drop_ge in Et by lia. discriminate Et. }
  rewrite <- Et. replace (i32_wrap (Z.of_nat k + 1 + 1)) with (Z.of_nat (S k) + 1) by (unfold i32_wrap; rewrite Z.mod_small; lia).
  rewrite IH by lia. do 2 f_equal. rewrite <- app_assoc. f_equal.
  replace (100 * S k)%nat with (100 * k + 100)%nat by lia. rewrite <- drop_drop. by rewrite take_drop.
Qed.

Definition spot_items r (symbol : string) : list BbOrder :=
  match Spot.queues r !! symbol with Some ch => Spot.ch_items ch | None => [] end.

Lemma handle_mq_order_accepted r m :
  Spot.handle_mq_order r m = match accepted_spot m with None => (r, inr tt) | Some o => Spot.enqueue r o end.
Proof. unfold Spot.handle_mq_order, accepted_spot. destruct (check_mq_order_spot m); [|done]. by destruct (type_convert_spot m). Qed.

Definition spot_orders (rows : list SpotStart.EntrustListRow) : list BbOrder := omap accepted_spot (build_mq_order_spot <$> rows).

Lemma restore_entrusts_spec rows r :
  (∀ o, o ∈ spot_orders rows → ∃ ch, Spot.queues r !! symbol_key o = Some ch ∧ Spot.ch_open ch = true
     ∧ (length (Spot.ch_items ch) + length (of_symbol (symbol_key o) (spot_orders rows)) <= Spot.ch_cap ch)%nat) →
  ∃ r', restore_entrusts r rows = inr r' ∧ ∀ s, spot_items r' s = spot_items r s ++ of_symbol s (spot_orders rows).
Proof.
  revert r; induction rows as [|row rows IH]; intros r Hroom; cbn [restore_entrusts].
  { exists r. split; [done|]. intros s. cbn. by rewrite app_nil_r. }
  assert (spot_orders (row :: rows) = option_list (accepted_spot (build_mq_order_spot row)) ++ spot_orders rows) as Happ.
  { unfold spot_orders. cbn. by destruct (accepted_spot _). }
  rewrite Happ in *. rewrite handle_mq_order_accepted. destruct (accepted_spot (build_mq_order_spot row)) as [o|]; [|by apply IH].
  change (option_list (Some o)) with [o] in *. cbn [app] in *.
  destruct (Hroom o) as (ch & Hch & Hopen & Hlen); [by left|].
  unfold Spot.enqueue. rewrite Hch, Hopen. cbn [negb].
  unfold of_symbol in Hlen. rewrite filter_cons_True in Hlen by done. cbn [length] in Hlen.
  rewrite (proj2 (Nat.leb_gt _ _)) by lia. set (r1 := Spot.mkRouter _).
  destruct (IH r1) as (r' & Hr' & Hi).
  - intros o' Ho'. destruct (Hroom o') as (ch' & Hch' & Hopen' & Hlen'); [by right|]. subst r1. cbn [Spot.queues].
    destruct (decide (symbol_key o = symbol_key o')) as [Heq|Hne].
    + rewrite Heq, lookup_insert_eq. eexists. split; [done|]. cbn. split; [done|]. rewrite length_app. cbn.
      rewrite <- Heq. unfold of_symbol. lia.
    + rewrite lookup_insert_ne by done. exists ch'. split_and!; [done|done|]. unfold of_symbol in *.
      rewrite filter_cons_False in Hlen' by done. done.
  - exists r'. split; [done|]. intros s. rewrite Hi. subst r1. unfold spot_items, of_symbol. cbn [Spot.queues].
    destruct (decide (symbol_key o = s)) as [<-|Hne].
    + rewrite lookup_insert_eq, Hch. cbn [Spot.ch_items]. rewrite filter_cons_True by done. by rewrite <- app_assoc.
    + rewrite lookup_insert_ne, filter_cons_False by done. done.
Qed.

Definition spot_symbols (markets : list SpotStart.SpotCoinMarket) : list string := omap market_symbol markets.

Lemma spot_register_spec cap store r symbols markets :
  (∀ s, s ∈ symbols → Spot.queues r !! s = Some (Spot.mkChan cap [] true)) → (∀ s, s ∉ symbols → Spot.queues r !! s = None) →
  ∃ store' r', SpotStart.register_markets (λ _, true) cap store r symbols markets
      = Some (store', r', symbols ++ spot_symbols markets)
    ∧ (∀ s, s ∈ symbols ++ spot_symbols markets → Spot.queues r' !! s = Some (Spot.mkChan cap [] true))
    ∧ (∀ s, s ∉ symbols ++ spot_symbols markets → Spot.queues r' !! s = None).
Proof.
  revert store r symbols; induction markets as [|m markets IH]; intros store r symbols Hin Hout; cbn [SpotStart.register_markets].
  { exists store, r. cbn. by rewrite app_nil_r. }
  assert (spot_symbols (m :: markets) = option_list (market_symbol m) ++ spot_symbols markets) as ->.
  { unfold spot_symbols. cbn. by destruct (market_symbol m). }
  destruct (market_symbol m) as [sym|]; [|by apply IH]. change (option_list (Some sym)) with [sym].
  unfold spot_wipe_depth_keys. destruct (del_all_up store (spot_depth_key sym <$> ALL_SUFFIXES)) as [s1 Hs1].
  rewrite Hs1. cbn [mbind option_bind]. unfold spot_reset_link_key, redis_del, redis_set. cbn [mbind option_bind].
  set (s2 := store_set _ _ _).
  destruct (IH s2 (Spot.register_queue r sym (Spot.mkChan cap [] true)) (symbols ++ [sym])) as (st & r' & Hr & Hi & Ho).
  - intros s [Hs|Hs%list_elem_of_singleton]%elem_of_app; cbn.
    + destruct (decide (sym = s)) as [<-|]; [by rewrite lookup_insert_eq|rewrite lookup_insert_ne by done; by apply Hin].
    + subst s. by rewrite lookup_insert_eq.
  - intros s Hs. cbn. rewrite lookup_insert_ne by (intros <-; apply Hs, elem_of_app; right; by left).
    apply Hout. intros Hs'. apply Hs, elem_of_app. by left.
  - exists st, r'. rewrite app_assoc. by split_and!.
Qed.

(** An order whose symbol has no queue ends the restore. *)
Lemma restore_entrusts_missing rows r o :
  o ∈ spot_orders rows → Spot.queues r !! symbol_key o = None → ∃ err, restore_entrusts r rows = inl err.
Proof.
  revert r; induction rows as [|row rows IH]; intros r Ho Hq; [by apply not_elem_of_nil in Ho|]. cbn [restore_entrusts]. rewrite handle_mq_order_accepted.
  assert (spot_orders (row :: rows) = option_list (accepted_spot (build_mq_order_spot row)) ++ spot_orders rows) as Happ by (unfold spot_orders; cbn; by destruct (accepted_spot _)).
  rewrite Happ in Ho. destruct (accepted_spot (build_mq_order_spot row)) as [o1|]; [|by apply IH]. unfold Spot.enqueue.
  destruct (Spot.queues r !! symbol_key o1) as [ch|] eqn:E1; [|by eexists]. destruct (negb (Spot.ch_open ch)); [by eexists|].
  destruct (_ <=? _)%nat; [by eexists|]. apply IH.
  - change (option_list (Some o1)) with [o1] in Ho. apply elem_of_app in Ho as [Ho%list_elem_of_singleton|Ho]; [|done]. subst. congruence.
  - cbn. rewrite lookup_insert_ne; [done|]. intros Heq. rewrite Heq in E1. congruence.
Qed.

(** C38.  A restart of the spot process.  Against a server that answers page
    numbers, with Redis up and a market selected, startup reads both sides to the
    end and returns.  If an open order has a symbol that no selected market
    registered a queue for, it returns an error.  If every open order has such a
    symbol, with room for all orders of that symbol in its queue, it succeeds and
    the queue of each symbol holds exactly its orders among the rows, buys first, in
    the order of the rows. *)
Theorem spot_restart c store markets mks srv buys sells :
  checked markets = inr mks → spot_symbols (filter_markets c mks) ≠ [] → serves_pages srv (cf_shard c) buys sells →
  let symbols := spot_symbols (filter_markets c mks) in
  let orders := spot_orders (buys ++ sells) in
  ∃ res, run_with_redis (S (length buys + length sells)) c (λ _, true) store markets srv = Some res
    ∧ (∀ o, o ∈ orders → symbol_key o ∉ symbols → res = inl RestoreFailed)
    ∧ (restorable symbols (capacity c) orders →
       ∃ st, res = inr st ∧ rn_symbols st = symbols ∧ ∀ s, spot_items (rn_router st) s = of_symbol s orders).
Proof.
  intros Hm Hne [Hb Hbuys Hsells] symbols orders. unfold run_with_redis. rewrite Hm. subst symbols.
  destruct (filter_markets c mks) as [|m0 ms0] eqn:Ef; [by destruct Hne|]. rewrite <- Ef in *. clear Ef m0 ms0.
  destruct (spot_register_spec (capacity c) store Spot.router_new [] (filter_markets c mks))
    as (store' & r & Hreg & Hin & Hout); [intros s Hs; by apply not_elem_of_nil in Hs|done|].
  rewrite Hreg. cbn [app] in *. destruct (spot_symbols (filter_markets c mks)) as [|s0 ss] eqn:Es; [done|].
  assert (∀ side rows all, (∀ k, (k <= length rows)%nat →
      page_rows (srv side (cf_shard c) (Z.of_nat k + 1) 100) = inr (take 100 (drop (100 * k) rows))) →
      (length rows <= length buys + length sells)%nat →
      fetch_side (S (length buys + length sells)) srv side (cf_shard c) 1 all = Some (inr (all ++ rows))) as Hfetch.
  { intros side rows all Hp Hl. exact (fetch_side_spec srv side (cf_shard c) rows (S (length buys + length sells)) 0 all Hp ltac:(lia) ltac:(lia) ltac:(lia)). }
  unfold fetch_all_entrusts. rewrite (Hfetch 1 buys) by (done || lia). cbn [mbind option_bind].
  rewrite (Hfetch 2 sells) by (done || lia). cbn [app mbind option_bind]. eexists. split; [reflexivity|]. split.
  - intros o Ho Hs. destruct (restore_entrusts_missing (buys ++ sells) r o Ho (Hout _ Hs)) as [err ->]. done.
  - intros Hroom. destruct (restore_entrusts_spec (buys ++ sells) r) as (r' & Hr' & Hi).
    { intros o Ho. destruct (Hroom o Ho) as [Hsym Hlen]. exists (Spot.mkChan (capacity c) [] true). split_and!; [by apply Hin|done|exact Hlen]. }
    rewrite Hr'. exists (mkRunning (s0 :: ss) r' store'). split_and!; [done|done|]. cbn [rn_router]. intros s. rewrite Hi.
    unfold spot_items. destruct (decide (s ∈ s0 :: ss)) as [Hs|Hs]; [by rewrite (Hin s Hs)|by rewrite (Hout s Hs)].
Qed.
End SpotRestart.

Module Witness.
Import SciDecimal.

(** *** match-contract *)
Definition row (side : Z) (no : option string) (number price : string) : ContractStart.EntrustListRow :=
  ContractStart.mkRow (Some 7) (Some 8) 1 (Some 1) (Some side) (Some 2) (Some 3) (Some "BTC/USDT"%string)
    (Some "BTC/USDT"%string) no (Some 1) (Some "10"%string) (Some 1) (Some "1"%string) (Some 0) (Some 1) None (Some 10)
    (Some number) (Some price) (Some 1) None.

Definition db3 : list ContractStart.EntrustListRow :=
  [row 1 (Some "10"%string) "4"%string "100"%string; row 2 (Some "12"%string) "4"%string "101"%string;
   row 2 (Some "13"%string) "1"%string "102"%string].

(** The rows after the one with the given number. *)
Fixpoint after (no : string) (rows : list ContractStart.EntrustListRow) : list ContractStart.EntrustListRow :=
  match rows with
  | [] => []
  | r :: rows => if bool_decide (ContractStart.r_trust_order_no r = Some no) then rows else after no rows
  end.

Definition srv3 : ContractStart.order_server := λ cursor _,
  inr (mkResponse 1 None (Some (Some (take 2 (if String.eqb cursor "0" then db3 else after cursor db3))))).

Lemma srv3_serves : serves srv3 1 db3 2.
Proof.
  split; [lia|by repeat constructor; eexists|]. intros seen rest Hdb.
  destruct seen as [|r1 [|r2 [|r3 [|r4 seen]]]]; cbn in Hdb.
  - by rewrite <- Hdb.
  - injection Hdb as <- <-. reflexivity.
  - injection Hdb as <- <- <-. reflexivity.
  - injection Hdb as <- <- <- <-. reflexivity.
  - discriminate Hdb.
Qed.

Definition cfg : Config := mkConfig 1 [] 8.
Definition market3 : ContractStart.ContractCoinMarket := ContractStart.mkMarket (Some "BTC/USDT"%string) None (Some 1).
Definition sym : string := "btcusdt"%string.

Lemma contract_restart_witness :
  ∃ st, ContractStart.run 4 cfg (λ _, true) store_empty (inr (mkResponse 1 None (Some [market3]))) srv3 = Some (inr st)
    ∧ items (ContractStart.rn_router st) sym = of_symbol sym (omap accepted (ContractStart.build_mq_order <$> db3)).
Proof.
  destruct (contract_restart cfg store_empty (inr (mkResponse 1 None (Some [market3]))) [market3] srv3 db3 2)
    as (res & H1 & _ & H2).
  - reflexivity.
  - vm_compute. discriminate.
  - exact srv3_serves.
  - destruct H2 as (st & -> & _ & H3 & _); [|exists st; split; [exact H1|exact (H3 sym)]].
    assert (contract_symbols (ContractStart.filter_markets cfg [market3]) = [sym]) as -> by (vm_compute; reflexivity).
    assert (forallb (λ o, String.eqb (symbol_key o) sym) (omap accepted (ContractStart.build_mq_order <$> db3)) = true)
      as Hall by (vm_compute; reflexivity).
    intros o Ho. rewrite forallb_forall in Hall. specialize (Hall o ltac:(by apply list_elem_of_In)).
    apply String.eqb_eq in Hall. rewrite Hall. split; [by left|]. vm_compute. lia.
Defined.

(** With a whitelist that leaves out the market of an open order the process does not start. *)
Example whitelist_stops_start :
  match ContractStart.run 4 (mkConfig 1 ["ETH/USDT"%string] 8) (λ _, true) store_empty
    (inr (mkResponse 1 None (Some [market3; ContractStart.mkMarket (Some "ETH/USDT"%string) None (Some 1)]))) srv3
  with Some (inl RestoreFailed) => true | _ => false end = true.
Proof. vm_compute. reflexivity. Qed.

(** A last row without a number: the same page again and again. *)
Definition bad_srv : ContractStart.order_server := λ _ _,
  inr (mkResponse 1 None (Some (Some [row 1 None "4"%string "100"%string]))).

Lemma contract_restore_hangs_witness : ContractStart.fetch_loop 1000 bad_srv 1 "0" [] = None.
Proof.
  apply (contract_restore_hangs bad_srv 1 "0" [row 1 None "4"%string "100"%string]); [reflexivity|discriminate|reflexivity].
Defined.

(** *** match-spot *)
Definition spot_row (side : Z) (no number price : string) : SpotStart.EntrustListRow :=
  SpotStart.mkRow (Some 7) (Some 8) (Some 1) (Some side) (Some 2) (Some 3) (Some "btcusdt"%string) (Some "BTC/USDT"%string)
    (Some no) (Some 1) None (Some 0) (Some number) (Some price) (Some 1).

Definition buys2 : list SpotStart.EntrustListRow := [spot_row 1 "1" "4" "100"; spot_row 1 "2" "3" "99"]%string.
Definition sells1 : list SpotStart.EntrustListRow := [spot_row 2 "3" "4" "101"]%string.

Definition spot_srv : SpotStart.order_server := λ side _ page size,
  inr (mkResponse 1 None (Some (Some (take (Z.to_nat size)
    (drop (Z.to_nat (size * (page - 1))) (if side =? 1 then buys2 else sells1)))))).

Lemma spot_srv_serves : serves_pages spot_srv 1 buys2 sells1.
Proof.
  split; [cbn; lia|intros k Hk|intros k Hk]; unfold spot_srv;
    replace (Z.to_nat (100 * (Z.of_nat k + 1 - 1))) with (100 * k)%nat by lia; reflexivity.
Qed.

Definition spot_market (key : string) : SpotStart.SpotCoinMarket := SpotStart.mkMarket (Some "BTC/USDT"%string) (Some key) (Some 1).

Lemma spot_restart_witness :
  ∃ st, SpotStart.run_with_redis 4 cfg (λ _, true) store_empty (inr (mkResponse 1 None (Some [spot_market sym]))) spot_srv
      = Some (inr st)
    ∧ spot_items (SpotStart.rn_router st) sym = of_symbol sym (spot_orders (buys2 ++ sells1)).
Proof.
  destruct (spot_restart cfg store_empty (inr (mkResponse 1 None (Some [spot_market sym]))) [spot_market sym] spot_srv buys2 sells1)
    as (res & H1 & _ & H2).
  - reflexivity.
  - vm_compute. discriminate.
  - exact spot_srv_serves.
  - destruct H2 as (st & -> & _ & H3); [|exists st; split; [exact H1|exact (H3 sym)]].
    assert (spot_symbols (SpotStart.filter_markets cfg [spot_market sym]) = [sym]) as -> by (vm_compute; reflexivity).
    assert (forallb (λ o, String.eqb (symbol_key o) sym) (spot_orders (buys2 ++ sells1)) = true) as Hall by (vm_compute; reflexivity).
    intros o Ho. rewrite forallb_forall in Hall. specialize (Hall o ltac:(by apply list_elem_of_In)).
    apply String.eqb_eq in Hall. rewrite Hall. split; [by left|]. vm_compute. lia.
Defined.

(** A market key that is not in normal form names a queue no order is routed to:
    the first restored order stops the start. *)
Example uppercase_market_key_fails :
  match SpotStart.run_with_redis 4 cfg (λ _, true) store_empty (inr (mkResponse 1 None (Some [spot_market "BTCUSDT"%string]))) spot_srv
  with Some (inl RestoreFailed) => true | _ => false end = true.
Proof. vm_compute. reflexivity. Qed.

End Witness.
