(* ===== verification/Replay.v ===== *)
(** * match-replay: checking the engine against golden traces

    Models [match-replay/src/trace.rs], [diff.rs] and [lib.rs]: the trace lines, the
    orders built from them, the replay that collects expected and actual outcomes
    and depth, and the comparison.  A message of the comparison is the list of what
    differs instead of its text.  [parse] stands for [serde_json::from_str].  A
    replay that panics is [None]. *)
From stdpp Require Import gmap.
From S2P Require Import Prelude Decimal Protocol CoreBook CoreMatch CoreSpec CoreEngine Utf8.

#[local] Open Scope Z_scope.

(** [s.trim()] *)
Definition trim_string (s : string) : string := string_of_bytes (str_trim (bytes_of s)).

(** ** Lines ([trace.rs]) *)

Record SimplifiedOrder := mkSimplified {
  so_order_type : Z; so_trust_price : string; so_trust_number : string; so_trust_order_no : string;
  so_create_time : Z; so_order_form : Z; so_symbol_key : string; so_order_status : Z; so_gear : option Z }.

Definition default_order_form : Z := 1.
Definition default_symbol_key : string := "btcusdt".

Definition LevelText : Type := string * string.

Inductive TraceLine :=
| TInput (seq : Z) (order : SimplifiedOrder)
| TFill (seq : Z) (taker_order_no maker_order_no price qty taker_remaining maker_remaining : string)
        (taker_status maker_status : Z)
| TDepth (seq : Z) (symbol : string) (bids asks : list LevelText)
| TRevoke (seq : Z) (order_no remaining reason : string).

Inductive OutcomeEvent :=
| OFill (taker_order_no maker_order_no price qty taker_remaining maker_remaining : string) (taker_status maker_status : Z)
| ORevoke (order_no remaining reason : string).

Definition from_match_event (ev : MatchEvent) : OutcomeEvent :=
  match ev with
  | Fill _ taker_no maker_no _ _ price qty taker_rem maker_rem taker_st maker_st =>
      OFill taker_no maker_no price qty taker_rem maker_rem taker_st maker_st
  | Revoke order_no _ remaining reason => ORevoke order_no remaining reason
  end.

Definition from_trace_line (line : TraceLine) : option OutcomeEvent :=
  match line with
  | TFill _ taker_no maker_no price qty taker_rem maker_rem taker_st maker_st =>
      Some (OFill taker_no maker_no price qty taker_rem maker_rem taker_st maker_st)
  | TRevoke _ order_no remaining reason => Some (ORevoke order_no remaining reason)
  | _ => None
  end.

(** [load_ndjson] on the lines of a file; the error is the line's number. *)
Fixpoint load_lines (parse : string → option TraceLine) (i : Z) (lines : list string) : Z + list TraceLine :=
  match lines with
  | [] => inr []
  | line :: lines =>
      let trimmed := trim_string line in
      if String.eqb trimmed EmptyString || match trimmed with String c _ => Ascii.eqb c "#"%char | _ => false end
      then load_lines parse (i + 1) lines
      else match parse trimmed with
           | None => inl (i + 1)
           | Some op => match load_lines parse (i + 1) lines with inl e => inl e | inr ops => inr (op :: ops) end
           end
  end.

Section Replay.
Context `{BD : BigDecimal}.

Inductive ReplayError := BadOrderType (seq : Z) | BadTrustPrice (seq : Z).

Definition NO_DEAL_NUMBER : Z := 20.

Definition set_symbol_status_gear (symbol : string) (status : Z) (g : option Z) (o : BbOrder) : BbOrder :=
  mkBbOrder (user_id o) (uid o) (type o) (order_type o) (market_id o) (coin_id o)
    symbol (coin_market o) (trust_order_no o) (order_form o)
    (match g with Some g => Some g | None => gear o end)
    (close_position o) (start_deposit o) (target_rate o) (position_type o) (lever_times o)
    status (consumer_all_number o) (current_deal_number o) (trust_number o)
    (trust_price o) (remaining_number o) (create_time o) (face_value o) (average_price o).

(** A quantity that does not parse panics in [BbOrder::test_limit]. *)
Definition to_bb_order (seq : Z) (s : SimplifiedOrder) : option (ReplayError + BbOrder) :=
  match from_order_type (so_order_type s) with
  | None => Some (inl (BadOrderType seq))
  | Some side =>
      match bd_from_str (so_trust_price s) with
      | None => Some (inl (BadTrustPrice seq))
      | Some price =>
          qty ← bd_from_str (so_trust_number s);
          let no := so_trust_order_no s in
          let time := so_create_time s in
          let order :=
            if so_order_form s =? 2 then test_market side no time qty
            else if so_order_form s =? 3 then test_post_only side price no time qty
            else if so_order_form s =? 4 then test_ioc side price no time qty
            else if so_order_form s =? 5 then test_fok side price no time qty
            else test_limit side price no time qty in
          Some (inr (set_symbol_status_gear (so_symbol_key s) (so_order_status s) (so_gear s) order))
      end
  end.

Definition level_text (pq : bd * bd) : LevelText :=
  (bd_to_string (bd_normalized pq.1), bd_to_string (bd_normalized pq.2)).

Definition snapshot_depth (e : Engine) (symbol : string) : list LevelText * list LevelText :=
  (level_text <$> engine_depth_levels e symbol Buy (Z.to_nat NO_DEAL_NUMBER),
   level_text <$> engine_depth_levels e symbol Sell (Z.to_nat NO_DEAL_NUMBER)).

Record DepthCheck := mkCheck {
  dc_seq : Z; dc_symbol : string; dc_expected_bids : list LevelText; dc_expected_asks : list LevelText;
  dc_actual_bids : list LevelText; dc_actual_asks : list LevelText }.

Record ReplayCollected := mkCollected {
  actual_outcomes : list OutcomeEvent; expected_outcomes : list OutcomeEvent; depth_checks : list DepthCheck }.

Definition collected_new : ReplayCollected := mkCollected [] [] [].

Definition add_actual (c : ReplayCollected) (l : list OutcomeEvent) : ReplayCollected :=
  mkCollected (actual_outcomes c ++ l) (expected_outcomes c) (depth_checks c).
Definition add_expected (c : ReplayCollected) (l : list OutcomeEvent) : ReplayCollected :=
  mkCollected (actual_outcomes c) (expected_outcomes c ++ l) (depth_checks c).
Definition add_check (c : ReplayCollected) (e : Engine) (seq : Z) (symbol : string) (bids asks : list LevelText) : ReplayCollected :=
  let '(actual_bids, actual_asks) := snapshot_depth e symbol in
  mkCollected (actual_outcomes c) (expected_outcomes c)
    (depth_checks c ++ [mkCheck seq symbol bids asks actual_bids actual_asks]).

Fixpoint collect_loop (e : Engine) (out : ReplayCollected) (ops : list TraceLine) : option (ReplayError + ReplayCollected) :=
  match ops with
  | [] => Some (inr out)
  | TInput seq order :: ops =>
      bb ← to_bb_order seq order;
      match bb with
      | inl err => Some (inl err)
      | inr bb => '(evs, e) ← on_order e bb; collect_loop e (add_actual out (from_match_event <$> evs)) ops
      end
  | TDepth seq symbol bids asks :: ops => collect_loop e (add_check out e seq symbol bids asks) ops
  | line :: ops => collect_loop e (add_expected out (option_list (from_trace_line line))) ops
  end.

Definition collect_replay (ops : list TraceLine) : option (ReplayError + ReplayCollected) :=
  collect_loop engine_new collected_new ops.

(** [replay_paths] with two files: all inputs of the first, then the expectations
    of the second against the final book. *)
Fixpoint apply_inputs (e : Engine) (out : ReplayCollected) (inputs : list TraceLine) :
    option (ReplayError + (Engine * ReplayCollected)) :=
  match inputs with
  | [] => Some (inr (e, out))
  | TInput seq order :: inputs =>
      bb ← to_bb_order seq order;
      match bb with
      | inl err => Some (inl err)
      | inr bb => '(evs, e) ← on_order e bb; apply_inputs e (add_actual out (from_match_event <$> evs)) inputs
      end
  | _ :: inputs => apply_inputs e out inputs
  end.

Definition expect_line (e : Engine) (out : ReplayCollected) (line : TraceLine) : ReplayCollected :=
  match line with
  | TDepth seq symbol bids asks => add_check out e seq symbol bids asks
  | TInput _ _ => out
  | line => add_expected out (option_list (from_trace_line line))
  end.

Definition replay_paths (inputs expected : list TraceLine) : option (ReplayError + ReplayCollected) :=
  r ← apply_inputs engine_new collected_new inputs;
  Some match r with
       | inl err => inl err
       | inr (e, out) => inr (foldl (expect_line e) out expected)
       end.

(** ** Comparison ([diff.rs]) *)

Definition decimals_equal (a b : string) : bool :=
  match bd_from_str (trim_string a), bd_from_str (trim_string b) with
  | Some da, Some db => (da =? db)%bd
  | _, _ => String.eqb a b
  end.

Definition levels_equal (expected actual : list LevelText) : bool :=
  if negb (length expected =? length actual)%nat then false
  else forallb (λ ea : LevelText * LevelText,
         decimals_equal ea.1.1 ea.2.1 && decimals_equal ea.1.2 ea.2.2) (zip expected actual).

Inductive field :=
| FTakerOrderNo | FMakerOrderNo | FPrice | FQty | FTakerRemaining | FMakerRemaining | FTakerStatus | FMakerStatus
| FOrderNo | FRemaining | FReason | FKind.

(** A field is named when its test fails. *)
Definition differs (ok : bool) (f : field) : list field := if ok then [] else [f].

(** The fields in which the two differ, in the order of the messages. *)
Definition outcome_equal (expected actual : OutcomeEvent) : list field :=
  match expected, actual with
  | OFill et em ep eq etr emr ets ems, OFill at_ am ap aq atr amr ats ams =>
      differs (String.eqb et at_) FTakerOrderNo ++ differs (String.eqb em am) FMakerOrderNo
      ++ differs (decimals_equal ep ap) FPrice ++ differs (decimals_equal eq aq) FQty
      ++ differs (decimals_equal etr atr) FTakerRemaining ++ differs (decimals_equal emr amr) FMakerRemaining
      ++ differs (ets =? ats) FTakerStatus ++ differs (ems =? ams) FMakerStatus
  | ORevoke eo er ereason, ORevoke ao ar areason =>
      differs (String.eqb eo ao) FOrderNo ++ differs (decimals_equal er ar) FRemaining
      ++ differs (String.eqb ereason areason) FReason
  | _, _ => [FKind]
  end.

Inductive Diff :=
| DOutcome (i : nat) (fields : list field) | DMissing (i : nat) | DUnexpected (i : nat) | DDepth (seq : Z).

Definition diff_at (expected actual : list OutcomeEvent) (i : nat) : list Diff :=
  match expected !! i, actual !! i with
  | Some e, Some a => match outcome_equal e a with [] => [] | fields => [DOutcome i fields] end
  | Some _, None => [DMissing i]
  | None, Some _ => [DUnexpected i]
  | None, None => []
  end.

Definition diff_outcomes (expected actual : list OutcomeEvent) : list Diff :=
  concat (diff_at expected actual <$> seq 0 (Nat.max (length expected) (length actual))).

Definition diff_depth_check (check : DepthCheck) : option Diff :=
  let bids_ok := levels_equal (dc_expected_bids check) (dc_actual_bids check) in
  let asks_ok := levels_equal (dc_expected_asks check) (dc_actual_asks check) in
  if bids_ok && asks_ok then None else Some (DDepth (dc_seq check)).

Definition diff_replay (c : ReplayCollected) : list Diff :=
  diff_outcomes (expected_outcomes c) (actual_outcomes c) ++ omap diff_depth_check (depth_checks c).

End Replay.
