(* ===== verification/ReplayProps.v ===== *)
(** * match-replay: a clean replay means the trace is right

    The comparison is exact up to the way decimals are written, in both
    directions, and a trace written down from the engine's own run replays
    clean. *)
From stdpp Require Import gmap.
From S2P Require Import Prelude Decimal Protocol CoreBook CoreMatch CoreSpec CoreEngine Utf8 Replay.
From Stdlib Require Import QArith.

#[local] Open Scope Z_scope.

Section Props.
Context `{BDS : BigDecimalSpec}.
Implicit Types (ops : list TraceLine) (e : Engine) (out c : ReplayCollected) (a b : string).

(** Both texts are numbers and equal, or not both are and they are the same. *)
Definition values_agree a b : Prop :=
  match bd_from_str (trim_string a), bd_from_str (trim_string b) with
  | Some x, Some y => bd_eq x y
  | _, _ => a = b
  end.

Definition outcome_agrees (x y : OutcomeEvent) : Prop :=
  match x, y with
  | OFill et em ep eq etr emr ets ems, OFill at_ am ap aq atr amr ats ams =>
      et = at_ ∧ em = am ∧ values_agree ep ap ∧ values_agree eq aq ∧ values_agree etr atr ∧ values_agree emr amr
      ∧ ets = ats ∧ ems = ams
  | ORevoke eo er ereason, ORevoke ao ar areason => eo = ao ∧ values_agree er ar ∧ ereason = areason
  | _, _ => False
  end.

Definition level_agrees (x y : LevelText) : Prop := values_agree x.1 y.1 ∧ values_agree x.2 y.2.

Lemma decimals_equal_spec a b : decimals_equal a b = true ↔ values_agree a b.
Proof.
  unfold decimals_equal, values_agree. destruct (bd_from_str _) as [x|]; [destruct (bd_from_str _) as [y|]|];
    [apply bd_eqb_eq|apply String.eqb_eq..].
Qed.

Lemma values_agree_refl a : values_agree a a.
Proof. unfold values_agree. destruct (bd_from_str _); reflexivity. Qed.

Lemma differs_nil ok f : differs ok f = [] ↔ ok = true.
Proof. by destruct ok. Qed.

Lemma outcome_equal_spec x y : outcome_equal x y = [] ↔ outcome_agrees x y.
Proof.
  destruct x, y; cbn [outcome_equal outcome_agrees]; try done;
    rewrite ?app_nil, ?differs_nil, ?String.eqb_eq, ?Z.eqb_eq, ?decimals_equal_spec; tauto.
Qed.

Lemma outcome_agrees_refl x : outcome_agrees x x.
Proof. destruct x; cbn; split_and!; auto using values_agree_refl. Qed.

Lemma levels_equal_spec l1 l2 : levels_equal l1 l2 = true ↔ Forall2 level_agrees l1 l2.
Proof.
  unfold levels_equal. destruct (Nat.eqb_spec (length l1) (length l2)) as [Hl|Hl]; cbn [negb].
  2:{ split; [done|]. intros H2. by apply Forall2_length in H2. }
  revert l2 Hl; induction l1 as [|x l1 IH]; intros [|y l2] Hl; try done.
  cbn [zip zip_with forallb fst snd]. injection Hl as Hl. rewrite !andb_true_iff, !decimals_equal_spec, IH by done.
  rewrite Forall2_cons. unfold level_agrees. tauto.
Qed.

Lemma concat_nil {A} (l : list (list A)) : concat l = [] ↔ Forall (λ x, x = []) l.
Proof.
  induction l as [|x l IH]; [by split; [constructor|]|]. cbn. rewrite app_nil, IH, Forall_cons. done.
Qed.

Lemma diff_outcomes_spec l1 l2 : diff_outcomes l1 l2 = [] ↔ Forall2 outcome_agrees l1 l2.
Proof.
  unfold diff_outcomes. rewrite concat_nil, Forall_fmap, Forall_forall. split.
  - intros Hall. assert (∀ i, (i < Nat.max (length l1) (length l2))%nat → diff_at l1 l2 i = []) as Hat.
    { intros i Hi. apply (Hall i). apply elem_of_seq. lia. }
    assert (length l1 = length l2) as Hlen.
    { destruct (Nat.lt_trichotomy (length l1) (length l2)) as [Hlt|[Heq|Hgt]]; [|done|]; exfalso.
      - specialize (Hat (length l1) ltac:(lia)). unfold diff_at in Hat. rewrite lookup_ge_None_2 in Hat by lia.
        destruct (lookup_lt_is_Some_2 l2 (length l1) ltac:(lia)) as [y Hy]. by rewrite Hy in Hat.
      - specialize (Hat (length l2) ltac:(lia)). unfold diff_at in Hat.
        destruct (lookup_lt_is_Some_2 l1 (length l2) ltac:(lia)) as [y Hy]. rewrite Hy, lookup_ge_None_2 in Hat by lia. done. }
    apply Forall2_same_length_lookup. split; [done|]. intros i x y Hx Hy.
    specialize (Hat i). unfold diff_at in Hat. rewrite Hx, Hy in Hat. apply outcome_equal_spec.
    pose proof (lookup_lt_Some _ _ _ Hx). specialize (Hat ltac:(lia)). by destruct (outcome_equal x y).
  - intros H2 i _. cbn. unfold diff_at. pose proof (Forall2_length _ _ _ H2) as Hlen.
    destruct (l1 !! i) as [x|] eqn:Hx, (l2 !! i) as [y|] eqn:Hy; try done.
    + rewrite (proj2 (outcome_equal_spec x y)); [done|]. by eapply Forall2_lookup_lr.
    + apply lookup_lt_Some in Hx. apply lookup_ge_None in Hy. lia.
    + apply lookup_lt_Some in Hy. apply lookup_ge_None in Hx. lia.
Qed.

Definition check_agrees (k : DepthCheck) : Prop :=
  Forall2 level_agrees (dc_expected_bids k) (dc_actual_bids k) ∧ Forall2 level_agrees (dc_expected_asks k) (dc_actual_asks k).

Lemma diff_replay_spec c :
  diff_replay c = [] ↔ Forall2 outcome_agrees (expected_outcomes c) (actual_outcomes c) ∧ Forall check_agrees (depth_checks c).
Proof.
  unfold diff_replay. rewrite app_nil, diff_outcomes_spec. f_equiv.
  induction (depth_checks c) as [|k l IH]; [by split; [constructor|]|]. rewrite Forall_cons, <- IH.
  assert (diff_depth_check k = None ↔ check_agrees k) as Hk.
  { unfold diff_depth_check, check_agrees. rewrite <- !levels_equal_spec.
    destruct (levels_equal _ _), (levels_equal _ _); cbn; (split; [|]); try done; intros []; done. }
  cbn. destruct (diff_depth_check k); rewrite <- Hk; split; try done; [by intros []|tauto..].
Qed.

(** ** What a replay collects *)

Definition input_order (line : TraceLine) : option BbOrder :=
  match line with
  | TInput seq s => match to_bb_order seq s with Some (inr o) => Some o | _ => None end
  | _ => None
  end.

Definition orders_of ops : list BbOrder := omap input_order ops.

(** Every input is an order the engine accepts. *)
Definition inputs_ok ops : Prop :=
  Forall (λ line, match line with
                  | TInput seq s => ∃ o, to_bb_order seq s = Some (inr o) ∧ order_valid o
                  | _ => True end) ops.

(** The depth checks of a replay: each depth line against the book its inputs so
    far leave behind. *)
Definition checks_of e ops (checks : list DepthCheck) : Prop :=
  ∀ k, k ∈ checks ↔ ∃ pre seq sym bids asks post evss e1,
    ops = pre ++ TDepth seq sym bids asks :: post ∧ run_each e (orders_of pre) = Some (evss, e1)
    ∧ k = mkCheck seq sym bids asks (snapshot_depth e1 sym).1 (snapshot_depth e1 sym).2.

Lemma checks_of_skip e line ops checks :
  input_order line = None → (match line with TDepth _ _ _ _ => False | _ => True end) →
  checks_of e ops checks → checks_of e (line :: ops) checks.
Proof.
  intros Hn Hl Hc k. rewrite (Hc k). split.
  - intros (pre & sq & sym & bids & asks & post & evss & e1 & -> & Hr & ->).
    exists (line :: pre), sq, sym, bids, asks, post, evss, e1. split_and!; [done| |done]. cbn. by rewrite Hn.
  - intros (pre & sq & sym & bids & asks & post & evss & e1 & Heq & Hr & ->). destruct pre as [|l pre]; cbn in Heq.
    { injection Heq as -> _. done. }
    injection Heq as <- ->. exists pre, sq, sym, bids, asks, post, evss, e1. split_and!; [done| |done].
    cbn in Hr. by rewrite Hn in Hr.
Qed.

Lemma checks_of_input e line o evs e1 ops checks :
  input_order line = Some o → on_order e o = Some (evs, e1) → checks_of e1 ops checks → checks_of e (line :: ops) checks.
Proof.
  intros Hn Ho Hc k. rewrite (Hc k). split.
  - intros (pre & sq & sym & bids & asks & post & evss & e2 & -> & Hr & ->).
    exists (line :: pre), sq, sym, bids, asks, post, (evs :: evss), e2. split_and!; [done| |done]. cbn. rewrite Hn. cbn.
    rewrite Ho. cbn. unfold orders_of in Hr. by rewrite Hr.
  - intros (pre & sq & sym & bids & asks & post & evss & e2 & Heq & Hr & ->). destruct pre as [|l pre]; cbn in Heq.
    { injection Heq as -> _. done. }
    injection Heq as <- ->. cbn in Hr. rewrite Hn in Hr. cbn in Hr. rewrite Ho in Hr. cbn in Hr.
    destruct (run_each e1 (omap input_order pre)) as [[evss' e2']|] eqn:Er; [|done]. cbn in Hr. injection Hr as <- <-.
    exists pre, sq, sym, bids, asks, post, evss', e2'. split_and!; [done|exact Er|done].
Qed.

Lemma checks_of_depth e sq sym bids asks ops checks :
  checks_of e ops checks →
  checks_of e (TDepth sq sym bids asks :: ops) (mkCheck sq sym bids asks (snapshot_depth e sym).1 (snapshot_depth e sym).2 :: checks).
Proof.
  intros Hc k. rewrite elem_of_cons, (Hc k). split.
  - intros [->|(pre & sq' & sym' & bids' & asks' & post & evss & e1 & -> & Hr & ->)].
    + by exists [], sq, sym, bids, asks, ops, [], e.
    + by exists (TDepth sq sym bids asks :: pre), sq', sym', bids', asks', post, evss, e1.
  - intros (pre & sq' & sym' & bids' & asks' & post & evss & e1 & Heq & Hr & ->). destruct pre as [|l pre]; cbn in Heq.
    + injection Heq as <- <- <- <- <-. cbn in Hr. injection Hr as <- <-. by left.
    + injection Heq as <- ->. right. by exists pre, sq', sym', bids', asks', post, evss, e1.
Qed.

Lemma collect_loop_spec ops e out :
  inputs_ok ops → engine_ok e →
  ∃ evss e' checks, collect_loop e out ops = Some (inr (mkCollected
      (actual_outcomes out ++ (from_match_event <$> concat evss)) (expected_outcomes out ++ omap from_trace_line ops)
      (depth_checks out ++ checks)))
    ∧ run_each e (orders_of ops) = Some (evss, e') ∧ checks_of e ops checks.
Proof.
  revert e out; induction ops as [|line ops IH]; intros e out Hok He.
  { exists [], e, []. cbn. rewrite !app_nil_r. split_and!; [by destruct out|done|]. intros k.
    split; [by intros ?%not_elem_of_nil|]. by intros ([|] & ? & ? & ? & ? & ? & ? & ? & ? & _). }
  apply Forall_cons_1 in Hok as [Hl Hok]. destruct line as [sq s|sq f1 f2 f3 f4 f5 f6 f7 f8|sq sym bids asks|sq g1 g2 g3].
  - destruct Hl as (o & Ho & Hv). destruct (on_order_inv e o He Hv) as (evs & e1 & Hev & He1).
    assert (input_order (TInput sq s) = Some o) as Hin by (cbn; by rewrite Ho).
    destruct (IH e1 (add_actual out (from_match_event <$> evs)) Hok He1) as (evss & e' & checks & Hc & Hr & Hch).
    exists (evs :: evss), e', checks. cbn [collect_loop]. rewrite Ho. cbn [mbind option_bind]. rewrite Hev. cbn [mbind option_bind].
    rewrite Hc. split_and!.
    + cbn. by rewrite fmap_app, app_assoc.
    + unfold orders_of in *. cbn [omap list_omap]. rewrite Hin. cbn. rewrite Hev. cbn. by rewrite Hr.
    + by eapply checks_of_input.
  - destruct (IH e (add_expected out [OFill f1 f2 f3 f4 f5 f6 f7 f8]) Hok He) as (evss & e' & checks & Hc & Hr & Hch).
    exists evss, e', checks. cbn [collect_loop from_trace_line option_list]. rewrite Hc. split_and!; [|done|by apply checks_of_skip].
    cbn. by rewrite <- app_assoc.
  - destruct (IH e (add_check out e sq sym bids asks) Hok He) as (evss & e' & checks & Hc & Hr & Hch).
    exists evss, e', (mkCheck sq sym bids asks (snapshot_depth e sym).1 (snapshot_depth e sym).2 :: checks).
    cbn [collect_loop]. rewrite Hc. split_and!; [|done|by apply checks_of_depth]. unfold add_check.
    destruct (snapshot_depth e sym) as [ab aa]. cbn. by rewrite <- app_assoc.
  - destruct (IH e (add_expected out [ORevoke g1 g2 g3]) Hok He) as (evss & e' & checks & Hc & Hr & Hch).
    exists evss, e', checks. cbn [collect_loop from_trace_line option_list]. rewrite Hc. split_and!; [|done|by apply checks_of_skip].
    cbn. by rewrite <- app_assoc.
Qed.

(** C39.  A golden check is exact.  A trace whose inputs are orders the engine
    accepts is replayed to the end; the comparison reports nothing exactly when
    the fill and revoke lines of the trace are, one by one and up to the way
    numbers are written, the events the engine emits for the inputs, and every
    depth line lists the best twenty levels of both sides after the inputs before
    it. *)
Theorem golden_check_exact ops :
  inputs_ok ops →
  ∃ c evss e', collect_replay ops = Some (inr c) ∧ run_each engine_new (orders_of ops) = Some (evss, e')
    ∧ (diff_replay c = [] ↔
       Forall2 outcome_agrees (omap from_trace_line ops) (from_match_event <$> concat evss)
       ∧ ∀ pre sq sym bids asks post, ops = pre ++ TDepth sq sym bids asks :: post →
           ∃ evss1 e1, run_each engine_new (orders_of pre) = Some (evss1, e1)
             ∧ Forall2 level_agrees bids (level_text <$> engine_depth_levels e1 sym Buy 20)
             ∧ Forall2 level_agrees asks (level_text <$> engine_depth_levels e1 sym Sell 20)).
Proof.
  intros Hok. destruct (collect_loop_spec ops engine_new collected_new Hok engine_new_ok) as (evss & e' & checks & Hc & Hr & Hch).
  eexists _, evss, e'. split; [exact Hc|]. split; [done|]. rewrite diff_replay_spec. cbn [collected_new actual_outcomes expected_outcomes depth_checks app].
  f_equiv. rewrite Forall_forall. split.
  - intros Hall pre sq sym bids asks post ->.
    assert (∃ evss1 e1, run_each engine_new (orders_of pre) = Some (evss1, e1)) as (evss1 & e1 & Hpre).
    { unfold inputs_ok in Hok. apply Forall_app in Hok as [Hok _].
      destruct (collect_loop_spec pre engine_new collected_new Hok engine_new_ok) as (evss1 & e1 & _ & _ & H1 & _). eauto. }
    exists evss1, e1. split; [done|].
    destruct (Hall (mkCheck sq sym bids asks (snapshot_depth e1 sym).1 (snapshot_depth e1 sym).2)) as [H1 H2]; [|done].
    apply Hch. by exists pre, sq, sym, bids, asks, post, evss1, e1.
  - intros Hall k Hk. apply Hch in Hk as (pre & sq & sym & bids & asks & post & evss1 & e1 & Heq & Hpre & ->).
    destruct (Hall pre sq sym bids asks post Heq) as (evss2 & e2 & Hpre2 & H1 & H2). rewrite Hpre in Hpre2.
    injection Hpre2 as <- <-. by split.
Qed.

(** ** Writing a trace down *)

Definition line_of_event (sq : Z) (ev : MatchEvent) : TraceLine :=
  match ev with
  | Fill _ taker_no maker_no _ _ price qty taker_rem maker_rem taker_st maker_st =>
      TFill sq taker_no maker_no price qty taker_rem maker_rem taker_st maker_st
  | Revoke order_no _ remaining reason => TRevoke sq order_no remaining reason
  end.

Definition depth_line (sq : Z) e (symbol : string) : TraceLine :=
  TDepth sq symbol (snapshot_depth e symbol).1 (snapshot_depth e symbol).2.

(** The trace of a run: each input, its events, then the depth of its symbol. *)
Fixpoint record e (inputs : list (Z * SimplifiedOrder)) : list TraceLine :=
  match inputs with
  | [] => []
  | (sq, s) :: inputs =>
      match to_bb_order sq s with
      | Some (inr o) =>
          match on_order e o with
          | Some (evs, e1) =>
              TInput sq s :: (line_of_event sq <$> evs) ++ depth_line sq e1 (symbol_key o) :: record e1 inputs
          | None => []
          end
      | _ => []
      end
  end.

Lemma collect_expected e out sq evs ops :
  collect_loop e out ((line_of_event sq <$> evs) ++ ops) = collect_loop e (add_expected out (from_match_event <$> evs)) ops.
Proof.
  revert out; induction evs as [|ev evs IH]; intros out; cbn [fmap list_fmap app].
  { unfold add_expected. rewrite app_nil_r. by destruct out. }
  destruct ev; cbn [line_of_event collect_loop from_trace_line option_list]; rewrite IH; unfold add_expected; cbn;
    by rewrite <- app_assoc.
Qed.

Lemma record_collects inputs e out :
  engine_ok e → Forall (λ si : Z * SimplifiedOrder, ∃ o, to_bb_order si.1 si.2 = Some (inr o) ∧ order_valid o) inputs →
  expected_outcomes out = actual_outcomes out → Forall check_agrees (depth_checks out) →
  ∃ c evss e', collect_loop e out (record e inputs) = Some (inr c)
    ∧ run_each e (orders_of (record e inputs)) = Some (evss, e') ∧ length evss = length inputs
    ∧ expected_outcomes c = actual_outcomes c ∧ actual_outcomes c = actual_outcomes out ++ (from_match_event <$> concat evss)
    ∧ Forall check_agrees (depth_checks c).
Proof.
  revert e out; induction inputs as [|[sq s] inputs IH]; intros e out He Hin Heq Hch.
  { exists out, [], e. cbn. rewrite app_nil_r. by split_and!. }
  apply Forall_cons_1 in Hin as [(o & Ho & Hv) Hin]. cbn [fst snd] in Ho.
  destruct (on_order_inv e o He Hv) as (evs & e1 & Hev & He1). cbn [record]. rewrite Ho, Hev.
  cbn [collect_loop]. rewrite Ho. cbn [mbind option_bind]. rewrite Hev. cbn [mbind option_bind].
  rewrite collect_expected. unfold depth_line. cbn [collect_loop].
  set (out1 := add_check _ e1 sq (symbol_key o) _ _).
  destruct (IH e1 out1 He1 Hin) as (c & evss & e' & Hc & Hr & Hlen & Hex & Hac & Hck).
  - subst out1. unfold add_check. destruct (snapshot_depth e1 (symbol_key o)). cbn. by rewrite Heq.
  - subst out1. unfold add_check. destruct (snapshot_depth e1 (symbol_key o)) as [bs az]. cbn. apply Forall_app. split; [done|].
    constructor; [|constructor]. split; cbn; apply Forall_Forall2_diag, Forall_true; intros x; split; apply values_agree_refl.
  - exists c, (evs :: evss), e'. split_and!; [exact Hc| |cbn; by rewrite Hlen|done| |done].
    + unfold orders_of in *. cbn [omap list_omap]. unfold input_order at 1. rewrite Ho. cbn [run_each]. rewrite Hev. cbn [mbind option_bind].
      assert (omap input_order ((line_of_event sq <$> evs) ++ TDepth sq (symbol_key o) (snapshot_depth e1 (symbol_key o)).1
        (snapshot_depth e1 (symbol_key o)).2 :: record e1 inputs) = omap input_order (record e1 inputs)) as ->.
      { rewrite omap_app. cbn [omap list_omap input_order]. assert (omap input_order (line_of_event sq <$> evs) = []) as ->; [|done].
        clear. induction evs as [|ev evs IH]; [done|]. by destruct ev. }
      by rewrite Hr.
    + rewrite Hac. subst out1. unfold add_check. destruct (snapshot_depth e1 (symbol_key o)). cbn.
      by rewrite fmap_app, app_assoc.
Qed.

(** Record and replay.  The trace written down from a run of the engine on
    valid orders - each input, its events, the depth of its symbol - replays
    without a difference, and its outcome lines are the events of that run. *)
Theorem golden_record_replays inputs :
  Forall (λ si : Z * SimplifiedOrder, ∃ o, to_bb_order si.1 si.2 = Some (inr o) ∧ order_valid o) inputs →
  ∃ c evss e', collect_replay (record engine_new inputs) = Some (inr c) ∧ diff_replay c = []
    ∧ run_each engine_new (orders_of (record engine_new inputs)) = Some (evss, e') ∧ length evss = length inputs
    ∧ expected_outcomes c = from_match_event <$> concat evss.
Proof.
  intros Hin. destruct (record_collects inputs engine_new collected_new engine_new_ok Hin) as (c & evss & e' & Hc & Hr & Hl & Hex & Hac & Hck);
    [done|constructor|].
  exists c, evss, e'. split_and!; [exact Hc| |done|done|by rewrite Hex, Hac].
  apply diff_replay_spec. rewrite Hex. split; [|done]. apply Forall_Forall2_diag, Forall_true. apply outcome_agrees_refl.
Qed.
End Props.

Module Witness.
Import SciDecimal.

Definition simple (ty : Z) (no price number : string) : SimplifiedOrder :=
  mkSimplified ty price number no 1 default_order_form default_symbol_key 0 None.

Definition two : list (Z * SimplifiedOrder) := [(1, simple 2 "s1" "100" "3"); (2, simple 1 "b1" "100" "2")]%string.

Lemma two_valid : Forall (λ si : Z * SimplifiedOrder, ∃ o, to_bb_order si.1 si.2 = Some (inr o) ∧ order_valid o) two.
Proof.
  repeat apply Forall_cons_2; [..|constructor]; (eexists; split; [reflexivity|]); intros _; split; vm_compute; reflexivity.
Qed.

Lemma golden_record_replays_witness :
  ∃ c evss e', collect_replay (record engine_new two) = Some (inr c) ∧ diff_replay c = []
    ∧ run_each engine_new (orders_of (record engine_new two)) = Some (evss, e') ∧ length evss = length two
    ∧ expected_outcomes c = from_match_event <$> concat evss.
Proof. exact (golden_record_replays two two_valid). Defined.

(** A hand-written trace with the numbers written another way. *)
Definition golden : list TraceLine :=
  [TInput 1 (simple 2 "s1" "100" "3"); TInput 2 (simple 1 "b1" "100" "2");
   TFill 3 "b1" "s1" " 1000E-1" "2E-0" "0" "10E-1" 1 2; TDepth 4 "btcusdt" [] [("100", "1")]]%string.

Lemma golden_inputs : inputs_ok golden.
Proof.
  repeat apply Forall_cons_2; [..|constructor]; try exact I; (eexists; split; [reflexivity|]); intros _; split; vm_compute; reflexivity.
Qed.

Lemma golden_check_exact_witness :
  ∃ c evss e', collect_replay golden = Some (inr c) ∧ run_each engine_new (orders_of golden) = Some (evss, e').
Proof.
  destruct (golden_check_exact golden golden_inputs) as (c & evss & e' & H1 & H2 & _). exists c, evss, e'.
  split; [exact H1|exact H2].
Defined.

Example golden_is_clean :
  match collect_replay golden with Some (inr c) => match diff_replay c with [] => true | _ => false end | _ => false end = true.
Proof. vm_compute. reflexivity. Qed.

(** A wrong price is named. *)
Example wrong_price_found :
  match collect_replay [TInput 1 (simple 2 "s1" "100" "3"); TInput 2 (simple 1 "b1" "100" "2");
                        TFill 3 "b1" "s1" "101" "2" "0" "1" 1 2]%string with
  | Some (inr c) => match diff_replay c with [DOutcome 0 [FPrice]] => true | _ => false end
  | _ => false end = true.
Proof. vm_compute. reflexivity. Qed.

End Witness.
