(* ===== verification/PriorityBook.v ===== *)
(** * The order book both engines promise

    An abstract limit order book in ticks and lots: each side is one list of
    entries in price-time priority.  A limit order takes from the front of the other
    side while its limit reaches, at the makers' prices, and what is left of it
    queues behind every entry of its own side that is at least as good; a revoke
    drops the entry with that number.  [CrossCore] and [CrossHp] show that
    [match-core] and [match-core-hp] both implement it. *)
From S2P Require Import Prelude.
From Stdlib Require Import Sorted.

#[local] Open Scope Z_scope.

Inductive aside := ABuy | ASell.

#[export] Instance aside_eq_dec : EqDecision aside.
Proof. solve_decision. Defined.

Definition across (t : aside) : aside := match t with ABuy => ASell | ASell => ABuy end.

Record entry := mkEntry { en_id : Z; en_tick : Z; en_lot : Z }.

Record abook := mkAbook { a_buys : list entry; a_sells : list entry }.

Definition entries (t : aside) (b : abook) : list entry := match t with ABuy => a_buys b | ASell => a_sells b end.

Definition set_entries (t : aside) (l : list entry) (b : abook) : abook :=
  match t with ABuy => mkAbook l (a_sells b) | ASell => mkAbook (a_buys b) l end.

Definition abook_new : abook := mkAbook [] [].

Inductive aevent :=
| AFill (taker maker tick lot taker_left maker_left : Z)
| ARevoked (id : Z).

(** An order of side [t] with limit [lim] accepts the tick. *)
Definition accepts (t : aside) (lim tick : Z) : bool :=
  match t with ABuy => tick <=? lim | ASell => lim <=? tick end.

(** The tick is strictly better for resting orders of side [t]. *)
Definition ahead (t : aside) (p q : Z) : bool :=
  match t with ABuy => q <? p | ASell => p <? q end.

(** Taking from the makers in front: the fills, what is left open, the makers left. *)
Fixpoint take_from (t : aside) (id lim op : Z) (makers : list entry) : list aevent * Z * list entry :=
  match makers with
  | [] => ([], op, [])
  | m :: ms =>
      if (op <=? 0) || negb (accepts t lim (en_tick m)) then ([], op, m :: ms)
      else
        let q := Z.min (en_lot m) op in
        let ev := AFill id (en_id m) (en_tick m) q (op - q) (en_lot m - q) in
        if en_lot m =? q then
          let '(evs, op', ms') := take_from t id lim (op - q) ms in (ev :: evs, op', ms')
        else ([ev], op - q, mkEntry (en_id m) (en_tick m) (en_lot m - q) :: ms)
  end.

(** Behind everything at least as good. *)
Fixpoint queue_up (t : aside) (e : entry) (l : list entry) : list entry :=
  match l with
  | [] => [e]
  | x :: l => if ahead t (en_tick e) (en_tick x) then e :: x :: l else x :: queue_up t e l
  end.

Inductive acommand := ALimit (t : aside) (id tick lot : Z) | ARevoke (t : aside) (id : Z).

Definition drop_id (id : Z) (l : list entry) : list entry := filter (λ e, en_id e ≠ id) l.

Definition has_id (id : Z) (l : list entry) : bool := existsb (λ e, en_id e =? id) l.

Definition a_step (b : abook) (c : acommand) : list aevent * abook :=
  match c with
  | ALimit t id tick lot =>
      let '(evs, op, makers) := take_from t id tick lot (entries (across t) b) in
      let own := if op =? 0 then entries t b else queue_up t (mkEntry id tick op) (entries t b) in
      (evs, set_entries t own (set_entries (across t) makers b))
  | ARevoke t id =>
      (if has_id id (entries t b) then [ARevoked id] else [], set_entries t (drop_id id (entries t b)) b)
  end.

(** A stream, with the events command by command. *)
Fixpoint a_run (b : abook) (cs : list acommand) : list (list aevent) * abook :=
  match cs with
  | [] => ([], b)
  | c :: cs => let '(evs, b) := a_step b c in let '(evss, b) := a_run b cs in (evs :: evss, b)
  end.

(** ** Facts *)

Lemma filter_keeps {A} (P : A → Prop) `{∀ x, Decision (P x)} (l : list A) : (∀ x, x ∈ l → P x) → filter P l = l.
Proof.
  intros Hl. induction l as [|x l IH]; [done|]. rewrite filter_cons_True by (apply Hl; by left). f_equal. apply IH.
  intros y Hy. apply Hl. by right.
Qed.

Lemma Forall2_elem_r {A B} (R : A → B → Prop) l k y : Forall2 R l k → y ∈ k → ∃ x, x ∈ l ∧ R x y.
Proof.
  induction 1 as [|a b l k Hab _ IH]; [by intros ?%elem_of_nil|]. intros [->|Hy]%elem_of_cons.
  - exists a. split; [by left|done].
  - destruct (IH Hy) as (x & ? & ?). exists x. split; [by right|done].
Qed.

Lemma entries_set_same t l b : entries t (set_entries t l b) = l.
Proof. by destruct t. Qed.

Lemma entries_set_across t l b : entries t (set_entries (across t) l b) = entries t b.
Proof. by destruct t. Qed.

Lemma entries_across_set t l b : entries (across t) (set_entries t l b) = entries (across t) b.
Proof. by destruct t. Qed.

Create Rewrite HintDb abookdb.
#[export] Hint Rewrite entries_set_same entries_set_across entries_across_set : abookdb.

Lemma across_across t : across (across t) = t.
Proof. by destruct t. Qed.

(** Prices from best to worst. *)
Definition price_sorted (t : aside) (l : list entry) : Prop :=
  StronglySorted (λ x y, ahead t (en_tick y) (en_tick x) = false) l.

Lemma ahead_trans t p q r : ahead t q p = false → ahead t r q = false → ahead t r p = false.
Proof. destruct t; cbn; lia. Qed.

Definition same_place (e e' : entry) : Prop := en_id e = en_id e' ∧ en_tick e = en_tick e'.

(** What is left after taking: a suffix, its head perhaps smaller. *)
Lemma take_from_left t id lim op makers :
  let '(evs, op', ms') := take_from t id lim op makers in
  ∃ l1 l2, makers = l1 ++ l2 ∧ (ms' = l2 ∨ ∃ m m' l3, l2 = m :: l3 ∧ ms' = m' :: l3 ∧ same_place m m').
Proof.
  revert op; induction makers as [|m ms IH]; intros op; cbn [take_from].
  - exists [], []. by split; [|left].
  - destruct (_ || _); [exists [], (m :: ms); by split; [|left]|].
    destruct (en_lot m =? _).
    + specialize (IH (op - Z.min (en_lot m) op)). destruct (take_from _ _ _ _ ms) as [[evs op'] l].
      destruct IH as (l1 & l2 & -> & Hl). by exists (m :: l1), l2.
    + exists [], (m :: ms). split; [done|]. right. eexists _, _, ms. split_and!; [done|done|]. by split.
Qed.

Lemma take_from_done t id lim makers : take_from t id lim 0 makers = ([], 0, makers).
Proof. by destruct makers. Qed.

(** The place an entry queues up at. *)
Lemma queue_up_place t e l1 l2 :
  Forall (λ x, ahead t (en_tick e) (en_tick x) = false) l1 →
  Forall (λ x, ahead t (en_tick e) (en_tick x) = true) l2 →
  queue_up t e (l1 ++ l2) = l1 ++ e :: l2.
Proof.
  intros H1 H2. induction H1 as [|x l1 Hx _ IH]; cbn; [|by rewrite Hx, IH].
  destruct H2 as [|x l2 Hx _]; cbn; [done|]. by rewrite Hx.
Qed.

Lemma has_id_true id l : has_id id l = true ↔ ∃ e, e ∈ l ∧ en_id e = id.
Proof.
  unfold has_id. rewrite existsb_exists. setoid_rewrite list_elem_of_In. by setoid_rewrite Z.eqb_eq.
Qed.

Lemma drop_id_absent id l : has_id id l = false → drop_id id l = l.
Proof.
  unfold drop_id, has_id. induction l as [|e l IH]; [done|]. cbn [existsb]. intros [He Hl]%orb_false_iff.
  rewrite filter_cons_True by lia. by rewrite IH.
Qed.

Lemma drop_id_middle id l1 e l2 :
  NoDup (en_id <$> l1 ++ e :: l2) → en_id e = id → drop_id id (l1 ++ e :: l2) = l1 ++ l2 ∧ has_id id (l1 ++ e :: l2) = true.
Proof.
  intros Hnd He. split; [|apply has_id_true; exists e; set_solver]. rewrite fmap_app, fmap_cons in Hnd.
  apply NoDup_app in Hnd as (_ & Hd & [Hn _]%NoDup_cons). unfold drop_id. rewrite filter_app, filter_cons_False by lia.
  rewrite !filter_keeps; [done| |].
  - intros x Hx Heq. apply Hn. rewrite He, <- Heq. by apply list_elem_of_fmap_2.
  - intros x Hx Heq. apply (Hd (en_id x)); [by apply list_elem_of_fmap_2|]. rewrite Heq, <- He. by left.
Qed.

Lemma price_sorted_cons t x l :
  price_sorted t (x :: l) ↔ price_sorted t l ∧ Forall (λ y, ahead t (en_tick y) (en_tick x) = false) l.
Proof. split; [by intros ?%StronglySorted_inv|by intros [??]; constructor]. Qed.

(** Queueing up keeps the prices sorted, and is last among its own price. *)
Lemma queue_up_elem t e l x : x ∈ queue_up t e l ↔ x = e ∨ x ∈ l.
Proof. induction l as [|y l IH]; cbn; [set_solver|]. destruct (ahead _ _ _); set_solver. Qed.

Lemma queue_up_sorted t e l : price_sorted t l → price_sorted t (queue_up t e l).
Proof.
  induction l as [|x l IH]; intros Hs; cbn; [by repeat constructor|]. apply price_sorted_cons in Hs as [Hs Hx].
  destruct (ahead t (en_tick e) (en_tick x)) eqn:Ea; apply price_sorted_cons; split.
  - apply price_sorted_cons; by split.
  - assert (ahead t (en_tick x) (en_tick e) = false) as He by (destruct t; cbn in *; lia).
    constructor; [done|]. eapply Forall_impl; [exact Hx|]. cbn. intros y Hy. by eapply ahead_trans.
  - by apply IH.
  - apply Forall_forall. intros y [->|Hy]%queue_up_elem; [done|]. rewrite Forall_forall in Hx. by apply Hx.
Qed.

(** The entries at one tick, in time priority. *)
Definition at_tick (tick : Z) (l : list entry) : list entry := filter (λ e, en_tick e = tick) l.

Lemma at_tick_cons tick e l : at_tick tick (e :: l) = if decide (en_tick e = tick) then e :: at_tick tick l else at_tick tick l.
Proof. unfold at_tick. by rewrite filter_cons. Qed.

Lemma at_tick_elem tick l e : e ∈ at_tick tick l ↔ en_tick e = tick ∧ e ∈ l.
Proof. unfold at_tick. by rewrite list_elem_of_filter. Qed.

Lemma at_tick_queue_up t e l tick :
  price_sorted t l → at_tick tick (queue_up t e l) = at_tick tick l ++ (if decide (en_tick e = tick) then [e] else []).
Proof.
  induction l as [|x l IH]; intros Hs; cbn [queue_up]; [by rewrite at_tick_cons|]. apply price_sorted_cons in Hs as [Hs Hx].
  destruct (ahead t (en_tick e) (en_tick x)) eqn:Ea.
  - rewrite (at_tick_cons tick e). case_decide as Hd; [|by rewrite app_nil_r].
    assert (at_tick tick (x :: l) = []) as ->; [|done]. destruct (at_tick tick (x :: l)) as [|y k] eqn:Ek; [done|exfalso].
    assert (y ∈ at_tick tick (x :: l)) as [Hy Hin]%at_tick_elem by (rewrite Ek; by left).
    apply elem_of_cons in Hin as [->|Hin]; [destruct t; cbn in *; lia|].
    rewrite Forall_forall in Hx. specialize (Hx y Hin). destruct t; cbn in *; lia.
  - rewrite !at_tick_cons, IH by done. by destruct (decide (en_tick x = tick)).
Qed.

Lemma drop_id_sorted t id l : price_sorted t l → price_sorted t (drop_id id l).
Proof.
  unfold drop_id. induction l as [|x l IH]; intros Hs; [done|]. apply price_sorted_cons in Hs as [Hs Hx]. rewrite filter_cons.
  case_decide; [|by apply IH]. apply price_sorted_cons. split; [by apply IH|]. apply Forall_forall. intros y [_ Hy]%list_elem_of_filter.
  rewrite Forall_forall in Hx. by apply Hx.
Qed.

Lemma at_tick_drop id tick l : at_tick tick (drop_id id l) = drop_id id (at_tick tick l).
Proof. unfold at_tick, drop_id. rewrite !list_filter_filter. apply list_filter_iff. tauto. Qed.

(** ** Streams in which a number names one order *)

(** [seen] are the numbers used so far with their sides; a revoke names the side. *)
Inductive a_stream : list (Z * aside) → list acommand → Prop :=
| as_end seen : a_stream seen []
| as_limit seen t id tick lot cs :
    id ∉ seen.*1 → a_stream ((id, t) :: seen) cs → a_stream seen (ALimit t id tick lot :: cs)
| as_revoke seen t id cs :
    (∀ t', (id, t') ∈ seen → t' = t) → a_stream seen cs → a_stream seen (ARevoke t id :: cs).

Definition seen_after (c : acommand) (seen : list (Z * aside)) : list (Z * aside) :=
  match c with ALimit t id _ _ => (id, t) :: seen | ARevoke _ _ => seen end.

Definition abook_ok (seen : list (Z * aside)) (ab : abook) : Prop :=
  NoDup seen.*1 ∧ ∀ t, NoDup (en_id <$> entries t ab) ∧ ∀ e, e ∈ entries t ab → (en_id e, t) ∈ seen.

Lemma take_from_sub t id lim op makers :
  let ms' := (take_from t id lim op makers).2 in
  (NoDup (en_id <$> makers) → NoDup (en_id <$> ms')) ∧ ∀ e, e ∈ ms' → ∃ e0, e0 ∈ makers ∧ same_place e0 e.
Proof.
  pose proof (take_from_left t id lim op makers) as Hl. destruct (take_from t id lim op makers) as [[evs op'] ms']. cbn.
  destruct Hl as (l1 & l2 & -> & [->|(m & m' & l3 & -> & -> & Hp)]); rewrite fmap_app.
  - split; [by intros (_ & _ & ?)%NoDup_app|]. intros e He. exists e. split; [set_solver|done].
  - split.
    + intros (_ & _ & Hnd)%NoDup_app. rewrite fmap_cons in *. by rewrite <- (proj1 Hp).
    + intros e [->|He]%elem_of_cons; [exists m; split; [set_solver|done]|exists e; split; [set_solver|done]].
Qed.

Lemma queue_up_ids t e l : NoDup (en_id <$> e :: l) → NoDup (en_id <$> queue_up t e l).
Proof.
  assert (en_id <$> queue_up t e l ≡ₚ en_id <$> e :: l) as ->; [|done]. apply fmap_Permutation.
  induction l as [|x l IH]; cbn; [done|]. destruct (ahead _ _ _); [done|]. rewrite IH. by apply Permutation_swap.
Qed.

Lemma a_step_ok seen ab c cs :
  abook_ok seen ab → a_stream seen (c :: cs) → abook_ok (seen_after c seen) (a_step ab c).2 ∧ a_stream (seen_after c seen) cs.
Proof.
  intros [Hnd Hab] Hs. inversion Hs as [|? t id tick lot ? Hid Hrest|? t id ? Hside Hrest]; subst; cbn [seen_after]; (split; [|done]).
  - split; [by constructor|]. cbn [a_step].
    pose proof (take_from_sub t id tick lot (entries (across t) ab)) as [Hsub Hin].
    destruct (take_from t id tick lot _) as [[aevs op] ms]. cbn [fst snd] in *. intros t'.
    destruct (decide (t' = across t)) as [->|Hne].
    + rewrite entries_across_set. replace (entries (across t) (set_entries (across t) ms ab)) with ms by (by destruct t).
      destruct (Hab (across t)) as [Hn Hs']. split; [by apply Hsub|]. intros e (e0 & He0 & Hp & _)%Hin. rewrite <- Hp. right. by apply Hs'.
    + assert (t' = t) as -> by (by destruct t, t'). rewrite entries_set_same. destruct (Hab t) as [Hn Hs'].
      destruct (op =? 0); [split; [done|]; intros e He; right; by apply Hs'|]. split.
      * apply queue_up_ids. rewrite fmap_cons. constructor; [|done]. cbn. intros (e & -> & He)%list_elem_of_fmap. apply Hid.
        apply list_elem_of_fmap. eexists. split; [|by apply Hs']. done.
      * intros e [->|He]%queue_up_elem; [by left|right; by apply Hs'].
  - split; [done|]. intros t'. destruct (Hab t') as [Hn Hs']. cbn [a_step snd]. destruct (decide (t' = t)) as [->|Hne].
    + rewrite entries_set_same. unfold drop_id. split; [|intros e [_ He]%list_elem_of_filter; by apply Hs'].
      clear Hs'. induction (entries t ab) as [|x l IH]; [done|]. rewrite fmap_cons in Hn. apply NoDup_cons in Hn as [Hx Hn].
      rewrite filter_cons. case_decide; [|by apply IH]. rewrite fmap_cons. apply NoDup_cons. split; [|by apply IH].
      intros (y & Hy & [_ Hl]%list_elem_of_filter)%list_elem_of_fmap. apply Hx. rewrite Hy. by apply list_elem_of_fmap_2.
    + assert (entries t' (set_entries t (drop_id id (entries t ab)) ab) = entries t' ab) as -> by (by destruct t, t'). by split.
Qed.

(** ** Counting fills *)

Definition is_fill (a : aevent) : bool := match a with AFill _ _ _ _ _ _ => true | ARevoked _ => false end.

Definition a_fills (evss : list (list aevent)) : nat := length (List.filter is_fill (concat evss)).

Lemma a_fills_cons evs evss : a_fills (evs :: evss) = (length (List.filter is_fill evs) + a_fills evss)%nat.
Proof. unfold a_fills. cbn [concat]. by rewrite List.filter_app, length_app. Qed.

Lemma a_fills_app l1 l2 : a_fills (l1 ++ l2) = (a_fills l1 + a_fills l2)%nat.
Proof. unfold a_fills. by rewrite concat_app, List.filter_app, length_app. Qed.

Lemma a_run_app ab cs1 cs2 :
  a_run ab (cs1 ++ cs2) = ((a_run ab cs1).1 ++ (a_run (a_run ab cs1).2 cs2).1, (a_run (a_run ab cs1).2 cs2).2).
Proof.
  revert ab; induction cs1 as [|c cs1 IH]; intros ab; cbn [a_run app]; [cbn; by destruct (a_run ab cs2)|].
  destruct (a_step ab c) as [evs ab1]. rewrite IH. by destruct (a_run ab1 cs1) as [evss ab2].
Qed.

(** Nothing within reach: nothing is taken. *)
Lemma take_from_none t id lim op makers :
  Forall (λ m, accepts t lim (en_tick m) = false) makers → take_from t id lim op makers = ([], op, makers).
Proof. intros [|m ms Hm _]; cbn [take_from]; [done|]. rewrite Hm. by rewrite orb_true_r. Qed.

(** An order for [k] lots against makers of one lot each. *)
Lemma take_from_lots t id lim L k : ∀ makers,
  0 < L → Forall (λ m, en_lot m = L ∧ accepts t lim (en_tick m) = true) makers →
  let '(evs, op, ms) := take_from t id lim (Z.of_nat k * L) makers in
  length (List.filter is_fill evs) = Nat.min k (length makers) ∧ ms = drop k makers ∧ op = Z.of_nat (k - length makers) * L.
Proof.
  induction k as [|k IH]; intros makers HL Hm.
  - rewrite Z.mul_0_l, take_from_done. cbn. split_and!; [done|by rewrite drop_0|lia].
  - destruct Hm as [|m ms [Hlot Hacc] Hms]; cbn [take_from].
    + cbn. split_and!; [lia|done|lia].
    + rewrite (proj2 (Z.leb_gt _ 0)) by nia. rewrite Hacc, Hlot. cbn [negb orb].
      replace (Z.min L (Z.of_nat (S k) * L)) with L by nia. rewrite Z.eqb_refl.
      replace (Z.of_nat (S k) * L - L) with (Z.of_nat k * L) by lia.
      specialize (IH ms HL Hms). destruct (take_from t id lim (Z.of_nat k * L) ms) as [[evs op] ms']. destruct IH as (H1 & H2 & H3).
      cbn [List.filter is_fill length drop]. split_and!; [lia|done|]. rewrite H3. cbn. lia.
Qed.

Lemma queue_up_length t e l : length (queue_up t e l) = S (length l).
Proof. induction l as [|x l IH]; cbn; [done|]. destruct (ahead _ _ _); cbn; by rewrite ?IH. Qed.

(** Orders that reach nothing rest. *)
Lemma a_run_rests t (P : entry → Prop) cs : ∀ ab,
  (∀ c, c ∈ cs → ∃ id tick lot, c = ALimit t id tick lot ∧ 0 < lot ∧ P (mkEntry id tick lot)
     ∧ Forall (λ m, accepts t tick (en_tick m) = false) (entries (across t) ab)) →
  Forall P (entries t ab) →
  let '(evss, ab') := a_run ab cs in
  a_fills evss = 0%nat ∧ entries (across t) ab' = entries (across t) ab ∧ Forall P (entries t ab')
  ∧ length (entries t ab') = (length (entries t ab) + length cs)%nat.
Proof.
  induction cs as [|c cs IH]; intros ab Hcs Hown; cbn [a_run].
  - split_and!; [done|done|done|cbn; lia].
  - destruct (Hcs c ltac:(by left)) as (id & tick & lot & -> & Hlot & HP & Hno). cbn [a_step].
    rewrite take_from_none by done. rewrite (proj2 (Z.eqb_neq lot 0)) by lia.
    set (ab1 := set_entries t _ _).
    assert (entries (across t) ab1 = entries (across t) ab) as Ho by (subst ab1; by destruct t).
    assert (entries t ab1 = queue_up t (mkEntry id tick lot) (entries t ab)) as Ht by (subst ab1; by rewrite entries_set_same).
    specialize (IH ab1). rewrite Ho, Ht in IH. destruct (a_run ab1 cs) as [evss ab'].
    destruct IH as (H1 & H2 & H3 & H4).
    + intros c Hc. apply Hcs. by right.
    + apply Forall_forall. intros x [->|Hx]%queue_up_elem; [done|]. rewrite Forall_forall in Hown. by apply Hown.
    + rewrite a_fills_cons. split_and!; [done|done|done|]. rewrite H4, queue_up_length. cbn. lia.
Qed.

(** Orders for [k] lots each, against makers of one lot each, fill until the makers are gone. *)
Lemma a_run_takes t lim L k cs : ∀ ab,
  (∀ c, c ∈ cs → ∃ id, c = ALimit t id lim (Z.of_nat k * L)) → 0 < L →
  Forall (λ m, en_lot m = L ∧ accepts t lim (en_tick m) = true) (entries (across t) ab) →
  a_fills (a_run ab cs).1 = Nat.min (length cs * k) (length (entries (across t) ab)).
Proof.
  induction cs as [|c cs IH]; intros ab Hcs HL Hm; cbn [a_run]; [done|].
  destruct (Hcs c ltac:(by left)) as (id & ->). cbn [a_step]. pose proof (take_from_lots t id lim L k _ HL Hm) as Htake.
  destruct (take_from t id lim _ _) as [[evs op] ms]. destruct Htake as (H1 & -> & _). set (ab1 := set_entries t _ _).
  assert (entries (across t) ab1 = drop k (entries (across t) ab)) as Ho by (subst ab1; by destruct t).
  specialize (IH ab1 ltac:(intros c Hc; apply Hcs; by right) HL). rewrite Ho in IH. specialize (IH ltac:(by apply Forall_drop)).
  destruct (a_run ab1 cs) as [evss ab2]. cbn [fst] in *. rewrite a_fills_cons, H1, IH, length_drop. cbn [length]. nia.
Qed.

(** Limit orders under distinct numbers. *)
Lemma a_stream_limits seen cs :
  (∀ c, c ∈ cs → ∃ t id tick lot, c = ALimit t id tick lot) →
  NoDup (omap (λ c, match c with ALimit _ id _ _ => Some id | ARevoke _ _ => None end) cs ++ seen.*1) → a_stream seen cs.
Proof.
  revert seen; induction cs as [|c cs IH]; intros seen Hcs Hnd; [constructor|].
  destruct (Hcs c ltac:(by left)) as (t & id & tick & lot & ->). cbn in Hnd. apply NoDup_cons in Hnd as [Hid Hnd].
  rewrite elem_of_app in Hid. constructor; [tauto|]. apply IH; [intros c Hc; apply Hcs; by right|]. cbn.
  rewrite <- Permutation_middle. constructor; [|done]. by rewrite elem_of_app.
Qed.
