(* ===== verification/PlainDecimal.v ===== *)
(** * Decimals in plain notation

    What the engines rely on of the texts of [bigdecimal]: [PlainText] says that a
    [Display] text of digits and a point writes the number, [PlainParse] that
    [FromStr] reads such a text as that number.  [Module WholeDecimal] is an
    implementation that has both. *)
From S2P Require Import Prelude Decimal HpScale Adapter.
From Stdlib Require Import QArith.

#[local] Open Scope Z_scope.

(** [10 ^ -k] *)
Definition unit (k : Z) : Q := 1 # Z.to_pos (10 ^ k).

Lemma unit_pos k : (0 < unit k)%Q.
Proof. done. Qed.

(** A plain [Display] text writes the number the decimal denotes. *)
Class PlainText `{BDS : BigDecimalSpec} : Prop :=
  plain_text_value : ∀ d g I f, plain d g I f →
    (⟦d⟧ == inject_Z (signed g (HpScale.num (I ++ frac f))) * unit (Z.of_nat (length (frac f))))%Q.

(** [FromStr] reads a plain text as the number it writes. *)
Class PlainParse `{BDS : BigDecimalSpec} : Prop :=
  plain_parse_value : ∀ I f, all_digits I → I ≠ [] → all_digits (frac f) →
    ∃ d, bd_from_str (String.string_of_list_ascii (I ++ point_chars f)) = Some d
      ∧ (⟦d⟧ == inject_Z (HpScale.num (I ++ frac f)) * unit (Z.of_nat (length (frac f))))%Q.

Module WholeDecimal.

(** The decimals of [SciDecimal], whole numbers below [2 ^ 63] printed plainly. *)
Definition print (d : SciDecimal.dec) : string :=
  if (SciDecimal.scale d =? 0)%nat && (0 <=? SciDecimal.mant d) && (SciDecimal.mant d <? 2 ^ 63)
  then String.string_of_list_ascii (u64_to_string (SciDecimal.mant d)) else SciDecimal.print d.

(** Digits, perhaps a point and digits. *)
Definition parse (s : string) : option SciDecimal.dec :=
  let cs := String.list_ascii_of_string s in
  let '(ip, fp) := match split_once DOT cs with Some p => p | None => (cs, []) end in
  if forallb is_ascii_digit ip && negb (bool_decide (ip = [])) && forallb is_ascii_digit fp
  then Some (SciDecimal.Dec (HpScale.num (ip ++ fp)) (length fp)) else SciDecimal.parse s.

#[export] Instance whole_decimal : BigDecimal := {|
  bd := SciDecimal.dec; bd_zero := SciDecimal.Dec 0 0; bd_from z := SciDecimal.Dec z 0;
  bd_add := SciDecimal.add; bd_sub := SciDecimal.sub; bd_mul := SciDecimal.mul; bd_div := SciDecimal.div;
  bd_cmp := SciDecimal.cmp; bd_round_half_down := SciDecimal.round_half_down; bd_normalized := SciDecimal.normalized;
  bd_to_string := print; bd_from_str := parse |}.

Lemma sci_not_digit d : ∃ c, c ∈ String.list_ascii_of_string (SciDecimal.print d) ∧ c = "E"%char.
Proof.
  unfold SciDecimal.print. exists "E"%char. split; [|done].
  assert (∀ a b, String.list_ascii_of_string (a +:+ b) = String.list_ascii_of_string a ++ String.list_ascii_of_string b) as Happ.
  { intros a b. induction a as [|c a IH]; [done|]. cbn. by rewrite <- IH. }
  rewrite !Happ. set_solver.
Qed.

Lemma print_cases d :
  (SciDecimal.scale d = 0%nat ∧ 0 <= SciDecimal.mant d < 2 ^ 63
   ∧ String.list_ascii_of_string (print d) = u64_to_string (SciDecimal.mant d))
  ∨ print d = SciDecimal.print d.
Proof.
  unfold print. destruct ((SciDecimal.scale d =? 0)%nat && _ && _) eqn:E; [left|by right].
  apply andb_prop in E as [[E1 E2]%andb_prop E3]. rewrite String.list_ascii_of_string_of_list_ascii.
  apply Nat.eqb_eq in E1. split_and!; [done|lia|lia|done].
Qed.

Lemma split_once_elem c s a b : split_once c s = Some (a, b) → s = a ++ c :: b.
Proof.
  revert a b; induction s as [|x s IH]; intros a b; cbn [split_once]; [done|].
  destruct (Ascii.eqb_spec x c) as [->|]; [by intros [= <- <-]|]. destruct (split_once c s) as [[u v]|]; [|done].
  intros [= <- <-]. cbn. by rewrite (IH u v).
Qed.

Lemma pow10_pow k : Zpos (SciDecimal.pow10 k) = 10 ^ Z.of_nat k.
Proof. induction k as [|k IH]; [done|]. cbn [SciDecimal.pow10]. rewrite Pos2Z.inj_mul, IH, Nat2Z.inj_succ, Z.pow_succ_r by lia. done. Qed.

Lemma parse_plain_digits I f :
  all_digits I → I ≠ [] → all_digits (frac f) →
  parse (String.string_of_list_ascii (I ++ point_chars f)) = Some (SciDecimal.Dec (HpScale.num (I ++ frac f)) (length (frac f))).
Proof.
  intros HI Hne Hf. unfold parse. rewrite String.list_ascii_of_string_of_list_ascii.
  assert (match split_once DOT (I ++ point_chars f) with Some p => p | None => (I ++ point_chars f, []) end = (I, frac f)) as ->.
  { destruct f as [F|]; cbn [point_chars]; [by rewrite split_once_point|]. by rewrite app_nil_r, split_once_digits. }
  by rewrite (all_digits_forallb _ HI), (all_digits_forallb _ Hf), bool_decide_eq_false_2.
Qed.

Lemma parse_plain_print d : ∃ d', parse (print d) = Some d' ∧ (SciDecimal.value d' == SciDecimal.value d)%Q.
Proof.
  destruct (print_cases d) as [(Hs & Hm & Ht)|Hp].
  - destruct (u64_to_string_spec (SciDecimal.mant d) ltac:(lia)) as (Hd & Hn & Hne & _).
    assert (print d = String.string_of_list_ascii (u64_to_string (SciDecimal.mant d) ++ point_chars None)) as ->.
    { cbn [point_chars]. by rewrite app_nil_r, <- Ht, String.string_of_list_ascii_of_string. }
    rewrite parse_plain_digits by (done || constructor). eexists. split; [reflexivity|].
    change (frac None) with (@nil ascii). rewrite app_nil_r, Hn. destruct d as [m sc]. cbn in *. by subst.
  - rewrite Hp. exists d. split; [|done]. unfold parse. destruct (sci_not_digit d) as (c & Hc & ->).
    destruct (match split_once _ _ with Some p => p | None => _ end) as [ip fp] eqn:Esp. destruct (_ && _ && _) eqn:Ef; [exfalso|apply SciDecimal.parse_print].
    apply andb_prop in Ef as [[Ei _]%andb_prop Ef]. rewrite forallb_forall in Ei, Ef. setoid_rewrite <- list_elem_of_In in Ei. setoid_rewrite <- list_elem_of_In in Ef.
    destruct (split_once DOT _) as [[u v]|] eqn:Es; injection Esp as <- <-.
    + apply split_once_elem in Es. rewrite Es in Hc. apply elem_of_app in Hc as [Hc|[Hc|Hc]%elem_of_cons]; [by apply Ei in Hc|done|by apply Ef in Hc].
    + by apply Ei in Hc.
Qed.

#[export] Instance whole_spec : BigDecimalSpec.
Proof.
  refine {| bd_val := SciDecimal.value : bd → Q |}; cbn.
  - done.
  - intros z. unfold SciDecimal.value, Qeq. cbn. lia.
  - apply SciDecimal.value_add.
  - apply SciDecimal.value_sub.
  - apply SciDecimal.cmp_value.
  - intros a. destruct (parse_plain_print (SciDecimal.normalized a)) as (d' & Hp & Hv). exists d'. split; [done|].
    rewrite Hv. apply SciDecimal.value_strip.
Defined.

Lemma whole_plain : PlainText.
Proof.
  intros d g I f (Ht & HI & Hne & Hf). unfold decimal_text in Ht. cbn in Ht. set (d' := SciDecimal.normalized d) in *.
  assert (SciDecimal.value d == SciDecimal.value d')%Q as Hv by (symmetry; apply SciDecimal.value_strip). cbn [bd_val whole_spec]. rewrite Hv.
  assert (∀ c, c ∈ sign_chars g ++ I ++ point_chars f → is_ascii_digit c = true ∨ c = PLUS ∨ c = MINUS ∨ c = DOT) as Hch.
  { intros c. rewrite !elem_of_app. unfold all_digits in *. rewrite Forall_forall in HI, Hf.
    destruct g, f as [fs|]; cbn; set_solver. }
  destruct (print_cases d') as [(Hs & Hm & Hp)|Hp].
  - rewrite Hp in Ht. destruct (u64_to_string_spec (SciDecimal.mant d') ltac:(lia)) as (Hd & Hn & _ & _).
    rewrite Ht in Hd, Hn. apply Forall_app in Hd as [Hg [_ Hd]%Forall_app].
    destruct g; cbn [sign_chars app] in Hg, Hn; [|by apply Forall_cons in Hg as [? _]..].
    destruct f as [fs|]; cbn [point_chars] in Hd, Hn; [by apply Forall_cons in Hd as [? _]|].
    change (frac None) with (@nil ascii). cbn [signed]. rewrite Hn. unfold SciDecimal.value. rewrite Hs. unfold Qeq. cbn. lia.
  - exfalso. rewrite Hp in Ht. destruct (sci_not_digit d') as (c & Hc & ->). rewrite Ht in Hc. destruct (Hch _ Hc) as [?|[?|[?|?]]]; done.
Qed.

Lemma whole_parse : PlainParse.
Proof.
  intros I f HI Hne Hf. eexists. split; [by apply parse_plain_digits|]. cbn [bd_val whole_spec]. unfold SciDecimal.value, unit. cbn [SciDecimal.mant SciDecimal.scale].
  unfold Qeq, Qmult, inject_Z. cbn [Qnum Qden]. rewrite Pos.mul_1_l, Z.mul_1_r, pow10_pow, Z2Pos.id by (apply Z.pow_pos_nonneg; lia). done.
Qed.

End WholeDecimal.
