(* ===== verification/CrossCore.v ===== *)
(** * match-core implements the priority book

    A stream of limit orders and revokes for one symbol, in decimals that are whole
    ticks and lots: every order does to the books of [match-core] and reports what
    the abstract command does to the priority book of [PriorityBook].  [order_id] reads
    the number an order goes by in the priority book from its own. *)
From stdpp Require Import gmap.
From S2P Require Import Prelude Decimal Protocol CoreBook CoreMatch CoreSpec CoreLimit CoreHeight CoreMarket CoreEngine PriorityBook.
From Stdlib Require Import QArith Lqa Qminmax Sorted.

#[local] Open Scope Z_scope.

(** ** Decimals as multiples of a unit *)

Lemma unit_lt w a b : (0 < w)%Q → (inject_Z a * w < inject_Z b * w)%Q ↔ a < b.
Proof. intros Hw. rewrite Qmult_lt_r by done. by rewrite Zlt_Qlt. Qed.

Lemma unit_le w a b : (0 < w)%Q → (inject_Z a * w <= inject_Z b * w)%Q ↔ a <= b.
Proof. intros Hw. rewrite Qmult_le_r by done. by rewrite Zle_Qle. Qed.

Lemma unit_eq w a b : (0 < w)%Q → (inject_Z a * w == inject_Z b * w)%Q ↔ a = b.
Proof. intros Hw. rewrite Qmult_inj_r by lra. rewrite inject_Z_injective. done. Qed.

Definition side_of (t : aside) : Side := match t with ABuy => Buy | ASell => Sell end.

Lemma side_of_across t : side_of (across t) = opposite (side_of t).
Proof. by destruct t. Qed.

Section Cross.
Context `{BDS : BigDecimalSpec} (order_id : string → option Z) (wp wq : Q) (Hwp : (0 < wp)%Q) (Hwq : (0 < wq)%Q).
Implicit Types (o tk mk : BbOrder) (book : OrderBook) (ev : MatchEvent) (t : aside) (en : entry) (ab : abook).

(** The decimal is [z] units. *)
Definition worth (w : Q) (d : bd) (z : Z) : Prop := (⟦d⟧ == inject_Z z * w)%Q.

Definition text_worth (w : Q) (s : string) (z : Z) : Prop := ∃ d, bd_from_str s = Some d ∧ worth w d z.

Definition core_entry o en : Prop :=
  order_id (trust_order_no o) = Some (en_id en) ∧ worth wp (trust_price o) (en_tick en) ∧ worth wq (remaining o) (en_lot en).

Definition core_event ev (a : aevent) : Prop :=
  match ev, a with
  | Fill _ taker_no maker_no _ _ price qty taker_rem maker_rem _ _, AFill taker maker tick lot taker_left maker_left =>
      order_id taker_no = Some taker ∧ order_id maker_no = Some maker ∧ text_worth wp price tick
      ∧ text_worth wq qty lot ∧ text_worth wq taker_rem taker_left ∧ text_worth wq maker_rem maker_left
  | Revoke no _ _ _, ARevoked id => order_id no = Some id
  | _, _ => False
  end.

Lemma dec_str_worth w d z : worth w d z → text_worth w (dec_str d) z.
Proof. intros Hd. destruct (bd_print_parse d) as (d' & Hp & Hv). exists d'. split; [done|]. unfold worth in *. by rewrite Hv. Qed.

(** ** One fill *)

Lemma fill_event_of tk mk ent enm q z ev :
  core_entry tk ent → core_entry mk enm → worth wq q z → fill_of tk mk q ev →
  core_event ev (AFill (en_id ent) (en_id enm) (en_tick enm) z (en_lot ent - z) (en_lot enm - z)).
Proof.
  intros (Ht & _ & Htr) (Hm & Hmp & Hmr) Hq (tr & mr & ts & ms & -> & H1 & H2). cbn.
  unfold worth in *. split_and!; [done|done|by apply dec_str_worth..| |]; apply dec_str_worth; unfold worth;
    rewrite ?H1, ?H2, ?Htr, ?Hmr, Hq; unfold Z.sub; rewrite inject_Z_plus, inject_Z_opp; ring.
Qed.

Lemma leftover_entry q z o rest en :
  core_entry o en → worth wq q z → leftover q o rest →
  match rest with
  | Some o' => core_entry o' (mkEntry (en_id en) (en_tick en) (en_lot en - z)) ∧ same_order o o' ∧ z < en_lot en
  | None => z = en_lot en
  end.
Proof.
  intros (Hi & Hp & Hr) Hq. unfold worth in *. destruct rest as [o'|]; cbn.
  - intros [(Hs & Hrem & _) Hlt]. split_and!; [|done|].
    + destruct Hs as (Hn & _ & Hpr & _). split_and!; cbn; [by rewrite <- Hn|unfold worth; by rewrite <- Hpr|].
      unfold worth. rewrite Hrem, Hr, Hq. unfold Z.sub. rewrite inject_Z_plus, inject_Z_opp. ring.
    + rewrite Hq, Hr in Hlt. by apply unit_lt in Hlt.
  - rewrite Hr, Hq. intros Heq%unit_eq; [|done]. done.
Qed.

Lemma min_worth q tk mk ent enm :
  core_entry tk ent → core_entry mk enm → (⟦q⟧ == Qmin ⟦remaining tk⟧ ⟦remaining mk⟧)%Q →
  worth wq q (Z.min (en_lot enm) (en_lot ent)).
Proof.
  intros (_ & _ & Ht) (_ & _ & Hm) Hq. unfold worth in *. rewrite Hq, Ht, Hm.
  destruct (Z.le_gt_cases (en_lot ent) (en_lot enm)) as [Hle|Hgt].
  - rewrite Z.min_r by done. apply Q.min_l. by apply unit_le.
  - rewrite Z.min_l by lia. apply Q.min_r. apply unit_le; [done|lia].
Qed.

Lemma reaches_accepts t tk mk ent enm :
  core_entry tk ent → core_entry mk enm → reaches (side_of t) tk mk ↔ accepts t (en_tick ent) (en_tick enm) = true.
Proof.
  intros (_ & Ht & _) (_ & Hm & _). unfold worth in *. destruct t; cbn; unfold crosses; rewrite Ht, Hm, unit_le by done; lia.
Qed.

(** ** A run of fills *)

Lemma trades_taker_inv s book tk own evs book' :
  trades s crosses book evs book' → orders s book = tk :: own →
  (evs = [] ∧ book' = book)
  ∨ ∃ mk ms ev evs' tr mr q,
      orders (opposite s) book = mk :: ms ∧ reaches s tk mk
      ∧ (⟦q⟧ == Qmin ⟦remaining tk⟧ ⟦remaining mk⟧)%Q ∧ leftover q tk tr ∧ leftover q mk mr
      ∧ (tr = None ∨ mr = None) ∧ fill_of tk mk q ev ∧ evs = ev :: evs'
      ∧ trades s crosses (with_orders s (option_list tr ++ own)
                            (with_orders (opposite s) (option_list mr ++ ms) book)) evs' book'.
Proof.
  intros [bk|b sl bs ss ev evs' b1 b2 Hg Htr Hts] Ho; [by left|]. right.
  inversion Htr as [? ? ? ? br sr q ? Hq Hb Hs Hn Hf]; subst. destruct s; cbn in Ho; injection Ho as <- <-.
  - by exists sl, ss, ev, evs', br, sr, q.
  - exists b, bs, ev, evs', sr, br, q. split_and!; try done; [by rewrite Q.min_comm|tauto].
Qed.

(** Nothing of [own] reaches a maker. *)
Definition keeps_off (s : Side) (own makers : list BbOrder) : Prop :=
  ∀ x y, x ∈ own → y ∈ makers → ¬ reaches s x y.

Lemma trades_idle s book evs book' :
  keeps_off s (orders s book) (orders (opposite s) book) → trades s crosses book evs book' → evs = [] ∧ book' = book.
Proof.
  intros Hk Hts. destruct (orders s book) as [|x own] eqn:Ho.
  - destruct Hts as [bk|b sl bs ss ev evs' b1 b2 _ _ _]; [done|]. by destruct s.
  - destruct (trades_taker_inv _ _ _ _ _ _ Hts Ho) as [?|(mk & ms & ev & evs' & tr & mr & q & Hm & Hr & _)]; [done|].
    exfalso. apply (Hk x mk); [by left|rewrite Hm; by left|done].
Qed.

Lemma keeps_off_replace s own mk mk' ms :
  same_order mk mk' → keeps_off s own (mk :: ms) → keeps_off s own (mk' :: ms).
Proof.
  intros (_ & _ & Hp & _) Hk x y Hx [->|Hy]%elem_of_cons; [|apply Hk; [done|by right]].
  intros Hr. apply (Hk x mk Hx ltac:(by left)). destruct s; cbn in *; unfold crosses in *; by rewrite Hp.
Qed.

(** The fills of a taker in front of its side are those of [take_from]. *)
Lemma trades_take_from t ams : ∀ book tk own evs book' id lim op,
  trades (side_of t) crosses book evs book' → uncrossed book' → orders (side_of t) book = tk :: own →
  Forall2 core_entry (orders (opposite (side_of t)) book) ams → keeps_off (side_of t) own (orders (opposite (side_of t)) book) →
  core_entry tk (mkEntry id lim op) → 0 < op →
  let '(aevs, op', ams') := take_from t id lim op ams in
  Forall2 core_event evs aevs ∧ Forall2 core_entry (orders (opposite (side_of t)) book') ams' ∧ 0 <= op'
  ∧ (if op' =? 0 then orders (side_of t) book' = own
     else ∃ tk', orders (side_of t) book' = tk' :: own ∧ core_entry tk' (mkEntry id lim op') ∧ same_order tk tk').
Proof.
  set (s := side_of t).
  induction ams as [|am ams IH]; intros book tk own evs book' id lim op Hts Hu Ho Hms Hk Htk Hop.
  - apply Forall2_nil_inv_r in Hms. cbn [take_from].
    destruct (trades_taker_inv _ _ _ _ _ _ Hts Ho) as [[-> ->]|(mk & ms & ? & ? & ? & ? & ? & Hm & _)]; [|congruence].
    rewrite Hms. rewrite (proj2 (Z.eqb_neq op 0)) by lia. split_and!; [constructor|constructor|lia|].
    exists tk. split_and!; [done|done|apply same_order_refl].
  - apply Forall2_cons_inv_r in Hms as (mk & ms & Hmk & Hms & Hm). cbn [take_from].
    pose proof (reaches_accepts t tk mk _ _ Htk Hmk) as Hacc. cbn [en_tick] in Hacc.
    rewrite (proj2 (Z.leb_gt op 0)) by lia. cbn [orb].
    destruct (trades_taker_inv _ _ _ _ _ _ Hts Ho) as [[-> ->]|(mk' & ms' & ev & evs' & tr & mr & q & Hm' & Hr & Hq & Htr & Hmr & Hn & Hf & -> & Hts')].
    + assert (accepts t lim (en_tick am) = false) as ->.
      { apply not_true_iff_false. rewrite <- Hacc. intros Hr. unfold uncrossed in Hu. subst s.
        destruct t; cbn in Ho, Hm, Hr; rewrite Ho, Hm in Hu; unfold crosses in Hr; lra. }
      cbn [negb]. rewrite (proj2 (Z.eqb_neq op 0)) by lia. split_and!; [constructor|rewrite Hm; by constructor|lia|].
      exists tk. split_and!; [done|done|apply same_order_refl].
    + rewrite Hm in Hm'. injection Hm' as <- <-. subst s. apply Hacc in Hr. rewrite Hr. cbn [negb].
      pose proof (min_worth q tk mk _ _ Htk Hmk Hq) as Hz. cbn [en_lot] in Hz. set (z := Z.min (en_lot am) op) in *.
      pose proof (fill_event_of _ _ _ _ _ _ _ Htk Hmk Hz Hf) as Hev. cbn [en_id en_lot] in Hev.
      pose proof (leftover_entry _ _ _ _ _ Htk Hz Htr) as Ltk. pose proof (leftover_entry _ _ _ _ _ Hmk Hz Hmr) as Lmk.
      set (book1 := with_orders _ _ _) in Hts'.
      assert (orders (side_of t) book1 = option_list tr ++ own) as Ho1 by (by subst book1; destruct t).
      assert (orders (opposite (side_of t)) book1 = option_list mr ++ ms) as Hm1 by (by subst book1; destruct t).
      rewrite Hm in Hk.
      assert (keeps_off (side_of t) own ms) as Hkms by (intros x y Hx Hy; apply Hk; [done|by right]).
      destruct mr as [mk'|]; cbn [option_list app] in Hm1.
      * destruct Lmk as (Hmk' & Hsm & Hlt). rewrite (proj2 (Z.eqb_neq (en_lot am) z)) by lia.
        destruct Hn as [->|?]; [|done]. cbn [option_list app] in Ho1. cbn in Ltk.
        destruct (trades_idle _ _ _ _ ltac:(rewrite Ho1, Hm1; by eapply keeps_off_replace) Hts') as [-> ->].
        replace (op - z) with 0 in * by lia. cbn [Z.eqb]. rewrite Ho1, Hm1.
        split_and!; [by repeat constructor|by constructor|lia|done].
      * rewrite (proj2 (Z.eqb_eq (en_lot am) z)) by lia. destruct tr as [tk'|]; cbn [option_list app] in Ho1.
        -- destruct Ltk as (Htk' & Hst & Hlt). cbn [en_id en_tick en_lot] in *.
           specialize (IH book1 tk' own evs' book' id lim (op - z) Hts' Hu Ho1).
           rewrite Hm1 in IH. specialize (IH Hms Hkms Htk' ltac:(lia)).
           destruct (take_from t id lim (op - z) ams) as [[aevs op'] ams']. destruct IH as (I1 & I2 & I3 & I4).
           split_and!; [by constructor|done|done|]. destruct (op' =? 0); [done|]. destruct I4 as (tk2 & ? & ? & Hs2).
           exists tk2. split_and!; [done|done|]. unfold same_order in *. naive_solver congruence.
        -- cbn in Ltk. replace (op - z) with 0 by lia. rewrite take_from_done.
           destruct (trades_idle _ _ _ _ ltac:(rewrite Ho1, Hm1; exact Hkms) Hts') as [-> ->].
           replace (op - z) with 0 in Hev by lia. cbn [Z.eqb]. rewrite Ho1, Hm1. split_and!; [by repeat constructor|done|lia|done].
Qed.

(** ** A limit order *)

Lemma core_entry_better t x o enx eno :
  core_entry x enx → core_entry o eno → before (side_of t) x o → ahead t (en_tick eno) (en_tick enx) = false.
Proof.
  intros (_ & Hx & _) (_ & Ho & _) Hb. unfold worth in *. unfold before, better, bd_eq in Hb.
  destruct t; cbn in *; apply Z.ltb_ge.
  - destruct Hb as [Hb|[Hb _]]; rewrite Hx, Ho in Hb; [apply unit_lt in Hb; [lia|done]|apply unit_eq in Hb; [lia|done]].
  - destruct Hb as [Hb|[Hb _]]; rewrite Hx, Ho in Hb; [apply unit_lt in Hb; [lia|done]|apply unit_eq in Hb; [lia|done]].
Qed.

Lemma core_entry_later t x o enx eno :
  core_entry x enx → core_entry o eno → create_time x < create_time o → before (side_of t) o x →
  ahead t (en_tick eno) (en_tick enx) = true.
Proof.
  intros (_ & Hx & _) (_ & Ho & _) Hc Hb. unfold worth in *. unfold before, better, bd_eq in Hb.
  destruct t; cbn in *; apply Z.ltb_lt.
  - destruct Hb as [Hb|[_ Hb]]; [rewrite Hx, Ho in Hb; by apply unit_lt in Hb|lia].
  - destruct Hb as [Hb|[_ Hb]]; [rewrite Hx, Ho in Hb; by apply unit_lt in Hb|lia].
Qed.

(** The place of a later order in the set is its place in the queue. *)
Lemma set_place t l1 l2 o ams en :
  side_ok (side_of t) (l1 ++ o :: l2) → Forall2 core_entry (l1 ++ l2) ams → core_entry o en →
  Forall (λ x, create_time x < create_time o) (l1 ++ l2) →
  Forall2 core_entry (l1 ++ o :: l2) (queue_up t en ams).
Proof.
  intros Hok Hms Ho Htime. apply Forall2_app_inv_l in Hms as (a1 & a2 & H1 & H2 & ->).
  apply side_ok_app in Hok as (_ & Hok2 & Hbef & _). apply side_ok_cons in Hok2 as (Hlater & _).
  apply Forall_app in Htime as [_ Ht2]. rewrite queue_up_place.
  - apply Forall2_app; [done|]. by constructor.
  - assert (∀ x, x ∈ l1 → before (side_of t) x o) as Hb by (intros x Hx; apply Hbef; [done|by left]). clear -H1 Hb Ho Hwp.
    induction H1 as [|x a l1 a1 Hx _ IH]; constructor; [eapply core_entry_better; [done..|]; apply Hb; by left|].
    apply IH. intros y Hy. apply Hb. by right.
  - clear -H2 Hlater Ho Ht2 Hwp. induction H2 as [|x a l2 a2 Hx _ IH]; constructor.
    + apply Forall_cons in Hlater as [? _]. apply Forall_cons in Ht2 as [? _]. by eapply core_entry_later.
    + apply IH; [by apply Forall_cons in Hlater as [_ ?]|by apply Forall_cons in Ht2 as [_ ?]].
Qed.

Definition core_rel (book : OrderBook) (ab : abook) : Prop :=
  ∀ t, Forall2 core_entry (orders (side_of t) book) (entries t ab).

Definition new_limit o t id tick lot : Prop :=
  is_revoke o = false ∧ order_form o = ORDER_FORM_LIMIT ∧ from_order_type (order_type o) = Some (side_of t)
  ∧ quantity_ok o ∧ core_entry o (mkEntry id tick lot).

Lemma clear_keeps_off s book : clear book → keeps_off s (orders s book) (orders (opposite s) book).
Proof.
  intros Hc x y Hx Hy Hr. destruct s; cbn in *; unfold crosses in Hr.
  - specialize (Hc x y Hx Hy). lra.
  - specialize (Hc y x Hy Hx). lra.
Qed.

Lemma on_book_limit book o t id tick lot :
  new_limit o t id tick lot → contains_order_no book (trust_order_no o) = false →
  on_book book o = handle_limit (side_of t) book o.
Proof.
  intros (Hr & Hf & Hs & _) Hc. unfold on_book. rewrite Hr, Hc, Hf, Hs. by destruct t.
Qed.

(** What rests afterwards rested before, or is the order. *)
Definition stays o book book' : Prop :=
  ∀ s x, x ∈ orders s book' → ∃ y, same_order y x ∧ (y = o ∨ y ∈ orders s book).

Lemma eaten_elem l l' x : eaten l l' → x ∈ l' → ∃ y, y ∈ l ∧ same_order y x.
Proof.
  intros (pre & post & -> & [->|(y & y' & post' & -> & -> & Hs)]) Hx.
  - exists x. split; [set_solver|apply same_order_refl].
  - apply elem_of_cons in Hx as [->|Hx]; [exists y; split; [set_solver|done]|].
    exists x. split; [set_solver|apply same_order_refl].
Qed.

Lemma trades_stay (t : Side) o l1 l2 book evs book' :
  trades t crosses (with_orders t (l1 ++ o :: l2) book) evs book' → orders t book = l1 ++ l2 → stays o book book'.
Proof.
  intros Hts Hl s x Hx. destruct (eaten_elem _ _ _ (trades_eaten _ _ _ _ _ s Hts) Hx) as (y & Hy & Hs).
  exists y. split; [done|]. rewrite numbers_with_orders in Hy. case_decide; [subst s|by right]. rewrite Hl. set_solver.
Qed.

Lemma within_reach t o id tick lot ms ams :
  core_entry o (mkEntry id tick lot) → Forall2 core_entry ms ams →
  (∃ y, y ∈ ms ∧ reaches (side_of t) o y) ∨ (∀ y, y ∈ ms → ¬ reaches (side_of t) o y).
Proof.
  intros Ho Hms. induction Hms as [|mk am ms ams Hmk _ IH]; [right; set_solver|].
  pose proof (reaches_accepts t o mk _ _ Ho Hmk) as Hacc. destruct (accepts _ _ _).
  - left. exists mk. split; [by left|by apply Hacc].
  - destruct IH as [(y & Hy & Hr)|Hno]; [left; exists y; split; [by right|done]|].
    right. intros y [->|Hy]%elem_of_cons; [|by apply Hno]. intros Hr%Hacc. done.
Qed.

Lemma core_limit_step sym book ab o t id tick lot :
  book_inv sym book → core_rel book ab → new_limit o t id tick lot →
  contains_order_no book (trust_order_no o) = false →
  Forall (λ x, create_time x < create_time o) (orders (side_of t) book) →
  let '(aevs, ab') := a_step ab (ALimit t id tick lot) in
  ∃ evs book', on_book book o = Some (evs, book') ∧ Forall2 core_event evs aevs ∧ core_rel book' ab' ∧ stays o book book'.
Proof.
  intros Hinv Hrel Hnew Hc Htime. pose proof Hnew as (_ & Hform & Hs & [Hq _] & Ho).
  assert (0 < lot) as Hlot.
  { destruct Ho as (_ & _ & Hr). cbn in Hr. unfold worth in Hr. rewrite Hr in Hq.
    apply (unit_lt wq 0 lot Hwq). rewrite Qmult_0_l. exact Hq. }
  pose proof Hinv as (Hok & Hu & _). pose proof (uncrossed_clear book Hok Hu) as Hclear.
  destruct (handle_limit_trades (side_of t) book o Hok (book_inv_no_fok _ _ Hinv) Hs) as
    (l1 & l2 & evs & book' & Hl & Hok1 & Hh & Hts & Hu'); [by rewrite Hform|done|].
  rewrite (on_book_limit book o t id tick lot Hnew Hc). pose proof (trades_stay _ _ _ _ _ _ _ Hts Hl) as Hstay.
  pose proof (clear_keeps_off (side_of t) book Hclear) as Hk. pose proof (Hrel t) as Hown. pose proof (Hrel (across t)) as Hopp.
  rewrite side_of_across in Hopp. set (book1 := with_orders (side_of t) (l1 ++ o :: l2) book) in *.
  assert (orders (opposite (side_of t)) book1 = orders (opposite (side_of t)) book) as Hopp1 by (by subst book1; destruct t).
  assert (orders (side_of t) book1 = l1 ++ o :: l2) as Hown1 by (by subst book1; destruct t).
  assert (side_ok (side_of t) (l1 ++ o :: l2)) as Hside by (rewrite <- Hown1; by apply book_ok_side).
  assert (Forall2 core_entry (l1 ++ o :: l2) (queue_up t (mkEntry id tick lot) (entries t ab))) as Hplace.
  { apply set_place; [done|by rewrite <- Hl|done|]. rewrite <- Hl. apply Htime. }
  assert (∀ book2 ab2, Forall2 core_entry (orders (side_of t) book2) (entries t ab2) →
    Forall2 core_entry (orders (opposite (side_of t)) book2) (entries (across t) ab2) → core_rel book2 ab2) as Hboth.
  { intros b2 a2 H1 H2 t'. destruct t, t'; done. }
  cbn [a_step]. destruct (within_reach t o id tick lot _ _ Ho Hopp) as [(y & Hy & Hry)|Hno].
  - (* the order is in front of its side *)
    assert (l1 = []) as ->.
    { destruct l1 as [|x l1]; [done|]. exfalso. apply (Hk x y); [rewrite Hl; by left|done|].
      apply side_ok_app in Hside as (_ & _ & Hbef & _). specialize (Hbef x o ltac:(by left) ltac:(by left)).
      clear -Hbef Hry. unfold before, better, bd_eq in Hbef. destruct t; cbn in *; unfold crosses in *; destruct Hbef as [?|[? _]]; lra. }
    cbn [app] in *. pose proof (trades_take_from t (entries (across t) ab) book1 o l2 evs book' id tick lot Hts Hu' Hown1) as Htake.
    rewrite Hopp1 in Htake. specialize (Htake Hopp). rewrite <- Hl in Htake. specialize (Htake Hk Ho Hlot).
    destruct (take_from t id tick lot (entries (across t) ab)) as [[aevs op'] ams'].
    destruct Htake as (H1 & H2 & H3 & H4). exists evs, book'. split_and!; [done|done| |done]. apply Hboth; autorewrite with abookdb.
    + destruct (op' =? 0); [rewrite H4; exact Hown|]. destruct H4 as (tk' & -> & Htk' & Hsame). rewrite Hl.
      rewrite Hl in Hown. apply (set_place t [] l2 tk'); [|done|done|].
      * cbn [app]. eapply side_ok_head; [|exact Hside]. by apply same_order_key.
      * cbn [app]. destruct Hsame as (_ & <- & _). rewrite <- Hl. apply Htime.
    + by destruct t.
  - (* nothing within reach *)
    assert (keeps_off (side_of t) (orders (side_of t) book1) (orders (opposite (side_of t)) book1)) as Hk1.
    { rewrite Hopp1, Hown1. intros x y Hx Hy Hr. apply elem_of_app in Hx as [Hx|[->|Hx]%elem_of_cons]; [|by apply (Hno y)|];
        (apply (Hk x y); [rewrite Hl; set_solver|done|done]). }
    destruct (trades_idle _ _ _ _ Hk1 Hts) as [-> ->].
    assert (take_from t id tick lot (entries (across t) ab) = ([], lot, entries (across t) ab)) as ->.
    { destruct Hopp as [|mk am ms ams Hmk _]; [done|]. cbn [take_from]. rewrite (proj2 (Z.leb_gt lot 0)) by lia. cbn [orb].
      destruct (accepts t tick (en_tick am)) eqn:Ea; [|done]. exfalso. apply (Hno mk); [by left|].
      by apply (reaches_accepts t o mk _ _ Ho Hmk). }
    rewrite (proj2 (Z.eqb_neq lot 0)) by lia. exists [], book1. split_and!; [done|constructor| |done].
    apply Hboth; autorewrite with abookdb; [by rewrite Hown1|rewrite Hopp1; by destruct t].
Qed.

(** ** A revoke *)

Lemma same_ids (seen : list string) l ams :
  (∀ n n', n ∈ seen → n' ∈ seen → order_id n = order_id n' → n = n') → NoDup (numbers l) →
  (∀ n, n ∈ numbers l → n ∈ seen) → Forall2 core_entry l ams → NoDup (en_id <$> ams).
Proof.
  intros Hinj Hnd Hseen Hms. induction Hms as [|x a l ams Hx Hms IH]; [constructor|].
  apply NoDup_cons in Hnd as [Hn Hnd]. rewrite fmap_cons. apply NoDup_cons.
  split; [|apply IH; [done|]; intros n Hn'; apply Hseen; by right].
  intros (b & Heq & Hb)%list_elem_of_fmap. destruct (Forall2_elem_r _ _ _ _ Hms Hb) as (y & Hy & Hyb). apply Hn.
  assert (trust_order_no x = trust_order_no y) as ->; [|by apply list_elem_of_fmap_2].
  apply Hinj; [apply Hseen; by left|apply Hseen; right; by apply list_elem_of_fmap_2|].
  destruct Hx as (-> & _), Hyb as (-> & _). by rewrite Heq.
Qed.

Lemma core_revoke_step sym book ab o t id :
  book_inv sym book → core_rel book ab → is_revoke o = true → from_order_type (order_type o) = Some (side_of t) →
  order_id (trust_order_no o) = Some id → NoDup (en_id <$> entries t ab) →
  (∀ x, x ∈ orders (side_of t) book → order_id (trust_order_no x) = Some id → trust_order_no x = trust_order_no o) →
  let '(aevs, ab') := a_step ab (ARevoke t id) in
  ∃ evs book', on_book book o = Some (evs, book') ∧ Forall2 core_event evs aevs ∧ core_rel book' ab'
    ∧ ∀ s x, x ∈ orders s book' → x ∈ orders s book.
Proof.
  intros Hinv Hrel Hrev Hs Hid Hnd Hsame. cbn [a_step]. unfold on_book, revoke_order, revoke_order_with_reason.
  rewrite Hrev, Hs. pose proof (book_ok_side (side_of t) book (proj1 Hinv)) as Hside. pose proof (Hrel t) as Hown.
  destruct (remove_by_order_no_spec (side_of t) (trust_order_no o) book Hside) as [(l1 & x & l2 & Hl & Hn & ->)|(Hn & ->)].
  - rewrite Hl in Hown. apply Forall2_app_inv_l in Hown as (a1 & a2 & H1 & H2 & Ha).
    apply Forall2_cons_inv_l in H2 as (am & a3 & Hx & H3 & ->). rewrite Ha in *.
    destruct (drop_id_middle id a1 am a3 Hnd) as [-> ->]; [destruct Hx as (Hx & _); rewrite Hn in Hx; congruence|].
    eexists _, _. split_and!; [reflexivity|constructor; [cbn; by rewrite Hn|constructor]| |].
    + intros t'. rewrite numbers_with_orders. destruct (decide (t = t')) as [<-|Hne].
      * rewrite decide_True by done. autorewrite with abookdb. by apply Forall2_app.
      * rewrite decide_False by (by destruct t, t'). specialize (Hrel t'). by destruct t, t'.
    + intros s y Hy. rewrite numbers_with_orders in Hy.
      case_decide; [subst s; rewrite Hl; set_solver|done].
  - assert (has_id id (entries t ab) = false) as Hno.
    { apply not_true_iff_false. intros (a & Ha & Hai)%has_id_true.
      destruct (Forall2_elem_r _ _ _ _ Hown Ha) as (y & Hy & Hya). apply Hn. rewrite <- (Hsame y Hy); [by apply list_elem_of_fmap_2|].
      destruct Hya as (-> & _). by rewrite Hai. }
    rewrite Hno, drop_id_absent by done. exists [], book. split_and!; [done|constructor| |].
    + intros t'. specialize (Hrel t'). by destruct t, t'.
    + done.
Qed.

(** ** A stream *)

(** Orders for [sym], each the abstract command beside it: limit orders in the order
    of their times with numbers not seen before, revokes spelling the number as the
    order did.  [last] and [seen] are the time and the numbers of the orders so far. *)
Inductive core_stream (sym : string) : Z → list string → list BbOrder → list acommand → Prop :=
| cs_end last seen : core_stream sym last seen [] []
| cs_limit last seen o t id tick lot os cs :
    symbol_key o = sym → new_limit o t id tick lot → last < create_time o →
    Forall (λ n, order_id n ≠ Some id) seen →
    core_stream sym (create_time o) (trust_order_no o :: seen) os cs →
    core_stream sym last seen (o :: os) (ALimit t id tick lot :: cs)
| cs_revoke last seen o t id os cs :
    symbol_key o = sym → is_revoke o = true → from_order_type (order_type o) = Some (side_of t) →
    order_id (trust_order_no o) = Some id → Forall (λ n, order_id n = Some id → n = trust_order_no o) seen →
    core_stream sym last seen os cs → core_stream sym last seen (o :: os) (ARevoke t id :: cs).

Definition core_state sym (last : Z) (seen : list string) book ab : Prop :=
  book_inv sym book ∧ core_rel book ab
  ∧ (∀ n n', n ∈ seen → n' ∈ seen → order_id n = order_id n' → n = n')
  ∧ ∀ s x, x ∈ orders s book → create_time x <= last ∧ trust_order_no x ∈ seen.

Lemma core_stream_step sym last seen o os c cs book ab :
  core_stream sym last seen (o :: os) (c :: cs) → core_state sym last seen book ab →
  let '(aevs, ab') := a_step ab c in
  ∃ evs book' last' seen', on_book book o = Some (evs, book') ∧ Forall2 core_event evs aevs
    ∧ symbol_key o = sym ∧ core_state sym last' seen' book' ab' ∧ core_stream sym last' seen' os cs.
Proof.
  intros Hcs (Hinv & Hrel & Hinj & Hlive). inversion Hcs as [|????????? Hsym Hnew Hlast Hfresh Hrest|??????? Hsym Hrev Hs Hid Hsame Hrest]; subst.
  - assert (order_valid o) as Hv by (intros _; apply Hnew).
    assert (trust_order_no o ∉ seen) as Hn.
    { intros Hin. rewrite Forall_forall in Hfresh. apply (Hfresh _ Hin). apply Hnew. }
    assert (contains_order_no book (trust_order_no o) = false) as Hc.
    { apply contains_order_no_false_iff.
      split; intros (x & Heq & Hx)%list_elem_of_fmap; apply Hn; rewrite Heq; [by apply (Hlive Buy)|by apply (Hlive Sell)]. }
    pose proof (core_limit_step (symbol_key o) book ab o t id tick lot Hinv Hrel Hnew Hc) as Hstep.
    destruct (a_step ab _) as [aevs ab']. destruct Hstep as (evs & book' & Hon & Hevs & Hrel' & Hstay).
    { apply Forall_forall. intros x Hx. destruct (Hlive _ x Hx). lia. }
    exists evs, book', (create_time o), (trust_order_no o :: seen). split_and!; [done|done|done| |done].
    destruct (on_book_inv _ _ o Hinv eq_refl Hv) as (? & ? & Hon2 & Hinv'). simplify_eq. split_and!; [done|done| |].
    + destruct Hnew as (_ & _ & _ & _ & (Hid & _)). cbn in Hid. rewrite Forall_forall in Hfresh.
      intros n n' [->|H1]%elem_of_cons [->|H2]%elem_of_cons; [done| | |by apply Hinj]; rewrite Hid; intros Heq.
      * by edestruct (Hfresh n').
      * by edestruct (Hfresh n).
    + intros s x Hx. destruct (Hstay s x Hx) as (y & (Hno & Ht & _) & [->|Hy]); rewrite <- Ht, <- Hno.
      * split; [lia|by left].
      * destruct (Hlive s y Hy). split; [lia|by right].
  - pose proof (core_revoke_step (symbol_key o) book ab o t id Hinv Hrel Hrev Hs Hid) as Hstep.
    destruct (a_step ab _) as [aevs ab']. destruct Hstep as (evs & book' & Hon & Hevs & Hrel' & Hsub).
    { eapply (same_ids seen); [done| | |apply Hrel]; [by apply (book_ok_side (side_of t) book (proj1 Hinv))|].
      intros n (x & -> & Hx)%list_elem_of_fmap. by eapply Hlive. }
    { intros x Hx Hix. rewrite Forall_forall in Hsame. apply Hsame; [by eapply Hlive|done]. }
    exists evs, book', last, seen. split_and!; [done|done|done| |done].
    destruct (on_book_inv _ _ o Hinv eq_refl) as (? & ? & Hon2 & Hinv'); [by intros ?; congruence|]. simplify_eq.
    split_and!; [done|done|done|]. intros s x Hx. by eapply Hlive, Hsub.
Qed.

(** Every order of the stream is its command on the priority book. *)
Lemma core_stream_run sym os : ∀ last seen cs e ab,
  core_stream sym last seen os cs → core_state sym last seen (book_of e sym) ab →
  let '(aevss, ab') := a_run ab cs in
  ∃ evss e', run_each e os = Some (evss, e') ∧ Forall2 (Forall2 core_event) evss aevss ∧ core_rel (book_of e' sym) ab'.
Proof.
  induction os as [|o os IH]; intros last seen cs e ab Hcs Hst.
  - inversion Hcs; subst. exists [], e. split_and!; [done|constructor|]. apply Hst.
  - assert (∃ c cs', cs = c :: cs') as (c & cs' & ->) by (inversion Hcs; eauto).
    pose proof (core_stream_step _ _ _ _ _ _ _ _ _ Hcs Hst) as Hstep. cbn [a_run]. destruct (a_step ab c) as [aevs ab1].
    destruct Hstep as (evs & book' & last' & seen' & Hon & Hevs & <- & Hst' & Hcs').
    destruct (on_order_of_book e o evs book' Hon) as (e1 & He1 & <-). specialize (IH _ _ _ _ _ Hcs' Hst').
    destruct (a_run ab1 cs') as [aevss ab2]. destruct IH as (evss & e2 & He2 & Hf & Hr).
    exists (evs :: evss), e2. cbn [run_each]. rewrite He1. cbn [mbind option_bind]. rewrite He2. split_and!; [done|by constructor|done].
Qed.

Lemma core_state_new sym last : core_state sym last [] (book_of engine_new sym) abook_new.
Proof.
  assert (book_of engine_new sym = book_new) as ->.
  { unfold book_of. by rewrite (lookup_empty (M:=gmap string) sym : engine_new !! sym = None). }
  split_and!; [apply book_inv_new|by intros []; constructor|set_solver|]. intros [] x Hx; by apply elem_of_nil in Hx.
Qed.

End Cross.
