(* ===== verification/CrossHp.v ===== *)
(** * match-core-hp implements the priority book

    A stream of limit and cancel commands whose client numbers name one order each
    and stay above the engine's own ids: every command does to the levels and the
    store of [match-core-hp] and reports what the abstract command does to the
    priority book of [PriorityBook].  The engine keeps the side as one queue per tick;
    [at_tick] is that queue in the priority order. *)
From stdpp Require Import gmap.
From S2P Require Import Prelude HpTypes HpIndex HpBook HpEngine PriorityBook.

#[local] Open Scope Z_scope.

Definition hp_side (t : aside) : Side := match t with ABuy => Buy | ASell => Sell end.

Lemma hp_side_across t : hp_side (across t) = opposite (hp_side t).
Proof. by destruct t. Qed.

Lemma Forall2_filter_iff {A B} (R : A → B → Prop) (P : A → Prop) (Q : B → Prop) `{∀ x, Decision (P x)} `{∀ y, Decision (Q y)} l k :
  Forall2 R l k → (∀ x y, x ∈ l → R x y → P x ↔ Q y) → Forall2 R (filter P l) (filter Q k).
Proof.
  intros HR Hiff. induction HR as [|x y l k Hxy _ IH]; [constructor|]. rewrite !filter_cons.
  pose proof (Hiff x y ltac:(by left) Hxy) as Hd. specialize (IH (λ x' y' Hx', Hiff x' y' ltac:(by right))).
  destruct (decide (P x)), (decide (Q y)); try tauto. by constructor.
Qed.

Section Cross.
Context {BI AI : Type} `{LB : LevelIndex BI} `{LA : LevelIndex AI}
  `{SB : !LevelIndexSpec BI Buy} `{SA : !LevelIndexSpec AI Sell}.
Implicit Types (b : Book BI AI) (t : aside) (i : Z) (e : HpEngine BI AI) (en : entry) (ab : abook) (l : list entry).

(** The stored order [i] is the entry; its client number is the entry's. *)
Definition hp_entry b i en : Prop :=
  ∃ o, store_get (store b) i = Some o ∧ client_id o = en_id en ∧ price_tick o = en_tick en ∧ open_lot o = en_lot en.

Definition hp_queue b t l : Prop :=
  price_sorted t l ∧ ∀ tick, Forall2 (hp_entry b) (queue b (hp_side t) tick) (at_tick tick l).

Definition hp_rel b ab : Prop := ∀ t, hp_queue b t (entries t ab).

Definition hp_event (ev : HpEvent) (a : aevent) : Prop :=
  match ev, a with
  | Fill _ _ maker_client taker_client tick q maker_open taker_open, AFill taker maker tick' lot taker_left maker_left =>
      maker_client = maker ∧ taker_client = taker ∧ tick = tick' ∧ q = lot ∧ maker_open = maker_left ∧ taker_open = taker_left
  | Revoke _ client 0, ARevoked id => client = id
  | _, _ => False
  end.

(** ** Frames *)

Lemma hp_entry_frame b b' i en : store_get (store b') i = store_get (store b) i → hp_entry b i en → hp_entry b' i en.
Proof. intros Hg (o & Ho & Hr). exists o. by rewrite Hg. Qed.

Lemma entries_frame b b' il k :
  Forall2 (hp_entry b) il k → (∀ i, i ∈ il → store_get (store b') i = store_get (store b) i) → Forall2 (hp_entry b') il k.
Proof.
  induction 1 as [|i en il k Hi _ IH]; intros Hg; constructor; [eapply hp_entry_frame; [apply Hg; by left|done]|].
  apply IH. intros j Hj. apply Hg. by right.
Qed.

Lemma hp_queue_frame b b' t l :
  (∀ tick, queue b' (hp_side t) tick = queue b (hp_side t) tick) →
  (∀ tick i, i ∈ queue b (hp_side t) tick → store_get (store b') i = store_get (store b) i) →
  hp_queue b t l → hp_queue b' t l.
Proof.
  intros Hq Hg [Hs Hl]. split; [done|]. intros tick. rewrite Hq. eapply entries_frame; [apply Hl|]. intros i. apply Hg.
Qed.

Lemma queued_order tk b s tick i :
  book_ok tk b → i ∈ queue b s tick →
  ∃ o, store_get (store b) i = Some o ∧ side o = s ∧ price_tick o = tick ∧ 0 < open_lot o ∧ tk ≠ Some i.
Proof.
  intros (_ & _ & _ & _ & Hlv & _) Hi. unfold queue in Hi. destruct (levels b s !! tick) as [lv|] eqn:El; [|by apply elem_of_nil in Hi].
  destruct (Hlv _ _ _ El) as (_ & _ & Hin). destruct (Hin i Hi) as (Htk & o & Ho & Hs & Ht & Hop).
  exists o. split_and!; try done. lia.
Qed.

Lemma queue_nonempty tk b s tick : book_ok tk b → is_Some (levels b s !! tick) ↔ queue b s tick ≠ [].
Proof.
  intros (_ & _ & _ & _ & Hlv & _). unfold queue. destruct (levels b s !! tick) as [lv|] eqn:El; [|by split; intros []].
  destruct (Hlv _ _ _ El) as (Hne & _). by split.
Qed.

(** ** The front *)

Lemma queue_at tk b t l tick : book_ok tk b → hp_queue b t l → is_Some (levels b (hp_side t) !! tick) ↔ at_tick tick l ≠ [].
Proof.
  intros Hok [_ Hl]. rewrite (queue_nonempty tk) by done. specialize (Hl tick). by destruct Hl.
Qed.

(** The best level holds the first entry. *)
Lemma front_entry tk b t l tick :
  book_ok tk b → hp_queue b t l → best_of (hp_side t) (levels b (hp_side t)) (Some tick) →
  ∃ en l', l = en :: l' ∧ en_tick en = tick.
Proof.
  intros Hok Hl [Hs Hbest]. pose proof Hs as Hne. rewrite (queue_at tk b t l) in Hne by done.
  destruct (at_tick tick l) as [|x k] eqn:Ek; [done|]. assert (x ∈ at_tick tick l) as [Hx Hin]%at_tick_elem by (rewrite Ek; by left).
  destruct l as [|en l']; [by apply elem_of_nil in Hin|]. exists en, l'. split; [done|].
  destruct (Hbest (en_tick en)) as [?|Hb]; [|done|exfalso].
  { apply (queue_at tk b t (en :: l')); [done|done|]. rewrite at_tick_cons, decide_True by done. done. }
  destruct Hl as [Hsort _]. apply price_sorted_cons in Hsort as [_ Hf]. rewrite Forall_forall in Hf.
  apply elem_of_cons in Hin as [->|Hin]; [destruct t; cbn in Hb; lia|]. specialize (Hf x Hin). destruct t; cbn in *; lia.
Qed.

(** ** One fill *)

Lemma trade_entry t tk tc b cl op ev b' cl' op' l :
  book_ok (Some tk) b → hp_queue b (across t) l → hp_trade (opposite (hp_side t)) tk tc b cl op ev b' cl' op' →
  ∃ m ms, l = m :: ms ∧ let q := Z.min (en_lot m) op in
    best_of (opposite (hp_side t)) (levels b (opposite (hp_side t))) (Some (en_tick m))
    ∧ 0 < en_lot m ∧ op' = op - q ∧ hp_event ev (AFill tc (en_id m) (en_tick m) q (op - q) (en_lot m - q))
    ∧ hp_queue b' (across t) (if en_lot m =? q then ms else mkEntry (en_id m) (en_tick m) (en_lot m - q) :: ms).
Proof.
  intros Hok Hl Ht. destruct Ht as [tick lv i il o q b1 cl1 Hbest Hlv Hids Hg Hpos Hq Hget Hlevels _ _].
  rewrite <- hp_side_across in *. destruct (front_entry (Some tk) b (across t) l tick Hok Hl Hbest) as (m & ms & -> & Hm).
  exists m, ms. split; [done|]. pose proof Hl as [Hsort Hent]. pose proof (Hent tick) as Hfront. unfold queue in Hfront. rewrite Hlv, Hids in Hfront.
  rewrite at_tick_cons, decide_True in Hfront by done. apply Forall2_cons in Hfront as [(o' & Hg' & Hc & Hp & Hop) Hrest].
  rewrite Hg in Hg'. injection Hg' as <-. rewrite <- Hop, <- Hq. split_and!; [by rewrite Hm|done|done|by rewrite Hm, Hc|].
  assert (∀ tick' j, j ∈ queue b (hp_side (across t)) tick' → tick' ≠ tick ∨ j ∈ il → i ≠ j) as Hother.
  { intros tick' j Hj Hor <-. destruct (queued_order _ _ _ _ _ Hok Hj) as (o2 & Ho2 & _ & Ht2 & _). rewrite Hg in Ho2. injection Ho2 as <-.
    destruct Hor as [Hne|Hil]; [apply Hne; congruence|]. destruct Hok as (_ & _ & _ & _ & Hnd & _). destruct (Hnd _ _ _ Hlv) as (_ & Hnd' & _).
    rewrite Hids in Hnd'. by apply NoDup_cons in Hnd' as [? _]. }
  assert (∀ tick', tick' ≠ tick → queue b1 (hp_side (across t)) tick' = queue b (hp_side (across t)) tick') as Hq2.
  { intros tick' Hne. unfold queue. rewrite Hlevels, lookup_partial_alter_ne by done. done. }
  assert (Forall2 (hp_entry b1) il (at_tick tick ms)) as Hrest1.
  { eapply entries_frame; [exact Hrest|]. intros j Hj. rewrite Hget, decide_False; [done|].
    apply (Hother tick); [|by right]. unfold queue. rewrite Hlv, Hids. by right. }
  assert (∀ tick', tick' ≠ tick → Forall2 (hp_entry b1) (queue b1 (hp_side (across t)) tick') (at_tick tick' ms)) as Hoth1.
  { intros tick' Hne. rewrite Hq2 by done. specialize (Hent tick'). rewrite at_tick_cons, decide_False in Hent by congruence.
    eapply entries_frame; [exact Hent|]. intros j Hj. rewrite Hget, decide_False; [done|]. apply (Hother tick'); [done|by left]. }
  apply price_sorted_cons in Hsort as [Hsort Hhead].
  assert (queue b1 (hp_side (across t)) tick = if open_lot o =? q then il else i :: il) as Hqt.
  { unfold queue. rewrite Hlevels, lookup_partial_alter_eq. unfold level_after. destruct (open_lot o =? q); [by destruct il|done]. }
  destruct (open_lot o =? q) eqn:Eq.
  - split; [done|]. intros tick'. destruct (decide (tick' = tick)) as [->|Hne]; [by rewrite Hqt|by apply Hoth1].
  - split; [by apply price_sorted_cons|]. intros tick'. rewrite at_tick_cons. cbn [en_tick].
    destruct (decide (tick' = tick)) as [->|Hne]; [|rewrite decide_False by congruence; by apply Hoth1].
    rewrite Hqt, decide_True by done. constructor; [|done]. exists (set_open_lot (open_lot o - q) o).
    rewrite Hget, decide_True by done. unfold after_fill. by rewrite Eq.
Qed.

(** The taker's own side is not touched. *)
Lemma trade_own t tk tc b cl op ev b' cl' op' l :
  book_ok (Some tk) b → hp_trade (opposite (hp_side t)) tk tc b cl op ev b' cl' op' → hp_queue b t l → hp_queue b' t l.
Proof.
  intros Hok [tick lv i il o q b1 cl1 Hbest Hlv Hids Hg Hpos Hq Hget Hlevels Hown _]. apply hp_queue_frame.
  - intros tick'. unfold queue. replace (opposite (opposite (hp_side t))) with (hp_side t) in Hown by (by destruct t). by rewrite Hown.
  - intros tick' j Hj. rewrite Hget, decide_False; [done|]. intros <-.
    destruct (queued_order _ _ _ _ _ Hok Hj) as (o2 & Ho2 & Hs2 & _). rewrite Hg in Ho2. injection Ho2 as <-.
    destruct (level_unique _ _ i o _ _ _ Hok Hg Hlv) as [Hs _]; [rewrite Hids; by left|]. destruct t; cbn in *; congruence.
Qed.

(** ** A run of fills *)

Lemma beyond_accepts t lim tick : beyond (hp_side t) (Some lim) tick = negb (accepts t lim tick).
Proof. destruct t; cbn; [rewrite Z.gtb_ltb|]; by rewrite <- Z.ltb_antisym. Qed.

Lemma trades_entries t tk tc lim b cl op evs b' cl' op' : ∀ l own,
  hp_trades (opposite (hp_side t)) tk tc (λ tick, beyond (hp_side t) (Some lim) tick = false) b cl op evs b' cl' op' →
  book_ok (Some tk) b' → (0 < op' → exhausted (hp_side t) (Some lim) b') → 0 <= op →
  hp_queue b (across t) l → hp_queue b t own →
  let '(aevs, op2, l') := take_from t tc lim op l in
  Forall2 hp_event evs aevs ∧ op' = op2 ∧ hp_queue b' (across t) l' ∧ hp_queue b' t own.
Proof.
  intros l own Hts; revert l. induction Hts as [b cl op|b cl op ev b1 cl1 op1 evs b2 cl2 op2 Hok Hop Hg Htr Hts IH]; intros l Hok2 Hex Hop0 Hl Hown.
  - assert (take_from t tc lim op l = ([], op, l)) as ->; [|by split_and!].
    destruct l as [|m ms]; cbn [take_from]; [done|]. destruct (Z.leb_spec op 0); [done|]. cbn [orb].
    assert (accepts t lim (en_tick m) = false) as ->; [|done]. apply negb_true_iff. rewrite <- beyond_accepts. apply Hex; [lia|].
    rewrite <- hp_side_across. apply (queue_at (Some tk) b (across t) (m :: ms)); [done|done|].
    by rewrite at_tick_cons, decide_True.
  - destruct (trade_entry _ _ _ _ _ _ _ _ _ _ _ Hok Hl Htr) as (m & ms & -> & Hbest & Hpos & Hop1 & Hev & Hl1). cbn zeta in *.
    pose proof (trade_own _ _ _ _ _ _ _ _ _ _ _ Hok Htr Hown) as Hown1. cbn [take_from].
    rewrite (proj2 (Z.leb_gt op 0)) by lia. cbn [orb]. specialize (Hg _ Hbest). rewrite beyond_accepts in Hg. rewrite Hg.
    specialize (IH _ Hok2 Hex ltac:(lia) Hl1 Hown1). subst op1. destruct (en_lot m =? Z.min (en_lot m) op) eqn:Eq.
    + destruct (take_from t tc lim (op - Z.min (en_lot m) op) ms) as [[aevs op3] l']. destruct IH as (I1 & I2 & I3 & I4).
      split_and!; [by constructor|done|done|done].
    + replace (op - Z.min (en_lot m) op) with 0 in * by lia. rewrite take_from_done in IH. destruct IH as (I1 & I2 & I3 & I4).
      split_and!; [by constructor|done|done|done].
Qed.

(** ** A limit order *)

(** The engine's own ids stay below the number of orders it has seen. *)
Definition slot_count e : Z := Z.of_nat (length (slots (store (book e)))).

Definition not_rest (ev : HpEvent) : bool := match ev with Rest _ _ _ _ _ => false | _ => true end.

(** What the events say to a client of both engines: all but where a remainder rests. *)
Definition hp_events (evs : list HpEvent) (aevs : list aevent) : Prop := Forall2 hp_event (List.filter not_rest evs) aevs.

Lemma hp_events_fills evs aevs : Forall2 hp_event evs aevs → List.filter not_rest evs = evs.
Proof. induction 1 as [|ev a evs aevs Hev _ IH]; cbn; [done|]. rewrite IH. by destruct ev. Qed.

Lemma taker_in b sto tk o l t :
  book_ok None b → store_get (store b) tk = None →
  (∀ j, store_get sto j = if decide (tk = j) then Some o else store_get (store b) j) →
  hp_queue b t l → hp_queue (set_store sto b) t l.
Proof.
  intros Hok Hn Hget. apply hp_queue_frame; [intros tick; by destruct t|]. intros tick i Hi. cbn.
  rewrite Hget, decide_False; [done|]. intros <-. destruct (queued_order _ _ _ _ _ Hok Hi) as (? & ? & _). congruence.
Qed.

(** The remainder queues up. *)
Lemma rest_entry b1 b3 tk t p op c o own :
  book_ok (Some tk) b1 → hp_queue b1 t own →
  levels b3 (hp_side t) = <[p := level_push tk op (default level_default (levels b1 (hp_side t) !! p))]> (levels b1 (hp_side t)) →
  (∀ j, store_get (store b3) j = if decide (tk = j) then Some o else store_get (store b1) j) →
  client_id o = c → price_tick o = p → open_lot o = op →
  hp_queue b3 t (queue_up t (mkEntry c p op) own).
Proof.
  intros Hok [Hs Hq] Hl Hget Hc Hp Ho. split; [by apply queue_up_sorted|]. intros tick. rewrite at_tick_queue_up by done.
  assert (Forall2 (hp_entry b3) (queue b1 (hp_side t) tick) (at_tick tick own)) as Hold.
  { eapply entries_frame; [apply Hq|]. intros i Hi. rewrite Hget, decide_False; [done|]. intros <-.
    by destruct (queued_order _ _ _ _ _ Hok Hi) as (? & _ & _ & _ & _ & ?). }
  unfold queue. rewrite Hl. cbn [en_tick]. destruct (decide (p = tick)) as [<-|Hne].
  - rewrite lookup_insert_eq. unfold queue in Hold. apply Forall2_app; [by destruct (levels b1 (hp_side t) !! p)|].
    constructor; [|constructor]. exists o. by rewrite Hget, decide_True.
  - rewrite lookup_insert_ne, app_nil_r by done. done.
Qed.

Lemma hp_limit_step e ab t c p q ts :
  engine_ok e → hp_rel (book e) ab → in_i64 p → 0 < q <= i64_max →
  let '(aevs, ab') := a_step ab (ALimit t c p q) in
  ∃ evs e', hp_on_order e (Limit (hp_side t) p q ts c) = Some (evs, e') ∧ engine_ok e' ∧ hp_events evs aevs ∧ hp_rel (book e') ab'.
Proof.
  intros He Hrel Hp Hq. pose proof He as (Hok & _ & _).
  destruct (on_limit_outcome e (hp_side t) p q ts c He Hp Hq) as (evs & e' & Hon & Hout & He').
  destruct Hout as (tk & sto & fills & b1 & cl1 & op & Hnone & Hsto & Hts & Hok1 & Htk & Hop & -> & Hopp & Hget & Hown).
  pose proof (taker_in _ _ _ _ _ _ Hok Hnone Hsto (Hrel t)) as Hq1. pose proof (taker_in _ _ _ _ _ _ Hok Hnone Hsto (Hrel (across t))) as Hq2.
  assert (0 < op → exhausted (hp_side t) (Some p) b1) as Hex by (intros Hlt; rewrite (proj2 (Z.eqb_neq op 0)) in Hown by lia; apply Hown).
  pose proof (trades_entries _ _ _ _ _ _ _ _ _ _ _ _ _ Hts Hok1 Hex ltac:(lia) Hq2 Hq1) as Htake.
  cbn [a_step hp_on_order]. destruct (take_from t c p q (entries (across t) ab)) as [[aevs op2] ms'].
  destruct Htake as (Hev & <- & Hms & Hos). eexists _, e'. split_and!; [exact Hon|done| |].
  - unfold hp_events. rewrite List.filter_app, (hp_events_fills _ _ Hev). destruct (op =? 0); cbn; by rewrite app_nil_r.
  - assert (∀ t' tick i, i ∈ queue b1 (hp_side t') tick → store_get (store (book e')) i = store_get (store b1) i) as Hkeep.
    { intros t' tick i Hi. rewrite Hget, decide_False; [done|]. intros <-.
      by destruct (queued_order _ _ _ _ _ Hok1 Hi) as (? & _ & _ & _ & _ & ?). }
    intros t'. destruct (decide (t' = across t)) as [->|Hne].
    + rewrite entries_across_set. replace (entries (across t) (set_entries (across t) ms' ab)) with ms' by (by destruct t).
      revert Hms. apply hp_queue_frame; [|by apply Hkeep]. intros tick. unfold queue. by rewrite hp_side_across, Hopp.
    + assert (t' = t) as -> by (by destruct t, t'). rewrite entries_set_same. destruct (op =? 0).
      * revert Hos. apply hp_queue_frame; [|by apply Hkeep]. intros tick. unfold queue. by rewrite Hown.
      * destruct Hown as [Hlv _]. by eapply (rest_entry b1 (book e') tk t p op c _ _ Hok1 Hos Hlv Hget).
Qed.

(** ** A cancel *)

Lemma cancel_all_absent c il b : (∀ j, j ∈ il → store_get (store b) j = None) → cancel_all c il b = ([], b).
Proof.
  induction il as [|j il IH]; intros Hn; cbn [cancel_all]; [done|]. unfold cancel.
  rewrite store_remove_None by (apply Hn; by left). apply IH. intros k Hk. apply Hn. by right.
Qed.

(** The entry of a stored order. *)
Lemma stored_entry b ab i o :
  book_ok None b → hp_rel b ab → store_get (store b) i = Some o →
  ∃ t en, side o = hp_side t ∧ en ∈ entries t ab ∧ en_id en = client_id o ∧ i ∈ queue b (hp_side t) (price_tick o).
Proof.
  intros Hok Hrel Hg. pose proof Hok as (_ & _ & _ & _ & _ & Hst). destruct (Hst i o Hg ltac:(done)) as (lv & Hlv & Hi).
  set (t := match side o with Buy => ABuy | Sell => ASell end). assert (side o = hp_side t) as Hs by (by subst t; destruct (side o)).
  assert (i ∈ queue b (hp_side t) (price_tick o)) as Hin by (unfold queue; by rewrite <- Hs, Hlv).
  destruct (Hrel t) as [_ Hq]. specialize (Hq (price_tick o)). apply list_elem_of_lookup in Hin as Hk. destruct Hk as [k Hk].
  destruct (Forall2_lookup_l _ _ _ _ _ Hq Hk) as (en & Hen & (o' & Ho' & Hc & _)). apply list_elem_of_lookup_2 in Hen.
  apply at_tick_elem in Hen as [_ Hen]. exists t, en. split_and!; [done|done|congruence|done].
Qed.

(** A number names one stored order. *)
Lemma same_client b ab seen t i j oi oj :
  book_ok None b → hp_rel b ab → abook_ok seen ab → (∀ t', (client_id oi, t') ∈ seen → t' = t) →
  store_get (store b) i = Some oi → store_get (store b) j = Some oj → client_id oi = client_id oj → i = j.
Proof.
  intros Hok Hrel [_ Hab] Hside Hi Hj Hc.
  assert (∀ k o, store_get (store b) k = Some o → client_id o = client_id oi →
    ∃ tick n en, queue b (hp_side t) tick !! n = Some k ∧ at_tick tick (entries t ab) !! n = Some en ∧ en_id en = client_id oi) as Hfind.
  { intros k o Hk Hck. destruct (stored_entry b ab k o Hok Hrel Hk) as (t' & en' & _ & Hen' & Hid & Hin).
    assert (t' = t) as -> by (apply Hside; rewrite <- Hck, <- Hid; by apply Hab).
    apply list_elem_of_lookup in Hin as [n Hn]. destruct (Hrel t) as [_ Hq].
    destruct (Forall2_lookup_l _ _ _ _ _ (Hq (price_tick o)) Hn) as (en & Hen & (o' & Ho' & Hco & _)).
    exists (price_tick o), n, en. split_and!; [done|done|congruence]. }
  destruct (Hfind i oi Hi eq_refl) as (tick & n & en & Hqi & Hai & Hei). destruct (Hfind j oj Hj (eq_sym Hc)) as (tick' & n' & en' & Hqj & Haj & Hej).
  destruct (Hab t) as [Hnd _].
  pose proof (list_elem_of_lookup_2 _ _ _ Hai) as [Ht Hin]%at_tick_elem. pose proof (list_elem_of_lookup_2 _ _ _ Haj) as [Ht' Hin']%at_tick_elem.
  apply list_elem_of_lookup in Hin as [x Hx], Hin' as [y Hy].
  assert (x = y) as <-. { eapply (NoDup_lookup _ x y (en_id en) Hnd); rewrite list_lookup_fmap; [by rewrite Hx|rewrite Hy; cbn; congruence]. }
  assert (en' = en) as -> by congruence. assert (tick' = tick) as -> by congruence.
  assert (NoDup (at_tick tick (entries t ab))) as Hnd2 by (apply NoDup_filter; by eapply NoDup_fmap_1).
  assert (n = n') as <- by (by eapply NoDup_lookup). congruence.
Qed.

(** The queues without an order are the entries without its number. *)
Lemma without_entries b b' ab i o t c :
  book_ok None b → hp_rel b ab → without i o b b' → store_get (store b) i = Some o → client_id o = c →
  (∀ j oj, store_get (store b) j = Some oj → client_id oj = c → i = j) →
  hp_queue b' t (drop_id c (entries t ab)).
Proof.
  intros Hok Hrel (Hget & Hqueue & _) Hg Hc Honly. destruct (Hrel t) as [Hs Hq]. split; [by apply drop_id_sorted|]. intros tick.
  assert (queue b' (hp_side t) tick = retain_not i (queue b (hp_side t) tick)) as ->.
  { rewrite Hqueue. case_decide as Hd; [done|]. symmetry. apply filter_keeps. intros j Hj ->.
    destruct (queued_order _ _ _ _ _ Hok Hj) as (o' & Ho' & Hs' & Ht' & _). apply Hd. congruence. }
  rewrite at_tick_drop. apply (entries_frame b).
  - apply Forall2_filter_iff; [apply Hq|]. intros j en Hj (oj & Hoj & Hcj & _). split; intros Hne Heq; apply Hne.
    + symmetry. apply (Honly j oj); congruence.
    + congruence.
  - intros j [Hj _]%list_elem_of_filter. by rewrite Hget, decide_False by congruence.
Qed.

Lemma hp_cancel_step e ab seen t c :
  engine_ok e → hp_rel (book e) ab → abook_ok seen ab → (∀ t', (c, t') ∈ seen → t' = t) → slot_count e < c →
  let '(aevs, ab') := a_step ab (ARevoke t c) in
  ∃ evs e', hp_on_order e (Cancel c) = Some (evs, e') ∧ engine_ok e' ∧ hp_events evs aevs ∧ hp_rel (book e') ab'.
Proof.
  intros He Hrel Hab Hside Hc. pose proof He as (Hok & (Hcl1 & Hcl2 & Hcl3) & _). cbn [a_step hp_on_order].
  assert (c ≠ 0) as Hc0 by (unfold slot_count in Hc; lia). pose proof (on_cancel_ok e c He Hc0) as He'. revert He'. unfold on_cancel.
  assert (store_get (store (book e)) c = None) as ->.
  { destruct (store_get _ c) as [o|] eqn:Eo; [|done]. apply store_get_Some in Eo as [_ Hl%lookup_lt_Some]. unfold slot_count in Hc. lia. }
  destruct (client_to_id e !! c) as [il|] eqn:Ec.
  - assert (∀ j, j ∈ il → ∃ o, store_get (store (book e)) j = Some o ∧ client_id o = c) as Hil.
    { intros j Hj. destruct (Hcl2 c j Hc0) as [_ ?]; [by rewrite Ec|done]. }
    destruct il as [|i il]; [by destruct (Hcl3 c)|]. destruct (Hil i ltac:(by left)) as (o & Ho & Hco).
    assert (∀ j oj, store_get (store (book e)) j = Some oj → client_id oj = c → i = j) as Honly.
    { intros j oj Hj Hcj. eapply (same_client (book e) ab seen t i j o oj); try done; [by rewrite Hco|congruence]. }
    destruct (cancel_without (book e) i o Hok Ho) as (b' & Hcan & Hok' & Hw & _). cbn [cancel_all]. rewrite Hcan, cancel_all_absent.
    2: { intros j Hj. destruct (Hil j ltac:(by right)) as (oj & Hoj & Hcj). rewrite (proj1 Hw), decide_True; [done|by eapply Honly]. }
    intros He'. eexists _, _. split_and!; [reflexivity|exact He'| |].
    + destruct (stored_entry (book e) ab i o Hok Hrel Ho) as (t' & en & _ & Hen & Hid & _).
      assert (t' = t) as -> by (apply Hside; rewrite <- Hco, <- Hid; by apply Hab).
      assert (has_id c (entries t ab) = true) as -> by (apply has_id_true; exists en; split; [done|congruence]).
      unfold hp_events. cbn. by repeat constructor.
    + cbn [book]. intros t'. pose proof (without_entries (book e) b' ab i o t' c Hok Hrel Hw Ho Hco Honly) as Hq.
      destruct (decide (t' = t)) as [->|Hne]; [by rewrite entries_set_same|].
      assert (entries t' (set_entries t (drop_id c (entries t ab)) ab) = entries t' ab) as -> by (by destruct t, t').
      rewrite drop_id_absent in Hq; [done|]. apply not_true_iff_false. intros (en & Hen & Hid)%has_id_true.
      apply Hne, Hside. rewrite <- Hid. by apply Hab.
  - intros He'. exists [], e. assert (has_id c (entries t ab) = false) as Hno.
    { apply not_true_iff_false. intros (en & Hen & Hid)%has_id_true. destruct (Hrel t) as [_ Hq].
      assert (en ∈ at_tick (en_tick en) (entries t ab)) as Hat by (by apply at_tick_elem).
      destruct (Forall2_elem_r _ _ _ _ (Hq (en_tick en)) Hat) as (i & _ & (o & Ho & Hco & _)).
      specialize (Hcl1 i o Ho ltac:(done)). rewrite Hco, Hid, Ec in Hcl1. by apply elem_of_nil in Hcl1. }
    rewrite Hno, drop_id_absent by done. split_and!; [done|done|constructor|]. intros t'. specialize (Hrel t'). by destruct t, t'.
Qed.

(** ** How many slots *)

Definition slot_len b : nat := length (slots (store b)).

Lemma store_update_slots st i f : length (slots (store_update st i f)) = length (slots st).
Proof. unfold store_update. destruct (slot_index i), (store_get st i); cbn; by rewrite ?length_insert. Qed.

Lemma store_remove_slots st i : length (slots (store_remove st i).2) = length (slots st).
Proof. unfold store_remove. destruct (slot_index i), (store_get st i); cbn; by rewrite ?length_insert. Qed.

Lemma store_insert_slots st o : (length (slots (store_insert st o).2) <= S (length (slots st)))%nat.
Proof. unfold store_insert. destruct (free st); cbn; rewrite length_insert, ?length_app; cbn; lia. Qed.

Lemma level_mut_store b s tick f : store (level_mut b s tick f) = store b.
Proof.
  unfold level_mut, take_level. destruct s.
  - destruct (li_contains _ _); [by destruct (li_get_mut _ _ _)|by destruct (level_pool b)].
  - destruct (li_contains _ _); [by destruct (li_get_mut _ _ _)|by destruct (level_pool b)].
Qed.

Lemma note_insert_store b s tick : store (note_insert b s tick) = store b.
Proof. unfold note_insert. destruct s; by case_match. Qed.

Lemma remove_empty_level_store b s tick : store (remove_empty_level b s tick) = store b.
Proof.
  assert (∀ r b1, store (recycle_removed r b1) = store b1) as Hr.
  { intros [l|] b1; [|done]. cbn. unfold recycle_level. by case_match. }
  assert (∀ b1, store (note_remove_level b1 s tick) = store b1) as Hn by (intros b1; unfold note_remove_level; destruct s; by case_decide).
  unfold remove_empty_level. destruct s; [destruct (li_remove (bids b) tick) as [r i]|destruct (li_remove (asks b) tick) as [r i]]; by rewrite Hn, Hr.
Qed.

Lemma level_mut_for_remove_store b s tick f b' : level_mut_for_remove b s tick f = Some b' → store b' = store b.
Proof. destruct s; cbn; destruct (li_get_mut _ _ _); cbn; by intros [= <-]. Qed.

Lemma fill_order_slots b i q : slot_len (fill_order b i q).2 = slot_len b.
Proof.
  unfold fill_order, slot_len. destruct (store_get (store b) i) as [o|]; [|done].
  set (b1 := set_store _ b). assert (length (slots (store b1)) = slot_len b) as Hb1 by apply store_update_slots.
  destruct (level_mut_for_remove b1 _ _ _) as [b2|] eqn:El.
  - apply level_mut_for_remove_store in El. destruct (_ <=? 0); cbn; [|by rewrite El].
    rewrite store_remove_slots. case_match; by rewrite ?remove_empty_level_store, El.
  - destruct (_ <=? 0); cbn; [by rewrite store_remove_slots|done].
Qed.

Lemma take_maker_slots (st : Matching BI AI) tk tc tick i mo mc : slot_len (m_book (take_maker st tk tc tick i mo mc)) = slot_len (m_book st).
Proof.
  unfold take_maker. rewrite <- (fill_order_slots (m_book st) i (Z.min mo (m_open st))). by destruct (fill_order _ _ _).
Qed.

Lemma match_loop_slots s fuel : ∀ (st st' : Matching BI AI) tk tc limit mx fc,
  match_loop s fuel st tk tc limit mx fc = Some st' → slot_len (m_book st') = slot_len (m_book st).
Proof.
  induction fuel as [|fuel IH]; intros st st' tk tc limit mx fc; [by destruct s|].
  destruct s; cbn; intros Hm; repeat (case_match; simplify_eq; try done); apply IH in Hm; by rewrite Hm, take_maker_slots.
Qed.

Lemma match_side_slots s e tk tc limit mx evs e' :
  match_side (match_loop s) e tk tc limit mx = Some (evs, e') → slot_len (book e') = slot_len (book e).
Proof.
  unfold match_side. destruct (match_loop s _ _ _ _ _ _ _) as [st|] eqn:Em; [|done]. cbn. intros [= <- <-].
  unfold slot_len at 1. cbn. unfold set_taker_open. rewrite store_update_slots. apply match_loop_slots in Em. done.
Qed.

Lemma limit_slots e s p q ts c evs e' : on_limit e s p q ts c = Some (evs, e') → slot_count e' <= slot_count e + 1.
Proof.
  unfold on_limit. destruct (q <=? 0); [intros [= <- <-]; lia|].
  pose proof (store_insert_slots (store (book e)) (mkHpOrder 0 s p q q ts c)) as Hi. destruct (store_insert _ _) as [tk sto]. cbn [snd] in Hi.
  set (e1 := set_book _ e). change (length (slots sto)) with (slot_len (book e1)) in Hi.
  assert ((match s with Buy => match_buy e1 tk c (Some p) None | Sell => match_sell e1 tk c (Some p) None end)
    = match_side (match_loop s) e1 tk c (Some p) None) as -> by (by destruct s).
  destruct (match_side _ _ _ _ _ _) as [[evs2 e2]|] eqn:Em; [|done]. cbn [mbind option_bind]. apply match_side_slots in Em.
  assert (slot_len (book e') = slot_len (book e2) → slot_count e' <= slot_count e + 1) as Hgo by (unfold slot_count, slot_len in *; lia).
  destruct (_ >? 0).
  - unfold rest. destruct (store_get _ tk) as [o|]; [|done]. cbn. intros [= <- <-]. apply Hgo. cbn.
    unfold slot_len. by rewrite note_insert_store, level_mut_store.
  - intros [= <- <-]. apply Hgo. apply store_remove_slots.
Qed.

Lemma cancel_slots b i : slot_len (cancel b i).2 = slot_len b.
Proof.
  unfold cancel, slot_len. pose proof (store_remove_slots (store b) i) as Hr. destruct (store_remove (store b) i) as [[o|] st]; [|done]. cbn in *.
  unfold remove_from_level. destruct (level_mut_for_remove _ _ _ _) as [b2|] eqn:El; [|done]. apply level_mut_for_remove_store in El.
  case_match; by rewrite ?remove_empty_level_store, El.
Qed.

Lemma cancel_all_slots c il : ∀ b, slot_len (cancel_all c il b).2 = slot_len b.
Proof.
  induction il as [|i il IH]; intros b; cbn; [done|]. pose proof (cancel_slots b i) as Hc. destruct (cancel b i) as [[] b1]; cbn in Hc; rewrite <- Hc.
  - rewrite <- (IH b1). by destruct (cancel_all c il b1).
  - apply IH.
Qed.

Lemma on_cancel_slots e i : slot_count (on_cancel e i).2 = slot_count e.
Proof.
  unfold on_cancel, slot_count. f_equal. destruct (store_get _ i) as [o|].
  - pose proof (cancel_slots (book e) i) as Hc. by destruct (cancel (book e) i) as [[] b1].
  - destruct (client_to_id e !! i) as [il|]; [|done]. pose proof (cancel_all_slots i il (book e)) as Hc. by destruct (cancel_all i il (book e)).
Qed.

(** ** A stream *)

(** The command is the abstract one: ticks and lots within their types, and the
    number above [n], the ids the engine may have used. *)
Definition hp_command (n : Z) (cmd : HpCommand) (c : acommand) : Prop :=
  match c with
  | ALimit t id tick lot => ∃ ts, cmd = Limit (hp_side t) tick lot ts id ∧ in_i64 tick ∧ 0 < lot <= i64_max
  | ARevoke t id => cmd = Cancel id ∧ n < id
  end.

Fixpoint hp_run_each e (l : list HpCommand) : option (list (list HpEvent) * HpEngine BI AI) :=
  match l with
  | [] => Some ([], e)
  | c :: l => '(evs, e) ← hp_on_order e c; '(evss, e) ← hp_run_each e l; Some (evs :: evss, e)
  end.

(** Every command of the stream is its command on the priority book. *)
Lemma hp_stream_run n cmds : ∀ cs seen e ab,
  Forall2 (hp_command n) cmds cs → a_stream seen cs → abook_ok seen ab → engine_ok e → hp_rel (book e) ab →
  slot_count e + Z.of_nat (length cmds) <= n →
  let '(aevss, ab') := a_run ab cs in
  ∃ evss e', hp_run_each e cmds = Some (evss, e') ∧ Forall2 hp_events evss aevss ∧ hp_rel (book e') ab'.
Proof.
  induction cmds as [|cmd cmds IH]; intros cs seen e ab Hcs Hst Hab He Hrel Hn.
  - apply Forall2_nil_inv_l in Hcs as ->. exists [], e. by split_and!.
  - apply Forall2_cons_inv_l in Hcs as (c & cs' & Hc & Hcs & ->). destruct (a_step_ok _ _ _ _ Hab Hst) as [Hab1 Hst1].
    cbn [a_run length] in *.
    assert (let '(aevs, ab1) := a_step ab c in ∃ evs e1, hp_on_order e cmd = Some (evs, e1) ∧ engine_ok e1
      ∧ hp_events evs aevs ∧ hp_rel (book e1) ab1 ∧ slot_count e1 <= slot_count e + 1) as Hstep.
    { destruct c as [t id tick lot|t id]; cbn [hp_command] in Hc.
      - destruct Hc as (ts & -> & Ht & Hl). pose proof (hp_limit_step e ab t id tick lot ts He Hrel Ht Hl) as Hs. destruct (a_step ab _) as [aevs ab1].
        destruct Hs as (evs & e1 & Hon & He1 & Hev & Hr). exists evs, e1. split_and!; try done. by eapply limit_slots.
      - destruct Hc as [-> Hid]. inversion Hst as [| |???? Hside _]; subst.
        pose proof (hp_cancel_step e ab seen t id He Hrel Hab Hside ltac:(lia)) as Hs. destruct (a_step ab _) as [aevs ab1].
        destruct Hs as (evs & e1 & Hon & He1 & Hev & Hr). exists evs, e1. split_and!; try done.
        pose proof (on_cancel_slots e id) as Hsl. cbn in Hon. injection Hon as Hon. rewrite Hon in Hsl. cbn in Hsl. lia. }
    destruct (a_step ab c) as [aevs ab1]. destruct Hstep as (evs & e1 & Hon & He1 & Hev & Hr & Hsl).
    specialize (IH cs' _ e1 ab1 Hcs Hst1 Hab1 He1 Hr ltac:(lia)). destruct (a_run ab1 cs') as [aevss ab2].
    destruct IH as (evss & e2 & Hrun & Hevs & Hr2). exists (evs :: evss), e2. cbn [hp_run_each]. rewrite Hon. cbn [mbind option_bind].
    rewrite Hrun. split_and!; [done|by constructor|done].
Qed.

Lemma hp_rel_new : hp_rel (book (hp_engine_new : HpEngine BI AI)) abook_new ∧ abook_ok [] abook_new ∧ slot_count hp_engine_new = 0.
Proof.
  destruct (li_default_spec (I:=BI)) as [_ Hb], (li_default_spec (I:=AI)) as [_ Ha].
  split_and!; [|split; [constructor|intros []; split; [constructor|set_solver|constructor|set_solver]]|done].
  intros t. split; [destruct t; constructor|]. intros tick. unfold queue. destruct t; cbn; rewrite ?Hb, ?Ha, lookup_empty; constructor.
Qed.

End Cross.
