(* ===== verification/CrossProps.v ===== *)
(** * The two engines agree

    [match-core] matches decimals on sorted sets, [match-core-hp] matches ticks and
    lots on one queue per tick, behind the conversion of [adapter.rs].  On a stream of
    limit orders and revokes for one symbol that both can read, they report the same
    fills and revokes, order by order, and hold the same orders in the same priority:
    both run the priority book of [PriorityBook]. *)
From stdpp Require Import gmap.
From S2P Require Import Prelude Decimal Protocol CoreBook CoreMatch CoreSpec CoreEngine HpTypes HpIndex HpBook HpEngine HpProps HpScale Utf8 Adapter PlainDecimal PriorityBook CrossCore CrossHp.
From Stdlib Require Import QArith.

#[local] Open Scope Z_scope.

(** The number of an order as [adapter.rs] reads it. *)
Definition order_id (no : string) : option Z := parse_u64 (bytes_of no).

Section Agree.
Context `{PT : PlainText} {BI AI : Type} `{LB : LevelIndex BI} `{LA : LevelIndex AI}
  `{SB : !LevelIndexSpec BI Buy} `{SA : !LevelIndexSpec AI Sell} (sc : SymbolScale).
Implicit Types (o : BbOrder) (os : list BbOrder) (t : aside) (e : HpEngine BI AI).

Lemma plain_worth d g I f k :
  plain d g I f → Z.of_nat (length (frac f)) <= k → worth (unit k) d (plain_value k g I f).
Proof.
  intros Hp Hk. unfold worth. rewrite (plain_text_value _ _ _ _ Hp). unfold plain_value, unit. set (n := Z.of_nat _) in *.
  set (v := HpScale.num (I ++ frac f)). assert (10 ^ k = 10 ^ (k - n) * 10 ^ n) as Hpow by (rewrite <- Z.pow_add_r by lia; f_equal; lia).
  assert (0 < 10 ^ n) as H1 by (apply Z.pow_pos_nonneg; lia). assert (0 < 10 ^ (k - n)) as H2 by (apply Z.pow_pos_nonneg; lia).
  unfold Qeq, Qmult, inject_Z. cbn [Qnum Qden]. rewrite !Pos.mul_1_l, !Z.mul_1_r, !Z2Pos.id by nia. rewrite Hpow.
  destruct g; cbn [signed]; ring.
Qed.

(** A decimal in plain notation that is [z] units of the scale [k], within 64 bits. *)
Definition reads (k : Z) (d : bd) (z : Z) : Prop :=
  ∃ g I f, plain d g I f ∧ Z.of_nat (length (frac f)) <= k ∧ z = plain_value k g I f ∧ Z.abs z <= i64_max.

(** A limit order with a price of [tick] ticks and [lot] lots open. *)
Definition limit_of o t (id tick lot : Z) : Prop :=
  is_revoke o = false ∧ order_form o = ORDER_FORM_LIMIT ∧ order_type o = side_order_type (side_of t) ∧ 0 <= create_time o
  ∧ order_id (trust_order_no o) = Some id ∧ reads (price_scale sc) (trust_price o) tick
  ∧ reads (qty_scale sc) (remaining_number o) lot ∧ 0 < lot ∧ bd_eq (remaining_number o) (remaining o).

Definition revoke_of o t (id : Z) : Prop :=
  is_revoke o = true ∧ order_type o = side_order_type (side_of t) ∧ order_id (trust_order_no o) = Some id.

(** A stream of limit orders and revokes for [sym]: the orders come in the order of
    their times under numbers not used before; a revoke spells the number and names
    the side of the order it is for, and the number is above [n].  [last] and [seen]
    are the time of the last order and the numbers and sides so far. *)
Inductive order_stream (sym : string) (n : Z) : Z → list (string * aside) → list BbOrder → Prop :=
| os_end last seen : order_stream sym n last seen []
| os_limit last seen o t id tick lot os :
    symbol_key o = sym → limit_of o t id tick lot → last < create_time o → Forall (λ x, order_id x.1 ≠ Some id) seen →
    order_stream sym n (create_time o) ((trust_order_no o, t) :: seen) os → order_stream sym n last seen (o :: os)
| os_revoke last seen o t id os :
    symbol_key o = sym → revoke_of o t id → n < id →
    Forall (λ x, order_id x.1 = Some id → x = (trust_order_no o, t)) seen →
    order_stream sym n last seen os → order_stream sym n last seen (o :: os).

(** ** What both engines read *)

Definition seen_ids (seen : list (string * aside)) : list (Z * aside) :=
  omap (λ x, (λ id, (id, x.2)) <$> order_id x.1) seen.

Lemma seen_ids_elem seen id t : (id, t) ∈ seen_ids seen ↔ ∃ no, (no, t) ∈ seen ∧ order_id no = Some id.
Proof.
  unfold seen_ids. rewrite list_elem_of_omap. split.
  - intros ([no t'] & Hin & Hx). cbn in Hx. destruct (order_id no) as [id'|] eqn:E; [|done]. cbn in Hx. simplify_eq. by exists no.
  - intros (no & Hin & Hno). exists (no, t). split; [done|]. cbn. by rewrite Hno.
Qed.

Lemma limit_core o t id tick lot :
  limit_of o t id tick lot → new_limit order_id (unit (price_scale sc)) (unit (qty_scale sc)) o t id tick lot.
Proof.
  intros (Hr & Hf & Ht & _ & Hid & (g & I & f & Hp & Hk & -> & _) & (g' & I' & f' & Hq & Hk' & -> & _) & Hpos & Heq).
  pose proof (plain_worth _ _ _ _ _ Hp Hk) as Wp. pose proof (plain_worth _ _ _ _ _ Hq Hk') as Wq. unfold worth, bd_eq in *.
  assert (⟦remaining o⟧ == inject_Z (plain_value (qty_scale sc) g' I' f') * unit (qty_scale sc))%Q as Wr by (by rewrite <- Heq).
  split; [done|]. split; [done|]. split; [rewrite Ht; by destruct t|]. split; [|by split_and!]. split; [|done]. rewrite Wr.
  rewrite <- (Qmult_0_l (unit (qty_scale sc))). by apply (unit_lt (unit (qty_scale sc)) 0).
Qed.

Lemma limit_hp n o t id tick lot :
  limit_of o t id tick lot → ∃ cmd, from_bb_order o sc = inr cmd ∧ hp_command n cmd (ALimit t id tick lot).
Proof.
  intros (Hr & Hf & Ht & Hct & Hid & (g & I & f & Hp & Hk & Htick & Hmax) & (g' & I' & f' & Hq & Hk' & Hlot & Hmax') & Hpos & _).
  eexists. split.
  - eapply (adapter_limit_exact o sc (hp_side t) id g I f g' I' f'); [| |rewrite Ht; by destruct t| | | | | | | |]; try done; try congruence.
    + intros Hs. unfold is_revoke in Hr. rewrite Hs in Hr. done.
    + unfold parse_id. unfold order_id in Hid. by rewrite Hid.
  - exists (create_time o). rewrite <- Htick, <- Hlot. split_and!; [done|unfold in_i64, i64_max in *; lia..].
Qed.

Lemma stream_commands sym n last seen os :
  order_stream sym n last seen os →
  ∃ cs cmds, core_stream order_id (unit (price_scale sc)) (unit (qty_scale sc)) sym last seen.*1 os cs
    ∧ Forall2 (λ o cmd, from_bb_order o sc = inr cmd) os cmds ∧ Forall2 (hp_command n) cmds cs ∧ a_stream (seen_ids seen) cs.
Proof.
  induction 1 as [last seen|last seen o t id tick lot os Hsym Hlim Hlast Hfresh _ (cs & cmds & Hcs & Hcv & Hcm & Has)
                  |last seen o t id os Hsym Hrev Hid Hsame _ (cs & cmds & Hcs & Hcv & Hcm & Has)].
  - exists [], []. split_and!; constructor.
  - destruct (limit_hp n _ _ _ _ _ Hlim) as (cmd & Hconv & Hcmd). exists (ALimit t id tick lot :: cs), (cmd :: cmds).
    pose proof Hlim as (_ & _ & _ & _ & Hno & _). rewrite Forall_forall in Hfresh. split_and!; [|by constructor|by constructor|].
    + econstructor; try done; [by apply limit_core|]. apply Forall_forall. intros x (y & -> & Hy)%list_elem_of_fmap. by apply Hfresh.
    + constructor.
      * intros ([id' t'] & -> & (no & Hin & Hno')%seen_ids_elem)%list_elem_of_fmap. by apply (Hfresh _ Hin).
      * cbn [seen_ids omap list_omap fst snd] in Has. rewrite Hno in Has. exact Has.
  - exists (ARevoke t id :: cs), (Cancel id :: cmds). destruct Hrev as (Hr & Ht & Hno). rewrite Forall_forall in Hsame. split_and!.
    + econstructor; try done; [rewrite Ht; by destruct t|]. apply Forall_forall. intros x (y & -> & Hy)%list_elem_of_fmap Hx.
      by rewrite (Hsame y Hy Hx).
    + constructor; [|done]. unfold from_bb_order, parse_id. unfold is_revoke in Hr. rewrite Hr. unfold order_id in Hno. by rewrite Hno.
    + constructor; [|done]. by split.
    + constructor; [|done]. intros t' (no & Hin & Hx)%seen_ids_elem. by injection (Hsame _ Hin Hx).
Qed.

(** ** Agreement *)

(** The same fill or revoke, in decimals and in ticks and lots. *)
Definition same_event (ev : MatchEvent) (hev : HpEvent) : Prop :=
  ∃ a, core_event order_id (unit (price_scale sc)) (unit (qty_scale sc)) ev a ∧ hp_event hev a.

Lemma worker_run_each os cmds e evss e' :
  Forall2 (λ o cmd, from_bb_order o sc = inr cmd) os cmds → hp_run_each e cmds = Some (evss, e') →
  hp_worker_run e sc os = Some (concat evss, e').
Proof.
  intros Hcv. revert e evss. induction Hcv as [|o cmd os cmds Hc _ IH]; intros e evss; cbn [hp_run_each hp_worker_run]; [by intros [= <- <-]|].
  unfold hp_worker_step. rewrite Hc. destruct (hp_on_order e cmd) as [[evs e1]|]; [|done]. cbn [mbind option_bind].
  destruct (hp_run_each e1 cmds) as [[evss1 e2]|] eqn:Er; [|done]. cbn [mbind option_bind]. intros [= <- <-]. by rewrite (IH _ _ Er).
Qed.

Lemma events_agree evss hevss aevss :
  Forall2 (Forall2 (core_event order_id (unit (price_scale sc)) (unit (qty_scale sc)))) evss aevss → Forall2 hp_events hevss aevss →
  Forall2 (λ evs hevs, Forall2 same_event evs (List.filter not_rest hevs)) evss hevss.
Proof.
  intros Hc. revert hevss. induction Hc as [|evs aevs evss aevss Hev _ IH]; intros hevss Hh.
  - apply Forall2_nil_inv_r in Hh as ->. constructor.
  - apply Forall2_cons_inv_r in Hh as (hevs & hevss' & Hhev & Hh & ->). constructor; [|by apply IH]. unfold hp_events in Hhev.
    clear -Hev Hhev. revert Hhev. generalize (List.filter not_rest hevs). clear hevs.
    induction Hev as [|ev a evs aevs Ha _ IH]; intros hevs Hh.
    + apply Forall2_nil_inv_r in Hh as ->. constructor.
    + apply Forall2_cons_inv_r in Hh as (hev & hevs' & Hx & Hh & ->). constructor; [by exists a|by apply IH].
Qed.

(** C6.  The two engines agree.  On any stream of limit orders and revokes for one
    symbol that is in time order, uses each number once and writes prices and
    quantities as whole ticks and lots in plain notation, [match-core] and the
    worker over [match-core-hp] both handle every order; order by order they report
    the same fills, with the same taker, maker, price, quantity and remainders,
    and the same revokes; and at the end both books hold the same orders with the
    same open quantities in the same price-time priority.  Numbers that are revoked
    must be above the length of the stream, which bounds the ids [match-core-hp]
    hands out itself. *)
Theorem engines_agree sym n last os :
  order_stream sym n last [] os → Z.of_nat (length os) <= n →
  ∃ evss ce hevss he ab,
    run_each engine_new os = Some (evss, ce) ∧ hp_worker_run (hp_engine_new : HpEngine BI AI) sc os = Some (concat hevss, he)
    ∧ Forall2 (λ evs hevs, Forall2 same_event evs (List.filter not_rest hevs)) evss hevss
    ∧ core_rel order_id (unit (price_scale sc)) (unit (qty_scale sc)) (book_of ce sym) ab ∧ hp_rel (book he) ab.
Proof.
  intros Hos Hn. destruct (stream_commands _ _ _ _ _ Hos) as (cs & cmds & Hcs & Hcv & Hcm & Has).
  destruct hp_rel_new as (Hrel & Hab & Hsl). assert (length cmds = length os) as Hlen by (by apply Forall2_length in Hcv).
  pose proof (core_stream_run order_id _ _ (unit_pos _) (unit_pos _) sym os last [] cs engine_new abook_new Hcs (core_state_new order_id _ _ (unit_pos _) (unit_pos _) sym last)) as Hcore.
  pose proof (hp_stream_run n cmds cs [] hp_engine_new abook_new Hcm Has Hab hp_engine_new_ok Hrel ltac:(lia)) as Hhp.
  destruct (a_run abook_new cs) as [aevss ab]. destruct Hcore as (evss & ce & Hrun & Hev & Hr). destruct Hhp as (hevss & he & Hhrun & Hhev & Hhr).
  exists evss, ce, hevss, he, ab. split_and!; [done|by eapply worker_run_each|by eapply events_agree|done|done].
Qed.

End Agree.

(** ** Witness *)
Module Witness.
Import HpProps.Witness WholeDecimal.

Definition sc0 : SymbolScale := mkScale 0 0.

Definition order (ty status : Z) (no : string) (time number price : Z) : BbOrder :=
  let d z := SciDecimal.Dec z 0 : bd in
  mkBbOrder 1 1 1 ty 1 1 "s"%string "m"%string no ORDER_FORM_LIMIT None 0 (d 0) (d 0) 1 1 status
    (d 0) (d 0) (d number) (d price) (d number) time None (d 0).

(** Two asks, a bid through both of them, a revoke of what it left, one of a
    number no longer there. *)
Definition five : list BbOrder :=
  [order 2 1 "901"%string 1 5 101; order 2 1 "902"%string 2 4 100; order 1 1 "903"%string 3 12 101;
   order 1 3 "903"%string 4 12 101; order 2 3 "902"%string 5 4 100].

Lemma reads_whole z : 0 <= z < 2 ^ 63 → reads 0 (SciDecimal.Dec z 0 : bd) z.
Proof.
  intros Hz. destruct (u64_to_string_spec z ltac:(lia)) as (Hd & Hn & Hne & _). exists NoSign, (u64_to_string z), None.
  split_and!; [split_and!; [|done|done|constructor]|done| |unfold i64_max; lia].
  - unfold decimal_text. cbn [bd_to_string bd_normalized whole_decimal]. change (SciDecimal.normalized (SciDecimal.Dec z 0)) with (SciDecimal.Dec z 0).
    unfold print. cbn [SciDecimal.scale SciDecimal.mant]. rewrite (proj2 (Z.leb_le 0 z)), (proj2 (Z.ltb_lt z (2 ^ 63))) by lia. cbn [Nat.eqb andb].
    by rewrite String.list_ascii_of_string_of_list_ascii, app_nil_r.
  - unfold plain_value. cbn [signed frac default]. change (frac None) with (@nil ascii). rewrite app_nil_r, Hn. cbn. lia.
Qed.

Lemma order_limit ty no time number price t id :
  ty = side_order_type (side_of t) → order_id no = Some id → 0 <= time → 0 < number < 2 ^ 63 → 0 <= price < 2 ^ 63 →
  limit_of sc0 (order ty 1 no time number price) t id price number.
Proof.
  intros -> Hid Ht Hn Hp. split_and!; [done|done|done|done|done|apply reads_whole; lia|apply reads_whole; lia|lia|].
  unfold bd_eq, remaining. rewrite bd_val_sub. cbn. unfold SciDecimal.value, Qeq. cbn. lia.
Qed.

Ltac five_limit side num p q :=
  eapply (os_limit _ _ _ _ _ _ side num p q);
  [reflexivity|apply order_limit; [reflexivity|vm_compute; reflexivity|lia..]|cbn; lia
  |repeat (apply Forall_cons_2; [cbn [fst]; vm_compute; discriminate|]); apply Forall_nil_2|].

Ltac five_revoke side num :=
  eapply (os_revoke _ _ _ _ _ _ side num);
  [reflexivity|split_and!; [reflexivity|reflexivity|vm_compute; reflexivity]|lia
  |repeat (apply Forall_cons_2; [cbn [fst]; vm_compute; first [reflexivity|discriminate]|]); apply Forall_nil_2|].

Lemma five_stream : order_stream sc0 "s"%string 900 0 [] five.
Proof.
  unfold five. five_limit ASell 901 101 5. five_limit ASell 902 100 4. five_limit ABuy 903 101 12.
  five_revoke ABuy 903. five_revoke ASell 902. constructor.
Qed.

Lemma engines_agree_witness :
  ∃ evss ce hevss (he : eng) ab,
    run_each engine_new five = Some (evss, ce) ∧ hp_worker_run hp_engine_new sc0 five = Some (concat hevss, he)
    ∧ Forall2 (λ evs hevs, Forall2 (same_event sc0) evs (List.filter not_rest hevs)) evss hevss
    ∧ core_rel order_id (unit 0) (unit 0) (book_of ce "s"%string) ab ∧ hp_rel (book he) ab.
Proof. apply (engines_agree (PT := whole_plain) sc0 "s"%string 900 0 five five_stream). cbn. lia. Defined.

(** What the five orders do. *)
Example five_events :
  fst <$> hp_worker_run (hp_engine_new : eng) sc0 five
  = Some [Rest 1 901 Sell 101 5; Rest 2 902 Sell 100 4; Fill 2 3 902 903 100 4 0 8; Fill 1 3 901 903 101 5 0 3;
          Rest 3 903 Buy 101 3; Revoke 3 903 0].
Proof. vm_compute. reflexivity. Qed.

End Witness.
