(* ===== verification/Workload.v ===== *)
(** * match-bench: workloads, tiers and the fair comparison

    Models [crates/match-bench/src/workload.rs] (the parallel sequences for the two
    engines), [tier.rs] (the matrix of resting depth, stream length and fill
    intensity), [metrics.rs] ([fill_rate]), and of [bin/fair_compare.rs] and
    [bin/tier_sweep.rs] what they compute: the fill counts, the verdict and the
    gates.  Times are not modelled.  A rate is the exact fraction; the programs compute
    it in [f64]. *)
From stdpp Require Import gmap sorting.
From S2P Require Import Prelude Decimal Protocol CoreBook CoreMatch CoreEngine HpTypes HpIndex HpBook HpEngine HpScale.
From Stdlib Require Import QArith Qabs.

#[local] Open Scope Z_scope.

(** ** [workload.rs] *)

Definition core_side (buy : bool) : CoreBook.Side := if buy then CoreBook.Buy else CoreBook.Sell.
Definition hp_side (buy : bool) : Side := if buy then Buy else Sell.

(** [format!("{}.{:02}", tick / 100, tick % 100)] *)
Definition price_text (tick : Z) : string :=
  String.string_of_list_ascii (i64_to_string (tick `quot` 100) ++ DOT :: zero_padded 2 (tick `rem` 100)).

(** [format!("<prefix>{i}")] *)
Definition numbered (prefix : string) (i : nat) : string :=
  (prefix +:+ String.string_of_list_ascii (u64_to_string (Z.of_nat i)))%string.

Definition idx (i : nat) : Z := Z.of_nat i.

Section Workload.
Context `{BD : BigDecimal}.

(** [dec]; [None] is the panic of [expect]. *)
Definition dec (s : string) : option bd := bd_from_str s.

(** [BbOrder::test_limit] with the texts parsed. *)
Definition limit_text (buy : bool) (price no : string) (time : Z) (qty : string) : option BbOrder :=
  p ← dec price; q ← dec qty; Some (test_limit (core_side buy) p no time q).

Definition hp_limit_at (buy : bool) (tick lot ts client : Z) : HpCommand := Limit (hp_side buy) tick lot ts client.

(** Both sequences grow by one order at a time. *)
Definition workload := list (BbOrder * HpCommand).

Definition both (o : option BbOrder) (c : HpCommand) : option (BbOrder * HpCommand) := o ← o; Some (o, c).

(** [for i in 0..n] *)
Definition for_each (n : nat) (body : nat → option (BbOrder * HpCommand)) : option workload := mapM body (seq 0 n).

Definition rest_only (n : nat) : option workload :=
  for_each n (λ i,
    let price_tick := 10000 + idx (i mod 100) in
    both (limit_text true (price_text price_tick) (numbered "r" i) (i64_wrap (idx i)) "1")
         (hp_limit_at true price_tick 1000000 (idx i) (idx i))).

Definition cross_full (n : nat) : option workload :=
  let half := (n / 2)%nat in
  let price_tick := 10000 in
  let price := "100.00"%string in
  a ← for_each half (λ i,
        both (limit_text false price (numbered "s" i) (i64_wrap (idx i)) "1")
             (hp_limit_at false price_tick 1000000 (idx i) (idx i)));
  b ← for_each half (λ i,
        let t := i64_wrap (idx (half + i)) in
        both (limit_text true price (numbered "b" i) t "1")
             (hp_limit_at true price_tick 1000000 (u64_wrap t) (idx (half + i))));
  Some (a ++ b).

Definition fair_cross (n : nat) : option workload := cross_full n.

Definition partial_walk (n : nat) : option workload :=
  let makers := ((n * 4) / 5)%nat in
  let takers := (n - makers)%nat in
  a ← for_each makers (λ i,
        let price_tick := 10000 + idx (i mod 200) in
        both (limit_text false (price_text price_tick) (numbered "pw_s" i) (i64_wrap (idx i)) "1")
             (hp_limit_at false price_tick 1000000 (idx i) (idx i)));
  b ← for_each takers (λ i,
        let t := i64_wrap (idx (makers + i)) in
        both (limit_text true "102.00" (numbered "pw_b" i) t "5")
             (hp_limit_at true 10200 5000000 (u64_wrap t) (idx (makers + i))));
  Some (a ++ b).

(** [rev.order_status = ORDER_STATUS_REVOKE] *)
Definition revoke_text (price no : string) (time : Z) : option BbOrder :=
  set_order_status ORDER_STATUS_REVOKE <$> limit_text true price no time "1".

Definition cancel_hot (n : nat) : option workload :=
  let half := (n / 2)%nat in
  a ← for_each half (λ i,
        let price_tick := 10000 + idx (i mod 50) in
        both (limit_text true (price_text price_tick) (numbered "" i) (i64_wrap (idx i)) "1")
             (hp_limit_at true price_tick 1000000 (idx i) (idx i)));
  b ← for_each half (λ i,
        let t := i64_wrap (idx (half + i)) in
        both (revoke_text "100.00" (numbered "" i) t) (Cancel (idx i + 1)));
  Some (a ++ b).

(** One round of the loop of [mixed]: the pair pushed, [next_cancel_id],
    [resting_core_nos] with its last element first. *)
Definition mixed_step (i : nat) (next_cancel_id : Z) (resting : list string) :
    option ((BbOrder * HpCommand) * Z * list string) :=
  let t := i64_wrap (idx i) in
  match ((i / 64) mod 4)%nat with
  | 0%nat =>
      let no := numbered "m_s" i in
      p ← both (limit_text false "100.00" no t "1") (hp_limit_at false 10000 1000000 (idx i) (idx i));
      Some (p, next_cancel_id + 1, no :: resting)
  | 1%nat =>
      p ← both (limit_text true "100.00" (numbered "m_b" i) t "1") (hp_limit_at true 10000 1000000 (idx i) (idx i));
      Some (p, next_cancel_id, tail resting)
  | 2%nat =>
      let no := numbered "m_r" i in
      p ← both (limit_text true "90.00" no t "1") (hp_limit_at true 9000 1000000 (idx i) (idx i));
      Some (p, next_cancel_id, no :: resting)
  | _ =>
      match resting with
      | no :: resting =>
          p ← both (revoke_text "90.00" no t) (Cancel (Z.max (Z.max 0 (next_cancel_id - 1)) 1));
          Some (p, next_cancel_id, resting)
      | [] =>
          p ← both (limit_text true "89.00" (numbered "m_f" i) t "1") (hp_limit_at true 8900 1000000 (idx i) (idx i));
          Some (p, next_cancel_id, [])
      end
  end.

Fixpoint mixed_from (k i : nat) (next_cancel_id : Z) (resting : list string) : option workload :=
  match k with
  | O => Some []
  | S k =>
      '(p, next, resting) ← mixed_step i next_cancel_id resting;
      l ← mixed_from k (S i) next resting; Some (p :: l)
  end.

Definition mixed (n : nat) : option workload := mixed_from n 0 1 [].

(** ** [fair_compare.rs] *)

Definition is_core_fill (ev : MatchEvent) : bool := match ev with CoreMatch.Fill _ _ _ _ _ _ _ _ _ _ _ => true | _ => false end.

Definition is_hp_fill (ev : HpEvent) : bool := match ev with Fill _ _ _ _ _ _ _ _ => true | _ => false end.

Definition fills {A} (is_fill : A → bool) (evs : list A) : Z := Z.of_nat (length (List.filter is_fill evs)).

Definition count_core_fills (orders : list BbOrder) : option Z := fills is_core_fill ∘ fst <$> run engine_new orders.

Context {BI AI : Type} `{LB : LevelIndex BI} `{LA : LevelIndex AI}.

Definition count_hp_fills (cmds : list HpCommand) : option Z :=
  fills is_hp_fill ∘ fst <$> hp_run (hp_engine_with_capacity : HpEngine BI AI) cmds.

(** [RunStats::fill_rate] *)
Definition fill_rate (n_orders n_fills : Z) : Q := if n_orders =? 0 then 0%Q else (inject_Z n_fills / inject_Z n_orders)%Q.

(** [main]: the counts and whether the comparison is valid. *)
Definition fair_compare (n : nat) (min_fill_rate : Q) : option (Z * Z * bool) :=
  let n := Nat.max n 2 in
  w ← fair_cross n;
  core_fills ← count_core_fills w.*1;
  hp_fills ← count_hp_fills w.*2;
  let valid f := Qle_bool min_fill_rate (fill_rate (idx n) f) in
  Some (core_fills, hp_fills, valid core_fills && valid hp_fills).

End Workload.

(** ** [tier.rs] *)

Inductive FillBand := Low | Mid | High.

#[export] Instance FillBand_eq_dec : EqDecision FillBand.
Proof. solve_decision. Defined.

Definition band_as_str (b : FillBand) : string :=
  match b with Low => "low" | Mid => "mid" | High => "high" end.

Definition band_parse (s : string) : option FillBand :=
  if String.eqb s "low" then Some Low else if String.eqb s "mid" then Some Mid
  else if String.eqb s "high" then Some High else None.

Record TierCell := mkCell { cell_rest : nat; cell_stream : nat; cell_tier : FillBand }.

Definition preset_default : list TierCell :=
  rest ← [1000; 10000; 100000]; stream ← [10000; 50000; 200000]; tier ← [Low; Mid; High];
  [mkCell (Z.to_nat rest) (Z.to_nat stream) tier].

Definition preset_quick : list TierCell :=
  (λ '(rest, stream, tier), mkCell (Z.to_nat rest) (Z.to_nat stream) tier)
  <$> [(1000, 10000, Low); (10000, 50000, Mid); (10000, 50000, High); (100000, 50000, Mid)].

Definition warm_rest (rest : nat) (id_base : Z) : list HpCommand :=
  (λ i, Limit Buy (1000 + idx (i mod 500)) 1000000 (idx i) (u64_wrap (id_base + idx i))) <$> seq 0 rest.

Definition seed_asks_for_walk (n : nat) (id_base : Z) : list HpCommand :=
  (λ i, Limit Sell (20000 + idx (i mod 2000)) 1000000 (idx i) (u64_wrap (id_base + idx i))) <$> seq 0 n.

Definition high_tier_ask_seed (stream : nat) (id_base : Z) : list HpCommand :=
  seed_asks_for_walk (Nat.max (stream * 2) stream) id_base.

(** [id] and [ts] count up with every command. *)
Definition stream_low (stream : nat) (id_base : Z) : list HpCommand :=
  let crosses := Nat.max (stream / 10) 1 in
  let rest := (stream - crosses * 2)%nat in
  let rests := (λ i, Limit Buy (2000 + idx (i mod 300)) 1000000 (idx i) (u64_wrap (id_base + idx i))) <$> seq 0 rest in
  let pair i :=
    let k := (rest + 2 * i)%nat in
    [Limit Sell 50000 1000000 (idx k) (u64_wrap (id_base + idx k));
     Limit Buy 50000 1000000 (idx (S k)) (u64_wrap (id_base + idx (S k)))] in
  take stream (rests ++ (seq 0 crosses ≫= pair)).

Definition stream_mid (stream : nat) (id_base : Z) : list HpCommand :=
  let half := (stream / 2)%nat in
  ((λ i, Limit Sell 50000 1000000 (idx i) (u64_wrap (id_base + idx i))) <$> seq 0 half)
  ++ ((λ i, Limit Buy 50000 1000000 (idx (half + i)) (u64_wrap (id_base + idx (half + i)))) <$> seq 0 half).

Definition stream_high (stream : nat) (id_base : Z) : list HpCommand :=
  (λ i, Limit Buy 30000 2000000 (idx i) (u64_wrap (id_base + idx i))) <$> seq 0 stream.

Definition stream_cmds (cell : TierCell) (id_base : Z) : list HpCommand :=
  match cell_tier cell with
  | Low => stream_low (cell_stream cell) id_base
  | Mid => stream_mid (cell_stream cell) id_base
  | High => stream_high (cell_stream cell) id_base
  end.

Definition warm_cmds (cell : TierCell) : list HpCommand :=
  warm_rest (cell_rest cell) 1
  ++ (if decide (cell_tier cell = High) then
        high_tier_ask_seed (cell_stream cell) (1 + idx (cell_rest cell) + 1000000) else []).

Definition stream_id_base (cell : TierCell) : Z :=
  let warm_n := (cell_rest cell
    + (if decide (cell_tier cell = High) then Nat.max (cell_stream cell * 2) (cell_stream cell) else 0))%nat in
  idx warm_n + 10000000.

(** ** [tier_sweep.rs] *)

Section Sweep.
Context {BI AI : Type} `{LB : LevelIndex BI} `{LA : LevelIndex AI}.
Implicit Types e : HpEngine BI AI.

(** The timed loop: the fills and the highest [client_map_len] seen. *)
Fixpoint timed_run e (l : list HpCommand) (fill_count : Z) (peak : nat) : option (Z * nat) :=
  match l with
  | [] => Some (fill_count, peak)
  | c :: l =>
      '(evs, e) ← hp_on_order e c;
      timed_run e l (fill_count + fills is_hp_fill evs) (Nat.max peak (client_map_len e))
  end.

Definition run_once (cell : TierCell) : option (Z * nat) :=
  '(_, e) ← hp_run (hp_engine_with_capacity : HpEngine BI AI) (warm_cmds cell);
  timed_run e (stream_cmds cell (stream_id_base cell)) 0 (client_map_len e).

End Sweep.

Definition gate_ok (tier : FillBand) (rate : Q) : bool :=
  match tier with
  | Low => Qle_bool (Qabs (rate - (10 # 100))) (5 # 100)
  | Mid => Qle_bool (Qabs (rate - (50 # 100))) (5 # 100)
  | High => Qle_bool (15 # 10) rate
  end.

(** [xs.sort_unstable(); xs[xs.len() / 2]] for the fill counts. *)
Definition median (xs : list Z) : option Z := merge_sort Z.le xs !! (length xs / 2)%nat.
