(* ===== verification/WorkloadProps.v ===== *)
(** * match-bench: the comparison is fair and every tier passes its gate

    The workloads as streams of the priority book: what [CrossCore] and [CrossHp]
    prove of the engines turns the counts of fills into counts on the priority book,
    for every size of workload. *)
From stdpp Require Import gmap.
From S2P Require Import Prelude Decimal Protocol CoreBook CoreMatch CoreSpec CoreEngine HpTypes HpIndex HpBook HpEngine HpProps HpScale PlainDecimal PriorityBook CrossCore CrossHp Workload.
From Stdlib Require Import QArith Qabs Lqa.

#[local] Open Scope Z_scope.

(** ** The abstract stream of limit commands *)

Definition a_of (s : Side) : aside := match s with Buy => ABuy | Sell => ASell end.

(** Limit commands as the priority book sees them. *)
Definition a_cmd (c : HpCommand) : acommand :=
  match c with
  | Limit s tick lot _ client => ALimit (a_of s) client tick lot
  | Cancel i => ARevoke ABuy i
  | Market s _ _ _ client => ARevoke (a_of s) client
  end.

Definition client_of (c : HpCommand) : Z := match c with Limit _ _ _ _ client | Market _ _ _ _ client => client | Cancel i => i end.

(** A limit command within the machine types. *)
Definition limit_cmd (c : HpCommand) : Prop :=
  match c with Limit _ tick lot _ _ => in_i64 tick ∧ 0 < lot <= i64_max | _ => False end.

Lemma limit_cmd_cases c : limit_cmd c → ∃ t tick lot ts id, c = Limit (CrossHp.hp_side t) tick lot ts id ∧ a_cmd c = ALimit t id tick lot.
Proof. destruct c as [s tick lot ts id| |]; try done. intros _. exists (a_of s), tick, lot, ts, id. by destruct s. Qed.

Lemma limit_commands n cmds : Forall limit_cmd cmds → Forall2 (hp_command n) cmds (a_cmd <$> cmds).
Proof.
  induction 1 as [|c cmds Hc _ IH]; constructor; [|done]. destruct c as [s tick lot ts id| |]; try done. exists ts. destruct s; by destruct Hc.
Qed.

Lemma limit_stream cmds : Forall limit_cmd cmds → NoDup (client_of <$> cmds) → a_stream [] (a_cmd <$> cmds).
Proof.
  intros Hc Hnd. apply a_stream_limits.
  - intros c (c0 & -> & Hc0)%list_elem_of_fmap. rewrite Forall_forall in Hc. destruct (limit_cmd_cases c0 (Hc _ Hc0)) as (t & tick & lot & ts & id & _ & ->). eauto.
  - rewrite app_nil_r. assert (omap (λ c, match c with ALimit _ id _ _ => Some id | ARevoke _ _ => None end) (a_cmd <$> cmds) = client_of <$> cmds) as ->; [|done].
    clear Hnd. induction Hc as [|c cmds Hc _ IH]; [done|]. destruct c; try done. cbn. f_equal. exact IH.
Qed.

(** ** The engines on such streams *)

Section Engines.
Context {BI AI : Type} `{LB : LevelIndex BI} `{LA : LevelIndex AI}
  `{SB : !LevelIndexSpec BI Buy} `{SA : !LevelIndexSpec AI Sell}.
Implicit Types e : HpEngine BI AI.

Lemma hp_run_concat cmds : ∀ e evss e', hp_run_each e cmds = Some (evss, e') → hp_run e cmds = Some (concat evss, e').
Proof.
  induction cmds as [|c cmds IH]; intros e evss e'; cbn [hp_run_each hp_run]; [by intros [= <- <-]|].
  destruct (hp_on_order e c) as [[evs e1]|]; [|done]. cbn [mbind option_bind].
  destruct (hp_run_each e1 cmds) as [[evss1 e2]|] eqn:Er; [|done]. cbn [mbind option_bind]. intros [= <- <-]. by rewrite (IH _ _ _ Er).
Qed.

Lemma hp_fills_count evss aevss : Forall2 hp_events evss aevss → fills is_hp_fill (concat evss) = Z.of_nat (a_fills aevss).
Proof.
  assert (∀ evs aevs, hp_events evs aevs → length (List.filter is_hp_fill evs) = length (List.filter is_fill aevs)) as Hone.
  { intros evs aevs. unfold hp_events. revert aevs. induction evs as [|ev evs IH]; intros aevs Hev.
    - apply Forall2_nil_inv_l in Hev as ->. done.
    - destruct (not_rest ev) eqn:En; cbn [List.filter] in Hev; rewrite En in Hev.
      + apply Forall2_cons_inv_l in Hev as (a & aevs' & Ha & Hev & ->). cbn [List.filter]. specialize (IH _ Hev).
        destruct ev as [| |? ? r], a; cbn in Ha |- *; try done; first [by rewrite IH|by destruct r].
      + cbn [List.filter]. destruct ev; try done. by apply IH. }
  intros H2. unfold fills, a_fills. f_equal. induction H2 as [|evs aevs evss aevss Hev _ IH]; [done|].
  cbn [concat]. rewrite !List.filter_app, !length_app, IH. by rewrite (Hone _ _ Hev).
Qed.

Lemma hp_fresh_rel : engine_ok (hp_engine_with_capacity : HpEngine BI AI)
  ∧ hp_rel (book (hp_engine_with_capacity : HpEngine BI AI)) abook_new ∧ slot_count (hp_engine_with_capacity : HpEngine BI AI) = 0.
Proof.
  split_and!; [apply (fresh_ok hp_engine_with_capacity); by right| |done].
  destruct (li_default_spec (I:=BI)) as [_ Hb], (li_default_spec (I:=AI)) as [_ Ha].
  intros t. split; [destruct t; constructor|]. intros tick. unfold queue. destruct t; cbn; rewrite ?Hb, ?Ha, lookup_empty; constructor.
Qed.

(** The fills of a run on a fresh engine are those of the priority book. *)
Lemma hp_limit_run cmds :
  Forall limit_cmd cmds → NoDup (client_of <$> cmds) →
  ∃ evss e, hp_run_each (hp_engine_with_capacity : HpEngine BI AI) cmds = Some (evss, e)
    ∧ Forall2 hp_events evss (a_run abook_new (a_cmd <$> cmds)).1.
Proof.
  intros Hc Hnd. destruct hp_fresh_rel as (He & Hrel & Hsl). destruct (hp_rel_new (BI:=BI) (AI:=AI)) as (_ & Hab & _).
  pose proof (hp_stream_run (Z.of_nat (length cmds)) cmds (a_cmd <$> cmds) [] _ abook_new (limit_commands _ _ Hc) (limit_stream _ Hc Hnd) Hab He Hrel) as Hrun.
  destruct (a_run abook_new _) as [aevss ab]. destruct Hrun as (evss & e & Hr & Hev & _); [lia|]. by exists evss, e.
Qed.

Lemma count_hp_limits cmds :
  Forall limit_cmd cmds → NoDup (client_of <$> cmds) →
  count_hp_fills (BI:=BI) (AI:=AI) cmds = Some (Z.of_nat (a_fills (a_run abook_new (a_cmd <$> cmds)).1)).
Proof.
  intros Hc Hnd. destruct (hp_limit_run cmds Hc Hnd) as (evss & e & Hr & Hev). unfold count_hp_fills.
  rewrite (hp_run_concat _ _ _ _ Hr). cbn. by rewrite (hp_fills_count _ _ Hev).
Qed.

End Engines.

(** ** Both engines on a workload *)

Section Core.
Context `{PP : PlainParse} {BI AI : Type} `{LB : LevelIndex BI} `{LA : LevelIndex AI}
  `{SB : !LevelIndexSpec BI Buy} `{SA : !LevelIndexSpec AI Sell}.
Implicit Types (o : BbOrder) (w : workload) (p : BbOrder * HpCommand).

Definition SYMBOL : string := "btcusdt".

(** The order is the limit command in hundredths and millionths. *)
Definition pair_ok p : Prop :=
  limit_cmd p.2 ∧ symbol_key p.1 = SYMBOL ∧
  match p.2 with
  | Limit s tick lot _ _ =>
      is_revoke p.1 = false ∧ order_form p.1 = ORDER_FORM_LIMIT ∧ order_type p.1 = side_order_type (side_of (a_of s))
      ∧ quantity_ok p.1 ∧ worth (unit 2) (trust_price p.1) tick ∧ worth (unit 6) (remaining p.1) lot
  | _ => False
  end.

(** The workload in the order of its times, which are also the client numbers. *)
Definition workload_ok w : Prop :=
  Forall pair_ok w ∧ create_time <$> w.*1 = Z.of_nat <$> seq 0 (length w)
  ∧ client_of <$> w.*2 = Z.of_nat <$> seq 0 (length w) ∧ NoDup (numbers w.*1).

(** The client number an order number stands for. *)
Definition named w (no : string) : option Z :=
  (list_to_map ((λ p, (trust_order_no p.1, client_of p.2)) <$> w) : gmap string Z) !! no.

Lemma named_in w p : NoDup (numbers w.*1) → p ∈ w → named w (trust_order_no p.1) = Some (client_of p.2).
Proof.
  intros Hnd Hp. apply elem_of_list_to_map_1; [|apply list_elem_of_fmap; by exists p].
  assert (((λ p, (trust_order_no p.1, client_of p.2)) <$> w).*1 = numbers w.*1) as ->; [|done].
  unfold numbers. rewrite <- !list_fmap_compose. done.
Qed.

Lemma workload_core_stream (nm : string → option Z) w : ∀ k seen,
  Forall pair_ok w → create_time <$> w.*1 = Z.of_nat <$> seq k (length w) → client_of <$> w.*2 = Z.of_nat <$> seq k (length w) →
  (∀ p, p ∈ w → nm (trust_order_no p.1) = Some (client_of p.2)) →
  (∀ no, no ∈ seen → ∃ j, (j < k)%nat ∧ nm no = Some (Z.of_nat j)) →
  core_stream nm (unit 2) (unit 6) SYMBOL (Z.of_nat k - 1) seen w.*1 (a_cmd <$> w.*2).
Proof.
  induction w as [|[o c] w IH]; intros k seen Hok Ht Hc Hnm Hseen; [constructor|].
  apply Forall_cons in Hok as [(Hcmd & Hsym & Hrel) Hok]. cbn in Ht, Hc, Hcmd, Hsym, Hrel. injection Ht as Ht0 Ht. injection Hc as Hc0 Hc.
  destruct c as [s tick lot ts id| |]; try done. destruct Hrel as (Hr & Hf & Hty & Hq & Hp & Hl). cbn in Hc0. subst id.
  pose proof (Hnm (o, Limit s tick lot ts (Z.of_nat k)) ltac:(by left)) as Hno. cbn in Hno.
  cbn [fmap list_fmap fst snd a_cmd]. apply cs_limit; [done| |lia| |].
  - split; [done|]. split; [done|]. split; [rewrite Hty; by destruct s|]. split; [done|]. by split_and!.
  - apply Forall_forall. intros no (j & Hj & ->)%Hseen. intros [= Heq]. lia.
  - replace (create_time o) with (Z.of_nat (S k) - 1) by lia. apply IH; [done|done|done|intros p Hin; apply Hnm; by right|].
    intros no [->|Hin]%elem_of_cons; [exists k; split; [lia|done]|]. destruct (Hseen no Hin) as (j & Hj & ?). exists j. split; [lia|done].
Qed.

Lemma run_concat l : ∀ (e : Engine) evss e', run_each e l = Some (evss, e') → run e l = Some (concat evss, e').
Proof.
  induction l as [|o l IH]; intros e evss e'; cbn [run_each run]; [by intros [= <- <-]|].
  destruct (on_order e o) as [[evs e1]|]; [|done]. cbn [mbind option_bind].
  destruct (run_each e1 l) as [[evss1 e2]|] eqn:Er; [|done]. cbn [mbind option_bind]. intros [= <- <-]. by rewrite (IH _ _ _ Er).
Qed.

Lemma core_fills_count nm wp wq evss aevss :
  Forall2 (Forall2 (core_event nm wp wq)) evss aevss → fills is_core_fill (concat evss) = Z.of_nat (a_fills aevss).
Proof.
  assert (∀ evs aevs, Forall2 (core_event nm wp wq) evs aevs → length (List.filter is_core_fill evs) = length (List.filter is_fill aevs)) as Hone.
  { induction 1 as [|ev a evs aevs Ha _ IH]; [done|]. destruct ev, a; cbn in Ha |- *; try done; by rewrite IH. }
  intros H2. unfold fills, a_fills. f_equal. induction H2 as [|evs aevs evss aevss Hev _ IH]; [done|].
  cbn [concat]. rewrite !List.filter_app, !length_app, IH. by rewrite (Hone _ _ Hev).
Qed.

Lemma client_nodup n : NoDup (Z.of_nat <$> seq 0 n).
Proof. apply NoDup_fmap_2; [apply _|apply NoDup_seq]. Qed.

(** Both engines count the fills of the priority book. *)
Lemma workload_counts w :
  workload_ok w →
  let k := Z.of_nat (a_fills (a_run abook_new (a_cmd <$> w.*2)).1) in
  count_core_fills w.*1 = Some k ∧ count_hp_fills (BI:=BI) (AI:=AI) w.*2 = Some k.
Proof.
  intros (Hok & Ht & Hc & Hnd). cbn zeta. split.
  - pose proof (workload_core_stream (named w) w 0 [] Hok Ht Hc (λ p, named_in w p Hnd)) as Hcs.
    pose proof (core_stream_run (named w) (unit 2) (unit 6) (unit_pos _) (unit_pos _) SYMBOL w.*1 (-1) [] (a_cmd <$> w.*2) engine_new abook_new) as Hrun.
    specialize (Hrun (Hcs ltac:(set_solver)) (core_state_new (named w) _ _ (unit_pos _) (unit_pos _) _ _)).
    destruct (a_run abook_new _) as [aevss ab]. destruct Hrun as (evss & e & Hr & Hev & _). unfold count_core_fills.
    rewrite (run_concat _ _ _ _ Hr). cbn. by rewrite (core_fills_count _ _ _ _ _ Hev).
  - apply count_hp_limits; [|rewrite Hc; apply client_nodup]. apply Forall_forall. intros c (p & -> & Hp)%list_elem_of_fmap.
    rewrite Forall_forall in Hok. by apply Hok.
Qed.

(** ** Texts *)

Lemma unit_scale k s z : 0 <= k <= s → (inject_Z z * unit k == inject_Z (z * 10 ^ (s - k)) * unit s)%Q.
Proof.
  intros Hk. unfold unit. assert (10 ^ s = 10 ^ (s - k) * 10 ^ k) as Hpow by (rewrite <- Z.pow_add_r by lia; f_equal; lia).
  assert (0 < 10 ^ k) as H1 by (apply Z.pow_pos_nonneg; lia). assert (0 < 10 ^ (s - k)) as H2 by (apply Z.pow_pos_nonneg; lia).
  unfold Qeq, Qmult, inject_Z. cbn [Qnum Qden]. rewrite !Pos.mul_1_l, !Z.mul_1_r, !Z2Pos.id by nia. rewrite Hpow. ring.
Qed.

(** A plain text is worth what it writes. *)
Lemma text_worth_of I f s z :
  all_digits I → I ≠ [] → all_digits (frac f) → Z.of_nat (length (frac f)) <= s →
  z = HpScale.num (I ++ frac f) * 10 ^ (s - Z.of_nat (length (frac f))) →
  ∃ d, dec (String.string_of_list_ascii (I ++ point_chars f)) = Some d ∧ worth (unit s) d z.
Proof.
  intros HI Hne Hf Hs ->. destruct (plain_parse_value I f HI Hne Hf) as (d & Hd & Hv). exists d. split; [done|].
  unfold worth. rewrite Hv. apply unit_scale. lia.
Qed.

Lemma price_text_worth tick : 0 <= tick < 2 ^ 63 → ∃ d, dec (price_text tick) = Some d ∧ worth (unit 2) d tick.
Proof.
  intros Ht. unfold price_text. pose proof (Z.quot_rem' tick 100) as Hqr. pose proof (Z.rem_bound_pos tick 100 ltac:(lia) ltac:(lia)) as Hr.
  assert (0 <= tick `quot` 100 < 2 ^ 63) as Hq by lia. unfold i64_to_string. rewrite (proj2 (Z.ltb_ge _ 0)) by lia.
  destruct (u64_to_string_spec (tick `quot` 100) ltac:(lia)) as (Hd & Hn & Hne & _).
  destruct (zero_padded_spec 2 (tick `rem` 100) ltac:(lia) ltac:(lia) ltac:(lia)) as (Hd2 & Hn2 & Hl2).
  apply (text_worth_of (u64_to_string (tick `quot` 100)) (Some (zero_padded 2 (tick `rem` 100))) 2 tick Hd Hne Hd2);
    change (frac (Some (zero_padded 2 (tick `rem` 100)))) with (zero_padded 2 (tick `rem` 100)); [lia|].
  rewrite Hl2, num_app, Hn, Hn2, Hl2. change (10 ^ (2 - 2)) with 1. change (10 ^ 2) with 100. lia.
Qed.

Lemma limit_text_pair buy price no time qty tick lot ts client d q :
  dec price = Some d → worth (unit 2) d tick → dec qty = Some q → worth (unit 6) q lot →
  in_i64 tick → 0 < lot <= i64_max →
  ∃ p, both (limit_text buy price no time qty) (hp_limit_at buy tick lot ts client) = Some p
    ∧ pair_ok p ∧ p.2 = hp_limit_at buy tick lot ts client ∧ trust_order_no p.1 = no ∧ create_time p.1 = time.
Proof.
  intros Hd Wd Hq Wq Ht Hl. unfold limit_text. rewrite Hd, Hq. cbn. eexists. split; [reflexivity|]. split_and!; [|done..].
  assert (⟦remaining (test_limit (core_side buy) d no time q)⟧ == ⟦q⟧)%Q as Hrem.
  { unfold remaining. rewrite bd_val_sub. cbn. rewrite bd_val_zero. lra. }
  split; [done|]. split; [done|]. cbn [snd fst hp_limit_at]. split; [done|]. split; [done|]. split; [by destruct buy|].
  split; [|split; [done|unfold worth; by rewrite Hrem]]. split; [|unfold bd_eq; by rewrite Hrem].
  unfold worth in Wq. rewrite Hrem, Wq. rewrite <- (Qmult_0_l (unit 6)). apply (unit_lt (unit 6) 0); [done|lia].
Qed.

(** ** Loops *)

Lemma for_each_spec n body cmd no time :
  (∀ i, (i < n)%nat → ∃ p, body i = Some p ∧ pair_ok p ∧ p.2 = cmd i ∧ trust_order_no p.1 = no i ∧ create_time p.1 = time i) →
  ∃ w, for_each n body = Some w ∧ Forall pair_ok w ∧ w.*2 = cmd <$> seq 0 n ∧ numbers w.*1 = no <$> seq 0 n ∧ create_time <$> w.*1 = time <$> seq 0 n.
Proof.
  intros Hb. unfold for_each. assert (∀ i, i ∈ seq 0 n → (i < n)%nat) as Hin by (intros i Hi%elem_of_seq; lia). revert Hin.
  induction (seq 0 n) as [|i l IH]; intros Hin; [by exists []|]. destruct (Hb i) as (p & Hp & Hok & H1 & H2 & H3); [apply Hin; by left|].
  destruct IH as (w & Hw & Hoks & I1 & I2 & I3); [intros j Hj; apply Hin; by right|]. exists (p :: w).
  cbn [mapM]. rewrite Hp. cbn [mbind option_bind]. rewrite Hw. unfold numbers in *.
  split_and!; [done|by constructor|cbn; by f_equal..].
Qed.

Lemma numbered_inj prefix i j : Z.of_nat i < 2 ^ 64 → Z.of_nat j < 2 ^ 64 → numbered prefix i = numbered prefix j → i = j.
Proof.
  intros Hi Hj. unfold numbered. intros Heq. assert (∀ a b c : string, (a +:+ b)%string = (a +:+ c)%string → b = c) as Happ.
  { induction a as [|x a IH]; intros b c; [done|]. intros [= ?]. by apply IH. }
  apply Happ in Heq. apply (f_equal String.list_ascii_of_string) in Heq. rewrite !String.list_ascii_of_string_of_list_ascii in Heq.
  destruct (u64_to_string_spec (Z.of_nat i) ltac:(lia)) as (_ & Hn & _), (u64_to_string_spec (Z.of_nat j) ltac:(lia)) as (_ & Hn' & _).
  apply Nat2Z.inj. by rewrite <- Hn, <- Hn', Heq.
Qed.

Lemma numbered_nodup prefix n : Z.of_nat n < 2 ^ 64 → NoDup (numbered prefix <$> seq 0 n).
Proof.
  intros Hn. apply NoDup_fmap_2_strong; [|apply NoDup_seq]. intros i j Hi%elem_of_seq Hj%elem_of_seq. apply numbered_inj; lia.
Qed.

Lemma seq_shift k n : (λ i, Z.of_nat (k + i)) <$> seq 0 n = Z.of_nat <$> seq k n.
Proof. pose proof (fmap_add_seq k 0 n) as Hs. rewrite Nat.add_0_r in Hs. by rewrite <- Hs, <- list_fmap_compose. Qed.

(** Two loops, the second counting on. *)
Lemma two_loops a b n1 n2 w1 w2 cmd1 cmd2 no1 no2 time1 time2 :
  for_each n1 a = Some w1 → for_each n2 b = Some w2 → Forall pair_ok w1 → Forall pair_ok w2 →
  w1.*2 = cmd1 <$> seq 0 n1 → w2.*2 = cmd2 <$> seq 0 n2 → numbers w1.*1 = no1 <$> seq 0 n1 → numbers w2.*1 = no2 <$> seq 0 n2 →
  create_time <$> w1.*1 = time1 <$> seq 0 n1 → create_time <$> w2.*1 = time2 <$> seq 0 n2 →
  (∀ i, client_of (cmd1 i) = Z.of_nat i) → (∀ i, client_of (cmd2 i) = Z.of_nat (n1 + i)) →
  (∀ i, (i < n1)%nat → time1 i = Z.of_nat i) → (∀ i, (i < n2)%nat → time2 i = Z.of_nat (n1 + i)) →
  NoDup ((no1 <$> seq 0 n1) ++ (no2 <$> seq 0 n2)) → workload_ok (w1 ++ w2).
Proof.
  intros _ _ Hok1 Hok2 Hc1 Hc2 Hn1 Hn2 Ht1 Ht2 Hid1 Hid2 Hti1 Hti2 Hnd.
  assert (length w1 = n1) as Hl1 by (rewrite <- (length_fmap snd w1), Hc1, length_fmap; apply length_seq).
  assert (length w2 = n2) as Hl2 by (rewrite <- (length_fmap snd w2), Hc2, length_fmap; apply length_seq).
  assert (∀ n (f g : nat → Z), (∀ i, (i < n)%nat → f i = g i) → f <$> seq 0 n = g <$> seq 0 n) as Hext.
  { intros n f g Hfg. apply list_fmap_ext. intros k x Hk. apply Hfg. apply list_elem_of_lookup_2, elem_of_seq in Hk. lia. }
  split; [by apply Forall_app|]. rewrite !fmap_app, length_app, Hl1, Hl2, seq_app, !fmap_app. cbn [Nat.add]. rewrite <- (seq_shift n1 n2). split_and!.
  - rewrite Ht1, Ht2. f_equal; apply Hext; [done|]. intros i Hi. by rewrite Hti2.
  - rewrite Hc1, Hc2, <- !list_fmap_compose. f_equal; apply Hext; intros i _; [apply Hid1|apply Hid2].
  - unfold numbers in *. rewrite fmap_app, Hn1, Hn2. done.
Qed.

Lemma prefixes_nodup (p1 p2 : string) n1 n2 :
  Z.of_nat n1 < 2 ^ 64 → Z.of_nat n2 < 2 ^ 64 → (∀ i j, numbered p1 i ≠ numbered p2 j) →
  NoDup ((numbered p1 <$> seq 0 n1) ++ (numbered p2 <$> seq 0 n2)).
Proof.
  intros H1 H2 Hne. apply NoDup_app. split_and!; [by apply numbered_nodup| |by apply numbered_nodup].
  intros x (i & -> & _)%list_elem_of_fmap (j & Hj & _)%list_elem_of_fmap. by apply (Hne i j).
Qed.

Lemma one_worth : ∃ d, dec "1" = Some d ∧ worth (unit 6) d 1000000.
Proof. apply (text_worth_of ["1"%char] None 6); try done; repeat constructor. Qed.

Lemma hundred_worth : ∃ d, dec "100.00" = Some d ∧ worth (unit 2) d 10000.
Proof. apply (text_worth_of ["1"; "0"; "0"]%char (Some ["0"; "0"]%char) 2); try done; repeat constructor. Qed.

Lemma wrap_index i n : (i < n)%nat → Z.of_nat n < 2 ^ 63 → i64_wrap (idx i) = Z.of_nat i.
Proof. intros Hi Hn. apply i64_wrap_id. unfold in_i64, idx. lia. Qed.

Lemma cross_full_spec n :
  Z.of_nat n < 2 ^ 63 → let half := (n / 2)%nat in
  ∃ w, cross_full n = Some w ∧ workload_ok w
    ∧ w.*2 = ((λ i, Limit Sell 10000 1000000 (idx i) (idx i)) <$> seq 0 half)
           ++ ((λ i, Limit Buy 10000 1000000 (u64_wrap (i64_wrap (idx (half + i)))) (idx (half + i))) <$> seq 0 half).
Proof.
  intros Hn half. assert (half + half <= n)%nat as Hh by (subst half; pose proof (Nat.div_mod_eq n 2); lia).
  destruct one_worth as (q & Hq & Wq), hundred_worth as (d & Hd & Wd).
  destruct (for_each_spec half (λ i, both (limit_text false "100.00" (numbered "s" i) (i64_wrap (idx i)) "1") (hp_limit_at false 10000 1000000 (idx i) (idx i)))
    (λ i, hp_limit_at false 10000 1000000 (idx i) (idx i)) (numbered "s") (λ i, i64_wrap (idx i))) as (w1 & Hw1 & Hok1 & Hc1 & Hn1 & Ht1).
  { intros i _. by eapply limit_text_pair. }
  destruct (for_each_spec half (λ i, let t := i64_wrap (idx (half + i)) in both (limit_text true "100.00" (numbered "b" i) t "1") (hp_limit_at true 10000 1000000 (u64_wrap t) (idx (half + i))))
    (λ i, hp_limit_at true 10000 1000000 (u64_wrap (i64_wrap (idx (half + i)))) (idx (half + i))) (numbered "b") (λ i, i64_wrap (idx (half + i)))) as (w2 & Hw2 & Hok2 & Hc2 & Hn2 & Ht2).
  { intros i _. by eapply limit_text_pair. }
  exists (w1 ++ w2). split_and!.
  - unfold cross_full. fold half. cbn zeta in Hw2 |- *. rewrite Hw1. cbn [mbind option_bind]. by rewrite Hw2.
  - eapply (two_loops _ _ half half w1 w2 _ _ _ _ _ _ Hw1 Hw2 Hok1 Hok2 Hc1 Hc2 Hn1 Hn2 Ht1 Ht2); [done|done| | |].
    + intros i Hi. apply (wrap_index i half); lia.
    + intros i Hi. apply (wrap_index (half + i) n); lia.
    + apply prefixes_nodup; [lia|lia|done].
  - rewrite fmap_app, Hc1, Hc2. done.
Qed.

Lemma five_worth : ∃ d, dec "5" = Some d ∧ worth (unit 6) d 5000000.
Proof. apply (text_worth_of ["5"%char] None 6); try done; repeat constructor. Qed.

Lemma limit_price_worth : ∃ d, dec "102.00" = Some d ∧ worth (unit 2) d 10200.
Proof. apply (text_worth_of ["1"; "0"; "2"]%char (Some ["0"; "0"]%char) 2); try done; repeat constructor. Qed.

Lemma mod_tick base i m : (0 < m)%nat → 0 <= base → base <= base + idx (i mod m) < base + Z.of_nat m.
Proof. intros Hm Hb. pose proof (Nat.mod_upper_bound i m ltac:(lia)). unfold idx. lia. Qed.

(** A price that goes round in hundredths from [base]. *)
Lemma stepped_pair buy base m i no time lot qty q :
  (0 < m)%nat → 0 <= base → base + Z.of_nat m < 2 ^ 63 → dec qty = Some q → worth (unit 6) q lot → 0 < lot <= i64_max →
  ∃ p, both (limit_text buy (price_text (base + idx (i mod m))) no time qty) (hp_limit_at buy (base + idx (i mod m)) lot (idx i) (idx i)) = Some p
    ∧ pair_ok p ∧ p.2 = hp_limit_at buy (base + idx (i mod m)) lot (idx i) (idx i) ∧ trust_order_no p.1 = no ∧ create_time p.1 = time.
Proof.
  intros Hm Hb Hmax Hq Wq Hl. pose proof (mod_tick base i m Hm Hb) as Hr.
  destruct (price_text_worth (base + idx (i mod m)) ltac:(lia)) as (d & Hd & Wd).
  eapply limit_text_pair; try done. unfold in_i64. lia.
Qed.

Lemma partial_walk_spec n :
  Z.of_nat n < 2 ^ 63 → let makers := (n * 4 / 5)%nat in
  ∃ w, partial_walk n = Some w ∧ workload_ok w
    ∧ w.*2 = ((λ i, Limit Sell (10000 + idx (i mod 200)) 1000000 (idx i) (idx i)) <$> seq 0 makers)
           ++ ((λ i, Limit Buy 10200 5000000 (u64_wrap (i64_wrap (idx (makers + i)))) (idx (makers + i))) <$> seq 0 (n - makers)).
Proof.
  intros Hn makers. assert (makers <= n)%nat as Hh by (subst makers; apply Nat.Div0.div_le_upper_bound; lia).
  destruct one_worth as (q & Hq & Wq), five_worth as (q5 & Hq5 & Wq5), limit_price_worth as (d & Hd & Wd).
  destruct (for_each_spec makers (λ i, let price_tick := 10000 + idx (i mod 200) in
      both (limit_text false (price_text price_tick) (numbered "pw_s" i) (i64_wrap (idx i)) "1") (hp_limit_at false price_tick 1000000 (idx i) (idx i)))
    (λ i, hp_limit_at false (10000 + idx (i mod 200)) 1000000 (idx i) (idx i)) (numbered "pw_s") (λ i, i64_wrap (idx i))) as (w1 & Hw1 & Hok1 & Hc1 & Hn1 & Ht1).
  { intros i _. cbn zeta. eapply (stepped_pair false 10000 200); first [done|lia]. }
  destruct (for_each_spec (n - makers) (λ i, let t := i64_wrap (idx (makers + i)) in
      both (limit_text true "102.00" (numbered "pw_b" i) t "5") (hp_limit_at true 10200 5000000 (u64_wrap t) (idx (makers + i))))
    (λ i, hp_limit_at true 10200 5000000 (u64_wrap (i64_wrap (idx (makers + i)))) (idx (makers + i))) (numbered "pw_b") (λ i, i64_wrap (idx (makers + i)))) as (w2 & Hw2 & Hok2 & Hc2 & Hn2 & Ht2).
  { intros i _. by eapply limit_text_pair. }
  exists (w1 ++ w2). split_and!.
  - unfold partial_walk. fold makers. cbn zeta in Hw1, Hw2 |- *. rewrite Hw1. cbn [mbind option_bind]. by rewrite Hw2.
  - eapply (two_loops _ _ makers (n - makers) w1 w2 _ _ _ _ _ _ Hw1 Hw2 Hok1 Hok2 Hc1 Hc2 Hn1 Hn2 Ht1 Ht2); [done|done| | |].
    + intros i Hi. apply (wrap_index i makers); lia.
    + intros i Hi. apply (wrap_index (makers + i) n); lia.
    + apply prefixes_nodup; [lia|lia|done].
  - rewrite fmap_app, Hc1, Hc2. done.
Qed.

Lemma rest_only_spec n :
  Z.of_nat n < 2 ^ 63 →
  ∃ w, rest_only n = Some w ∧ workload_ok w ∧ w.*2 = (λ i, Limit Buy (10000 + idx (i mod 100)) 1000000 (idx i) (idx i)) <$> seq 0 n.
Proof.
  intros Hn. destruct one_worth as (q & Hq & Wq).
  destruct (for_each_spec n (λ i, let price_tick := 10000 + idx (i mod 100) in
      both (limit_text true (price_text price_tick) (numbered "r" i) (i64_wrap (idx i)) "1") (hp_limit_at true price_tick 1000000 (idx i) (idx i)))
    (λ i, hp_limit_at true (10000 + idx (i mod 100)) 1000000 (idx i) (idx i)) (numbered "r") (λ i, i64_wrap (idx i))) as (w1 & Hw1 & Hok1 & Hc1 & Hn1 & Ht1).
  { intros i _. cbn zeta. eapply (stepped_pair true 10000 100); first [done|lia]. }
  exists w1. split_and!; [done| |done]. rewrite <- (app_nil_r w1).
  eapply (two_loops _ (λ _, None) n 0 w1 [] _ (λ i, hp_limit_at true 0 0 0 (idx (n + i))) _ (numbered "") _ (λ i, idx (n + i)) Hw1 eq_refl Hok1 ltac:(constructor) Hc1 eq_refl Hn1 eq_refl Ht1 eq_refl);
    [done|done| |done|].
  - intros i Hi. apply (wrap_index i n); lia.
  - cbn. rewrite app_nil_r. apply numbered_nodup. lia.
Qed.

End Core.

(** ** Counting on the priority book *)

Lemma two_phase_fills lim L k sells buys :
  0 < L → (∀ c, c ∈ sells → ∃ id tick, c = ALimit ASell id tick L ∧ tick <= lim) →
  (∀ c, c ∈ buys → ∃ id, c = ALimit ABuy id lim (Z.of_nat k * L)) →
  a_fills (a_run abook_new (sells ++ buys)).1 = Nat.min (length buys * k) (length sells).
Proof.
  intros HL Hs Hb. rewrite a_run_app. cbn [fst]. rewrite a_fills_app.
  pose proof (a_run_rests ASell (λ e, en_lot e = L ∧ en_tick e <= lim) sells abook_new) as Hr.
  destruct (a_run abook_new sells) as [evss ab]. cbn [fst snd] in *.
  destruct Hr as (Hf & _ & Hok & Hlen); [|constructor|].
  { intros c (id & tick & -> & Ht)%Hs. exists id, tick, L. split_and!; [done|lia|done|done|constructor]. }
  rewrite Hf, (a_run_takes ABuy lim L k); [|done|done|].
  - change (across ABuy) with ASell. by rewrite Hlen.
  - eapply Forall_impl; [exact Hok|]. cbn. intros e [? ?]. split; [done|]. by apply Z.leb_le.
Qed.

Lemma elem_a_cmd (f : nat → HpCommand) (l : list nat) c : c ∈ a_cmd <$> (f <$> l) → ∃ i, c = a_cmd (f i).
Proof. intros (h & -> & (i & -> & _)%list_elem_of_fmap)%list_elem_of_fmap. by exists i. Qed.

(** ** Rates *)

Lemma fill_rate_eq f s : 0 < s → (fill_rate s f == f # Z.to_pos s)%Q.
Proof.
  intros Hs. unfold fill_rate. rewrite (proj2 (Z.eqb_neq s 0)) by lia. unfold Qdiv, Qmult, Qinv, inject_Z, Qeq.
  destruct s as [|s|s]; [lia| |lia]. cbn. lia.
Qed.

Lemma rate_ge (p : Z) (q : positive) f s : 0 < s → p * s <= f * Zpos q → ((p # q) <= fill_rate s f)%Q.
Proof. intros Hs Hle. rewrite fill_rate_eq by done. unfold Qle. cbn. rewrite Z2Pos.id by done. lia. Qed.

Lemma rate_le (p : Z) (q : positive) f s : 0 < s → f * Zpos q <= p * s → (fill_rate s f <= (p # q))%Q.
Proof. intros Hs Hle. rewrite fill_rate_eq by done. unfold Qle. cbn. rewrite Z2Pos.id by done. lia. Qed.

Lemma rate_near c f s : 0 < s → c * s - 5 * s <= f * 100 <= c * s + 5 * s → Qle_bool (Qabs (fill_rate s f - (c # 100))) (5 # 100) = true.
Proof.
  intros Hs Hf. apply Qle_bool_iff, Qabs_Qle_condition. pose proof (rate_ge (c - 5) 100 f s Hs) as Hge. pose proof (rate_le (c + 5) 100 f s Hs) as Hle.
  specialize (Hge ltac:(lia)). specialize (Hle ltac:(lia)).
  assert ((c - 5 # 100) == (c # 100) - (5 # 100))%Q as H1 by (unfold Qeq; cbn; lia).
  assert ((c + 5 # 100) == (c # 100) + (5 # 100))%Q as H2 by (unfold Qeq; cbn; lia). rewrite H1 in Hge. rewrite H2 in Hle. split; lra.
Qed.

(** ** Tiers *)

(** Client numbers that count up from [base]. *)
Definition count_up (base : Z) (k n : nat) : list Z := (λ i, u64_wrap (base + idx i)) <$> seq k n.

Lemma count_up_elem base k n x :
  0 <= base → base + Z.of_nat (k + n) < 2 ^ 64 → x ∈ count_up base k n → base + Z.of_nat k <= x < base + Z.of_nat (k + n).
Proof.
  intros Hb Hmax (i & -> & Hi%elem_of_seq)%list_elem_of_fmap. rewrite u64_wrap_id by (unfold in_u64, idx; lia). unfold idx. lia.
Qed.

Lemma count_up_nodup base n : 0 <= base → base + Z.of_nat n < 2 ^ 64 → NoDup (count_up base 0 n).
Proof.
  intros Hb Hmax. apply NoDup_fmap_2_strong; [|apply NoDup_seq]. intros i j Hi%elem_of_seq Hj%elem_of_seq.
  rewrite !u64_wrap_id by (unfold in_u64, idx; lia). unfold idx. lia.
Qed.

Definition low_pair (base : Z) (rest i : nat) : list HpCommand :=
  let k := (rest + 2 * i)%nat in
  [Limit Sell 50000 1000000 (idx k) (u64_wrap (base + idx k)); Limit Buy 50000 1000000 (idx (S k)) (u64_wrap (base + idx (S k)))].

Lemma pairs_clients base rest c : ∀ a,
  client_of <$> (seq a c ≫= low_pair base rest) = count_up base (rest + 2 * a) (2 * c).
Proof.
  induction c as [|c IH]; intros a; [done|]. cbn [seq mbind list_bind]. rewrite fmap_app, IH.
  replace (2 * S c)%nat with (S (S (2 * c))) by lia. replace (rest + 2 * S a)%nat with (S (S (rest + 2 * a))) by lia. done.
Qed.

Lemma pairs_length base rest c : ∀ a, length (seq a c ≫= low_pair base rest) = (2 * c)%nat.
Proof. induction c as [|c IH]; intros a; [done|]. cbn [seq mbind list_bind]. rewrite length_app, IH. cbn. lia. Qed.

Lemma a_run_pair base rest i bs :
  Forall (λ e, en_tick e < 50000) bs →
  ∃ f, a_run (mkAbook bs []) (a_cmd <$> low_pair base rest i) = ([[]; [f]], mkAbook bs []) ∧ is_fill f = true.
Proof.
  intros Hb. unfold low_pair. cbn [fmap list_fmap a_cmd a_of a_run a_step entries across a_buys a_sells].
  rewrite take_from_none by (eapply Forall_impl; [exact Hb|]; cbn; intros e He; apply Z.leb_gt; lia).
  eexists. split; [reflexivity|done].
Qed.

(** Sells and buys in pairs at one price above every bid: one fill each pair. *)
Lemma a_run_pairs base rest c bs : ∀ a,
  Forall (λ e, en_tick e < 50000) bs → a_fills (a_run (mkAbook bs []) (a_cmd <$> (seq a c ≫= low_pair base rest))).1 = c.
Proof.
  induction c as [|c IH]; intros a Hb; [done|]. destruct (a_run_pair base rest a bs Hb) as (f & Hf & Hfill).
  cbn [seq mbind list_bind]. rewrite fmap_app, a_run_app, Hf. cbn [fst snd]. rewrite a_fills_app, IH by done.
  unfold a_fills. cbn [concat app List.filter]. by rewrite Hfill.
Qed.

(** The stream of a cell: its client numbers and, for [Low], its two parts. *)
Lemma stream_low_parts stream base :
  (10 <= stream)%nat → let c := (stream / 10)%nat in let rest := (stream - c * 2)%nat in
  stream_low stream base = ((λ i, Limit Buy (2000 + idx (i mod 300)) 1000000 (idx i) (u64_wrap (base + idx i))) <$> seq 0 rest) ++ (seq 0 c ≫= low_pair base rest).
Proof.
  intros Hs c rest. unfold stream_low. assert (1 <= c)%nat as Hc by (subst c; apply Nat.div_le_lower_bound; lia).
  replace (Nat.max (stream / 10) 1) with c by (subst c; lia). fold rest. cbn zeta. apply take_ge.
  fold (low_pair base rest). rewrite length_app, length_fmap, length_seq. change (seq 0 c ≫= _) with (seq 0 c ≫= low_pair base rest).
  rewrite pairs_length. pose proof (Nat.Div0.mul_div_le stream 10). subst rest c. lia.
Qed.

Lemma stream_clients cell base :
  (10 <= cell_stream cell)%nat → ∃ m, (m <= cell_stream cell)%nat ∧ client_of <$> stream_cmds cell base = count_up base 0 m.
Proof.
  intros Hs. unfold stream_cmds. destruct (cell_tier cell); set (stream := cell_stream cell) in *.
  - rewrite stream_low_parts by done. set (c := (stream / 10)%nat). set (rest := (stream - c * 2)%nat). exists (rest + 2 * c)%nat.
    pose proof (Nat.Div0.mul_div_le stream 10). split; [subst rest c; lia|].
    rewrite fmap_app, pairs_clients, <- list_fmap_compose. unfold count_up. rewrite seq_app, fmap_app, Nat.mul_0_r, !Nat.add_0_r. done.
  - set (h := (stream / 2)%nat). exists (h + h)%nat. pose proof (Nat.Div0.mul_div_le stream 2). split; [subst h; lia|].
    unfold stream_mid. fold h. cbn zeta. rewrite fmap_app, <- !list_fmap_compose. unfold count_up. rewrite seq_app, fmap_app. cbn [Nat.add]. f_equal.
    pose proof (fmap_add_seq h 0 h) as Hseq. rewrite Nat.add_0_r in Hseq. by rewrite <- Hseq, <- list_fmap_compose.
  - exists stream. split; [done|]. unfold stream_high, count_up. by rewrite <- list_fmap_compose.
Qed.

Lemma warm_clients cell :
  client_of <$> warm_cmds cell
  = count_up 1 0 (cell_rest cell)
    ++ (if decide (cell_tier cell = High) then count_up (1 + idx (cell_rest cell) + 1000000) 0 (Nat.max (cell_stream cell * 2) (cell_stream cell)) else []).
Proof.
  unfold warm_cmds, warm_rest, count_up. rewrite fmap_app, <- list_fmap_compose. f_equal. case_decide; [|done].
  unfold high_tier_ask_seed, seed_asks_for_walk. by rewrite <- list_fmap_compose.
Qed.

(** No two commands of a cell share a client number. *)
Lemma tier_clients cell :
  (10 <= cell_stream cell)%nat → Z.of_nat (cell_rest cell) < 2 ^ 60 → Z.of_nat (cell_stream cell) < 2 ^ 60 →
  NoDup (client_of <$> warm_cmds cell ++ stream_cmds cell (stream_id_base cell)).
Proof.
  intros Hs Hr Hst. rewrite fmap_app. destruct (stream_clients cell (stream_id_base cell) Hs) as (m & Hm & ->). rewrite warm_clients.
  unfold stream_id_base. set (rest := cell_rest cell) in *. set (stream := cell_stream cell) in *. set (a := Nat.max (stream * 2) stream).
  assert (Z.of_nat a < 2 ^ 61) as Ha by (subst a; lia). unfold idx in *. apply NoDup_app. split_and!.
  - apply NoDup_app. split_and!; [apply count_up_nodup; lia| |case_decide; [apply count_up_nodup; lia|constructor]].
    intros x Hx%count_up_elem Hy; [|lia..]. case_decide; [|by apply elem_of_nil in Hy]. apply count_up_elem in Hy; lia.
  - intros x [Hx|Hx]%elem_of_app Hy; case_decide; try (by apply elem_of_nil in Hx);
      (apply count_up_elem in Hx; [|lia..]); (apply count_up_elem in Hy; [|lia..]); lia.
  - apply count_up_nodup; case_decide; lia.
Qed.

Definition ask_seed (cell : TierCell) : nat :=
  if decide (cell_tier cell = High) then Nat.max (cell_stream cell * 2) (cell_stream cell) else 0.

Lemma warm_state cell :
  let ab := (a_run abook_new (a_cmd <$> warm_cmds cell)).2 in
  Forall (λ e, en_tick e < 2000) (a_buys ab) ∧ Forall (λ e, en_lot e = 1000000 ∧ en_tick e <= 30000) (a_sells ab)
  ∧ length (a_sells ab) = ask_seed cell.
Proof.
  unfold warm_cmds, ask_seed. rewrite fmap_app, a_run_app. cbn [snd].
  pose proof (a_run_rests ABuy (λ e, en_tick e < 2000) (a_cmd <$> warm_rest (cell_rest cell) 1) abook_new) as Hr.
  destruct (a_run abook_new _) as [evss ab1]. cbn [snd]. destruct Hr as (_ & Hs & Hb & _); [|constructor|].
  { unfold warm_rest. intros c (i & ->)%elem_a_cmd. cbn [a_cmd a_of]. eexists _, _, _. split_and!; [done|lia| |constructor].
    cbn [en_tick]. pose proof (mod_tick 1000 i 500 ltac:(lia) ltac:(lia)). lia. }
  cbn in Hs, Hb. case_decide; [|cbn; rewrite Hs; split_and!; [done|constructor|done]].
  pose proof (a_run_rests ASell (λ e, en_lot e = 1000000 ∧ en_tick e <= 30000)
    (a_cmd <$> high_tier_ask_seed (cell_stream cell) (1 + idx (cell_rest cell) + 1000000)) ab1) as Hr.
  destruct (a_run ab1 _) as [evss2 ab2]. cbn [snd]. destruct Hr as (_ & Hb2 & Hs2 & Hlen).
  - unfold high_tier_ask_seed, seed_asks_for_walk. intros c (i & ->)%elem_a_cmd. cbn [a_cmd a_of].
    pose proof (mod_tick 20000 i 2000 ltac:(lia) ltac:(lia)). eexists _, _, _. split_and!; [done|lia|done|cbn [en_tick]; lia|].
    eapply Forall_impl; [exact Hb|]. cbn [accepts]. intros e He. apply Z.leb_gt. lia.
  - cbn. rewrite Hs. constructor.
  - cbn in Hb2, Hs2, Hlen. rewrite Hb2. split_and!; [done|done|]. rewrite Hlen, Hs. unfold high_tier_ask_seed, seed_asks_for_walk.
    by rewrite !length_fmap, length_seq.
Qed.

(** How many fills the stream of a cell makes. *)
Definition tier_fills (cell : TierCell) : nat :=
  match cell_tier cell with Low => cell_stream cell / 10 | Mid => cell_stream cell / 2 | High => cell_stream cell * 2 end.

Lemma stream_fills cell base :
  (10 <= cell_stream cell)%nat →
  a_fills (a_run (a_run abook_new (a_cmd <$> warm_cmds cell)).2 (a_cmd <$> stream_cmds cell base)).1 = tier_fills cell.
Proof.
  intros Hst. destruct (warm_state cell) as (Hb & Hs & Hlen). destruct (a_run abook_new _) as [evss [bs ss]]. cbn [snd a_buys a_sells] in *.
  unfold stream_cmds, tier_fills, ask_seed in *. destruct (cell_tier cell); set (stream := cell_stream cell) in *.
  - apply nil_length_inv in Hlen as ->. rewrite stream_low_parts, fmap_app, a_run_app by done. cbn [fst]. rewrite a_fills_app.
    set (rests := (λ i, Limit Buy _ _ _ _) <$> seq 0 _).
    pose proof (a_run_rests ABuy (λ e, en_tick e < 50000) (a_cmd <$> rests) (mkAbook bs [])) as Hr.
    destruct (a_run _ (a_cmd <$> rests)) as [evss2 [bs2 ss2]]. cbn [fst snd]. destruct Hr as (-> & Hs2 & Hb2 & _).
    + subst rests. intros c (i & ->)%elem_a_cmd. cbn [a_cmd a_of]. eexists _, _, _. split_and!; [done|lia| |constructor].
      cbn [en_tick]. pose proof (mod_tick 2000 i 300 ltac:(lia) ltac:(lia)). lia.
    + eapply Forall_impl; [exact Hb|]. cbn. intros; lia.
    + cbn in Hs2, Hb2. subst ss2. by rewrite a_run_pairs.
  - apply nil_length_inv in Hlen as ->. unfold stream_mid. set (h := (stream / 2)%nat). cbn zeta. rewrite fmap_app, a_run_app. cbn [fst]. rewrite a_fills_app.
    set (asks := (λ i, Limit Sell _ _ _ _) <$> seq 0 h).
    pose proof (a_run_rests ASell (λ e, en_lot e = 1000000 ∧ en_tick e <= 50000) (a_cmd <$> asks) (mkAbook bs [])) as Hr.
    destruct (a_run _ (a_cmd <$> asks)) as [evss2 ab2]. cbn [fst snd]. destruct Hr as (-> & _ & Hs2 & Hl2); [|constructor|].
    + subst asks. intros c (i & ->)%elem_a_cmd. cbn [a_cmd a_of]. eexists _, _, _. split_and!; [done|lia|done|cbn [en_tick]; lia|].
      eapply Forall_impl; [exact Hb|]. cbn [accepts]. intros e He. apply Z.leb_gt. lia.
    + rewrite (a_run_takes ABuy 50000 1000000 1).
      * change (across ABuy) with ASell. rewrite Hl2. subst asks. rewrite !length_fmap, !length_seq. cbn. lia.
      * intros c (i & ->)%elem_a_cmd. cbn. eauto.
      * lia.
      * eapply Forall_impl; [exact Hs2|]. cbn. intros e [? ?]. split; [done|by apply Z.leb_le].
  - unfold stream_high. rewrite (a_run_takes ABuy 30000 1000000 2).
    + cbn [across entries a_sells]. rewrite Hlen, !length_fmap, length_seq, decide_True by done. lia.
    + intros c (i & ->)%elem_a_cmd. cbn. eauto.
    + lia.
    + eapply Forall_impl; [exact Hs|]. cbn. intros e [? ?]. split; [done|by apply Z.leb_le].
Qed.

Lemma tier_limits cell : (10 <= cell_stream cell)%nat → Forall limit_cmd (warm_cmds cell ++ stream_cmds cell (stream_id_base cell)).
Proof.
  intros Hs. assert (∀ b m i, (0 < m)%nat → 0 <= b <= 50000 → Z.of_nat m <= 10000 → in_i64 (b + idx (i mod m))) as Htick.
  { intros b m i Hm Hb Hmax. pose proof (mod_tick b i m Hm ltac:(lia)). unfold in_i64. lia. }
  assert (∀ s b m lot ts c i, (0 < m)%nat → 0 <= b <= 50000 → Z.of_nat m <= 10000 → 0 < lot <= 2000000 → limit_cmd (Limit s (b + idx (i mod m)) lot ts c)) as Hlim.
  { intros. split; [by apply Htick|unfold i64_max; lia]. }
  apply Forall_app. split.
  - unfold warm_cmds, warm_rest. apply Forall_app. split; [|case_decide; [unfold high_tier_ask_seed, seed_asks_for_walk|constructor]];
      apply Forall_fmap, Forall_forall; intros i _; apply Hlim; lia.
  - assert (∀ s p lot ts c, in_i64 p → 0 < lot <= 2000000 → limit_cmd (Limit s p lot ts c)) as Hflat by (intros; split; [done|unfold i64_max; lia]).
    unfold stream_cmds. destruct (cell_tier cell).
    + rewrite stream_low_parts by done. apply Forall_app. split; [apply Forall_fmap, Forall_forall; intros i _; apply Hlim; lia|].
      apply Forall_forall. intros c (i & Hc & _)%list_elem_of_bind. unfold low_pair in Hc.
      apply elem_of_cons in Hc as [->|Hc%list_elem_of_singleton]; [|subst c]; apply Hflat; unfold in_i64; lia.
    + unfold stream_mid. apply Forall_app. split; apply Forall_fmap, Forall_forall; intros i _; apply Hflat; unfold in_i64; lia.
    + unfold stream_high. apply Forall_fmap, Forall_forall. intros i _. apply Hflat; unfold in_i64; lia.
Qed.

Section Props.
Context `{PP : PlainParse} {BI AI : Type} `{LB : LevelIndex BI} `{LA : LevelIndex AI}
  `{SB : !LevelIndexSpec BI Buy} `{SA : !LevelIndexSpec AI Sell}.

(** C40.  The fair comparison is fair.  For every number of orders and every minimal
    rate up to a third, [fair_compare] builds its workload without a panic, both
    engines count exactly half as many fills as there are orders, rounded down (two
    orders at least), and the run is valid.  Also the other workloads of limit
    orders make both engines count the same: the resting one no fill, the walking
    one one fill for each of the four fifths of the orders that rest. *)
Theorem fair_compare_fair (n : nat) (min_fill_rate : Q) :
  Z.of_nat n < 2 ^ 62 → (min_fill_rate <= 1 # 3)%Q →
  (let half := Z.of_nat (Nat.max n 2 / 2) in
   fair_compare (BI:=BI) (AI:=AI) n min_fill_rate = Some (half, half, true))
  ∧ (∃ w, rest_only n = Some w ∧ count_core_fills w.*1 = Some 0 ∧ count_hp_fills (BI:=BI) (AI:=AI) w.*2 = Some 0)
  ∧ (∃ w, partial_walk n = Some w ∧ let makers := Z.of_nat (n * 4 / 5) in
       count_core_fills w.*1 = Some makers ∧ count_hp_fills (BI:=BI) (AI:=AI) w.*2 = Some makers).
Proof.
  intros Hn Hmin. split_and!.
  - unfold fair_compare, fair_cross. set (n2 := Nat.max n 2). assert (2 <= n2)%nat as Hn2 by lia.
    destruct (cross_full_spec n2 ltac:(lia)) as (w & -> & Hok & Hc). cbn [mbind option_bind].
    destruct (workload_counts (BI:=BI) (AI:=AI) w Hok) as [Hcore Hhp]. rewrite Hcore, Hhp. cbn [mbind option_bind].
    assert (a_fills (a_run abook_new (a_cmd <$> w.*2)).1 = n2 / 2)%nat as ->.
    { rewrite Hc, fmap_app, (two_phase_fills 10000 1000000 1); [rewrite !length_fmap, length_seq; lia|lia| |].
      - intros c (i & ->)%elem_a_cmd. cbn. eexists _, _. split; [done|lia].
      - intros c (i & ->)%elem_a_cmd. cbn. eauto. }
    assert (Qle_bool min_fill_rate (fill_rate (idx n2) (Z.of_nat (n2 / 2))) = true) as ->; [|done].
    apply Qle_bool_iff. eapply Qle_trans; [exact Hmin|]. apply rate_ge; [unfold idx; lia|].
    pose proof (Nat.div_mod_eq n2 2). pose proof (Nat.mod_upper_bound n2 2). unfold idx. lia.
  - destruct (rest_only_spec n ltac:(lia)) as (w & Hw & Hok & Hc). exists w. split; [done|].
    destruct (workload_counts (BI:=BI) (AI:=AI) w Hok) as [Hcore Hhp].
    assert (a_fills (a_run abook_new (a_cmd <$> w.*2)).1 = 0%nat) as Hz; [|by rewrite Hz in Hcore, Hhp].
    pose proof (a_run_rests ABuy (λ _, True) (a_cmd <$> w.*2) abook_new) as Hr.
    destruct (a_run abook_new (a_cmd <$> w.*2)) as [evss ab]. apply Hr; [|constructor]. rewrite Hc. intros c (i & ->)%elem_a_cmd. cbn.
    eexists _, _, _. split_and!; [done|lia|done|constructor].
  - destruct (partial_walk_spec n ltac:(lia)) as (w & Hw & Hok & Hc). exists w. split; [done|].
    destruct (workload_counts (BI:=BI) (AI:=AI) w Hok) as [Hcore Hhp]. cbn zeta.
    assert (a_fills (a_run abook_new (a_cmd <$> w.*2)).1 = n * 4 / 5)%nat as Hz; [|by rewrite Hz in Hcore, Hhp].
    rewrite Hc, fmap_app, (two_phase_fills 10200 1000000 5).
    + rewrite !length_fmap, !length_seq. pose proof (Nat.Div0.mul_div_le (n * 4) 5). lia.
    + lia.
    + intros c (i & ->)%elem_a_cmd. cbn [a_cmd a_of]. eexists _, _. split; [done|]. pose proof (mod_tick 10000 i 200 ltac:(lia) ltac:(lia)). lia.
    + intros c (i & ->)%elem_a_cmd. cbn. eauto.
Qed.

Implicit Types e : HpEngine BI AI.

Lemma hp_run_each_app l1 l2 : ∀ e evss e',
  hp_run_each e (l1 ++ l2) = Some (evss, e') →
  ∃ evss1 e1 evss2, hp_run_each e l1 = Some (evss1, e1) ∧ hp_run_each e1 l2 = Some (evss2, e') ∧ evss = evss1 ++ evss2 ∧ length evss1 = length l1.
Proof.
  induction l1 as [|c l1 IH]; intros e evss e'; cbn [app hp_run_each]; [intros Hr; by exists [], e, evss|].
  destruct (hp_on_order e c) as [[evs e1]|]; [|done]. cbn [mbind option_bind].
  destruct (hp_run_each e1 (l1 ++ l2)) as [[evss' e2]|] eqn:Er; [|done]. cbn [mbind option_bind]. intros [= <- <-].
  destruct (IH _ _ _ Er) as (v1 & e3 & v2 & -> & H2 & -> & Hl). exists (evs :: v1), e3, v2. cbn. split_and!; [done|done|done|by f_equal].
Qed.

Lemma timed_run_fills l : ∀ e evss e' n peak,
  hp_run_each e l = Some (evss, e') → ∃ peak', timed_run e l n peak = Some (n + fills is_hp_fill (concat evss), peak').
Proof.
  induction l as [|c l IH]; intros e evss e' n peak; cbn [hp_run_each timed_run].
  - intros [= <- <-]. exists peak. unfold fills. cbn. by rewrite Z.add_0_r.
  - destruct (hp_on_order e c) as [[evs e1]|]; [|done]. cbn [mbind option_bind].
    destruct (hp_run_each e1 l) as [[evss1 e2]|] eqn:Er; [|done]. cbn [mbind option_bind]. intros [= <- <-].
    destruct (IH e1 evss1 e2 (n + fills is_hp_fill evs) (Nat.max peak (client_map_len e1)) Er) as (peak' & ->). exists peak'.
    unfold fills. cbn [concat]. rewrite List.filter_app, length_app. do 2 f_equal. lia.
Qed.

Lemma a_run_length cs : ∀ ab, length (a_run ab cs).1 = length cs.
Proof.
  induction cs as [|c cs IH]; intros ab; [done|]. cbn [a_run]. destruct (a_step ab c) as [evs ab1]. specialize (IH ab1).
  destruct (a_run ab1 cs) as [evss ab2]. cbn in *. by rewrite IH.
Qed.

Lemma gate_passes tier (f s : nat) :
  (10 <= s)%nat → f = (match tier with Low => s / 10 | Mid => s / 2 | High => s * 2 end)%nat →
  gate_ok tier (fill_rate (Z.of_nat s) (Z.of_nat f)) = true.
Proof.
  intros Hs ->. destruct tier; cbn [gate_ok].
  - apply rate_near; [lia|]. pose proof (Nat.div_mod_eq s 10). pose proof (Nat.mod_upper_bound s 10 ltac:(lia)). lia.
  - apply rate_near; [lia|]. pose proof (Nat.div_mod_eq s 2). pose proof (Nat.mod_upper_bound s 2 ltac:(lia)). lia.
  - apply Qle_bool_iff, rate_ge; lia.
Qed.

(** Every cell of the tier matrix passes its gate.  For any resting depth and any
    stream of at least ten orders, in every band: the commands of the cell, warm-up
    included, use every client number once; the run goes through and counts exactly a
    tenth, a half or twice the stream in fills; and the fill rate passes the gate of
    the band.  All cells of both presets are such cells. *)
Theorem tier_gates (cell : TierCell) :
  (10 <= cell_stream cell)%nat → Z.of_nat (cell_rest cell) < 2 ^ 60 → Z.of_nat (cell_stream cell) < 2 ^ 60 →
  let fill_count := Z.of_nat (match cell_tier cell with
    | Low => cell_stream cell / 10 | Mid => cell_stream cell / 2 | High => cell_stream cell * 2 end) in
  NoDup (client_of <$> warm_cmds cell ++ stream_cmds cell (stream_id_base cell))
  ∧ (∃ peak, run_once (BI:=BI) (AI:=AI) cell = Some (fill_count, peak))
  ∧ gate_ok (cell_tier cell) (fill_rate (idx (cell_stream cell)) fill_count) = true
  ∧ Forall (λ c, (10 <= cell_stream c)%nat ∧ Z.of_nat (cell_rest c) < 2 ^ 60 ∧ Z.of_nat (cell_stream c) < 2 ^ 60) (preset_default ++ preset_quick).
Proof.
  intros Hs Hr Hst. cbn zeta. pose proof (tier_clients cell Hs Hr Hst) as Hnd. split_and!; [done| |by apply gate_passes|].
  - destruct (hp_limit_run (BI:=BI) (AI:=AI) _ (tier_limits cell Hs) Hnd) as (evss & e & Hrun & Hev).
    destruct (hp_run_each_app _ _ _ _ _ Hrun) as (v1 & e1 & v2 & H1 & H2 & -> & Hl1). unfold run_once.
    rewrite (hp_run_concat _ _ _ _ H1). cbn [mbind option_bind].
    destruct (timed_run_fills _ e1 v2 e 0 (client_map_len e1) H2) as (peak & ->). exists peak. do 2 f_equal. rewrite Z.add_0_l.
    rewrite fmap_app, a_run_app in Hev. cbn [fst] in Hev. apply Forall2_app_inv in Hev as [_ Hev]; [|rewrite a_run_length, length_fmap; done].
    rewrite (hp_fills_count _ _ Hev). rewrite stream_fills by done. done.
  - cbn [preset_default preset_quick mbind list_bind fmap list_fmap app].
    repeat (apply Forall_cons_2; [cbn [cell_rest cell_stream]; lia|]). apply Forall_nil_2.
Qed.

End Props.

(** ** Witnesses *)
Module Witness.
Import HpProps.Witness WholeDecimal.

Lemma fair_compare_fair_witness :
  (let half := Z.of_nat (Nat.max 7 2 / 2) in fair_compare (BI:=BTreeBidIndex) (AI:=BTreeAskIndex) 7 (1 # 100) = Some (half, half, true))
  ∧ (∃ w, rest_only 7 = Some w ∧ count_core_fills w.*1 = Some 0 ∧ count_hp_fills (BI:=BTreeBidIndex) (AI:=BTreeAskIndex) w.*2 = Some 0)
  ∧ (∃ w, partial_walk 7 = Some w ∧ let makers := Z.of_nat (7 * 4 / 5) in
       count_core_fills w.*1 = Some makers ∧ count_hp_fills (BI:=BTreeBidIndex) (AI:=BTreeAskIndex) w.*2 = Some makers).
Proof. apply (fair_compare_fair (PP := whole_parse) (BI:=BTreeBidIndex) (AI:=BTreeAskIndex) 7 (1 # 100)); [lia|]. unfold Qle. cbn. lia. Defined.

Lemma tier_gates_witness : ∃ peak, run_once (BI:=BTreeBidIndex) (AI:=BTreeAskIndex) (mkCell 3 13 High) = Some (26, peak).
Proof.
  destruct (tier_gates (BI:=BTreeBidIndex) (AI:=BTreeAskIndex) (mkCell 3 13 High)) as (_ & Hrun & _); [cbn; lia..|]. exact Hrun.
Defined.

(** The cancelling workload leaves both books empty with a revoke for every order. *)
Example cancel_hot_20 :
  (λ w, (length <$> (fst <$> run engine_new w.*1), (λ x : list HpEvent * eng, (length (List.filter not_rest x.1), store_map (store (book x.2)))) <$> hp_run hp_engine_new w.*2))
  <$> cancel_hot 20 = Some (Some 10%nat, Some (10%nat, ∅)).
Proof. vm_compute. reflexivity. Qed.

(** The mixed workload is not one logical sequence: after the first round of its four
    phases [match-core] has nothing left, [match-core-hp] still holds 63 orders, since
    its cancels all name the same id. *)
Example mixed_diverges :
  (λ w, ((λ x : list MatchEvent * Engine, length (orders CoreBook.Buy (book_of x.2 SYMBOL))) <$> run engine_new w.*1,
         (λ x : list HpEvent * eng, live_len (store (book x.2))) <$> hp_run hp_engine_new w.*2))
  <$> mixed 256 = Some (Some 0%nat, Some 63).
Proof. vm_compute. reflexivity. Qed.

End Witness.
