(* ===== verification/GatewayClient.v ===== *)
(** * match-udp-order: the client of the gateway demonstration

    Models the client half of [match-udp-order/src/bin/udp_order_gw.rs]: the sending
    window, the request when reports stall, the handling of what is received, the
    resending and the end of [client_main]; [client_ping], one order in flight; and
    the command line.  The socket and the clock are arguments: a turn of the loop
    holds the readings of the clock and the datagrams read until the deadline or
    until the socket would block.  One reading is shared by everything done with one
    datagram.  Percentiles and printing are left out.  A panic is [None].

    [exchange] is the program with a network that delivers: what the client sends in
    a turn reaches the gateway, and the client reads the answers in the same turn. *)
From stdpp Require Import gmap strings.
From S2P Require Import Prelude Decimal Protocol CoreBook CoreMatch CoreEngine HpScale UdpOrder Utf8 Gateway.

#[local] Open Scope Z_scope.

Definition PORT_DEFAULT : Z := 55040.

Definition millis (n : Z) : Z := n * 10 ^ 6.
Definition secs (n : Z) : Z := n * 10 ^ 9.

(** The locals of [client_main]. *)
Record ClientLoop := mkLoop {
  l_cli : ClientSession;
  l_out_buf : list (list Z);
  l_next : nat;
  l_reports : Z;
  l_executed : Z;
  l_dropped_seq1 : bool;
  l_last_report_at : Z;
  l_sent_ts : gmap string Z;
  l_rtts : list Z }.

(** The orders, all put into the buffer before the loop starts; [clock i] is the
    reading for order [i]. *)
Fixpoint fill_buffer (is_ : list nat) (clock : nat → Z) (cli : ClientSession) (sent_ts : gmap string Z) :
    ClientSession * list (list Z) * gmap string Z :=
  match is_ with
  | [] => (cli, [], sent_ts)
  | i :: is_ =>
      let sent_ts := <[client_no i := clock i]> sent_ts in
      let '(cli, dg) := send_order cli (clock i) (client_payload i) in
      let '(cli, out, sent_ts) := fill_buffer is_ clock cli sent_ts in
      (cli, dg :: out, sent_ts)
  end.

Definition client_start (orders : nat) (nak_test : bool) (clock : nat → Z) (start : Z) : ClientLoop :=
  let '(cli, out, sent_ts) := fill_buffer (seq 0 orders) clock udp_client_new ∅ in
  mkLoop cli (send_hello 42 0 :: out) 0 0 0 nak_test start sent_ts [].

(** ** Sending *)

Definition WINDOW : nat := 128.

(** The frames of one window: those from [next] on, at most 128. *)
Definition client_window (c : ClientLoop) : ClientLoop * list (list Z) :=
  let sent := take WINDOW (drop (l_next c) (l_out_buf c)) in
  (mkLoop (l_cli c) (l_out_buf c) (l_next c + length sent) (l_reports c) (l_executed c) (l_dropped_seq1 c)
     (l_last_report_at c) (l_sent_ts c) (l_rtts c), sent).

(** A request for the reports from the expected one on, when none came for 100 ms. *)
Definition client_stall (c : ClientLoop) (now : Z) : ClientLoop * list (list Z) :=
  if (0 <? l_reports c) && (millis 100 <? now - l_last_report_at c) then
    (mkLoop (l_cli c) (l_out_buf c) (l_next c) (l_reports c) (l_executed c) (l_dropped_seq1 c) now (l_sent_ts c) (l_rtts c),
     [nak_request (expected_report_seq (l_cli c)) 512])
  else (c, []).

Definition client_send (c : ClientLoop) (now : Z) : ClientLoop * list (list Z) :=
  let '(c, sent) := client_window c in
  let '(c, sent') := client_stall c now in
  (c, sent ++ sent').

(** ** Receiving *)

(** A report: its type byte, its text without that byte, the second field of the text. *)
Definition client_report (c : ClientLoop) (now : Z) (payload : list Z) : option ClientLoop :=
  match payload with
  | [] => None
  | rt :: rest =>
      let text := string_of_bytes (from_utf8_lossy rest) in
      let executed := if rt =? REPORT_EXECUTED then l_executed c + 1 else l_executed c in
      let '(sent_ts, rtts) :=
        match split_on bar text with
        | _ :: no :: _ =>
            match l_sent_ts c !! no with
            | Some ts => (delete no (l_sent_ts c), l_rtts c ++ [now - ts])
            | None => (l_sent_ts c, l_rtts c)
            end
        | _ => (l_sent_ts c, l_rtts c)
        end in
      Some (mkLoop (l_cli c) (l_out_buf c) (l_next c) (l_reports c + 1) executed (l_dropped_seq1 c) now sent_ts rtts)
  end.

(** [for ev in evs { .. }]: only reports change anything. *)
Fixpoint client_events (c : ClientLoop) (now : Z) (evs : list ClientEvent) : option ClientLoop :=
  match evs with
  | [] => Some c
  | ClReport _ payload :: evs => c ← client_report c now payload; client_events c now evs
  | _ :: evs => client_events c now evs
  end.

(** The report numbered 1, which the test run loses on purpose. *)
Definition is_report_1 (dg : list Z) : bool :=
  match decode dg with Some (h, _) => (h_mtype h =? REPORT) && (h_seq h =? 1) | None => false end.

Definition client_receive (c : ClientLoop) (now : Z) (dg : list Z) : option ClientLoop :=
  if l_dropped_seq1 c && is_report_1 dg then
    Some (mkLoop (l_cli c) (l_out_buf c) (l_next c) (l_reports c) (l_executed c) false (l_last_report_at c)
            (l_sent_ts c) (l_rtts c))
  else
    let '(cli, evs, out) := client_on_datagram (l_cli c) dg in
    client_events
      (mkLoop cli (l_out_buf c ++ out) (l_next c) (l_reports c) (l_executed c) (l_dropped_seq1 c) (l_last_report_at c)
         (l_sent_ts c) (l_rtts c)) now evs.

Fixpoint client_rx (c : ClientLoop) (rx : list (Z * list Z)) : option ClientLoop :=
  match rx with
  | [] => Some c
  | (now, dg) :: rx => c ← client_receive c now dg; client_rx c rx
  end.

(** ** The loop *)

(** One turn: the clock at the stall test; what is read and when; whether the
    socket then fails; the clock at the resending and at the last test. *)
Record cturn := mkCTurn { c_stall : Z; c_rx : list (Z * list Z); c_failed : bool; c_late : Z; c_test : Z }.

(** The datagrams sent before receiving and those resent behind it. *)
Definition client_turn (c : ClientLoop) (t : cturn) : option (ClientLoop * list (list Z) * list (list Z)) :=
  let '(c, sent) := client_send c (c_stall t) in
  c ← client_rx c (c_rx t);
  if c_failed t then Some (c, sent, []) else
  let '(cli, late) := retransmit_due (l_cli c) (c_late t) (secs 2) in
  Some (mkLoop cli (l_out_buf c) (l_next c) (l_reports c) (l_executed c) (l_dropped_seq1 c) (l_last_report_at c)
          (l_sent_ts c) (l_rtts c), sent, late).

Inductive client_end := CRunning (c : ClientLoop) | CDone (c : ClientLoop) | CTimedOut (c : ClientLoop) | CFailed.

Fixpoint client_loop (target t0 : Z) (c : ClientLoop) (turns : list cturn) : option client_end :=
  if target <=? l_reports c then Some (CDone c)
  else
    match turns with
    | [] => Some (CRunning c)
    | t :: turns =>
        '(c, _, _) ← client_turn c t;
        if c_failed t then Some CFailed
        else if secs 30 <? c_test t - t0 then Some (CTimedOut c)
        else client_loop target t0 c turns
    end.

(** [t0] is read before the loop and [start] right behind it. *)
Definition client_main (orders : nat) (nak_test : bool) (clock : nat → Z) (t0 start : Z) (turns : list cturn) : option client_end :=
  client_loop (Z.of_nat orders) t0 (client_start orders nak_test clock start) turns.

(** ** One order in flight ([client_ping]) *)

(** The state of [client_ping]: session, buffer and samples. *)
Record Ping := mkPing { p_cli : ClientSession; p_out_buf : list (list Z); p_rtts : list Z }.

(** What a wait reads: when it starts and what comes until its time is over;
    whether the socket fails then. *)
Record wait := mkWait { w_start : Z; w_rx : list (Z * list Z); w_failed : bool }.

Definition is_hello_ack (ev : ClientEvent) : bool := match ev with ClHelloAck _ _ _ => true | _ => false end.
Definition is_report (ev : ClientEvent) : bool := match ev with ClReport _ _ => true | _ => false end.

(** Reading until an event of the kind comes; a sample for each in the datagram
    that brings it, when [t0] is given.  The flag says whether one came. *)
Fixpoint ping_wait (wanted : ClientEvent → bool) (t0 : option Z) (p : Ping) (rx : list (Z * list Z)) : Ping * bool :=
  match rx with
  | [] => (p, false)
  | (now, dg) :: rx =>
      let '(cli, evs, out) := client_on_datagram (p_cli p) dg in
      let hits := List.filter wanted evs in
      let p := mkPing cli (p_out_buf p ++ out)
                 (p_rtts p ++ match t0 with Some t0 => (λ _, now - t0) <$> hits | None => [] end) in
      if existsb wanted evs then (p, true) else ping_wait wanted t0 p rx
  end.

(** [while out_buf.len() > 0]: send all, wait for the answer to the hello.  [None]
    is a failure of the socket; the waits left are for the rest of the program. *)
Fixpoint ping_flush (p : Ping) (waits : list wait) : option (Ping * list (list Z) * list wait) :=
  match p_out_buf p, waits with
  | [], _ => Some (p, [], waits)
  | _, [] => Some (p, [], [])
  | out, w :: waits =>
      let '(p, got_ack) := ping_wait is_hello_ack None (mkPing (p_cli p) [] (p_rtts p)) (w_rx w) in
      if got_ack then '(p, out', waits) ← ping_flush p waits; Some (p, out ++ out', waits)
      else if w_failed w then None
      else Some (p, out, waits)
  end.

(** [format!("p{round:03}")] *)
Definition ping_no (round : nat) : string := "p" +:+ String.string_of_list_ascii (zero_padded 3 (Z.of_nat round)).

Definition ping_payload (round : nat) : list Z :=
  bytes_of ((if Nat.even round then "B" else "S") +:+ "|btcusdt|" +:+ (if Nat.even round then "100.00" else "99.99")
            +:+ "|1|" +:+ ping_no round).

Fixpoint ping_rounds (rounds : list nat) (p : Ping) (waits : list wait) : option (Ping * list (list Z)) :=
  match rounds with
  | [] => Some (p, [])
  | round :: rounds =>
      '(p, sent, waits) ← ping_flush p waits;
      match waits with
      | [] => Some (p, sent)
      | w :: waits =>
          let '(cli, dg) := send_order (p_cli p) (w_start w) (ping_payload round) in
          let '(p, done_) := ping_wait is_report (Some (w_start w)) (mkPing cli (p_out_buf p) (p_rtts p)) (w_rx w) in
          if negb done_ && w_failed w then None
          else '(p, sent') ← ping_rounds rounds p waits; Some (p, sent ++ dg :: sent')
      end
  end.

Definition client_ping (rounds : nat) (waits : list wait) : option (Ping * list (list Z)) :=
  ping_rounds (seq 0 rounds) (mkPing udp_client_new [send_hello 42 0] []) waits.

(** ** The command line *)

Definition parse_u16 (s : string) : option Z :=
  n ← parse_u64 (bytes_of s); if n <=? 2 ^ 16 - 1 then Some n else None.

Fixpoint read_args (args : list string) (orders port : Z) : Z * Z :=
  match args with
  | [] => (orders, port)
  | a :: rest =>
      if String.eqb a "--nak-test" || String.eqb a "--ping" then read_args rest orders port
      else if String.eqb a "--port" then
        match rest with
        | p :: rest => read_args rest orders (default PORT_DEFAULT (parse_u16 p))
        | [] => (orders, port)
        end
      else read_args rest (default orders (parse_u64 (bytes_of a))) port
  end.

Record Args := mkArgs { a_orders : Z; a_port : Z; a_nak_test : bool; a_ping : bool }.

Definition gateway_args (args : list string) : Args :=
  let '(orders, port) := read_args args 2000 PORT_DEFAULT in
  mkArgs orders port (existsb (String.eqb "--nak-test") args) (existsb (String.eqb "--ping") args).

(** The target of the server: none in ping mode, where it stays. *)
Definition orders_gw (a : Args) : Z := if a_ping a then 0 else a_orders a.

(** ** Client and gateway over a network that delivers *)

Record clocks := mkClocks { k_stall : Z; k_rx : Z; k_late : Z; k_test : Z }.

Section Exchange.
Context `{BD : BigDecimal}.

(** The turns of both loops; [late] is what was resent in the turn before. *)
Fixpoint exchange (target : Z) (late : list (list Z)) (c : ClientLoop) (g : Gateway) (ks : list clocks) :
    option (list cturn * list turn) :=
  match ks with
  | [] => Some ([], [])
  | k :: ks =>
      if target <=? l_reports c then Some ([], [])
      else
        let batch := late ++ (client_send c (k_stall k)).2 in
        '(g, out) ← gw_batch g batch;
        let t := mkCTurn (k_stall k) (pair (k_rx k) <$> out) false (k_late k) (k_test k) in
        '(c, _, late) ← client_turn c t;
        '(cts, sts) ← exchange target late c g ks;
        Some (t :: cts, mkTurn (k_stall k) batch (k_rx k) :: sts)
  end.

End Exchange.
