(* ===== verification/GatewayClientProps.v ===== *)
(** * The gateway demonstration runs to its end

    Client loop and gateway over a network that delivers in time: the loops of both
    sides, run against each other, end with one report per order, every second one an
    execution, and a round-trip sample for every order.  The run that loses the first
    report recovers it, except with a single order, which nothing asks for again. *)
From stdpp Require Import gmap strings.
From S2P Require Import Prelude Decimal Protocol CoreBook CoreMatch CoreSpec CoreEngine ProtocolProps HpIndex HpScale PriorityBook CrossCore PlainDecimal Workload WorkloadProps UdpOrder UdpOrderProps Utf8 Gateway GatewayProps GatewayClient.
From Stdlib Require Import QArith Lqa.

#[local] Open Scope Z_scope.
#[local] Arguments encode : simpl never.
#[local] Arguments be_bytes : simpl never.

(** ** Order numbers *)

(** The order a client number stands for. *)
Definition demo_id (no : string) : option Z :=
  match no with
  | String _ rest =>
      let z := HpScale.num (String.list_ascii_of_string rest) in
      if String.eqb no (client_no (Z.to_nat z)) then Some z else None
  | EmptyString => None
  end.

Lemma client_no_id i : Z.of_nat i < 2 ^ 64 → demo_id (client_no i) = Some (Z.of_nat i).
Proof.
  intros Hi. unfold demo_id. unfold client_no at 1. change ("o" +:+ ?t) with (String "o" t). cbn match.
  rewrite String.list_ascii_of_string_of_list_ascii. destruct (u64_to_string_spec (Z.of_nat i) ltac:(lia)) as (_ & Hv & _).
  assert (HpScale.num (zero_padded 6 (Z.of_nat i)) = Z.of_nat i) as -> by (unfold zero_padded; rewrite num_app, num_zeros, Hv; lia).
  rewrite Nat2Z.id. change (String "o" _) with (client_no i). by rewrite String.eqb_refl.
Qed.

Lemma demo_id_inv no i : demo_id no = Some (Z.of_nat i) → no = client_no i.
Proof.
  unfold demo_id. destruct no as [|a rest]; [done|]. destruct (String.eqb_spec (String a rest) (client_no (Z.to_nat (HpScale.num (String.list_ascii_of_string rest))))) as [Heq|]; [|done].
  intros [= Hz]. by rewrite Hz, Nat2Z.id in Heq.
Qed.

Lemma client_no_inj i j : Z.of_nat i < 2 ^ 64 → Z.of_nat j < 2 ^ 64 → client_no i = client_no j → i = j.
Proof. intros Hi Hj Heq. apply (f_equal demo_id) in Heq. rewrite !client_no_id in Heq by done. injection Heq. lia. Qed.

(** ** The engine under the orders of the client *)

Section Demo.
Context `{PP : PlainParse}.
Implicit Types (e : Engine) (g : Gateway) (c : ClientLoop).

Definition demo_entry (j : nat) : entry := mkEntry (Z.of_nat j) 10000 1000000.

(** After [j] orders: nothing rests, or the buy that waits for its sell. *)
Definition demo_book (j : nat) : abook :=
  if Nat.even j then abook_new else mkAbook [demo_entry (j - 1)] [].

Definition demo_resting e (j : nat) : Prop :=
  book_inv SYMBOL (book_of e SYMBOL) ∧ core_rel demo_id (unit 2) (unit 6) (book_of e SYMBOL) (demo_book j).

Definition demo_side (j : nat) : aside := if Nat.even j then ABuy else ASell.
Definition demo_tick (j : nat) : Z := if Nat.even j then 10000 else 9999.

Lemma sell_worth : ∃ d, dec "99.99" = Some d ∧ worth (unit 2) d 9999.
Proof. apply (text_worth_of ["9"; "9"]%char (Some ["9"; "9"]%char) 2); try done; repeat constructor. Qed.

Definition demo_mq (j : nat) : MqOrder :=
  mq_limit (if Nat.even j then ORDER_TYPE_BUY else ORDER_TYPE_SELL) "btcusdt" (client_no j)
    (if Nat.even j then "100.00" else "99.99") "1".

Lemma demo_order j :
  Z.of_nat j < 2 ^ 64 →
  ∃ o, type_convert_spot (demo_mq j) = Some o ∧ symbol_key o = SYMBOL ∧ trust_order_no o = client_no j
    ∧ new_limit demo_id (unit 2) (unit 6) o (demo_side j) (Z.of_nat j) (demo_tick j) 1000000.
Proof.
  intros Hj. destruct one_worth as (q & Hq & Wq).
  assert (∃ d, dec (if Nat.even j then "100.00" else "99.99") = Some d ∧ worth (unit 2) d (demo_tick j)) as (d & Hd & Wd).
  { unfold demo_tick. destruct (Nat.even j); [apply hundred_worth|apply sell_worth]. }
  assert (⟦bd_zero⟧ == 0)%Q as H0 by apply bd_val_zero.
  assert (0 < ⟦d⟧)%Q as Hd0.
  { unfold worth in Wd. rewrite Wd, <- (Qmult_0_l (unit 2)). apply (unit_lt (unit 2) 0); [done|]. unfold demo_tick. by destruct (Nat.even j). }
  assert (0 < ⟦q⟧)%Q as Hq0.
  { unfold worth in Wq. rewrite Wq, <- (Qmult_0_l (unit 6)). by apply (unit_lt (unit 6) 0). }
  unfold type_convert_spot, demo_mq, mq_limit. cbn [mq_symbol_key mq_trust_number mq_trust_price mq_order_form mbind option_bind].
  unfold parse_decimal. fold (dec "1"). fold (dec (if Nat.even j then "100.00" else "99.99")). rewrite Hq, Hd. cbn [mbind option_bind].
  destruct (q <=? bd_zero)%bd eqn:E1; [bdb; exfalso; lra|]. destruct (d <=? bd_zero)%bd eqn:E2; [bdb; exfalso; lra|].
  cbn. eexists. split; [reflexivity|]. split_and!; [done|done|]. unfold demo_side, demo_tick in *.
  split; [done|]. split; [done|]. split; [by destruct (Nat.even j)|].
  split; [unfold quantity_ok, remaining; cbn; split; bdlra|]. split; [by apply client_no_id|]. split; [done|].
  unfold worth, remaining in *. cbn. rewrite bd_val_sub, H0, <- Wq. lra.
Qed.

Lemma demo_step e j :
  Z.of_nat j + 1 < 2 ^ 63 → demo_resting e j →
  ∃ o evs e', type_convert_spot (demo_mq j) = Some o ∧ CoreEngine.on_order e o = Some (evs, e') ∧ demo_resting e' (S j)
    ∧ if Nat.even j then evs = []
      else ∃ sym maker tt mt price qty tr mr ts ms, evs = [Fill sym (client_no j) maker tt mt price qty tr mr ts ms].
Proof.
  intros Hj [Hinv Hrel]. destruct (demo_order j ltac:(lia)) as (o & Ho & Hsym & Hno & Hnew).
  assert (∀ t x, x ∈ orders (side_of t) (book_of e SYMBOL) → client_no j ≠ trust_order_no x) as Hne.
  { intros t x Hx Heq. destruct (Forall2_elem_r _ _ _ _ (proj1 (Forall2_flip _ _ _) (Hrel t)) Hx) as (en & Hen & Hid & _).
    rewrite <- Heq, client_no_id in Hid by lia. unfold demo_book in Hen.
    destruct (Nat.even j) eqn:Ev, t; cbn in Hen; try by apply elem_of_nil in Hen.
    apply list_elem_of_singleton in Hen as ->. cbn in Hid. injection Hid. destruct j; [done|lia]. }
  assert (contains_order_no (book_of e SYMBOL) (trust_order_no o) = false) as Hc.
  { apply contains_order_no_false_iff. rewrite Hno.
    split; intros (x & Heq & Hx)%list_elem_of_fmap; [by apply (Hne ABuy x)|by apply (Hne ASell x)]. }
  assert (orders (side_of (demo_side j)) (book_of e SYMBOL) = []) as Hown.
  { pose proof (Hrel (demo_side j)) as Hr. unfold demo_side, demo_book in *. destruct (Nat.even j); cbn in Hr |- *; by inversion Hr. }
  pose proof (core_limit_step demo_id (unit 2) (unit 6) (unit_pos _) (unit_pos _) SYMBOL _ _ o _ _ _ _ Hinv Hrel Hnew Hc) as Hstep.
  rewrite Hown in Hstep. specialize (Hstep (Forall_nil_2 _)). destruct (a_step (demo_book j) _) as [aevs ab'] eqn:Ea.
  destruct Hstep as (evs & book' & Hon & Hevs & Hrel' & _). rewrite <- Hsym in Hon.
  destruct (on_order_of_book e o evs book' Hon) as (e' & He' & Hb').
  exists o, evs, e'. split; [done|]. split; [done|].
  assert (order_valid o) as Hv by (by eapply type_convert_spot_valid). rewrite Hsym in Hb', Hon.
  destruct (on_book_inv SYMBOL _ o Hinv Hsym Hv) as (? & ? & Hon2 & Hinv'). simplify_eq.
  unfold demo_resting. unfold demo_book, demo_side, demo_tick in *. rewrite Nat.even_succ, <- Nat.negb_even.
  destruct (Nat.even j) eqn:Ev; cbn in Ea |- *; injection Ea as <- <-.
  - inversion Hevs; subst. rewrite Nat.sub_0_r. done.
  - inversion Hevs as [|ev a ? ? Hev Hnil]; subst. inversion Hnil; subst. split; [done|].
    destruct ev; [|done]. destruct Hev as (Ht & _). apply demo_id_inv in Ht as ->. by repeat eexists.
Qed.

(** ** One order at the gateway *)

(** [j] orders have been taken, each answered with one report. *)
Record gw_at (j : nat) g : Prop := {
  ga_client : expected_client_seq (gw_srv g) = Z.of_nat j + 1;
  ga_report : next_report_seq (gw_srv g) = Z.of_nat j + 1;
  ga_engine : demo_resting (gw_engine g) j;
  ga_processed : gw_processed g = Z.of_nat j;
  ga_fills : gw_fills g = Z.of_nat (j / 2) }.

Definition order_frame (j : nat) : list Z := encode SESSION_MAGIC (Z.of_nat j + 1) ORDER (client_payload j).
Definition ok_frame (j : nat) : list Z := encode SESSION_MAGIC (Z.of_nat j + 1) ORDER_ACK (ack_payload (Z.of_nat j + 1) ACK_OK).
Definition report_frame (j : nat) (r : list Z) : list Z := encode SESSION_MAGIC (Z.of_nat j + 1) REPORT r.

(** The report of order [j]: an acceptance or the execution of the order. *)
Definition demo_report (j : nat) (r : list Z) : Prop :=
  if Nat.even j then r = accepted_text (client_no j)
  else ∃ more, r = REPORT_EXECUTED :: bytes_of ("E|" +:+ client_no j +:+ "|" +:+ more).

Lemma half_succ j : (S j / 2 = if Nat.even j then j / 2 else S (j / 2))%nat.
Proof.
  pose proof (Nat.div_mod_eq j 2). pose proof (Nat.div_mod_eq (S j) 2). pose proof (Nat.mod_upper_bound j 2). pose proof (Nat.mod_upper_bound (S j) 2).
  destruct (Nat.even j) eqn:E; [apply Nat.even_spec in E as [k ->]|pose proof (Nat.negb_even j) as Ho; rewrite E in Ho; apply eq_sym, Nat.odd_spec in Ho as [k ->]]; lia.
Qed.

Lemma gw_at_step j g :
  Z.of_nat j + 2 < 2 ^ 32 → gw_at j g →
  ∃ g' r, gw_on_datagram g (order_frame j) = Some (g', [ok_frame j; ok_frame j; report_frame j r]) ∧ demo_report j r ∧ gw_at (S j) g'.
Proof.
  intros Hj [Hc Hr He Hp Hf]. unfold gw_on_datagram, server_on_datagram, order_frame. rewrite frame_decode_encode. cbn [h_mtype].
  rewrite order_type_test. unfold UdpOrder.on_order. cbn [h_seq h_mtype]. rewrite u32_wrap_id by (unfold in_u32; lia).
  rewrite Hc, Z.eqb_refl. unfold order_event. rewrite Z.eqb_refl. cbn [app gw_on_events].
  unfold gw_on_order. cbn [gw_engine gw_srv gw_processed gw_fills gw_total_evs]. rewrite client_payload_parses by lia. fold (demo_mq j).
  destruct (demo_step (gw_engine g) j ltac:(lia) He) as (o & evs & e' & -> & Ho & He' & Hev). cbn [mbind option_bind]. rewrite Ho.
  cbn [mbind option_bind]. unfold demo_report. pose proof (half_succ j) as Hh. destruct (Nat.even j) eqn:Ev.
  - subst evs. cbn [report_events]. unfold ack_and_report. cbn [store store_cap store_start expected_client_seq next_report_seq last_nak_start]. rewrite Hr.
    destruct (store_cap (gw_srv g) <? _)%nat; [destruct (store (gw_srv g) ++ _) as [|[popped ?] ?]|]; cbn; eexists _, _;
      (split; [reflexivity|]); (split; [done|]); (split; cbn -[Nat.div]; [rewrite u32_wrap_id by (unfold in_u32; lia); lia..|done|lia|rewrite Hh; lia]).
  - destruct Hev as (sym & maker & tt & mt & price & qty & tr & mr & ts & ms & ->). cbn [report_events report_text].
    unfold ack_and_report. cbn [store store_cap store_start expected_client_seq next_report_seq last_nak_start]. rewrite Hr.
    destruct (store_cap (gw_srv g) <? _)%nat; [destruct (store (gw_srv g) ++ _) as [|[popped ?] ?]|]; cbn; eexists _, _;
      (split; [reflexivity|]); (split; [by eexists|]); (split; cbn -[Nat.div]; [rewrite u32_wrap_id by (unfold in_u32; lia); lia..|done|lia|rewrite Hh, decide_True by done; cbn [length]; lia]).
Qed.

(** ** The answers at the client *)

(** The sent times and the reports' texts. *)
Lemma lossy_ascii_app (s t : list Z) : Forall is_ascii s → from_utf8_lossy (s ++ t) = s ++ from_utf8_lossy t.
Proof.
  unfold from_utf8_lossy. rewrite length_app. induction s as [|b s IH]; intros Hs; [done|]. apply Forall_cons in Hs as [Hb Hs].
  cbn [length Nat.add app lossy]. unfold utf8_step, is_ascii in *. rewrite (proj2 (Z.ltb_lt b 128)) by lia. cbn. f_equal. by apply IH.
Qed.

(** The second field of the text behind the type byte is the order number. *)
Lemma demo_report_fields j r :
  Z.of_nat j < 2 ^ 64 → demo_report j r →
  ∃ rt rest first more, r = rt :: rest ∧ split_on bar (string_of_bytes (from_utf8_lossy rest)) = first :: client_no j :: more
    ∧ (rt =? REPORT_EXECUTED) = negb (Nat.even j).
Proof.
  intros Hj. destruct (client_no_text j Hj) as [Ha Hf].
  assert (∀ a b, string_of_bytes (a ++ b) = string_of_bytes a +:+ string_of_bytes b) as Happ.
  { intros a b. unfold string_of_bytes. rewrite fmap_app. induction (_ <$> a) as [|x l IH]; [done|]. cbn. by rewrite IH. }
  assert (∀ a b, bytes_of (a +:+ b) = bytes_of a ++ bytes_of b) as Hb.
  { intros a b. unfold bytes_of. by rewrite list_ascii_app, fmap_app. }
  assert (∀ t, ascii_text t → Forall is_ascii (bytes_of t)) as Hasc.
  { intros t Ht. unfold bytes_of. apply Forall_fmap. eapply Forall_impl; [exact Ht|]. unfold is_ascii. cbn. lia. }
  assert (∀ t, ("|" +:+ t)%string = String bar t) as Hbar by done.
  assert (∀ pre more, ascii_text pre → field pre → ∃ m,
    split_on bar (string_of_bytes (from_utf8_lossy (bytes_of (pre +:+ "|" +:+ client_no j +:+ "|" +:+ more)))) = pre :: client_no j :: m) as Hsplit.
  { intros pre more H1 H2. rewrite !Hb. rewrite !lossy_ascii_app by (apply Hasc; first [done | repeat constructor]). rewrite !Happ, !string_of_bytes_of, !Hbar.
    rewrite !split_on_app by done. by eexists. }
  unfold demo_report. destruct (Nat.even j) eqn:Ev.
  - intros ->. destruct (Hsplit "" "btcusdt"%string) as [m Hm]; [constructor..|].
    exists 65, (bytes_of ("|" +:+ client_no j +:+ "|btcusdt")), ""%string, m. split_and!; [done|exact Hm|done].
  - intros [more ->]. destruct (Hsplit "E"%string more) as [m Hm]; [repeat constructor; done..|].
    eexists _, _, "E"%string, m. split_and!; [reflexivity|exact Hm|done].
Qed.

(** The entries the orders [j .. j + n] have in the tables of the session. *)
Definition keyed_from {V} (f : nat → V) (j n : nat) : list (Z * V) := (λ i, (Z.of_nat i + 1, f i)) <$> seq j n.

Lemma keyed_insert {V} (f : nat → V) n v : ∀ j k, Z.of_nat (j + n) + 1 = k → bt_insert Z.compare (keyed_from f j n) k v = keyed_from f j n ++ [(k, v)].
Proof.
  unfold keyed_from. induction n as [|n IH]; intros j k Hk; [done|]. cbn [seq fmap list_fmap bt_insert].
  rewrite (proj2 (Z.compare_gt_iff k (Z.of_nat j + 1))) by lia. cbn [app]. f_equal. apply IH. lia.
Qed.

Lemma keyed_remove {V} (f : nat → V) j n : (bt_remove Z.compare (keyed_from f j (S n)) (Z.of_nat j + 1)).2 = keyed_from f (S j) n.
Proof. cbn. by rewrite Z.compare_refl. Qed.

Lemma keyed_absent {V} (f : nat → V) j n : (bt_remove Z.compare (keyed_from f (S j) n) (Z.of_nat j + 1)).2 = keyed_from f (S j) n.
Proof. destruct n as [|n]; [done|]. cbn [keyed_from seq fmap list_fmap bt_remove]. by rewrite (proj2 (Z.compare_lt_iff _ _)) by lia. Qed.

Lemma client_rx_app c l1 l2 : client_rx c (l1 ++ l2) = c ← client_rx c l1; client_rx c l2.
Proof. revert c; induction l1 as [|[now d] l1 IH]; intros c; cbn [app client_rx]; [done|]. destruct (client_receive c now d); [apply IH|done]. Qed.

Section Client.
Context (orders : nat) (clock : nat → Z).

(** The client after [j] reports, the orders before [j] acknowledged. *)
Record cl_at (j : nat) c : Prop := {
  ca_expected : expected_report_seq (l_cli c) = Z.of_nat j + 1;
  ca_pending : pending (l_cli c) = keyed_from client_payload j (orders - j);
  ca_ts : pending_ts (l_cli c) = keyed_from clock j (orders - j);
  ca_reports : l_reports c = Z.of_nat j;
  ca_executed : l_executed c = Z.of_nat (j / 2);
  ca_drop : l_dropped_seq1 c = false;
  ca_sent : ∀ i, (j <= i < orders)%nat → l_sent_ts c !! client_no i = Some (clock i);
  ca_rtts : length (l_rtts c) = j }.

(** [c] with another session. *)
Definition with_cli c (cli : ClientSession) : ClientLoop :=
  mkLoop cli (l_out_buf c) (l_next c) (l_reports c) (l_executed c) (l_dropped_seq1 c) (l_last_report_at c) (l_sent_ts c) (l_rtts c).

Definition acked (cli : ClientSession) (k : Z) : ClientSession :=
  mkClient (next_order_seq cli) (expected_report_seq cli) (bt_remove Z.compare (pending cli) k).2 (bt_remove Z.compare (pending_ts cli) k).2.

Lemma client_ack c now j :
  Z.of_nat j + 1 < 2 ^ 32 → l_dropped_seq1 c = false →
  client_receive c now (ok_frame j) = Some (with_cli c (acked (l_cli c) (Z.of_nat j + 1))).
Proof.
  intros Hj Hd. unfold client_receive. rewrite Hd. cbn [andb]. unfold client_on_datagram, ok_frame. rewrite frame_decode_encode. cbn [h_mtype].
  change (ORDER_ACK =? REPORT) with false. change (ORDER_ACK =? NAK_RESPONSE) with false. rewrite (Z.eqb_refl ORDER_ACK). cbn match.
  unfold ack_payload. rewrite lookup_app_r, length_be_bytes by (by rewrite length_be_bytes). cbn [Nat.sub lookup list_lookup].
  rewrite u32_be_app, u32_wrap_id by (unfold in_u32; lia). cbn [client_events]. unfold with_cli. by rewrite app_nil_r, Hd.
Qed.

Lemma client_next_report c now j r :
  Z.of_nat j + 2 < 2 ^ 32 → l_dropped_seq1 c = false → expected_report_seq (l_cli c) = Z.of_nat j + 1 →
  client_receive c now (report_frame j r) = client_report (with_cli c (set_expected (l_cli c) (Z.of_nat j + 2))) now r.
Proof.
  intros Hj Hd He. unfold client_receive. rewrite Hd. cbn [andb]. unfold client_on_datagram, report_frame. rewrite frame_decode_encode. cbn [h_mtype].
  rewrite (Z.eqb_refl REPORT). cbn match. cbn [h_seq]. rewrite u32_wrap_id by (unfold in_u32; lia). rewrite He, Z.eqb_refl.
  rewrite u32_wrap_id by (unfold in_u32; lia). cbn [client_events]. rewrite app_nil_r. replace (Z.of_nat j + 1 + 1) with (Z.of_nat j + 2) by lia.
  unfold with_cli. rewrite Hd. by destruct (client_report _ now r).
Qed.

Lemma cl_at_step j c now r :
  (j < orders)%nat → Z.of_nat orders + 1 < 2 ^ 32 → cl_at j c → demo_report j r →
  ∃ c', client_rx c (pair now <$> [ok_frame j; ok_frame j; report_frame j r]) = Some c' ∧ cl_at (S j) c'
    ∧ l_out_buf c' = l_out_buf c ∧ l_next c' = l_next c ∧ l_last_report_at c' = now.
Proof.
  intros Hj Ho [He Hp Ht Hr Hx Hd Hs Hl] Hrep. cbn [fmap list_fmap client_rx].
  rewrite client_ack by (done || lia). cbn [mbind option_bind]. rewrite client_ack by (done || lia). cbn [mbind option_bind].
  rewrite client_next_report by (done || lia). destruct (demo_report_fields j r ltac:(lia) Hrep) as (rt & rest & f & m & -> & Hsp & Hrt).
  cbn [client_report]. rewrite Hsp, Hrt. cbn [with_cli l_sent_ts l_rtts l_executed l_reports l_out_buf l_next l_dropped_seq1 l_cli].
  rewrite (Hs j) by lia. cbn [mbind option_bind]. eexists. split; [reflexivity|]. split; [|done].
  assert (orders - j = S (orders - S j))%nat as Hn by lia.
  split; cbn [l_cli l_reports l_executed l_dropped_seq1 l_sent_ts l_rtts set_expected acked expected_report_seq pending pending_ts]; try done.
  - lia.
  - by rewrite Hp, Hn, keyed_remove, keyed_absent.
  - by rewrite Ht, Hn, keyed_remove, keyed_absent.
  - lia.
  - rewrite half_succ. destruct (Nat.even j); cbn [negb]; lia.
  - intros i Hi. rewrite lookup_delete_ne; [apply Hs; lia|]. intros Heq%client_no_inj; lia.
  - rewrite length_app. cbn. lia.
Qed.

(** A run of orders, through the gateway and back. *)
Lemma demo_batch now n : ∀ j c g,
  (j + n <= orders)%nat → Z.of_nat orders + 1 < 2 ^ 32 → cl_at j c → gw_at j g →
  ∃ g' out c', gw_batch g (order_frame <$> seq j n) = Some (g', out) ∧ client_rx c (pair now <$> out) = Some c'
    ∧ gw_at (j + n) g' ∧ cl_at (j + n) c' ∧ l_out_buf c' = l_out_buf c ∧ l_next c' = l_next c
    ∧ ((0 < n)%nat → l_last_report_at c' = now).
Proof.
  induction n as [|n IH]; intros j c g Hj Ho Hc Hg.
  - exists g, [], c. rewrite Nat.add_0_r. split_and!; (done || lia).
  - destruct (gw_at_step j g ltac:(lia) Hg) as (g1 & r & Hg1 & Hr & Hgw1).
    destruct (cl_at_step j c now r ltac:(lia) Ho Hc Hr) as (c1 & Hc1 & Hcl1 & Hb1 & Hn1 & Hl1).
    destruct (IH (S j) c1 g1 ltac:(lia) Ho Hcl1 Hgw1) as (g2 & out & c2 & Hg2 & Hc2 & Hgw2 & Hcl2 & Hb2 & Hn2 & Hl2).
    exists g2, ([ok_frame j; ok_frame j; report_frame j r] ++ out), c2. cbn [seq fmap list_fmap gw_batch]. rewrite Hg1. cbn [mbind option_bind].
    fold (fmap (M:=list) order_frame). rewrite Hg2. cbn [mbind option_bind]. replace (j + S n)%nat with (S j + n)%nat by lia.
    split_and!; try done; [|congruence|congruence|].
    + rewrite fmap_app, client_rx_app, Hc1. cbn [mbind option_bind]. exact Hc2.
    + intros _. destruct n; [|apply Hl2; lia]. injection Hg2 as <- <-. injection Hc2 as <-. done.
Qed.

(** ** The buffer *)

Definition demo_frames : list (list Z) := send_hello 42 0 :: (order_frame <$> seq 0 orders).

Lemma keyed_snoc {V} (f : nat → V) n : keyed_from f 0 (S n) = keyed_from f 0 n ++ [(Z.of_nat n + 1, f n)].
Proof. unfold keyed_from. by rewrite seq_S, fmap_app. Qed.

Lemma fill_buffer_spec n : ∀ k cli ts,
  Z.of_nat (k + n) + 1 < 2 ^ 32 → next_order_seq cli = Z.of_nat k + 1 →
  pending cli = keyed_from client_payload 0 k → pending_ts cli = keyed_from clock 0 k →
  (∀ i, (i < k)%nat → ts !! client_no i = Some (clock i)) →
  ∃ cli' ts', fill_buffer (seq k n) clock cli ts = (cli', order_frame <$> seq k n, ts')
    ∧ expected_report_seq cli' = expected_report_seq cli
    ∧ pending cli' = keyed_from client_payload 0 (k + n) ∧ pending_ts cli' = keyed_from clock 0 (k + n)
    ∧ ∀ i, (i < k + n)%nat → ts' !! client_no i = Some (clock i).
Proof.
  induction n as [|n IH]; intros k cli ts Hk Hn Hp Ht Hts; cbn [seq fill_buffer].
  { exists cli, ts. rewrite Nat.add_0_r. done. }
  unfold send_order. rewrite Hn, Hp, Ht, !keyed_insert by lia. rewrite u32_wrap_id by (unfold in_u32; lia).
  edestruct (IH (S k)) as (cli' & ts' & Hf & He & H1 & H2 & H3); [lia| | | | |rewrite Hf; exists cli', ts'; rewrite Nat.add_succ_r; by split_and!].
  - cbn [next_order_seq]. lia.
  - cbn [pending]. by rewrite keyed_snoc.
  - cbn [pending_ts]. by rewrite keyed_snoc.
  - intros i Hi. destruct (decide (i = k)) as [->|Hne]; [by rewrite lookup_insert_eq|]. rewrite lookup_insert_ne; [apply Hts; lia|].
    intros Heq%client_no_inj; lia.
Qed.

Lemma client_start_at start :
  Z.of_nat orders + 1 < 2 ^ 32 → let c := client_start orders false clock start in
  cl_at 0 c ∧ l_out_buf c = demo_frames ∧ l_next c = 0%nat ∧ l_last_report_at c = start.
Proof.
  intros Ho. cbn zeta. unfold client_start.
  destruct (fill_buffer_spec orders 0 udp_client_new ∅) as (cli & ts & -> & He & Hp & Ht & Hts); [done|done|done|done|intros i Hi; lia|].
  cbn [Nat.add] in *. split_and!; [|done|done|done].
  split; cbn [l_cli l_reports l_executed l_dropped_seq1 l_sent_ts l_rtts]; try done; [by rewrite Nat.sub_0_r..|].
  intros i Hi. apply Hts. lia.
Qed.

Lemma window_frames j : take WINDOW (drop j (order_frame <$> seq 0 orders)) = order_frame <$> seq j (Nat.min WINDOW (orders - j)).
Proof. by rewrite <- fmap_drop, <- fmap_take, drop_seq, take_seq. Qed.

(** ** One turn *)

Lemma no_resend j c now :
  cl_at j c → (∀ i, (i < orders)%nat → now - clock i < secs 2) → retransmit_due (l_cli c) now (secs 2) = (l_cli c, []).
Proof.
  intros Hc Hnow. unfold retransmit_due. rewrite (ca_ts _ _ Hc).
  assert (filter (λ e : Z * Z, secs 2 <= 0 `max` (now - e.2)) (keyed_from clock j (orders - j)) = []) as ->; [|done].
  unfold keyed_from. assert (∀ i, i ∈ seq j (orders - j) → (i < orders)%nat) as Hin by (intros i Hi%elem_of_seq; lia). revert Hin.
  induction (seq j (orders - j)) as [|i l IH]; intros Hin; [done|]. rewrite fmap_cons, filter_cons_False; [apply IH; intros i' Hi'; apply Hin; by right|].
  cbn. specialize (Hnow i (Hin i ltac:(by left))). unfold secs in *. lia.
Qed.

(** The clock of every turn: no stall since the last report, nothing due for
    resending, not yet the end of the time. *)
Fixpoint prompt (last : Z) (ks : list clocks) : Prop :=
  match ks with [] => True | k :: ks => k_stall k - last <= millis 100 ∧ prompt (k_rx k) ks end.

Definition timely (t0 : Z) (k : clocks) : Prop :=
  k_test k - t0 <= secs 30 ∧ ∀ i, (i < orders)%nat → k_late k - clock i < secs 2.

(** What one turn of both programs does: [n] more orders. *)
Lemma demo_turn t0 c g k j n batch out g' c1 c2 :
  timely t0 k → client_send c (k_stall k) = (c1, batch) → gw_batch g batch = Some (g', out) →
  client_rx c1 (pair (k_rx k) <$> out) = Some c2 → cl_at (j + n) c2 →
  client_turn c (mkCTurn (k_stall k) (pair (k_rx k) <$> out) false (k_late k) (k_test k)) = Some (with_cli c2 (l_cli c2), batch, []).
Proof.
  intros [_ Hl] Hs Hg Hr Hc. unfold client_turn. cbn [c_stall c_rx c_failed c_late]. rewrite Hs, Hr. cbn [mbind option_bind].
  by rewrite (no_resend (j + n) c2 _ Hc Hl).
Qed.

Lemma with_cli_id c : with_cli c (l_cli c) = c.
Proof. by destruct c. Qed.

(** A window that goes on in the buffer at order [j]. *)
Lemma window_later c now j :
  l_out_buf c = demo_frames → l_next c = S j → now - l_last_report_at c <= millis 100 → 
  let n := Nat.min WINDOW (orders - j) in
  ∃ c', client_send c now = (c', order_frame <$> seq j n) ∧ l_out_buf c' = demo_frames ∧ l_next c' = S (j + n)
    ∧ ∀ i, cl_at i c → cl_at i c'.
Proof.
  intros Hb Hn Hl. cbn zeta. unfold client_send, client_window, client_stall. rewrite Hb, Hn.
  change (drop (S j) demo_frames) with (drop j (order_frame <$> seq 0 orders)).
  rewrite window_frames. cbn [l_reports l_last_report_at]. rewrite (proj2 (Z.ltb_ge (millis 100) _)) by done. rewrite andb_false_r, app_nil_r.
  eexists. split; [reflexivity|]. cbn [l_out_buf l_next]. rewrite length_fmap, length_seq. split_and!; [done|lia|].
  intros i []. by split.
Qed.

(** The run from [j] orders on: the turns of both loops, the client done, the
    server with all orders processed. *)
Definition completes (t0 : Z) c g (ks : list clocks) : Prop :=
  ∃ cts sts c' g' closing out, exchange (Z.of_nat orders) [] c g ks = Some (cts, sts)
    ∧ client_loop (Z.of_nat orders) t0 c cts = Some (CDone c') ∧ cl_at orders c'
    ∧ server_main orders g None sts = Some (Running g' closing, out) ∧ gw_at orders g'.

Lemma completes_now t0 c g ks : cl_at orders c → gw_at orders g → completes t0 c g ks.
Proof.
  intros Hc Hg. assert (exchange (Z.of_nat orders) [] c g ks = Some ([], [])) as He.
  { destruct ks; [done|]. cbn [exchange]. rewrite (ca_reports _ _ Hc). by rewrite (proj2 (Z.leb_le _ _)) by lia. }
  exists [], [], c, g, None, []. cbn [client_loop server_main]. rewrite (ca_reports _ _ Hc), (proj2 (Z.leb_le _ _)) by lia. done.
Qed.

(** A turn that takes the orders from [j] to [m] in front of the rest. *)
Lemma completes_turn t0 c g k ks j m batch out g2 c1 c2 :
  (j < orders)%nat → cl_at j c → timely t0 k → client_send c (k_stall k) = (c1, batch) → gw_batch g batch = Some (g2, out) →
  client_rx c1 (pair (k_rx k) <$> out) = Some c2 → cl_at m c2 → gw_at m g2 → (m <= orders)%nat →
  ((m < orders)%nat → completes t0 c2 g2 ks) → completes t0 c g (k :: ks).
Proof.
  intros Hj Hc Hk Hs Hg Hr Hcl Hgw Hm Hrest. pose proof (demo_turn t0 c g k m 0 batch out g2 c1 c2 Hk Hs Hg Hr) as Hturn.
  rewrite Nat.add_0_r, with_cli_id in Hturn. specialize (Hturn Hcl).
  assert (completes t0 c2 g2 ks) as Hc2.
  { destruct (decide (m = orders)) as [->|]; [by apply completes_now|apply Hrest; lia]. }
  destruct Hc2 as (cts & sts & c' & g' & closing & out' & He & Hcli & Hcl' & Hsv & Hgw'). unfold completes.
  assert (∃ closing', server_main orders g None (mkTurn (k_stall k) batch (k_rx k) :: sts) = Some (Running g' closing', out ++ out')) as [closing' Hsv'].
  { cbn [server_main open_at t_batch t_after]. rewrite Hg. cbn [mbind option_bind]. rewrite (ga_processed _ _ Hgw).
    destruct (Z.leb_spec (Z.of_nat orders) (Z.of_nat m)) as [Hle|Hgt].
    - assert (m = orders) as -> by lia. assert (sts = []) as ->.
      { destruct ks; cbn [exchange] in He; [by injection He|]. rewrite (ca_reports _ _ Hcl), (proj2 (Z.leb_le _ _)) in He by lia. by injection He. }
      injection Hsv as <- _ <-. cbn [server_main mbind option_bind]. by eexists.
    - rewrite andb_false_r. cbn [andb]. rewrite Hsv. cbn [mbind option_bind]. by eexists. }
  eexists (_ :: cts), (_ :: sts), c', g', closing', (out ++ out'). cbn [exchange]. rewrite (ca_reports _ _ Hc), (proj2 (Z.leb_gt _ _)) by lia.
  rewrite Hs. cbn [snd app]. rewrite Hg. cbn [mbind option_bind]. rewrite Hturn. cbn [mbind option_bind]. rewrite He. cbn [mbind option_bind].
  split; [reflexivity|]. cbn [client_loop]. rewrite (ca_reports _ _ Hc), (proj2 (Z.leb_gt _ _)) by lia. rewrite Hturn. cbn [mbind option_bind c_failed c_test].
  destruct Hk as [Hk _]. by rewrite (proj2 (Z.ltb_ge (secs 30) _)) by done.
Qed.

(** From a turn after the first. *)
Lemma demo_loop t0 ks : ∀ j c g,
  Z.of_nat orders + 1 < 2 ^ 32 → (j < orders)%nat → (orders - j <= WINDOW * length ks)%nat → cl_at j c → gw_at j g →
  l_out_buf c = demo_frames → l_next c = S j → prompt (l_last_report_at c) ks → Forall (timely t0) ks → completes t0 c g ks.
Proof.
  induction ks as [|k ks IH]; intros j c g Ho Hj Hlen Hc Hg Hb Hn Hp Ht; [cbn in Hlen; lia|].
  destruct Hp as [Hst Hp]. apply Forall_cons in Ht as [Hk Ht].
  destruct (window_later c (k_stall k) j Hb Hn Hst) as (c1 & Hs & Hb1 & Hn1 & Hc1). set (n := Nat.min WINDOW (orders - j)) in *.
  assert (0 < n ∧ j + n <= orders)%nat as [Hn0 Hjn] by (subst n; unfold WINDOW; lia).
  destruct (demo_batch (k_rx k) n j c1 g Hjn Ho (Hc1 _ Hc) Hg) as (g2 & out & c2 & Hg2 & Hr & Hgw & Hcl & Hb2 & Hn2 & Hl2).
  apply (completes_turn t0 c g k ks j (j + n) (order_frame <$> seq j n) out g2 c1 c2); try done. intros Hlt.
  apply (IH (j + n)%nat); try done; [|congruence|congruence|by rewrite Hl2].
  cbn [length] in Hlen. subst n. unfold WINDOW in *. lia.
Qed.

(** ** The first turn *)

Lemma gw_new_at : gw_at 0 (gateway_new orders).
Proof. split; try done. destruct (core_state_new demo_id (unit 2) (unit 6) (unit_pos _) (unit_pos _) SYMBOL 0) as (H1 & H2 & _). by split. Qed.

Lemma hello_at_gateway j g : gw_at j g → ∃ g', gw_on_datagram g (send_hello 42 0) = Some (g', [hello_ack (gw_srv g) 0]) ∧ gw_at j g'.
Proof. intros []. unfold gw_on_datagram. rewrite server_on_hello. cbn. eexists. split; [done|]. by split. Qed.

Lemma hello_at_client c now s : l_dropped_seq1 c = false → client_receive c now (hello_ack s 0) = Some c.
Proof.
  intros Hd. unfold client_receive. rewrite Hd. cbn [andb]. unfold client_on_datagram, hello_ack. rewrite frame_decode_encode. cbn [h_mtype].
  change (HELLO_ACK =? REPORT) with false. change (HELLO_ACK =? NAK_RESPONSE) with false. change (HELLO_ACK =? ORDER_ACK) with false.
  rewrite (Z.eqb_refl HELLO_ACK). cbn match. rewrite app_assoc, lookup_app_r, length_app, !length_be_bytes by (by rewrite length_app, !length_be_bytes).
  cbn [Nat.add Nat.sub]. change ([?f] ++ ?t) with (f :: t). cbn [lookup list_lookup client_events]. rewrite app_nil_r, <- Hd. by destruct c.
Qed.

Lemma demo_start t0 start ks :
  Z.of_nat orders + 1 < 2 ^ 32 → (orders < WINDOW * length ks)%nat →
  match ks with [] => True | k :: ks => prompt (k_rx k) ks end → Forall (timely t0) ks →
  completes t0 (client_start orders false clock start) (gateway_new orders) ks.
Proof.
  intros Ho Hlen Hp Ht. destruct (client_start_at start Ho) as (Hc & Hb & Hn & _). pose proof gw_new_at as Hg.
  set (c := client_start orders false clock start) in *. set (g := gateway_new orders) in *. clearbody c g.
  destruct (decide (orders = 0)%nat) as [H0|H0]; [apply completes_now; by rewrite H0|].
  destruct ks as [|k ks]; [cbn in Hlen; lia|]. apply Forall_cons in Ht as [Hk Ht]. set (n := Nat.min 127 orders).
  assert (0 < n ∧ 0 + n <= orders)%nat as [Hn0 Hjn] by (subst n; lia).
  assert (∃ c1, client_send c (k_stall k) = (c1, send_hello 42 0 :: (order_frame <$> seq 0 n)) ∧ l_out_buf c1 = demo_frames ∧ l_next c1 = S n
    ∧ cl_at 0 c1) as (c1 & Hs & Hb1 & Hn1 & Hc1).
  { unfold client_send, client_window, client_stall. rewrite Hb, Hn. change (drop 0 demo_frames) with demo_frames.
    change (take WINDOW demo_frames) with (send_hello 42 0 :: take 127 (order_frame <$> seq 0 orders)). rewrite <- fmap_take, take_seq.
    cbn [l_reports]. rewrite (ca_reports _ _ Hc). change (0 <? Z.of_nat 0) with false. cbn [andb]. rewrite app_nil_r. eexists. split; [reflexivity|].
    cbn [l_out_buf l_next length]. rewrite length_fmap, length_seq. split_and!; [done|lia|]. destruct Hc. by split. }
  destruct (hello_at_gateway 0 g Hg) as (g1 & Hg1 & Hgw1).
  destruct (demo_batch (k_rx k) n 0 c1 g1 Hjn Ho Hc1 Hgw1) as (g2 & out & c2 & Hg2 & Hr & Hgw & Hcl & Hb2 & Hn2 & Hl2).
  apply (completes_turn t0 c g k ks 0 n (send_hello 42 0 :: (order_frame <$> seq 0 n)) (hello_ack (gw_srv g) 0 :: out) g2 c1 c2); try done; [lia| | |].
  - cbn [gw_batch]. rewrite Hg1. cbn [mbind option_bind]. by rewrite Hg2.
  - rewrite fmap_cons. cbn [client_rx]. rewrite hello_at_client by apply (ca_drop _ _ Hc1). exact Hr.
  - intros Hlt. apply (demo_loop t0 ks n); try done; [|congruence|congruence|by rewrite Hl2].
    cbn [length] in Hlen. subst n. unfold WINDOW in *. lia.
Qed.
End Client.

(** ** The program *)

(** Clock readings under which nothing is late: the turns after the first begin
    within 100 ms of the last report, every order is younger than two seconds and
    the run younger than thirty. *)
Definition in_time (orders : nat) (clock : nat → Z) (t0 : Z) (ks : list clocks) : Prop :=
  match ks with [] => True | k :: ks => prompt (k_rx k) ks end ∧ Forall (timely orders clock t0) ks.

(** C28.  The gateway demonstration ends: for every number of orders below the
    32-bit sequence range, over a network that delivers each turn's datagrams and
    with clock readings in time, one turn per 128 frames is enough for the client
    loop to end with exactly one report per order, half of them executions, a
    round-trip sample for every order and nothing left to resend; the serving loop
    has then processed every order, with the same number of fills. *)
Theorem gateway_demo_completes orders clock t0 start ks :
  Z.of_nat orders + 1 < 2 ^ 32 → (orders < WINDOW * length ks)%nat → in_time orders clock t0 ks →
  ∃ cts sts c g closing out,
    exchange (Z.of_nat orders) [] (client_start orders false clock start) (gateway_new orders) ks = Some (cts, sts)
    ∧ client_main orders false clock t0 start cts = Some (CDone c)
    ∧ l_reports c = Z.of_nat orders ∧ l_executed c = Z.of_nat (orders / 2) ∧ length (l_rtts c) = orders ∧ pending (l_cli c) = []
    ∧ server_main orders (gateway_new orders) None sts = Some (Running g closing, out)
    ∧ gw_processed g = Z.of_nat orders ∧ gw_fills g = Z.of_nat (orders / 2).
Proof.
  intros Ho Hl [Hp Ht]. destruct (demo_start orders clock t0 start ks Ho Hl Hp Ht) as (cts & sts & c & g & closing & out & He & Hc & Hcl & Hs & Hg).
  exists cts, sts, c, g, closing, out. destruct Hcl, Hg. split_and!; try done. rewrite ca_pending0, Nat.sub_diag. done.
Qed.
End Demo.

Module Witness.
Import WholeDecimal.

(** Turns of 20 ms. *)
Definition at_turn (i : nat) : clocks :=
  let t := Z.of_nat i * millis 20 in mkClocks t (t + 10) (t + 20) (t + 30).

Lemma gateway_demo_completes_witness :
  ∃ cts sts c g closing out,
    exchange 200 [] (client_start 200 false (λ _, 0) 0) (gateway_new 200) (at_turn <$> seq 0 2) = Some (cts, sts)
    ∧ client_main 200 false (λ _, 0) 0 0 cts = Some (CDone c) ∧ l_reports c = 200 ∧ l_executed c = 100
    ∧ server_main 200 (gateway_new 200) None sts = Some (Running g closing, out) ∧ gw_fills g = 100.
Proof.
  destruct (gateway_demo_completes (PP := whole_parse) 200 (λ _, 0) 0 0 (at_turn <$> seq 0 2)) as (cts & sts & c & g & closing & out & H1 & H2 & H3 & H4 & _ & _ & H5 & _ & H6).
  - vm_compute. reflexivity.
  - unfold WINDOW. cbn. lia.
  - split; [split; [vm_compute; discriminate|exact I]|]. repeat constructor; try (intros i _); vm_compute; congruence.
  - exists cts, sts, c, g, closing, out. split; [exact H1|]. split; [exact H2|]. split; [exact H3|]. split; [exact H4|]. split; [exact H5|exact H6].
Defined.

(** The run that loses the first report. *)
Definition nak_run (orders turns : nat) : option client_end :=
  '(cts, _) ← exchange (Z.of_nat orders) [] (client_start orders true (λ _, 0) 0) (gateway_new orders) (at_turn <$> seq 0 turns);
  client_main orders true (λ _, 0) 0 0 cts.

(** Four orders: the request behind the second report brings back the first three,
    the request after the stall the last. *)
Example nak_test_recovers :
  match nak_run 4 8 with Some (CDone c) => (l_reports c, l_executed c) | _ => (0, 0) end = (4, 2).
Proof. vm_compute. reflexivity. Qed.

(** One order: its report is lost, no later report shows the gap, and a stall is only
    seen once a report has come; the run ends by its time limit. *)
Example nak_test_single_order :
  match nak_run 1 1600 with Some (CTimedOut c) => Some (l_reports c) | _ => None end = Some 0.
Proof. vm_compute. reflexivity. Qed.

(** One order in flight: hello, then the first order and its report. *)
Example ping_one_round :
  let srv := gw_srv (gateway_new 0) in
  match client_ping 1 [mkWait 0 [(5, hello_ack srv 0)] false; mkWait 10 [(30, ok_frame 0); (40, report_frame 0 (accepted_text (ping_no 0)))] false] with
  | Some (p, sent) => Some (p_rtts p, length sent)
  | None => None
  end = Some ([30], 2%nat).
Proof. vm_compute. reflexivity. Qed.

Example args_read :
  gateway_args ["500"; "--port"; "7000"; "--nak-test"]%string = mkArgs 500 7000 true false
  ∧ orders_gw (gateway_args ["--ping"]%string) = 0.
Proof. vm_compute. done. Qed.

End Witness.
