(* ===== verification/Telemetry.v ===== *)
(** * The counters of both processes

    Models [match-contract/src/telemetry.rs] and [match-spot/src/telemetry.rs]: the
    counters, their increments and the text of [/metrics]; and, from [inbound.rs],
    [symbol_worker.rs] and [outbound.rs] of both crates, which counter each step of
    the pipeline moves.  A counter is an [AtomicU64]; an increment is one atomic
    addition, so threads interleave increments.

    [Pipeline] is what a process with queues and workers promises about its
    counters; the two engines of [match-contract] and [match-spot] implement it. *)
From stdpp Require Import gmap strings.
From S2P Require Import Prelude Decimal Protocol CoreBook CoreMatch CoreEngine HpTypes HpIndex HpBook HpEngine HpScale Utf8 Gateway GatewayProps Adapter Contract Spot PlainDecimal.

#[local] Open Scope Z_scope.

(** ** Counters *)

Inductive metric := OrderEvents | InboundInvalid | Placed | Cancelled | Deals | SpanL2 | SpanL3 | SpanL1 | SpanSamples.

#[export] Instance metric_eq_dec : EqDecision metric.
Proof. solve_decision. Defined.

Definition Counters := metric → Z.

Definition counters_zero : Counters := λ _, 0.

(** [fetch_add(n)] on one counter. *)
Definition fetch_add (c : Counters) (m : metric) (n : Z) : Counters :=
  λ m', if decide (m' = m) then u64_wrap (c m + n) else c m'.

(** The increments the code makes. *)
Inductive inc := IncEvent | IncInvalid | IncPlaced | IncCancelled | IncFill | IncSpan (l2 l3 l1 : Z).

(** The atomic additions of one call, in order. *)
Definition additions (i : inc) : list (metric * Z) :=
  match i with
  | IncEvent => [(OrderEvents, 1)]
  | IncInvalid => [(InboundInvalid, 1)]
  | IncPlaced => [(Placed, 1)]
  | IncCancelled => [(Cancelled, 1)]
  | IncFill => [(Deals, 1)]
  | IncSpan l2 l3 l1 => [(SpanL2, l2); (SpanL3, l3); (SpanL1, l1); (SpanSamples, 1)]
  end.

Definition count_up (c : Counters) (adds : list (metric * Z)) : Counters :=
  foldl (λ c a, fetch_add c a.1 a.2) c adds.

(** What a list of additions adds to a counter. *)
Fixpoint amount (m : metric) (adds : list (metric * Z)) : Z :=
  match adds with [] => 0 | (k, n) :: adds => (if decide (k = m) then n else 0) + amount m adds end.

Lemma amount_app m l1 l2 : amount m (l1 ++ l2) = amount m l1 + amount m l2.
Proof. induction l1 as [|[k n] l1 IH]; [done|]. cbn [app amount]. lia. Qed.

Lemma amount_perm m l1 l2 : l1 ≡ₚ l2 → amount m l1 = amount m l2.
Proof. induction 1 as [|[] ? ? _ IH|[] []|]; cbn [amount]; lia. Qed.

Lemma count_up_amount adds : ∀ c m, in_u64 (c m) → count_up c adds m = u64_wrap (c m + amount m adds).
Proof.
  induction adds as [|[k n] adds IH]; intros c m Hc; cbn.
  - rewrite Z.add_0_r. by rewrite u64_wrap_id.
  - rewrite IH.
    + unfold fetch_add. cbn. destruct (decide (m = k)) as [->|Hne]; [|rewrite (decide_False (P := k = m)) by done; f_equal; lia].
      rewrite (decide_True (P := k = k)) by done. unfold u64_wrap. rewrite Zplus_mod_idemp_l. f_equal. lia.
    + unfold fetch_add. cbn. destruct (decide (m = k)); [apply u64_wrap_range|done].
Qed.

(** ** What the pipeline counts *)

(** [match-core] events, in [Outbound::handle_events] and [send_one_event]. *)
Definition event_inc (ev : MatchEvent) : inc :=
  match ev with CoreMatch.Fill _ _ _ _ _ _ _ _ _ _ _ => IncFill | CoreMatch.Revoke _ _ _ _ => IncCancelled end.

(** [match-core-hp] events, in [Outbound::handle_hp_events]. *)
Definition hp_event_inc (ev : HpEvent) : inc :=
  match ev with
  | HpTypes.Fill _ _ _ _ _ _ _ _ => IncFill
  | HpTypes.Revoke _ _ _ => IncCancelled
  | HpTypes.Rest _ _ _ _ _ => IncPlaced
  end.

Section Pipelines.
Context `{BD : BigDecimal}.

(** [InboundRouter::handle_mq_order] of [match-contract]. *)
Definition contract_inbound_incs (r : Contract.InboundRouter) (m : MqOrder) : list inc :=
  if negb (check_mq_order m) then [IncInvalid]
  else match type_convert m with
       | None => [IncInvalid]
       | Some o =>
           if should_dedupe (start_queue r) o then []
           else match (Contract.enqueue r o).2 with inr _ => [IncPlaced] | inl _ => [] end
       end.

(** [InboundRouter::handle_mq_order] of [match-spot]. *)
Definition spot_inbound_incs (r : Spot.InboundRouter) (m : MqOrder) : list inc :=
  if negb (check_mq_order_spot m) then [IncInvalid]
  else match type_convert_spot m with
       | None => [IncInvalid]
       | Some o => match (Spot.enqueue r o).2 with inr _ => [IncPlaced] | inl _ => [] end
       end.

(** One order at a worker over [match-core]; a panic of the engine is caught. *)
Definition core_work (e : Engine) (o : BbOrder) : Engine * list inc :=
  match on_order e o with
  | Some (evs, e) => (e, IncEvent :: (event_inc <$> evs))
  | None => (e, [IncEvent])
  end.

(** The clock readings of a round over [match-core-hp]: when the order is received,
    around the conversion and around the engine. *)
Record span_clock := mkSpan { sp_recv : Z; sp_adapt0 : Z; sp_adapt1 : Z; sp_queue : Z; sp_l1a : Z; sp_l1b : Z }.

Definition elapsed (from to : Z) : Z := u64_wrap (Z.max 0 (to - from)).

(** [record_span_ns]: the queue time is read behind the conversion. *)
Definition span_inc (t : span_clock) : inc :=
  IncSpan (elapsed (sp_recv t) (sp_queue t)) (elapsed (sp_adapt0 t) (sp_adapt1 t)) (elapsed (sp_l1a t) (sp_l1b t)).

(** One order at a worker over [match-core-hp]; [None] is a panic, which ends it. *)
Definition hp_work {BI AI : Type} `{LB : LevelIndex BI} `{LA : LevelIndex AI} (sc : SymbolScale) (t : span_clock)
    (e : HpEngine BI AI) (o : BbOrder) : option (HpEngine BI AI * list inc) :=
  match from_bb_order o sc with
  | inl _ => Some (e, [IncEvent; IncInvalid])
  | inr cmd => '(evs, e) ← hp_on_order e cmd; Some (e, IncEvent :: span_inc t :: (hp_event_inc <$> evs))
  end.

End Pipelines.

(** ** What a router and a worker promise *)

(** The increments of a step, as additions. *)
Definition adds_of (l : list inc) : list (metric * Z) := l ≫= additions.

Section Processes.
Context `{BD : BigDecimal}.

(** [rt_restore] also says how many orders entered a queue without being counted. *)
Class Router (R : Type) := {
  rt_message : R → MqOrder → R * list inc;
  rt_restore : R → MqOrder → R * list inc * Z;
  rt_recv : R → string → option (BbOrder * R);
  rt_queued : R → Z }.

Class RouterSpec (R : Type) `{Router R} : Prop := {
  message_queued r m : let '(r', incs) := rt_message r m in
    rt_queued r' = rt_queued r + amount Placed (adds_of incs) ∧ amount OrderEvents (adds_of incs) = 0;
  restore_queued r m : let '(r', incs, silent) := rt_restore r m in
    rt_queued r' = rt_queued r + amount Placed (adds_of incs) + silent ∧ amount OrderEvents (adds_of incs) = 0;
  recv_queued r s o r' : rt_recv r s = Some (o, r') → rt_queued r = rt_queued r' + 1 }.

(** A worker's round; [V] is what it reads from its surroundings. *)
Class Worker (V W : Type) := wk_work : V → W → BbOrder → option (W * list inc).

Class WorkerSpec (V W : Type) `{Worker V W} : Prop :=
  work_counts_event v w o w' incs : wk_work v w o = Some (w', incs) → amount OrderEvents (adds_of incs) = 1.

Section System.
Context {R V W : Type} `{RS : RouterSpec R} `{WS : WorkerSpec V W}.

(** The process: router, workers by symbol, and for the record the increments of
    the inbound side and of the workers and the orders restored uncounted. *)
Record process := mkProcess { pr_router : R; pr_workers : gmap string W; pr_in : list inc; pr_work : list inc; pr_silent : Z }.

(** A message, a restored order, a round of a symbol's worker; a worker that
    panicked is gone. *)
Inductive pr_action := PMessage (m : MqOrder) | PRestore (m : MqOrder) | PWork (symbol : string) (v : V).

Definition pr_step (p : process) (a : pr_action) : process :=
  match a with
  | PMessage m => let '(r, incs) := rt_message (pr_router p) m in
      mkProcess r (pr_workers p) (pr_in p ++ incs) (pr_work p) (pr_silent p)
  | PRestore m => let '(r, incs, silent) := rt_restore (pr_router p) m in
      mkProcess r (pr_workers p) (pr_in p ++ incs) (pr_work p) (pr_silent p + silent)
  | PWork s v =>
      match pr_workers p !! s with
      | None => p
      | Some w =>
          match rt_recv (pr_router p) s with
          | None => p
          | Some (o, r) =>
              match wk_work v w o with
              | Some (w, incs) => mkProcess r (<[s := w]> (pr_workers p)) (pr_in p) (pr_work p ++ incs) (pr_silent p)
              | None => mkProcess r (delete s (pr_workers p)) (pr_in p) (pr_work p ++ [IncEvent]) (pr_silent p)
              end
          end
      end
  end.

Definition pr_run (p : process) (acts : list pr_action) : process := foldl pr_step p acts.

Lemma adds_app l1 l2 : adds_of (l1 ++ l2) = adds_of l1 ++ adds_of l2.
Proof. apply bind_app. Qed.

Definition balanced (queued0 : Z) (p : process) : Prop :=
  amount OrderEvents (adds_of (pr_in p)) = 0
  ∧ amount OrderEvents (adds_of (pr_work p)) + rt_queued (pr_router p) = queued0 + amount Placed (adds_of (pr_in p)) + pr_silent p.

Lemma balanced_step q p a : balanced q p → balanced q (pr_step p a).
Proof.
  intros [H1 H2]. destruct a as [m|m|s v]; cbn [pr_step].
  - pose proof (message_queued (pr_router p) m) as Hm. destruct (rt_message _ m) as [r incs]. destruct Hm as [Hq He].
    split; cbn [pr_router pr_in pr_work pr_silent]; rewrite adds_app, !amount_app; lia.
  - pose proof (restore_queued (pr_router p) m) as Hm. destruct (rt_restore _ m) as [[r incs] silent]. destruct Hm as [Hq He].
    split; cbn [pr_router pr_in pr_work pr_silent]; rewrite adds_app, !amount_app; lia.
  - destruct (pr_workers p !! s) as [w|]; [|done]. destruct (rt_recv _ s) as [[o r]|] eqn:Er; [|done]. apply recv_queued in Er.
    destruct (wk_work v w o) as [[w' incs]|] eqn:Ew; (split; [done|]); cbn [pr_router pr_in pr_work pr_silent]; rewrite adds_app, amount_app.
    + rewrite (work_counts_event _ _ _ _ _ Ew). lia.
    + change (amount OrderEvents (adds_of [IncEvent])) with 1. lia.
Qed.

Lemma balanced_run q p acts : balanced q p → balanced q (pr_run p acts).
Proof. unfold pr_run. revert p; induction acts as [|a acts IH]; intros p Hp; [done|]. apply IH. by apply balanced_step. Qed.

End System.
End Processes.

(** ** The processes *)

Section Sum.
Context {C : Type} (len : C → nat).

(** The orders waiting in all queues. *)
Definition waiting (q : gmap string C) : Z := map_fold (λ _ ch s, Z.of_nat (len ch) + s) 0 q.

Lemma waiting_insert q k ch ch' : q !! k = Some ch → waiting (<[k := ch']> q) = waiting q - Z.of_nat (len ch) + Z.of_nat (len ch').
Proof.
  intros Hk. unfold waiting. rewrite <- insert_delete_eq. rewrite map_fold_insert_L; [|intros; lia|apply lookup_delete_eq].
  rewrite (map_fold_delete_L _ _ k ch q); [lia|intros; lia|done].
Qed.
End Sum.

(** The increments of one message, counted. *)
Ltac count_incs :=
  cbn [fst snd];
  repeat match goal with
  | |- context [amount ?m (adds_of ?l)] => let v := eval vm_compute in (amount m (adds_of l)) in change (amount m (adds_of l)) with v
  end; lia.

Section Instances.
Context `{BD : BigDecimal}.

Definition contract_items (ch : Contract.Chan) : nat := length (Contract.ch_items ch).
Definition spot_items (ch : Spot.Chan) : nat := length (Spot.ch_items ch).

(** An order restored at the start enters its queue uncounted. *)
Definition contract_silent (r : Contract.InboundRouter) (m : MqOrder) : Z :=
  if negb (check_mq_order m) then 0
  else match type_convert m with
       | None => 0
       | Some o => match (Contract.enqueue r o).2 with inr _ => 1 | inl _ => 0 end
       end.

#[export] Instance contract_router : Router Contract.InboundRouter := {|
  rt_message r m := ((Contract.handle_mq_order r m).1, contract_inbound_incs r m);
  rt_restore r m := ((Contract.handle_restore_order r m).1, [], contract_silent r m);
  rt_recv := recv_order;
  rt_queued r := waiting contract_items (Contract.queues r) |}.

(** [rx.recv()] of a symbol's worker. *)
Definition spot_recv (r : Spot.InboundRouter) (symbol : string) : option (BbOrder * Spot.InboundRouter) :=
  ch ← Spot.queues r !! symbol;
  match Spot.ch_items ch with
  | [] => None
  | o :: rest => Some (o, Spot.register_queue r symbol (Spot.mkChan (Spot.ch_cap ch) rest (Spot.ch_open ch)))
  end.

(** The spot process restores through the same entrance. *)
#[export] Instance spot_router : Router Spot.InboundRouter := {|
  rt_message r m := ((Spot.handle_mq_order r m).1, spot_inbound_incs r m);
  rt_restore r m := ((Spot.handle_mq_order r m).1, spot_inbound_incs r m, 0);
  rt_recv := spot_recv;
  rt_queued r := waiting spot_items (Spot.queues r) |}.

Lemma contract_enqueue_waiting r o :
  waiting contract_items (Contract.queues (Contract.enqueue r o).1)
  = waiting contract_items (Contract.queues r) + match (Contract.enqueue r o).2 with inr _ => 1 | inl _ => 0 end.
Proof.
  unfold Contract.enqueue. destruct (Contract.queues r !! symbol_key o) as [ch|] eqn:E; [|cbn; lia].
  destruct (negb _); [cbn; lia|]. destruct (_ <=? _)%nat; [cbn; lia|]. cbn.
  rewrite (waiting_insert _ _ _ _ _ E). unfold contract_items. cbn. rewrite length_app. cbn. lia.
Qed.

Lemma spot_enqueue_waiting r o :
  waiting spot_items (Spot.queues (Spot.enqueue r o).1)
  = waiting spot_items (Spot.queues r) + match (Spot.enqueue r o).2 with inr _ => 1 | inl _ => 0 end.
Proof.
  unfold Spot.enqueue. destruct (Spot.queues r !! symbol_key o) as [ch|] eqn:E; [|cbn; lia].
  destruct (negb _); [cbn; lia|]. destruct (_ <=? _)%nat; [cbn; lia|]. cbn.
  rewrite (waiting_insert _ _ _ _ _ E). unfold spot_items. cbn. rewrite length_app. cbn. lia.
Qed.

#[export] Instance contract_router_spec : RouterSpec Contract.InboundRouter.
Proof.
  split.
  - intros r m. cbn [rt_message rt_restore rt_queued contract_router]. unfold contract_inbound_incs, Contract.handle_mq_order.
    destruct (negb _); [count_incs|]. destruct (type_convert m) as [o|]; [|count_incs]. destruct (should_dedupe _ o); [count_incs|].
    pose proof (contract_enqueue_waiting r o) as He. destruct (Contract.enqueue r o) as [r' [e|u]]; cbn [fst snd Contract.queues] in He |- *; count_incs.
  - intros r m. cbn [rt_message rt_restore rt_queued contract_router]. unfold contract_silent, Contract.handle_restore_order.
    destruct (negb _); [count_incs|]. destruct (type_convert m) as [o|]; [|count_incs].
    pose proof (contract_enqueue_waiting r o) as He. destruct (Contract.enqueue r o) as [r' [e|u]]; cbn [fst snd Contract.queues] in He |- *; count_incs.
  - intros r s o r'. cbn. unfold recv_order. destruct (Contract.queues r !! s) as [ch|] eqn:E; [|done]. cbn.
    destruct (Contract.ch_items ch) as [|o' rest] eqn:Ei; [done|]. intros [= -> <-]. cbn. rewrite (waiting_insert _ _ _ _ _ E).
    unfold contract_items. rewrite Ei. cbn. lia.
Qed.

#[export] Instance spot_router_spec : RouterSpec Spot.InboundRouter.
Proof.
  assert (∀ r m, waiting spot_items (Spot.queues (Spot.handle_mq_order r m).1)
    = waiting spot_items (Spot.queues r) + amount Placed (adds_of (spot_inbound_incs r m))
    ∧ amount OrderEvents (adds_of (spot_inbound_incs r m)) = 0) as Hm.
  { intros r m. unfold spot_inbound_incs, Spot.handle_mq_order.
    destruct (negb _); [count_incs|]. destruct (type_convert_spot m) as [o|]; [|count_incs].
    pose proof (spot_enqueue_waiting r o) as He. destruct (Spot.enqueue r o) as [r' [e|u]]; cbn [fst snd Contract.queues] in He |- *; count_incs. }
  split.
  - exact Hm.
  - intros r m. cbn [rt_restore rt_queued spot_router]. destruct (Hm r m). lia.
  - intros r s o r'. cbn. unfold spot_recv. destruct (Spot.queues r !! s) as [ch|] eqn:E; [|done]. cbn.
    destruct (Spot.ch_items ch) as [|o' rest] eqn:Ei; [done|]. intros [= -> <-]. cbn. rewrite (waiting_insert _ _ _ _ _ E).
    unfold spot_items. rewrite Ei. cbn. lia.
Qed.

(** Workers. *)
#[export] Instance core_worker : Worker Datatypes.unit Engine := λ _ e o, Some (core_work e o).

Lemma events_count_nothing m evs : m = OrderEvents ∨ m = Placed → amount m (adds_of (event_inc <$> evs)) = 0.
Proof. intros Hm. unfold adds_of. induction evs as [|[] evs IH]; [done|..]; destruct Hm as [->| ->]; cbn in *; exact IH. Qed.

#[export] Instance core_worker_spec : WorkerSpec Datatypes.unit Engine.
Proof.
  intros v e o e' incs. unfold wk_work, core_worker, core_work. destruct (on_order e o) as [[evs e1]|]; intros [= <- <-]; [|done].
  change (adds_of (IncEvent :: ?l)) with ((OrderEvents, 1) :: adds_of l). cbn [amount]. rewrite events_count_nothing by (by left). done.
Qed.

Context {BI AI : Type} `{LB : LevelIndex BI} `{LA : LevelIndex AI}.

#[export] Instance hp_worker : Worker (SymbolScale * span_clock) (HpEngine BI AI) := λ v e o, hp_work v.1 v.2 e o.

Lemma hp_events_count_nothing evs : amount OrderEvents (adds_of (hp_event_inc <$> evs)) = 0.
Proof. unfold adds_of. induction evs as [|[] evs IH]; [done|..]; cbn in *; exact IH. Qed.

#[export] Instance hp_worker_spec : WorkerSpec (SymbolScale * span_clock) (HpEngine BI AI).
Proof.
  intros v e o e' incs. unfold wk_work, hp_worker, hp_work. destruct (from_bb_order o _) as [err|cmd]; [by intros [= <- <-]|].
  destruct (hp_on_order e cmd) as [[evs e1]|]; [|done]. intros [= <- <-].
  change (adds_of (IncEvent :: ?i :: ?l)) with (((OrderEvents, 1) :: additions i) ++ adds_of l). rewrite amount_app, hp_events_count_nothing. done.
Qed.

End Instances.

(** ** The text of [/metrics] *)

Definition NL : ascii := ascii_of_N 10.

Definition metric_name (m : metric) : string :=
  match m with
  | OrderEvents => "match.order.events.total" | InboundInvalid => "match.orders.inbound.invalid.total"
  | Placed => "match.orders.placed.total" | Cancelled => "match.orders.cancelled.total"
  | Deals => "match.trades.deals.total" | SpanL2 => "match.span.l2_queue_ns_total"
  | SpanL3 => "match.span.l3_adapt_ns_total" | SpanL1 => "match.span.l1_on_order_ns_total"
  | SpanSamples => "match.span.samples_total"
  end.

Definition contract_help (m : metric) : string :=
  match m with
  | OrderEvents => "Contract match order events processed" | InboundInvalid => "Contract inbound orders rejected before queue"
  | Placed => "Contract orders accepted into match queue" | Cancelled => "Contract orders revoked from book successfully"
  | Deals => "Contract filled deal messages emitted to downstream" | SpanL2 => "Cumulative ns attributed to L2 queue (hp-engine)"
  | SpanL3 => "Cumulative ns for L3 BbOrder→HpCommand adapt" | SpanL1 => "Cumulative ns for L1 HpEngine::on_order"
  | SpanSamples => "Span sample count"
  end.

Definition spot_help (m : metric) : string :=
  match m with
  | OrderEvents => "Spot match order events processed" | InboundInvalid => "Spot inbound orders rejected"
  | Placed => "Spot orders accepted into match queue" | Cancelled => "Spot orders revoked" | Deals => "Spot fill events emitted"
  | _ => ""
  end.

Definition contract_metrics : list metric := [OrderEvents; InboundInvalid; Placed; Cancelled; Deals; SpanL2; SpanL3; SpanL1; SpanSamples].
Definition spot_metrics : list metric := [OrderEvents; InboundInvalid; Placed; Cancelled; Deals].

Definition u64_display (n : Z) : string := String.string_of_list_ascii (u64_to_string n).

(** The three lines of a counter. *)
Definition metric_lines (help : metric → string) (c : Counters) (m : metric) : list string :=
  [("# HELP " +:+ metric_name m +:+ " " +:+ help m)%string; ("# TYPE " +:+ metric_name m +:+ " counter")%string;
   (metric_name m +:+ " " +:+ u64_display (c m))%string].

(** Every line ends with a line feed. *)
Definition text_of_lines (l : list string) : string := foldr (λ s rest, (s +:+ String NL rest)%string) EmptyString l.

Definition contract_render_prometheus (c : Counters) : string := text_of_lines (contract_metrics ≫= metric_lines contract_help c).
Definition spot_render_prometheus (c : Counters) : string := text_of_lines (spot_metrics ≫= metric_lines spot_help c).

(** A reader of the text: the first line that starts with the name and a space. *)
Fixpoint scrape_lines (name : string) (lines : list string) : option Z :=
  match lines with
  | [] => None
  | line :: lines =>
      match strip_prefix (name +:+ " ") line with Some v => parse_u64 (bytes_of v) | None => scrape_lines name lines end
  end.

Definition scrape (name text : string) : option Z := scrape_lines name (split_on NL text).

Definition one_line (s : string) : Prop := Forall (λ a, a ≠ NL) (String.list_ascii_of_string s).

Lemma split_lines l : Forall one_line l → split_on NL (text_of_lines l) = l ++ [EmptyString].
Proof. induction 1 as [|s l Hs _ IH]; [done|]. cbn [text_of_lines foldr app]. rewrite split_on_app by done. by rewrite <- IH. Qed.

Definition one_line_b (s : string) : bool := forallb (λ a, negb (Ascii.eqb a NL)) (String.list_ascii_of_string s).

Lemma one_line_b_true s : one_line_b s = true → one_line s.
Proof.
  unfold one_line_b, one_line. rewrite forallb_forall, Forall_forall. intros H a Ha Heq. subst a.
  apply list_elem_of_In, H in Ha. by rewrite Ascii.eqb_refl in Ha.
Qed.

Lemma metric_lines_plain help c m :
  in_u64 (c m) → one_line_b (help m) = true → Forall one_line (metric_lines help c m).
Proof.
  intros Hc Hh%one_line_b_true. assert (one_line (metric_name m)) as Hn by (apply one_line_b_true; by destruct m).
  assert (∀ a b, one_line a → one_line b → one_line (a +:+ b)) as Happ.
  { unfold one_line. intros a b Ha Hb. rewrite list_ascii_app. by apply Forall_app. }
  assert (one_line (u64_display (c m))) as Hv.
  { destruct (u64_to_string_spec (c m) Hc) as (Hd & _). unfold one_line, u64_display. rewrite String.list_ascii_of_string_of_list_ascii.
    eapply Forall_impl; [exact Hd|]. cbn. intros a Ha ->. by vm_compute in Ha. }
  unfold metric_lines. repeat constructor; repeat apply Happ; done || by apply one_line_b_true.
Qed.

Lemma parse_display n : in_u64 n → parse_u64 (bytes_of (u64_display n)) = Some n.
Proof. intros Hn. unfold bytes_of, u64_display. rewrite String.list_ascii_of_string_of_list_ascii. by apply parse_u64_text. Qed.

Lemma strip_other m k v : m ≠ k → strip_prefix (metric_name m +:+ " ") (metric_name k +:+ " " +:+ v) = None.
Proof. intros Hne. destruct m, k; try done. Qed.

Lemma strip_comment m s : strip_prefix (metric_name m +:+ " ") ("# " +:+ s) = None.
Proof. by destruct m. Qed.

Lemma scrape_metric_lines help c m ms rest :
  in_u64 (c m) → m ∈ ms → scrape_lines (metric_name m) ((ms ≫= metric_lines help c) ++ rest) = Some (c m).
Proof.
  intros Hc. induction ms as [|k ms IH]; intros Hm; [by apply elem_of_nil in Hm|].
  cbn [mbind list_bind app]. unfold metric_lines at 1. cbn [app scrape_lines].
  change ("# HELP " +:+ ?t) with ("# " +:+ ("HELP " +:+ t)). change ("# TYPE " +:+ ?t) with ("# " +:+ ("TYPE " +:+ t)). rewrite !strip_comment.
  destruct (decide (m = k)) as [<-|Hne].
  - assert ((metric_name m +:+ " " +:+ u64_display (c m))%string = ((metric_name m +:+ " ") +:+ u64_display (c m))%string) as -> by (by destruct m).
    by rewrite strip_prefix_app, parse_display.
  - rewrite strip_other by done. apply IH. apply elem_of_cons in Hm as [?|?]; [by subst|done].
Qed.

(** The text of [/metrics] gives every counter back. *)
Lemma metrics_scraped c :
  (∀ m, in_u64 (c m)) →
  (∀ m, scrape (metric_name m) (contract_render_prometheus c) = Some (c m))
  ∧ ∀ m, m ∈ spot_metrics → scrape (metric_name m) (spot_render_prometheus c) = Some (c m).
Proof.
  intros Hc. unfold scrape, contract_render_prometheus, spot_render_prometheus.
  assert (∀ help ms, forallb (λ m, one_line_b (help m)) ms = true → Forall one_line (ms ≫= metric_lines help c)) as Hl.
  { intros help ms. induction ms as [|m ms IH]; [done|]. cbn [forallb]. intros [H1 H2]%andb_prop. cbn [mbind list_bind]. apply Forall_app.
    split; [by apply metric_lines_plain|by apply IH]. }
  split; intros m; [intros|intros Hm]; rewrite split_lines by (by apply Hl); apply scrape_metric_lines; try done.
  apply list_elem_of_In. destruct m; cbn; tauto.
Qed.

(** ** Counters and orders balance *)

Section Balance.
Context `{BD : BigDecimal}.

Definition fresh_process {R W : Type} (r : R) (workers : gmap string W) : process (R := R) (W := W) := mkProcess r workers [] [] 0.

(** What the counters show after the additions in any order. *)
Lemma counted {R V W : Type} {RO : Router R} {RS : RouterSpec R} {WO : Worker V W} {WS : WorkerSpec V W} (r : R) (workers : gmap string W) acts l :
  let p := pr_run (V := V) (fresh_process r workers) acts in
  l ≡ₚ adds_of (pr_in p ++ pr_work p) → let c := count_up counters_zero l in
  u64_wrap (c OrderEvents + rt_queued (pr_router p) + amount Placed (adds_of (pr_work p)))
  = u64_wrap (rt_queued r + c Placed + pr_silent p).
Proof.
  intros p Hl c. assert (balanced (rt_queued r) p) as [H1 H2]. { apply balanced_run. split; cbn; lia. }
  assert (∀ m, c m = u64_wrap (amount m (adds_of (pr_in p)) + amount m (adds_of (pr_work p)))) as Hc.
  { intros m. subst c. rewrite count_up_amount by done. rewrite (amount_perm m _ _ Hl), adds_app, amount_app. done. }
  rewrite !Hc. unfold u64_wrap. rewrite <- Z.add_assoc, Zplus_mod_idemp_l.
  rewrite (Z.add_comm (rt_queued r)), <- (Z.add_assoc (_ mod _)), Zplus_mod_idemp_l. f_equal. lia.
Qed.

(** The rest events among increments of workers over [match-core-hp]. *)
Definition rests (l : list inc) : Z := amount Placed (adds_of l).

Lemma core_never_rests {R : Type} {RO : Router R} (r : R) workers acts :
  rests (pr_work (pr_run (V := Datatypes.unit) (W := Engine) (fresh_process r workers) acts)) = 0.
Proof.
  unfold rests, pr_run. assert (amount Placed (adds_of (pr_work (fresh_process r workers))) = 0) as H0 by done. revert H0.
  generalize (fresh_process r workers). induction acts as [|a acts IH]; intros p Hp; [done|]. cbn [foldl]. apply IH.
  destruct a as [m|m|s v]; cbn [pr_step].
  - by destruct (rt_message _ m).
  - by destruct (rt_restore _ m) as [[? ?] ?].
  - destruct (pr_workers p !! s) as [e|]; [|done]. destruct (rt_recv _ s) as [[o r']|]; [|done].
    unfold wk_work, core_worker, core_work. destruct (on_order e o) as [[evs e']|]; cbn [pr_work]; rewrite adds_app, amount_app, Hp; [|done].
    change (adds_of (IncEvent :: ?l)) with ((OrderEvents, 1) :: adds_of l). cbn [amount]. by rewrite events_count_nothing by (by right).
Qed.

(** The counters balance with the orders: whatever messages come, whatever is
    restored, however the workers of the symbols take turns and in whatever order the
    atomic additions of all threads happen, the orders taken by workers plus those
    still queued are, modulo the width of the counters, those queued at first plus
    those counted as placed, plus in the contract process those restored, which it
    does not count.  With the performance engine an order that comes to rest is
    counted as placed once more.  The metrics text of both processes gives every
    counter back. *)
Theorem telemetry_balance {BI AI : Type} `{LB : LevelIndex BI} `{LA : LevelIndex AI} :
  (∀ (r : Contract.InboundRouter) (workers : gmap string Engine) acts l,
     let p := pr_run (V := Datatypes.unit) (fresh_process r workers) acts in
     l ≡ₚ adds_of (pr_in p ++ pr_work p) → let c := count_up counters_zero l in
     u64_wrap (c OrderEvents + rt_queued (pr_router p)) = u64_wrap (rt_queued r + c Placed + pr_silent p))
  ∧ (∀ (r : Spot.InboundRouter) (workers : gmap string Engine) acts l,
     let p := pr_run (V := Datatypes.unit) (fresh_process r workers) acts in
     l ≡ₚ adds_of (pr_in p ++ pr_work p) → let c := count_up counters_zero l in
     u64_wrap (c OrderEvents + rt_queued (pr_router p)) = u64_wrap (rt_queued r + c Placed))
  ∧ (∀ (r : Contract.InboundRouter) (workers : gmap string (HpEngine BI AI)) acts l,
     let p := pr_run (V := SymbolScale * span_clock) (fresh_process r workers) acts in
     l ≡ₚ adds_of (pr_in p ++ pr_work p) → let c := count_up counters_zero l in
     u64_wrap (c OrderEvents + rt_queued (pr_router p) + rests (pr_work p)) = u64_wrap (rt_queued r + c Placed + pr_silent p))
  ∧ (∀ adds, let c := count_up counters_zero adds in
     (∀ m, scrape (metric_name m) (contract_render_prometheus c) = Some (c m))
     ∧ ∀ m, m ∈ spot_metrics → scrape (metric_name m) (spot_render_prometheus c) = Some (c m)).
Proof.
  split_and!.
  - intros r workers acts l p Hl c. pose proof (counted r workers acts l Hl) as H. cbn zeta in H.
    fold (rests (pr_work (pr_run (V := Datatypes.unit) (fresh_process r workers) acts))) in H. rewrite core_never_rests, Z.add_0_r in H. exact H.
  - intros r workers acts l p Hl c. pose proof (counted r workers acts l Hl) as H. cbn zeta in H.
    fold (rests (pr_work (pr_run (V := Datatypes.unit) (fresh_process r workers) acts))) in H. rewrite core_never_rests, Z.add_0_r in H.
    assert (pr_silent p = 0) as Hs; [|fold p in H; by rewrite Hs, Z.add_0_r in H].
    subst p. unfold pr_run. assert (pr_silent (fresh_process r workers) = 0) as H0 by done. revert H0. clear.
    generalize (fresh_process r workers). induction acts as [|a acts IH]; intros p Hp; [done|]. cbn [foldl]. apply IH.
    destruct a as [m|m|s v]; cbn [pr_step rt_message rt_restore spot_router pr_silent]; [done|lia|].
    destruct (pr_workers p !! s) as [e|]; [|done]. destruct (rt_recv _ s) as [[o r']|]; [|done]. by destruct (wk_work v e o) as [[? ?]|].
  - intros r workers acts l p Hl c. exact (counted r workers acts l Hl).
  - intros adds c. apply metrics_scraped. intros m. subst c. rewrite count_up_amount by done. apply u64_wrap_range.
Qed.

(** The queue span covers the conversion: it is read behind it. *)
Lemma queue_span_covers_adapt t :
  0 <= sp_recv t <= sp_adapt0 t → sp_adapt0 t <= sp_adapt1 t <= sp_queue t → sp_queue t < 2 ^ 64 →
  elapsed (sp_adapt0 t) (sp_adapt1 t) <= elapsed (sp_recv t) (sp_queue t).
Proof. intros H1 H2 H3. unfold elapsed. rewrite !u64_wrap_id by (unfold in_u64; lia). lia. Qed.

End Balance.

Module Witness.
Import WholeDecimal.

Definition wire (side : Z) (no number price : string) : MqOrder := {|
  mq_user_id := Some 7; mq_uid := Some 8; mq_c_type := 1; mq_deal_type := None;
  mq_type := Some 1; mq_order_type := Some side; mq_market_id := Some 2; mq_coin_id := Some 3;
  mq_symbol_key := Some "BTC/USDT"%string; mq_coin_market := Some "BTC/USDT"%string;
  mq_trust_order_no := Some no; mq_close_position := Some 1; mq_start_deposit := Some "10"%string;
  mq_position_type := Some 1; mq_taker_rate := Some "1"%string; mq_order_status := Some 0; mq_order_form := Some 1;
  mq_gear := None; mq_lever_times := Some 10; mq_trust_number := Some number; mq_trust_price := Some price;
  mq_create_time := Some 1; mq_face_value := None; mq_handicap_type := None |}.

Definition sym : string := "btcusdt"%string.
Definition router1 : Contract.InboundRouter :=
  Contract.mkRouter {[sym := Contract.mkChan 8 [] true]} start_queue_new.
Definition zero_clock : span_clock := mkSpan 0 0 0 0 0 0.
Definition scale2 : SymbolScale := mkScale 2 6.
Definition workers1 : gmap string (HpEngine BTreeBidIndex BTreeAskIndex) := {[sym := hp_engine_new]}.

(** A buy that rests, a sell that fills it and a text without a price. *)
Definition acts1 : list (pr_action (V := SymbolScale * span_clock)) :=
  [PMessage (wire 1 "10" "4" "100"); PMessage (wire 2 "11" "4" "100"); PMessage (wire 2 "12" "4" "x");
   PWork sym (scale2, zero_clock); PWork sym (scale2, zero_clock)].

Definition after1 := pr_run (fresh_process router1 workers1) acts1.
Definition shown1 : Counters := count_up counters_zero (adds_of (pr_in after1 ++ pr_work after1)).

Lemma telemetry_balance_witness :
  u64_wrap (shown1 OrderEvents + rt_queued (pr_router after1) + rests (pr_work after1))
  = u64_wrap (rt_queued router1 + shown1 Placed + pr_silent after1)
  ∧ scrape (metric_name Deals) (contract_render_prometheus shown1) = Some (shown1 Deals).
Proof.
  destruct (telemetry_balance (BI := BTreeBidIndex) (AI := BTreeAskIndex)) as (_ & _ & H3 & H4). split.
  - apply (H3 router1 workers1 acts1). reflexivity.
  - exact (proj1 (H4 (adds_of (pr_in after1 ++ pr_work after1))) Deals).
Defined.

(** Two orders are taken, one trade is made, one message is refused; three orders
    are shown as placed, the resting buy twice. *)
Example hp_counts_rests_as_placed :
  (shown1 OrderEvents, shown1 InboundInvalid, shown1 Placed, shown1 Deals) = (2, 1, 3, 1).
Proof. vm_compute. reflexivity. Qed.

End Witness.
