(* ===== verification/Process.v ===== *)
(** * The processes: configuration, health endpoints, startup

    Models [config.rs] (the fields, their defaults and what is required),
    [health.rs] (readiness and the three routes) and [main.rs] of match-contract and
    match-spot, and of [bootstrap.rs] the local start, the start of the consumers
    and the timer of the start queue.  The file system, the port, the environment
    variable and the thread the message source spawns are arguments.  A YAML file is the typed fields found in it; reading
    the text is the work of [serde_yaml].  A run is the phases it passes through, each with what the
    health server answers in it. *)
From stdpp Require Import gmap strings.
From S2P Require Import Prelude Decimal Protocol HpScale Utf8 Gateway Contract Spot Topics MemoryMq Redis Rpc ContractStart SpotStart PlainDecimal Telemetry.

#[local] Open Scope Z_scope.

(** ** Configuration *)

Record HealthConfig := mkHealth { health_port : Z; health_enabled : bool }.

Inductive MqTransport := Memory | Rocketmq.

Record RocketMqConfig := mkMq {
  mq_name_server : string; mq_consumer_group : string; mq_transport : MqTransport; mq_memory_dir : option string;
  mq_enable_mm_consumer : bool }.

Record RpcConfig := mkRpc { rpc_market_base_url : string; rpc_order_base_url : string }.

Record MatchConfig := mkMatch {
  mc_symbols_whitelist : list string; mc_queue_capacity : Z; mc_default_price_scale : Z; mc_default_qty_scale : Z;
  mc_symbol_scales : gmap string (Z * Z) }.

(** The fields both configurations have; the contract process has a time for the
    start queue, the spot process a topic split. *)
Record AppConfig := mkApp {
  app_shard : Z; app_startup_delay_ms : Z; app_start_queue_ttl_ms : Z; app_depth_push_interval_ms : Z; app_symbol_workers : Z;
  app_health : HealthConfig; app_rocketmq : RocketMqConfig; app_redis : RedisConfig; app_rpc : RpcConfig; app_match : MatchConfig;
  app_topic_split : TopicSplitConfig }.

(** What a file has: every field may be missing. *)
Record RawMq := mkRawMq {
  raw_name_server : option string; raw_consumer_group : option string; raw_transport : option MqTransport;
  raw_memory_dir : option string; raw_enable_mm : option bool }.
Record RawMatch := mkRawMatch {
  raw_whitelist : option (list string); raw_queue_capacity : option Z; raw_price_scale : option Z; raw_qty_scale : option Z;
  raw_scales : option (gmap string (Z * Z)) }.
Record RawConfig := mkRaw {
  raw_shard : option Z; raw_startup_delay_ms : option Z; raw_start_queue_ttl_ms : option Z; raw_depth_push_interval_ms : option Z;
  raw_symbol_workers : option Z; raw_health : option (option Z * option bool); raw_rocketmq : option RawMq;
  raw_redis : option (option (list string) * option string); raw_rpc : option (option string * option string);
  raw_match : option RawMatch; raw_topic_split : option TopicSplitConfig }.

Definition contract_health_port : Z := 31015.
Definition spot_health_port : Z := 31016.
Definition DEFAULT_DEPTH_PUSH_INTERVAL_MS : Z := 1000.
Definition default_queue_capacity : Z := 10000.
Definition default_price_scale : Z := 2.
Definition default_qty_scale : Z := 6.

Definition health_of (port : Z) (h : option (option Z * option bool)) : HealthConfig :=
  match h with
  | Some (p, e) => mkHealth (default port p) (default true e)
  | None => mkHealth port true
  end.

Definition mq_of (m : RawMq) : option RocketMqConfig :=
  name_server ← raw_name_server m; group ← raw_consumer_group m;
  Some (mkMq name_server group (default Memory (raw_transport m)) (raw_memory_dir m) (default true (raw_enable_mm m))).

Definition redis_of (r : option (list string) * option string) : option RedisConfig :=
  nodes ← r.1; Some (mkRedisConfig nodes (default EmptyString r.2)).

Definition rpc_of (r : option string * option string) : option RpcConfig :=
  market ← r.1; order ← r.2; Some (mkRpc market order).

Definition match_of (m : RawMatch) : MatchConfig :=
  mkMatch (default [] (raw_whitelist m)) (default default_queue_capacity (raw_queue_capacity m))
    (default default_price_scale (raw_price_scale m)) (default default_qty_scale (raw_qty_scale m)) (default ∅ (raw_scales m)).

(** The derived [Deserialize] of match-contract: [None] is a missing field. *)
Definition contract_config (r : RawConfig) : option AppConfig :=
  shard ← raw_shard r; delay ← raw_startup_delay_ms r; ttl ← raw_start_queue_ttl_ms r; interval ← raw_depth_push_interval_ms r;
  workers ← raw_symbol_workers r; mq ← (raw_rocketmq r ≫= mq_of); redis ← (raw_redis r ≫= redis_of); rpc ← (raw_rpc r ≫= rpc_of);
  mt ← raw_match r;
  Some (mkApp shard delay ttl interval workers (health_of contract_health_port (raw_health r)) mq redis rpc (match_of mt)
          (mkSplit false [])).

(** That of match-spot: the push interval has a default, there is no time for a start queue. *)
Definition spot_config (r : RawConfig) : option AppConfig :=
  shard ← raw_shard r; delay ← raw_startup_delay_ms r; workers ← raw_symbol_workers r;
  mq ← (raw_rocketmq r ≫= mq_of); redis ← (raw_redis r ≫= redis_of); rpc ← (raw_rpc r ≫= rpc_of); mt ← raw_match r;
  Some (mkApp shard delay 0 (default DEFAULT_DEPTH_PUSH_INTERVAL_MS (raw_depth_push_interval_ms r)) workers
          (health_of spot_health_port (raw_health r)) mq redis rpc (match_of mt) (default (mkSplit false []) (raw_topic_split r))).

(** What the start uses of it. *)
Definition start_config (c : AppConfig) : Config :=
  mkConfig (app_shard c) (mc_symbols_whitelist (app_match c)) (mc_queue_capacity (app_match c)).

(** ** The command environment *)

(** [s.split(',').map(str::trim).filter(|x| !x.is_empty())] *)
Definition local_symbols (s : string) : list string :=
  filter (λ x, x ≠ EmptyString) ((λ part, string_of_bytes (str_trim (bytes_of part))) <$> split_on "," s).

(** ** Transport ([build_transport]) *)

Definition build_transport (c : RocketMqConfig) (in_exists : bool) (listing : option (list (option dir_entry))) :
    option (MemoryOrderSink * MemoryMessageSource) :=
  match mq_transport c with
  | Memory =>
      match mq_memory_dir c with
      | Some _ =>
          match load_dir in_exists listing source_new with
          | (source, Some _) => Some (with_out_dir, source)
          | (_, None) => None
          end
      | None => Some (sink_new, source_new)
      end
  | Rocketmq => None
  end.

(** ** Health *)

Inductive route := Healthz | Readyz | Metrics.

(** What the health server answers: status and text. *)
Definition health_answer (render : Counters → string) (ready : bool) (c : Counters) (rt : route) : Z * string :=
  match rt with
  | Healthz => (200, "ok"%string)
  | Readyz => if ready then (200, "ready"%string) else (503, "not ready"%string)
  | Metrics => (200, render c)
  end.

(** ** The consumers *)

Section Consumers.
Context `{BD : BigDecimal} (parse : list Z → option (list MqOrder)).

(** [start_consumers]: the messages the source has are handed to the router, their
    topics unread; [spawned] says whether the poller thread could be made. *)
Definition contract_start_consumers (r : Contract.InboundRouter) (source : MemoryMessageSource) (spawned : bool) :
    BootstrapError + Contract.InboundRouter :=
  let r := foldl (λ r m, (Contract.handle_body parse r m.2).1) r (inbox source) in
  if spawned then inr r else inl SourceFailed.

Definition spot_start_consumers (r : Spot.InboundRouter) (source : MemoryMessageSource) (spawned : bool) :
    BootstrapError + Spot.InboundRouter :=
  let r := foldl (λ r m, (Spot.handle_body parse r m.2).1) r (inbox source) in
  if spawned then inr r else inl SourceFailed.

(** [run_local] of match-contract: the queues of the given symbols, nothing restored. *)
Definition contract_run_local (c : Config) (symbols : list string) : Contract.InboundRouter :=
  foldl (λ r s, Contract.register_queue r s (Contract.mkChan (capacity c) [] true)) (Contract.router_new start_queue_new) symbols.

(** The timer: after its time the start queue is cleared. *)
Definition contract_ttl (r : Contract.InboundRouter) : Contract.InboundRouter :=
  Contract.mkRouter (Contract.queues r) (start_queue_clear (start_queue r)).

(** ** A run of the process *)

(** The process starts, listens with or without having started, has ended. *)
Inductive phase := Starting | Listening (ready : bool) | Exited (code : Z).

(** What surrounds a run: the file, the port, the directory of messages, the variable
    with local symbols, the thread of the source. *)
Record main_env := mkMainEnv {
  me_file : option RawConfig; me_bind : bool; me_in_exists : bool; me_listing : option (list (option dir_entry));
  me_local : option string; me_spawned : bool }.

Section Main.
Context {Router : Type} (config_of : RawConfig → option AppConfig)
  (boot : AppConfig → option (BootstrapError + Router)) (run_local : Config → list string → Router)
  (start_consumers : Router → MemoryMessageSource → bool → BootstrapError + Router).

(** [bootstrap::run] or [run_local], then the consumers. *)
Definition bootstrap (c : AppConfig) (local : option string) (source : MemoryMessageSource) (spawned : bool) : option (BootstrapError + Router) :=
  match local with
  | Some s => Some (start_consumers (run_local (start_config c) (local_symbols s)) source spawned)
  | None =>
      r ← boot c;
      Some match r with inl e => inl e | inr r => start_consumers r source spawned end
  end.

(** [main]: the phases and the router that serves in the end; [None] while the
    bootstrap does not return. *)
Definition process_main (v : main_env) : option (list phase * option Router) :=
  match me_file v ≫= config_of with
  | None => Some ([Starting; Exited 1], None)
  | Some c =>
      let listening := health_enabled (app_health c) in
      if listening && negb (me_bind v) then Some ([Starting; Exited 1], None)
      else
        let up (ready : bool) := if listening then [Listening ready] else [Starting] in
        match build_transport (app_rocketmq c) (me_in_exists v) (me_listing v) with
        | None => Some (Starting :: up false ++ [Exited 1], None)
        | Some (_, source) =>
            r ← bootstrap c (me_local v) source (me_spawned v);
            Some match r with
                 | inl _ => (Starting :: up false ++ [Exited 1], None)
                 | inr r => (Starting :: up false ++ up true, Some r)
                 end
        end
  end.

(** How a run ends: it exits with code 1 and was never ready, or it serves with the
    router its bootstrap made, ready only from then on. *)
Definition main_outcome (v : main_env) (phases : list phase) (r : option Router) : Prop :=
  match r with
  | None => last phases = Some (Exited 1) ∧ Listening true ∉ phases
  | Some r => ∃ c source, me_file v ≫= config_of = Some c ∧ (health_enabled (app_health c) = true → me_bind v = true)
      ∧ mq_transport (app_rocketmq c) = Memory
      ∧ (∃ sink, build_transport (app_rocketmq c) (me_in_exists v) (me_listing v) = Some (sink, source))
      ∧ bootstrap c (me_local v) source (me_spawned v) = Some (inr r)
      ∧ (health_enabled (app_health c) = true → phases = [Starting; Listening false; Listening true])
      ∧ ∀ code, Exited code ∉ phases
  end.

Lemma main_cases v phases r : process_main v = Some (phases, r) → main_outcome v phases r.
Proof.
  unfold process_main, main_outcome. destruct (me_file v ≫= config_of) as [c|]; [|by intros [= <- <-]; split; [done|set_solver]].
  destruct (health_enabled (app_health c) && negb (me_bind v)) eqn:Eb; [by intros [= <- <-]; split; [done|set_solver]|].
  destruct (build_transport _ _ _) as [[sink source]|] eqn:Et.
  - destruct (bootstrap c _ source _) as [[e|r']|] eqn:Er; [| |done]; cbn [mbind option_bind]; intros [= <- <-].
    + split; [by destruct (health_enabled _)|destruct (health_enabled _); set_solver].
    + exists c, source. split_and!; try done.
      * intros He. rewrite He in Eb. by destruct (me_bind v).
      * unfold build_transport in Et. by destruct (mq_transport _).
      * by exists sink.
      * intros He. by rewrite He.
      * intros code. destruct (health_enabled _); set_solver.
  - intros [= <- <-]. split; [by destruct (health_enabled _)|destruct (health_enabled _); set_solver].
Qed.

End Main.

(** ** The two programs *)

Section Programs.
Context (fuel : nat) (dial : RedisBackend → bool) (up : string → bool) (store : MockStore)
  (contract_markets : RpcError + ResponseData (list ContractCoinMarket)) (contract_orders : ContractStart.order_server)
  (spot_markets : RpcError + ResponseData (list SpotCoinMarket)) (spot_orders : SpotStart.order_server).

(** [bootstrap::run] of match-contract connects to Redis when it has its markets. *)
Definition contract_boot (c : AppConfig) : option (BootstrapError + Contract.InboundRouter) :=
  match redis_connect dial (app_redis c) with
  | inr _ =>
      r ← ContractStart.run fuel (start_config c) up store contract_markets contract_orders;
      Some match r with inl e => inl e | inr st => inr (ContractStart.rn_router st) end
  | inl _ =>
      Some (inl match checked contract_markets with
                | inl e => RpcFailed e
                | inr mks => match ContractStart.filter_markets (start_config c) mks with [] => NoMarkets | _ => RedisFailed end
                end)
  end.

(** [bootstrap::run] of match-spot connects first. *)
Definition spot_boot (c : AppConfig) : option (BootstrapError + Spot.InboundRouter) :=
  match redis_connect dial (app_redis c) with
  | inr _ =>
      r ← run_with_redis fuel (start_config c) up store spot_markets spot_orders;
      Some match r with inl e => inl e | inr st => inr (SpotStart.rn_router st) end
  | inl _ => Some (inl RedisFailed)
  end.

Definition contract_main : main_env → option (list phase * option Contract.InboundRouter) :=
  process_main contract_config contract_boot contract_run_local contract_start_consumers.

Definition spot_main : main_env → option (list phase * option Spot.InboundRouter) :=
  process_main spot_config spot_boot SpotStart.run_local spot_start_consumers.

(** Both processes are ready only when they serve: a run that returns from its
    bootstrap exits with code 1 without ever having been ready, or has read a complete
    configuration, holds its port, uses the memory transport, has bootstrapped and
    started its consumers, and answers [/readyz] with 503 before and 200 after. *)
Theorem ready_after_bootstrap v :
  (∀ phases r, contract_main v = Some (phases, r) →
     main_outcome contract_config contract_boot contract_run_local contract_start_consumers v phases r)
  ∧ (∀ phases r, spot_main v = Some (phases, r) →
     main_outcome spot_config spot_boot SpotStart.run_local spot_start_consumers v phases r)
  ∧ ∀ render c ready, (health_answer render ready c Readyz).1 = 200 ↔ ready = true.
Proof.
  split_and!.
  - intros phases r. apply main_cases.
  - intros phases r. apply main_cases.
  - intros render c ready. by destruct ready.
Qed.

End Programs.
End Consumers.

Module Witness.
Import WholeDecimal.

Definition raw : RawConfig :=
  mkRaw (Some 1) (Some 0) (Some 0) (Some 100) (Some 4) None (Some (mkRawMq (Some "ns") (Some "g") None (Some "dir") None))
    (Some (Some ["127.0.0.1:6379"], None)) (Some (Some "m", Some "o")) (Some (mkRawMatch None None None None None)) None.

Definition no_orders : ContractStart.order_server := λ _ _, inl Http.
Definition no_spot_orders : SpotStart.order_server := λ _ _ _ _, inl Http.

(** One file with an order for the local symbol. *)
Definition parse1 (body : list Z) : option (list MqOrder) :=
  if bool_decide (body = [1]) then Some [Telemetry.Witness.wire 1 "10" "4" "100"] else None.
Definition env1 : main_env := mkMainEnv (Some raw) true true (Some [Some (mkEntry (Some "json") (Some "t") (Some [1]))]) (Some "btcusdt, ,") true.

Definition run1 := contract_main parse1 0 (λ _, true) (λ _, true) store_empty (inl Http) no_orders env1.

(** The order in the file is queued before the process is ready. *)
Example local_run_serves :
  match run1 with
  | Some (phases, Some r) => Some (phases, waiting contract_items (Contract.queues r))
  | _ => None
  end = Some ([Starting; Listening false; Listening true], 1).
Proof. vm_compute. reflexivity. Qed.

(** Without the local symbols the market server is asked, and its failure ends the process. *)
Example failed_boot_exits :
  (λ x, x.1) <$> contract_main parse1 0 (λ _, true) (λ _, true) store_empty (inl Http) no_orders
    (mkMainEnv (Some raw) true true (Some []) None true) = Some [Starting; Listening false; Exited 1].
Proof. vm_compute. reflexivity. Qed.

(** A configuration without [redis] is refused by both programs. *)
Example redis_required :
  let r := mkRaw (Some 1) (Some 0) (Some 0) (Some 100) (Some 4) None (raw_rocketmq raw) None (raw_rpc raw) (raw_match raw) None in
  contract_config r = None ∧ spot_config r = None.
Proof. done. Qed.

End Witness.
