(* ===== verification/Frames.v ===== *)
(** * match-dpdk-io: Ethernet, IPv4 and UDP frames

    Models the frame code of [crates/match-dpdk-io]: [udp_payload] and
    [frames::eth_ip_udp_header] of [dpdk/mod.rs]; [parse_frame], [tx_reply] and
    [checksum] of [bin/dpdk_tap_order.rs]; [tx_frame_from] of [dpdk/port.rs]; and the pcap files
    of [bin/mold_dpdk_gen_pcap.rs] and [bin/mold_soup_dpdk.rs].  A received buffer is the
    bytes of its data room from the start of the packet, with the packet's length;
    reading outside of the room is [None].  The poll-mode driver is not modelled.

    The two parsers agree and do not depend on what an earlier packet left in the
    room; every frame written parses back; the header checksum verifies. *)
From S2P Require Import Prelude.

#[local] Open Scope Z_scope.

(** ** Buffers *)

Record mbuf := mkMbuf { m_room : list Z; m_len : nat }.

(** [mtod] and [pkt_len] *)
Definition mtod (m : mbuf) : list Z := m_room m.
Definition pkt_len (m : mbuf) : nat := m_len m.

(** [u16::from_be_bytes([*p.add(i), *p.add(i + 1)])] *)
Definition read_u16 (p : list Z) (i : nat) : option Z := hi ← p !! i; lo ← p !! S i; Some (hi * 256 + lo).

(** [std::slice::from_raw_parts(p.add(i), n)] *)
Definition read_bytes (p : list Z) (i n : nat) : option (list Z) :=
  if (i + n <=? length p)%nat then Some (slice i (i + n) p) else None.

(** ** [udp_payload]: offset and length of the payload *)
Definition udp_payload (m : mbuf) : option (option (nat * nat)) :=
  let base := mtod m in
  if (pkt_len m <? 14 + 20 + 8)%nat then Some None
  else
    ether_type ← read_u16 base 12;
    if negb (ether_type =? 0x0800) then Some None
    else
      proto ← base !! (14 + 9)%nat;
      if negb (proto =? 17) then Some None
      else
        b ← base !! 14%nat;
        let ihl := (Z.to_nat (Z.land b 0x0f) * 4)%nat in
        let total := pkt_len m in
        let udp_off := (14 + ihl)%nat in
        udp_len ← read_u16 base (udp_off + 4);
        let payload_off := (udp_off + 8)%nat in
        if (total <? payload_off)%nat || (udp_len <? 8) then Some None
        else
          let len := Z.to_nat (udp_len - 8) in
          if (total <? payload_off + len)%nat then Some None else Some (Some (payload_off, len)).

(** ** [parse_frame] *)

Record Frame := mkFrame {
  f_dst_mac : list Z; f_src_mac : list Z; f_src_ip : list Z; f_dst_ip : list Z;
  f_src_port : Z; f_dst_port : Z; f_payload_off : nat; f_payload_len : nat }.

Definition parse_frame (m : mbuf) : option (option Frame) :=
  let base := mtod m in
  let total := pkt_len m in
  if (total <? 14 + 20 + 8)%nat then Some None
  else
    ether_type ← read_u16 base 12;
    if negb (ether_type =? 0x0800) then Some None
    else
      proto ← base !! (14 + 9)%nat;
      if negb (proto =? 17) then Some None
      else
        b ← base !! 14%nat;
        let ihl := (Z.to_nat (Z.land b 0x0f) * 4)%nat in
        let udp := (14 + ihl)%nat in
        let payload_off := (14 + ihl + 8)%nat in
        udp_len ← read_u16 base (udp + 4);
        if (udp_len <? 8) || (total <? payload_off + Z.to_nat (udp_len - 8))%nat then Some None
        else
          eth ← read_bytes base 0 14;
          ip_bytes ← read_bytes base 14 20;
          src_port ← read_u16 base udp;
          dst_port ← read_u16 base (udp + 2);
          Some (Some (mkFrame (slice 0 6 eth) (slice 6 12 eth) (slice 12 16 ip_bytes) (slice 16 20 ip_bytes)
                        src_port dst_port payload_off (Z.to_nat (udp_len - 8)))).

(** The payload the frame names. *)
Definition frame_payload (m : mbuf) (f : Frame) : option (list Z) := read_bytes (mtod m) (f_payload_off f) (f_payload_len f).

(** ** [checksum] *)

(** The sum of the words: big-endian pairs, an odd byte last. *)
Fixpoint word_sum (data : list Z) (sum : Z) : Z :=
  match data with
  | hi :: lo :: data => word_sum data (u32_wrap (sum + (hi * 256 + lo)))
  | [b] => u32_wrap (sum + Z.shiftl b 8)
  | [] => sum
  end.

(** [while sum >> 16 != 0 { sum = (sum & 0xffff) + (sum >> 16) }] *)
Fixpoint fold_carry (fuel : nat) (sum : Z) : option Z :=
  match fuel with
  | O => None
  | S fuel =>
      if negb (Z.shiftr sum 16 =? 0) then fold_carry fuel (Z.land sum 0xffff + Z.shiftr sum 16) else Some sum
  end.

(** A [u32] folds in at most two rounds; the third finds no carry. *)
Definition checksum (data : list Z) : option Z :=
  sum ← fold_carry 3 (word_sum data 0); Some (Z.lxor (u16_wrap sum) 0xffff).

(** ** Writing frames *)

(** [frames::eth_ip_udp_header] *)
Definition eth_ip_udp_header (dst_mac src_mac dst_ip src_ip : list Z) (udp_dport udp_sport : Z) (payload_len : nat) : list Z :=
  let udp_len := u16_wrap (8 + Z.of_nat payload_len) in
  let ip_total := u16_wrap (20 + udp_len) in
  dst_mac ++ src_mac ++ [0x08; 0x00] ++ [0x45] ++ [0x00] ++ be_bytes 2 ip_total ++ [0; 0] ++ [0; 0] ++ [64] ++ [17]
  ++ [0; 0] ++ src_ip ++ dst_ip ++ be_bytes 2 udp_sport ++ be_bytes 2 udp_dport ++ be_bytes 2 udp_len ++ [0; 0].

Inductive TxError := AllocFailed | AppendFailed | BuildReturned (used capacity : nat) | TxBurst.

(** [tx_frame_from], given what the driver does: whether a buffer can be allocated,
    how much fits into it, whether the frame is queued.  [build] returns the bytes
    written and the length claimed. *)
Definition tx_frame_from (alloc : bool) (tailroom : nat) (queued : bool) (capacity : nat)
    (build : option (list Z * nat)) : option (TxError + list Z) :=
  if negb alloc then Some (inl AllocFailed)
  else if (tailroom <? capacity)%nat then Some (inl AppendFailed)
  else
    '(buf, used) ← build;
    if (used =? 0)%nat || (capacity <? used)%nat then Some (inl (BuildReturned used capacity))
    else if queued then Some (inr (take used buf)) else Some (inl TxBurst).

(** [tx_frame]: the length is cast to 16 bits for the driver, all bytes are copied;
    [None] is a copy past the end of the data room. *)
Definition tx_frame (alloc : bool) (tailroom : nat) (queued : bool) (frame : list Z) : option (TxError + list Z) :=
  let len := Z.to_nat (u16_wrap (Z.of_nat (length frame))) in
  if negb alloc then Some (inl AllocFailed)
  else if (tailroom <? len)%nat then Some (inl AppendFailed)
  else if (tailroom <? length frame)%nat then None
  else if queued then Some (inr (take len frame)) else Some (inl TxBurst).

(** The closure of [tx_reply] on a zeroed buffer of [cap] bytes; [None] is a slice out of range. *)
Definition build_reply (cap : nat) (f : Frame) (payload : list Z) : option (list Z * nat) :=
  let total := (14 + 20 + 8 + length payload)%nat in
  if negb (cap =? total)%nat then None
  else
    let ip0 := [0x45; 0] ++ be_bytes 2 (u16_wrap (Z.of_nat (total - 14))) ++ [0; 0; 0; 0] ++ [64; 17] in
    let addrs := f_dst_ip f ++ f_src_ip f in
    ip_sum ← checksum (ip0 ++ [0; 0] ++ addrs);
    Some (f_src_mac f ++ f_dst_mac f ++ [0x08; 0x00]
          ++ ip0 ++ [Z.shiftr ip_sum 8; Z.land ip_sum 0xff] ++ addrs
          ++ be_bytes 2 (f_dst_port f) ++ be_bytes 2 (f_src_port f)
          ++ be_bytes 2 (u16_wrap (8 + Z.of_nat (length payload))) ++ [0; 0] ++ payload, total).

Definition tx_reply (alloc : bool) (tailroom : nat) (queued : bool) (f : Frame) (payload : list Z) : option (TxError + list Z) :=
  let total := (14 + 20 + 8 + length payload)%nat in
  let cap := Z.to_nat (u16_wrap (Z.of_nat total)) in
  tx_frame_from alloc tailroom queued cap (build_reply cap f payload).

(** ** Facts on reading *)

Lemma read_u16_lt p i v : read_u16 p i = Some v → (S i < length p)%nat.
Proof.
  unfold read_u16. destruct (p !! i); [|done]. destruct (p !! S i) eqn:E; [|done]. intros _. by apply lookup_lt_Some in E.
Qed.

Lemma read_u16_in p i : (S i < length p)%nat → is_Some (read_u16 p i).
Proof.
  intros Hi. unfold read_u16. destruct (lookup_lt_is_Some_2 p i ltac:(lia)) as [a ->]. cbn.
  destruct (lookup_lt_is_Some_2 p (S i) Hi) as [b ->]. by eexists.
Qed.

Lemma read_u16_prefix p q n i : take n p = take n q → (S i < n)%nat → read_u16 p i = read_u16 q i.
Proof.
  intros Hpq Hi. unfold read_u16. rewrite <- (lookup_take_lt p n i), <- (lookup_take_lt p n (S i)), Hpq by lia.
  by rewrite !lookup_take_lt by lia.
Qed.

Lemma lookup_prefix (p q : list Z) n i : take n p = take n q → (i < n)%nat → p !! i = q !! i.
Proof. intros Hpq Hi. by rewrite <- (lookup_take_lt p n i), Hpq, lookup_take_lt by lia. Qed.

Lemma read_bytes_prefix p q n i k :
  take n p = take n q → (i + k <= n)%nat → (i + k <= length p)%nat → (i + k <= length q)%nat → read_bytes p i k = read_bytes q i k.
Proof.
  intros Hpq Hk Hp Hq. unfold read_bytes, slice. rewrite !(proj2 (Nat.leb_le _ _)) by lia. f_equal.
  replace (i + k - i)%nat with k by lia. apply (f_equal (λ l, take k (drop i l))) in Hpq.
  rewrite !skipn_firstn_comm, !take_take in Hpq. by rewrite !Nat.min_l in Hpq by lia.
Qed.

Lemma read_u16_app_r a b i : (length a <= i)%nat → read_u16 (a ++ b) i = read_u16 b (i - length a).
Proof. intros Hi. unfold read_u16. rewrite !lookup_app_r by lia. by rewrite Nat.sub_succ_l. Qed.

Lemma read_u16_be a v b : read_u16 (a ++ be_bytes 2 v ++ b) (length a) = Some (v mod 65536).
Proof.
  rewrite read_u16_app_r, Nat.sub_diag by lia. unfold read_u16, be_bytes. cbn. f_equal.
  change 65536 with (256 * 256). rewrite Z.rem_mul_r by lia. lia.
Qed.

(** ** The parsers read only the packet *)

Definition same_packet (m m' : mbuf) : Prop := pkt_len m = pkt_len m' ∧ take (pkt_len m) (m_room m) = take (pkt_len m) (m_room m').

(** Room for any header length of a packet that fits in it. *)
Definition roomy (m : mbuf) : Prop := (80 <= length (m_room m))%nat ∧ (pkt_len m <= length (m_room m))%nat.

Lemma ihl_bound b : (Z.to_nat (Z.land b 0x0f) * 4 <= 60)%nat.
Proof. change 0x0f with (Z.ones 4). rewrite Z.land_ones by lia. pose proof (Z.mod_pos_bound b (2 ^ 4) ltac:(lia)). lia. Qed.

(** Both parsers go through the same reads. *)
Inductive reads (m : mbuf) : Prop :=
| reads_short : (pkt_len m < 42)%nat → reads m
| reads_other et pr : (42 <= pkt_len m)%nat → read_u16 (m_room m) 12 = Some et → m_room m !! 23%nat = Some pr →
    et ≠ 0x0800 ∨ pr ≠ 17 → reads m
| reads_udp b udp_len : (42 <= pkt_len m)%nat → read_u16 (m_room m) 12 = Some 0x0800 → m_room m !! 23%nat = Some 17 →
    m_room m !! 14%nat = Some b → read_u16 (m_room m) (14 + Z.to_nat (Z.land b 0x0f) * 4 + 4) = Some udp_len → reads m.

Lemma roomy_reads m : roomy m → reads m.
Proof.
  intros [Hr Hl]. destruct (Nat.lt_ge_cases (pkt_len m) 42) as [Hs|Hs]; [by apply reads_short|].
  destruct (read_u16_in (m_room m) 12 ltac:(lia)) as [et Het]. destruct (lookup_lt_is_Some_2 (m_room m) 23 ltac:(lia)) as [pr Hpr].
  destruct (lookup_lt_is_Some_2 (m_room m) 14 ltac:(lia)) as [b Hb]. pose proof (ihl_bound b) as Hi.
  destruct (read_u16_in (m_room m) (14 + Z.to_nat (Z.land b 0x0f) * 4 + 4) ltac:(lia)) as [ul Hul].
  destruct (decide (et = 0x0800)) as [->|]; [|by eapply reads_other; eauto].
  destruct (decide (pr = 17)) as [->|]; [|by eapply reads_other; eauto]. by eapply reads_udp.
Qed.

Lemma udp_payload_other m et pr :
  (42 <= pkt_len m)%nat → read_u16 (m_room m) 12 = Some et → m_room m !! 23%nat = Some pr → et ≠ 0x0800 ∨ pr ≠ 17 →
  udp_payload m = Some None ∧ parse_frame m = Some None.
Proof.
  intros Hl He Hp Hne. unfold udp_payload, parse_frame, mtod. rewrite (proj2 (Nat.ltb_ge _ _)) by (cbn; lia). rewrite He. cbn [mbind option_bind].
  destruct (Z.eqb_spec et 0x0800); cbn [negb]; [|done]. change (14 + 9)%nat with 23%nat. rewrite Hp. cbn [mbind option_bind].
  destruct (Z.eqb_spec pr 17); cbn [negb]; [tauto|done].
Qed.

Lemma udp_reads m b udp_len :
  (42 <= pkt_len m)%nat → read_u16 (m_room m) 12 = Some 0x0800 → m_room m !! 23%nat = Some 17 → m_room m !! 14%nat = Some b →
  let off := (14 + Z.to_nat (Z.land b 0x0f) * 4)%nat in read_u16 (m_room m) (off + 4) = Some udp_len →
  udp_payload m = (if (pkt_len m <? off + 8)%nat || (udp_len <? 8) then Some None
                   else if (pkt_len m <? off + 8 + Z.to_nat (udp_len - 8))%nat then Some None
                   else Some (Some (off + 8, Z.to_nat (udp_len - 8))%nat))
  ∧ parse_frame m = (if (udp_len <? 8) || (pkt_len m <? off + 8 + Z.to_nat (udp_len - 8))%nat then Some None
      else eth ← read_bytes (m_room m) 0 14; ip_bytes ← read_bytes (m_room m) 14 20;
           src_port ← read_u16 (m_room m) off; dst_port ← read_u16 (m_room m) (off + 2);
           Some (Some (mkFrame (slice 0 6 eth) (slice 6 12 eth) (slice 12 16 ip_bytes) (slice 16 20 ip_bytes)
                         src_port dst_port (off + 8) (Z.to_nat (udp_len - 8))))).
Proof.
  intros Hl He Hp Hb off Hu. unfold udp_payload, parse_frame, mtod. rewrite (proj2 (Nat.ltb_ge _ _)) by (cbn; lia).
  rewrite He. cbn [mbind option_bind]. change (0x0800 =? 0x0800) with true. cbn [negb]. change (14 + 9)%nat with 23%nat. rewrite Hp.
  cbn [mbind option_bind]. change (17 =? 17) with true. cbn [negb]. rewrite Hb. cbn [mbind option_bind]. fold off. rewrite Hu. by cbn [mbind option_bind].
Qed.

Lemma read_bytes_in p i n : (i + n <= length p)%nat → read_bytes p i n = Some (slice i (i + n) p).
Proof. intros Hl. unfold read_bytes. by rewrite (proj2 (Nat.leb_le _ _)). Qed.

(** A header that does not fit into the packet is refused whatever follows it. *)
Lemma header_past_end m b udp_len :
  (42 <= pkt_len m)%nat → read_u16 (m_room m) 12 = Some 0x0800 → m_room m !! 23%nat = Some 17 → m_room m !! 14%nat = Some b →
  let off := (14 + Z.to_nat (Z.land b 0x0f) * 4)%nat in read_u16 (m_room m) (off + 4) = Some udp_len →
  (pkt_len m < off + 8)%nat → udp_payload m = Some None ∧ parse_frame m = Some None.
Proof.
  intros Hl He Hp Hb off Hu Hlt. destruct (udp_reads m b udp_len Hl He Hp Hb Hu) as [-> ->]. fold off.
  rewrite (proj2 (Nat.ltb_lt (pkt_len m) (off + 8))), (proj2 (Nat.ltb_lt (pkt_len m) (off + 8 + _))) by lia. by rewrite orb_true_r.
Qed.

Lemma frame_parse_spec m m' :
  roomy m → roomy m' → same_packet m m' →
  ∃ r, parse_frame m = Some r ∧ udp_payload m = Some ((λ f, (f_payload_off f, f_payload_len f)) <$> r)
    ∧ parse_frame m' = Some r
    ∧ ∀ f, r = Some f → (f_payload_off f + f_payload_len f <= pkt_len m)%nat
        ∧ frame_payload m f = frame_payload m' f ∧ is_Some (frame_payload m f).
Proof.
  intros Hr Hr' [Hlen Hpre]. destruct (roomy_reads m Hr) as [Hs|et pr Hl He Hp Hne|b ul Hl He Hp Hb Hu].
  - exists None. unfold parse_frame, udp_payload. rewrite <- Hlen, (proj2 (Nat.ltb_lt _ _)) by (cbn; lia). by split_and!.
  - exists None. destruct (udp_payload_other m et pr) as [-> ->]; [done..|]. destruct (udp_payload_other m' et pr) as [_ ->]; [lia| | |done|by split_and!].
    + by rewrite <- (read_u16_prefix _ _ _ _ Hpre) by lia.
    + by rewrite <- (lookup_prefix _ _ _ _ Hpre) by lia.
  - assert (read_u16 (m_room m') 12 = Some 0x0800) as He' by (by rewrite <- (read_u16_prefix _ _ _ _ Hpre) by lia).
    assert (m_room m' !! 23%nat = Some 17) as Hp' by (by rewrite <- (lookup_prefix _ _ _ _ Hpre) by lia).
    assert (m_room m' !! 14%nat = Some b) as Hb' by (by rewrite <- (lookup_prefix _ _ _ _ Hpre) by lia).
    set (off := (14 + Z.to_nat (Z.land b 0x0f) * 4)%nat) in *. pose proof (ihl_bound b) as Hi. destruct Hr as [H80 Hfit], Hr' as [H80' Hfit'].
    destruct (read_u16_in (m_room m') (off + 4) ltac:(lia)) as [ul' Hu'].
    destruct (Nat.lt_ge_cases (pkt_len m) (off + 8)) as [Hpast|Hin].
    { exists None. destruct (header_past_end m b ul Hl He Hp Hb Hu Hpast) as [-> ->].
      destruct (header_past_end m' b ul' ltac:(lia) He' Hp' Hb' Hu' ltac:(lia)) as [_ ->]. by split_and!. }
    assert (ul' = ul) as -> by (rewrite <- (read_u16_prefix _ _ _ _ Hpre) in Hu' by lia; congruence).
    destruct (udp_reads m b ul Hl He Hp Hb Hu) as [-> ->]. destruct (udp_reads m' b ul ltac:(lia) He' Hp' Hb' Hu') as [_ ->]. fold off. rewrite <- Hlen.
    rewrite (proj2 (Nat.ltb_ge _ (off + 8))) by lia. cbn [orb]. destruct (ul <? 8) eqn:E8; cbn [orb]; [by exists None|].
    destruct (Nat.ltb_spec (pkt_len m) (off + 8 + Z.to_nat (ul - 8))) as [?|Hpl]; [by exists None|].
    rewrite <- !(read_bytes_prefix _ _ _ _ _ Hpre), <- !(read_u16_prefix _ _ _ _ Hpre) by lia. rewrite !read_bytes_in by lia. cbn [mbind option_bind].
    destruct (read_u16_in (m_room m) off ltac:(lia)) as [sp ->]. destruct (read_u16_in (m_room m) (off + 2) ltac:(lia)) as [dp ->]. cbn [mbind option_bind].
    eexists (Some _). split_and!; [reflexivity|reflexivity|reflexivity|]. intros f [= <-]. unfold frame_payload, mtod. cbn [f_payload_off f_payload_len].
    split_and!; [lia|apply (read_bytes_prefix _ _ _ _ _ Hpre); lia|rewrite read_bytes_in by lia; by eexists].
Qed.

Lemma frame_parse_total m : roomy m → ∃ r, parse_frame m = Some r ∧ ∀ f, r = Some f → is_Some (frame_payload m f).
Proof.
  intros Hr. destruct (frame_parse_spec m m Hr Hr (conj eq_refl eq_refl)) as (r & Hp & _ & _ & Hf). exists r. split; [done|]. intros f Hfr. destruct (Hf f Hfr) as (_ & _ & Hs). exact Hs.
Qed.

(** C32.  Receiving a frame is safe.  Whatever bytes are in the buffer: both parsers
    stay within the data room and finish, they accept the same packets and find
    the same payload, a payload found lies within the packet, and what they return
    does not depend on the bytes an earlier packet left behind this one. *)
Theorem frame_parse_safe m m' :
  roomy m → roomy m' → same_packet m m' →
  ∃ r, parse_frame m = Some r ∧ udp_payload m = Some ((λ f, (f_payload_off f, f_payload_len f)) <$> r)
    ∧ parse_frame m' = Some r
    ∧ ∀ f, r = Some f → (f_payload_off f + f_payload_len f <= pkt_len m)%nat
        ∧ frame_payload m f = frame_payload m' f ∧ is_Some (frame_payload m f).
Proof. apply frame_parse_spec. Qed.

(** ** Writing and reading back *)

Lemma be16_val v : in_u16 v → (v / 256) mod 256 * 256 + v mod 256 = v.
Proof. unfold in_u16. intros Hv. pose proof (Z.div_mod v 256 ltac:(lia)). rewrite (Z.mod_small (v / 256)); [lia|]. split; [apply Z.div_pos; lia|apply Z.div_lt_upper_bound; lia]. Qed.

Ltac explode l :=
  repeat (destruct l as [|? l]; [discriminate|]); destruct l; [|discriminate].

(** A frame with a header of 20 bytes is read as written; [stale] follows it in the room. *)
Lemma parse_written dst_mac src_mac tos ip_total ident ttl ck src_ip dst_ip sport dport cks payload stale :
  length dst_mac = 6%nat → length src_mac = 6%nat → length ip_total = 2%nat → length ident = 4%nat → length ck = 2%nat →
  length src_ip = 4%nat → length dst_ip = 4%nat → length cks = 2%nat →
  in_u16 sport → in_u16 dport → in_u16 (8 + Z.of_nat (length payload)) →
  let fr := dst_mac ++ src_mac ++ [0x08; 0x00] ++ [0x45; tos] ++ ip_total ++ ident ++ [ttl; 17] ++ ck ++ src_ip ++ dst_ip
            ++ be_bytes 2 sport ++ be_bytes 2 dport ++ be_bytes 2 (8 + Z.of_nat (length payload)) ++ cks ++ payload in
  let m := mkMbuf (fr ++ stale) (length fr) in
  let f := mkFrame dst_mac src_mac src_ip dst_ip sport dport 42 (length payload) in
  length fr = (42 + length payload)%nat ∧ parse_frame m = Some (Some f) ∧ frame_payload m f = Some payload.
Proof.
  intros H1 H2 H3 H4 H5 H6 H7 H8 Hsp Hdp Hul. explode dst_mac. explode src_mac. explode ip_total. explode ident. explode ck. explode src_ip. explode dst_ip. explode cks.
  set (ul := 8 + Z.of_nat (length payload)) in *. cbv zeta. unfold be_bytes. cbn [le_bytes rev app length].
  set (fr := _ :: _). split_and!.
  - done.
  - unfold parse_frame, mtod, pkt_len. subst fr. cbn [m_room m_len].
    rewrite (proj2 (Nat.ltb_ge _ (14 + 20 + 8))) by (cbn; lia).
    cbn [read_u16 lookup list_lookup mbind option_bind Nat.add app].
    change (8 * 256 + 0 =? 0x0800) with true. change (17 =? 17) with true. cbn [negb mbind option_bind].
    change (Z.to_nat (Z.land 69 0x0f) * 4)%nat with 20%nat. cbn [Nat.add lookup list_lookup read_u16 mbind option_bind].
    rewrite !be16_val by done. rewrite (proj2 (Z.ltb_ge ul 8)) by (subst ul; lia). cbn [orb].
    replace (Z.to_nat (ul - 8)) with (length payload) by (subst ul; lia).
    rewrite (proj2 (Nat.ltb_ge _ _)) by (cbn [length]; lia).
    rewrite !read_bytes_in by (cbn [length]; lia). done.
  - unfold frame_payload, mtod. subst fr. cbn [m_room f_payload_off f_payload_len]. rewrite read_bytes_in by (cbn [length app]; rewrite length_app; lia).
    f_equal. unfold slice. cbn [drop app]. replace (42 + length payload - 42)%nat with (length payload) by lia. apply take_app_length.
Qed.

(** ** The checksum *)

Definition sum16 (sum : Z) : Prop := 0 <= sum < 2 ^ 16.

Lemma carry_step sum : 0 <= sum → Z.land sum 0xffff + Z.shiftr sum 16 = sum mod 2 ^ 16 + sum / 2 ^ 16.
Proof. intros Hs. change 0xffff with (Z.ones 16). by rewrite Z.land_ones, Z.shiftr_div_pow2 by lia. Qed.

(** Folding finishes, keeps the sum modulo [2 ^ 16 - 1], and gives 0 only for 0. *)
Lemma fold_carry_spec sum :
  0 <= sum < 2 ^ 32 → ∃ r, fold_carry 3 sum = Some r ∧ sum16 r ∧ r mod 65535 = sum mod 65535 ∧ (0 < sum → 0 < r) ∧ (sum = 0 → r = 0).
Proof.
  intros Hs. assert (∀ k x, 0 <= x → fold_carry (S k) x = if x <? 2 ^ 16 then Some x else fold_carry k (x mod 2 ^ 16 + x / 2 ^ 16)) as Hstep.
  { intros k x Hx. cbn [fold_carry]. rewrite carry_step by done. rewrite Z.shiftr_div_pow2 by lia.
    destruct (Z.ltb_spec x (2 ^ 16)); [by rewrite Z.div_small by lia|]. assert (1 <= x / 2 ^ 16) by (apply Z.div_le_lower_bound; lia).
    by rewrite (proj2 (Z.eqb_neq _ 0)) by lia. }
  assert (∀ x, 0 <= x → (x mod 2 ^ 16 + x / 2 ^ 16) mod 65535 = x mod 65535) as Hmod.
  { intros x Hx. pose proof (Z.div_mod x (2 ^ 16) ltac:(lia)) as Hd. rewrite Hd at 3.
    replace (2 ^ 16 * (x / 2 ^ 16) + x mod 2 ^ 16) with (x mod 2 ^ 16 + x / 2 ^ 16 + (x / 2 ^ 16) * 65535) by lia. by rewrite Z_mod_plus_full. }
  assert (∀ x, 2 ^ 16 <= x < 2 ^ 32 → 0 < x mod 2 ^ 16 + x / 2 ^ 16 <= 131070) as Hb1.
  { intros x Hx. pose proof (Z.mod_pos_bound x (2 ^ 16) ltac:(lia)). assert (1 <= x / 2 ^ 16) by (apply Z.div_le_lower_bound; lia).
    assert (x / 2 ^ 16 < 2 ^ 16) by (apply Z.div_lt_upper_bound; lia). lia. }
  rewrite Hstep by lia. destruct (Z.ltb_spec sum (2 ^ 16)) as [H1|H1]; [exists sum; split_and!; [done|unfold sum16; lia..]|].
  pose proof (Hb1 sum ltac:(lia)) as Hy. pose proof (Hmod sum ltac:(lia)) as Hm. set (y := sum mod 2 ^ 16 + sum / 2 ^ 16) in *. rewrite Hstep by lia.
  destruct (Z.ltb_spec y (2 ^ 16)) as [H2|H2]; [exists y; split_and!; [done|unfold sum16; lia..]|].
  pose proof (Hmod y ltac:(lia)) as Hm2. assert (y / 2 ^ 16 = 1) as Hq by (symmetry; apply (Z.div_unique y (2 ^ 16) 1 (y - 2 ^ 16)); lia).
  rewrite Hq in *. assert (y mod 2 ^ 16 = y - 2 ^ 16) as Hr by (rewrite Z.mod_eq, Hq by lia; lia). rewrite Hr in *. rewrite Hstep by lia.
  rewrite (proj2 (Z.ltb_lt _ _)) by lia. exists (y - 2 ^ 16 + 1). split_and!; [done|unfold sum16; lia|lia..].
Qed.

Lemma word_sum_add d : ∀ s, 0 <= s → Forall in_u8 d → s + 65535 * (Z.of_nat (length d) + 1) < 2 ^ 32 →
  word_sum d s = s + word_sum d 0 ∧ 0 <= word_sum d 0 <= 65535 * (Z.of_nat (length d) + 1).
Proof.
  assert (∀ n d s, (length d <= n)%nat → 0 <= s → Forall in_u8 d → s + 65535 * (Z.of_nat (length d) + 1) < 2 ^ 32 →
    word_sum d s = s + word_sum d 0 ∧ 0 <= word_sum d 0 <= 65535 * (Z.of_nat (length d) + 1)) as Hn; [|intros; by apply (Hn (length d))].
  clear d. induction n as [|n IH]; intros d s Hl Hs Hd Hb; (destruct d as [|a [|b d]]; [cbn; lia| |]); [cbn in Hl; lia|cbn in Hl; lia| |].
  - apply Forall_cons in Hd as [Ha _]. unfold in_u8 in Ha. cbn [word_sum length] in *. rewrite Z.shiftl_mul_pow2 by lia.
    rewrite !u32_wrap_id by (unfold in_u32; lia). lia.
  - apply Forall_cons in Hd as [Ha Hd]. apply Forall_cons in Hd as [Hb' Hd]. unfold in_u8 in *. cbn [word_sum length] in *.
    rewrite !u32_wrap_id by (unfold in_u32; lia).
    destruct (IH d (s + (a * 256 + b))) as [-> Hr]; [lia|lia|done|lia|]. destruct (IH d (0 + (a * 256 + b))) as [-> _]; [lia|lia|done|lia|]. lia.
Qed.

Lemma word_sum_app a b : ∀ s, Nat.Even (length a) → word_sum (a ++ b) s = word_sum b (word_sum a s).
Proof.
  assert (∀ n a s, (length a <= n)%nat → Nat.Even (length a) → word_sum (a ++ b) s = word_sum b (word_sum a s)) as Hn; [|intros; by apply (Hn (length a))].
  clear a. induction n as [|n IH]; intros a s Hl He; (destruct a as [|x [|y a]]; [done| |]); [cbn in Hl; lia|cbn in Hl; lia| |].
  - destruct He as [k Hk]. cbn in Hk. lia.
  - cbn [app word_sum]. apply IH; [cbn in Hl; lia|]. destruct He as [k Hk]. exists (k - 1)%nat. cbn in Hk. lia.
Qed.

Lemma complement16 x : sum16 x → Z.lxor x 0xffff = 65535 - x.
Proof.
  intros Hx. change 0xffff with (Z.ones 16). set (y := Z.lxor x (Z.ones 16)).
  assert (Z.land x y = 0) as Hl.
  { apply Z.bits_inj'. intros i Hi. rewrite Z.land_spec, Z.bits_0. subst y. rewrite Z.lxor_spec. destruct (Z.lt_ge_cases i 16) as [Hlt|Hge].
    - rewrite Z.ones_spec_low by lia. by destruct (Z.testbit x i).
    - rewrite (Z.bits_above_log2 x i); [done|apply Hx|]. destruct (decide (x = 0)) as [->|Hne]; [cbn; lia|]. apply Z.log2_lt_pow2; [unfold sum16 in Hx; lia|].
      eapply Z.lt_le_trans; [apply Hx|]. apply Z.pow_le_mono_r; lia. }
  pose proof (Z.add_nocarry_lxor x y Hl) as Ha. subst y. rewrite <- Z.lxor_assoc, Z.lxor_nilpotent, Z.lxor_0_l in Ha. change (Z.ones 16) with 65535 in *. lia.
Qed.

(** The checksum in its place makes the header sum up to nothing. *)
Lemma checksum_verifies a b :
  Nat.Even (length a) → Forall in_u8 a → Forall in_u8 b → (length a + length b <= 1000)%nat →
  ∃ c, checksum (a ++ [0; 0] ++ b) = Some c ∧ in_u16 c ∧ checksum (a ++ [Z.shiftr c 8; Z.land c 0xff] ++ b) = Some 0.
Proof.
  intros He Ha Hb Hl. destruct (word_sum_add a 0) as [_ Hra]; [lia|done|lia|]. set (sa := word_sum a 0) in *.
  assert (∀ x y, 0 <= x * 256 + y < 2 ^ 16 → word_sum (a ++ [x; y] ++ b) 0 = sa + (x * 256 + y) + word_sum b 0) as Hsum.
  { intros x y Hxy. rewrite word_sum_app by done. fold sa. cbn [app word_sum]. rewrite u32_wrap_id by (unfold in_u32; lia).
    destruct (word_sum_add b (sa + (x * 256 + y))) as [-> _]; [lia|done|lia|]. done. }
  destruct (word_sum_add b 0) as [_ Hrb]; [lia|done|lia|]. set (S := sa + word_sum b 0) in *.
  unfold checksum. rewrite (Hsum 0 0) by lia. replace (sa + (0 * 256 + 0) + word_sum b 0) with S by (subst S; lia).
  destruct (fold_carry_spec S) as (r & -> & Hr & Hrm & Hpos & Hzero); [subst S; lia|]. cbn [mbind option_bind].
  rewrite (u16_wrap_id r) by exact Hr. rewrite complement16 by done. eexists. split; [reflexivity|]. unfold sum16 in Hr.
  split; [unfold in_u16; lia|]. rewrite Z.shiftr_div_pow2 by lia. change 0xff with (Z.ones 8). rewrite Z.land_ones by lia. set (c := 65535 - r) in *.
  pose proof (Z.div_mod c (2 ^ 8) ltac:(lia)) as Hc. rewrite Hsum by lia.
  destruct (fold_carry_spec (sa + (c / 2 ^ 8 * 256 + c mod 2 ^ 8) + word_sum b 0)) as (r' & -> & Hr' & Hrm' & Hpos' & _); [subst S c; lia|]. cbn [mbind option_bind].
  assert (sa + (c / 2 ^ 8 * 256 + c mod 2 ^ 8) + word_sum b 0 = S + c) as Heq by (subst S; lia). rewrite Heq in *. unfold sum16 in Hr'.
  assert ((S + c) mod 65535 = 0) as Hz.
  { subst c. replace (S + (65535 - r)) with (S - r + 1 * 65535) by lia. rewrite Z_mod_plus_full, Zminus_mod, Hrm, Z.sub_diag. done. }
  assert (r' = 65535) as ->.
  { rewrite Hz in Hrm'. assert (0 < r') as Hp by (apply Hpos'; subst c; destruct (decide (S = 0)) as [Hs0|]; [specialize (Hzero Hs0)|]; lia).
    apply Z.mod_divide in Hrm' as [k Hk]; [|lia]. assert (k = 1) by lia. lia. }
  done.
Qed.

(** A frame as the parsers return it: addresses of the right length, made of bytes. *)
Definition frame_ok (f : Frame) : Prop :=
  length (f_dst_mac f) = 6%nat ∧ length (f_src_mac f) = 6%nat ∧ length (f_src_ip f) = 4%nat ∧ length (f_dst_ip f) = 4%nat
  ∧ Forall in_u8 (f_src_ip f) ∧ Forall in_u8 (f_dst_ip f) ∧ in_u16 (f_src_port f) ∧ in_u16 (f_dst_port f).

(** Source and destination exchanged. *)
Definition answer_to (f : Frame) (n : nat) : Frame :=
  mkFrame (f_src_mac f) (f_dst_mac f) (f_dst_ip f) (f_src_ip f) (f_dst_port f) (f_src_port f) 42 n.

Lemma frame_layout dst_mac src_mac dst_ip src_ip dport sport (payload : list Z) :
  in_u16 (28 + Z.of_nat (length payload)) →
  eth_ip_udp_header dst_mac src_mac dst_ip src_ip dport sport (length payload) ++ payload
  = dst_mac ++ src_mac ++ [0x08; 0x00] ++ [0x45; 0] ++ be_bytes 2 (28 + Z.of_nat (length payload)) ++ [0; 0; 0; 0] ++ [64; 17] ++ [0; 0] ++ src_ip ++ dst_ip
    ++ be_bytes 2 sport ++ be_bytes 2 dport ++ be_bytes 2 (8 + Z.of_nat (length payload)) ++ [0; 0] ++ payload.
Proof.
  intros Hl. unfold eth_ip_udp_header. unfold in_u16 in Hl. rewrite (u16_wrap_id (8 + _)) by (unfold in_u16; lia).
  replace (20 + (8 + Z.of_nat (length payload))) with (28 + Z.of_nat (length payload)) by lia. rewrite u16_wrap_id by done.
  by rewrite <- !app_assoc.
Qed.

(** The frame of a reply, with its checksum [c]. *)
Definition reply_bytes (f : Frame) (payload : list Z) (c : Z) : list Z :=
  f_src_mac f ++ f_dst_mac f ++ [0x08; 0x00] ++ [0x45; 0] ++ be_bytes 2 (28 + Z.of_nat (length payload)) ++ [0; 0; 0; 0] ++ [64; 17]
  ++ [Z.shiftr c 8; Z.land c 0xff] ++ f_dst_ip f ++ f_src_ip f ++ be_bytes 2 (f_dst_port f) ++ be_bytes 2 (f_src_port f)
  ++ be_bytes 2 (8 + Z.of_nat (length payload)) ++ [0; 0] ++ payload.

Lemma tx_reply_bytes f payload tailroom :
  frame_ok f → Z.of_nat (42 + length payload) < 2 ^ 16 → (42 + length payload <= tailroom)%nat →
  ∃ c, tx_reply true tailroom true f payload = Some (inr (reply_bytes f payload c)) ∧ checksum (slice 14 34 (reply_bytes f payload c)) = Some 0.
Proof.
  intros (H1 & H2 & H3 & H4 & Hb1 & Hb2 & Hp1 & Hp2) Hmax Hroom. unfold tx_reply, reply_bytes. set (n := length payload) in *. cbn zeta.
  rewrite u16_wrap_id by (unfold in_u16; lia). rewrite Nat2Z.id.
  unfold tx_frame_from. cbn [negb]. rewrite (proj2 (Nat.ltb_ge _ _)) by lia. unfold build_reply. fold n. rewrite Nat.eqb_refl. cbn [negb]. cbn zeta.
  replace (Z.of_nat (14 + 20 + 8 + n - 14)) with (28 + Z.of_nat n) by lia. rewrite !u16_wrap_id by (unfold in_u16; lia).
  set (ip0 := [0x45; 0] ++ _). destruct (checksum_verifies ip0 (f_dst_ip f ++ f_src_ip f)) as (c & -> & Hc & Hck).
  { exists 5%nat. subst ip0. rewrite !length_app, length_be_bytes. done. }
  { subst ip0. rewrite !Forall_app. split_and!; [|unfold be_bytes; apply Forall_rev, le_bytes_u8| |];
      repeat (apply Forall_cons_2; [unfold in_u8; lia|]); apply Forall_nil_2. }
  { by apply Forall_app. }
  { subst ip0. rewrite !length_app, length_be_bytes, H3, H4. cbn. lia. }
  cbn [mbind option_bind]. rewrite (proj2 (Nat.eqb_neq _ 0)), (proj2 (Nat.ltb_ge _ _)) by lia. cbn [orb]. exists c. split.
  - rewrite take_ge; [subst ip0; by rewrite <- !app_assoc|]. subst ip0. rewrite !length_app, !length_be_bytes, H1, H2, H3, H4. cbn. lia.
  - rewrite <- Hck. f_equal. rewrite slice_app_skip, H2 by lia. rewrite slice_app_skip, H1 by lia. rewrite slice_app_skip by done.
    cbn [length Nat.sub]. subst ip0. rewrite <- !app_assoc.
    assert (∀ a b c d g h k r : list Z, a ++ b ++ c ++ d ++ g ++ h ++ k ++ r = (a ++ b ++ c ++ d ++ g ++ h ++ k) ++ r) as -> by (intros; by rewrite <- !app_assoc).
    apply slice_app_here. rewrite !length_app, length_be_bytes, H3, H4. done.
Qed.

Lemma reply_parsed f payload c stale :
  frame_ok f → Z.of_nat (42 + length payload) < 2 ^ 16 →
  let m := mkMbuf (reply_bytes f payload c ++ stale) (length (reply_bytes f payload c)) in
  parse_frame m = Some (Some (answer_to f (length payload))) ∧ frame_payload m (answer_to f (length payload)) = Some payload.
Proof. intros (H1 & H2 & H3 & H4 & Hb1 & Hb2 & Hp1 & Hp2) Hmax. by apply parse_written; try done; unfold in_u16; lia. Qed.

(** C33.  Every frame written is read back.  A header of [eth_ip_udp_header] with a
    payload behind it, whatever follows in the data room, parses to the same
    addresses, ports and payload.  A reply of [tx_reply] that fits into a buffer is
    sent, parses to the addresses of the request with source and destination
    exchanged and to the payload, and its IPv4 header checksum verifies. *)
Theorem frame_roundtrip f payload stale tailroom :
  frame_ok f → Z.of_nat (42 + length payload) < 2 ^ 16 → (42 + length payload <= tailroom)%nat →
  (let fr := eth_ip_udp_header (f_dst_mac f) (f_src_mac f) (f_dst_ip f) (f_src_ip f) (f_dst_port f) (f_src_port f) (length payload) ++ payload in
   let m := mkMbuf (fr ++ stale) (length fr) in
   ∃ g, parse_frame m = Some (Some g) ∧ frame_payload m g = Some payload
     ∧ g = mkFrame (f_dst_mac f) (f_src_mac f) (f_src_ip f) (f_dst_ip f) (f_src_port f) (f_dst_port f) 42 (length payload))
  ∧ ∃ fr, tx_reply true tailroom true f payload = Some (inr fr)
      ∧ (let m := mkMbuf (fr ++ stale) (length fr) in
         parse_frame m = Some (Some (answer_to f (length payload))) ∧ frame_payload m (answer_to f (length payload)) = Some payload)
      ∧ checksum (slice 14 34 fr) = Some 0.
Proof.
  intros Hf Hmax Hroom. pose proof Hf as (H1 & H2 & H3 & H4 & Hb1 & Hb2 & Hp1 & Hp2). split.
  - cbv zeta. rewrite frame_layout by (unfold in_u16; lia). eexists. split_and!; [| |reflexivity].
    + by apply parse_written; try done; unfold in_u16; lia.
    + by apply parse_written; try done; unfold in_u16; lia.
  - destruct (tx_reply_bytes f payload tailroom Hf Hmax Hroom) as (c & Htx & Hck). eexists. split_and!; [exact Htx| |exact Hck].
    by apply reply_parsed.
Qed.

(** A frame that fits is sent as it is; one that does not is refused, unless its length wraps. *)
Lemma tx_frame_sent tailroom fr : (length fr <= tailroom)%nat → Z.of_nat (length fr) < 2 ^ 16 → tx_frame true tailroom true fr = Some (inr fr).
Proof.
  intros Hr Hl. unfold tx_frame. rewrite u16_wrap_id, Nat2Z.id by (unfold in_u16; lia). cbn [negb]. rewrite !(proj2 (Nat.ltb_ge _ _)) by lia. by rewrite take_ge by lia.
Qed.

(** ** pcap files *)

(** One record: seconds, microseconds, the frame. *)
Record pcap_rec := mkRec { r_sec : Z; r_usec : Z; r_frame : list Z }.

Definition pcap_global (snaplen : Z) : list Z :=
  le_bytes 4 0xa1b2c3d4 ++ le_bytes 2 2 ++ le_bytes 2 4 ++ le_bytes 4 0 ++ le_bytes 4 0 ++ le_bytes 4 snaplen ++ le_bytes 4 1.

Definition pcap_record (r : pcap_rec) : list Z :=
  let n := u32_wrap (Z.of_nat (length (r_frame r))) in
  le_bytes 4 (u32_wrap (r_sec r)) ++ le_bytes 4 (u32_wrap (r_usec r)) ++ le_bytes 4 n ++ le_bytes 4 n ++ r_frame r.

Definition pcap_file (snaplen : Z) (rs : list pcap_rec) : list Z := pcap_global snaplen ++ concat (pcap_record <$> rs).

(** What a reader of the format finds: the frames of the records, in order. *)
Fixpoint pcap_records (fuel : nat) (bs : list Z) : list (list Z) :=
  match fuel with
  | O => []
  | S fuel =>
      if (length bs <? 16)%nat then []
      else let n := Z.to_nat (le_val (slice 8 12 bs)) in slice 16 (16 + n) bs :: pcap_records fuel (drop (16 + n) bs)
  end.

Definition pcap_frames (bs : list Z) : list (list Z) :=
  if (24 <=? length bs)%nat && (le_val (slice 0 4 bs) =? 0xa1b2c3d4) && (le_val (slice 20 24 bs) =? 1) then pcap_records (length bs) (drop 24 bs) else [].

Lemma pcap_records_spec rs : ∀ fuel,
  Forall (λ r, Z.of_nat (length (r_frame r)) < 2 ^ 32) rs → (length (concat (pcap_record <$> rs)) < fuel)%nat →
  pcap_records fuel (concat (pcap_record <$> rs)) = r_frame <$> rs.
Proof.
  induction rs as [|r rs IH]; intros [|fuel] Hr Hf; [done|done|cbn in Hf; lia|]. apply Forall_cons in Hr as [Hlen Hr].
  cbn [fmap list_fmap concat] in *. set (rest := concat _) in *.
  assert (pcap_record r ++ rest = (le_bytes 4 (u32_wrap (r_sec r)) ++ le_bytes 4 (u32_wrap (r_usec r))) ++ le_bytes 4 (Z.of_nat (length (r_frame r)))
    ++ le_bytes 4 (Z.of_nat (length (r_frame r))) ++ r_frame r ++ rest) as Heq.
  { unfold pcap_record. rewrite (u32_wrap_id (Z.of_nat _)) by (unfold in_u32; lia). by rewrite <- !app_assoc. }
  assert (length (pcap_record r) = (16 + length (r_frame r))%nat) as Hl by (unfold pcap_record; rewrite !length_app, !length_le_bytes; lia).
  rewrite length_app, Hl in Hf. cbn [pcap_records]. rewrite (proj2 (Nat.ltb_ge _ _)) by (rewrite length_app, Hl; lia).
  assert (slice 8 12 (pcap_record r ++ rest) = le_bytes 4 (Z.of_nat (length (r_frame r)))) as ->.
  { rewrite Heq, slice_app_skip by (rewrite length_app, !length_le_bytes; lia). rewrite length_app, !length_le_bytes. by apply slice_app_here. }
  rewrite le_val_u32, Nat2Z.id by (unfold in_u32; lia). f_equal.
  - unfold pcap_record. cbv zeta. rewrite 3!app_assoc, <- app_assoc. rewrite slice_app_skip by (rewrite !length_app, !length_le_bytes; lia).
    rewrite !length_app, !length_le_bytes. apply slice_app_here. lia.
  - rewrite <- Hl, drop_app_length. apply IH; [done|lia].
Qed.

Lemma pcap_file_frames snaplen rs : Forall (λ r, Z.of_nat (length (r_frame r)) < 2 ^ 32) rs → pcap_frames (pcap_file snaplen rs) = r_frame <$> rs.
Proof.
  intros Hr. unfold pcap_frames, pcap_file. assert (length (pcap_global snaplen) = 24%nat) as Hg by done.
  rewrite length_app, Hg, (proj2 (Nat.leb_le _ _)) by lia. change (slice 0 4 _) with (le_bytes 4 0xa1b2c3d4). change (slice 20 24 _) with (le_bytes 4 1).
  rewrite !le_val_bytes. cbn [andb Z.eqb]. change (drop 24 _) with (concat (pcap_record <$> rs)). apply pcap_records_spec; [done|lia].
Qed.

Module Witness.

(** A datagram of three bytes, in rooms that held different packets. *)
Definition f0 : Frame := mkFrame [2; 0; 0; 0; 0; 9] [2; 0; 0; 0; 0; 1] [10; 0; 0; 1] [10; 0; 0; 2] 40000 9000 42 3.
Definition fr0 : list Z := eth_ip_udp_header (f_dst_mac f0) (f_src_mac f0) (f_dst_ip f0) (f_src_ip f0) 9000 40000 3 ++ [7; 8; 9].
Definition m0 (stale : Z) : mbuf := mkMbuf (fr0 ++ replicate 80 stale) (length fr0).

Lemma frame_parse_safe_witness :
  ∃ r, parse_frame (m0 1) = Some r ∧ parse_frame (m0 2) = Some r ∧ udp_payload (m0 1) = Some (Some (42%nat, 3%nat)).
Proof.
  destruct (frame_parse_safe (m0 1) (m0 2)) as (r & H1 & H2 & H3 & _); [split; vm_compute; lia|split; vm_compute; lia|split; vm_compute; reflexivity|].
  exists r. split; [exact H1|]. split; [exact H3|vm_compute; reflexivity].
Defined.

Lemma frame_roundtrip_witness :
  ∃ fr, tx_reply true 2048 true f0 [7; 8; 9] = Some (inr fr) ∧ checksum (slice 14 34 fr) = Some 0.
Proof.
  destruct (frame_roundtrip f0 [7; 8; 9] [] 2048) as (_ & fr & H1 & _ & H2).
  - repeat split; repeat constructor; unfold in_u8, in_u16; cbn; lia.
  - vm_compute. reflexivity.
  - cbn. lia.
  - exists fr. split; [exact H1|exact H2].
Defined.

(** A frame of 65536 bytes and more passes the check of its wrapped length and is
    copied past the end of the buffer. *)
Example long_frame_overruns : tx_frame true (Z.to_nat 2176) true (replicate (Z.to_nat 65600) 0) = None.
Proof. vm_compute. reflexivity. Qed.

(** A header length below 20 bytes is accepted: the ports are read from the IPv4 header. *)
Example short_ihl_accepted :
  match parse_frame (mkMbuf (<[14%nat := 0x44]> (<[36%nat := 0]> (<[35%nat := 11]> (<[34%nat := 0]> (m_room (m0 1)))))) 45) with
  | Some (Some f) => f_payload_off f | _ => 0%nat
  end = 38%nat.
Proof. vm_compute. reflexivity. Qed.

End Witness.
