(* ===== verification/DpdkApps.v ===== *)
(** * match-dpdk-io: the programs on frames

    Models what the programs of [crates/match-dpdk-io/src/bin] compute on the frames
    the driver hands them: the pcap generator, the publisher and the verifying
    receiver of MoldUDP64 ([mold_dpdk_gen_pcap.rs], [mold_dpdk_tx.rs],
    [mold_dpdk_rx.rs]), the SoupBinTCP replay ([mold_soup_dpdk.rs]) and the order
    gateway on a tap device ([dpdk_tap_order.rs]).  The driver, its pool and the clock
    are arguments: the bursts received, whether a frame can be sent, the time.  A panic
    or a read outside of a buffer is [None]. *)
From stdpp Require Import gmap.
From S2P Require Import Prelude Decimal Protocol CoreBook CoreMatch CoreEngine HpScale UdpOrder Utf8 Gateway Mold Soup Ouch Frames.

#[local] Open Scope Z_scope.

(** ** MoldUDP64 frames *)

Definition MCAST_MAC : list Z := [0x01; 0x00; 0x5e; 0x00; 0xff; 0x01].
Definition SRC_MAC : list Z := [0x02; 0x00; 0x00; 0x00; 0x00; 0x01].
Definition MCAST_IP : list Z := [239; 0; 255; 1].
Definition SRC_IP : list Z := [10; 0; 0; 1].
Definition MATCH_RUST : list Z := bytes_of "MATCH_RUST".

(** The closure [packet] of [mold_dpdk_gen_pcap.rs]. *)
Definition gen_packet (first_seq : Z) (msgs : list (list Z)) : list Z :=
  let mold_body := downstream_packet MATCH_RUST first_seq msgs in
  let udp_len := 8 + Z.of_nat (length mold_body) in
  MCAST_MAC ++ SRC_MAC ++ [0x08; 0x00] ++ [0x45] ++ [0] ++ be_bytes 2 (u16_wrap (20 + udp_len)) ++ [0; 0; 0; 0] ++ [64] ++ [17]
  ++ [0; 0] ++ SRC_IP ++ MCAST_IP ++ be_bytes 2 50000 ++ be_bytes 2 50000 ++ be_bytes 2 (u16_wrap udp_len) ++ [0; 0] ++ mold_body.

Definition gen_frames : list (list Z) :=
  [gen_packet 1 [bytes_of "m1"]; gen_packet 2 [bytes_of "m2"]; gen_packet 3 [bytes_of "m3"]; gen_packet 4 [];
   gen_packet 5 [bytes_of "m5"; bytes_of "m6"]].

(** The file, a second between the records. *)
Definition gen_pcap : list Z :=
  pcap_file 262144 (imap (λ i f, mkRec (1700000000 + Z.of_nat i) 0 f) gen_frames).

(** The closure [mk_frame] of [mold_dpdk_tx.rs]. *)
Definition mk_frame (first_seq : Z) (msgs : list (list Z)) : list Z :=
  let mold_body := downstream_packet MATCH_RUST first_seq msgs in
  eth_ip_udp_header MCAST_MAC SRC_MAC MCAST_IP SRC_IP 50000 50000 (length mold_body) ++ mold_body.

Definition tx_frames : list (list Z) :=
  [mk_frame 1 [bytes_of "a"; bytes_of "b"]; mk_frame 3 [bytes_of "c"]; mk_frame 4 []].

(** The frames are sent one after the other; an error ends the program. *)
Fixpoint tx_all (alloc : bool) (tailroom : nat) (queued : bool) (frames : list (list Z)) : option (TxError + list (list Z)) :=
  match frames with
  | [] => Some (inr [])
  | f :: frames =>
      r ← tx_frame alloc tailroom queued f;
      match r with
      | inl e => Some (inl e)
      | inr sent => r ← tx_all alloc tailroom queued frames; Some (match r with inl e => inl e | inr l => inr (sent :: l) end)
      end
  end.

(** ** [mold_dpdk_rx.rs] *)

Record Rx := mkRx {
  rx_sub : MoldSubscriber; rx_packets_seen : Z; rx_total_msgs : Z; rx_gaps : list (Z * Z); rx_seqs : list Z }.

Definition rx_new : Rx := mkRx (subscriber_new MATCH_RUST false) 0 0 [] [].

(** What is counted of one parsed packet. *)
Definition rx_count (r : Rx) (out : ParseOutcome) (sub : MoldSubscriber) : Rx :=
  if po_is_heartbeat out then mkRx sub (rx_packets_seen r + 1) (rx_total_msgs r) (rx_gaps r) (rx_seqs r)
  else
    mkRx sub (rx_packets_seen r + 1) (rx_total_msgs r + Z.of_nat (length (po_messages out)))
      (rx_gaps r ++ match po_gap out with Some g => [(gap_expected g, gap_lost g)] | None => [] end)
      (rx_seqs r ++ (po_messages out).*1).

(** One buffer of a burst; every buffer is freed. *)
Definition rx_frame (r : Rx) (m : mbuf) : option Rx :=
  p ← udp_payload m;
  match p with
  | None => Some r
  | Some (off, len) =>
      slice ← read_bytes (mtod m) off len;
      '(out, sub) ← parse_packet (rx_sub r) slice;
      Some (rx_count r out sub)
  end.

Fixpoint rx_loop (r : Rx) (ms : list mbuf) : option Rx :=
  match ms with [] => Some r | m :: ms => r ← rx_frame r m; rx_loop r ms end.

(** The assertions of the two scenarios. *)
Definition rx_verify_input (r : Rx) : bool :=
  (rx_packets_seen r =? 5) && (rx_total_msgs r =? 5) && bool_decide (rx_seqs r = [1; 2; 3; 5; 6])
  && bool_decide (rx_gaps r = [(4, 1)]) && bool_decide (sub_last_seq (rx_sub r) = Some 6).

Definition rx_verify_output (r : Rx) : bool :=
  (rx_packets_seen r =? 3) && (rx_total_msgs r =? 3) && bool_decide (rx_seqs r = [1; 2; 3])
  && bool_decide (rx_gaps r = []) && bool_decide (sub_last_seq (rx_sub r) = Some 3).

(** ** [mold_soup_dpdk.rs] *)

Definition SESSION : list Z := bytes_of "SESSION-A".

Definition accepted_report (now : Z) (i : Z) : list Z :=
  encode_accepted (mkAccepted now (bytes_of "ORD-" ++ (code <$> zero_padded 6 i)) 66 100 (bytes_of "AAPL") 1955000 99998
                     (bytes_of "ABCD") 89 (1000000 + i) 76).

Definition soup_datagram (pkt : Packet) (src_port dst_port : Z) : list Z :=
  let soup := to_bytes pkt in
  let total_len := u16_wrap (20 + 8 + Z.of_nat (length soup)) in
  [0x00; 0x11; 0x22; 0x33; 0x44; 0x55; 0x66; 0x77; 0x88; 0x99; 0xaa; 0xbb; 0x08; 0x00]
  ++ [0x45] ++ [0x00] ++ be_bytes 2 total_len ++ [0; 0; 0; 0] ++ [64] ++ [17] ++ [0; 0] ++ [10; 0; 0; 1] ++ [10; 0; 0; 2]
  ++ be_bytes 2 src_port ++ be_bytes 2 dst_port ++ be_bytes 2 (u16_wrap (8 + Z.of_nat (length soup))) ++ [0; 0] ++ soup.

(** [write_pcap]: the length also stands for the times. *)
Definition write_pcap (frames : list (list Z)) : list Z :=
  pcap_file 65535 ((λ f, mkRec (Z.of_nat (length f)) (Z.of_nat (length f)) f) <$> frames).

(** The packets replayed: a login, then one report a frame; [now i] is the clock. *)
Definition soup_packets (now : nat → Z) (frames_n : nat) : list Packet :=
  login_accepted SESSION 1 :: ((λ i, mkPacket SEQUENCED_DATA (accepted_report (now i) (Z.of_nat i))) <$> seq 0 frames_n).

Definition soup_frames (now : nat → Z) (frames_n : nat) : list (list Z) := (λ p, soup_datagram p 10000 20000) <$> soup_packets now frames_n.

Record Replay := mkReplay { rp_client : SoupClient; rp_packets_seen : Z; rp_seq_reports : Z; rp_login_ok : bool }.

Definition replay_new : Replay := mkReplay (soup_client_new SESSION) 0 0 false.

(** One packet of the replay; an error of the session ends the program. *)
Definition replay_packet (now_ns : Z) (r : Replay) (pkt : Packet) : option Replay :=
  let handled (k : SoupClient → Replay) :=
    match client_handle_packet (rp_client r) pkt now_ns with (c, inr _) => Some (k c) | (_, inl _) => None end in
  let seen := rp_packets_seen r + 1 in
  if packet_type pkt =? LOGIN_ACCEPTED then
    handled (λ c, mkReplay c seen (rp_seq_reports r) (la_sequence (parse_login_accepted pkt) =? 1))
  else if packet_type pkt =? SEQUENCED_DATA then handled (λ c, mkReplay c seen (rp_seq_reports r + 1) (rp_login_ok r))
  else Some (mkReplay (rp_client r) seen (rp_seq_reports r) (rp_login_ok r)).

Fixpoint replay_packets (now_ns : Z) (r : Replay) (pkts : list Packet) : option Replay :=
  match pkts with [] => Some r | p :: pkts => r ← replay_packet now_ns r p; replay_packets now_ns r pkts end.

Definition replay_frame (now_ns : Z) (r : Replay) (m : mbuf) : option Replay :=
  p ← udp_payload m;
  match p with
  | None => Some r
  | Some (off, len) => slice ← read_bytes (mtod m) off len; replay_packets now_ns r (parse_stream slice).1.1
  end.

Fixpoint replay_loop (now_ns : Z) (r : Replay) (ms : list mbuf) : option Replay :=
  match ms with [] => Some r | m :: ms => r ← replay_frame now_ns r m; replay_loop now_ns r ms end.

(** The closing assertions. *)
Definition replay_pass (total_reports : nat) (r : Replay) : bool :=
  rp_login_ok r && (cl_expected_seq (rp_client r) =? 1 + Z.of_nat total_reports) && (rp_seq_reports r =? Z.of_nat total_reports).

(** ** [dpdk_tap_order.rs] *)

Section Tap.
Context `{BD : BigDecimal}.

(** [tap_held] counts the buffers received and not given back to the pool. *)
Record Tap := mkTap {
  tap_srv : ServerSession; tap_engine : Engine; tap_processed : Z; tap_frames : Z; tap_mac : option (list Z); tap_held : nat }.

Definition tap_new : Tap := mkTap (udp_server_new (Z.to_nat (Z.shiftl 1 15))) engine_new 0 0 None 0.

(** [for e in &evs2 { .. }]: the buffer [rp] is cleared before each report. *)
Fixpoint tap_reports (srv : ServerSession) (rp : list Z) (cli_seq : Z) (evs : list MatchEvent) :
    ServerSession * list Z * list (list Z) :=
  match evs with
  | [] => (srv, rp, [])
  | ev :: evs =>
      let rp := report_text ev in
      let '(srv, out) := ack_and_report srv cli_seq rp in
      let '(srv, rp, out') := tap_reports srv rp cli_seq evs in
      (srv, rp, out ++ out')
  end.

(** [ServerEvent::Order]: the session, the engine, the count, the buffer and the
    replies.  Without events the report is appended to the buffer, which holds what
    an earlier order of the same datagram left in it. *)
Definition tap_on_order (srv : ServerSession) (engine : Engine) (processed : Z) (rp : list Z) (cli_seq : Z) (body : list Z) :
    option (ServerSession * Engine * Z * list Z * list (list Z)) :=
  match parse_order body with
  | Some (mq, no) =>
      bb ← type_convert_spot mq;
      '(evs2, engine) ← CoreEngine.on_order engine bb;
      let '(srv, rp, out) :=
        match evs2 with
        | [] => let rp := rp ++ accepted_text no in
                let '(srv, out) := ack_and_report srv cli_seq rp in (srv, rp, out)
        | _ => tap_reports srv rp cli_seq evs2
        end in
      Some (srv, engine, processed + 1, rp, out)
  | None => Some (srv, engine, processed, rp, reject_order srv cli_seq)
  end.

Fixpoint tap_on_events (srv : ServerSession) (engine : Engine) (processed : Z) (rp : list Z) (evs : list ServerEvent) :
    option (ServerSession * Engine * Z * list (list Z)) :=
  match evs with
  | [] => Some (srv, engine, processed, [])
  | SvOrder cli_seq body :: evs =>
      '(srv, engine, processed, rp, out) ← tap_on_order srv engine processed rp cli_seq body;
      '(srv, engine, processed, out') ← tap_on_events srv engine processed rp evs;
      Some (srv, engine, processed, out ++ out')
  | _ :: evs => tap_on_events srv engine processed rp evs
  end.

(** One buffer of a burst: the replies with the frame they answer.  A buffer that is
    not an order frame is skipped with [continue], past the call that frees it. *)
Definition tap_frame (t : Tap) (m : mbuf) : option (Tap * list (Frame * list Z)) :=
  r ← parse_frame m;
  match r with
  | None => Some (mkTap (tap_srv t) (tap_engine t) (tap_processed t) (tap_frames t + 1) (tap_mac t) (S (tap_held t)), [])
  | Some f =>
      let mac := match tap_mac t with Some mac => Some mac | None => Some (f_dst_mac f) end in
      payload ← frame_payload m f;
      let '(srv, evs, outs) := server_on_datagram (tap_srv t) payload in
      '(srv, engine, processed, replies) ← tap_on_events srv (tap_engine t) (tap_processed t) [] evs;
      Some (mkTap srv engine processed (tap_frames t) mac (tap_held t), pair f <$> outs ++ replies)
  end.

Fixpoint tap_burst (t : Tap) (ms : list mbuf) : option (Tap * list (Frame * list Z)) :=
  match ms with
  | [] => Some (t, [])
  | m :: ms => '(t, out) ← tap_frame t m; '(t, out') ← tap_burst t ms; Some (t, out ++ out')
  end.

Inductive tap_result := TapRunning (t : Tap) | TapStopped (t : Tap).

(** The loop over the bursts received, with the time since the start after each; an
    empty burst goes straight to the next poll.  [expect] is [EXPECT], [idle] the
    watchdog's seconds. *)
Fixpoint tap_main (expect : option Z) (idle : Z) (t : Tap) (polls : list (list mbuf * Z)) :
    option (tap_result * list (Frame * list Z)) :=
  match polls with
  | [] => Some (TapRunning t, [])
  | ([], _) :: polls => tap_main expect idle t polls
  | (ms, elapsed) :: polls =>
      '(t, out) ← tap_burst t ms;
      if match expect with Some e => e <=? tap_processed t | None => false end then Some (TapStopped t, out)
      else if idle * 10 ^ 9 <? elapsed then Some (TapStopped t, out)
      else '(r, out') ← tap_main expect idle t polls; Some (r, out ++ out')
  end.

End Tap.
