(* ===== verification/DpdkProps.v ===== *)
(** * match-dpdk-io: the programs do what they verify

    The order gateway on frames answers every datagram as the one on sockets does; the
    verifying receivers pass on what their generators write, for the SoupBinTCP replay
    at every size. *)
From stdpp Require Import gmap.
From S2P Require Import Prelude Decimal Protocol CoreBook CoreMatch CoreEngine HpScale UdpOrder Utf8 Gateway GatewayProps Mold Soup SoupProps Ouch Frames DpdkApps.

#[local] Open Scope Z_scope.

(** ** The gateway *)

Section Tap.
Context `{BD : BigDecimal}.
Implicit Types (t : Tap) (g : Gateway) (m : mbuf).

Lemma tap_reports_gateway evs : ∀ srv rp cli_seq,
  (tap_reports srv rp cli_seq evs).1.1 = (report_events srv cli_seq evs).1 ∧ (tap_reports srv rp cli_seq evs).2 = (report_events srv cli_seq evs).2.
Proof.
  induction evs as [|ev evs IH]; intros srv rp cli_seq; cbn [tap_reports report_events]; [done|].
  destruct (ack_and_report srv cli_seq (report_text ev)) as [srv1 out]. destruct (IH srv1 (report_text ev) cli_seq) as [H1 H2].
  destruct (tap_reports srv1 _ cli_seq evs) as [[srv2 rp2] out2], (report_events srv1 cli_seq evs) as [srv3 out3]. cbn in *. by subst.
Qed.

(** Session, engine and count of orders are those of the socket gateway. *)
Definition tap_agrees t g : Prop := tap_srv t = gw_srv g ∧ tap_engine t = gw_engine g ∧ tap_processed t = gw_processed g.

Lemma tap_order_gateway srv engine processed cli_seq body g :
  gw_srv g = srv → gw_engine g = engine → gw_processed g = processed →
  match tap_on_order srv engine processed [] cli_seq body, gw_on_order g cli_seq body with
  | Some (srv', engine', processed', _, out), Some (g', out') =>
      gw_srv g' = srv' ∧ gw_engine g' = engine' ∧ gw_processed g' = processed' ∧ out = out'
  | None, None => True
  | _, _ => False
  end.
Proof.
  intros <- <- <-. unfold tap_on_order, gw_on_order. destruct (parse_order body) as [[mq no]|]; [|done].
  destruct (type_convert_spot mq) as [bb|]; [|done]. cbn [mbind option_bind].
  destruct (CoreEngine.on_order (gw_engine g) bb) as [[evs2 e2]|]; [|done]. cbn [mbind option_bind].
  destruct evs2 as [|ev evs2]; cbn [report_events app].
  - by destruct (ack_and_report (gw_srv g) cli_seq (accepted_text no)) as [srv1 out1].
  - destruct (tap_reports_gateway (ev :: evs2) (gw_srv g) [] cli_seq) as [H1 H2]. cbn [report_events] in *.
    destruct (tap_reports _ _ _ _) as [[srv1 rp1] out1]. destruct (ack_and_report _ _ _) as [srv2 out2].
    destruct (report_events srv2 cli_seq evs2) as [srv3 out3]. cbn in *. subst. by rewrite app_nil_r.
Qed.

(** A datagram holds one event at most. *)
Lemma server_events_short s dg : (length (server_on_datagram s dg).1.2 <= 1)%nat.
Proof.
  unfold server_on_datagram. destruct (decode dg) as [[h payload]|]; [|cbn; lia].
  destruct (_ || _ || _).
  - unfold on_order. repeat case_match; simplify_eq; cbn; lia.
  - repeat case_match; cbn; lia.
Qed.

Lemma tap_payload_gateway t g f m payload :
  tap_agrees t g → parse_frame m = Some (Some f) → frame_payload m f = Some payload →
  match tap_frame t m, gw_on_datagram g payload with
  | Some (t', out), Some (g', out') => tap_agrees t' g' ∧ out = pair f <$> out' ∧ tap_held t' = tap_held t
  | None, None => True
  | _, _ => False
  end.
Proof.
  intros (Hs & He & Hp) Hparse Hpl. unfold tap_frame, gw_on_datagram. rewrite Hparse. cbn [mbind option_bind]. rewrite Hpl. cbn [mbind option_bind].
  rewrite Hs. pose proof (server_events_short (gw_srv g) payload) as Hshort.
  destruct (server_on_datagram (gw_srv g) payload) as [[srv evs] outs]. cbn [fst snd] in Hshort.
  set (g1 := mkGateway srv (gw_engine g) (gw_processed g) (gw_fills g) _). rewrite He, Hp.
  destruct evs as [|ev [|? ?]]; [by cbn; rewrite !app_nil_r| |cbn in Hshort; lia].
  destruct ev; try (by cbn; rewrite !app_nil_r). cbn [tap_on_events gw_on_events].
  pose proof (tap_order_gateway srv (gw_engine g) (gw_processed g) client_seq msg g1 eq_refl eq_refl eq_refl) as Ho.
  destruct (tap_on_order _ _ _ _ _ _) as [[[[[srv1 e1] p1] rp1] out1]|], (gw_on_order g1 client_seq msg) as [[g2 out2]|]; try done.
  cbn [mbind option_bind]. destruct Ho as (H1 & H2 & H3 & ->). rewrite app_nil_r. split_and!; [by split_and!|done|done].
Qed.

(** What a burst means to a gateway on sockets: the payloads of its order frames. *)
Fixpoint order_frames (ms : list mbuf) : option (list (Frame * list Z)) :=
  match ms with
  | [] => Some []
  | m :: ms =>
      r ← parse_frame m;
      match r with
      | None => order_frames ms
      | Some f => payload ← frame_payload m f; l ← order_frames ms; Some ((f, payload) :: l)
      end
  end.

Definition other_frames (ms : list mbuf) : nat :=
  length (List.filter (λ m, match parse_frame m with Some None => true | _ => false end) ms).

Lemma tap_burst_gateway ms : ∀ t g l,
  tap_agrees t g → order_frames ms = Some l →
  match tap_burst t ms, gw_batch g l.*2 with
  | Some (t', out), Some (g', out') => tap_agrees t' g' ∧ out.*2 = out' ∧ tap_held t' = (tap_held t + other_frames ms)%nat ∧ Forall (λ x, x.1 ∈ l.*1) out
  | None, None => True
  | _, _ => False
  end.
Proof.
  induction ms as [|m ms IH]; intros t g l Hag Hl; cbn [order_frames tap_burst] in *.
  - injection Hl as <-. cbn. split_and!; [done|done|lia|constructor].
  - destruct (parse_frame m) as [[f|]|] eqn:Ep; cbn [mbind option_bind] in Hl; [| |done].
    + destruct (frame_payload m f) as [payload|] eqn:Epl; [|done]. cbn [mbind option_bind] in Hl.
      destruct (order_frames ms) as [l'|] eqn:El; [|done]. injection Hl as <-. cbn [fmap list_fmap snd gw_batch].
      pose proof (tap_payload_gateway t g f m payload Hag Ep Epl) as Hstep.
      destruct (tap_frame t m) as [[t1 out1]|], (gw_on_datagram g payload) as [[g1 out1']|]; try done. cbn [mbind option_bind].
      destruct Hstep as (Hag1 & -> & Hh). specialize (IH t1 g1 l' Hag1 eq_refl).
      destruct (tap_burst t1 ms) as [[t2 out2]|], (gw_batch g1 l'.*2) as [[g2 out2']|]; try done. cbn [mbind option_bind].
      destruct IH as (H1 & H2 & H3 & H4). split_and!; [done| | |].
      * rewrite fmap_app, H2, <- list_fmap_compose. f_equal. apply list_fmap_id.
      * unfold other_frames in *. cbn [List.filter]. rewrite Ep. lia.
      * apply Forall_app. split; [apply Forall_fmap, Forall_forall; intros ? _; cbn; by left|].
        eapply Forall_impl; [exact H4|]. intros x Hx. by right.
    + unfold tap_frame. rewrite Ep. cbn [mbind option_bind].
      set (t1 := mkTap _ _ _ _ _ _). specialize (IH t1 g l Hag Hl).
      destruct (tap_burst t1 ms) as [[t2 out2]|], (gw_batch g l.*2) as [[g2 out2']|]; try done. cbn [mbind option_bind app].
      destruct IH as (H1 & H2 & H3 & H4). split_and!; [done|done| |done]. unfold other_frames in *. cbn [List.filter]. rewrite Ep. cbn in *. lia.
Qed.

(** The parser returns addresses of the right size, made of the packet's bytes. *)
Lemma parse_frame_ok m f : Forall in_u8 (m_room m) → parse_frame m = Some (Some f) → frame_ok f.
Proof.
  intros Hb. assert (∀ p i v, Forall in_u8 p → read_u16 p i = Some v → in_u16 v) as H16.
  { intros p i v Hp. unfold read_u16. intros (a & Ea & (b & Eb & [= <-])%bind_Some)%bind_Some. pose proof (Forall_lookup_1 _ _ _ _ Hp Ea) as Ha. pose proof (Forall_lookup_1 _ _ _ _ Hp Eb) as Hb'. unfold in_u8, in_u16 in *. lia. }
  assert (∀ i n l, read_bytes (m_room m) i n = Some l → length l = n ∧ Forall in_u8 l) as Hread.
  { intros i n l. unfold read_bytes. destruct (Nat.leb_spec (i + n) (length (m_room m))); [|done]. intros [= <-]. unfold slice. split.
    - rewrite length_take, length_drop. lia.
    - by apply Forall_take, Forall_drop. }
  unfold parse_frame, mtod. destruct (_ <? _)%nat; [done|]. intros Hp. apply bind_Some in Hp as (et & _ & Hp). destruct (negb _); [done|].
  apply bind_Some in Hp as (pr & _ & Hp). destruct (negb _); [done|]. apply bind_Some in Hp as (b & _ & Hp). apply bind_Some in Hp as (ul & _ & Hp).
  destruct (_ || _); [done|]. apply bind_Some in Hp as (eth & E1 & Hp). apply bind_Some in Hp as (ip & E2 & Hp).
  apply bind_Some in Hp as (sp & E3 & Hp). apply bind_Some in Hp as (dp & E4 & [= <-]).
  apply Hread in E1 as [L1 _], E2 as [L2 B2]. apply H16 in E3, E4; [|done..].
  unfold frame_ok, slice. cbn. rewrite !length_take, !length_drop, L1, L2. split_and!; try done; by apply Forall_take, Forall_drop.
Qed.

Lemma order_frames_total ms :
  Forall (λ m, roomy m ∧ Forall in_u8 (m_room m)) ms → ∃ l, order_frames ms = Some l ∧ Forall (λ x, frame_ok x.1) l.
Proof.
  induction 1 as [|m ms [Hroom Hb] _ (l & Hl & Hok)]; [by exists []|]. cbn [order_frames].
  destruct (frame_parse_total m Hroom) as (r & Hr & Hpay). rewrite Hr. cbn [mbind option_bind]. destruct r as [f|]; [|by exists l].
  destruct (Hpay f eq_refl) as [payload ->]. cbn [mbind option_bind]. rewrite Hl. eexists. split; [done|]. constructor; [|done]. by eapply parse_frame_ok.
Qed.

(** C29.  The gateway on frames is the gateway on sockets.  For every burst of
    buffers, whatever their bytes: the session, the engine and the datagrams sent in
    answer are those of the socket gateway on the payloads of the order frames, which
    it stops on only where that one does; every answer that fits into a buffer goes
    out as a frame that the client reads as that datagram, from the address it wrote
    to; and each frame that is not one of IPv4 and UDP keeps its buffer from the pool. *)
Theorem tap_answers_like_gateway t g ms :
  tap_agrees t g → Forall (λ m, roomy m ∧ Forall in_u8 (m_room m)) ms →
  ∃ l, order_frames ms = Some l ∧
    match tap_burst t ms, gw_batch g l.*2 with
    | Some (t', out), Some (g', out') =>
        tap_agrees t' g' ∧ out.*2 = out' ∧ tap_held t' = (tap_held t + other_frames ms)%nat
        ∧ ∀ f p stale tailroom, (f, p) ∈ out → Z.of_nat (42 + length p) < 2 ^ 16 → (42 + length p <= tailroom)%nat →
            ∃ fr, tx_reply true tailroom true f p = Some (inr fr)
              ∧ let m := mkMbuf (fr ++ stale) (length fr) in
                parse_frame m = Some (Some (answer_to f (length p))) ∧ frame_payload m (answer_to f (length p)) = Some p
    | None, None => True
    | _, _ => False
    end.
Proof.
  intros Hag Hms. destruct (order_frames_total ms Hms) as (l & Hl & Hok). exists l. split; [done|].
  pose proof (tap_burst_gateway ms t g l Hag Hl) as Hb. destruct (tap_burst t ms) as [[t' out]|], (gw_batch g l.*2) as [[g' out']|]; try done.
  destruct Hb as (H1 & H2 & H3 & H4). split_and!; try done. intros f p stale tailroom Hin Hlen Hroom.
  assert (frame_ok f) as Hf.
  { rewrite Forall_forall in H4, Hok. specialize (H4 _ Hin). cbn in H4. apply list_elem_of_fmap in H4 as (x & -> & Hx). by apply Hok. }
  destruct (tx_reply_bytes f p tailroom Hf Hlen Hroom) as (c & Htx & _). eexists. split; [exact Htx|]. by apply reply_parsed.
Qed.

(** Polling nothing never ends the loop: the watchdog is only looked at after a burst. *)
Lemma tap_idle_never_stops expect idle t (times : list Z) :
  tap_main expect idle t ((λ x, ([], x)) <$> times) = Some (TapRunning t, []).
Proof. induction times as [|x times IH]; [done|]. cbn [fmap list_fmap tap_main]. exact IH. Qed.

End Tap.

(** ** The receivers *)

(** A frame as the driver hands it over: in a data room that held other packets. *)
Definition received (stale : list Z) (fr : list Z) : mbuf := mkMbuf (fr ++ stale) (length fr).

Lemma received_roomy stale fr : (80 <= length stale)%nat → roomy (received stale fr).
Proof. intros Hs. unfold roomy, received, pkt_len. cbn [m_room m_len]. rewrite length_app. lia. Qed.

(** What [udp_payload] finds in a frame that [parse_frame] accepts. *)
Lemma udp_payload_parsed m f : roomy m → parse_frame m = Some (Some f) → udp_payload m = Some (Some (f_payload_off f, f_payload_len f)).
Proof.
  intros Hr Hp. destruct (frame_parse_spec m m Hr Hr (conj eq_refl eq_refl)) as (r & Hr' & Hu & _). rewrite Hp in Hr'. injection Hr' as <-. exact Hu.
Qed.

(** The payload of a frame with the layout that all programs write. *)
Definition carries (stale fr payload : list Z) : Prop :=
  udp_payload (received stale fr) = Some (Some (42%nat, length payload)) ∧ read_bytes (mtod (received stale fr)) 42 (length payload) = Some payload.

Lemma written_carries dst_mac src_mac src_ip dst_ip sport dport payload stale :
  length dst_mac = 6%nat → length src_mac = 6%nat → length src_ip = 4%nat → length dst_ip = 4%nat → in_u16 sport → in_u16 dport →
  in_u16 (28 + Z.of_nat (length payload)) → (80 <= length stale)%nat →
  carries stale (dst_mac ++ src_mac ++ [0x08; 0x00] ++ [0x45; 0] ++ be_bytes 2 (28 + Z.of_nat (length payload)) ++ [0; 0; 0; 0] ++ [64; 17] ++ [0; 0] ++ src_ip ++ dst_ip
    ++ be_bytes 2 sport ++ be_bytes 2 dport ++ be_bytes 2 (8 + Z.of_nat (length payload)) ++ [0; 0] ++ payload) payload.
Proof.
  intros H1 H2 H3 H4 H5 H6 Hp Hs. unfold in_u16 in Hp.
  edestruct parse_written as (_ & Hparse & Hpay); cycle -1; [split; [apply (udp_payload_parsed _ _ (received_roomy _ _ Hs) Hparse)|exact Hpay]|..]; try done; unfold in_u16; lia.
Qed.

Lemma soup_carries pkt stale :
  Z.of_nat (length (payload pkt)) <= 2000 → (80 <= length stale)%nat → carries stale (soup_datagram pkt 10000 20000) (to_bytes pkt).
Proof.
  intros Hl Hs. pose proof (length_to_bytes pkt) as Hb. unfold soup_datagram. cbv zeta.
  rewrite (u16_wrap_id (8 + _)), (u16_wrap_id (20 + 8 + _)) by (unfold in_u16; lia).
  by apply (written_carries [0x00; 0x11; 0x22; 0x33; 0x44; 0x55] [0x66; 0x77; 0x88; 0x99; 0xaa; 0xbb] [10; 0; 0; 1] [10; 0; 0; 2] 10000 20000); try done; unfold in_u16; lia.
Qed.

(** Both programs that write MoldUDP64 frames carry the packet of the publisher. *)
Lemma mold_carries stale seq msgs :
  let body := downstream_packet MATCH_RUST seq msgs in
  in_u16 (28 + Z.of_nat (length body)) → (80 <= length stale)%nat → carries stale (gen_packet seq msgs) body ∧ carries stale (mk_frame seq msgs) body.
Proof.
  cbv zeta. intros Hl Hs. split.
  - unfold gen_packet. set (body := downstream_packet _ _ _) in *. cbv zeta. unfold in_u16 in Hl.
    rewrite (u16_wrap_id (8 + _)), (u16_wrap_id (20 + _)) by (unfold in_u16; lia). rewrite Z.add_assoc.
    by apply (written_carries MCAST_MAC SRC_MAC SRC_IP MCAST_IP 50000 50000); try done; unfold in_u16; lia.
  - unfold mk_frame. set (body := downstream_packet _ _ _) in *. cbv zeta. rewrite frame_layout by done.
    by apply (written_carries MCAST_MAC SRC_MAC SRC_IP MCAST_IP 50000 50000); try done; unfold in_u16; lia.
Qed.

(** The receiver's loop is [parse_packet] over the payloads. *)
Fixpoint rx_payloads (r : Rx) (ps : list (list Z)) : option Rx :=
  match ps with
  | [] => Some r
  | p :: ps => '(out, sub) ← parse_packet (rx_sub r) p; rx_payloads (rx_count r out sub) ps
  end.

Lemma rx_carried stale frs ps : ∀ r, Forall2 (carries stale) frs ps → rx_loop r (received stale <$> frs) = rx_payloads r ps.
Proof.
  intros r Hc. revert r. induction Hc as [|fr p frs ps [Hu Hrd] _ IH]; intros r; [done|]. cbn [fmap list_fmap rx_loop rx_payloads].
  unfold rx_frame. rewrite Hu. cbn [mbind option_bind]. rewrite Hrd. cbn [mbind option_bind].
  destruct (parse_packet (rx_sub r) p) as [[out sub]|]; cbn [mbind option_bind]; [apply IH|done].
Qed.

Lemma length_accepted_report now i : length (accepted_report now i) = 66%nat.
Proof. exact (length_encode_message (OAccepted _)). Qed.

Lemma soup_packets_short now n : Forall (λ p, Z.of_nat (length (payload p)) <= 2000) (soup_packets now n).
Proof.
  constructor; [by vm_compute|]. apply Forall_fmap, Forall_forall. intros i _. unfold compose. cbn [payload]. rewrite length_accepted_report. lia.
Qed.

(** The replay of frames is the replay of the packets in them. *)
Lemma replay_received clock stale pkts : ∀ r,
  (80 <= length stale)%nat → Forall (λ p, Z.of_nat (length (payload p)) <= 2000) pkts →
  replay_loop clock r (received stale <$> ((λ p, soup_datagram p 10000 20000) <$> pkts)) = replay_packets clock r pkts.
Proof.
  induction pkts as [|p pkts IH]; intros r Hs Hp; [done|]. apply Forall_cons in Hp as [Hl Hp]. cbn [fmap list_fmap replay_loop replay_packets].
  destruct (soup_carries p stale Hl Hs) as [Hu Hrd]. unfold replay_frame. rewrite Hu. cbn [mbind option_bind]. rewrite Hrd. cbn [mbind option_bind].
  pose proof (parse_stream_packets [p]) as Hps. cbn [fmap list_fmap concat] in Hps. rewrite app_nil_r in Hps. rewrite Hps by (repeat constructor; unfold fits; lia).
  cbn [fst replay_packets]. destruct (replay_packet clock r p) as [r'|]; cbn [mbind option_bind]; [by apply IH|done].
Qed.

(** Reports on a session that is logged in. *)
Lemma replay_reports clock now is_ : ∀ r,
  cl_logged_in (rp_client r) = true → 0 <= cl_expected_seq (rp_client r) → cl_expected_seq (rp_client r) + Z.of_nat (length is_) < 2 ^ 64 →
  ∃ r', replay_packets clock r ((λ i, mkPacket SEQUENCED_DATA (accepted_report (now i) (Z.of_nat i))) <$> is_) = Some r'
    ∧ cl_expected_seq (rp_client r') = cl_expected_seq (rp_client r) + Z.of_nat (length is_)
    ∧ rp_seq_reports r' = rp_seq_reports r + Z.of_nat (length is_) ∧ rp_packets_seen r' = rp_packets_seen r + Z.of_nat (length is_)
    ∧ rp_login_ok r' = rp_login_ok r.
Proof.
  induction is_ as [|i is_ IH]; intros r Hlog He Hb; [exists r; cbn; split_and!; [done|lia..|done]|]. cbn [fmap list_fmap replay_packets length] in *.
  unfold replay_packet, client_handle_packet. cbn [packet_type payload cl_logged_in cl_expected_seq]. rewrite Hlog.
  change (SEQUENCED_DATA =? LOGIN_ACCEPTED) with false. change (SEQUENCED_DATA =? LOGIN_REJECTED) with false. change (SEQUENCED_DATA =? SEQUENCED_DATA) with true. cbn [negb].
  destruct (accepted_report (now i) (Z.of_nat i)) as [|b bs] eqn:Er; [pose proof (length_accepted_report (now i) (Z.of_nat i)) as Hl; by rewrite Er in Hl|].
  rewrite u64_wrap_id by (unfold in_u64; lia). cbn [mbind option_bind]. set (r1 := mkReplay _ _ _ _).
  destruct (IH r1) as (r' & -> & H1 & H2 & H3 & H4); [done|cbn; lia|cbn; lia|]. exists r'. cbn in *. split_and!; [done|lia..|done].
Qed.

(** The messages of the two MoldUDP64 scenarios. *)
Definition gen_msgs : list (Z * list (list Z)) :=
  [(1, [bytes_of "m1"]); (2, [bytes_of "m2"]); (3, [bytes_of "m3"]); (4, []); (5, [bytes_of "m5"; bytes_of "m6"])].
Definition tx_msgs : list (Z * list (list Z)) := [(1, [bytes_of "a"; bytes_of "b"]); (3, [bytes_of "c"]); (4, [])].

Definition bodies (l : list (Z * list (list Z))) : list (list Z) := (λ x, downstream_packet MATCH_RUST x.1 x.2) <$> l.

Lemma scenarios_carried stale :
  (80 <= length stale)%nat → Forall2 (carries stale) gen_frames (bodies gen_msgs) ∧ Forall2 (carries stale) tx_frames (bodies tx_msgs).
Proof. intros Hs. split; repeat constructor; apply mold_carries; try done; vm_compute; split; congruence. Qed.

Lemma gen_pcap_frames : pcap_frames gen_pcap = gen_frames.
Proof. unfold gen_pcap. rewrite pcap_file_frames; [done|]. repeat constructor. Qed.

Lemma soup_pcap_frames now n : pcap_frames (write_pcap (soup_frames now n)) = soup_frames now n.
Proof.
  unfold write_pcap. rewrite pcap_file_frames.
  - rewrite <- list_fmap_compose. apply list_fmap_id.
  - apply Forall_fmap, Forall_fmap. eapply Forall_impl; [apply soup_packets_short|]. intros p Hp. cbn beta in Hp. unfold compose. cbn [r_frame].
    unfold soup_datagram. cbv zeta. rewrite !length_app, length_to_bytes, !length_be_bytes. cbn [length]. lia.
Qed.

Lemma soup_replay now clock n :
  Z.of_nat n < 2 ^ 64 - 1 →
  ∃ r, replay_packets clock replay_new (soup_packets now n) = Some r ∧ replay_pass n r = true ∧ rp_packets_seen r = 1 + Z.of_nat n.
Proof.
  intros Hn. unfold soup_packets. cbn [replay_packets]. set (r1 := replay_packet clock replay_new (login_accepted SESSION 1)).
  assert (r1 = Some (mkReplay (mkSoupClient SESSION 1 1 true clock) 1 0 true)) as ->.
  { by vm_compute. }
  cbn [mbind option_bind]. destruct (replay_reports clock now (seq 0 n) (mkReplay (mkSoupClient SESSION 1 1 true clock) 1 0 true)) as (r & Hr & H1 & H2 & H3 & H4);
    [done|cbn; lia|rewrite length_seq; cbn; lia|]. rewrite length_seq in *. cbn in H1, H2, H3, H4. exists r. split; [exact Hr|].
  unfold replay_pass. rewrite H1, H2, H3, H4. split; [|done]. rewrite !Z.eqb_refl. done.
Qed.

(** The verifying receivers pass.  What the generator of MoldUDP64 frames writes
    to its file, and what the publisher sends, meet the receiver's assertions,
    heartbeat and gap included.  The SoupBinTCP replay of any number of reports, read
    back from its file into data rooms that held other packets, ends logged in, with
    every report counted and the sequence without a hole. *)
Theorem dpdk_replay_passes now clock stale n :
  (80 <= length stale)%nat → Z.of_nat n < 2 ^ 64 - 1 →
  (∃ r, rx_loop rx_new (received stale <$> pcap_frames gen_pcap) = Some r ∧ rx_verify_input r = true)
  ∧ (∃ frs r, tx_all true 2048 true tx_frames = Some (inr frs) ∧ rx_loop rx_new (received stale <$> frs) = Some r ∧ rx_verify_output r = true)
  ∧ ∃ r, replay_loop clock replay_new (received stale <$> pcap_frames (write_pcap (soup_frames now n))) = Some r
      ∧ replay_pass n r = true ∧ rp_packets_seen r = 1 + Z.of_nat n.
Proof.
  intros Hs Hn. destruct (scenarios_carried stale Hs) as [Hg Ht]. split_and!.
  - rewrite gen_pcap_frames, (rx_carried _ _ _ _ Hg). eexists. split; [vm_compute; reflexivity|by vm_compute].
  - exists tx_frames. rewrite (rx_carried _ _ _ _ Ht). eexists. split_and!; [by vm_compute|vm_compute; reflexivity|by vm_compute].
  - rewrite soup_pcap_frames. unfold soup_frames. rewrite replay_received by (done || apply soup_packets_short). by apply soup_replay.
Qed.

Module Witness.
Import SciDecimal.

Definition order_datagram (seq : Z) (text : string) : list Z := encode SESSION_MAGIC seq ORDER (bytes_of text).

Definition frame_of (dg : list Z) : mbuf :=
  received (replicate 80 0) (eth_ip_udp_header [2; 0; 0; 0; 0; 9] [2; 0; 0; 0; 0; 1] [10; 0; 0; 2] [10; 0; 0; 1] 9000 40000 (length dg) ++ dg).

(** An order that rests, one that fills it, and an ARP frame. *)
Definition burst : list mbuf :=
  [frame_of (order_datagram 1 "B|btcusdt|100|1|o1"); received (replicate 80 0) (replicate 12 255 ++ [0x08; 0x06] ++ replicate 46 0);
   frame_of (order_datagram 2 "S|btcusdt|99|1|o2")].

Definition bytes_b (m : mbuf) : bool :=
  (80 <=? length (m_room m))%nat && (pkt_len m <=? length (m_room m))%nat && forallb (λ b, (0 <=? b) && (b <? 256)) (m_room m).

Lemma bytes_b_true ms : forallb bytes_b ms = true → Forall (λ m, roomy m ∧ Forall in_u8 (m_room m)) ms.
Proof.
  intros Hb. apply Forall_forall. intros m Hm. rewrite forallb_forall in Hb. specialize (Hb m (proj1 (list_elem_of_In _ _) Hm)).
  unfold bytes_b in Hb. rewrite !andb_true_iff, !Nat.leb_le in Hb. destruct Hb as [Hroom Hf]. split; [exact Hroom|].
  apply Forall_forall. intros b Hin. rewrite forallb_forall in Hf. specialize (Hf b (proj1 (list_elem_of_In _ _) Hin)). unfold in_u8. lia.
Qed.

Lemma new_agrees : tap_agrees tap_new (gateway_new (Z.to_nat 24576)).
Proof.
  split_and!; [|done..]. unfold tap_new, gateway_new. cbn [tap_srv gw_srv]. f_equal.
Qed.

Lemma tap_answers_like_gateway_witness :
  ∃ l, order_frames burst = Some l ∧ length l = 2%nat
    ∧ match tap_burst tap_new burst, gw_batch (gateway_new (Z.to_nat 24576)) l.*2 with
      | Some (t', out), Some (g', out') => out.*2 = out' ∧ tap_engine t' = gw_engine g' ∧ tap_held t' = 1%nat
      | _, _ => False
      end.
Proof.
  destruct (tap_answers_like_gateway tap_new (gateway_new (Z.to_nat 24576)) burst) as (l & Hl & Hm).
  - exact new_agrees.
  - apply bytes_b_true. vm_compute. reflexivity.
  - exists l. split; [exact Hl|]. assert (l = default [] (order_frames burst)) as -> by (by rewrite Hl). split; [vm_compute; reflexivity|].
    assert (match tap_burst tap_new burst with Some _ => true | None => false end = true) as Hrun by (vm_compute; reflexivity).
    destruct (tap_burst tap_new burst) as [[t' out]|]; [|discriminate].
    destruct (gw_batch _ _) as [[g' out']|]; [|exact Hm]. destruct Hm as ((_ & He & _) & H2 & H3 & _).
    split; [exact H2|]. split; [exact He|]. rewrite H3. vm_compute. reflexivity.
Defined.

Lemma dpdk_replay_passes_witness :
  ∃ r, replay_loop 7 replay_new (received (replicate 80 9) <$> pcap_frames (write_pcap (soup_frames (λ i, Z.of_nat i) 3))) = Some r
    ∧ rp_packets_seen r = 4.
Proof.
  destruct (dpdk_replay_passes (λ i, Z.of_nat i) 7 (replicate 80 9) 3) as (_ & _ & r & H1 & _ & H2); [vm_compute; lia|vm_compute; reflexivity|].
  exists r. split; [exact H1|exact H2].
Defined.

(** A datagram shorter than a MoldUDP64 header stops the receiver. *)
Example short_datagram_panics : rx_frame rx_new (frame_of [1; 2; 3]) = None.
Proof. vm_compute. reflexivity. Qed.

End Witness.
