(* ===== verification/Shards.v ===== *)
(** * Matching in shards

    Models [crates/match-udp-order/src/bin/multi_shard_bench.rs]: the orders are routed
    by a hash of their symbol over channels to threads, each with an engine of its own.
    The threads and the router are interleaved step by step; a channel is a list.

    Whatever the schedule, the threads together do what one engine does with the whole
    stream: each order has the events it would have there, each book is the one it
    would be there, every step brings the program nearer to its end and it never gets
    stuck before.  [run_each_shard] is the reason: a book only sees the orders of its
    symbol. *)
From stdpp Require Import gmap.
From S2P Require Import Prelude Decimal Protocol CoreBook CoreMatch CoreEngine ProtocolProps HpScale Gateway PlainDecimal Workload.

#[local] Open Scope Z_scope.

Definition SHARD_DEFAULT : nat := 4.
Definition ORDERS_DEFAULT : nat := Z.to_nat 20000.
Definition SYMBOL_SPACE : nat := 128.

(** FNV-1a on 64 bits. *)
Definition symbol_hash (sym : string) : Z :=
  foldl (λ h b, u64_wrap (Z.lxor h b * 0x100000001b3)) 0xcbf29ce484222325 (bytes_of sym).

(** [symbol_hash(&sym) % shards]; [None] is the division by zero. *)
Definition shard_index (shards : nat) (sym : string) : option nat :=
  match shards with O => None | _ => Some (Z.to_nat (symbol_hash sym mod Z.of_nat shards)) end.

(** [format!("sym_{sym_id:03}")] *)
Definition sym_name (sym_id : nat) : string :=
  ("sym_" +:+ String.string_of_list_ascii (zero_padded 3 (Z.of_nat sym_id)))%string.

Section Shards.
Context `{BD : BigDecimal}.

Inductive OrderMsg := MsgOrder (bb : BbOrder) | Done.

(** The order of round [k], with the text it is routed by; [None] is the panic of [expect]. *)
Definition shard_order (k : nat) : option (string * BbOrder) :=
  let sym := sym_name ((k / 2) mod SYMBOL_SPACE) in
  let side := if Nat.even k then ORDER_TYPE_BUY else ORDER_TYPE_SELL in
  let price := (if Nat.even k then "100.00" else "99.99")%string in
  bb ← type_convert_spot (mq_limit side sym (numbered "o" k) price "1");
  Some (sym, bb).

Definition shard_orders (n : nat) : option (list (string * BbOrder)) := mapM shard_order (seq 0 n).

(** [rss_shard_bench.rs]: no router; each thread makes the orders of its own symbols. *)
Definition SYMBOLS_PER_SHARD : nat := 32.

Definition rss_order (shard_id i : nat) : option BbOrder :=
  let sym_id := (shard_id * SYMBOLS_PER_SHARD + (i / 2) mod SYMBOLS_PER_SHARD)%nat in
  let side := if Nat.even i then ORDER_TYPE_BUY else ORDER_TYPE_SELL in
  let price := (if Nat.even i then "100.00" else "99.99")%string in
  type_convert_spot (mq_limit side (sym_name sym_id) (numbered ("s" +:+ numbered "" shard_id +:+ "o") i) price "1").

(** [shard_run]: the orders processed, from round [i] on. *)
Fixpoint rss_loop (shard_id : nat) (engine : Engine) (i rounds processed : nat) : option nat :=
  match rounds with
  | O => Some processed
  | S rounds =>
      bb ← rss_order shard_id i;
      '(_, engine) ← on_order engine bb;
      rss_loop shard_id engine (S i) rounds (S processed)
  end.

Definition rss_shard_run (shard_id rounds : nat) : option nat := rss_loop shard_id engine_new 0 rounds 0.

(** [main] of [rss_shard_bench.rs]: the threads share nothing. *)
Fixpoint rss_total (shards rounds : nat) : option nat :=
  match shards with
  | O => Some 0%nat
  | S k => total ← rss_total k rounds; n ← rss_shard_run k rounds; Some (total + n)%nat
  end.

(** The state of [shard_worker], and what it has matched so far with the events. *)
Record ShardWorker := mkShard { sw_engine : Engine; sw_processed : nat; sw_running : bool; sw_log : list (BbOrder * list MatchEvent) }.

Definition shard_new : ShardWorker := mkShard engine_new 0 true [].

(** One message received; [Done] leaves the loop. *)
Definition worker_on (w : ShardWorker) (msg : OrderMsg) : option ShardWorker :=
  match msg with
  | MsgOrder bb => '(evs, e) ← on_order (sw_engine w) bb; Some (mkShard e (S (sw_processed w)) true (sw_log w ++ [(bb, evs)]))
  | Done => Some (mkShard (sw_engine w) (sw_processed w) false (sw_log w))
  end.

(** The whole program: the next order to route, the [Done]s sent, the channels, the
    threads and the counts per shard. *)
Record Pool := mkPool {
  p_next : nat; p_done : nat; p_queues : list (list OrderMsg); p_workers : list ShardWorker; per_shard : list nat }.

Definition pool_new (shards : nat) : Pool :=
  mkPool 0 0 (replicate shards []) (replicate shards shard_new) (replicate shards 0%nat).

Inductive pool_step (orders : list (string * BbOrder)) (shards : nat) : Pool → Pool → Prop :=
| pool_send k qs ws per sym bb s q c :
    orders !! k = Some (sym, bb) → shard_index shards sym = Some s → qs !! s = Some q → per !! s = Some c →
    pool_step orders shards (mkPool k 0 qs ws per) (mkPool (S k) 0 (<[s := q ++ [MsgOrder bb]]> qs) ws (<[s := S c]> per))
| pool_send_done d qs ws per q :
    qs !! d = Some q →
    pool_step orders shards (mkPool (length orders) d qs ws per) (mkPool (length orders) (S d) (<[d := q ++ [Done]]> qs) ws per)
| pool_receive k d qs ws per s msg q w w' :
    qs !! s = Some (msg :: q) → ws !! s = Some w → sw_running w = true → worker_on w msg = Some w' →
    pool_step orders shards (mkPool k d qs ws per) (mkPool k d (<[s := q]> qs) (<[s := w']> ws) per).

(** [total], the sum of what the joined threads return. *)
Definition pool_total (p : Pool) : nat := sum_list_with sw_processed (p_workers p).

Definition pool_finished (p : Pool) : Prop := Forall (λ w, sw_running w = false) (p_workers p).

(** States after [n] steps. *)
Inductive pool_run (orders : list (string * BbOrder)) (shards : nat) : nat → Pool → Prop :=
| run_new : pool_run orders shards 0 (pool_new shards)
| run_step n p p' : pool_run orders shards n p → pool_step orders shards p p' → pool_run orders shards (S n) p'.

(** ** A book sees the orders of its symbol *)

(** The part of a stream that a set of symbols concerns. *)
Definition concerns (P : string → bool) (o : BbOrder) : bool := P (symbol_key o).

Definition same_books (P : string → bool) (e e' : Engine) : Prop := ∀ sym, P sym = true → e !! sym = e' !! sym.

Lemma on_order_other e e1 o evs P : on_order e o = Some (evs, e1) → concerns P o = false → same_books P e e1.
Proof.
  unfold on_order, concerns. destruct (on_book _ _) as [[evs' book]|]; [|done]. cbn. intros [= <- <-] Hp sym Hsym.
  rewrite (lookup_insert_ne (M:=gmap string) e); [done|]. intros Heq. rewrite Heq in Hp. congruence.
Qed.

Lemma on_order_same e e1 d o evs P :
  on_order e o = Some (evs, e1) → concerns P o = true → same_books P d e → ∃ d1, on_order d o = Some (evs, d1) ∧ same_books P d1 e1.
Proof.
  unfold on_order, concerns, book_of. intros Ho Hp Hs. rewrite (Hs _ Hp). destruct (on_book _ _) as [[evs' book]|]; [|done]. cbn in *.
  injection Ho as <- <-. eexists. split; [done|]. intros sym Hsym. destruct (decide (sym = symbol_key o)) as [->|Hne].
  - by rewrite (lookup_insert_eq (M:=gmap string) d), (lookup_insert_eq (M:=gmap string) e).
  - rewrite (lookup_insert_ne (M:=gmap string) d), (lookup_insert_ne (M:=gmap string) e) by done. by apply Hs.
Qed.

Lemma run_each_shard P l : ∀ e d evss e',
  run_each e l = Some (evss, e') → same_books P d e →
  ∃ d', run_each d (List.filter (concerns P) l) = Some ((List.filter (concerns P ∘ fst) (zip l evss)).*2, d') ∧ same_books P d' e'.
Proof.
  induction l as [|o l IH]; intros e d evss e'; cbn [run_each]; [intros [= <- <-] Hs; by exists d|].
  destruct (on_order e o) as [[evs e1]|] eqn:Ho; [|done]. cbn [mbind option_bind]. destruct (run_each e1 l) as [[evss1 e2]|] eqn:Er; [|done].
  cbn. intros [= <- <-] Hs. cbn [zip zip_with List.filter]. unfold compose at 1. cbn [fst]. destruct (concerns P o) eqn:Hc.
  - destruct (on_order_same _ _ _ _ _ _ Ho Hc Hs) as (d1 & Hd & Hs1). destruct (IH _ _ _ _ Er Hs1) as (d' & Hd' & Hs').
    exists d'. cbn [run_each]. rewrite Hd. cbn [mbind option_bind]. rewrite Hd'. done.
  - apply (IH e1); [done|]. intros sym Hsym. rewrite (Hs sym Hsym). by eapply on_order_other.
Qed.

Lemma run_each_app l1 : ∀ l2 e,
  run_each e (l1 ++ l2) = '(evss1, e1) ← run_each e l1; '(evss2, e2) ← run_each e1 l2; Some (evss1 ++ evss2, e2).
Proof.
  induction l1 as [|o l1 IH]; intros l2 e; cbn [app run_each].
  - cbn. by destruct (run_each e l2) as [[? ?]|].
  - destruct (on_order e o) as [[evs e1]|]; [|done]. cbn [mbind option_bind]. rewrite IH.
    destruct (run_each e1 l1) as [[evss1 e2]|]; [|done]. cbn [mbind option_bind]. by destruct (run_each e2 l2) as [[? ?]|].
Qed.

Lemma run_each_length l : ∀ e evss e', run_each e l = Some (evss, e') → length evss = length l.
Proof.
  induction l as [|o l IH]; intros e evss e'; cbn [run_each]; [by intros [= <- <-]|].
  destruct (on_order e o) as [[evs e1]|]; [|done]. cbn [mbind option_bind]. destruct (run_each e1 l) as [[evss1 e2]|] eqn:Er; [|done].
  cbn. intros [= <- <-]. cbn. by rewrite (IH _ _ _ Er).
Qed.

(** ** The invariant of the program *)

Lemma sum_insert {A} (f : A → nat) l : ∀ i x y, l !! i = Some x → (sum_list_with f (<[i := y]> l) + f x = sum_list_with f l + f y)%nat.
Proof.
  induction l as [|a l IH]; intros [|i] x y Hi; [done..| |]; simpl in *; [injection Hi as <-; lia|]. specialize (IH i x y Hi). lia.
Qed.

Section Invariant.
Context (orders : list (string * BbOrder)) (shards : nat).
Implicit Types (w : ShardWorker) (p : Pool).

Definition routed (s : nat) (x : string * BbOrder) : bool := match shard_index shards x.1 with Some i => (i =? s)%nat | None => false end.

(** What was routed to shard [s] among the first [k] orders. *)
Definition share (k s : nat) : list BbOrder := (List.filter (routed s) (take k orders)).*2.

Definition shard_ok (k d s : nat) (q : list OrderMsg) w : Prop :=
  ∃ pending, (sw_log w).*1 ++ pending = share k s ∧ run_each engine_new (sw_log w).*1 = Some ((sw_log w).*2, sw_engine w)
    ∧ sw_processed w = length (sw_log w)
    ∧ (((d <= s)%nat ∧ sw_running w = true ∧ q = MsgOrder <$> pending)
       ∨ ((s < d)%nat ∧ sw_running w = true ∧ q = (MsgOrder <$> pending) ++ [Done])
       ∨ ((s < d)%nat ∧ sw_running w = false ∧ pending = [] ∧ q = [])).

(** Steps still to do: an order is sent and received, a [Done] too. *)
Definition left_to_do p : nat :=
  2 * (length orders - p_next p) + 2 * (shards - p_done p) + sum_list_with length (p_queues p).

Record pool_inv (n : nat) (p : Pool) : Prop := {
  pi_queues : length (p_queues p) = shards;
  pi_workers : length (p_workers p) = shards;
  pi_counts : length (per_shard p) = shards;
  pi_next : (p_next p <= length orders)%nat;
  pi_done : (p_done p <= shards)%nat;
  pi_last : (0 < p_done p)%nat → p_next p = length orders;
  pi_shards s q w : p_queues p !! s = Some q → p_workers p !! s = Some w → shard_ok (p_next p) (p_done p) s q w;
  pi_per s c : per_shard p !! s = Some c → c = length (share (p_next p) s);
  pi_steps : (n + left_to_do p = 2 * (length orders + shards))%nat }.

Lemma share_next k s sym bb i :
  orders !! k = Some (sym, bb) → shard_index shards sym = Some i → share (S k) s = share k s ++ if (i =? s)%nat then [bb] else [].
Proof.
  intros Hk Hi. unfold share. rewrite (take_S_r _ _ _ Hk), List.filter_app, fmap_app. f_equal. cbn [List.filter]. unfold routed. cbn [fst]. rewrite Hi.
  by destruct (i =? s)%nat.
Qed.

Lemma pool_inv_new : pool_inv 0 (pool_new shards).
Proof.
  split; cbn [pool_new p_queues p_workers per_shard p_next p_done]; try (by rewrite length_replicate); [lia..| | |].
  - intros s q w Hq Hw. apply lookup_replicate in Hq as [-> _]. apply lookup_replicate in Hw as [-> _]. exists []. split_and!; [done..|]. left. split_and!; [lia|done..].
  - intros s c Hc. apply lookup_replicate in Hc as [-> _]. done.
  - unfold left_to_do, pool_new. cbn [p_queues p_next p_done]. assert (∀ m, sum_list_with length (replicate m (@nil OrderMsg)) = 0%nat) as -> by (induction m; cbn; lia). lia.
Qed.

Lemma shard_index_lt sym s : shard_index shards sym = Some s → (s < shards)%nat.
Proof.
  unfold shard_index. destruct shards as [|m] eqn:Em; [done|]. intros [= <-]. pose proof (Z.mod_pos_bound (symbol_hash sym) (Z.of_nat (S m)) ltac:(lia)). lia.
Qed.

(** An order is put into the channel of its shard, a [Done] is, a message is received. *)
Lemma shard_ok_send k s q w sym bb :
  orders !! k = Some (sym, bb) → shard_index shards sym = Some s → shard_ok k 0 s q w → shard_ok (S k) 0 s (q ++ [MsgOrder bb]) w.
Proof.
  intros Ho Hi (pend & Hs & Hrun & Hp & [(Hd & Hr & ->)|[(? & _)|(? & _)]]); [|lia..].
  exists (pend ++ [bb]). rewrite (share_next _ _ _ _ _ Ho Hi), Nat.eqb_refl, <- Hs, app_assoc. split_and!; [done..|]. left. by rewrite fmap_app.
Qed.

Lemma shard_ok_done k d q w : shard_ok k d d q w → shard_ok k (S d) d (q ++ [Done]) w.
Proof.
  intros (pend & Hs & Hrun & Hp & [(_ & Hr & ->)|[(? & _)|(? & _)]]); [|lia..]. exists pend. split_and!; [done..|]. right. left. split_and!; [lia|done..].
Qed.

Lemma shard_ok_receive k d s msg q w w' :
  shard_ok k d s (msg :: q) w → sw_running w = true → worker_on w msg = Some w' → shard_ok k d s q w'.
Proof.
  intros (pend & Hs & Hrun & Hp & Hcase) Hr Hon. destruct msg as [bb|]; cbn [worker_on] in Hon.
  - destruct (on_order (sw_engine w) bb) as [[evs e1]|] eqn:Eo; [|done]. cbn in Hon. injection Hon as <-.
    assert (∃ pend', pend = bb :: pend') as [pend' ->].
    { destruct Hcase as [(_ & _ & Hqq)|[(_ & _ & Hqq)|(_ & Hn & _)]]; [| |congruence];
        destruct pend as [|b pend']; cbn in Hqq; try discriminate; injection Hqq as -> _; by eexists. }
    exists pend'. cbn [sw_log sw_engine sw_processed sw_running]. rewrite !fmap_app, run_each_app, Hrun. cbn [mbind option_bind fmap list_fmap fst snd run_each].
    rewrite Eo, length_app. split_and!; [by rewrite <- app_assoc|done|cbn; lia|].
    destruct Hcase as [(? & _ & Hqq)|[(? & _ & Hqq)|(_ & Hn & _)]]; [left|right; left|congruence]; cbn in Hqq; injection Hqq as ->; done.
  - injection Hon as <-. exists []. cbn [sw_log sw_engine sw_processed sw_running].
    destruct Hcase as [(_ & _ & Hqq)|[(? & _ & Hqq)|(_ & Hn & _)]]; [by destruct pend| |congruence].
    destruct pend as [|b pend]; [|done]. cbn in Hqq. injection Hqq as ->. split_and!; [done..|]. by right; right.
Qed.

Lemma pool_step_inv n p p' : pool_inv n p → pool_step orders shards p p' → pool_inv (S n) p'.
Proof.
  intros [H1 H2 H3 H4 H5 H6 H7 H8 H9] Hst. destruct Hst as [k qs ws per sym bb s q c Ho Hi Hq Hc|d qs ws per q Hq|k d qs ws per s msg q w w' Hq Hw Hr Hon];
    cbn [p_queues p_workers per_shard p_next p_done] in *; unfold left_to_do in H9; cbn [p_queues p_next p_done] in H9.
  - pose proof (lookup_lt_Some _ _ _ Ho) as Hk. split; cbn [p_queues p_workers per_shard p_next p_done]; rewrite ?length_insert; try lia.
    + intros s' q' w' Hq' Hw'. destruct (decide (s' = s)) as [->|Hne].
      * rewrite list_lookup_insert_eq in Hq' by (eapply lookup_lt_Some; done). injection Hq' as <-. eapply shard_ok_send; [done..|]. by apply H7.
      * rewrite list_lookup_insert_ne in Hq' by done. destruct (H7 s' q' w' Hq' Hw') as (pend & Hs & Hrest). exists pend.
        rewrite (share_next _ _ _ _ _ Ho Hi), (proj2 (Nat.eqb_neq s s')), app_nil_r by done. done.
    + intros s' c' Hc'. rewrite (share_next _ _ _ _ _ Ho Hi), length_app. destruct (decide (s' = s)) as [->|Hne].
      * rewrite list_lookup_insert_eq in Hc' by (eapply lookup_lt_Some; done). injection Hc' as <-. rewrite Nat.eqb_refl, (H8 s c Hc). cbn. lia.
      * rewrite list_lookup_insert_ne in Hc' by done. rewrite (proj2 (Nat.eqb_neq s s')), (H8 s' c' Hc') by done. cbn. lia.
    + unfold left_to_do. cbn [p_queues p_next p_done]. pose proof (sum_insert length qs s q (q ++ [MsgOrder bb]) Hq) as Hsum. rewrite length_app in Hsum. cbn in Hsum. lia.
  - pose proof (lookup_lt_Some _ _ _ Hq) as Hd. split; cbn [p_queues p_workers per_shard p_next p_done]; rewrite ?length_insert; try (done || lia).
    + intros s' q' w' Hq' Hw'. destruct (decide (s' = d)) as [->|Hne].
      * rewrite list_lookup_insert_eq in Hq' by done. injection Hq' as <-. apply shard_ok_done. by apply H7.
      * rewrite list_lookup_insert_ne in Hq' by done. destruct (H7 s' q' w' Hq' Hw') as (pend & Hs & Hrun & Hp & Hcase). exists pend. split_and!; [done..|].
        destruct Hcase as [(? & ? & ?)|[(? & ? & ?)|(? & ? & ? & ?)]]; [left|right; left|right; right]; split_and!; try done; lia.
    + unfold left_to_do. cbn [p_queues p_next p_done]. pose proof (sum_insert length qs d q (q ++ [Done]) Hq) as Hsum. rewrite length_app in Hsum. cbn in Hsum. lia.
  - split; cbn [p_queues p_workers per_shard p_next p_done]; rewrite ?length_insert; try done.
    + intros s' q' w'' Hq' Hw''. destruct (decide (s' = s)) as [->|Hne].
      * rewrite list_lookup_insert_eq in Hq' by (eapply lookup_lt_Some; done). rewrite list_lookup_insert_eq in Hw'' by (eapply lookup_lt_Some; done).
        injection Hq' as <-. injection Hw'' as <-. eapply shard_ok_receive; [by apply H7|done..].
      * rewrite list_lookup_insert_ne in Hq' by done. rewrite list_lookup_insert_ne in Hw'' by done. by apply H7.
    + unfold left_to_do. cbn [p_queues p_next p_done]. pose proof (sum_insert length qs s _ q Hq) as Hsum. cbn [length] in Hsum. lia.
Qed.

Lemma pool_run_inv n p : pool_run orders shards n p → pool_inv n p.
Proof. induction 1 as [|n p p' _ IH Hst]; [apply pool_inv_new|by eapply pool_step_inv]. Qed.

End Invariant.

End Shards.

Section Properties.
Context `{BDS : BigDecimalSpec}.

(** Routing by the symbol of the order: the share of a shard is what concerns its symbols. *)
Definition symbols_of (shards s : nat) (sym : string) : bool := match shard_index shards sym with Some i => (i =? s)%nat | None => false end.

Definition keyed (orders : list (string * BbOrder)) : Prop := Forall (λ x, symbol_key x.2 = x.1) orders.

Lemma share_concerns orders shards s k : keyed orders → share orders shards k s = List.filter (concerns (symbols_of shards s)) (take k orders).*2.
Proof.
  intros Hk. apply (Forall_take _ k) in Hk. unfold share. induction (take k orders) as [|[sym bb] l IH]; [done|]. apply Forall_cons in Hk as [Hb Hk]. cbn in Hb.
  cbn [List.filter fmap list_fmap snd]. unfold routed at 1, concerns at 1. cbn [fst]. rewrite Hb. unfold symbols_of. destruct (shard_index shards sym) as [i|]; [|by apply IH].
  destruct (i =? s)%nat; cbn [fmap list_fmap snd]; by rewrite (IH Hk).
Qed.

Lemma run_each_inv e l : engine_ok e → Forall order_valid l → ∃ evss e', run_each e l = Some (evss, e') ∧ engine_ok e'.
Proof.
  revert e. induction l as [|o l IH]; intros e He Hv; [by eexists _, _|]. apply Forall_cons in Hv as [Ho Hv].
  destruct (on_order_inv e o He Ho) as (evs & e1 & H1 & He1). destruct (IH e1 He1 Hv) as (evss & e2 & H2 & He2).
  eexists _, _. cbn [run_each]. rewrite H1. cbn [mbind option_bind]. by rewrite H2.
Qed.

(** The shard that has work to do can do it. *)
Lemma receive_possible orders shards n p s msg q w :
  Forall order_valid orders.*2 → pool_inv orders shards n p → p_queues p !! s = Some (msg :: q) → p_workers p !! s = Some w → ∃ w', worker_on w msg = Some w' ∧ sw_running w = true.
Proof.
  intros Hv Hinv Hq Hw. destruct (pi_shards _ _ _ _ Hinv s _ w Hq Hw) as (pend & Hs & Hrun & _ & Hcase).
  assert (Forall order_valid (share orders shards (p_next p) s)) as Hsh.
  { rewrite Forall_fmap in Hv. apply (Forall_take _ (p_next p)) in Hv. unfold share. apply Forall_fmap, Forall_forall. intros x Hx.
    apply list_elem_of_In, filter_In in Hx as [Hx%list_elem_of_In _]. rewrite Forall_forall in Hv. by apply Hv. }
  rewrite <- Hs in Hsh. apply Forall_app in Hsh as [Hlog Hpend]. destruct msg as [bb|].
  - assert (∃ pend', pend = bb :: pend' ∧ sw_running w = true) as (pend' & -> & Hr).
    { destruct Hcase as [(_ & Hr & Hqq)|[(_ & Hr & Hqq)|(_ & _ & _ & Hqq)]]; [..|done]; destruct pend as [|b pend']; cbn in Hqq; try discriminate; injection Hqq as -> _; by eexists. }
    destruct (run_each_inv engine_new (sw_log w).*1 engine_new_ok Hlog) as (evs & e & Hr1 & He). rewrite Hrun in Hr1. injection Hr1 as <- <-.
    apply Forall_cons in Hpend as [Hb _]. destruct (on_order_inv _ bb He Hb) as (ev & e' & Ho & _). eexists. cbn [worker_on]. rewrite Ho. by split.
  - destruct Hcase as [(_ & _ & Hqq)|[(_ & Hr & _)|(_ & _ & _ & Hqq)]]; [by destruct pend|by eexists|done].
Qed.

(** Not finished means that some step can be done. *)
Lemma pool_progress orders shards n p :
  Forall order_valid orders.*2 → (0 < shards)%nat → pool_inv orders shards n p → pool_finished p ∨ ∃ p', pool_step orders shards p p'.
Proof.
  intros Hv Hsh Hinv. destruct p as [k d qs ws per]. pose proof Hinv as [H1 H2 H3 H4 H5 H6 H7 H8 H9]. cbn [p_queues p_workers per_shard p_next p_done] in *.
  destruct (decide (k < length orders)%nat) as [Hk|Hk].
  { right. assert (d = 0%nat) as -> by lia. destruct (lookup_lt_is_Some_2 orders k Hk) as [[sym bb] Ho].
    assert (∃ s, shard_index shards sym = Some s) as [s Hi] by (unfold shard_index; destruct shards; [lia|by eexists]). pose proof (shard_index_lt _ _ _ Hi) as Hlt.
    destruct (lookup_lt_is_Some_2 qs s ltac:(lia)) as [q Hq]. destruct (lookup_lt_is_Some_2 per s ltac:(lia)) as [c Hc]. eexists. by eapply pool_send. }
  assert (k = length orders) as -> by lia. destruct (decide (d < shards)%nat) as [Hd|Hd].
  { right. destruct (lookup_lt_is_Some_2 qs d ltac:(lia)) as [q Hq]. eexists. by eapply pool_send_done. }
  assert (d = shards) as -> by lia. destruct (decide (Forall (λ w, sw_running w = false) ws)) as [Hall|Hsome]; [by left|]. right.
  apply not_Forall_Exists, Exists_exists in Hsome as (w & Hin & Hr); [|apply _]. apply list_elem_of_lookup in Hin as [s Hw].
  pose proof (lookup_lt_Some _ _ _ Hw) as Hlt. destruct (lookup_lt_is_Some_2 qs s ltac:(lia)) as [q Hq].
  destruct (H7 s q w Hq Hw) as (pend & _ & _ & _ & [(? & _)|[(_ & _ & Hqq)|(_ & Hn & _)]]); [lia| |congruence].
  destruct q as [|msg q]; [by destruct pend|]. destruct (receive_possible _ _ _ _ s msg q w Hv Hinv Hq Hw) as (w' & Hon & Hrun). eexists. by eapply pool_receive.
Qed.

Lemma filter_zip_fst {A B} (f : A → bool) (l : list A) : ∀ (ys : list B), length ys = length l → (List.filter (f ∘ fst) (zip l ys)).*1 = List.filter f l.
Proof.
  induction l as [|x l IH]; intros [|y ys] Hl; [done|done|done|]. cbn [zip zip_with List.filter]. unfold compose at 1. cbn [fst].
  injection Hl as Hl. destruct (f x); cbn [fmap list_fmap fst]; by rewrite (IH ys Hl).
Qed.

Lemma zip_fst_snd {A B} (l : list (A * B)) : zip l.*1 l.*2 = l.
Proof. induction l as [|[a b] l IH]; [done|]. cbn. by f_equal. Qed.

(** A shard's log against the run of the single engine. *)
Lemma log_like_one orders shards k d s q w evss e :
  keyed orders → run_each engine_new orders.*2 = Some (evss, e) → shard_ok orders shards k d s q w → ((0 < d)%nat → k = length orders) →
  let all := List.filter (concerns (symbols_of shards s) ∘ fst) (zip orders.*2 evss) in
  sw_log w `prefix_of` all ∧ (sw_running w = false → sw_log w = all ∧ same_books (symbols_of shards s) (sw_engine w) e).
Proof.
  intros Hk Hrun (pend & Hs & Hlog & _ & Hcase) Hlast. cbv zeta. set (all := List.filter _ (zip _ _)).
  destruct (run_each_shard (symbols_of shards s) _ _ engine_new _ _ Hrun (λ _ _, eq_refl)) as (d' & Hd & Hb). fold all in Hd.
  assert (all.*1 = List.filter (concerns (symbols_of shards s)) orders.*2) as Hall by (apply filter_zip_fst; by eapply run_each_length).
  assert (∃ rest, all.*1 = (sw_log w).*1 ++ rest ∧ (sw_running w = false → rest = [])) as (rest & Hrest & Hstop).
  { exists (pend ++ List.filter (concerns (symbols_of shards s)) (drop k orders).*2). split.
    - rewrite app_assoc, Hs, share_concerns, <- List.filter_app, <- fmap_app, take_drop by done. done.
    - intros Hr. destruct Hcase as [(_ & ? & _)|[(_ & ? & _)|(Hd' & _ & -> & _)]]; [congruence..|]. by rewrite (Hlast ltac:(lia)), drop_all. }
  rewrite <- Hall, Hrest, run_each_app, Hlog in Hd. cbn [mbind option_bind] in Hd. destruct (run_each (sw_engine w) rest) as [[evs2 e2]|] eqn:Er; [|done].
  cbn in Hd. injection Hd as Hd <-.
  assert (all = sw_log w ++ zip rest evs2) as Heq.
  { rewrite <- (zip_fst_snd all), Hrest, <- Hd. rewrite zip_with_app by (by rewrite !length_fmap). f_equal. apply zip_fst_snd. }
  split; [rewrite Heq; by eexists|]. intros Hr. rewrite (Hstop Hr) in *. cbn in Er. injection Er as <- <-. split; [by rewrite Heq, app_nil_r|exact Hb].
Qed.

Lemma sum_seq_lookup {A} (f : A → nat) (g : nat → nat) (l : list A) : ∀ i,
  (∀ j x, l !! j = Some x → f x = g (i + j)%nat) → sum_list_with f l = sum_list_with g (seq i (length l)).
Proof.
  induction l as [|x l IH]; intros i Hfg; [done|]. cbn [sum_list_with length seq]. rewrite (Hfg 0%nat x eq_refl), Nat.add_0_r. f_equal.
  apply IH. intros j y Hy. rewrite (Hfg (S j) y Hy). f_equal. lia.
Qed.

(** Every order is in the share of one shard. *)
Lemma shares_partition orders shards : (0 < shards)%nat → sum_list_with (λ s, length (share orders shards (length orders) s)) (seq 0 shards) = length orders.
Proof.
  intros Hsh. unfold share. rewrite firstn_all. induction orders as [|[sym bb] l IH]; [induction (seq 0 shards) as [|x sq IHs]; cbn; [done|exact IHs]|].
  assert (∃ i, shard_index shards sym = Some i) as [i Hi] by (unfold shard_index; destruct shards; [lia|by eexists]). pose proof (shard_index_lt _ _ _ Hi) as Hlt.
  assert (∀ a m, sum_list_with (λ s, length (List.filter (routed shards s) ((sym, bb) :: l)).*2) (seq a m)
    = (sum_list_with (λ s, length (List.filter (routed shards s) l).*2) (seq a m) + if bool_decide (a <= i < a + m) then 1 else 0))%nat as Hgen.
  { intros a m. revert a. induction m as [|m IHm]; intros a; cbn [seq sum_list_with]; [rewrite bool_decide_eq_false_2 by lia; done|]. rewrite IHm.
    cbn [List.filter]. unfold routed at 1. cbn [fst]. rewrite Hi. destruct (Nat.eqb_spec i a) as [->|Hne]; cbn [fmap list_fmap length].
    - rewrite bool_decide_eq_false_2, bool_decide_eq_true_2 by lia. lia.
    - rewrite (bool_decide_ext (S a <= i < S a + m) (a <= i < a + S m))%nat by lia. lia. }
  rewrite Hgen, IH, bool_decide_eq_true_2 by lia. cbn. lia.
Qed.

(** The end: everything sent, everything received. *)
Lemma finished_end orders shards n p :
  (0 < shards)%nat → pool_inv orders shards n p → pool_finished p → n = (2 * (length orders + shards))%nat ∧ pool_total p = length orders.
Proof.
  intros Hsh [H1 H2 H3 H4 H5 H6 H7 H8 H9] Hf. unfold pool_finished in Hf. rewrite Forall_lookup in Hf.
  assert (∀ s q w, p_queues p !! s = Some q → p_workers p !! s = Some w → (s < p_done p)%nat ∧ q = [] ∧ sw_processed w = length (share orders shards (p_next p) s)) as Hend.
  { intros s q w Hq Hw. pose proof (Hf s w Hw) as Hr. destruct (H7 s q w Hq Hw) as (pend & Hs & _ & Hp & [(_ & ? & _)|[(_ & ? & _)|(? & _ & -> & ->)]]); [congruence..|].
    split_and!; [done|done|]. by rewrite Hp, <- Hs, app_nil_r, length_fmap. }
  destruct (lookup_lt_is_Some_2 (p_queues p) (shards - 1)%nat ltac:(lia)) as [q Hq]. destruct (lookup_lt_is_Some_2 (p_workers p) (shards - 1)%nat ltac:(lia)) as [w Hw].
  destruct (Hend _ _ _ Hq Hw) as [Hd _]. assert (p_next p = length orders) as Hnext by (apply H6; lia). split.
  - assert (sum_list_with length (p_queues p) = 0%nat) as Hz; [|unfold left_to_do in H9; lia].
    erewrite (sum_seq_lookup _ (λ _, 0%nat) _ 0); [by induction (seq 0 _)|]. intros s q' Hq'. pose proof (lookup_lt_Some _ _ _ Hq') as Hlt.
    destruct (lookup_lt_is_Some_2 (p_workers p) s ltac:(lia)) as [w' Hw']. destruct (Hend _ _ _ Hq' Hw') as (_ & -> & _). done.
  - unfold pool_total. erewrite (sum_seq_lookup _ (λ s, length (share orders shards (length orders) s)) _ 0); [rewrite H2; by apply shares_partition|].
    intros s w' Hw'. pose proof (lookup_lt_Some _ _ _ Hw') as Hlt. destruct (lookup_lt_is_Some_2 (p_queues p) s ltac:(lia)) as [q' Hq'].
    rewrite <- Hnext. by apply (Hend s q' w').
Qed.

(** Runs of every length up to the end exist. *)
Lemma pool_runs_on orders shards n :
  Forall order_valid orders.*2 → (0 < shards)%nat → (n <= 2 * (length orders + shards))%nat → ∃ p, pool_run orders shards n p.
Proof.
  intros Hv Hsh. induction n as [|n IH]; intros Hn; [eexists; apply run_new|]. destruct IH as [p Hp]; [lia|].
  pose proof (pool_run_inv _ _ _ _ Hp) as Hinv. destruct (pool_progress _ _ _ _ Hv Hsh Hinv) as [Hf|[p' Hst]]; [|eexists; by eapply run_step].
  destruct (finished_end _ _ _ _ Hsh Hinv Hf). lia.
Qed.

(** The orders of the program are routed by their symbol, and valid. *)
Lemma sym_name_plain i : (i < SYMBOL_SPACE)%nat → to_lowercase (remove_slash (sym_name i)) = sym_name i.
Proof.
  intros Hi. assert (forallb (λ i, String.eqb (to_lowercase (remove_slash (sym_name i))) (sym_name i)) (seq 0 SYMBOL_SPACE) = true) as Hall by (vm_compute; reflexivity).
  rewrite forallb_forall in Hall. apply String.eqb_eq, Hall, in_seq. unfold SYMBOL_SPACE in *. lia.
Qed.

Lemma shard_orders_ok n l : shard_orders n = Some l → keyed l ∧ Forall order_valid l.*2 ∧ length l = n.
Proof.
  unfold shard_orders. intros Hl. apply mapM_Some in Hl. pose proof (Forall2_length _ _ _ Hl) as Hlen. rewrite length_seq in Hlen. unfold keyed. rewrite Forall_fmap.
  assert (Forall (λ x, symbol_key x.2 = x.1 ∧ order_valid x.2) l) as Hall.
  { clear Hlen. revert Hl. generalize (seq 0 n) as ks. induction l as [|x l IH]; intros ks Hl; [done|]. apply Forall2_cons_inv_r in Hl as (k & ks' & Hk & Hl & ->).
    constructor; [|by eapply IH]. unfold shard_order in Hk. apply bind_Some in Hk as (bb & Hb & [= <-]). cbn [fst snd]. split; [|by eapply type_convert_spot_valid].
    unfold type_convert_spot, mq_limit in Hb. cbn [mq_symbol_key mbind option_bind] in Hb. set (sym := sym_name _) in *.
    assert (to_lowercase (remove_slash sym) = sym) as Hplain by (apply sym_name_plain, Nat.mod_upper_bound; unfold SYMBOL_SPACE; lia).
    rewrite Hplain in Hb. apply bind_Some in Hb as (num & _ & Hb). apply bind_Some in Hb as (price & _ & Hb).
    case_match; [done|]. cbn in Hb. case_match; [done|]. by injection Hb as <-. }
  split_and!; [|exact (Forall_impl _ _ _ Hall (λ x H, proj2 H))|done]. exact (Forall_impl _ _ _ Hall (λ x H, proj1 H)).
Qed.

(** Without a router nothing is lost either, as long as the orders can be made. *)
Lemma rss_loop_counts shard_id rounds : ∀ engine i processed,
  engine_ok engine → (∀ j, is_Some (rss_order shard_id j)) → rss_loop shard_id engine i rounds processed = Some (processed + rounds)%nat.
Proof.
  induction rounds as [|rounds IH]; intros engine i processed He Hall; cbn [rss_loop]; [f_equal; lia|].
  destruct (Hall i) as [bb Hb]. pose proof (type_convert_spot_valid _ _ Hb) as Hv. destruct (on_order_inv engine bb He Hv) as (evs & e1 & Ho & He1).
  rewrite Hb. cbn [mbind option_bind]. rewrite Ho. cbn [mbind option_bind]. rewrite IH by done. f_equal. lia.
Qed.

Lemma rss_total_counts shards rounds : (∀ s j, is_Some (rss_order s j)) → rss_total shards rounds = Some (shards * rounds)%nat.
Proof.
  intros Hall. induction shards as [|k IH]; [done|]. cbn [rss_total]. rewrite IH. cbn [mbind option_bind]. unfold rss_shard_run.
  rewrite rss_loop_counts by (done || apply engine_new_ok). cbn. f_equal. lia.
Qed.

(** C24.  Matching in shards is matching in one engine.  The orders are valid and
    routed by their symbol; threads and router take their steps in any order.  A
    thread's orders have, one by one, the events that a single engine has for them in
    the whole stream; a thread that has ended has matched all orders of its shard, in
    order, and holds the books the single engine holds for its symbols; the counts per
    shard are right.  The program never gets stuck, ends after the same number of
    steps whatever the schedule, and has then counted every order once. *)
Theorem shards_match_like_one orders shards n p :
  Forall order_valid orders.*2 → keyed orders → (0 < shards)%nat → pool_run orders shards n p →
  ∃ evss e, run_each engine_new orders.*2 = Some (evss, e)
    ∧ (∀ s w, p_workers p !! s = Some w →
         let all := List.filter (concerns (symbols_of shards s) ∘ fst) (zip orders.*2 evss) in
         sw_log w `prefix_of` all
         ∧ (sw_running w = false → sw_log w = all ∧ per_shard p !! s = Some (length all) ∧ same_books (symbols_of shards s) (sw_engine w) e))
    ∧ (pool_finished p ∨ ∃ p', pool_step orders shards p p')
    ∧ (n <= 2 * (length orders + shards))%nat
    ∧ (pool_finished p → n = (2 * (length orders + shards))%nat ∧ pool_total p = length orders).
Proof.
  intros Hv Hk Hsh Hp%pool_run_inv. destruct (run_each_inv engine_new orders.*2 engine_new_ok Hv) as (evss & e & Hrun & _). exists evss, e. split; [done|].
  split_and!; [|by eapply pool_progress|pose proof (pi_steps _ _ _ _ Hp); lia|by apply finished_end]. intros s w Hw all.
  pose proof (lookup_lt_Some _ _ _ Hw) as Hlt. destruct Hp as [H1 H2 H3 H4 H5 H6 H7 H8 H9].
  destruct (lookup_lt_is_Some_2 (p_queues p) s ltac:(lia)) as [q Hq]. destruct (lookup_lt_is_Some_2 (per_shard p) s ltac:(lia)) as [c Hc].
  pose proof (H7 s q w Hq Hw) as Hok. destruct (log_like_one _ _ _ _ _ _ _ evss e Hk Hrun Hok H6) as [Hpre Hstop]. split; [exact Hpre|]. intros Hr.
  destruct (Hstop Hr) as [Hlog Hb]. split_and!; [exact Hlog| |exact Hb]. rewrite Hc, (H8 s c Hc).
  destruct Hok as (pend & Hs & _ & _ & [(_ & ? & _)|[(_ & ? & _)|(_ & _ & -> & _)]]); [congruence..|]. rewrite <- Hs, app_nil_r, length_fmap. by rewrite Hlog.
Qed.

End Properties.

Module Witness.
Import WholeDecimal.

(** Three orders on two shards, to the end. *)
Definition three : list (string * BbOrder) := default [] (shard_orders 3).

Lemma three_ok : keyed three ∧ Forall order_valid three.*2 ∧ length three = 3%nat.
Proof.
  apply shard_orders_ok. unfold three. assert (match shard_orders 3 with Some _ => true | None => false end = true) as Hs by (vm_compute; reflexivity).
  by destruct (shard_orders 3).
Qed.

Lemma shards_match_like_one_witness :
  ∃ p evss e, pool_run three 2 10 p ∧ run_each engine_new three.*2 = Some (evss, e) ∧ (pool_finished p ∨ ∃ p', pool_step three 2 p p').
Proof.
  destruct three_ok as (H1 & H2 & H3). destruct (pool_runs_on three 2 10 H2 ltac:(lia) ltac:(rewrite H3; lia)) as [p Hp].
  destruct (shards_match_like_one three 2 10 p H2 H1 ltac:(lia) Hp) as (evss & e & Hr & _ & Hprog & _). exists p, evss, e.
  split; [exact Hp|]. split; [exact Hr|exact Hprog].
Defined.

(** Each pair of orders trades: no book holds an order after an even number of them. *)
Example books_stay_empty :
  match run_each engine_new (default [] (shard_orders 300)).*2 with
  | Some (evss, e) => (length (concat evss), forallb (λ b, match buys b, sells b with [], [] => true | _, _ => false end) (map_to_list e).*2)
  | None => (0%nat, false)
  end = (150%nat, true).
Proof. vm_compute. reflexivity. Qed.

End Witness.
