(* ===== verification/ShardRing.v ===== *)
(** * A client, a ring and a matching thread

    Models [crates/match-udp-order/src/bin/client_shard_bench.rs]: a client thread
    makes orders and pushes them into a ring with one producer and one consumer; a
    shard thread takes batches out, matches them, and ends when it finds the ring empty
    and the client done.  [try_push] and [pop_n] are steps of their own: that their loads
    and stores may interleave is the matter of [Spsc], whose ring has the same counters.

    Orders are matched in the order they were made, each once, and never one that was
    not pushed; the ring stays within its size and its slots are never found empty.  But
    the flag is read after the ring was found empty: orders pushed in between are left
    behind ([shutdown_loses_orders]). *)
From stdpp Require Import gmap.
From S2P Require Import Prelude Decimal Protocol CoreBook CoreMatch CoreEngine ProtocolProps HpScale Spsc Gateway PlainDecimal Workload Shards.

#[local] Open Scope Z_scope.

Definition RING_CAP : Z := 4096.

Section Ring.
Context `{BD : BigDecimal}.

Record BbRing := mkBbRing { rb_buf : list (option BbOrder); rb_mask : Z; rb_tail : Z; rb_head : Z }.

Definition bb_with_capacity (cap : Z) : BbRing :=
  let cap := next_power_of_two (Z.max cap 2) in mkBbRing (replicate (Z.to_nat cap) None) (cap - 1) 0 0.

Definition bb_slot (mask i : Z) : nat := Z.to_nat (Z.land i mask).

(** [None] is [false]: the ring is full. *)
Definition bb_try_push (r : BbRing) (cmd : BbOrder) : option BbRing :=
  if wrapping_sub (rb_tail r) (rb_head r) >? rb_mask r then None
  else Some (mkBbRing (<[bb_slot (rb_mask r) (rb_tail r) := Some cmd]> (rb_buf r)) (rb_mask r) (wrapping_add (rb_tail r) 1) (rb_head r)).

(** [n] slots from [i] on, each taken; [None] is the panic of [expect]. *)
Fixpoint bb_take (buf : list (option BbOrder)) (mask head : Z) (i n : nat) : option (list BbOrder * list (option BbOrder)) :=
  match n with
  | O => Some ([], buf)
  | S n =>
      let idx := bb_slot mask (wrapping_add head (Z.of_nat i)) in
      cmd ← mjoin (buf !! idx);
      '(out, buf) ← bb_take (<[idx := None]> buf) mask head (S i) n;
      Some (cmd :: out, buf)
  end.

Definition bb_pop_n (r : BbRing) (max : nat) : option (list BbOrder * BbRing) :=
  if (max =? 0)%nat then Some ([], r)
  else
    let n := Nat.min (Z.to_nat (wrapping_sub (rb_tail r) (rb_head r))) max in
    if (n =? 0)%nat then Some ([], r)
    else
      '(out, buf) ← bb_take (rb_buf r) (rb_mask r) (rb_head r) 0 n;
      Some (out, mkBbRing buf (rb_mask r) (rb_tail r) (wrapping_add (rb_head r) (Z.of_nat n))).

(** The order of round [i] of the client of shard [shard_id]. *)
Definition client_order (shard_id i : nat) : option BbOrder :=
  let sym_id := (shard_id * SYMBOLS_PER_SHARD + (i / 2) mod SYMBOLS_PER_SHARD)%nat in
  let side := if Nat.even i then ORDER_TYPE_BUY else ORDER_TYPE_SELL in
  let price := (if Nat.even i then "100.00" else "99.99")%string in
  type_convert_spot (mq_limit side (sym_name sym_id) (numbered ("c" +:+ numbered "" shard_id +:+ "o") i) price "1").

(** The shard: polling, working on a batch, having found the ring empty, ended. *)
Inductive ShardPc := SPoll | SBatch (batch : list BbOrder) | SEmpty | SStopped.

Record Pipe := mkPipe {
  pp_ring : BbRing; pp_pushed : nat; pp_done : bool; pp_shard : ShardPc; pp_engine : Engine; pp_processed : nat }.

(** [main] with a ring of the given capacity; the program's is [RING_CAP]. *)
Definition pipe_new (cap : Z) : Pipe := mkPipe (bb_with_capacity cap) 0 false SPoll engine_new 0.

(** A step of [client_run] or [shard_run]; a push into a full ring and [yield_now]
    change nothing. *)
Inductive pipe_step (orders : list BbOrder) : Pipe → Pipe → Prop :=
| client_push r r' i pc e n o :
    orders !! i = Some o → bb_try_push r o = Some r' →
    pipe_step orders (mkPipe r i false pc e n) (mkPipe r' (S i) false pc e n)
| client_done r pc e n :
    pipe_step orders (mkPipe r (length orders) false pc e n) (mkPipe r (length orders) true pc e n)
| shard_pop r r' i d e n batch :
    bb_pop_n r 64 = Some (batch, r') →
    pipe_step orders (mkPipe r i d SPoll e n) (mkPipe r' i d (match batch with [] => SEmpty | _ => SBatch batch end) e n)
| shard_match r i d e n o batch evs e' :
    on_order e o = Some (evs, e') →
    pipe_step orders (mkPipe r i d (SBatch (o :: batch)) e n) (mkPipe r i d (SBatch batch) e' (S n))
| shard_next r i d e n : pipe_step orders (mkPipe r i d (SBatch []) e n) (mkPipe r i d SPoll e n)
| shard_stop r i e n : pipe_step orders (mkPipe r i true SEmpty e n) (mkPipe r i true SStopped e n)
| shard_yield r i e n : pipe_step orders (mkPipe r i false SEmpty e n) (mkPipe r i false SPoll e n).

Inductive pipe_reachable (cap : Z) (orders : list BbOrder) : Pipe → Prop :=
| pipe_start : pipe_reachable cap orders (pipe_new cap)
| pipe_next p p' : pipe_reachable cap orders p → pipe_step orders p p' → pipe_reachable cap orders p'.

(** ** The ring holds a window of what was pushed *)

Section Window.
Context (cap : Z) (Hcap : cap_ok cap).

#[local] Abbreviation RING_SIZE := (ring_size cap).

Record ring_window (orders : list BbOrder) (H T : nat) (r : BbRing) : Prop := {
  rw_mask : rb_mask r = Z.of_nat RING_SIZE - 1;
  rw_buf : length (rb_buf r) = RING_SIZE;
  rw_tail : rb_tail r = counter T;
  rw_head : rb_head r = counter H;
  rw_room : (H <= T <= H + RING_SIZE)%nat;
  rw_len : (T <= length orders)%nat;
  rw_slots j : (H <= j < T)%nat → ∃ o, orders !! j = Some o ∧ rb_buf r !! (j mod RING_SIZE)%nat = Some (Some o) }.

Lemma ring_size_ok : (2 <= RING_SIZE)%nat ∧ Z.of_nat RING_SIZE < 2 ^ 64.
Proof. by apply ring_size_bounds. Qed.

Lemma slot_of r j : rb_mask r = Z.of_nat RING_SIZE - 1 → bb_slot (rb_mask r) (counter j) = (j mod RING_SIZE)%nat.
Proof. intros Hm. exact (counter_slot cap (mkRing [] (rb_mask r) 0 0) j Hcap Hm). Qed.

Lemma window_new orders : ring_window orders 0 0 (bb_with_capacity cap).
Proof.
  constructor; unfold bb_with_capacity; cbn [rb_mask rb_buf rb_tail rb_head]; [|by rewrite length_replicate|done|done|lia|lia|intros; lia].
  unfold ring_size. rewrite Z2Nat.id; [done|]. unfold next_power_of_two. destruct (_ <=? 1); [lia|apply Z.pow_nonneg; lia].
Qed.

Lemma window_push orders H T r o :
  ring_window orders H T r → orders !! T = Some o →
  match bb_try_push r o with Some r' => (T < H + RING_SIZE)%nat ∧ ring_window orders H (S T) r' | None => T = (H + RING_SIZE)%nat end.
Proof.
  intros [Hm Hb Ht Hh Hr Hl Hs] Ho. destruct ring_size_ok as [H2 H64]. unfold bb_try_push. rewrite Ht, Hh, counter_sub, Hm, Z.gtb_ltb by lia.
  destruct (Z.ltb_spec (Z.of_nat RING_SIZE - 1) (Z.of_nat (T - H))); [lia|]. rewrite <- Hm, (slot_of r) by done. split; [lia|].
  constructor; cbn [rb_mask rb_buf rb_tail rb_head]; try done; [by rewrite length_insert| |lia|by apply lookup_lt_Some in Ho|].
  - change 1 with (Z.of_nat 1). rewrite counter_add. f_equal. lia.
  - intros j Hj. destruct (decide (j = T)) as [->|Hne].
    + exists o. split; [done|]. apply list_lookup_insert_eq. rewrite Hb. apply Nat.mod_upper_bound. lia.
    + destruct (Hs j ltac:(lia)) as (o' & Ho' & Hj'). exists o'. split; [done|]. rewrite list_lookup_insert_ne; [done|]. apply not_eq_sym, mod_neq; lia.
Qed.

(** Taking [n] slots from position [H + i] on. *)
Lemma take_window orders n : ∀ i buf H T r,
  ring_window orders H T r → (H + i + n <= T)%nat → length buf = RING_SIZE →
  (∀ j, (H + i <= j < T)%nat → buf !! (j mod RING_SIZE)%nat = rb_buf r !! (j mod RING_SIZE)%nat) →
  ∃ buf', bb_take buf (rb_mask r) (rb_head r) i n = Some (take n (drop (H + i) orders), buf') ∧ length buf' = RING_SIZE
    ∧ ∀ j, (H + i + n <= j < T)%nat → buf' !! (j mod RING_SIZE)%nat = rb_buf r !! (j mod RING_SIZE)%nat.
Proof.
  induction n as [|n IH]; intros i buf H T r Hw Hn Hlen Hsame; cbn [bb_take].
  { exists buf. rewrite take_0. split_and!; [done|done|]. intros j Hj. apply Hsame. lia. }
  pose proof Hw as [Hm Hb Ht Hh Hr Hl Hs]. destruct ring_size_ok as [H2 H64].
  assert (bb_slot (rb_mask r) (wrapping_add (rb_head r) (Z.of_nat i)) = ((H + i) mod RING_SIZE)%nat) as -> by (by rewrite Hh, counter_add, (slot_of r)).
  destruct (Hs (H + i)%nat ltac:(lia)) as (o & Ho & Hj). rewrite Hsame, Hj by lia. cbn [mjoin option_join mbind option_bind].
  destruct (IH (S i) (<[((H + i) mod RING_SIZE)%nat := None]> buf) H T r Hw ltac:(lia) ltac:(by rewrite length_insert)) as (buf' & Htk & Hl' & Hrest).
  { intros j Hjr. rewrite list_lookup_insert_ne; [apply Hsame; lia|]. apply mod_neq; lia. }
  replace (H + S i)%nat with (S (H + i)) in * by lia. rewrite Htk. cbn [mbind option_bind]. rewrite (drop_S _ _ _ Ho). exists buf'. split_and!; [done|done|].
  intros j Hjr. apply Hrest. lia.
Qed.

(** A pop returns the oldest orders; none only if the ring is empty. *)
Lemma window_pop orders H T r :
  ring_window orders H T r →
  ∃ batch r' n, bb_pop_n r 64 = Some (batch, r') ∧ batch = take n (drop H orders) ∧ length batch = n ∧ ring_window orders (H + n) T r' ∧ (batch = [] → H = T).
Proof.
  intros Hw. pose proof Hw as [Hm Hb Ht Hh Hr Hl Hs]. destruct ring_size_ok as [H2 H64]. unfold bb_pop_n. cbn [Nat.eqb]. rewrite Ht, Hh, counter_sub, Nat2Z.id by lia.
  set (n := Nat.min (T - H) 64). destruct (Nat.eqb_spec n 0) as [Hz|Hnz].
  { exists [], r, 0%nat. rewrite take_0, Nat.add_0_r. split_and!; try done. lia. }
  destruct (take_window orders n 0 (rb_buf r) H T r Hw ltac:(lia) Hb ltac:(done)) as (buf' & Htk & Hl' & Hrest). rewrite Nat.add_0_r in Htk, Hrest. rewrite Hh in Htk. rewrite Htk. cbn [mbind option_bind].
  assert (length (take n (drop H orders)) = n) as Hlen by (rewrite length_take, length_drop; lia).
  eexists _, _, n. split; [reflexivity|]. split_and!; [done|done| |intros He; rewrite He in Hlen; cbn in Hlen; lia].
  constructor; cbn [rb_mask rb_buf rb_tail rb_head]; try done; [apply counter_add|lia|]. intros j Hj. destruct (Hs j ltac:(lia)) as (o & Ho & Hslot). exists o. split; [done|]. by rewrite Hrest by lia.
Qed.

(** ** The pipeline *)

Definition in_hand (pc : ShardPc) : list BbOrder := match pc with SBatch batch => batch | _ => [] end.

Definition log_of (orders : list BbOrder) (p : Pipe) : list BbOrder := take (pp_processed p) orders.

(** [H] orders have left the ring: matched or in hand. *)
Definition pipe_inv (orders : list BbOrder) (H : nat) (p : Pipe) : Prop :=
  ring_window orders H (pp_pushed p) (pp_ring p)
  ∧ log_of orders p ++ in_hand (pp_shard p) = take H orders ∧ (pp_processed p <= H)%nat
  ∧ (∃ evss, run_each engine_new (log_of orders p) = Some (evss, pp_engine p))
  ∧ (pp_done p = true → pp_pushed p = length orders)
  ∧ (pp_shard p = SStopped → pp_done p = true).

Lemma pipe_inv_new orders : pipe_inv orders 0 (pipe_new cap).
Proof. split_and!; [apply window_new|done|done|by exists []|done|done]. Qed.

Lemma taken_more (orders : list BbOrder) H n : take H orders ++ take n (drop H orders) = take (H + n) orders.
Proof. apply take_take_drop. Qed.

Lemma pipe_match orders H r i d o batch e n evs e' :
  pipe_inv orders H (mkPipe r i d (SBatch (o :: batch)) e n) → on_order e o = Some (evs, e') → pipe_inv orders H (mkPipe r i d (SBatch batch) e' (S n)).
Proof.
  unfold pipe_inv, log_of. cbn [pp_ring pp_pushed pp_done pp_shard pp_engine pp_processed in_hand]. intros (Hw & Hlog & Hn & (evss & Hrun) & Hd & _) Ho.
  pose proof (rw_len _ _ _ _ Hw) as HT. pose proof (rw_room _ _ _ _ Hw) as [HH _]. pose proof (f_equal length Hlog) as Hl. rewrite length_app, !length_take in Hl. cbn [length] in Hl.
  assert (orders !! n = Some o) as Hno.
  { rewrite <- (lookup_take_lt orders H n) by lia. rewrite <- Hlog, lookup_app_r by (rewrite length_take; lia). rewrite length_take, Nat.min_l, Nat.sub_diag by lia. done. }
  rewrite (take_S_r _ _ _ Hno). split_and!; [done|by rewrite <- app_assoc|lia| |done|done]. rewrite run_each_app, Hrun. cbn [mbind option_bind run_each]. rewrite Ho. by eexists.
Qed.

Lemma pipe_step_inv orders H p p' : pipe_inv orders H p → pipe_step orders p p' → ∃ H', pipe_inv orders H' p'.
Proof.
  intros Hinv Hst. destruct Hst as [r r' i pc e n o Ho Hp|r pc e n|r r' i d e n batch Hp|r i d e n o batch evs e' Ho|r i d e n|r i e n|r i e n]; [| | |by eexists; eapply pipe_match|..];
    destruct Hinv as (Hw & Hlog & Hn & Hrun & Hd & Hs); unfold pipe_inv, log_of in *; cbn [pp_ring pp_pushed pp_done pp_shard pp_engine pp_processed in_hand] in *.
  - exists H. pose proof (window_push _ _ _ _ _ Hw Ho) as Hpush. rewrite Hp in Hpush. destruct Hpush as [_ Hw']. by split_and!.
  - exists H. by split_and!.
  - destruct (window_pop _ _ _ _ Hw) as (batch' & r2 & m & Hp' & -> & Hlen & Hw' & _). rewrite Hp in Hp'. injection Hp' as -> ->. exists (H + m)%nat.
    rewrite app_nil_r in Hlog. destruct (take m (drop H orders)) as [|b bs] eqn:Eb; cbn [pp_shard in_hand length] in *; rewrite <- taken_more, Eb, <- Hlog; (split_and!; try done; lia).
  - exists H. by split_and!.
  - exists H. by split_and!.
  - exists H. by split_and!.
Qed.

Lemma pipe_reachable_inv orders p : pipe_reachable cap orders p → ∃ H, pipe_inv orders H p.
Proof. induction 1 as [|p p' _ [H Hinv] Hst]; [exists 0%nat; apply pipe_inv_new|by eapply pipe_step_inv]. Qed.

(** Pushing from an empty ring until everything is in it. *)
Lemma push_all orders e n m :
  (m <= length orders)%nat → (m <= RING_SIZE)%nat → pipe_reachable cap orders (mkPipe (bb_with_capacity cap) 0 false SEmpty e n) →
  ∃ r, pipe_reachable cap orders (mkPipe r m false SEmpty e n) ∧ ring_window orders 0 m r.
Proof.
  intros Hl Hc Hreach. induction m as [|m IH]; [eexists; split; [exact Hreach|apply window_new]|]. destruct IH as (r & Hr & Hw); [lia..|].
  destruct (lookup_lt_is_Some_2 orders m ltac:(lia)) as [o Ho]. pose proof (window_push _ _ _ _ _ Hw Ho) as Hp. destruct (bb_try_push r o) as [r'|] eqn:Ep; [|lia].
  exists r'. split; [|apply Hp]. eapply pipe_next; [exact Hr|by eapply client_push].
Qed.

(** The shutdown race: the shard finds the ring empty, the client pushes everything
    and sets the flag, the shard reads the flag and ends; no order is matched. *)
Lemma shutdown_loses_orders orders :
  (length orders <= RING_SIZE)%nat →
  ∃ r, pipe_reachable cap orders (mkPipe r (length orders) true SStopped engine_new 0) ∧ ring_window orders 0 (length orders) r.
Proof.
  intros Hl. assert (pipe_reachable cap orders (mkPipe (bb_with_capacity cap) 0 false SEmpty engine_new 0)) as H0.
  { eapply pipe_next; [apply pipe_start|]. unfold pipe_new. destruct (window_pop orders 0 0 _ (window_new orders)) as (batch & r' & n & Hp & _). eapply (shard_pop _ _ _ _ _ _ _ []). done. }
  destruct (push_all orders engine_new 0 (length orders) ltac:(lia) Hl H0) as (r & Hr & Hw). exists r. split; [|done].
  eapply pipe_next; [|apply shard_stop]. eapply pipe_next; [exact Hr|apply client_done].
Qed.

End Window.

End Ring.

Section Properties.
Context `{BDS : BigDecimalSpec}.

(** C25.  The shard matches what the client made, in order.  The orders are valid and the
    two threads take their steps in any order: the shard has matched exactly the first [n]
    orders pushed, its engine is that of a run of them; the ring holds what is not
    matched or in hand, within its size, and taking from it never finds an empty slot.
    While the shard has not ended some step can be done.  A poll that finds the ring
    empty after the client is done has seen every order. *)
Theorem shard_ring_in_order cap orders p :
  cap_ok cap → Forall order_valid orders → pipe_reachable cap orders p →
  ∃ evss h, let n := pp_processed p in
    run_each engine_new (take n orders) = Some (evss, pp_engine p) ∧ take n orders ++ in_hand (pp_shard p) = take h orders
    ∧ (n <= h)%nat ∧ ring_window cap orders h (pp_pushed p) (pp_ring p)
    ∧ (∃ batch r', bb_pop_n (pp_ring p) 64 = Some (batch, r')
         ∧ (pp_done p = true → pp_shard p = SPoll → batch = [] → n = length orders))
    ∧ (pp_shard p = SStopped ∨ ∃ p', pipe_step orders p p').
Proof.
  intros Hcap Hv Hp. destruct (pipe_reachable_inv cap Hcap orders p Hp) as (h & Hw & Hlog & Hn & (evss & Hrun) & Hd & Hs). exists evss, h. cbv zeta. unfold log_of in *.
  destruct (window_pop cap Hcap _ _ _ _ Hw) as (batch & r' & m & Hpop & Hb & Hlen & Hw' & Hemp). split_and!; try done.
  - exists batch, r'. split; [done|]. intros Hdone Hpc He. rewrite Hpc in Hlog. cbn [in_hand] in Hlog. rewrite app_nil_r in Hlog.
    specialize (Hd Hdone). specialize (Hemp He). apply (f_equal length) in Hlog. rewrite !length_take in Hlog. pose proof (rw_len _ _ _ _ _ Hw). lia.
  - destruct p as [r i d pc e n]. cbn [pp_ring pp_pushed pp_done pp_shard pp_engine pp_processed in_hand] in *. destruct pc as [|[|o bs]| |]; [right..|by left].
    + eexists. by eapply shard_pop.
    + eexists. apply shard_next.
    + assert (Forall order_valid (take h orders)) as HvH by (by apply Forall_take). rewrite <- Hlog in HvH. cbn [in_hand] in HvH. apply Forall_app in HvH as [Hv1 Hv2]. apply Forall_cons in Hv2 as [Ho _].
      destruct (run_each_inv engine_new (take n orders) engine_new_ok Hv1) as (evss' & e' & Hr' & He'). rewrite Hrun in Hr'. injection Hr' as <- <-.
      destruct (on_order_inv e o He' Ho) as (evs & e' & Hon & _). eexists. by eapply shard_match.
    + destruct d; eexists; [apply shard_stop|apply shard_yield].
Qed.

End Properties.

Module Witness.
Import WholeDecimal.

Definition two : list BbOrder := omap (client_order 0) (seq 0 2).

Lemma two_orders_valid : Forall order_valid two.
Proof.
  apply Forall_forall. intros o Ho. unfold two in Ho. apply list_elem_of_omap in Ho as (i & _ & Hi). unfold client_order in Hi. by eapply type_convert_spot_valid.
Qed.

(** The race, with two orders. *)
Lemma shard_ring_in_order_witness :
  ∃ p evss h, pipe_reachable 4096 two p ∧ pp_pushed p = length two ∧ pp_shard p = SStopped
    ∧ run_each engine_new (take (pp_processed p) two) = Some (evss, pp_engine p) ∧ ring_window 4096 two h (pp_pushed p) (pp_ring p).
Proof.
  assert (cap_ok 4096) as Hc by (unfold cap_ok; lia). assert (length two <= ring_size 4096)%nat as Hl by (apply Nat2Z.inj_le; vm_compute; discriminate).
  destruct (shutdown_loses_orders 4096 Hc two Hl) as (r & Hr & _).
  destruct (shard_ring_in_order 4096 two _ Hc two_orders_valid Hr) as (evss & h & H1 & _ & _ & H2 & _). cbn [pp_processed pp_engine pp_pushed pp_ring] in H1, H2.
  exists (mkPipe r (length two) true SStopped engine_new 0), evss, h. split; [exact Hr|]. split; [reflexivity|]. split; [reflexivity|]. split; [exact H1|exact H2].
Defined.

End Witness.
