(* ===== verification/CrashTest.v ===== *)
(** * The crash test of the journal

    Models [crates/match-udp-order/src/bin/hp_journal_crash_test.rs]: a child process
    journals orders, matches them, commits now and then and writes a checkpoint after
    each commit; the parent kills it, replays the committed records into a fresh
    engine and compares with the last checkpoint.  The child is a machine of small
    steps, so that the kill may come between any two of them, inside a checkpoint line
    too.  Its file is the mapped region: what a process wrote survives its [SIGKILL]
    (that it survives the machine's end is the matter of [Journal]).  A line of the
    checkpoint file is the list of its numbers, as [split_whitespace] and [parse] find
    them.  A panic is [None]. *)
From stdpp Require Import gmap.
From S2P Require Import Prelude HpTypes HpIndex HpBook HpEngine HpProps SpscProps Journal PriorityBook CrossHp Workload WorkloadProps.

#[local] Open Scope Z_scope.

Definition REC_LEN : nat := 35.
Definition JOURNAL_CAP : Z := 256 * 1024 * 1024.

Definition encode_limit (s : Side) (price_tick qty_lot client_id : Z) : list Z :=
  [0] ++ [match s with Buy => 0 | Sell => 1 end] ++ le_bytes 8 price_tick ++ le_bytes 8 qty_lot ++ le_bytes 8 0 ++ le_bytes 8 client_id ++ [0].

(** Slices out of range panic. *)
Definition decode_limit (p : list Z) : option HpCommand :=
  if (length p <? 34)%nat then None
  else Some (Limit (if default 1 (p !! 1%nat) =? 0 then Buy else Sell) (i64_wrap (le_val (slice 2 10 p))) (i64_wrap (le_val (slice 10 18 p)))
               (le_val (slice 18 26 p)) (le_val (slice 26 34 p))).

(** Side and price of round [i]: a pair that trades, a bid and an ask that rest. *)
Definition round (i : nat) : Side * Z :=
  match (i mod 4)%nat with 0%nat => (Buy, 100000) | 1%nat => (Sell, 99990) | 2%nat => (Buy, 99950) | _ => (Sell, 100500) end.

Definition order_at (i : nat) : HpCommand := Limit (round i).1 (round i).2 1 0 (Z.of_nat i).

Definition order_record (i : nat) : list Z := encode_limit (round i).1 (round i).2 1 (Z.of_nat i).

(** [writes_to_ckpt] *)
Definition ckpt_fields (orders : nat) (bid ask : option Z) (fills : nat) : list Z :=
  [Z.of_nat orders; default (-1) bid; default (-1) ask; Z.of_nat fills].

Record Ckpt := mkCkpt { ck_orders : Z; ck_bid : Z; ck_ask : Z; ck_fills : Z }.

(** A line that lacks a number is skipped. *)
Definition parse_ckpt (line : list Z) : option Ckpt :=
  match line with o :: b :: a :: f :: _ => Some (mkCkpt o b a f) | _ => None end.

Definition read_ckpts (lines : list (list Z)) : list Ckpt := omap parse_ckpt lines.

Definition fill_events (evs : list HpEvent) : nat := length (List.filter is_hp_fill evs).

Section Child.
Context {BI AI : Type} `{LB : LevelIndex BI} `{LA : LevelIndex AI}.

(** [run_child]; the program counter, whether the loop is over, the checkpoint file
    with its last line while it is written. *)
Inductive ChildPc := AtLoop | AtMatch | AtCommit | AtCkpt | Finished.

Record Child := mkChild {
  ch_pc : ChildPc; ch_final : bool; ch_i : nat; ch_j : MmapJournal; ch_engine : HpEngine BI AI; ch_since : nat; ch_fills : nat;
  ch_lines : list (list Z); ch_torn : list Z }.

Definition child_new (cap : nat) : Child := mkChild AtLoop false 0 (journal_create cap) hp_engine_new 0 0 [] [].

Definition child_step (count every : nat) (c : Child) : option Child :=
  let '(mkChild pc final i j engine since fills lines torn) := c in
  match pc with
  | AtLoop =>
      if (i <? count)%nat then
        match journal_append j (order_record i) with
        | (Some _, j) => Some (mkChild AtMatch final i j engine since fills lines torn)
        | (None, _) => None
        end
      else Some (mkChild AtCommit true i j engine since fills lines torn)
  | AtMatch =>
      '(evs, engine) ← hp_on_order engine (order_at i);
      Some (mkChild (if (every <=? S since)%nat then AtCommit else AtLoop) final (S i) j engine (S since) (fills + fill_events evs) lines torn)
  | AtCommit => Some (mkChild AtCkpt final i (commit_header j) engine since fills lines torn)
  | AtCkpt =>
      match ckpt_fields i (best_bid (book engine)) (best_ask (book engine)) fills !! length torn with
      | Some field => Some (mkChild AtCkpt final i j engine since fills lines (torn ++ [field]))
      | None => Some (mkChild (if final then Finished else AtLoop) final i j engine 0 fills (lines ++ [torn]) [])
      end
  | Finished => Some c
  end.

(** The child as the kill finds it after [n] steps. *)
Fixpoint child_after (cap count every n : nat) : option Child :=
  match n with
  | O => Some (child_new cap)
  | S n => c ← child_after cap count every n; child_step count every c
  end.

(** The lines that [BufReader::lines] returns, the last one even without its end. *)
Definition ckpt_lines (c : Child) : list (list Z) := ch_lines c ++ match ch_torn c with [] => [] | _ => [ch_torn c] end.

(** [replay] on the bytes of the journal file. *)
Fixpoint replay_loop (engine : HpEngine BI AI) (orders fills : nat) (recs : list (nat * list Z)) : option (nat * nat * HpEngine BI AI) :=
  match recs with
  | [] => Some (orders, fills, engine)
  | (_, p) :: recs =>
      cmd ← decode_limit p;
      '(evs, engine) ← hp_on_order engine cmd;
      replay_loop engine (S orders) (fills + fill_events evs) recs
  end.

Definition replay (cap : nat) (file : list Z) : option (nat * nat * option Z * option Z) :=
  '(orders, fills, engine) ← replay_loop hp_engine_new 0 0 (recovered cap file);
  Some (orders, fills, best_bid (book engine), best_ask (book engine)).

(** [verify]; numbers are compared as their texts are. *)
Definition verify (cap : nat) (file : list Z) (lines : list (list Z)) (expect_orders : option nat) : option (nat * nat) :=
  '(orders, fills, bid, ask) ← replay cap file;
  if negb (match expect_orders with Some e => (orders =? e)%nat | None => true end) then None
  else
    best ← List.find (λ c, ck_orders c <=? Z.of_nat orders) (rev (read_ckpts lines));
    if (default (-1) bid =? ck_bid best) && (default (-1) ask =? ck_ask best) && (0 <? orders)%nat then Some (orders, fills) else None.

(** [main], scenario 1: the child is left alone; it has ended after [n] steps. *)
Definition graceful_exit (cap count every n : nat) : option nat :=
  c ← child_after cap count every n;
  match ch_pc c with
  | Finished =>
      '(orders, _) ← verify cap (j_map (ch_j c)) (ckpt_lines c) (Some count);
      if (orders =? count)%nat then Some orders else None
  | _ => None
  end.

(** Scenario 2: the child is killed after [n] steps; the replay must not have all orders. *)
Definition sigkill (cap count every n : nat) : option nat :=
  c ← child_after cap count every n;
  '(orders2, _) ← verify cap (j_map (ch_j c)) (ckpt_lines c) None;
  if (orders2 <? count)%nat then Some orders2 else None.

Definition main_test (cap count every n1 n2 : nat) : option nat :=
  _ ← graceful_exit cap count every n1; sigkill cap count every n2.

End Child.

(** [read_header] of the file *)
Definition read_header (file : list Z) : Z := le_val (take 8 file).

(** The parent waits for this, but not longer than its 500 polls. *)
Definition three_batches (every : nat) (file : list Z) : bool := 8 + 3 * Z.of_nat every * (Z.of_nat REC_LEN + 4) <? read_header file.

(** [orders_from_bytes] *)
Definition orders_from_bytes (bytes : Z) : Z := if bytes <=? 8 then 0 else (bytes - 8) / (Z.of_nat REC_LEN + 4).

(** ** Records *)

Lemma length_order_record i : length (order_record i) = 35%nat.
Proof. unfold order_record, encode_limit. rewrite !length_app, !length_le_bytes. done. Qed.

Lemma decode_order_record i : Z.of_nat i < 2 ^ 64 → decode_limit (order_record i) = Some (order_at i).
Proof.
  intros Hi. unfold decode_limit. rewrite length_order_record. cbn [Nat.ltb Nat.leb]. unfold order_record, encode_limit, order_at.
  assert (in_i64 (round i).2) as Hp by (unfold round, in_i64, i64_min, i64_max; destruct (i mod 4)%nat as [|[|[|?]]]; cbn; lia).
  do 2 f_equal.
  - destruct (round i) as [[|] ?]; done.
  - rewrite (slice_app_skip [0]), (slice_app_skip [_]) by (cbn; lia). rewrite slice_app_here by (by rewrite length_le_bytes). by apply le_val_i64.
  - rewrite (slice_app_skip [0]), (slice_app_skip [_]) by (cbn; lia). do 3 (rewrite (slice_app_skip (le_bytes 8 _)) by (rewrite length_le_bytes; cbn; lia); rewrite length_le_bytes).
    rewrite slice_app_here by (by rewrite length_le_bytes). apply le_val_u64. unfold in_u64. lia.
Qed.

(** ** The mapped file *)

(** [recs] are appended, the header covers the first [k]. *)
Definition holds_records (cap : nat) (recs : list (list Z)) (k : nat) (j : MmapJournal) : Prop :=
  journal_rep recs j ∧ j_cap j = cap ∧ covers recs k (j_map j).

Section File.
Context (cap : nat) (Hcap : (HEADER_LEN <= cap)%nat ∧ Z.of_nat cap < 2 ^ 64).

Lemma records_new : holds_records cap [] 0 (journal_create cap).
Proof.
  split_and!; [by apply journal_rep_create, Hcap|done|]. split; [done|]. unfold header, journal_create. cbn [j_map].
  rewrite take_replicate, (le_val_zeros HEADER_LEN (le_n _)). done.
Qed.

Lemma records_append recs k j payload :
  holds_records cap recs k j → record_ok payload → (j_cursor j + (length payload + 4) <= cap)%nat →
  ∃ off j', journal_append j payload = (Some off, j') ∧ holds_records cap (recs ++ [payload]) k j'.
Proof.
  intros (Hrep & Hc & Hk & Hh) Hok Hfit. unfold journal_append. rewrite Hc, (proj2 (Nat.ltb_ge _ _)) by lia. eexists _, _. split; [done|].
  destruct (write_record_rep recs j payload Hrep Hok ltac:(lia)) as [Hrep' Hbelow]. rewrite Hc in Hrep', Hbelow. split_and!; [exact Hrep'|done|].
  unfold covers. rewrite length_app, take_app_le by lia. split; [cbn; lia|]. rewrite <- Hh. apply (header_eq HEADER_LEN (le_n _)). intros i Hi. apply Hbelow. rewrite (jr_cursor _ _ Hrep). lia.
Qed.

Lemma records_commit recs k j : holds_records cap recs k j → holds_records cap recs (length recs) (commit_header j).
Proof.
  intros (Hrep & Hc & Hcov). assert (machine_inv cap (mkMachine j (j_map j) DataSynced recs 0)) as Hm.
  { constructor; cbn [m_recs m_journal m_disk m_pc m_durable]; [done|by split|by rewrite (jr_len _ _ Hrep)| |done].
    exists k, k. split_and!; try done; lia. }
  destruct (inv_commit_header HEADER_LEN (le_n _) cap j (j_map j) recs 0 Hm) as [Hrep' [Hc' _] _ (km & kd & Hkm & _ & _ & _ & _ & _ & Hpc) _]. cbn in *. rewrite (Hpc eq_refl) in Hkm. by split_and!.
Qed.

Lemma records_recovered recs k j : holds_records cap recs k j → recovered cap (j_map j) = with_offsets HEADER_LEN (take k recs).
Proof. intros (Hrep & Hc & Hcov). eapply (recovered_spec HEADER_LEN (le_n _)); try done. by rewrite (jr_len _ _ Hrep). Qed.

End File.

(** ** The engine on the orders of the test *)

Section Engine.
Context {BI AI : Type} `{LB : LevelIndex BI} `{LA : LevelIndex AI}
  `{SB : !LevelIndexSpec BI Buy} `{SA : !LevelIndexSpec AI Sell}.

Definition state_after (n : nat) : option (list HpEvent * HpEngine BI AI) := hp_run hp_engine_new (order_at <$> seq 0 n).

Lemma order_at_limit i : limit_cmd (order_at i).
Proof. unfold limit_cmd, order_at, round, in_i64, i64_min, i64_max. destruct (i mod 4)%nat as [|[|[|?]]]; cbn; lia. Qed.

Lemma order_at_wf i : wf_command (order_at i).
Proof. destruct (order_at_limit i) as [H1 H2]. unfold order_at, wf_command. split; [done|]. unfold in_i64, i64_min, i64_max. lia. Qed.

Lemma state_after_ok n : ∃ evs e, state_after n = Some (evs, e) ∧ engine_ok e.
Proof.
  apply hp_run_ok; [apply hp_engine_new_ok|]. apply Forall_fmap, Forall_forall. intros i _. apply order_at_wf.
Qed.

Lemma state_after_next n evs e evs1 e1 :
  state_after n = Some (evs, e) → hp_on_order e (order_at n) = Some (evs1, e1) → state_after (S n) = Some (evs ++ evs1, e1).
Proof.
  unfold state_after. intros Hs Ho. rewrite seq_S, fmap_app, hp_run_app, Hs. cbn [mbind option_bind fmap list_fmap Nat.add hp_run]. rewrite Ho. cbn [mbind option_bind]. by rewrite app_nil_r.
Qed.

(** After whole rounds only the bids at 99950 and the asks at 100500 are left. *)
Definition one_tick (t : Z) (l : list entry) : Prop := Forall (λ x, en_tick x = t) l.

Lemma a_rest_buy id tick bs ss :
  Forall (λ x, tick < en_tick x) ss → a_step (mkAbook bs ss) (ALimit ABuy id tick 1) = ([], mkAbook (queue_up ABuy (mkEntry id tick 1) bs) ss).
Proof.
  intros Hs. unfold a_step. cbn [entries across a_sells]. rewrite take_from_none; [done|]. eapply Forall_impl; [exact Hs|]. intros x Hx. cbn in *. lia.
Qed.

Lemma a_rest_sell id tick bs ss :
  Forall (λ x, en_tick x < tick) bs → a_step (mkAbook bs ss) (ALimit ASell id tick 1) = ([], mkAbook bs (queue_up ASell (mkEntry id tick 1) ss)).
Proof.
  intros Hs. unfold a_step. cbn [entries across a_buys]. rewrite take_from_none; [done|]. eapply Forall_impl; [exact Hs|]. intros x Hx. cbn in *. lia.
Qed.

Lemma round_of k : (k mod 4 = 0)%nat →
  round k = (Buy, 100000) ∧ round (S k) = (Sell, 99990) ∧ round (S (S k)) = (Buy, 99950) ∧ round (S (S (S k))) = (Sell, 100500).
Proof.
  intros Hk. unfold round. replace k with (k / 4 * 4)%nat by (pose proof (Nat.div_mod_eq k 4); lia). set (q := (k / 4)%nat).
  change (S (q * 4)) with (1 + q * 4)%nat. change (S (1 + q * 4)) with (2 + q * 4)%nat. change (S (2 + q * 4)) with (3 + q * 4)%nat.
  rewrite Nat.Div0.mod_mul, !Nat.Div0.mod_add. done.
Qed.

Lemma a_round k bs ss :
  (k mod 4 = 0)%nat → one_tick 99950 bs → one_tick 100500 ss →
  ∃ bs' ss', (a_run (mkAbook bs ss) (a_cmd <$> (order_at <$> seq k 4))).2 = mkAbook bs' ss' ∧ one_tick 99950 bs' ∧ one_tick 100500 ss' ∧ bs' ≠ [] ∧ ss' ≠ [].
Proof.
  intros Hk Hb Hs. destruct (round_of k Hk) as (R0 & R1 & R2 & R3). cbn [seq fmap list_fmap]. unfold order_at. rewrite R0, R1, R2, R3. cbn [fst snd a_cmd a_of a_run].
  assert (∀ x, en_tick x = 99950 → queue_up ABuy x bs = bs ++ [x]) as Hend.
  { intros x Hx. rewrite <- (app_nil_r bs) at 1. apply queue_up_place; [|constructor]. eapply Forall_impl; [exact Hb|]. intros y Hy. cbn in *. lia. }
  assert (∀ x, en_tick x = 100500 → queue_up ASell x ss = ss ++ [x]) as Hend'.
  { intros x Hx. rewrite <- (app_nil_r ss) at 1. apply queue_up_place; [|constructor]. eapply Forall_impl; [exact Hs|]. intros y Hy. cbn in *. lia. }
  rewrite a_rest_buy by (eapply Forall_impl; [exact Hs|]; intros x Hx; cbn in *; lia).
  rewrite (queue_up_place ABuy _ [] bs) by (done || (eapply Forall_impl; [exact Hb|]; intros x Hx; cbn in *; lia)). cbn [app].
  assert (∀ i j, a_step (mkAbook (mkEntry i 100000 1 :: bs) ss) (ALimit ASell j 99990 1) = ([AFill j i 100000 1 0 0], mkAbook bs ss)) as Hhit.
  { intros i j. unfold a_step. cbn [entries across a_buys]. cbn [take_from en_tick en_lot en_id]. change ((1 <=? 0) || _) with false. cbn [Z.min Z.compare Pos.compare Pos.compare_cont Z.eqb Pos.eqb].
    change (1 - 1) with 0. rewrite take_from_done. done. }
  rewrite Hhit, a_rest_buy by (eapply Forall_impl; [exact Hs|]; intros x Hx; cbn in *; lia). rewrite Hend by done.
  rewrite a_rest_sell by (apply Forall_app; split; [|by repeat constructor]; eapply Forall_impl; [exact Hb|]; intros x Hx; cbn in *; lia). rewrite Hend' by done.
  eexists _, _. split; [reflexivity|]. unfold one_tick. rewrite !Forall_app. split_and!; try done; try (by repeat constructor); [by destruct bs|by destruct ss].
Qed.

Lemma a_rounds m : (0 < m)%nat →
  ∃ bs ss, (a_run abook_new (a_cmd <$> (order_at <$> seq 0 (4 * m)))).2 = mkAbook bs ss ∧ one_tick 99950 bs ∧ one_tick 100500 ss ∧ bs ≠ [] ∧ ss ≠ [].
Proof.
  induction m as [|m IH]; [lia|]. intros _. replace (4 * S m)%nat with (4 * m + 4)%nat by lia. rewrite seq_app, !fmap_app, a_run_app. cbn [snd Nat.add].
  assert ((4 * m) mod 4 = 0)%nat as Hm by (rewrite Nat.mul_comm; apply Nat.Div0.mod_mul).
  destruct (decide (m = 0%nat)) as [->|Hne].
  - cbn [Nat.mul seq fmap list_fmap a_run snd]. by apply (a_round 0 [] []); [|constructor..].
  - destruct IH as (bs & ss & -> & Hb & Hs & _); [lia|]. by apply a_round.
Qed.

(** The best prices of an engine that holds such a book. *)
Lemma rel_best (b : Book BI AI) t T ab :
  hp_rel b ab → book_ok None b → one_tick T (entries t ab) → entries t ab ≠ [] → best b (CrossHp.hp_side t) = Some T.
Proof.
  intros Hrel (_ & _ & _ & Hbest & Hlev & _) Ht Hne. destruct (Hrel t) as [_ Hq]. specialize (Hbest (CrossHp.hp_side t)).
  assert (∀ tick l, levels b (CrossHp.hp_side t) !! tick = Some l → tick = T) as Honly.
  { intros tick l Hl. destruct (Hlev _ _ _ Hl) as [Hids _]. specialize (Hq tick). unfold queue in Hq. rewrite Hl in Hq.
    destruct (ids l) as [|i il]; [done|]. inversion Hq as [|? en ? ? _ _ E1 E2]. assert (en ∈ at_tick tick (entries t ab)) as Hin by (rewrite <- E2; by left).
    unfold at_tick in Hin. apply list_elem_of_filter in Hin as [<- Hin]. unfold one_tick in Ht. rewrite Forall_forall in Ht. by apply Ht. }
  assert (is_Some (levels b (CrossHp.hp_side t) !! T)) as [l HT].
  { destruct (entries t ab) as [|x l] eqn:Ee; [done|]. specialize (Hq T). apply Forall_cons in Ht as [Hx _]. unfold at_tick in Hq. rewrite filter_cons_True in Hq by done.
    unfold queue in Hq. destruct (levels b (CrossHp.hp_side t) !! T); [by eexists|]. inversion Hq. }
  destruct (best b (CrossHp.hp_side t)) as [x|]; cbn in Hbest; [destruct Hbest as [[lx Hx] _]; by rewrite (Honly _ _ Hx)|]. by rewrite Hbest, lookup_empty in HT.
Qed.

Lemma order_clients n : client_of <$> (order_at <$> seq 0 n) = Z.of_nat <$> seq 0 n.
Proof. rewrite <- list_fmap_compose. done. Qed.

(** Whole rounds leave the same best prices. *)
Lemma round_prices n evs e :
  (0 < n)%nat → (n mod 4 = 0)%nat → state_after n = Some (evs, e) → best_bid (book e) = Some 99950 ∧ best_ask (book e) = Some 100500.
Proof.
  intros Hn H4 Hst. destruct (state_after_ok n) as (evs0 & e0 & Hst0 & Hok). rewrite Hst in Hst0. injection Hst0 as <- <-.
  set (cmds := order_at <$> seq 0 n). assert (Forall limit_cmd cmds) as Hl by (apply Forall_fmap, Forall_forall; intros i _; apply order_at_limit).
  destruct (hp_rel_new (BI:=BI) (AI:=AI)) as (Hrel & Hab & Hsl).
  pose proof (hp_stream_run (Z.of_nat (length cmds)) cmds (a_cmd <$> cmds) [] hp_engine_new abook_new (limit_commands _ _ Hl)
    (limit_stream _ Hl ltac:(unfold cmds; rewrite order_clients; apply client_nodup)) Hab hp_engine_new_ok Hrel) as Hrun.
  destruct (a_rounds (n / 4)) as (bs & ss & Hab' & Hb & Hs & Hbn & Hsn); [apply Nat.div_str_pos; pose proof (Nat.div_mod_eq n 4); lia|].
  replace (4 * (n / 4))%nat with n in Hab' by (pose proof (Nat.div_mod_eq n 4); lia). fold cmds in Hab'.
  destruct (a_run abook_new (a_cmd <$> cmds)) as [aevss ab]. cbn [snd] in Hab'. subst ab. destruct Hrun as (evss & e1 & Hr & _ & Hrel1); [lia|].
  apply hp_run_concat in Hr. unfold state_after in Hst. fold cmds in Hst. rewrite Hr in Hst. injection Hst as <- <-.
  pose proof (proj1 Hok) as Hbk. split; [exact (rel_best _ ABuy _ _ Hrel1 Hbk Hb Hbn)|exact (rel_best _ ASell _ _ Hrel1 Hbk Hs Hsn)].
Qed.

(** ** Replay *)

Lemma replay_loop_orders off m : ∀ a evs e,
  state_after a = Some (evs, e) → Z.of_nat (a + m) < 2 ^ 64 →
  ∃ evs' e', state_after (a + m) = Some (evs', e')
    ∧ replay_loop e a (fill_events evs) (with_offsets off (order_record <$> seq a m)) = Some ((a + m)%nat, fill_events evs', e').
Proof.
  revert off. induction m as [|m IH]; intros off a evs e Hst Hb; cbn [seq fmap list_fmap with_offsets replay_loop]; [exists evs, e; by rewrite Nat.add_0_r|].
  rewrite decode_order_record by lia. cbn [mbind option_bind]. destruct (state_after_ok a) as (? & ? & Hst' & Hok). rewrite Hst in Hst'. injection Hst' as <- <-.
  destruct (hp_on_order_ok e (order_at a) Hok (order_at_wf a)) as (evs1 & e1 & Ho & _). rewrite Ho. cbn [mbind option_bind].
  pose proof (state_after_next _ _ _ _ _ Hst Ho) as Hst1. destruct (IH (off + (4 + length (order_record a)))%nat (S a) _ _ Hst1 ltac:(lia)) as (evs' & e' & Hn & Hr).
  replace (a + S m)%nat with (S a + m)%nat by lia. exists evs', e'. split; [done|]. rewrite <- Hr. f_equal. unfold fill_events. by rewrite List.filter_app, length_app.
Qed.

Lemma replay_orders cap j k n :
  holds_records cap (order_record <$> seq 0 n) k j → Z.of_nat n < 2 ^ 64 →
  ∃ evs e, state_after k = Some (evs, e) ∧ replay (BI:=BI) (AI:=AI) cap (j_map j) = Some (k, fill_events evs, best_bid (book e), best_ask (book e)).
Proof.
  intros Hj Hn. pose proof Hj as (_ & _ & Hk & _). rewrite length_fmap, length_seq in Hk. unfold replay. rewrite (records_recovered _ _ _ _ Hj), <- fmap_take, take_seq, Nat.min_l by lia.
  destruct (replay_loop_orders HEADER_LEN k 0 [] hp_engine_new eq_refl ltac:(lia)) as (evs & e & Hst & Hr). exists evs, e. split; [done|].
  change (fill_events []) with 0%nat in Hr. rewrite Hr. done.
Qed.

End Engine.

(** ** The child *)

Section Run.
Context {BI AI : Type} `{LB : LevelIndex BI} `{LA : LevelIndex AI}
  `{SB : !LevelIndexSpec BI Buy} `{SA : !LevelIndexSpec AI Sell}.
Context (cap count every : nat).
Implicit Types c : @Child BI AI.

(** The file has room for the records of the run. *)
Definition test_ok : Prop :=
  (0 < count)%nat ∧ (0 < every)%nat ∧ (8 + 39 * count <= cap)%nat ∧ Z.of_nat cap < 2 ^ 64.

(** Where a commit may stand. *)
Definition point (n : nat) : Prop := Nat.divide every n ∨ n = count.

(** The checkpoint that belongs to [n] orders. *)
Definition is_line (n : nat) (l : list Z) : Prop :=
  ∃ evs e, state_after (BI:=BI) (AI:=AI) n = Some (evs, e) ∧ l = ckpt_fields n (best_bid (book e)) (best_ask (book e)) (fill_events evs).

Definition appended c : nat := match ch_pc c with AtMatch => S (ch_i c) | _ => ch_i c end.

(** Before a commit: the loop is over, or [every] orders have come since the last one. *)
Definition due c : Prop := (0 < ch_i c <= count)%nat ∧ (if ch_final c then ch_i c = count else Nat.divide every (ch_i c)).

Definition in_loop c : Prop :=
  ch_torn c = [] ∧ ch_final c = false ∧ (ch_since c < every)%nat ∧ (ch_since c <= ch_i c <= count)%nat ∧ Nat.divide every (ch_i c - ch_since c).

Record child_inv (k : nat) c : Prop := {
  ci_records : holds_records cap (order_record <$> seq 0 (appended c)) k (ch_j c);
  ci_point : point k ∧ (k <= ch_i c)%nat;
  ci_state : ∃ evs, state_after (ch_i c) = Some (evs, ch_engine c) ∧ ch_fills c = fill_events evs;
  ci_lines : Forall (λ l, ∃ n, is_line n l ∧ (0 < n <= k)%nat ∧ point n) (ch_lines c);
  ci_first : ch_lines c = [] → ch_i c = ch_since c ∧ (ch_i c <= every)%nat;
  ci_pc : match ch_pc c with
    | AtLoop => in_loop c
    | AtMatch => in_loop c ∧ (ch_i c < count)%nat
    | AtCommit => ch_torn c = [] ∧ due c
    | AtCkpt => k = ch_i c ∧ due c ∧ ∃ l, is_line k l ∧ ch_torn c `prefix_of` l
        ∧ l = ckpt_fields (ch_i c) (best_bid (book (ch_engine c))) (best_ask (book (ch_engine c))) (ch_fills c)
    | Finished => k = count ∧ ch_i c = count ∧ ch_torn c = [] ∧ ∃ ls l, ch_lines c = ls ++ [l] ∧ is_line count l
    end }.

Lemma due_point c : due c → point (ch_i c).
Proof. intros [_ Hd]. destruct (ch_final c); [by right|by left]. Qed.

Lemma order_bytes n : length (log_bytes (order_record <$> seq 0 n)) = (39 * n)%nat.
Proof.
  induction n as [|n IH]; [done|]. rewrite seq_S, fmap_app, log_bytes_app, length_app, IH. cbn [fmap list_fmap Nat.add]. rewrite log_bytes_one, length_record_bytes, length_order_record. lia.
Qed.

(** An upper bound on the steps left. *)
Definition steps_left c : nat :=
  match ch_pc c with
  | AtLoop => 8 * (count - ch_i c) + 8
  | AtMatch => 8 * (count - ch_i c) + 7
  | AtCommit => (if ch_final c then 0 else 8 * (count - ch_i c) + 8) + 6
  | AtCkpt => (if ch_final c then 0 else 8 * (count - ch_i c) + 8) + (5 - length (ch_torn c))
  | Finished => 0
  end.

Definition steps_on (k : nat) c : Prop :=
  ∃ c' k', child_step count every c = Some c' ∧ child_inv k' c' ∧ (k <= k')%nat ∧ ((steps_left c' < steps_left c)%nat ∨ ch_pc c' = Finished).

Lemma step_loop k c : test_ok → child_inv k c → ch_pc c = AtLoop → steps_on k c.
Proof.
  intros (Hcnt & Hev & Hcap & H64) [Hr Hp Hs Hl Hf1 Hpc] Ep. destruct c as [pc final i j engine since fills lines torn].
  unfold steps_on, appended, in_loop in *. cbn [ch_pc ch_final ch_i ch_j ch_engine ch_since ch_fills ch_lines ch_torn] in *. subst pc. cbn [child_step].
  destruct Hpc as (-> & -> & Hsi & Hi & Hdiv). destruct (Nat.ltb_spec i count) as [Hlt|Hge].
  - destruct (records_append cap ltac:(split; [unfold HEADER_LEN; lia|done]) _ _ _ (order_record i) Hr) as (off & j' & Ha & Hr').
    { unfold record_ok. rewrite length_order_record. lia. }
    { rewrite (jr_cursor _ _ (proj1 Hr)), order_bytes, length_order_record. unfold HEADER_LEN. lia. }
    rewrite Ha. eexists _, k. split; [reflexivity|]. split; [|split; [done|left; cbn; lia]]. constructor; unfold appended, in_loop; cbn [ch_pc ch_final ch_i ch_j ch_engine ch_since ch_fills ch_lines ch_torn]; try done.
    rewrite seq_S, fmap_app. exact Hr'.
  - assert (i = count) as -> by lia. eexists _, k. split; [reflexivity|]. split; [|split; [done|left; cbn; lia]]. constructor; try done.
Qed.

Lemma step_match k c : test_ok → child_inv k c → ch_pc c = AtMatch → steps_on k c.
Proof.
  intros (Hcnt & Hev & Hcap & H64) [Hr Hp Hs Hl Hf1 Hpc] Ep. destruct c as [pc final i j engine since fills lines torn].
  unfold steps_on, appended, in_loop in *. cbn [ch_pc ch_final ch_i ch_j ch_engine ch_since ch_fills ch_lines ch_torn] in *. subst pc. cbn [child_step].
  destruct Hpc as [(-> & -> & Hsi & Hi & Hdiv) Hlt], Hs as (evs & Hst & ->). destruct (state_after_ok (BI:=BI) (AI:=AI) i) as (? & ? & Hst' & Hok).
  rewrite Hst in Hst'. injection Hst' as <- <-. destruct (hp_on_order_ok engine (order_at i) Hok (order_at_wf i)) as (evs1 & e1 & Ho & _). rewrite Ho. cbn [mbind option_bind].
  eexists _, k. split; [reflexivity|].
  assert (∃ evs', state_after (S i) = Some (evs', e1) ∧ (fill_events evs + fill_events evs1)%nat = fill_events evs') as Hst1.
  { eexists. split; [by eapply state_after_next|]. unfold fill_events. by rewrite List.filter_app, length_app. }
  destruct (Nat.leb_spec every (S since)) as [Hge|Hlt']; (split; [|split; [done|left; unfold steps_left; cbn [ch_pc ch_final ch_i]; lia]]);
    constructor; unfold appended, in_loop, due; cbn [ch_pc ch_final ch_i ch_j ch_engine ch_since ch_fills ch_lines ch_torn]; try done.
  - split; [apply Hp|]. destruct Hp. lia.
  - intros H0. destruct (Hf1 H0). lia.
  - split_and!; [done|lia|lia|]. replace (S i) with ((i - since) + every)%nat by lia. by apply Nat.divide_add_r; [|apply Nat.divide_refl].
  - split; [apply Hp|]. destruct Hp. lia.
  - intros H0. destruct (Hf1 H0). lia.
  - split_and!; [done|done|lia|lia|lia|]. by replace (S i - S since)%nat with (i - since)%nat by lia.
Qed.

Lemma step_commit k c : test_ok → child_inv k c → ch_pc c = AtCommit → steps_on k c.
Proof.
  intros (Hcnt & Hev & Hcap & H64) [Hr Hp Hs Hl Hf1 Hpc] Ep. pose proof (due_point c) as Hpt. destruct c as [pc final i j engine since fills lines torn].
  unfold steps_on, appended in *. cbn [ch_pc ch_final ch_i ch_j ch_engine ch_since ch_fills ch_lines ch_torn] in *. subst pc. cbn [child_step].
  destruct Hpc as [-> Hdue], Hs as (evs & Hst & ->). specialize (Hpt Hdue). apply records_commit in Hr; [|split; [unfold HEADER_LEN; lia|done]]. rewrite length_fmap, length_seq in Hr.
  eexists _, i. split; [reflexivity|]. split; [|split; [apply Hp|left; unfold steps_left; cbn [ch_pc ch_final ch_i ch_torn length]; lia]].
  constructor; unfold appended; cbn [ch_pc ch_final ch_i ch_j ch_engine ch_since ch_fills ch_lines ch_torn]; try done.
  - by eexists.
  - eapply Forall_impl; [exact Hl|]. intros l (n & H1 & H2 & H3). exists n. destruct Hp. split_and!; [done|lia..|done].
  - split_and!; [done|exact Hdue|]. eexists. split_and!; [by eexists _, _|apply prefix_nil|done].
Qed.

Lemma step_ckpt k c : test_ok → child_inv k c → ch_pc c = AtCkpt → steps_on k c.
Proof.
  intros (Hcnt & Hev & Hcap & H64) [Hr Hp Hs Hl Hf1 Hpc] Ep. destruct c as [pc final i j engine since fills lines torn].
  unfold steps_on, appended, due in *. cbn [ch_pc ch_final ch_i ch_j ch_engine ch_since ch_fills ch_lines ch_torn] in *. subst pc. cbn [child_step].
  destruct Hpc as (-> & [Hi Hdue] & l & Hline & [rest Hpre] & Hlf). rewrite <- Hlf. assert (length l = 4%nat) as Hlen by (by rewrite Hlf).
  destruct rest as [|field rest].
  - rewrite app_nil_r in Hpre. subst torn. rewrite lookup_ge_None_2 by lia. eexists _, i. split; [reflexivity|].
    assert (Forall (λ l, ∃ n, is_line n l ∧ (0 < n <= i)%nat ∧ point n) (lines ++ [l])) as Hl'.
    { apply Forall_app. split; [done|]. constructor; [|done]. exists i. split_and!; [done|lia|lia|apply Hp]. }
    destruct final; (split; [|split; [done|first [by right|left; unfold steps_left; cbn [ch_pc ch_final ch_i ch_torn]; rewrite Hlen; lia]]]);
      constructor; unfold appended, in_loop; cbn [ch_pc ch_final ch_i ch_j ch_engine ch_since ch_fills ch_lines ch_torn]; try done.
    + intros H0. by destruct lines.
    + rewrite <- Hdue. split_and!; try done. by eexists _, _.
    + intros H0. by destruct lines.
    + rewrite Nat.sub_0_r. split_and!; [done|done|lia|lia|lia|done].
  - assert (l !! length torn = Some field) as Hf by (rewrite Hpre, lookup_app_r, Nat.sub_diag by lia; done). rewrite Hf. eexists _, i. split; [reflexivity|].
    assert (length torn < 4)%nat as Ht by (rewrite <- Hlen, Hpre, length_app; cbn; lia).
    split; [|split; [done|left; unfold steps_left; cbn [ch_pc ch_final ch_i ch_torn]; rewrite length_app; cbn [length]; lia]].
    constructor; unfold appended, due; cbn [ch_pc ch_final ch_i ch_j ch_engine ch_since ch_fills ch_lines ch_torn]; try done.
    split_and!; [done|lia|lia|done|]. exists l. split_and!; [done| |done]. exists rest. by rewrite <- app_assoc.
Qed.

Lemma child_new_inv : test_ok → child_inv 0 (child_new cap).
Proof.
  intros (Hcnt & Hev & Hcap & H64). constructor; unfold appended, in_loop; cbn [child_new ch_pc ch_final ch_i ch_j ch_engine ch_since ch_fills ch_lines ch_torn].
  - apply records_new. split; [unfold HEADER_LEN; lia|done].
  - split; [left; apply Nat.divide_0_r|lia].
  - by exists [].
  - constructor.
  - intros _. lia.
  - split_and!; [done|done|lia|lia|lia|apply Nat.divide_0_r].
Qed.

Lemma child_steps k c : test_ok → child_inv k c → ch_pc c = Finished ∨ steps_on k c.
Proof.
  intros Hok Hinv. destruct (ch_pc c) eqn:Ep; [right; by eapply step_loop|right; by eapply step_match|right; by eapply step_commit|right; by eapply step_ckpt|by left].
Qed.

Lemma finished_stays c : ch_pc c = Finished → child_step count every c = Some c.
Proof. destruct c. cbn. by intros ->. Qed.

(** Whatever the number of steps, the child has come that far without a panic, and
    after eight steps an order and eight more it has ended. *)
Lemma child_after_ok n : test_ok →
  ∃ c k, child_after (BI:=BI) (AI:=AI) cap count every n = Some c ∧ child_inv k c ∧ (ch_pc c = Finished ∨ (n + steps_left c <= 8 * count + 8)%nat).
Proof.
  intros Hok. induction n as [|n IH]; cbn [child_after].
  { exists (child_new cap), 0%nat. split_and!; [done|by apply child_new_inv|right; cbn; lia]. }
  destruct IH as (c & k & -> & Hinv & Hn). cbn [mbind option_bind]. destruct (child_steps k c Hok Hinv) as [Hf|(c' & k' & Hst & Hinv' & _ & Hdec)].
  - exists c, k. split_and!; [by apply finished_stays|done|by left].
  - exists c', k'. split_and!; [done|done|]. destruct Hdec as [Hdec|Hf]; [|by left]. destruct Hn as [Hf|Hn]; [|right; lia].
    left. rewrite (finished_stays c Hf) in Hst. by injection Hst as <-.
Qed.

(** What is committed stays committed. *)
Lemma child_after_grows n m c0 k0 : test_ok → child_after cap count every n = Some c0 → child_inv k0 c0 →
  ∃ c k, child_after cap count every (m + n) = Some c ∧ child_inv k c ∧ (k0 <= k)%nat.
Proof.
  intros Hok Hc Hinv. induction m as [|m IH]; [by exists c0, k0|]. destruct IH as (c & k & Hn & Hinv' & Hk). cbn [Nat.add child_after]. rewrite Hn. cbn [mbind option_bind].
  destruct (child_steps k c Hok Hinv') as [Hf|(c' & k' & Hst & Hi & Hle & _)]; [exists c, k; by rewrite (finished_stays c Hf)|]. exists c', k'. split_and!; [done|done|lia].
Qed.

(** The header tells how many orders are committed. *)
Lemma inv_header k c : child_inv k c → Nat.max (Z.to_nat (read_header (j_map (ch_j c)))) HEADER_LEN = (HEADER_LEN + 39 * k)%nat.
Proof.
  intros [(_ & _ & Hk & Hh) _ _ _ _ _]. rewrite length_fmap, length_seq in Hk. unfold header in Hh. fold (read_header (j_map (ch_j c))) in Hh.
  rewrite Hh, <- fmap_take, take_seq, Nat.min_l by lia. by rewrite order_bytes.
Qed.

Lemma inv_unique k k' c : child_inv k c → child_inv k' c → k = k'.
Proof. intros H%inv_header H'%inv_header. rewrite H in H'. lia. Qed.

(** Every checkpoint that can be read tells the state after the orders it names,
    which are recovered. *)
Definition tells (k : nat) (ck : Ckpt) : Prop :=
  ∃ m evs e, (0 < m <= k)%nat ∧ point m ∧ state_after (BI:=BI) (AI:=AI) m = Some (evs, e)
    ∧ ck = mkCkpt (Z.of_nat m) (default (-1) (best_bid (book e))) (default (-1) (best_ask (book e))) (Z.of_nat (fill_events evs)).

Lemma line_tells k n l : is_line n l → (0 < n <= k)%nat → point n → ∃ ck, parse_ckpt l = Some ck ∧ tells k ck.
Proof. intros (evs & e & Hst & ->) Hn Hp. eexists. split; [reflexivity|]. by exists n, evs, e. Qed.

Lemma read_tells k c : child_inv k c → Forall (tells k) (read_ckpts (ckpt_lines c)).
Proof.
  intros [Hr Hp Hs Hl Hf1 Hpc]. unfold read_ckpts, ckpt_lines. rewrite omap_app. apply Forall_app. split.
  - clear -Hl. induction Hl as [|l ls (n & H1 & H2 & H3) _ IH]; [constructor|]. destruct (line_tells k n l H1 H2 H3) as (ck & Hck & Ht). cbn. rewrite Hck. by constructor.
  - assert (ch_torn c = [] ∨ ch_pc c = AtCkpt) as [->|Ep]; [|constructor|].
    { destruct (ch_pc c); unfold in_loop in Hpc; destruct_and?; auto. }
    rewrite Ep in Hpc. destruct Hpc as (-> & [Hi Hd] & l & Hline & [rest Hpre] & Hlf). destruct (ch_torn c) as [|x torn] eqn:Et; [constructor|]. cbn [omap list_omap].
    destruct rest as [|field rest].
    + rewrite app_nil_r in Hpre. rewrite <- Hpre. destruct (line_tells (ch_i c) (ch_i c) l Hline ltac:(lia) (proj1 Hp)) as (ck & Hck & Ht). rewrite Hck. by constructor.
    + assert (length (x :: torn) < 4)%nat as Hlen by (assert (length l = 4%nat) as <- by (by rewrite Hlf); rewrite Hpre, length_app; cbn; lia).
      destruct torn as [|? [|? [|? ?]]]; cbn in Hlen; try lia; constructor.
Qed.

(** More orders committed than one interval has: the first checkpoint is whole. *)
Lemma read_some k c : child_inv k c → (every < k)%nat → read_ckpts (ckpt_lines c) ≠ [].
Proof.
  intros [Hr Hp Hs Hl Hf1 Hpc] Hk. unfold read_ckpts, ckpt_lines. rewrite omap_app. destruct (ch_lines c) as [|l ls]; [destruct (Hf1 eq_refl); lia|].
  apply Forall_cons in Hl as [(n & H1 & H2 & H3) _]. destruct (line_tells k n l H1 H2 H3) as (ck & Hck & _). cbn [omap list_omap app]. by rewrite Hck.
Qed.

(** The comparison with the last checkpoint, when it tells the prices of the replay. *)
Lemma verify_last file ls ck expect k fills bid ask :
  replay (BI:=BI) (AI:=AI) cap file = Some (k, fills, bid, ask) → (0 < k)%nat → match expect with Some e => k = e | None => True end →
  (∃ cks, read_ckpts ls = cks ++ [ck]) → ck_orders ck <= Z.of_nat k → ck_bid ck = default (-1) bid → ck_ask ck = default (-1) ask →
  verify (BI:=BI) (AI:=AI) cap file ls expect = Some (k, fills).
Proof.
  intros Hr Hk He [cks Hcks] Ho Hb Ha. unfold verify. rewrite Hr. cbn [mbind option_bind].
  assert (negb (match expect with Some e => (k =? e)%nat | None => true end) = false) as -> by (destruct expect; [subst; by rewrite Nat.eqb_refl|done]).
  rewrite Hcks, rev_app_distr. cbn [rev app List.find]. rewrite (proj2 (Z.leb_le _ _)) by lia. cbn [mbind option_bind]. rewrite Hb, Ha, !Z.eqb_refl, (proj2 (Nat.ltb_lt _ _)) by lia. done.
Qed.

Lemma steps_left_pos k c : child_inv k c → steps_left c = 0%nat → ch_pc c = Finished.
Proof.
  intros [_ _ _ _ _ Hpc]. unfold steps_left. destruct (ch_pc c); [lia..| |done]. destruct Hpc as (_ & _ & l & _ & [rest Hpre] & Hlf).
  assert (length (ch_torn c) <= 4)%nat by (assert (length l = 4%nat) as <- by (by rewrite Hlf); rewrite Hpre, length_app; lia). lia.
Qed.

(** The last checkpoint of a finished child. *)
Lemma finished_verified k c evs e :
  test_ok → child_inv k c → ch_pc c = Finished → state_after (BI:=BI) (AI:=AI) k = Some (evs, e) →
  replay (BI:=BI) (AI:=AI) cap (j_map (ch_j c)) = Some (k, fill_events evs, best_bid (book e), best_ask (book e)) →
  k = count ∧ verify (BI:=BI) (AI:=AI) cap (j_map (ch_j c)) (ckpt_lines c) (Some count) = Some (count, fill_events evs).
Proof.
  intros (Hcnt & _) [_ _ _ _ _ Hpc] Ef Hst Hr. rewrite Ef in Hpc. destruct Hpc as (-> & _ & Ht & ls & l & Hls & evs' & e' & Hst' & ->). split; [done|].
  rewrite Hst in Hst'. injection Hst' as <- <-. eapply (verify_last _ _ (mkCkpt (Z.of_nat count) _ _ _)); [exact Hr|done|done| |reflexivity..].
  unfold ckpt_lines, read_ckpts. rewrite Ht, Hls, app_nil_r, omap_app. by eexists.
Qed.

(** Whole rounds have the same prices, so the last checkpoint need not be that of the last commit. *)
Lemma rounds_verified k c evs e :
  child_inv k c → Nat.divide 4 every → Nat.divide 4 count → read_ckpts (ckpt_lines c) ≠ [] → state_after (BI:=BI) (AI:=AI) k = Some (evs, e) →
  replay (BI:=BI) (AI:=AI) cap (j_map (ch_j c)) = Some (k, fill_events evs, best_bid (book e), best_ask (book e)) →
  verify (BI:=BI) (AI:=AI) cap (j_map (ch_j c)) (ckpt_lines c) None = Some (k, fill_events evs).
Proof.
  intros Hinv He Hc Hne Hst Hr. pose proof (read_tells _ _ Hinv) as Ht. destruct (ci_point _ _ Hinv) as [Hp _].
  assert (∀ n, point n → (n mod 4 = 0)%nat) as H4.
  { intros n [Hd| ->]; apply Nat.Lcm0.mod_divide; [exact (Nat.divide_trans _ _ _ He Hd)|exact Hc]. }
  destruct (read_ckpts (ckpt_lines c)) as [|ck cks _] eqn:Ec using rev_ind; [done|]. apply Forall_app in Ht as [_ Ht]. apply Forall_cons in Ht as [Ht _].
  destruct Ht as (m & evs' & e' & Hm & Hpm & Hst' & ->). destruct (round_prices m evs' e' ltac:(lia) (H4 _ Hpm) Hst') as [Hb Ha]. destruct (round_prices k evs e ltac:(lia) (H4 _ Hp) Hst) as [Hb' Ha'].
  eapply verify_last; [exact Hr|lia|done|by eexists|cbn; lia|cbn; by rewrite Hb, Hb'|cbn; by rewrite Ha, Ha'].
Qed.

(** The replay of the journal that a killed child leaves. *)
Lemma replay_child k c : test_ok → child_inv k c →
  ∃ evs e, state_after (BI:=BI) (AI:=AI) k = Some (evs, e) ∧ replay (BI:=BI) (AI:=AI) cap (j_map (ch_j c)) = Some (k, fill_events evs, best_bid (book e), best_ask (book e)).
Proof.
  intros (Hcnt & Hev & Hcap & H64) Hinv. eapply (replay_orders cap (ch_j c) k (appended c) (ci_records _ _ Hinv)).
  destruct Hinv as [_ _ _ _ _ Hpc]. unfold appended. destruct (ch_pc c); unfold in_loop, due in Hpc; lia.
Qed.

Lemma graceful_passes n : test_ok → (8 * count + 8 <= n)%nat → graceful_exit (BI:=BI) (AI:=AI) cap count every n = Some count.
Proof.
  intros Hok Hlong. destruct (child_after_ok n Hok) as (c & k & Hc & Hinv & Hn). destruct (replay_child k c Hok Hinv) as (evs & e & Hst & Hr).
  assert (ch_pc c = Finished) as Hf by (destruct Hn as [Hf|Hn]; [done|]; apply (steps_left_pos k); [done|lia]).
  destruct (finished_verified k c evs e Hok Hinv Hf Hst Hr) as [_ Hv]. unfold graceful_exit. rewrite Hc. cbn [mbind option_bind]. rewrite Hf, Hv. cbn [mbind option_bind]. by rewrite Nat.eqb_refl.
Qed.

(** Three batches seen in the header at an earlier moment. *)
Lemma batches_seen n0 n c0 c k : test_ok → (n0 <= n)%nat → child_after cap count every n0 = Some c0 → three_batches every (j_map (ch_j c0)) = true →
  child_after cap count every n = Some c → child_inv k c → (3 * every < k)%nat.
Proof.
  intros Hok Hle Hc0 Hseen Hc Hinv. destruct (child_after_ok n0 Hok) as (c0' & k0 & Hc0' & Hinv0 & _). rewrite Hc0 in Hc0'. injection Hc0' as <-.
  destruct (child_after_grows n0 (n - n0) c0 k0 Hok Hc0 Hinv0) as (c' & k' & Hc' & Hinv' & Hk). replace (n - n0 + n0)%nat with n in Hc' by lia. rewrite Hc in Hc'. injection Hc' as <-.
  rewrite (inv_unique k k' c Hinv Hinv'). apply inv_header in Hinv0. unfold three_batches, REC_LEN in Hseen. apply Z.ltb_lt in Hseen. unfold HEADER_LEN in Hinv0. lia.
Qed.

(** C19.  The crash test finds what was committed.  Wherever the child is killed: it
    has not panicked; the replay of its journal runs exactly the first [k] orders
    and arrives at the state the engine had after them; every checkpoint that can be
    read, a line cut off by the kill being ignored, names orders that are recovered
    and tells the state after them.  A child left alone ends, and scenario 1 of the
    test passes with all orders.  When interval and number of orders are multiples
    of four, as the defaults 4096 and 200000 are, and a checkpoint can be read, the
    comparison of scenario 2 succeeds and the test passes exactly when fewer than
    all orders were committed at the kill.  A checkpoint can be read if the parent
    has seen its three batches committed. *)
Theorem crash_test_passes n :
  test_ok →
  ∃ c k evs e, child_after (BI:=BI) (AI:=AI) cap count every n = Some c ∧ (k <= appended c)%nat ∧ state_after (BI:=BI) (AI:=AI) k = Some (evs, e)
    ∧ replay (BI:=BI) (AI:=AI) cap (j_map (ch_j c)) = Some (k, fill_events evs, best_bid (book e), best_ask (book e))
    ∧ Forall (tells k) (read_ckpts (ckpt_lines c))
    ∧ ((8 * count + 8 <= n)%nat → k = count ∧ verify (BI:=BI) (AI:=AI) cap (j_map (ch_j c)) (ckpt_lines c) (Some count) = Some (count, fill_events evs)
         ∧ graceful_exit (BI:=BI) (AI:=AI) cap count every n = Some count)
    ∧ (Nat.divide 4 every → Nat.divide 4 count → read_ckpts (ckpt_lines c) ≠ [] →
       verify (BI:=BI) (AI:=AI) cap (j_map (ch_j c)) (ckpt_lines c) None = Some (k, fill_events evs)
       ∧ ∀ n1, (8 * count + 8 <= n1)%nat → main_test (BI:=BI) (AI:=AI) cap count every n1 n = if (k <? count)%nat then Some k else None)
    ∧ ∀ n0 c0, (n0 <= n)%nat → child_after (BI:=BI) (AI:=AI) cap count every n0 = Some c0 → three_batches every (j_map (ch_j c0)) = true →
        (3 * every < k)%nat ∧ read_ckpts (ckpt_lines c) ≠ [].
Proof.
  intros Hok. destruct (child_after_ok n Hok) as (c & k & Hc & Hinv & Hn). pose proof Hok as (Hcnt & Hev & Hcap & H64).
  destruct (replay_child k c Hok Hinv) as (evs & e & Hst & Hr).
  pose proof (ci_point _ _ Hinv) as [_ Hk]. exists c, k, evs, e. split; [done|]. split; [unfold appended; destruct (ch_pc c); lia|]. split; [done|]. split; [done|].
  split; [by apply read_tells|]. split; [|split].
  - intros Hlong. rewrite (graceful_passes n Hok Hlong). assert (ch_pc c = Finished) as Hf by (destruct Hn as [Hf|Hn]; [done|]; apply (steps_left_pos k); [done|lia]).
    by destruct (finished_verified k c evs e Hok Hinv Hf Hst Hr).
  - intros H4 H4' Hne. pose proof (rounds_verified k c evs e Hinv H4 H4' Hne Hst Hr) as Hv. split; [done|]. intros n1 Hn1.
    unfold main_test. rewrite (graceful_passes n1 Hok Hn1). cbn [mbind option_bind]. unfold sigkill. rewrite Hc. cbn [mbind option_bind]. by rewrite Hv.
  - intros n0 c0 Hle Hc0 Hseen. assert (3 * every < k)%nat as H3 by (by eapply (batches_seen n0 n)). split; [done|]. apply (read_some k); [done|lia].
Qed.

End Run.

Module Witness.
Import HpProps.Witness.

(** Twenty orders, a commit every four, killed in the eighteenth order: the first sixteen are recovered. *)
Lemma crash_test_passes_witness :
  ∃ c k evs e, child_after (BI:=BTreeBidIndex) (AI:=BTreeAskIndex) 800 20 4 58 = Some c ∧ state_after (BI:=BTreeBidIndex) (AI:=BTreeAskIndex) k = Some (evs, e)
    ∧ verify (BI:=BTreeBidIndex) (AI:=BTreeAskIndex) 800 (j_map (ch_j c)) (ckpt_lines c) None = Some (k, fill_events evs)
    ∧ main_test (BI:=BTreeBidIndex) (AI:=BTreeAskIndex) 800 20 4 200 58 = if (k <? 20)%nat then Some k else None.
Proof.
  destruct (crash_test_passes (BI:=BTreeBidIndex) (AI:=BTreeAskIndex) 800 20 4 58) as (c & k & evs & e & H1 & _ & H2 & _ & _ & _ & H3 & H4).
  - split_and!; [lia|lia|lia|vm_compute; reflexivity].
  - exists c, k, evs, e. split; [exact H1|]. split; [exact H2|].
    assert (read_ckpts (ckpt_lines c) ≠ []) as Hne.
    { apply (H4 58%nat c); [done|exact H1|]. assert ((λ c, three_batches 4 (j_map (ch_j c))) <$> child_after (BI:=BTreeBidIndex) (AI:=BTreeAskIndex) 800 20 4 58 = Some true) as Hl by (vm_compute; reflexivity).
      rewrite H1 in Hl. cbn in Hl. by injection Hl. }
    destruct (H3 ltac:(by exists 1%nat) ltac:(by exists 5%nat) Hne) as [H5 H6]. split; [exact H5|]. apply H6. lia.
Defined.

(** The whole test on these numbers. *)
Example main_test_runs :
  main_test (BI:=BTreeBidIndex) (AI:=BTreeAskIndex) 800 20 4 200 58 = Some 16%nat
  ∧ main_test (BI:=BTreeBidIndex) (AI:=BTreeAskIndex) 800 20 4 200 200 = None.
Proof. split; vm_compute; reflexivity. Qed.

(** A commit every five orders: after a kill between the second commit and its
    checkpoint the replay is right, but the test compares it with the state after five. *)
Example other_interval_fails :
  (λ c, (ch_pc c, replay (BI:=BTreeBidIndex) (AI:=BTreeAskIndex) 400 (j_map (ch_j c)), read_ckpts (ckpt_lines c),
         verify (BI:=BTreeBidIndex) (AI:=BTreeAskIndex) 400 (j_map (ch_j c)) (ckpt_lines c) None))
  <$> child_after (BI:=BTreeBidIndex) (AI:=BTreeAskIndex) 400 10 5 27
  = Some (AtCkpt, Some (10%nat, 3%nat, Some 99950, Some 100500), [mkCkpt 5 100000 100500 1], None).
Proof. vm_compute. reflexivity. Qed.

End Witness.
