(* ===== verification/HpBench.v ===== *)
(** * The benchmarks of the high-performance engine

    Models [crates/match-udp-order/src/bin/hp_shard_bench.rs], [hp_client_shard_bench.rs],
    [hp_engine_bench.rs], [hp_journal_bench.rs] and the [HpEngine] half of
    [engine_pure_bench.rs], and the command line the benchmarks of that directory share.
    Clocks and what is printed are left out; a panic is [None].

    All of them send pairs of a bid and an ask that takes it.  On any such stream the
    engine ends every pair with an empty book: [n] orders are [n / 2] fills and
    [(n + 1) / 2] rests ([paired_run]).  The pipeline of a client, a ring and a shard is
    given on the small steps of [Spsc.ring_step], the flag as an atomic of its own: a load of
    it that returns [false] may be stale.

    The counts of the shards are exact, whatever the schedule; a ring
    pipeline matches a prefix of what was sent, in order, with a fill for each pair
    ([hp_pipe_in_order]), but may stop with orders left ([hp_shutdown_loses]); a journal that is
    flushed and never committed gives nothing back ([journal_bench_run]). *)
From stdpp Require Import gmap.
From S2P Require Import Prelude Protocol Utf8 HpTypes HpIndex HpBook HpEngine HpProps Spsc SpscProps Journal PriorityBook CrossHp Workload WorkloadProps CrashTest.

#[local] Open Scope Z_scope.

(** ** The command line *)

(** From the second argument on: a flag that takes a value and lacks it, or whose value is
    no number, sets the default; other flags are skipped, except for one that is a switch. *)
Fixpoint bench_args (per_flag : string) (switch : option string) (s0 dflt : Z) (args : list string) (shards per_shard : Z) (on : bool) : Z * Z * bool :=
  match args with
  | [] => (shards, per_shard, on)
  | a :: rest =>
      if String.eqb a "--shards" then
        match rest with
        | v :: rest => bench_args per_flag switch s0 dflt rest (default s0 (parse_u64 (bytes_of v))) per_shard on
        | [] => (s0, per_shard, on)
        end
      else if String.eqb a per_flag then
        match rest with
        | v :: rest => bench_args per_flag switch s0 dflt rest shards (default dflt (parse_u64 (bytes_of v))) on
        | [] => (shards, dflt, on)
        end
      else if bool_decide (Some a = switch) then bench_args per_flag switch s0 dflt rest shards per_shard true
      else if String.prefix "--" a then bench_args per_flag switch s0 dflt rest shards per_shard on
      else bench_args per_flag switch s0 dflt rest shards (default dflt (parse_u64 (bytes_of a))) on
  end.

Definition hp_shard_args (args : list string) := bench_args "--per-shard" None 4 100000 args 4 100000 false.
Definition engine_pure_args (args : list string) := bench_args "--per-shard" None 4 100000 args 4 100000 false.
Definition hp_client_args (args : list string) := bench_args "--per-shard" None 4 100000 args 4 100000 false.
Definition hp_engine_args (args : list string) := bench_args "--per-shard" (Some "--multi-price"%string) 4 100000 args 4 100000 false.
Definition rss_shard_args (args : list string) := bench_args "--per-shard" None 8 100000 args 8 100000 false.
Definition client_shard_args (args : list string) := bench_args "--per-shard" None 4 100000 args 4 100000 false.
Definition multi_shard_args (args : list string) := bench_args "--orders" None 4 20000 args 4 20000 false.

(** [hp_journal_bench.rs] knows no other flags: it reads them as numbers, which fails. *)
Fixpoint journal_bench_args (args : list string) (per_shard : Z) : Z :=
  match args with
  | [] => per_shard
  | a :: rest =>
      if String.eqb a "--per-shard" then
        match rest with
        | v :: rest => journal_bench_args rest (default 2000000 (parse_u64 (bytes_of v)))
        | [] => 2000000
        end
      else journal_bench_args rest (default 2000000 (parse_u64 (bytes_of a)))
  end.

(** ** The orders *)

Definition BUY_TICK : Z := 100000.
Definition SELL_TICK : Z := 99990.

(** [(shard_id as u64) << 32 | i as u64] *)
Definition bench_client (shard_id i : nat) : Z := Z.lor (u64_wrap (Z.shiftl (Z.of_nat shard_id) 32)) (Z.of_nat i).

Definition bench_side (i : nat) : Side := if Nat.even i then Buy else Sell.
Definition bench_tick (i : nat) : Z := if Nat.even i then BUY_TICK else SELL_TICK.

Definition bench_order (shard_id i : nat) : HpCommand := Limit (bench_side i) (bench_tick i) 1 0 (bench_client shard_id i).

(** [hp_engine_bench.rs]: one client, one price or many. *)
Definition priced_order (multi_price : bool) (i : nat) : HpCommand :=
  Limit (bench_side i) (if multi_price then 1000000000 + Z.of_nat ((i / 2) mod Z.to_nat 100000) else 10000000000) 1 (Z.of_nat i) 1.

Definition pregen_hp (shard_id per_shard : nat) : list HpCommand := bench_order shard_id <$> seq 0 per_shard.

Definition is_rest_event (ev : HpEvent) : bool := match ev with Rest _ _ _ _ _ => true | _ => false end.
Definition rest_events (evs : list HpEvent) : nat := length (List.filter is_rest_event evs).

Section Bench.
Context {BI AI : Type} `{LB : LevelIndex BI} `{LA : LevelIndex AI}.
Implicit Types e : HpEngine BI AI.

(** ** Without a ring *)

(** [shard_run] of [hp_shard_bench.rs]: processed, fills, rests. *)
Fixpoint hp_shard_loop (shard_id : nat) e (is_ : list nat) (processed fills rests : nat) : option (nat * nat * nat) :=
  match is_ with
  | [] => Some (processed, fills, rests)
  | i :: is_ =>
      '(evs, e) ← hp_on_order e (bench_order shard_id i);
      hp_shard_loop shard_id e is_ (S processed) (fills + fill_events evs) (rests + rest_events evs)
  end.

Definition hp_shard_run (shard_id per_shard : nat) : option (nat * nat * nat) :=
  hp_shard_loop shard_id (hp_engine_new : HpEngine BI AI) (seq 0 per_shard) 0 0 0.

(** [main]: the threads share nothing. *)
Fixpoint hp_shard_total (shards per_shard : nat) : option (nat * nat * nat) :=
  match shards with
  | O => Some (0, 0, 0)%nat
  | S k =>
      '(total, fills, rests) ← hp_shard_total k per_shard;
      '(p, f, r) ← hp_shard_run k per_shard;
      Some (total + p, fills + f, rests + r)%nat
  end.

(** The [HpEngine] half of [engine_pure_bench.rs]: orders made beforehand. *)
Fixpoint pure_hp_loop e (cmds : list HpCommand) (n fills : nat) : option (nat * nat) :=
  match cmds with
  | [] => Some (n, fills)
  | cmd :: cmds => '(evs, e) ← hp_on_order e cmd; pure_hp_loop e cmds (S n) (fills + fill_events evs)
  end.

Fixpoint pure_hp_total (shards per_shard : nat) : option (nat * nat) :=
  match shards with
  | O => Some (0, 0)%nat
  | S k =>
      '(total, fills) ← pure_hp_total k per_shard;
      '(n, f) ← pure_hp_loop (hp_engine_new : HpEngine BI AI) (pregen_hp k per_shard) 0 0;
      Some (total + n, fills + f)%nat
  end.

(** ** With the journal *)

Inductive Mode := NoPersist | MmapAppend | MmapMsync.

Definition persists (m : Mode) : bool := match m with NoPersist => false | _ => true end.
Definition syncs (m : Mode) : bool := match m with MmapMsync => true | _ => false end.

(** [encode_limit] of [hp_journal_bench.rs], the layout of the crash test. *)
Definition bench_record (i : nat) : list Z := encode_limit (bench_side i) (bench_tick i) 1 (Z.of_nat i).

Record JBench := mkJBench { jb_engine : HpEngine BI AI; jb_j : MmapJournal; jb_disk : list Z; jb_unsynced : nat; jb_processed : nat }.

(** One round; the disk is what [msync] has written, and [expect] panics on a full journal. *)
Definition journal_round (page : nat) (mode : Mode) (msync_every : nat) (b : JBench) (i : nat) : option JBench :=
  let '(mkJBench e j disk msync_n processed) := b in
  '(j, disk, msync_n) ←
    (if persists mode then
       match journal_append j (bench_record i) with
       | (Some _, j) =>
           Some (if syncs mode then
                   if (msync_every <=? S msync_n)%nat then (j, msync page (j_cursor j) (j_map j) disk, 0%nat) else (j, disk, S msync_n)
                 else (j, disk, msync_n))
       | (None, _) => None
       end
     else Some (j, disk, msync_n));
  '(_, e) ← hp_on_order e (Limit (bench_side i) (bench_tick i) 1 0 (Z.of_nat i));
  Some (mkJBench e j disk msync_n (S processed)).

Fixpoint journal_rounds (page : nat) (mode : Mode) (msync_every : nat) (b : JBench) (is_ : list nat) : option JBench :=
  match is_ with
  | [] => Some b
  | i :: is_ => b ← journal_round page mode msync_every b i; journal_rounds page mode msync_every b is_
  end.

(** [run] on a journal of [cap] bytes; the program's is [JOURNAL_CAP].  The tail is flushed. *)
Definition journal_run (page cap per_shard : nat) (mode : Mode) (msync_every : nat) : option JBench :=
  b ← journal_rounds page mode msync_every (mkJBench hp_engine_new (journal_create cap) (replicate cap 0) 0 0) (seq 0 per_shard);
  let '(mkJBench e j disk msync_n processed) := b in
  Some (if syncs mode && (0 <? msync_n)%nat then mkJBench e j (msync page (j_cursor j) (j_map j) disk) msync_n processed else b).

(** ** With a ring *)

(** [shard_run]: in [pop_n], working on a batch, having found the ring empty, ended. *)
Inductive HpShardPc := HPoll | HBatch (batch : list HpCommand) | HEmpty | HStopped.

Record HpPipe := mkHpPipe {
  hq_ring : Shared; hq_done : bool; hq_pc : HpShardPc; hq_engine : HpEngine BI AI; hq_processed : nat; hq_fills : nat }.

Definition hp_pipe_new (cap : Z) : HpPipe := mkHpPipe (shared_new cap) false HPoll hp_engine_new 0 0.

(** The command the producer has in hand. *)
Definition offered (p : Producer) : option HpCommand :=
  match p with PIdle => None | PTail cmd _ | PHead cmd _ _ | PWritten cmd _ => Some cmd end.

Definition popping (c : Consumer) : Prop := match c with CHead max _ => max = 64 | _ => True end.

(** A step of the client is one that leaves the consumer alone, one of the shard leaves the
    producer alone.  A push that finds the ring full is tried again with the same order;
    [yield_now] changes nothing. *)
Inductive hp_pipe_step (orders : list HpCommand) : HpPipe → HpPipe → Prop :=
| hp_client s s' pc e n f :
    ring_step s s' → cons s' = cons s → (∀ cmd, offered (prod s') = Some cmd → orders !! length (pushed s) = Some cmd) →
    hp_pipe_step orders (mkHpPipe s false pc e n f) (mkHpPipe s' false pc e n f)
| hp_client_done s pc e n f :
    prod s = PIdle → length (pushed s) = length orders →
    hp_pipe_step orders (mkHpPipe s false pc e n f) (mkHpPipe s true pc e n f)
| hp_shard_pop s s' d e n f :
    ring_step s s' → prod s' = prod s → cons s' ≠ CIdle → popping (cons s') →
    hp_pipe_step orders (mkHpPipe s d HPoll e n f) (mkHpPipe s' d HPoll e n f)
| hp_shard_popped s s' d e n f batch :
    ring_step s s' → prod s' = prod s → cons s' = CIdle → popped s' = popped s ++ batch →
    hp_pipe_step orders (mkHpPipe s d HPoll e n f) (mkHpPipe s' d (match batch with [] => HEmpty | _ => HBatch batch end) e n f)
| hp_shard_match s d e n f cmd batch evs e' :
    hp_on_order e cmd = Some (evs, e') →
    hp_pipe_step orders (mkHpPipe s d (HBatch (cmd :: batch)) e n f) (mkHpPipe s d (HBatch batch) e' (S n) (f + fill_events evs))
| hp_shard_next s d e n f : hp_pipe_step orders (mkHpPipe s d (HBatch []) e n f) (mkHpPipe s d HPoll e n f)
| hp_shard_stop s e n f : hp_pipe_step orders (mkHpPipe s true HEmpty e n f) (mkHpPipe s true HStopped e n f)
| hp_shard_yield s d e n f : hp_pipe_step orders (mkHpPipe s d HEmpty e n f) (mkHpPipe s d HPoll e n f).

Inductive hp_pipe_reachable (cap : Z) (orders : list HpCommand) : HpPipe → Prop :=
| hp_pipe_start : hp_pipe_reachable cap orders (hp_pipe_new cap)
| hp_pipe_next p p' : hp_pipe_reachable cap orders p → hp_pipe_step orders p p' → hp_pipe_reachable cap orders p'.

(** The shard of [hp_client_shard_bench.rs], and that of [hp_engine_bench.rs], whose loop is
    the same but for the fills, which it does not count. *)
Definition hp_client_run (shard_id per_shard : nat) : HpPipe → Prop := hp_pipe_reachable 4096 (pregen_hp shard_id per_shard).
Definition hp_engine_run (multi_price : bool) (per_shard : nat) : HpPipe → Prop := hp_pipe_reachable 4096 (priced_order multi_price <$> seq 0 per_shard).

End Bench.
#[global] Arguments JBench : clear implicits.
#[global] Arguments HpPipe : clear implicits.

(** ** Pairs *)

Definition tick_of (c : HpCommand) : Z := match c with Limit _ tick _ _ _ => tick | _ => 0 end.

(** A bid of one lot, then an ask of one lot at its price or below. *)
Record paired (f : nat → HpCommand) : Prop := {
  pr_shape i : ∃ ts, f i = Limit (bench_side i) (tick_of (f i)) 1 ts (client_of (f i));
  pr_range i : in_i64 (tick_of (f i));
  pr_cross i : Nat.even i = true → tick_of (f (S i)) <= tick_of (f i) }.

Lemma bench_paired shard_id : paired (bench_order shard_id).
Proof.
  constructor; [by eexists|intros i|intros i Hi]; cbn; unfold bench_tick, BUY_TICK, SELL_TICK, in_i64, i64_min, i64_max.
  - destruct (Nat.even i); lia.
  - rewrite Hi. destruct (Nat.even (S i)); lia.
Qed.

Lemma div2_succ i : Nat.even i = true → (S i / 2 = i / 2)%nat.
Proof. intros [k ->]%Nat.even_spec. rewrite <- (Nat.div_unique (S (2 * k)) 2 k 1), <- (Nat.div_unique (2 * k) 2 k 0); lia. Qed.

Lemma priced_paired multi_price : paired (priced_order multi_price).
Proof.
  constructor; [by eexists|intros i|intros i Hi]; cbn [priced_order tick_of]; unfold in_i64, i64_min, i64_max; destruct multi_price; try lia.
  - pose proof (Nat.mod_upper_bound (i / 2) (Z.to_nat 100000) ltac:(lia)). lia.
  - by rewrite (div2_succ i Hi).
Qed.

Lemma journal_paired : paired (λ i, Limit (bench_side i) (bench_tick i) 1 0 (Z.of_nat i)).
Proof.
  pose proof (bench_paired 0) as [_ Hr Hc]. constructor; [by eexists|exact Hr|exact Hc].
Qed.

Section Pairs.
Context {BI AI : Type} `{LB : LevelIndex BI} `{LA : LevelIndex AI}
  `{SB : !LevelIndexSpec BI Buy} `{SA : !LevelIndexSpec AI Sell}.
Implicit Types e : HpEngine BI AI.

Lemma rest_events_app l1 l2 : rest_events (l1 ++ l2) = (rest_events l1 + rest_events l2)%nat.
Proof. unfold rest_events. by rewrite List.filter_app, length_app. Qed.

Lemma fill_events_app l1 l2 : fill_events (l1 ++ l2) = (fill_events l1 + fill_events l2)%nat.
Proof. unfold fill_events. by rewrite List.filter_app, length_app. Qed.

(** An order rests unless it traded all of its lots. *)
Lemma limit_rests e s p q ts c evs e' :
  engine_ok e → in_i64 p → 0 < q <= i64_max → hp_on_order e (Limit s p q ts c) = Some (evs, e') →
  rest_events evs = if fill_lots evs =? q then 0%nat else 1%nat.
Proof.
  intros He Hp Hq Hon. destruct (on_limit_outcome e s p q ts c He Hp Hq) as (evs1 & e1 & Hrun & Ho & _). cbn in Hon. rewrite Hrun in Hon. injection Hon as <- <-.
  destruct Ho as (tk & sto & fills & b1 & cl1 & op & _ & _ & Hts & _ & _ & Hop & -> & _). pose proof (hp_trades_lots _ _ _ _ _ _ _ _ _ _ _ Hts) as Hlots.
  assert (rest_events fills = 0%nat) as Hz.
  { pose proof (hp_trades_fills _ _ _ _ _ _ _ _ _ _ _ Hts) as Hf. clear -Hf. induction Hf as [|ev l Hev _ IH]; [done|]. unfold rest_events in *. cbn. by destruct ev. }
  rewrite rest_events_app, Hz, fill_lots_app. destruct (Z.eqb_spec op 0) as [Hop0|Hne]; cbn [fill_lots foldr rest_events List.filter is_rest_event length].
  - rewrite (proj2 (Z.eqb_eq _ _)) by lia. done.
  - rewrite (proj2 (Z.eqb_neq _ _)) by lia. done.
Qed.

Lemma fill_lots_no_rest evs : fill_lots (List.filter not_rest evs) = fill_lots evs.
Proof. induction evs as [|ev evs IH]; [done|]. destruct ev; cbn in *; unfold fill_lots in *; lia. Qed.

Lemma fill_events_no_rest evs : fill_events (List.filter not_rest evs) = fill_events evs.
Proof. unfold fill_events. induction evs as [|ev evs IH]; [done|]. destruct ev; cbn; by rewrite IH. Qed.

(** What a stream leaves in the book after [n] orders: nothing, or the bid of the last. *)
Definition waiting (f : nat → HpCommand) (n : nat) : abook :=
  if Nat.even n then abook_new else mkAbook [mkEntry (client_of (f (n - 1)%nat)) (tick_of (f (n - 1)%nat)) 1] [].

Definition odd_one (n : nat) : nat := if Nat.even n then 0 else 1.

Lemma waiting_step f n : paired f →
  ∃ aevs, a_step (waiting f n) (a_cmd (f n)) = (aevs, waiting f (S n))
    ∧ (if Nat.even n then aevs = [] else ∃ id mk tick l1 l2, aevs = [AFill id mk tick 1 l1 l2]).
Proof.
  intros [Hsh _ Hc]. destruct (Hsh n) as [ts Hn]. rewrite Hn. cbn [a_cmd]. unfold waiting, bench_side. rewrite Nat.even_succ, <- Nat.negb_even. destruct (Nat.even n) eqn:En; cbn [negb a_of].
  - cbn [a_step entries across abook_new a_buys a_sells take_from]. exists []. split; [|done]. by replace (S n - 1)%nat with n by lia.
  - destruct n as [|m]; [done|]. replace (S m - 1)%nat with m by lia. rewrite Nat.even_succ, <- Nat.negb_even in En. apply negb_false_iff in En. specialize (Hc m En).
    cbn [a_step entries across a_buys take_from en_tick en_lot en_id accepts]. rewrite (proj2 (Z.leb_le (tick_of (f (S m))) (tick_of (f m))) Hc). cbn. eexists. split; [done|]. by eexists _, _, _, _, _.
Qed.

Lemma paired_step f n e :
  paired f → engine_ok e → hp_rel (book e) (waiting f n) →
  ∃ evs e', hp_on_order e (f n) = Some (evs, e') ∧ engine_ok e' ∧ hp_rel (book e') (waiting f (S n))
    ∧ fill_events evs = odd_one n ∧ rest_events evs = odd_one (S n).
Proof.
  intros Hf He Hrel. destruct (waiting_step f n Hf) as (aevs & Ha & Haevs). destruct Hf as [Hsh Hr _]. destruct (Hsh n) as [ts Hn]. specialize (Hr n). rewrite Hn in Ha |- *.
  assert (∃ t, bench_side n = CrossHp.hp_side t ∧ a_of (bench_side n) = t) as (t & Hs & Ht) by (unfold bench_side; destruct (Nat.even n); [by exists ABuy|by exists ASell]).
  cbn [a_cmd] in Ha. rewrite Ht in Ha. rewrite Hs. assert (0 < 1 <= i64_max) as H1 by (unfold i64_max; lia).
  pose proof (hp_limit_step e _ t (client_of (f n)) (tick_of (f n)) 1 ts He Hrel Hr H1) as Hstep. rewrite Ha in Hstep. destruct Hstep as (evs & e' & Hon & He' & Hev & Hrel').
  exists evs, e'. split_and!; [done|done|done|..]; [rewrite <- fill_events_no_rest|rewrite (limit_rests e _ _ 1 _ _ _ _ He Hr H1 Hon), <- fill_lots_no_rest];
    unfold hp_events in Hev; unfold odd_one; rewrite ?Nat.even_succ, <- ?Nat.negb_even; destruct (Nat.even n) eqn:En; cbn [negb].
  1, 3: subst aevs; apply Forall2_nil_inv_r in Hev as ->; done.
  all: destruct Haevs as (id & mk & tick & l1 & l2 & ->); apply Forall2_cons_inv_r in Hev as (ev & ? & Hev & Hnil & ->); apply Forall2_nil_inv_r in Hnil as ->;
    destruct ev as [| |? ? r]; cbn in Hev; first [done|by destruct r|by destruct Hev as (_ & _ & _ & -> & _)].
Qed.

Lemma odd_half n : (S n / 2 = n / 2 + odd_one n)%nat.
Proof.
  unfold odd_one. destruct (Nat.even n) eqn:En; [rewrite div2_succ by done; lia|]. assert (Nat.odd n = true) as [k ->]%Nat.odd_spec by (by rewrite <- Nat.negb_even, En).
  rewrite <- (Nat.div_unique (2 * k + 1) 2 k 1), <- (Nat.div_unique (S (2 * k + 1)) 2 (k + 1) 0); lia.
Qed.

(** The run of the first [n] orders of a paired stream. *)
Lemma paired_run f n : paired f →
  ∃ evs e, hp_run (hp_engine_new : HpEngine BI AI) (f <$> seq 0 n) = Some (evs, e) ∧ engine_ok e ∧ hp_rel (book e) (waiting f n)
    ∧ fill_events evs = (n / 2)%nat ∧ rest_events evs = (S n / 2)%nat.
Proof.
  intros Hf. induction n as [|n (evs & e & Hr & He & Hrel & Hfi & Hre)].
  - destruct (hp_rel_new (BI:=BI) (AI:=AI)) as (Hrel & _). eexists _, _. split; [done|]. split_and!; [apply hp_engine_new_ok|exact Hrel|done|done].
  - destruct (paired_step f n e Hf He Hrel) as (evs1 & e1 & Ho & He1 & Hrel1 & Hfi1 & Hre1). exists (evs ++ evs1), e1.
    rewrite seq_S, fmap_app, hp_run_app, Hr. cbn [mbind option_bind fmap list_fmap Nat.add hp_run]. rewrite Ho. cbn [mbind option_bind]. rewrite app_nil_r.
    rewrite fill_events_app, rest_events_app, Hfi, Hre, Hfi1, Hre1, <- !odd_half. done.
Qed.

End Pairs.

Section Loops.
Context {BI AI : Type} `{LB : LevelIndex BI} `{LA : LevelIndex AI}
  `{SB : !LevelIndexSpec BI Buy} `{SA : !LevelIndexSpec AI Sell}.
Implicit Types e : HpEngine BI AI.

Lemma hp_run_cons e c l evs e' :
  hp_run e (c :: l) = Some (evs, e') → ∃ evs1 e1 evs2, hp_on_order e c = Some (evs1, e1) ∧ hp_run e1 l = Some (evs2, e') ∧ evs = evs1 ++ evs2.
Proof.
  cbn [hp_run]. destruct (hp_on_order e c) as [[evs1 e1]|]; [|done]. cbn [mbind option_bind]. destruct (hp_run e1 l) as [[evs2 e2]|] eqn:Er; [|done].
  cbn [mbind option_bind]. intros [= <- <-]. eauto 10.
Qed.

Lemma hp_shard_loop_run shard_id is_ : ∀ e evs e' p f r,
  hp_run e (bench_order shard_id <$> is_) = Some (evs, e') →
  hp_shard_loop shard_id e is_ p f r = Some (p + length is_, f + fill_events evs, r + rest_events evs)%nat.
Proof.
  induction is_ as [|i is_ IH]; intros e evs e' p f r; cbn [fmap list_fmap hp_shard_loop length].
  - intros [= <- <-]. cbn. do 2 f_equal; [f_equal|]; lia.
  - intros (evs1 & e1 & evs2 & -> & Hr & ->)%hp_run_cons. cbn [mbind option_bind]. rewrite (IH _ _ _ _ _ _ Hr), fill_events_app, rest_events_app.
    do 2 f_equal; [f_equal|]; lia.
Qed.

Lemma pure_hp_loop_run cmds : ∀ e evs e' n f, hp_run e cmds = Some (evs, e') → pure_hp_loop e cmds n f = Some (n + length cmds, f + fill_events evs)%nat.
Proof.
  induction cmds as [|c cmds IH]; intros e evs e' n f; cbn [pure_hp_loop length].
  - intros [= <- <-]. cbn. do 2 f_equal; lia.
  - intros (evs1 & e1 & evs2 & -> & Hr & ->)%hp_run_cons. cbn [mbind option_bind]. rewrite (IH _ _ _ _ _ Hr), fill_events_app. do 2 f_equal; lia.
Qed.

(** Every order is processed; each pair is one fill; each bid rests. *)
Theorem hp_shard_counts shards per_shard :
  hp_shard_total (BI:=BI) (AI:=AI) shards per_shard = Some (shards * per_shard, shards * (per_shard / 2), shards * (S per_shard / 2))%nat
  ∧ pure_hp_total (BI:=BI) (AI:=AI) shards per_shard = Some (shards * per_shard, shards * (per_shard / 2))%nat.
Proof.
  induction shards as [|k [IH1 IH2]]; [done|]. destruct (paired_run (BI:=BI) (AI:=AI) _ per_shard (bench_paired k)) as (evs & e & Hr & _ & _ & Hf & Hre).
  cbn [hp_shard_total pure_hp_total]. rewrite IH1, IH2. cbn [mbind option_bind]. unfold hp_shard_run, pregen_hp.
  rewrite (hp_shard_loop_run _ _ _ _ _ _ _ _ Hr), (pure_hp_loop_run _ _ _ _ _ _ Hr), Hf, Hre, length_fmap, length_seq. cbn [mbind option_bind].
  split; do 2 f_equal; try f_equal; lia.
Qed.

End Loops.

(** ** The journal *)

Section JournalBench.
Context {BI AI : Type} `{LB : LevelIndex BI} `{LA : LevelIndex AI}
  `{SB : !LevelIndexSpec BI Buy} `{SA : !LevelIndexSpec AI Sell}.
Context (page cap every : nat) (mode : Mode).
Context (Hpage : (HEADER_LEN <= page)%nat) (Hcap : (HEADER_LEN <= cap)%nat ∧ Z.of_nat cap < 2 ^ 64).
Implicit Types b : JBench BI AI.

#[local] Abbreviation stream := (λ i, Limit (bench_side i) (bench_tick i) 1 0 (Z.of_nat i)).

Lemma length_bench_record i : length (bench_record i) = 35%nat.
Proof. unfold bench_record, encode_limit. rewrite !length_app, !length_le_bytes. done. Qed.

Lemma bench_bytes n : length (log_bytes (bench_record <$> seq 0 n)) = (39 * n)%nat.
Proof.
  induction n as [|n IH]; [done|]. rewrite seq_S, fmap_app, log_bytes_app, length_app, IH. cbn [fmap list_fmap Nat.add]. rewrite log_bytes_one, length_record_bytes, length_bench_record. lia.
Qed.

(** After [k] rounds with the journal: the records are in the map, those before the last
    [unsynced] on the disk too, and both headers are still those of an empty journal. *)
Record jbench_inv (k : nat) b : Prop := {
  jb_records : holds_records cap (bench_record <$> seq 0 k) 0 (jb_j b);
  jb_length : length (jb_disk b) = cap;
  jb_header : header (jb_disk b) = HEADER_LEN;
  jb_synced : syncs mode = true → (jb_unsynced b <= k)%nat ∧ agree (HEADER_LEN + 39 * (k - jb_unsynced b)) (j_map (jb_j b)) (jb_disk b);
  jb_count : jb_processed b = k;
  jb_state : engine_ok (jb_engine b) ∧ hp_rel (book (jb_engine b)) (waiting stream k) }.

Lemma jbench_cursor k j : holds_records cap (bench_record <$> seq 0 k) 0 j → j_cursor j = (HEADER_LEN + 39 * k)%nat ∧ j_cap j = cap ∧ length (j_map j) = cap ∧ header (j_map j) = HEADER_LEN.
Proof.
  intros (Hrep & Hc & _ & Hh). rewrite (jr_cursor _ _ Hrep), bench_bytes. split_and!; [done|done|by rewrite (jr_len _ _ Hrep)|]. rewrite Hh, take_0. done.
Qed.

Lemma msync_state j disk n k :
  holds_records cap (bench_record <$> seq 0 k) 0 j → length disk = cap → n = j_cursor j →
  let disk' := msync page n (j_map j) disk in length disk' = cap ∧ header disk' = HEADER_LEN ∧ agree (HEADER_LEN + 39 * k) (j_map j) disk'.
Proof.
  intros Hr Hl ->. destruct (jbench_cursor k j Hr) as (Hcur & _ & Hm & Hh). cbv zeta. pose proof (pages_ge page Hpage (j_cursor j)) as Hge.
  split_and!; [by rewrite length_msync by congruence| |].
  - rewrite <- Hh. apply (header_eq page Hpage). intros i Hi. rewrite msync_lookup, decide_True by (congruence || lia). done.
  - intros i Hi. rewrite msync_lookup, decide_True by (congruence || lia). done.
Qed.

(** The records of before stay in place under a new one. *)
Lemma append_agree k j disk c off j' :
  holds_records cap (bench_record <$> seq 0 k) 0 j → journal_append j (bench_record k) = (Some off, j') →
  (c <= j_cursor j)%nat → agree c (j_map j) disk → agree c (j_map j') disk.
Proof.
  intros (Hrep & Hc & _) Ha Hle Hag i Hi. rewrite (Hag i Hi). unfold journal_append in Ha. destruct (Nat.ltb_spec (j_cap j) (j_cursor j + (length (bench_record k) + 4))) as [|Hfit]; [done|].
  destruct (write_record_rep _ j (bench_record k) Hrep ltac:(unfold record_ok; rewrite length_bench_record; lia) Hfit) as [_ Hb]. injection Ha as <- <-. symmetry. apply Hb. lia.
Qed.

Lemma journal_round_ok k b :
  persists mode = true → jbench_inv k b →
  if (HEADER_LEN + 39 * S k <=? cap)%nat then ∃ b', journal_round page mode every b k = Some b' ∧ jbench_inv (S k) b' else journal_round page mode every b k = None.
Proof.
  intros Hm [Hr Hl Hh Hs Hn [He Hrel]]. destruct b as [e j disk un n]. cbn [jb_engine jb_j jb_disk jb_unsynced jb_processed] in *. cbn [journal_round]. rewrite Hm.
  destruct (jbench_cursor k j Hr) as (Hcur & Hc & _). destruct (Nat.leb_spec (HEADER_LEN + 39 * S k) cap) as [Hfit|Hfull].
  2: { unfold journal_append. rewrite (proj2 (Nat.ltb_lt _ _)) by (rewrite length_bench_record; lia). done. }
  destruct (records_append cap Hcap _ _ _ (bench_record k) Hr) as (off & j' & Ha & Hr'); [unfold record_ok; rewrite length_bench_record; lia|rewrite length_bench_record; lia|].
  assert (holds_records cap (bench_record <$> seq 0 (S k)) 0 j') as Hr1 by (rewrite seq_S, fmap_app; exact Hr'). rewrite Ha. cbn [mbind option_bind].
  destruct (paired_step _ k e journal_paired He Hrel) as (evs & e' & Ho & He' & Hrel' & _). cbn beta in Ho. destruct (jbench_cursor (S k) j' Hr1) as (Hcur' & _).
  destruct (syncs mode) eqn:Es; [destruct (every <=? S un)%nat|]; cbn [mbind option_bind]; rewrite Ho; cbn [mbind option_bind]; (eexists; split; [reflexivity|]);
    constructor; cbn [jb_engine jb_j jb_disk jb_unsynced jb_processed]; try done; try (by f_equal); try (by apply (msync_state j' disk _ (S k) Hr1 Hl eq_refl)).
  - intros _. rewrite Nat.sub_0_r. split; [lia|]. by apply (msync_state j' disk _ (S k) Hr1 Hl eq_refl).
  - intros _. destruct (Hs eq_refl) as [Hun Hag]. split; [lia|]. replace (S k - S un)%nat with (k - un)%nat by lia. eapply append_agree; [exact Hr|exact Ha|lia|exact Hag].
  - by rewrite Es.
Qed.

Lemma journal_rounds_ok m : ∀ k b,
  persists mode = true → jbench_inv k b → (HEADER_LEN + 39 * k <= cap)%nat →
  if (HEADER_LEN + 39 * (k + m) <=? cap)%nat then ∃ b', journal_rounds page mode every b (seq k m) = Some b' ∧ jbench_inv (k + m) b'
  else journal_rounds page mode every b (seq k m) = None.
Proof.
  induction m as [|m IH]; intros k b Hm Hb Hfit; cbn [seq journal_rounds].
  { rewrite Nat.add_0_r, (proj2 (Nat.leb_le _ _)) by done. by exists b. }
  pose proof (journal_round_ok k b Hm Hb) as Hround. destruct (Nat.leb_spec (HEADER_LEN + 39 * S k) cap) as [H1|H1].
  - destruct Hround as (b1 & -> & Hb1). cbn [mbind option_bind]. replace (k + S m)%nat with (S k + m)%nat by lia. by apply IH.
  - rewrite Hround, (proj2 (Nat.leb_gt _ _)) by lia. done.
Qed.

(** The journal runs of the benchmark.  Each order takes 39 bytes; the run panics exactly
    when they do not fit.  Otherwise every order is processed; with [msync] all records
    are on the disk at the end, whatever the interval.  But the header is never advanced: a
    journal opened after the run has no record at all. *)
Theorem journal_bench_run n :
  persists mode = true →
  match journal_run (BI:=BI) (AI:=AI) page cap n mode every with
  | Some b =>
      (8 + 39 * n <= cap)%nat ∧ jb_processed b = n ∧ recovered cap (jb_disk b) = []
      ∧ (syncs mode = true → take (39 * n) (drop 8 (jb_disk b)) = log_bytes (bench_record <$> seq 0 n))
  | None => (cap < 8 + 39 * n)%nat
  end.
Proof.
  intros Hm. unfold journal_run. set (b0 := mkJBench _ _ _ _ _).
  assert (jbench_inv 0 b0) as H0.
  { constructor; cbn; [by apply records_new|apply length_replicate| |intros _; split; [lia|intros i Hi; unfold HEADER_LEN in Hi; lia]|done|].
    - unfold header. by rewrite take_replicate, (le_val_zeros page Hpage).
    - destruct (hp_rel_new (BI:=BI) (AI:=AI)) as (Hrel & _). split; [apply hp_engine_new_ok|exact Hrel]. }
  pose proof (journal_rounds_ok n 0 b0 Hm H0 ltac:(destruct Hcap; lia)) as Hrun. cbn [Nat.add] in Hrun. unfold HEADER_LEN in Hrun at 1.
  destruct (Nat.leb_spec (8 + 39 * n) cap) as [Hfit|Hfull]; [|rewrite Hrun; exact Hfull]. destruct Hrun as (b & -> & [Hr Hl Hh Hs Hn _]). destruct b as [e j disk un p].
  cbn [jb_engine jb_j jb_disk jb_unsynced jb_processed mbind option_bind] in *. subst p.
  assert (∀ d, length d = cap → header d = HEADER_LEN → recovered cap d = []) as Hnone.
  { intros d Hd Hhd. rewrite (recovered_spec page Hpage cap j d _ 0 (proj1 Hr) (proj1 (proj2 Hr)) Hd); [done| |intros i Hi; unfold prefix_end in Hi; rewrite take_0 in Hi; change (length (log_bytes [])) with 0%nat in Hi; lia].
    split; [lia|]. rewrite Hhd, take_0. done. }
  assert (∀ d, agree (HEADER_LEN + 39 * n) (j_map j) d → take (39 * n) (drop 8 d) = log_bytes (bench_record <$> seq 0 n)) as Hdata.
  { intros d Hag%(agree_data page Hpage). replace (HEADER_LEN + 39 * n - HEADER_LEN)%nat with (39 * n)%nat in Hag by lia. unfold HEADER_LEN in Hag. rewrite Hag.
    destruct Hr as ([_ _ _ _ Hd] & _). rewrite bench_bytes in Hd. exact Hd. }
  destruct (syncs mode) eqn:Es; cbn [andb].
  - destruct (Nat.ltb_spec 0 un); cbn [jb_processed jb_disk].
    + destruct (msync_state j disk _ n Hr Hl eq_refl) as (H1 & H2 & H3). split_and!; [lia|done|by apply Hnone|intros _; by apply Hdata].
    + split_and!; [lia|done|by apply Hnone|]. intros _. destruct (Hs eq_refl) as [_ Hag]. apply Hdata. replace (n - un)%nat with n in Hag by lia. exact Hag.
  - cbn [jb_processed jb_disk]. split_and!; [lia|done|by apply Hnone|done].
Qed.

End JournalBench.

(** ** The ring *)

Section Pipe.
Context {BI AI : Type} `{LB : LevelIndex BI} `{LA : LevelIndex AI}
  `{SB : !LevelIndexSpec BI Buy} `{SA : !LevelIndexSpec AI Sell}.
Context (cap : Z) (Hcap : cap_ok cap) (f : nat → HpCommand) (Hf : paired f) (n : nat).
Implicit Types p : HpPipe BI AI.

#[local] Abbreviation orders := (f <$> seq 0 n).

Definition hp_in_hand (pc : HpShardPc) : list HpCommand := match pc with HBatch batch => batch | _ => [] end.

Record hp_pipe_inv p : Prop := {
  hi_ring : ring_inv cap (hq_ring p);
  hi_pushed : pushed (hq_ring p) `prefix_of` orders;
  hi_offer cmd : offered (prod (hq_ring p)) = Some cmd → orders !! length (pushed (hq_ring p)) = Some cmd;
  hi_popped : (f <$> seq 0 (hq_processed p)) ++ hp_in_hand (hq_pc p) = popped (hq_ring p);
  hi_engine : engine_ok (hq_engine p) ∧ hp_rel (book (hq_engine p)) (waiting f (hq_processed p));
  hi_fills : hq_fills p = (hq_processed p / 2)%nat;
  hi_run : ∃ evs, hp_run hp_engine_new (f <$> seq 0 (hq_processed p)) = Some (evs, hq_engine p);
  hi_done : hq_done p = true → pushed (hq_ring p) = orders }.

Lemma hp_pipe_inv_new : hp_pipe_inv (hp_pipe_new cap).
Proof.
  destruct (hp_rel_new (BI:=BI) (AI:=AI)) as (Hrel & _).
  constructor; cbn; [by apply ring_inv_new|apply prefix_nil|done|done|split; [apply hp_engine_new_ok|exact Hrel]|done|by eexists|done].
Qed.

(** What the two sides leave alone. *)
Lemma client_side s s' :
  ring_step s s' → cons s' = cons s →
  popped s' = popped s ∧ (pushed s' = pushed s ∨ ∃ cmd, offered (prod s) = Some cmd ∧ pushed s' = pushed s ++ [cmd] ∧ prod s' = PIdle).
Proof.
  intros Hst Hc. destruct Hst; cbn in *; try (by split; [|left]); try discriminate.
  split; [done|]. right. by eexists.
Qed.

Lemma shard_side s s' : ring_step s s' → prod s' = prod s → pushed s' = pushed s ∧ (cons s' = CIdle ∨ popped s' = popped s).
Proof. intros Hst Hp. destruct Hst; cbn in *; try discriminate; split; try done; first [by left|by right]. Qed.

Lemma prefix_next {A} (l k : list A) x : l `prefix_of` k → k !! length l = Some x → l ++ [x] `prefix_of` k.
Proof.
  intros [r ->] Hx. rewrite lookup_app_r, Nat.sub_diag in Hx by done. destruct r as [|y r]; [done|]. injection Hx as ->. exists r. by rewrite <- app_assoc.
Qed.

(** The next order of a batch can be matched. *)
Lemma hp_wf_head s d cmd batch e k fl : hp_pipe_inv (mkHpPipe s d (HBatch (cmd :: batch)) e k fl) → cmd = f k ∧ ∃ evs e', hp_on_order e cmd = Some (evs, e').
Proof.
  intros [Hr Hpu Hof Hpo [He Hrel] _ _ _]. cbn [hq_ring hq_pc hq_engine hq_processed hp_in_hand] in *. assert (cmd = f k) as ->.
  { assert (popped s !! k = Some cmd) as Hk by (rewrite <- Hpo, lookup_app_r, length_fmap, length_seq, Nat.sub_diag by (by rewrite length_fmap, length_seq); done).
    assert (orders !! k = Some cmd) as Hok by (eapply prefix_lookup_Some; [|exact Hpu]; eapply prefix_lookup_Some; [exact Hk|by apply (inv_fifo _ _ Hr)]).
    rewrite list_lookup_fmap in Hok. apply fmap_Some in Hok as (i & Hi & ->). by apply lookup_seq in Hi as [-> _]. }
  split; [done|]. destruct (paired_step f k e Hf He Hrel) as (evs & e' & Ho & _). by exists evs, e'.
Qed.

Lemma hp_match_inv s d e k fl cmd batch evs e' :
  hp_pipe_inv (mkHpPipe s d (HBatch (cmd :: batch)) e k fl) → hp_on_order e cmd = Some (evs, e') → hp_pipe_inv (mkHpPipe s d (HBatch batch) e' (S k) (fl + fill_events evs)).
Proof.
  intros Hinv Ho. destruct (hp_wf_head _ _ _ _ _ _ _ Hinv) as [-> _]. destruct Hinv as [Hr Hpu Hof Hpo [He Hrel] Hfl [evs0 Hrun] Hd].
  cbn [hq_ring hq_done hq_pc hq_engine hq_processed hq_fills hp_in_hand] in *.
  destruct (paired_step f k e Hf He Hrel) as (evs1 & e1 & Ho1 & He1 & Hrel1 & Hfi & _). rewrite Ho in Ho1. injection Ho1 as <- <-.
  constructor; cbn [hq_ring hq_done hq_pc hq_engine hq_processed hq_fills hp_in_hand]; try done.
  - rewrite seq_S, fmap_app, <- app_assoc. exact Hpo.
  - by rewrite Hfi, Hfl, odd_half.
  - rewrite seq_S, fmap_app, hp_run_app, Hrun. cbn [mbind option_bind fmap list_fmap Nat.add hp_run]. rewrite Ho. by eexists.
Qed.

Lemma hp_pipe_step_inv p p' : hp_pipe_inv p → hp_pipe_step orders p p' → hp_pipe_inv p'.
Proof.
  intros Hinv Hst. destruct Hst as [s s' pc e k fl Hs Hc Hof'|s pc e k fl Hp Hl|s s' d e k fl Hs Hp Hc _|s s' d e k fl batch Hs Hp Hc Hb|s d e k fl cmd batch evs e' Ho|s d e k fl|s e k fl|s d e k fl];
    [..|by eapply hp_match_inv| | |]; destruct Hinv as [Hr Hpu Hof Hpo He Hfl Hrun Hd]; constructor; cbn [hq_ring hq_done hq_pc hq_engine hq_processed hq_fills hp_in_hand] in *; try done;
    try (by eapply ring_step_inv).
  - destruct (client_side s s' Hs Hc) as [_ [->|(cmd & Hcmd & -> & _)]]; [done|]. by apply prefix_next, Hof.
  - intros cmd Hcmd. destruct (client_side s s' Hs Hc) as [_ [->|(c & _ & _ & Hi)]]; [by apply Hof'|]. by rewrite Hi in Hcmd.
  - destruct (client_side s s' Hs Hc) as [-> _]. done.
  - intros _. destruct Hpu as [r Hr']. rewrite Hr' in Hl |- *. rewrite length_app in Hl. destruct r; [by rewrite app_nil_r|cbn in Hl; lia].
  - by rewrite (proj1 (shard_side s s' Hs Hp)).
  - by rewrite (proj1 (shard_side s s' Hs Hp)), Hp.
  - destruct (proj2 (shard_side s s' Hs Hp)) as [|Hq]; [done|by rewrite Hq].
  - by rewrite (proj1 (shard_side s s' Hs Hp)).
  - by rewrite (proj1 (shard_side s s' Hs Hp)).
  - by rewrite (proj1 (shard_side s s' Hs Hp)), Hp.
  - rewrite Hb, <- Hpo, app_nil_r. by destruct batch.
  - by rewrite (proj1 (shard_side s s' Hs Hp)).
Qed.

Lemma hp_pipe_reachable_inv p : hp_pipe_reachable cap orders p → hp_pipe_inv p.
Proof. induction 1 as [|p p' _ IH Hst]; [apply hp_pipe_inv_new|by eapply hp_pipe_step_inv]. Qed.

(** A shard that has not ended can move. *)
Lemma hp_shard_moves p : hp_pipe_inv p → hq_pc p = HStopped ∨ ∃ p', hp_pipe_step orders p p'.
Proof.
  intros Hinv. pose proof Hinv as [Hr Hpu Hof Hpo [He Hrel] Hfl Hrun Hd]. destruct p as [s d pc e k fl]. cbn [hq_ring hq_done hq_pc hq_engine hq_processed hq_fills hp_in_hand] in *.
  destruct pc as [|[|cmd batch]| |]; [right..|by left].
  - destruct s as [r pr [|mx h|h m out] sh st pu po]; pose proof (inv_cons _ _ Hr) as Hc; cbn in Hc.
    + eexists. eapply hp_shard_pop; [by eapply (pop_load_head _ _ _ _ _ _ 64)|done|done|done].
    + pose proof (inv_seen_tail _ _ Hr) as Hst. cbn in Hst. eexists. eapply hp_shard_pop; [eapply (pop_load_tail _ _ _ _ _ _ _ _ st); lia|done|done|done].
    + destruct Hc as (_ & _ & _ & Hle & _). destruct (decide (Z.of_nat (length out) = m)) as [Heq|Hne].
      * eexists. eapply (hp_shard_popped _ _ _ _ _ _ _ out); [by eapply pop_store_head|done|done|done].
      * eexists. eapply hp_shard_pop; [eapply pop_read; lia|done|done|done].
  - eexists. apply hp_shard_next.
  - destruct (hp_wf_head s d cmd batch e k fl Hinv) as (_ & evs & e' & Ho). eexists. by eapply hp_shard_match.
  - eexists. apply hp_shard_yield.
Qed.

(** The client pushes into a ring nobody takes from. *)
Lemma push_next s m :
  ring_inv cap s → prod s = PIdle → cons s = CIdle → popped s = [] → pushed s = f <$> seq 0 m → (m < n)%nat → (m < ring_size cap)%nat →
  ∀ pc e k fl, ∃ s', prod s' = PIdle ∧ cons s' = CIdle ∧ popped s' = [] ∧ pushed s' = f <$> seq 0 (S m)
    ∧ (hp_pipe_reachable (BI:=BI) (AI:=AI) cap orders (mkHpPipe s false pc e k fl) → hp_pipe_reachable cap orders (mkHpPipe s' false pc e k fl)).
Proof.
  intros Hr Hp Hc Hpo Hpu Hm Hsz pc e k fl. destruct s as [r pr co sh st pu po]. cbn in Hp, Hc, Hpo, Hpu. subst pr co po pu.
  pose proof (inv_tail _ _ Hr) as Ht. pose proof (inv_seen_head _ _ Hr) as Hsh. pose proof (inv_mask _ _ Hr) as Hmask. cbn in Ht, Hsh, Hmask. rewrite length_fmap, length_seq in Ht.
  assert (sh = 0%nat) as -> by lia. destruct (ring_size_bounds cap Hcap) as [_ H64].
  assert (orders !! m = Some (f m)) as Hcmd by (rewrite list_lookup_fmap, lookup_seq_lt by lia; done).
  assert (∀ cmd, Some (f m) = Some cmd → orders !! length (f <$> seq 0 m) = Some cmd) as Hoff by (intros cmd [= <-]; by rewrite length_fmap, length_seq).
  exists (mkShared (store_tail (write_slot r (tail r) (f m)) (wrapping_add (tail r) 1)) PIdle CIdle 0 st ((f <$> seq 0 m) ++ [f m]) []).
  split_and!; [done|done|done|by rewrite seq_S, fmap_app|]. intros Hreach.
  eapply hp_pipe_next; [|eapply (hp_client _ _ _ pc e k fl); [eapply push_store_tail|done|done]].
  eapply hp_pipe_next; [|eapply (hp_client _ _ _ pc e k fl); [eapply (push_write _ _ _ _ _ _ _ _ (counter 0))|done|exact Hoff]].
  2: { rewrite Ht, (counter_sub m 0) by lia. lia. }
  eapply hp_pipe_next; [|eapply (hp_client _ _ _ pc e k fl); [apply (push_load_head r CIdle 0 st _ [] (f m) (tail r) 0); cbn; lia|done|exact Hoff]].
  eapply hp_pipe_next; [exact Hreach|]. eapply (hp_client _ _ _ pc e k fl); [apply push_load_tail|done|exact Hoff].
Qed.

(** The shutdown race: the shard finds the ring empty, the client pushes everything and sets
    the flag, the shard reads the flag and ends; no order is matched. *)
Lemma hp_shutdown_loses :
  (n <= ring_size cap)%nat →
  ∃ s, hp_pipe_reachable cap orders (mkHpPipe s true HStopped (hp_engine_new : HpEngine BI AI) 0 0) ∧ pushed s = orders ∧ popped s = [].
Proof.
  intros Hn. set (e0 := hp_engine_new : HpEngine BI AI).
  assert (∀ m, (m <= n)%nat → ∃ s, prod s = PIdle ∧ cons s = CIdle ∧ popped s = [] ∧ pushed s = f <$> seq 0 m ∧ hp_pipe_reachable cap orders (mkHpPipe s false HEmpty e0 0 0)) as Hall.
  { induction m as [|m IH]; intros Hm.
    - exists (shared_new cap). split_and!; try done. eapply hp_pipe_next; [eapply hp_pipe_next; [eapply hp_pipe_next; [apply hp_pipe_start|]|]|].
      + eapply (hp_shard_pop _ _ (mkShared (ring_with_capacity cap) PIdle (CHead 64 0) 0 0 [] [])); [by apply (pop_load_head (ring_with_capacity cap))|done|done|done].
      + eapply hp_shard_pop; [apply (pop_load_tail (ring_with_capacity cap) PIdle 0 0 [] [] 64 0 0); cbn; lia|done|done|done].
      + eapply (hp_shard_popped _ _ (shared_new cap) _ _ _ _ []); [|done|done|done]. exact (pop_store_head (ring_with_capacity cap) PIdle 0 0 [] [] 0 0 [] eq_refl).
    - destruct IH as (s & Hp & Hc & Hpo & Hpu & Hreach); [lia|]. pose proof (hi_ring _ (hp_pipe_reachable_inv _ Hreach)) as Hr. cbn in Hr.
      destruct (push_next s m Hr Hp Hc Hpo Hpu ltac:(lia) ltac:(lia) HEmpty e0 0 0) as (s' & H1 & H2 & H3 & H4 & H5). exists s'. split_and!; try done. by apply H5. }
  destruct (Hall n (le_n n)) as (s & Hp & _ & Hpo & Hpu & Hreach). exists s. split_and!; [|done|done].
  eapply hp_pipe_next; [|apply hp_shard_stop]. eapply hp_pipe_next; [exact Hreach|]. apply hp_client_done; [done|]. by rewrite Hpu.
Qed.

End Pipe.

(** Client and shard take their steps in any order, each load of the other's counter may be
    stale.  The shard has matched the first [k] orders, in order; its engine is the one of a
    run of them and it has counted a fill for every pair.  What it has in hand comes next, all
    was pushed, and the ring is never above its size.  A shard that has not ended can move. *)
Theorem hp_pipe_in_order {BI AI : Type} `{LB : LevelIndex BI} `{LA : LevelIndex AI}
    `{SB : !LevelIndexSpec BI Buy} `{SA : !LevelIndexSpec AI Sell} cap f n (p : HpPipe BI AI) :
  cap_ok cap → paired f → hp_pipe_reachable cap (f <$> seq 0 n) p →
  let k := hq_processed p in let ring := hq_ring p in
  (∃ evs, hp_run hp_engine_new (f <$> seq 0 k) = Some (evs, hq_engine p)) ∧ hq_fills p = (k / 2)%nat
  ∧ (f <$> seq 0 k) ++ hp_in_hand (hq_pc p) = popped ring ∧ popped ring `prefix_of` pushed ring ∧ pushed ring `prefix_of` (f <$> seq 0 n)
  ∧ (length (pushed ring) - length (popped ring) <= ring_size cap)%nat
  ∧ (hq_pc p = HStopped ∨ ∃ p', hp_pipe_step (f <$> seq 0 n) p p').
Proof.
  intros Hc Hf Hp. pose proof (hp_pipe_reachable_inv cap Hc f Hf n p Hp) as Hinv. pose proof (hp_shard_moves cap f Hf n p Hinv) as Hmove.
  destruct Hinv as [Hr Hpu _ Hpo _ Hfl Hrun _]. cbv zeta. split_and!; try done; [by apply (inv_fifo _ _ Hr)|]. pose proof (inv_room _ _ Hr). pose proof (inv_seen_head _ _ Hr). lia.
Qed.

Module Runs.
Import HpIndex.

Example five_orders : hp_shard_run (BI:=BTreeBidIndex) (AI:=BTreeAskIndex) 3 5 = Some (5, 2, 3)%nat.
Proof. vm_compute. reflexivity. Qed.

Example flag_wants_value : hp_engine_args ["--shards"; "--multi-price"; "7"]%string = (4, 7, false).
Proof. vm_compute. reflexivity. Qed.

(** The race at the size of the program: two orders of the [--multi-price] run are lost. *)
Lemma two_lost :
  ∃ p : HpPipe BTreeBidIndex BTreeAskIndex, hp_engine_run true 2 p
    ∧ hq_pc p = HStopped ∧ hq_processed p = 0%nat ∧ hq_fills p = 0%nat ∧ length (pushed (hq_ring p)) = 2%nat.
Proof.
  destruct (hp_shutdown_loses (BI:=BTreeBidIndex) (AI:=BTreeAskIndex) 4096 ltac:(unfold cap_ok; lia) (priced_order true) (priced_paired true) 2) as (s & Hs & Hpu & _).
  { apply Nat2Z.inj_le. vm_compute. discriminate. }
  eexists. split; [exact Hs|]. split_and!; [done|done|done|]. cbn [hq_ring]. by rewrite Hpu.
Qed.

End Runs.
