(* ===== verification/NetBench.v ===== *)
(** * The benchmarks over the network, and the engines side by side

    Models [crates/match-udp-order/src/bin/tcp_order_bench.rs], [tcp_rss_shard_bench.rs],
    [udp_rss_hp_bench.rs] and the [match_core::Engine] half of [engine_pure_bench.rs].  A
    TCP connection is the stream of its bytes; a datagram or its answer may be lost.
    Clocks, socket options and what is printed are left out; a panic is [None].

    Pairs of a bid and an ask that takes it, on [match_core::Engine]: every bid rests, every
    ask is one fill, whatever the symbols and numbers ([core_pair_step]).  Hence the two
    engines count the same ([pure_engines_agree]), every order of the TCP benchmarks is
    answered by exactly one line ([tcp_bench_answers]), and the UDP benchmark ends when
    nothing is lost, and never when something is ([udp_bench_run]). *)
From stdpp Require Import gmap strings sorting.
From S2P Require Import Prelude Decimal Protocol CoreBook CoreMatch CoreSpec CoreEngine ProtocolProps HpScale HpTypes HpIndex HpBook HpEngine Utf8 PriorityBook CrossHp CrossCore PlainDecimal Workload WorkloadProps Gateway GatewayProps GatewayClient GatewayClientProps Shards ShardRing CrashTest HpBench.
From Stdlib Require Import QArith Lqa.

#[local] Open Scope Z_scope.

(** [BufRead::split(b'\n')]: the pieces, the last one only if it is not empty. *)
Fixpoint split_lines (cur l : list Z) : list (list Z) :=
  match l with
  | [] => match cur with [] => [] | _ => [cur] end
  | b :: l => if b =? 10 then cur :: split_lines [] l else split_lines (cur ++ [b]) l
  end.

Definition lines (l : list Z) : list (list Z) := split_lines [] l.

(** [sorted[sorted.len() / 2]]: an empty vector panics. *)
Definition p50 (rtts : list Z) : option Z := merge_sort Z.le rtts !! (length rtts / 2)%nat.

(** How a client that sends one order and waits for one answer ends. *)
Inductive lockstep := Blocked (sent : nat) | Ended (handled rtts : nat) (unread : list (list Z)).

Section Tcp.
Context `{BD : BigDecimal}.

(** ** The server *)

(** [report_text]: no type byte in front, unlike the gateway. *)
Definition tcp_report_text (ev : MatchEvent) : list Z :=
  match ev with
  | CoreMatch.Fill _ taker_order_no maker_order_no _ _ price qty _ _ _ _ =>
      bytes_of ("E|" +:+ taker_order_no +:+ "|" +:+ maker_order_no +:+ "|" +:+ price +:+ "|" +:+ qty)
  | CoreMatch.Revoke order_no symbol _ _ => bytes_of ("A|" +:+ order_no +:+ "|" +:+ symbol)
  end.

(** A line at the server; [word] stands for the symbol in the answer to an order without
    events.  A line that is no order has no answer. *)
Definition tcp_line (word : string) (engine : Engine) (handled : nat) (raw : list Z) : option (Engine * nat * list Z) :=
  match raw with
  | [] => Some (engine, handled, [])
  | _ =>
      match parse_order raw with
      | None => Some (engine, handled, [])
      | Some (mq, no) =>
          bb ← type_convert_spot mq;
          '(evs, engine) ← on_order engine bb;
          Some (engine, S handled, match evs with
                                   | [] => bytes_of ("A|" +:+ no +:+ "|" +:+ word) ++ [10]
                                   | _ => evs ≫= λ ev, tcp_report_text ev ++ [10]
                                   end)
      end
  end.

Fixpoint tcp_lines (word : string) (engine : Engine) (handled : nat) (raws : list (list Z)) : option (Engine * nat * list Z) :=
  match raws with
  | [] => Some (engine, handled, [])
  | raw :: raws =>
      '(engine, handled, out) ← tcp_line word engine handled raw;
      '(engine, handled, out') ← tcp_lines word engine handled raws;
      Some (engine, handled, out ++ out')
  end.

(** [server] and [server_run] on the bytes of the connection. *)
Definition tcp_order_server (received : list Z) : option (Engine * nat * list Z) := tcp_lines "btcusdt" engine_new 0 (lines received).
Definition tcp_rss_server (received : list Z) : option (Engine * nat * list Z) := tcp_lines "sym" engine_new 0 (lines received).

(** ** The clients *)

Definition bench_price (i : nat) : string := if Nat.even i then "100.00"%string else "99.99"%string.
Definition bench_word (i : nat) : string := if Nat.even i then "B"%string else "S"%string.

Definition order_text (i : nat) (symbol no : string) : string :=
  (bench_word i +:+ "|" +:+ symbol +:+ "|" +:+ bench_price i +:+ "|" +:+ "1" +:+ "|" +:+ no)%string.

Definition rss_symbol (shard_id i : nat) : string := sym_name (shard_id * SYMBOLS_PER_SHARD + (i / 2) mod SYMBOLS_PER_SHARD).
Definition rss_no (shard_id i : nat) : string := numbered ("t" +:+ numbered "" shard_id +:+ "o") i.

Definition rss_payload (shard_id i : nat) : list Z := bytes_of (order_text i (rss_symbol shard_id i) (rss_no shard_id i)) ++ [10].
Definition ping_text (i : nat) : list Z := bytes_of (order_text i "btcusdt" (numbered "oP" i)) ++ [10].

(** An order of the batch, made longer to [body_size] bytes. *)
Definition batch_text (body_size i : nat) : list Z :=
  let body := bytes_of (order_text i "btcusdt" (numbered "oB" i)) in
  (if (length body <? body_size)%nat then body ++ [124] ++ replicate (body_size - length body - 1) 120 else body) ++ [10].

(** The loop of [client_ping] and [client_run]: write an order, read a line. *)
Fixpoint tcp_exchange (word : string) (payload : nat → list Z) (engine : Engine) (handled : nat) (unread : list (list Z)) (is_ : list nat) (rtts : nat) : option lockstep :=
  match is_ with
  | [] => Some (Ended handled rtts unread)
  | i :: is_ =>
      '(engine, handled, out) ← tcp_lines word engine handled (lines (payload i));
      match unread ++ lines out with
      | [] => Some (Blocked rtts)
      | _ :: unread => tcp_exchange word payload engine handled unread is_ (S rtts)
      end
  end.

Definition tcp_ping (rounds : nat) : option lockstep := tcp_exchange "btcusdt" ping_text engine_new 0 [] (seq 0 rounds) 0.
Definition tcp_rss_run (shard_id per_shard : nat) : option lockstep := tcp_exchange "sym" (rss_payload shard_id) engine_new 0 [] (seq 0 per_shard) 0.

(** [client_batch]: everything is written, then lines are read until there are enough. *)
Fixpoint read_reports (n : nat) (ls : list (list Z)) (reports : nat) : nat :=
  match n, ls with
  | S n, _ :: ls => read_reports n ls (S reports)
  | _, _ => reports
  end.

Definition tcp_batch (n body_size : nat) : option nat :=
  '(_, _, out) ← tcp_order_server (seq 0 n ≫= batch_text body_size);
  Some (read_reports n (lines out) 0).

(** ** The engines alone *)

(** [pregen_core]; the orders are those of [client_shard_bench.rs]. *)
Definition pregen_core (shard_id per_shard : nat) : option (list BbOrder) := mapM (client_order shard_id) (seq 0 per_shard).

Definition core_fills (evs : list MatchEvent) : nat := length (List.filter is_core_fill evs).

Fixpoint pure_core_loop (engine : Engine) (orders : list BbOrder) (n fills : nat) : option (nat * nat) :=
  match orders with
  | [] => Some (n, fills)
  | bb :: orders => '(evs, engine) ← on_order engine bb; pure_core_loop engine orders (S n) (fills + core_fills evs)
  end.

Fixpoint pure_core_total (shards per_shard : nat) : option (nat * nat) :=
  match shards with
  | O => Some (0, 0)%nat
  | S k =>
      '(total, fills) ← pure_core_total k per_shard;
      orders ← pregen_core k per_shard;
      '(n, f) ← pure_core_loop engine_new orders 0 0;
      Some (total + n, fills + f)%nat
  end.

End Tcp.

(** ** The command line of [tcp_order_bench.rs] *)

Record TcpArgs := mkTcpArgs { t_ping : bool; t_n : Z; t_port : Z; t_body : Z; t_poll : Z }.

Definition parse_u32 (s : string) : option Z := n ← parse_u64 (bytes_of s); if n <=? 2 ^ 32 - 1 then Some n else None.

Definition tcp_flag (a : string) (v : option string) (t : TcpArgs) : option TcpArgs :=
  let usize d := default d (v ≫= λ v, parse_u64 (bytes_of v)) in
  if String.eqb a "--ping" then Some (mkTcpArgs true (usize 500) (t_port t) (t_body t) (t_poll t))
  else if String.eqb a "--batch" then Some (mkTcpArgs false (usize 20000) (t_port t) (t_body t) (t_poll t))
  else if String.eqb a "--port" then Some (mkTcpArgs (t_ping t) (t_n t) (default 55180 (v ≫= parse_u16)) (t_body t) (t_poll t))
  else if String.eqb a "--body" then Some (mkTcpArgs (t_ping t) (t_n t) (t_port t) (usize 0) (t_poll t))
  else if String.eqb a "--busy-poll" then Some (mkTcpArgs (t_ping t) (t_n t) (t_port t) (t_body t) (default 50 (v ≫= parse_u32)))
  else None.

Fixpoint tcp_args (args : list string) (t : TcpArgs) : TcpArgs :=
  match args with
  | [] => t
  | a :: rest =>
      match tcp_flag a (head rest) t with
      | Some t => match rest with _ :: rest => tcp_args rest t | [] => t end
      | None =>
          if String.prefix "--" a then tcp_args rest t
          else tcp_args rest (mkTcpArgs (t_ping t) (default 20000 (parse_u64 (bytes_of a))) (t_port t) (t_body t) (t_poll t))
      end
  end.

Definition tcp_order_args (args : list string) : TcpArgs := tcp_args args (mkTcpArgs false 20000 55180 0 0).
Definition tcp_rss_args (args : list string) := bench_args "--per-shard" None 4 50000 args 4 50000 false.
Definition udp_rss_args (args : list string) := bench_args "--per-shard" (Some "--pin"%string) 4 50000 args 4 50000 false.

(** ** Pinning threads *)

(** [affinity.rs]; without the crate feature pinning is an error.  [cores] is what the
    system reports, [set] whether it lets the thread be pinned to a core. *)
Inductive AffinityError := NoCoreIds | CoreNotFound | SetFailed | FeatureMissing.

Definition pin_current_thread (feature : bool) (cores : option (list Z)) (set : Z → bool) (core_id : Z) : AffinityError + Z :=
  if feature then
    match cores with
    | None => inl NoCoreIds
    | Some cores =>
        match List.find (λ c, c =? core_id) cores with
        | None => inl CoreNotFound
        | Some core => if set core then inr core else inl SetFailed
        end
    end
  else inl FeatureMissing.

(** The cores of the two threads of a shard of [udp_rss_hp_bench.rs]. *)
Definition server_core (shard_id : nat) : Z := Z.of_nat shard_id * 2.
Definition client_core (shard_id : nat) : Z := Z.of_nat shard_id * 2 + 1.

(** ** UDP *)

Definition PKT_LEN : nat := 25.

Definition pkt_encode (s : Side) (tick qty client_id : Z) : list Z :=
  [match s with Buy => 1 | Sell => 2 end] ++ le_bytes 8 tick ++ le_bytes 8 qty ++ le_bytes 8 client_id.

Definition pkt_decode (b : list Z) : Side * Z * Z * Z :=
  (if default 0 (b !! 0%nat) =? 1 then Buy else Sell, i64_wrap (le_val (slice 1 9 b)), i64_wrap (le_val (slice 9 17 b)), le_val (slice 17 25 b)).

Section Udp.
Context {BI AI : Type} `{LB : LevelIndex BI} `{LA : LevelIndex AI}.

Record UdpServer := mkUdpServer { us_engine : HpEngine BI AI; us_handled : nat; us_fills : nat; us_idle : nat; us_running : bool }.

Definition udp_server_new : UdpServer := mkUdpServer hp_engine_new 0 0 0 true.

(** What [recv_from] returns: a datagram, or nothing for 50 milliseconds. *)
Inductive recv := Datagram (b : list Z) | TimedOut.

(** [server_run]: a turn of the loop, with the answer. *)
Definition udp_turn (s : UdpServer) (r : recv) : option (UdpServer * option (list Z)) :=
  match r with
  | Datagram b =>
      if (length b =? PKT_LEN)%nat then
        let '(side, tick, qty, client) := pkt_decode b in
        '(evs, engine) ← hp_on_order (us_engine s) (Limit side tick qty 0 client);
        Some (mkUdpServer engine (S (us_handled s)) (us_fills s + fill_events evs) 0 true, Some [1])
      else Some (mkUdpServer (us_engine s) (us_handled s) (us_fills s) 0 true, None)
  | TimedOut => Some (mkUdpServer (us_engine s) (us_handled s) (us_fills s) (S (us_idle s)) (negb (10 <? S (us_idle s))%nat), None)
  end.

(** The server with nobody sending; it ends by itself. *)
Fixpoint udp_idle (fuel : nat) (s : UdpServer) : option UdpServer :=
  if us_running s then match fuel with O => None | S fuel => '(s, _) ← udp_turn s TimedOut; udp_idle fuel s end else Some s.

(** What becomes of a datagram and of its answer. *)
Inductive fate := Through | OrderLost | AckLost.

(** [client_run] against the server: send, wait for the answer without a timeout.  The last
    component is the number of orders answered when the client waits forever. *)
Fixpoint udp_exchange (fates : nat → fate) (shard_id : nat) (s : UdpServer) (is_ : list nat) (rtts : nat) : option (UdpServer * nat * bool) :=
  match is_ with
  | [] => Some (s, rtts, true)
  | i :: is_ =>
      let pkt := pkt_encode (bench_side i) (bench_tick i) 1 (bench_client shard_id i) in
      match fates i with
      | OrderLost => Some (s, rtts, false)
      | Through =>
          '(s, ack) ← udp_turn s (Datagram pkt);
          match ack with Some _ => udp_exchange fates shard_id s is_ (S rtts) | None => Some (s, rtts, false) end
      | AckLost => '(s, _) ← udp_turn s (Datagram pkt); Some (s, rtts, false)
      end
  end.

(** Client and server of a shard: handled, fills, answers, and whether the client ended. *)
Definition udp_rss_run (fates : nat → fate) (shard_id per_shard : nat) : option (nat * nat * nat * bool) :=
  '(s, rtts, ended) ← udp_exchange fates shard_id udp_server_new (seq 0 per_shard) 0;
  s ← udp_idle 11 s;
  Some (us_handled s, us_fills s, rtts, ended).

End Udp.
#[global] Arguments UdpServer : clear implicits.

(** ** Pairs on the core engine *)

Section CorePairs.
Context `{PP : PlainParse}.
Implicit Types (e : Engine).

(** The symbols and numbers of a stream; both orders of a pair name one symbol. *)
Context (N : nat) (sym no : nat → string).

Record named_pairs : Prop := {
  np_sym i : Nat.even i = true → sym (S i) = sym i;
  np_no i : (S i < N)%nat → no i ≠ no (S i) }.

Context (Hnp : named_pairs).

Definition pair_key (i : nat) : string := to_lowercase (remove_slash (sym i)).

Definition pair_mq (i : nat) : MqOrder :=
  mq_limit (if Nat.even i then ORDER_TYPE_BUY else ORDER_TYPE_SELL) (sym i) (no i) (bench_price i) "1".

(** The bid of a pair is number 0 of it, the ask is number 1. *)
Definition pair_id (k : nat) (n : string) : option Z := if String.eqb n (no k) then Some 0 else if String.eqb n (no (S k)) then Some 1 else None.

Definition bid_of (i : nat) : nat := if Nat.even i then i else (i - 1)%nat.

(** After [i] orders: nothing rests, or the bid of the last pair. *)
Definition pair_book (i : nat) : abook := if Nat.even i then abook_new else mkAbook [mkEntry 0 10000 1000000] [].

Definition empty_book (b : OrderBook) : Prop := ∀ s, orders s b = [].

Record pairs_resting e (i : nat) : Prop := {
  pr_inv s : book_inv s (book_of e s);
  pr_others s : s ≠ pair_key (bid_of i) → empty_book (book_of e s);
  pr_rel : core_rel (pair_id (bid_of i)) (unit 2) (unit 6) (book_of e (pair_key (bid_of i))) (pair_book i) }.

Definition pair_side (i : nat) : aside := if Nat.even i then ABuy else ASell.
Definition pair_tick (i : nat) : Z := if Nat.even i then 10000 else 9999.
Definition pair_number (i : nat) : Z := if Nat.even i then 0 else 1.

Lemma bid_of_facts i : (i < N)%nat → pair_key i = pair_key (bid_of i) ∧ pair_id (bid_of i) (no i) = Some (pair_number i).
Proof.
  destruct Hnp as [Hs Hn]. intros Hlt. unfold pair_key, bid_of, pair_id, pair_number. destruct (Nat.even i) eqn:Ei; [by rewrite String.eqb_refl|].
  destruct i as [|k]; [done|]. replace (S k - 1)%nat with k by lia. rewrite Nat.even_succ, <- Nat.negb_even in Ei. apply negb_false_iff in Ei.
  rewrite (Hs k Ei), (proj2 (String.eqb_neq _ _)), String.eqb_refl by (by apply not_eq_sym, Hn). done.
Qed.

Lemma pair_order i :
  (i < N)%nat → ∃ o, type_convert_spot (pair_mq i) = Some o ∧ symbol_key o = pair_key (bid_of i) ∧ trust_order_no o = no i
    ∧ new_limit (pair_id (bid_of i)) (unit 2) (unit 6) o (pair_side i) (pair_number i) (pair_tick i) 1000000.
Proof.
  intros Hlt. destruct one_worth as (q & Hq & Wq). destruct (bid_of_facts i Hlt) as [Hkey Hid].
  assert (∃ d, dec (bench_price i) = Some d ∧ worth (unit 2) d (pair_tick i)) as (d & Hd & Wd).
  { unfold bench_price, pair_tick. destruct (Nat.even i); [apply hundred_worth|apply sell_worth]. }
  assert (⟦bd_zero⟧ == 0)%Q as H0 by apply bd_val_zero.
  assert (0 < ⟦d⟧)%Q as Hd0.
  { unfold worth in Wd. rewrite Wd, <- (Qmult_0_l (unit 2)). apply (unit_lt (unit 2) 0); [done|]. unfold pair_tick. by destruct (Nat.even i). }
  assert (0 < ⟦q⟧)%Q as Hq0.
  { unfold worth in Wq. rewrite Wq, <- (Qmult_0_l (unit 6)). by apply (unit_lt (unit 6) 0). }
  unfold type_convert_spot, pair_mq, mq_limit. cbn [mq_symbol_key mq_trust_number mq_trust_price mq_order_form mbind option_bind].
  unfold parse_decimal. fold (dec "1"). fold (dec (bench_price i)). rewrite Hq, Hd. cbn [mbind option_bind].
  destruct (q <=? bd_zero)%bd eqn:E1; [bdb; exfalso; lra|]. destruct (d <=? bd_zero)%bd eqn:E2; [bdb; exfalso; lra|].
  cbn. eexists. split; [reflexivity|]. cbn. split; [exact Hkey|]. split; [done|]. unfold pair_side, pair_tick in *.
  split; [done|]. split; [done|]. split; [by destruct (Nat.even i)|].
  split; [unfold quantity_ok, remaining; cbn; split; bdlra|]. split; [exact Hid|]. split; [done|].
  unfold worth, remaining in *. cbn. rewrite bd_val_sub, H0, <- Wq. lra.
Qed.

Lemma pairs_resting_new : pairs_resting engine_new 0.
Proof.
  assert (∀ s, book_of engine_new s = book_new) as Hb by (intros s; unfold book_of; by rewrite (lookup_empty (M:=gmap string) s : engine_new !! s = None)).
  constructor; [intros s; rewrite Hb; apply book_inv_new|intros s _; rewrite Hb; by intros []|rewrite Hb; intros []; constructor].
Qed.

Lemma on_order_elsewhere e o evs e' s : on_order e o = Some (evs, e') → s ≠ symbol_key o → book_of e' s = book_of e s.
Proof.
  unfold on_order. intros Ho Hs. apply bind_Some in Ho as ([evs1 b] & _ & [= _ <-]). unfold book_of. by rewrite (lookup_insert_ne (M:=gmap string) e) by done.
Qed.

Lemma pair_id_inv k n z : pair_id k n = Some z → (z = 0 ∧ n = no k) ∨ (z = 1 ∧ n = no (S k)).
Proof.
  unfold pair_id. destruct (String.eqb_spec n (no k)) as [->|_]; [intros [= <-]; by left|]. destruct (String.eqb_spec n (no (S k))) as [->|_]; [|done]. intros [= <-]. by right.
Qed.

(** Nothing in the book of the pair has the number of the next order, and its side is free. *)
Lemma pair_free e i :
  (i < N)%nat → pairs_resting e i → let b := book_of e (pair_key (bid_of i)) in contains_order_no b (no i) = false ∧ orders (side_of (pair_side i)) b = [].
Proof.
  intros Hlt [_ _ Hrel]. cbv zeta. destruct (bid_of_facts i Hlt) as [_ Hid]. split.
  - assert (∀ t x, x ∈ orders (side_of t) (book_of e (pair_key (bid_of i))) → no i ≠ trust_order_no x) as Hne.
    { intros t x Hx Heq. destruct (Forall2_elem_r _ _ _ _ (proj1 (Forall2_flip _ _ _) (Hrel t)) Hx) as (en & Hen & Hxid & _).
      rewrite <- Heq, Hid in Hxid. unfold pair_book, pair_number in *. destruct (Nat.even i), t; cbn in Hen; try by apply elem_of_nil in Hen.
      apply list_elem_of_singleton in Hen as ->. done. }
    apply contains_order_no_false_iff. split; intros (x & Heq & Hx)%list_elem_of_fmap; [by apply (Hne ABuy x)|by apply (Hne ASell x)].
  - pose proof (Hrel (pair_side i)) as Hr. unfold pair_side, pair_book in *. destruct (Nat.even i); cbn in Hr |- *; by inversion Hr.
Qed.

(** The books after an order of the pair. *)
Lemma pair_books e e' i o evs :
  pairs_resting e i → on_order e o = Some (evs, e') → symbol_key o = pair_key (bid_of i) →
  book_inv (pair_key (bid_of i)) (book_of e' (pair_key (bid_of i))) →
  core_rel (pair_id (bid_of i)) (unit 2) (unit 6) (book_of e' (pair_key (bid_of i))) (pair_book (S i)) → pairs_resting e' (S i).
Proof.
  intros [Hinv Ho Hr] Hon Hsym Hinv' Hrel'. assert (∀ s, s ≠ pair_key (bid_of i) → book_of e' s = book_of e s) as Helse by (intros s Hs; eapply on_order_elsewhere; [exact Hon|by rewrite Hsym]).
  assert (∀ s, book_inv s (book_of e' s)) as Hall by (intros s; destruct (decide (s = pair_key (bid_of i))) as [->|Hne]; [done|rewrite Helse by done; apply Hinv]).
  unfold pair_book in Hrel'. destruct (Nat.even (S i)) eqn:Ei.
  - assert (∀ s, empty_book (book_of e' s)) as Hemp.
    { intros s. destruct (decide (s = pair_key (bid_of i))) as [->|Hne]; [|rewrite Helse by done; by apply Ho].
      intros [|]; [pose proof (Hrel' ABuy) as Hnil|pose proof (Hrel' ASell) as Hnil]; cbn in Hnil; by apply Forall2_nil_inv_r in Hnil. }
    constructor; [done|intros s _; apply Hemp|]. unfold pair_book. rewrite Ei. intros t. rewrite (Hemp _ (side_of t)). by destruct t; constructor.
  - assert (bid_of (S i) = bid_of i) as Hbid.
    { unfold bid_of. rewrite Ei. rewrite Nat.even_succ, <- Nat.negb_even in Ei. apply negb_false_iff in Ei. rewrite Ei. lia. }
    constructor; [done| |unfold pair_book; rewrite Ei, Hbid; exact Hrel']. rewrite Hbid. intros s Hs. rewrite Helse by done. by apply Ho.
Qed.

Lemma core_pair_step e i :
  (i < N)%nat → pairs_resting e i →
  ∃ o evs e', type_convert_spot (pair_mq i) = Some o ∧ on_order e o = Some (evs, e') ∧ pairs_resting e' (S i)
    ∧ if Nat.even i then evs = [] else ∃ s tt mt price qty tr mr ts ms, evs = [CoreMatch.Fill s (no i) (no (i - 1)%nat) tt mt price qty tr mr ts ms]
        ∧ is_Some (bd_from_str price) ∧ is_Some (bd_from_str qty).
Proof.
  intros Hlt Hst. destruct (pair_order i Hlt) as (o & Ho & Hsym & Hno & Hnew). destruct (pair_free e i Hlt Hst) as [Hc Hown]. pose proof Hst as [Hinv _ Hrel].
  rewrite <- Hno in Hc. set (key := pair_key (bid_of i)) in *.
  pose proof (core_limit_step (pair_id (bid_of i)) (unit 2) (unit 6) (unit_pos _) (unit_pos _) key _ _ o _ _ _ _ (Hinv key) Hrel Hnew Hc) as Hstep.
  rewrite Hown in Hstep. specialize (Hstep (Forall_nil_2 _)). destruct (a_step (pair_book i) _) as [aevs ab'] eqn:Ea.
  destruct Hstep as (evs & book' & Hon & Hevs & Hrel' & _). rewrite <- Hsym in Hon. destruct (on_order_of_book e o evs book' Hon) as (e' & He' & Hb').
  assert (order_valid o) as Hv by (by eapply type_convert_spot_valid). rewrite Hsym in Hb', Hon.
  destruct (on_book_inv key _ o (Hinv key) Hsym Hv) as (? & ? & Hon2 & Hinv'). rewrite Hon in Hon2. injection Hon2 as <- <-. rewrite <- Hb' in Hinv', Hrel'.
  assert (ab' = pair_book (S i) ∧ if Nat.even i then aevs = [] else ∃ p lt lm, aevs = [AFill 1 0 p 1000000 lt lm]) as [-> Haevs].
  { unfold pair_book, pair_side, pair_tick, pair_number in *. rewrite Nat.even_succ, <- Nat.negb_even. destruct (Nat.even i); cbn in Ea |- *; injection Ea as <- <-; [done|]. split; [done|]. by repeat eexists. }
  exists o, evs, e'. split; [done|]. split; [done|]. split; [by eapply pair_books|]. destruct (Nat.even i) eqn:Ei.
  - subst aevs. by apply Forall2_nil_inv_r in Hevs.
  - destruct Haevs as (p & lt & lm & ->). apply Forall2_cons_inv_r in Hevs as (ev & ? & Hev & Hnil & ->). apply Forall2_nil_inv_r in Hnil as ->.
    destruct ev; [|done]. destruct Hev as (Ht & Hm & (d1 & Hp1 & _) & (d2 & Hp2 & _) & _). assert (bid_of i = (i - 1)%nat) as Hbid by (unfold bid_of; by rewrite Ei). rewrite Hbid in Ht, Hm.
    apply pair_id_inv in Ht as [[? _]|[_ ->]]; [done|]. apply pair_id_inv in Hm as [[_ ->]|[? _]]; [|done]. destruct i as [|k]; [done|]. replace (S (S k - 1)) with (S k) by lia. by repeat eexists.
Qed.

End CorePairs.

(** ** The two engines *)

(** Streams of one symbol per pair, numbered from zero. *)
Lemma numbered_pairs (sym : nat → string) (prefix : string) (N : nat) :
  Z.of_nat N <= 2 ^ 64 → (∀ i, Nat.even i = true → sym (S i) = sym i) → named_pairs N sym (numbered prefix).
Proof. intros HN Hs. split; [exact Hs|]. intros i Hi Heq. apply numbered_inj in Heq; lia. Qed.

Lemma rss_symbol_pair shard_id i : Nat.even i = true → rss_symbol shard_id (S i) = rss_symbol shard_id i.
Proof. intros Hi. unfold rss_symbol. by rewrite (div2_succ i Hi). Qed.

Section Pure.
Context `{PP : PlainParse}.

Lemma core_event_fills i evs :
  (if Nat.even i then evs = [] else ∃ s t m tt mt price qty tr mr ts ms, evs = [CoreMatch.Fill s t m tt mt price qty tr mr ts ms]) → core_fills evs = odd_one i.
Proof. unfold odd_one. destruct (Nat.even i); [by intros ->|]. by intros (? & ? & ? & ? & ? & ? & ? & ? & ? & ? & ? & ->). Qed.

Lemma pure_core_run shard_id m : ∀ engine i n fills,
  let no := numbered ("c" +:+ numbered "" shard_id +:+ "o") in
  Z.of_nat (i + m) <= 2 ^ 64 → pairs_resting (rss_symbol shard_id) no engine i →
  ∃ orders, mapM (client_order shard_id) (seq i m) = Some orders ∧ pure_core_loop engine orders n fills = Some (n + m, fills + ((i + m) / 2 - i / 2))%nat.
Proof.
  induction m as [|m IH]; intros engine i n fills no Hb Hst; cbn [seq mapM].
  { exists []. split; [done|]. cbn [pure_core_loop]. rewrite (Nat.add_0_r i), Nat.sub_diag. do 2 f_equal; lia. }
  pose proof (numbered_pairs (rss_symbol shard_id) ("c" +:+ numbered "" shard_id +:+ "o") (i + S m) Hb (rss_symbol_pair shard_id)) as Hnp.
  destruct (core_pair_step (i + S m) _ _ Hnp engine i ltac:(lia) Hst) as (o & evs & e' & Ho & Hon & Hst' & Hev).
  assert (core_fills evs = odd_one i) as Hf.
  { apply core_event_fills. destruct (Nat.even i); [done|]. destruct Hev as (? & ? & ? & ? & ? & ? & ? & ? & ? & Hev & _). by repeat eexists. }
  destruct (IH e' (S i) (S n) (fills + odd_one i)%nat ltac:(lia) Hst') as (orders & Hm & Hl). exists (o :: orders).
  assert (client_order shard_id i = Some o) as -> by exact Ho. cbn [mbind option_bind]. rewrite Hm. split; [done|]. cbn [pure_core_loop]. rewrite Hon. cbn [mbind option_bind]. rewrite Hf, Hl.
  pose proof (odd_half i). assert (S i / 2 <= (i + S m) / 2)%nat by (apply Nat.Div0.div_le_mono; lia). replace (S i + m)%nat with (i + S m)%nat by lia. do 2 f_equal; lia.
Qed.

End Pure.

(** Both engines process every order of the benchmark and make one fill of every pair,
    [match_core::Engine] with 32 symbols for each shard, [HpEngine] with one book. *)
Theorem pure_engines_agree `{PP : PlainParse} {BI AI : Type} `{LB : LevelIndex BI} `{LA : LevelIndex AI}
    `{SB : !LevelIndexSpec BI Buy} `{SA : !LevelIndexSpec AI Sell} shards per_shard :
  Z.of_nat per_shard <= 2 ^ 64 →
  pure_core_total shards per_shard = Some (shards * per_shard, shards * (per_shard / 2))%nat
  ∧ pure_hp_total (BI:=BI) (AI:=AI) shards per_shard = pure_core_total shards per_shard.
Proof.
  intros Hb. assert (pure_core_total shards per_shard = Some (shards * per_shard, shards * (per_shard / 2))%nat) as Hc.
  { induction shards as [|k IH]; [done|]. cbn [pure_core_total]. rewrite IH. cbn [mbind option_bind]. unfold pregen_core.
    destruct (pure_core_run k per_shard engine_new 0 0 0 Hb (pairs_resting_new _ _)) as (orders & Hm & Hl). rewrite Hm. cbn [mbind option_bind]. rewrite Hl. cbn [mbind option_bind].
    rewrite Nat.add_0_l, Nat.Div0.div_0_l, Nat.sub_0_r. do 2 f_equal; lia. }
  split; [done|]. rewrite Hc. apply hp_shard_counts.
Qed.

(** ** Lines *)

Definition newline : ascii := "010"%char.

(** Characters an order field may have. *)
Definition tidy_char (a : ascii) : Prop := Z.of_N (N_of_ascii a) < 128 ∧ a ≠ bar ∧ a ≠ newline.
Definition tidy (s : string) : Prop := Forall tidy_char (String.list_ascii_of_string s).

Definition one_piece (l : list Z) : Prop := Forall (λ b, b ≠ 10) l.

(** [FromStr] accepts no text with a line feed in it. *)
Class OneLine `{BD : BigDecimal} : Prop := one_line s : is_Some (bd_from_str s) → Forall (λ a, a ≠ newline) (String.list_ascii_of_string s).

Lemma bytes_of_app s t : bytes_of (s +:+ t) = bytes_of s ++ bytes_of t.
Proof. unfold bytes_of. by rewrite list_ascii_app, fmap_app. Qed.

Lemma tidy_app s t : tidy (s +:+ t) ↔ tidy s ∧ tidy t.
Proof. unfold tidy. by rewrite list_ascii_app, Forall_app. Qed.

Lemma no_newline_piece s : Forall (λ a, a ≠ newline) (String.list_ascii_of_string s) → one_piece (bytes_of s).
Proof.
  intros Hs. unfold one_piece, bytes_of. apply Forall_fmap. eapply Forall_impl; [exact Hs|]. intros a Ha Hz. apply Ha. unfold newline. cbn in Hz.
  rewrite <- (ascii_N_embedding a). replace (N_of_ascii a) with 10%N by lia. done.
Qed.

Lemma tidy_piece s : tidy s → one_piece (bytes_of s).
Proof. intros Hs. apply no_newline_piece. eapply Forall_impl; [exact Hs|]. by intros a (_ & _ & ?). Qed.

Lemma tidy_field s : tidy s → ascii_text s ∧ field s.
Proof. intros Hs. split; (eapply Forall_impl; [exact Hs|]); by intros a (? & ? & _). Qed.

Lemma digits_tidy l : all_digits l → tidy (String.string_of_list_ascii l).
Proof.
  intros Hd. unfold tidy. rewrite String.list_ascii_of_string_of_list_ascii. eapply Forall_impl; [exact Hd|]. intros a. unfold is_ascii_digit, code. intros Ha.
  split; [lia|]. split; intros ->; vm_compute in Ha; done.
Qed.

Lemma numbered_tidy prefix i : tidy prefix → Z.of_nat i < 2 ^ 64 → tidy (numbered prefix i).
Proof.
  intros Hp Hi. unfold numbered. apply tidy_app. split; [done|]. apply digits_tidy. by destruct (u64_to_string_spec (Z.of_nat i) ltac:(lia)) as (Hd & _).
Qed.

Lemma sym_name_tidy i : Z.of_nat i < 2 ^ 64 → tidy (sym_name i).
Proof.
  intros Hi. unfold sym_name. apply tidy_app. split; [by repeat constructor|]. apply digits_tidy. unfold zero_padded. apply Forall_app. split; [apply all_digits_zeros|].
  by destruct (u64_to_string_spec (Z.of_nat i) ltac:(lia)) as (Hd & _).
Qed.

Lemma split_lines_piece l : ∀ cur rest, one_piece l → split_lines cur (l ++ 10 :: rest) = (cur ++ l) :: lines rest.
Proof.
  induction l as [|b l IH]; intros cur rest Hl; cbn [app split_lines]; [by rewrite app_nil_r|]. apply Forall_cons in Hl as [Hb Hl].
  rewrite (proj2 (Z.eqb_neq b 10) Hb), IH by done. by rewrite <- app_assoc.
Qed.

Lemma lines_piece l rest : one_piece l → lines (l ++ [10] ++ rest) = l :: lines rest.
Proof. apply (split_lines_piece l []). Qed.

Lemma lines_one l : one_piece l → lines (l ++ [10]) = [l].
Proof. intros Hl. rewrite <- (app_nil_r [10]), lines_piece by done. done. Qed.

(** An order is read whatever stands behind its number. *)
Definition loose_tail (tail : string) : Prop := tail = ""%string ∨ ∃ t, tail = String bar t ∧ ascii_text t.

Section Tcp.
Context `{PP : PlainParse} `{OL : !OneLine}.

Lemma order_text_parses i s n tail :
  tidy s → tidy n → loose_tail tail →
  parse_order (bytes_of (order_text i s n +:+ tail)) = Some (mq_limit (if Nat.even i then ORDER_TYPE_BUY else ORDER_TYPE_SELL) s n (bench_price i) "1", n).
Proof.
  intros [Hs1 Hs2]%tidy_field [Hn1 Hn2]%tidy_field Ht. assert (∀ a b c : string, ((a +:+ b) +:+ c)%string = (a +:+ (b +:+ c))%string) as Hassoc.
  { intros a b c. induction a as [|x a IH]; [done|]. change ((String x a +:+ b) +:+ c) with (String x ((a +:+ b) +:+ c)). by rewrite IH. }
  assert (∀ a b, ascii_text (a +:+ b) ↔ ascii_text a ∧ ascii_text b) as Hascii by (intros a b; unfold ascii_text; by rewrite list_ascii_app, Forall_app).
  assert (ascii_text tail) as Ht1 by (destruct Ht as [->|(t & -> & Ht)]; [constructor|by constructor]).
  assert (ascii_text (order_text i s n +:+ tail)) as Hall.
  { unfold order_text, bench_word, bench_price. rewrite !Hascii. split_and!; try done; destruct (Nat.even i); by repeat constructor. }
  unfold parse_order. rewrite from_utf8_ascii by done. cbn [mbind option_bind]. unfold order_text. rewrite !Hassoc. assert (∀ t, "|" +:+ t = String bar t) as Hbar by done. rewrite !Hbar.
  assert (field (bench_word i) ∧ field (bench_price i) ∧ field "1") as (H1 & H2 & H3) by (unfold bench_word, bench_price; destruct (Nat.even i); split_and!; by repeat constructor).
  do 4 (rewrite split_on_app by done).
  assert (∃ more, split_on bar (n +:+ tail) = n :: more) as [more ->].
  { destruct Ht as [->|(t & -> & _)]; [|rewrite split_on_app by done; by eexists]. exists []. rewrite <- (split_on_plain bar n) by done. f_equal. clear. induction n as [|x n IH]; [done|]. change (String x n +:+ "") with (String x (n +:+ "")). by rewrite IH. }
  unfold bench_word. by destruct (Nat.even i).
Qed.

(** A line of the stream at the server: one line back. *)
Lemma tcp_pair_line N sym no word e h i tail :
  named_pairs N sym no → (i < N)%nat → tidy (sym i) → (∀ k, (k < N)%nat → tidy (no k)) → tidy word → loose_tail tail → pairs_resting sym no e i →
  ∃ e' rep, tcp_line word e h (bytes_of (order_text i (sym i) (no i) +:+ tail)) = Some (e', S h, rep ++ [10]) ∧ one_piece rep ∧ pairs_resting sym no e' (S i).
Proof.
  intros Hnp Hi Hs Hno Hw Ht Hst. destruct (core_pair_step N sym no Hnp e i Hi Hst) as (o & evs & e' & Ho & Hon & Hst' & Hev).
  unfold tcp_line. rewrite (order_text_parses i (sym i) (no i) tail Hs (Hno i Hi) Ht).
  assert (∃ b l, bytes_of (order_text i (sym i) (no i) +:+ tail) = b :: l) as (b & l & ->) by (unfold order_text, bench_word; destruct (Nat.even i); by eexists _, _).
  assert (type_convert_spot (mq_limit (if Nat.even i then ORDER_TYPE_BUY else ORDER_TYPE_SELL) (sym i) (no i) (bench_price i) "1") = Some o) as -> by exact Ho.
  cbn [mbind option_bind]. rewrite Hon. cbn [mbind option_bind]. pose proof (tidy_piece _ (Hno i Hi)) as Hn1. exists e'. destruct (Nat.even i) eqn:Ei.
  - subst evs. eexists. split; [reflexivity|]. split; [|done]. rewrite !bytes_of_app. unfold one_piece in *. rewrite !Forall_app. split_and!; [by repeat constructor|done|by repeat constructor|]. by apply tidy_piece.
  - destruct Hev as (s & tt & mt & price & qty & tr & mr & ts & ms & -> & Hp & Hq). eexists. split; [cbn [mbind list_bind]; rewrite app_nil_r; reflexivity|]. split; [|done].
    cbn [tcp_report_text]. rewrite !bytes_of_app. unfold one_piece in *. rewrite !Forall_app. assert (i ≠ 0)%nat by (intros ->; done).
    pose proof (no_newline_piece _ (one_line _ Hp)). pose proof (no_newline_piece _ (one_line _ Hq)). pose proof (tidy_piece _ (Hno (i - 1)%nat ltac:(lia))).
    split_and!; try done; by repeat constructor.
Qed.

(** A stream of lines: each is an order text, with something behind it or not. *)
Definition stream_line (sym no : nat → string) (raw : nat → list Z) (i : nat) : Prop :=
  one_piece (raw i) ∧ ∃ tail, loose_tail tail ∧ raw i = bytes_of (order_text i (sym i) (no i) +:+ tail).

Section Stream.
Context (N : nat) (sym no : nat → string) (raw : nat → list Z) (word : string).
Context (Hnp : named_pairs N sym no) (Hsym : ∀ i, (i < N)%nat → tidy (sym i)) (Hno : ∀ i, (i < N)%nat → tidy (no i)) (Hword : tidy word).
Context (Hraw : ∀ i, (i < N)%nat → stream_line sym no raw i).

Lemma tcp_stream_line e h i : (i < N)%nat → pairs_resting sym no e i → ∃ e' rep, tcp_line word e h (raw i) = Some (e', S h, rep ++ [10]) ∧ one_piece rep ∧ pairs_resting sym no e' (S i).
Proof. intros Hi Hst. destruct (Hraw i Hi) as (_ & tail & Ht & ->). by eapply (tcp_pair_line N); auto. Qed.

(** The client that waits for each answer is never left waiting. *)
Lemma tcp_exchange_ends m : ∀ e h i rtts,
  (i + m <= N)%nat → pairs_resting sym no e i →
  tcp_exchange word (λ i, raw i ++ [10]) e h [] (seq i m) rtts = Some (Ended (h + m) (rtts + m) []).
Proof.
  induction m as [|m IH]; intros e h i rtts Hi Hst; cbn [seq tcp_exchange]; [do 2 f_equal; lia|]. destruct (tcp_stream_line e h i ltac:(lia) Hst) as (e' & rep & Hl & Hrep & Hst').
  rewrite lines_one by (by apply Hraw; lia). cbn [tcp_lines]. rewrite Hl. cbn [mbind option_bind]. rewrite app_nil_r, lines_one by done. cbn [app].
  rewrite IH by (lia || done). do 2 f_equal; lia.
Qed.

Lemma tcp_lines_all m : ∀ e h i,
  (i + m <= N)%nat → pairs_resting sym no e i →
  ∃ e' out, tcp_lines word e h (raw <$> seq i m) = Some (e', (h + m)%nat, out) ∧ length (lines out) = m.
Proof.
  induction m as [|m IH]; intros e h i Hi Hst; cbn [seq fmap list_fmap tcp_lines]; [exists e, []; by rewrite Nat.add_0_r|].
  destruct (tcp_stream_line e h i ltac:(lia) Hst) as (e' & rep & Hl & Hrep & Hst'). destruct (IH e' (S h) (S i) ltac:(lia) Hst') as (e2 & out & Hr & Hlen).
  rewrite Hl. cbn [mbind option_bind]. rewrite Hr. cbn [mbind option_bind]. eexists _, _. split; [do 3 f_equal; lia|]. rewrite <- app_assoc, lines_piece by done. cbn [length]. by rewrite Hlen.
Qed.

Lemma lines_of_stream m : ∀ i, (i + m <= N)%nat → lines (seq i m ≫= λ i, raw i ++ [10]) = raw <$> seq i m.
Proof.
  induction m as [|m IH]; intros i Hi; [done|]. cbn [seq mbind list_bind fmap list_fmap]. rewrite <- app_assoc, lines_piece by (by apply Hraw; lia). f_equal. apply IH. lia.
Qed.

End Stream.

Lemma read_all n : ∀ ls r, length ls = n → read_reports n ls r = (r + n)%nat.
Proof. induction n as [|n IH]; intros [|l ls] r Hl; try done; cbn [read_reports]. injection Hl as Hl. rewrite IH by done. lia. Qed.

Lemma const_pairs N s prefix : Z.of_nat N <= 2 ^ 64 → named_pairs N (λ _, s) (numbered prefix).
Proof. intros HN. by apply numbered_pairs. Qed.

Lemma order_text_piece i s n : tidy s → tidy n → one_piece (bytes_of (order_text i s n)).
Proof.
  intros Hs%tidy_piece Hn%tidy_piece. unfold order_text, bench_word, bench_price. rewrite !bytes_of_app. unfold one_piece in *. rewrite !Forall_app.
  destruct (Nat.even i); split_and!; try done; by repeat constructor.
Qed.

Lemma plain_stream sym no i : tidy (sym i) → tidy (no i) → stream_line sym no (λ i, bytes_of (order_text i (sym i) (no i))) i.
Proof.
  intros Hs Hn. split; [by apply order_text_piece|]. exists ""%string. split; [by left|]. rewrite bytes_of_app. by rewrite app_nil_r.
Qed.

(** The padding is a field of its own. *)
Definition batch_raw (body_size i : nat) : list Z :=
  let body := bytes_of (order_text i "btcusdt" (numbered "oB" i)) in
  if (length body <? body_size)%nat then body ++ [124] ++ replicate (body_size - length body - 1) 120 else body.

Lemma padded_stream body_size i : Z.of_nat i < 2 ^ 64 → stream_line (λ _, "btcusdt"%string) (numbered "oB") (batch_raw body_size) i.
Proof.
  intros Hi. assert (tidy "btcusdt") as Hs by (by repeat constructor). assert (tidy (numbered "oB" i)) as Hn by (apply numbered_tidy; [by repeat constructor|done]).
  unfold stream_line, batch_raw. pose proof (order_text_piece i _ _ Hs Hn) as Hp. destruct (_ <? _)%nat; [|by apply (plain_stream (λ _, "btcusdt"%string) (numbered "oB") i)].
  set (k := (_ - _ - 1)%nat). split.
  - unfold one_piece in *. rewrite !Forall_app. split_and!; [done|by repeat constructor|]. by apply Forall_replicate.
  - exists (String bar (String.string_of_list_ascii (replicate k "x"%char))). split.
    + right. eexists. split; [done|]. unfold ascii_text. rewrite String.list_ascii_of_string_of_list_ascii. by apply Forall_replicate.
    + rewrite bytes_of_app. f_equal. unfold bytes_of. cbn [String.list_ascii_of_string fmap list_fmap]. rewrite String.list_ascii_of_string_of_list_ascii, fmap_replicate. done.
Qed.

(** Every order of the TCP benchmarks is answered by exactly one line: the clients that wait
    for each answer end, with nothing left unread and every order handled, and the batch
    counts as many answers as orders, whatever the padding behind the orders. *)
Theorem tcp_bench_answers n :
  Z.of_nat n <= 2 ^ 63 →
  tcp_ping n = Some (Ended n n [])
  ∧ (∀ shard_id, Z.of_nat shard_id < 2 ^ 58 → tcp_rss_run shard_id n = Some (Ended n n []))
  ∧ ∀ body_size, tcp_batch n body_size = Some n.
Proof.
  intros Hn. assert (tidy "btcusdt" ∧ tidy "sym") as [Hb Hw] by (split; by repeat constructor). split_and!.
  - assert (∀ i, (i < n)%nat → tidy (numbered "oP" i)) as Hno by (intros i Hi; apply numbered_tidy; [by repeat constructor|lia]).
    refine (tcp_exchange_ends n (λ _, "btcusdt"%string) (numbered "oP") (λ i, bytes_of (order_text i "btcusdt" (numbered "oP" i))) "btcusdt" _ _ Hno Hb _ n engine_new 0 0 0 (le_n n) (pairs_resting_new _ _));
      [apply const_pairs; lia|done|]. intros i Hi. by apply (plain_stream (λ _, "btcusdt"%string) (numbered "oP") i), Hno.
  - intros shard_id Hid. unfold tcp_rss_run.
    assert (∀ i, tidy (rss_symbol shard_id i)) as Hs by (intros i; apply sym_name_tidy; pose proof (Nat.mod_upper_bound (i / 2) SYMBOLS_PER_SHARD); unfold SYMBOLS_PER_SHARD in *; lia).
    assert (∀ i, (i < n)%nat → tidy (rss_no shard_id i)) as Hno.
    { intros i Hi. unfold rss_no. apply numbered_tidy; [|lia]. rewrite !tidy_app. split_and!; [by repeat constructor| |by repeat constructor]. apply numbered_tidy; [constructor|lia]. }
    refine (tcp_exchange_ends n (rss_symbol shard_id) (rss_no shard_id) (λ i, bytes_of (order_text i (rss_symbol shard_id i) (rss_no shard_id i))) "sym" _ _ Hno Hw _ n engine_new 0 0 0 (le_n n) (pairs_resting_new _ _));
      [apply numbered_pairs; [lia|apply rss_symbol_pair]|done|]. intros i Hi. by apply (plain_stream (rss_symbol shard_id) (rss_no shard_id) i), Hno.
  - intros body_size. unfold tcp_batch, tcp_order_server.
    assert (∀ i, (i < n)%nat → stream_line (λ _, "btcusdt"%string) (numbered "oB") (batch_raw body_size) i) as Hraw by (intros i Hi; apply padded_stream; lia).
    change (batch_text body_size) with (λ i, batch_raw body_size i ++ [10]). rewrite (lines_of_stream n _ _ _ Hraw n 0 (le_n n)).
    destruct (tcp_lines_all n (λ _, "btcusdt"%string) (numbered "oB") (batch_raw body_size) "btcusdt" ltac:(apply const_pairs; lia)
      ltac:(done) ltac:(intros i Hi; apply numbered_tidy; [by repeat constructor|lia]) Hb Hraw n engine_new 0 0 (le_n n) (pairs_resting_new _ _)) as (e & out & -> & Hl).
    cbn [mbind option_bind]. f_equal. by apply read_all.
Qed.

End Tcp.

(** ** UDP *)

Lemma pkt_roundtrip s tick qty client : in_i64 tick → in_i64 qty → in_u64 client → pkt_decode (pkt_encode s tick qty client) = (s, tick, qty, client).
Proof.
  intros Ht Hq Hc. unfold pkt_decode, pkt_encode. f_equal; [f_equal; [f_equal; [by destruct s|]|]|].
  - rewrite (slice_app_skip [_]) by (cbn; lia). rewrite slice_app_here by (by rewrite length_le_bytes). by apply le_val_i64.
  - rewrite (slice_app_skip [_]), (slice_app_skip (le_bytes 8 tick)), length_le_bytes by (rewrite ?length_le_bytes; cbn; lia). rewrite slice_app_here by (by rewrite length_le_bytes). by apply le_val_i64.
  - rewrite (slice_app_skip [_]), (slice_app_skip (le_bytes 8 tick)), (slice_app_skip (le_bytes 8 qty)), !length_le_bytes by (rewrite ?length_le_bytes; cbn; lia).
    rewrite <- (app_nil_r (le_bytes 8 client)), slice_app_here by (by rewrite length_le_bytes). by apply le_val_u64.
Qed.

Lemma lor_below a b k : 0 <= k → 0 <= a < 2 ^ k → 0 <= b < 2 ^ k → 0 <= Z.lor a b < 2 ^ k.
Proof.
  intros Hk Ha Hb. assert (0 <= Z.lor a b) as H0 by (apply Z.lor_nonneg; lia). split; [done|]. rewrite <- (Z.mod_small a (2 ^ k)), <- (Z.mod_small b (2 ^ k)) by lia.
  rewrite <- !Z.land_ones, <- Z.land_lor_distr_l, Z.land_ones by lia. apply Z.mod_pos_bound. lia.
Qed.

Lemma bench_client_u64 shard_id i : Z.of_nat i < 2 ^ 64 → in_u64 (bench_client shard_id i).
Proof. intros Hi. unfold bench_client, in_u64. apply lor_below; [lia| |lia]. unfold u64_wrap. apply Z.mod_pos_bound. lia. Qed.

Section Udp.
Context {BI AI : Type} `{LB : LevelIndex BI} `{LA : LevelIndex AI}
  `{SB : !LevelIndexSpec BI Buy} `{SA : !LevelIndexSpec AI Sell}.
Implicit Types s : UdpServer BI AI.

(** The server after the first [k] orders. *)
Definition served (shard_id k : nat) s : Prop :=
  engine_ok (us_engine s) ∧ hp_rel (book (us_engine s)) (waiting (bench_order shard_id) k) ∧ us_handled s = k ∧ us_fills s = (k / 2)%nat ∧ us_idle s = 0%nat ∧ us_running s = true.

Lemma udp_order shard_id k s :
  Z.of_nat k < 2 ^ 64 → served shard_id k s →
  ∃ s', udp_turn s (Datagram (pkt_encode (bench_side k) (bench_tick k) 1 (bench_client shard_id k))) = Some (s', Some [1]) ∧ served shard_id (S k) s'.
Proof.
  intros Hk (He & Hrel & Hh & Hf & _). cbn [udp_turn].
  assert (length (pkt_encode (bench_side k) (bench_tick k) 1 (bench_client shard_id k)) = PKT_LEN) as -> by (unfold pkt_encode; rewrite !length_app, !length_le_bytes; done).
  rewrite Nat.eqb_refl, pkt_roundtrip; [|apply (pr_range _ (bench_paired shard_id) k)|by unfold in_i64, i64_min, i64_max|by apply bench_client_u64].
  destruct (paired_step _ k _ (bench_paired shard_id) He Hrel) as (evs & e' & Ho & He' & Hrel' & Hfi & _). unfold bench_order in Ho. rewrite Ho. cbn [mbind option_bind].
  eexists. split; [reflexivity|]. split_and!; cbn [us_engine us_handled us_fills us_idle us_running]; try done; [by rewrite Hh|by rewrite Hf, Hfi, odd_half].
Qed.

(** With nobody sending the server ends after eleven silent reads, counts untouched. *)
Lemma udp_idle_ends s : us_idle s = 0%nat → us_running s = true → ∃ s', udp_idle 11 s = Some s' ∧ us_handled s' = us_handled s ∧ us_fills s' = us_fills s.
Proof. intros Hi Hr. destruct s as [e h f i r]. cbn in Hi, Hr. subst i r. exists (mkUdpServer e h f 11 false). by split_and!. Qed.

(** The exchange up to the first loss, or to the end. *)
Lemma udp_exchange_through fates shard_id m : ∀ s k rtts rest,
  Z.of_nat (k + m) <= 2 ^ 64 → served shard_id k s → (∀ i, (k <= i < k + m)%nat → fates i = Through) →
  ∃ s', served shard_id (k + m) s' ∧ udp_exchange fates shard_id s (seq k m ++ rest) rtts = udp_exchange fates shard_id s' rest (rtts + m).
Proof.
  induction m as [|m IH]; intros s k rtts rest Hk Hs Hf; cbn [seq app udp_exchange]; [exists s; by rewrite !Nat.add_0_r|].
  rewrite Hf by lia. destruct (udp_order shard_id k s ltac:(lia) Hs) as (s1 & -> & Hs1). cbn [mbind option_bind].
  destruct (IH s1 (S k) (S rtts) rest ltac:(lia) Hs1) as (s' & Hs' & Heq); [intros i Hi; apply Hf; lia|]. exists s'. rewrite Heq. split; [by replace (k + S m)%nat with (S k + m)%nat by lia|]. f_equal. lia.
Qed.

(** The UDP benchmark.  When nothing is lost, every order is handled and answered, each pair
    is one fill, and both sides end.  When the first loss is at order [k], the client, which reads
    without a timeout, waits forever after [k] answers; the server ends all the same, having
    handled order [k] only if it was the answer that was lost. *)
Theorem udp_bench_run fates shard_id n :
  Z.of_nat n <= 2 ^ 64 →
  ((∀ i, (i < n)%nat → fates i = Through) → udp_rss_run (BI:=BI) (AI:=AI) fates shard_id n = Some (n, n / 2, n, true)%nat)
  ∧ ∀ k, (k < n)%nat → (∀ i, (i < k)%nat → fates i = Through) → fates k ≠ Through →
      let h := match fates k with AckLost => S k | _ => k end in udp_rss_run (BI:=BI) (AI:=AI) fates shard_id n = Some (h, h / 2, k, false)%nat.
Proof.
  intros Hn. assert (served shard_id 0 udp_server_new) as H0.
  { destruct (hp_rel_new (BI:=BI) (AI:=AI)) as (Hrel & _). split_and!; [apply hp_engine_new_ok|exact Hrel|done..]. }
  assert (∀ h s, served shard_id h s → ∃ s', udp_idle 11 s = Some s' ∧ us_handled s' = h ∧ us_fills s' = (h / 2)%nat) as Hend.
  { intros h s (_ & _ & Hh & Hf & Hi & Hr). destruct (udp_idle_ends s Hi Hr) as (s' & Hs & H1 & H2). exists s'. split_and!; congruence. }
  unfold udp_rss_run. split.
  - intros Hf. destruct (udp_exchange_through fates shard_id n udp_server_new 0 0 [] Hn H0) as (s & Hs & Heq); [intros i Hi; apply Hf; lia|]. rewrite app_nil_r in Heq. rewrite Heq. cbn [udp_exchange mbind option_bind].
    destruct (Hend _ _ Hs) as (s' & -> & H1 & H2). cbn [mbind option_bind]. by rewrite H1, H2.
  - intros k Hk Hf Hl. cbv zeta. assert (seq 0 n = seq 0 k ++ k :: seq (S k) (n - S k)) as ->.
    { replace n with (k + S (n - S k))%nat at 1 by lia. rewrite seq_app. done. }
    destruct (udp_exchange_through fates shard_id k udp_server_new 0 0 (k :: seq (S k) (n - S k)) ltac:(lia) H0) as (s & Hs & ->); [intros i Hi; apply Hf; lia|]. cbn [Nat.add] in Hs |- *. cbn [udp_exchange].
    destruct (fates k); [done| |].
    + cbn [mbind option_bind]. destruct (Hend _ _ Hs) as (s' & -> & H1 & H2). cbn [mbind option_bind]. by rewrite H1, H2.
    + destruct (udp_order shard_id k s ltac:(lia) Hs) as (s1 & -> & Hs1). cbn [mbind option_bind]. destruct (Hend _ _ Hs1) as (s' & -> & H1 & H2). cbn [mbind option_bind]. by rewrite H1, H2.
Qed.

End Udp.

(** A pinned thread is on the core it asked for, and no two threads of the benchmark share one. *)
Lemma pinned_apart feature cores set (server server' : bool) k k' c c' :
  let core (server : bool) k := if server then server_core k else client_core k in
  pin_current_thread feature cores set (core server k) = inr c → pin_current_thread feature cores set (core server' k') = inr c' →
  c = core server k ∧ (c = c' → server = server' ∧ k = k').
Proof.
  cbv zeta. assert (∀ i c, pin_current_thread feature cores set i = inr c → c = i) as Hpin.
  { intros i x. unfold pin_current_thread. destruct feature, cores as [l|]; try done. destruct (List.find _ l) as [y|] eqn:Ef; [|done]. apply find_some in Ef as [_ Ey]. destruct (set y); [|done]. intros [= <-]. lia. }
  intros H1%Hpin H2%Hpin. subst. split; [done|]. unfold server_core, client_core. destruct server, server'; intros; split; lia || done.
Qed.

(** ** The hypotheses can be met *)

Module OneLineDecimal.
Import WholeDecimal.

#[local] Abbreviation clean s := (Forall (λ a, a ≠ newline) (String.list_ascii_of_string s)).

Lemma uint_clean s : is_Some (DecimalString.NilEmpty.uint_of_string s) → clean s.
Proof.
  induction s as [|a s IH]; [constructor|]. cbn [DecimalString.NilEmpty.uint_of_string String.list_ascii_of_string]. intros Hs.
  destruct (DecimalString.NilEmpty.uint_of_string s) as [d|]; [constructor; [intros ->; by destruct Hs|by apply IH]|]. by destruct Hs, a as [[] [] [] [] [] [] [] []].
Qed.

Lemma int_clean s : is_Some (DecimalString.NilEmpty.int_of_string s) → clean s.
Proof.
  destruct s as [|a s]; [constructor|]. cbn [DecimalString.NilEmpty.int_of_string]. destruct (Ascii.eqb_spec a "-") as [->|_].
  - intros [d Hd]. apply fmap_Some in Hd as (u & Hu & _). constructor; [done|]. apply uint_clean. by rewrite Hu.
  - intros [d Hd]. apply fmap_Some in Hd as (u & Hu & _). apply uint_clean. by rewrite Hu.
Qed.

Lemma zero_int_clean s : is_Some (DecimalString.NilZero.int_of_string s) → clean s.
Proof.
  assert (∀ t, is_Some (DecimalString.NilZero.uint_of_string t) → clean t) as Hu by (intros [|a t]; [constructor|]; apply uint_clean).
  destruct s as [|a s]; [constructor|]. cbn [DecimalString.NilZero.int_of_string]. destruct (Ascii.eqb_spec a "-") as [->|_]; intros [d Hd]; apply fmap_Some in Hd as (u & Hd & _).
  - constructor; [done|]. apply Hu. by rewrite Hd.
  - apply Hu. by rewrite Hd.
Qed.

Lemma split_exp_step a s :
  SciDecimal.split_exp (String a s)
  = match s with
    | String b t => if Ascii.eqb a "E" && Ascii.eqb b "-" then Some (""%string, t) else '(u, v) ← SciDecimal.split_exp s; Some (String a u, v)
    | ""%string => None
    end.
Proof.
  destruct s as [|b t]; [by destruct a as [[] [] [] [] [] [] [] []]|]. destruct a as [[] [] [] [] [] [] [] []]; try reflexivity. by destruct b as [[] [] [] [] [] [] [] []].
Qed.

Lemma split_exp_clean s : ∀ m e, SciDecimal.split_exp s = Some (m, e) → clean m → clean e → clean s.
Proof.
  induction s as [|a s IH]; [done|]. intros m e. rewrite split_exp_step. destruct s as [|b t]; [done|]. destruct (Ascii.eqb_spec a "E") as [->|Ha]; destruct (Ascii.eqb_spec b "-") as [->|Hb]; cbn [andb];
    try (intros Hs; apply bind_Some in Hs as ([u v] & Hs & [= <- <-]); intros [? Hm]%Forall_cons He; constructor; [done|]; by eapply IH).
  intros [= <- <-] _ He. by repeat constructor.
Qed.

#[export] Instance whole_one_line : OneLine.
Proof.
  intros s [d Hd]. cbn in Hd. unfold parse in Hd. destruct (match split_once DOT _ with Some p => p | None => _ end) as [ip fp] eqn:Esp.
  destruct (forallb is_ascii_digit ip && _ && forallb is_ascii_digit fp) eqn:Ed.
  - assert (∀ l, forallb is_ascii_digit l = true → Forall (λ a, a ≠ newline) l) as Hl.
    { intros l Hl. apply Forall_forall. intros a Ha ->. rewrite forallb_forall in Hl. specialize (Hl _ (proj1 (list_elem_of_In _ _) Ha)). by vm_compute in Hl. }
    rewrite !andb_true_iff in Ed. destruct Ed as [[Hi _] Hf]. destruct (split_once DOT _) as [[i f]|] eqn:Es; simplify_eq; [|by apply Hl].
    apply split_once_elem in Es. rewrite Es. apply Forall_app. split; [by apply Hl|]. constructor; [done|by apply Hl].
  - unfold SciDecimal.parse in Hd. destruct (SciDecimal.split_exp s) as [[m e]|] eqn:Es.
    + eapply split_exp_clean; [exact Es|apply int_clean|apply uint_clean]; repeat case_match; by simplify_eq.
    + apply zero_int_clean. by case_match.
Qed.

(** The claims above on a concrete run. *)
Example tcp_three : tcp_ping 3 = Some (Ended 3 3 []) ∧ tcp_batch 3 64 = Some 3%nat.
Proof. destruct (tcp_bench_answers (PP := whole_parse) 3) as (H1 & _ & H2); [lia|]. split; [exact H1|apply H2]. Qed.

End OneLineDecimal.

(** A run without orders has no median: indexing the empty vector panics. *)
Example no_median : p50 [] = None.
Proof. reflexivity. Qed.
