(* ===== verification/SoupBench.v ===== *)
(** * The benchmarks of SoupBinTCP order entry

    Models [crates/match-dpdk-io/src/bin/soup_tcp_bench.rs] and [soup_cmp_bench.rs]: a
    server thread and a client over one TCP connection each way.  A stream is its bytes
    that are not read yet; [read_packet] takes whole packets from it, [read] any piece of
    it.  Clock readings are arguments ([now] by the number of the report); a panic, an
    error that ends the program and a wait without end are [None]. *)
From stdpp Require Import strings sorting.
From S2P Require Import Prelude Protocol HpScale HpIndex Utf8 Soup Ouch.

#[local] Open Scope Z_scope.

(** ** What both programs send *)

Definition SOUP_USER : list Z := bytes_of "trader".
Definition SOUP_PASS : list Z := bytes_of "secret01".
Definition SOUP_SESSION : list Z := bytes_of "SESSION-A".

(** How many messages the servers keep. *)
Definition TCP_STORE : nat := Z.to_nat 8192.
Definition CMP_STORE : nat := Z.to_nat 65536.

(** [format!("ORD-{i:06}")] *)
Definition ord_token (i : Z) : list Z := bytes_of "ORD-" ++ (code <$> zero_padded 6 i).

Definition ouch_enter (i : Z) : list Z :=
  encode_enter (mkEnter (ord_token i) 66 100 (bytes_of "AAPL") 1955000 99998 (bytes_of "ABCD") 89 65 78 0 78 32).

Definition ouch_accepted (now i : Z) : list Z :=
  encode_accepted (mkAccepted now (ord_token i) 66 100 (bytes_of "AAPL") 1955000 99998 (bytes_of "ABCD") 89 (1000000 + i) 76).

Definition ouch_executed (now i fill_no : Z) : list Z :=
  encode_executed (mkExecuted now (ord_token i) 25 (u32_wrap (u32_wrap fill_no + 1)) 1955000).

Definition enter_packet (i : nat) : Packet := mkPacket UNSEQUENCED_DATA (ouch_enter (Z.of_nat i)).

Definition packets_bytes (ps : list Packet) : list Z := concat (to_bytes <$> ps).

(** [rtts[n / 2]] and [rtts[(n as f64 * 0.99) as usize]] of the sorted times; the
    fraction is exact. *)
Definition percentiles (rtts : list Z) : option (Z * Z) :=
  let sorted := merge_sort Z.le rtts in
  let n := length sorted in
  p50 ← sorted !! (n / 2)%nat; p99 ← sorted !! (n * 99 / 100)%nat; Some (p50, p99).

(** ** [soup_tcp_bench.rs] *)

(** [read_packet]: the stream is too short (the thread waits, or fails at its end), a length of zero
    ([body[0]] panics), or a packet and what follows it. *)
Inductive ReadPacket := Short | EmptyBody | Whole (p : Packet) (rest : list Z).

Definition read_packet (stream : list Z) : ReadPacket :=
  if (length stream <? 2)%nat then Short
  else
    let len := Z.to_nat (be_val (slice 0 2 stream)) in
    if (length stream <? 2 + len)%nat then Short
    else match slice 2 (2 + len) stream with
         | [] => EmptyBody
         | t :: body => Whole (mkPacket t body) (drop (2 + len) stream)
         end.

(** [server_loop]: its variables, and where it is in a connection. *)
Record TcpServer := mkTcpServer { ts_srv : SoupServer; ts_total : nat; ts_replayed : nat }.

Inductive conn_at := AtLogin | InLoop | Left.

Definition is_sequenced (p : Packet) : bool := packet_type p =? SEQUENCED_DATA.

Definition tcp_on_login (s : TcpServer) (lr : Packet) : option (conn_at * TcpServer * list Z) :=
  if negb (is_login_request lr) then None
  else
    let req := parse_login_request lr in
    match handle_login (ts_srv s) req with
    | (_, inl _) => None
    | (srv, inr acts) =>
        let replayed :=
          if 1 <? requested_sequence req
          then (ts_replayed s + length (List.filter is_sequenced (outbound acts)))%nat else ts_replayed s in
        Some (InLoop, mkTcpServer srv (ts_total s) replayed, packets_bytes (outbound acts))
    end.

(** [&token[4..]] panics beyond the end and inside a character. *)
Definition str_from (k : nat) (s : list Z) : option (list Z) :=
  if (length s <? k)%nat then None
  else match s !! k with Some c => if is_cont c then None else Some (drop k s) | None => Some (drop k s) end.

Definition tcp_on_packet (now : Z → Z) (n : nat) (s : TcpServer) (pkt : Packet) : option (conn_at * TcpServer * list Z) :=
  match server_handle_packet (ts_srv s) pkt with
  | (_, inl _) => None
  | (srv, inr acts) =>
      let out := packets_bytes (outbound acts) in
      let s := mkTcpServer srv (ts_total s) (ts_replayed s) in
      if close acts then Some (Left, s, out)
      else if packet_type pkt =? UNSEQUENCED_DATA then
        m ← ouch_parse (payload pkt);
        let token := match m with OEnterOrder e => en_token e | _ => bytes_of "?" end in
        digits ← str_from 4 token;
        let idx := default 0 (parse_u64 digits) in
        let report := ouch_accepted (now (sv_next_seq srv)) idx in
        let total := S (ts_total s) in
        Some (if (n <=? total)%nat then Left else InLoop, mkTcpServer (enqueue srv report).1 total (ts_replayed s),
              out ++ to_bytes (sequenced_packet report))
      else Some (InLoop, s, out)
  end.

(** The server until it has to wait or leaves the connection: where it is, what is left to read, what
    it has written.  A packet has at least three bytes. *)
Fixpoint tcp_serve (fuel : nat) (now : Z → Z) (n : nat) (at_ : conn_at) (s : TcpServer) (inbox : list Z) :
    option (conn_at * TcpServer * list Z * list Z) :=
  match fuel with
  | O => None
  | S fuel =>
      match at_ with
      | Left => Some (Left, s, inbox, [])
      | _ =>
          match read_packet inbox with
          | Short => Some (at_, s, inbox, [])
          | EmptyBody => None
          | Whole p rest =>
              '(at_, s, out) ← match at_ with AtLogin => tcp_on_login s p | _ => tcp_on_packet now n s p end;
              '(at_, s, inbox, out') ← tcp_serve fuel now n at_ s rest;
              Some (at_, s, inbox, out ++ out')
          end
      end
  end.

(** The two ends of a connection: [unread] has been written to the client. *)
Record TcpConn := mkTcpConn { tc_at : conn_at; tc_server : TcpServer; tc_inbox : list Z; tc_unread : list Z }.

(** The client writes; the server does what it can. *)
Definition tcp_write (now : Z → Z) (n : nat) (c : TcpConn) (data : list Z) : option TcpConn :=
  let inbox := tc_inbox c ++ data in
  '(at_, s, inbox, out) ← tcp_serve (S (length inbox)) now n (tc_at c) (tc_server c) inbox;
  Some (mkTcpConn at_ s inbox (tc_unread c ++ out)).

(** [read_packet] at the client, with the assertion on the type and the session. *)
Definition tcp_receive (type : Z) (now_ns : Z) (client : SoupClient) (c : TcpConn) : option (SoupClient * Packet * TcpConn) :=
  match read_packet (tc_unread c) with
  | Whole p rest =>
      if packet_type p =? type then
        match client_handle_packet client p now_ns with
        | (client, inr _) => Some (client, p, mkTcpConn (tc_at c) (tc_server c) (tc_inbox c) rest)
        | (_, inl _) => None
        end
      else None
  | _ => None
  end.

(** [drop(stream)]: the server finds the end of the stream.  In its loop it goes on to the next
    connection, at the login it fails. *)
Definition tcp_drop (c : TcpConn) : option TcpServer :=
  match tc_at c with AtLogin => None | _ => Some (tc_server c) end.

(** The orders of the first connection. *)
Fixpoint tcp_orders (now rx : Z → Z) (n : nat) (client : SoupClient) (c : TcpConn) (is_ : list nat) : option (SoupClient * TcpConn) :=
  match is_ with
  | [] => Some (client, c)
  | i :: is_ =>
      c ← tcp_write now n c (to_bytes (enter_packet i));
      '(client, _, c) ← tcp_receive SEQUENCED_DATA (rx (Z.of_nat i)) client c;
      tcp_orders now rx n client c is_
  end.

(** [while replayed_count < expect_replay]: the payloads read. *)
Fixpoint tcp_replay (rx : Z → Z) (expect : nat) (client : SoupClient) (c : TcpConn) : option (SoupClient * TcpConn * list (list Z)) :=
  match expect with
  | O => Some (client, c, [])
  | S expect =>
      '(client, rep, c) ← tcp_receive SEQUENCED_DATA (rx (Z.of_nat expect)) client c;
      '(client, c, got) ← tcp_replay rx expect client c;
      Some (client, c, payload rep :: got)
  end.

Record TcpReport := mkTcpReport {
  tr_start_seq : Z; tr_seq_end : Z; tr_requested : Z; tr_granted : Z; tr_replay : list (list Z);
  tr_expected2 : Z; tr_orders : nat; tr_extra : nat }.

(** [run], with the times [elapsed] measured for the orders. *)
Definition soup_tcp_bench (now rx : Z → Z) (elapsed : nat → Z) (n : nat) : option TcpReport :=
  srv ← match soup_server_new SOUP_SESSION TCP_STORE with inr s => Some s | inl _ => None end;
  let client := soup_client_new SOUP_SESSION in
  c ← tcp_write now n (mkTcpConn AtLogin (mkTcpServer srv 0 0) [] []) (to_bytes (client_login_request client SOUP_USER SOUP_PASS));
  '(client, _, c) ← tcp_receive LOGIN_ACCEPTED (rx 0) client c;
  '(client, c) ← tcp_orders now rx n client c (seq 0 n);
  _ ← percentiles (elapsed <$> seq 0 n);
  let seq_end := cl_expected_seq client in
  if negb (seq_end =? u64_wrap (cl_start_seq client + Z.of_nat n)) then None
  else
    c ← tcp_write now n c (to_bytes (heartbeat CLIENT_HEARTBEAT));
    s ← tcp_drop c;
    let replay_from := Z.of_nat (n / 2) in
    let fresh := soup_client_new SOUP_SESSION in
    let client2 := mkSoupClient (cl_session_id fresh) replay_from (cl_start_seq fresh) (cl_logged_in fresh) (cl_last_rx_ns fresh) in
    c ← tcp_write now n (mkTcpConn AtLogin s [] []) (to_bytes (client_login_request client2 SOUP_USER SOUP_PASS));
    '(client2, ack2, c) ← tcp_receive LOGIN_ACCEPTED (rx 0) client2 c;
    let granted := la_sequence (parse_login_accepted ack2) in
    if Z.of_nat n + 1 <? granted then None
    else
      '(client2, c, got) ← tcp_replay rx (Z.to_nat (Z.of_nat n + 1 - granted)) client2 c;
      if negb (Z.of_nat (length got) =? Z.of_nat n + 1 - granted) then None
      else
        s ← tcp_drop c;
        if negb (ts_total s =? n)%nat then None
        else Some (mkTcpReport (cl_start_seq client) seq_end replay_from granted got (cl_expected_seq client2) (ts_total s) (ts_replayed s)).

(** ** [soup_cmp_bench.rs] *)

Inductive Scenario := Echo | Single | Batch (n : nat) | Fills (n : nat).

(** [run]: the scenario of a name, the reports of an order, the scenario the server is given. *)
Definition scenario_of (name : string) (n : nat) : option Scenario :=
  if String.eqb name "echo" then Some Echo
  else if String.eqb name "single" then Some Single
  else if String.eqb name "batch" then Some (Batch n)
  else if String.eqb name "fills" then Some (Fills n)
  else None.

Definition scenario_fills (sc : Scenario) : nat := match sc with Fills f => f | _ => 1%nat end.

Definition server_scenario (sc : Scenario) : Scenario :=
  match sc with Batch _ => Batch 1 | Echo => Echo | _ => Fills (scenario_fills sc) end.

(** [let (batch, fills)] of [client_main]. *)
Definition scenario_batch (sc : Scenario) : nat * nat :=
  match sc with Echo => (1, 1) | Single => (1, 1) | Batch n => (n, 1) | Fills n => (1, n) end%nat.

(** [trim_start_matches]: the pattern is removed as often as it stands in front. *)
Fixpoint trim_matches (fuel : nat) (pat s : list Z) : list Z :=
  match fuel with
  | O => s
  | S fuel => if bool_decide (take (length pat) s = pat) then trim_matches fuel pat (drop (length pat) s) else s
  end.

Definition trim_start_matches (pat s : list Z) : list Z := trim_matches (length s) pat s.

(** The number in the token of an order; [payload[1..15]] panics when there are not 15 bytes. *)
Definition order_index (payload : list Z) : option Z :=
  if (length payload <? 15)%nat then None
  else Some (default 0 (parse_u64 (trim_start_matches (bytes_of "ORD-") (str_trim (from_utf8_lossy (slice 1 15 payload)))))).

Definition cmp_report (now : Z → Z) (seq idx : Z) (f : nat) : list Z :=
  if (f =? 0)%nat then ouch_accepted (now seq) idx else ouch_executed (now seq) idx (Z.of_nat f).

(** [for f in 0..fills]: each report is stored and put behind the others. *)
Fixpoint fill_reports (now : Z → Z) (idx : Z) (srv : SoupServer) (fs : list nat) : SoupServer * list Z :=
  match fs with
  | [] => (srv, [])
  | f :: fs =>
      let rep := cmp_report now (sv_next_seq srv) idx f in
      let '(srv, out) := fill_reports now idx (enqueue srv rep).1 fs in
      (srv, to_bytes (sequenced_packet rep) ++ out)
  end.

(** [server_main]: the head of the two loops, inside their [for], before their [read]; the
    stream is dropped at the end, after an error and after a panic. *)
Inductive cmp_at := LoginTop | LoginFor (pkts : list Packet) | LoginRead | OrdersTop | OrdersFor (pkts : list Packet) | OrdersRead | Dropped.

Record CmpServer := mkCmpServer { cs_at : cmp_at; cs_srv : SoupServer; cs_acc : list Z; cs_logged_in : bool; cs_done : nat }.

Definition cmp_server_new (srv : SoupServer) : CmpServer := mkCmpServer LoginTop srv [] false 0.

(** [parse_stream(&acc)], [acc.drain(..consumed)] *)
Definition drain (acc : list Z) : list Packet * list Z :=
  let '(pkts, consumed, _) := parse_stream acc in (pkts, drop consumed acc).

Definition cmp_login_one (s : CmpServer) (p : Packet) (pkts : list Packet) : CmpServer * list Z :=
  if is_login_request p then
    match handle_login (cs_srv s) (parse_login_request p) with
    | (srv, inl _) => (mkCmpServer Dropped srv (cs_acc s) (cs_logged_in s) (cs_done s), [])
    | (srv, inr acts) => (mkCmpServer (LoginFor pkts) srv (cs_acc s) true (cs_done s), packets_bytes (outbound acts))
    end
  else (mkCmpServer (LoginFor pkts) (cs_srv s) (cs_acc s) (cs_logged_in s) (cs_done s), []).

Definition cmp_order_one (now : Z → Z) (sc : Scenario) (fills : nat) (s : CmpServer) (p : Packet) (pkts : list Packet) : CmpServer * list Z :=
  match sc with
  | Echo => (mkCmpServer (OrdersFor pkts) (cs_srv s) (cs_acc s) (cs_logged_in s) (S (cs_done s)), to_bytes p)
  | _ =>
      if packet_type p =? UNSEQUENCED_DATA then
        match order_index (payload p) with
        | None => (mkCmpServer Dropped (cs_srv s) (cs_acc s) (cs_logged_in s) (cs_done s), [])
        | Some idx =>
            let '(srv, out) := fill_reports now idx (cs_srv s) (seq 0 fills) in
            (mkCmpServer (OrdersFor pkts) srv (cs_acc s) (cs_logged_in s) (S (cs_done s)), out)
        end
      else (mkCmpServer (OrdersFor pkts) (cs_srv s) (cs_acc s) (cs_logged_in s) (cs_done s), [])
  end.

(** A move of the server that does not wait, with what it writes. *)
Definition cmp_server_move (now : Z → Z) (sc : Scenario) (orders fills : nat) (s : CmpServer) : option (CmpServer * list Z) :=
  let goto at_ acc := Some (mkCmpServer at_ (cs_srv s) acc (cs_logged_in s) (cs_done s), []) in
  let parse (read : cmp_at) (loop : list Packet → cmp_at) :=
    let '(pkts, acc) := drain (cs_acc s) in
    match pkts with [] => goto read acc | _ => goto (loop pkts) acc end in
  match cs_at s with
  | LoginTop => if cs_logged_in s then goto OrdersTop (cs_acc s) else parse LoginRead LoginFor
  | LoginFor [] => goto LoginTop (cs_acc s)
  | LoginFor (p :: pkts) => Some (cmp_login_one s p pkts)
  | OrdersTop => if (cs_done s <? orders)%nat then parse OrdersRead OrdersFor else goto Dropped (cs_acc s)
  | OrdersFor [] => goto OrdersTop (cs_acc s)
  | OrdersFor (p :: pkts) => Some (cmp_order_one now sc fills s p pkts)
  | LoginRead | OrdersRead | Dropped => None
  end.

(** What [read] returned; nothing at the end of the stream. *)
Definition cmp_server_read (s : CmpServer) (chunk : list Z) : option CmpServer :=
  let goto at_ := Some (mkCmpServer at_ (cs_srv s) (cs_acc s ++ chunk) (cs_logged_in s) (cs_done s)) in
  match cs_at s with
  | LoginRead => goto (match chunk with [] => OrdersTop | _ => LoginTop end)
  | OrdersRead => goto (match chunk with [] => Dropped | _ => OrdersTop end)
  | _ => None
  end.

(** [client_main]; [cc_log] is what the client has counted, kept for the statements. *)
Inductive cmp_client_at := Connect | LoginWait | BatchTop | Reading (batch_n need : nat) | Returned | Failed.

Record CmpClient := mkCmpClient {
  cc_at : cmp_client_at; cc_client : SoupClient; cc_acc : list Z; cc_i : nat; cc_seen : nat; cc_rtts : nat; cc_log : list Packet }.

Definition cmp_client_new : CmpClient := mkCmpClient Connect (soup_client_new SOUP_SESSION) [] 0 0 0 [].

(** [ts.elapsed().as_nanos() / batch_n]: no order, no quotient. *)
Definition cmp_timed (c : CmpClient) (batch_n : nat) : CmpClient :=
  match batch_n with
  | O => mkCmpClient Failed (cc_client c) (cc_acc c) (cc_i c) (cc_seen c) (cc_rtts c) (cc_log c)
  | S _ => mkCmpClient BatchTop (cc_client c) (cc_acc c) (cc_i c) (cc_seen c) (S (cc_rtts c)) (cc_log c)
  end.

Definition cmp_client_move (sc : Scenario) (orders : nat) (c : CmpClient) : option (CmpClient * list Z) :=
  let '(batch, fills) := scenario_batch sc in
  let goto at_ i := mkCmpClient at_ (cc_client c) (cc_acc c) i (cc_seen c) (cc_rtts c) (cc_log c) in
  match cc_at c with
  | Connect => Some (goto LoginWait (cc_i c), to_bytes (login_request SOUP_USER SOUP_PASS SOUP_SESSION 0))
  | BatchTop =>
      if (cc_i c <? orders)%nat then
        let batch_n := Nat.min batch (orders - cc_i c) in
        Some (goto (Reading batch_n (cc_seen c + batch_n * fills)) (cc_i c + batch_n)%nat,
              packets_bytes (enter_packet <$> seq (cc_i c) batch_n))
      else Some (goto Returned (cc_i c), [])
  | Reading batch_n need => if (cc_seen c <? need)%nat then None else Some (cmp_timed c batch_n, [])
  | LoginWait | Returned | Failed => None
  end.

(** The packets of a read while the login is awaited: [done]. *)
Fixpoint cmp_login_packets (now_ns : Z) (c : SoupClient) (done : bool) (pkts : list Packet) : option (SoupClient * bool) :=
  match pkts with
  | [] => Some (c, done)
  | p :: pkts =>
      if packet_type p =? LOGIN_ACCEPTED then
        match client_handle_packet c p now_ns with
        | (c, inr _) => cmp_login_packets now_ns c true pkts
        | (_, inl _) => None
        end
      else cmp_login_packets now_ns c done pkts
  end.

(** The packets of a read while reports are awaited: those that count. *)
Fixpoint cmp_report_packets (now_ns : Z) (c : SoupClient) (pkts : list Packet) : option (SoupClient * list Packet) :=
  match pkts with
  | [] => Some (c, [])
  | p :: pkts =>
      if packet_type p =? SEQUENCED_DATA then
        match client_handle_packet c p now_ns with
        | (c, inr _) => '(c, log) ← cmp_report_packets now_ns c pkts; Some (c, p :: log)
        | (_, inl _) => None
        end
      else
        '(c, log) ← cmp_report_packets now_ns c pkts;
        Some (c, if packet_type p =? UNSEQUENCED_DATA then p :: log else log)
  end.

Definition cmp_client_read (now_ns : Z) (c : CmpClient) (chunk : list Z) : option CmpClient :=
  let '(pkts, acc) := drain (cc_acc c ++ chunk) in
  let failed := mkCmpClient Failed (cc_client c) acc (cc_i c) (cc_seen c) (cc_rtts c) (cc_log c) in
  match cc_at c with
  | LoginWait =>
      match cmp_login_packets now_ns (cc_client c) false pkts with
      | None => Some failed
      | Some (client, done) =>
          Some (mkCmpClient (if done then BatchTop else LoginWait) client acc (cc_i c) (cc_seen c) (cc_rtts c) (cc_log c))
      end
  | Reading batch_n need =>
      if (cc_seen c <? need)%nat then
        match chunk with
        | [] => Some (cmp_timed c batch_n)
        | _ =>
            match cmp_report_packets now_ns (cc_client c) pkts with
            | None => Some failed
            | Some (client, log) =>
                Some (mkCmpClient (cc_at c) client acc (cc_i c) (cc_seen c + length log) (cc_rtts c) (cc_log c ++ log))
            end
        end
      else None
  | _ => None
  end.

(** Both threads and the bytes under way each way. *)
Record Cmp := mkCmp { cm_server : CmpServer; cm_client : CmpClient; cm_c2s : list Z; cm_s2c : list Z }.

Definition cmp_start (srv : SoupServer) : Cmp := mkCmp (cmp_server_new srv) cmp_client_new [] [].

Definition client_over (c : CmpClient) : bool := match cc_at c with Returned | Failed => true | _ => false end.
Definition server_over (s : CmpServer) : bool := match cs_at s with Dropped => true | _ => false end.

(** [read] returns at most 65536 bytes, at least one while there are any, none when the other
    side has dropped the stream; otherwise it waits. *)
Definition READ_BUF : Z := 65536.

Definition piece (chunk : list Z) : Prop := chunk ≠ [] ∧ Z.of_nat (length chunk) <= READ_BUF.

Inductive cmp_step (now : Z → Z) (sc : Scenario) (orders : nat) : Cmp → Cmp → Prop :=
| ServerMoves m s out :
    cmp_server_move now (server_scenario sc) orders (scenario_fills sc) (cm_server m) = Some (s, out) →
    cmp_step now sc orders m (mkCmp s (cm_client m) (cm_c2s m) (cm_s2c m ++ out))
| ServerReads m s chunk rest :
    piece chunk → cm_c2s m = chunk ++ rest → cmp_server_read (cm_server m) chunk = Some s →
    cmp_step now sc orders m (mkCmp s (cm_client m) rest (cm_s2c m))
| ServerEof m s :
    cm_c2s m = [] → client_over (cm_client m) = true → cmp_server_read (cm_server m) [] = Some s →
    cmp_step now sc orders m (mkCmp s (cm_client m) [] (cm_s2c m))
| ClientMoves m c out :
    cmp_client_move sc orders (cm_client m) = Some (c, out) →
    cmp_step now sc orders m (mkCmp (cm_server m) c (cm_c2s m ++ out) (cm_s2c m))
| ClientReads m c now_ns chunk rest :
    piece chunk → cm_s2c m = chunk ++ rest → cmp_client_read now_ns (cm_client m) chunk = Some c →
    cmp_step now sc orders m (mkCmp (cm_server m) c (cm_c2s m) rest)
| ClientEof m c now_ns :
    cm_s2c m = [] → server_over (cm_server m) = true → cmp_client_read now_ns (cm_client m) [] = Some c →
    cmp_step now sc orders m (mkCmp (cm_server m) c (cm_c2s m) []).

Inductive cmp_reachable (now : Z → Z) (sc : Scenario) (orders : nat) : Cmp → Prop :=
| CmpStart srv : soup_server_new SOUP_SESSION CMP_STORE = inr srv → cmp_reachable now sc orders (cmp_start srv)
| CmpNext m m' : cmp_reachable now sc orders m → cmp_step now sc orders m m' → cmp_reachable now sc orders m'.

(** [summarize], after both threads are over. *)
Definition cmp_summary (elapsed : nat → Z) (m : Cmp) : option (Z * Z) := percentiles (elapsed <$> seq 0 (cc_rtts (cm_client m))).
