(* ===== verification/SoupBenchProps.v ===== *)
(** * What [soup_tcp_bench] measures

    The round trips of [soup_tcp_bench] pass their assertions at every size but zero, and the
    second login replays what it says ([soup_tcp_bench_passes]).  [SoupCmpProps] treats
    [soup_cmp_bench]. *)
From stdpp Require Import strings sorting.
From S2P Require Import Prelude Protocol HpScale HpIndex Utf8 Soup SoupProps Ouch SoupBench.

#[local] Open Scope Z_scope.
#[local] Arguments be_bytes : simpl never.
#[local] Arguments to_bytes : simpl never.
#[local] Arguments parse_login_request : simpl never.
#[local] Arguments login_request : simpl never.
#[local] Arguments login_accepted : simpl never.
#[local] Arguments SOUP_SESSION : simpl never.
#[local] Arguments enter_packet : simpl never.
#[local] Arguments TCP_STORE : simpl never.
#[local] Arguments tcp_write : simpl never.
#[local] Arguments tcp_receive : simpl never.
#[local] Arguments CMP_STORE : simpl never.
#[local] Opaque TCP_STORE CMP_STORE.

(** ** Tokens *)

Lemma parse_u64_code s : all_digits s → s ≠ [] → num s <= u64_max → parse_u64 (code <$> s) = Some (num s).
Proof.
  intros Hd Hne Hb. pose proof (parse_u64_digits_num s 0 Hd ltac:(lia) ltac:(lia)) as Hp. rewrite Z.mul_0_l, Z.add_0_l in Hp.
  destruct s as [|c s]; [done|]. apply Forall_cons in Hd as [Hc _]. apply digit_code in Hc. cbn [fmap list_fmap parse_u64] in *.
  assert (∃ k, (k < 10)%nat ∧ code c = 48 + Z.of_nat k) as (k & Hk & Hck) by (exists (Z.to_nat (code c - 48)); lia).
  rewrite Hck in *. do 10 (destruct k as [|k]; [by destruct (code <$> s)|]). lia.
Qed.

(** The digits of an order's number: at most ten below [10 ^ 10]. *)
Lemma padded_digits i :
  0 <= i < 10 ^ 10 → let s := zero_padded 6 i in all_digits s ∧ num s = i ∧ (6 <= length s <= 10)%nat.
Proof.
  intros Hi. destruct (u64_to_string_spec i ltac:(lia)) as (Hd & Hv & _ & Hl). specialize (Hl 10 ltac:(lia) ltac:(lia)).
  unfold zero_padded. split_and!; [apply Forall_app; split; [apply all_digits_zeros|done]|rewrite num_app, num_zeros, Hv; lia|..];
    rewrite length_app, length_replicate; lia.
Qed.

Lemma digits_codes s c : all_digits s → c ∈ (code <$> s) → 48 <= c <= 57.
Proof. intros Hd (a & -> & Ha)%list_elem_of_fmap. apply digit_code. by eapply Forall_forall in Hd. Qed.

Lemma digit_no_cont c : 48 <= c <= 57 → is_cont c = false.
Proof.
  intros Hc. assert (∃ k, (k < 10)%nat ∧ c = 48 + Z.of_nat k) as (k & Hk & ->) by (exists (Z.to_nat (c - 48)); lia).
  do 10 (destruct k as [|k]; [done|]). lia.
Qed.

Lemma ord_token_spec i :
  0 <= i < 10 ^ 10 →
  tidy (ord_token i) ∧ (10 <= length (ord_token i) <= 14)%nat ∧ last (ord_token i) ≠ Some SPACE
  ∧ drop 4 (ord_token i) = code <$> zero_padded 6 i.
Proof.
  intros Hi. destruct (padded_digits i Hi) as (Hd & _ & Hl). unfold ord_token. set (z := zero_padded 6 i) in *.
  assert (∃ c, last (code <$> z) = Some c ∧ 48 <= c <= 57) as (c & Hc & Hr).
  { destruct (last (code <$> z)) as [c|] eqn:E; [exists c; split; [done|]; by eapply digits_codes, last_Some_elem_of|].
    apply last_None in E. apply (f_equal length) in E. rewrite length_fmap in E. cbn in E. lia. }
  assert (last (bytes_of "ORD-" ++ (code <$> z)) = Some c) as Hlast by (rewrite last_app, Hc; done).
  split_and!; try done; try (rewrite length_app, length_fmap; cbn; lia).
  - split_and!.
    + apply Forall_app. split; [by repeat constructor|]. apply Forall_forall. intros x Hx%digits_codes; [|done]. unfold is_ascii. lia.
    + intros x Hx. by simplify_eq/=.
    + intros x Hx. rewrite Hlast in Hx. simplify_eq. unfold is_ws, between. apply orb_false_intro; [apply andb_false_intro2|]; lia.
  - rewrite Hlast. unfold SPACE. intros [= ->]. lia.
Qed.

Lemma ord_token_text i : 0 <= i < 10 ^ 10 → text_ok (ord_token i) 14.
Proof. intros Hi. destruct (ord_token_spec i Hi) as ((Ha & _) & Hl & Hs & _). split_and!; [done|lia|done]. Qed.

Lemma ord_token_number i : 0 <= i < 10 ^ 10 → parse_u64 (drop 4 (ord_token i)) = Some i.
Proof.
  intros Hi. destruct (ord_token_spec i Hi) as (_ & _ & _ & ->). destruct (padded_digits i Hi) as (Hd & Hn & Hl).
  rewrite parse_u64_code, Hn; [done|done| |unfold u64_max; lia]. intros E. rewrite E in Hl. cbn in Hl. lia.
Qed.

(** ** Messages *)

Definition enter_of (i : Z) : EnterOrder :=
  mkEnter (ord_token i) 66 100 (bytes_of "AAPL") 1955000 99998 (bytes_of "ABCD") 89 65 78 0 78 32.
Definition accepted_of (now i : Z) : Accepted :=
  mkAccepted now (ord_token i) 66 100 (bytes_of "AAPL") 1955000 99998 (bytes_of "ABCD") 89 (1000000 + i) 76.

Lemma ouch_enter_parses i : 0 <= i < 10 ^ 10 → ouch_parse (ouch_enter i) = Some (OEnterOrder (enter_of i)).
Proof.
  intros Hi. rewrite <- (app_nil_r (ouch_enter i)). apply (parse_encode_message (OEnterOrder (enter_of i)) []).
  cbn. unfold in_u32, in_i32. split_and!; try lia; try (by apply ord_token_text); by repeat constructor.
Qed.

Lemma ouch_accepted_parses now i : in_u64 now → 0 <= i < 10 ^ 10 → ouch_parse (ouch_accepted now i) = Some (OAccepted (accepted_of now i)).
Proof.
  intros Hn Hi. rewrite <- (app_nil_r (ouch_accepted now i)). apply (parse_encode_message (OAccepted (accepted_of now i)) []).
  cbn. unfold in_u64, in_u32, in_i32 in *. split_and!; try lia; try (by apply ord_token_text); by repeat constructor.
Qed.

Lemma length_ouch_enter i : length (ouch_enter i) = 49%nat.
Proof. exact (length_encode_message (OEnterOrder (enter_of i))). Qed.

Lemma length_ouch_accepted now i : length (ouch_accepted now i) = 66%nat.
Proof. exact (length_encode_message (OAccepted (accepted_of now i))). Qed.

Lemma length_ouch_executed now i f : length (ouch_executed now i f) = 35%nat.
Proof. exact (length_encode_message (OExecuted (mkExecuted _ _ _ _ _))). Qed.

#[local] Arguments ouch_enter : simpl never.
#[local] Arguments ouch_accepted : simpl never.
#[local] Arguments ouch_executed : simpl never.

Lemma order_index_enter i : 0 <= i < 10 ^ 10 → order_index (ouch_enter i) = Some i.
Proof.
  intros Hi. unfold order_index. rewrite length_ouch_enter. cbn [Nat.ltb Nat.leb]. f_equal.
  assert (slice 1 15 (ouch_enter i) = pad_alpha (ord_token i) 14) as ->.
  { unfold ouch_enter, encode_enter. rewrite slice_app_skip by done. apply slice_app_here. by rewrite length_pad_alpha. }
  destruct (ord_token_spec i Hi) as (Ht & Hl & _ & _). unfold pad_alpha. rewrite Nat.min_l, take_ge by lia.
  rewrite from_utf8_lossy_ascii by (apply Forall_app; split; [apply Ht|by apply Forall_replicate]).
  change (ord_token i ++ ?l) with (replicate 0 SPACE ++ ord_token i ++ l). rewrite str_trim_padded by done. unfold trim_start_matches.
  destruct (length (ord_token i)) as [|k] eqn:Ek; [lia|]. cbn [trim_matches]. change (length (bytes_of "ORD-")) with 4%nat.
  rewrite bool_decide_eq_true_2 by done. destruct k as [|k]; [lia|]. cbn [trim_matches]. change (length (bytes_of "ORD-")) with 4%nat.
  rewrite bool_decide_eq_false_2; [by rewrite ord_token_number|]. destruct (ord_token_spec i Hi) as (_ & _ & _ & ->).
  destruct (padded_digits i Hi) as (Hd & _ & Hz). destruct (zero_padded 6 i) as [|a z]; [cbn in Hz; lia|]. apply Forall_cons in Hd as [Ha%digit_code _].
  cbn [fmap list_fmap take]. intros E. injection E as E _. lia.
Qed.

(** ** [read_packet] *)

Lemma read_packet_whole p rest : fits p → read_packet (to_bytes p ++ rest) = Whole p rest.
Proof.
  intros Hf. pose proof (first_packet_to_bytes p rest Hf) as H. pose proof (length_to_bytes p) as Hl. unfold first_packet in H. unfold read_packet.
  set (buf := to_bytes p ++ rest) in *. assert (length buf = 3 + length (payload p) + length rest)%nat as Hb by (subst buf; rewrite length_app; lia).
  set (len := Z.to_nat _) in *. rewrite Hl in H. destruct (Nat.ltb_spec (length buf) 3); [lia|]. destruct (Nat.ltb_spec len 1); [done|].
  destruct (Nat.ltb_spec (length buf) (2 + len)); [done|]. cbn [orb] in H. rewrite (proj2 (Nat.ltb_ge (length buf) 2)) by lia.
  destruct (buf !! 2%nat) as [t|] eqn:Et; [|done]. cbn [mbind option_bind] in H. injection H as Hp Hn.
  assert (slice 2 (2 + len) buf = t :: slice 3 (2 + len) buf) as ->.
  { unfold slice. erewrite (drop_S _ _ 2) by done. destruct len as [|len]; [lia|]. cbn. by rewrite Nat.sub_0_r. }
  f_equal; [exact Hp|]. subst buf. replace (2 + len)%nat with (length (to_bytes p)) by lia. by rewrite drop_app_length.
Qed.

Lemma read_packet_one p : fits p → read_packet (to_bytes p) = Whole p [].
Proof. intros Hf. rewrite <- (app_nil_r (to_bytes p)). by apply read_packet_whole. Qed.

(** ** The first benchmark *)

Lemma fits_short p : (length (payload p) <= 100)%nat → fits p.
Proof. unfold fits. lia. Qed.

(** One packet written to a server that waits: it is handled, then the server waits again or has left. *)
Lemma tcp_write_one now n at_ s unread p at' s' out :
  at_ ≠ Left → fits p →
  match at_ with AtLogin => tcp_on_login s p | _ => tcp_on_packet now n s p end = Some (at', s', out) →
  tcp_write now n (mkTcpConn at_ s [] unread) (to_bytes p) = Some (mkTcpConn at' s' [] (unread ++ out)).
Proof.
  intros Ha Hf H. unfold tcp_write. cbn [tc_inbox tc_at tc_server tc_unread app]. pose proof (length_to_bytes p) as Hl.
  assert (tcp_serve (length (to_bytes p)) now n at' s' [] = Some (at', s', [], [])) as Hrest by (rewrite Hl; by destruct at').
  generalize dependent (length (to_bytes p)). intros k Hl Hrest. cbn [tcp_serve].
  rewrite read_packet_one by done. destruct at_; [|..|done]; rewrite H; cbn [mbind option_bind]; rewrite Hrest; cbn [mbind option_bind]; by rewrite app_nil_r.
Qed.

Lemma tcp_receive_one at_ s type now_ns client client' p rest :
  fits p → packet_type p = type → client_handle_packet client p now_ns = (client', inr no_actions) →
  tcp_receive type now_ns client (mkTcpConn at_ s [] (to_bytes p ++ rest)) = Some (client', p, mkTcpConn at_ s [] rest).
Proof.
  intros Hf <- Hh. unfold tcp_receive. cbn [tc_unread tc_at tc_server tc_inbox]. rewrite read_packet_whole by done. by rewrite Z.eqb_refl, Hh.
Qed.

Lemma soup_session_tidy : tidy SOUP_SESSION.
Proof. split_and!; [by repeat constructor|by intros c [= <-]|by intros c [= <-]]. Qed.

Lemma client_takes_report c now_ns msg :
  cl_logged_in c = true → msg ≠ [] → in_u64 (cl_expected_seq c + 1) →
  client_handle_packet c (sequenced_packet msg) now_ns
  = (mkSoupClient (cl_session_id c) (cl_expected_seq c + 1) (cl_start_seq c) true now_ns, inr no_actions).
Proof.
  intros Hl Hm Hb. unfold client_handle_packet. cbn. rewrite Hl. cbn. destruct msg; [done|]. by rewrite u64_wrap_id.
Qed.

Lemma client_takes_login c now_ns from :
  in_u64 from →
  client_handle_packet c (login_accepted SOUP_SESSION from) now_ns = (mkSoupClient (cl_session_id c) from from true now_ns, inr no_actions).
Proof.
  intros Hf. unfold client_handle_packet. change (packet_type (login_accepted SOUP_SESSION from)) with LOGIN_ACCEPTED. rewrite Z.eqb_refl.
  rewrite parse_login_accepted_built; [done|apply soup_session_tidy|by apply Nat.leb_le|done].
Qed.

(** Where a login that asks for [r] starts, with [n] messages in a store of capacity [cap]. *)
Definition soup_granted (cap n : nat) (r : Z) : Z := if r =? 0 then Z.of_nat n + 1 else Z.max r (oldest_kept cap n).

Lemma soup_granted_range cap n r : 0 <= r <= Z.of_nat n + 1 → 1 <= soup_granted cap n r <= Z.of_nat n + 1.
Proof. intros Hr. unfold soup_granted, oldest_kept. destruct (r =? 0); lia. Qed.

(** A login request of the benchmarks at a server with the messages [msgs]. *)
Lemma bench_login cap msgs srv r :
  store_window SOUP_SESSION cap msgs srv → Z.of_nat (length msgs) < 2 ^ 60 → 0 <= r <= Z.of_nat (length msgs) + 1 →
  let from := soup_granted cap (length msgs) r in
  requested_sequence (parse_login_request (login_request SOUP_USER SOUP_PASS SOUP_SESSION r)) = r
  ∧ handle_login srv (parse_login_request (login_request SOUP_USER SOUP_PASS SOUP_SESSION r))
    = (set_logged_in srv, inr (mkActions (login_accepted SOUP_SESSION from :: (sequenced_packet <$> drop (Z.to_nat (from - 1)) msgs)) false None)).
Proof.
  intros Hw Hb Hr from. destruct (parse_login_request_built SOUP_USER SOUP_PASS SOUP_SESSION r) as [Hs Hq]; [apply soup_session_tidy|by apply Nat.leb_le|unfold in_u64; lia|].
  set (req := parse_login_request _) in *. split; [done|]. unfold from, soup_granted. destruct (Z.eqb_spec r 0) as [->|Hne].
  - unfold handle_login. rewrite Hs, Hq, (sw_id _ _ _ _ Hw), (bool_decide_eq_true_2 (SOUP_SESSION = SOUP_SESSION)), andb_false_r by done. cbn [Z.eqb orb].
    pose proof (sw_next _ _ _ _ Hw) as Hn. assert (store_first srv <= sv_next_seq srv) as Hf.
    { unfold store_first. rewrite (sw_store _ _ _ _ Hw). destruct (drop _ msgs) eqn:E; cbn [number]; [lia|]. rewrite Hn. unfold oldest_kept. lia. }
    rewrite Z.max_l, Z.ltb_irrefl, drop_ge, Hn by lia. done.
  - rewrite (handle_login_window SOUP_SESSION cap msgs srv req Hw); [|by left|rewrite Hq, (sw_next _ _ _ _ Hw); lia]. by rewrite Hq.
Qed.

Section TcpRun.
Variables (now rx : Z → Z) (cap n : nat).
Hypothesis Hn : Z.of_nat n < 10 ^ 10.

(** The report of order [i]: message [i + 1] of the session. *)
Definition tcp_report (i : nat) : list Z := ouch_accepted (now (Z.of_nat i + 1)) (Z.of_nat i).

Definition at_order (i : nat) : conn_at := if (n <=? i)%nat then Left else InLoop.

Lemma report_message m : m ∈ tcp_report <$> seq 0 n → is_message m.
Proof.
  intros (i & -> & _)%list_elem_of_fmap. pose proof (length_ouch_accepted (now (Z.of_nat i + 1)) (Z.of_nat i)) as Hl. unfold tcp_report.
  split; [by intros E; rewrite E in Hl|rewrite Hl; lia].
Qed.

(** The first connection after [i] orders. *)
Record at_run (i : nat) (client : SoupClient) (c : TcpConn) : Prop := {
  ar_at : tc_at c = (if (i =? 0)%nat then InLoop else at_order i);
  ar_inbox : tc_inbox c = [];
  ar_unread : tc_unread c = [];
  ar_total : ts_total (tc_server c) = i;
  ar_replayed : ts_replayed (tc_server c) = 0%nat;
  ar_store : store_window SOUP_SESSION cap (tcp_report <$> seq 0 i) (ts_srv (tc_server c));
  ar_client : cl_session_id client = SOUP_SESSION ∧ cl_expected_seq client = Z.of_nat i + 1 ∧ cl_start_seq client = 1 ∧ cl_logged_in client = true }.

Lemma enter_handled srv i : server_handle_packet srv (enter_packet i) = (srv, inr no_actions).
Proof. reflexivity. Qed.

Lemma ord_token_tail i : 0 <= i < 10 ^ 10 → str_from 4 (ord_token i) = Some (drop 4 (ord_token i)).
Proof.
  intros Hi. destruct (ord_token_spec i Hi) as (_ & Hl & _ & Hd). unfold str_from. rewrite (proj2 (Nat.ltb_ge _ _)) by lia.
  destruct (ord_token i !! 4%nat) as [x|] eqn:Ex; [|done]. rewrite (drop_S _ _ 4 Ex) in Hd. symmetry in Hd.
  destruct (padded_digits i Hi) as (Hz & _). assert (48 <= x <= 57) by (eapply digits_codes; [exact Hz|rewrite Hd; constructor]).
  by rewrite digit_no_cont.
Qed.

Lemma tcp_order_handled i srv :
  (i < n)%nat → store_window SOUP_SESSION cap (tcp_report <$> seq 0 i) srv →
  tcp_on_packet now n (mkTcpServer srv i 0) (enter_packet i)
  = Some (at_order (S i), mkTcpServer (enqueue srv (tcp_report i)).1 (S i) 0, to_bytes (sequenced_packet (tcp_report i))).
Proof.
  intros Hi Hst. unfold tcp_on_packet. cbn [ts_srv]. rewrite enter_handled. cbn [outbound no_actions close].
  change (packet_type (enter_packet i) =? UNSEQUENCED_DATA) with true. change (payload (enter_packet i)) with (ouch_enter (Z.of_nat i)).
  cbv iota. rewrite ouch_enter_parses by lia. cbn [mbind option_bind en_token enter_of]. rewrite ord_token_tail by lia.
  cbn [mbind option_bind]. rewrite ord_token_number by lia. cbn [default ts_total ts_replayed].
  rewrite (sw_next _ _ _ _ Hst), length_fmap, length_seq. reflexivity.
Qed.

Lemma tcp_order_step i client c :
  (i < n)%nat → at_run i client c →
  ∃ client' c1 c', tcp_write now n c (to_bytes (enter_packet i)) = Some c1
    ∧ tcp_receive SEQUENCED_DATA (rx (Z.of_nat i)) client c1 = Some (client', sequenced_packet (tcp_report i), c') ∧ at_run (S i) client' c'.
Proof.
  intros Hi [Hat Hin Hun Htot Hrep Hst (Hid & He & Hsq & Hlog)]. destruct c as [at_ [srv tot rep] inbox unread]. cbn in *. subst.
  assert ((if (i =? 0)%nat then InLoop else at_order i) = InLoop) as ->.
  { unfold at_order. rewrite (proj2 (Nat.leb_gt _ _)) by lia. by case_match. }
  set (s' := mkTcpServer (enqueue srv (tcp_report i)).1 (S i) 0).
  pose proof (tcp_order_handled i srv Hi Hst) as Hp. fold s' in Hp.
  exists (mkSoupClient SOUP_SESSION (Z.of_nat (S i) + 1) 1 true (rx (Z.of_nat i))), (mkTcpConn (at_order (S i)) s' [] (to_bytes (sequenced_packet (tcp_report i)))), (mkTcpConn (at_order (S i)) s' [] []).
  split_and!.
  - rewrite <- (app_nil_l (to_bytes (sequenced_packet _))). apply (tcp_write_one now n InLoop _ []); [done| |exact Hp]. apply fits_short. change (payload (enter_packet i)) with (ouch_enter (Z.of_nat i)). rewrite length_ouch_enter. lia.
  - rewrite <- (app_nil_r (to_bytes _)). apply tcp_receive_one; [apply fits_short; cbn; unfold tcp_report; rewrite length_ouch_accepted; lia|done|].
    rewrite client_takes_report; [|done| |unfold in_u64; lia].
    + rewrite Hid, He, Hsq. do 2 f_equal. lia.
    + unfold tcp_report. intros E. pose proof (length_ouch_accepted (now (Z.of_nat i + 1)) (Z.of_nat i)) as Hl. by rewrite E in Hl.
  - split; cbn [tc_at tc_inbox tc_unread tc_server ts_total ts_replayed ts_srv cl_session_id cl_expected_seq cl_start_seq cl_logged_in]; [done..| |done].
    rewrite seq_S, fmap_app. apply enqueue_window; [rewrite length_fmap, length_seq; lia|done].
Qed.

Lemma tcp_orders_run m : ∀ i client c,
  (i + m <= n)%nat → at_run i client c →
  ∃ client' c', tcp_orders now rx n client c (seq i m) = Some (client', c') ∧ at_run (i + m) client' c'.
Proof.
  induction m as [|m IH]; intros i client c Hi Hr; [exists client, c; by rewrite Nat.add_0_r|].
  destruct (tcp_order_step i client c ltac:(lia) Hr) as (client1 & c1 & c2 & Hw & Hg & Hr'). cbn [seq tcp_orders]. rewrite Hw. cbn [mbind option_bind]. rewrite Hg. cbn [mbind option_bind].
  destruct (IH (S i) client1 c2 ltac:(lia) Hr') as (client' & c' & Ho & Hr''). exists client', c'. split; [done|]. by replace (i + S m)%nat with (S i + m)%nat by lia.
Qed.

(** A connection from its login to the client's receipt of the answer; the replay is not read yet. *)
Lemma tcp_login_run msgs client srv total rep r :
  store_window SOUP_SESSION cap msgs srv → Z.of_nat (length msgs) < 2 ^ 60 → 0 <= r <= Z.of_nat (length msgs) + 1 →
  cl_session_id client = SOUP_SESSION → cl_expected_seq client = r →
  let from := soup_granted cap (length msgs) r in
  let later := drop (Z.to_nat (from - 1)) msgs in
  ∃ c, tcp_write now n (mkTcpConn AtLogin (mkTcpServer srv total rep) [] []) (to_bytes (client_login_request client SOUP_USER SOUP_PASS)) = Some c
    ∧ tcp_receive LOGIN_ACCEPTED (rx 0) client c
      = Some (mkSoupClient SOUP_SESSION from from true (rx 0), login_accepted SOUP_SESSION from,
              mkTcpConn InLoop (mkTcpServer (set_logged_in srv) total (if 1 <? r then (rep + length later)%nat else rep)) [] (packets_bytes (sequenced_packet <$> later))).
Proof.
  intros Hw Hb Hr Hid He from later. destruct (bench_login cap msgs srv r Hw Hb Hr) as [Hq Hh]. fold from in Hh. fold later in Hh.
  pose proof (soup_granted_range cap (length msgs) r Hr) as Hg. fold from in Hg. unfold client_login_request. rewrite Hid, He.
  eexists. split.
  - apply tcp_write_one; [done|apply fits_login_request|]. unfold tcp_on_login. cbn [ts_srv]. rewrite Hh. cbn [is_login_request].
    change (negb _) with false. cbn [outbound]. rewrite Hq. done.
  - cbn [app packets_bytes fmap list_fmap concat]. erewrite tcp_receive_one; [|apply fits_login_accepted|done|apply client_takes_login; unfold in_u64; lia].
    rewrite Hid. do 4 f_equal. destruct (1 <? r); [|done]. f_equal. f_equal. cbn [ts_replayed ts_total]. f_equal. cbn [List.filter is_sequenced].
    change (is_sequenced (login_accepted SOUP_SESSION from)) with false. cbn. clear. induction later as [|x l IH]; [done|]. cbn. by rewrite IH.
Qed.

Lemma tcp_replay_run at_ s msgs : ∀ client,
  Forall is_message msgs → cl_logged_in client = true → 0 <= cl_expected_seq client → cl_expected_seq client + Z.of_nat (length msgs) < 2 ^ 64 →
  ∃ client', tcp_replay rx (length msgs) client (mkTcpConn at_ s [] (packets_bytes (sequenced_packet <$> msgs))) = Some (client', mkTcpConn at_ s [] [], msgs)
    ∧ cl_expected_seq client' = cl_expected_seq client + Z.of_nat (length msgs).
Proof.
  induction msgs as [|m msgs IH]; intros client Hm Hl H0 Hb; [exists client; split; [done|cbn; lia]|].
  apply Forall_cons in Hm as [[Hne Hfit] Hm]. cbn [length] in Hb. cbn [tcp_replay length packets_bytes fmap list_fmap concat].
  erewrite tcp_receive_one; [|exact Hfit|done|apply client_takes_report; [done|done|unfold in_u64; lia]]. cbn [mbind option_bind].
  edestruct IH as (client' & Hr & He); [done| | | |]; [| | |exists client'; rewrite Hr; split; [done|rewrite He]]; cbn [cl_logged_in cl_expected_seq length]; [done|lia..].
Qed.
End TcpRun.

Lemma percentiles_some rtts : rtts ≠ [] → is_Some (percentiles rtts).
Proof.
  intros Hne. unfold percentiles. pose proof (Permutation_length (merge_sort_Permutation Z.le rtts)) as Hl. set (sorted := merge_sort Z.le rtts) in *.
  assert (0 < length sorted)%nat as H0 by (destruct rtts; cbn in *; [done|lia]).
  destruct (lookup_lt_is_Some_2 sorted (length sorted / 2)%nat) as [a ->]; [apply Nat.Div0.div_lt_upper_bound; lia|].
  destruct (lookup_lt_is_Some_2 sorted (length sorted * 99 / 100)%nat) as [b ->]; [apply Nat.Div0.div_lt_upper_bound; lia|]. by eexists.
Qed.

(** [soup_tcp_bench] with [n] orders.  Every order is answered by its report, which the client
    counts without a gap; the second login asks for message [n / 2], is granted the oldest
    message from there on that is still kept (the next one when it asks for 0) and is sent every
    report from that one on, once and in order.  No assertion fails.  The server counts what it
    replayed only when more than message 1 was asked for. *)
Theorem soup_tcp_bench_passes now rx elapsed n :
  (1 <= n)%nat → Z.of_nat n < 10 ^ 10 →
  let asked := Z.of_nat (n / 2) in
  let from := soup_granted TCP_STORE n asked in
  let later := drop (Z.to_nat (from - 1)) (tcp_report now <$> seq 0 n) in
  soup_tcp_bench now rx elapsed n
  = Some (mkTcpReport 1 (Z.of_nat n + 1) asked from later (Z.of_nat n + 1) n (if 1 <? asked then length later else 0%nat)).
Proof.
  intros H1 Hn asked from later. unfold soup_tcp_bench. assert (∃ srv, soup_server_new SOUP_SESSION TCP_STORE = inr srv) as [srv0 Hsrv].
  { unfold soup_server_new. by eexists. }
  destruct (enqueue_all_window SOUP_SESSION TCP_STORE srv0 [] Hsrv ltac:(cbn; lia)) as [Hw0 _]. rewrite Hsrv. cbn [mbind option_bind].
  destruct (tcp_login_run now rx TCP_STORE n [] (soup_client_new SOUP_SESSION) srv0 0 0 1 Hw0) as (c0 & Hw & Hg); [cbn; lia..|done|done|]. rewrite Hw. cbn [mbind option_bind]. rewrite drop_nil in Hg. replace (soup_granted TCP_STORE (length []) 1) with 1 in Hg by (cbn [length]; unfold soup_granted, oldest_kept; cbn [Z.eqb Pos.eqb]; lia). cbn [fmap list_fmap packets_bytes concat] in Hg. rewrite Hg. cbn [mbind option_bind].
  match type of Hg with _ = Some (?cl, _, ?c) => destruct (tcp_orders_run now rx TCP_STORE n Hn n 0 cl c) as (client & c' & Ho & Hr) end.
  { lia. } { split; cbn [tc_at tc_inbox tc_unread tc_server ts_total ts_replayed ts_srv]; [done..| |done]. split; apply Hw0. }
  rewrite Ho. cbn [mbind option_bind]. destruct (percentiles_some (elapsed <$> seq 0 n)) as [pp ->]; [by destruct n; [lia|]|]. cbn [mbind option_bind].
  destruct Hr as [Hat Hin Hun Htot Hrep Hst (Hid & He & Hsq & Hlog)]. destruct c' as [at_ [srv tot rep] inbox unread].
  cbn [tc_at tc_inbox tc_unread tc_server ts_total ts_replayed ts_srv Nat.add] in Hat, Hin, Hun, Htot, Hrep, Hst, He |- *.
  assert (at_ = Left) as -> by (rewrite Hat; unfold at_order; rewrite Nat.leb_refl; by destruct n; [lia|]). subst inbox unread tot rep. clear Hat.
  rewrite He, Hsq, u64_wrap_id, (proj2 (Z.eqb_eq _ _)) by (unfold in_u64; lia). cbn [negb].
  change (tcp_write now n (mkTcpConn Left (mkTcpServer srv n 0) [] []) (to_bytes (heartbeat CLIENT_HEARTBEAT)))
    with (Some (mkTcpConn Left (mkTcpServer srv n 0) (to_bytes (heartbeat CLIENT_HEARTBEAT)) [])).
  cbn [mbind option_bind tcp_drop tc_at tc_server]. set (client2 := mkSoupClient _ _ _ _ _).
  assert (length (tcp_report now <$> seq 0 n) = n) as Hlen by (by rewrite length_fmap, length_seq).
  assert (asked <= Z.of_nat n) as Hasked by (subst asked; pose proof (Nat.Div0.div_le_upper_bound n 2 n); lia).
  destruct (tcp_login_run now rx TCP_STORE n _ client2 srv n 0 asked Hst) as (c2 & Hw2 & Hg2); [rewrite Hlen; lia..|done|done|]. rewrite Hlen in Hg2. fold from in Hg2. fold later in Hg2.
  rewrite Hw2. cbn [mbind option_bind]. rewrite Hg2. cbn [mbind option_bind].
  pose proof (soup_granted_range TCP_STORE n asked ltac:(lia)) as Hgr. fold from in Hgr.
  rewrite parse_login_accepted_built; [|apply soup_session_tidy|by apply Nat.leb_le|unfold in_u64; lia]. cbn [la_sequence].
  rewrite (proj2 (Z.ltb_ge _ _)) by lia. assert (length later = Z.to_nat (Z.of_nat n + 1 - from)) as Hlater by (unfold later; rewrite length_drop, Hlen; lia).
  rewrite <- Hlater. match goal with |- context [tcp_replay rx _ ?cl (mkTcpConn ?a ?s _ _)] => destruct (tcp_replay_run rx n a s later cl) as (client3 & Hr3 & He3) end; cbn [cl_logged_in cl_expected_seq] in *.
  { apply Forall_drop, Forall_forall. intros m. apply report_message. } { done. } { lia. } { rewrite Hlater. lia. }
  rewrite Hr3. cbn [mbind option_bind].
  rewrite (proj2 (Z.eqb_eq _ _)) by lia. cbn [negb tcp_drop tc_at tc_server mbind option_bind ts_total ts_replayed]. rewrite Nat.eqb_refl. cbn [negb].
  rewrite He3. cbn [cl_expected_seq]. do 2 f_equal. lia.
Qed.

(** With no orders there is no median. *)
Lemma soup_tcp_bench_empty now rx elapsed : soup_tcp_bench now rx elapsed 0 = None.
Proof.
  unfold soup_tcp_bench. assert (∃ srv, soup_server_new SOUP_SESSION TCP_STORE = inr srv) as [srv0 Hsrv] by (unfold soup_server_new; by eexists).
  rewrite Hsrv. cbn [mbind option_bind]. destruct (tcp_write _ _ _ _); [|done]. cbn [mbind option_bind]. by destruct (tcp_receive _ _ _ _) as [[[] ?]|].
Qed.
