(* ===== verification/SoupCmpProps.v ===== *)
(** * [soup_cmp_bench]: server and client over a stream cut anywhere

    For every schedule of the two threads and every way TCP cuts the two streams, the client
    counts exactly the reports of its orders, in order ([soup_cmp_in_order]), one side can always
    move until both are over, and every run comes to that end ([soup_cmp_ends]).  A batch of
    no orders panics ([soup_cmp_batch_zero]). *)
From stdpp Require Import strings sorting relations.
From S2P Require Import Prelude Protocol HpScale HpIndex Utf8 Soup SoupProps Ouch SoupBench SoupBenchProps.

#[local] Open Scope Z_scope.
#[local] Arguments be_bytes : simpl never.
#[local] Arguments to_bytes : simpl never.
#[local] Arguments parse_login_request : simpl never.
#[local] Arguments login_request : simpl never.
#[local] Arguments login_accepted : simpl never.
#[local] Arguments SOUP_SESSION : simpl never.
#[local] Arguments enter_packet : simpl never.
#[local] Arguments CMP_STORE : simpl never.
#[local] Opaque CMP_STORE.
#[local] Arguments Nat.mul : simpl never.
#[local] Arguments Nat.sub : simpl never.
#[local] Arguments ouch_enter : simpl never.
#[local] Arguments ouch_accepted : simpl never.
#[local] Arguments ouch_executed : simpl never.

(** ** Streams cut anywhere *)

Lemma length_packets_bytes ps : length (packets_bytes ps) = sum_list ((λ p, 3 + length (payload p))%nat <$> ps).
Proof. unfold packets_bytes. induction ps as [|p ps IH]; [done|]. cbn [fmap list_fmap concat sum_list]. by rewrite length_app, length_to_bytes, IH. Qed.

Lemma packets_bytes_app ps qs : packets_bytes (ps ++ qs) = packets_bytes ps ++ packets_bytes qs.
Proof. unfold packets_bytes. by rewrite fmap_app, concat_app. Qed.

Definition incomplete (acc : list Z) : Prop := parse acc = ([], O).

(** A reader that has [acc] of the packets [ps], the rest still under way: it takes whole packets from
    the front and keeps a piece that is not one. *)
Lemma drain_prefix ps : ∀ acc pipe,
  Forall fits ps → acc ++ pipe = packets_bytes ps →
  ∃ j rest, drain acc = (take j ps, rest) ∧ rest ++ pipe = packets_bytes (drop j ps) ∧ incomplete rest.
Proof.
  induction ps as [|p ps IH]; intros acc pipe Hf Hb.
  { apply app_eq_nil in Hb as [-> ->]. by exists 0%nat, []. }
  unfold drain. rewrite parse_stream_parse. destruct (first_packet acc) as [[p' k]|] eqn:E.
  - apply Forall_cons in Hf as [Hp Hf]. pose proof (first_packet_bound _ _ _ E) as Hk. pose proof (first_packet_app _ pipe _ _ E) as E'.
    cbn [packets_bytes fmap list_fmap concat] in Hb. rewrite Hb in E'. rewrite first_packet_to_bytes in E' by done. assert (p' = p ∧ k = length (to_bytes p)) as [-> ->] by (split; congruence).
    destruct (IH (drop (length (to_bytes p)) acc) pipe Hf) as (j & rest & Hd & Hr & Hi).
    { rewrite <- (drop_app_le acc pipe) by lia. rewrite Hb, drop_app_length. done. }
    unfold drain in Hd. rewrite parse_stream_parse in Hd. apply pair_equal_spec in Hd as [Hd1 Hd2]. exists (S j), rest. rewrite parse_unfold, E. cbn [fst snd take drop].
    rewrite Hd1. rewrite <- drop_drop, Hd2. done.
  - exists 0%nat, acc. rewrite parse_unfold, E. split_and!; [by rewrite drop_0|done|]. unfold incomplete. by rewrite parse_unfold, E.
Qed.

Lemma drained acc pipe ps :
  Forall fits ps → acc ++ pipe = packets_bytes ps →
  ∃ pk ps' rest, drain acc = (pk, rest) ∧ ps = pk ++ ps' ∧ rest ++ pipe = packets_bytes ps' ∧ incomplete rest
    ∧ (length rest + 3 * length pk <= length acc)%nat.
Proof.
  intros Hf Hb. destruct (drain_prefix ps acc pipe Hf Hb) as (j & rest & Hd & Hr & Hi). exists (take j ps), (drop j ps), rest.
  split_and!; [done|by rewrite take_drop|done|done|]. assert (length (acc ++ pipe) = length (packets_bytes (take j ps)) + length (rest ++ pipe))%nat as Hl.
  { rewrite Hb, Hr. rewrite <- (take_drop j ps) at 1. by rewrite packets_bytes_app, length_app. }
  rewrite !length_app, length_packets_bytes in Hl.
  assert (∀ l : list Packet, 3 * length l <= sum_list ((λ p, 3 + length (payload p)) <$> l))%nat as Hsum.
  { clear. induction l as [|p l IH]; [done|]. cbn in *. lia. }
  specialize (Hsum (take j ps)). lia.
Qed.

Lemma incomplete_waits ps acc pipe :
  Forall fits ps → acc ++ pipe = packets_bytes ps → incomplete acc → pipe = [] → ps = [] ∧ acc = [].
Proof.
  intros Hf Hb Hi ->. rewrite app_nil_r in Hb. subst acc. destruct ps as [|p ps]; [done|]. unfold incomplete in Hi.
  unfold packets_bytes in Hi. by rewrite parse_all in Hi.
Qed.

Lemma incomplete_nil : incomplete [].
Proof. done. Qed.

Section CmpPackets.
Variables (now : Z → Z) (sc : Scenario).
#[local] Notation fills := (scenario_fills sc).
#[local] Notation batch := (scenario_batch sc).1.

(** What the server answers to order [i]; its messages number the session from 1. *)
Definition cmp_answers (i : nat) : list Packet :=
  match sc with
  | Echo => [enter_packet i]
  | _ => (λ f, sequenced_packet (cmp_report now (1 + Z.of_nat (i * fills + f)) (Z.of_nat i) f)) <$> seq 0 fills
  end.

Definition all_answers (k : nat) : list Packet := mjoin (cmp_answers <$> seq 0 k).

Definition login0 : Packet := login_request SOUP_USER SOUP_PASS SOUP_SESSION 0.

(** What the client has written so far, and the server. *)
Definition cmp_sent (c : CmpClient) : list Packet :=
  match cc_at c with Connect => [] | LoginWait => [login0] | _ => login0 :: (enter_packet <$> seq 0 (cc_i c)) end.

Definition cmp_written (s : CmpServer) : list Packet :=
  if cs_logged_in s then login_accepted SOUP_SESSION 1 :: all_answers (cs_done s) else [].

Definition cmp_handled (s : CmpServer) : nat := if cs_logged_in s then S (cs_done s) else 0.

Definition cmp_todo (s : CmpServer) : list Packet := match cs_at s with LoginFor l | OrdersFor l => l | _ => [] end.

Definition cmp_got (c : CmpClient) : list Packet :=
  match cc_at c with Connect | LoginWait => [] | _ => login_accepted SOUP_SESSION 1 :: cc_log c end.

(** *** Facts about the packets *)

Lemma length_cmp_answers i : length (cmp_answers i) = fills.
Proof. unfold cmp_answers. destruct sc; cbn [scenario_fills]; by rewrite ?length_fmap, ?length_seq. Qed.

Lemma length_all_answers k : length (all_answers k) = (k * fills)%nat.
Proof.
  unfold all_answers. induction k as [|k IH]; [done|]. rewrite seq_S, fmap_app, join_app, length_app, IH. cbn. rewrite app_nil_r, length_cmp_answers. lia.
Qed.

Lemma all_answers_S k : all_answers (S k) = all_answers k ++ cmp_answers k.
Proof. unfold all_answers. rewrite seq_S, fmap_app, join_app. cbn. by rewrite app_nil_r. Qed.

Lemma all_answers_prefix a b : (a <= b)%nat → all_answers a `prefix_of` all_answers b.
Proof. induction 1 as [|b _ IH]; [done|]. rewrite all_answers_S. by apply prefix_app_r. Qed.

Lemma enter_fits i : fits (enter_packet i).
Proof. apply fits_short. change (payload (enter_packet i)) with (ouch_enter (Z.of_nat i)). rewrite length_ouch_enter. lia. Qed.

Lemma length_login_bytes from : length (packets_bytes [login_accepted SOUP_SESSION from]) = 33%nat.
Proof.
  rewrite length_packets_bytes. cbn [fmap list_fmap sum_list sum_list_with foldr]. unfold login_accepted, pad_number_right. cbn [payload]. by rewrite length_app, !length_pad_right.
Qed.

Lemma length_cmp_report seq idx f : (35 <= length (cmp_report now seq idx f) <= 66)%nat.
Proof. unfold cmp_report. case_match; rewrite ?length_ouch_accepted, ?length_ouch_executed; lia. Qed.

Lemma answers_fit i : Forall fits (cmp_answers i).
Proof.
  unfold cmp_answers. destruct sc; [constructor; [apply enter_fits|done]|..]; apply Forall_fmap, Forall_forall; intros f _;
    apply fits_short; (edestruct length_cmp_report as [_ Hl]; cbn [payload sequenced_packet]; etransitivity; [exact Hl|lia]).
Qed.

Lemma written_fit s : Forall fits (cmp_written s).
Proof.
  unfold cmp_written. destruct (cs_logged_in s); [|done]. constructor; [apply fits_login_accepted|]. unfold all_answers.
  induction (seq 0 (cs_done s)) as [|i l IH]; [done|]. cbn. apply Forall_app. split; [apply answers_fit|done].
Qed.

Lemma sent_fit c : Forall fits (cmp_sent c).
Proof.
  assert (Forall fits (enter_packet <$> seq 0 (cc_i c))) by (apply Forall_fmap, Forall_forall; intros i _; apply enter_fits).
  assert (fits login0) by apply fits_login_request. unfold cmp_sent. destruct (cc_at c); auto.
Qed.

(** *** The two handlers on the packets they are given *)

Lemma fill_reports_run idx srv base a m :
  sv_next_seq srv = base + Z.of_nat a → 0 <= base → base + Z.of_nat (a + m) < 2 ^ 64 →
  ∃ srv', fill_reports now idx srv (seq a m) = (srv', packets_bytes ((λ f, sequenced_packet (cmp_report now (base + Z.of_nat f) idx f)) <$> seq a m))
    ∧ sv_next_seq srv' = base + Z.of_nat (a + m).
Proof.
  revert srv a; induction m as [|m IH]; intros srv a Hn H0 Hb; [exists srv; by rewrite Nat.add_0_r|]. cbn [seq fill_reports].
  destruct (IH (enqueue srv (cmp_report now (sv_next_seq srv) idx a)).1 (S a)) as (srv' & Hf & Hn'); [|done|lia|].
  { cbn. rewrite Hn, u64_wrap_id by (unfold in_u64; lia). lia. }
  exists srv'. rewrite Hf. split; [|rewrite Hn'; lia]. rewrite Hn. done.
Qed.

(** An order at the server. *)
Lemma cmp_order_answered s k l :
  cs_done s = k → Z.of_nat k < 10 ^ 10 → Z.of_nat (S k * fills) + 1 < 2 ^ 60 → (sc ≠ Echo → sv_next_seq (cs_srv s) = 1 + Z.of_nat (k * fills)) →
  ∃ srv', cmp_order_one now (server_scenario sc) fills s (enter_packet k) l
    = (mkCmpServer (OrdersFor l) srv' (cs_acc s) (cs_logged_in s) (S k), packets_bytes (cmp_answers k))
    ∧ (sc ≠ Echo → sv_next_seq srv' = 1 + Z.of_nat (S k * fills)).
Proof.
  intros Hd Hk Hb Hn. assert (sc ≠ Echo → ∃ srv', fill_reports now (Z.of_nat k) (cs_srv s) (seq 0 fills)
    = (srv', packets_bytes ((λ f, sequenced_packet (cmp_report now (1 + Z.of_nat (k * fills + f)) (Z.of_nat k) f)) <$> seq 0 fills)) ∧ sv_next_seq srv' = 1 + Z.of_nat (S k * fills)) as Hf.
  { intros He. destruct (fill_reports_run (Z.of_nat k) (cs_srv s) (1 + Z.of_nat (k * fills)) 0 fills) as (srv' & Hr & Hs); [rewrite (Hn He); lia|lia|lia|].
    exists srv'. rewrite Hr, Hs. split; [|lia]. do 2 f_equal. apply list_fmap_ext. intros ? f _. do 2 f_equal. lia. }
  unfold cmp_order_one, cmp_answers. change (packet_type (enter_packet k) =? UNSEQUENCED_DATA) with true. change (payload (enter_packet k)) with (ouch_enter (Z.of_nat k)).
  rewrite order_index_enter by lia. rewrite Hd. destruct sc as [| |b|f]; cbn [server_scenario scenario_fills] in *.
  1: { exists (cs_srv s). split; [|done]. unfold packets_bytes. cbn [fmap list_fmap concat]. by rewrite app_nil_r. }
  all: destruct (Hf ltac:(done)) as (srv' & -> & Hs); exists srv'; split; [done|by intros _].
Qed.

(** What the server sends after the login, as the client takes it. *)
Definition reply (p : Packet) : Prop :=
  (sc = Echo ∧ packet_type p = UNSEQUENCED_DATA) ∨ (sc ≠ Echo ∧ ∃ m, p = sequenced_packet m ∧ m ≠ []).

Lemma all_answers_reply k : Forall reply (all_answers k).
Proof.
  unfold all_answers. induction (seq 0 k) as [|i l IH]; [done|]. cbn. apply Forall_app. split; [|done]. unfold cmp_answers, reply.
  destruct sc; [constructor; [by left|done]|..]; apply Forall_fmap, Forall_forall; intros f _; right; (split; [done|]); eexists; (split; [done|]); intros E;
    (edestruct length_cmp_report as [Hl _]; rewrite E in Hl; cbn in Hl; lia).
Qed.

Lemma cmp_reports_taken now_ns ps : ∀ c,
  Forall reply ps → cl_logged_in c = true → 0 <= cl_expected_seq c → cl_expected_seq c + Z.of_nat (length ps) < 2 ^ 64 →
  ∃ c', cmp_report_packets now_ns c ps = Some (c', ps) ∧ cl_logged_in c' = true
    ∧ cl_expected_seq c' = (match sc with Echo => cl_expected_seq c | _ => cl_expected_seq c + Z.of_nat (length ps) end).
Proof.
  induction ps as [|p ps IH]; intros c Hr Hl H0 Hb; [exists c; split_and!; [done|done|destruct sc; cbn; lia]|].
  apply Forall_cons in Hr as [Hp Hr]. cbn [cmp_report_packets length] in *. destruct Hp as [[He Ht]|(He & m & -> & Hm)].
  - rewrite Ht. change (UNSEQUENCED_DATA =? SEQUENCED_DATA) with false. cbv iota. destruct (IH c Hr Hl H0) as (c' & -> & Hl' & Hs'); [lia|]. cbn [mbind option_bind].
    rewrite Z.eqb_refl. exists c'. split_and!; [done|done|]. rewrite Hs'. by rewrite He.
  - change (packet_type (sequenced_packet m) =? SEQUENCED_DATA) with true. cbv iota. rewrite client_takes_report by (done || unfold in_u64; lia).
    edestruct IH as (c' & -> & Hl' & Hs'); [done|done|cbn; lia|cbn; lia|]. cbn [mbind option_bind]. exists c'. split_and!; [done|done|]. rewrite Hs'. cbn [cl_expected_seq].
    destruct sc; [done|lia..].
Qed.
End CmpPackets.

Section CmpRun.
Variables (now : Z → Z) (sc : Scenario) (orders : nat) (srv0 : SoupServer).
#[local] Notation fills := (scenario_fills sc).
#[local] Notation batch := (scenario_batch sc).1.
#[local] Notation cmp_answers := (cmp_answers now sc).
#[local] Notation all_answers := (all_answers now sc).
#[local] Notation cmp_written := (cmp_written now sc).
Hypothesis Horders : Z.of_nat orders < 10 ^ 10.
Hypothesis Hseqs : Z.of_nat (orders * fills) + 1 < 2 ^ 60.
Hypothesis Hbatch : (1 <= batch)%nat.
Hypothesis Hsrv0 : soup_server_new SOUP_SESSION CMP_STORE = inr srv0.

Record srv_inv (s : CmpServer) : Prop := {
  si_fresh : cs_logged_in s = false → cs_srv s = srv0 ∧ cs_done s = 0%nat;
  si_next : sc ≠ Echo → sv_next_seq (cs_srv s) = 1 + Z.of_nat (cs_done s * fills);
  si_at : match cs_at s with
          | LoginTop => cs_logged_in s = true → cs_acc s = [] ∧ cs_done s = 0%nat
          | LoginFor l => cs_logged_in s = true → cs_acc s = [] ∧ cs_done s = 0%nat ∧ l = []
          | LoginRead => cs_logged_in s = false ∧ incomplete (cs_acc s)
          | OrdersTop | OrdersFor _ => cs_logged_in s = true
          | OrdersRead => cs_logged_in s = true ∧ (cs_done s < orders)%nat ∧ incomplete (cs_acc s)
          | Dropped => cs_logged_in s = true ∧ cs_done s = orders
          end }.

(** The message the client expects after [k] reports: echoed orders are not numbered. *)
Definition cmp_expected (k : nat) : Z := match sc with Echo => 1 | _ => 1 + Z.of_nat k end.

Record cli_inv (c : CmpClient) : Prop := {
  li_acc : incomplete (cc_acc c);
  li_seen : cc_seen c = length (cc_log c);
  li_i : (cc_i c <= orders)%nat;
  li_at : match cc_at c with
          | Connect => cc_i c = 0%nat ∧ cc_log c = [] ∧ cc_rtts c = 0%nat ∧ cc_acc c = []
          | LoginWait => cc_i c = 0%nat ∧ cc_log c = [] ∧ cc_rtts c = 0%nat
          | BatchTop => cc_seen c = (cc_i c * fills)%nat ∧ cc_i c = Nat.min orders (cc_rtts c * batch) ∧ (cc_rtts c = 0 ∨ pred (cc_rtts c) * batch < orders)%nat
          | Reading b need => (1 <= b)%nat ∧ need = (cc_i c * fills)%nat ∧ cc_i c = Nat.min orders (S (cc_rtts c) * batch) ∧ (cc_rtts c * batch < orders)%nat
          | Returned => cc_i c = orders ∧ cc_seen c = (orders * fills)%nat ∧ orders = Nat.min orders (cc_rtts c * batch) ∧ (cc_rtts c = 0 ∨ pred (cc_rtts c) * batch < orders)%nat
          | Failed => False
          end;
  li_client : match cc_at c with
              | Connect | LoginWait => True
              | _ => cl_logged_in (cc_client c) = true ∧ cl_expected_seq (cc_client c) = cmp_expected (length (cc_log c))
              end }.

(** [ps] is under way to the server, [qs] to the client. *)
Record cmp_link (m : Cmp) (ps qs : list Packet) : Prop := {
  lk_connect : cc_at (cm_client m) = Connect → cs_logged_in (cm_server m) = false;
  lk_done : (cs_done (cm_server m) <= cc_i (cm_client m))%nat;
  lk_c2s : cs_acc (cm_server m) ++ cm_c2s m = packets_bytes ps;
  lk_sent : cmp_todo (cm_server m) ++ ps = drop (cmp_handled (cm_server m)) (cmp_sent (cm_client m));
  lk_s2c : cc_acc (cm_client m) ++ cm_s2c m = packets_bytes qs;
  lk_written : cmp_got (cm_client m) ++ qs = cmp_written (cm_server m) }.

Definition cmp_inv (m : Cmp) : Prop := srv_inv (cm_server m) ∧ cli_inv (cm_client m) ∧ ∃ ps qs, cmp_link m ps qs.

Lemma link_fit m ps qs : cmp_link m ps qs → Forall fits ps ∧ Forall fits qs.
Proof.
  intros H. split.
  - apply (Forall_app fits (cmp_todo (cm_server m)) ps). rewrite (lk_sent _ _ _ H). apply Forall_drop, sent_fit.
  - apply (Forall_app fits (cmp_got (cm_client m)) qs). rewrite (lk_written _ _ _ H). apply written_fit.
Qed.

(** *** What is left to do: every step takes from it *)

Definition at_rank (a : cmp_at) : nat :=
  match a with LoginFor _ => 6 | LoginTop => 5 | LoginRead => 4 | OrdersFor _ => 3 | OrdersTop => 2 | OrdersRead => 1 | Dropped => 0 end.

Definition client_rank (a : cmp_client_at) : nat :=
  match a with Connect => 5 | LoginWait => 4 | Reading _ _ => 3 | BatchTop => 2 | _ => 0 end.

Definition server_work (s : CmpServer) : nat :=
  4 * length (cs_acc s) + 4 * length (cmp_todo s) + at_rank (cs_at s) + 2 * (69 * fills * (orders - cs_done s)) + (if cs_logged_in s then 0 else 66).

Definition client_work (c : CmpClient) : nat :=
  424 * (orders - cc_i c) + (match cc_at c with Connect => 400 | _ => 0 end) + client_rank (cc_at c).

Definition cmp_work (m : Cmp) : nat :=
  server_work (cm_server m) + 8 * length (cm_c2s m) + client_work (cm_client m) + 2 * length (cm_s2c m).

Lemma length_answer_bytes k : (length (packets_bytes (cmp_answers k)) <= 69 * fills)%nat.
Proof.
  rewrite <- (length_cmp_answers now sc k), length_packets_bytes. assert (Forall (λ p, length (payload p) <= 66)%nat (cmp_answers k)) as Hl.
  { clear. unfold SoupCmpProps.cmp_answers. destruct sc; [constructor; [|done]; change (payload (enter_packet k)) with (ouch_enter (Z.of_nat k)); rewrite length_ouch_enter; lia|..];
      apply Forall_fmap, Forall_forall; intros f _; apply length_cmp_report. }
  induction Hl as [|p l Hp _ IH]; [done|]. cbn in *. lia.
Qed.

Lemma server_parses m ps qs (read : cmp_at) (loop : list Packet → cmp_at) s out :
  cmp_link m ps qs → cmp_todo (cm_server m) = [] →
  (let '(pkts, acc) := drain (cs_acc (cm_server m)) in
   let goto at_ acc := Some (mkCmpServer at_ (cs_srv (cm_server m)) acc (cs_logged_in (cm_server m)) (cs_done (cm_server m)), @nil Z) in
   match pkts with [] => goto read acc | _ => goto (loop pkts) acc end) = Some (s, out) →
  ∃ pk ps' rest, ps = pk ++ ps' ∧ rest ++ cm_c2s m = packets_bytes ps' ∧ incomplete rest ∧ (length rest + 3 * length pk <= length (cs_acc (cm_server m)))%nat
    ∧ out = [] ∧ s = mkCmpServer (match pk with [] => read | _ => loop pk end) (cs_srv (cm_server m)) rest (cs_logged_in (cm_server m)) (cs_done (cm_server m)).
Proof.
  intros Hl Ht. destruct (link_fit _ _ _ Hl) as [Hf _]. destruct (drained _ _ _ Hf (lk_c2s _ _ _ Hl)) as (pk & ps' & rest & -> & Hps & Hr & Hi & Hlen).
  intros Hm. exists pk, ps', rest. destruct pk; injection Hm as <- <-; done.
Qed.

(** The server has moved on without handling a packet or writing: what is kept of the link. *)
Lemma link_moved m ps qs s ps' :
  cmp_link m ps qs → cs_logged_in s = cs_logged_in (cm_server m) → cs_done s = cs_done (cm_server m) →
  cs_acc s ++ cm_c2s m = packets_bytes ps' → cmp_todo s ++ ps' = cmp_todo (cm_server m) ++ ps →
  cmp_link (mkCmp s (cm_client m) (cm_c2s m) (cm_s2c m)) ps' qs.
Proof.
  intros [H1 H2 H3 H4 H5 H6] Hlog Hd Hb Ht. unfold cmp_handled, SoupCmpProps.cmp_written in *.
  split; cbn [cm_server cm_client cm_c2s cm_s2c]; unfold cmp_handled, SoupCmpProps.cmp_written; rewrite ?Hlog, ?Hd; try done. by rewrite Ht.
Qed.

(** The packet the server handles next. *)
Lemma next_is_login m ps qs p l :
  cmp_link m ps qs → cmp_todo (cm_server m) = p :: l → cs_logged_in (cm_server m) = false → srv_inv (cm_server m) → cli_inv (cm_client m) →
  p = login0 ∧ l = [] ∧ ps = [] ∧ cc_at (cm_client m) = LoginWait.
Proof.
  intros Hl Ht Hlog Hs Hc. pose proof (lk_sent _ _ _ Hl) as Hsent. rewrite Ht in Hsent. unfold cmp_handled in Hsent. rewrite Hlog, drop_0 in Hsent.
  pose proof (lk_written _ _ _ Hl) as Hw. unfold SoupCmpProps.cmp_written in Hw. rewrite Hlog in Hw. apply app_eq_nil in Hw as [Hg _].
  unfold cmp_got in Hg. unfold cmp_sent in Hsent. destruct (cc_at (cm_client m)); try done. injection Hsent as -> Hr. by apply app_eq_nil in Hr as [-> ->].
Qed.

Lemma next_is_order m ps qs p l :
  cmp_link m ps qs → cmp_todo (cm_server m) = p :: l → cs_logged_in (cm_server m) = true →
  p = enter_packet (cs_done (cm_server m)) ∧ (cs_done (cm_server m) < cc_i (cm_client m))%nat
  ∧ l ++ ps = drop (S (S (cs_done (cm_server m)))) (cmp_sent (cm_client m)).
Proof.
  intros Hl Ht Hlog. pose proof (lk_sent _ _ _ Hl) as Hsent. rewrite Ht in Hsent. unfold cmp_handled in Hsent. rewrite Hlog in Hsent. cbn [app] in Hsent.
  set (k := cs_done (cm_server m)) in *. set (snt := cmp_sent (cm_client m)) in *.
  assert (snt !! S k = Some p) as Hp by (rewrite <- (Nat.add_0_r (S k)), <- lookup_drop, <- Hsent; done).
  assert (l ++ ps = drop (S (S k)) snt) as Hrest by (rewrite (drop_S _ _ _ Hp) in Hsent; by injection Hsent).
  assert (snt = login0 :: (enter_packet <$> seq 0 (cc_i (cm_client m))) ∨ (length snt <= 1)%nat) as [E|E] by (subst snt; unfold cmp_sent; case_match; cbn; auto).
  - rewrite E in Hp. cbn in Hp. apply list_lookup_fmap_Some in Hp as (i & -> & [-> Hi]%lookup_seq). done.
  - apply lookup_lt_Some in Hp. lia.
Qed.

#[local] Ltac less_work :=
  unfold cmp_work, server_work, client_work, cmp_todo;
  cbn [cm_server cm_client cm_c2s cm_s2c cs_at cs_srv cs_acc cs_logged_in cs_done at_rank cc_at cc_i client_rank length app] in *; lia.

Lemma server_moves m s out :
  cmp_inv m → cmp_server_move now (server_scenario sc) orders fills (cm_server m) = Some (s, out) →
  let m' := mkCmp s (cm_client m) (cm_c2s m) (cm_s2c m ++ out) in cmp_inv m' ∧ (cmp_work m' < cmp_work m)%nat.
Proof.
  intros (Hs & Hc & ps & qs & Hl) Hm m'. destruct Hs as [Hfresh Hnext Hat]. unfold cmp_server_move in Hm.
  destruct m as [[at_ srv acc logged done] c c2s s2c]. cbn [cm_server cm_client cm_c2s cm_s2c cs_at cs_srv cs_acc cs_logged_in cs_done] in *.
  destruct at_ as [|[|p l]| | |[|p l]| |]; try done.
  - (* LoginTop *) destruct logged.
    + injection Hm as <- <-. subst m'. rewrite app_nil_r. destruct (Hat eq_refl) as [-> ->]. split; [split_and!; [split; cbn; auto|done|]|less_work].
      exists ps, qs. apply (link_moved _ _ _ _ _ Hl); [done|done|exact (lk_c2s _ _ _ Hl)|done].
    + apply (server_parses _ _ _ LoginRead LoginFor _ _ Hl) in Hm as (pk & ps' & rest & Hps & Hr & Hi & Hlen & -> & ->); [|done]. subst m'. cbn in Hr, Hlen. rewrite app_nil_r.
      split; [split_and!; [split; cbn; auto; by destruct pk|done|]|destruct pk; less_work].
      exists ps', qs. apply (link_moved _ _ _ _ _ Hl); cbn; try done. destruct pk; by subst.
  - (* LoginFor [] *) injection Hm as <- <-. subst m'. rewrite app_nil_r. split; [split_and!; [split; cbn; auto; intros E; by destruct (Hat E) as (? & ? & _)|done|]|less_work].
    exists ps, qs. apply (link_moved _ _ _ _ _ Hl); [done|done|exact (lk_c2s _ _ _ Hl)|done].
  - (* LoginFor *) destruct logged; [by destruct (Hat eq_refl) as (_ & _ & ?)|]. destruct (Hfresh eq_refl) as [-> ->].
    destruct (next_is_login _ _ _ p l Hl) as (-> & -> & -> & Hw); [done..|by split|done|]. cbn [cm_client] in Hw.
    unfold cmp_login_one in Hm. change (is_login_request login0) with true in Hm. cbv iota in Hm. cbn [cs_srv cs_acc cs_done] in Hm.
    destruct (enqueue_all_window SOUP_SESSION CMP_STORE srv0 [] Hsrv0 ltac:(cbn; lia)) as [Hw0 _].
    destruct (bench_login CMP_STORE [] srv0 0 Hw0 ltac:(cbn; lia) ltac:(cbn; lia)) as [_ Hh]. unfold login0 in Hm. change (soup_granted CMP_STORE (length []) 0) with 1 in Hh. rewrite Hh in Hm. rewrite drop_nil in Hm.
    injection Hm as <- <-. subst m'. pose proof (lk_c2s _ _ _ Hl) as Hb. cbn in Hb. apply app_eq_nil in Hb as [-> ->].
    pose proof (lk_written _ _ _ Hl) as Hwr. cbn in Hwr. apply app_eq_nil in Hwr as [Hg ->]. pose proof (lk_s2c _ _ _ Hl) as Hb. cbn [cm_client cm_s2c] in Hb.
    split; [split_and!; [by split|done|]|].
    + exists [], [login_accepted SOUP_SESSION 1]. split; cbn [cm_server cm_client cm_c2s cm_s2c cs_logged_in cs_done cs_acc]; [by rewrite Hw|lia|done|..].
      * unfold cmp_handled, cmp_sent. by rewrite Hw.
      * by rewrite app_assoc, Hb.
      * unfold cmp_got. by rewrite Hw.
    + unfold cmp_work. cbn [cm_server cm_client cm_c2s cm_s2c]. rewrite length_app, length_login_bytes. unfold server_work, cmp_todo. cbn [cs_at cs_acc cs_logged_in cs_done at_rank length outbound]. lia.
  - (* OrdersTop *) destruct (Nat.ltb_spec done orders) as [Hlt|Hge].
    + apply (server_parses _ _ _ OrdersRead OrdersFor _ _ Hl) in Hm as (pk & ps' & rest & Hps & Hr & Hi & Hlen & -> & ->); [|done]. subst m'. cbn in Hr, Hlen. rewrite app_nil_r.
      split; [split_and!; [split; cbn; auto; by destruct pk|done|]|destruct pk; less_work].
      exists ps', qs. apply (link_moved _ _ _ _ _ Hl); cbn; try done. destruct pk; by subst.
    + injection Hm as <- <-. subst m'. rewrite app_nil_r. pose proof (lk_done _ _ _ Hl) as Hd. cbn in Hd. pose proof (li_i _ Hc).
      split; [split_and!; [split; cbn; auto; split; [done|lia]|done|]|less_work].
      exists ps, qs. apply (link_moved _ _ _ _ _ Hl); [done|done|exact (lk_c2s _ _ _ Hl)|done].
  - (* OrdersFor [] *) injection Hm as <- <-. subst m'. rewrite app_nil_r. split; [split_and!; [by split|done|]|less_work].
    exists ps, qs. apply (link_moved _ _ _ _ _ Hl); [done|done|exact (lk_c2s _ _ _ Hl)|done].
  - (* OrdersFor *) subst logged. destruct (next_is_order _ _ _ p l Hl) as (Hp & Hd & Hrest); [done..|]. cbn [cm_server cm_client cs_done] in Hp, Hd, Hrest. subst p.
    pose proof (li_i _ Hc) as Hi. assert (S done * fills <= orders * fills)%nat by (apply Nat.mul_le_mono_r; lia).
    destruct (cmp_order_answered now sc (mkCmpServer (OrdersFor (enter_packet done :: l)) srv acc true done) done l) as (srv' & Ho & Hn'); [done|lia|lia|done|].
    rewrite Ho in Hm. injection Hm as <- <-. subst m'. split; [split_and!; [by split|done|]|].
    + exists ps, (qs ++ cmp_answers done). destruct Hl as [H1 H2 H3 H4 H5 H6]. cbn [cm_server cm_client cm_c2s cm_s2c cs_logged_in cs_done cs_acc] in *.
      split; cbn [cm_server cm_client cm_c2s cm_s2c cs_logged_in cs_done cs_acc]; [by intros E%H1|lia|done|exact Hrest|by rewrite app_assoc, H5, packets_bytes_app|].
      rewrite app_assoc, H6. unfold SoupCmpProps.cmp_written. cbn [cs_logged_in cs_done app]. by rewrite all_answers_S.
    + unfold cmp_work, server_work, cmp_todo. cbn [cm_server cm_client cm_c2s cm_s2c cs_at cs_acc cs_logged_in cs_done at_rank length]. rewrite length_app.
      pose proof (length_answer_bytes done) as Hb. replace (orders - done)%nat with (S (orders - S done)) by lia. rewrite Nat.mul_succ_r. cbn [cs_acc]. lia.
Qed.

Lemma server_reads m s chunk rest :
  cmp_inv m → chunk ≠ [] → cm_c2s m = chunk ++ rest → cmp_server_read (cm_server m) chunk = Some s →
  let m' := mkCmp s (cm_client m) rest (cm_s2c m) in cmp_inv m' ∧ (cmp_work m' < cmp_work m)%nat.
Proof.
  intros (Hs & Hc & ps & qs & Hl) Hne Hcut Hr m'. destruct Hs as [Hfresh Hnext Hat]. destruct m as [[at_ srv acc logged done] c c2s s2c].
  cbn [cm_server cm_client cm_c2s cm_s2c cs_at cs_srv cs_acc cs_logged_in cs_done] in *. subst c2s.
  assert (0 < length chunk)%nat by (destruct chunk; cbn; [done|lia]). destruct Hl as [H1 H2 H3 H4 H5 H6]. cbn [cm_server cm_client cm_c2s cm_s2c cs_acc] in *.
  unfold cmp_server_read in Hr. cbn [cs_at cs_srv cs_acc cs_logged_in cs_done] in Hr. destruct at_; try done; (destruct chunk as [|b chunk]; [done|]); injection Hr as <-; subst m'.
  1: destruct Hat as [Hlog Hi]. 2: destruct Hat as (Hlog & Hlt & Hi).
  all: (split; [split_and!; [split; cbn; auto; try done; congruence|done|]|unfold cmp_work, server_work, cmp_todo; cbn [cm_server cm_client cm_c2s cm_s2c cs_at cs_acc cs_logged_in cs_done at_rank]; rewrite !length_app; cbn [length] in *; lia]);
    exists ps, qs; split; cbn [cm_server cm_client cm_c2s cm_s2c cs_acc]; try done; by rewrite <- app_assoc.
Qed.

(** The client is never over while the server waits for something. *)
Lemma server_no_eof m s : cmp_inv m → cm_c2s m = [] → client_over (cm_client m) = true → cmp_server_read (cm_server m) [] = Some s → False.
Proof.
  intros (Hs & Hc & ps & qs & Hl) He Ho Hr. destruct (link_fit _ _ _ Hl) as [Hf _]. pose proof (li_at _ Hc) as Hca. unfold client_over in Ho.
  destruct (cc_at (cm_client m)) eqn:Ea; try done. destruct Hca as (Hi & _). pose proof (si_at _ Hs) as Hat. unfold cmp_server_read in Hr.
  pose proof (lk_written _ _ _ Hl) as Hw. unfold cmp_got, SoupCmpProps.cmp_written in Hw. rewrite Ea in Hw.
  destruct (cs_at (cm_server m)) eqn:Es; try done; [destruct Hat as [Hlog _]; by rewrite Hlog in Hw|]. destruct Hat as (Hlog & Hlt & Hinc).
  destruct (incomplete_waits ps _ _ Hf (lk_c2s _ _ _ Hl) Hinc He) as [-> _]. pose proof (lk_sent _ _ _ Hl) as Hsent. unfold cmp_todo, cmp_handled, cmp_sent in Hsent.
  rewrite Es, Hlog, Ea, Hi in Hsent. apply (f_equal length) in Hsent. rewrite length_drop in Hsent. cbn in Hsent. rewrite length_fmap, length_seq in Hsent. lia.
Qed.

(** All that was written has been read: nothing more is awaited. *)
Lemma client_no_eof m c now_ns : cmp_inv m → cm_s2c m = [] → server_over (cm_server m) = true → cmp_client_read now_ns (cm_client m) [] = Some c → False.
Proof.
  intros (Hs & Hc & ps & qs & Hl) He Ho Hr. destruct (link_fit _ _ _ Hl) as [_ Hf]. pose proof (si_at _ Hs) as Hat. unfold server_over in Ho.
  destruct (cs_at (cm_server m)) eqn:Es; try done. destruct Hat as [Hlog Hd].
  destruct (incomplete_waits qs _ _ Hf (lk_s2c _ _ _ Hl) (li_acc _ Hc) He) as [-> _]. pose proof (lk_written _ _ _ Hl) as Hw. unfold SoupCmpProps.cmp_written in Hw. rewrite Hlog, app_nil_r, Hd in Hw.
  unfold cmp_client_read in Hr. destruct (drain _). pose proof (li_at _ Hc) as Hca. pose proof (li_i _ Hc). unfold cmp_got in Hw. destruct (cc_at (cm_client m)) as [| | |b need| |] eqn:Ea; try done.
  injection Hw as Hw. apply (f_equal length) in Hw. rewrite length_all_answers, <- (li_seen _ Hc) in Hw. destruct Hca as (_ & -> & _). destruct (Nat.ltb_spec (cc_seen (cm_client m)) (cc_i (cm_client m) * fills)); [|done]. nia.
Qed.

Lemma length_login0 : length (to_bytes login0) = 49%nat.
Proof.
  rewrite length_to_bytes. unfold login0, login_request, pad_number_right. cbn [payload]. by rewrite !length_app, !length_pad_left, !length_pad_right.
Qed.

Lemma length_enter_bytes a b : length (packets_bytes (enter_packet <$> seq a b)) = (52 * b)%nat.
Proof.
  revert a; induction b as [|b IH]; intros a; [done|]. cbn [seq]. unfold packets_bytes in *. cbn [fmap list_fmap concat] in *.
  rewrite length_app, length_to_bytes, IH. change (payload (enter_packet a)) with (ouch_enter (Z.of_nat a)). rewrite length_ouch_enter. lia.
Qed.

(** Past the login, the server has let the client in. *)
Lemma link_logged m ps qs : cmp_link m ps qs → cmp_got (cm_client m) ≠ [] → cs_logged_in (cm_server m) = true.
Proof.
  intros Hl Hg. pose proof (lk_written _ _ _ Hl) as Hw. unfold SoupCmpProps.cmp_written in Hw. destruct (cs_logged_in _); [done|]. by apply app_eq_nil in Hw as [? _].
Qed.

(** The client has counted no more than the server has answered. *)
Lemma link_seen m ps qs :
  cmp_link m ps qs → cli_inv (cm_client m) → cmp_got (cm_client m) = login_accepted SOUP_SESSION 1 :: cc_log (cm_client m) →
  cc_log (cm_client m) ++ qs = all_answers (cs_done (cm_server m)) ∧ (cc_seen (cm_client m) <= cc_i (cm_client m) * fills)%nat.
Proof.
  intros Hl Hc Hg. pose proof (link_logged _ _ _ Hl) as Hlog. rewrite Hg in Hlog. specialize (Hlog ltac:(done)). pose proof (lk_written _ _ _ Hl) as Hw.
  unfold SoupCmpProps.cmp_written in Hw. rewrite Hlog, Hg in Hw. injection Hw as Hw. split; [done|]. apply (f_equal length) in Hw. rewrite length_app, length_all_answers in Hw.
  rewrite (li_seen _ Hc). pose proof (lk_done _ _ _ Hl). nia.
Qed.

Lemma client_moves m c out :
  cmp_inv m → cmp_client_move sc orders (cm_client m) = Some (c, out) →
  let m' := mkCmp (cm_server m) c (cm_c2s m ++ out) (cm_s2c m) in cmp_inv m' ∧ (cmp_work m' < cmp_work m)%nat.
Proof.
  intros (Hs & Hc & ps & qs & Hl) Hm m'. pose proof (link_seen _ _ _ Hl Hc) as Hseen. pose proof (link_logged _ _ _ Hl) as Hlogged. pose proof Hc as Hc0. destruct Hc as [Hacc Hsn Hi Hat Hcl]. unfold cmp_client_move in Hm.
  assert ((scenario_batch sc).2 = fills) as Hbf by (destruct sc; done). rewrite (surjective_pairing (scenario_batch sc)), Hbf in Hm. clear Hbf.
  destruct m as [s [at_ cl acc i seen rtts log] c2s s2c]. cbn [cm_server cm_client cm_c2s cm_s2c cc_at cc_client cc_acc cc_i cc_seen cc_rtts cc_log] in *.
  destruct at_ as [| | |b need| |]; try done.
  - injection Hm as <- <-. subst m'. destruct Hat as (-> & -> & -> & ->). destruct Hl as [H1 H2 H3 H4 H5 H6]. cbn [cm_server cm_client cm_c2s cm_s2c cc_acc cc_i cc_at] in *.
    specialize (H1 eq_refl). change (cmp_sent _) with (@nil Packet) in H4. rewrite drop_nil in H4. apply app_eq_nil in H4 as [Ht ->].
    split; [split_and!; [done|by split|]|].
    + exists [login0], qs. split; cbn [cm_server cm_client cm_c2s cm_s2c cc_acc cc_i cc_at]; [done|done| |unfold cmp_handled; by rewrite Ht, H1|done|done].
      rewrite app_assoc, H3. unfold packets_bytes. cbn [fmap list_fmap concat app]. by rewrite app_nil_r.
    + unfold cmp_work. cbn [cm_server cm_client cm_c2s cm_s2c]. rewrite length_app. pose proof length_login0. fold login0. less_work.
  - destruct Hat as (Hsf & Hir & Hlast). destruct (Nat.ltb_spec i orders) as [Hlt|Hge].
    + set (b := Nat.min batch (orders - i)) in *. injection Hm as <- <-. subst m'. assert (1 <= b <= orders - i)%nat as Hb by lia.
      split; [split_and!; [done|split; cbn [cm_client cc_acc cc_seen cc_log cc_i cc_at cc_client cc_rtts]; try done; [lia|]|]|].
      * split_and!; [lia|lia|lia|lia].
      * exists (ps ++ (enter_packet <$> seq i b)), qs. specialize (Hlogged ltac:(done)). destruct Hl as [H1 H2 H3 H4 H5 H6]. cbn [cm_server cm_client cm_c2s cm_s2c cc_acc cc_i cc_at] in *.
        split; cbn [cm_server cm_client cm_c2s cm_s2c cc_acc cc_i cc_at]; [done|lia|by rewrite app_assoc, H3, packets_bytes_app| |done|done].
        rewrite app_assoc, H4. unfold cmp_sent, cmp_handled. cbn [cc_at cc_i]. rewrite Hlogged. cbn [drop]. rewrite seq_app, fmap_app.
        rewrite drop_app_le; [done|]. rewrite length_fmap, length_seq. lia.
      * unfold cmp_work. cbn [cm_server cm_client cm_c2s cm_s2c]. rewrite length_app, length_enter_bytes. less_work.
    + injection Hm as <- <-. subst m'. assert (i = orders) as -> by lia. rewrite app_nil_r.
      split; [split_and!; [done|split; cbn [cm_client cc_acc cc_seen cc_log cc_i cc_at cc_client cc_rtts]; done|exists ps, qs; destruct Hl; by split]|less_work].
  - destruct Hat as (Hb & -> & Hir & Hlt). destruct (Nat.ltb_spec seen (i * fills)) as [|Hge]; [done|]. destruct b as [|b]; [lia|]. injection Hm as <- <-. subst m'. rewrite app_nil_r.
    destruct (Hseen eq_refl) as [_ Hle]. cbn in Hle.
    split; [split_and!; [done|split; cbn [cm_client cc_acc cc_seen cc_log cc_i cc_at cc_client cc_rtts]; try done|exists ps, qs; destruct Hl; by split]|less_work].
    split_and!; [lia|done|]. right. cbn [pred]. lia.
Qed.

Lemma cmp_expected_bound k : 1 <= cmp_expected k <= 1 + Z.of_nat k.
Proof. unfold cmp_expected. clear. destruct sc; lia. Qed.

Lemma client_reads m c now_ns chunk rest :
  cmp_inv m → chunk ≠ [] → cm_s2c m = chunk ++ rest → cmp_client_read now_ns (cm_client m) chunk = Some c →
  let m' := mkCmp (cm_server m) c (cm_c2s m) rest in cmp_inv m' ∧ (cmp_work m' < cmp_work m)%nat.
Proof.
  intros (Hs & Hc & ps & qs & Hl) Hne Hcut Hr m'. pose proof (link_seen _ _ _ Hl Hc) as Hseen. destruct (link_fit _ _ _ Hl) as [_ Hf]. destruct Hc as [Hacc Hsn Hi Hat Hcl].
  destruct Hl as [H1 H2 H3 H4 H5 H6]. destruct m as [s [at_ cl acc i seen rtts log] c2s s2c].
  cbn [cm_server cm_client cm_c2s cm_s2c cc_at cc_client cc_acc cc_i cc_seen cc_rtts cc_log] in *. subst s2c. rewrite app_assoc in H5.
  assert (0 < length chunk)%nat as Hch by (destruct chunk; cbn; [done|lia]).
  destruct (drained _ _ _ Hf H5) as (pk & qs' & acc' & Hd & -> & Hr' & Hinc & _). unfold cmp_client_read in Hr. cbn [cc_at cc_client cc_acc cc_i cc_seen cc_rtts cc_log] in Hr. rewrite Hd in Hr.
  assert (∀ k at', (k <= client_rank at_)%nat → client_rank at' = k → at_ ≠ Connect →
    cmp_work (mkCmp s (mkCmpClient at' (cc_client c) acc' i (cc_seen c) rtts (cc_log c)) c2s rest) < cmp_work (mkCmp s (mkCmpClient at_ cl acc i seen rtts log) c2s (chunk ++ rest)))%nat as Hw.
  { intros k at' Hk <- Hat_. unfold cmp_work. cbn [cm_server cm_client cm_c2s cm_s2c]. rewrite length_app. unfold client_work. cbn [cc_i cc_at]. destruct at_, at'; cbn [client_rank] in *; done || lia. }
  destruct at_ as [| | |b need| |]; try done.
  - destruct Hat as (-> & -> & ->). cbn [cmp_got cc_at app] in H6. assert (pk ++ qs' = [] ∨ pk ++ qs' = [login_accepted SOUP_SESSION 1]) as Hone.
    { rewrite H6. unfold SoupCmpProps.cmp_written. destruct (cs_logged_in s); [|by left]. right. by replace (cs_done s) with 0%nat by lia. }
    destruct pk as [|p pk].
    + cbn in Hr. injection Hr as <-. subst m'. split; [|by eapply Hw]. split_and!; [done|by split|]. exists ps, qs'. by split.
    + destruct Hone as [|Hone]; [done|]. injection Hone as -> Hone. apply app_eq_nil in Hone as [-> ->]. cbn [cmp_login_packets] in Hr.
      change (packet_type (login_accepted SOUP_SESSION 1) =? LOGIN_ACCEPTED) with true in Hr. cbv iota in Hr. rewrite client_takes_login in Hr by (unfold in_u64; lia). injection Hr as <-. subst m'.
      split; [|eapply (Hw 2%nat BatchTop); cbn; done || lia]. split_and!; [done| |exists ps, []; by split].
      split; cbn [cm_client cc_acc cc_seen cc_log cc_i cc_at cc_client cc_rtts]; try done; [split_and!; [done|lia|by left]|]. split; [done|]. unfold cmp_expected. by destruct sc.
  - destruct Hat as (Hb & -> & Hir & Hlt). destruct (Nat.ltb_spec seen (i * fills)); [|done]. destruct chunk as [|x chunk]; [done|]. destruct (Hseen eq_refl) as [Hlog Hle]. cbn [cc_log] in Hlog.
    destruct Hcl as [Hin Hexp]. assert (length log + length pk + length qs' = cs_done s * fills)%nat as Hlen by (rewrite <- (length_all_answers now sc (cs_done s)), <- Hlog, !length_app; lia).
    assert (Forall (reply sc) pk) as Hrep by (pose proof (all_answers_reply now sc (cs_done s)) as Ha; rewrite <- Hlog in Ha; by apply Forall_app in Ha as [_ [Ha _]%Forall_app]).
    assert (cs_done s * fills <= orders * fills)%nat as Hmax by (apply Nat.mul_le_mono_r; lia).
    destruct (cmp_reports_taken sc now_ns pk cl Hrep Hin) as (cl' & Ht & Hin' & Hexp'); [pose proof (cmp_expected_bound (length log)); lia..|].
    rewrite Ht in Hr. injection Hr as <-. subst m'. split; [|by eapply Hw]. split_and!; [done| |].
    + split; cbn [cm_client cc_acc cc_seen cc_log cc_i cc_at cc_client cc_rtts]; try done; [by rewrite length_app, Hsn|]. split; [done|]. rewrite Hexp', Hexp, length_app. unfold cmp_expected. case_match; lia.
    + exists ps, qs'. split; try done. cbn [cm_server cm_client cmp_got cc_at cc_log] in *. rewrite <- H6. unfold cmp_got. cbn [cc_at cc_log app]. by rewrite <- app_assoc.
Qed.

Lemma cmp_step_inv m m' : cmp_inv m → cmp_step now sc orders m m' → cmp_inv m' ∧ (cmp_work m' < cmp_work m)%nat.
Proof.
  intros Hinv Hst. revert Hinv. destruct Hst as [m0 s out H|m0 s chunk rest Hp Hc H|m0 s Hc Ho H|m0 c out H|m0 c ns chunk rest Hp Hc H|m0 c ns Hc Ho H]; intros Hinv.
  - exact (server_moves _ _ _ Hinv H).
  - destruct Hp. by eapply server_reads.
  - by destruct (server_no_eof m0 s).
  - exact (client_moves _ _ _ Hinv H).
  - destruct Hp. by eapply client_reads.
  - by destruct (client_no_eof m0 c ns).
Qed.

Lemma cmp_start_inv : cmp_inv (cmp_start srv0).
Proof.
  destruct (enqueue_all_window SOUP_SESSION CMP_STORE srv0 [] Hsrv0 ltac:(cbn; lia)) as [Hw0 _]. pose proof (sw_next _ _ _ _ Hw0) as Hn.
  split_and!; [split; cbn; try done; by rewrite Hn|by split; cbn; try done; lia|]. exists [], []. by split.
Qed.

Lemma server_waits s : cmp_server_move now (server_scenario sc) orders fills s = None → cs_at s = LoginRead ∨ cs_at s = OrdersRead ∨ cs_at s = Dropped.
Proof.
  unfold cmp_server_move. destruct (cs_at s) as [|[|p l]| | |[|p l]| |]; auto; repeat case_match; done.
Qed.

Lemma client_waits c :
  cmp_client_move sc orders c = None →
  cc_at c = LoginWait ∨ (∃ b need, cc_at c = Reading b need ∧ (cc_seen c < need)%nat) ∨ client_over c = true.
Proof.
  unfold cmp_client_move, client_over. destruct (scenario_batch sc). destruct (cc_at c) as [| | |b need| |]; intros H; [done|by left|by case_match| |by right; right..].
  destruct (Nat.ltb_spec (cc_seen c) need); [|done]. right. left. eauto.
Qed.

(** A client that waits, at a server that has answered everything sent, has something to read. *)
Lemma answer_under_way m ps qs :
  cmp_link m ps qs → cli_inv (cm_client m) → cs_logged_in (cm_server m) = true → (cc_i (cm_client m) <= cs_done (cm_server m))%nat →
  cc_at (cm_client m) = LoginWait ∨ (∃ b need, cc_at (cm_client m) = Reading b need ∧ (cc_seen (cm_client m) < need)%nat) → ∃ m', cmp_step now sc orders m m'.
Proof.
  intros Hl Hc Hlog Hd Hw. destruct (link_fit _ _ _ Hl) as [_ Hf]. assert (cm_s2c m ≠ []) as Hne.
  { intros He. destruct (incomplete_waits qs _ _ Hf (lk_s2c _ _ _ Hl) (li_acc _ Hc) He) as [-> _]. pose proof (lk_written _ _ _ Hl) as Hwr. rewrite app_nil_r in Hwr.
    unfold SoupCmpProps.cmp_written, cmp_got in Hwr. rewrite Hlog in Hwr. pose proof (li_at _ Hc) as Hat. destruct Hw as [Hw|(b & need & Hw & Hlt)]; rewrite Hw in Hwr, Hat; [done|].
    injection Hwr as Hwr. apply (f_equal length) in Hwr. rewrite length_all_answers, <- (li_seen _ Hc) in Hwr. destruct Hat as (_ & -> & _). nia. }
  destruct (cm_s2c m) as [|x rest] eqn:E; [done|]. assert (is_Some (cmp_client_read 0 (cm_client m) [x])) as [c Hr].
  { unfold cmp_client_read. destruct (drain _). destruct Hw as [->|(b & need & -> & Hlt)]; [by repeat case_match|]. rewrite (proj2 (Nat.ltb_lt _ _) Hlt). by repeat case_match. }
  eexists. by apply (ClientReads _ _ _ m c 0 [x] rest).
Qed.

(** Until both threads are over, one of them can move. *)
Lemma cmp_progress m : cmp_inv m → (client_over (cm_client m) = true ∧ server_over (cm_server m) = true) ∨ ∃ m', cmp_step now sc orders m m'.
Proof.
  intros (Hs & Hc & ps & qs & Hl). destruct (cmp_client_move sc orders (cm_client m)) as [[c out]|] eqn:Ec; [right; eexists; by apply (ClientMoves _ _ _ m c out)|].
  destruct (cmp_server_move now (server_scenario sc) orders fills (cm_server m)) as [[s out]|] eqn:Es; [right; eexists; by apply (ServerMoves _ _ _ m s out)|].
  apply client_waits in Ec. apply server_waits in Es. pose proof (li_i _ Hc) as Hi. pose proof (si_at _ Hs) as Hat. destruct (link_fit _ _ _ Hl) as [Hf _].
  assert (cs_at (cm_server m) = Dropped ∨ (∃ m', cmp_step now sc orders m m') ∨ (cm_c2s m = [] ∧ incomplete (cs_acc (cm_server m)) ∧ cmp_todo (cm_server m) = [] ∧ cs_at (cm_server m) ≠ Dropped)) as [Hdr|[|(He & Hinc & Ht & Hnd)]]; [|..|by right|].
  { destruct Es as [E|[E|E]]; [right..|by left]; (destruct (cm_c2s m) as [|x rest] eqn:Ecs; [right|left]).
    1, 3: unfold cmp_todo; rewrite E in *; split_and!; try done; apply Hat.
    all: assert (is_Some (cmp_server_read (cm_server m) [x])) as [s Hr] by (unfold cmp_server_read; by rewrite E); eexists; by apply (ServerReads _ _ _ m s [x] rest). }
  - rewrite Hdr in Hat. destruct Hat as [Hlog Hd]. destruct Ec as [Ec|[Ec|Ec]]; [right; eapply answer_under_way; eauto; lia..|]. left. split; [done|]. unfold server_over. by rewrite Hdr.
  - right. destruct (incomplete_waits ps _ _ Hf (lk_c2s _ _ _ Hl) Hinc He) as [-> _]. pose proof (lk_sent _ _ _ Hl) as Hsent. rewrite Ht in Hsent. symmetry in Hsent. apply (f_equal length) in Hsent.
    rewrite length_drop in Hsent. unfold cmp_handled, cmp_sent in Hsent. destruct Es as [E|[E|E]]; [..|done]; rewrite E in Hat.
    + destruct Hat as [Hlog _]. rewrite Hlog in Hsent. destruct Ec as [Ec|[(b & need & Ec & _)|Ec]]; [rewrite Ec in Hsent; cbn in Hsent; lia..|]. unfold client_over in Ec. destruct (cc_at (cm_client m)); cbn in *; done || lia.
    + destruct Hat as (Hlog & Hlt & _). rewrite Hlog in Hsent. destruct Ec as [Ec|[(b & need & Ec & Hsn)|Ec]].
      * eapply answer_under_way; eauto. pose proof (li_at _ Hc) as Hca. rewrite Ec in Hca. destruct Hca as (-> & _). lia.
      * eapply answer_under_way; eauto 10. rewrite Ec in Hsent. cbn in Hsent. rewrite length_fmap, length_seq in Hsent. lia.
      * pose proof (li_at _ Hc) as Hca. unfold client_over in Ec. destruct (cc_at (cm_client m)); try done. destruct Hca as (Hio & _). cbn in Hsent. rewrite length_fmap, length_seq in Hsent. lia.
Qed.

Lemma cmp_reachable_inv m : cmp_reachable now sc orders m → cmp_inv m.
Proof.
  induction 1 as [srv H|m m' _ IH Hst]; [|by apply (cmp_step_inv m m')]. assert (srv = srv0) as -> by congruence. apply cmp_start_inv.
Qed.

(** The client has returned: it has counted every answer. *)
Lemma cmp_returned m :
  cmp_inv m → client_over (cm_client m) = true →
  cc_at (cm_client m) = Returned ∧ cc_log (cm_client m) = all_answers orders ∧ cl_expected_seq (cc_client (cm_client m)) = cmp_expected (orders * fills)
  ∧ cc_rtts (cm_client m) = ((orders + batch - 1) / batch)%nat.
Proof.
  intros (Hs & Hc & ps & qs & Hl) Ho. destruct Hc as [Hacc Hsn Hi Hat Hcl] eqn:Ehc. clear Ehc. unfold client_over in Ho. destruct (cc_at (cm_client m)) eqn:Ea; try done. destruct Hat as (Hio & Hseen & Hr & Hlast).
  destruct (link_seen _ _ _ Hl Hc) as [Hlog _]; [unfold cmp_got; by rewrite Ea|]. pose proof (f_equal length Hlog) as Hlen. rewrite length_app, length_all_answers, <- Hsn, Hseen in Hlen.
  pose proof (lk_done _ _ _ Hl) as Hd. rewrite Hio in Hd. assert (cs_done (cm_server m) * fills <= orders * fills)%nat by (by apply Nat.mul_le_mono_r).
  assert (qs = []) as -> by (apply length_zero_iff_nil; lia). rewrite app_nil_r in Hlog. destruct Hcl as [_ Hexp]. split_and!; [done| | |].
  - rewrite Hlog. destruct (decide (fills = 0%nat)) as [E|].
    + assert (∀ k, all_answers k = []) as Hz by (intros k; apply length_zero_iff_nil; rewrite length_all_answers, E; lia). by rewrite !Hz.
    + f_equal. nia.
  - by rewrite Hexp, <- Hsn, Hseen.
  - apply (Nat.div_unique _ _ _ (orders + batch - 1 - batch * cc_rtts (cm_client m))); [|destruct Hlast as [E|Hlast]; [rewrite E in *; lia|]]; [|].
    all: destruct (cc_rtts (cm_client m)) as [|r]; cbn [pred] in *; nia.
Qed.
End CmpRun.

(** ** Properties *)

Lemma bench_server : ∃ srv, soup_server_new SOUP_SESSION CMP_STORE = inr srv.
Proof. unfold soup_server_new. by eexists. Qed.

Section CmpTheorems.
Variables (now : Z → Z) (sc : Scenario) (orders : nat).
Hypothesis Horders : Z.of_nat orders < 10 ^ 10.
Hypothesis Hseqs : Z.of_nat (orders * scenario_fills sc) + 1 < 2 ^ 60.
Hypothesis Hbatch : (1 <= (scenario_batch sc).1)%nat.

(** Whatever the schedule and however the streams are cut, the client never fails and what it
    has counted is a prefix of the answers to its orders: in order, none twice, none left out.
    When it returns it has all of them, has timed every batch, and expects the next message. *)
Theorem soup_cmp_in_order m :
  cmp_reachable now sc orders m →
  cc_at (cm_client m) ≠ Failed ∧ cc_log (cm_client m) `prefix_of` all_answers now sc orders
  ∧ (cs_done (cm_server m) <= cc_i (cm_client m) <= orders)%nat
  ∧ (client_over (cm_client m) = true →
     cc_log (cm_client m) = all_answers now sc orders
     ∧ cl_expected_seq (cc_client (cm_client m)) = cmp_expected sc (orders * scenario_fills sc)
     ∧ cc_rtts (cm_client m) = ((orders + (scenario_batch sc).1 - 1) / (scenario_batch sc).1)%nat).
Proof.
  intros Hr. destruct bench_server as [srv0 Hsrv0]. pose proof (cmp_reachable_inv now sc orders srv0 Horders Hseqs Hbatch Hsrv0 m Hr) as Hinv. pose proof Hinv as (Hs & Hc & ps & qs & Hl).
  pose proof (lk_done _ _ _ _ _ Hl) as Hd. pose proof (li_i _ _ _ Hc) as Hi. split_and!; [|..|done|done|].
  - intros E. pose proof (li_at _ _ _ Hc) as Hat. by rewrite E in Hat.
  - pose proof (li_at _ _ _ Hc) as Hat. pose proof (link_seen now sc orders Hseqs Hbatch m ps qs Hl Hc) as Hseen. unfold cmp_got in Hseen.
    destruct (cc_at (cm_client m)); [destruct Hat as (_ & -> & _); apply prefix_nil..| | | |done];
      (destruct (Hseen eq_refl) as [Hlog _]; transitivity (all_answers now sc (cs_done (cm_server m))); [rewrite <- Hlog; by apply prefix_app_r|apply all_answers_prefix; lia]).
  - intros Ho. by destruct (cmp_returned now sc orders srv0 Horders Hseqs Hbatch m Hinv Ho) as (_ & ?).
Qed.

(** Every run ends: there is no endless schedule, and one side can move until both are over. *)
Theorem soup_cmp_ends m :
  cmp_reachable now sc orders m →
  Acc (λ m1 m0, cmp_step now sc orders m0 m1) m
  ∧ ∃ m', rtc (cmp_step now sc orders) m m' ∧ cc_at (cm_client m') = Returned ∧ cs_at (cm_server m') = Dropped.
Proof.
  intros Hr. destruct bench_server as [srv0 Hsrv0]. pose proof (cmp_reachable_inv now sc orders srv0 Horders Hseqs Hbatch Hsrv0 m Hr) as Hinv. clear Hr.
  remember (cmp_work sc orders m) as w eqn:Hw. revert m Hinv Hw. induction (lt_wf w) as [w _ IH]. intros m Hinv ->. split.
  - constructor. intros m' Hst. destruct (cmp_step_inv now sc orders srv0 Horders Hseqs Hbatch Hsrv0 m m' Hinv Hst) as [Hinv' Hlt]. by apply (IH _ Hlt).
  - destruct (cmp_progress now sc orders srv0 Hseqs Hbatch m Hinv) as [[Hc Hs]|[m1 Hst]].
    + exists m. split_and!; [done|by destruct (cmp_returned now sc orders srv0 Horders Hseqs Hbatch m Hinv Hc) as (? & _)|]. unfold server_over in Hs. by destruct (cs_at (cm_server m)).
    + destruct (cmp_step_inv now sc orders srv0 Horders Hseqs Hbatch Hsrv0 m m1 Hinv Hst) as [Hinv' Hlt]. destruct (IH _ Hlt m1 Hinv' eq_refl) as (_ & m' & Hsteps & Hend). exists m'. split; [by eapply rtc_l|done].
Qed.
End CmpTheorems.

(** A batch of no orders: the client writes nothing, waits for nothing and divides by zero. *)
Lemma soup_cmp_batch_zero orders c :
  cc_at c = BatchTop → (cc_i c < orders)%nat →
  ∃ c1 c2, cmp_client_move (Batch 0) orders c = Some (c1, []) ∧ cmp_client_move (Batch 0) orders c1 = Some (c2, []) ∧ cc_at c2 = Failed.
Proof.
  intros Ha Hi. unfold cmp_client_move. rewrite Ha. cbn [scenario_batch]. rewrite (proj2 (Nat.ltb_lt _ _) Hi). cbn [Nat.min seq fmap list_fmap]. do 2 eexists. split; [done|].
  cbn [cc_at cc_seen]. rewrite (proj2 (Nat.ltb_ge _ _)) by lia. done.
Qed.

(** No orders, no times: the summary panics after both threads are done. *)
Lemma soup_cmp_summary elapsed m : is_Some (cmp_summary elapsed m) ↔ cc_rtts (cm_client m) ≠ 0%nat.
Proof.
  unfold cmp_summary. split; [intros [p Hp] E; by rewrite E in Hp|]. intros Hne. apply percentiles_some. by destruct (cc_rtts _).
Qed.

(** Three reports for each of two orders. *)
Example soup_cmp_two now m :
  cmp_reachable now (Fills 3) 2 m → ∃ m', rtc (cmp_step now (Fills 3) 2) m m' ∧ length (cc_log (cm_client m')) = 6%nat ∧ cl_expected_seq (cc_client (cm_client m')) = 7.
Proof.
  intros Hr. destruct (soup_cmp_ends now (Fills 3) 2 ltac:(cbn; lia) ltac:(cbn; lia) ltac:(cbn; lia) m Hr) as (_ & m' & Hsteps & Hret & _). exists m'. split; [done|].
  assert (cmp_reachable now (Fills 3) 2 m') as Hr' by (clear Hret; induction Hsteps as [|x y z Hst _ IH]; [done|]; apply IH; by eapply CmpNext).
  destruct (soup_cmp_in_order now (Fills 3) 2 ltac:(cbn; lia) ltac:(cbn; lia) ltac:(cbn; lia) m' Hr') as (_ & _ & _ & Hover). destruct Hover as (-> & -> & _); [unfold client_over; by rewrite Hret|].
  by rewrite length_all_answers.
Qed.
