(* ===== verification/SoupMatrix.v ===== *)
(** * The matrix of faults of SoupBinTCP order entry

    Models [crates/match-dpdk-io/src/bin/soup_perf_matrix.rs]: the server on the connections it accepts one
    after the other, a client thread with its faults, the command line.  Each side is run against what its
    reads return, whatever that is; it keeps no time.  [None] stands for an error that ends the thread, for
    a panic and for a read that never returns.  The client's part of a run is also what it has written.

    A connection of the server, however its bytes are cut: the login is answered with the replay, every
    order with its reports, and both are counted ([matrix_connection]).  A client thread that returns has
    written every order it counts, but with a fault that drops the connection it has left out one
    whole batch ([matrix_orders_written]); with a fault that does not make it connect again the server
    waits for a connection that never comes ([matrix_hangs]). *)
From stdpp Require Import strings.
From S2P Require Import Prelude Protocol HpScale HpIndex Utf8 Soup SoupProps Ouch SoupBench SoupBenchProps SoupCmpProps.

#[local] Open Scope Z_scope.

Inductive Fault := NoFault | MidDrop | HeartbeatGap | TooOld | HalfOpen.

#[export] Instance fault_eq_dec : EqDecision Fault.
Proof. solve_decision. Defined.

(** What [read] returns: bytes, none at the end of the stream, or an error (a timeout). *)
Inductive ReadResult := RBytes (l : list Z) | RErr.

(** ** [server_main] *)

Record Matrix := mkMatrix { mx_srv : SoupServer; mx_total_reports : nat; mx_replay_count : nat }.

(** [for p in &pkts] of the login loop: the flag and what is written. *)
Fixpoint mx_login_for (s : Matrix) (logged_in : bool) (pkts : list Packet) : option (Matrix * bool * list Z) :=
  match pkts with
  | [] => Some (s, logged_in, [])
  | p :: pkts =>
      if is_login_request p then
        match handle_login (mx_srv s) (parse_login_request p) with
        | (_, inl _) => None
        | (srv, inr acts) =>
            let replays := length (List.filter is_sequenced (outbound acts)) in
            '(s, logged_in, out) ← mx_login_for (mkMatrix srv (mx_total_reports s) (mx_replay_count s + replays)) true pkts;
            Some (s, logged_in, packets_bytes (outbound acts) ++ out)
        end
      else mx_login_for s logged_in pkts
  end.

(** The login loop: the state, what is left of the buffer and of the reads, what was written.  Every
    second round reads. *)
Fixpoint mx_login (fuel : nat) (s : Matrix) (logged_in : bool) (acc : list Z) (reads : list ReadResult) :
    option (Matrix * list Z * list ReadResult * list Z) :=
  match fuel with
  | O => None
  | S fuel =>
      if logged_in then Some (s, acc, reads, [])
      else
        match drain acc with
        | ([], acc) =>
            match reads with
            | [] | RErr :: _ => None
            | RBytes [] :: reads => Some (s, acc, reads, [])
            | RBytes chunk :: reads => mx_login fuel s logged_in (acc ++ chunk) reads
            end
        | (pkts, acc) =>
            '(s, logged_in, out) ← mx_login_for s logged_in pkts;
            '(s, acc, reads, out') ← mx_login fuel s logged_in acc reads;
            Some (s, acc, reads, out ++ out')
        end
  end.

(** [for p in &pkts] of the order loop: also whether a logout ended it. *)
Fixpoint mx_orders_for (now : Z → Z) (fills : nat) (s : Matrix) (orders_done : nat) (pkts : list Packet) : option (Matrix * nat * bool * list Z) :=
  match pkts with
  | [] => Some (s, orders_done, false, [])
  | p :: pkts =>
      if packet_type p =? UNSEQUENCED_DATA then
        idx ← order_index (payload p);
        let '(srv, out) := fill_reports now idx (mx_srv s) (seq 0 fills) in
        '(s, orders_done, eof, out') ← mx_orders_for now fills (mkMatrix srv (mx_total_reports s + fills) (mx_replay_count s)) (S orders_done) pkts;
        Some (s, orders_done, eof, out ++ out')
      else if packet_type p =? LOGOUT_REQUEST then Some (s, orders_done, true, [])
      else mx_orders_for now fills s orders_done pkts
  end.

(** The order loop; an error of [read] ends it like the end of the stream. *)
Fixpoint mx_orders (fuel : nat) (now : Z → Z) (orders fills : nat) (s : Matrix) (orders_done : nat) (acc : list Z) (reads : list ReadResult) :
    option (Matrix * nat * list ReadResult * list Z) :=
  match fuel with
  | O => None
  | S fuel =>
      if (orders_done <? orders)%nat then
        match drain acc with
        | ([], acc) =>
            match reads with
            | [] => None
            | RErr :: reads | RBytes [] :: reads => Some (s, orders_done, reads, [])
            | RBytes chunk :: reads => mx_orders fuel now orders fills s orders_done (acc ++ chunk) reads
            end
        | (pkts, acc) =>
            '(s, orders_done, eof, out) ← mx_orders_for now fills s orders_done pkts;
            if (eof : bool) then Some (s, orders_done, reads, out)
            else
              '(s, orders_done, reads, out') ← mx_orders fuel now orders fills s orders_done acc reads;
              Some (s, orders_done, reads, out ++ out')
        end
      else Some (s, orders_done, reads, [])
  end.

(** A connection, with enough rounds for its reads: one to parse and one to read for each, and two more. *)
Definition mx_rounds (reads : list ReadResult) : nat := 2 * length reads + 3.

Definition mx_connection (now : Z → Z) (orders fills : nat) (s : Matrix) (reads : list ReadResult) : option (Matrix * nat * list Z) :=
  '(s, acc, reads, out) ← mx_login (mx_rounds reads) s false [] reads;
  '(s, orders_done, _, out') ← mx_orders (mx_rounds reads) now orders fills s 0 acc reads;
  Some (s, orders_done, out ++ out').

(** [for _ in 0..conns], one list of reads for each connection. *)
Fixpoint mx_server (now : Z → Z) (orders fills : nat) (s : Matrix) (conns : list (list ReadResult)) : option (Matrix * list (list Z)) :=
  match conns with
  | [] => Some (s, [])
  | reads :: conns =>
      '(s, _, out) ← mx_connection now orders fills s reads;
      '(s, outs) ← mx_server now orders fills s conns;
      Some (s, out :: outs)
  end.

(** ** A client thread of [client_scenario] *)

Record MxClient := mkMxClient {
  mc_client : SoupClient; mc_acc : list Z; mc_seen : nat; mc_i : nat; mc_dropped : bool;
  mc_logins : list Packet; mc_orders : list nat }.

(** The packets of the read after a login. *)
Fixpoint mc_relogin (now_ns : Z) (c : SoupClient) (seen : nat) (pkts : list Packet) : option (SoupClient * nat) :=
  match pkts with
  | [] => Some (c, seen)
  | p :: pkts =>
      let handled seen := match client_handle_packet c p now_ns with (c, inr _) => mc_relogin now_ns c seen pkts | (_, inl _) => None end in
      if packet_type p =? LOGIN_ACCEPTED then handled seen
      else if packet_type p =? SEQUENCED_DATA then handled (S seen)
      else mc_relogin now_ns c seen pkts
  end.

(** Connect again, log in, and handle what one read returns; what it does not contain whole is lost. *)
Definition mc_reconnect (now_ns : Z) (login : Packet) (c : MxClient) (reads : list ReadResult) : option (MxClient * list ReadResult) :=
  match reads with
  | [] | RErr :: _ => None
  | RBytes l :: reads =>
      let '(pkts, _, _) := parse_stream l in
      '(client, seen) ← mc_relogin now_ns (mc_client c) (mc_seen c) pkts;
      Some (mkMxClient client (mc_acc c) seen (mc_i c) (mc_dropped c) (mc_logins c ++ [login]) (mc_orders c), reads)
  end.

(** The first login: only its answer is handled. *)
Fixpoint mc_first (now_ns : Z) (c : SoupClient) (logged : bool) (pkts : list Packet) : option (SoupClient * bool) :=
  match pkts with
  | [] => Some (c, logged)
  | p :: pkts =>
      if packet_type p =? LOGIN_ACCEPTED then
        match client_handle_packet c p now_ns with (c, inr _) => mc_first now_ns c true pkts | (_, inl _) => None end
      else mc_first now_ns c logged pkts
  end.

Fixpoint mc_take (now_ns : Z) (c : SoupClient) (seen : nat) (pkts : list Packet) : option (SoupClient * nat) :=
  match pkts with
  | [] => Some (c, seen)
  | p :: pkts =>
      if packet_type p =? SEQUENCED_DATA then
        match client_handle_packet c p now_ns with (c, inr _) => mc_take now_ns c (S seen) pkts | (_, inl _) => None end
      else mc_take now_ns c seen pkts
  end.

(** [while reports_seen < need_reports]; each round reads at least once. *)
Fixpoint mc_reports (fuel : nat) (now_ns : Z) (need : nat) (c : MxClient) (reads : list ReadResult) : option (MxClient * list ReadResult) :=
  match fuel with
  | O => None
  | S fuel =>
      if (mc_seen c <? need)%nat then
        match reads with
        | [] | RErr :: _ => None
        | RBytes [] :: reads =>
            '(c, reads) ← mc_reconnect now_ns (client_login_request (mc_client c) SOUP_USER SOUP_PASS) c reads;
            mc_reports fuel now_ns need c reads
        | RBytes chunk :: reads =>
            let '(pkts, acc) := drain (mc_acc c ++ chunk) in
            '(client, seen) ← mc_take now_ns (mc_client c) (mc_seen c) pkts;
            mc_reports fuel now_ns need (mkMxClient client acc seen (mc_i c) (mc_dropped c) (mc_logins c) (mc_orders c)) reads
        end
      else Some (c, reads)
  end.

Definition drops (fault : Fault) : bool := bool_decide (fault = MidDrop) || bool_decide (fault = TooOld).

(** [while i < target]: the orders of a batch are numbered first; the connection may be dropped before they
    are written. *)
Fixpoint mc_loop (fuel : nat) (now_ns : Z) (fault : Fault) (fills batch target : nat) (c : MxClient) (reads : list ReadResult) : option (MxClient * list ReadResult) :=
  match fuel with
  | O => None
  | S fuel =>
      if (mc_i c <? target)%nat then
        let batch_n := Nat.min batch (target - mc_i c) in
        let w := seq (mc_i c) batch_n in
        let i := (mc_i c + batch_n)%nat in
        if drops fault && negb (mc_dropped c) && (target / 2 <=? i)%nat then
          let login :=
            if bool_decide (fault = TooOld) then login_request SOUP_USER SOUP_PASS SOUP_SESSION 1
            else client_login_request (mc_client c) SOUP_USER SOUP_PASS in
          '(c, reads) ← mc_reconnect now_ns login (mkMxClient (mc_client c) (mc_acc c) (mc_seen c) i true (mc_logins c) (mc_orders c)) reads;
          mc_loop fuel now_ns fault fills batch target c reads
        else
          let c := mkMxClient (mc_client c) (mc_acc c) (mc_seen c) i (mc_dropped c) (mc_logins c) (mc_orders c ++ w) in
          '(c, reads) ← mc_reports (S (length reads)) now_ns (mc_seen c + batch_n * fills) c reads;
          mc_loop fuel now_ns fault fills batch target c reads
      else Some (c, reads)
  end.

(** The thread from its connection to its end. *)
Definition mc_thread (fuel : nat) (now_ns : Z) (fault : Fault) (conns fills batch target : nat) (reads : list ReadResult) : option MxClient :=
  let client := soup_client_new SOUP_SESSION in
  let login :=
    if bool_decide (fault = NoFault) && (1 <? conns)%nat then login_request SOUP_USER SOUP_PASS SOUP_SESSION 0
    else client_login_request client SOUP_USER SOUP_PASS in
  match reads with
  | [] | RErr :: _ => None
  | RBytes l :: reads =>
      let '(pkts, _, _) := parse_stream l in
      '(client, logged) ← mc_first now_ns client false pkts;
      if negb logged then None
      else
        '(c, _) ← mc_loop fuel now_ns fault fills batch target (mkMxClient client [] 0 0 false [login] []) reads;
        Some c
  end.

(** ** [client_scenario] and [run] *)

(** [orders / conns] panics without connections; the threads' counts are added. *)
Definition mx_clients (fuel : nat) (now_ns : Z) (fault : Fault) (orders fills batch : nat) (reads : list (list ReadResult)) : option (nat * list MxClient) :=
  let conns := length reads in
  if (conns =? 0)%nat then None
  else
    cs ← mapM (mc_thread fuel now_ns fault conns fills batch (orders / conns)) reads;
    Some (sum_list (mc_i <$> cs), cs).

Record MxArgs := mkMxArgs { ma_orders : nat; ma_fills : nat; ma_batch : nat; ma_conns : nat; ma_fault : Fault; ma_hb_timeout_ms : Z }.

(** [str::parse::<usize>], 64 bits wide. *)
Definition usize_arg (args : list string) (k : nat) (dflt : nat) : nat :=
  default dflt (s ← args !! k; n ← parse_u64 (bytes_of s); Some (Z.to_nat n)).

Definition fault_of (name : option string) : Fault :=
  match name with
  | Some s =>
      if String.eqb s "mid-drop" then MidDrop
      else if String.eqb s "heartbeat-gap" then HeartbeatGap
      else if String.eqb s "too-old" then TooOld
      else if String.eqb s "half-open" then HalfOpen
      else NoFault
  | None => NoFault
  end.

Definition mx_args (args : list string) : MxArgs :=
  mkMxArgs (usize_arg args 0 (Z.to_nat 10000)) (usize_arg args 1 1) (usize_arg args 2 1) (usize_arg args 3 1) (fault_of (args !! 4%nat))
    (default 0 (s ← args !! 5%nat; parse_u64 (bytes_of s))).

(** The connections the server accepts. *)
Definition expect_conns (a : MxArgs) : nat := (ma_conns a + if bool_decide (ma_fault a = NoFault) then 0 else 1)%nat.

#[local] Arguments to_bytes : simpl never.
#[local] Arguments parse_login_request : simpl never.
#[local] Arguments login_request : simpl never.
#[local] Arguments login_accepted : simpl never.
#[local] Arguments SOUP_SESSION : simpl never.
#[local] Arguments enter_packet : simpl never.
#[local] Arguments Nat.mul : simpl never.
#[local] Arguments drain : simpl never.

(** ** The client *)

(** Reading changes neither the orders counted nor those written. *)
Definition same_orders (c c' : MxClient) : Prop := mc_i c' = mc_i c ∧ mc_dropped c' = mc_dropped c ∧ mc_orders c' = mc_orders c.

Lemma mc_reconnect_orders now_ns login c reads c' reads' :
  mc_reconnect now_ns login c reads = Some (c', reads') →
  same_orders c c' ∧ (length reads' < length reads)%nat ∧ mc_logins c' = mc_logins c ++ [login].
Proof.
  unfold mc_reconnect. destruct reads as [|[l|] reads]; [done| |done]. destruct (parse_stream l) as [[pkts ?] ?]. destruct (mc_relogin _ _ _ _) as [[cl seen]|]; [|done].
  cbn [mbind option_bind]. intros [= <- <-]. split; [done|]. cbn. split; [lia|done].
Qed.

Lemma mc_reports_orders fuel : ∀ now_ns need c reads c' reads',
  mc_reports fuel now_ns need c reads = Some (c', reads') →
  same_orders c c' ∧ (length reads' <= length reads)%nat
  ∧ (Forall (λ r, r ≠ RBytes []) reads → mc_logins c' = mc_logins c ∧ Forall (λ r, r ≠ RBytes []) reads').
Proof.
  induction fuel as [|fuel IH]; intros now_ns need c reads c' reads' Hr; [done|]. cbn [mc_reports] in Hr.
  destruct (_ <? _)%nat; [|injection Hr as <- <-; done]. destruct reads as [|[[|x l]|] reads]; try done.
  - destruct (mc_reconnect _ _ _ _) as [[c1 reads1]|] eqn:E; [|done]. cbn [mbind option_bind] in Hr. apply mc_reconnect_orders in E as [(H1 & H2 & H3) [Hl _]].
    apply IH in Hr as [(H4 & H5 & H6) [Hl' _]]. split; [unfold same_orders; split_and!; congruence|]. split; [cbn; lia|]. intros Hf. by apply Forall_cons in Hf as [? _].
  - destruct (drain _) as [pkts acc]. destruct (mc_take _ _ _ _) as [[cl seen]|]; [|done]. cbn [mbind option_bind] in Hr. apply IH in Hr as (H4 & Hl' & Hlog).
    split; [done|]. split; [cbn; lia|]. intros [_ Hf]%Forall_cons. by apply Hlog.
Qed.

(** Without a drop: every order from here on is written. *)
Lemma mc_loop_writes fuel : ∀ now_ns fault fills batch target c reads c' reads',
  mc_loop fuel now_ns fault fills batch target c reads = Some (c', reads') → drops fault && negb (mc_dropped c) = false → (mc_i c <= target)%nat →
  mc_i c' = target ∧ mc_orders c' = mc_orders c ++ seq (mc_i c) (target - mc_i c)
  ∧ (Forall (λ r, r ≠ RBytes []) reads → mc_logins c' = mc_logins c).
Proof.
  induction fuel as [|fuel IH]; intros now_ns fault fills batch target c reads c' reads' Hr Hd Hi; [done|]. cbn [mc_loop] in Hr. rewrite Hd in Hr. cbn [andb] in Hr.
  destruct (Nat.ltb_spec (mc_i c) target) as [Hlt|Hge].
  - set (b := Nat.min batch (target - mc_i c)) in *. set (c1 := mkMxClient _ _ _ _ _ _ _) in *. destruct (mc_reports _ _ _ _ _) as [[c2 reads2]|] eqn:E; [|done].
    cbn [mbind option_bind] in Hr. apply mc_reports_orders in E as [(H1 & H2 & H3) [_ Hlog]]. cbn in H1, H2, H3, Hlog. apply IH in Hr as (H4 & H5 & H6); [|by rewrite H2|rewrite H1; lia].
    split; [done|]. split; [|intros Hf; destruct (Hlog Hf) as [E1 E2]; by rewrite (H6 E2)]. rewrite H5, H3, H1, <- app_assoc. f_equal.
    replace (target - mc_i c)%nat with (b + (target - (mc_i c + b)))%nat by lia. by rewrite seq_app.
  - injection Hr as <- <-. replace (target - mc_i c)%nat with 0%nat by lia. cbn. rewrite app_nil_r. split_and!; [lia|done|done].
Qed.

(** With a drop still to come: one batch is counted and not written. *)
Lemma mc_loop_drops fuel : ∀ now_ns fault fills batch target c reads c' reads',
  mc_loop fuel now_ns fault fills batch target c reads = Some (c', reads') → drops fault = true → mc_dropped c = false → (mc_i c < target)%nat →
  ∃ a, (mc_i c <= a < target)%nat ∧ (a = mc_i c ∨ a < target / 2)%nat
    ∧ let b := Nat.min batch (target - a) in
      (target / 2 <= a + b)%nat ∧ mc_i c' = target ∧ mc_orders c' = mc_orders c ++ seq (mc_i c) (a - mc_i c) ++ seq (a + b) (target - (a + b)).
Proof.
  induction fuel as [|fuel IH]; intros now_ns fault fills batch target c reads c' reads' Hr Hf Hd Hi; [done|]. cbn [mc_loop] in Hr. rewrite Hf, Hd in Hr. cbn [andb negb] in Hr.
  rewrite (proj2 (Nat.ltb_lt _ _) Hi) in Hr. set (b := Nat.min batch (target - mc_i c)) in *. destruct (Nat.leb_spec (target / 2) (mc_i c + b)) as [Hhalf|Hhalf].
  - destruct (mc_reconnect _ _ _ _) as [[c1 reads1]|] eqn:E; [|done]. cbn [mbind option_bind] in Hr. apply mc_reconnect_orders in E as [(H1 & H2 & H3) _]. cbn in H1, H2, H3.
    apply mc_loop_writes in Hr as (H4 & H5 & _); [|rewrite H2; by destruct (drops fault)|rewrite H1; lia]. exists (mc_i c). split; [lia|]. split; [by left|]. cbv zeta. split; [done|]. split; [done|].
    rewrite Nat.sub_diag. cbn. by rewrite H5, H3, H1.
  - set (c1 := mkMxClient _ _ _ _ _ _ _) in *. destruct (mc_reports _ _ _ _ _) as [[c2 reads2]|] eqn:E; [|done]. cbn [mbind option_bind] in Hr.
    apply mc_reports_orders in E as [(H1 & H2 & H3) _]. cbn in H1, H2, H3. pose proof (Nat.Div0.div_le_upper_bound target 2 target).
    apply IH in Hr as (a & Ha & Hor & Hb & Hi' & Ho); [|done|congruence|lia]. exists a. split; [lia|]. split; [lia|]. cbv zeta. split; [done|]. split; [done|].
    rewrite Ho, H3, H1, <- !app_assoc. f_equal. rewrite app_assoc. f_equal. replace (a - mc_i c)%nat with (b + (a - (mc_i c + b)))%nat by lia. by rewrite seq_app.
Qed.

(** A batch of no orders never ends: no amount of rounds is enough. *)
Lemma matrix_batch_zero fuel : ∀ now_ns fault fills target c reads,
  (mc_i c < target)%nat → drops fault = false → mc_loop fuel now_ns fault fills 0 target c reads = None.
Proof.
  induction fuel as [|fuel IH]; intros now_ns fault fills target c reads Hi Hf; [done|]. cbn [mc_loop]. rewrite (proj2 (Nat.ltb_lt _ _) Hi), Hf. cbn [andb Nat.min].
  destruct (mc_reports _ _ _ _ _) as [[c2 reads2]|] eqn:E; [|done]. cbn [mbind option_bind]. apply mc_reports_orders in E as [(H1 & _) _]. cbn in H1. apply IH; [lia|done].
Qed.

(** ** The server *)

Section Server.
Variables (now : Z → Z) (orders fills : nat).

(** The reports for order [i] of a connection that began before message [base]. *)
Definition matrix_answers (base : Z) (i : nat) : list Packet :=
  (λ f, sequenced_packet (cmp_report now (base + Z.of_nat (i * fills + f)) (Z.of_nat i) f)) <$> seq 0 fills.

Lemma mx_orders_for_run base m : ∀ s k,
  sv_next_seq (mx_srv s) = base + Z.of_nat (k * fills) → 1 <= base → Z.of_nat (k + m) < 10 ^ 10 → base + Z.of_nat ((k + m) * fills) < 2 ^ 64 →
  ∃ srv, mx_orders_for now fills s k (enter_packet <$> seq k m)
    = Some (mkMatrix srv (mx_total_reports s + m * fills) (mx_replay_count s), (k + m)%nat, false, packets_bytes (mjoin (matrix_answers base <$> seq k m)))
    ∧ sv_next_seq srv = base + Z.of_nat ((k + m) * fills).
Proof.
  induction m as [|m IH]; intros s k Hn Hb Hk Hmax.
  { exists (mx_srv s). cbn [seq fmap list_fmap mx_orders_for]. rewrite !Nat.add_0_r. split; [|done]. by destruct s. }
  cbn [seq fmap list_fmap mx_orders_for]. change (packet_type (enter_packet k) =? UNSEQUENCED_DATA) with true. cbv iota. change (payload (enter_packet k)) with (ouch_enter (Z.of_nat k)).
  rewrite order_index_enter by lia. cbn [mbind option_bind]. assert ((k + S m) * fills = k * fills + fills + m * fills)%nat as Hsplit by lia.
  destruct (fill_reports_run now (Z.of_nat k) (mx_srv s) (base + Z.of_nat (k * fills)) 0 fills) as (srv1 & -> & Hn1); [rewrite Hn; lia|lia|lia|].
  destruct (IH (mkMatrix srv1 (mx_total_reports s + fills) (mx_replay_count s)) (S k)) as (srv & -> & Hn'); [cbn; rewrite Hn1; lia|done|lia|replace (S k + m)%nat with (k + S m)%nat by lia; lia|].
  cbn [mbind option_bind]. exists srv. replace (S k + m)%nat with (k + S m)%nat in * by lia. split; [|done]. cbn [mx_total_reports mx_replay_count].
  replace (mx_total_reports s + S m * fills)%nat with (mx_total_reports s + fills + m * fills)%nat by lia. do 2 f_equal. rewrite <- packets_bytes_app. f_equal. cbn [mjoin list_join]. f_equal.
  unfold matrix_answers. apply list_fmap_ext. intros ? f _. do 2 f_equal. lia.
Qed.

(** Packets that come in pieces. *)
Definition arriving (chunks : list (list Z)) : list ReadResult := RBytes <$> chunks.

Lemma drain_incomplete acc : incomplete acc → drain acc = ([], acc).
Proof. intros Hi. unfold drain. rewrite parse_stream_parse, Hi. done. Qed.

Lemma mx_orders_run base chunks rest : ∀ fuel s k m acc,
  Forall (λ ch, ch ≠ []) chunks → acc ++ concat chunks = packets_bytes (enter_packet <$> seq k m) → incomplete acc →
  (k + m <= orders)%nat → (2 * length chunks + 1 <= fuel)%nat →
  sv_next_seq (mx_srv s) = base + Z.of_nat (k * fills) → 1 <= base → Z.of_nat orders < 10 ^ 10 → base + Z.of_nat (orders * fills) < 2 ^ 64 →
  ∃ srv reads, mx_orders fuel now orders fills s k acc (arriving chunks ++ RBytes [] :: rest)
    = Some (mkMatrix srv (mx_total_reports s + m * fills) (mx_replay_count s), (k + m)%nat, reads, packets_bytes (mjoin (matrix_answers base <$> seq k m)))
    ∧ sv_next_seq srv = base + Z.of_nat ((k + m) * fills).
Proof.
  assert (∀ k m, Forall fits (enter_packet <$> seq k m)) as Hfits by (intros; apply Forall_fmap, Forall_forall; intros i _; apply enter_fits).
  induction chunks as [|ch chunks IH]; intros fuel s k m acc Hne Hbytes Hinc Hm Hfuel Hn Hb Ho Hmax; (destruct fuel as [|fuel]; [lia|]); cbn [mx_orders].
  - destruct (incomplete_waits _ acc _ (Hfits k m) Hbytes Hinc eq_refl) as [Hnil ->]. assert (m = 0%nat) as -> by (destruct m; done).
    rewrite drain_incomplete, Nat.mul_0_l, !Nat.add_0_r by done. exists (mx_srv s). destruct s. destruct (k <? orders)%nat; by eexists.
  - apply Forall_cons in Hne as [Hch Hne]. cbn [concat] in Hbytes. destruct (Nat.ltb_spec k orders) as [Hlt|Hge].
    + rewrite drain_incomplete by done. change (arriving (ch :: chunks)) with (RBytes ch :: arriving chunks). cbn [app]. destruct ch as [|x ch]; [done|]. set (chunk := x :: ch) in *. cbn [length] in Hfuel.
      rewrite app_assoc in Hbytes. destruct (drained _ _ _ (Hfits k m) Hbytes) as (pk & ps' & acc' & Hd & Hps & Hb' & Hinc' & _). destruct pk as [|p pk].
      * cbn in Hps. subst ps'. rewrite <- Hbytes in Hb'. apply app_inv_tail in Hb'. subst acc'. apply IH; try done. lia.
      * destruct fuel as [|fuel]; [lia|]. cbn [mx_orders]. rewrite (proj2 (Nat.ltb_lt _ _) Hlt), Hd.
        assert (∃ j, p :: pk = enter_packet <$> seq k j ∧ ps' = enter_packet <$> seq (k + j) (m - j) ∧ (j <= m)%nat) as (j & Hpk & -> & Hj).
        { exists (length (p :: pk)). assert (length (p :: pk) <= m)%nat as Hl by (apply (f_equal length) in Hps; rewrite length_fmap, length_seq, length_app in Hps; lia).
          replace m with (length (p :: pk) + (m - length (p :: pk)))%nat in Hps by lia. rewrite seq_app, fmap_app in Hps. symmetry in Hps. apply app_inj_1 in Hps as [H1 H2]; [done|by rewrite length_fmap, length_seq]. }
        rewrite Hpk. assert ((k + j) * fills <= orders * fills)%nat by (apply Nat.mul_le_mono_r; lia).
        destruct (mx_orders_for_run base j s k) as (srv1 & -> & Hn1); [done|done|lia|lia|]. cbn [mbind option_bind].
        destruct (IH fuel (mkMatrix srv1 (mx_total_reports s + j * fills) (mx_replay_count s)) (k + j)%nat (m - j)%nat acc') as (srv & reads & -> & Hn'); try done; [lia|lia|].
        cbn [mbind option_bind mx_total_reports mx_replay_count]. exists srv, reads. replace (k + j + (m - j))%nat with (k + m)%nat in * by lia. split; [|done].
        rewrite <- packets_bytes_app, <- join_app, <- fmap_app, <- seq_app. replace (j + (m - j))%nat with m by lia.
        assert (m * fills = j * fills + (m - j) * fills)%nat as -> by (rewrite <- Nat.mul_add_distr_r; f_equal; lia). by rewrite Nat.add_assoc.
    + assert (m = 0%nat) as -> by lia. apply app_eq_nil in Hbytes as [_ Hc]. by destruct ch.
Qed.
End Server.

Section Connection.
Variables (now : Z → Z) (orders fills : nat).

Lemma mx_login_run srv r rep tot cap msgs chunks rest : ∀ fuel acc,
  store_window SOUP_SESSION cap msgs srv → Z.of_nat (length msgs) < 2 ^ 60 → 0 <= r <= Z.of_nat (length msgs) + 1 →
  Forall (λ ch, ch ≠ []) chunks → acc ++ concat chunks = to_bytes (login_request SOUP_USER SOUP_PASS SOUP_SESSION r) → incomplete acc →
  (2 * length chunks + 1 <= fuel)%nat →
  let from := soup_granted cap (length msgs) r in
  let later := drop (Z.to_nat (from - 1)) msgs in
  mx_login fuel (mkMatrix srv tot rep) false acc (arriving chunks ++ rest)
  = Some (mkMatrix (set_logged_in srv) tot (rep + length later), [], rest, packets_bytes (login_accepted SOUP_SESSION from :: (sequenced_packet <$> later))).
Proof.
  intros fuel acc Hw Hb Hr. destruct (bench_login cap msgs srv r Hw Hb Hr) as [_ Hh]. set (login := login_request _ _ _ _) in *. revert fuel acc.
  assert (Forall fits [login]) as Hfits by (constructor; [apply fits_login_request|done]).
  induction chunks as [|ch chunks IH]; intros fuel acc Hne Hbytes Hinc Hfuel from later; (destruct fuel as [|fuel]; [lia|]); cbn [mx_login].
  - destruct (incomplete_waits [login] acc [] Hfits) as [? _]; [|done|done|done]. cbn [concat] in Hbytes. rewrite Hbytes. unfold packets_bytes. cbn [fmap list_fmap concat]. by rewrite app_nil_r.
  - apply Forall_cons in Hne as [Hch Hne]. cbn [concat] in Hbytes. rewrite drain_incomplete by done. change (arriving (ch :: chunks)) with (RBytes ch :: arriving chunks). cbn [app]. destruct ch as [|x ch]; [done|]. set (chunk := x :: ch) in *.
    cbn [length] in Hfuel. rewrite app_assoc in Hbytes. assert ((acc ++ chunk) ++ concat chunks = packets_bytes [login]) as Hone by (rewrite Hbytes; unfold packets_bytes; cbn; by rewrite app_nil_r).
    destruct (drained _ _ _ Hfits Hone) as (pk & ps' & acc' & Hd & Hps & Hb' & Hinc' & _). destruct pk as [|p pk].
    + cbn in Hps. subst ps'. rewrite <- Hone in Hb'. apply app_inv_tail in Hb'. subst acc'. apply IH; try done. lia.
    + injection Hps as <- Hps. symmetry in Hps. apply app_eq_nil in Hps as [-> ->]. cbn in Hb'. apply app_eq_nil in Hb' as [-> Hc].
      assert (chunks = []) as -> by (destruct chunks as [|y chunks]; [done|]; cbn in Hc; apply app_eq_nil in Hc as [-> _]; by apply Forall_cons in Hne as [? _]).
      destruct fuel as [|[|fuel]]; [lia|cbn in Hfuel; lia|]. cbn [mx_login]. rewrite Hd. cbn [mx_login_for]. change (is_login_request login) with true. cbv iota. cbn [mx_srv]. rewrite Hh.
      cbn [mbind option_bind mx_login outbound mx_total_reports mx_replay_count fmap list_fmap app]. rewrite !app_nil_r. do 6 f_equal. cbn [List.filter]. change (is_sequenced (login_accepted _ _)) with false. cbv iota. fold from later.
      clear. induction later as [|m l IH]; [done|]. cbn. by rewrite IH.
Qed.
End Connection.

(** ** Properties *)

(** A connection of the server at a session with any messages, its bytes cut anywhere: the login is
    answered with everything kept from the message it asks for, each of the orders with its
    [fills] reports, numbered on from what the session had; both are added to the counts. *)
Theorem matrix_connection now orders fills srv tot rep cap msgs r n chunks1 chunks2 :
  store_window SOUP_SESSION cap msgs srv → Z.of_nat (length msgs) < 2 ^ 60 → 0 <= r <= Z.of_nat (length msgs) + 1 →
  Forall (λ ch, ch ≠ []) chunks1 → Forall (λ ch, ch ≠ []) chunks2 →
  concat chunks1 = to_bytes (login_request SOUP_USER SOUP_PASS SOUP_SESSION r) → concat chunks2 = packets_bytes (enter_packet <$> seq 0 n) →
  (n <= orders)%nat → Z.of_nat orders < 10 ^ 10 → Z.of_nat (orders * fills) < 2 ^ 60 →
  let from := soup_granted cap (length msgs) r in
  let later := drop (Z.to_nat (from - 1)) msgs in
  ∃ srv', mx_connection now orders fills (mkMatrix srv tot rep) (arriving chunks1 ++ arriving chunks2 ++ [RBytes []])
    = Some (mkMatrix srv' (tot + n * fills) (rep + length later), n,
            packets_bytes (login_accepted SOUP_SESSION from :: (sequenced_packet <$> later) ++ mjoin (matrix_answers now fills (sv_next_seq srv) <$> seq 0 n)))
    ∧ sv_next_seq srv' = sv_next_seq srv + Z.of_nat (n * fills).
Proof.
  intros Hw Hb Hr H1 H2 Hc1 Hc2 Hn Ho Hmax from later. unfold mx_connection.
  rewrite (mx_login_run srv r rep tot cap msgs chunks1 (arriving chunks2 ++ [RBytes []]) (mx_rounds (arriving chunks1 ++ arriving chunks2 ++ [RBytes []])) []); try done.
  2: { unfold mx_rounds, arriving. rewrite !length_app, !length_fmap. lia. }
  cbn [mbind option_bind]. fold from. fold later. pose proof (sw_next _ _ _ _ Hw) as Hnext.
  destruct (mx_orders_run now orders fills (sv_next_seq srv) chunks2 [] (mx_rounds (arriving chunks2 ++ [RBytes []])) (mkMatrix (set_logged_in srv) tot (rep + length later)) 0 n [])
    as (srv' & reads & -> & Hn'); try done; [unfold mx_rounds, arriving; rewrite length_app, length_fmap; cbn; lia|rewrite Nat.mul_0_l; cbn; lia|lia|lia|].
  cbn [mbind option_bind mx_total_reports mx_replay_count Nat.add]. exists srv'. split; [|by rewrite Hn']. by rewrite <- packets_bytes_app.
Qed.

(** A client thread that returns, whatever it has read, counts all its orders.  Without a drop it has
    written them all, in order.  With a drop in the middle it has written all but one batch: the one
    that was filled when the connection was dropped, at the first batch that reaches half of the orders. *)
Theorem matrix_orders_written fuel now_ns fault conns fills batch target reads c :
  mc_thread fuel now_ns fault conns fills batch target reads = Some c →
  mc_i c = target
  ∧ if drops fault && (0 <? target)%nat
    then ∃ a, let b := Nat.min batch (target - a) in
      (a < target)%nat ∧ (a = 0 ∨ a < target / 2)%nat ∧ (target / 2 <= a + b)%nat ∧ mc_orders c = seq 0 a ++ seq (a + b) (target - (a + b))
    else mc_orders c = seq 0 target.
Proof.
  unfold mc_thread. intros Hr. destruct reads as [|[l|] reads]; [done| |done]. destruct (parse_stream l) as [[pkts ?] ?]. destruct (mc_first _ _ _ _) as [[client logged]|]; [|done].
  cbn [mbind option_bind] in Hr. destruct logged; [|done]. cbn [negb] in Hr. set (c0 := mkMxClient _ _ _ _ _ _ _) in *. destruct (mc_loop _ _ _ _ _ _ _ _) as [[c1 reads1]|] eqn:E; [|done].
  cbn [mbind option_bind] in Hr. injection Hr as ->. destruct (drops fault) eqn:Hd; cbn [andb].
  - destruct (Nat.ltb_spec 0 target) as [Hlt|Hge].
    + apply mc_loop_drops in E as (a & Ha & Hor & Hb & Hi & Hw); [|done|done|done]. cbn in Ha, Hor, Hw. split; [done|]. exists a. cbv zeta in *. rewrite Nat.sub_0_r in Hw. split_and!; try done; lia.
    + assert (target = 0%nat) as -> by lia. destruct fuel as [|fuel]; [done|]. subst c0. cbn [mc_loop mc_i Nat.ltb Nat.leb] in E. apply (inj Some), pair_equal_spec in E as [<- _]. by split.
  - apply mc_loop_writes in E as (Hi & Hw & _); [|by rewrite Hd|cbn; lia]. cbn in Hw. rewrite Nat.sub_0_r in Hw. done.
Qed.

Lemma mc_thread_logins fuel now_ns fault conns fills batch target rs c :
  drops fault = false → mc_thread fuel now_ns fault conns fills batch target rs = Some c → Forall (λ r, r ≠ RBytes []) rs → length (mc_logins c) = 1%nat.
Proof.
  intros Hd Ht Hrs. unfold mc_thread in Ht. destruct rs as [|[l|] rs]; [done| |done]. destruct (parse_stream l) as [[pkts ?] ?].
  destruct (mc_first _ _ _ _) as [[client logged]|]; [|done]. cbn [mbind option_bind] in Ht. destruct logged; [|done]. cbn [negb] in Ht.
  destruct (mc_loop _ _ _ _ _ _ _ _) as [[c1 reads1]|] eqn:E; [|done]. cbn [mbind option_bind] in Ht. injection Ht as ->.
  apply Forall_cons in Hrs as [_ Hrs]. apply mc_loop_writes in E as (_ & _ & Hl); [|by rewrite Hd|cbn; lia]. by rewrite (Hl Hrs).
Qed.

(** The server accepts one connection more than there are threads as soon as a fault is named.  With a fault that
    does not drop the connection, threads that never read the end of a stream open only one each. *)
Lemma matrix_hangs fuel now_ns a reads done cs :
  ma_fault a ≠ NoFault → drops (ma_fault a) = false → length reads = ma_conns a → Forall (Forall (λ r, r ≠ RBytes [])) reads →
  mx_clients fuel now_ns (ma_fault a) (ma_orders a) (ma_fills a) (ma_batch a) reads = Some (done, cs) →
  sum_list (length ∘ mc_logins <$> cs) = ma_conns a ∧ (ma_conns a < expect_conns a)%nat.
Proof.
  intros Hf Hd Hc Hne Hr. split; [|unfold expect_conns; rewrite bool_decide_eq_false_2 by done; lia].
  unfold mx_clients in Hr. destruct (_ =? _)%nat; [done|]. destruct (mapM _ _) as [cs'|] eqn:E; [|done]. cbn [mbind option_bind] in Hr. injection Hr as <- ->.
  rewrite <- Hc. apply mapM_Some_1 in E. clear Hc. set (thread := mc_thread _ _ _ _ _ _ _) in E.
  assert (∀ rs c, thread rs = Some c → Forall (λ r, r ≠ RBytes []) rs → length (mc_logins c) = 1%nat) as Hone by (intros rs c; by apply mc_thread_logins).
  clearbody thread. induction E as [|rs c reads cs Ht _ IH]; [done|]. apply Forall_cons in Hne as [Hrs Hne]. cbn in *. by rewrite (Hone _ _ Ht Hrs), IH.
Qed.

Module MatrixRuns.

(** Two orders, the connection dropped in the middle: the thread counts two and has written one. *)
Definition drop_reads : list ReadResult :=
  [RBytes (to_bytes (login_accepted SOUP_SESSION 1)); RBytes (to_bytes (login_accepted SOUP_SESSION 1));
   RBytes (to_bytes (sequenced_packet (ouch_accepted 0 1)))].

Example mid_drop_skips :
  (λ c, (mc_i c, mc_orders c, mc_seen c)) <$> mc_thread 4 0 MidDrop 1 1 1 2 drop_reads = Some (2, [1], 1)%nat.
Proof. vm_compute. reflexivity. Qed.

Example matrix_arguments : mx_args ["50"; "x"; "+2"]%string = mkMxArgs 50 1 2 1 NoFault 0.
Proof. vm_compute. reflexivity. Qed.

End MatrixRuns.
