(* ===== verification/SpotBench.v ===== *)
(** * The benchmark of the spot process

    Models [crates/match-spot/src/bin/spot_bench.rs]: the orders of the five scenarios, the engine alone and
    the shell around it (router, queue, worker, outbound with a sink in memory) on them, what is counted, the
    sizes and the scenarios of a run.  JSON is a parameter; times are left out.  The shell
    with several symbols ([bench_shell_multi]) is modelled up to its engine.

    All its orders carry one time, so orders of one price stand in the book by the text of their
    numbers; for the counts this does not matter, as such orders are of one size.  The engine
    layer has the fills the scenarios are made for ([spot_bench_fills]).

    Every order of a scenario passes the checks and the queue, which has room for all of them, and the worker
    announces every new order; so what the row of the shell gives as fills, the number of messages, is at
    least the number of new orders ([spot_shell_counts_messages]), while the engine may have made no fill at all. *)
From stdpp Require Import gmap strings.
From S2P Require Import Prelude Decimal Protocol CoreBook CoreMatch CoreSpec CoreEngine ProtocolProps HpScale Utf8 Topics Spot SpotProps RestartProps Process PriorityBook CrossCore PlainDecimal Workload WorkloadProps Gateway NetBench.
From Stdlib Require Import QArith Lqa.

#[local] Open Scope Z_scope.

Inductive SpotScenario := SRest | SCross | SPartial | SCancel | SMulti10.

#[export] Instance spot_scenario_eq_dec : EqDecision SpotScenario.
Proof. solve_decision. Defined.

Definition scenario_name (sc : SpotScenario) : string :=
  match sc with SRest => "rest" | SCross => "cross" | SPartial => "partial" | SCancel => "cancel" | SMulti10 => "multi10" end.

Definition all_scenarios : list SpotScenario := [SRest; SCross; SPartial; SCancel; SMulti10].

Record Stats := mkStats { st_layer : string; st_scenario : string; st_n_orders : nat; st_match_fills : nat; st_mq_out : nat }.

(** ** The orders *)

Section Layers.
Context `{BD : BigDecimal}.

(** [10_000 + (i % m)] as a price; [mq_limit] is that of the gateway. *)
Definition tick_text (i m : nat) : string := price_text (10000 + Z.of_nat (i mod m)).

Definition rest_orders (n : nat) (symbol : string) : list MqOrder :=
  (λ i, mq_limit ORDER_TYPE_BUY symbol (numbered "r" i) (tick_text i 100) "1") <$> seq 0 n.

Definition cross_orders (n : nat) (symbol : string) : list MqOrder :=
  let half := (n / 2)%nat in
  ((λ i, mq_limit ORDER_TYPE_SELL symbol (numbered "s" i) "100.00" "1") <$> seq 0 half)
  ++ ((λ i, mq_limit ORDER_TYPE_BUY symbol (numbered "b" i) "100.00" "1") <$> seq 0 (n - half)).

Definition partial_orders (n : nat) (symbol : string) : list MqOrder :=
  let makers := (n * 4 / 5)%nat in
  let takers := (n - makers)%nat in
  ((λ i, mq_limit ORDER_TYPE_SELL symbol (numbered "pw_s" i) (tick_text i 200) "1") <$> seq 0 makers)
  ++ ((λ i, mq_limit ORDER_TYPE_BUY symbol (numbered "pw_b" i) "102.00" "5") <$> seq 0 takers).

(** [mq.order_status = Some(ORDER_STATUS_REVOKE)] *)
Definition set_revoke (m : MqOrder) : MqOrder :=
  {| mq_user_id := mq_user_id m; mq_uid := mq_uid m; mq_c_type := mq_c_type m; mq_deal_type := mq_deal_type m; mq_type := mq_type m;
     mq_order_type := mq_order_type m; mq_market_id := mq_market_id m; mq_coin_id := mq_coin_id m;
     mq_symbol_key := mq_symbol_key m; mq_coin_market := mq_coin_market m; mq_trust_order_no := mq_trust_order_no m;
     mq_close_position := mq_close_position m; mq_start_deposit := mq_start_deposit m; mq_position_type := mq_position_type m;
     mq_taker_rate := mq_taker_rate m; mq_order_status := Some ORDER_STATUS_REVOKE; mq_order_form := mq_order_form m; mq_gear := mq_gear m;
     mq_lever_times := mq_lever_times m; mq_trust_number := mq_trust_number m; mq_trust_price := mq_trust_price m;
     mq_create_time := mq_create_time m; mq_face_value := mq_face_value m; mq_handicap_type := mq_handicap_type m |}.

Definition cancel_orders (n : nat) (symbol : string) : list MqOrder :=
  let half := (n / 2)%nat in
  let order i := mq_limit ORDER_TYPE_BUY symbol (numbered "c" i) (tick_text i 50) "1" in
  (order <$> seq 0 half) ++ ((λ i, set_revoke (order i)) <$> seq 0 (n - half)).

(** [format!("sym{s:02}")] *)
Definition multi_symbol (s : nat) : string := ("sym" +:+ String.string_of_list_ascii (zero_padded 2 (Z.of_nat s)))%string.

Definition BTCUSDT : string := "btcusdt".

Definition scenario_orders (sc : SpotScenario) (n : nat) : list MqOrder :=
  match sc with
  | SRest => rest_orders n BTCUSDT
  | SCross => cross_orders n BTCUSDT
  | SPartial => partial_orders n BTCUSDT
  | SCancel => cancel_orders n BTCUSDT
  | SMulti10 => seq 0 10 ≫= λ s, rest_orders (n / 10) (multi_symbol s)
  end.

(** ** The two layers *)

(** The loop of [bench_engine]. *)
Fixpoint engine_fills (eng : Engine) (bb : list BbOrder) (fills : nat) : option nat :=
  match bb with
  | [] => Some fills
  | o :: bb => '(evs, eng) ← on_order eng o; engine_fills eng bb (fills + core_fills evs)
  end.

(** [to_bb] panics on an order that cannot be converted. *)
Definition bench_engine (sc : SpotScenario) (orders : list MqOrder) : option Stats :=
  bb ← mapM type_convert_spot orders;
  fills ← engine_fills engine_new bb 0;
  Some (mkStats "engine" (scenario_name sc) (length orders) fills 0).

Context (b64 : string → string) (ser : Body → list Z) (wreck : Engine → BbOrder → Engine).
Context (to_vec : list MqOrder → list Z) (from_slice : list Z → option (list MqOrder)).

Definition encode_batches (orders : list MqOrder) : list (list Z) := (λ m, to_vec [m]) <$> orders.

(** [start_shell]: a router with one queue, and an outbound without Redis. *)
Definition shell_router (symbol : string) (capacity : nat) : InboundRouter := register_queue router_new symbol (mkChan capacity [] true).
Definition shell_outbound : Outbound := outbound_new false DEFAULT_DEPTH_PUSH_INTERVAL_MS (mkSplit false []).

(** The queue when every body has been handled. *)
Definition shell_queue (symbol : string) (capacity : nat) (bodies : list (list Z)) : list BbOrder :=
  let r := foldl (λ r body, (handle_body from_slice r body).1) (shell_router symbol capacity) bodies in
  match queues r !! symbol with Some ch => ch_items ch | None => [] end.

(** The worker, with the clock [clock] at its rounds; the sink in memory takes everything.  The worker may have
    begun before the last body was handled: the queue is then shorter, never longer. *)
Definition shell_env (t : Z) : env := mkEnv t (λ _, true) true (λ _, None).

Definition bench_shell_single (clock : nat → Z) (sc : SpotScenario) (bodies : list (list Z)) : Stats :=
  let cap := Nat.max (length bodies) (Z.to_nat 1024) in
  let orders := shell_queue BTCUSDT cap bodies in
  let '(_, ob) := worker_run b64 ser wreck engine_new shell_outbound BTCUSDT (zip orders ((λ i, shell_env (clock i)) <$> seq 0 (length orders))) in
  let mq_out := length (ob_log ob) in
  mkStats "shell" (scenario_name sc) (length bodies) mq_out mq_out.

End Layers.

(** ** What is run *)

Definition default_sweep_sizes : list Z := [1000; 10000; 50000; 100000].

Definition parse_size (s : string) : option Z :=
  n ← parse_u64 (str_trim (bytes_of s)); if 2 <=? n then Some n else None.

Definition parse_sweep_sizes (arg : option string) : list Z :=
  match arg with
  | None => default_sweep_sizes
  | Some s => match omap parse_size (split_on "," s) with [] => default_sweep_sizes | v => v end
  end.

(** The rows of [run_sweep] and of [run_single], in order. *)
Definition sweep_rows (sizes : list Z) : list (Z * SpotScenario) := sizes ≫= λ n, (λ sc, (n, sc)) <$> all_scenarios.

Definition single_rows (n symbols : Z) : list (Z * SpotScenario) :=
  (λ sc, (n, sc)) <$> filter (λ sc, (sc = SMulti10 ∧ 1 < symbols) ∨ (sc ≠ SMulti10 ∧ symbols <= 1)) all_scenarios.

Definition main_rows (args : list string) : list (Z * SpotScenario) :=
  if bool_decide (args !! 0%nat = Some "sweep"%string) then sweep_rows (parse_sweep_sizes (args !! 1%nat))
  else
    let number k dflt := default dflt (s ← args !! k; parse_u64 (bytes_of s)) in
    single_rows (Z.max (number 0%nat 50000) 2) (Z.max (number 1%nat 1) 1).

(** ** Entries that cannot be told apart *)

Lemma queue_up_twins t en l1 l2 :
  Forall (λ x, ahead t (en_tick en) (en_tick x) = false) l1 →
  Forall (λ x, x = en ∨ ahead t (en_tick en) (en_tick x) = true) l2 →
  queue_up t en (l1 ++ l2) = l1 ++ en :: l2.
Proof.
  intros H1 H2. induction H1 as [|x l1 Hx _ IH]; cbn [app queue_up]; [|by rewrite Hx, IH].
  induction H2 as [|x l2 Hx _ IH]; [done|]. cbn [queue_up]. destruct Hx as [->|Hx]; [|by rewrite Hx].
  destruct (ahead t (en_tick en) (en_tick en)); [done|]. by rewrite IH.
Qed.

(** A taker everything is good enough for ends open or leaves nothing. *)
Lemma take_from_exhausts id lim makers : ∀ op,
  0 <= op → Forall (λ en, en_tick en <= lim ∧ 0 < en_lot en) makers →
  let '(_, op', ms') := take_from ABuy id lim op makers in (op' = 0 ∨ ms' = []) ∧ Forall (λ en, en_tick en <= lim ∧ 0 < en_lot en) ms'.
Proof.
  induction makers as [|m ms IH]; intros op Hop Hm; cbn [take_from]; [by split; [right|]|]. pose proof Hm as [[Hmt Hml] Hms]%Forall_cons. cbn [accepts]. rewrite (proj2 (Z.leb_le _ _) Hmt). cbn [negb]. rewrite orb_false_r.
  destruct (Z.leb_spec op 0); [split; [left; lia|done]|]. destruct (Z.eqb_spec (en_lot m) (Z.min (en_lot m) op)).
  - specialize (IH (op - Z.min (en_lot m) op) ltac:(lia) Hms). by destruct (take_from _ _ _ _ ms) as [[evs op'] ms'].
  - split; [left; lia|]. constructor; [cbn; split; [done|lia]|done].
Qed.

Section Book.
Context `{PP : PlainParse}.
Implicit Types (e : Engine) (o : BbOrder) (book : OrderBook).

(** Orders without a name of their own. *)
Definition anon (_ : string) : option Z := Some 0.

Definition anon_entry : BbOrder → entry → Prop := core_entry anon (unit 2) (unit 6).
Definition anon_limit : BbOrder → aside → Z → Z → Z → Prop := new_limit anon (unit 2) (unit 6).

(** Nothing on the other side: the order rests at its place. *)
Lemma core_rests key book o t tick lot :
  book_inv key book → orders (opposite (side_of t)) book = [] → anon_limit o t 0 tick lot → contains_order_no book (trust_order_no o) = false →
  ∃ l1 l2, orders (side_of t) book = l1 ++ l2 ∧ side_ok (side_of t) (l1 ++ o :: l2)
    ∧ on_book book o = Some ([], with_orders (side_of t) (l1 ++ o :: l2) book).
Proof.
  intros Hinv Hopp Hnew Hc. pose proof Hnew as (_ & Hform & Hs & _ & _). pose proof Hinv as (Hok & Hu & _).
  destruct (handle_limit_trades (side_of t) book o Hok (book_inv_no_fok _ _ Hinv) Hs) as (l1 & l2 & evs & book' & Hl & Hok1 & Hh & Hts & Hu'); [by rewrite Hform|done|].
  exists l1, l2. split; [done|]. set (book1 := with_orders (side_of t) (l1 ++ o :: l2) book) in *.
  assert (orders (opposite (side_of t)) book1 = []) as Hopp1 by (rewrite <- Hopp; by subst book1; destruct t).
  assert (orders (side_of t) book1 = l1 ++ o :: l2) as Hown1 by (by subst book1; destruct t).
  split; [rewrite <- Hown1; by apply book_ok_side|]. rewrite (on_book_limit anon (unit 2) (unit 6) book o t 0 tick lot Hnew Hc).
  assert (keeps_off (side_of t) (orders (side_of t) book1) (orders (opposite (side_of t)) book1)) as Hk by (intros x y _ Hy; rewrite Hopp1 in Hy; by apply elem_of_nil in Hy).
  destruct (trades_idle _ _ _ _ Hk Hts) as [-> ->]. exact Hh.
Qed.

(** The place among orders of which those of its price look the same. *)
Lemma twin_place t l1 l2 o ams en :
  side_ok (side_of t) (l1 ++ o :: l2) → Forall2 anon_entry (l1 ++ l2) ams → anon_entry o en →
  (∀ x, x ∈ ams → en_tick x = en_tick en → x = en) →
  Forall2 anon_entry (l1 ++ o :: l2) (queue_up t en ams).
Proof.
  intros Hok Hms Ho Htwin. apply Forall2_app_inv_l in Hms as (a1 & a2 & H1 & H2 & ->).
  apply side_ok_app in Hok as (_ & Hok2 & Hbef & _). apply side_ok_cons in Hok2 as (Hlater & _). rewrite queue_up_twins; [by apply Forall2_app; [|constructor]|..].
  - apply Forall_forall. intros a Ha. destruct (Forall2_elem_r _ _ _ _ H1 Ha) as (x & Hx & Hxa). eapply core_entry_better; [apply unit_pos|exact Hxa|exact Ho|]. apply Hbef; [done|by left].
  - apply Forall_forall. intros a Ha. destruct (Forall2_elem_r _ _ _ _ H2 Ha) as (x & Hx & Hxa). rewrite Forall_forall in Hlater.
    assert (ahead t (en_tick a) (en_tick en) = false) as Hnot by (eapply core_entry_better; [apply unit_pos|exact Ho|exact Hxa|by apply Hlater]).
    destruct (decide (en_tick a = en_tick en)) as [E|Hne]; [left; apply Htwin; [apply elem_of_app; by right|done]|right]. destruct t; cbn in *; lia.
Qed.

(** ** Sells, then buys, on one book *)

Record spot_state (e : Engine) (ab : abook) (seen : list string) : Prop := {
  sp_inv : book_inv BTCUSDT (book_of e BTCUSDT);
  sp_seen s x : x ∈ orders s (book_of e BTCUSDT) → trust_order_no x ∈ seen;
  sp_asks : Forall2 anon_entry (orders Sell (book_of e BTCUSDT)) (a_sells ab);
  sp_bids : (orders Buy (book_of e BTCUSDT) = [] ∧ a_buys ab = []) ∨ (orders Sell (book_of e BTCUSDT) = [] ∧ a_sells ab = []) }.

Definition spot_order (o : BbOrder) (t : aside) (tick lot : Z) : Prop :=
  symbol_key o = BTCUSDT ∧ order_valid o ∧ anon_limit o t 0 tick lot.

Lemma spot_unseen e ab seen o :
  spot_state e ab seen → trust_order_no o ∉ seen → contains_order_no (book_of e BTCUSDT) (trust_order_no o) = false.
Proof.
  intros Hst Hno. apply contains_order_no_false_iff. split; intros (x & Heq & Hx)%list_elem_of_fmap; apply Hno; rewrite Heq; [by apply (sp_seen _ _ _ Hst Buy)|by apply (sp_seen _ _ _ Hst Sell)].
Qed.

(** The engine after an order for the book. *)
Lemma spot_on_order e o evs book' :
  book_inv BTCUSDT (book_of e BTCUSDT) → symbol_key o = BTCUSDT → order_valid o → on_book (book_of e BTCUSDT) o = Some (evs, book') →
  ∃ e', on_order e o = Some (evs, e') ∧ book_of e' BTCUSDT = book' ∧ book_inv BTCUSDT book'.
Proof.
  intros Hinv Hs Hv Hon. destruct (on_book_inv BTCUSDT _ o Hinv Hs Hv) as (? & ? & Hon2 & Hinv'). rewrite Hon in Hon2. injection Hon2 as <- <-.
  rewrite <- Hs in Hon. destruct (on_order_of_book e o evs book' Hon) as (e' & He' & Hb'). exists e'. rewrite <- Hs at 1. by rewrite Hs in Hb' |- *.
Qed.

Lemma anon_lot o t tick lot : anon_limit o t 0 tick lot → 0 < lot.
Proof.
  intros (_ & _ & _ & [Hq _] & (_ & _ & Hr)). cbn in Hr. unfold worth in Hr. rewrite Hr in Hq. apply (unit_lt (unit 6) 0 lot (unit_pos _)). rewrite Qmult_0_l. exact Hq.
Qed.

Lemma spot_sell_step e ab seen o tick L :
  spot_state e ab seen → orders Buy (book_of e BTCUSDT) = [] → a_buys ab = [] → spot_order o ASell tick L → trust_order_no o ∉ seen →
  Forall (λ en, en_id en = 0 ∧ en_lot en = L) (a_sells ab) →
  ∃ e', on_order e o = Some ([], e') ∧ (a_step ab (ALimit ASell 0 tick L)).1 = []
    ∧ (let ab' := (a_step ab (ALimit ASell 0 tick L)).2 in
       spot_state e' ab' (trust_order_no o :: seen) ∧ orders Buy (book_of e' BTCUSDT) = [] ∧ a_buys ab' = []
       ∧ Forall (λ en, en_id en = 0 ∧ en_lot en = L) (a_sells ab')).
Proof.
  intros Hst Hbuys Hab (Hs & Hv & Hnew) Hno Hlots. pose proof (spot_unseen _ _ _ _ Hst Hno) as Hc. pose proof (anon_lot _ _ _ _ Hnew) as HL.
  destruct (core_rests BTCUSDT _ o ASell tick L (sp_inv _ _ _ Hst) Hbuys Hnew Hc) as (l1 & l2 & Hl & Hok & Hon). destruct (spot_on_order _ _ _ _ (sp_inv _ _ _ Hst) Hs Hv Hon) as (e' & He' & Hb & Hinv').
  exists e'. split; [done|]. unfold a_step. cbn [across entries]. rewrite Hab. cbn [take_from fst snd]. split; [done|]. cbv zeta. rewrite (proj2 (Z.eqb_neq _ _)) by lia. cbn [set_entries a_buys a_sells snd].
  assert (Forall2 anon_entry (l1 ++ o :: l2) (queue_up ASell (mkEntry 0 tick L) (a_sells ab))) as Hrel.
  { apply (twin_place ASell); [done|cbn in Hl; rewrite <- Hl; apply (sp_asks _ _ _ Hst)|by destruct Hnew as (_ & _ & _ & _ & ?)|].
    intros [xi xt xl] Hx Ht. rewrite Forall_forall in Hlots. destruct (Hlots _ Hx) as [Hi Hl']. cbn in *. by subst. }
  assert (orders Buy (book_of e' BTCUSDT) = []) as Hbuys' by (rewrite Hb; exact Hbuys). split_and!; [split|done|done|].
  - by rewrite Hb.
  - intros s x Hx. rewrite Hb in Hx. cbn in Hx. destruct s; [right; by apply (sp_seen _ _ _ Hst Buy)|]. cbn in Hx. apply elem_of_app in Hx as [Hx|[->|Hx]%elem_of_cons]; [right|by left|right];
      apply (sp_seen _ _ _ Hst Sell); cbn in *; rewrite Hl; apply elem_of_app; auto.
  - rewrite Hb. exact Hrel.
  - by left.
  - apply Forall_forall. intros x Hx. assert (x = mkEntry 0 tick L ∨ x ∈ a_sells ab) as [->|Hx']; [|done|by rewrite Forall_forall in Hlots; apply Hlots].
    clear -Hx. induction (a_sells ab) as [|y l IH]; cbn [queue_up] in Hx; [left; by apply list_elem_of_singleton in Hx|].
    destruct (ahead _ _ _); [apply elem_of_cons in Hx as [->|Hx]; [by left|by right]|]. apply elem_of_cons in Hx as [->|Hx]; [right; by left|]. destruct (IH Hx) as [->|]; [by left|right; by right].
Qed.

Lemma core_event_count evs aevs : Forall2 (core_event anon (unit 2) (unit 6)) evs aevs → core_fills evs = length (List.filter PriorityBook.is_fill aevs).
Proof. unfold core_fills. induction 1 as [|ev a evs aevs Ha _ IH]; [done|]. destruct ev, a; cbn in Ha |- *; try done; by rewrite IH. Qed.

Lemma spot_buy_step e ab seen o lim lot :
  spot_state e ab seen → spot_order o ABuy lim lot → trust_order_no o ∉ seen → Forall (λ en, en_tick en <= lim ∧ 0 < en_lot en) (a_sells ab) →
  ∃ evs e', on_order e o = Some (evs, e') ∧ core_fills evs = length (List.filter PriorityBook.is_fill (a_step ab (ALimit ABuy 0 lim lot)).1)
    ∧ (let ab' := (a_step ab (ALimit ABuy 0 lim lot)).2 in
       spot_state e' ab' (trust_order_no o :: seen) ∧ Forall (λ en, en_tick en <= lim ∧ 0 < en_lot en) (a_sells ab')).
Proof.
  intros Hst (Hs & Hv & Hnew) Hno Hm. pose proof (spot_unseen _ _ _ _ Hst Hno) as Hc. pose proof (anon_lot _ _ _ _ Hnew) as HL. destruct (sp_bids _ _ _ Hst) as [[Hb1 Hb2]|[Hs1 Hs2]].
  - assert (core_rel anon (unit 2) (unit 6) (book_of e BTCUSDT) ab) as Hrel.
    { intros [|]; cbn [side_of entries]; [rewrite Hb1, Hb2; constructor|apply (sp_asks _ _ _ Hst)]. }
    pose proof (core_limit_step anon (unit 2) (unit 6) (unit_pos _) (unit_pos _) BTCUSDT _ _ o ABuy 0 lim lot (sp_inv _ _ _ Hst) Hrel Hnew Hc) as Hstep.
    cbn [side_of] in Hstep. rewrite Hb1 in Hstep. specialize (Hstep (Forall_nil_2 _)). destruct (a_step ab _) as [aevs ab'] eqn:Ea. destruct Hstep as (evs & book' & Hon & Hevs & Hrel' & Hstay).
    destruct (spot_on_order _ _ _ _ (sp_inv _ _ _ Hst) Hs Hv Hon) as (e' & He' & Hb & Hinv'). exists evs, e'. split; [done|]. split; [by apply core_event_count|]. cbn [snd].
    pose proof (take_from_exhausts 0 lim (a_sells ab) lot ltac:(lia) Hm) as Hex. unfold a_step in Ea. cbn [across entries] in Ea. destruct (take_from ABuy 0 lim lot (a_sells ab)) as [[evs0 op'] ms'].
    injection Ea as _ <-. destruct Hex as [Hor Hms']. split; [|exact Hms']. split.
    + by rewrite Hb.
    + intros s x Hx. rewrite Hb in Hx. destruct (Hstay s x Hx) as (y & Hsame & Hy). destruct Hsame as (Hnum & _). rewrite <- Hnum. destruct Hy as [->|Hy]; [by left|right; by apply (sp_seen _ _ _ Hst s)].
    + rewrite Hb. exact (Hrel' ASell).
    + rewrite Hb. pose proof (Hrel' ABuy) as HB. pose proof (Hrel' ASell) as HS. cbn [side_of set_entries entries a_buys a_sells across] in HB, HS |- *. destruct Hor as [-> | ->].
      * cbn [Z.eqb] in HB |- *. rewrite Hb2 in HB |- *. left. by apply Forall2_nil_inv_r in HB.
      * right. by apply Forall2_nil_inv_r in HS.
  - destruct (core_rests BTCUSDT _ o ABuy lim lot (sp_inv _ _ _ Hst) Hs1 Hnew Hc) as (l1 & l2 & Hl & Hok & Hon). destruct (spot_on_order _ _ _ _ (sp_inv _ _ _ Hst) Hs Hv Hon) as (e' & He' & Hb & Hinv').
    exists [], e'. split; [done|]. unfold a_step. cbn [across entries]. rewrite Hs2. cbn [take_from fst snd]. split; [done|]. cbv zeta. cbn [set_entries a_sells snd]. split; [|constructor].
    assert (orders Sell (book_of e' BTCUSDT) = []) as Hs' by (rewrite Hb; exact Hs1). split.
    + by rewrite Hb.
    + intros s x Hx. destruct s; [|rewrite Hs' in Hx; by apply elem_of_nil in Hx]. rewrite Hb in Hx. cbn in Hx, Hl. apply elem_of_app in Hx as [Hx|[->|Hx]%elem_of_cons]; [right|by left|right];
        apply (sp_seen _ _ _ Hst Buy); cbn; rewrite Hl; apply elem_of_app; auto.
    + rewrite Hs'. constructor.
    + by right.
Qed.

(** The orders of a phase beside the commands of the abstract book. *)
Definition sell_of (lim L : Z) (o : BbOrder) (c : acommand) : Prop := ∃ tick, c = ALimit ASell 0 tick L ∧ tick <= lim ∧ spot_order o ASell tick L.
Definition buy_of (lim lot : Z) (o : BbOrder) (c : acommand) : Prop := c = ALimit ABuy 0 lim lot ∧ spot_order o ABuy lim lot.

Definition fresh (os : list BbOrder) (seen : list string) : Prop := NoDup (numbers os) ∧ ∀ n, n ∈ numbers os → n ∉ seen.

Lemma fresh_cons o os seen : fresh (o :: os) seen → trust_order_no o ∉ seen ∧ fresh os (trust_order_no o :: seen).
Proof.
  intros [Hnd Hs]. apply NoDup_cons in Hnd as [Hn Hnd]. split; [apply Hs; by left|]. split; [done|]. intros n Hin [->|Hold]%elem_of_cons; [done|]. by apply (Hs n); [right|].
Qed.

Lemma spot_sells_run lim L os : ∀ cs e ab seen,
  Forall2 (sell_of lim L) os cs → fresh os seen → spot_state e ab seen → orders Buy (book_of e BTCUSDT) = [] → a_buys ab = [] →
  Forall (λ en, en_id en = 0 ∧ en_lot en = L) (a_sells ab) → Forall (λ en, en_tick en <= lim ∧ 0 < en_lot en) (a_sells ab) →
  ∃ e', (∀ rest n, engine_fills e (os ++ rest) n = engine_fills e' rest (n + a_fills (a_run ab cs).1))
    ∧ spot_state e' (a_run ab cs).2 (rev (numbers os) ++ seen) ∧ Forall (λ en, en_tick en <= lim ∧ 0 < en_lot en) (a_sells (a_run ab cs).2).
Proof.
  induction os as [|o os IH]; intros cs e ab seen H2 Hfr Hst Hb Hab Hl Ht; inversion H2 as [|? c ? cs' Hoc Hcs]; subst; cbn [a_run].
  - exists e. split_and!; [|done|done]. intros rest n. cbn. by rewrite Nat.add_0_r.
  - destruct Hoc as (tick & -> & Htick & Ho). apply fresh_cons in Hfr as [Hno Hfr]. pose proof (anon_lot _ _ _ _ (proj2 (proj2 Ho))) as HL.
    destruct (spot_sell_step e ab seen o tick L Hst Hb Hab Ho Hno Hl) as (e1 & Hon & Hev & Hst1 & Hb1 & Hab1 & Hl1).
    assert (Forall (λ en, en_tick en <= lim ∧ 0 < en_lot en) (a_sells (a_step ab (ALimit ASell 0 tick L)).2)) as Ht1.
    { unfold a_step. cbn [across entries]. rewrite Hab. cbn [take_from]. rewrite (proj2 (Z.eqb_neq _ _)) by lia. cbn [set_entries a_sells snd].
      clear -Ht Htick HL. induction Ht as [|x l Hx Hl IH]; cbn [queue_up]; [by constructor|]. destruct (ahead _ _ _); rewrite !Forall_cons; done. }
    destruct (a_step ab _) as [aevs ab1]. cbn [fst snd] in *. subst aevs. destruct (IH cs' e1 ab1 _ Hcs Hfr Hst1 Hb1 Hab1 Hl1 Ht1) as (e' & Hrun & Hst' & Ht').
    destruct (a_run ab1 cs') as [evss ab2]. cbn [fst snd] in *. exists e'. split_and!; [| |done].
    + intros rest n. cbn [app engine_fills]. rewrite Hon. cbn [mbind option_bind]. rewrite Hrun, a_fills_cons. do 2 f_equal. cbn. lia.
    + cbn. by rewrite <- app_assoc.
Qed.

Lemma spot_buys_run lim lot os : ∀ cs e ab seen,
  Forall2 (buy_of lim lot) os cs → fresh os seen → spot_state e ab seen → Forall (λ en, en_tick en <= lim ∧ 0 < en_lot en) (a_sells ab) →
  ∀ n, engine_fills e os n = Some (n + a_fills (a_run ab cs).1)%nat.
Proof.
  induction os as [|o os IH]; intros cs e ab seen H2 Hfr Hst Ht n; inversion H2 as [|? c ? cs' Hoc Hcs]; subst; cbn [a_run engine_fills]; [by rewrite Nat.add_0_r|].
  destruct Hoc as [-> Ho]. apply fresh_cons in Hfr as [Hno Hfr]. destruct (spot_buy_step e ab seen o lim lot Hst Ho Hno Ht) as (evs & e1 & -> & Hf & Hst1 & Ht1). cbn [mbind option_bind].
  destruct (a_step ab _) as [aevs ab1]. cbn [fst snd] in *. rewrite (IH cs' e1 ab1 _ Hcs Hfr Hst1 Ht1). destruct (a_run ab1 cs') as [evss ab2]. cbn [fst]. rewrite a_fills_cons, Hf. f_equal. lia.
Qed.

Lemma spot_state_new : spot_state engine_new abook_new [].
Proof.
  assert (book_of engine_new BTCUSDT = book_new) as Hb by (unfold book_of; by rewrite (lookup_empty (M:=gmap string) BTCUSDT : engine_new !! BTCUSDT = None)).
  split; rewrite Hb; [apply book_inv_new|by intros [] x ?%elem_of_nil|constructor|by left].
Qed.

(** Two phases: the fills are those of the abstract book. *)
Lemma spot_two_phases lim L k sells buys scs bcs :
  0 < L → Forall2 (sell_of lim L) sells scs → Forall2 (buy_of lim (Z.of_nat k * L)) buys bcs → fresh (sells ++ buys) [] →
  engine_fills engine_new (sells ++ buys) 0 = Some (Nat.min (length buys * k) (length sells)).
Proof.
  intros HL Hs Hb [Hnd _]. unfold numbers in Hnd. rewrite fmap_app in Hnd. apply NoDup_app in Hnd as (Hnd1 & Hdis & Hnd2).
  assert (orders Buy (book_of engine_new BTCUSDT) = []) as Hb0 by (destruct (sp_bids _ _ _ spot_state_new) as [[? _]|[? _]]; [done|]; unfold book_of; by rewrite (lookup_empty (M:=gmap string) BTCUSDT : engine_new !! BTCUSDT = None)).
  destruct (spot_sells_run lim L sells scs engine_new abook_new [] Hs) as (e & Hrun & Hst & Ht); [split; [done|by intros n _ ?%elem_of_nil]|apply spot_state_new|done|done|constructor|constructor|].
  rewrite Hrun, app_nil_r in *. rewrite (spot_buys_run lim (Z.of_nat k * L) buys bcs e (a_run abook_new scs).2 (rev (numbers sells)) Hb); [|split; [done|]|done|done].
  - f_equal. rewrite (Forall2_length _ _ _ Hs), (Forall2_length _ _ _ Hb).
    rewrite <- (two_phase_fills lim L k scs bcs HL); [by rewrite a_run_app; cbn [fst]; rewrite a_fills_app|..].
    + intros c Hc. destruct (Forall2_elem_r _ _ _ _ Hs Hc) as (o & _ & tick & -> & Hle & _). eauto.
    + intros c Hc. destruct (Forall2_elem_r _ _ _ _ Hb Hc) as (o & _ & -> & _). eauto.
  - intros n Hn Hr. apply (Hdis n); [|done]. by rewrite list_elem_of_In, <- in_rev, <- list_elem_of_In in Hr.
Qed.

(** ** Bids alone *)

Definition no_asks (e : Engine) : Prop := ∀ s, book_inv s (book_of e s) ∧ orders Sell (book_of e s) = [].

Lemma no_asks_book key book o :
  book_inv key book → orders Sell book = [] → (∃ tick lot, anon_limit o ABuy 0 tick lot) ∨ is_revoke o = true →
  ∃ evs book', on_book book o = Some (evs, book') ∧ core_fills evs = 0%nat ∧ orders Sell book' = [].
Proof.
  intros Hinv Hs [(tick & lot & Hnew)|Hrev].
  - destruct (contains_order_no book (trust_order_no o)) eqn:Hc.
    + exists [], book. split_and!; [|done|done]. unfold on_book. destruct Hnew as (Hr & _). by rewrite Hr, Hc.
    + destruct (core_rests key book o ABuy tick lot Hinv Hs Hnew Hc) as (l1 & l2 & _ & _ & Hon). eexists _, _. split; [exact Hon|]. done.
  - unfold on_book, revoke_order, revoke_order_with_reason. rewrite Hrev. destruct (from_order_type (order_type o)) as [t|]; [|by eexists _, _].
    destruct (remove_by_order_no_spec t (trust_order_no o) book (book_ok_side t book (proj1 Hinv))) as [(l1 & x & l2 & Hl & _ & ->)|(_ & ->)]; [|by eexists _, _].
    eexists _, _. split; [reflexivity|]. split; [done|]. rewrite numbers_with_orders. case_decide; [subst t|done]. rewrite Hs in Hl. by destruct l1.
Qed.

Lemma no_asks_run os : ∀ e n,
  no_asks e → Forall (λ o, order_valid o ∧ ((∃ tick lot, anon_limit o ABuy 0 tick lot) ∨ is_revoke o = true)) os → engine_fills e os n = Some n.
Proof.
  induction os as [|o os IH]; intros e n He Hos; [done|]. apply Forall_cons in Hos as [[Hv Ho] Hos]. destruct (He (symbol_key o)) as [Hinv Hs].
  destruct (no_asks_book _ _ o Hinv Hs Ho) as (evs & book' & Hon & Hf & Hs'). destruct (on_order_of_book e o evs book' Hon) as (e' & He' & Hb').
  destruct (on_book_inv _ _ o Hinv eq_refl Hv) as (? & ? & Hon2 & Hinv'). rewrite Hon in Hon2. injection Hon2 as <- <-. cbn [engine_fills]. rewrite He'. cbn [mbind option_bind]. rewrite Hf, Nat.add_0_r.
  apply IH; [|done]. intros s. destruct (decide (s = symbol_key o)) as [->|Hne]; [by rewrite Hb'|]. rewrite (on_order_elsewhere e o evs e' s He' Hne). apply He.
Qed.

Lemma no_asks_new : no_asks engine_new.
Proof.
  intros s. assert (book_of engine_new s = book_new) as -> by (unfold book_of; by rewrite (lookup_empty (M:=gmap string) s : engine_new !! s = None)). split; [apply book_inv_new|done].
Qed.

(** ** The orders of the scenarios *)

Definition type_of (t : aside) : Z := match t with ABuy => ORDER_TYPE_BUY | ASell => ORDER_TYPE_SELL end.

Lemma mq_limit_converts t sym no price qty d q tick lot :
  dec price = Some d → worth (unit 2) d tick → 0 < tick → dec qty = Some q → worth (unit 6) q lot → 0 < lot →
  ∃ o, type_convert_spot (mq_limit (type_of t) sym no price qty) = Some o ∧ symbol_key o = to_lowercase (remove_slash sym) ∧ trust_order_no o = no
    ∧ order_valid o ∧ anon_limit o t 0 tick lot.
Proof.
  intros Hd Wd Ht Hq Wq Hl. assert (⟦bd_zero⟧ == 0)%Q as H0 by apply bd_val_zero.
  assert (0 < ⟦d⟧)%Q as Hd0 by (unfold worth in Wd; rewrite Wd, <- (Qmult_0_l (unit 2)); by apply (unit_lt (unit 2) 0)).
  assert (0 < ⟦q⟧)%Q as Hq0 by (unfold worth in Wq; rewrite Wq, <- (Qmult_0_l (unit 6)); by apply (unit_lt (unit 6) 0)).
  destruct (type_convert_spot (mq_limit (type_of t) sym no price qty)) as [o|] eqn:E.
  - pose proof (type_convert_spot_valid _ _ E) as Hv. exists o. split; [done|]. unfold type_convert_spot, mq_limit in E. cbn [mq_symbol_key mq_trust_number mq_trust_price mq_order_form mbind option_bind] in E.
    unfold parse_decimal in E. fold (dec qty) in E. fold (dec price) in E. rewrite Hq, Hd in E. cbn [mbind option_bind] in E.
    destruct (q <=? bd_zero)%bd; [done|]. destruct (d <=? bd_zero)%bd; [done|]. cbn in E. injection E as <-. cbn. split; [done|]. split; [done|]. split; [done|].
    split; [done|]. split; [done|]. split; [by destruct t|]. split; [unfold quantity_ok, remaining; cbn; split; bdlra|]. split; [done|]. split; [done|].
    unfold worth, remaining in *. cbn. rewrite bd_val_sub, H0, <- Wq. lra.
  - exfalso. unfold type_convert_spot, mq_limit in E. cbn [mq_symbol_key mq_trust_number mq_trust_price mq_order_form mbind option_bind] in E.
    unfold parse_decimal in E. fold (dec qty) in E. fold (dec price) in E. rewrite Hq, Hd in E. cbn [mbind option_bind] in E.
    destruct (q <=? bd_zero)%bd eqn:E1; [bdb; lra|]. destruct (d <=? bd_zero)%bd eqn:E2; [bdb; lra|]. done.
Qed.

Lemma mapM_option_app {A B} (f : A → option B) l1 l2 k1 k2 : mapM f l1 = Some k1 → mapM f l2 = Some k2 → mapM f (l1 ++ l2) = Some (k1 ++ k2).
Proof. intros H1%mapM_Some H2%mapM_Some. apply mapM_Some. by apply Forall2_app. Qed.

Lemma convert_all (f : nat → MqOrder) (no : nat → string) (P : BbOrder → Prop) (l : list nat) :
  (∀ i, ∃ o, type_convert_spot (f i) = Some o ∧ trust_order_no o = no i ∧ P o) →
  ∃ os, mapM type_convert_spot (f <$> l) = Some os ∧ Forall P os ∧ numbers os = no <$> l.
Proof.
  intros Hf. induction l as [|i l (os & Hm & HP & Hn)]; [by exists []|]. destruct (Hf i) as (o & Ho & Hno & HPo). exists (o :: os).
  cbn [fmap list_fmap mapM]. rewrite Ho. cbn [mbind option_bind]. rewrite Hm. split; [done|]. split; [by constructor|]. cbn. by rewrite Hno, <- Hn.
Qed.

Lemma commands_of (R : BbOrder → acommand → Prop) os : Forall (λ o, ∃ c, R o c) os → ∃ cs, Forall2 R os cs.
Proof. induction 1 as [|o os [c Hc] _ [cs Hcs]]; [by exists []|]. exists (c :: cs). by constructor. Qed.

Lemma tick_text_worth i m : (0 < m <= 200)%nat → ∃ d, dec (tick_text i m) = Some d ∧ worth (unit 2) d (10000 + Z.of_nat (i mod m)) ∧ 10000 <= 10000 + Z.of_nat (i mod m) < 10200.
Proof.
  intros Hm. pose proof (Nat.mod_upper_bound i m ltac:(lia)). destruct (price_text_worth (10000 + Z.of_nat (i mod m)) ltac:(lia)) as (d & Hd & Wd). exists d. split_and!; try done; lia.
Qed.

(** What a bid of the scenarios becomes: fit to rest. *)
Definition bid_ok (o : BbOrder) : Prop := order_valid o ∧ ((∃ tick lot, anon_limit o ABuy 0 tick lot) ∨ is_revoke o = true).

Lemma bids_converted sym prefix m l :
  (0 < m <= 200)%nat →
  ∃ os, mapM type_convert_spot ((λ i, mq_limit ORDER_TYPE_BUY sym (numbered prefix i) (tick_text i m) "1") <$> l) = Some os ∧ Forall bid_ok os.
Proof.
  intros Hm. destruct one_worth as (q & Hq & Wq). destruct (convert_all (λ i, mq_limit ORDER_TYPE_BUY sym (numbered prefix i) (tick_text i m) "1") (numbered prefix) bid_ok l) as (os & ? & ? & _); [|eauto].
  intros i. destruct (tick_text_worth i m Hm) as (d & Hd & Wd & Hr). destruct (mq_limit_converts ABuy sym (numbered prefix i) (tick_text i m) "1" d q _ _ Hd Wd ltac:(lia) Hq Wq ltac:(lia)) as (o & Ho & _ & Hno & Hv & Hnew).
  exists o. split; [exact Ho|]. split; [done|]. split; [done|]. left. eauto.
Qed.

(** A revoke of the same order. *)
Lemma revokes_converted sym prefix m l :
  (0 < m <= 200)%nat →
  ∃ os, mapM type_convert_spot ((λ i, set_revoke (mq_limit ORDER_TYPE_BUY sym (numbered prefix i) (tick_text i m) "1")) <$> l) = Some os ∧ Forall bid_ok os.
Proof.
  intros Hm. destruct one_worth as (q & Hq & Wq).
  destruct (convert_all (λ i, set_revoke (mq_limit ORDER_TYPE_BUY sym (numbered prefix i) (tick_text i m) "1")) (numbered prefix) bid_ok l) as (os & ? & ? & _); [|eauto].
  intros i. destruct (tick_text_worth i m Hm) as (d & Hd & Wd & Hr). destruct (mq_limit_converts ABuy sym (numbered prefix i) (tick_text i m) "1" d q _ _ Hd Wd ltac:(lia) Hq Wq ltac:(lia)) as (o & Ho & _ & Hno & Hv & Hnew).
  destruct (type_convert_spot (set_revoke (mq_limit ORDER_TYPE_BUY sym (numbered prefix i) (tick_text i m) "1"))) as [o'|] eqn:E.
  - pose proof (type_convert_spot_valid _ _ E) as Hv'. exists o'. split; [done|]. unfold type_convert_spot, set_revoke, mq_limit in E. cbn [mq_symbol_key mq_trust_number mq_trust_price mq_order_form mbind option_bind] in E.
    unfold parse_decimal in E. fold (dec "1") in E. fold (dec (tick_text i m)) in E. rewrite Hq, Hd in E. cbn [mbind option_bind] in E. repeat (case_match; [done|]). cbn in E. injection E as <-. split; [done|]. split; [done|]. by right.
  - exfalso. unfold type_convert_spot, set_revoke, mq_limit in E, Ho. cbn [mq_symbol_key mq_trust_number mq_trust_price mq_order_form mbind option_bind] in E, Ho.
    destruct (parse_decimal "1"); [|done]. destruct (parse_decimal (tick_text i m)); [|done]. cbn [mbind option_bind] in E, Ho. repeat (case_match; [done|]). done.
Qed.

Lemma limits_converted t prefix (price : nat → string) (tick : nat → Z) qty lot l :
  (∀ i, ∃ d, dec (price i) = Some d ∧ worth (unit 2) d (tick i) ∧ 0 < tick i) → (∃ q, dec qty = Some q ∧ worth (unit 6) q lot) → 0 < lot →
  ∃ os, mapM type_convert_spot ((λ i, mq_limit (type_of t) BTCUSDT (numbered prefix i) (price i) qty) <$> l) = Some os
    ∧ Forall (λ o, ∃ i, spot_order o t (tick i) lot) os ∧ numbers os = numbered prefix <$> l.
Proof.
  intros Hp (q & Hq & Wq) Hl. apply convert_all. intros i. destruct (Hp i) as (d & Hd & Wd & Ht).
  destruct (mq_limit_converts t BTCUSDT (numbered prefix i) (price i) qty d q _ _ Hd Wd Ht Hq Wq Hl) as (o & Ho & Hs & Hno & Hv & Hnew). exists o. split; [done|]. split; [done|]. exists i. by split.
Qed.

(** Sells of one size, then buys of [k] times that size: every sell is taken as long as there are buys. *)
Lemma two_phase_bench p1 p2 (price : nat → string) (tick : nat → Z) lim_text lim L k qty1 qty2 n1 n2 :
  0 < L → (0 < k)%nat → 0 < lim → (∀ i, ∃ d, dec (price i) = Some d ∧ worth (unit 2) d (tick i) ∧ 0 < tick i) → (∀ i, tick i <= lim) →
  (∃ d, dec lim_text = Some d ∧ worth (unit 2) d lim) → (∃ q, dec qty1 = Some q ∧ worth (unit 6) q L) → (∃ q, dec qty2 = Some q ∧ worth (unit 6) q (Z.of_nat k * L)) →
  Z.of_nat n1 < 2 ^ 64 → Z.of_nat n2 < 2 ^ 64 → (∀ i j, numbered p1 i ≠ numbered p2 j) →
  ∃ bb, mapM type_convert_spot (((λ i, mq_limit ORDER_TYPE_SELL BTCUSDT (numbered p1 i) (price i) qty1) <$> seq 0 n1)
                                ++ ((λ i, mq_limit ORDER_TYPE_BUY BTCUSDT (numbered p2 i) lim_text qty2) <$> seq 0 n2)) = Some bb
    ∧ engine_fills engine_new bb 0 = Some (Nat.min (n2 * k) n1).
Proof.
  intros HL Hk Hlim Hp Hle (dl & Hdl & Wdl) Hq1 Hq2 Hn1 Hn2 Hne.
  destruct (limits_converted ASell p1 price tick qty1 L (seq 0 n1) Hp Hq1 HL) as (sells & Hm1 & Hs & Hnum1).
  destruct (limits_converted ABuy p2 (λ _, lim_text) (λ _, lim) qty2 (Z.of_nat k * L) (seq 0 n2)) as (buys & Hm2 & Hb & Hnum2); [intros _; by exists dl|done|lia|].
  exists (sells ++ buys). split; [by apply mapM_option_app|].
  destruct (commands_of (sell_of lim L) sells) as [scs Hscs]; [eapply Forall_impl; [exact Hs|]; intros o (i & Ho); eexists; exists (tick i); split_and!; [done|apply Hle|exact Ho]|].
  destruct (commands_of (buy_of lim (Z.of_nat k * L)) buys) as [bcs Hbcs]; [eapply Forall_impl; [exact Hb|]; intros o (i & Ho); eexists; by split|].
  rewrite (spot_two_phases lim L k sells buys scs bcs HL Hscs Hbcs).
  - apply (f_equal length) in Hnum1, Hnum2. unfold numbers in Hnum1, Hnum2. rewrite !length_fmap, length_seq in Hnum1, Hnum2. by rewrite Hnum1, Hnum2.
  - split; [|by intros n _ ?%elem_of_nil]. unfold numbers in *. rewrite fmap_app, Hnum1, Hnum2. by apply prefixes_nodup.
Qed.

(** The fills the scenarios are made for, and their numbers of orders. *)
Definition spot_fills (sc : SpotScenario) (n : nat) : nat := match sc with SCross => n / 2 | SPartial => n * 4 / 5 | _ => 0 end%nat.
Definition spot_sent (sc : SpotScenario) (n : nat) : nat := match sc with SMulti10 => 10 * (n / 10) | _ => n end%nat.
End Book.

(** The engine layer of every scenario, at every size: the orders are converted and handled to the end.  Bids
    alone and revokes make no fill, half of the crossing orders meet the other half, and the takers of the partial
    scenario take every maker.  The scenario with ten symbols has ten times a tenth of the orders. *)
Theorem spot_bench_fills `{PP : PlainParse} sc n :
  Z.of_nat n < 2 ^ 63 →
  bench_engine sc (scenario_orders sc n) = Some (mkStats "engine" (scenario_name sc) (spot_sent sc n) (spot_fills sc n) 0).
Proof.
  intros Hn. assert (∀ orders bb, mapM type_convert_spot orders = Some bb → length orders = spot_sent sc n → engine_fills engine_new bb 0 = Some (spot_fills sc n) →
    bench_engine sc orders = Some (mkStats "engine" (scenario_name sc) (spot_sent sc n) (spot_fills sc n) 0)) as Hrow.
  { intros orders bb Hm Hl Hf. unfold bench_engine. rewrite Hm. cbn [mbind option_bind]. rewrite Hf. cbn [mbind option_bind]. by rewrite Hl. }
  pose proof (Nat.Div0.div_le_upper_bound n 2 n ltac:(lia)). pose proof (Nat.Div0.div_le_upper_bound (n * 4) 5 n ltac:(lia)).
  destruct sc; cbn [scenario_orders].
  - destruct (bids_converted BTCUSDT "r" 100 (seq 0 n) ltac:(lia)) as (os & Hm & Hok). eapply Hrow; [exact Hm|unfold rest_orders; by rewrite length_fmap, length_seq|]. by apply no_asks_run; [apply no_asks_new|].
  - destruct (two_phase_bench "s" "b" (λ _, "100.00"%string) (λ _, 10000) "100.00" 10000 1000000 1 "1" "1" (n / 2) (n - n / 2)) as (bb & Hm & Hf);
      [done|lia|done|intros _; destruct hundred_worth as (d & ? & ?); by exists d|done|apply hundred_worth|apply one_worth|apply one_worth|lia|lia|done|].
    eapply Hrow; [exact Hm|unfold cross_orders; rewrite length_app, !length_fmap, !length_seq; cbn [spot_sent]; lia|]. rewrite Hf. f_equal. cbn [spot_fills]. pose proof (Nat.div_mod_eq n 2). lia.
  - destruct (two_phase_bench "pw_s" "pw_b" (λ i, tick_text i 200) (λ i, 10000 + Z.of_nat (i mod 200)) "102.00" 10200 1000000 5 "1" "5" (n * 4 / 5) (n - n * 4 / 5)) as (bb & Hm & Hf);
      [done|lia|done|intros i; destruct (tick_text_worth i 200 ltac:(lia)) as (d & ? & ? & ?); exists d; split_and!; [done|done|lia]|intros i; destruct (tick_text_worth i 200 ltac:(lia)) as (d & _ & _ & ?); lia|apply limit_price_worth|apply one_worth|apply five_worth|lia|lia|done|].
    eapply Hrow; [exact Hm|unfold partial_orders; rewrite length_app, !length_fmap, !length_seq; cbn [spot_sent]; lia|]. rewrite Hf. f_equal. cbn [spot_fills]. pose proof (Nat.div_mod_eq (n * 4) 5). lia.
  - destruct (bids_converted BTCUSDT "c" 50 (seq 0 (n / 2)) ltac:(lia)) as (os1 & Hm1 & Hok1). destruct (revokes_converted BTCUSDT "c" 50 (seq 0 (n - n / 2)) ltac:(lia)) as (os2 & Hm2 & Hok2).
    eapply Hrow; [exact (mapM_option_app _ _ _ _ _ Hm1 Hm2)|unfold cancel_orders; rewrite length_app, !length_fmap, !length_seq; cbn [spot_sent]; lia|]. apply no_asks_run; [apply no_asks_new|]. by apply Forall_app.
  - assert (∀ l, ∃ os, mapM type_convert_spot (l ≫= λ s, rest_orders (n / 10) (multi_symbol s)) = Some os ∧ Forall bid_ok os ∧ length (l ≫= λ s, rest_orders (n / 10) (multi_symbol s)) = (length l * (n / 10))%nat) as Hall.
    { induction l as [|s l (os & Hm & Hok & Hl)]; [by exists []|]. destruct (bids_converted (multi_symbol s) "r" 100 (seq 0 (n / 10)) ltac:(lia)) as (os1 & Hm1 & Hok1). exists (os1 ++ os).
      cbn [mbind list_bind]. split; [exact (mapM_option_app _ _ _ _ _ Hm1 Hm)|]. split; [by apply Forall_app|]. rewrite length_app. cbn [length]. rewrite Nat.mul_succ_l, Nat.add_comm. f_equal; [exact Hl|]. unfold rest_orders. by rewrite length_fmap, length_seq. }
    destruct (Hall (seq 0 10)) as (os & Hm & Hok & Hl). eapply Hrow; [exact Hm|by rewrite Hl, length_seq|]. by apply no_asks_run; [apply no_asks_new|].
Qed.

Section Shell.
Context `{PP : PlainParse}.

(** ** Acceptance *)

Lemma converted_symbol m o s : type_convert_spot m = Some o → mq_symbol_key m = Some s → symbol_key o = to_lowercase (remove_slash s).
Proof.
  unfold type_convert_spot. intros Hc Hs. rewrite Hs in Hc. cbn [mbind option_bind] in Hc.
  repeat match type of Hc with
  | (mbind _ ?x) = _ => destruct x; cbn [mbind option_bind] in Hc; try discriminate Hc
  | (if ?b then _ else _) = _ => destruct b; try discriminate Hc
  end. by injection Hc as <-.
Qed.

Lemma mq_limit_checked t sym no price qty :
  is_blank (Some sym) = false → is_blank (Some no) = false → is_blank (Some price) = false → is_blank (Some qty) = false →
  check_mq_order_spot (mq_limit (type_of t) sym no price qty) = true ∧ check_mq_order_spot (set_revoke (mq_limit (type_of t) sym no price qty)) = true.
Proof.
  intros Hs Hn Hp Hq. unfold check_mq_order_spot, set_revoke, mq_limit.
  cbn [mq_user_id mq_type mq_order_type mq_market_id mq_coin_id mq_order_form mq_gear mq_symbol_key mq_coin_market mq_trust_order_no mq_order_status mq_trust_number mq_trust_price mq_create_time].
  rewrite Hs, Hn, Hp, Hq. by destruct t.
Qed.

Lemma tick_text_not_blank i m : (0 < m <= 200)%nat → is_blank (Some (tick_text i m)) = false.
Proof.
  intros Hm. pose proof (Nat.mod_upper_bound i m ltac:(lia)). unfold tick_text.
  assert (Forall (λ k, is_blank (Some (price_text (10000 + Z.of_nat k))) = false) (seq 0 200)) as Hall by (apply Forall_forall; intros k Hk; revert k Hk; apply Forall_forall; by repeat constructor).
  rewrite Forall_forall in Hall. apply Hall. apply elem_of_seq. lia.
Qed.

(** What the queue takes of an order of the scenarios. *)
Definition taken (m : MqOrder) (o : BbOrder) : Prop := accepted_spot m = Some o ∧ symbol_key o = BTCUSDT.

Lemma new_taken t no price qty d q tick lot :
  is_blank (Some no) = false → is_blank (Some price) = false → is_blank (Some qty) = false →
  dec price = Some d → worth (unit 2) d tick → 0 < tick → dec qty = Some q → worth (unit 6) q lot → 0 < lot →
  ∃ o, taken (mq_limit (type_of t) BTCUSDT no price qty) o ∧ announced o = true.
Proof.
  intros Hn Hp Hqb Hd Wd Ht Hq Wq Hl. destruct (mq_limit_converts t BTCUSDT no price qty d q tick lot Hd Wd Ht Hq Wq Hl) as (o & Ho & Hs & _ & _ & Hrev & Hform & _).
  exists o. split; [split; [|done]|].
  - unfold accepted_spot. by rewrite (proj1 (mq_limit_checked t BTCUSDT no price qty eq_refl Hn Hp Hqb)).
  - unfold announced. unfold is_revoke in Hrev. rewrite Hrev, Hform. done.
Qed.

Lemma all_taken (f : nat → MqOrder) (P : BbOrder → Prop) l :
  (∀ i, ∃ o, taken (f i) o ∧ P o) → ∃ bb, Forall2 taken (f <$> l) bb ∧ Forall P bb.
Proof.
  intros Hf. induction l as [|i l (bb & IH & HP)]; [by exists []|]. destruct (Hf i) as (o & Ho & HPo). exists (o :: bb). by split; constructor.
Qed.

(** ** The queue *)

Context (b64 : string → string) (ser : Body → list Z) (wreck : Engine → BbOrder → Engine).
Context (to_vec : list MqOrder → list Z) (from_slice : list Z → option (list MqOrder)).
Hypothesis json_roundtrip : ∀ l, from_slice (to_vec l) = Some l.

Lemma queue_takes orders bb : Forall2 taken orders bb → ∀ cap items,
  (length items + length orders <= cap)%nat →
  foldl (λ r body, (handle_body from_slice r body).1) (register_queue router_new BTCUSDT (mkChan cap items true)) (encode_batches to_vec orders)
  = register_queue router_new BTCUSDT (mkChan cap (items ++ bb) true).
Proof.
  induction 1 as [|m o orders bb [Ha Hs] _ IH]; intros cap items Hcap; [by rewrite app_nil_r|]. cbn [length] in Hcap.
  unfold encode_batches. cbn [fmap list_fmap foldl]. unfold handle_body at 2. rewrite json_roundtrip. cbn [foldl fst]. rewrite handle_mq_order_accepted, Ha.
  unfold enqueue. cbn [register_queue queues router_new]. rewrite Hs, lookup_insert_eq. cbn [ch_open negb ch_cap ch_items]. rewrite (proj2 (Nat.leb_gt _ _)) by lia. cbn [fst]. rewrite insert_insert_eq.
  etrans; [apply (IH cap (items ++ [o])); rewrite length_app; cbn; lia|]. by rewrite <- app_assoc.
Qed.

Lemma shell_queue_all cap orders bb : Forall2 taken orders bb → (length orders <= cap)%nat → shell_queue from_slice BTCUSDT cap (encode_batches to_vec orders) = bb.
Proof.
  intros H2 Hcap. unfold shell_queue, shell_router. rewrite (queue_takes orders bb H2 cap [] Hcap). cbn [register_queue queues router_new]. by rewrite lookup_insert_eq.
Qed.

(** ** The messages *)

Lemma announced_pushed split symbol l : ∀ evss,
  length evss = length l → (length (filter (λ o, announced o = true) l.*1) <= length (concat (zip_with (round_attempts b64 split symbol) l evss)))%nat.
Proof.
  induction l as [|[o v] l IH]; intros [|evs evss] Hlen; try done. cbn [fmap list_fmap fst zip_with concat]. injection Hlen as Hlen. specialize (IH evss Hlen).
  rewrite length_app, filter_cons. unfold round_attempts at 1. cbn [fst]. case_decide as Ha; [rewrite Ha; cbn [length app]; lia|lia].
Qed.


Lemma shell_messages clock sc orders bb :
  Forall2 taken orders bb →
  let s := bench_shell_single b64 ser wreck from_slice clock sc (encode_batches to_vec orders) in
  st_n_orders s = length orders ∧ st_match_fills s = st_mq_out s ∧ (length (filter (λ o, announced o = true) bb) <= st_match_fills s)%nat.
Proof.
  intros H2. unfold bench_shell_single. assert (length (encode_batches to_vec orders) = length orders) as Hl by (unfold encode_batches; apply length_fmap).
  rewrite (shell_queue_all _ orders bb H2) by (rewrite Hl; lia). set (l := zip bb _).
  assert (l.*1 = bb) as Hfst by (apply fst_zip; by rewrite length_fmap, length_seq).
  destruct (worker_run_extends b64 ser wreck engine_new shell_outbound BTCUSDT l engine_new_ok) as (evss & e' & ob' & new & Hw & Hr & _ & X & P).
  - apply Forall_forall. intros p Hp. assert (p.1 ∈ bb) as Hin by (rewrite <- Hfst; apply list_elem_of_fmap; by exists p).
    destruct (Forall2_elem_r _ _ _ _ H2 Hin) as (m & _ & Ha & _). by exists m.
  - apply Forall_forall. intros [o v] Hp. subst l. apply elem_of_zip_r in Hp. apply list_elem_of_fmap in Hp as (i & -> & _). done.
  - rewrite Hw. cbn [st_n_orders st_match_fills st_mq_out]. split; [done|]. split; [done|]. rewrite (ex_log _ _ _ _ _ _ X). cbn [shell_outbound outbound_new ob_log app].
    apply Shards.run_each_length in Hr. rewrite length_fmap in Hr. pose proof (announced_pushed (ob_split shell_outbound) BTCUSDT l evss Hr) as Hle. rewrite Hfst, <- P in Hle.
    etrans; [exact Hle|]. apply length_filter.
Qed.

(** The orders of a scenario that are no revokes. *)
Definition spot_new (sc : SpotScenario) (n : nat) : nat := match sc with SCancel => n / 2 | _ => spot_sent sc n end%nat.

Lemma new_filtered bb : Forall (λ o, announced o = true) bb → filter (λ o, announced o = true) bb = bb.
Proof. induction 1 as [|o bb Ho _ IH]; [done|]. by rewrite filter_cons_True, IH. Qed.

Lemma bids_taken prefix m l :
  (0 < m <= 200)%nat → (∀ i, is_blank (Some (numbered prefix i)) = false) →
  ∃ bb, Forall2 taken ((λ i, mq_limit ORDER_TYPE_BUY BTCUSDT (numbered prefix i) (tick_text i m) "1") <$> l) bb ∧ Forall (λ o, announced o = true) bb.
Proof.
  intros Hm Hp. destruct one_worth as (q & Hq & Wq). apply all_taken. intros i. destruct (tick_text_worth i m Hm) as (d & Hd & Wd & Hr).
  exact (new_taken ABuy _ _ "1" d q _ _ (Hp i) (tick_text_not_blank i m Hm) eq_refl Hd Wd ltac:(lia) Hq Wq ltac:(lia)).
Qed.

Lemma limits_taken t prefix (price : nat → string) (tick : nat → Z) qty lot l :
  (∀ i, is_blank (Some (numbered prefix i)) = false) → (∀ i, is_blank (Some (price i)) = false) → is_blank (Some qty) = false →
  (∀ i, ∃ d, dec (price i) = Some d ∧ worth (unit 2) d (tick i) ∧ 0 < tick i) → (∃ q, dec qty = Some q ∧ worth (unit 6) q lot) → 0 < lot →
  ∃ bb, Forall2 taken ((λ i, mq_limit (type_of t) BTCUSDT (numbered prefix i) (price i) qty) <$> l) bb ∧ Forall (λ o, announced o = true) bb.
Proof.
  intros Hn Hpb Hqb Hp (q & Hq & Wq) Hl. apply all_taken. intros i. destruct (Hp i) as (d & Hd & Wd & Ht).
  exact (new_taken t _ _ qty d q _ _ (Hn i) (Hpb i) Hqb Hd Wd Ht Hq Wq Hl).
Qed.

Lemma revokes_taken prefix m l :
  (0 < m <= 200)%nat → (∀ i, is_blank (Some (numbered prefix i)) = false) →
  ∃ bb, Forall2 taken ((λ i, set_revoke (mq_limit ORDER_TYPE_BUY BTCUSDT (numbered prefix i) (tick_text i m) "1")) <$> l) bb.
Proof.
  intros Hm Hp. destruct (all_taken (λ i, set_revoke (mq_limit ORDER_TYPE_BUY BTCUSDT (numbered prefix i) (tick_text i m) "1")) (λ _, True) l) as (bb & ? & _); [|eauto].
  intros i. destruct (revokes_converted BTCUSDT prefix m [i] Hm) as (os & Hos & _). cbn [fmap list_fmap] in Hos. apply mapM_Some, Forall2_cons_inv_l in Hos as (o & ? & Ho & _).
  exists o. split; [|done]. split; [|exact (converted_symbol _ o BTCUSDT Ho eq_refl)].
  unfold accepted_spot. pose proof (mq_limit_checked ABuy BTCUSDT (numbered prefix i) (tick_text i m) "1" eq_refl (Hp i) (tick_text_not_blank i m Hm) eq_refl) as [_ Hc]. cbn [type_of] in Hc. by rewrite Hc.
Qed.

(** The orders of a scenario of one symbol, as the queue takes them. *)
Lemma scenario_taken sc n :
  sc ≠ SMulti10 → ∃ bb, Forall2 taken (scenario_orders sc n) bb ∧ (spot_new sc n <= length (filter (λ o, announced o = true) bb))%nat.
Proof.
  assert (∀ l1 l2 bb1 bb2, Forall2 taken l1 bb1 → Forall2 taken l2 bb2 → Forall (λ o, announced o = true) bb1 →
    ∃ bb, Forall2 taken (l1 ++ l2) bb ∧ (length l1 + length (filter (λ o, announced o = true) bb2) <= length (filter (λ o, announced o = true) bb))%nat) as Happ.
  { intros l1 l2 bb1 bb2 H1 H2 Ha. exists (bb1 ++ bb2). split; [by apply Forall2_app|]. rewrite filter_app, length_app, (new_filtered bb1 Ha), (Forall2_length _ _ _ H1). lia. }
  intros Hsc. destruct sc; [..|done]; cbn [scenario_orders spot_new spot_sent].
  - destruct (bids_taken "r" 100 (seq 0 n) ltac:(lia) ltac:(done)) as (bb & H2 & Ha). exists bb. split; [exact H2|]. rewrite (new_filtered bb Ha), <- (Forall2_length _ _ _ H2), length_fmap, length_seq. done.
  - destruct hundred_worth as (d & Hd & Wd). destruct (limits_taken ASell "s" (λ _, "100.00"%string) (λ _, 10000) "1" 1000000 (seq 0 (n / 2))) as (bb1 & H1 & Ha1); try done; [by exists d|apply one_worth|].
    destruct (limits_taken ABuy "b" (λ _, "100.00"%string) (λ _, 10000) "1" 1000000 (seq 0 (n - n / 2))) as (bb2 & H2 & Ha2); try done; [by exists d|apply one_worth|].
    destruct (Happ _ _ _ _ H1 H2 Ha1) as (bb & Hbb & Hle). exists bb. split; [exact Hbb|]. rewrite (new_filtered bb2 Ha2), <- (Forall2_length _ _ _ H2), !length_fmap, !length_seq in Hle. lia.
  - destruct limit_price_worth as (d & Hd & Wd). destruct (limits_taken ASell "pw_s" (λ i, tick_text i 200) (λ i, 10000 + Z.of_nat (i mod 200)) "1" 1000000 (seq 0 (n * 4 / 5))) as (bb1 & H1 & Ha1);
      try done; [intros i; apply tick_text_not_blank; lia|intros i; destruct (tick_text_worth i 200 ltac:(lia)) as (d' & ? & ? & ?); exists d'; split_and!; [done|done|lia]|apply one_worth|].
    destruct (limits_taken ABuy "pw_b" (λ _, "102.00"%string) (λ _, 10200) "5" 5000000 (seq 0 (n - n * 4 / 5))) as (bb2 & H2 & Ha2); try done; [by exists d|apply five_worth|].
    destruct (Happ _ _ _ _ H1 H2 Ha1) as (bb & Hbb & Hle). exists bb. split; [exact Hbb|]. rewrite (new_filtered bb2 Ha2), <- (Forall2_length _ _ _ H2), !length_fmap, !length_seq in Hle. lia.
  - destruct (bids_taken "c" 50 (seq 0 (n / 2)) ltac:(lia) ltac:(done)) as (bb1 & H1 & Ha1). destruct (revokes_taken "c" 50 (seq 0 (n - n / 2)) ltac:(lia) ltac:(done)) as (bb2 & H2).
    destruct (Happ _ _ _ _ H1 H2 Ha1) as (bb & Hbb & Hle). exists bb. split; [exact Hbb|]. rewrite length_fmap, length_seq in Hle. lia.
Qed.

(** With an encoding of orders that reads back, the row of the shell for a scenario of one symbol gives as fills its messages, at least
    one for every new order, at every clock; the engine makes none of them in the scenarios of bids alone. *)
Theorem spot_shell_counts_messages clock sc n :
  sc ≠ SMulti10 →
  let s := bench_shell_single b64 ser wreck from_slice clock sc (encode_batches to_vec (scenario_orders sc n)) in
  st_n_orders s = n ∧ st_match_fills s = st_mq_out s ∧ (spot_new sc n <= st_match_fills s)%nat.
Proof.
  intros Hsc. destruct (scenario_taken sc n Hsc) as (bb & H2 & Hnew). destruct (shell_messages clock sc _ bb H2) as (Hn & Heq & Hle). split_and!; [|done|lia].
  etrans; [exact Hn|]. destruct sc; [..|done]; cbn [scenario_orders]; unfold rest_orders, cross_orders, partial_orders, cancel_orders; rewrite ?length_app, !length_fmap, !length_seq; try lia.
  - pose proof (Nat.Div0.div_le_upper_bound n 2 n ltac:(lia)). lia.
  - pose proof (Nat.Div0.div_le_upper_bound (n * 4) 5 n ltac:(lia)). lia.
  - pose proof (Nat.Div0.div_le_upper_bound n 2 n ltac:(lia)). lia.
Qed.

End Shell.

(** ** The arguments *)

Module SpotRuns.

(** A size below two, or one that is no number, is left out; nothing left means the default sizes. *)
Example sweep_sizes : parse_sweep_sizes (Some "1,x, 20 ,3"%string) = [20; 3] ∧ parse_sweep_sizes (Some "1"%string) = default_sweep_sizes.
Proof. by vm_compute. Qed.

(** More than one symbol asked for: only the scenario with ten of them. *)
Example rows_with_symbols : main_rows ["1"; "4"]%string = [(2, SMulti10)] ∧ length (main_rows []) = 4%nat ∧ length (main_rows ["sweep"]%string) = 20%nat.
Proof. by vm_compute. Qed.

End SpotRuns.
