(* ===== verification/MoldBench.v ===== *)
(** * The benchmarks of MoldUDP64

    Models [crates/match-dpdk-io/src/bin/mold_udp_bench.rs], [mold_mcast_bench.rs], [mold_outbound_bench.rs] and
    [mold_dpdk_bench.rs]: the publishing loop that tries again while its socket would
    block, the receiving loop, the exchange of a time between two sockets, packing into datagrams, the capture file
    and its replay.  What the sockets and the driver do is an argument; so are the
    readings of the clock; rates computed from them are left out.

    Through a network that delivers, the receiving loop ends with every message, and the two numbers printed beside the
    count include every call that would have blocked ([mold_udp_reports]); when a datagram is lost it never ends ([mold_udp_waits]).
    Packing sends all messages in datagrams of at most 53 ([mold_batch_packs]); the replay counts every frame ([mold_dpdk_counts]);
    the exchange of times ([mold_mcast_ends]). *)
From stdpp Require Import gmap sorting.
From S2P Require Import Prelude Journal HpScale Utf8 Mold MoldProps Frames DpdkApps DpdkProps SoupBench SoupBenchProps.

#[local] Open Scope Z_scope.

(** ** Publishing ([mold_udp_bench.rs], [mold_outbound_bench.rs]) *)

(** What [send_to] does. *)
Inductive send_result := SendOk | SendWouldBlock | SendFails.

(** The loop ended, waits for its socket, or returned an error. *)
Inductive pub_state := PubEnded (p : MoldPublisher) | PubSpins (p : MoldPublisher) | PubFailed (p : MoldPublisher).

(** [n] messages, [net] what happens at the calls of [send_to]: a call that would block is made again. *)
Fixpoint publish_all (tag : Z) (payload : list Z) (n : nat) (p : MoldPublisher) (net : list send_result) : list (list Z) * pub_state :=
  match n, net with
  | O, _ => ([], PubEnded p)
  | S _, [] => ([], PubSpins p)
  | S k, r :: net =>
      let '(d, p) := tagged_packet p tag payload in
      match r with
      | SendOk => let '(ds, st) := publish_all tag payload k p net in (d :: ds, st)
      | SendWouldBlock => publish_all tag payload n p net
      | SendFails => ([], PubFailed p)
      end
  end.

(** ** Receiving ([mold_udp_bench.rs]) *)

Definition UDP_BODY : list Z := replicate 24 0x42.

Inductive sub_state := SubEnded (seen : nat) (s : MoldSubscriber) | SubPolls (seen : nat) (s : MoldSubscriber).

Definition count_messages (seen : nat) (out : ParseOutcome) : nat := if po_is_heartbeat out then seen else (seen + length (po_messages out))%nat.

(** [while seen < n], on what the polls find; the buffer has 2048 bytes. *)
Fixpoint receive_all (n seen : nat) (s : MoldSubscriber) (polls : list (option (list Z))) : option sub_state :=
  if (n <=? seen)%nat then Some (SubEnded seen s)
  else match polls with
  | [] => Some (SubPolls seen s)
  | None :: polls => receive_all n seen s polls
  | Some d :: polls =>
      '(out, s) ← sub_recv s (take 2048 d);
      receive_all n (match out with Some out => count_messages seen out | None => seen end) s polls
  end.

(** What the publisher has sent. *)
Definition udp_datagrams (n : nat) (net : list send_result) : option (list (list Z)) :=
  p ← publisher_new MATCH_RUST 4096; Some (publish_all 0x01 UDP_BODY n p net).1.

(** The line printed: messages, [next_seq() - 1] of the publisher, [last_seq] of the subscriber. *)
Record UdpReport := mkUdpReport { ur_seen : nat; ur_sent : Z; ur_last_seq : option Z }.

Inductive udp_end := UdpRuns | UdpError | UdpReports (r : UdpReport).

Definition udp_throughput (n : nat) (net : list send_result) (polls : list (option (list Z))) : option udp_end :=
  p ← publisher_new MATCH_RUST 4096;
  st ← receive_all n 0 (subscriber_new MATCH_RUST false) polls;
  Some (match st, (publish_all 0x01 UDP_BODY n p net).2 with
        | SubEnded seen s, PubEnded p => UdpReports (mkUdpReport seen (pub_next_seq p - 1) (sub_last_seq s))
        | SubEnded _ _, PubFailed _ => UdpError
        | _, _ => UdpRuns
        end).

(** ** A time sent to and fro ([mold_mcast_bench.rs], [mold_udp_bench.rs]) *)

(** The datagrams waiting at the two sockets, and the buffer of 16 bytes. *)
Record Pair := mkPair { at_a : list (list Z); at_b : list (list Z); ts : list Z }.

Definition pair_new : Pair := mkPair [] [] (replicate 16 0).

(** [send_to] and [recv_from]: a datagram arrives or not; without one the read times out. *)
Definition to_b (arrives : bool) (c : Pair) : Pair := mkPair (at_a c) (if arrives then at_b c ++ [ts c] else at_b c) (ts c).
Definition to_a (arrives : bool) (c : Pair) : Pair := mkPair (if arrives then at_a c ++ [ts c] else at_a c) (at_b c) (ts c).
Definition from_b (c : Pair) : option Pair := match at_b c with [] => None | d :: q => Some (mkPair (at_a c) q (copy_at 0 (take 16 d) (ts c))) end.
Definition from_a (c : Pair) : option Pair := match at_a c with [] => None | d :: q => Some (mkPair q (at_b c) (copy_at 0 (take 16 d) (ts c))) end.

(** The buffer to [b] and back; [go] and [back] say whether the datagrams arrive. *)
Definition to_and_fro (go back : bool) (c : Pair) : Pair * bool :=
  let c := to_b go c in
  match from_b c with
  | None => (c, false)
  | Some c => let c := to_a back c in match from_a c with None => (c, false) | Some c => (c, true) end
  end.

(** A round: the sockets after it and, unless a read timed out, the time measured between the readings [t] and [t2] of the clock. *)
Definition rtt_round (go back : bool) (t t2 : Z) (c : Pair) : Pair * option Z :=
  let '(c, ok) := to_and_fro go back (mkPair (at_a c) (at_b c) (copy_at 0 (le_bytes 8 t) (ts c))) in
  (c, if ok then Some (u64_wrap (t2 - le_val (slice 0 8 (ts c)))) else None).

(** What surrounds a round. *)
Record round_env := mkRound { rd_go : bool; rd_back : bool; rd_t : Z; rd_t2 : Z }.

Definition run_round (v : round_env) (c : Pair) : Pair * option Z := rtt_round (rd_go v) (rd_back v) (rd_t v) (rd_t2 v) c.

(** The rounds up to the first that fails: an error of the unicast part, the end of the multicast part. *)
Fixpoint rounds (vs : list round_env) (c : Pair) : list Z * bool :=
  match vs with
  | [] => ([], true)
  | v :: vs =>
      match run_round v c with
      | (c, Some rtt) => let '(rtts, ok) := rounds vs c in (rtt :: rtts, ok)
      | (_, None) => ([], false)
      end
  end.

(** Median, 99th percentile and mean; [None] is an index out of bounds. *)
Definition rtt_stats (rtts : list Z) : option (Z * Z * Z) :=
  '(p50, p99) ← percentiles rtts; Some (p50, p99, foldr Z.add 0 rtts / Z.of_nat (length rtts)).

(** The second part of [mold_udp_bench.rs]; the warm-up sends the buffer as it is.  [Some None] is a read that timed out. *)
Definition udp_rtt (warm_go warm_back : bool) (vs : list round_env) : option (option (Z * Z * Z)) :=
  let '(c, ok) := to_and_fro warm_go warm_back pair_new in
  if negb ok then Some None
  else let '(rtts, ok) := rounds vs c in
       if negb ok then Some None else stats ← rtt_stats rtts; Some (Some stats).

Inductive mcast_row := Delivered (stats : Z * Z * Z) | NotDelivered.
Inductive mcast_end := McastError | McastReports (unicast : Z * Z * Z) (multicast : mcast_row).

(** [run] of [mold_mcast_bench.rs]: the warm-up rounds, the rounds over both pairs, whether the group was joined; [None] is a panic. *)
Definition mcast_run (warm_u : round_env) (us : list round_env) (joined : bool) (warm_m : round_env) (ms : list round_env) : option mcast_end :=
  let iters := length us in
  let '(u_rtt, ok) := rounds us (run_round warm_u pair_new).1 in
  if negb ok then Some McastError
  else
    u ← rtt_stats u_rtt;
    let m_rtt := if joined then (rounds ms (run_round warm_m pair_new).1).1 else [] in
    let m_ok := joined && (iters / 2 <=? length m_rtt)%nat in
    if m_ok then m ← rtt_stats m_rtt; Some (McastReports u (Delivered m))
    else Some (McastReports u NotDelivered).

(** ** Packing ([mold_outbound_bench.rs]) *)

Definition FILL_BODY : list Z := replicate 24 0x11.
Definition DEPTH_BODY : list Z := replicate 24 0x22.

Definition outbound_batch (n : nat) : list (list Z) := replicate n ([0x02] ++ DEPTH_BODY).

Inductive batch_end := Packed (off : nat) (p : MoldPublisher) | BatchError (p : MoldPublisher).

(** [while off < n]: [net] says whether the datagrams can be sent; one that cannot ends the program. *)
Fixpoint batch_loop (fuel : nat) (batch : list (list Z)) (off : nat) (p : MoldPublisher) (net : nat → bool) : option (list (list Z) * batch_end) :=
  match fuel with
  | O => None
  | S fuel =>
      if (length batch <=? off)%nat then Some ([], Packed off p)
      else
        let '(d, used, p) := batch_packet p (drop off batch) 1472 in
        match d with
        | None => Some ([], Packed off p)
        | Some d =>
            if net 0%nat
            then '(ds, e) ← batch_loop fuel batch (off + used) p (λ k, net (S k)); Some (d :: ds, e)
            else Some ([], BatchError p)
        end
  end.

(** [encoded] of the third part: the bytes of [n] messages with their tags. *)
Definition encode_only (n : nat) : nat :=
  foldl (λ (encoded i : nat), let b := [if (i mod 2 =? 0)%nat then 0x01 else 0x02] ++ FILL_BODY in (encoded + length b)%nat) 0%nat (seq 0 n).

(** ** Replay of a capture ([mold_dpdk_bench.rs]) *)

(** The frames have the layout of [mold_dpdk_gen_pcap.rs]. *)
Definition bench_frames (n : nat) : list (list Z) := (λ i, gen_packet (Z.of_nat i + 1) [UDP_BODY]) <$> seq 0 n.

Definition bench_pcap (n : nat) : list Z := pcap_file 262144 (mkRec 1700000000 0 <$> bench_frames n).

Definition bench_frame (s : MoldSubscriber) (seen : nat) (m : mbuf) : option (MoldSubscriber * nat) :=
  p ← udp_payload m;
  match p with
  | None => Some (s, seen)
  | Some (off, len) => slice ← read_bytes (mtod m) off len; '(out, s) ← parse_packet s slice; Some (s, count_messages seen out)
  end.

Fixpoint bench_burst (s : MoldSubscriber) (seen : nat) (ms : list mbuf) : option (MoldSubscriber * nat) :=
  match ms with [] => Some (s, seen) | m :: ms => '(s, seen) ← bench_frame s seen m; bench_burst s seen ms end.

(** The bursts until an empty one. *)
Fixpoint bench_rx (s : MoldSubscriber) (seen : nat) (bursts : list (list mbuf)) : option (MoldSubscriber * nat) :=
  match bursts with
  | [] | [] :: _ => Some (s, seen)
  | ms :: bursts => '(s, seen) ← bench_burst s seen ms; bench_rx s seen bursts
  end.

(** ** Publishing *)

(** The sequence numbers of the datagrams sent, and the next one. *)
Fixpoint pub_seqs (n : nat) (s : Z) (net : list send_result) : list Z :=
  match n, net with
  | S k, SendOk :: net => s :: pub_seqs k (s + 1) net
  | S _, SendWouldBlock :: net => pub_seqs n (s + 1) net
  | _, _ => []
  end.

(** Calls that would block before the last of [n] messages is sent. *)
Fixpoint blocked (n : nat) (net : list send_result) : nat :=
  match n, net with
  | S k, SendOk :: net => blocked k net
  | S _, SendWouldBlock :: net => S (blocked n net)
  | _, _ => O
  end.

(** [n] calls succeed and none fails before. *)
Fixpoint gets_through (n : nat) (net : list send_result) : bool :=
  match n, net with
  | O, _ => true
  | S k, SendOk :: net => gets_through k net
  | S _, SendWouldBlock :: net => gets_through n net
  | S _, _ => false
  end.

Lemma publish_tagged_eq p tag payload :
  0 <= pub_next_seq p → pub_next_seq p + 1 < 2 ^ 64 →
  ∃ cache, tagged_packet p tag payload = (downstream_packet (pub_session_id p) (pub_next_seq p) [[tag] ++ payload], mkPublisher (pub_session_id p) (pub_next_seq p + 1) cache).
Proof. intros H0 H1. unfold tagged_packet, publish_packet, alloc_seq, cache_message. cbn [pub_session_id pub_next_seq pub_cache]. rewrite u64_wrap_id by (unfold in_u64; lia). by eexists. Qed.

Lemma publish_all_spec tag payload net : ∀ n p,
  0 <= pub_next_seq p → pub_next_seq p + Z.of_nat (length net) < 2 ^ 64 →
  (publish_all tag payload n p net).1 = (λ s, downstream_packet (pub_session_id p) s [[tag] ++ payload]) <$> pub_seqs n (pub_next_seq p) net
  ∧ (gets_through n net = true → ∃ p', (publish_all tag payload n p net).2 = PubEnded p' ∧ pub_next_seq p' = pub_next_seq p + Z.of_nat (n + blocked n net)).
Proof.
  induction net as [|r net IH]; intros [|n] p H0 Hl; cbn [publish_all pub_seqs gets_through blocked]; [split; [done|]; intros _; exists p; split; [done|cbn; lia]|done|split; [done|]; intros _; exists p; split; [done|cbn; lia]|].
  cbn [length] in Hl. destruct (publish_tagged_eq p tag payload H0 ltac:(lia)) as [cache ->]. set (p1 := mkPublisher _ _ cache).
  destruct r; [|destruct (IH (S n) p1 ltac:(cbn; lia) ltac:(cbn; lia)) as [A B]; split; [exact A|]; intros Hg; destruct (B Hg) as (p' & E & N); exists p'; split; [exact E|]; rewrite N; cbn [pub_next_seq p1]; lia|done].
  destruct (IH n p1 ltac:(cbn; lia) ltac:(cbn; lia)) as [A B]. destruct (publish_all tag payload n p1 net) as [ds st]. cbn [fst snd] in *. split; [by rewrite A|].
  intros Hg. destruct (B Hg) as (p' & E & N). exists p'. split; [done|]. rewrite N. cbn [pub_next_seq p1]. lia.
Qed.

Lemma pub_seqs_bounds net : ∀ n s, Forall (λ x, s <= x < s + Z.of_nat (length net)) (pub_seqs n s net).
Proof.
  induction net as [|r net IH]; intros [|n] s; cbn [pub_seqs length]; [constructor..|]. destruct r; [constructor; [lia|]|..|constructor]; (eapply Forall_impl; [apply IH|]; cbn beta; lia).
Qed.

Lemma pub_seqs_length net : ∀ n s, gets_through n net = true → length (pub_seqs n s net) = n.
Proof.
  induction net as [|r net IH]; intros [|n] s; cbn [pub_seqs gets_through]; try done. destruct r; [|apply IH|done]. intros Hg. cbn. by rewrite IH.
Qed.

(** The watermark of who has received them all. *)
Lemma pub_seqs_watermark net : ∀ n s last,
  gets_through (S n) net = true → (∀ l, last = Some l → l < s) →
  foldl watermark last (pub_seqs (S n) s net) = Some (s + Z.of_nat (n + blocked (S n) net)).
Proof.
  induction net as [|r net IH]; intros n s last; [done|]. destruct r; [|intros Hg Hl|done].
  - intros Hg Hl. change (gets_through (S n) (SendOk :: net)) with (gets_through n net) in Hg. cbn [pub_seqs blocked foldl].
    assert (watermark last s = Some s) as -> by (unfold watermark; destruct last as [l|]; [specialize (Hl l eq_refl); f_equal; lia|done]).
    destruct n as [|n]; [cbn [pub_seqs foldl]; destruct net; cbn; do 2 f_equal; lia|]. rewrite IH; [f_equal; lia|done|]. intros l [= <-]. lia.
  - change (gets_through (S n) (SendWouldBlock :: net)) with (gets_through (S n) net) in Hg.
    change (pub_seqs (S n) s (SendWouldBlock :: net)) with (pub_seqs (S n) (s + 1) net). change (blocked (S n) (SendWouldBlock :: net)) with (S (blocked (S n) net)).
    rewrite IH; [f_equal; lia|done|]. intros l Hll. specialize (Hl l Hll). lia.
Qed.

(** ** Receiving *)

Definition single (sid : list Z) (s : Z) : list Z := downstream_packet sid s [[0x01] ++ UDP_BODY].

Lemma single_received sub sid s :
  length sid = MOLD_SESSION_LEN → last_ok (sub_last_seq sub) → 1 <= s < 2 ^ 64 - 1 →
  ∃ out, sub_recv sub (take 2048 (single sid s)) = Some (Some out, set_last_seq (watermark (sub_last_seq sub) s) sub)
    ∧ (∀ seen, count_messages seen out = S seen) ∧ last_ok (watermark (sub_last_seq sub) s).
Proof.
  intros Hs Hl Hr. assert (length (single sid s) = 47%nat) as Hlen.
  { unfold single, downstream_packet. rewrite length_app, length_encode_downstream by (done || (cbn; unfold in_u16; lia)). done. }
  unfold sub_recv. rewrite take_ge, Hlen by lia. change (47 <? MOLD_DOWNSTREAM_HEADER_LEN)%nat with false. cbv iota. unfold single. rewrite parse_downstream; try done; [|by repeat constructor|cbn; lia|cbn [length]; lia].
  cbn [mbind option_bind length]. eexists. split; [do 4 f_equal; lia|]. split; [intros seen; unfold count_messages; cbn; lia|].
  intros l. unfold watermark. destruct (sub_last_seq sub) as [l0|]; intros [= <-]; [specialize (Hl l0 eq_refl)|]; lia.
Qed.

Lemma receive_singles sid polls : ∀ n seen sub ss,
  length sid = MOLD_SESSION_LEN → last_ok (sub_last_seq sub) → Forall (λ s, 1 <= s < 2 ^ 64 - 1) ss → omap id polls = single sid <$> ss →
  (seen + length ss <= n)%nat →
  receive_all n seen sub polls
  = Some ((if (n <=? seen + length ss)%nat then SubEnded else SubPolls) (seen + length ss)%nat (set_last_seq (foldl watermark (sub_last_seq sub) ss) sub)).
Proof.
  induction polls as [|[d|] polls IH]; intros n seen sub ss Hs Hl Hss Hp Hn; cbn [receive_all].
  - destruct ss; [|done]. cbn [length foldl]. rewrite Nat.add_0_r, set_last_seq_id. by destruct (n <=? seen)%nat.
  - change (omap id (Some d :: polls)) with (d :: omap id polls) in Hp. destruct ss as [|s ss]; [done|]. cbn [fmap list_fmap] in Hp. injection Hp as -> Hp. apply Forall_cons in Hss as [Hr Hss]. cbn [length] in Hn.
    rewrite (proj2 (Nat.leb_gt n seen)) by lia. destruct (single_received sub sid s Hs Hl Hr) as (out & -> & Hc & Hl'). cbn [mbind option_bind]. rewrite Hc.
    rewrite (IH n (S seen) _ ss); [|done..|lia]. cbn [length foldl set_last_seq sub_last_seq]. by replace (S seen + length ss)%nat with (seen + S (length ss))%nat by lia.
  - destruct (Nat.leb_spec n seen); [|by apply IH]. assert (ss = []) as -> by (destruct ss; [done|cbn in *; lia]). cbn [length foldl]. rewrite Nat.add_0_r, set_last_seq_id, (proj2 (Nat.leb_le n seen)) by done. done.
Qed.

Lemma udp_publisher : ∃ p, publisher_new MATCH_RUST 4096 = Some p ∧ pub_next_seq p = 1 ∧ length (pub_session_id p) = MOLD_SESSION_LEN.
Proof.
  destruct (publisher_new MATCH_RUST 4096) as [p|] eqn:E; [|unfold publisher_new, msgring_new in E; destruct (Nat.eqb_spec 4096 0); [lia|discriminate E]]. exists p. split; [done|]. pose proof (pub_ok_new _ _ _ E) as Hp. split; [exact (po_next _ _ _ Hp)|exact (po_session _ _ _ Hp)].
Qed.

Lemma udp_sent n net ds :
  Z.of_nat (length net) + 2 < 2 ^ 64 → udp_datagrams n net = Some ds →
  ∃ sid, length sid = MOLD_SESSION_LEN ∧ ds = single sid <$> pub_seqs n 1 net ∧ Forall (λ s, 1 <= s < 2 ^ 64 - 1) (pub_seqs n 1 net).
Proof.
  intros Hl Hd. destruct udp_publisher as (p & Hp & Hn & Hs). unfold udp_datagrams in Hd. rewrite Hp in Hd. cbn [mbind option_bind] in Hd. injection Hd as <-.
  destruct (publish_all_spec 0x01 UDP_BODY net n p ltac:(lia) ltac:(lia)) as [-> _]. rewrite Hn. exists (pub_session_id p). split_and!; [done|done|].
  eapply Forall_impl; [apply pub_seqs_bounds|]. cbn beta. lia.
Qed.

(** The throughput part of [mold_udp_bench].  Let the socket of the publisher take [n] messages in the end, however often it
    would have blocked before, and let the subscriber receive every datagram sent, in order, between any polls that find nothing.  Then both
    loops end: all [n] messages are seen; but every call that would have blocked had taken a sequence number, so that
    the messages said to be sent, like the last number received, are more by the number of those calls. *)
Theorem mold_udp_reports n net polls ds :
  Z.of_nat (length net) + 2 < 2 ^ 64 → gets_through n net = true → udp_datagrams n net = Some ds → omap id polls = ds →
  let calls := Z.of_nat (n + blocked n net) in
  udp_throughput n net polls = Some (UdpReports (mkUdpReport n calls (if (n =? 0)%nat then None else Some calls))).
Proof.
  intros Hl Hg Hd Hp. destruct (udp_sent n net ds Hl Hd) as (sid & Hs & -> & Hss). pose proof (pub_seqs_length net n 1 Hg) as Hlen.
  destruct udp_publisher as (p & Hpub & Hn & _). unfold udp_throughput. rewrite Hpub. cbn [mbind option_bind].
  rewrite (receive_singles sid polls n 0 (subscriber_new MATCH_RUST false) _ Hs (λ l Hsome, ltac:(discriminate Hsome)) Hss Hp) by lia. rewrite Hlen, Nat.add_0_l, Nat.leb_refl. cbn [mbind option_bind].
  destruct (publish_all_spec 0x01 UDP_BODY net n p ltac:(lia) ltac:(lia)) as [_ B]. destruct (B Hg) as (p' & -> & ->). rewrite Hn. do 3 f_equal; [lia|]. cbn [set_last_seq sub_last_seq subscriber_new].
  destruct n as [|n]; [by destruct net|]. rewrite pub_seqs_watermark by done. cbn [Nat.eqb]. f_equal. lia.
Qed.

(** A datagram that is lost is never asked for: with fewer than [n] of them delivered, whichever and in
    whatever order, the receiving loop polls for ever. *)
Theorem mold_udp_waits n net polls ds :
  Z.of_nat (length net) + 2 < 2 ^ 64 → udp_datagrams n net = Some ds → Forall (λ d, d ∈ ds) (omap id polls) → (length (omap id polls) < n)%nat →
  udp_throughput n net polls = Some UdpRuns.
Proof.
  intros Hl Hd Hin Hlt. destruct (udp_sent n net ds Hl Hd) as (sid & Hs & -> & Hss).
  assert (∃ ss, omap id polls = single sid <$> ss ∧ Forall (λ s, 1 <= s < 2 ^ 64 - 1) ss) as (ss & Hp & Hok).
  { clear Hlt. induction Hin as [|d l Hd0 _ (ss & -> & Hok)]; [by exists []|]. apply list_elem_of_fmap in Hd0 as (s & -> & Hs0). rewrite Forall_forall in Hss. exists (s :: ss). split; [done|]. constructor; [by apply Hss|done]. }
  rewrite Hp, length_fmap in Hlt. destruct udp_publisher as (p & Hpub & _). unfold udp_throughput. rewrite Hpub. cbn [mbind option_bind].
  rewrite (receive_singles sid polls n 0 (subscriber_new MATCH_RUST false) _ Hs (λ l Hsome, ltac:(discriminate Hsome)) Hok Hp), (proj2 (Nat.leb_gt _ _)) by lia. done.
Qed.

(** ** Replay *)

Definition bench_body (i : nat) : list Z := downstream_packet MATCH_RUST (Z.of_nat i + 1) [UDP_BODY].

Lemma bench_body_length i : length (bench_body i) = 46%nat.
Proof. unfold bench_body, downstream_packet. rewrite length_app, length_encode_downstream by (done || (cbn; unfold in_u16; lia)). done. Qed.

Lemma bench_carried stale i : (80 <= length stale)%nat → carries stale (gen_packet (Z.of_nat i + 1) [UDP_BODY]) (bench_body i).
Proof.
  intros Hs. refine (proj1 (mold_carries stale (Z.of_nat i + 1) [UDP_BODY] _ Hs)). fold (bench_body i). rewrite bench_body_length. unfold in_u16. lia.
Qed.

Lemma bench_frame_counted stale i s seen :
  (80 <= length stale)%nat → Z.of_nat i + 2 < 2 ^ 64 → sub_last_seq s = caught_up (replicate i UDP_BODY) →
  bench_frame s seen (received stale (gen_packet (Z.of_nat i + 1) [UDP_BODY])) = Some (set_last_seq (caught_up (replicate (S i) UDP_BODY)) s, S seen).
Proof.
  intros Hs Hi Hl. destruct (bench_carried stale i Hs) as [Hu Hr]. unfold bench_frame. rewrite Hu. cbn [mbind option_bind]. rewrite Hr. cbn [mbind option_bind].
  unfold bench_body. rewrite parse_downstream; try done; [|rewrite Hl; intros l; destruct i; cbn [replicate caught_up]; intros [= <-]; rewrite length_replicate in *; cbn [length]; lia|by repeat constructor|cbn [length]; lia|cbn [length]; lia].
  cbn [mbind option_bind]. do 2 f_equal; [|unfold count_messages; cbn; lia]. do 2 f_equal. rewrite Hl. unfold watermark. destruct i; cbn [replicate caught_up length]; rewrite ?length_replicate; do 2 f_equal; lia.
Qed.

Lemma bench_burst_app ms1 ms2 : ∀ s seen, bench_burst s seen (ms1 ++ ms2) = '(s, seen) ← bench_burst s seen ms1; bench_burst s seen ms2.
Proof. induction ms1 as [|m ms1 IH]; intros s seen; [done|]. cbn [app bench_burst]. destruct (bench_frame s seen m) as [[s1 seen1]|]; [apply IH|done]. Qed.

(** Bursts without an empty one among them are their frames in a row. *)
Lemma bench_rx_concat bursts : ∀ s seen, Forall (λ ms, ms ≠ []) bursts → bench_rx s seen bursts = bench_burst s seen (concat bursts).
Proof.
  induction bursts as [|ms bursts IH]; intros s seen Hne; [done|]. apply Forall_cons in Hne as [Hms Hne]. cbn [concat]. rewrite bench_burst_app. destruct ms as [|m ms]; [done|]. cbn [bench_rx].
  destruct (bench_burst s seen (m :: ms)) as [[s1 seen1]|]; [by apply IH|done].
Qed.

Lemma bench_frames_counted stale k : ∀ i s seen,
  (80 <= length stale)%nat → Z.of_nat (i + k) + 1 < 2 ^ 64 → sub_last_seq s = caught_up (replicate i UDP_BODY) →
  bench_burst s seen (received stale <$> ((λ j, gen_packet (Z.of_nat j + 1) [UDP_BODY]) <$> seq i k)) = Some (set_last_seq (caught_up (replicate (i + k) UDP_BODY)) s, (seen + k)%nat).
Proof.
  induction k as [|k IH]; intros i s seen Hs Hi Hl.
  - cbn [seq fmap list_fmap bench_burst]. rewrite !Nat.add_0_r, <- Hl, set_last_seq_id. done.
  - cbn [seq fmap list_fmap bench_burst]. rewrite (bench_frame_counted stale i s seen Hs ltac:(lia) Hl). cbn [mbind option_bind]. rewrite IH; [|done|lia|done]. by rewrite !Nat.add_succ_comm.
Qed.

Lemma bench_pcap_frames n : pcap_frames (bench_pcap n) = bench_frames n.
Proof.
  unfold bench_pcap. rewrite pcap_file_frames.
  - rewrite <- list_fmap_compose. apply list_fmap_id.
  - apply Forall_fmap, Forall_fmap, Forall_forall. intros i _. unfold compose. cbn [r_frame]. unfold gen_packet. rewrite !length_app, !length_be_bytes. fold (bench_body i). rewrite bench_body_length. by vm_compute.
Qed.

(** [mold_dpdk_bench] with [n] frames: however the driver cuts the file into bursts, and whatever the buffers held
    before, every frame is parsed and its message counted, and the last sequence number is [n]. *)
Theorem mold_dpdk_counts n stale bursts :
  Z.of_nat n + 1 < 2 ^ 64 → (80 <= length stale)%nat → Forall (λ ms, ms ≠ []) bursts → concat bursts = received stale <$> pcap_frames (bench_pcap n) →
  ∃ s, bench_rx (subscriber_new MATCH_RUST false) 0 bursts = Some (s, n) ∧ sub_last_seq s = if (n =? 0)%nat then None else Some (Z.of_nat n).
Proof.
  intros Hn Hs Hne Hc. rewrite bench_pcap_frames in Hc. rewrite bench_rx_concat, Hc by done. unfold bench_frames. rewrite (bench_frames_counted stale n 0 (subscriber_new MATCH_RUST false) 0 Hs ltac:(lia) eq_refl).
  eexists. split; [reflexivity|]. cbn [set_last_seq sub_last_seq Nat.add]. destruct n; [done|]. cbn [replicate caught_up length Nat.eqb]. by rewrite length_replicate.
Qed.

(** ** Packing *)

Definition depth_msg : list Z := [0x02] ++ DEPTH_BODY.

Lemma pack_depth k : ∀ total, 0 <= total → pack 1472 total true (replicate k depth_msg) = Nat.min k (Z.to_nat ((1472 - total) / 27)).
Proof.
  induction k as [|k IH]; intros total Ht; [done|]. cbn [replicate pack]. change (Z.of_nat MOLD_BLOCK_HEADER_LEN + Z.of_nat (length depth_msg)) with 27. cbn [negb andb]. rewrite Z.gtb_ltb.
  destruct (Z.ltb_spec 1472 (total + 27)).
  - assert ((1472 - total) / 27 <= 0) by (apply Z.lt_succ_r, Z.div_lt_upper_bound; lia). lia.
  - rewrite IH by lia. replace (1472 - total) with (1472 - (total + 27) + 1 * 27) by lia. rewrite Z.div_add by lia. pose proof (Z.div_pos (1472 - (total + 27)) 27 ltac:(lia) ltac:(lia)). lia.
Qed.

Lemma batch_size_depth k : batch_size 1472 (replicate k depth_msg) = Nat.min k 53.
Proof.
  unfold batch_size. change (1472 =? 0) with false. destruct k as [|k]; [done|]. cbn [replicate pack andb negb]. change (Z.of_nat MOLD_BLOCK_HEADER_LEN + Z.of_nat (length depth_msg)) with 27.
  change (27 + Z.of_nat MOLD_DOWNSTREAM_HEADER_LEN >? 1472) with false. cbv iota. rewrite pack_depth by lia. change (Z.to_nat ((1472 - (20 + 27)) / 27)) with 52%nat. lia.
Qed.

Lemma depth_datagram_length sid s j : length sid = MOLD_SESSION_LEN → (j <= 53)%nat → length (downstream_packet sid s (replicate j depth_msg)) = (20 + 27 * j)%nat.
Proof.
  intros Hs Hj. unfold downstream_packet. rewrite length_app, length_encode_downstream by (done || (cbn [ds_msg_count]; rewrite length_replicate, u16_wrap_id; unfold in_u16; lia)).
  change MOLD_DOWNSTREAM_HEADER_LEN with 20%nat. f_equal. clear. induction j as [|j IH]; [done|]. cbn [replicate fmap list_fmap concat]. rewrite length_app. cbn [replicate fmap list_fmap] in IH. rewrite IH. change (length (block depth_msg)) with 27%nat. lia.
Qed.

(** The loop is a run of the publisher over batches. *)
Lemma batch_loop_run cap fuel : ∀ k off log p,
  pub_ok cap log p → (k < fuel)%nat → Z.of_nat (length log) + Z.of_nat k + 1 < 2 ^ 64 →
  ∃ ops p', batch_loop fuel (outbound_batch (off + k)) off p (λ _, true) = Some ((pub_run p ops).1, Packed (off + k) p')
    ∧ Forall op_ok ops ∧ log_of ops = replicate k depth_msg ∧ length (pub_run p ops).1 = ((k + 52) / 53)%nat ∧ Forall (λ d, (length d <= 1472)%nat) (pub_run p ops).1.
Proof.
  induction fuel as [|fuel IH]; intros k off log p Hp Hf Hlen; [lia|]. cbn [batch_loop]. unfold outbound_batch at 1. rewrite length_replicate. destruct (Nat.leb_spec (off + k) off).
  - assert (k = 0)%nat as -> by lia. rewrite Nat.add_0_r. by exists [], p.
  - unfold outbound_batch at 1. rewrite drop_replicate. replace (off + k - off)%nat with k by lia. fold depth_msg. pose proof (publish_batch_spec cap log p (replicate k depth_msg) 1472 Hp ltac:(lia)) as Hpb.
    cbn [op_messages] in Hpb. rewrite batch_size_depth, take_replicate in Hpb. replace (Nat.min (Nat.min k 53) k) with (Nat.min k 53) in Hpb by lia. rewrite length_replicate in Hpb. specialize (Hpb ltac:(lia)).
    destruct (batch_packet p (replicate k depth_msg) 1472) as [[d used] p1] eqn:Epb. destruct Hpb as (Hp1 & Hs1 & Hd & Hu). subst used.
    assert (d = Some (downstream_packet (pub_session_id p) (pub_next_seq p) (replicate (Nat.min k 53) depth_msg))) as ->.
    { rewrite Hd. unfold op_datagram. cbn [op_messages]. rewrite batch_size_depth, take_replicate. replace (Nat.min (Nat.min k 53) k) with (Nat.min k 53) by lia. destruct (Nat.min k 53) eqn:E; [lia|]. done. }
    set (j := Nat.min k 53) in *. destruct (IH (k - j)%nat (off + j)%nat _ p1 Hp1) as (ops & p' & Hloop & Hok & Hlog & Hn & Hsz); [lia|rewrite length_app, length_replicate; lia|].
    replace (off + j + (k - j))%nat with (off + k)%nat in Hloop by lia. rewrite Hloop. cbn [mbind option_bind]. exists (OpBatch (replicate k depth_msg) 1472 :: ops), p'. cbn [pub_run pub_step]. rewrite Epb.
    destruct (pub_run p1 ops) as [ds p2]. cbn [fst] in *. split; [done|]. split; [constructor; [cbn; lia|done]|]. split; [|split].
    + change (log_of (OpBatch (replicate k depth_msg) 1472 :: ops)) with (op_messages (OpBatch (replicate k depth_msg) 1472) ++ log_of ops). cbn [op_messages]. rewrite batch_size_depth, take_replicate, Hlog, <- replicate_add. f_equal. lia.
    + cbn [length]. rewrite Hn. destruct (decide (k <= 53)%nat) as [Hle|Hgt].
      * replace (k - j)%nat with 0%nat by lia. change ((0 + 52) / 53)%nat with 0%nat. apply (Nat.div_unique _ _ _ (k - 1)); lia.
      * replace (k - j)%nat with (k - 53)%nat by lia. replace (k + 52)%nat with ((k - 53 + 52) + 1 * 53)%nat by lia. rewrite Nat.div_add by lia. lia.
    + constructor; [|done]. rewrite depth_datagram_length by (exact (po_session _ _ _ Hp) || lia). lia.
Qed.

(** The batches of [mold_outbound_bench]: as long as the socket takes them, the loop sends all [n] messages, in the least number of datagrams
    of at most 1472 bytes, and a subscriber that receives these has every message in order. *)
Theorem mold_batch_packs n p :
  publisher_new MATCH_RUST 4096 = Some p → Z.of_nat n + 1 < 2 ^ 64 →
  ∃ ds p' outs s, batch_loop (S n) (outbound_batch n) 0 p (λ _, true) = Some (ds, Packed n p')
    ∧ length ds = ((n + 52) / 53)%nat ∧ Forall (λ d, (length d <= 1472)%nat) ds
    ∧ sub_run (subscriber_new MATCH_RUST false) ds = Some (outs, s) ∧ Forall (λ out, po_gap out = None) outs
    ∧ concat (po_messages <$> outs) = number 1 (outbound_batch n).
Proof.
  intros Hp Hn. pose proof (pub_ok_new _ _ _ Hp) as Hok. destruct (batch_loop_run 4096 (S n) n 0 [] p Hok (Nat.lt_succ_diag_r n) Hn) as (ops & p' & Hloop & Hops & Hlog & Hlen & Hsz).
  destruct (sub_run_in_sync 4096 [] p (subscriber_new MATCH_RUST false) ops Hok eq_refl Hops) as (outs & Hrun & Hgap & Hmsg); [rewrite Hlog; cbn [app]; rewrite length_replicate; lia|].
  eexists _, p', outs, _. split_and!; [exact Hloop|done|done|exact Hrun|done|]. rewrite Hmsg, Hlog. done.
Qed.

Lemma encode_only_bytes n : encode_only n = (25 * n)%nat.
Proof.
  unfold encode_only. assert (∀ l a, foldl (λ (encoded i : nat), let b := [if (i mod 2 =? 0)%nat then 0x01 else 0x02] ++ FILL_BODY in (encoded + length b)%nat) a l = (a + 25 * length l)%nat) as Hf.
  { induction l as [|i l IH]; intros a; cbn [foldl length]; [lia|]. rewrite IH. change (length ([if (i mod 2 =? 0)%nat then 1 else 2] ++ FILL_BODY)) with 25%nat. lia. }
  by rewrite Hf, length_seq.
Qed.

(** ** Times *)

Definition quiet (c : Pair) : Prop := at_a c = [] ∧ at_b c = [] ∧ length (ts c) = 16%nat.

Lemma to_and_fro_delivers c : quiet c → to_and_fro true true c = (c, true).
Proof.
  destruct c as [qa qb t]. intros (Ha & Hb & Ht). cbn in Ha, Hb, Ht. subst. unfold to_and_fro, to_b, from_b, to_a, from_a. cbn [at_a at_b ts app].
  assert (∀ l, length l = 16%nat → copy_at 0 (take 16 l) l = l) as Hc by (intros l Hl; unfold copy_at; rewrite (take_ge l 16), take_0 by lia; cbn [app]; rewrite Nat.add_0_l, drop_ge, app_nil_r by lia; done).
  pose proof (Hc _ Ht) as E. rewrite E. cbn [at_a at_b ts app]. by rewrite E.
Qed.

Lemma round_delivered v c :
  quiet c → rd_go v = true → rd_back v = true → in_u64 (rd_t v) → ∃ c', run_round v c = (c', Some (u64_wrap (rd_t2 v - rd_t v))) ∧ quiet c'.
Proof.
  destruct c as [qa qb t]. intros (Ha & Hb & Ht) Hg Hbk Hu. cbn in Ha, Hb, Ht. subst. unfold run_round, rtt_round. rewrite Hg, Hbk. cbn [at_a at_b ts].
  assert (copy_at 0 (le_bytes 8 (rd_t v)) t = le_bytes 8 (rd_t v) ++ drop 8 t) as -> by (unfold copy_at; by rewrite take_0, Nat.add_0_l, length_le_bytes).
  assert (length (le_bytes 8 (rd_t v) ++ drop 8 t) = 16%nat) as Hl by (rewrite length_app, length_le_bytes, length_drop; lia).
  rewrite to_and_fro_delivers by done. eexists. split; [cbn [ts]; rewrite slice_app_here, le_val_u64 by (done || by rewrite length_le_bytes); reflexivity|done].
Qed.

(** With every datagram delivered the times are those between the readings of the clock. *)
Lemma rounds_delivered vs : ∀ c,
  quiet c → Forall (λ v, rd_go v = true ∧ rd_back v = true ∧ in_u64 (rd_t v)) vs → rounds vs c = ((λ v, u64_wrap (rd_t2 v - rd_t v)) <$> vs, true).
Proof.
  induction vs as [|v vs IH]; intros c Hc Hvs; [done|]. apply Forall_cons in Hvs as [(Hg & Hb & Hu) Hvs]. cbn [rounds]. destruct (round_delivered v c Hc Hg Hb Hu) as (c' & -> & Hc'). by rewrite (IH c' Hc' Hvs).
Qed.

Lemma rtt_stats_some rtts : rtts ≠ [] → is_Some (rtt_stats rtts).
Proof. intros Hne. unfold rtt_stats. destruct (percentiles_some rtts Hne) as [[a b] ->]. by eexists. Qed.

(** [mold_mcast_bench] with at least two rounds, the unicast part delivered: it ends with a report whatever the multicast part does, which
    is said to be delivered exactly when the group was joined and half of the rounds came back before the first that did not. *)
Theorem mold_mcast_ends warm_u us joined warm_m ms :
  (2 <= length us)%nat → Forall (λ v, rd_go v = true ∧ rd_back v = true ∧ in_u64 (rd_t v)) (warm_u :: us) →
  let back := length (rounds ms (run_round warm_m pair_new).1).1 in
  ∃ u m, mcast_run warm_u us joined warm_m ms = Some (McastReports u m) ∧ rtt_stats ((λ v, u64_wrap (rd_t2 v - rd_t v)) <$> us) = Some u
    ∧ (m = NotDelivered ↔ joined = false ∨ (back < length us / 2)%nat).
Proof.
  intros Hlen Hus back. apply Forall_cons in Hus as [(Hg & Hb & Hu) Hus]. unfold mcast_run. assert (quiet pair_new) as Hq by done.
  destruct (round_delivered warm_u pair_new Hq Hg Hb Hu) as (c & -> & Hc). cbn [fst]. rewrite (rounds_delivered us c Hc Hus). cbn [negb].
  destruct (rtt_stats_some ((λ v, u64_wrap (rd_t2 v - rd_t v)) <$> us)) as [u Hst]; [by destruct us; [cbn in Hlen; lia|]|]. rewrite Hst. cbn [mbind option_bind].
  pose proof (Nat.div_le_lower_bound (length us) 2 1 ltac:(lia) ltac:(lia)) as Hhalf.
  destruct joined; [|exists u, NotDelivered; by intuition]. fold back. cbn [andb]. destruct (Nat.leb_spec (length us / 2) back) as [Hle|Hlt].
  - destruct (rtt_stats_some (rounds ms (run_round warm_m pair_new).1).1) as [m Hm]; [intros E; assert (back = 0%nat) by (subst back; by rewrite E); lia|]. rewrite Hm. cbn [mbind option_bind].
    exists u, (Delivered m). split_and!; [done|done|]. split; [done|]. intros [?|?]; [done|lia].
  - exists u, NotDelivered. split_and!; [done|done|]. split; [by right|done].
Qed.

(** With one round, a multicast that is not delivered counts as delivered and its median is read from an empty list. *)
Lemma mold_mcast_one_round : 
  let v := mkRound true true 5 7 in let lost := mkRound false false 5 7 in
  mcast_run v [v] true lost [lost] = None ∧ mcast_run v [v] false lost [lost] = Some (McastReports (2, 2, 2) NotDelivered).
Proof. by vm_compute. Qed.

(** Nothing to measure: the median of [mold_udp_bench] is read from an empty list. *)
Lemma mold_udp_no_rounds : udp_rtt true true [] = None.
Proof. by vm_compute. Qed.
