(* ===== verification/WalBench.v ===== *)
(** * The benchmark of the write-ahead log

    Models [crates/match-wal/src/bin/wal_bench.rs]: the appending loop and the flush at its end beside the flusher of [Wal].

    The main thread and the flusher in any order, as long as the writes succeed: the benchmark never panics, it can always come to its end,
    and at its end the file holds exactly its records, in order ([wal_bench_writes_all]). *)
From stdpp Require Import gmap.
From S2P Require Import Prelude Wal.

#[local] Open Scope Z_scope.

(** ** Appending ([wal_bench.rs]) *)

Definition bench_wal_record (i : nat) : WalRecord := mkWalRecord Fill (Z.of_nat i) (Z.of_nat i) 100 1.

(** Where the main thread is: it appends, waits for the answer to its flush, has ended, has panicked. *)
Inductive wal_at := AtAppend | AtAnswer (i : nat) | AtEnd | AtPanic.

Record WalRun := mkWalRun { wb_wal : Wal; wb_next : nat; wb_at : wal_at }.

(** [Wal::open] on a path that was just removed; [ok] says whether the thread can open it. *)
Definition wal_bench_new (ok : bool) : WalRun := mkWalRun (wal_open (if ok then Some [] else None) (Z.to_nat 65536)) 0 AtAppend.

(** A turn of the main thread, a message taken by the flusher, its timeout. *)
Inductive wal_bench_event := WbMain | WbRecv (io : io_outcome) | WbTimeout (io : io_outcome).

Definition wal_bench_main (n : nat) (b : WalRun) : WalRun :=
  let w := wb_wal b in
  match wb_at b with
  | AtAppend =>
      if (wb_next b <? n)%nat then
        match append_async w (bench_wal_record (wb_next b)) with
        | (w, inr _) => mkWalRun w (S (wb_next b)) AtAppend
        | (w, inl Busy) => mkWalRun w (wb_next b) AtAppend
        | (w, inl _) => mkWalRun w (wb_next b) AtPanic
        end
      else
        match send w Flush with
        | None => b
        | Some (w', inr _) => mkWalRun w' (wb_next b) (AtAnswer (length (sent w)))
        | Some (w', inl _) => mkWalRun w' (wb_next b) AtPanic
        end
  | AtAnswer i =>
      match recv_answer w i with
      | None => b
      | Some (inr _) => mkWalRun w (wb_next b) AtEnd
      | Some (inl _) => mkWalRun w (wb_next b) AtPanic
      end
  | AtEnd | AtPanic => b
  end.

Definition wal_bench_step (n : nat) (b : WalRun) (ev : wal_bench_event) : WalRun :=
  match ev with
  | WbMain => wal_bench_main n b
  | WbRecv io => mkWalRun (wal_step (wb_wal b) (EvRecv io)) (wb_next b) (wb_at b)
  | WbTimeout io => mkWalRun (wal_step (wb_wal b) (EvTimeout io)) (wb_next b) (wb_at b)
  end.

Definition wal_bench_run (n : nat) (b : WalRun) (evs : list wal_bench_event) : WalRun := foldl (wal_bench_step n) b evs.

Definition bench_records (k : nat) : list WalRecord := bench_wal_record <$> seq 0 k.

Definition bench_sent (b : WalRun) : list Msg :=
  (Rec <$> bench_records (wb_next b)) ++ match wb_at b with AtAnswer _ | AtEnd => [Flush] | _ => [] end.

Definition bench_io_ok (ev : wal_bench_event) : Prop := match ev with WbMain => True | WbRecv io | WbTimeout io => io = IoOk end.

(** What holds between any two steps. *)
Record bench_inv (n : nat) (b : WalRun) : Prop := {
  bi_wal : wal_inv [] (wb_wal b);
  bi_running : running (wb_wal b) = true;
  bi_sent : sent (wb_wal b) = bench_sent b;
  bi_next : (wb_next b <= n)%nat;
  bi_at : match wb_at b with
          | AtAppend => True
          | AtAnswer i => wb_next b = n ∧ i = n ∧ ((n < received (wb_wal b))%nat → recv_answer (wb_wal b) n = Some (inr tt))
          | AtEnd => wb_next b = n ∧ recv_answer (wb_wal b) n = Some (inr tt)
          | AtPanic => False
          end }.

Lemma bench_records_S k : bench_records (S k) = bench_records k ++ [bench_wal_record k].
Proof. unfold bench_records. by rewrite seq_S, fmap_app. Qed.

Lemma records_of_recs rs : records (Rec <$> rs) = rs.
Proof. unfold records. induction rs as [|r rs IH]; [done|]. cbn [fmap list_fmap omap list_omap]. by rewrite IH. Qed.

Lemma no_shutdown b m : m ∈ bench_sent b → m ≠ Shutdown.
Proof.
  intros [(r & -> & _)%list_elem_of_fmap|Hm]%elem_of_app; [done|]. intros ->. destruct (wb_at b); try (by apply elem_of_nil in Hm); by apply list_elem_of_singleton in Hm.
Qed.

(** A message taken by the flusher: it keeps running, and answers once it has taken the flush. *)
Lemma flusher_takes w m :
  running w = true → sent w !! received w = Some m → m ≠ Shutdown →
  let w' := wal_step w (EvRecv IoOk) in
  running w' = true ∧ sent w' = sent w ∧ received w' = S (received w) ∧ cap w' = cap w
  ∧ (m = Flush → (received w, true) ∈ answers w')
  ∧ ∃ more, answers w' = answers w ++ more.
Proof.
  intros Hr Hm Hns. cbn [wal_step]. rewrite Hr, Hm. destruct m as [r| |]; [|..|done]; cbn [on_msg].
  - destruct (_ <=? _); split_and!; try done; exists []; by rewrite app_nil_r.
  - destruct (write_buf (flusher w) IoOk) as [f res] eqn:E. split_and!; try done; [|by eexists].
    intros _. cbn [answers]. apply elem_of_app. right. assert (res = true) as ->; [|by left].
    unfold write_buf in E. destruct (buf (flusher w)); by injection E.
Qed.

Lemma answer_stays w i more b : recv_answer w i = Some (inr b) → ∀ w', answers w' = answers w ++ more → recv_answer w' i = Some (inr b).
Proof.
  unfold recv_answer. intros Ha w' ->. destruct (list_find _ (answers w)) as [[j [i' ok]]|] eqn:E; [|by destruct (running w)]. by rewrite (list_find_app_l _ _ _ _ _ E).
Qed.

Lemma timeout_keeps w :
  running w = true → let w' := wal_step w (EvTimeout IoOk) in running w' = true ∧ sent w' = sent w ∧ answers w' = answers w ∧ received w' = received w.
Proof. intros Hr. cbn [wal_step]. rewrite Hr. by destruct (negb _). Qed.

Lemma bench_inv_flusher n b w' :
  bench_inv n b → wal_inv [] w' → running w' = true → sent w' = sent (wb_wal b) → (∃ more, answers w' = answers (wb_wal b) ++ more) →
  (wb_at b = AtAnswer n → (n < received w')%nat → recv_answer w' n = Some (inr tt)) → bench_inv n (mkWalRun w' (wb_next b) (wb_at b)).
Proof.
  intros [H1 H2 H3 H4 H5] Hw Hr Hs [more Ha] Htaken. split; cbn [wb_wal wb_next wb_at]; try done; [by rewrite Hs, H3|]. destruct (wb_at b) as [|i| |]; try done.
  - destruct H5 as (? & -> & _). split_and!; [done|done|]. by apply Htaken.
  - destruct H5 as [? H5]. split; [done|]. by apply (answer_stays _ _ more _ H5).
Qed.

(** No answer before the flusher has taken the request, and then a good one. *)
Lemma bench_answer n b i : bench_inv n b → recv_answer (wb_wal b) i = None ∨ recv_answer (wb_wal b) i = Some (inr tt).
Proof.
  intros [Hw Hr _ _ _]. unfold recv_answer. destruct (list_find _ (answers (wb_wal b))) as [[j [i' ok]]|] eqn:E; [|rewrite Hr; by left]. apply list_find_Some in E as (Hj & _ & _).
  apply list_elem_of_lookup_2 in Hj. destruct (vi_answers _ _ Hw _ _ Hj) as (-> & _). by right.
Qed.

Lemma answer_found c w i : wal_inv c w → (i, true) ∈ answers w → recv_answer w i = Some (inr tt).
Proof.
  intros Hw Hin. unfold recv_answer. destruct (list_find (λ a : nat * bool, a.1 = i) (answers w)) as [[j [i' ok]]|] eqn:E.
  - apply list_find_Some in E as (Hj & _ & _). apply list_elem_of_lookup_2 in Hj. by destruct (vi_answers _ _ Hw _ _ Hj) as (-> & _).
  - apply list_find_None in E. rewrite Forall_forall in E. by specialize (E _ Hin).
Qed.

Lemma bench_flush_at n : ((Rec <$> bench_records n) ++ [Flush]) !! n = Some Flush.
Proof. apply list_lookup_middle. unfold bench_records. by rewrite !length_fmap, length_seq. Qed.

Lemma bench_inv_step n b ev : bench_inv n b → bench_io_ok ev → bench_inv n (wal_bench_step n b ev).
Proof.
  intros Hb Hio. pose proof Hb as [Hw Hr Hs Hn Hat]. destruct ev as [|io|io]; cbn in Hio; subst; cbn [wal_bench_step].
  - unfold wal_bench_main. destruct (wb_at b) as [|i| |] eqn:Eat; [|..|done|done].
    + unfold bench_sent in Hs. rewrite Eat, app_nil_r in Hs. destruct (Nat.ltb_spec (wb_next b) n) as [Hlt|Hge].
      * unfold append_async, try_send. rewrite Hr. cbn [negb]. destruct (Nat.leb_spec (cap (wb_wal b)) (queued (wb_wal b))) as [Hfull|Hroom].
        -- destruct b as [w k at_]. cbn in *. by subst at_.
        -- split; cbn [wb_wal wb_next wb_at push running]; [by apply wal_inv_push|done| |lia|done].
           unfold bench_sent. cbn [push sent wb_next wb_at]. by rewrite Hs, app_nil_r, bench_records_S, fmap_app.
      * unfold send. rewrite Hr. cbn [negb]. destruct (Nat.leb_spec (cap (wb_wal b)) (queued (wb_wal b))) as [Hfull|Hroom]; [done|]. assert (wb_next b = n) as Hnn by lia.
        split; cbn [wb_wal wb_next wb_at push running]; [by apply wal_inv_push|done| |done|].
        -- unfold bench_sent. cbn [push sent wb_next wb_at]. by rewrite Hs.
        -- assert (length (sent (wb_wal b)) = n) as Hl by (rewrite Hs, length_fmap; unfold bench_records; by rewrite length_fmap, length_seq). split_and!; [done|done|].
           cbn [push received]. pose proof (vi_received _ _ Hw). lia.
    + destruct Hat as (Hnn & -> & _). destruct (bench_answer n b n Hb) as [E|E]; rewrite E; [done|]. split; cbn [wb_wal wb_next wb_at]; try done.
      unfold bench_sent in *. cbn [wb_next wb_at]. by rewrite Eat in Hs.
  - pose proof (wal_inv_step [] _ (EvRecv IoOk) eq_refl Hw) as Hw'. destruct (sent (wb_wal b) !! received (wb_wal b)) as [m|] eqn:Hm.
    + destruct (flusher_takes (wb_wal b) m Hr Hm) as (H1 & H2 & H3 & _ & H4 & H5); [apply (no_shutdown b); rewrite <- Hs; by eapply list_elem_of_lookup_2|]. apply bench_inv_flusher; try done.
      intros Eat Hlt. rewrite Eat in Hat. destruct Hat as (Hnn & _ & Hans). rewrite H3 in Hlt. destruct (decide (received (wb_wal b) = n)) as [Heq|Hne].
      * rewrite Heq in H4. apply (answer_found []); [done|]. apply H4. rewrite Hs, Heq in Hm. unfold bench_sent in Hm. rewrite Eat, Hnn in Hm. rewrite (bench_flush_at n) in Hm. congruence.
      * destruct H5 as [more Hmore]. eapply answer_stays; [apply Hans; lia|exact Hmore].
    + assert (wal_step (wb_wal b) (EvRecv IoOk) = wb_wal b) as -> by (cbn [wal_step]; by rewrite Hr, Hm). by destruct b.
  - destruct (timeout_keeps (wb_wal b) Hr) as (H1 & H2 & H3 & H4). apply bench_inv_flusher; try done; [by apply wal_inv_step|exists []; by rewrite H3, app_nil_r|].
    intros Eat Hlt. rewrite Eat in Hat. destruct Hat as (_ & _ & Hans). eapply (answer_stays _ _ []); [apply Hans; lia|by rewrite H3, app_nil_r].
Qed.

Lemma bench_inv_run n evs : ∀ b, bench_inv n b → Forall bench_io_ok evs → bench_inv n (wal_bench_run n b evs).
Proof. induction evs as [|ev evs IH]; intros b Hb Hevs; [done|]. apply Forall_cons in Hevs as [Hev Hevs]. apply IH; [by apply bench_inv_step|done]. Qed.

Lemma bench_inv_new n : bench_inv n (wal_bench_new true).
Proof. split; [apply wal_inv_open|done|done|cbn; lia|done]. Qed.

(** ** The end *)

Lemma prefix_records n k : encode_all (records (take k ((Rec <$> bench_records n) ++ [Flush]))) `prefix_of` encode_all (bench_records n).
Proof.
  rewrite <- (records_of_recs (bench_records n)) at 2. assert (records ((Rec <$> bench_records n) ++ [Flush]) = records (Rec <$> bench_records n)) as <- by (by rewrite records_snoc, app_nil_r).
  set (l := _ ++ [Flush]). exists (encode_all (records (drop k l))). rewrite <- encode_all_app. f_equal. rewrite <- (take_drop k l) at 1. apply omap_app.
Qed.

Lemma bench_end_file n b : bench_inv n b → wb_at b = AtEnd → file (flusher (wb_wal b)) = encode_all (bench_records n) ∧ synced (flusher (wb_wal b)) = length (file (flusher (wb_wal b))).
Proof.
  intros [Hw _ Hs _ Hat] Eat. rewrite Eat in Hat. destruct Hat as [Hn Hans]. split; [|apply Hw]. unfold bench_sent in Hs. rewrite Eat, Hn in Hs.
  pose proof (recv_answer_ok _ _ _ Hw Hans) as Hp. rewrite Hs, take_app_length', records_of_recs in Hp by (unfold bench_records; by rewrite !length_fmap, length_seq). cbn [app] in Hp.
  apply (anti_symm prefix); [|done]. etrans; [|apply (prefix_records n (received (wb_wal b)))]. pose proof (vi_bytes _ _ Hw) as Hb. unfold logged in Hb. rewrite Hs in Hb. cbn [app] in Hb. rewrite <- Hb. by apply prefix_app_r.
Qed.

(** ** Progress *)

Definition can_end (n : nat) (b : WalRun) : Prop := ∃ evs, Forall bench_io_ok evs ∧ wb_at (wal_bench_run n b evs) = AtEnd.

Lemma can_end_after n b evs : Forall bench_io_ok evs → can_end n (wal_bench_run n b evs) → can_end n b.
Proof. intros H1 (evs' & H2 & He). exists (evs ++ evs'). split; [by apply Forall_app|]. unfold wal_bench_run in *. by rewrite foldl_app. Qed.

(** The flusher up to the request, then the main thread. *)
Lemma answer_comes n k : ∀ b, bench_inv n b → wb_at b = AtAnswer n → (S n - received (wb_wal b) = k)%nat → can_end n b.
Proof.
  induction k as [|k IH]; intros b Hb Eat Hk.
  - pose proof (bi_at _ _ Hb) as Hat. rewrite Eat in Hat. destruct Hat as (_ & _ & Hans). exists [WbMain]. split; [by repeat constructor|]. cbn. unfold wal_bench_main. rewrite Eat, Hans by lia. done.
  - apply (can_end_after n b [WbRecv IoOk]); [by repeat constructor|]. apply IH; [by apply bench_inv_step|done|]. pose proof Hb as [Hw Hr Hs _ Hat]. rewrite Eat in Hat. destruct Hat as (Hn & _ & _).
    destruct (lookup_lt_is_Some_2 (sent (wb_wal b)) (received (wb_wal b))) as [m Hm].
    { rewrite Hs. unfold bench_sent. rewrite Eat, Hn, length_app. unfold bench_records. rewrite !length_fmap, length_seq. cbn. lia. }
    destruct (flusher_takes (wb_wal b) m Hr Hm) as (_ & _ & H3 & _); [apply (no_shutdown b); rewrite <- Hs; by eapply list_elem_of_lookup_2|]. cbn [wal_bench_run foldl wal_bench_step wb_wal]. rewrite H3. lia.
Qed.

(** After the flusher has taken a message there is room for one. *)
Lemma room_after n b : bench_inv n b → let w := wal_step (wb_wal b) (EvRecv IoOk) in (queued w < cap w)%nat.
Proof.
  intros [Hw Hr Hs _ _]. destruct (vi_queued _ _ Hw) as [Hc Hq]. destruct (sent (wb_wal b) !! received (wb_wal b)) as [m|] eqn:Hm.
  - destruct (flusher_takes (wb_wal b) m Hr Hm) as (_ & H2 & H3 & H4 & _); [apply (no_shutdown b); rewrite <- Hs; by eapply list_elem_of_lookup_2|].
    apply lookup_lt_Some in Hm. cbn zeta. unfold queued in *. rewrite H2, H3, H4. lia.
  - cbn [wal_step]. rewrite Hr, Hm. apply lookup_ge_None in Hm. unfold queued in *. lia.
Qed.

Lemma bench_can_end n k : ∀ b, bench_inv n b → (n - wb_next b = k)%nat → can_end n b.
Proof.
  induction k as [|k IH]; intros b Hb Hk; pose proof Hb as [Hw Hr Hs Hn Hat]; destruct (wb_at b) as [|i| |] eqn:Eat; try done; try (destruct Hat as (Hnn & _); lia).
  - apply (can_end_after n b [WbRecv IoOk; WbMain]); [by repeat constructor|]. pose proof (room_after n b Hb) as Hroom. cbn zeta in Hroom.
    pose proof (bench_inv_step n b (WbRecv IoOk) Hb eq_refl) as Hb1. pose proof (bench_inv_step n _ WbMain Hb1 I) as Hb2. refine (answer_comes n _ _ Hb2 _ eq_refl).
    cbn [wal_bench_step] in *. unfold wal_bench_main. cbn [wb_at wb_wal wb_next]. rewrite Eat, (proj2 (Nat.ltb_ge _ _)) by lia. unfold send. rewrite (bi_running _ _ Hb1 : running (wal_step _ _) = true). cbn [negb].
    rewrite (proj2 (Nat.leb_gt _ _) Hroom). cbn [wb_at]. f_equal. pose proof (bi_sent _ _ Hb1) as Hs1. unfold bench_sent in Hs1. cbn [wb_wal wb_next wb_at] in Hs1. rewrite Hs1, Eat, app_nil_r. unfold bench_records. rewrite !length_fmap, length_seq. lia.
  - destruct Hat as (_ & -> & _). by apply (answer_comes n _ b Hb Eat eq_refl).
  - exists []. by split.
  - apply (can_end_after n b [WbRecv IoOk; WbMain]); [by repeat constructor|]. pose proof (room_after n b Hb) as Hroom. cbn zeta in Hroom.
    pose proof (bench_inv_step n b (WbRecv IoOk) Hb eq_refl) as Hb1. pose proof (bench_inv_step n _ WbMain Hb1 I) as Hb2. apply (IH _ Hb2).
    cbn [wal_bench_run foldl wal_bench_step] in *. unfold wal_bench_main. cbn [wb_at wb_wal wb_next]. rewrite Eat, (proj2 (Nat.ltb_lt _ _)) by lia. unfold append_async, try_send. rewrite (bi_running _ _ Hb1 : running (wal_step _ _) = true). cbn [negb].
    rewrite (proj2 (Nat.leb_gt _ _) Hroom). cbn [wb_next]. lia.
Qed.

(** [wal_bench] with [n] records.  However the main thread and the flusher take turns, as long as the writes succeed: it does not panic, from wherever it is it
    can come to its end, and at its end the file, synced to its last byte, holds the [n] records in order and nothing else. *)
Theorem wal_bench_writes_all n evs :
  Forall bench_io_ok evs →
  let b := wal_bench_run n (wal_bench_new true) evs in
  wb_at b ≠ AtPanic ∧ (∃ evs', Forall bench_io_ok evs' ∧ wb_at (wal_bench_run n b evs') = AtEnd)
  ∧ (wb_at b = AtEnd → file (flusher (wb_wal b)) = encode_all (bench_records n) ∧ synced (flusher (wb_wal b)) = length (file (flusher (wb_wal b)))).
Proof.
  intros Hevs b. pose proof (bench_inv_run n evs _ (bench_inv_new n) Hevs) as Hb. fold b in Hb. split_and!.
  - intros Eat. pose proof (bi_at _ _ Hb) as Hat. by rewrite Eat in Hat.
  - exact (bench_can_end n _ b Hb eq_refl).
  - by apply bench_end_file.
Qed.

(** A file that cannot be opened: the first append panics, or the flush when there is none. *)
Lemma wal_bench_unopened n : wb_at (wal_bench_run n (wal_bench_new false) [WbMain]) = AtPanic.
Proof. by destruct n. Qed.
